(* ===== verification/_CoqProject ===== *)
-Q . S2P
Prelude.v
SortBy.v
Artifact.v
ExecutionAdmission.v
AdmissionLifecycle.v
PidCapacity.v
WorkerQueue.v
QueueSchedule.v
QueueTheorems.v
StoreWire.v
WorkerStore.v
StoreTransaction.v
StoreDocument.v
TransactionSteps.v
TransactionTheorems.v
StoreCodec.v
FileSystem.v
UnixStore.v
UnixSteps.v
UnixTheorems.v
UnixProgress.v
ScaleSetProtocol.v
AttemptState.v
AttemptLifecycle.v
WorkerReconciler.v
ReconcilerTheorems.v
CleanupLoop.v
AttemptCatalog.v
CatalogDocument.v
CatalogSteps.v
CatalogTheorems.v
CatalogStore.v
AttemptCodec.v
CatalogCodec.v
ScaleSetDelivery.v
DeliveryConsumer.v
DeliveryTheorems.v
DeliveryRecovery.v
RecoveryTheorems.v
SettlementTheorems.v
RecoveryCodec.v
CatalogDisk.v
DeliveryDisk.v
DeliveryPair.v
DeliveryController.v
DiskLogic.v
PairSteps.v
PairRecovery.v
PairPublish.v
PairSamples.v
PairTheorems.v
ControllerSteps.v
ControllerTheorems.v
LimaLifecycle.v
LimaTheorems.v
MacAvailability.v
HostBroker.v
WorkerTick.v
TickTheorems.v
TickProgress.v
TemplateGeneration.v
TemplateTheorems.v
WorkerCommands.v
WorkerRuntime.v
RunnerRuntime.v
WorkerTransactions.v
WorkerSteps.v
WorkerOnce.v
WorkerSamples.v
LaneJournal.v
JournalTheorems.v
JournalDocument.v
JournalSnapshots.v
LaneCommands.v
LaneTheorems.v
LaneExecution.v
Leases.v
LeaseTheorems.v
LeaseDisk.v
LeaseDiskTheorems.v
