(* ===== verification/Prelude.v ===== *)
(** * Verification library of the glaeda control plane

    glaeda runs build and verification jobs on a person's own machine.  Its
    control plane decides which jobs may hold the worker, records every decision
    in one durable document, and drives virtual machines and runners from it.
    This library models the core of that control plane, the personal worker,
    from the Rust sources under [src/src/], and proves what makes it correct.

    ** The program's parts and how they interact

    - Identities ([artifact.rs], the identifier types of
      [execution_admission.rs] and [verification_profile.rs]): strings that a
      parser accepted.
    - Execution admission ([execution_admission.rs]): the lifecycle of one
      execution, as records of evidence and a planner of transitions.
    - Capacity ([personal_worker_pid_capacity.rs]): the process ids the worker
      may hand out.
    - The queue ([personal_worker_queue.rs]): validates what is queued and
      active, and selects what may start next.
    - The store document ([personal_worker_store.rs]): queue, cache leases,
      terminal tombstones and a bounded history under one revision; its
      validators, its advance, its serialized form and its migration.
    - The transaction ([personal_worker_store_transaction.rs]): recovers the
      store, loads the document, applies one mutation and publishes the
      successor through the [PersonalWorkerStore] trait.
    - The store on disk ([unix_personal_worker_store.rs] with the guards of its
      submodules): stages, synchronizes and renames documents under a lock, and
      recovers from interruptions.
    - Disposable attempts ([disposable_attempt_state.rs], with the identities of
      [github_scale_set_protocol.rs]): the durable record of one disposable
      virtual machine with its runner and job.
    - The reconciler ([disposable_worker_reconciler.rs]): plans capacity, and
      decides from observations what to do next about an attempt.
    - The catalog ([disposable_attempt_catalog.rs] with its codec and lookups):
      all attempts with the resources they hold, under one revision, behind the
      [DisposableAttemptCatalogStore] trait.
    - Scale-set deliveries ([github_scale_set_delivery.rs], the consumer, state
      and settlement files beside it): messages of the job service, the catalog
      each one makes, and the recovery document that carries a message from its
      reconciliation over the external acknowledgement to a settlement.
    - The catalog and the recovery document on disk (the submodules
      [disposable_attempt_catalog] and [scale_set_delivery_recovery] of
      [unix_personal_worker_store]): each staged and renamed like the store
      document, and pairs of them changed together.
    - The delivery controller ([github_scale_set_delivery_controller.rs]): one
      delivery carried over its acknowledgement, between the directory and the
      bridge to the job service.
    - The Lima machine ([lima_lifecycle.rs]): observations of the virtual machine
      the worker runs in, and which observation may follow which.
    - Host availability ([mac_availability.rs]): whether the person's machine may
      be used now.
    - The host broker ([personal_worker_host_broker.rs]) and the worker tick
      ([personal_worker_tick.rs]): the one action that the queue, the machine, its
      runner, the host's capacity and its availability lead to.
    - The source template ([disposable_template_generation.rs]): the record of
      how the machine that workers are cloned from is created and verified.
    - Disposable workers ([disposable_lima_worker.rs],
      [disposable_clone_runtime.rs], [disposable_runner_runtime.rs], and the
      submodules [disposable_clone_transaction], [disposable_runner_transaction]
      and [disposable_cleanup_transaction] of [unix_personal_worker_store]): a
      machine is cloned, started, given a runner and destroyed, each step by a
      transaction that publishes a checkpoint in the catalog before it acts.
    - The lanes of a Linux host ([journal.rs], [durable_journal.rs],
      [journal_document.rs], [state.rs], [state_store.rs], [lane_command.rs],
      [lane_executor.rs], [lane_executable.rs], [durable_lane_execution.rs]): a
      plan of reviewed commands is executed with a durable journal, which is
      written before and after every call.
    - Leases ([lease.rs], [lease_catalog.rs], [lease_document.rs],
      [linux_lease_store.rs]): what holds a lane's workspace, changed under a
      revision that has to match, one file for each below the installation.

    ** Files

    - [Prelude] (this file): results of Rust calls, the state-and-error monad,
      machine integers, orderings, and the tactics and hints of the library.
      [SortBy]: what [sort_by] guarantees.
    - [Artifact]: identities and their parsers.
    - [ExecutionAdmission]: one definition per function of the source, the
      checks in the order of the source.  [AdmissionLifecycle]: the transition
      system of planned transitions and its theorems.
    - [PidCapacity]: the admission check on [u32].
    - [WorkerQueue]: the queue, function by function.  [QueueSchedule]: the
      greedy schedule as a relation that does not mention the algorithm, and the
      correspondence.  [QueueTheorems]: the theorems and a sample queue.
    - [StoreWire]: the serialized structs and their conversions; the class
      [WireIso] states that a conversion is inverse to the other on the values
      the constructors accept.  [WorkerStore]: the document and its operations.
      [StoreDocument]: what a valid document guarantees.  [StoreCodec]:
      encoding, decoding and migration.
    - [StoreTransaction]: the mutations and the transaction.
      [TransactionSteps]: the effect of each mutation.  [TransactionTheorems]:
      the theorems, and the interface [StoreContract] the transaction is proved
      against, with a store in memory as a first instance.
    - [FileSystem]: the directory, its calls, faults, stops and restarts.
      [UnixStore]: the store on disk.  [UnixSteps]: a program logic for it, with
      one rule per call.  [UnixTheorems]: crash safety and the proof that the
      store on disk satisfies [StoreContract].  [UnixProgress]: runs without
      faults, and what blocks the store.
    - [ScaleSetProtocol]: the identities of runners and jobs.  [AttemptState]:
      the attempt record, its validation, transitions and successor test.
      [AttemptLifecycle]: the step relation of the transitions and its theorems.
    - [WorkerReconciler]: capacity planning and the reconciliation of an attempt.
      [ReconcilerTheorems]: what each answer is justified by.  [CleanupLoop]: the
      control loop closed with a world that does what it is told.
    - [AttemptCatalog]: the catalog document, its operations, the successor
      tests, the facade and the store in memory.  [CatalogDocument]: what
      validation establishes.  [CatalogSteps]: every operation on every branch.
      [CatalogTheorems]: chains of operations.  [CatalogStore]: the successor
      tests, and the facade over the class [CatalogStoreLaws].  [AttemptCodec]:
      the texts of attempts and catalogs.  [CatalogCodec]: their round trips.
    - [ScaleSetDelivery]: the delivery document.  [DeliveryConsumer]: what a
      delivery makes of a catalog.  [DeliveryTheorems]: one event, a whole
      delivery and a resolution.  [DeliveryRecovery]: the recovery document and
      the settlement.  [RecoveryTheorems]: runs of the recovery document.
      [SettlementTheorems]: consumer, recovery document and settlement together.
      [RecoveryCodec]: the text of the recovery document.
    - [CatalogDisk], [DeliveryDisk]: the catalog and the recovery document in the
      directory.  [DeliveryPair]: the transactions that change both, and their
      recovery.  [DeliveryController]: the controller over a directory and a
      bridge.  [DiskLogic]: the program logic of [UnixSteps] for documents of any
      type and for sets of directories; [PairSteps]: the rules of the pair
      operations.  [PairRecovery]: the directories a transaction may leave, and
      what recovery makes of each.  [PairPublish]: the directories each
      transaction may leave.  [PairSamples]: sample documents and directories.
      [PairTheorems]: atomicity of the pairs, and the directories that block.
      [ControllerSteps]: the transactions of the controller on a directory with
      nothing staged.  [ControllerTheorems]: runs of the controller.
    - [LimaLifecycle]: observations, target and transitions of the machine.
      [LimaTheorems]: runs of accepted transitions.  [MacAvailability],
      [HostBroker], [WorkerTick]: the decisions of a tick, function by function.
      [TickTheorems]: the evidence each action rests on.  [TickProgress]: the
      queue evaluator and the tick together.
    - [TemplateGeneration]: the record of the source template, its decisions and
      its text.  [TemplateTheorems]: chains of its transitions.
    - [WorkerCommands]: commands and the adapter that plans [limactl] commands.
      [WorkerRuntime], [RunnerRuntime]: what is looked at before a command runs,
      and the command.  [WorkerTransactions]: the transactions, over a directory
      and a host.  [WorkerSteps]: the effects that may happen once, and when the
      catalog still allows them.  [WorkerOnce]: runs of the transactions.
      [WorkerSamples]: two sample runs.
    - [LaneJournal]: plans and their execution, in memory and with snapshots.
      [JournalTheorems]: what a durable journal accounts for.  [JournalDocument]:
      the document a snapshot is.  [JournalSnapshots]: every snapshot is valid.
      [LaneCommands]: commands, their review and their execution.  [LaneTheorems]:
      what is built passes the review.  [LaneExecution]: plans bound to commands
      and the commands that run, with two sample runs.
    - [Leases]: records, catalog and document.  [LeaseTheorems]: reachable
      records, the class [LeaseStoreLaws], and traces of processes over a store
      that keeps it.  [LeaseDisk]: the store on disk, over two directories.
      [LeaseDiskTheorems]: it keeps the contract, and when opening it is durable.

    ** How the code is modelled

    A Rust function that returns [Result] returns [result], whose third value
    [Panic] is an unwinding [expect], [unreachable!] or index; theorems about
    totality show that it does not occur.  Unsigned integers are [N] with the
    width written out where an operation checks, saturates or converts; newtypes
    are their contents, and what their constructors accept is a predicate
    ([accepted], [document_wf]).  A method that changes the store returns the
    new state beside its result, on error paths too.  [BTreeMap] and [BTreeSet]
    are [gmap], [gset] or association by search where only membership matters.
    Loops are folds with the error of the source.  The one loop that is not, the
    selection loop of the queue, has one unit of fuel more than the worker has
    slots: each round fills a slot or ends the loop, and running out of fuel
    would be a [Panic], which the totality theorem of the queue excludes.  The
    validation of a recovery document calls itself on the documents it came
    from; three levels are enough, and [recovery_validate_deeper] shows that
    more change nothing.

    Code outside the sources is a parameter: [StoreSerde] ([serde_json] and
    SHA-256 of the digests), [DocumentSerde] ([serde_json] on documents) with
    the laws [DocumentSerdeLaws], [CatalogSerde] with the laws
    [CatalogSerdeLaws] and [CatalogSerdeCut], [DeliverySerde] with
    [DeliverySerdeLaws], [RecoverySerde] with [RecoverySerdeLaws], [GenerationSerde]
    with [GenerationSerdeLaws], [IdentitySerde], [Sha256Hasher],
    and the service behind the trait [DeliveryBridge].  The host of the
    disposable workers is a state behind one class for each trait of the source
    ([TimedCommandExecutor], [CloneRuntimeClock], [DisposableCloneAdmissionSource],
    [DisposableCleanupRunnerSource], [DisposableRunnerRegistrationSource]) and
    [WorkerViews], the observers of Lima and of the host's files; any of its calls
    may fail or be the last one of the process.  So are the traits of the lanes
    ([MutationExecutor], [JournalCheckpoint], [StateStore], [LaneHost],
    [LaneCommandRunner]); [JournalSerde] and [LeaseSerde] are [serde_json] again.
    Four parameters stand for
    code that is not modelled: [LimaAuthorityReader] (the decoder of the Lima
    document), [StoreInitializer] (the creation of a directory that does not
    exist yet; the theorems start from directories that do), [PreparedTemplate]
    (the values read from the checked-in template manifest) and [OwnedLinux] (the
    commands of the backend that owns a Linux host).  The operating system is the model of [FileSystem]: every
    call may be served, refused or be the last one before the process stops, a
    refused or stopped write leaves a prefix; after the machine stops, a file
    not synchronized may be cut short and the directory is as it was at some
    moment since its last synchronization.  The sample instances at the end of
    the files show that the laws and the hypotheses can hold.

    ** What the theorems show

    Admission: the constructor accepts exactly the evidence table of the state;
    chains of transitions keep identity, limits and reservation; endings go
    through draining; a terminal successor always exists, but none exists for a
    draining record once its reservation has expired.  Capacity and queue: the
    selection is the unique greedy schedule, never overcommits the worker, leaves
    no fitting job waiting, inverts no priority, ignores the order of submission
    and never panics; the report is complete.  Document: leases and active
    reservations correspond, identities are unique, the history is a window of
    the full log, and decoding inverts encoding.  Transaction: mutations produce
    accepted successors, are idempotent, lose no work and never panic; cancelled
    jobs are never removed.  Store: replacement, creation and migration are
    atomic and durable under any faults, stops and restarts; recovery settles on
    the old or the new document; without faults a replacement and a recovery get
    through; a stage that does not decode blocks every writer.  Together with
    [StoreContract] this makes a transaction that died anywhere safe to retry.
    Attempts: chains of steps keep identities, evidence and checkpoints, the
    history test is exact, one-time checkpoints are refused a second time and
    everything else is idempotent, cleanup reaches completion from every record
    that may own a machine it can name, and the successor test decides the step
    relation.  Reconciler: whatever is observed the answer is justified by the
    record, planned capacity is exactly what the host has, and with truthful
    observations cleanup ends with nothing left behind.  Catalog: every chain of
    operations keeps it valid, attempts hold their resources until they are
    complete, the store accepts exactly the operations, the facade refines them,
    and texts and catalogs determine each other.  Deliveries: a delivery leads to
    one worker at most and only to workers it asked for, an event seen again does
    nothing, a settlement rests on observed evidence and ends exactly the offers
    that were not acquired, and what the consumer derives the recovery document
    accepts.  Pairs on disk: publishing a delivery, resolving an acquisition and
    settling each change catalog and recovery document together, under any
    faults, stops and restarts; a stage of an ordinary successor, and a catalog
    stage without its intent, block the controller for good.  Controller: over
    any runs, stops and restarts a message with available work is acknowledged
    at most once while its delivery is unsettled.  Machine: along every run the
    identity stays, times and generations advance, a stop comes after the idle
    cooldown and a smaller profile after a completed drain.  Tick: it always
    returns, every action rests on fresh evidence that agrees with the queue, and
    with such evidence the one job the queue selected moves forward; while two
    jobs are selected nothing is started.  Template: along every chain identities
    stay, each step is taken once, the owned object is bound once; a decision
    confirmed by what it was made from can be carried out; the successor test is
    exact; texts and records determine each other.  Workers, on the Lima backend:
    over any runs of the transactions, stops and restarts, no machine is cloned
    twice, no configuration is generated twice, no runner is launched twice, each
    only after its checkpoint is durable, and what is destroyed is the machine
    that the attempt is bound to.  Lanes: wherever a run stops, the durable journal
    accounts for every call but the one under way, calls follow the plan and
    rollbacks its reverse, snapshots change nothing and are valid documents; the
    commands of an accepted plan run in its order, each once, and what can be
    built passes the review.  Leases: the document accepts exactly what
    transitions reach; whatever processes do, every revision has one confirmed
    writer, and on disk no confirmed revision is lost to a stop or a restart.
    Opening the store is durable but after two interrupted openings in a row.

    ** What is not modelled

    Creating and publishing the managed directory ([open_or_create],
    [initialize_if_clean] and the service lock) and the persistence of the
    template and Lima documents, which are input and output around documents that
    are modelled or parameters; the policy constructor that reads a prepared
    template; the loops of the coordinator and the supervisor, which call the
    modelled transactions on timers and signals; the backend that owns a Linux
    host, the store of journals on disk, the ownership of host
    resources, project disks and caches, which share no state with the parts
    above; and everything that talks to virtual machines,
    GitHub, launchd, systemd or the terminal.  Writers that bypass the lock are
    outside the contract of the store and of this model. *)

From Stdlib Require Export Ascii.
From stdpp Require Export base strings gmap list sorting.
From Stdlib Require Export ZifyBool ZifyN.
From Stdlib Require Export Lia.

Declare Scope glaeda_scope.
Delimit Scope glaeda_scope with glaeda.

(** ** Results of Rust calls *)

(** The value of a call that returns [Result<A, E>].  [Panic] is the third
    thing a Rust call can do: unwind out of an [expect], an [unreachable!] or
    an index that is out of range. *)
Inductive result (E A : Type) : Type :=
| Ok (a : A)
| Err (e : E)
| Panic.

Arguments Ok {E A} a.
Arguments Err {E A} e.
Arguments Panic {E A}.

#[global] Instance result_eq_dec {E A} `{EqDecision E, EqDecision A} :
  EqDecision (result E A).
Proof. solve_decision. Defined.

#[global] Instance result_ret {E} : MRet (result E) := λ A a, Ok a.

(** The [?] operator: [x ← e; k]. *)
#[global] Instance result_bind {E} : MBind (result E) := λ A B f m,
  match m with
  | Ok a => f a
  | Err e => Err e
  | Panic => Panic
  end.

(** [Result::map_err]. *)
Definition map_err {E E' A} (f : E → E') (m : result E A) : result E' A :=
  match m with
  | Ok a => Ok a
  | Err e => Err (f e)
  | Panic => Panic
  end.

(** [Option::ok_or_else]. *)
Definition ok_or {E A} (o : option A) (e : E) : result E A :=
  match o with
  | Some a => Ok a
  | None => Err e
  end.

(** [Option::expect]. *)
Definition expect {E A} (o : option A) : result E A :=
  match o with
  | Some a => Ok a
  | None => Panic
  end.

(** [Result::ok]. *)
Definition ok {E A} (m : result E A) : option A :=
  match m with
  | Ok a => Some a
  | _ => None
  end.

Definition is_ok {E A} (m : result E A) : bool :=
  match m with
  | Ok _ => true
  | _ => false
  end.

Arguments result_bind {E} A B f !m /.
Arguments map_err {E E' A} f !m /.
Arguments ok_or {E A} !o e /.
Arguments expect {E A} !o /.
Arguments ok {E A} !m /.
Arguments is_ok {E A} !m /.

(** [Option::map(f).transpose()] for a fallible [f]. *)
Definition traverse_option {E A B} (f : A → result E B) (o : option A)
    : result E (option B) :=
  match o with
  | Some a => b ← f a; Ok (Some b)
  | None => Ok None
  end.

(** [iter().map(f).collect::<Result<Vec<_>, _>>()]. *)
Fixpoint traverse {E A B} (f : A → result E B) (l : list A)
    : result E (list B) :=
  match l with
  | [] => Ok []
  | a :: l => b ← f a; bs ← traverse f l; Ok (b :: bs)
  end.

(** A [for] loop whose body may leave the function with an error. *)
Fixpoint fold_result {E A S} (f : S → A → result E S) (s : S) (l : list A)
    : result E S :=
  match l with
  | [] => Ok s
  | a :: l => s' ← f s a; fold_result f s' l
  end.

(** [Option::is_some_and] and [Option::is_none_or]. *)
Definition is_some_and {A} (p : A → bool) (o : option A) : bool :=
  match o with
  | Some a => p a
  | None => false
  end.

Definition is_none_or {A} (p : A → bool) (o : option A) : bool :=
  match o with
  | Some a => p a
  | None => true
  end.

Definition is_some {A} (o : option A) : bool :=
  match o with
  | Some _ => true
  | None => false
  end.

(** ** State and errors

    A method that takes [&mut self] returns the new state beside its result;
    the state is kept on the error paths too. *)

Definition stM (S E A : Type) : Type := S → S * result E A.

#[global] Instance stM_ret {S E} : MRet (stM S E) := λ A a s, (s, Ok a).

#[global] Instance stM_bind {S E} : MBind (stM S E) := λ A B f m s,
  match m s with
  | (s', Ok a) => f a s'
  | (s', Err e) => (s', Err e)
  | (s', Panic) => (s', Panic)
  end.

(** A call that does not touch the state. *)
Definition pureM {S E A} (r : result E A) : stM S E A := λ s, (s, r).

(** A call whose error is converted. *)
Definition callM {S E E' A} (f : E → E') (m : stM S E A) : stM S E' A :=
  λ s, let '(s', r) := m s in (s', map_err f r).

(** [Vec<u8>] and [&[u8]]. *)
Abbreviation bytes := (list ascii).

(** ** Unsigned machine integers

    A [u8], [u32] or [u64] is an [N]; the operations below take the largest
    value of the width and write out what the Rust operation does at the end
    of the range.  [saturating_sub] is the truncated subtraction of [N]. *)

Definition u8_max : N := 255.
Definition u32_max : N := 4294967295.
Definition u64_max : N := 18446744073709551615.

Definition checked_add (max a b : N) : option N :=
  if (a + b <=? max)%N then Some (a + b)%N else None.

Definition saturating_add (max a b : N) : N := N.min (a + b) max.

Definition checked_sub (a b : N) : option N :=
  if (b <=? a)%N then Some (a - b)%N else None.

(** [T::try_from(v).ok()] for an unsigned target of the given width. *)
Definition try_from_int (max v : N) : option N :=
  if (v <=? max)%N then Some v else None.

(** [(lo..=hi).contains(&v)]. *)
Definition in_range (lo hi v : N) : bool := (lo <=? v)%N && (v <=? hi)%N.

(** ** Orderings *)

(** [Ordering::then_with]. *)
Definition then_with (c1 c2 : comparison) : comparison :=
  match c1 with
  | Eq => c2
  | c => c
  end.

(** The laws a [cmp] closure has to obey for [sort_by] to sort: a total
    preorder presented as a three-way comparison. *)
Class CompareLaws {A} (cmp : A → A → comparison) : Prop := {
  compare_flip x y : cmp y x = CompOpp (cmp x y);
  compare_le_trans x y z : cmp x y ≠ Gt → cmp y z ≠ Gt → cmp x z ≠ Gt;
}.

Arguments compare_flip {A} cmp {_} x y.
Arguments compare_le_trans {A} cmp {_} x y z _ _.

(** [slice::sort_by] is a stable sort. *)
Fixpoint insert_by {A} (cmp : A → A → comparison) (x : A) (l : list A)
    : list A :=
  match l with
  | [] => [x]
  | y :: l' =>
      match cmp x y with
      | Gt => y :: insert_by cmp x l'
      | _ => x :: y :: l'
      end
  end.

Definition sort_by {A} (cmp : A → A → comparison) (l : list A) : list A :=
  foldr (insert_by cmp) [] l.

(** [iter().position(p)]. *)
Fixpoint position {A} (p : A → bool) (l : list A) : option nat :=
  match l with
  | [] => None
  | x :: l => if p x then Some 0 else S <$> position p l
  end.

(** ** Tactics *)

Lemma bind_Ok {E A B} (m : result E A) (f : A → result E B) b :
  (m ≫= f) = Ok b ↔ ∃ a, m = Ok a ∧ f a = Ok b.
Proof. destruct m; naive_solver. Qed.

Lemma bind_Panic {E A B} (m : result E A) (f : A → result E B) :
  (m ≫= f) = Panic ↔ m = Panic ∨ ∃ a, m = Ok a ∧ f a = Panic.
Proof. destruct m; naive_solver. Qed.

Lemma bind_Err {E A B} (m : result E A) (f : A → result E B) e :
  (m ≫= f) = Err e ↔ m = Err e ∨ ∃ a, m = Ok a ∧ f a = Err e.
Proof. destruct m; naive_solver. Qed.

Lemma map_err_Ok {E E' A} (f : E → E') (m : result E A) a :
  map_err f m = Ok a ↔ m = Ok a.
Proof. destruct m; naive_solver. Qed.

Lemma map_err_Panic {E E' A} (f : E → E') (m : result E A) :
  map_err f m = Panic ↔ m = Panic.
Proof. destruct m; naive_solver. Qed.

Lemma ok_or_Ok {E A} (o : option A) (e : E) a :
  ok_or o e = Ok a ↔ o = Some a.
Proof. destruct o; naive_solver. Qed.

Lemma ok_or_not_Panic {E A} (o : option A) (e : E) : ok_or o e ≠ Panic.
Proof. by destruct o. Qed.

Lemma expect_Ok {E A} (o : option A) a :
  expect (E := E) o = Ok a ↔ o = Some a.
Proof. destruct o; naive_solver. Qed.

Lemma ok_Some {E A} (m : result E A) a : ok m = Some a ↔ m = Ok a.
Proof. destruct m; naive_solver. Qed.

(** The guard [if b { return Err(..) }] was passed. *)
Lemma ok_guard {E A} (b : bool) (e : E) (m : result E A) a :
  (if b then Err e else m) = Ok a → b = false ∧ m = Ok a.
Proof. by destruct b. Qed.

(** [inv_ok H] runs a hypothesis [H : e = Ok v] backwards through the binds,
    guards and matches of [e], leaving one hypothesis per guard passed. *)
Ltac inv_ok H :=
  repeat
    lazymatch type of H with
    | Ok _ = Ok _ => injection H as H; fail
    | Err _ = Ok _ => discriminate H
    | Panic = Ok _ => discriminate H
    | mret _ = Ok _ => unfold mret, result_ret in H
    | (_ ≫= _) = Ok _ =>
        let y := fresh "y" in
        let Hy := fresh "Hy" in
        apply bind_Ok in H as (y & Hy & H)
    | map_err _ _ = Ok _ => apply map_err_Ok in H
    | ok_or _ _ = Ok _ => apply ok_or_Ok in H
    | expect _ = Ok _ => apply expect_Ok in H
    | (match ?x with _ => _ end) = Ok _ => destruct x eqn:?; try discriminate H
    end.

(** [inv_opts] reads the results that came out of options. *)
Ltac inv_opts :=
  repeat
    match goal with
    | H : ok_or _ _ = Ok _ |- _ => apply ok_or_Ok in H
    | H : expect _ = Ok _ |- _ => apply expect_Ok in H
    | H : map_err _ _ = Ok _ |- _ => apply map_err_Ok in H
    end.

(** [bprop] turns the boolean tests of the context into propositions. *)
Ltac bprop :=
  repeat
    match goal with
    | H : _ || _ = false |- _ => apply orb_false_iff in H as [? ?]
    | H : _ || _ = true |- _ => apply orb_true_iff in H
    | H : _ && _ = true |- _ => apply andb_true_iff in H as [? ?]
    | H : _ && _ = false |- _ => apply andb_false_iff in H
    | H : negb _ = false |- _ => apply negb_false_iff in H
    | H : negb _ = true |- _ => apply negb_true_iff in H
    | H : bool_decide _ = true |- _ => apply bool_decide_eq_true in H
    | H : bool_decide _ = false |- _ => apply bool_decide_eq_false in H
    | H : ¬ (_ ≠ _) |- _ => apply dec_stable in H
    | H : (_ <=? _)%N = true |- _ => apply N.leb_le in H
    | H : (_ <=? _)%N = false |- _ => apply N.leb_gt in H
    | H : (_ <? _)%N = true |- _ => apply N.ltb_lt in H
    | H : (_ <? _)%N = false |- _ => apply N.ltb_ge in H
    | H : (_ =? _)%N = true |- _ => apply N.eqb_eq in H
    | H : (_ =? _)%N = false |- _ => apply N.eqb_neq in H
    | H : in_range _ _ _ = true |- _ => unfold in_range in H
    | H : in_range _ _ _ = false |- _ => unfold in_range in H
    end.

(** [rsimpl] computes the monad operations on known results. *)
Ltac rsimpl :=
  cbn [mbind result_bind mret result_ret map_err ok_or expect ok is_ok] in *.

(** [inv_panic H] traces a hypothesis [H : e = Panic] back to the calls of
    [e] that could have panicked; a goal is left for each. *)
Ltac inv_panic H :=
  repeat
    lazymatch type of H with
    | Ok _ = Panic => discriminate H
    | Err _ = Panic => discriminate H
    | (_ ≫= _) = Panic =>
        let y := fresh "y" in
        let Hy := fresh "Hy" in
        apply bind_Panic in H as [H|(y & Hy & H)]
    | map_err _ _ = Panic => apply map_err_Panic in H
    | ok_or _ _ = Panic => exfalso; exact (ok_or_not_Panic _ _ H)
    | (match ?x with _ => _ end) = Panic => destruct x eqn:?; try discriminate H
    end.

(** [inv_oks] does [inv_ok] on every hypothesis, the ones it creates included. *)
Ltac inv_oks :=
  repeat
    match goal with
    | H : Err _ = Ok _ |- _ => discriminate H
    | H : Panic = Ok _ |- _ => discriminate H
    | H : Ok _ = Ok _ |- _ => injection H as H
    | H : (_ ≫= _) = Ok _ |- _ =>
        let y := fresh "y" in
        let Hy := fresh "Hy" in
        apply bind_Ok in H as (y & Hy & H)
    | H : map_err _ _ = Ok _ |- _ => apply map_err_Ok in H
    | H : ok_or _ _ = Ok _ |- _ => apply ok_or_Ok in H
    | H : expect _ = Ok _ |- _ => apply expect_Ok in H
    | H : (match ?x with _ => _ end) = Ok _ |- _ => destruct x eqn:?; try discriminate H
    end.

(** ** Newtypes

    A newtype is the raw value its constructor accepted. *)

Definition accepted {E A} (new : A → result E A) (a : A) : Prop := new a = Ok a.

Class KeepsRaw {E A} (new : A → result E A) : Prop :=
  keeps_raw raw a : new raw = Ok a → a = raw.

Lemma keeps_raw_iff {E A} (new : A → result E A) `{!KeepsRaw new} raw a :
  new raw = Ok a ↔ accepted new a ∧ a = raw.
Proof.
  split; [|by intros [H <-]]. intros H. pose proof (keeps_raw raw a H). by subst.
Qed.

(** ** Tests on integers and lists *)

Lemma checked_add_Some max a b c : checked_add max a b = Some c ↔ (c = a + b ∧ a + b ≤ max)%N.
Proof. unfold checked_add. destruct (_ <=? _)%N eqn:H; bprop; naive_solver lia. Qed.

Lemma checked_add_None max a b : checked_add max a b = None ↔ (max < a + b)%N.
Proof. unfold checked_add. destruct (_ <=? _)%N eqn:H; bprop; naive_solver lia. Qed.

Lemma in_range_true a b v : in_range a b v = true ↔ (a ≤ v ≤ b)%N.
Proof. unfold in_range. rewrite andb_true_iff, !N.leb_le. done. Qed.

Lemma negb_eqb_false a b : negb (a =? b)%N = false ↔ a = b.
Proof. rewrite negb_false_iff. apply N.eqb_eq. Qed.

Lemma existsb_false {A} (f : A → bool) l : existsb f l = false ↔ ∀ x, x ∈ l → f x = false.
Proof.
  induction l as [|y l IH]; simpl; [split; [intros _ x Hx; by apply elem_of_nil in Hx|done]|].
  rewrite orb_false_iff, IH. split.
  - intros [Hy Hl] x [->|Hx]%elem_of_cons; auto.
  - intros H. split; [apply H; left|]. intros x Hx. apply H. by right.
Qed.

(** ** Loops and panics *)

Lemma fold_result_no_panic {E A S} (f : S → A → result E S) s l :
  (∀ s a, f s a ≠ Panic) → fold_result f s l ≠ Panic.
Proof.
  intros Hf. revert s. induction l as [|a l IH]; intros s H; simpl in H; [done|].
  inv_panic H; [by eapply Hf|by eapply IH].
Qed.

Lemma traverse_no_panic {E A B} (f : A → result E B) l :
  (∀ a, a ∈ l → f a ≠ Panic) → traverse f l ≠ Panic.
Proof.
  induction l as [|a l IH]; intros Hf H; simpl in H; [done|].
  inv_panic H; [by apply (Hf a); [left|]|].
  apply IH in H; [done|]. intros b Hb. apply Hf. by right.
Qed.

Lemma traverse_Ok {E A B} (f : A → result E B) l bs :
  traverse f l = Ok bs ↔ Forall2 (λ a b, f a = Ok b) l bs.
Proof.
  revert bs. induction l as [|a l IH]; intros bs; simpl.
  { split; [intros [= <-]; constructor|by inversion 1]. }
  split.
  - intros H. inv_ok H. injection H as <-. constructor; [done|]. by apply IH.
  - inversion 1 as [|? b ? bs' Ha Hl]; subst. rewrite Ha. rsimpl.
    apply IH in Hl. by rewrite Hl.
Qed.

(** Calls that cannot panic: [no_panic] follows an [e ≠ Panic] goal into the
    calls of [e] and closes those the hint database knows. *)
Create HintDb no_panic discriminated.
#[export] Hint Resolve ok_or_not_Panic fold_result_no_panic : no_panic.

Ltac no_panic :=
  let H := fresh "Hpanic" in
  intros H; inv_panic H;
  try (exfalso; lazymatch type of H with ?P =>
    enough (¬ P) by contradiction; clear H; solve [auto with nocore no_panic] end).
