(* ===== verification/SortBy.v ===== *)
(** * Comparison closures and [slice::sort_by]

    The code sorts candidate lists with closures built from [cmp] and
    [then_with].  This file proves that such closures are total preorders
    (instances of [CompareLaws], found by type class resolution from the shape
    of the closure), that [sort_by] returns a sorted permutation, and that its
    result does not depend on the order of the input when the closure
    separates the elements. *)

From S2P Require Import Prelude.

(** [a] sorts no later than [b]. *)
Definition cmp_le {A} (cmp : A → A → comparison) : relation A :=
  λ a b, cmp a b ≠ Gt.

Section laws.
Context {A : Type} (cmp : A → A → comparison) `{!CompareLaws cmp}.

Lemma compare_refl x : cmp x x = Eq.
Proof. pose proof (compare_flip cmp x x) as H. by destruct (cmp x x). Qed.

Lemma compare_Eq_sym x y : cmp x y = Eq → cmp y x = Eq.
Proof. intros H. by rewrite (compare_flip cmp), H. Qed.

Lemma compare_Lt_Gt x y : cmp x y = Lt ↔ cmp y x = Gt.
Proof. rewrite (compare_flip cmp x y). by destruct (cmp x y). Qed.

(** A step that is strict on one side makes the composition strict. *)
Lemma compare_Lt_trans_l x y z : cmp x y = Lt → cmp y z ≠ Gt → cmp x z = Lt.
Proof.
  intros Hxy Hyz. destruct (cmp x z) eqn:Hxz; [|done|].
  - pose proof (compare_le_trans cmp y z x Hyz) as H.
    rewrite (compare_flip cmp x z), Hxz in H. specialize (H ltac:(done)).
    by apply compare_Lt_Gt in Hxy.
  - exfalso. apply (compare_le_trans cmp x y z); congruence.
Qed.

Lemma compare_Lt_trans_r x y z : cmp x y ≠ Gt → cmp y z = Lt → cmp x z = Lt.
Proof.
  intros Hxy Hyz. destruct (cmp x z) eqn:Hxz; [|done|].
  - pose proof (compare_le_trans cmp z x y) as H.
    rewrite (compare_flip cmp x z), Hxz in H. specialize (H ltac:(done) Hxy).
    by apply compare_Lt_Gt in Hyz.
  - exfalso. apply (compare_le_trans cmp x y z); congruence.
Qed.

Lemma compare_Eq_trans x y z : cmp x y = Eq → cmp y z = Eq → cmp x z = Eq.
Proof.
  intros Hxy Hyz.
  assert (cmp x z ≠ Gt) by (apply (compare_le_trans cmp x y z); congruence).
  destruct (cmp x z) eqn:Hxz; [done| |done].
  assert (cmp z x ≠ Gt) as Hzx.
  { apply (compare_le_trans cmp z y x); rewrite (compare_flip cmp); [by rewrite Hyz|by rewrite Hxy]. }
  by apply compare_Lt_Gt in Hxz.
Qed.

#[global] Instance cmp_le_trans : Transitive (cmp_le cmp).
Proof. intros x y z. apply (compare_le_trans cmp). Qed.

#[global] Instance cmp_le_total : Total (cmp_le cmp).
Proof.
  intros x y. unfold cmp_le. rewrite (compare_flip cmp x y).
  destruct (cmp x y); auto.
Qed.

#[global] Instance cmp_le_refl : Reflexive (cmp_le cmp).
Proof. intros x. unfold cmp_le. by rewrite compare_refl. Qed.
End laws.

(** ** Instances that follow the shape of a closure *)

#[global] Instance compare_laws_N : CompareLaws N.compare.
Proof.
  split.
  - intros. apply N.compare_antisym.
  - intros x y z. rewrite !N.compare_ngt_iff. lia.
Qed.

#[global] Instance compare_laws_nat : CompareLaws Nat.compare.
Proof.
  split.
  - intros. apply Nat.compare_antisym.
  - intros x y z. rewrite !Nat.compare_ngt_iff. lia.
Qed.

Lemma string_compare_le (s1 s2 : string) :
  String.compare s1 s2 ≠ Gt ↔ String.le s1 s2.
Proof. unfold String.le, String.leb. destruct (String.compare s1 s2); naive_solver. Qed.

#[global] Instance compare_laws_string : CompareLaws String.compare.
Proof.
  split.
  - intros x y. apply String.compare_antisym.
  - intros x y z. rewrite !string_compare_le. apply transitivity.
Qed.

#[global] Instance compare_laws_on {A B} (f : A → B) cmp `{!CompareLaws cmp} :
  CompareLaws (λ x y, cmp (f x) (f y)).
Proof.
  split; intros.
  - apply (compare_flip cmp).
  - eapply (compare_le_trans cmp); eauto.
Qed.

(** [right.cmp(&left)]: descending order. *)
Lemma compare_laws_rev {A} cmp `{!CompareLaws (A := A) cmp} :
  CompareLaws (λ x y, cmp y x).
Proof.
  split; intros.
  - apply (compare_flip cmp).
  - eapply (compare_le_trans cmp z y x); eauto.
Qed.

#[global] Instance compare_laws_then_with {A} cmp1 cmp2
    `{!CompareLaws (A := A) cmp1, !CompareLaws (A := A) cmp2} :
  CompareLaws (λ x y, then_with (cmp1 x y) (cmp2 x y)).
Proof.
  split.
  - intros x y. rewrite (compare_flip cmp1 x y), (compare_flip cmp2 x y).
    by destruct (cmp1 x y).
  - intros x y z. destruct (cmp1 x y) eqn:Hxy; [| |done].
    + destruct (cmp1 y z) eqn:Hyz; [| |done].
      * rewrite (compare_Eq_trans cmp1 x y z) by done. apply (compare_le_trans cmp2).
      * rewrite (compare_Lt_trans_r cmp1 x y z) by congruence. done.
    + destruct (cmp1 y z) eqn:Hyz; [| |done].
      * rewrite (compare_Lt_trans_l cmp1 x y z) by congruence. done.
      * rewrite (compare_Lt_trans_l cmp1 x y z) by congruence. done.
Qed.

(** ** [sort_by] *)

Section sort_by.
Context {A : Type} (cmp : A → A → comparison).

Lemma insert_by_Permutation x l : insert_by cmp x l ≡ₚ x :: l.
Proof.
  induction l as [|y l IH]; simpl; [done|].
  destruct (cmp x y); [done..|]. rewrite IH. apply Permutation_swap.
Qed.

Lemma sort_by_Permutation l : sort_by cmp l ≡ₚ l.
Proof.
  induction l as [|x l IH]; simpl; [done|]. by rewrite insert_by_Permutation, IH.
Qed.

Lemma elem_of_sort_by x l : x ∈ sort_by cmp l ↔ x ∈ l.
Proof. by rewrite sort_by_Permutation. Qed.

Lemma length_sort_by l : length (sort_by cmp l) = length l.
Proof. by rewrite sort_by_Permutation. Qed.

Context `{!CompareLaws cmp}.

Lemma insert_by_sorted x l :
  StronglySorted (cmp_le cmp) l → StronglySorted (cmp_le cmp) (insert_by cmp x l).
Proof.
  induction 1 as [|y l Hl IH Hy]; simpl; [by repeat constructor|].
  destruct (cmp x y) eqn:Hxy.
  1,2: assert (cmp_le cmp x y) by (unfold cmp_le; congruence);
    constructor; [by constructor|constructor; [done|]];
    eapply Forall_impl; [done|]; intros z Hz; by transitivity y.
  constructor; [done|]. rewrite insert_by_Permutation. constructor; [|done].
  apply (compare_Lt_Gt cmp) in Hxy. unfold cmp_le. by rewrite Hxy.
Qed.

Lemma sort_by_sorted l : StronglySorted (cmp_le cmp) (sort_by cmp l).
Proof. induction l; simpl; auto using SSorted_nil, insert_by_sorted. Qed.

(** The sorted order is canonical when equal-ranked elements are equal. *)
Lemma sort_by_unique l1 l2 :
  (∀ x y, x ∈ l1 → y ∈ l1 → cmp x y = Eq → x = y) →
  l1 ≡ₚ l2 → sort_by cmp l1 = sort_by cmp l2.
Proof.
  intros Hsep Hperm.
  apply (StronglySorted_unique_strong (cmp_le cmp)); auto using sort_by_sorted.
  - intros x y Hx Hy Hxy Hyx. rewrite elem_of_sort_by in Hx, Hy.
    rewrite <-Hperm in Hy. apply Hsep; [done..|].
    unfold cmp_le in *. rewrite (compare_flip cmp) in Hyx.
    by destruct (cmp x y).
  - by rewrite !sort_by_Permutation.
Qed.

(** The head of a sorted list ranks no later than any other element. *)
Lemma sorted_head_le x l y :
  StronglySorted (cmp_le cmp) (x :: l) → y ∈ x :: l → cmp_le cmp x y.
Proof.
  intros [_ Hall]%StronglySorted_inv [->|Hy]%elem_of_cons; [done|].
  rewrite Forall_forall in Hall. by apply Hall.
Qed.
End sort_by.

(** ** [position] *)

Section position.
Context {A : Type} (p : A → bool).

Lemma position_Some l i :
  position p l = Some i ↔
  ∃ x, l !! i = Some x ∧ p x = true ∧
    ∀ j y, j < i → l !! j = Some y → p y = false.
Proof.
  revert i. induction l as [|x l IH]; intros i; simpl.
  { split; [done|]. intros (x & Hx & _). by rewrite lookup_nil in Hx. }
  destruct (p x) eqn:Hx.
  - split.
    + intros [= <-]. exists x. split_and!; [done..|]. lia.
    + intros (y & Hy & Hpy & Hbefore). destruct i as [|i]; [done|].
      specialize (Hbefore 0 x ltac:(lia) eq_refl). congruence.
  - split.
    + intros (i' & Hi' & ->)%fmap_Some. apply IH in Hi' as (y & ?&?& Hbefore).
      exists y. split_and!; [done..|]. intros [|j] z ? Hz; simplify_eq/=; [done|].
      eapply Hbefore; [|done]. lia.
    + intros (y & Hy & Hpy & Hbefore). destruct i as [|i]; simplify_eq/=; [congruence|].
      rewrite (proj2 (IH i)); [done|]. exists y. split_and!; [done..|].
      intros j z ? Hz. eapply (Hbefore (S j)); [lia|done].
Qed.

Lemma position_None l : position p l = None ↔ Forall (λ x, p x = false) l.
Proof.
  induction l as [|x l IH]; simpl; [by split; [constructor|]|].
  rewrite Forall_cons. destruct (p x) eqn:Hx; [naive_solver|].
  rewrite fmap_None. naive_solver.
Qed.
End position.

(** ** Searching lists by key *)

Lemma NoDup_fmap_inj {A B} (f : A → B) l x y :
  NoDup (f <$> l) → x ∈ l → y ∈ l → f x = f y → x = y.
Proof.
  intros Hnd [i Hi]%list_elem_of_lookup [j Hj]%list_elem_of_lookup Hf.
  assert (i = j) as ->; [|congruence].
  eapply (NoDup_lookup (f <$> l)); [done|..]; rewrite list_lookup_fmap; [by rewrite Hi|].
  rewrite Hj. simpl. by rewrite Hf.
Qed.

Lemma find_position {A} (p : A → bool) l : List.find p l = position p l ≫= (λ i, l !! i).
Proof.
  induction l as [|x l IH]; simpl; [done|]. destruct (p x); [done|].
  rewrite IH. by destruct (position p l).
Qed.

Lemma position_lookup {A} (p : A → bool) l i :
  position p l = Some i → ∃ x, l !! i = Some x ∧ p x = true.
Proof. intros (x & Hx & Hp & _)%position_Some. eauto. Qed.

Lemma find_None_key {A} (f : A → string) l k :
  List.find (λ x, bool_decide (f x = k)) l = None ↔ k ∉ f <$> l.
Proof.
  induction l as [|x l IH]; csimpl.
  { split; [intros _; apply not_elem_of_nil|done]. }
  rewrite not_elem_of_cons. case_bool_decide as Hx.
  - split; [done|]. intros [? _]. congruence.
  - rewrite IH. naive_solver.
Qed.

Lemma position_None_key {A} (f : A → string) l k :
  position (λ x, bool_decide (f x = k)) l = None ↔ k ∉ f <$> l.
Proof.
  rewrite position_None, Forall_forall. split.
  - intros H (x & -> & Hx)%list_elem_of_fmap. apply H in Hx. by bprop.
  - intros H x Hx. apply bool_decide_eq_false. intros <-. apply H. by apply list_elem_of_fmap_2.
Qed.

(** The entry found under a key that occurs once. *)
Lemma find_unique {A} (f : A → string) l x k :
  NoDup (f <$> l) → x ∈ l → f x = k → List.find (λ y, bool_decide (f y = k)) l = Some x.
Proof.
  intros Hnd Hx Hk. destruct (List.find _ l) as [y|] eqn:Hf.
  - apply find_some in Hf as [Hy Hfy]. bprop. f_equal. apply list_elem_of_In in Hy.
    apply (NoDup_fmap_inj f l); [done..|congruence].
  - apply find_None_key in Hf. destruct Hf. rewrite <-Hk. by apply list_elem_of_fmap_2.
Qed.

(** Removing the one entry with a key, by index or by filter. *)
Lemma filter_key_delete {A} (f : A → string) l i x :
  NoDup (f <$> l) → l !! i = Some x →
  List.filter (λ y, bool_decide (f y ≠ f x)) l = delete i l ∧ f x ∉ f <$> delete i l.
Proof.
  revert i. induction l as [|y l IH]; intros [|i] Hnd Hx; csimpl in *; try done.
  - injection Hx as ->. apply NoDup_cons in Hnd as [Hx Hnd]. rewrite bool_decide_eq_false_2 by auto.
    split; [|done]. clear IH Hnd. induction l as [|y l IH]; csimpl in *; [done|].
    rewrite not_elem_of_cons in Hx. rewrite bool_decide_eq_true_2 by naive_solver.
    f_equal. apply IH. tauto.
  - apply NoDup_cons in Hnd as [Hy Hnd]. destruct (IH i Hnd Hx) as [IHf IHn].
    assert (f y ≠ f x). { intros Heq. apply Hy. rewrite Heq. apply list_elem_of_fmap_2.
      by eapply list_elem_of_lookup_2. }
    rewrite bool_decide_eq_true_2, IHf by done. split; [done|].
    rewrite not_elem_of_cons. split; [congruence|done].
Qed.

(** The index of the entry with a key that occurs once. *)
Lemma position_unique {A} (f : A → string) l i x :
  NoDup (f <$> l) → l !! i = Some x → position (λ y, bool_decide (f y = f x)) l = Some i.
Proof.
  intros Hnd Hx. apply position_Some. exists x. split_and!; [done|by apply bool_decide_eq_true_2|].
  intros j y Hj Hy. apply bool_decide_eq_false_2. intros Heq. assert (i = j); [|lia].
  eapply (NoDup_lookup (f <$> l)); [done|..]; rewrite list_lookup_fmap; [by rewrite Hx|].
  rewrite Hy. simpl. by rewrite Heq.
Qed.

Lemma existsb_key {A} (f : A → string) l k :
  existsb (λ x, bool_decide (f x = k)) l = bool_decide (k ∈ f <$> l).
Proof.
  apply eq_bool_prop_intro. rewrite !Is_true_true, existsb_exists, bool_decide_eq_true.
  rewrite list_elem_of_fmap. split.
  - intros (x & Hx%list_elem_of_In & Hp). bprop. eauto.
  - intros (x & -> & Hx%list_elem_of_In). exists x. split; [done|]. by apply bool_decide_eq_true_2.
Qed.

(** Overwriting an entry by one with the same key. *)
Lemma insert_same_key {A B} (f : A → B) (l : list A) (i : nat) x y :
  l !! i = Some x → f y = f x → f <$> <[i := y]> l = f <$> l.
Proof.
  intros Hx Hf. rewrite list_fmap_insert, Hf. apply list_insert_id.
  by rewrite list_lookup_fmap, Hx.
Qed.
