(* ===== verification/Artifact.v ===== *)
(** * Identity strings

    The validated string types of [src/src/artifact.rs]: repository
    references, Git object identifiers and content digests.  A Rust [&str] is
    the [string] of its UTF-8 bytes; a newtype over [String] is the string it
    wraps, and the type's [parse] function is what establishes its form. *)

From S2P Require Import Prelude.

Local Open Scope N_scope.

(** ** Bytes and strings *)

Definition byte_in (lo hi : N) (c : ascii) : bool := in_range lo hi (N_of_ascii c).

Definition is_ascii_digit (c : ascii) : bool := byte_in 48 57 c.
Definition is_ascii_lowercase (c : ascii) : bool := byte_in 97 122 c.
Definition is_ascii_uppercase (c : ascii) : bool := byte_in 65 90 c.
Definition is_ascii_alphanumeric (c : ascii) : bool :=
  is_ascii_digit c || is_ascii_lowercase c || is_ascii_uppercase c.

(** [matches!(byte, b'.' | b'_' | b'-')]. *)
Definition is_identifier_punctuation (c : ascii) : bool :=
  Ascii.eqb c "."%char || Ascii.eqb c "_"%char || Ascii.eqb c "-"%char.

(** [str::len], in bytes. *)
Definition str_len (s : string) : N := N.of_nat (String.length s).

(** [value.bytes().all(p)]. *)
Fixpoint bytes_all (p : ascii → bool) (s : string) : bool :=
  match s with
  | EmptyString => true
  | String c s => p c && bytes_all p s
  end.

Definition str_is_empty (s : string) : bool :=
  match s with
  | EmptyString => true
  | String _ _ => false
  end.

(** [value.split(c)]: the maximal pieces between occurrences of [c]. *)
Fixpoint str_split (c : ascii) (s : string) : list string :=
  match s with
  | EmptyString => [EmptyString]
  | String a s =>
      if Ascii.eqb a c then EmptyString :: str_split c s
      else match str_split c s with
           | [] => [String a EmptyString]
           | w :: ws => String a w :: ws
           end
  end.

(** [value.strip_prefix(prefix)]. *)
Fixpoint strip_prefix (prefix s : string) : option string :=
  match prefix, s with
  | EmptyString, _ => Some s
  | String a prefix, String b s =>
      if Ascii.eqb a b then strip_prefix prefix s else None
  | String _ _, EmptyString => None
  end.

(** ** The identity types *)

Record ArtifactIdentityError := mkArtifactIdentityError {
  aie_field : string;
  aie_problem : string;
}.

Definition SHA1_HEX_LEN : N := 40.
Definition SHA256_HEX_LEN : N := 64.
Definition SHA256_PREFIX : string := "sha256:".

Definition is_lower_hex (c : ascii) : bool := is_ascii_digit c || byte_in 97 102 c.

Definition valid_repository_component (value : string) : bool :=
  negb (str_is_empty value) && (str_len value <=? 100) &&
  bytes_all (λ c, is_ascii_alphanumeric c || is_identifier_punctuation c) value.

Definition RepositoryRef_parse (value : string) : result ArtifactIdentityError string :=
  let components := str_split "/"%char value in
  let owner := default EmptyString (components !! 0%nat) in
  let name := default EmptyString (components !! 1%nat) in
  if is_some (components !! 2%nat) || negb (valid_repository_component owner)
     || negb (valid_repository_component name)
  then Err (mkArtifactIdentityError "repository"
         "must be an owner/name pair using bounded ASCII letters, digits, '.', '_', or '-'")
  else Ok value.

Definition is_git_object_id (value : string) : bool :=
  ((str_len value =? SHA1_HEX_LEN) || (str_len value =? SHA256_HEX_LEN))
  && bytes_all is_lower_hex value.

Definition CommitId_parse (value : string) : result ArtifactIdentityError string :=
  if negb (is_git_object_id value)
  then Err (mkArtifactIdentityError "commit"
         "must be a complete 40- or 64-character lowercase hexadecimal Git object ID")
  else Ok value.

Definition GitTreeId_parse (value : string) : result ArtifactIdentityError string :=
  if negb (is_git_object_id value)
  then Err (mkArtifactIdentityError "tree"
         "must be a complete 40- or 64-character lowercase hexadecimal Git object ID")
  else Ok value.

Definition Sha256Digest_parse (value : string) : result ArtifactIdentityError string :=
  match strip_prefix SHA256_PREFIX value with
  | None => Err (mkArtifactIdentityError "digest"
         "must use canonical sha256:<64 lowercase hexadecimal characters> form")
  | Some hex =>
      if negb (str_len hex =? SHA256_HEX_LEN) || negb (bytes_all is_lower_hex hex)
      then Err (mkArtifactIdentityError "digest"
         "must use canonical sha256:<64 lowercase hexadecimal characters> form")
      else Ok value
  end.

(** ** Facts *)

(** A [parse] keeps the text it accepts, so the wrapped string is the input. *)
Class ParseKeeps {E} (parse : string → result E string) : Prop :=
  parse_keeps s t : parse s = Ok t → t = s.

#[export] Instance RepositoryRef_parse_keeps : ParseKeeps RepositoryRef_parse.
Proof. intros s t H. unfold RepositoryRef_parse in H. inv_ok H. congruence. Qed.

#[export] Instance CommitId_parse_keeps : ParseKeeps CommitId_parse.
Proof. intros s t H. unfold CommitId_parse in H. inv_ok H. congruence. Qed.

#[export] Instance GitTreeId_parse_keeps : ParseKeeps GitTreeId_parse.
Proof. intros s t H. unfold GitTreeId_parse in H. inv_ok H. congruence. Qed.

#[export] Instance Sha256Digest_parse_keeps : ParseKeeps Sha256Digest_parse.
Proof. intros s t H. unfold Sha256Digest_parse in H. inv_ok H. congruence. Qed.

(** The values a newtype can hold: the inputs its [parse] accepts. *)
Definition parsed {E} (parse : string → result E string) (s : string) : Prop :=
  parse s = Ok s.

Lemma parse_parsed {E} (parse : string → result E string) `{!ParseKeeps parse} s t :
  parse s = Ok t → parsed parse t.
Proof. intros H. unfold parsed. pose proof (parse_keeps s t H). congruence. Qed.

Lemma str_split_no_sep c w :
  bytes_all (λ a, negb (Ascii.eqb a c)) w = true → str_split c w = [w].
Proof.
  induction w as [|a w IH]; simpl; [done|]. intros [Ha Hw]%andb_true_iff.
  apply negb_true_iff in Ha. by rewrite Ha, IH.
Qed.

Lemma str_split_app c w s :
  bytes_all (λ a, negb (Ascii.eqb a c)) w = true →
  str_split c (w +:+ String c s) = w :: str_split c s.
Proof.
  induction w as [|a w IH]; simpl.
  { intros _. unfold String.app. simpl. by rewrite Ascii.eqb_refl. }
  intros [Ha Hw]%andb_true_iff. apply negb_true_iff in Ha.
  change (String a w +:+ String c s) with (String a (w +:+ String c s)).
  simpl. by rewrite Ha, (IH Hw).
Qed.

Lemma str_split_cons c s w ws :
  str_split c s = w :: ws →
  (ws = [] ∧ s = w) ∨ ∃ s', s = w +:+ String c s' ∧ str_split c s' = ws.
Proof.
  revert w ws. induction s as [|a s IH]; simpl; intros w ws H.
  { simplify_eq. by left. }
  destruct (Ascii.eqb a c) eqn:Ha.
  { simplify_eq. apply Ascii.eqb_eq in Ha as ->. right. by exists s. }
  destruct (str_split c s) as [|w' ws'] eqn:Hs; simplify_eq.
  { destruct s; simpl in Hs; [done|]. repeat case_match; done. }
  destruct (IH w' ws eq_refl) as [[-> ->]|(s' & -> & Hs')]; [by left|].
  right. by exists s'.
Qed.

Lemma str_split_nonempty c s : str_split c s ≠ [].
Proof. destruct s; simpl; [done|]. by repeat case_match. Qed.

Lemma bytes_all_impl (p q : ascii → bool) s :
  (∀ c, p c = true → q c = true) → bytes_all p s = true → bytes_all q s = true.
Proof.
  intros Himpl. induction s as [|c s IH]; simpl; [done|].
  rewrite !andb_true_iff. naive_solver.
Qed.

Lemma slash_not_in_component w :
  valid_repository_component w = true →
  bytes_all (λ a, negb (Ascii.eqb a "/"%char)) w = true.
Proof.
  unfold valid_repository_component. intros [_ H]%andb_true_iff.
  revert H. apply bytes_all_impl. intros c Hc.
  destruct (Ascii.eqb_spec c "/"%char) as [->|]; [by vm_compute in Hc|done].
Qed.

(** [RepositoryRef::parse] accepts exactly the strings that are two valid
    components joined by one slash, and returns the string it was given. *)
Theorem RepositoryRef_parse_accepts (value r : string) :
  RepositoryRef_parse value = Ok r ↔
  r = value ∧ ∃ owner name,
    value = owner +:+ String "/"%char name ∧
    valid_repository_component owner = true ∧
    valid_repository_component name = true.
Proof.
  split.
  - intros H. split; [by apply parse_keeps in H|].
    unfold RepositoryRef_parse in H. inv_ok H. bprop.
    destruct (str_split "/" value) as [|owner [|name [|]]] eqn:Hs; try done.
    apply str_split_cons in Hs as [[? _]|(s' & -> & Hs')]; [done|].
    apply str_split_cons in Hs' as [[_ ->]|(s'' & _ & Hs'')];
      [eauto|by apply str_split_nonempty in Hs''].
  - intros (-> & owner & name & -> & Howner & Hname).
    unfold RepositoryRef_parse.
    rewrite str_split_app, (str_split_no_sep _ name) by auto using slash_not_in_component.
    simpl. by rewrite Howner, Hname.
Qed.
