(* ===== verification/ExecutionAdmission.v ===== *)
(** * Execution admission

    [src/src/execution_admission.rs]: the evidence record of one execution
    request and the transitions between records.  [from_input] is the only way
    to build a record; [plan_transition] checks that a second record is an
    allowed successor.  The lifecycle they define and its theorems are in
    [AdmissionLifecycle]. *)

From S2P Require Import Prelude Artifact.

Local Open Scope N_scope.

(** ** Data *)

Definition EXECUTION_ADMISSION_SCHEMA_VERSION : N := 1.
Definition MAX_RESERVATION_LIFETIME_MILLIS : N := 86400000.
Definition MAX_IDENTIFIER_LEN : N := 96.
Definition MAX_CPU_MILLIS : N := 1000000.
Definition MAX_MEMORY_BYTES : N := N.shiftl 1 50.
Definition MAX_PIDS : N := 1000000.
Definition MAX_QUEUE_POSITION : N := 1000000.

Record ExecutionAdmissionError := mkAdmissionError {
  eae_field : string;
  eae_code : string;
  eae_message : string;
}.

(** [EpochMillis] and [ReservationGeneration] wrap a [u64] that their [new]
    has checked; the identifier types wrap a [String] their [parse] accepted. *)
Notation EpochMillis := N (only parsing).
Notation ReservationGeneration := N (only parsing).
Notation ExecutionRequestId := string (only parsing).
Notation RunnerProfileId := string (only parsing).
Notation ReservationId := string (only parsing).
Notation VerificationProfileId := string (only parsing).

Record ExecutionResourceLimits := mkLimits {
  cpu_millis : N;
  memory_bytes : N;
  pids : N;
}.

#[export] Instance limits_eq_dec : EqDecision ExecutionResourceLimits.
Proof. solve_decision. Defined.

Record HostCapacityObservation := mkHostCapacity {
  hco_observed_at : EpochMillis;
  hco_capacity : ExecutionResourceLimits;
}.

#[export] Instance host_capacity_eq_dec : EqDecision HostCapacityObservation.
Proof. solve_decision. Defined.

Record ExecutionAdmissionIdentity := mkIdentity {
  request_id : ExecutionRequestId;
  verification_profile_id : VerificationProfileId;
  runner_profile_id : RunnerProfileId;
}.

#[export] Instance identity_eq_dec : EqDecision ExecutionAdmissionIdentity.
Proof. solve_decision. Defined.

Inductive ExecutionAdmissionState :=
| Requested
| StateAdmitted
| Queued
| Reserved
| Starting
| Running
| Draining
| Unavailable.

#[export] Instance admission_state_eq_dec : EqDecision ExecutionAdmissionState.
Proof. solve_decision. Defined.

Inductive QueuePosition :=
| Known (position : N)
| Unknown.

#[export] Instance queue_position_eq_dec : EqDecision QueuePosition.
Proof. solve_decision. Defined.

Inductive FallbackProfileEligibility :=
| Eligible (runner_profile_id : RunnerProfileId)
| Ineligible.

#[export] Instance fallback_eq_dec : EqDecision FallbackProfileEligibility.
Proof. solve_decision. Defined.

Inductive DrainAcknowledgement :=
| Cancellation
| Drain.

#[export] Instance acknowledgement_eq_dec : EqDecision DrainAcknowledgement.
Proof. solve_decision. Defined.

Inductive UnavailableReason :=
| AdmissionRejected
| CapacityUnavailable
| HostUnavailable
| ReservationExpired
| Cancelled
| Drained.

#[export] Instance unavailable_reason_eq_dec : EqDecision UnavailableReason.
Proof. solve_decision. Defined.

Record ReservationEvidence := mkReservation {
  res_id : ReservationId;
  res_generation : ReservationGeneration;
  reserved_at : EpochMillis;
  expires_at : EpochMillis;
}.

#[export] Instance reservation_eq_dec : EqDecision ReservationEvidence.
Proof. solve_decision. Defined.

Record ExecutionAdmissionInput := mkAdmissionInput {
  eai_identity : ExecutionAdmissionIdentity;
  eai_state : ExecutionAdmissionState;
  eai_observed_at : EpochMillis;
  eai_requested_limits : ExecutionResourceLimits;
  eai_host_capacity : option HostCapacityObservation;
  eai_applied_limits : option ExecutionResourceLimits;
  eai_queue_position : option QueuePosition;
  eai_reservation : option ReservationEvidence;
  eai_acknowledgement : option DrainAcknowledgement;
  eai_fallback_eligibility : FallbackProfileEligibility;
  eai_unavailable_reason : option UnavailableReason;
}.

Record ExecutionAdmissionRecord := mkAdmissionRecord {
  ear_schema_version : N;
  ear_identity : ExecutionAdmissionIdentity;
  ear_state : ExecutionAdmissionState;
  ear_observed_at : EpochMillis;
  ear_requested_limits : ExecutionResourceLimits;
  ear_host_capacity : option HostCapacityObservation;
  ear_applied_limits : option ExecutionResourceLimits;
  ear_queue_position : option QueuePosition;
  ear_reservation : option ReservationEvidence;
  ear_acknowledgement : option DrainAcknowledgement;
  ear_fallback_eligibility : FallbackProfileEligibility;
  ear_unavailable_reason : option UnavailableReason;
}.

#[export] Instance admission_record_eq_dec : EqDecision ExecutionAdmissionRecord.
Proof. solve_decision. Defined.

Record ExecutionAdmissionTransition := mkAdmissionTransition {
  eat_schema_version : N;
  eat_identity : ExecutionAdmissionIdentity;
  eat_from : ExecutionAdmissionState;
  eat_to : ExecutionAdmissionState;
  eat_observed_at : EpochMillis;
  eat_resulting_record : ExecutionAdmissionRecord;
}.

(** ** Constructors of the small types *)

(** [identifier_type!]: one [parse] for the three identifier types, which
    differ in the field name an error carries. *)
Definition validate_identifier (field value : string) : result ExecutionAdmissionError () :=
  let first_is_safe :=
    match value with
    | EmptyString => false
    | String byte _ => is_ascii_lowercase byte || is_ascii_digit byte
    end in
  let remaining_are_safe :=
    match value with
    | EmptyString => true
    | String _ bytes =>
        bytes_all (λ byte, is_ascii_lowercase byte || is_ascii_digit byte
                           || is_identifier_punctuation byte) bytes
    end in
  if (MAX_IDENTIFIER_LEN <? str_len value) || negb first_is_safe || negb remaining_are_safe
  then Err (mkAdmissionError field "invalid_identifier"
         "identifier must be bounded lowercase ASCII without path or log content")
  else Ok ().

Definition identifier_parse (field value : string) : result ExecutionAdmissionError string :=
  _ ← validate_identifier field value; Ok value.

Definition ExecutionRequestId_parse := identifier_parse "identity.request_id".
Definition RunnerProfileId_parse := identifier_parse "identity.runner_profile_id".
Definition ReservationId_parse := identifier_parse "reservation.id".

Definition EpochMillis_new (value : N) : result ExecutionAdmissionError EpochMillis :=
  if value =? 0
  then Err (mkAdmissionError "observed_at" "invalid_observation_time"
         "observation time must be greater than zero")
  else Ok value.

Definition ReservationGeneration_new (value : N)
    : result ExecutionAdmissionError ReservationGeneration :=
  if value =? 0
  then Err (mkAdmissionError "reservation.generation" "invalid_reservation_generation"
         "reservation generation must be greater than zero")
  else Ok value.

Definition ExecutionResourceLimits_new (cpu memory pid : N)
    : result ExecutionAdmissionError ExecutionResourceLimits :=
  if negb (in_range 1 MAX_CPU_MILLIS cpu)
  then Err (mkAdmissionError "resources.cpu_millis" "invalid_cpu_limit"
         "CPU limit must be within the bounded positive range")
  else if negb (in_range 1 MAX_MEMORY_BYTES memory)
  then Err (mkAdmissionError "resources.memory_bytes" "invalid_memory_limit"
         "memory limit must be within the bounded positive range")
  else if negb (in_range 1 MAX_PIDS pid)
  then Err (mkAdmissionError "resources.pids" "invalid_pid_limit"
         "PID limit must be within the bounded positive range")
  else Ok (mkLimits cpu memory pid).

Definition fits_within (limits capacity : ExecutionResourceLimits) : bool :=
  (cpu_millis limits <=? cpu_millis capacity)
  && (memory_bytes limits <=? memory_bytes capacity)
  && (pids limits <=? pids capacity).

Definition is_terminal (state : ExecutionAdmissionState) : bool :=
  bool_decide (state = Unavailable).

Definition QueuePosition_known (position : N) : result ExecutionAdmissionError QueuePosition :=
  if negb (in_range 1 MAX_QUEUE_POSITION position)
  then Err (mkAdmissionError "queue_position.position" "invalid_queue_position"
         "known queue position must be within the bounded positive range")
  else Ok (Known position).

Definition QueuePosition_is_valid (position : QueuePosition) : bool :=
  match position with
  | Known position => (0 <? position) && (position <=? MAX_QUEUE_POSITION)
  | Unknown => true
  end.

(** ** Evidence of one record *)

Definition validate_fallback (identity : ExecutionAdmissionIdentity)
    (fallback : FallbackProfileEligibility) : result ExecutionAdmissionError () :=
  match fallback with
  | Eligible profile =>
      if bool_decide (profile = runner_profile_id identity)
      then Err (mkAdmissionError "fallback_eligibility.runner_profile_id"
             "fallback_profile_matches_primary"
             "eligible fallback runner profile must differ from the primary runner profile")
      else Ok ()
  | Ineligible => Ok ()
  end.

Definition validate_reservation (input : ExecutionAdmissionInput)
    : result ExecutionAdmissionError () :=
  match eai_reservation input with
  | None => Ok ()
  | Some reservation =>
      lifetime ← ok_or (checked_sub (expires_at reservation) (reserved_at reservation))
        (mkAdmissionError "reservation.expires_at" "invalid_reservation_expiry"
           "reservation expiry must follow reservation start");
      if (lifetime =? 0) || (MAX_RESERVATION_LIFETIME_MILLIS <? lifetime)
      then Err (mkAdmissionError "reservation.expires_at" "invalid_reservation_lifetime"
             "reservation lifetime must be positive and within the bounded maximum")
      else if eai_observed_at input <? reserved_at reservation
      then Err (mkAdmissionError "reservation.reserved_at" "future_reservation_start"
             "reservation start cannot be newer than the admission observation")
      else
        let expired := expires_at reservation <=? eai_observed_at input in
        let terminal_expiry :=
          bool_decide (eai_state input = Unavailable)
          && bool_decide (eai_unavailable_reason input = Some ReservationExpired) in
        if negb (Bool.eqb expired terminal_expiry)
        then Err (mkAdmissionError "reservation.expires_at" "reservation_expired"
               "expired reservations may appear only in a terminal reservation-expired observation")
        else Ok ()
  end.

Definition validate_acknowledgement (input : ExecutionAdmissionInput)
    : result ExecutionAdmissionError () :=
  match eai_state input with
  | Draining =>
      if negb (is_some (eai_acknowledgement input))
      then Err (mkAdmissionError "acknowledgement" "drain_acknowledgement_missing"
             "draining state requires cancellation or drain acknowledgement")
      else Ok ()
  | Unavailable => Ok ()
  | _ =>
      if is_some (eai_acknowledgement input)
      then Err (mkAdmissionError "acknowledgement" "unexpected_acknowledgement"
             "acknowledgement is valid only for draining or unavailable state")
      else Ok ()
  end.

Definition validate_unavailable_reason (input : ExecutionAdmissionInput)
    : result ExecutionAdmissionError () :=
  if bool_decide (eai_state input ≠ Unavailable) then
    if is_some (eai_unavailable_reason input)
    then Err (mkAdmissionError "unavailable_reason" "unexpected_unavailable_reason"
           "unavailable reason is valid only for unavailable state")
    else Ok ()
  else
    reason ← ok_or (eai_unavailable_reason input)
      (mkAdmissionError "unavailable_reason" "unavailable_reason_missing"
         "unavailable state requires one bounded reason");
    match reason with
    | CapacityUnavailable =>
        if is_some (eai_acknowledgement input)
        then Err (mkAdmissionError "acknowledgement" "unexpected_acknowledgement"
               "capacity unavailability cannot claim cancellation or drain acknowledgement")
        else
          host ← expect (eai_host_capacity input);
          let request_fits := fits_within (eai_requested_limits input) (hco_capacity host) in
          let applied_fits :=
            is_none_or (λ applied, fits_within applied (hco_capacity host))
              (eai_applied_limits input) in
          if request_fits && applied_fits
          then Err (mkAdmissionError "host_capacity.capacity" "capacity_unavailability_unproven"
                 "capacity-unavailable state requires an observed resource shortfall")
          else Ok ()
    | AdmissionRejected =>
        if is_some (eai_reservation input) || is_some (eai_acknowledgement input)
        then Err (mkAdmissionError "reservation" "unexpected_reservation_evidence"
               "admission rejection cannot claim reservation or acknowledgement evidence")
        else Ok ()
    | ReservationExpired =>
        if negb (is_some (eai_reservation input)) || is_some (eai_acknowledgement input)
        then Err (mkAdmissionError "reservation" "expired_reservation_evidence_missing"
               "reservation-expired state requires exact reservation evidence without acknowledgement")
        else Ok ()
    | Cancelled =>
        if negb (is_some (eai_reservation input))
           || bool_decide (eai_acknowledgement input ≠ Some Cancellation)
        then Err (mkAdmissionError "acknowledgement" "cancellation_acknowledgement_missing"
               "cancelled state requires reservation and cancellation acknowledgement")
        else Ok ()
    | Drained =>
        if negb (is_some (eai_reservation input))
           || bool_decide (eai_acknowledgement input ≠ Some Drain)
        then Err (mkAdmissionError "acknowledgement" "drain_acknowledgement_missing"
               "drained state requires reservation and drain acknowledgement")
        else Ok ()
    | HostUnavailable =>
        if is_some (eai_acknowledgement input)
        then Err (mkAdmissionError "acknowledgement" "unexpected_acknowledgement"
               "host unavailability cannot claim cancellation or drain acknowledgement")
        else Ok ()
    end.

(** The states in which the request must fit the observed host. *)
Definition is_active_state (state : ExecutionAdmissionState) : bool :=
  match state with
  | StateAdmitted | Queued | Reserved | Starting | Running | Draining => true
  | Requested | Unavailable => false
  end.

(** The states that hold a reservation. *)
Definition is_reserved_state (state : ExecutionAdmissionState) : bool :=
  match state with
  | Reserved | Starting | Running | Draining => true
  | _ => false
  end.

(** The capacity half of [validate_state_evidence], its [if let Some(host)]. *)
Definition validate_host_capacity (input : ExecutionAdmissionInput)
    (host : HostCapacityObservation) : result ExecutionAdmissionError () :=
  if eai_observed_at input <? hco_observed_at host
  then Err (mkAdmissionError "host_capacity.observed_at" "future_host_capacity_observation"
         "host-capacity observation cannot be newer than the admission observation")
  else
    let active := is_active_state (eai_state input) in
    if active && negb (fits_within (eai_requested_limits input) (hco_capacity host))
    then Err (mkAdmissionError "requested_limits" "requested_capacity_unavailable"
           "active execution requests must fit within observed host capacity")
    else
      match eai_applied_limits input with
      | Some applied =>
          if negb (fits_within applied (eai_requested_limits input))
          then Err (mkAdmissionError "applied_limits" "applied_capacity_widening"
                 "applied resource limits must fit within requested limits")
          else if active && negb (fits_within applied (hco_capacity host))
          then Err (mkAdmissionError "applied_limits" "applied_capacity_unavailable"
                 "active applied limits must fit within observed host capacity")
          else Ok ()
      | None => Ok ()
      end.

Definition validate_state_evidence (input : ExecutionAdmissionInput)
    : result ExecutionAdmissionError () :=
  let requires_capacity := bool_decide (eai_state input ≠ Requested) in
  if negb (Bool.eqb requires_capacity (is_some (eai_host_capacity input)))
  then Err (mkAdmissionError "host_capacity" "invalid_host_capacity_evidence"
         "every non-requested state requires one host-capacity observation")
  else
    _ ← match eai_host_capacity input with
        | Some host => validate_host_capacity input host
        | None => Ok ()
        end;
    let queued := bool_decide (eai_state input = Queued) in
    if negb (Bool.eqb queued (is_some (eai_queue_position input)))
       || is_some_and (λ position, negb (QueuePosition_is_valid position))
            (eai_queue_position input)
    then Err (mkAdmissionError "queue_position" "invalid_queue_evidence"
           "queued state requires one bounded known or explicit unknown queue position")
    else
    if is_reserved_state (eai_state input)
       && (negb (is_some (eai_reservation input)) || negb (is_some (eai_applied_limits input)))
    then Err (mkAdmissionError "reservation" "reservation_evidence_missing"
           "reserved execution states require reservation and applied-limit evidence")
    else if negb (Bool.eqb (is_some (eai_reservation input)) (is_some (eai_applied_limits input)))
    then Err (mkAdmissionError "reservation" "reservation_limit_evidence_mismatch"
           "reservation and applied-limit evidence must appear together")
    else if match eai_state input with Requested | StateAdmitted | Queued => true | _ => false end
            && is_some (eai_reservation input)
    then Err (mkAdmissionError "reservation" "premature_reservation_evidence"
           "pre-reservation states cannot claim reservation evidence")
    else
      _ ← validate_reservation input;
      _ ← validate_acknowledgement input;
      validate_unavailable_reason input.

Definition from_input (input : ExecutionAdmissionInput)
    : result ExecutionAdmissionError ExecutionAdmissionRecord :=
  _ ← validate_fallback (eai_identity input) (eai_fallback_eligibility input);
  _ ← validate_state_evidence input;
  Ok (mkAdmissionRecord EXECUTION_ADMISSION_SCHEMA_VERSION
        (eai_identity input) (eai_state input) (eai_observed_at input)
        (eai_requested_limits input) (eai_host_capacity input)
        (eai_applied_limits input) (eai_queue_position input)
        (eai_reservation input) (eai_acknowledgement input)
        (eai_fallback_eligibility input) (eai_unavailable_reason input)).

(** ** Transitions *)

Definition validate_capacity_observation_progress
    (previous next : option HostCapacityObservation) : result ExecutionAdmissionError () :=
  match previous, next with
  | Some previous, Some next =>
      if hco_observed_at next <? hco_observed_at previous
      then Err (mkAdmissionError "host_capacity.observed_at" "stale_host_capacity_observation"
             "host-capacity observation time cannot move backwards")
      else Ok ()
  | _, _ => Ok ()
  end.

(** The [matches!] of [validate_transition_pair]. *)
Definition forward_pair (from to : ExecutionAdmissionState) : bool :=
  match from, to with
  | Requested, (StateAdmitted | Unavailable)
  | StateAdmitted, (Queued | Reserved | Unavailable)
  | Queued, (Reserved | Unavailable)
  | Reserved, (Starting | Draining | Unavailable)
  | Starting, (Running | Draining | Unavailable)
  | Running, (Draining | Unavailable)
  | Draining, Unavailable => true
  | _, _ => false
  end.

Definition validate_transition_pair (from to : ExecutionAdmissionState)
    : result ExecutionAdmissionError () :=
  let same_active_state := bool_decide (from = to) && negb (is_terminal from) in
  if negb same_active_state && negb (forward_pair from to)
  then Err (mkAdmissionError "state" "invalid_admission_transition"
         "state transition is outside the execution-admission contract")
  else Ok ().

Definition validate_reservation_progress (previous next : ExecutionAdmissionRecord)
    : result ExecutionAdmissionError () :=
  match ear_reservation previous, ear_reservation next with
  | None, Some next_reservation =>
      if bool_decide (ear_state next ≠ Reserved)
      then Err (mkAdmissionError "reservation" "reservation_state_mismatch"
             "first reservation evidence may appear only when entering reserved state")
      else
        host ← expect (ear_host_capacity next);
        if reserved_at next_reservation <? hco_observed_at host
        then Err (mkAdmissionError "reservation.reserved_at"
               "reservation_precedes_capacity_observation"
               "reservation start must not precede the capacity observation that admitted it")
        else Ok ()
  | None, None => Ok ()
  | Some _, None =>
      Err (mkAdmissionError "reservation" "reservation_identity_lost"
        "post-reservation states must retain exact reservation evidence")
  | Some previous_reservation, Some next_reservation =>
      if bool_decide (res_id next_reservation ≠ res_id previous_reservation)
      then Err (mkAdmissionError "reservation.id" "reservation_identity_drift"
             "reservation identity must remain exact after reservation")
      else if res_generation next_reservation <? res_generation previous_reservation
      then Err (mkAdmissionError "reservation.generation" "stale_reservation_generation"
             "reservation generation is older than the admitted generation")
      else if res_generation previous_reservation <? res_generation next_reservation
      then Err (mkAdmissionError "reservation.generation" "reservation_generation_drift"
             "reservation generation cannot change within one admitted execution")
      else if negb (reserved_at next_reservation =? reserved_at previous_reservation)
      then Err (mkAdmissionError "reservation.reserved_at" "reservation_start_drift"
             "reservation start cannot change within one admitted execution")
      else if negb (expires_at next_reservation =? expires_at previous_reservation)
      then Err (mkAdmissionError "reservation.expires_at" "reservation_expiry_drift"
             "reservation expiry cannot change within one admitted execution")
      else if bool_decide (ear_applied_limits next ≠ ear_applied_limits previous)
      then Err (mkAdmissionError "applied_limits" "applied_capacity_drift"
             "applied resource limits must remain exact after reservation")
      else Ok ()
  end.

Definition validate_acknowledgement_progress (previous next : ExecutionAdmissionRecord)
    : result ExecutionAdmissionError () :=
  if bool_decide (ear_state previous = Draining)
     && bool_decide (ear_acknowledgement next ≠ ear_acknowledgement previous)
  then Err (mkAdmissionError "acknowledgement" "drain_acknowledgement_drift"
         "draining acknowledgement must remain exact through terminal observation")
  else Ok ().

Definition validate_terminal_transition_reason (previous next : ExecutionAdmissionRecord)
    : result ExecutionAdmissionError () :=
  if bool_decide (ear_state next = Unavailable)
     && match ear_unavailable_reason next with
        | Some (Cancelled | Drained) => true
        | _ => false
        end
     && bool_decide (ear_state previous ≠ Draining)
  then Err (mkAdmissionError "state" "draining_state_missing"
         "cancelled or drained terminal state requires an explicit draining observation")
  else Ok ().

Definition plan_transition (self next : ExecutionAdmissionRecord)
    : result ExecutionAdmissionError ExecutionAdmissionTransition :=
  if is_terminal (ear_state self)
  then Err (mkAdmissionError "state" "terminal_state_reversal"
         "terminal admission state cannot transition")
  else if ear_observed_at next <? ear_observed_at self
  then Err (mkAdmissionError "observed_at" "observation_time_reversal"
         "admission observation time cannot move backwards")
  else if bool_decide (ear_identity next ≠ ear_identity self)
  then Err (mkAdmissionError "identity" "admission_identity_drift"
         "request, verification-profile, and runner-profile identity must remain exact")
  else if bool_decide (ear_requested_limits next ≠ ear_requested_limits self)
  then Err (mkAdmissionError "requested_limits" "requested_capacity_drift"
         "requested resource limits must remain exact for one admission request")
  else if bool_decide (ear_fallback_eligibility next ≠ ear_fallback_eligibility self)
  then Err (mkAdmissionError "fallback_eligibility" "fallback_eligibility_drift"
         "fallback-profile eligibility must remain exact for one admission request")
  else
    _ ← validate_capacity_observation_progress (ear_host_capacity self) (ear_host_capacity next);
    _ ← validate_transition_pair (ear_state self) (ear_state next);
    _ ← validate_reservation_progress self next;
    _ ← validate_acknowledgement_progress self next;
    _ ← validate_terminal_transition_reason self next;
    Ok (mkAdmissionTransition EXECUTION_ADMISSION_SCHEMA_VERSION (ear_identity self)
          (ear_state self) (ear_state next) (ear_observed_at next) next).
