(* ===== verification/AdmissionLifecycle.v ===== *)
(** * The admission lifecycle

    The contract [ExecutionAdmission] implements, stated without its
    validators: [StateEvidence] is the table of the evidence each lifecycle
    state carries, [record_valid] the records that match the table, and
    [admission_step] the accepted transitions between valid records.  The
    theorems show that [from_input] accepts exactly the table, that
    [plan_transition] is a function of the pair alone and never panics on
    valid records, and what holds along every chain of transitions. *)

From S2P Require Import Prelude Artifact ExecutionAdmission.

Local Open Scope N_scope.

(** ** Abstract specification *)

Definition limits_le (a b : ExecutionResourceLimits) : Prop :=
  cpu_millis a ≤ cpu_millis b ∧ memory_bytes a ≤ memory_bytes b ∧ pids a ≤ pids b.

(** A reservation whose bounded lifetime has started at [now]. *)
Definition bounded_reservation (now : N) (r : ReservationEvidence) : Prop :=
  reserved_at r ≤ now ∧ reserved_at r < expires_at r ∧
  expires_at r ≤ reserved_at r + MAX_RESERVATION_LIFETIME_MILLIS.

Definition live_reservation (now : N) (r : ReservationEvidence) : Prop :=
  bounded_reservation now r ∧ now < expires_at r.

Definition expired_reservation (now : N) (r : ReservationEvidence) : Prop :=
  bounded_reservation now r ∧ expires_at r ≤ now.

(** A host observation that is not newer than the admission observation. *)
Definition host_known (now : N) (h : HostCapacityObservation) : Prop :=
  hco_observed_at h ≤ now.

(** What a request has been granted: applied limits with their reservation. *)
Definition Grant : Type := ExecutionResourceLimits * ReservationEvidence.

Definition applied_of (g : option Grant) : option ExecutionResourceLimits := fst <$> g.
Definition reservation_of (g : option Grant) : option ReservationEvidence := snd <$> g.

(** The evidence of each state: host, grant, queue position, acknowledgement
    and unavailability reason, for a request of [req] limits seen at [now]. *)
Inductive StateEvidence (now : N) (req : ExecutionResourceLimits) :
    ExecutionAdmissionState → option HostCapacityObservation → option Grant →
    option QueuePosition → option DrainAcknowledgement → option UnavailableReason → Prop :=
| ev_requested :
    StateEvidence now req Requested None None None None None
| ev_admitted h :
    host_known now h → limits_le req (hco_capacity h) →
    StateEvidence now req StateAdmitted (Some h) None None None None
| ev_queued h p :
    host_known now h → limits_le req (hco_capacity h) →
    QueuePosition_is_valid p = true →
    StateEvidence now req Queued (Some h) None (Some p) None None
| ev_held s h a r :
    s = Reserved ∨ s = Starting ∨ s = Running →
    host_known now h → limits_le req (hco_capacity h) →
    limits_le a req → live_reservation now r →
    StateEvidence now req s (Some h) (Some (a, r)) None None None
| ev_draining h a r k :
    host_known now h → limits_le req (hco_capacity h) →
    limits_le a req → live_reservation now r →
    StateEvidence now req Draining (Some h) (Some (a, r)) None (Some k) None
| ev_rejected h :
    host_known now h →
    StateEvidence now req Unavailable (Some h) None None None (Some AdmissionRejected)
| ev_short_of_capacity h g :
    host_known now h →
    (∀ a r, g = Some (a, r) → limits_le a req ∧ live_reservation now r) →
    (limits_le req (hco_capacity h) →
     ∃ a r, g = Some (a, r) ∧ ¬ limits_le a (hco_capacity h)) →
    StateEvidence now req Unavailable (Some h) g None None (Some CapacityUnavailable)
| ev_host_lost h g :
    host_known now h →
    (∀ a r, g = Some (a, r) → limits_le a req ∧ live_reservation now r) →
    StateEvidence now req Unavailable (Some h) g None None (Some HostUnavailable)
| ev_expired h a r :
    host_known now h → limits_le a req → expired_reservation now r →
    StateEvidence now req Unavailable (Some h) (Some (a, r)) None None (Some ReservationExpired)
| ev_ended h a r k reason :
    (k = Cancellation ∧ reason = Cancelled) ∨ (k = Drain ∧ reason = Drained) →
    host_known now h → limits_le a req → live_reservation now r →
    StateEvidence now req Unavailable (Some h) (Some (a, r)) None (Some k) (Some reason).

(** A fallback profile is never the primary one. *)
Definition fallback_distinct (identity : ExecutionAdmissionIdentity)
    (fallback : FallbackProfileEligibility) : Prop :=
  fallback ≠ Eligible (runner_profile_id identity).

Definition record_valid (r : ExecutionAdmissionRecord) : Prop :=
  ear_schema_version r = EXECUTION_ADMISSION_SCHEMA_VERSION ∧
  fallback_distinct (ear_identity r) (ear_fallback_eligibility r) ∧
  ∃ g, ear_applied_limits r = applied_of g ∧ ear_reservation r = reservation_of g ∧
    StateEvidence (ear_observed_at r) (ear_requested_limits r) (ear_state r)
      (ear_host_capacity r) g (ear_queue_position r)
      (ear_acknowledgement r) (ear_unavailable_reason r).

(** The record an input describes. *)
Definition record_of (i : ExecutionAdmissionInput) : ExecutionAdmissionRecord :=
  mkAdmissionRecord EXECUTION_ADMISSION_SCHEMA_VERSION
    (eai_identity i) (eai_state i) (eai_observed_at i) (eai_requested_limits i)
    (eai_host_capacity i) (eai_applied_limits i) (eai_queue_position i)
    (eai_reservation i) (eai_acknowledgement i) (eai_fallback_eligibility i)
    (eai_unavailable_reason i).

(** One accepted transition between valid records. *)
Definition admission_step (r r' : ExecutionAdmissionRecord) : Prop :=
  record_valid r ∧ record_valid r' ∧ ∃ t, plan_transition r r' = Ok t.

(** How far a state is through the lifecycle. *)
Definition phase (s : ExecutionAdmissionState) : N :=
  match s with
  | Requested => 0
  | StateAdmitted => 1
  | Queued => 2
  | Reserved => 3
  | Starting => 4
  | Running => 5
  | Draining => 6
  | Unavailable => 7
  end.

(** ** Evidence of a record *)

Lemma fits_within_spec a b : fits_within a b = true ↔ limits_le a b.
Proof. unfold fits_within, limits_le. rewrite !andb_true_iff, !N.leb_le. tauto. Qed.

Lemma fits_withinP a b : reflect (limits_le a b) (fits_within a b).
Proof. apply iff_reflect. symmetry. apply fits_within_spec. Qed.

Lemma limits_le_trans a b c : limits_le a b → limits_le b c → limits_le a c.
Proof. unfold limits_le. lia. Qed.

Lemma validate_fallback_Ok identity fallback u :
  validate_fallback identity fallback = Ok u ↔ fallback_distinct identity fallback.
Proof.
  destruct u. unfold validate_fallback, fallback_distinct.
  destruct fallback as [p|]; [|naive_solver]. case_bool_decide; naive_solver.
Qed.

Lemma validate_reservation_Ok i u :
  validate_reservation i = Ok u ↔
  ∀ r, eai_reservation i = Some r →
    bounded_reservation (eai_observed_at i) r ∧
    (expires_at r ≤ eai_observed_at i ↔
     eai_state i = Unavailable ∧ eai_unavailable_reason i = Some ReservationExpired).
Proof.
  destruct u. unfold validate_reservation, bounded_reservation.
  destruct (eai_reservation i) as [r|]; [|naive_solver].
  transitivity (bounded_reservation (eai_observed_at i) r ∧
    (expires_at r ≤ eai_observed_at i ↔
     eai_state i = Unavailable ∧ eai_unavailable_reason i = Some ReservationExpired)); [|naive_solver].
  unfold bounded_reservation, checked_sub, ok_or.
  destruct (reserved_at r <=? expires_at r) eqn:H1; rsimpl; bprop; [|split; [done|lia]].
  destruct ((_ =? 0) || _) eqn:H2; [split; [done|]; lia|].
  destruct (_ <? reserved_at r) eqn:H3; [split; [done|]; lia|]. bprop.
  rewrite <-bool_decide_and.
  destruct (expires_at r <=? eai_observed_at i) eqn:H5; bprop;
    case_bool_decide; simpl; (split; [intros|intros (?&?&?)]);
    try done; try (split_and!; [lia..|]); intuition (done || lia).
Qed.

Lemma validate_acknowledgement_Ok i u :
  validate_acknowledgement i = Ok u ↔
  (eai_state i = Draining → is_Some (eai_acknowledgement i)) ∧
  (eai_state i ≠ Draining → eai_state i ≠ Unavailable → eai_acknowledgement i = None).
Proof.
  destruct u. unfold validate_acknowledgement.
  destruct (eai_state i), (eai_acknowledgement i); simpl; naive_solver.
Qed.

Lemma validate_host_capacity_Ok i h u :
  validate_host_capacity i h = Ok u ↔
  host_known (eai_observed_at i) h ∧
  (is_active_state (eai_state i) = true → limits_le (eai_requested_limits i) (hco_capacity h)) ∧
  (∀ a, eai_applied_limits i = Some a → limits_le a (eai_requested_limits i)).
Proof.
  destruct u. unfold validate_host_capacity, host_known.
  destruct (eai_observed_at i <? hco_observed_at h) eqn:H1; bprop; [naive_solver lia|].
  destruct (is_active_state (eai_state i)) eqn:Hact; simpl.
  - destruct (fits_withinP (eai_requested_limits i) (hco_capacity h)); simpl; [|naive_solver].
    destruct (eai_applied_limits i) as [a|]; [|naive_solver].
    destruct (fits_withinP a (eai_requested_limits i)); simpl; [|naive_solver].
    destruct (fits_withinP a (hco_capacity h)) as [|Hn]; simpl; [naive_solver|].
    destruct Hn. eauto using limits_le_trans.
  - destruct (eai_applied_limits i) as [a|]; [|naive_solver].
    destruct (fits_withinP a (eai_requested_limits i)); simpl; naive_solver.
Qed.

(** What [validate_unavailable_reason] asks of each reason. *)
Definition reason_evidence (i : ExecutionAdmissionInput) (reason : UnavailableReason) : Prop :=
  match reason with
  | CapacityUnavailable =>
      eai_acknowledgement i = None ∧
      ∀ h, eai_host_capacity i = Some h →
        ¬ (limits_le (eai_requested_limits i) (hco_capacity h) ∧
           ∀ a, eai_applied_limits i = Some a → limits_le a (hco_capacity h))
  | AdmissionRejected => eai_reservation i = None ∧ eai_acknowledgement i = None
  | ReservationExpired => is_Some (eai_reservation i) ∧ eai_acknowledgement i = None
  | Cancelled => is_Some (eai_reservation i) ∧ eai_acknowledgement i = Some Cancellation
  | Drained => is_Some (eai_reservation i) ∧ eai_acknowledgement i = Some Drain
  | HostUnavailable => eai_acknowledgement i = None
  end.

Lemma is_some_true {A} (o : option A) : is_some o = true ↔ is_Some o.
Proof. destruct o; simpl; split; [eauto|done..|intros [? ?]; done]. Qed.

Lemma is_some_false {A} (o : option A) : is_some o = false ↔ o = None.
Proof. destruct o; naive_solver. Qed.

Lemma validate_unavailable_reason_Ok i u :
  (eai_state i ≠ Requested → is_Some (eai_host_capacity i)) →
  validate_unavailable_reason i = Ok u ↔
  (eai_state i ≠ Unavailable ∧ eai_unavailable_reason i = None) ∨
  (eai_state i = Unavailable ∧
   ∃ reason, eai_unavailable_reason i = Some reason ∧ reason_evidence i reason).
Proof.
  intros Hhost. destruct u. unfold validate_unavailable_reason.
  case_bool_decide as Hst; [destruct (eai_unavailable_reason i); naive_solver|].
  destruct (eai_unavailable_reason i) as [reason|]; rsimpl; [|naive_solver].
  transitivity (reason_evidence i reason); [|naive_solver].
  destruct reason; simpl; rewrite <-?is_some_true, <-?is_some_false;
    try (destruct (is_some _), (is_some _); naive_solver).
  - (* CapacityUnavailable *)
    destruct Hhost as [h Hh]; [congruence|]. rewrite Hh. rsimpl.
    destruct (is_some (eai_acknowledgement i)); [naive_solver|].
    destruct (fits_withinP (eai_requested_limits i) (hco_capacity h)); simpl; [|naive_solver].
    destruct (eai_applied_limits i) as [a|]; simpl; [|naive_solver].
    destruct (fits_withinP a (hco_capacity h)); simpl; naive_solver.
  - destruct (is_some _); naive_solver.
  - case_bool_decide; destruct (is_some _); naive_solver.
  - case_bool_decide; destruct (is_some _); naive_solver.
Qed.

Lemma live_of_not_expired now r (P : Prop) :
  bounded_reservation now r → (expires_at r ≤ now ↔ P) → ¬ P → live_reservation now r.
Proof. intros Hb Hiff Hn. split; [done|]. apply N.lt_nge. tauto. Qed.

Lemma validate_state_evidence_sound i u :
  validate_state_evidence i = Ok u →
  ∃ g, eai_applied_limits i = applied_of g ∧ eai_reservation i = reservation_of g ∧
    StateEvidence (eai_observed_at i) (eai_requested_limits i) (eai_state i)
      (eai_host_capacity i) g (eai_queue_position i)
      (eai_acknowledgement i) (eai_unavailable_reason i).
Proof.
  destruct i as [id st now req host app pos resv ack fb reason].
  unfold validate_state_evidence; simpl. intros H. inv_ok H. bprop.
  rewrite validate_reservation_Ok in Hy0. rewrite validate_acknowledgement_Ok in Hy1.
  rewrite validate_unavailable_reason_Ok in H; simpl in *;
    [|intros Hst; rewrite bool_decide_eq_true_2 in Heqb by done; by destruct host].
  assert (∀ h, host = Some h → host_known now h ∧
    (is_active_state st = true → limits_le req (hco_capacity h)) ∧
    (∀ a, app = Some a → limits_le a req)) as Hhost.
  { intros h ->. by apply validate_host_capacity_Ok in Hy. }
  clear Hy. exists (a ← app; r ← resv; Some (a, r)).
  assert (app = applied_of (a ← app; r ← resv; Some (a, r)) ∧
    resv = reservation_of (a ← app; r ← resv; Some (a, r))) as [<- <-]
    by (destruct app, resv; simpl in *; done).
  do 2 (split; [done|]).
  destruct st, host as [h|]; simplify_eq/=; destruct app as [a|], resv as [r|]; simplify_eq/=;
    destruct pos as [p|]; simplify_eq/=;
    destruct H as [[? ->]|(? & reason' & -> & Hr)]; try done;
    try (destruct (Hhost _ eq_refl) as (? & ? & ?); clear Hhost).
  all: try (destruct (Hy0 r eq_refl) as [? Hexp]; clear Hy0).
  all: try (rewrite (proj2 Hy1) by done).
  all: try (by destruct_or?).
  all: try (destruct reason'; simpl in Hr; destruct_and?; simplify_eq/=).
  all: try (assert (live_reservation now r)
    by (eapply live_of_not_expired; [done..|intros [??]; congruence])).
  all: bprop; try by econstructor; eauto.
  all: try match goal with H : is_Some None |- _ => by destruct H end.
  - (* Draining *)
    destruct Hy1 as [[k ->] _]; [done|]. by constructor; eauto.
  - (* CapacityUnavailable with a grant *)
    constructor; [done|naive_solver|]. intros Hfit.
    exists a, r. split; [done|]. intros Ha. naive_solver.
  - (* HostUnavailable with a grant *)
    constructor; [done|naive_solver].
  - (* ReservationExpired *)
    constructor; eauto. split; [done|]. by apply Hexp.
  - (* CapacityUnavailable without a grant *)
    constructor; [done|naive_solver|]. intros Hfit. destruct (H4 _ eq_refl). naive_solver.
Qed.

Lemma evidence_reservation now req st host g pos ack reason r :
  StateEvidence now req st host g pos ack reason → reservation_of g = Some r →
  bounded_reservation now r ∧
  (expires_at r ≤ now ↔ st = Unavailable ∧ reason = Some ReservationExpired).
Proof.
  assert (live_reservation now r → ∀ st' reason',
    ¬ (st' = Unavailable ∧ reason' = Some ReservationExpired) →
    bounded_reservation now r ∧
    (expires_at r ≤ now ↔ st' = Unavailable ∧ reason' = Some ReservationExpired)) as Hlive.
  { intros [? ?] ???. split; [done|]. split; [lia|tauto]. }
  intros Hev Hr. destruct Hev; simplify_eq/=.
  5: { match goal with H : expired_reservation _ _ |- _ => destruct H end.
       split; [done|]. by split. }
  all: try (destruct g as [[]|]; simplify_eq/=;
    match goal with H : ∀ a r, _ → _ |- _ => destruct (H _ _ eq_refl) end).
  all: apply Hlive; [done|]; intros [??]; destruct_or?; destruct_and?; congruence.
Qed.

Lemma evidence_grant now req st host g pos ack reason a :
  StateEvidence now req st host g pos ack reason → applied_of g = Some a → limits_le a req.
Proof.
  intros Hev Ha. destruct Hev; simplify_eq/=; try done; destruct g as [[]|]; simplify_eq/=;
    match goal with H : ∀ a r, _ → _ |- _ => by destruct (H _ _ eq_refl) end.
Qed.

Lemma validate_state_evidence_complete i g :
  eai_applied_limits i = applied_of g → eai_reservation i = reservation_of g →
  StateEvidence (eai_observed_at i) (eai_requested_limits i) (eai_state i)
    (eai_host_capacity i) g (eai_queue_position i)
    (eai_acknowledgement i) (eai_unavailable_reason i) →
  validate_state_evidence i = Ok ().
Proof.
  destruct i as [id st now req host app pos resv ack fb reason]. simpl. intros -> -> Hev.
  unfold validate_state_evidence; simpl.
  assert (validate_reservation (mkAdmissionInput id st now req host (applied_of g) pos
    (reservation_of g) ack fb reason) = Ok ()) as ->.
  { apply validate_reservation_Ok. simpl. eauto using evidence_reservation. }
  assert (validate_acknowledgement (mkAdmissionInput id st now req host (applied_of g) pos
    (reservation_of g) ack fb reason) = Ok ()) as ->.
  { apply validate_acknowledgement_Ok. simpl.
    destruct Hev; destruct_or?; subst; split; intros; by eauto. }
  assert (validate_unavailable_reason (mkAdmissionInput id st now req host (applied_of g) pos
    (reservation_of g) ack fb reason) = Ok ()) as ->.
  { apply validate_unavailable_reason_Ok; simpl; [by destruct Hev; eauto|].
    destruct Hev; destruct_or?; destruct_and?; subst; simpl;
      try (left; split; [congruence|done]); right; (split; [done|]); eexists; (split; [done|]);
      simpl; eauto. 
    split; [done|]. intros h' [= <-] [Hreq Happ].
    destruct (H1 Hreq) as (a & r & -> & Hna). by apply Hna, Happ. }
  assert (∀ h, host = Some h → validate_host_capacity (mkAdmissionInput id st now req host
    (applied_of g) pos (reservation_of g) ack fb reason) h = Ok ()) as Hcap.
  { intros h ->. apply validate_host_capacity_Ok; simpl.
    split_and!; [..|eauto using evidence_grant];
      inversion Hev; destruct_or?; subst; simplify_eq/=; done. }
  destruct Hev; destruct_or?; subst; simpl; rewrite ?Hcap by done; rsimpl; try done.
  - by rewrite H1.
  - destruct g as [[]|]; done.
  - destruct g as [[]|]; done.
Qed.

Lemma validate_state_evidence_no_panic i : validate_state_evidence i ≠ Panic.
Proof.
  unfold validate_state_evidence.
  destruct (negb _) eqn:Hcap; [done|]. apply negb_false_iff, Bool.eqb_prop in Hcap.
  intros H. inv_panic H.
  - unfold validate_host_capacity in H. inv_panic H.
  - unfold validate_reservation in H. inv_panic H.
  - unfold validate_acknowledgement in H. inv_panic H.
  - unfold validate_unavailable_reason in H. inv_panic H. bprop.
    rewrite bool_decide_eq_true_2 in Hcap by congruence.
    by destruct (eai_host_capacity i).
Qed.

Lemma from_input_Ok i r : from_input i = Ok r → r = record_of i.
Proof. unfold from_input. intros H. inv_ok H. by injection H as <-. Qed.

(** ** Transitions *)

(** A transition that is accepted keeps the identity of the request, moves
    time and phase forward, and keeps a grant once it exists. *)
Record step_facts (r r' : ExecutionAdmissionRecord) : Prop := {
  sf_not_terminal : ear_state r ≠ Unavailable;
  sf_identity : ear_identity r' = ear_identity r;
  sf_limits : ear_requested_limits r' = ear_requested_limits r;
  sf_fallback : ear_fallback_eligibility r' = ear_fallback_eligibility r;
  sf_time : ear_observed_at r ≤ ear_observed_at r';
  sf_edge : ear_state r' = ear_state r ∨ forward_pair (ear_state r) (ear_state r') = true;
  sf_host : ∀ h h', ear_host_capacity r = Some h → ear_host_capacity r' = Some h' →
    hco_observed_at h ≤ hco_observed_at h';
  sf_grant : ∀ v, ear_reservation r = Some v →
    ear_reservation r' = Some v ∧ ear_applied_limits r' = ear_applied_limits r;
  sf_first_grant : ∀ v, ear_reservation r = None → ear_reservation r' = Some v →
    ear_state r' = Reserved;
  sf_ack : ear_state r = Draining → ear_acknowledgement r' = ear_acknowledgement r;
  sf_ended : ear_unavailable_reason r' = Some Cancelled ∨
    ear_unavailable_reason r' = Some Drained →
    ear_state r' = Unavailable → ear_state r = Draining;
}.

Lemma validate_reservation_progress_Ok r r' u :
  validate_reservation_progress r r' = Ok u →
  (∀ v, ear_reservation r = Some v →
    ear_reservation r' = Some v ∧ ear_applied_limits r' = ear_applied_limits r) ∧
  (∀ v, ear_reservation r = None → ear_reservation r' = Some v → ear_state r' = Reserved).
Proof.
  unfold validate_reservation_progress.
  destruct (ear_reservation r) as [v|], (ear_reservation r') as [v'|];
    intros H; inv_ok H; bprop; try naive_solver.
  split; [|done]. intros ? [= <-]. split; [|done]. f_equal. destruct v, v'; simpl in *.
  f_equal; (done || lia).
Qed.

Lemma plan_transition_facts r r' t : plan_transition r r' = Ok t →
  step_facts r r' ∧
  t = mkAdmissionTransition EXECUTION_ADMISSION_SCHEMA_VERSION (ear_identity r)
        (ear_state r) (ear_state r') (ear_observed_at r') r'.
Proof.
  unfold plan_transition, is_terminal. intros H. inv_ok H. bprop.
  apply validate_reservation_progress_Ok in Hy1 as [Hgrant Hfirst].
  split; [|by injection H as <-]. constructor; try done.
  - unfold validate_transition_pair in Hy0. inv_ok Hy0. bprop.
    destruct Heqb4; bprop; [left; by destruct_and?|by right].
  - intros h h' Hh Hh'. rewrite Hh, Hh' in Hy. simpl in Hy. inv_ok Hy. by bprop.
  - intros Hd. unfold validate_acknowledgement_progress in Hy2. inv_ok Hy2.
    bprop. destruct Heqb4; bprop; done.
  - intros Hreason Hst. unfold validate_terminal_transition_reason in Hy3. inv_ok Hy3.
    rewrite bool_decide_eq_true_2 in Heqb4 by done. bprop.
    destruct Hreason as [Hr|Hr]; rewrite Hr in Heqb4; simpl in Heqb4;
      destruct_or?; bprop; done.
Qed.

Lemma forward_pair_phase s s' : forward_pair s s' = true → phase s < phase s'.
Proof. destruct s, s'; done. Qed.

Lemma record_valid_host r :
  record_valid r → ear_state r ≠ Requested → is_Some (ear_host_capacity r).
Proof.
  intros (_ & _ & g & _ & _ & Hev) Hst. revert Hst.
  generalize (ear_acknowledgement r), (ear_unavailable_reason r), Hev.
  intros ?? []; by eauto.
Qed.

Lemma step_facts_of r r' : admission_step r r' → step_facts r r'.
Proof. intros (_ & _ & t & Ht). by apply plan_transition_facts in Ht as [? _]. Qed.

(** ** Theorems *)

Lemma from_input_spec i r : from_input i = Ok r ↔ r = record_of i ∧ record_valid r.
Proof.
  split.
  - intros H. pose proof (from_input_Ok i r H) as ->. split; [done|].
    unfold from_input in H. inv_ok H.
    apply validate_fallback_Ok in Hy. apply validate_state_evidence_sound in Hy0.
    by split_and!.
  - intros [-> (_ & Hfb & g & Happ & Hres & Hev)]. unfold from_input. simpl in *.
    rewrite (proj2 (validate_fallback_Ok _ _ ()) Hfb).
    by erewrite validate_state_evidence_complete by eauto.
Qed.

(** [ExecutionAdmissionRecord::from_input] accepts exactly the inputs
    whose evidence matches the table of their state, and the record it builds
    is the input with the schema version. *)
Theorem from_input_iff (i : ExecutionAdmissionInput) (r : ExecutionAdmissionRecord) :
  from_input i = Ok r ↔ r = record_of i ∧ record_valid r.
Proof. apply from_input_spec. Qed.

Lemma admission_step_facts_rtc r r' : rtc admission_step r r' →
  ear_identity r' = ear_identity r ∧
  ear_requested_limits r' = ear_requested_limits r ∧
  ear_fallback_eligibility r' = ear_fallback_eligibility r ∧
  ear_observed_at r ≤ ear_observed_at r' ∧
  phase (ear_state r) ≤ phase (ear_state r') ∧
  (∀ v, ear_reservation r = Some v →
    ear_reservation r' = Some v ∧ ear_applied_limits r' = ear_applied_limits r) ∧
  (∀ h, ear_host_capacity r = Some h →
    ∃ h', ear_host_capacity r' = Some h' ∧ hco_observed_at h ≤ hco_observed_at h').
Proof.
  induction 1 as [r|r r1 r' Hstep _ (IHid & IHlim & IHfb & IHtime & IHph & IHgrant & IHhost)].
  { split_and!; try done; [lia..|eauto with lia]. }
  pose proof (step_facts_of _ _ Hstep) as Hf. destruct Hstep as (Hv & Hv1 & _).
  split_and!.
  - by rewrite IHid, (sf_identity _ _ Hf).
  - by rewrite IHlim, (sf_limits _ _ Hf).
  - by rewrite IHfb, (sf_fallback _ _ Hf).
  - pose proof (sf_time _ _ Hf). lia.
  - destruct (sf_edge _ _ Hf) as [He|?%forward_pair_phase]; [rewrite <-He|]; lia.
  - intros v Hr. destruct (sf_grant _ _ Hf v Hr) as [Hr1 Ha1].
    destruct (IHgrant v Hr1) as [? Ha]. by rewrite Ha, Ha1.
  - intros h Hh. destruct (record_valid_host r1 Hv1) as [h1 Hh1].
    { destruct (sf_edge _ _ Hf) as [->|He].
      - destruct Hv as (_ & _ & g & _ & _ & Hev). intros Hst. rewrite Hst, Hh in Hev.
        inversion Hev; destruct_or?; done.
      - by destruct (ear_state r), (ear_state r1). }
    destruct (IHhost h1 Hh1) as (h' & Hh' & Hle). exists h'. split; [done|].
    pose proof (sf_host _ _ Hf h h1 Hh Hh1). lia.
Qed.

(** (C17) Along every chain of accepted transitions the request keeps its
    identity, limits and fallback, observation time and lifecycle phase never
    go back, a host observation is never replaced by an older one, and a
    reservation with its applied limits, once recorded, is kept unchanged. *)
Theorem admission_chain_invariant (r r' : ExecutionAdmissionRecord)
    (Hchain : rtc admission_step r r') :
  ear_identity r' = ear_identity r ∧
  ear_requested_limits r' = ear_requested_limits r ∧
  ear_fallback_eligibility r' = ear_fallback_eligibility r ∧
  ear_observed_at r ≤ ear_observed_at r' ∧
  phase (ear_state r) ≤ phase (ear_state r') ∧
  (∀ v, ear_reservation r = Some v →
    ear_reservation r' = Some v ∧ ear_applied_limits r' = ear_applied_limits r) ∧
  (∀ h, ear_host_capacity r = Some h →
    ∃ h', ear_host_capacity r' = Some h' ∧ hco_observed_at h ≤ hco_observed_at h').
Proof. by apply admission_step_facts_rtc. Qed.

Lemma ended_has_acknowledgement r : record_valid r →
  (ear_unavailable_reason r = Some Cancelled → ear_acknowledgement r = Some Cancellation) ∧
  (ear_unavailable_reason r = Some Drained → ear_acknowledgement r = Some Drain).
Proof.
  intros (_ & _ & g & _ & _ & Hev). inversion Hev; destruct_or?; destruct_and?; subst;
    split; congruence.
Qed.

(** Execution that ends as cancelled or drained was observed draining
    first: the step into the terminal record leaves a [Draining] record that
    is on the chain and already carries the matching acknowledgement. *)
Theorem ended_through_draining (r r' : ExecutionAdmissionRecord) (reason : UnavailableReason)
    (ack : DrainAcknowledgement)
    (Hchain : rtc admission_step r r')
    (Hstart : ear_state r ≠ Unavailable)
    (Hend : ear_state r' = Unavailable)
    (Hreason : ear_unavailable_reason r' = Some reason)
    (Hmatch : (reason = Cancelled ∧ ack = Cancellation) ∨ (reason = Drained ∧ ack = Drain)) :
  ∃ d, rtc admission_step r d ∧ admission_step d r' ∧
    ear_state d = Draining ∧ ear_acknowledgement d = Some ack.
Proof.
  apply rtc_inv_r in Hchain as [->|(d & Hchain & Hstep)]; [done|].
  exists d. split; [done|]. split; [done|].
  pose proof (step_facts_of _ _ Hstep) as Hf. destruct Hstep as (_ & Hv' & _).
  assert (ear_state d = Draining) as Hd.
  { apply (sf_ended _ _ Hf); [|done]. destruct Hmatch as [[-> _]|[-> _]]; auto. }
  split; [done|]. rewrite <-(sf_ack _ _ Hf Hd).
  destruct (ended_has_acknowledgement r' Hv').
  destruct Hmatch as [[-> ->]|[-> ->]]; auto.
Qed.

Lemma plan_transition_no_panic r r' : record_valid r' → plan_transition r r' ≠ Panic.
Proof.
  intros Hv H. unfold plan_transition in H. inv_panic H.
  - unfold validate_capacity_observation_progress in H. inv_panic H.
  - unfold validate_transition_pair in H. inv_panic H.
  - unfold validate_reservation_progress in H. inv_panic H. bprop.
    destruct (record_valid_host r' Hv) as [h Hh]; [congruence|]. by rewrite Hh in H.
  - unfold validate_acknowledgement_progress in H. inv_panic H.
  - unfold validate_terminal_transition_reason in H. inv_panic H.
Qed.

(** Building a record never panics, and neither does planning a
    transition to a record that [from_input] built: the two [expect]s of the
    module are unreachable. *)
Theorem admission_no_panic (i : ExecutionAdmissionInput) (r r' : ExecutionAdmissionRecord)
    (Hbuilt : from_input i = Ok r') :
  (∀ j, from_input j ≠ Panic) ∧ plan_transition r r' ≠ Panic.
Proof.
  split.
  - intros j H. unfold from_input in H. inv_panic H.
    + unfold validate_fallback in H. inv_panic H.
    + by apply validate_state_evidence_no_panic in H.
  - apply from_input_spec in Hbuilt as [_ Hv]. by apply plan_transition_no_panic.
Qed.

(** (C40) A draining execution cannot outlive its reservation: once the clock
    reaches the expiry, no record that [from_input] accepts is an accepted
    successor of it.  An expired reservation may only be recorded with reason
    [ReservationExpired] and no acknowledgement, and a draining record may
    only be followed by its own acknowledgement. *)
Theorem draining_expiry_has_no_successor (r r' : ExecutionAdmissionRecord)
    (v : ReservationEvidence)
    (Hr : record_valid r) (Hr' : record_valid r')
    (Hdraining : ear_state r = Draining)
    (Hres : ear_reservation r = Some v)
    (Hclock : expires_at v ≤ ear_observed_at r') :
  is_ok (plan_transition r r') = false.
Proof.
  destruct (plan_transition r r') as [t| |] eqn:Ht; [|done..]. exfalso.
  apply plan_transition_facts in Ht as [Hf _].
  destruct (sf_grant _ _ Hf v Hres) as [Hres' _].
  pose proof (sf_ack _ _ Hf Hdraining) as Hack.
  destruct Hr as (_ & _ & g & _ & _ & Hev). rewrite Hdraining in Hev.
  destruct Hr' as (_ & _ & g' & _ & Hg' & Hev'). rewrite Hres' in Hg'.
  pose proof (evidence_reservation _ _ _ _ _ _ _ _ v Hev' (eq_sym Hg')) as [_ [Hexp _]].
  destruct (Hexp Hclock) as [Hst' Hreason']. rewrite Hst', Hreason' in Hev'.
  inversion Hev; destruct_or?; simplify_eq/=. inversion Hev'; destruct_or?; destruct_and?; congruence.
Qed.

(** The terminal record that a held record can move to at the same time. *)
Definition terminate (r : ExecutionAdmissionRecord) : ExecutionAdmissionRecord :=
  let reason :=
    match ear_acknowledgement r with
    | Some Cancellation => Cancelled
    | Some Drain => Drained
    | None => HostUnavailable
    end in
  mkAdmissionRecord (ear_schema_version r) (ear_identity r) Unavailable (ear_observed_at r)
    (ear_requested_limits r)
    (Some (default (mkHostCapacity (ear_observed_at r) (ear_requested_limits r))
             (ear_host_capacity r)))
    (ear_applied_limits r) None (ear_reservation r) (ear_acknowledgement r)
    (ear_fallback_eligibility r) (Some reason).

Lemma terminate_valid r :
  record_valid r → ear_state r ≠ Unavailable → record_valid (terminate r).
Proof.
  intros (Hs & Hfb & g & Happ & Hres & Hev) Hst. unfold terminate, record_valid. simpl.
  split; [done|]. split; [done|]. exists g. split; [done|]. split; [done|].
  inversion Hev; destruct_or?; subst; simpl; try congruence;
    try (constructor; [done || (unfold host_known; simpl; lia)|naive_solver]).
  destruct k; constructor; eauto.
Qed.

(** No accepted record is a dead end: every non-terminal record has an
    accepted terminal successor, observed at the same time, that carries the
    same grant. *)
Theorem admission_can_terminate (r : ExecutionAdmissionRecord)
    (Hr : record_valid r) (Hst : ear_state r ≠ Unavailable) :
  ∃ r', admission_step r r' ∧ ear_state r' = Unavailable ∧
    ear_observed_at r' = ear_observed_at r ∧ ear_reservation r' = ear_reservation r.
Proof.
  exists (terminate r). split; [|done].
  pose proof (terminate_valid r Hr Hst) as Hv. split; [done|]. split; [done|].
  unfold plan_transition, is_terminal. simpl.
  rewrite bool_decide_eq_false_2 by done. rewrite N.ltb_irrefl.
  rewrite !bool_decide_eq_false_2 by congruence.
  assert (validate_capacity_observation_progress (ear_host_capacity r)
    (ear_host_capacity (terminate r)) = Ok ()) as Hcap.
  { simpl. destruct (ear_host_capacity r); simpl; [|done]. by rewrite N.ltb_irrefl. }
  assert (validate_transition_pair (ear_state r) Unavailable = Ok ()) as Hpair.
  { by destruct (ear_state r). }
  assert (validate_reservation_progress r (terminate r) = Ok ()) as Hresv.
  { unfold validate_reservation_progress. simpl. destruct (ear_reservation r) as [v|]; [|done].
    rewrite !bool_decide_eq_false_2, !N.ltb_irrefl, !N.eqb_refl by congruence. done. }
  assert (validate_acknowledgement_progress r (terminate r) = Ok ()) as Hack.
  { unfold validate_acknowledgement_progress. simpl.
    rewrite (bool_decide_eq_false_2 (_ ≠ _)) by congruence. by rewrite andb_false_r. }
  assert (validate_terminal_transition_reason r (terminate r) = Ok ()) as Hreason.
  { unfold validate_terminal_transition_reason. simpl.
    destruct Hr as (_ & _ & g & _ & _ & Hev).
    inversion Hev; destruct_or?; simpl; try done; try congruence.
    destruct k; simpl; rewrite ?bool_decide_eq_false_2 by congruence; done. }
  simpl in Hcap. rewrite Hcap, Hpair, Hresv, Hack, Hreason. rsimpl. eauto.
Qed.

(** ** Sample records, and the theorems at them *)

Definition sample_limits : ExecutionResourceLimits := mkLimits 3000 1073741824 256.

Definition sample_identity : ExecutionAdmissionIdentity :=
  mkIdentity "job-a" "verify" "mini".

Definition sample_reservation : ReservationEvidence := mkReservation "res-1" 1 1200 5000.

(** The record of one job seen at time [now] in state [st]. *)
Definition sample_input (st : ExecutionAdmissionState) (now : N)
    (ack : option DrainAcknowledgement) (reason : option UnavailableReason)
    : ExecutionAdmissionInput :=
  let held := negb (bool_decide (st = Requested ∨ st = StateAdmitted)) in
  mkAdmissionInput sample_identity st now sample_limits
    (if bool_decide (st = Requested) then None
     else Some (mkHostCapacity 1100 (mkLimits 8000 8589934592 3072)))
    (if held then Some sample_limits else None) None
    (if held then Some sample_reservation else None)
    ack (Eligible "spare") reason.

Definition sample_record (st : ExecutionAdmissionState) (now : N)
    (ack : option DrainAcknowledgement) (reason : option UnavailableReason)
    : ExecutionAdmissionRecord := record_of (sample_input st now ack reason).

Lemma sample_valid st now ack reason :
  is_ok (from_input (sample_input st now ack reason)) = true →
  record_valid (sample_record st now ack reason).
Proof.
  destruct (from_input _) as [r| |] eqn:H; [|done..]. intros _.
  apply from_input_spec in H as [-> H]. done.
Qed.

Lemma sample_step st now ack reason st' now' ack' reason' :
  is_ok (from_input (sample_input st now ack reason)) = true →
  is_ok (from_input (sample_input st' now' ack' reason')) = true →
  is_ok (plan_transition (sample_record st now ack reason)
           (sample_record st' now' ack' reason')) = true →
  admission_step (sample_record st now ack reason) (sample_record st' now' ack' reason').
Proof.
  intros H H' Ht. split_and!; [by apply sample_valid..|].
  destruct (plan_transition _ _); [eauto|done..].
Qed.

Lemma sample_chain_to_draining :
  rtc admission_step (sample_record Requested 1000 None None)
    (sample_record Draining 1400 (Some Cancellation) None).
Proof.
  eapply (rtc_l _ _ (sample_record StateAdmitted 1100 None None)); [by apply sample_step|].
  eapply (rtc_l _ _ (sample_record Reserved 1200 None None)); [by apply sample_step|].
  eapply (rtc_l _ _ (sample_record Starting 1300 None None)); [by apply sample_step|].
  eapply rtc_once. by apply sample_step.
Qed.

Lemma sample_chain_to_cancelled :
  rtc admission_step (sample_record Requested 1000 None None)
    (sample_record Unavailable 1500 (Some Cancellation) (Some Cancelled)).
Proof. eapply rtc_r; [apply sample_chain_to_draining|]. by apply sample_step. Qed.

Lemma admission_chain_invariant_witness :
  ear_reservation (sample_record Unavailable 1500 (Some Cancellation) (Some Cancelled))
    = Some sample_reservation.
Proof.
  pose proof (admission_chain_invariant (sample_record Draining 1400 (Some Cancellation) None)
    (sample_record Unavailable 1500 (Some Cancellation) (Some Cancelled))
    (rtc_once _ _ (sample_step Draining 1400 (Some Cancellation) None
       Unavailable 1500 (Some Cancellation) (Some Cancelled) eq_refl eq_refl eq_refl)))
    as (_ & _ & _ & _ & _ & H & _).
  exact (proj1 (H sample_reservation eq_refl)).
Defined.

Lemma ended_through_draining_witness :
  ∃ d, ear_state d = Draining ∧ ear_acknowledgement d = Some Cancellation.
Proof.
  destruct (ended_through_draining (sample_record Requested 1000 None None)
    (sample_record Unavailable 1500 (Some Cancellation) (Some Cancelled)) Cancelled Cancellation
    sample_chain_to_cancelled ltac:(discriminate) eq_refl eq_refl (or_introl (conj eq_refl eq_refl)))
    as (d & _ & _ & H).
  exact (ex_intro _ d H).
Defined.

Lemma admission_no_panic_witness :
  plan_transition (sample_record StateAdmitted 1100 None None) (sample_record Reserved 1200 None None)
    ≠ Panic.
Proof.
  exact (proj2 (admission_no_panic (sample_input Reserved 1200 None None)
    (sample_record StateAdmitted 1100 None None) (sample_record Reserved 1200 None None) eq_refl)).
Defined.

Lemma draining_expiry_has_no_successor_witness :
  is_ok (plan_transition (sample_record Draining 1400 (Some Cancellation) None)
    (sample_record Unavailable 5000 None (Some ReservationExpired))) = false.
Proof.
  exact (draining_expiry_has_no_successor (sample_record Draining 1400 (Some Cancellation) None)
    (sample_record Unavailable 5000 None (Some ReservationExpired)) sample_reservation
    (sample_valid Draining 1400 (Some Cancellation) None eq_refl)
    (sample_valid Unavailable 5000 None (Some ReservationExpired) eq_refl)
    eq_refl eq_refl ltac:(vm_compute; discriminate)).
Defined.

Lemma admission_can_terminate_witness :
  ∃ r', admission_step (sample_record Starting 1300 None None) r' ∧
    ear_state r' = Unavailable.
Proof.
  destruct (admission_can_terminate (sample_record Starting 1300 None None)
    (sample_valid Starting 1300 None None eq_refl) ltac:(discriminate)) as (r' & H & H' & _).
  exact (ex_intro _ r' (conj H H')).
Defined.
