(* ===== verification/PidCapacity.v ===== *)
(** * PID reservation policy

    [src/src/personal_worker_pid_capacity.rs]: the queue-level ceiling on the
    PIDs that reservations may hold together, with checked [u32] sums. *)

From S2P Require Import Prelude.

Local Open Scope N_scope.

Definition PERSONAL_WORKER_PID_CAPACITY_POLICY_SCHEMA_VERSION : N := 1.
Definition PERSONAL_WORKER_TOTAL_PID_CAPACITY : N := 4096.
Definition PERSONAL_WORKER_RESERVED_RUNTIME_PIDS : N := 1024.
Definition PERSONAL_WORKER_SCHEDULABLE_PID_CAPACITY : N :=
  PERSONAL_WORKER_TOTAL_PID_CAPACITY - PERSONAL_WORKER_RESERVED_RUNTIME_PIDS.

Record PersonalWorkerPidCapacityPolicy := mkPidPolicy {
  policy_schema_version : N;
  total_pid_capacity : N;
  reserved_runtime_pids : N;
  schedulable_pid_capacity : N;
}.

Definition personal_worker_pid_capacity_policy : PersonalWorkerPidCapacityPolicy :=
  mkPidPolicy PERSONAL_WORKER_PID_CAPACITY_POLICY_SCHEMA_VERSION
    PERSONAL_WORKER_TOTAL_PID_CAPACITY PERSONAL_WORKER_RESERVED_RUNTIME_PIDS
    PERSONAL_WORKER_SCHEDULABLE_PID_CAPACITY.

Inductive PersonalWorkerPidAdmissionRefusalReason :=
| ArithmeticOverflow
| ExistingReservationsOvercommitted
| InsufficientSchedulablePids.

Record PersonalWorkerPidAdmission := mkPidAdmission {
  pa_schema_version : N;
  existing_reserved_pids : N;
  candidate_reserved_pids : N;
  projected_reserved_pids : N;
  pa_schedulable_pid_capacity : N;
}.

Definition admit_personal_worker_pid_reservation
    (existing_reservations : list N) (candidate : N)
    : result PersonalWorkerPidAdmissionRefusalReason PersonalWorkerPidAdmission :=
  let policy := personal_worker_pid_capacity_policy in
  existing ← fold_result
    (λ existing reservation, ok_or (checked_add u32_max existing reservation) ArithmeticOverflow)
    0 existing_reservations;
  if schedulable_pid_capacity policy <? existing
  then Err ExistingReservationsOvercommitted
  else
    projected ← ok_or (checked_add u32_max existing candidate) ArithmeticOverflow;
    if schedulable_pid_capacity policy <? projected
    then Err InsufficientSchedulablePids
    else Ok (mkPidAdmission PERSONAL_WORKER_PID_CAPACITY_POLICY_SCHEMA_VERSION
               existing candidate projected (schedulable_pid_capacity policy)).

(** ** Facts *)

Definition sum_pids (l : list N) : N := foldr N.add 0 l.

Lemma fold_checked_add {E} (err : E) max l s :
  s ≤ max →
  fold_result (λ a x, ok_or (checked_add max a x) err) s l =
  if s + sum_pids l <=? max then Ok (s + sum_pids l) else Err err.
Proof.
  revert s. induction l as [|x l IH]; intros s Hs; simpl.
  { rewrite N.add_0_r. by rewrite (proj2 (N.leb_le s max)). }
  destruct (checked_add max s x) as [c|] eqn:Hx; rsimpl.
  - apply checked_add_Some in Hx as [-> Hx]. rewrite IH by done. by rewrite N.add_assoc.
  - apply checked_add_None in Hx.
    assert (s + (x + sum_pids l) <=? max = false) as -> by lia. done.
Qed.

(** The PID admission check is exact on every branch: it succeeds with the
    new total iff that total is within the schedulable ceiling, reports
    existing reservations above the ceiling before it looks at the candidate,
    and reports overflow exactly when a [u32] sum overflows. *)
Theorem pid_admission_exact (existing : list N) (candidate : N) :
  match admit_personal_worker_pid_reservation existing candidate with
  | Ok a =>
      projected_reserved_pids a = sum_pids existing + candidate ∧
      existing_reserved_pids a = sum_pids existing ∧
      sum_pids existing + candidate ≤ PERSONAL_WORKER_SCHEDULABLE_PID_CAPACITY
  | Err InsufficientSchedulablePids =>
      sum_pids existing ≤ PERSONAL_WORKER_SCHEDULABLE_PID_CAPACITY ∧
      PERSONAL_WORKER_SCHEDULABLE_PID_CAPACITY < sum_pids existing + candidate ≤ u32_max
  | Err ExistingReservationsOvercommitted =>
      PERSONAL_WORKER_SCHEDULABLE_PID_CAPACITY < sum_pids existing ≤ u32_max
  | Err ArithmeticOverflow =>
      u32_max < sum_pids existing ∨
      sum_pids existing ≤ PERSONAL_WORKER_SCHEDULABLE_PID_CAPACITY ∧
      u32_max < sum_pids existing + candidate
  | Panic => False
  end.
Proof.
  unfold admit_personal_worker_pid_reservation.
  rewrite fold_checked_add by (vm_compute; done). rewrite N.add_0_l.
  destruct (sum_pids existing <=? u32_max) eqn:H1; rsimpl; bprop; [|by left].
  simpl. destruct (_ <? sum_pids existing) eqn:H2; bprop; [by split|].
  destruct (checked_add _ _ _) as [p|] eqn:H3; rsimpl.
  - apply checked_add_Some in H3 as [-> H3].
    destruct (_ <? _ + _) eqn:H4; bprop; simpl; split_and!; done.
  - apply checked_add_None in H3. right. done.
Qed.

(** The form the queue uses: one running total, one candidate. *)
Lemma admit_one_Ok used candidate a :
  admit_personal_worker_pid_reservation [used] candidate = Ok a →
  projected_reserved_pids a = used + candidate ∧
  used + candidate ≤ PERSONAL_WORKER_SCHEDULABLE_PID_CAPACITY.
Proof.
  unfold admit_personal_worker_pid_reservation. simpl. intros H. inv_oks.
  repeat match goal with H : checked_add _ _ _ = Some _ |- _ =>
    apply checked_add_Some in H as [? _] end.
  bprop. subst. simpl. lia.
Qed.

Lemma admit_one_no_panic used candidate :
  admit_personal_worker_pid_reservation [used] candidate ≠ Panic.
Proof. unfold admit_personal_worker_pid_reservation. intros H. inv_panic H. simpl in H. inv_panic H. Qed.
