(* ===== verification/WorkerQueue.v ===== *)
(** * The personal worker queue

    [src/src/personal_worker_queue.rs]: the data of one queue observation, its
    validation, and the evaluator that selects the jobs to reserve next.
    A [BTreeMap] is a [gmap], a [BTreeSet] a [gset]; [Vec] lengths and the
    repository load counters are [nat] and [N] counters. *)

From S2P Require Import Prelude Artifact ExecutionAdmission PidCapacity.

Local Open Scope N_scope.

(** ** Policy constants *)

Definition PERSONAL_WORKER_QUEUE_SCHEMA_VERSION : N := 3.
Definition MAX_PERSONAL_WORKER_QUEUE_ENTRIES : nat := 256.
Definition MAX_PERSONAL_WORKER_ACTIVE_RESERVATIONS : nat := 2.
Definition PERSONAL_WORKER_TOTAL_CPU_MILLIS : N := 8000.
Definition PERSONAL_WORKER_TOTAL_MEMORY_BYTES : N := 10 * 1024 * 1024 * 1024.
Definition PERSONAL_WORKER_RESERVED_CPU_MILLIS : N := 1000.
Definition PERSONAL_WORKER_RESERVED_MEMORY_BYTES : N := 2 * 1024 * 1024 * 1024.
Definition PERSONAL_WORKER_SCHEDULABLE_CPU_MILLIS : N :=
  PERSONAL_WORKER_TOTAL_CPU_MILLIS - PERSONAL_WORKER_RESERVED_CPU_MILLIS.
Definition PERSONAL_WORKER_SCHEDULABLE_MEMORY_BYTES : N :=
  PERSONAL_WORKER_TOTAL_MEMORY_BYTES - PERSONAL_WORKER_RESERVED_MEMORY_BYTES.
Definition PERSONAL_WORKER_LIGHT_CPU_MILLIS : N := 3500.
Definition PERSONAL_WORKER_LIGHT_MEMORY_BYTES : N := 4 * 1024 * 1024 * 1024.
Definition PERSONAL_WORKER_PRIORITY_AGING_MILLIS : N := 30 * 60 * 1000.
Definition PERSONAL_WORKER_INTERACTIVE_COOLDOWN_MILLIS : N := 10 * 60 * 1000.
Definition PERSONAL_WORKER_STOPPED_COOLDOWN_MILLIS : N := 30 * 60 * 1000.
Definition MAX_QUEUE_GENERATION : N := 1000000000000.

(** ** Data *)

Record PersonalWorkerQueueError := mkQueueError {
  pqe_field : string;
  pqe_code : string;
  pqe_message : string;
}.

Notation PersonalWorkerQueueGeneration := N (only parsing).

Inductive PersonalWorkerPriority :=
| PriorityBackground
| PriorityNormal
| PriorityInteractive.

#[export] Instance priority_eq_dec : EqDecision PersonalWorkerPriority.
Proof. solve_decision. Defined.

Inductive PersonalWorkerProfile :=
| ProfileStopped
| ProfileInteractive
| ProfileWork.

#[export] Instance profile_eq_dec : EqDecision PersonalWorkerProfile.
Proof. solve_decision. Defined.

Inductive PersonalWorkerProfileObservation :=
| ProfileUnobserved
| ProfileObserved (profile : PersonalWorkerProfile).

#[export] Instance profile_observation_eq_dec : EqDecision PersonalWorkerProfileObservation.
Proof. solve_decision. Defined.

Inductive PersonalWorkerActivityEvidence :=
| ActivityNever
| ActivityObserved (last_activity_at : EpochMillis).

#[export] Instance activity_evidence_eq_dec : EqDecision PersonalWorkerActivityEvidence.
Proof. solve_decision. Defined.

Inductive PersonalWorkerJobClass :=
| Light
| Heavy.

#[export] Instance job_class_eq_dec : EqDecision PersonalWorkerJobClass.
Proof. solve_decision. Defined.

Record PersonalWorkerSourceIdentity := mkSource {
  repository : string;
  commit : string;
  tree : string;
}.

#[export] Instance source_eq_dec : EqDecision PersonalWorkerSourceIdentity.
Proof. solve_decision. Defined.

Inductive PersonalWorkerCacheNamespace :=
| RepositoryBuild (cache_id cache_repository namespace_digest : string)
| SharedDownload (cache_id namespace_digest : string).

#[export] Instance cache_namespace_eq_dec : EqDecision PersonalWorkerCacheNamespace.
Proof. solve_decision. Defined.

#[export] Instance cache_namespace_countable : Countable PersonalWorkerCacheNamespace.
Proof.
  refine (inj_countable'
    (λ n, match n with
          | RepositoryBuild c r d => inl (c, r, d)
          | SharedDownload c d => inr (c, d)
          end)
    (λ x, match x with
          | inl (c, r, d) => RepositoryBuild c r d
          | inr (c, d) => SharedDownload c d
          end) _).
  by intros [].
Defined.

Inductive PersonalWorkerCacheAccessMode :=
| Read
| Write
| Exclusive.

#[export] Instance access_mode_eq_dec : EqDecision PersonalWorkerCacheAccessMode.
Proof. solve_decision. Defined.

Inductive PersonalWorkerCancellationState :=
| CancellationActive
| CancellationCancelled (cancelled_at : EpochMillis).

#[export] Instance cancellation_eq_dec : EqDecision PersonalWorkerCancellationState.
Proof. solve_decision. Defined.

Record PersonalWorkerJobRequest := mkRequest {
  rq_identity : ExecutionAdmissionIdentity;
  rq_source : PersonalWorkerSourceIdentity;
  rq_priority : PersonalWorkerPriority;
  rq_requested_limits : ExecutionResourceLimits;
  rq_cache_namespace : PersonalWorkerCacheNamespace;
  rq_cache_access : PersonalWorkerCacheAccessMode;
  rq_submitted_at : EpochMillis;
  rq_operator_deadline : option EpochMillis;
  rq_cancellation : PersonalWorkerCancellationState;
  rq_fallback_eligibility : FallbackProfileEligibility;
}.

#[export] Instance job_request_eq_dec : EqDecision PersonalWorkerJobRequest.
Proof. solve_decision. Defined.

Record PersonalWorkerActiveReservation := mkActive {
  ac_request : PersonalWorkerJobRequest;
  ac_admission : ExecutionAdmissionRecord;
  ac_started_at : option EpochMillis;
}.

#[export] Instance active_reservation_eq_dec : EqDecision PersonalWorkerActiveReservation.
Proof. solve_decision. Defined.

Record PersonalWorkerPendingProfileChange := mkPendingProfileChange {
  pc_target : PersonalWorkerProfile;
  pc_requested_at : EpochMillis;
}.

#[export] Instance pending_profile_change_eq_dec : EqDecision PersonalWorkerPendingProfileChange.
Proof. solve_decision. Defined.

Record PersonalWorkerQueueInput := mkQueueInput {
  qi_generation : PersonalWorkerQueueGeneration;
  qi_observed_at : EpochMillis;
  qi_profile_observation : PersonalWorkerProfileObservation;
  qi_activity_evidence : PersonalWorkerActivityEvidence;
  qi_queued : list PersonalWorkerJobRequest;
  qi_active : list PersonalWorkerActiveReservation;
  qi_pending_profile_change : option PersonalWorkerPendingProfileChange;
}.

#[export] Instance queue_input_eq_dec : EqDecision PersonalWorkerQueueInput.
Proof. solve_decision. Defined.

Inductive PersonalWorkerQueueEntryState :=
| EntryQueued
| EntrySelected
| EntryReserved
| EntryStarting
| EntryRunning
| EntryDraining
| EntryCancelled.

#[export] Instance entry_state_eq_dec : EqDecision PersonalWorkerQueueEntryState.
Proof. solve_decision. Defined.

Inductive PersonalWorkerCacheLeaseState :=
| Available
| SharedRead
| HeldRead
| HeldWrite
| HeldExclusive
| BlockedByWriter
| BlockedByExclusive.

Record PersonalWorkerQueueVisibility := mkVisibility {
  vis_request_id : ExecutionRequestId;
  vis_repository : string;
  vis_commit : string;
  vis_tree : string;
  vis_verification_profile_id : VerificationProfileId;
  vis_runner_profile_id : RunnerProfileId;
  vis_priority : PersonalWorkerPriority;
  vis_effective_priority_rank : N;
  vis_age_millis : N;
  vis_state : PersonalWorkerQueueEntryState;
  vis_queue_position : option N;
  vis_requested_cpu_millis : N;
  vis_requested_memory_bytes : N;
  vis_reserved_cpu_millis : option N;
  vis_reserved_memory_bytes : option N;
  vis_cache_namespace : PersonalWorkerCacheNamespace;
  vis_cache_access : PersonalWorkerCacheAccessMode;
  vis_cache_lease : PersonalWorkerCacheLeaseState;
  vis_start_time : option EpochMillis;
  vis_worker_profile : PersonalWorkerProfile;
}.

Record PersonalWorkerSelection := mkSelection {
  sel_request_id : ExecutionRequestId;
  sel_repository : string;
  sel_verification_profile_id : VerificationProfileId;
  sel_runner_profile_id : RunnerProfileId;
  sel_priority : PersonalWorkerPriority;
  sel_effective_priority_rank : N;
  sel_job_class : PersonalWorkerJobClass;
  sel_reserved_limits : ExecutionResourceLimits;
  sel_cache_namespace : PersonalWorkerCacheNamespace;
  sel_cache_access : PersonalWorkerCacheAccessMode;
}.

Record PersonalWorkerQueueDecision := mkDecision {
  qd_schema_version : N;
  qd_generation : PersonalWorkerQueueGeneration;
  qd_observed_at : EpochMillis;
  qd_profile_observation : PersonalWorkerProfileObservation;
  qd_activity_evidence : PersonalWorkerActivityEvidence;
  qd_desired_profile : PersonalWorkerProfile;
  qd_cancel_pending_downscale : bool;
  qd_profile_change_permitted : bool;
  qd_schedulable_cpu_millis : N;
  qd_schedulable_memory_bytes : N;
  qd_schedulable_pids : N;
  qd_selected : list PersonalWorkerSelection;
  qd_visibility : list PersonalWorkerQueueVisibility;
}.

(** ** Small operations *)

Definition QueueGeneration_new (value : N)
    : result PersonalWorkerQueueError PersonalWorkerQueueGeneration :=
  if negb (in_range 1 MAX_QUEUE_GENERATION value)
  then Err (mkQueueError "generation" "invalid_queue_generation"
         "queue generation must be within the bounded positive range")
  else Ok value.

Definition QueueGeneration_next (self : PersonalWorkerQueueGeneration)
    : result PersonalWorkerQueueError PersonalWorkerQueueGeneration :=
  QueueGeneration_new (saturating_add u64_max self 1).

Definition base_rank (priority : PersonalWorkerPriority) : N :=
  match priority with
  | PriorityBackground => 0
  | PriorityNormal => 1
  | PriorityInteractive => 2
  end.

Definition effective_rank (priority : PersonalWorkerPriority) (age_millis : N) : N :=
  let promotions :=
    default u8_max (try_from_int u8_max (age_millis / PERSONAL_WORKER_PRIORITY_AGING_MILLIS)) in
  N.min (saturating_add u8_max (base_rank priority) promotions) 2.

Definition observed_profile (o : PersonalWorkerProfileObservation)
    : option PersonalWorkerProfile :=
  match o with
  | ProfileUnobserved => None
  | ProfileObserved profile => Some profile
  end.

Definition last_activity_at (e : PersonalWorkerActivityEvidence) : option EpochMillis :=
  match e with
  | ActivityNever => None
  | ActivityObserved at_ => Some at_
  end.

Definition namespace_cache_id (n : PersonalWorkerCacheNamespace) : string :=
  match n with
  | RepositoryBuild cache_id _ _ | SharedDownload cache_id _ => cache_id
  end.

Definition validate_for_source (n : PersonalWorkerCacheNamespace)
    (source : PersonalWorkerSourceIdentity) : result PersonalWorkerQueueError () :=
  match n with
  | RepositoryBuild _ cache_repository _ =>
      if bool_decide (cache_repository ≠ repository source)
      then Err (mkQueueError "cache.repository" "cache_repository_mismatch"
             "repository build cache namespace must match the exact job repository")
      else Ok ()
  | SharedDownload _ _ => Ok ()
  end.

Definition is_cancelled (c : PersonalWorkerCancellationState) : bool :=
  match c with
  | CancellationCancelled _ => true
  | CancellationActive => false
  end.

Definition job_class (request : PersonalWorkerJobRequest) : PersonalWorkerJobClass :=
  if (cpu_millis (rq_requested_limits request) <=? PERSONAL_WORKER_LIGHT_CPU_MILLIS)
     && (memory_bytes (rq_requested_limits request) <=? PERSONAL_WORKER_LIGHT_MEMORY_BYTES)
  then Light
  else Heavy.

(** The request identity of a queued or active entry. *)
Definition rq_id (request : PersonalWorkerJobRequest) : ExecutionRequestId :=
  request_id (rq_identity request).

Definition ac_id (active : PersonalWorkerActiveReservation) : ExecutionRequestId :=
  rq_id (ac_request active).

(** ** Validation *)

Definition validate_generation (input : PersonalWorkerQueueInput)
    (previous : option PersonalWorkerQueueDecision) : result PersonalWorkerQueueError () :=
  match previous with
  | None => Ok ()
  | Some previous =>
      if negb (qd_schema_version previous =? PERSONAL_WORKER_QUEUE_SCHEMA_VERSION)
      then Err (mkQueueError "previous.schema_version" "unsupported_previous_queue_schema"
             "previous queue decision schema is not supported")
      else
        expected ← QueueGeneration_next (qd_generation previous);
        if negb (qi_generation input =? expected)
        then Err (mkQueueError "generation" "stale_or_skipped_queue_generation"
               "queue generation must advance by exactly one")
        else if qi_observed_at input <? qd_observed_at previous
        then Err (mkQueueError "observed_at" "queue_observation_time_reversal"
               "queue observation time cannot move backwards")
        else Ok ()
  end.

Definition validate_limits (limits : ExecutionResourceLimits)
    : result PersonalWorkerQueueError () :=
  if (PERSONAL_WORKER_SCHEDULABLE_CPU_MILLIS <? cpu_millis limits)
     || (PERSONAL_WORKER_SCHEDULABLE_MEMORY_BYTES <? memory_bytes limits)
     || (PERSONAL_WORKER_SCHEDULABLE_PID_CAPACITY <? pids limits)
  then Err (mkQueueError "requested_limits" "personal_worker_reserve_violation"
         "job limits must preserve the fixed guest, listener, Podman, and cache reserve")
  else Ok ().

Definition validate_fallback (identity : ExecutionAdmissionIdentity)
    (fallback : FallbackProfileEligibility) : result PersonalWorkerQueueError () :=
  match fallback with
  | Eligible profile =>
      if bool_decide (profile = runner_profile_id identity)
      then Err (mkQueueError "fallback_eligibility.runner_profile_id"
             "fallback_profile_matches_primary"
             "fallback profile must differ from the personal worker profile")
      else Ok ()
  | Ineligible => Ok ()
  end.

Definition validate_request (request : PersonalWorkerJobRequest) (observed_at : EpochMillis)
    : result PersonalWorkerQueueError () :=
  if observed_at <? rq_submitted_at request
  then Err (mkQueueError "submitted_at" "future_submission_time"
         "job submission cannot be newer than the queue observation")
  else if is_some_and (λ deadline, deadline <=? rq_submitted_at request)
            (rq_operator_deadline request)
  then Err (mkQueueError "operator_deadline" "invalid_operator_deadline"
         "operator deadline must be later than job submission")
  else if match rq_cancellation request with
          | CancellationCancelled cancelled_at =>
              (cancelled_at <? rq_submitted_at request) || (observed_at <? cancelled_at)
          | CancellationActive => false
          end
  then Err (mkQueueError "cancellation.cancelled_at" "invalid_cancellation_time"
         "cancellation time must be between submission and observation")
  else
    _ ← validate_limits (rq_requested_limits request);
    _ ← validate_for_source (rq_cache_namespace request) (rq_source request);
    validate_fallback (rq_identity request) (rq_fallback_eligibility request).

(** The [match] on the admission state that ends [validate_active]. *)
Definition validate_start_time (reservation : PersonalWorkerActiveReservation)
    (evidence : ReservationEvidence) (admission_observed_at : EpochMillis)
    : result PersonalWorkerQueueError () :=
  match ear_state (ac_admission reservation) with
  | Reserved =>
      if is_some (ac_started_at reservation)
      then Err (mkQueueError "started_at" "premature_start_time"
             "reserved work must not carry a start time")
      else Ok ()
  | Starting | Running | Draining =>
      if is_none_or (λ started, (started <? reserved_at evidence)
                                || (admission_observed_at <? started))
           (ac_started_at reservation)
      then Err (mkQueueError "started_at" "invalid_active_start_time"
             "started work requires a bounded time after reservation and before admission observation")
      else Ok ()
  | _ => Panic
  end.

Definition validate_active (reservation : PersonalWorkerActiveReservation)
    (observed_at : EpochMillis) : result PersonalWorkerQueueError () :=
  let request := ac_request reservation in
  let admission := ac_admission reservation in
  _ ← validate_request request observed_at;
  let admission_observed_at := ear_observed_at admission in
  if (admission_observed_at <? rq_submitted_at request) || (observed_at <? admission_observed_at)
  then Err (mkQueueError "admission.observed_at" "active_admission_time_out_of_bounds"
         "active admission observation must be between submission and queue observation")
  else if match rq_cancellation request with
          | CancellationCancelled cancelled_at => admission_observed_at <? cancelled_at
          | CancellationActive => false
          end
  then Err (mkQueueError "cancellation.cancelled_at" "cancellation_after_admission_observation"
         "draining admission must be observed at or after cancellation")
  else if is_cancelled (rq_cancellation request) && bool_decide (ear_state admission ≠ Draining)
  then Err (mkQueueError "cancellation" "active_cancellation_requires_drain"
         "cancelled active work must be observed in draining admission state")
  else if bool_decide (ear_identity admission ≠ rq_identity request)
  then Err (mkQueueError "admission.identity" "active_admission_identity_drift"
         "active admission identity must match the exact queue request")
  else if bool_decide (ear_requested_limits admission ≠ rq_requested_limits request)
  then Err (mkQueueError "admission.requested_limits" "active_requested_limits_drift"
         "active admission limits must match the exact queue request")
  else if bool_decide (ear_fallback_eligibility admission ≠ rq_fallback_eligibility request)
  then Err (mkQueueError "admission.fallback_eligibility" "active_fallback_eligibility_drift"
         "active admission fallback eligibility must match the exact queue request")
  else if negb (is_reserved_state (ear_state admission))
  then Err (mkQueueError "admission.state" "invalid_active_admission_state"
         "active worker reservations require reserved, starting, running, or draining state")
  else
    evidence ← ok_or (ear_reservation admission)
      (mkQueueError "admission.reservation" "missing_active_reservation"
         "active admission requires exact reservation evidence");
    if expires_at evidence <=? observed_at
    then Err (mkQueueError "admission.reservation.expires_at" "expired_active_reservation"
           "active reservation must not be expired at queue observation time")
    else
      applied ← ok_or (ear_applied_limits admission)
        (mkQueueError "admission.applied_limits" "missing_active_applied_limits"
           "active admission requires applied resource limits");
      _ ← validate_limits applied;
      if bool_decide (applied ≠ rq_requested_limits request)
      then Err (mkQueueError "admission.applied_limits" "active_applied_limits_drift"
             "personal-worker reservation must apply the exact requested limits")
      else validate_start_time reservation evidence admission_observed_at.

(** The running totals of [aggregate_active_limits]: limits and heavy jobs. *)
Definition aggregate_step (totals : ExecutionResourceLimits * nat)
    (reservation : PersonalWorkerActiveReservation)
    : result PersonalWorkerQueueError (ExecutionResourceLimits * nat) :=
  let '(sum, heavy_count) := totals in
  let limits := rq_requested_limits (ac_request reservation) in
  cpu ← ok_or (checked_add u32_max (cpu_millis sum) (cpu_millis limits))
    (mkQueueError "active.requested_limits.cpu_millis" "active_cpu_overflow"
       "active CPU reservations exceed the bounded aggregate");
  memory ← ok_or (checked_add u64_max (memory_bytes sum) (memory_bytes limits))
    (mkQueueError "active.requested_limits.memory_bytes" "active_memory_overflow"
       "active memory reservations exceed the bounded aggregate");
  pid ← ok_or (checked_add u32_max (pids sum) (pids limits))
    (mkQueueError "active.requested_limits.pids" "active_pid_overflow"
       "active PID reservations exceed the bounded aggregate");
  Ok (mkLimits cpu memory pid,
      if bool_decide (job_class (ac_request reservation) = Heavy)
      then S heavy_count else heavy_count).

Definition aggregate_active_limits (active : list PersonalWorkerActiveReservation)
    : result PersonalWorkerQueueError ExecutionResourceLimits :=
  '(sum, heavy_count) ← fold_result aggregate_step (mkLimits 0 0 0, 0%nat) active;
  if (PERSONAL_WORKER_SCHEDULABLE_CPU_MILLIS <? cpu_millis sum)
     || (PERSONAL_WORKER_SCHEDULABLE_MEMORY_BYTES <? memory_bytes sum)
     || (PERSONAL_WORKER_SCHEDULABLE_PID_CAPACITY <? pids sum)
     || (1 <? heavy_count)%nat
     || ((heavy_count =? 1)%nat && (1 <? length active)%nat)
  then Err (mkQueueError "active" "active_resource_overcommit"
         "active reservations must fit one heavy job or at most two light jobs")
  else Ok sum.

(** ** Cache leases *)

Abbreviation HeldLeases :=
  (gmap PersonalWorkerCacheNamespace (list PersonalWorkerCacheAccessMode)).

(** [leases.entry(namespace).or_default().push(mode)]. *)
Definition push_lease (namespace : PersonalWorkerCacheNamespace)
    (mode : PersonalWorkerCacheAccessMode) (leases : HeldLeases) : HeldLeases :=
  <[namespace := default [] (leases !! namespace) ++ [mode]]> leases.

Definition lease_conflict_for_modes (held : list PersonalWorkerCacheAccessMode)
    (requested : PersonalWorkerCacheAccessMode) : option PersonalWorkerCacheLeaseState :=
  if bool_decide (held = []) then None
  else if bool_decide (Exclusive ∈ held) then Some BlockedByExclusive
  else if bool_decide (requested = Exclusive) then Some BlockedByExclusive
  else if bool_decide (Write ∈ held) || bool_decide (requested = Write)
  then Some BlockedByWriter
  else None.

Definition lease_conflict (held : HeldLeases) (namespace : PersonalWorkerCacheNamespace)
    (requested : PersonalWorkerCacheAccessMode) : option PersonalWorkerCacheLeaseState :=
  lease_conflict_for_modes (default [] (held !! namespace)) requested.

Definition validate_active_leases (active : list PersonalWorkerActiveReservation)
    : result PersonalWorkerQueueError () :=
  _ ← fold_result
    (λ (leases : HeldLeases) reservation,
      let request := ac_request reservation in
      let modes := default [] (leases !! rq_cache_namespace request) in
      if is_some (lease_conflict_for_modes modes (rq_cache_access request))
      then Err (mkQueueError "active.cache_access" "active_cache_lease_conflict"
             "active cache leases conflict for one namespace")
      else Ok (push_lease (rq_cache_namespace request) (rq_cache_access request) leases))
    ∅ active;
  Ok ().

Definition active_leases (active : list PersonalWorkerActiveReservation) : HeldLeases :=
  foldl (λ leases reservation,
    push_lease (rq_cache_namespace (ac_request reservation))
      (rq_cache_access (ac_request reservation)) leases) ∅ active.

Abbreviation RepositoryLoad := (gmap string N).

(** [*load.entry(repository).or_default() += 1]. *)
Definition count_repository (repo : string) (load : RepositoryLoad) : RepositoryLoad :=
  <[repo := default 0 (load !! repo) + 1]> load.

Definition active_repository_load (active : list PersonalWorkerActiveReservation)
    : RepositoryLoad :=
  foldl (λ load reservation,
    count_repository (repository (rq_source (ac_request reservation))) load) ∅ active.

(** [request_ids.insert(id)] in the two loops that end [validate_input]. *)
Definition insert_request_id (message : string) (ids : gset string) (id : ExecutionRequestId)
    : result PersonalWorkerQueueError (gset string) :=
  if bool_decide (id ∈ ids)
  then Err (mkQueueError "identity.request_id" "duplicate_request_identity" message)
  else Ok ({[id]} ∪ ids).

Definition validate_input (input : PersonalWorkerQueueInput)
    : result PersonalWorkerQueueError () :=
  let observed_at := qi_observed_at input in
  if (MAX_PERSONAL_WORKER_QUEUE_ENTRIES <? length (qi_queued input))%nat
  then Err (mkQueueError "queued" "queue_limit_exceeded"
         "personal worker queue exceeds the bounded entry limit")
  else if (MAX_PERSONAL_WORKER_ACTIVE_RESERVATIONS <? length (qi_active input))%nat
  then Err (mkQueueError "active" "active_reservation_limit_exceeded"
         "personal worker allows at most two active light reservations")
  else if is_some_and (λ at_, observed_at <? at_) (last_activity_at (qi_activity_evidence input))
  then Err (mkQueueError "activity_evidence.last_activity_at" "future_last_activity"
         "last activity cannot be newer than the queue observation")
  else if bool_decide (qi_activity_evidence input = ActivityNever)
          && (negb (bool_decide (qi_queued input = []))
              || negb (bool_decide (qi_active input = []))
              || is_some (qi_pending_profile_change input))
  then Err (mkQueueError "activity_evidence" "activity_evidence_required"
         "durable work and profile intents require observed activity evidence")
  else if negb (bool_decide (qi_active input = []))
          && bool_decide (qi_profile_observation input ≠ ProfileObserved ProfileWork)
  then Err (mkQueueError "profile_observation" "active_work_requires_work_profile"
         "active reservations require an observed work worker profile")
  else
    _ ← match qi_pending_profile_change input with
        | Some pending =>
            if negb (is_some (observed_profile (qi_profile_observation input)))
            then Err (mkQueueError "profile_observation" "profile_intent_requires_observation"
                   "profile-change intent requires an observed current profile")
            else if observed_at <? pc_requested_at pending
            then Err (mkQueueError "pending_profile_change.requested_at"
                   "future_profile_change_request"
                   "profile-change request cannot be newer than the queue observation")
            else Ok ()
        | None => Ok ()
        end;
    request_ids ← fold_result
      (λ ids request,
        _ ← validate_request request observed_at;
        insert_request_id "queue request identity must be unique" ids (rq_id request))
      (∅ : gset string) (qi_queued input);
    _ ← fold_result
      (λ ids reservation,
        _ ← validate_active reservation observed_at;
        insert_request_id "queued and active request identities must be unique" ids
          (ac_id reservation))
      request_ids (qi_active input);
    _ ← aggregate_active_limits (qi_active input);
    validate_active_leases (qi_active input).

(** ** Candidate order *)

Definition effective_priority (request : PersonalWorkerJobRequest) (observed_at : EpochMillis) : N :=
  effective_rank (rq_priority request) (observed_at - rq_submitted_at request).

Definition compare_deadline (left right : option EpochMillis) : comparison :=
  match left, right with
  | Some l, Some r => N.compare l r
  | Some _, None => Lt
  | None, Some _ => Gt
  | None, None => Eq
  end.

Definition repository_load_of (load : RepositoryLoad) (request : PersonalWorkerJobRequest) : N :=
  default 0 (load !! repository (rq_source request)).

Definition compare_candidates (observed_at : EpochMillis) (load : RepositoryLoad)
    (left right : PersonalWorkerJobRequest) : comparison :=
  then_with
    (N.compare (effective_priority right observed_at) (effective_priority left observed_at))
    (then_with
      (N.compare (repository_load_of load left) (repository_load_of load right))
      (then_with
        (compare_deadline (rq_operator_deadline left) (rq_operator_deadline right))
        (then_with
          (N.compare (rq_submitted_at left) (rq_submitted_at right))
          (then_with
            (String.compare (repository (rq_source left)) (repository (rq_source right)))
            (String.compare (rq_id left) (rq_id right)))))).

(** ** The evaluator *)

(** The mutable locals of the selection loop. *)
Record selection_state := mkSelectionState {
  ss_remaining : list PersonalWorkerJobRequest;
  ss_selected : list PersonalWorkerSelection;
  ss_held_leases : HeldLeases;
  ss_repository_load : RepositoryLoad;
  ss_used_cpu : N;
  ss_used_memory : N;
  ss_used_pids : N;
  ss_selected_heavy : bool;
}.

(** The closure passed to [position]: may this request be selected now? *)
Definition is_selectable (active : list PersonalWorkerActiveReservation) (active_heavy : bool)
    (st : selection_state) (request : PersonalWorkerJobRequest) : bool :=
  let heavy := bool_decide (job_class request = Heavy) in
  if active_heavy || ss_selected_heavy st
     || (heavy && negb (bool_decide (active = [])))
     || (heavy && match ss_selected st with [] => false | _ => true end)
  then false
  else
    let limits := rq_requested_limits request in
    let next_cpu := saturating_add u32_max (ss_used_cpu st) (cpu_millis limits) in
    let next_memory := saturating_add u64_max (ss_used_memory st) (memory_bytes limits) in
    let pid_capacity_available :=
      is_ok (admit_personal_worker_pid_reservation [ss_used_pids st] (pids limits)) in
    (next_cpu <=? PERSONAL_WORKER_SCHEDULABLE_CPU_MILLIS)
    && (next_memory <=? PERSONAL_WORKER_SCHEDULABLE_MEMORY_BYTES)
    && pid_capacity_available
    && negb (is_some (lease_conflict (ss_held_leases st) (rq_cache_namespace request)
                        (rq_cache_access request))).

Definition selection_of (observed_at : EpochMillis) (request : PersonalWorkerJobRequest)
    : PersonalWorkerSelection :=
  mkSelection (rq_id request) (repository (rq_source request))
    (verification_profile_id (rq_identity request)) (runner_profile_id (rq_identity request))
    (rq_priority request) (effective_priority request observed_at) (job_class request)
    (rq_requested_limits request) (rq_cache_namespace request) (rq_cache_access request).

(** One iteration: sort, find, take.  [None] is the [break]. *)
Definition select_step (input : PersonalWorkerQueueInput) (active_heavy : bool)
    (st : selection_state) : result PersonalWorkerQueueError (option selection_state) :=
  let remaining := sort_by (compare_candidates (qi_observed_at input) (ss_repository_load st))
                     (ss_remaining st) in
  match position (is_selectable (qi_active input) active_heavy st) remaining with
  | None => Ok None
  | Some chosen =>
      request ← expect (remaining !! chosen);
      pids ← expect (ok (admit_personal_worker_pid_reservation [ss_used_pids st]
                           (pids (rq_requested_limits request))));
      Ok (Some (mkSelectionState
        (delete chosen remaining)
        (ss_selected st ++ [selection_of (qi_observed_at input) request])
        (push_lease (rq_cache_namespace request) (rq_cache_access request) (ss_held_leases st))
        (count_repository (repository (rq_source request)) (ss_repository_load st))
        (saturating_add u32_max (ss_used_cpu st) (cpu_millis (rq_requested_limits request)))
        (saturating_add u64_max (ss_used_memory st) (memory_bytes (rq_requested_limits request)))
        (projected_reserved_pids pids)
        (bool_decide (job_class request = Heavy))))
  end.

(** The [while] loop.  Each iteration that goes on selects a request, so it
    ends after at most [MAX_PERSONAL_WORKER_ACTIVE_RESERVATIONS] of them;
    running out of fuel is reported as [Panic], which
    [evaluate_no_panic] shows does not happen. *)
Fixpoint select_loop (fuel : nat) (input : PersonalWorkerQueueInput) (active_heavy : bool)
    (st : selection_state) : result PersonalWorkerQueueError selection_state :=
  if (length (ss_selected st) + length (qi_active input)
        <? MAX_PERSONAL_WORKER_ACTIVE_RESERVATIONS)%nat
  then
    match fuel with
    | O => Panic
    | S fuel =>
        next ← select_step input active_heavy st;
        match next with
        | None => Ok st
        | Some st => select_loop fuel input active_heavy st
        end
    end
  else Ok st.

Definition live_requests (input : PersonalWorkerQueueInput) : list PersonalWorkerJobRequest :=
  List.filter (λ request, negb (is_cancelled (rq_cancellation request))) (qi_queued input).

Definition initial_selection (input : PersonalWorkerQueueInput)
    (active_limits : ExecutionResourceLimits) : selection_state :=
  mkSelectionState (live_requests input) []
    (active_leases (qi_active input)) (active_repository_load (qi_active input))
    (cpu_millis active_limits) (memory_bytes active_limits) (pids active_limits) false.

Definition desired_profile (input : PersonalWorkerQueueInput) (has_work : bool)
    : PersonalWorkerProfile :=
  if has_work then ProfileWork
  else
    match last_activity_at (qi_activity_evidence input) with
    | None => ProfileStopped
    | Some at_ =>
        let idle_millis := qi_observed_at input - at_ in
        if idle_millis <? PERSONAL_WORKER_INTERACTIVE_COOLDOWN_MILLIS then ProfileWork
        else if idle_millis <? PERSONAL_WORKER_STOPPED_COOLDOWN_MILLIS then ProfileInteractive
        else ProfileStopped
    end.

Definition held_lease_state (access : PersonalWorkerCacheAccessMode)
    : PersonalWorkerCacheLeaseState :=
  match access with
  | Read => HeldRead
  | Write => HeldWrite
  | Exclusive => HeldExclusive
  end.

Definition visibility_for_request (request : PersonalWorkerJobRequest)
    (observed_at : EpochMillis) (state : PersonalWorkerQueueEntryState)
    (queue_position : option N) (reserved_limits : option ExecutionResourceLimits)
    (cache_lease : PersonalWorkerCacheLeaseState) (start_time : option EpochMillis)
    (worker_profile : PersonalWorkerProfile) : PersonalWorkerQueueVisibility :=
  mkVisibility (rq_id request) (repository (rq_source request)) (commit (rq_source request))
    (tree (rq_source request)) (verification_profile_id (rq_identity request))
    (runner_profile_id (rq_identity request)) (rq_priority request)
    (effective_priority request observed_at) (observed_at - rq_submitted_at request)
    state queue_position
    (cpu_millis (rq_requested_limits request)) (memory_bytes (rq_requested_limits request))
    (cpu_millis <$> reserved_limits) (memory_bytes <$> reserved_limits)
    (rq_cache_namespace request) (rq_cache_access request) cache_lease start_time worker_profile.

(** The entry of one queued request. *)
Definition queued_visibility (observed_at : EpochMillis) (selected_ids : gset string)
    (held : HeldLeases) (queue_positions : gmap string N)
    (desired : PersonalWorkerProfile) (request : PersonalWorkerJobRequest)
    : PersonalWorkerQueueVisibility :=
  let selected := bool_decide (rq_id request ∈ selected_ids) in
  let cancelled := is_cancelled (rq_cancellation request) in
  let state := if cancelled then EntryCancelled
               else if selected then EntrySelected else EntryQueued in
  let cache_lease :=
    if cancelled then Available
    else if selected then held_lease_state (rq_cache_access request)
    else default
           (if bool_decide (rq_cache_access request = Read) then SharedRead else Available)
           (lease_conflict held (rq_cache_namespace request) (rq_cache_access request)) in
  visibility_for_request request observed_at state
    (position ← queue_positions !! rq_id request; try_from_int u32_max position)
    (if selected then Some (rq_requested_limits request) else None)
    cache_lease None desired.

(** The entry of one active reservation. *)
Definition active_visibility (observed_at : EpochMillis)
    (active : PersonalWorkerActiveReservation)
    : result PersonalWorkerQueueError PersonalWorkerQueueVisibility :=
  state ← match ear_state (ac_admission active) with
          | Reserved => Ok EntryReserved
          | Starting => Ok EntryStarting
          | Running => Ok EntryRunning
          | Draining => Ok EntryDraining
          | _ => Panic
          end;
  Ok (visibility_for_request (ac_request active) observed_at state None
        (ear_applied_limits (ac_admission active))
        (held_lease_state (rq_cache_access (ac_request active)))
        (ac_started_at active) ProfileWork).

(** [.enumerate().map(|(index, request)| (id, index + 1)).collect()]. *)
Definition collect_positions (waiting : list PersonalWorkerJobRequest) : gmap string N :=
  (foldl (λ (acc : gmap string N * N) request,
    (<[rq_id request := acc.2 + 1]> acc.1, acc.2 + 1)) (∅, 0) waiting).1.

Definition build_visibility (input : PersonalWorkerQueueInput)
    (selected : list PersonalWorkerSelection) (desired : PersonalWorkerProfile)
    : result PersonalWorkerQueueError (list PersonalWorkerQueueVisibility) :=
  let selected_ids : gset string := list_to_set (sel_request_id <$> selected) in
  let held := foldl (λ held selection,
    push_lease (sel_cache_namespace selection) (sel_cache_access selection) held)
    (active_leases (qi_active input)) selected in
  let load := foldl (λ load selection, count_repository (sel_repository selection) load)
    (active_repository_load (qi_active input)) selected in
  let queued := sort_by (compare_candidates (qi_observed_at input) load) (qi_queued input) in
  let queue_positions := collect_positions
    (List.filter (λ request, negb (is_cancelled (rq_cancellation request))
                             && negb (bool_decide (rq_id request ∈ selected_ids))) queued) in
  let of_queued := queued_visibility (qi_observed_at input) selected_ids held queue_positions
                     desired <$> queued in
  of_active ← traverse (active_visibility (qi_observed_at input)) (qi_active input);
  Ok (of_queued ++ of_active).

Definition evaluate_personal_worker_queue (input : PersonalWorkerQueueInput)
    (previous : option PersonalWorkerQueueDecision)
    : result PersonalWorkerQueueError PersonalWorkerQueueDecision :=
  _ ← validate_generation input previous;
  _ ← validate_input input;
  active_limits ← aggregate_active_limits (qi_active input);
  let active_heavy :=
    existsb (λ reservation, bool_decide (job_class (ac_request reservation) = Heavy))
      (qi_active input) in
  final ← select_loop (S MAX_PERSONAL_WORKER_ACTIVE_RESERVATIONS) input active_heavy
            (initial_selection input active_limits);
  let selected := ss_selected final in
  let has_queued_work :=
    existsb (λ request, negb (is_cancelled (rq_cancellation request))) (qi_queued input) in
  let has_work := has_queued_work || negb (bool_decide (qi_active input = [])) in
  let desired := desired_profile input has_work in
  let cancel_pending_downscale :=
    has_work && is_some_and (λ pending, bool_decide (pc_target pending ≠ ProfileWork))
                  (qi_pending_profile_change input) in
  let profile_change_permitted := bool_decide (qi_active input = []) in
  visibility ← build_visibility input selected desired;
  Ok (mkDecision PERSONAL_WORKER_QUEUE_SCHEMA_VERSION (qi_generation input)
        (qi_observed_at input) (qi_profile_observation input) (qi_activity_evidence input)
        desired cancel_pending_downscale profile_change_permitted
        PERSONAL_WORKER_SCHEDULABLE_CPU_MILLIS PERSONAL_WORKER_SCHEDULABLE_MEMORY_BYTES
        PERSONAL_WORKER_SCHEDULABLE_PID_CAPACITY selected visibility).
