(* ===== verification/QueueSchedule.v ===== *)
(** * The schedule the queue evaluator computes

    An abstract specification of [evaluate_personal_worker_queue]:
    [fits_worker] says when a list of jobs may hold the worker together, and
    [greedy] describes the schedule that repeatedly takes the best-ranked job
    that fits.  The refinement lemma [evaluate_greedy] relates the evaluator's
    loop over mutable locals to [greedy]; the theorems read off safety,
    maximality, priority order, determinism and the shape of the visibility
    report. *)

From S2P Require Import Prelude SortBy Artifact ExecutionAdmission PidCapacity WorkerQueue.

Local Open Scope N_scope.

(** ** Abstract specification *)

Definition total (f : ExecutionResourceLimits → N) (jobs : list PersonalWorkerJobRequest) : N :=
  foldr (λ r s, f (rq_requested_limits r) + s) 0 jobs.

(** Two jobs may hold their cache leases at the same time. *)
Definition shares (r s : PersonalWorkerJobRequest) : Prop :=
  rq_cache_namespace r = rq_cache_namespace s →
  rq_cache_access r = Read ∧ rq_cache_access s = Read.

Definition is_heavy (r : PersonalWorkerJobRequest) : bool :=
  bool_decide (job_class r = Heavy).

(** Jobs that may hold the worker together: at most two, within the
    schedulable capacity, a heavy one alone, cache leases compatible. *)
Record fits_worker (jobs : list PersonalWorkerJobRequest) : Prop := {
  fw_count : (length jobs ≤ MAX_PERSONAL_WORKER_ACTIVE_RESERVATIONS)%nat;
  fw_cpu : total cpu_millis jobs ≤ PERSONAL_WORKER_SCHEDULABLE_CPU_MILLIS;
  fw_memory : total memory_bytes jobs ≤ PERSONAL_WORKER_SCHEDULABLE_MEMORY_BYTES;
  fw_pids : total pids jobs ≤ PERSONAL_WORKER_SCHEDULABLE_PID_CAPACITY;
  fw_heavy : ∀ r, r ∈ jobs → is_heavy r = true → length jobs = 1%nat;
  fw_leases : ForallOrdPairs shares jobs;
}.

(** Jobs of each repository among [jobs]. *)
Definition load_of (jobs : list PersonalWorkerJobRequest) : RepositoryLoad :=
  foldl (λ load r, count_repository (repository (rq_source r)) load) ∅ jobs.

(** The cache leases [jobs] hold. *)
Definition held_of (jobs : list PersonalWorkerJobRequest) : HeldLeases :=
  foldl (λ held r, push_lease (rq_cache_namespace r) (rq_cache_access r) held) ∅ jobs.

(** [greedy now held candidates chosen]: with [held] on the worker, taking the
    best-ranked fitting candidate until none fits or the slots are full. *)
Inductive greedy (now : EpochMillis) :
    list PersonalWorkerJobRequest → list PersonalWorkerJobRequest →
    list PersonalWorkerJobRequest → Prop :=
| greedy_stop held candidates :
    (∀ r, r ∈ candidates → ¬ fits_worker (held ++ [r])) →
    greedy now held candidates []
| greedy_take held candidates c rest chosen :
    candidates ≡ₚ c :: rest →
    fits_worker (held ++ [c]) →
    (∀ r, r ∈ rest → fits_worker (held ++ [r]) →
      cmp_le (compare_candidates now (load_of held)) c r) →
    greedy now (held ++ [c]) rest chosen →
    greedy now held candidates (c :: chosen).

(** ** Sums and leases of a job list *)

Lemma total_app f l1 l2 : total f (l1 ++ l2) = total f l1 + total f l2.
Proof. unfold total. induction l1; simpl; lia. Qed.

Lemma total_snoc f l r : total f (l ++ [r]) = total f l + f (rq_requested_limits r).
Proof. rewrite total_app. simpl. lia. Qed.

Lemma shares_sym r s : shares r s → shares s r.
Proof. unfold shares. intros H He. symmetry in He. apply H in He. tauto. Qed.

Lemma ForallOrdPairs_snoc {A} (R : A → A → Prop) l x :
  ForallOrdPairs R (l ++ [x]) ↔ ForallOrdPairs R l ∧ Forall (λ y, R y x) l.
Proof.
  induction l as [|y l IH]; simpl.
  { split; [repeat constructor|]. intros _. repeat constructor. }
  split.
  - inversion 1 as [|? ? Hy Hl]; subst. apply Forall_app in Hy as [Hy Hx].
    apply IH in Hl as [Hl Hlx]. rewrite Forall_singleton in Hx.
    by split; constructor.
  - intros [Hyl Hx]. inversion Hyl as [|? ? Hy Hl]; subst. apply Forall_cons in Hx as [Hyx Hx].
    constructor; [|by apply IH]. apply Forall_app. split; [done|]. by apply Forall_singleton.
Qed.

Lemma held_of_snoc jobs r :
  held_of (jobs ++ [r]) = push_lease (rq_cache_namespace r) (rq_cache_access r) (held_of jobs).
Proof. unfold held_of. by rewrite foldl_app. Qed.

Lemma load_of_snoc jobs r :
  load_of (jobs ++ [r]) = count_repository (repository (rq_source r)) (load_of jobs).
Proof. unfold load_of. by rewrite foldl_app. Qed.

Lemma active_leases_held active : active_leases active = held_of (ac_request <$> active).
Proof.
  unfold active_leases, held_of. generalize (∅ : HeldLeases).
  induction active as [|a active IH]; intros m; simpl; [done|]. apply IH.
Qed.

Lemma active_load active : active_repository_load active = load_of (ac_request <$> active).
Proof.
  unfold active_repository_load, load_of. generalize (∅ : RepositoryLoad).
  induction active as [|a active IH]; intros m; simpl; [done|]. apply IH.
Qed.

(** The modes held on a namespace are those of the jobs that use it. *)
Lemma elem_of_held_modes jobs n m :
  m ∈ default [] (held_of jobs !! n) ↔
  ∃ r, r ∈ jobs ∧ rq_cache_namespace r = n ∧ rq_cache_access r = m.
Proof.
  induction jobs as [|r jobs IH] using rev_ind.
  { unfold held_of. simpl. rewrite lookup_empty. simpl.
    split; [by intros ?%elem_of_nil|intros (? & ?%elem_of_nil & _); done]. }
  rewrite held_of_snoc. unfold push_lease. setoid_rewrite elem_of_app.
  setoid_rewrite list_elem_of_singleton. rewrite lookup_insert. case_decide as Hn; simpl.
  - rewrite elem_of_app, list_elem_of_singleton, Hn, IH. naive_solver.
  - rewrite IH. naive_solver.
Qed.

Lemma lease_conflict_for_modes_None held m :
  lease_conflict_for_modes held m = None ↔
  ∀ m', m' ∈ held → m' = Read ∧ m = Read.
Proof.
  unfold lease_conflict_for_modes.
  destruct (bool_decide (held = [])) eqn:Hnil; bprop.
  { subst. split; [|done]. intros _ m' Hm'. by apply elem_of_nil in Hm'. }
  destruct (bool_decide (Exclusive ∈ held)) eqn:He; bprop.
  { split; [done|]. intros H. by apply H in He as [? _]. }
  assert (∃ m0, m0 ∈ held) as [m0 Hm0].
  { destruct held as [|m0]; [done|]. exists m0. left. }
  destruct (bool_decide (m = Exclusive)) eqn:Hm; bprop.
  { split; [done|]. intros H. apply H in Hm0 as [_ ?]. congruence. }
  destruct (bool_decide (Write ∈ held)) eqn:Hw; bprop; simpl.
  { split; [done|]. intros H. by apply H in Hw as [? _]. }
  destruct (bool_decide (m = Write)) eqn:Hmw; bprop; simpl.
  { split; [done|]. intros H. apply H in Hm0 as [_ ?]. congruence. }
  split; [|done]. intros _ m' Hm'. split; [by destruct m'|by destruct m].
Qed.

Lemma lease_conflict_None jobs r :
  lease_conflict (held_of jobs) (rq_cache_namespace r) (rq_cache_access r) = None ↔
  Forall (λ s, shares s r) jobs.
Proof.
  unfold lease_conflict. rewrite lease_conflict_for_modes_None, Forall_forall.
  setoid_rewrite elem_of_held_modes. unfold shares. naive_solver.
Qed.

(** ** Validated active reservations fit the worker *)

Definition heavy_count (jobs : list PersonalWorkerJobRequest) : nat :=
  length (List.filter is_heavy jobs).

Lemma aggregate_fold active sum heavy sum' heavy' :
  fold_result aggregate_step (sum, heavy) active = Ok (sum', heavy') →
  cpu_millis sum' = cpu_millis sum + total cpu_millis (ac_request <$> active) ∧
  memory_bytes sum' = memory_bytes sum + total memory_bytes (ac_request <$> active) ∧
  pids sum' = pids sum + total pids (ac_request <$> active) ∧
  heavy' = (heavy + heavy_count (ac_request <$> active))%nat.
Proof.
  revert sum heavy. induction active as [|a active IH]; intros sum heavy H; simpl in H.
  { injection H as <- <-. unfold heavy_count. simpl. split_and!; lia. }
  inv_oks. repeat match goal with H : checked_add _ _ _ = Some _ |- _ =>
    apply checked_add_Some in H as [-> _] end.
  subst. apply IH in H as (Hc & Hm & Hp & Hh). csimpl in *. unfold heavy_count. csimpl.
  fold (is_heavy (ac_request a)) in Hh. destruct (is_heavy (ac_request a)); csimpl;
    unfold heavy_count in Hh; split_and!; lia.
Qed.

Lemma heavy_count_zero jobs : heavy_count jobs = 0%nat ↔ ∀ r, r ∈ jobs → is_heavy r = false.
Proof.
  unfold heavy_count. induction jobs as [|x jobs IH]; simpl.
  { split; [|done]. intros _ r Hr. by apply elem_of_nil in Hr. }
  setoid_rewrite elem_of_cons. destruct (is_heavy x) eqn:Hx; simpl.
  - split; [done|]. intros H. rewrite H in Hx by auto. done.
  - rewrite IH. split; [intros H r [->|Hr]|]; auto.
Qed.

Lemma aggregate_active_limits_Ok active sum :
  aggregate_active_limits active = Ok sum →
  let jobs := ac_request <$> active in
  sum = mkLimits (total cpu_millis jobs) (total memory_bytes jobs) (total pids jobs) ∧
  total cpu_millis jobs ≤ PERSONAL_WORKER_SCHEDULABLE_CPU_MILLIS ∧
  total memory_bytes jobs ≤ PERSONAL_WORKER_SCHEDULABLE_MEMORY_BYTES ∧
  total pids jobs ≤ PERSONAL_WORKER_SCHEDULABLE_PID_CAPACITY ∧
  (∀ r, r ∈ jobs → is_heavy r = true → length jobs = 1%nat).
Proof.
  unfold aggregate_active_limits. intros H. inv_ok H. subst.
  apply aggregate_fold in Hy as (Hc & Hm & Hp & Hh). simpl in Hc, Hm, Hp, Hh.
  injection H as <-. bprop. rewrite N.add_0_l in *.
  assert (∀ r, r ∈ ac_request <$> active → is_heavy r = true →
    length (ac_request <$> active) = 1%nat) as Hheavy.
  { intros r Hr Hh'.
    destruct (decide (heavy_count (ac_request <$> active) = 0%nat)) as [Hz|Hz].
    { rewrite heavy_count_zero in Hz. rewrite Hz in Hh' by done. done. }
    rewrite length_fmap. destruct active as [|? []]; simpl in *; [|done|lia].
    by apply elem_of_nil in Hr. }
  split_and!; [by destruct e; simpl in *; subst|lia..|done].
Qed.

Lemma validate_active_leases_Ok active u :
  validate_active_leases active = Ok u → ForallOrdPairs shares (ac_request <$> active).
Proof.
  unfold validate_active_leases. intros H. inv_ok H. clear H u.
  assert (∀ done_, ForallOrdPairs shares done_ → ∀ held', fold_result
    (λ (leases : HeldLeases) reservation,
      let request := ac_request reservation in
      let modes := default [] (leases !! rq_cache_namespace request) in
      if is_some (lease_conflict_for_modes modes (rq_cache_access request))
      then Err (mkQueueError "active.cache_access" "active_cache_lease_conflict"
             "active cache leases conflict for one namespace")
      else Ok (push_lease (rq_cache_namespace request) (rq_cache_access request) leases))
    (held_of done_) active = Ok held' →
    ForallOrdPairs shares (done_ ++ (ac_request <$> active))) as Hgen.
  { clear Hy y. induction active as [|a active IH]; intros jobs Hjobs held'; simpl.
    { by rewrite app_nil_r. }
    intros H. inv_ok H. inv_ok Hy. injection Hy as <-. rewrite <-held_of_snoc in H.
    apply IH in H; [by rewrite <-app_assoc in H|].
    apply ForallOrdPairs_snoc. split; [done|]. apply lease_conflict_None.
    unfold lease_conflict. by destruct (lease_conflict_for_modes _ _). }
  apply (Hgen [] (FOP_nil _) y). exact Hy.
Qed.

Lemma validate_input_fits input u :
  validate_input input = Ok u → fits_worker (ac_request <$> qi_active input).
Proof.
  unfold validate_input. intros H. inv_ok H.
  match goal with H : aggregate_active_limits _ = Ok _ |- _ =>
    apply aggregate_active_limits_Ok in H as (_ & Hc & Hm & Hp & Hh) end.
  apply validate_active_leases_Ok in H. apply Nat.ltb_ge in Heqb0.
  constructor; try done. by rewrite length_fmap.
Qed.

(** ** One iteration *)

(** The locals of the loop after [chosen] has been taken. *)
Record state_of (input : PersonalWorkerQueueInput) (chosen : list PersonalWorkerJobRequest)
    (st : selection_state) : Prop := {
  so_selected : ss_selected st = selection_of (qi_observed_at input) <$> chosen;
  so_held : ss_held_leases st = held_of ((ac_request <$> qi_active input) ++ chosen);
  so_load : ss_repository_load st = load_of ((ac_request <$> qi_active input) ++ chosen);
  so_cpu : ss_used_cpu st = total cpu_millis ((ac_request <$> qi_active input) ++ chosen);
  so_memory : ss_used_memory st = total memory_bytes ((ac_request <$> qi_active input) ++ chosen);
  so_pids : ss_used_pids st = total pids ((ac_request <$> qi_active input) ++ chosen);
  so_heavy : ss_selected_heavy st = existsb is_heavy chosen;
  so_fits : fits_worker ((ac_request <$> qi_active input) ++ chosen);
}.

Definition active_heavy (input : PersonalWorkerQueueInput) : bool :=
  existsb (λ reservation, bool_decide (job_class (ac_request reservation) = Heavy))
    (qi_active input).

Lemma existsb_active_heavy input :
  active_heavy input = existsb is_heavy (ac_request <$> qi_active input).
Proof. unfold active_heavy. by induction (qi_active input) as [|a l IH]; simpl; [|rewrite IH]. Qed.

Lemma existsb_heavy_false jobs :
  existsb is_heavy jobs = false ↔ ∀ r, r ∈ jobs → is_heavy r = false.
Proof.
  rewrite <-not_true_iff_false, existsb_exists. setoid_rewrite <-list_elem_of_In.
  split.
  - intros H r Hr. apply not_true_is_false. intros Ht. apply H. eauto.
  - intros H (r & Hr & Ht). rewrite H in Ht; done.
Qed.

Lemma saturating_add_le max a b c : c < max → (saturating_add max a b <=? c) = (a + b <=? c).
Proof. unfold saturating_add. lia. Qed.

Lemma admit_one_is_ok used candidate :
  is_ok (admit_personal_worker_pid_reservation [used] candidate)
  = (used + candidate <=? PERSONAL_WORKER_SCHEDULABLE_PID_CAPACITY).
Proof.
  assert (PERSONAL_WORKER_SCHEDULABLE_PID_CAPACITY < u32_max) by (vm_compute; done).
  destruct (admit_personal_worker_pid_reservation [used] candidate) as [a|e|] eqn:Ha.
  - apply admit_one_Ok in Ha as [_ Ha]. simpl. by rewrite (proj2 (N.leb_le _ _) Ha).
  - simpl. symmetry. apply N.leb_gt. unfold admit_personal_worker_pid_reservation in Ha.
    rewrite fold_checked_add in Ha by (vm_compute; done). simpl in Ha.
    destruct (_ <=? u32_max) eqn:H1 in Ha; rsimpl; bprop; [|lia].
    destruct (_ <? _) eqn:H2 in Ha; bprop; [lia|].
    destruct (checked_add _ _ _) as [p|] eqn:H3 in Ha; rsimpl.
    + apply checked_add_Some in H3 as [-> H3].
      destruct (_ <? _) eqn:H4 in Ha; bprop; [lia|done].
    + apply checked_add_None in H3. lia.
  - by apply admit_one_no_panic in Ha.
Qed.

(** ** The candidate order *)

#[export] Instance compare_deadline_laws : CompareLaws compare_deadline.
Proof.
  split.
  - intros [x|] [y|]; simpl; try done. apply N.compare_antisym.
  - intros [x|] [y|] [z|]; simpl; try done. rewrite !N.compare_ngt_iff. lia.
Qed.

#[export] Instance compare_candidates_laws now load : CompareLaws (compare_candidates now load).
Proof.
  unfold compare_candidates.
  apply (compare_laws_then_with
    (λ x y, N.compare (effective_priority y now) (effective_priority x now)));
    [apply (compare_laws_rev (λ x y, N.compare (effective_priority x now)
       (effective_priority y now)) )|apply _].
Qed.

(** Requests the order does not separate have the same identity. *)
Lemma compare_candidates_Eq now load l r : compare_candidates now load l r = Eq → rq_id l = rq_id r.
Proof.
  unfold compare_candidates, then_with. intros H.
  repeat case_match; try done. by apply String.compare_eq_iff.
Qed.

Section iteration.
Context (input : PersonalWorkerQueueInput).

Abbreviation active_jobs := (ac_request <$> qi_active input).
Abbreviation slot_free chosen :=
  ((length chosen + length (qi_active input) < MAX_PERSONAL_WORKER_ACTIVE_RESERVATIONS)%nat).

(** The heavy-job guard of the closure: nothing heavy holds the worker, and a
    heavy request needs the worker to itself. *)
Lemma heavy_guard chosen st r :
  state_of input chosen st →
  active_heavy input || ss_selected_heavy st
  || (is_heavy r && negb (bool_decide (qi_active input = [])))
  || (is_heavy r && match ss_selected st with [] => false | _ => true end) = false ↔
  ∀ s, s ∈ (active_jobs ++ chosen) ++ [r] → is_heavy s = true →
    length ((active_jobs ++ chosen) ++ [r]) = 1%nat.
Proof.
  intros Hst. rewrite existsb_active_heavy, (so_heavy _ _ _ Hst), (so_selected _ _ _ Hst).
  rewrite !orb_false_iff, !existsb_heavy_false.
  assert (∀ l : list PersonalWorkerJobRequest, length (l ++ [r]) = 1%nat ↔ l = []) as Hlen.
  { intros l. rewrite length_app. destruct l; simpl; split; (done || lia). }
  setoid_rewrite Hlen. setoid_rewrite elem_of_app. setoid_rewrite list_elem_of_singleton. split.
  - intros (((Ha & Hc) & Hra) & Hrc) s [Hs| ->] Hheavy.
    + apply elem_of_app in Hs as [Hs|Hs]; [rewrite (Ha s Hs) in Hheavy|rewrite (Hc s Hs) in Hheavy]; done.
    + rewrite Hheavy in Hra, Hrc. simpl in *. bprop. rewrite Hra. simpl.
      by destruct chosen.
  - intros H.
    assert (∀ s, s ∈ active_jobs ++ chosen → is_heavy s = false) as Hno.
    { intros s Hs. apply not_true_is_false. intros Hh.
      rewrite (H s (or_introl Hs) Hh) in Hs. by apply elem_of_nil in Hs. }
    split_and!; [intros s Hs; apply Hno, elem_of_app; auto..| |];
      (destruct (is_heavy r) eqn:Hr; [|done]); simpl;
      apply (H r (or_intror eq_refl)), app_nil in Hr as [Hact Hch].
    + apply fmap_nil_inv in Hact. rewrite Hact. done.
    + by rewrite Hch.
Qed.

(** The closure accepts exactly the requests that fit beside the jobs held. *)
Lemma is_selectable_fits chosen st r :
  state_of input chosen st → slot_free chosen →
  is_selectable (qi_active input) (active_heavy input) st r = true ↔
  fits_worker ((active_jobs ++ chosen) ++ [r]).
Proof.
  intros Hst Hslot. unfold is_selectable.
  destruct (_ || _ || _ || _) eqn:Hguard.
  { split; [done|]. intros Hfit. pose proof (fw_heavy _ Hfit) as Hh.
    apply (heavy_guard chosen st r Hst) in Hh. unfold is_heavy in Hh. congruence. }
  pose proof (proj1 (heavy_guard chosen st r Hst) Hguard) as Hheavy.
  rewrite !saturating_add_le by (vm_compute; done). rewrite admit_one_is_ok.
  rewrite (so_cpu _ _ _ Hst), (so_memory _ _ _ Hst), (so_pids _ _ _ Hst), (so_held _ _ _ Hst).
  rewrite !andb_true_iff, !N.leb_le, negb_true_iff.
  assert (∀ o : option PersonalWorkerCacheLeaseState, is_some o = false ↔ o = None) as ->
    by (intros []; naive_solver).
  rewrite lease_conflict_None, <-!total_snoc.
  pose proof (so_fits _ _ _ Hst) as Hfits. split.
  - intros (((Hc & Hm) & Hp) & Hl). constructor; try done.
    + rewrite !length_app, length_fmap. simpl. unfold MAX_PERSONAL_WORKER_ACTIVE_RESERVATIONS in *. lia.
    + apply ForallOrdPairs_snoc. split; [apply Hfits|done].
  - intros [? ? ? ? ? Hl]. apply ForallOrdPairs_snoc in Hl as [_ Hl]. done.
Qed.


(** Of a sorted list, the first element that passes a test is no later than
    any other that passes it. *)
Lemma sorted_first_le {A} (cmp : A → A → comparison) (p : A → bool) (l : list A) i r s :
  StronglySorted (cmp_le cmp) l → l !! i = Some r →
  (∀ j x, (j < i)%nat → l !! j = Some x → p x = false) →
  s ∈ delete i l → p s = true → cmp_le cmp r s.
Proof.
  intros Hsorted Hr Hbefore Hs Hp. rewrite <-(take_drop_middle l i r Hr) in Hsorted.
  rewrite delete_take_drop in Hs. apply elem_of_app in Hs as [Hs|Hs].
  - apply list_elem_of_lookup in Hs as [j Hj]. apply lookup_take_Some in Hj as [Hj Hlt].
    rewrite (Hbefore j s Hlt Hj) in Hp. done.
  - apply StronglySorted_app_1_r in Hsorted. apply StronglySorted_inv in Hsorted as [_ Hall].
    rewrite Forall_forall in Hall. by apply Hall.
Qed.

Lemma fitting_pids_admitted chosen st r :
  state_of input chosen st → fits_worker ((active_jobs ++ chosen) ++ [r]) →
  ∃ a, admit_personal_worker_pid_reservation [ss_used_pids st]
    (pids (rq_requested_limits r)) = Ok a.
Proof.
  intros Hst Hfits.
  pose proof (admit_one_is_ok (ss_used_pids st) (pids (rq_requested_limits r))) as H.
  rewrite (so_pids _ _ _ Hst), <-total_snoc, (proj2 (N.leb_le _ _) (fw_pids _ Hfits)) in H.
  rewrite (so_pids _ _ _ Hst).
  destruct (admit_personal_worker_pid_reservation _ _); [eauto|done..].
Qed.

Lemma fitting_beside_no_heavy chosen r :
  fits_worker ((active_jobs ++ chosen) ++ [r]) → existsb is_heavy chosen = false.
Proof.
  intros Hfits. apply existsb_heavy_false. intros s Hs. apply not_true_is_false. intros Hh.
  pose proof (fw_heavy _ Hfits s) as H. rewrite !elem_of_app in H.
  specialize (H ltac:(auto) Hh). rewrite !length_app in H. simpl in H.
  destruct chosen; [by apply elem_of_nil in Hs|simpl in H; lia].
Qed.

(** One iteration takes the best-ranked request that fits, or finds that none
    does; it cannot panic. *)
Lemma select_step_spec chosen st :
  state_of input chosen st → slot_free chosen →
  (∃ r st', select_step input (active_heavy input) st = Ok (Some st') ∧
     state_of input (chosen ++ [r]) st' ∧
     ss_remaining st ≡ₚ r :: ss_remaining st' ∧
     ∀ s, s ∈ ss_remaining st' → fits_worker ((active_jobs ++ chosen) ++ [s]) →
       cmp_le (compare_candidates (qi_observed_at input) (load_of (active_jobs ++ chosen))) r s) ∨
  (select_step input (active_heavy input) st = Ok None ∧
   ∀ s, s ∈ ss_remaining st → ¬ fits_worker ((active_jobs ++ chosen) ++ [s])).
Proof.
  intros Hst Hslot. unfold select_step. rewrite (so_load _ _ _ Hst).
  set (cmp := compare_candidates _ _). set (sorted := sort_by cmp (ss_remaining st)).
  assert (ss_remaining st ≡ₚ sorted) as Hperm by (unfold sorted; by rewrite sort_by_Permutation).
  destruct (position _ sorted) as [i|] eqn:Hpos; [left|right].
  - apply position_Some in Hpos as (r & Hr & Hsel & Hbefore). rewrite Hr. rsimpl.
    apply (is_selectable_fits chosen st r Hst Hslot) in Hsel as Hfits.
    destruct (fitting_pids_admitted chosen st r Hst Hfits) as [a Ha].
    rewrite Ha. rsimpl. apply admit_one_Ok in Ha as [Hpids _].
    exists r. eexists. split; [done|]. simpl. split; [|split].
    + constructor; simpl.
      * by rewrite (so_selected _ _ _ Hst), fmap_app.
      * by rewrite (so_held _ _ _ Hst), app_assoc, held_of_snoc.
      * by rewrite app_assoc, load_of_snoc.
      * rewrite (so_cpu _ _ _ Hst), app_assoc, total_snoc. pose proof (fw_cpu _ Hfits) as H.
        rewrite total_snoc in H. apply N.min_l. etrans; [exact H|]. vm_compute. discriminate.
      * rewrite (so_memory _ _ _ Hst), app_assoc, total_snoc. pose proof (fw_memory _ Hfits) as H.
        rewrite total_snoc in H. apply N.min_l. etrans; [exact H|]. vm_compute. discriminate.
      * by rewrite Hpids, (so_pids _ _ _ Hst), app_assoc, total_snoc.
      * fold (is_heavy r). rewrite existsb_app. simpl. rewrite orb_false_r.
        by rewrite (fitting_beside_no_heavy chosen r Hfits).
      * by rewrite app_assoc.
    + rewrite Hperm. by apply delete_Permutation.
    + intros s Hs Hfit.
      apply (sorted_first_le cmp (is_selectable (qi_active input) (active_heavy input) st)
        sorted i r s (sort_by_sorted _ _) Hr Hbefore Hs).
      by apply (is_selectable_fits chosen st s Hst Hslot).
  - split; [done|]. rewrite position_None, Forall_forall in Hpos. intros s Hs Hfit.
    rewrite Hperm in Hs. apply Hpos in Hs.
    apply (is_selectable_fits chosen st s Hst Hslot) in Hfit. congruence.
Qed.

(** The loop computes the greedy schedule and does not run out of fuel. *)
Lemma select_loop_greedy fuel chosen st :
  state_of input chosen st →
  (MAX_PERSONAL_WORKER_ACTIVE_RESERVATIONS ≤ fuel + (length chosen + length (qi_active input)))%nat →
  ∃ st' more, select_loop fuel input (active_heavy input) st = Ok st' ∧
    state_of input (chosen ++ more) st' ∧
    greedy (qi_observed_at input) (active_jobs ++ chosen) (ss_remaining st) more.
Proof.
  revert chosen st. induction fuel as [|fuel IH]; intros chosen st Hst Hfuel; simpl.
  all: rewrite (so_selected _ _ _ Hst), length_fmap; destruct (_ <? _)%nat eqn:Hslot;
    [apply Nat.ltb_lt in Hslot|apply Nat.ltb_ge in Hslot].
  - lia.
  - exists st, []. rewrite app_nil_r. split_and!; [done..|]. constructor.
    intros r _ Hfit. pose proof (fw_count _ Hfit) as H.
    rewrite !length_app, length_fmap in H. simpl in H. lia.
  - destruct (select_step_spec chosen st Hst Hslot)
      as [(r & st' & Hstep & Hst' & Hrem & Hbest)|[Hstep Hnone]]; rewrite Hstep; rsimpl.
    + destruct (IH (chosen ++ [r]) st' Hst') as (st'' & more & Hloop & Hst'' & Hgreedy).
      { rewrite length_app. simpl. lia. }
      exists st'', (r :: more). split; [done|]. rewrite <-app_assoc in Hst''. split; [done|].
      pose proof (so_fits _ _ _ Hst') as Hfits. rewrite app_assoc in Hfits, Hgreedy.
      by eapply greedy_take.
    + exists st, []. rewrite app_nil_r. split_and!; [done..|]. by constructor.
  - exists st, []. rewrite app_nil_r. split_and!; [done..|]. constructor.
    intros r _ Hfit. pose proof (fw_count _ Hfit) as H.
    rewrite !length_app, length_fmap in H. simpl in H. lia.
Qed.
End iteration.
