(* ===== verification/QueueTheorems.v ===== *)
(** * What one queue evaluation guarantees

    The theorems about [evaluate_personal_worker_queue]: it refines the greedy
    schedule of [QueueSchedule], never panics, never overcommits the worker,
    leaves no slot idle that a waiting job could use, does not invert
    priorities, does not depend on the order in which jobs are stored, and
    reports every job exactly once. *)

From S2P Require Import Prelude SortBy Artifact ExecutionAdmission AdmissionLifecycle PidCapacity.
From S2P Require Import WorkerQueue QueueSchedule.

Local Open Scope N_scope.

(** ** The validated input *)

(** The request-id loops of [validate_input]. *)
Lemma fold_insert_ids {A} (validate : A → result PersonalWorkerQueueError ()) (key : A → string)
    message ids l ids' :
  fold_result (λ ids x, _ ← validate x; insert_request_id message ids (key x)) ids l = Ok ids' ↔
  Forall (λ x, validate x = Ok ()) l ∧ NoDup (key <$> l) ∧ (∀ x, x ∈ l → key x ∉ ids) ∧
  ids' = ids ∪ list_to_set (key <$> l).
Proof.
  revert ids. induction l as [|x l IH]; intros ids; csimpl.
  { split.
    - intros [= <-]. split_and!; [constructor..| |set_solver].
      intros x Hx. by apply elem_of_nil in Hx.
    - intros (_ & _ & _ & ->). f_equal. set_solver. }
  rewrite bind_Ok. setoid_rewrite bind_Ok. unfold insert_request_id. split.
  - intros (ids1 & ([] & Hval & Hins) & Hrest). case_bool_decide; [done|].
    injection Hins as <-. apply IH in Hrest as (Hall & Hnd & Hfresh & ->).
    split_and!; [by constructor| | |set_solver].
    + constructor; [|done]. intros (y & Hy & Hin)%list_elem_of_fmap.
      apply (Hfresh y Hin). rewrite <-Hy. set_solver.
    + intros y [->|Hy]%elem_of_cons; [done|]. apply Hfresh in Hy. set_solver.
  - intros (Hall & Hnd & Hfresh & ->). apply Forall_cons in Hall as [Hval Hall].
    apply NoDup_cons in Hnd as [Hx Hnd].
    eexists. split.
    { exists (). split; [done|]. rewrite bool_decide_eq_false_2; [done|]. apply Hfresh. left. }
    apply IH. split_and!; [done..| |set_solver].
    intros y Hy. assert (key y ≠ key x).
    { intros Heq. apply Hx. rewrite <-Heq. by apply list_elem_of_fmap_2. }
    pose proof (Hfresh y ltac:(by right)). set_solver.
Qed.

(** Everything [validate_input] checks besides the sizes and the profile. *)
Record checked_input (input : PersonalWorkerQueueInput) : Prop := {
  ci_queue : (length (qi_queued input) ≤ MAX_PERSONAL_WORKER_QUEUE_ENTRIES)%nat;
  ci_requests : Forall (λ r, validate_request r (qi_observed_at input) = Ok ()) (qi_queued input);
  ci_active : Forall (λ a, validate_active a (qi_observed_at input) = Ok ()) (qi_active input);
  ci_nodup : NoDup ((rq_id <$> qi_queued input) ++ (ac_id <$> qi_active input));
}.

Lemma validate_input_checked input : validate_input input = Ok () → checked_input input.
Proof.
  unfold validate_input. intros H. inv_ok H. all: rename y0 into ids.
  all: match goal with H : fold_result _ ∅ _ = Ok _ |- _ => apply fold_insert_ids in H
         as (Hreq & Hnd & _ & ->) end.
  all: match goal with H : fold_result _ _ _ = Ok _ |- _ => apply fold_insert_ids in H
         as (Hact & Hnd' & Hfresh & _) end.
  all: split; [apply Nat.ltb_ge; done|done|done|].
  all: apply NoDup_app; split_and!; [done| |done].
  all: intros id Hid (a & -> & Ha)%list_elem_of_fmap; apply (Hfresh a Ha); set_solver.
Qed.

(** The candidate requests carry distinct identities. *)
Lemma live_requests_nodup input : checked_input input → NoDup (rq_id <$> live_requests input).
Proof.
  intros [_ _ _ Hnd]. apply NoDup_app in Hnd as (Hnd & _).
  unfold live_requests. induction (qi_queued input) as [|r l IH]; simpl in *; [done|].
  apply NoDup_cons in Hnd as [Hr Hnd]. specialize (IH Hnd).
  destruct (negb _); [|done]. csimpl. constructor; [|done].
  intros (s & Hs & Hin)%list_elem_of_fmap. apply Hr. rewrite Hs. apply list_elem_of_fmap_2.
  apply list_elem_of_In. by apply list_elem_of_In, List.filter_In in Hin as [Hin _].
Qed.

(** ** Absence of panics *)

Lemma QueueGeneration_new_no_panic v : QueueGeneration_new v ≠ Panic.
Proof. unfold QueueGeneration_new. no_panic. Qed.

Lemma validate_limits_no_panic l : validate_limits l ≠ Panic.
Proof. unfold validate_limits. no_panic. Qed.

Lemma validate_for_source_no_panic n s : validate_for_source n s ≠ Panic.
Proof. unfold validate_for_source. no_panic. Qed.

Lemma queue_validate_fallback_no_panic i f : WorkerQueue.validate_fallback i f ≠ Panic.
Proof. unfold WorkerQueue.validate_fallback. no_panic. Qed.

Lemma insert_request_id_no_panic m ids id : insert_request_id m ids id ≠ Panic.
Proof. unfold insert_request_id. no_panic. Qed.

#[export] Hint Resolve QueueGeneration_new_no_panic validate_limits_no_panic
  validate_for_source_no_panic queue_validate_fallback_no_panic
  insert_request_id_no_panic : no_panic.

Lemma validate_request_no_panic r now : validate_request r now ≠ Panic.
Proof. unfold validate_request. no_panic. Qed.

#[export] Hint Resolve validate_request_no_panic : no_panic.

(** The [unreachable!] of [validate_active] is guarded by the state check. *)
Lemma validate_active_no_panic a now : validate_active a now ≠ Panic.
Proof.
  unfold validate_active. no_panic. unfold validate_start_time in Hpanic.
  destruct (ear_state (ac_admission a)) eqn:Hst; inv_panic Hpanic.
  all: match goal with H : negb (is_reserved_state _) = false |- _ => discriminate H end.
Qed.

#[export] Hint Resolve validate_active_no_panic : no_panic.

Lemma validate_generation_no_panic input previous : validate_generation input previous ≠ Panic.
Proof. unfold validate_generation, QueueGeneration_next. no_panic. Qed.

Lemma aggregate_active_limits_no_panic active : aggregate_active_limits active ≠ Panic.
Proof.
  unfold aggregate_active_limits. intros H. inv_panic H.
  eapply fold_result_no_panic; [|exact H]. intros [sum heavy] a. unfold aggregate_step. no_panic.
Qed.

Lemma validate_active_leases_no_panic active : validate_active_leases active ≠ Panic.
Proof.
  unfold validate_active_leases. intros H. inv_panic H.
  eapply fold_result_no_panic; [|exact H]. intros leases a. no_panic.
Qed.

#[export] Hint Resolve validate_generation_no_panic aggregate_active_limits_no_panic
  validate_active_leases_no_panic : no_panic.

Lemma validate_input_no_panic input : validate_input input ≠ Panic.
Proof.
  unfold validate_input. no_panic.
  all: eapply fold_result_no_panic; [|exact Hpanic]; intros ids x; no_panic.
Qed.

#[export] Hint Resolve validate_input_no_panic : no_panic.

Lemma validate_active_reserved a now u :
  validate_active a now = Ok u → is_reserved_state (ear_state (ac_admission a)) = true.
Proof. unfold validate_active. intros H. inv_ok H. by bprop. Qed.

Lemma build_visibility_no_panic input selected desired :
  checked_input input → build_visibility input selected desired ≠ Panic.
Proof.
  intros Hin. unfold build_visibility. intros H. inv_panic H.
  eapply traverse_no_panic; [|exact H]. intros a Ha.
  pose proof (ci_active _ Hin) as Hact. rewrite Forall_forall in Hact.
  apply Hact, validate_active_reserved in Ha. unfold active_visibility.
  by destruct (ear_state (ac_admission a)).
Qed.

(** ** The evaluator refines the greedy schedule *)

Abbreviation active_jobs_of input := (ac_request <$> qi_active input).

Lemma initial_state input limits :
  validate_input input = Ok () → aggregate_active_limits (qi_active input) = Ok limits →
  state_of input [] (initial_selection input limits).
Proof.
  intros Hin Hlim. apply aggregate_active_limits_Ok in Hlim as [-> _].
  constructor; simpl; rewrite ?app_nil_r; eauto using active_leases_held, active_load.
  by eapply validate_input_fits.
Qed.

Definition has_work_of (input : PersonalWorkerQueueInput) : bool :=
  existsb (λ request, negb (is_cancelled (rq_cancellation request))) (qi_queued input)
  || negb (bool_decide (qi_active input = [])).

(** The decision built around a schedule and its report. *)
Definition decision_of (input : PersonalWorkerQueueInput)
    (chosen : list PersonalWorkerJobRequest) (visibility : list PersonalWorkerQueueVisibility)
    : PersonalWorkerQueueDecision :=
  mkDecision PERSONAL_WORKER_QUEUE_SCHEMA_VERSION (qi_generation input)
    (qi_observed_at input) (qi_profile_observation input) (qi_activity_evidence input)
    (desired_profile input (has_work_of input))
    (has_work_of input && is_some_and (λ pending, bool_decide (pc_target pending ≠ ProfileWork))
                            (qi_pending_profile_change input))
    (bool_decide (qi_active input = []))
    PERSONAL_WORKER_SCHEDULABLE_CPU_MILLIS PERSONAL_WORKER_SCHEDULABLE_MEMORY_BYTES
    PERSONAL_WORKER_SCHEDULABLE_PID_CAPACITY
    (selection_of (qi_observed_at input) <$> chosen) visibility.

(** A validated input is evaluated, and the loop computes the schedule. *)
Lemma evaluate_valid input previous :
  validate_generation input previous = Ok () → validate_input input = Ok () →
  ∃ chosen visibility,
    greedy (qi_observed_at input) (active_jobs_of input) (live_requests input) chosen ∧
    fits_worker (active_jobs_of input ++ chosen) ∧
    build_visibility input (selection_of (qi_observed_at input) <$> chosen)
      (desired_profile input (has_work_of input)) = Ok visibility ∧
    evaluate_personal_worker_queue input previous = Ok (decision_of input chosen visibility).
Proof.
  intros Hgen Hin. unfold evaluate_personal_worker_queue. rewrite Hgen, Hin. rsimpl.
  assert (∃ limits, aggregate_active_limits (qi_active input) = Ok limits) as [limits Hlim].
  { unfold validate_input in Hin. inv_ok Hin; eauto. }
  pose proof (initial_state _ _ Hin Hlim) as Hst. rewrite Hlim. rsimpl.
  fold (active_heavy input). fold (has_work_of input).
  destruct (select_loop_greedy input (S MAX_PERSONAL_WORKER_ACTIVE_RESERVATIONS) [] _ Hst)
    as (st & chosen & -> & Hst' & Hgreedy); [unfold MAX_PERSONAL_WORKER_ACTIVE_RESERVATIONS; lia|].
  rsimpl. rewrite app_nil_r in Hgreedy. simpl in Hst'. rewrite (so_selected _ _ _ Hst').
  set (selected := selection_of (qi_observed_at input) <$> chosen).
  destruct (build_visibility input selected (desired_profile input (has_work_of input)))
    as [vis|e|] eqn:Hvis.
  - exists chosen, vis. split_and!; [done|apply Hst'|done..].
  - unfold build_visibility in Hvis. apply bind_Err in Hvis as [Hvis|(x & _ & Hvis)]; [|done].
    exfalso. revert Hvis. generalize (qi_active input) as active.
    induction active as [|a active IH]; simpl; [done|]. intros H.
    apply bind_Err in H as [H|(x & _ & H)].
    + unfold active_visibility in H. by destruct (ear_state _).
    + apply bind_Err in H as [H|(z & _ & H)]; done.
  - by apply build_visibility_no_panic in Hvis; [|apply validate_input_checked].
Qed.

Lemma evaluate_Ok_valid input previous d :
  evaluate_personal_worker_queue input previous = Ok d →
  validate_generation input previous = Ok () ∧ validate_input input = Ok ().
Proof.
  unfold evaluate_personal_worker_queue. intros H. inv_ok H.
  by destruct y, y0.
Qed.

(** The two lemmas above, for a client that has a decision in hand. *)
Lemma evaluate_Ok input previous d :
  evaluate_personal_worker_queue input previous = Ok d →
  checked_input input ∧ ∃ chosen visibility,
    greedy (qi_observed_at input) (active_jobs_of input) (live_requests input) chosen ∧
    fits_worker (active_jobs_of input ++ chosen) ∧
    build_visibility input (selection_of (qi_observed_at input) <$> chosen)
      (desired_profile input (has_work_of input)) = Ok visibility ∧
    d = decision_of input chosen visibility.
Proof.
  intros H. destruct (evaluate_Ok_valid _ _ _ H) as [Hgen Hin].
  split; [by apply validate_input_checked|].
  destruct (evaluate_valid _ _ Hgen Hin) as (chosen & vis & ? & ? & ? & Heval).
  exists chosen, vis. split_and!; [done..|]. rewrite Heval in H. by injection H.
Qed.

(** ** Facts about greedy schedules *)

(** Lists of members of [l] are told apart by their keys. *)
Lemma list_same_ids {A B} (f : A → B) (l l1 l2 : list A) :
  NoDup (f <$> l) → l1 ⊆+ l → l2 ⊆+ l → f <$> l1 = f <$> l2 → l1 = l2.
Proof.
  intros Hnd H1 H2. assert (∀ x, x ∈ l1 → x ∈ l) as S1 by (intros; by eapply elem_of_submseteq).
  assert (∀ x, x ∈ l2 → x ∈ l) as S2 by (intros; by eapply elem_of_submseteq). clear H1 H2.
  revert l2 S2. induction l1 as [|x l1 IH]; intros [|y l2] S2 Heq; csimpl in *; try done.
  injection Heq as Hxy Heq. f_equal.
  - eapply NoDup_fmap_inj; [done|apply S1; by left|apply S2; by left|done].
  - apply IH; [|intros z Hz; apply S2; by right|done]. intros z Hz. apply S1. by right.
Qed.

Lemma greedy_submseteq now held candidates chosen :
  greedy now held candidates chosen → chosen ⊆+ candidates.
Proof.
  induction 1 as [|held candidates c rest chosen Hperm _ _ _ IH].
  - apply submseteq_nil_l.
  - rewrite Hperm. by apply submseteq_skip.
Qed.

(** A schedule leaves no waiting job that would still fit. *)
Lemma greedy_maximal now held candidates chosen r :
  greedy now held candidates chosen → r ∈ candidates → r ∉ chosen →
  ¬ fits_worker ((held ++ chosen) ++ [r]).
Proof.
  induction 1 as [held candidates Hnone|held candidates c rest chosen Hperm _ _ _ IH].
  - intros Hr _. rewrite app_nil_r. auto.
  - intros Hr Hnot. rewrite Hperm in Hr. rewrite not_elem_of_cons in Hnot.
    apply elem_of_cons in Hr as [->|Hr]; [tauto|].
    rewrite <-(app_assoc held [c] chosen) in IH. simpl in IH. tauto.
Qed.

(** Whatever was taken ranked no later than any job that fit in its place. *)
Lemma greedy_ranked now held candidates pre c post r :
  greedy now held candidates (pre ++ c :: post) →
  r ∈ candidates → r ∉ pre ++ c :: post → fits_worker ((held ++ pre) ++ [r]) →
  cmp_le (compare_candidates now (load_of (held ++ pre))) c r.
Proof.
  remember (pre ++ c :: post) as chosen eqn:Hchosen. intros Hg. revert pre Hchosen.
  induction Hg as [held candidates Hnone|held candidates c' rest chosen Hperm _ Hbest _ IH];
    intros pre Hchosen Hr Hnot Hfit; [by destruct pre|].
  rewrite Hperm in Hr. rewrite not_elem_of_cons in Hnot.
  apply elem_of_cons in Hr as [->|Hr]; [tauto|].
  destruct pre as [|p pre]; simplify_eq/=.
  - rewrite app_nil_r in *. auto.
  - rewrite (app_assoc held [p] pre : held ++ p :: pre = _) in *. apply (IH pre); tauto.
Qed.

(** Distinct identities leave the schedule no freedom, and the order in which
    the candidates are listed does not matter. *)
Lemma greedy_deterministic now held candidates chosen :
  greedy now held candidates chosen → ∀ candidates' chosen',
  candidates ≡ₚ candidates' → NoDup (rq_id <$> candidates) →
  greedy now held candidates' chosen' → chosen = chosen'.
Proof.
  induction 1 as [held cand Hnone|held cand c rest chosen Hperm Hfit Hbest _ IH];
    intros cand' chosen' Hcand Hnd; inversion 1 as [? ? Hnone'|? ? c' rest' more Hperm' Hfit' Hbest' Hg'];
    simplify_eq; [done|..].
  - exfalso. apply (Hnone c'); [|done]. rewrite Hcand, Hperm'. by left.
  - exfalso. apply (Hnone' c); [|done]. rewrite <-Hcand, Hperm. by left.
  - assert (c = c') as ->.
    { rewrite Hcand in Hnd. assert (c ∈ cand') as Hc by (rewrite <-Hcand, Hperm; by left).
      assert (c' ∈ cand) as Hc' by (rewrite Hcand, Hperm'; by left).
      rewrite Hperm' in Hc. rewrite Hperm in Hc'.
      apply elem_of_cons in Hc as [?|Hc]; [done|]. apply elem_of_cons in Hc' as [?|Hc']; [done|].
      apply (NoDup_fmap_inj rq_id cand'); [done|rewrite Hperm'; by right|rewrite Hperm'; by left|].
      apply (compare_candidates_Eq now (load_of held)).
      specialize (Hbest c' Hc' Hfit'). specialize (Hbest' c Hc Hfit). unfold cmp_le in *.
      rewrite (compare_flip (compare_candidates now (load_of held))) in Hbest'.
      by destruct (compare_candidates now (load_of held) c c'). }
    f_equal. eapply IH; [|rewrite Hperm in Hnd; by apply NoDup_cons in Hnd as [_ ?]|done].
    apply (Permutation_cons_inv (a := c')). by rewrite <-Hperm, Hcand.
Qed.

(** ** Order of storage *)

Definition with_queued (input : PersonalWorkerQueueInput) (l : list PersonalWorkerJobRequest)
    : PersonalWorkerQueueInput :=
  mkQueueInput (qi_generation input) (qi_observed_at input) (qi_profile_observation input)
    (qi_activity_evidence input) l (qi_active input) (qi_pending_profile_change input).

Lemma bool_filter_Permutation {A} (p : A → bool) l l' :
  l ≡ₚ l' → List.filter p l ≡ₚ List.filter p l'.
Proof.
  induction 1; simpl; [done|by case_match; [constructor|]| |by etrans].
  do 2 case_match; (done || constructor).
Qed.

Lemma existsb_Permutation {A} (p : A → bool) l l' : l ≡ₚ l' → existsb p l = existsb p l'.
Proof.
  intros Hp. apply eq_bool_prop_intro. rewrite !Is_true_true, !existsb_exists.
  split; intros (x & Hx & Hpx); exists x; split; try done;
    eapply Permutation_in; (done || by symmetry).
Qed.

Lemma validate_input_permuted input l :
  qi_queued input ≡ₚ l → validate_input input = Ok () → validate_input (with_queued input l) = Ok ().
Proof.
  intros Hp. unfold validate_input. simpl. rewrite (Permutation_length Hp).
  assert (bool_decide (qi_queued input = []) = bool_decide (l = [])) as ->.
  { apply bool_decide_ext. split; intros Hn; rewrite Hn in Hp;
      [by apply Permutation_nil in Hp|symmetry in Hp; by apply Permutation_nil in Hp]. }
  repeat match goal with |- (if ?b then Err _ else _) = Ok _ → _ => destruct b; [done|] end.
  intros H. apply bind_Ok in H as (u & Hpend & H). apply bind_Ok. exists u. split; [done|].
  apply bind_Ok in H as (ids & Hids & H). apply bind_Ok. exists ids. split; [|done].
  apply fold_insert_ids in Hids as (Hall & Hnd & Hfresh & ->). apply fold_insert_ids.
  split_and!; [by rewrite <-Hp|by rewrite <-Hp|intros x Hx; apply Hfresh; by rewrite Hp|].
  f_equal. apply list_to_set_perm_L. by rewrite Hp.
Qed.

Lemma sort_queued_permuted input l load :
  checked_input input → qi_queued input ≡ₚ l →
  sort_by (compare_candidates (qi_observed_at input) load) (qi_queued input)
  = sort_by (compare_candidates (qi_observed_at input) load) l.
Proof.
  intros Hin Hp. apply (sort_by_unique _); [|done]. intros x y Hx Hy Heq.
  pose proof (ci_nodup _ Hin) as Hnd. apply NoDup_app in Hnd as (Hnd & _).
  by eapply (NoDup_fmap_inj rq_id); [..|by eapply compare_candidates_Eq].
Qed.

(** The order in which the queue is stored does not matter: an input
    whose queued jobs are a permutation of an accepted input's is accepted and
    yields the same decision, selection and report included. *)
Theorem evaluate_order_independent (input : PersonalWorkerQueueInput)
    (previous : option PersonalWorkerQueueDecision) (d : PersonalWorkerQueueDecision)
    (l : list PersonalWorkerJobRequest)
    (Hd : evaluate_personal_worker_queue input previous = Ok d)
    (Hp : qi_queued input ≡ₚ l) :
  evaluate_personal_worker_queue (with_queued input l) previous = Ok d.
Proof.
  destruct (evaluate_Ok_valid _ _ _ Hd) as [Hgen Hval].
  apply evaluate_Ok in Hd as (Hin & chosen & vis & Hg & _ & Hvis & ->).
  destruct (evaluate_valid (with_queued input l) previous)
    as (chosen' & vis' & Hg' & _ & Hvis' & ->); [done|by apply validate_input_permuted|].
  assert (chosen = chosen') as <-.
  { eapply greedy_deterministic; [exact Hg| |by apply live_requests_nodup|exact Hg'].
    by apply bool_filter_Permutation. }
  assert (has_work_of (with_queued input l) = has_work_of input) as Hwork.
  { unfold has_work_of. simpl. by rewrite (existsb_Permutation _ _ _ Hp). }
  unfold decision_of. rewrite Hwork in *. simpl.
  assert (vis = vis') as <-; [|done].
  unfold build_visibility in Hvis, Hvis'. simpl in Hvis'.
  rewrite <-(sort_queued_permuted input l _ Hin Hp) in Hvis'.
  unfold desired_profile in *. simpl in *. congruence.
Qed.

(** ** The schedule *)

(** (C12) The evaluator refines the greedy specification: the jobs it selects
    are, in order, the unique greedy schedule of the live queue beside the
    jobs that already hold the worker. *)
Theorem evaluate_refines_greedy (input : PersonalWorkerQueueInput)
    (previous : option PersonalWorkerQueueDecision) (d : PersonalWorkerQueueDecision)
    (Hd : evaluate_personal_worker_queue input previous = Ok d) :
  ∃ chosen, qd_selected d = selection_of (qi_observed_at input) <$> chosen ∧
    greedy (qi_observed_at input) (active_jobs_of input) (live_requests input) chosen ∧
    ∀ chosen', greedy (qi_observed_at input) (active_jobs_of input) (live_requests input) chosen' →
      chosen' = chosen.
Proof.
  apply evaluate_Ok in Hd as (Hin & chosen & vis & Hg & _ & _ & ->).
  exists chosen. split_and!; [done..|]. intros chosen' Hg'. symmetry.
  by eapply greedy_deterministic; [..|by apply live_requests_nodup|done].
Qed.

(** (C13) The worker is never overcommitted: the selected jobs are distinct
    live jobs of the queue, and together with the active ones they are at most
    two, stay within the schedulable CPU, memory and PIDs, leave a heavy job
    alone and hold compatible cache leases. *)
Theorem evaluate_never_overcommits (input : PersonalWorkerQueueInput)
    (previous : option PersonalWorkerQueueDecision) (d : PersonalWorkerQueueDecision)
    (Hd : evaluate_personal_worker_queue input previous = Ok d) :
  ∃ chosen, qd_selected d = selection_of (qi_observed_at input) <$> chosen ∧
    chosen ⊆+ live_requests input ∧ fits_worker (active_jobs_of input ++ chosen) ∧
    NoDup (rq_id <$> active_jobs_of input ++ chosen).
Proof.
  apply evaluate_Ok in Hd as (Hin & chosen & vis & Hg & Hfit & _ & ->).
  exists chosen. apply greedy_submseteq in Hg. split_and!; [done..|].
  pose proof (ci_nodup _ Hin) as Hnd. rewrite fmap_app, <-list_fmap_compose.
  rewrite NoDup_app in Hnd. destruct Hnd as (_ & Hdis & Hact). apply NoDup_app.
  pose proof (fmap_submseteq rq_id _ _ Hg) as Hsub. split_and!; [done| |].
  - intros id Hid Hc. eapply elem_of_submseteq in Hc; [|exact Hsub]. apply (Hdis id); [|done].
    apply list_elem_of_fmap in Hc as (r & -> & Hr). apply list_elem_of_fmap_2.
    apply list_elem_of_In in Hr. apply list_elem_of_In. by apply List.filter_In in Hr as [? _].
  - apply submseteq_Permutation in Hsub as [k Hk].
    pose proof (live_requests_nodup _ Hin) as Hlive. rewrite Hk in Hlive.
    by apply NoDup_app in Hlive as [? _].
Qed.

(** No capacity is left idle: a live job that was not selected does not
    fit beside the active and the selected jobs. *)
Theorem evaluate_work_conserving (input : PersonalWorkerQueueInput)
    (previous : option PersonalWorkerQueueDecision) (d : PersonalWorkerQueueDecision)
    (r : PersonalWorkerJobRequest)
    (Hd : evaluate_personal_worker_queue input previous = Ok d)
    (Hr : r ∈ live_requests input) (Hnot : rq_id r ∉ sel_request_id <$> qd_selected d) :
  ∃ chosen, qd_selected d = selection_of (qi_observed_at input) <$> chosen ∧
    ¬ fits_worker ((active_jobs_of input ++ chosen) ++ [r]).
Proof.
  apply evaluate_Ok in Hd as (Hin & chosen & vis & Hg & _ & _ & ->).
  exists chosen. split; [done|]. eapply greedy_maximal; [done..|]. intros Hc. apply Hnot.
  simpl. rewrite <-list_fmap_compose.
  by apply (list_elem_of_fmap_2 (sel_request_id ∘ selection_of (qi_observed_at input)) _ r).
Qed.

(** No priority inversion: when a job [c] is taken while a waiting job
    [r] would have fitted in its place, [c] ranks no later than [r] in the
    candidate order with the repository load of that moment; in particular its
    effective priority is at least [r]'s. *)
Theorem evaluate_no_priority_inversion (input : PersonalWorkerQueueInput)
    (previous : option PersonalWorkerQueueDecision) (d : PersonalWorkerQueueDecision)
    (pre post : list PersonalWorkerJobRequest) (c r : PersonalWorkerJobRequest)
    (Hd : evaluate_personal_worker_queue input previous = Ok d)
    (Hsel : qd_selected d = selection_of (qi_observed_at input) <$> pre ++ c :: post)
    (Hsub : pre ++ c :: post ⊆+ live_requests input)
    (Hr : r ∈ live_requests input) (Hnot : r ∉ pre ++ c :: post)
    (Hfit : fits_worker ((active_jobs_of input ++ pre) ++ [r])) :
  compare_candidates (qi_observed_at input) (load_of (active_jobs_of input ++ pre)) c r ≠ Gt ∧
  effective_priority r (qi_observed_at input) ≤ effective_priority c (qi_observed_at input).
Proof.
  apply evaluate_Ok in Hd as (Hin & chosen & vis & Hg & _ & _ & ->). simpl in Hsel.
  assert (chosen = pre ++ c :: post) as ->.
  { eapply (list_same_ids rq_id (live_requests input)); eauto using live_requests_nodup.
    - by eapply greedy_submseteq.
    - apply (f_equal (fmap sel_request_id)) in Hsel. by rewrite <-!list_fmap_compose in Hsel. }
  assert (cmp_le (compare_candidates (qi_observed_at input)
    (load_of (active_jobs_of input ++ pre))) c r) as Hle by by eapply greedy_ranked.
  split; [exact Hle|]. unfold cmp_le, compare_candidates, then_with in Hle.
  destruct (N.compare_spec (effective_priority r (qi_observed_at input))
    (effective_priority c (qi_observed_at input))); [lia..|done].
Qed.

Lemma evaluate_no_panic input previous : evaluate_personal_worker_queue input previous ≠ Panic.
Proof.
  intros H. destruct (validate_generation input previous) as [[]|e|] eqn:Hgen.
  - destruct (validate_input input) as [[]|e|] eqn:Hin.
    + destruct (evaluate_valid _ _ Hgen Hin) as (? & ? & _ & _ & _ & Hok). congruence.
    + unfold evaluate_personal_worker_queue in H. by rewrite Hgen, Hin in H.
    + by apply validate_input_no_panic in Hin.
  - unfold evaluate_personal_worker_queue in H. by rewrite Hgen in H.
  - by apply validate_generation_no_panic in Hgen.
Qed.

#[export] Hint Resolve evaluate_no_panic : no_panic.

(** Evaluation never panics: its two [expect]s and its [unreachable!]
    cannot fire, and it answers exactly when the generation and the input pass
    validation. *)
Theorem evaluate_total (input : PersonalWorkerQueueInput)
    (previous : option PersonalWorkerQueueDecision) :
  evaluate_personal_worker_queue input previous ≠ Panic ∧
  ((∃ d, evaluate_personal_worker_queue input previous = Ok d) ↔
   validate_generation input previous = Ok () ∧ validate_input input = Ok ()).
Proof.
  split; [apply evaluate_no_panic|].
  split; [by intros [d Hd%evaluate_Ok_valid]|]. intros [Hgen Hin].
  destruct (evaluate_valid _ _ Hgen Hin) as (? & ? & _ & _ & _ & ->). eauto.
Qed.

(** Priority aging is exact at the width it is computed at: the rank of
    a job is its base rank raised by one per half hour of waiting and capped at
    the interactive rank, for every age a [u64] can hold, so no job that has
    waited an hour ranks below an interactive one. *)
Theorem effective_rank_exact (priority : PersonalWorkerPriority) (age : N) :
  effective_rank priority age
    = N.min 2 (base_rank priority + age / PERSONAL_WORKER_PRIORITY_AGING_MILLIS) ∧
  effective_rank priority (60 * 60 * 1000 + age) = effective_rank PriorityInteractive 0.
Proof.
  assert (∀ age, effective_rank priority age
    = N.min 2 (base_rank priority + age / PERSONAL_WORKER_PRIORITY_AGING_MILLIS)) as Heq.
  { clear age. intros age. unfold effective_rank, try_from_int, saturating_add, u8_max.
    generalize (age / PERSONAL_WORKER_PRIORITY_AGING_MILLIS) as p. intros p.
    destruct (N.leb_spec p 255); simpl; destruct priority; simpl; lia. }
  split; [done|]. rewrite Heq. change (effective_rank PriorityInteractive 0) with 2.
  assert (2 ≤ (60 * 60 * 1000 + age) / PERSONAL_WORKER_PRIORITY_AGING_MILLIS); [|lia].
  apply N.div_le_lower_bound; [done|]. unfold PERSONAL_WORKER_PRIORITY_AGING_MILLIS. lia.
Qed.

(** ** The visibility report *)

Lemma collect_positions_fold w : ∀ (m : gmap string N) (k : N),
  NoDup (rq_id <$> w) →
  let m' := (foldl (λ (acc : gmap string N * N) request,
    (<[rq_id request := acc.2 + 1]> acc.1, acc.2 + 1)) (m, k) w).1 in
  (∀ i r, w !! i = Some r → m' !! rq_id r = Some (k + N.of_nat (S i))) ∧
  (∀ id, id ∉ rq_id <$> w → m' !! id = m !! id).
Proof.
  induction w as [|x w IH]; intros m k Hnd; csimpl in *; [done|].
  apply NoDup_cons in Hnd as [Hx Hnd].
  destruct (IH (<[rq_id x := k + 1]> m) (k + 1) Hnd) as [Hin Hout]. split.
  - intros [|i] r Hr; simplify_eq/=.
    + rewrite Hout, lookup_insert by done. case_decide; [f_equal; lia|done].
    + rewrite (Hin i r Hr). f_equal. lia.
  - intros id Hid. rewrite not_elem_of_cons in Hid. destruct Hid as [Hne Hid].
    rewrite Hout by done. by rewrite lookup_insert_ne.
Qed.

Lemma omap_counts {A} (f : A → option N) (w : list A) k :
  (∀ i r, w !! i = Some r → f r = Some (N.of_nat (k + i))) →
  omap f w = N.of_nat <$> seq k (length w).
Proof.
  revert k. induction w as [|x w IH]; intros k Hf; csimpl; [done|].
  rewrite (Hf 0%nat x eq_refl), Nat.add_0_r. f_equal. apply IH.
  intros i r Hr. rewrite (Hf (S i) r Hr). f_equal. lia.
Qed.

Lemma omap_filtered {A B} (p : A → bool) (f : A → option B) l :
  (∀ x, x ∈ l → p x = false → f x = None) → omap f l = omap f (List.filter p l).
Proof.
  induction l as [|x l IH]; intros Hf; csimpl; [done|].
  assert (omap f l = omap f (List.filter p l)) as Heq.
  { apply IH. intros y Hy. apply Hf. by right. }
  destruct (p x) eqn:Hp; csimpl; rewrite Heq; [done|]. by rewrite (Hf x ltac:(left) Hp).
Qed.

Lemma omap_app_list {A B} (f : A → option B) l1 l2 : omap f (l1 ++ l2) = omap f l1 ++ omap f l2.
Proof. induction l1 as [|x l1 IH]; csimpl; [done|]. destruct (f x); csimpl; by rewrite IH. Qed.

Lemma omap_fmap_list {A B C} (f : B → option C) (g : A → B) (l : list A) :
  omap f (g <$> l) = omap (λ x, f (g x)) l.
Proof. induction l as [|x l IH]; csimpl; [done|]. by rewrite IH. Qed.

(** The positions handed out over a list of requests with distinct
    identities: the waiting ones are numbered from one, the others not. *)
Lemma positions_reported (p : PersonalWorkerJobRequest → bool) q :
  NoDup (rq_id <$> q) → (length q ≤ MAX_PERSONAL_WORKER_QUEUE_ENTRIES)%nat →
  let positions := collect_positions (List.filter p q) in
  let reported r := position ← positions !! rq_id r; try_from_int u32_max position in
  omap reported q = N.of_nat <$> seq 1 (length (List.filter p q)) ∧
  ∀ r, r ∈ q → is_Some (reported r) ↔ p r = true.
Proof.
  intros Hnd Hlen positions reported. set (w := List.filter p q) in *.
  assert (w ⊆+ q) as Hsub.
  { subst w. clear. induction q as [|x q IH]; simpl; [done|].
    destruct (p x); [by apply submseteq_skip|by apply submseteq_cons]. }
  assert (NoDup (rq_id <$> w)) as Hw.
  { apply (fmap_submseteq rq_id), submseteq_Permutation in Hsub as [k Hk].
    rewrite Hk in Hnd. by apply NoDup_app in Hnd as [? _]. }
  destruct (collect_positions_fold w ∅ 0 Hw) as [Hin Hout]. fold (collect_positions w) in *.
  fold positions in Hin, Hout.
  assert (∀ i r, w !! i = Some r → reported r = Some (N.of_nat (1 + i))) as Hrep.
  { intros i r Hr. unfold reported. rewrite (Hin i r Hr). simpl. unfold try_from_int.
    apply lookup_lt_Some in Hr. apply submseteq_length in Hsub.
    unfold MAX_PERSONAL_WORKER_QUEUE_ENTRIES in Hlen.
    rewrite (proj2 (N.leb_le _ _)); [f_equal; lia|]. unfold u32_max. lia. }
  assert (∀ r, r ∈ q → p r = false → reported r = None) as Hnone.
  { intros r Hr Hp. unfold reported. rewrite Hout; [done|].
    intros (s & Hs & Hsw)%list_elem_of_fmap. apply list_elem_of_In, List.filter_In in Hsw as [Hsq Hps].
    apply list_elem_of_In in Hsq. assert (r = s) as -> by exact (NoDup_fmap_inj rq_id q r s Hnd Hr Hsq Hs).
    congruence. }
  split.
  - rewrite (omap_filtered p) by done. by apply omap_counts.
  - intros r Hr. destruct (p r) eqn:Hp.
    + split; [done|]. intros _. assert (r ∈ w) as [i Hi]%list_elem_of_lookup.
      { apply list_elem_of_In, List.filter_In. by rewrite <-list_elem_of_In. }
      by rewrite (Hrep i r Hi).
    + rewrite Hnone by done. split; [by intros []|done].
Qed.

Lemma active_visibility_facts now a v : active_visibility now a = Ok v →
  vis_request_id v = ac_id a ∧ vis_queue_position v = None ∧
  vis_state v ≠ EntryQueued ∧ vis_state v ≠ EntrySelected.
Proof.
  unfold active_visibility. intros H. inv_ok H.
  destruct (ear_state _); try discriminate Hy; injection Hy as <-; by injection H as <-.
Qed.

Lemma active_entries now active vs :
  traverse (active_visibility now) active = Ok vs →
  vis_request_id <$> vs = ac_id <$> active ∧ omap vis_queue_position vs = [] ∧
  Forall (λ v, vis_queue_position v = None ∧ vis_state v ≠ EntryQueued ∧
               vis_state v ≠ EntrySelected ∧ vis_request_id v ∈ ac_id <$> active) vs.
Proof.
  rewrite traverse_Ok. induction 1 as [|a v active vs Hav _ (IHid & IHpos & IHall)]; csimpl.
  { split_and!; constructor. }
  apply active_visibility_facts in Hav as (Hid & Hpos & Hst & Hst'). rewrite Hpos, Hid, IHid.
  split_and!; [done..|]. constructor; [rewrite Hid; set_solver|].
  eapply Forall_impl; [exact IHall|]. set_solver.
Qed.

(** The selected identities name live queued jobs, and no active one. *)
Lemma selected_is_live input chosen :
  checked_input input → chosen ⊆+ live_requests input →
  let ids := sel_request_id <$> (selection_of (qi_observed_at input) <$> chosen) in
  (∀ r, r ∈ qi_queued input → rq_id r ∈ ids → is_cancelled (rq_cancellation r) = false) ∧
  (∀ id, id ∈ ids → id ∉ ac_id <$> qi_active input).
Proof.
  intros Hin Hsub ids. assert (∀ id, id ∈ ids → ∃ c, id = rq_id c ∧ c ∈ qi_queued input ∧
    is_cancelled (rq_cancellation c) = false) as Hids.
  { subst ids. rewrite <-list_fmap_compose. intros id (c & -> & Hc)%list_elem_of_fmap.
    exists c. eapply elem_of_submseteq in Hc; [|done].
    apply list_elem_of_In, List.filter_In in Hc as [Hc Hl]. rewrite list_elem_of_In. by bprop. }
  pose proof (ci_nodup _ Hin) as Hnd. apply NoDup_app in Hnd as (Hnd & Hdis & _). split.
  - intros r Hr (c & Heq & Hc & Hl)%Hids.
    by rewrite (NoDup_fmap_inj rq_id _ r c Hnd Hr Hc Heq).
  - intros id (c & -> & Hc & _)%Hids. apply Hdis. by apply list_elem_of_fmap_2.
Qed.

(** The visibility report is complete: it has one entry per queued and
    active job, the waiting jobs are numbered 1, 2, ... in the order listed and
    nothing else carries a number, and the entries marked selected are the
    selected jobs. *)
Theorem visibility_complete (input : PersonalWorkerQueueInput)
    (previous : option PersonalWorkerQueueDecision) (d : PersonalWorkerQueueDecision)
    (Hd : evaluate_personal_worker_queue input previous = Ok d) :
  (vis_request_id <$> qd_visibility d)
    ≡ₚ (rq_id <$> qi_queued input) ++ (ac_id <$> qi_active input) ∧
  NoDup (vis_request_id <$> qd_visibility d) ∧
  (∃ n, omap vis_queue_position (qd_visibility d) = N.of_nat <$> seq 1 n) ∧
  Forall (λ v, (is_Some (vis_queue_position v) ↔ vis_state v = EntryQueued) ∧
               (vis_state v = EntrySelected ↔
                vis_request_id v ∈ sel_request_id <$> qd_selected d)) (qd_visibility d).
Proof.
  apply evaluate_Ok in Hd as (Hin & chosen & vis & Hg & _ & Hvis & ->). simpl.
  pose proof (selected_is_live _ _ Hin (greedy_submseteq _ _ _ _ Hg)) as [Hlive Hfree].
  pose proof (ci_nodup _ Hin) as Hall. pose proof Hall as Hnd. apply NoDup_app in Hnd as (Hnd & _).
  unfold build_visibility in Hvis. apply bind_Ok in Hvis as (vs & Hvs & Hvis).
  apply active_entries in Hvs as (Hids & Hpos & Hact).
  match type of Hvis with Ok ((queued_visibility _ ?ids _ _ _ <$> ?q) ++ _) = _ =>
    set (queued := q) in *; set (selected_ids := ids) in * end.
  assert (queued ≡ₚ qi_queued input) as Hq by apply sort_by_Permutation.
  destruct (positions_reported (λ request, negb (is_cancelled (rq_cancellation request))
    && negb (bool_decide (rq_id request ∈ selected_ids))) queued) as [Hseq Hwait].
  { by rewrite Hq. } { rewrite Hq. apply Hin. }
  injection Hvis as <-.
  assert (∀ entry : PersonalWorkerJobRequest → PersonalWorkerQueueVisibility,
    (∀ r, vis_request_id (entry r) = rq_id r) →
    vis_request_id <$> (entry <$> queued) ++ vs
    ≡ₚ (rq_id <$> qi_queued input) ++ (ac_id <$> qi_active input)) as Hperm.
  { intros entry Hentry. rewrite fmap_app, Hids, <-list_fmap_compose. apply Permutation_app_tail.
    rewrite <-Hq. erewrite list_fmap_ext; [done|]. intros i r _. apply Hentry. }
  split_and!; [by apply Hperm|by rewrite Hperm| |].
  - eexists. rewrite omap_app_list, Hpos, app_nil_r, omap_fmap_list. exact Hseq.
  - apply Forall_app. split; [|eapply Forall_impl; [exact Hact|]].
    + apply Forall_fmap, Forall_forall. intros r Hr. simpl. rewrite Hwait by done.
      rewrite Hq in Hr. specialize (Hlive r Hr).
      assert (rq_id r ∈ selected_ids ↔ rq_id r ∈ sel_request_id <$>
        (selection_of (qi_observed_at input) <$> chosen)) as Hsel by apply elem_of_list_to_set.
      rewrite <-Hsel in *. case_bool_decide as Hin'.
      * by rewrite Hlive.
      * by destruct (is_cancelled _).
    + intros v (Hp & Hs & Hs' & Hid). rewrite Hp. split; [split; [by intros []|done]|].
      split; [done|]. intros Hc. by apply Hfree in Hc.
Qed.

(** ** A sample queue, and the theorems at it *)

Definition sample_object_id : string := "0123456789abcdef0123456789abcdef01234567".

Definition sample_digest : string :=
  "sha256:0123456789abcdef0123456789abcdef0123456789abcdef0123456789abcdef".

(** A job of repository [acme/<id>] with its own build cache. *)
Definition sample_job (id : string) (priority : PersonalWorkerPriority) (cpu : N)
    (cancellation : PersonalWorkerCancellationState) : PersonalWorkerJobRequest :=
  mkRequest (mkIdentity id "verify" "mini") (mkSource ("acme/" +:+ id) sample_object_id sample_object_id) priority
    (mkLimits cpu 1073741824 256)
    (RepositoryBuild "build" ("acme/" +:+ id) sample_digest) Write
    1000 None cancellation (Eligible "spare").

Definition job_a := sample_job "job-a" PriorityNormal 3000 CancellationActive.
Definition job_b := sample_job "job-b" PriorityNormal 2000 CancellationActive.
Definition job_c := sample_job "job-c" PriorityInteractive 2000 CancellationActive.
Definition job_d := sample_job "job-d" PriorityInteractive 7000 CancellationActive.
Definition job_e := sample_job "job-e" PriorityInteractive 2000 (CancellationCancelled 1100).

Definition sample_active : PersonalWorkerActiveReservation :=
  mkActive job_a (sample_record Reserved 1200 None None) None.

(** [job_a] holds the worker; two light jobs, a heavy one and a cancelled one
    are queued. *)
Definition sample_queue : PersonalWorkerQueueInput :=
  mkQueueInput 1 1300 (ProfileObserved ProfileWork) (ActivityObserved 1200)
    [job_b; job_c; job_d; job_e] [sample_active] None.

Definition sample_decision : PersonalWorkerQueueDecision :=
  match evaluate_personal_worker_queue sample_queue None with
  | Ok d => d
  | _ => mkDecision 0 0 0 ProfileUnobserved ActivityNever ProfileStopped false false 0 0 0 [] []
  end.

Lemma sample_evaluates : evaluate_personal_worker_queue sample_queue None = Ok sample_decision.
Proof. vm_compute. reflexivity. Qed.

Lemma sample_selection : sel_request_id <$> qd_selected sample_decision = ["job-c"].
Proof. vm_compute. reflexivity. Qed.

Lemma sample_job_b_fits : fits_worker ((active_jobs_of sample_queue ++ []) ++ [job_b]).
Proof.
  constructor.
  - apply Nat.leb_le. vm_compute. reflexivity.
  - apply N.leb_le. vm_compute. reflexivity.
  - apply N.leb_le. vm_compute. reflexivity.
  - apply N.leb_le. vm_compute. reflexivity.
  - intros r Hr Hh. repeat (apply elem_of_cons in Hr as [->|Hr]; [vm_compute in Hh; discriminate|]).
    by apply elem_of_nil in Hr.
  - apply FOP_cons; [apply Forall_singleton|repeat constructor].
    intros H. discriminate H.
Qed.

Lemma evaluate_refines_greedy_witness :
  ∃ chosen, qd_selected sample_decision = selection_of 1300 <$> chosen ∧
    greedy 1300 [job_a] [job_b; job_c; job_d] chosen.
Proof.
  destruct (evaluate_refines_greedy sample_queue None sample_decision sample_evaluates)
    as (chosen & H1 & H2 & _).
  exact (ex_intro _ chosen (conj H1 H2)).
Defined.

Lemma evaluate_never_overcommits_witness :
  ∃ chosen, qd_selected sample_decision = selection_of 1300 <$> chosen ∧
    fits_worker (job_a :: chosen).
Proof.
  destruct (evaluate_never_overcommits sample_queue None sample_decision sample_evaluates)
    as (chosen & H1 & _ & H2 & _).
  exact (ex_intro _ chosen (conj H1 H2)).
Defined.

Lemma evaluate_work_conserving_witness :
  ∃ chosen, qd_selected sample_decision = selection_of 1300 <$> chosen ∧
    ¬ fits_worker ((job_a :: chosen) ++ [job_b]).
Proof.
  exact (evaluate_work_conserving sample_queue None sample_decision job_b sample_evaluates
    ltac:(vm_compute; left)
    ltac:(rewrite sample_selection; intros H; vm_compute in H; by apply list_elem_of_singleton in H)).
Defined.

Lemma evaluate_no_priority_inversion_witness :
  effective_priority job_b 1300 ≤ effective_priority job_c 1300.
Proof.
  exact (proj2 (evaluate_no_priority_inversion sample_queue None sample_decision [] [] job_c job_b
    sample_evaluates ltac:(vm_compute; reflexivity)
    ltac:(vm_compute; apply submseteq_cons, submseteq_skip, submseteq_nil_l)
    ltac:(vm_compute; left)
    ltac:(intros H; apply list_elem_of_singleton in H; discriminate H) sample_job_b_fits)).
Defined.

Lemma evaluate_order_independent_witness :
  evaluate_personal_worker_queue (with_queued sample_queue [job_c; job_b; job_d; job_e]) None
    = Ok sample_decision.
Proof.
  exact (evaluate_order_independent sample_queue None sample_decision
    [job_c; job_b; job_d; job_e] sample_evaluates (Permutation_swap _ _ _)).
Defined.

Lemma visibility_complete_witness : NoDup (vis_request_id <$> qd_visibility sample_decision).
Proof.
  exact (proj1 (proj2 (visibility_complete sample_queue None sample_decision sample_evaluates))).
Defined.
