(* ===== verification/StoreWire.v ===== *)
(** * The wire form of the personal-worker store

    The second half of [src/src/personal_worker_store.rs]: the private [Wire*]
    structs that are serialized, and the [From]/[TryFrom] conversions between
    them and the typed values.  A conversion [T::from] is [Wire…_from], a
    conversion [TryFrom<Wire…>] is [Wire…_try_into].  The class [WireIso]
    states what each pair promises to the codec: the fallible direction accepts
    exactly the images of well-formed values, and undoes the other. *)

From S2P Require Import Prelude Artifact ExecutionAdmission AdmissionLifecycle PidCapacity WorkerQueue.

Local Open Scope N_scope.

(** ** Errors *)

Inductive PersonalWorkerStoreErrorKind :=
| InvalidDocument
| RevisionConflict
| Busy
| Missing
| Io
| UnsafeFilesystem
| VersionIncompatible
| CorruptState.

#[export] Instance store_error_kind_eq_dec : EqDecision PersonalWorkerStoreErrorKind.
Proof. solve_decision. Defined.

Record PersonalWorkerStoreError := mkStoreError {
  pse_kind : PersonalWorkerStoreErrorKind;
  pse_message : string;
}.

#[export] Instance store_error_eq_dec : EqDecision PersonalWorkerStoreError.
Proof. solve_decision. Defined.

Definition invalid_document (message : string) : PersonalWorkerStoreError :=
  mkStoreError InvalidDocument message.

Definition revision_conflict (message : string) : PersonalWorkerStoreError :=
  mkStoreError RevisionConflict message.

Definition version_incompatible : PersonalWorkerStoreError :=
  mkStoreError VersionIncompatible "durable personal worker state schema is incompatible".

Definition corrupt_state : PersonalWorkerStoreError :=
  mkStoreError CorruptState "durable personal worker state is corrupt or noncanonical".

(** ** Typed values the wire forms carry *)

Record VerificationProfileError := mkProfileError {
  vpe_field : string;
  vpe_code : string;
  vpe_problem : string;
}.

(** [validate_identifier] of [verification_profile.rs]. *)
Definition profile_validate_identifier (field value : string) (maximum_length : N)
    : result VerificationProfileError () :=
  let valid := negb (str_is_empty value)
    && (str_len value <=? maximum_length)
    && bytes_all (λ byte, is_ascii_alphanumeric byte || is_identifier_punctuation byte) value in
  if valid then Ok ()
  else Err (mkProfileError field "invalid_identifier"
         "must use bounded ASCII letters, digits, '.', '_', or '-'").

(** [parse] of [identifier_type!] in [verification_profile.rs]. *)
Definition profile_identifier_parse (field : string) (maximum_length : N) (value : string)
    : result VerificationProfileError string :=
  _ ← profile_validate_identifier field value maximum_length; Ok value.

Definition VerificationProfileId_parse := profile_identifier_parse "profile.id" 64.
Definition CacheId_parse := profile_identifier_parse "cache.id" 96.

Record PersonalWorkerDurableCacheLease := mkLease {
  cl_request_id : ExecutionRequestId;
  cl_namespace : PersonalWorkerCacheNamespace;
  cl_access : PersonalWorkerCacheAccessMode;
  cl_reservation_id : ReservationId;
  cl_reservation_generation : ReservationGeneration;
  cl_acquired_at : EpochMillis;
}.

#[export] Instance cache_lease_eq_dec : EqDecision PersonalWorkerDurableCacheLease.
Proof. solve_decision. Defined.

Inductive PersonalWorkerTerminalMutationClass :=
| ReleaseCompletionAndCacheLease.

#[export] Instance mutation_class_eq_dec : EqDecision PersonalWorkerTerminalMutationClass.
Proof. solve_decision. Defined.

(** ** The promise of a conversion pair *)

(** [try_into] accepts exactly the images under [from] of the well-formed
    values, and returns the value. *)
Class WireIso {A W} (wf : A → Prop) (from : A → W)
    (try_into : W → result PersonalWorkerStoreError A) : Prop :=
  wire_iso w a : try_into w = Ok a ↔ wf a ∧ from a = w.

Section combinators.
Context {A W : Type} (wf : A → Prop) (from : A → W)
  (try_into : W → result PersonalWorkerStoreError A) `{!WireIso wf from try_into}.

#[export] Instance wire_option :
  WireIso (λ o, ∀ a, o = Some a → wf a) (fmap (M := option) from) (traverse_option try_into).
Proof.
  intros [w|] o; simpl.
  - rewrite bind_Ok. split.
    + intros (a & [Ha <-]%wire_iso & [= <-]). split; [|done]. by intros ? [= <-].
    + intros [Hwf Ho]. destruct o as [a|]; [|done]. simpl in Ho. injection Ho as <-.
      exists a. split; [|done]. apply wire_iso. auto.
  - split; [by intros [= <-]|]. by destruct o as [a|]; intros [_ ?].
Qed.

#[export] Instance wire_list : WireIso (Forall wf) (fmap (M := list) from) (traverse try_into).
Proof.
  intros ws l. rewrite traverse_Ok. revert l.
  induction ws as [|w ws IH]; intros l.
  - split; [inversion 1; auto|]. intros [_ Hl]. apply fmap_nil_inv in Hl as ->. constructor.
  - split.
    + inversion 1 as [|? a ? as_ Ha Hs]; subst. apply wire_iso in Ha as [Ha <-].
      apply IH in Hs as [Hs <-]. by split; [constructor|].
    + intros [Hl Heq]. destruct l as [|a l]; [done|]. csimpl in Heq. injection Heq as <- Heq.
      apply Forall_cons in Hl as [Ha Hl]. constructor; [|by apply IH]. by apply wire_iso.
Qed.
End combinators.

(** A newtype over [String] or over an integer: the wire form is the raw
    value, the typed one what its constructor accepts. *)
Definition newtype {E A} (new : A → result E A) (raw : A) : result PersonalWorkerStoreError A :=
  map_err (λ _, corrupt_state) (new raw).

(** Rewrite rules that cancel the infallible conversions. *)
Create HintDb wire discriminated.

#[export] Instance wire_newtype {E A} (new : A → result E A) `{!KeepsRaw new} :
  WireIso (accepted new) id (newtype new).
Proof.
  intros w a. unfold newtype, accepted. rewrite map_err_Ok. simpl. split.
  - intros H. apply keeps_raw in H as Ha. by subst.
  - by intros [H <-].
Qed.

(** [wire_struct] proves the promise of a struct from those of its fields. *)
Ltac wire_fields H :=
  repeat lazymatch type of H with
  | (_ ≫= _) = Ok _ =>
      let y := fresh "y" in let Hy := fresh "Hy" in let Hwf := fresh "Hwf" in
      apply bind_Ok in H as (y & Hy & H); apply wire_iso in Hy as [Hwf Hy]
  end.

Ltac wire_build :=
  repeat lazymatch goal with
  | |- (_ ≫= _) = Ok _ =>
      apply bind_Ok; eexists; split;
      [apply wire_iso; split; [|reflexivity]; simpl; tauto|]
  end; simpl; autorewrite with wire; reflexivity.

Tactic Notation "wire_struct" reference(try_into) reference(from) reference(wf) :=
  let w := fresh "w" in let a := fresh "a" in let H := fresh "H" in
  intros w a; unfold try_into, wf; split;
  [ intros H; wire_fields H; injection H as <-; destruct w; simpl in *; subst;
    split; [simpl; tauto|unfold from; simpl; autorewrite with wire; reflexivity]
  | intros [H <-]; destruct a; simpl in *; wire_build ].

(** ** Enums ([wire_enum!]) *)

Inductive WirePriority :=
| WirePriorityBackground
| WirePriorityNormal
| WirePriorityInteractive.

Definition WirePriority_from (value : PersonalWorkerPriority) : WirePriority :=
  match value with
  | PriorityBackground => WirePriorityBackground
  | PriorityNormal => WirePriorityNormal
  | PriorityInteractive => WirePriorityInteractive
  end.

Definition WirePriority_into (value : WirePriority) : PersonalWorkerPriority :=
  match value with
  | WirePriorityBackground => PriorityBackground
  | WirePriorityNormal => PriorityNormal
  | WirePriorityInteractive => PriorityInteractive
  end.

Lemma WirePriority_from_into w : WirePriority_from (WirePriority_into w) = w.
Proof. by destruct w. Qed.

Lemma WirePriority_into_from a : WirePriority_into (WirePriority_from a) = a.
Proof. by destruct a. Qed.

#[export] Hint Rewrite WirePriority_from_into WirePriority_into_from : wire.

Inductive WireProfile :=
| WireProfileStopped
| WireProfileInteractive
| WireProfileWork.

Definition WireProfile_from (value : PersonalWorkerProfile) : WireProfile :=
  match value with
  | ProfileStopped => WireProfileStopped
  | ProfileInteractive => WireProfileInteractive
  | ProfileWork => WireProfileWork
  end.

Definition WireProfile_into (value : WireProfile) : PersonalWorkerProfile :=
  match value with
  | WireProfileStopped => ProfileStopped
  | WireProfileInteractive => ProfileInteractive
  | WireProfileWork => ProfileWork
  end.

Lemma WireProfile_from_into w : WireProfile_from (WireProfile_into w) = w.
Proof. by destruct w. Qed.

Lemma WireProfile_into_from a : WireProfile_into (WireProfile_from a) = a.
Proof. by destruct a. Qed.

#[export] Hint Rewrite WireProfile_from_into WireProfile_into_from : wire.

Inductive WireProfileObservation :=
| WireUnobserved
| WireObserved (profile : WireProfile).

Definition WireProfileObservation_from (value : PersonalWorkerProfileObservation)
    : WireProfileObservation :=
  match value with
  | ProfileUnobserved => WireUnobserved
  | ProfileObserved profile => WireObserved (WireProfile_from profile)
  end.

Definition WireProfileObservation_into (value : WireProfileObservation)
    : PersonalWorkerProfileObservation :=
  match value with
  | WireUnobserved => ProfileUnobserved
  | WireObserved profile => ProfileObserved (WireProfile_into profile)
  end.

Lemma WireProfileObservation_from_into w : WireProfileObservation_from (WireProfileObservation_into w) = w.
Proof. by destruct w as [|[]]. Qed.

Lemma WireProfileObservation_into_from a : WireProfileObservation_into (WireProfileObservation_from a) = a.
Proof. by destruct a as [|[]]. Qed.

#[export] Hint Rewrite WireProfileObservation_from_into WireProfileObservation_into_from : wire.

Inductive WireCacheAccess :=
| WireAccessRead
| WireAccessWrite
| WireAccessExclusive.

Definition WireCacheAccess_from (value : PersonalWorkerCacheAccessMode) : WireCacheAccess :=
  match value with
  | Read => WireAccessRead
  | Write => WireAccessWrite
  | Exclusive => WireAccessExclusive
  end.

Definition WireCacheAccess_into (value : WireCacheAccess) : PersonalWorkerCacheAccessMode :=
  match value with
  | WireAccessRead => Read
  | WireAccessWrite => Write
  | WireAccessExclusive => Exclusive
  end.

Lemma WireCacheAccess_from_into w : WireCacheAccess_from (WireCacheAccess_into w) = w.
Proof. by destruct w. Qed.

Lemma WireCacheAccess_into_from a : WireCacheAccess_into (WireCacheAccess_from a) = a.
Proof. by destruct a. Qed.

#[export] Hint Rewrite WireCacheAccess_from_into WireCacheAccess_into_from : wire.

Inductive WireAdmissionState :=
| WireStateRequested
| WireStateAdmitted
| WireStateQueued
| WireStateReserved
| WireStateStarting
| WireStateRunning
| WireStateDraining
| WireStateUnavailable.

Definition WireAdmissionState_from (value : ExecutionAdmissionState) : WireAdmissionState :=
  match value with
  | Requested => WireStateRequested
  | StateAdmitted => WireStateAdmitted
  | Queued => WireStateQueued
  | Reserved => WireStateReserved
  | Starting => WireStateStarting
  | Running => WireStateRunning
  | Draining => WireStateDraining
  | Unavailable => WireStateUnavailable
  end.

Definition WireAdmissionState_into (value : WireAdmissionState) : ExecutionAdmissionState :=
  match value with
  | WireStateRequested => Requested
  | WireStateAdmitted => StateAdmitted
  | WireStateQueued => Queued
  | WireStateReserved => Reserved
  | WireStateStarting => Starting
  | WireStateRunning => Running
  | WireStateDraining => Draining
  | WireStateUnavailable => Unavailable
  end.

Lemma WireAdmissionState_from_into w : WireAdmissionState_from (WireAdmissionState_into w) = w.
Proof. by destruct w. Qed.

Lemma WireAdmissionState_into_from a : WireAdmissionState_into (WireAdmissionState_from a) = a.
Proof. by destruct a. Qed.

#[export] Hint Rewrite WireAdmissionState_from_into WireAdmissionState_into_from : wire.

Inductive WireAcknowledgement :=
| WireAckCancellation
| WireAckDrain.

Definition WireAcknowledgement_from (value : DrainAcknowledgement) : WireAcknowledgement :=
  match value with
  | Cancellation => WireAckCancellation
  | Drain => WireAckDrain
  end.

Definition WireAcknowledgement_into (value : WireAcknowledgement) : DrainAcknowledgement :=
  match value with
  | WireAckCancellation => Cancellation
  | WireAckDrain => Drain
  end.

Lemma WireAcknowledgement_from_into w : WireAcknowledgement_from (WireAcknowledgement_into w) = w.
Proof. by destruct w. Qed.

Lemma WireAcknowledgement_into_from a : WireAcknowledgement_into (WireAcknowledgement_from a) = a.
Proof. by destruct a. Qed.

#[export] Hint Rewrite WireAcknowledgement_from_into WireAcknowledgement_into_from : wire.

Inductive WireUnavailableReason :=
| WireReasonAdmissionRejected
| WireReasonCapacityUnavailable
| WireReasonHostUnavailable
| WireReasonReservationExpired
| WireReasonCancelled
| WireReasonDrained.

Definition WireUnavailableReason_from (value : UnavailableReason) : WireUnavailableReason :=
  match value with
  | AdmissionRejected => WireReasonAdmissionRejected
  | CapacityUnavailable => WireReasonCapacityUnavailable
  | HostUnavailable => WireReasonHostUnavailable
  | ReservationExpired => WireReasonReservationExpired
  | Cancelled => WireReasonCancelled
  | Drained => WireReasonDrained
  end.

Definition WireUnavailableReason_into (value : WireUnavailableReason) : UnavailableReason :=
  match value with
  | WireReasonAdmissionRejected => AdmissionRejected
  | WireReasonCapacityUnavailable => CapacityUnavailable
  | WireReasonHostUnavailable => HostUnavailable
  | WireReasonReservationExpired => ReservationExpired
  | WireReasonCancelled => Cancelled
  | WireReasonDrained => Drained
  end.

Lemma WireUnavailableReason_from_into w : WireUnavailableReason_from (WireUnavailableReason_into w) = w.
Proof. by destruct w. Qed.

Lemma WireUnavailableReason_into_from a : WireUnavailableReason_into (WireUnavailableReason_from a) = a.
Proof. by destruct a. Qed.

#[export] Hint Rewrite WireUnavailableReason_from_into WireUnavailableReason_into_from : wire.

Inductive WireTerminalMutationClass :=
| WireClassReleaseCompletionAndCacheLease.

Definition WireTerminalMutationClass_from (value : PersonalWorkerTerminalMutationClass) : WireTerminalMutationClass :=
  match value with
  | ReleaseCompletionAndCacheLease => WireClassReleaseCompletionAndCacheLease
  end.

Definition WireTerminalMutationClass_into (value : WireTerminalMutationClass) : PersonalWorkerTerminalMutationClass :=
  match value with
  | WireClassReleaseCompletionAndCacheLease => ReleaseCompletionAndCacheLease
  end.

Lemma WireTerminalMutationClass_from_into w : WireTerminalMutationClass_from (WireTerminalMutationClass_into w) = w.
Proof. by destruct w. Qed.

Lemma WireTerminalMutationClass_into_from a : WireTerminalMutationClass_into (WireTerminalMutationClass_from a) = a.
Proof. by destruct a. Qed.

#[export] Hint Rewrite WireTerminalMutationClass_from_into WireTerminalMutationClass_into_from : wire.

(** ** Newtypes *)

#[export] Instance identifier_keeps field : KeepsRaw (identifier_parse field).
Proof. intros raw a H. unfold identifier_parse in H. inv_ok H. congruence. Qed.

#[export] Instance profile_identifier_keeps field max : KeepsRaw (profile_identifier_parse field max).
Proof. intros raw a H. unfold profile_identifier_parse in H. inv_ok H. congruence. Qed.

#[export] Instance parse_keeps_raw {E} (parse : string → result E string) `{!ParseKeeps parse} :
  KeepsRaw parse.
Proof. intros raw a H. by apply parse_keeps in H. Qed.

#[export] Instance request_id_keeps : KeepsRaw ExecutionRequestId_parse := identifier_keeps _.
#[export] Instance runner_profile_id_keeps : KeepsRaw RunnerProfileId_parse := identifier_keeps _.
#[export] Instance reservation_id_keeps : KeepsRaw ReservationId_parse := identifier_keeps _.
#[export] Instance verification_profile_id_keeps : KeepsRaw VerificationProfileId_parse :=
  profile_identifier_keeps _ _.
#[export] Instance cache_id_keeps : KeepsRaw CacheId_parse := profile_identifier_keeps _ _.

#[export] Instance epoch_keeps : KeepsRaw EpochMillis_new.
Proof. intros raw a H. unfold EpochMillis_new in H. inv_ok H. congruence. Qed.

#[export] Instance reservation_generation_keeps : KeepsRaw ReservationGeneration_new.
Proof. intros raw a H. unfold ReservationGeneration_new in H. inv_ok H. congruence. Qed.

#[export] Instance queue_generation_keeps : KeepsRaw QueueGeneration_new.
Proof. intros raw a H. unfold QueueGeneration_new in H. inv_ok H. congruence. Qed.

(** [fn epoch]. *)
Definition epoch (value : N) : result PersonalWorkerStoreError EpochMillis :=
  map_err (λ _, corrupt_state) (EpochMillis_new value).

#[export] Instance epoch_iso : WireIso (accepted EpochMillis_new) id epoch.
Proof. apply (wire_newtype EpochMillis_new). Qed.

(** [Option<u64>] fields that hold a time. *)
#[export] Instance epoch_option_iso :
  WireIso (λ o, ∀ t, o = Some t → accepted EpochMillis_new t) id (traverse_option epoch).
Proof.
  intros w a. rewrite (wire_option _ id epoch w a). by destruct a.
Qed.

(** ** Structs *)

Inductive WireActivityEvidence :=
| WireNever
| WireActivityObserved (last_activity_at : N).

Definition WireActivityEvidence_from (value : PersonalWorkerActivityEvidence)
    : WireActivityEvidence :=
  match value with
  | ActivityNever => WireNever
  | ActivityObserved at_ => WireActivityObserved at_
  end.

Definition WireActivityEvidence_try_into (value : WireActivityEvidence)
    : result PersonalWorkerStoreError PersonalWorkerActivityEvidence :=
  match value with
  | WireNever => Ok ActivityNever
  | WireActivityObserved at_ => at_ ← epoch at_; Ok (ActivityObserved at_)
  end.

Definition activity_wf (value : PersonalWorkerActivityEvidence) : Prop :=
  match value with
  | ActivityNever => True
  | ActivityObserved at_ => accepted EpochMillis_new at_
  end.

(** [wire_cases] proves the promise of an enum with fields. *)
Ltac wire_cases :=
  let w := fresh "w" in let a := fresh "a" in let H := fresh "H" in
  intros w a; split;
  [ intros H; destruct w; simpl in H; wire_fields H; injection H as <-; simpl in *; subst;
    (split; [simpl; tauto|reflexivity])
  | intros [H <-]; destruct a; simpl in *; wire_build ].

#[export] Instance WireActivityEvidence_iso :
  WireIso activity_wf WireActivityEvidence_from WireActivityEvidence_try_into.
Proof. wire_cases. Qed.

Record WireIdentity := mkWireIdentity {
  wi_request_id : string;
  wi_verification_profile_id : string;
  wi_runner_profile_id : string;
}.

Definition WireIdentity_from (value : ExecutionAdmissionIdentity) : WireIdentity :=
  mkWireIdentity (request_id value) (verification_profile_id value) (runner_profile_id value).

Definition WireIdentity_try_into (value : WireIdentity)
    : result PersonalWorkerStoreError ExecutionAdmissionIdentity :=
  request ← newtype ExecutionRequestId_parse (wi_request_id value);
  profile ← newtype VerificationProfileId_parse (wi_verification_profile_id value);
  runner ← newtype RunnerProfileId_parse (wi_runner_profile_id value);
  Ok (mkIdentity request profile runner).

Definition identity_wf (i : ExecutionAdmissionIdentity) : Prop :=
  accepted ExecutionRequestId_parse (request_id i) ∧
  accepted VerificationProfileId_parse (verification_profile_id i) ∧
  accepted RunnerProfileId_parse (runner_profile_id i).

#[export] Instance WireIdentity_iso :
  WireIso identity_wf WireIdentity_from WireIdentity_try_into.
Proof. wire_struct WireIdentity_try_into WireIdentity_from identity_wf. Qed.

Record WireLimits := mkWireLimits {
  wl_cpu_millis : N;
  wl_memory_bytes : N;
  wl_pids : N;
}.

Definition WireLimits_from (value : ExecutionResourceLimits) : WireLimits :=
  mkWireLimits (cpu_millis value) (memory_bytes value) (pids value).

Definition WireLimits_try_into (value : WireLimits)
    : result PersonalWorkerStoreError ExecutionResourceLimits :=
  map_err (λ _, corrupt_state)
    (ExecutionResourceLimits_new (wl_cpu_millis value) (wl_memory_bytes value) (wl_pids value)).

Definition limits_wf (l : ExecutionResourceLimits) : Prop :=
  in_range 1 MAX_CPU_MILLIS (cpu_millis l) = true ∧
  in_range 1 MAX_MEMORY_BYTES (memory_bytes l) = true ∧
  in_range 1 MAX_PIDS (pids l) = true.

#[export] Instance WireLimits_iso : WireIso limits_wf WireLimits_from WireLimits_try_into.
Proof.
  intros [c m p] a. unfold WireLimits_try_into, limits_wf, ExecutionResourceLimits_new.
  rewrite map_err_Ok. simpl. split.
  - destruct (in_range _ _ c) eqn:Hc; [|done]. destruct (in_range _ _ m) eqn:Hm; [|done].
    destruct (in_range _ _ p) eqn:Hp; [|done]. intros [= <-]. auto.
  - intros [(H1 & H2 & H3) [= <- <- <-]]. rewrite H1, H2, H3. by destruct a.
Qed.

Record WireSource := mkWireSource {
  wso_repository : string;
  wso_commit : string;
  wso_tree : string;
}.

Definition WireSource_from (value : PersonalWorkerSourceIdentity) : WireSource :=
  mkWireSource (repository value) (commit value) (tree value).

Definition WireSource_try_into (value : WireSource)
    : result PersonalWorkerStoreError PersonalWorkerSourceIdentity :=
  repository ← newtype RepositoryRef_parse (wso_repository value);
  commit ← newtype CommitId_parse (wso_commit value);
  tree ← newtype GitTreeId_parse (wso_tree value);
  Ok (mkSource repository commit tree).

Definition source_wf (s : PersonalWorkerSourceIdentity) : Prop :=
  accepted RepositoryRef_parse (repository s) ∧ accepted CommitId_parse (commit s) ∧
  accepted GitTreeId_parse (tree s).

#[export] Instance WireSource_iso : WireIso source_wf WireSource_from WireSource_try_into.
Proof. wire_struct WireSource_try_into WireSource_from source_wf. Qed.

Inductive WireCacheNamespace :=
| WireRepositoryBuild (cache_id cache_repository namespace_digest : string)
| WireSharedDownload (cache_id namespace_digest : string).

Definition WireCacheNamespace_from (value : PersonalWorkerCacheNamespace) : WireCacheNamespace :=
  match value with
  | RepositoryBuild cache_id cache_repository namespace_digest =>
      WireRepositoryBuild cache_id cache_repository namespace_digest
  | SharedDownload cache_id namespace_digest => WireSharedDownload cache_id namespace_digest
  end.

Definition WireCacheNamespace_try_into (value : WireCacheNamespace)
    : result PersonalWorkerStoreError PersonalWorkerCacheNamespace :=
  match value with
  | WireRepositoryBuild cache_id cache_repository namespace_digest =>
      cache_id ← newtype CacheId_parse cache_id;
      cache_repository ← newtype RepositoryRef_parse cache_repository;
      namespace_digest ← newtype Sha256Digest_parse namespace_digest;
      Ok (RepositoryBuild cache_id cache_repository namespace_digest)
  | WireSharedDownload cache_id namespace_digest =>
      cache_id ← newtype CacheId_parse cache_id;
      namespace_digest ← newtype Sha256Digest_parse namespace_digest;
      Ok (SharedDownload cache_id namespace_digest)
  end.

Definition namespace_wf (n : PersonalWorkerCacheNamespace) : Prop :=
  match n with
  | RepositoryBuild cache_id cache_repository namespace_digest =>
      accepted CacheId_parse cache_id ∧ accepted RepositoryRef_parse cache_repository ∧
      accepted Sha256Digest_parse namespace_digest
  | SharedDownload cache_id namespace_digest =>
      accepted CacheId_parse cache_id ∧ accepted Sha256Digest_parse namespace_digest
  end.

#[export] Instance WireCacheNamespace_iso :
  WireIso namespace_wf WireCacheNamespace_from WireCacheNamespace_try_into.
Proof. wire_cases. Qed.

Inductive WireCancellation :=
| WireCancellationActive
| WireCancellationCancelled (cancelled_at : N).

Definition WireCancellation_from (value : PersonalWorkerCancellationState) : WireCancellation :=
  match value with
  | CancellationActive => WireCancellationActive
  | CancellationCancelled cancelled_at => WireCancellationCancelled cancelled_at
  end.

Definition WireCancellation_try_into (value : WireCancellation)
    : result PersonalWorkerStoreError PersonalWorkerCancellationState :=
  match value with
  | WireCancellationActive => Ok CancellationActive
  | WireCancellationCancelled cancelled_at =>
      cancelled_at ← epoch cancelled_at; Ok (CancellationCancelled cancelled_at)
  end.

Definition cancellation_wf (c : PersonalWorkerCancellationState) : Prop :=
  match c with
  | CancellationActive => True
  | CancellationCancelled cancelled_at => accepted EpochMillis_new cancelled_at
  end.

#[export] Instance WireCancellation_iso :
  WireIso cancellation_wf WireCancellation_from WireCancellation_try_into.
Proof. wire_cases. Qed.

Inductive WireFallback :=
| WireEligible (runner_profile_id : string)
| WireIneligible.

Definition WireFallback_from (value : FallbackProfileEligibility) : WireFallback :=
  match value with
  | Eligible runner_profile_id => WireEligible runner_profile_id
  | Ineligible => WireIneligible
  end.

Definition WireFallback_try_into (value : WireFallback)
    : result PersonalWorkerStoreError FallbackProfileEligibility :=
  match value with
  | WireEligible runner_profile_id =>
      runner ← newtype RunnerProfileId_parse runner_profile_id; Ok (Eligible runner)
  | WireIneligible => Ok Ineligible
  end.

Definition fallback_wf (f : FallbackProfileEligibility) : Prop :=
  match f with
  | Eligible runner => accepted RunnerProfileId_parse runner
  | Ineligible => True
  end.

#[export] Instance WireFallback_iso : WireIso fallback_wf WireFallback_from WireFallback_try_into.
Proof. wire_cases. Qed.

Record WireRequest := mkWireRequest {
  wr_identity : WireIdentity;
  wr_source : WireSource;
  wr_priority : WirePriority;
  wr_requested_limits : WireLimits;
  wr_cache_namespace : WireCacheNamespace;
  wr_cache_access : WireCacheAccess;
  wr_submitted_at : N;
  wr_operator_deadline : option N;
  wr_cancellation : WireCancellation;
  wr_fallback_eligibility : WireFallback;
}.

Definition WireRequest_from (value : PersonalWorkerJobRequest) : WireRequest :=
  mkWireRequest (WireIdentity_from (rq_identity value)) (WireSource_from (rq_source value))
    (WirePriority_from (rq_priority value)) (WireLimits_from (rq_requested_limits value))
    (WireCacheNamespace_from (rq_cache_namespace value))
    (WireCacheAccess_from (rq_cache_access value)) (rq_submitted_at value)
    (rq_operator_deadline value) (WireCancellation_from (rq_cancellation value))
    (WireFallback_from (rq_fallback_eligibility value)).

Definition WireRequest_try_into (value : WireRequest)
    : result PersonalWorkerStoreError PersonalWorkerJobRequest :=
  identity ← WireIdentity_try_into (wr_identity value);
  source ← WireSource_try_into (wr_source value);
  requested_limits ← WireLimits_try_into (wr_requested_limits value);
  cache_namespace ← WireCacheNamespace_try_into (wr_cache_namespace value);
  submitted_at ← epoch (wr_submitted_at value);
  operator_deadline ← traverse_option epoch (wr_operator_deadline value);
  cancellation ← WireCancellation_try_into (wr_cancellation value);
  fallback_eligibility ← WireFallback_try_into (wr_fallback_eligibility value);
  Ok (mkRequest identity source (WirePriority_into (wr_priority value)) requested_limits
        cache_namespace (WireCacheAccess_into (wr_cache_access value))
        submitted_at operator_deadline cancellation fallback_eligibility).

Definition request_wf (r : PersonalWorkerJobRequest) : Prop :=
  identity_wf (rq_identity r) ∧ source_wf (rq_source r) ∧ limits_wf (rq_requested_limits r) ∧
  namespace_wf (rq_cache_namespace r) ∧ accepted EpochMillis_new (rq_submitted_at r) ∧
  (∀ t, rq_operator_deadline r = Some t → accepted EpochMillis_new t) ∧
  cancellation_wf (rq_cancellation r) ∧ fallback_wf (rq_fallback_eligibility r).

#[export] Instance WireRequest_iso : WireIso request_wf WireRequest_from WireRequest_try_into.
Proof. wire_struct WireRequest_try_into WireRequest_from request_wf. Qed.

Inductive WireQueuePosition :=
| WireKnown (position : N)
| WireUnknown.

Definition WireQueuePosition_from (value : QueuePosition) : WireQueuePosition :=
  match value with
  | Known position => WireKnown position
  | Unknown => WireUnknown
  end.

Definition WireQueuePosition_try_into (value : WireQueuePosition)
    : result PersonalWorkerStoreError QueuePosition :=
  match value with
  | WireKnown position => map_err (λ _, corrupt_state) (QueuePosition_known position)
  | WireUnknown => Ok Unknown
  end.

Definition queue_position_wf (p : QueuePosition) : Prop :=
  match p with
  | Known position => in_range 1 MAX_QUEUE_POSITION position = true
  | Unknown => True
  end.

#[export] Instance WireQueuePosition_iso :
  WireIso queue_position_wf WireQueuePosition_from WireQueuePosition_try_into.
Proof.
  intros [p|] a; simpl.
  - rewrite map_err_Ok. unfold QueuePosition_known.
    destruct (in_range _ _ p) eqn:Hp; simpl; split.
    + intros [= <-]. auto.
    + intros [_ H]. destruct a; [|done]. injection H as ->. done.
    + done.
    + intros [Hwf H]. destruct a; [|done]. injection H as ->. simpl in Hwf. congruence.
  - split; [by intros [= <-]|]. intros [_ H]. by destruct a.
Qed.

Record WireReservation := mkWireReservation {
  wre_id : string;
  wre_generation : N;
  wre_reserved_at : N;
  wre_expires_at : N;
}.

Definition WireReservation_from (value : ReservationEvidence) : WireReservation :=
  mkWireReservation (res_id value) (res_generation value) (reserved_at value) (expires_at value).

Definition WireReservation_try_into (value : WireReservation)
    : result PersonalWorkerStoreError ReservationEvidence :=
  id ← newtype ReservationId_parse (wre_id value);
  generation ← newtype ReservationGeneration_new (wre_generation value);
  reserved ← epoch (wre_reserved_at value);
  expires ← epoch (wre_expires_at value);
  Ok (mkReservation id generation reserved expires).

Definition reservation_wf (r : ReservationEvidence) : Prop :=
  accepted ReservationId_parse (res_id r) ∧ accepted ReservationGeneration_new (res_generation r) ∧
  accepted EpochMillis_new (reserved_at r) ∧ accepted EpochMillis_new (expires_at r).

#[export] Instance WireReservation_iso :
  WireIso reservation_wf WireReservation_from WireReservation_try_into.
Proof. wire_struct WireReservation_try_into WireReservation_from reservation_wf. Qed.

Record WireHostCapacity := mkWireHostCapacity {
  whc_observed_at : N;
  whc_capacity : WireLimits;
}.

Definition WireHostCapacity_from (value : HostCapacityObservation) : WireHostCapacity :=
  mkWireHostCapacity (hco_observed_at value) (WireLimits_from (hco_capacity value)).

Definition WireHostCapacity_try_into (value : WireHostCapacity)
    : result PersonalWorkerStoreError HostCapacityObservation :=
  observed_at ← epoch (whc_observed_at value);
  capacity ← WireLimits_try_into (whc_capacity value);
  Ok (mkHostCapacity observed_at capacity).

Definition host_capacity_wf (h : HostCapacityObservation) : Prop :=
  accepted EpochMillis_new (hco_observed_at h) ∧ limits_wf (hco_capacity h).

#[export] Instance WireHostCapacity_iso :
  WireIso host_capacity_wf WireHostCapacity_from WireHostCapacity_try_into.
Proof. wire_struct WireHostCapacity_try_into WireHostCapacity_from host_capacity_wf. Qed.

Record WireAdmission := mkWireAdmission {
  wad_schema_version : N;
  wad_identity : WireIdentity;
  wad_state : WireAdmissionState;
  wad_observed_at : N;
  wad_requested_limits : WireLimits;
  wad_host_capacity : option WireHostCapacity;
  wad_applied_limits : option WireLimits;
  wad_queue_position : option WireQueuePosition;
  wad_reservation : option WireReservation;
  wad_acknowledgement : option WireAcknowledgement;
  wad_fallback_eligibility : WireFallback;
  wad_unavailable_reason : option WireUnavailableReason;
}.

Definition WireAdmission_from (value : ExecutionAdmissionRecord) : WireAdmission :=
  mkWireAdmission (ear_schema_version value) (WireIdentity_from (ear_identity value))
    (WireAdmissionState_from (ear_state value)) (ear_observed_at value)
    (WireLimits_from (ear_requested_limits value))
    (WireHostCapacity_from <$> ear_host_capacity value)
    (WireLimits_from <$> ear_applied_limits value)
    (WireQueuePosition_from <$> ear_queue_position value)
    (WireReservation_from <$> ear_reservation value)
    (WireAcknowledgement_from <$> ear_acknowledgement value)
    (WireFallback_from (ear_fallback_eligibility value))
    (WireUnavailableReason_from <$> ear_unavailable_reason value).

(** The [ExecutionAdmissionInput] the conversion assembles. *)
Definition WireAdmission_input (value : WireAdmission)
    : result PersonalWorkerStoreError ExecutionAdmissionInput :=
  identity ← WireIdentity_try_into (wad_identity value);
  observed_at ← epoch (wad_observed_at value);
  requested_limits ← WireLimits_try_into (wad_requested_limits value);
  host_capacity ← traverse_option WireHostCapacity_try_into (wad_host_capacity value);
  applied_limits ← traverse_option WireLimits_try_into (wad_applied_limits value);
  queue_position ← traverse_option WireQueuePosition_try_into (wad_queue_position value);
  reservation ← traverse_option WireReservation_try_into (wad_reservation value);
  fallback_eligibility ← WireFallback_try_into (wad_fallback_eligibility value);
  Ok (mkAdmissionInput identity (WireAdmissionState_into (wad_state value)) observed_at
        requested_limits host_capacity applied_limits queue_position reservation
        (WireAcknowledgement_into <$> wad_acknowledgement value) fallback_eligibility
        (WireUnavailableReason_into <$> wad_unavailable_reason value)).

Definition WireAdmission_try_into (value : WireAdmission)
    : result PersonalWorkerStoreError ExecutionAdmissionRecord :=
  if negb (wad_schema_version value =? EXECUTION_ADMISSION_SCHEMA_VERSION)
  then Err corrupt_state
  else
    input ← WireAdmission_input value;
    map_err (λ _, corrupt_state) (from_input input).

(** The typed fields of a record hold what their constructors accept. *)
Definition record_fields_wf (r : ExecutionAdmissionRecord) : Prop :=
  identity_wf (ear_identity r) ∧ accepted EpochMillis_new (ear_observed_at r) ∧
  limits_wf (ear_requested_limits r) ∧
  (∀ h, ear_host_capacity r = Some h → host_capacity_wf h) ∧
  (∀ l, ear_applied_limits r = Some l → limits_wf l) ∧
  (∀ p, ear_queue_position r = Some p → queue_position_wf p) ∧
  (∀ v, ear_reservation r = Some v → reservation_wf v) ∧
  fallback_wf (ear_fallback_eligibility r).

Definition record_wf (r : ExecutionAdmissionRecord) : Prop :=
  record_fields_wf r ∧ record_valid r.

Lemma option_conv_cancel {A B} (f : A → B) (g : B → A) (o : option A) :
  (∀ a, g (f a) = a) → g <$> (f <$> o) = o.
Proof. intros H. destruct o; simpl; [by rewrite H|done]. Qed.

Lemma acknowledgements_cancel (o : option _) : WireAcknowledgement_into <$> (WireAcknowledgement_from <$> o) = o.
Proof. apply option_conv_cancel, WireAcknowledgement_into_from. Qed.

Lemma acknowledgements_cancel' (o : option _) : WireAcknowledgement_from <$> (WireAcknowledgement_into <$> o) = o.
Proof. apply option_conv_cancel, WireAcknowledgement_from_into. Qed.

Lemma reasons_cancel (o : option _) : WireUnavailableReason_into <$> (WireUnavailableReason_from <$> o) = o.
Proof. apply option_conv_cancel, WireUnavailableReason_into_from. Qed.

Lemma reasons_cancel' (o : option _) : WireUnavailableReason_from <$> (WireUnavailableReason_into <$> o) = o.
Proof. apply option_conv_cancel, WireUnavailableReason_from_into. Qed.

#[export] Hint Rewrite acknowledgements_cancel acknowledgements_cancel'
  reasons_cancel reasons_cancel' : wire.

Definition record_input (r : ExecutionAdmissionRecord) : ExecutionAdmissionInput :=
  mkAdmissionInput (ear_identity r) (ear_state r) (ear_observed_at r) (ear_requested_limits r)
    (ear_host_capacity r) (ear_applied_limits r) (ear_queue_position r) (ear_reservation r)
    (ear_acknowledgement r) (ear_fallback_eligibility r) (ear_unavailable_reason r).

Lemma WireAdmission_input_Ok w i :
  WireAdmission_input w = Ok i ↔
  record_fields_wf (record_of i) ∧
  WireAdmission_from (record_of i)
    = mkWireAdmission EXECUTION_ADMISSION_SCHEMA_VERSION (wad_identity w) (wad_state w)
        (wad_observed_at w) (wad_requested_limits w) (wad_host_capacity w) (wad_applied_limits w)
        (wad_queue_position w) (wad_reservation w) (wad_acknowledgement w)
        (wad_fallback_eligibility w) (wad_unavailable_reason w).
Proof.
  unfold WireAdmission_input, record_fields_wf, WireAdmission_from. split.
  - intros H. wire_fields H. injection H as <-. destruct w; simpl in *; subst.
    split; [tauto|]. autorewrite with wire. reflexivity.
  - intros [H Heq]. destruct w, i; simpl in *. injection Heq as <- <- <- <- <- <- <- <- <- <- <-.
    wire_build.
Qed.

#[export] Instance WireAdmission_iso : WireIso record_wf WireAdmission_from WireAdmission_try_into.
Proof.
  intros w a. unfold WireAdmission_try_into. split.
  - intros H. inv_ok H. bprop. apply WireAdmission_input_Ok in Hy as [Hwf Heq].
    apply from_input_spec in H as [-> Hvalid]. split; [done|]. rewrite Heq.
    destruct w. simpl in *. congruence.
  - intros [[Hwf Hvalid] <-].
    assert (a = record_of (record_input a)) as Ha.
    { destruct Hvalid as [Hv _]. destruct a. unfold record_of. simpl in *. congruence. }
    replace (wad_schema_version (WireAdmission_from a) =? _) with true;
      [simpl|symmetry; apply N.eqb_eq; apply Hvalid].
    rewrite (proj2 (WireAdmission_input_Ok (WireAdmission_from a) (record_input a))); rsimpl.
    + apply map_err_Ok, from_input_spec. auto.
    + rewrite <-Ha. split; [done|]. unfold WireAdmission_from. simpl. f_equal. apply Hvalid.
Qed.

Record WireActive := mkWireActive {
  wac_request : WireRequest;
  wac_admission : WireAdmission;
  wac_started_at : option N;
}.

Definition WireActive_from (value : PersonalWorkerActiveReservation) : WireActive :=
  mkWireActive (WireRequest_from (ac_request value)) (WireAdmission_from (ac_admission value))
    (ac_started_at value).

Definition WireActive_try_into (value : WireActive)
    : result PersonalWorkerStoreError PersonalWorkerActiveReservation :=
  request ← WireRequest_try_into (wac_request value);
  admission ← WireAdmission_try_into (wac_admission value);
  started_at ← traverse_option epoch (wac_started_at value);
  Ok (mkActive request admission started_at).

Definition active_wf (a : PersonalWorkerActiveReservation) : Prop :=
  request_wf (ac_request a) ∧ record_wf (ac_admission a) ∧
  ∀ t, ac_started_at a = Some t → accepted EpochMillis_new t.

#[export] Instance WireActive_iso : WireIso active_wf WireActive_from WireActive_try_into.
Proof. wire_struct WireActive_try_into WireActive_from active_wf. Qed.

Record WirePendingProfileChange := mkWirePendingProfileChange {
  wpc_target : WireProfile;
  wpc_requested_at : N;
}.

Definition WirePendingProfileChange_from (value : PersonalWorkerPendingProfileChange)
    : WirePendingProfileChange :=
  mkWirePendingProfileChange (WireProfile_from (pc_target value)) (pc_requested_at value).

Definition WirePendingProfileChange_try_into (value : WirePendingProfileChange)
    : result PersonalWorkerStoreError PersonalWorkerPendingProfileChange :=
  requested_at ← epoch (wpc_requested_at value);
  Ok (mkPendingProfileChange (WireProfile_into (wpc_target value)) requested_at).

Definition pending_wf (p : PersonalWorkerPendingProfileChange) : Prop :=
  accepted EpochMillis_new (pc_requested_at p).

#[export] Instance WirePendingProfileChange_iso :
  WireIso pending_wf WirePendingProfileChange_from WirePendingProfileChange_try_into.
Proof. wire_struct WirePendingProfileChange_try_into WirePendingProfileChange_from pending_wf. Qed.

Record WireQueue := mkWireQueue {
  wq_generation : N;
  wq_observed_at : N;
  wq_profile_observation : WireProfileObservation;
  wq_activity_evidence : WireActivityEvidence;
  wq_queued : list WireRequest;
  wq_active : list WireActive;
  wq_pending_profile_change : option WirePendingProfileChange;
}.

Definition WireQueue_from (value : PersonalWorkerQueueInput) : WireQueue :=
  mkWireQueue (qi_generation value) (qi_observed_at value)
    (WireProfileObservation_from (qi_profile_observation value))
    (WireActivityEvidence_from (qi_activity_evidence value))
    (WireRequest_from <$> qi_queued value) (WireActive_from <$> qi_active value)
    (WirePendingProfileChange_from <$> qi_pending_profile_change value).

Definition WireQueue_try_into (value : WireQueue)
    : result PersonalWorkerStoreError PersonalWorkerQueueInput :=
  generation ← newtype QueueGeneration_new (wq_generation value);
  observed_at ← epoch (wq_observed_at value);
  activity ← WireActivityEvidence_try_into (wq_activity_evidence value);
  queued ← traverse WireRequest_try_into (wq_queued value);
  active ← traverse WireActive_try_into (wq_active value);
  pending ← traverse_option WirePendingProfileChange_try_into (wq_pending_profile_change value);
  Ok (mkQueueInput generation observed_at
        (WireProfileObservation_into (wq_profile_observation value)) activity queued active pending).

Definition queue_wf (q : PersonalWorkerQueueInput) : Prop :=
  accepted QueueGeneration_new (qi_generation q) ∧ accepted EpochMillis_new (qi_observed_at q) ∧
  activity_wf (qi_activity_evidence q) ∧ Forall request_wf (qi_queued q) ∧
  Forall active_wf (qi_active q) ∧ (∀ p, qi_pending_profile_change q = Some p → pending_wf p).

#[export] Instance WireQueue_iso : WireIso queue_wf WireQueue_from WireQueue_try_into.
Proof. wire_struct WireQueue_try_into WireQueue_from queue_wf. Qed.

(** The queue of a schema-1 document: it always names a profile and a time of
    last activity. *)
Record WireQueueV1 := mkWireQueueV1 {
  wq1_generation : N;
  wq1_observed_at : N;
  wq1_current_profile : WireProfile;
  wq1_last_activity_at : N;
  wq1_queued : list WireRequest;
  wq1_active : list WireActive;
  wq1_pending_profile_change : option WirePendingProfileChange;
}.

Definition WireQueueV1_try_into (value : WireQueueV1)
    : result PersonalWorkerStoreError PersonalWorkerQueueInput :=
  generation ← newtype QueueGeneration_new (wq1_generation value);
  observed_at ← epoch (wq1_observed_at value);
  last_activity ← epoch (wq1_last_activity_at value);
  queued ← traverse WireRequest_try_into (wq1_queued value);
  active ← traverse WireActive_try_into (wq1_active value);
  pending ← traverse_option WirePendingProfileChange_try_into (wq1_pending_profile_change value);
  Ok (mkQueueInput generation observed_at
        (ProfileObserved (WireProfile_into (wq1_current_profile value)))
        (ActivityObserved last_activity) queued active pending).

Record WireCacheLease := mkWireCacheLease {
  wcl_request_id : string;
  wcl_namespace : WireCacheNamespace;
  wcl_access : WireCacheAccess;
  wcl_reservation_id : string;
  wcl_reservation_generation : N;
  wcl_acquired_at : N;
}.

Definition WireCacheLease_from (value : PersonalWorkerDurableCacheLease) : WireCacheLease :=
  mkWireCacheLease (cl_request_id value) (WireCacheNamespace_from (cl_namespace value))
    (WireCacheAccess_from (cl_access value)) (cl_reservation_id value)
    (cl_reservation_generation value) (cl_acquired_at value).

Definition WireCacheLease_try_into (value : WireCacheLease)
    : result PersonalWorkerStoreError PersonalWorkerDurableCacheLease :=
  request ← newtype ExecutionRequestId_parse (wcl_request_id value);
  namespace ← WireCacheNamespace_try_into (wcl_namespace value);
  reservation ← newtype ReservationId_parse (wcl_reservation_id value);
  generation ← newtype ReservationGeneration_new (wcl_reservation_generation value);
  acquired_at ← epoch (wcl_acquired_at value);
  Ok (mkLease request namespace (WireCacheAccess_into (wcl_access value)) reservation
        generation acquired_at).

Definition lease_wf (l : PersonalWorkerDurableCacheLease) : Prop :=
  accepted ExecutionRequestId_parse (cl_request_id l) ∧ namespace_wf (cl_namespace l) ∧
  accepted ReservationId_parse (cl_reservation_id l) ∧
  accepted ReservationGeneration_new (cl_reservation_generation l) ∧
  accepted EpochMillis_new (cl_acquired_at l).

#[export] Instance WireCacheLease_iso :
  WireIso lease_wf WireCacheLease_from WireCacheLease_try_into.
Proof. wire_struct WireCacheLease_try_into WireCacheLease_from lease_wf. Qed.

(** ** Serialized only: evidence, tombstones, history, documents *)

Record WireTerminalEvidence := mkWireTerminalEvidence {
  wte_mutation_class : WireTerminalMutationClass;
  wte_request : WireRequest;
  wte_terminal_admission : WireAdmission;
  wte_started_at : option N;
  wte_cache_lease : WireCacheLease;
}.

Definition WireTerminalEvidence_from_parts (mutation_class : PersonalWorkerTerminalMutationClass)
    (request : PersonalWorkerJobRequest) (terminal_admission : ExecutionAdmissionRecord)
    (started_at : option EpochMillis) (cache_lease : PersonalWorkerDurableCacheLease)
    : WireTerminalEvidence :=
  mkWireTerminalEvidence (WireTerminalMutationClass_from mutation_class)
    (WireRequest_from request) (WireAdmission_from terminal_admission) started_at
    (WireCacheLease_from cache_lease).

Record WireTerminalTombstone := mkWireTerminalTombstone {
  wtt_mutation_class : WireTerminalMutationClass;
  wtt_request : WireRequest;
  wtt_terminal_admission : WireAdmission;
  wtt_started_at : option N;
  wtt_cache_lease : WireCacheLease;
  wtt_evidence_digest : string;
}.

Record WireHistoryEntry := mkWireHistoryEntry {
  whe_revision : N;
  whe_queue_generation : N;
  whe_observed_at : N;
  whe_queued_count : N;
  whe_active_count : N;
  whe_cache_lease_count : N;
  whe_terminal_tombstone_count : N;
  whe_state_digest : string;
}.

Record WireSnapshot := mkWireSnapshot {
  wsn_queue : WireQueue;
  wsn_cache_leases : list WireCacheLease;
  wsn_terminal_tombstones : list WireTerminalTombstone;
}.

Record WireDocument := mkWireDocument {
  wd_schema_version : N;
  wd_revision : N;
  wd_queue : WireQueue;
  wd_cache_leases : list WireCacheLease;
  wd_terminal_tombstones : list WireTerminalTombstone;
  wd_history : list WireHistoryEntry;
}.

Record WireVersion := mkWireVersion {
  wv_schema_version : N;
}.

Record WireDocumentV1 := mkWireDocumentV1 {
  wd1_schema_version : N;
  wd1_revision : N;
  wd1_queue : WireQueueV1;
  wd1_cache_leases : list WireCacheLease;
  wd1_terminal_tombstones : list WireTerminalTombstone;
  wd1_history : list WireHistoryEntry;
}.
