(* ===== verification/WorkerStore.v ===== *)
(** * The durable personal-worker document

    The first half of [src/src/personal_worker_store.rs]: terminal tombstones,
    the bounded revision history, the store document with its validation, the
    ways a document advances, and the contract of a replacement
    ([validate_successor_of]).  [serde_json] and [sha2] are not part of this
    repository; what the document needs of them is the class [StoreSerde]. *)

From S2P Require Import Prelude Artifact ExecutionAdmission AdmissionLifecycle PidCapacity WorkerQueue.
From S2P Require Import StoreWire.

Local Open Scope N_scope.


Definition PERSONAL_WORKER_STORE_SCHEMA_VERSION : N := 2.
Definition MAX_PERSONAL_WORKER_STORE_BYTES : N := 1048576.
Definition MAX_PERSONAL_WORKER_HISTORY_ENTRIES : nat := 32.
Definition MAX_PERSONAL_WORKER_TERMINAL_TOMBSTONES : nat := 32.
Definition MAX_PERSONAL_WORKER_STORE_REVISION : N := 1000000000000.

(** [serde_json::to_vec] on the two digested structs, and the lower-hex form
    of [Sha256::digest]. *)
Class StoreSerde := {
  json_snapshot : WireSnapshot → option bytes;
  json_evidence : WireTerminalEvidence → option bytes;
  sha256_hex : bytes → string;
}.

(** ** Data *)

Notation PersonalWorkerStoreRevision := N (only parsing).

Definition StoreRevision_new (value : N)
    : result PersonalWorkerStoreError PersonalWorkerStoreRevision :=
  if negb (in_range 1 MAX_PERSONAL_WORKER_STORE_REVISION value)
  then Err (invalid_document "personal worker store revision is outside the bounded positive range")
  else Ok value.

Definition StoreRevision_next (self : PersonalWorkerStoreRevision)
    : result PersonalWorkerStoreError PersonalWorkerStoreRevision :=
  ok_or
    (value ← checked_add u64_max self 1;
     if value <=? MAX_PERSONAL_WORKER_STORE_REVISION then Some value else None)
    (revision_conflict "personal worker store revision space is exhausted").

Record PersonalWorkerTerminalTombstone := mkTombstone {
  tt_mutation_class : PersonalWorkerTerminalMutationClass;
  tt_request : PersonalWorkerJobRequest;
  tt_terminal_admission : ExecutionAdmissionRecord;
  tt_started_at : option EpochMillis;
  tt_cache_lease : PersonalWorkerDurableCacheLease;
  tt_evidence_digest : string;
}.

#[export] Instance tombstone_eq_dec : EqDecision PersonalWorkerTerminalTombstone.
Proof. solve_decision. Defined.

Definition completed_at (t : PersonalWorkerTerminalTombstone) : EpochMillis :=
  ear_observed_at (tt_terminal_admission t).

(** The request identity of a tombstone. *)
Definition tt_id (t : PersonalWorkerTerminalTombstone) : ExecutionRequestId :=
  rq_id (tt_request t).

Record PersonalWorkerHistoryEntry := mkHistoryEntry {
  he_revision : PersonalWorkerStoreRevision;
  he_queue_generation : PersonalWorkerQueueGeneration;
  he_observed_at : EpochMillis;
  he_queued_count : N;
  he_active_count : N;
  he_cache_lease_count : N;
  he_terminal_tombstone_count : N;
  he_state_digest : string;
}.

#[export] Instance history_entry_eq_dec : EqDecision PersonalWorkerHistoryEntry.
Proof. solve_decision. Defined.

Record PersonalWorkerStoreDocument := mkDocument {
  sd_schema_version : N;
  sd_revision : PersonalWorkerStoreRevision;
  sd_queue : PersonalWorkerQueueInput;
  sd_cache_leases : list PersonalWorkerDurableCacheLease;
  sd_terminal_tombstones : list PersonalWorkerTerminalTombstone;
  sd_history : list PersonalWorkerHistoryEntry;
}.

#[export] Instance document_eq_dec : EqDecision PersonalWorkerStoreDocument.
Proof. solve_decision. Defined.

Inductive PersonalWorkerStoreWriteDisposition :=
| WriteCreated
| WriteReplaced.

#[export] Instance write_disposition_eq_dec : EqDecision PersonalWorkerStoreWriteDisposition.
Proof. solve_decision. Defined.

Record PersonalWorkerStoreWriteReceipt := mkWriteReceipt {
  wrc_disposition : PersonalWorkerStoreWriteDisposition;
  wrc_revision : PersonalWorkerStoreRevision;
  wrc_bytes_written : N;
}.

Inductive PersonalWorkerStoreRecoveryDisposition :=
| RecoveryClean
| RecoveryPublishedStaged
| RecoveryRemovedStaleStaged.

Record PersonalWorkerStoreRecovery := mkRecovery {
  rcv_disposition : PersonalWorkerStoreRecoveryDisposition;
  rcv_revision : option PersonalWorkerStoreRevision;
}.

Inductive PersonalWorkerStoreInitializationDisposition :=
| InitCreated
| InitAlreadyExists
| InitRecoveryRequired.

Record PersonalWorkerStoreInitializationReceipt := mkInitializationReceipt {
  irc_disposition : PersonalWorkerStoreInitializationDisposition;
  irc_revision : option PersonalWorkerStoreRevision;
  irc_bytes_written : N;
}.

Inductive PersonalWorkerStoreMigrationDisposition :=
| MigrationMigrated
| MigrationAlreadyCurrent
| MigrationRecoveryRequired.

Record PersonalWorkerStoreMigrationReceipt := mkMigrationReceipt {
  mrc_disposition : PersonalWorkerStoreMigrationDisposition;
  mrc_from_schema_version : N;
  mrc_to_schema_version : N;
  mrc_revision : PersonalWorkerStoreRevision;
  mrc_queue_generation : PersonalWorkerQueueGeneration;
  mrc_bytes_written : N;
}.

Definition MigrationReceipt_new (disposition : PersonalWorkerStoreMigrationDisposition)
    (from_schema_version revision queue_generation bytes_written : N)
    : PersonalWorkerStoreMigrationReceipt :=
  mkMigrationReceipt disposition from_schema_version PERSONAL_WORKER_STORE_SCHEMA_VERSION
    revision queue_generation bytes_written.

(** ** Wire forms of tombstones, history and snapshots *)

Definition WireTerminalTombstone_from (value : PersonalWorkerTerminalTombstone)
    : WireTerminalTombstone :=
  mkWireTerminalTombstone (WireTerminalMutationClass_from (tt_mutation_class value))
    (WireRequest_from (tt_request value)) (WireAdmission_from (tt_terminal_admission value))
    (tt_started_at value) (WireCacheLease_from (tt_cache_lease value)) (tt_evidence_digest value).

Definition WireHistoryEntry_from (value : PersonalWorkerHistoryEntry) : WireHistoryEntry :=
  mkWireHistoryEntry (he_revision value) (he_queue_generation value) (he_observed_at value)
    (he_queued_count value) (he_active_count value) (he_cache_lease_count value)
    (he_terminal_tombstone_count value) (he_state_digest value).

Definition WireSnapshot_from_parts (queue : PersonalWorkerQueueInput)
    (cache_leases : list PersonalWorkerDurableCacheLease)
    (terminal_tombstones : list PersonalWorkerTerminalTombstone) : WireSnapshot :=
  mkWireSnapshot (WireQueue_from queue) (WireCacheLease_from <$> cache_leases)
    (WireTerminalTombstone_from <$> terminal_tombstones).

Section store.
Context `{SER : !StoreSerde}.

(** ** Digests *)

Definition snapshot_digest (queue : PersonalWorkerQueueInput)
    (leases : list PersonalWorkerDurableCacheLease)
    (terminal_tombstones : list PersonalWorkerTerminalTombstone)
    : result PersonalWorkerStoreError string :=
  let wire := WireSnapshot_from_parts queue leases terminal_tombstones in
  encoded ← ok_or (json_snapshot wire)
    (invalid_document "personal worker snapshot digest input could not be encoded");
  map_err (λ _, invalid_document "personal worker snapshot digest could not be represented")
    (Sha256Digest_parse ("sha256:" +:+ sha256_hex encoded)).

Definition terminal_evidence_digest (mutation_class : PersonalWorkerTerminalMutationClass)
    (request : PersonalWorkerJobRequest) (terminal_admission : ExecutionAdmissionRecord)
    (started_at : option EpochMillis) (cache_lease : PersonalWorkerDurableCacheLease)
    : result PersonalWorkerStoreError string :=
  let wire := WireTerminalEvidence_from_parts mutation_class request terminal_admission
                started_at cache_lease in
  encoded ← ok_or (json_evidence wire)
    (invalid_document "terminal tombstone digest input could not be encoded");
  map_err (λ _, invalid_document "terminal tombstone digest could not be represented")
    (Sha256Digest_parse ("sha256:" +:+ sha256_hex encoded)).

(** ** Terminal tombstones *)

(** [PersonalWorkerTerminalTombstone::validate]. *)
Definition validate_tombstone (self : PersonalWorkerTerminalTombstone)
    : result PersonalWorkerStoreError () :=
  let request := tt_request self in
  let admission := tt_terminal_admission self in
  let lease := tt_cache_lease self in
  if bool_decide (ear_state admission ≠ Unavailable)
  then Err (invalid_document "terminal tombstone requires unavailable admission evidence")
  else if bool_decide (ear_identity admission ≠ rq_identity request)
          || bool_decide (cl_request_id lease ≠ rq_id request)
  then Err (invalid_document "terminal tombstone request identity does not match its evidence")
  else if bool_decide (ear_requested_limits admission ≠ rq_requested_limits request)
          || bool_decide (ear_fallback_eligibility admission ≠ rq_fallback_eligibility request)
  then Err (invalid_document "terminal tombstone admission semantics drift from the exact request")
  else if bool_decide (cl_namespace lease ≠ rq_cache_namespace request)
          || bool_decide (cl_access lease ≠ rq_cache_access request)
  then Err (invalid_document "terminal tombstone cache lease does not match the exact request")
  else
    reservation ← ok_or (ear_reservation admission)
      (invalid_document "terminal tombstone requires exact reservation evidence");
    if bool_decide (cl_reservation_id lease ≠ res_id reservation)
       || negb (cl_reservation_generation lease =? res_generation reservation)
    then Err (invalid_document
           "terminal tombstone cache lease is bound to different reservation evidence")
    else if (cl_acquired_at lease <? reserved_at reservation)
            || (ear_observed_at admission <? cl_acquired_at lease)
    then Err (invalid_document
           "terminal tombstone cache lease time is outside reservation evidence")
    else if is_some_and (λ started_at, (started_at <? reserved_at reservation)
                                       || (ear_observed_at admission <? started_at))
              (tt_started_at self)
    then Err (invalid_document "terminal tombstone start time is outside reservation evidence")
    else
      expected ← terminal_evidence_digest (tt_mutation_class self) request admission
                   (tt_started_at self) lease;
      if bool_decide (expected ≠ tt_evidence_digest self)
      then Err (invalid_document
             "terminal tombstone evidence digest does not match its exact evidence")
      else Ok ().

Definition Tombstone_new (request : PersonalWorkerJobRequest)
    (terminal_admission : ExecutionAdmissionRecord) (started_at : option EpochMillis)
    (cache_lease : PersonalWorkerDurableCacheLease)
    : result PersonalWorkerStoreError PersonalWorkerTerminalTombstone :=
  let mutation_class := ReleaseCompletionAndCacheLease in
  evidence_digest ← terminal_evidence_digest mutation_class request terminal_admission
                      started_at cache_lease;
  let tombstone := mkTombstone mutation_class request terminal_admission started_at cache_lease
                     evidence_digest in
  _ ← validate_tombstone tombstone;
  Ok tombstone.

Definition validate_terminal_tombstone_ledger_shape
    (previous next : list PersonalWorkerTerminalTombstone) : result PersonalWorkerStoreError () :=
  if bool_decide (next = previous) then Ok ()
  else
    let exact_append :=
      (length previous <? MAX_PERSONAL_WORKER_TERMINAL_TOMBSTONES)%nat
      && (length next =? length previous + 1)%nat
      && bool_decide (take (length previous) next = previous) in
    let exact_fifo_eviction :=
      (length previous =? MAX_PERSONAL_WORKER_TERMINAL_TOMBSTONES)%nat
      && (length next =? MAX_PERSONAL_WORKER_TERMINAL_TOMBSTONES)%nat
      && bool_decide (take (MAX_PERSONAL_WORKER_TERMINAL_TOMBSTONES - 1) next
                      = drop 1 previous) in
    if exact_append || exact_fifo_eviction then Ok ()
    else Err (revision_conflict
           "terminal tombstone ledger must remain exact or advance by one FIFO entry").

(** The loop state of [validate_terminal_tombstones]: the identities seen and
    the previous completion time. *)
Definition tombstone_step (live_ids : gset string)
    (state : gset string * option EpochMillis) (tombstone : PersonalWorkerTerminalTombstone)
    : result PersonalWorkerStoreError (gset string * option EpochMillis) :=
  let '(terminal_ids, previous_completed_at) := state in
  _ ← validate_tombstone tombstone;
  let request_id := tt_id tombstone in
  if bool_decide (request_id ∈ live_ids)
  then Err (invalid_document "terminal tombstone request is still present in live queue state")
  else if bool_decide (request_id ∈ terminal_ids)
  then Err (invalid_document "terminal tombstone request identity is duplicated")
  else if is_some_and (λ previous, completed_at tombstone <? previous) previous_completed_at
  then Err (invalid_document "terminal tombstone completion observations move backwards")
  else Ok ({[request_id]} ∪ terminal_ids, Some (completed_at tombstone)).

Definition live_ids_of (queue : PersonalWorkerQueueInput) : gset string :=
  list_to_set ((rq_id <$> qi_queued queue) ++ (ac_id <$> qi_active queue)).

Definition validate_terminal_tombstones (queue : PersonalWorkerQueueInput)
    (tombstones : list PersonalWorkerTerminalTombstone) : result PersonalWorkerStoreError () :=
  if (MAX_PERSONAL_WORKER_TERMINAL_TOMBSTONES <? length tombstones)%nat
  then Err (invalid_document
         "personal worker terminal tombstone ledger exceeds its bounded entry limit")
  else
    _ ← fold_result (tombstone_step (live_ids_of queue)) (∅, None) tombstones;
    Ok ().

(** ** Cache leases *)

Definition cache_modes_conflict (held : list PersonalWorkerCacheAccessMode)
    (requested : PersonalWorkerCacheAccessMode) : bool :=
  if bool_decide (held = []) then false
  else bool_decide (Exclusive ∈ held) || bool_decide (requested = Exclusive)
       || bool_decide (Write ∈ held) || bool_decide (requested = Write).

Definition active_by_id (active : list PersonalWorkerActiveReservation)
    : gmap string PersonalWorkerActiveReservation :=
  foldl (λ m reservation, <[ac_id reservation := reservation]> m) ∅ active.

(** The loop body of [validate_cache_leases]: owners and held modes. *)
Definition lease_step (active : gmap string PersonalWorkerActiveReservation)
    (state : gset string * HeldLeases) (lease : PersonalWorkerDurableCacheLease)
    : result PersonalWorkerStoreError (gset string * HeldLeases) :=
  let '(owners, held) := state in
  if bool_decide (cl_request_id lease ∈ owners)
  then Err (invalid_document "durable cache lease owner is duplicated")
  else
    reservation ← ok_or (active !! cl_request_id lease)
      (invalid_document "durable cache lease owner is not an active reservation");
    if bool_decide (cl_namespace lease ≠ rq_cache_namespace (ac_request reservation))
       || bool_decide (cl_access lease ≠ rq_cache_access (ac_request reservation))
    then Err (invalid_document "durable cache lease does not match its active request")
    else
      evidence ← ok_or (ear_reservation (ac_admission reservation))
        (invalid_document "durable cache lease requires reservation evidence");
      if bool_decide (cl_reservation_id lease ≠ res_id evidence)
         || negb (cl_reservation_generation lease =? res_generation evidence)
      then Err (invalid_document "durable cache lease is bound to different reservation evidence")
      else if (cl_acquired_at lease <? reserved_at evidence)
              || (ear_observed_at (ac_admission reservation) <? cl_acquired_at lease)
      then Err (invalid_document
             "durable cache lease acquisition time is outside reservation evidence")
      else if cache_modes_conflict (default [] (held !! cl_namespace lease)) (cl_access lease)
      then Err (invalid_document "durable cache leases conflict for one namespace")
      else Ok ({[cl_request_id lease]} ∪ owners,
               push_lease (cl_namespace lease) (cl_access lease) held).

Definition validate_cache_leases (queue : PersonalWorkerQueueInput)
    (leases : list PersonalWorkerDurableCacheLease) : result PersonalWorkerStoreError () :=
  if negb (length leases =? length (qi_active queue))%nat
  then Err (invalid_document "every active reservation must own exactly one durable cache lease")
  else
    _ ← fold_result (lease_step (active_by_id (qi_active queue))) (∅, ∅) leases;
    Ok ().

(** ** Revision history *)

(** On the 64-bit targets the program is built for, the conversions between
    [usize] and [u64] in [validate_history] are the identity. *)
Definition bounded_count (value : nat) : result PersonalWorkerStoreError N :=
  ok_or (try_from_int u32_max (N.of_nat value))
    (invalid_document "personal worker store count exceeds the bounded representation").

(** The loop body of [validate_history]: index, previous generation, previous
    observation. *)
Definition history_step (first_revision : N) (state : N * option N * option N)
    (entry : PersonalWorkerHistoryEntry)
    : result PersonalWorkerStoreError (N * option N * option N) :=
  let '(offset, previous_generation, previous_observed_at) := state in
  if negb (he_revision entry =? saturating_add u64_max first_revision offset)
  then Err (invalid_document "personal worker store history revisions are not consecutive")
  else
    _ ← match previous_generation with
        | Some previous =>
            expected ← ok_or (checked_add u64_max previous 1)
              (invalid_document "personal worker store history queue generation is exhausted");
            if negb (he_queue_generation entry =? expected)
            then Err (invalid_document
                   "personal worker store history queue generations are not consecutive")
            else Ok ()
        | None => Ok ()
        end;
    if is_some_and (λ value, he_observed_at entry <? value) previous_observed_at
    then Err (invalid_document "personal worker store history observations move backwards")
    else Ok (offset + 1, Some (he_queue_generation entry), Some (he_observed_at entry)).

Definition validate_history (revision : PersonalWorkerStoreRevision)
    (current_generation : PersonalWorkerQueueGeneration) (current_observed_at : EpochMillis)
    (history : list PersonalWorkerHistoryEntry) : result PersonalWorkerStoreError () :=
  let retained_revisions := revision - 1 in
  let expected_len := N.min retained_revisions (N.of_nat MAX_PERSONAL_WORKER_HISTORY_ENTRIES) in
  let history_len := N.of_nat (length history) in
  if negb (history_len =? expected_len)
  then Err (invalid_document
         "personal worker store history does not cover the bounded revision window")
  else
    first_revision ← ok_or (checked_sub revision history_len)
      (invalid_document "personal worker store history exceeds its current revision");
    _ ← fold_result (history_step first_revision) (0, None, None) history;
    match list.last history with
    | Some last =>
        expected_generation ← ok_or
          (value ← checked_add u64_max (he_queue_generation last) 1; ok (QueueGeneration_new value))
          (invalid_document "personal worker store current queue generation cannot follow history");
        if negb (current_generation =? expected_generation)
        then Err (invalid_document
               "personal worker store current queue generation does not follow history")
        else if current_observed_at <? he_observed_at last
        then Err (invalid_document
               "personal worker store current observation predates retained history")
        else Ok ()
    | None => Ok ()
    end.

(** ** The document *)

(** [PersonalWorkerStoreDocument::summary]. *)
Definition summary (self : PersonalWorkerStoreDocument)
    : result PersonalWorkerStoreError PersonalWorkerHistoryEntry :=
  queued ← bounded_count (length (qi_queued (sd_queue self)));
  active ← bounded_count (length (qi_active (sd_queue self)));
  leases ← bounded_count (length (sd_cache_leases self));
  tombstones ← bounded_count (length (sd_terminal_tombstones self));
  digest ← snapshot_digest (sd_queue self) (sd_cache_leases self) (sd_terminal_tombstones self);
  Ok (mkHistoryEntry (sd_revision self) (qi_generation (sd_queue self))
        (qi_observed_at (sd_queue self)) queued active leases tombstones digest).

(** [PersonalWorkerStoreDocument::validate]. *)
Definition validate_document (self : PersonalWorkerStoreDocument)
    : result PersonalWorkerStoreError () :=
  if negb (sd_schema_version self =? PERSONAL_WORKER_STORE_SCHEMA_VERSION)
  then Err (invalid_document "personal worker store schema version is unsupported")
  else
    _ ← map_err (λ _, invalid_document "personal worker queue state is semantically invalid")
          (evaluate_personal_worker_queue (sd_queue self) None);
    _ ← validate_cache_leases (sd_queue self) (sd_cache_leases self);
    _ ← validate_terminal_tombstones (sd_queue self) (sd_terminal_tombstones self);
    if negb (bool_decide (sd_terminal_tombstones self = []))
       && bool_decide (qi_activity_evidence (sd_queue self) = ActivityNever)
    then Err (invalid_document "terminal worker evidence requires observed activity evidence")
    else validate_history (sd_revision self) (qi_generation (sd_queue self))
           (qi_observed_at (sd_queue self)) (sd_history self).

Definition from_parts (revision : PersonalWorkerStoreRevision) (queue : PersonalWorkerQueueInput)
    (cache_leases : list PersonalWorkerDurableCacheLease)
    (terminal_tombstones : list PersonalWorkerTerminalTombstone)
    (history : list PersonalWorkerHistoryEntry)
    : result PersonalWorkerStoreError PersonalWorkerStoreDocument :=
  let document := mkDocument PERSONAL_WORKER_STORE_SCHEMA_VERSION revision queue cache_leases
                    terminal_tombstones history in
  _ ← validate_document document;
  Ok document.

Definition Document_new (queue : PersonalWorkerQueueInput)
    (cache_leases : list PersonalWorkerDurableCacheLease)
    : result PersonalWorkerStoreError PersonalWorkerStoreDocument :=
  revision ← StoreRevision_new 1;
  from_parts revision queue cache_leases [] [].

Definition new_with_terminal_tombstones (queue : PersonalWorkerQueueInput)
    (cache_leases : list PersonalWorkerDurableCacheLease)
    (terminal_tombstones : list PersonalWorkerTerminalTombstone)
    : result PersonalWorkerStoreError PersonalWorkerStoreDocument :=
  revision ← StoreRevision_new 1;
  from_parts revision queue cache_leases terminal_tombstones [].

Definition next_queue_generation (generation : PersonalWorkerQueueGeneration)
    : result PersonalWorkerStoreError PersonalWorkerQueueGeneration :=
  next ← ok_or (checked_add u64_max generation 1)
    (revision_conflict "personal worker queue generation space is exhausted");
  map_err (λ _, revision_conflict "personal worker queue generation space is exhausted")
    (QueueGeneration_new next).

(** The history of the next revision: the summary appended, the oldest entry
    dropped beyond the window. *)
Definition push_history (history : list PersonalWorkerHistoryEntry)
    (entry : PersonalWorkerHistoryEntry) : list PersonalWorkerHistoryEntry :=
  let history := history ++ [entry] in
  if (MAX_PERSONAL_WORKER_HISTORY_ENTRIES <? length history)%nat then tail history else history.

Definition advance_with_terminal_tombstones (self : PersonalWorkerStoreDocument)
    (queue : PersonalWorkerQueueInput) (cache_leases : list PersonalWorkerDurableCacheLease)
    (terminal_tombstones : list PersonalWorkerTerminalTombstone)
    : result PersonalWorkerStoreError PersonalWorkerStoreDocument :=
  expected_generation ← next_queue_generation (qi_generation (sd_queue self));
  if negb (qi_generation queue =? expected_generation)
  then Err (revision_conflict "personal worker queue generation must advance exactly once")
  else if qi_observed_at queue <? qi_observed_at (sd_queue self)
  then Err (revision_conflict "personal worker store observation cannot move backwards")
  else
    _ ← validate_terminal_tombstone_ledger_shape (sd_terminal_tombstones self) terminal_tombstones;
    entry ← summary self;
    revision ← StoreRevision_next (sd_revision self);
    from_parts revision queue cache_leases terminal_tombstones
      (push_history (sd_history self) entry).

Definition advance (self : PersonalWorkerStoreDocument) (queue : PersonalWorkerQueueInput)
    (cache_leases : list PersonalWorkerDurableCacheLease)
    : result PersonalWorkerStoreError PersonalWorkerStoreDocument :=
  advance_with_terminal_tombstones self queue cache_leases (sd_terminal_tombstones self).

(** ** The contract of a replacement *)

(** The active reservations of [previous] that [next] no longer has. *)
Definition removed_active_of (previous next : PersonalWorkerStoreDocument)
    : list PersonalWorkerActiveReservation :=
  List.filter
    (λ active, negb (existsb (λ next_active, bool_decide (ac_id next_active = ac_id active))
                       (qi_active (sd_queue next))))
    (qi_active (sd_queue previous)).

(** The checks of [validate_terminal_tombstone_successor] on the one removed
    reservation and the one appended tombstone. *)
Definition validate_release (previous next : PersonalWorkerStoreDocument)
    (active : PersonalWorkerActiveReservation) (appended : PersonalWorkerTerminalTombstone)
    : result PersonalWorkerStoreError () :=
  if bool_decide (ac_request active ≠ tt_request appended)
     || bool_decide (ac_started_at active ≠ tt_started_at appended)
  then Err (revision_conflict
         "terminal tombstone request or start evidence differs from the removed reservation")
  else
    transition ← map_err (λ _, revision_conflict
        "terminal tombstone admission is not an allowed exact transition")
      (plan_transition (ac_admission active) (tt_terminal_admission appended));
    if bool_decide (eat_resulting_record transition ≠ tt_terminal_admission appended)
    then Err (revision_conflict
           "terminal tombstone admission differs from the exact transition result")
    else
      previous_lease ← ok_or
        (List.find (λ lease, bool_decide (cl_request_id lease = tt_id appended))
           (sd_cache_leases previous))
        (revision_conflict "terminal tombstone append requires the exact previous cache lease");
      if bool_decide (previous_lease ≠ tt_cache_lease appended)
         || existsb (λ lease, bool_decide (cl_request_id lease = tt_id appended))
              (sd_cache_leases next)
      then Err (revision_conflict
             "terminal tombstone cache evidence does not match exact lease release")
      else if bool_decide (qi_queued (sd_queue next) ≠ qi_queued (sd_queue previous))
              || bool_decide (qi_profile_observation (sd_queue next)
                              ≠ qi_profile_observation (sd_queue previous))
              || bool_decide (qi_pending_profile_change (sd_queue next)
                              ≠ qi_pending_profile_change (sd_queue previous))
      then Err (revision_conflict "terminal release successor changed unrelated queue policy state")
      else if bool_decide (qi_activity_evidence (sd_queue next)
                           ≠ ActivityObserved (completed_at appended))
      then Err (revision_conflict
             "terminal release successor must record exact completion activity evidence")
      else if negb (qi_observed_at (sd_queue next) =? completed_at appended)
      then Err (revision_conflict
             "terminal release successor observation must equal exact completion time")
      else if bool_decide (qi_active (sd_queue next)
                ≠ List.filter (λ candidate, bool_decide (ac_id candidate ≠ tt_id appended))
                    (qi_active (sd_queue previous)))
      then Err (revision_conflict
             "terminal release successor must preserve every retained active reservation exactly")
      else if bool_decide (sd_cache_leases next
                ≠ List.filter (λ lease, bool_decide (cl_request_id lease ≠ tt_id appended))
                    (sd_cache_leases previous))
      then Err (revision_conflict
             "terminal release successor must preserve every retained cache lease exactly")
      else Ok ().

Definition validate_terminal_tombstone_successor (previous next : PersonalWorkerStoreDocument)
    : result PersonalWorkerStoreError () :=
  let removed_active := removed_active_of previous next in
  if bool_decide (sd_terminal_tombstones next = sd_terminal_tombstones previous)
  then
    if bool_decide (removed_active = []) then Ok ()
    else Err (revision_conflict
           "active reservation removal requires exact appended terminal evidence")
  else
    _ ← validate_terminal_tombstone_ledger_shape (sd_terminal_tombstones previous)
          (sd_terminal_tombstones next);
    appended ← ok_or (list.last (sd_terminal_tombstones next))
      (revision_conflict "terminal tombstone append is missing exact evidence");
    match removed_active with
    | [active] =>
        if bool_decide (ac_id active ≠ tt_id appended)
        then Err (revision_conflict
               "terminal tombstone append must bind the one exact removed active reservation")
        else validate_release previous next active appended
    | _ => Err (revision_conflict
             "terminal tombstone append must bind the one exact removed active reservation")
    end.

Definition validate_successor_of (self previous : PersonalWorkerStoreDocument)
    : result PersonalWorkerStoreError () :=
  next_revision ← StoreRevision_next (sd_revision previous);
  if negb (sd_revision self =? next_revision)
  then Err (revision_conflict "replacement store revision must advance exactly once")
  else
    expected_generation ← next_queue_generation (qi_generation (sd_queue previous));
    if negb (qi_generation (sd_queue self) =? expected_generation)
    then Err (revision_conflict "replacement queue generation must advance exactly once")
    else if qi_observed_at (sd_queue self) <? qi_observed_at (sd_queue previous)
    then Err (revision_conflict "replacement observation cannot move backwards")
    else
      _ ← validate_terminal_tombstone_successor previous self;
      entry ← summary previous;
      if bool_decide (sd_history self ≠ push_history (sd_history previous) entry)
      then Err (revision_conflict
             "replacement history does not extend the exact persisted revision")
      else Ok ().
End store.

(** ** The store interface ([trait PersonalWorkerStore])

    Every method returns the new state of the store beside its result: [load]
    too, since a store on disk asks an operating system that may fail.  [Panic]
    stands for a call that does not return. *)
Class PersonalWorkerStore (S : Type) := {
  store_load : S → S * result PersonalWorkerStoreError (option PersonalWorkerStoreDocument);
  store_create : S → PersonalWorkerStoreDocument →
    S * result PersonalWorkerStoreError PersonalWorkerStoreWriteReceipt;
  store_replace_if_revision : S → PersonalWorkerStoreRevision → PersonalWorkerStoreDocument →
    S * result PersonalWorkerStoreError PersonalWorkerStoreWriteReceipt;
  store_recover : S → S * result PersonalWorkerStoreError PersonalWorkerStoreRecovery;
}.
