(* ===== verification/StoreTransaction.v ===== *)
(** * Mutations of the durable document

    [src/src/personal_worker_store_transaction.rs]: the eleven typed mutations,
    their effect on a snapshot ([apply_to_snapshot], one definition per arm of
    its [match]) and the transaction that recovers, checks, applies and
    publishes one of them ([apply_personal_worker_store_mutation]). *)

From S2P Require Import Prelude Artifact ExecutionAdmission AdmissionLifecycle PidCapacity WorkerQueue.
From S2P Require Import StoreWire WorkerStore.

Local Open Scope N_scope.

Definition PERSONAL_WORKER_STORE_TRANSACTION_SCHEMA_VERSION : N := 1.

(** ** Data *)

Inductive PersonalWorkerStoreMutationClass :=
| ClassSubmit
| ClassCancel
| ClassRecordReservationAndAcquireCacheLease
| ClassMarkStarting
| ClassMarkRunning
| ClassMarkDraining
| ClassReleaseCompletionAndCacheLease
| ClassSetProfileIntent
| ClassCancelProfileIntent
| ClassObserveProfile
| ClassUpdateLastActivity.

Inductive PersonalWorkerStoreMutation :=
| Submit (request : PersonalWorkerJobRequest) (observed_at : EpochMillis)
| Cancel (request_id : ExecutionRequestId) (cancelled_at : EpochMillis)
    (draining_admission : option ExecutionAdmissionRecord)
| RecordReservationAndAcquireCacheLease (request_id : ExecutionRequestId)
    (admission : ExecutionAdmissionRecord) (cache_lease : PersonalWorkerDurableCacheLease)
| MarkStarting (request_id : ExecutionRequestId) (admission : ExecutionAdmissionRecord)
    (started_at : EpochMillis)
| MarkRunning (request_id : ExecutionRequestId) (admission : ExecutionAdmissionRecord)
| MarkDraining (request_id : ExecutionRequestId) (admission : ExecutionAdmissionRecord)
| ReleaseCompletion (request_id : ExecutionRequestId) (terminal_admission : ExecutionAdmissionRecord)
| SetProfileIntent (target : PersonalWorkerProfile) (requested_at observed_at : EpochMillis)
| CancelProfileIntent (observed_at : EpochMillis)
| ObserveProfile (profile : PersonalWorkerProfile) (observed_at : EpochMillis)
| UpdateLastActivity (last_activity_at observed_at : EpochMillis).

Definition class (self : PersonalWorkerStoreMutation) : PersonalWorkerStoreMutationClass :=
  match self with
  | Submit _ _ => ClassSubmit
  | Cancel _ _ _ => ClassCancel
  | RecordReservationAndAcquireCacheLease _ _ _ => ClassRecordReservationAndAcquireCacheLease
  | MarkStarting _ _ _ => ClassMarkStarting
  | MarkRunning _ _ => ClassMarkRunning
  | MarkDraining _ _ => ClassMarkDraining
  | ReleaseCompletion _ _ => ClassReleaseCompletionAndCacheLease
  | SetProfileIntent _ _ _ => ClassSetProfileIntent
  | CancelProfileIntent _ => ClassCancelProfileIntent
  | ObserveProfile _ _ => ClassObserveProfile
  | UpdateLastActivity _ _ => ClassUpdateLastActivity
  end.

Inductive PersonalWorkerStoreMutationDisposition :=
| MutationApplied
| MutationDuplicate.

Record PersonalWorkerStoreMutationReceipt := mkMutationReceipt {
  mr_schema_version : N;
  mr_disposition : PersonalWorkerStoreMutationDisposition;
  mr_mutation : PersonalWorkerStoreMutationClass;
  mr_old_revision : PersonalWorkerStoreRevision;
  mr_new_revision : PersonalWorkerStoreRevision;
  mr_old_queue_generation : PersonalWorkerQueueGeneration;
  mr_new_queue_generation : PersonalWorkerQueueGeneration;
}.

Inductive PersonalWorkerStoreMutationErrorKind :=
| MutMissingState
| MutStaleRevision
| MutStaleQueueGeneration
| MutNotFound
| MutConflict
| MutCapacityReached
| MutInvalidMutation
| MutBusy
| MutIo
| MutUnsafeFilesystem
| MutVersionIncompatible
| MutCorruptState.

Record PersonalWorkerStoreMutationError := mkMutationError {
  pme_kind : PersonalWorkerStoreMutationErrorKind;
  pme_message : string;
}.

Definition invalid (message : string) : PersonalWorkerStoreMutationError :=
  mkMutationError MutInvalidMutation message.

Definition conflict (message : string) : PersonalWorkerStoreMutationError :=
  mkMutationError MutConflict message.

Definition not_found : PersonalWorkerStoreMutationError :=
  mkMutationError MutNotFound "personal worker mutation target does not exist".

Definition map_store_error (error : PersonalWorkerStoreError) : PersonalWorkerStoreMutationError :=
  match pse_kind error with
  | RevisionConflict => mkMutationError MutStaleRevision
      "durable personal worker state changed before mutation publication"
  | Busy => mkMutationError MutBusy "durable personal worker state is busy"
  | Missing => mkMutationError MutMissingState "durable personal worker state does not exist"
  | Io => mkMutationError MutIo
      "durable personal worker mutation could not be read or published"
  | UnsafeFilesystem => mkMutationError MutUnsafeFilesystem
      "durable personal worker state contains an unsafe filesystem object"
  | VersionIncompatible => mkMutationError MutVersionIncompatible
      "durable personal worker state schema is incompatible; explicit migration is required"
  | CorruptState => mkMutationError MutCorruptState
      "durable personal worker state is corrupt or noncanonical"
  | InvalidDocument => invalid
      "personal worker mutation does not produce a valid durable document"
  end.

Inductive MutationApplication :=
| Duplicate
| Applied (queue : PersonalWorkerQueueInput) (leases : list PersonalWorkerDurableCacheLease)
    (terminal_tombstones : list PersonalWorkerTerminalTombstone) (observed_at : EpochMillis).

(** ** The locals of [apply_to_snapshot]

    The cloned queue, leases and tombstones the arms of the [match] mutate. *)
Record snapshot := mkSnapshot {
  sn_queue : PersonalWorkerQueueInput;
  sn_leases : list PersonalWorkerDurableCacheLease;
  sn_tombstones : list PersonalWorkerTerminalTombstone;
}.

(** What an arm yields: the early return of [Duplicate], or the mutated locals
    and the pair [(observed_at, activity_at)]. *)
Inductive arm :=
| ArmDuplicate
| ArmApplied (sn : snapshot) (observed_at : EpochMillis) (activity_at : option EpochMillis).

Definition set_queued (queued : list PersonalWorkerJobRequest) (q : PersonalWorkerQueueInput)
    : PersonalWorkerQueueInput :=
  mkQueueInput (qi_generation q) (qi_observed_at q) (qi_profile_observation q)
    (qi_activity_evidence q) queued (qi_active q) (qi_pending_profile_change q).

Definition set_active (active : list PersonalWorkerActiveReservation)
    (q : PersonalWorkerQueueInput) : PersonalWorkerQueueInput :=
  mkQueueInput (qi_generation q) (qi_observed_at q) (qi_profile_observation q)
    (qi_activity_evidence q) (qi_queued q) active (qi_pending_profile_change q).

Definition set_pending (pending : option PersonalWorkerPendingProfileChange)
    (q : PersonalWorkerQueueInput) : PersonalWorkerQueueInput :=
  mkQueueInput (qi_generation q) (qi_observed_at q) (qi_profile_observation q)
    (qi_activity_evidence q) (qi_queued q) (qi_active q) pending.

Definition set_profile_observation (profile : PersonalWorkerProfileObservation)
    (q : PersonalWorkerQueueInput) : PersonalWorkerQueueInput :=
  mkQueueInput (qi_generation q) (qi_observed_at q) profile
    (qi_activity_evidence q) (qi_queued q) (qi_active q) (qi_pending_profile_change q).

Definition set_activity_evidence (activity : PersonalWorkerActivityEvidence)
    (q : PersonalWorkerQueueInput) : PersonalWorkerQueueInput :=
  mkQueueInput (qi_generation q) (qi_observed_at q) (qi_profile_observation q)
    activity (qi_queued q) (qi_active q) (qi_pending_profile_change q).

Definition set_clock (generation : PersonalWorkerQueueGeneration) (observed_at : EpochMillis)
    (q : PersonalWorkerQueueInput) : PersonalWorkerQueueInput :=
  mkQueueInput generation observed_at (qi_profile_observation q)
    (qi_activity_evidence q) (qi_queued q) (qi_active q) (qi_pending_profile_change q).

Definition set_cancellation (c : PersonalWorkerCancellationState) (r : PersonalWorkerJobRequest)
    : PersonalWorkerJobRequest :=
  mkRequest (rq_identity r) (rq_source r) (rq_priority r) (rq_requested_limits r)
    (rq_cache_namespace r) (rq_cache_access r) (rq_submitted_at r) (rq_operator_deadline r)
    c (rq_fallback_eligibility r).

Definition with_queue (sn : snapshot) (q : PersonalWorkerQueueInput) : snapshot :=
  mkSnapshot q (sn_leases sn) (sn_tombstones sn).

Definition queued_index (queue : PersonalWorkerQueueInput) (request_id : ExecutionRequestId)
    : option nat :=
  position (λ request, bool_decide (rq_id request = request_id)) (qi_queued queue).

Definition active_index (queue : PersonalWorkerQueueInput) (request_id : ExecutionRequestId)
    : option nat :=
  position (λ active, bool_decide (ac_id active = request_id)) (qi_active queue).

(** [active_mut]: the slot of the active reservation and what it holds. *)
Definition active_mut (queue : PersonalWorkerQueueInput) (request_id : ExecutionRequestId)
    : result PersonalWorkerStoreMutationError (nat * PersonalWorkerActiveReservation) :=
  index ← ok_or (active_index queue request_id) not_found;
  active ← expect (qi_active queue !! index);
  Ok (index, active).

(** A write through the reference [active_mut] returned. *)
Definition write_active (index : nat) (active : PersonalWorkerActiveReservation)
    (queue : PersonalWorkerQueueInput) : PersonalWorkerQueueInput :=
  set_active (<[index := active]> (qi_active queue)) queue.

(** ** The arms of [apply_to_snapshot] *)

Definition apply_submit (sn : snapshot) (request : PersonalWorkerJobRequest)
    (observed_at : EpochMillis) : result PersonalWorkerStoreMutationError arm :=
  let queue := sn_queue sn in
  if existsb (λ tombstone, bool_decide (tt_id tombstone = rq_id request)) (sn_tombstones sn)
  then Err (conflict "personal worker request identity already has durable terminal evidence")
  else
    let same_id existing := bool_decide (rq_id existing = rq_id request) in
    match match List.find same_id (qi_queued queue) with
          | Some existing => Some existing
          | None => List.find same_id (ac_request <$> qi_active queue)
          end with
    | Some existing =>
        if bool_decide (existing = request) then Ok ArmDuplicate
        else Err (conflict
               "personal worker request identity is already bound to different semantics")
    | None =>
        if (MAX_PERSONAL_WORKER_QUEUE_ENTRIES <=? length (qi_queued queue))%nat
        then Err (mkMutationError MutCapacityReached
               "personal worker queue has reached its accepted capacity")
        else Ok (ArmApplied (with_queue sn (set_queued (qi_queued queue ++ [request]) queue))
                   observed_at (Some observed_at))
    end.

(** [Cancel] of a queued request. *)
Definition apply_cancel_queued (sn : snapshot) (index : nat) (cancelled_at : EpochMillis)
    (draining_admission : option ExecutionAdmissionRecord)
    : result PersonalWorkerStoreMutationError arm :=
  let queue := sn_queue sn in
  if is_some draining_admission
  then Err (invalid "queued cancellation must not include active drain evidence")
  else
    request ← expect (qi_queued queue !! index);
    match rq_cancellation request with
    | CancellationActive =>
        Ok (ArmApplied
              (with_queue sn (set_queued
                 (<[index := set_cancellation (CancellationCancelled cancelled_at) request]>
                    (qi_queued queue)) queue))
              cancelled_at (Some cancelled_at))
    | CancellationCancelled existing =>
        if existing =? cancelled_at then Ok ArmDuplicate
        else Err (conflict
               "personal worker cancellation identity is already bound to different evidence")
    end.

(** [Cancel] of an active reservation. *)
Definition apply_cancel_active (sn : snapshot) (index : nat) (cancelled_at : EpochMillis)
    (draining_admission : option ExecutionAdmissionRecord)
    : result PersonalWorkerStoreMutationError arm :=
  let queue := sn_queue sn in
  next ← ok_or draining_admission
    (invalid "active cancellation requires exact draining admission evidence");
  if bool_decide (ear_state next ≠ Draining)
  then Err (invalid "active cancellation admission must be draining")
  else
    active ← expect (qi_active queue !! index);
    let transition_to_drain :=
      transition ← map_err (λ _, invalid
          "active cancellation violates admission transition ordering")
        (plan_transition (ac_admission active) next);
      let active := mkActive
        (set_cancellation (CancellationCancelled cancelled_at) (ac_request active))
        (eat_resulting_record transition) (ac_started_at active) in
      Ok (ArmApplied (with_queue sn (write_active index active queue))
            (ear_observed_at (ac_admission active)) (Some cancelled_at)) in
    match rq_cancellation (ac_request active) with
    | CancellationCancelled existing =>
        if (existing =? cancelled_at) && bool_decide (ac_admission active = next)
        then Ok ArmDuplicate
        else if negb (existing =? cancelled_at)
        then Err (conflict
               "personal worker cancellation identity is already bound to different evidence")
        else transition_to_drain
    | CancellationActive => transition_to_drain
    end.

Definition apply_cancel (sn : snapshot) (request_id : ExecutionRequestId)
    (cancelled_at : EpochMillis) (draining_admission : option ExecutionAdmissionRecord)
    : result PersonalWorkerStoreMutationError arm :=
  match queued_index (sn_queue sn) request_id with
  | Some index => apply_cancel_queued sn index cancelled_at draining_admission
  | None =>
      match active_index (sn_queue sn) request_id with
      | Some index => apply_cancel_active sn index cancelled_at draining_admission
      | None => Err not_found
      end
  end.

Definition apply_record_reservation (sn : snapshot) (request_id : ExecutionRequestId)
    (admission : ExecutionAdmissionRecord) (cache_lease : PersonalWorkerDurableCacheLease)
    : result PersonalWorkerStoreMutationError arm :=
  let queue := sn_queue sn in
  if bool_decide (ear_state admission ≠ Reserved)
  then Err (invalid "reservation mutation requires reserved admission evidence")
  else
    match active_index queue request_id with
    | Some index =>
        active ← expect (qi_active queue !! index);
        let exact_lease := List.find (λ lease, bool_decide (cl_request_id lease = request_id))
                             (sn_leases sn) in
        if bool_decide (ac_admission active = admission)
           && negb (is_some (ac_started_at active))
           && bool_decide (exact_lease = Some cache_lease)
        then Ok ArmDuplicate
        else Err (conflict
               "personal worker reservation identity is already bound to different evidence")
    | None =>
        index ← ok_or (queued_index queue request_id) not_found;
        request ← expect (qi_queued queue !! index);
        let queued := delete index (qi_queued queue) in
        if is_cancelled (rq_cancellation request)
        then Err (invalid "cancelled queued work cannot acquire a reservation")
        else if bool_decide (ear_identity admission ≠ rq_identity request)
                || bool_decide (cl_request_id cache_lease ≠ request_id)
        then Err (conflict "reservation mutation identity does not match the queued request")
        else
          let active := qi_active queue ++ [mkActive request admission None] in
          pushed ← expect (list.last active);
          let observed_at := ear_observed_at (ac_admission pushed) in
          Ok (ArmApplied
                (mkSnapshot (set_active active (set_queued queued queue))
                   (sn_leases sn ++ [cache_lease]) (sn_tombstones sn))
                observed_at (Some observed_at))
    end.

Definition apply_mark_starting (sn : snapshot) (request_id : ExecutionRequestId)
    (admission : ExecutionAdmissionRecord) (started_at : EpochMillis)
    : result PersonalWorkerStoreMutationError arm :=
  let queue := sn_queue sn in
  if bool_decide (ear_state admission ≠ Starting)
  then Err (invalid "starting mutation requires starting admission evidence")
  else
    '(index, active) ← active_mut queue request_id;
    if bool_decide (ac_admission active = admission)
       && bool_decide (ac_started_at active = Some started_at)
    then Ok ArmDuplicate
    else if is_some_and (λ existing, negb (existing =? started_at)) (ac_started_at active)
    then Err (conflict "personal worker start time is already bound to different evidence")
    else
      transition ← map_err (λ _, invalid
          "starting mutation violates admission transition ordering")
        (plan_transition (ac_admission active) admission);
      let active := mkActive (ac_request active) (eat_resulting_record transition)
                      (Some started_at) in
      let observed_at := ear_observed_at (ac_admission active) in
      Ok (ArmApplied (with_queue sn (write_active index active queue))
            observed_at (Some observed_at)).

(** [apply_active_transition]: [None] when the reservation already carries the
    admission, the changed queue and the observation time otherwise. *)
Definition apply_active_transition (queue : PersonalWorkerQueueInput)
    (request_id : ExecutionRequestId) (admission : ExecutionAdmissionRecord)
    (required_state : ExecutionAdmissionState) (invalid_message : string)
    : result PersonalWorkerStoreMutationError (option (PersonalWorkerQueueInput * EpochMillis)) :=
  if bool_decide (ear_state admission ≠ required_state)
  then Err (invalid "personal worker mutation carries the wrong admission state")
  else
    '(index, active) ← active_mut queue request_id;
    if bool_decide (ac_admission active = admission) then Ok None
    else
      transition ← map_err (λ _, invalid invalid_message)
        (plan_transition (ac_admission active) admission);
      let active := mkActive (ac_request active) (eat_resulting_record transition)
                      (ac_started_at active) in
      Ok (Some (write_active index active queue, ear_observed_at (ac_admission active))).

(** [MarkRunning] and [MarkDraining]. *)
Definition apply_mark (sn : snapshot) (request_id : ExecutionRequestId)
    (admission : ExecutionAdmissionRecord) (required_state : ExecutionAdmissionState)
    (invalid_message : string) : result PersonalWorkerStoreMutationError arm :=
  moved ← apply_active_transition (sn_queue sn) request_id admission required_state
            invalid_message;
  match moved with
  | Some (queue, observed_at) => Ok (ArmApplied (with_queue sn queue) observed_at (Some observed_at))
  | None => Ok ArmDuplicate
  end.

Definition apply_set_profile_intent (sn : snapshot) (target : PersonalWorkerProfile)
    (requested_at observed_at : EpochMillis) : result PersonalWorkerStoreMutationError arm :=
  let queue := sn_queue sn in
  let next := mkPendingProfileChange target requested_at in
  if bool_decide (qi_pending_profile_change queue = Some next) then Ok ArmDuplicate
  else if is_some_and (λ current, requested_at <? pc_requested_at current)
            (qi_pending_profile_change queue)
  then Err (invalid "profile intent evidence cannot move backwards")
  else Ok (ArmApplied (with_queue sn (set_pending (Some next) queue))
             observed_at (Some observed_at)).

Definition apply_cancel_profile_intent (sn : snapshot) (observed_at : EpochMillis)
    : result PersonalWorkerStoreMutationError arm :=
  let queue := sn_queue sn in
  if negb (is_some (qi_pending_profile_change queue)) then Ok ArmDuplicate
  else Ok (ArmApplied (with_queue sn (set_pending None queue)) observed_at (Some observed_at)).

Definition apply_observe_profile (sn : snapshot) (profile : PersonalWorkerProfile)
    (observed_at : EpochMillis) : result PersonalWorkerStoreMutationError arm :=
  let queue := sn_queue sn in
  let next := ProfileObserved profile in
  if bool_decide (qi_profile_observation queue = next) && (qi_observed_at queue =? observed_at)
  then Ok ArmDuplicate
  else Ok (ArmApplied (with_queue sn (set_profile_observation next queue)) observed_at None).

Definition apply_update_last_activity (sn : snapshot) (activity observed_at : EpochMillis)
    : result PersonalWorkerStoreMutationError arm :=
  let queue := sn_queue sn in
  let last := last_activity_at (qi_activity_evidence queue) in
  if is_some_and (λ current, activity <? current) last
  then Err (invalid "last-activity evidence cannot move backwards")
  else if bool_decide (last = Some activity) && (observed_at =? qi_observed_at queue)
  then Ok ArmDuplicate
  else Ok (ArmApplied sn observed_at (Some activity)).

Section transaction.
Context `{SER : !StoreSerde}.

Definition apply_release (sn : snapshot) (request_id : ExecutionRequestId)
    (terminal_admission : ExecutionAdmissionRecord)
    : result PersonalWorkerStoreMutationError arm :=
  let queue := sn_queue sn in
  if bool_decide (ear_state terminal_admission ≠ Unavailable)
  then Err (invalid "release mutation requires terminal unavailable admission evidence")
  else if bool_decide (ExecutionAdmission.request_id (ear_identity terminal_admission) ≠ request_id)
  then Err (conflict
         "release mutation request identity does not match terminal admission evidence")
  else
    match active_index queue request_id with
    | None =>
        match List.find (λ tombstone, bool_decide (tt_id tombstone = request_id))
                (sn_tombstones sn) with
        | Some existing =>
            if bool_decide (tt_terminal_admission existing = terminal_admission)
            then Ok ArmDuplicate
            else Err (conflict
                   "personal worker terminal identity is already bound to different evidence")
        | None => Err not_found
        end
    | Some index =>
        active ← expect (qi_active queue !! index);
        transition ← map_err (λ _, invalid
            "release mutation violates admission transition ordering")
          (plan_transition (ac_admission active) terminal_admission);
        lease_index ← ok_or
          (position (λ lease, bool_decide (cl_request_id lease = request_id)) (sn_leases sn))
          (mkMutationError MutCorruptState
             "active personal worker reservation is missing its durable cache lease");
        lease ← expect (sn_leases sn !! lease_index);
        tombstone ← map_err (λ _, invalid
            "release mutation does not produce valid durable terminal evidence")
          (Tombstone_new (ac_request active) (eat_resulting_record transition)
             (ac_started_at active) lease);
        let observed_at := completed_at tombstone in
        let tombstones := sn_tombstones sn ++ [tombstone] in
        let tombstones :=
          if (MAX_PERSONAL_WORKER_TERMINAL_TOMBSTONES <? length tombstones)%nat
          then tail tombstones else tombstones in
        Ok (ArmApplied
              (mkSnapshot (set_active (delete index (qi_active queue)) queue)
                 (delete lease_index (sn_leases sn)) tombstones)
              observed_at (Some observed_at))
    end.

(** The [match] on the mutation. *)
Definition apply_arm (sn : snapshot) (mutation : PersonalWorkerStoreMutation)
    : result PersonalWorkerStoreMutationError arm :=
  match mutation with
  | Submit request observed_at => apply_submit sn request observed_at
  | Cancel request_id cancelled_at draining => apply_cancel sn request_id cancelled_at draining
  | RecordReservationAndAcquireCacheLease request_id admission cache_lease =>
      apply_record_reservation sn request_id admission cache_lease
  | MarkStarting request_id admission started_at =>
      apply_mark_starting sn request_id admission started_at
  | MarkRunning request_id admission =>
      apply_mark sn request_id admission Running
        "running mutation violates admission transition ordering"
  | MarkDraining request_id admission =>
      apply_mark sn request_id admission Draining
        "draining mutation violates admission transition ordering"
  | ReleaseCompletion request_id terminal_admission =>
      apply_release sn request_id terminal_admission
  | SetProfileIntent target requested_at observed_at =>
      apply_set_profile_intent sn target requested_at observed_at
  | CancelProfileIntent observed_at => apply_cancel_profile_intent sn observed_at
  | ObserveProfile profile observed_at => apply_observe_profile sn profile observed_at
  | UpdateLastActivity activity observed_at => apply_update_last_activity sn activity observed_at
  end.

(** The activity update that ends [apply_to_snapshot]. *)
Definition record_activity (queue : PersonalWorkerQueueInput) (activity_at : option EpochMillis)
    : result PersonalWorkerStoreMutationError PersonalWorkerQueueInput :=
  match activity_at with
  | Some activity =>
      if is_some_and (λ current, activity <? current)
           (last_activity_at (qi_activity_evidence queue))
      then Err (invalid "personal worker activity evidence cannot move backwards")
      else Ok (set_activity_evidence (ActivityObserved activity) queue)
  | None => Ok queue
  end.

Definition apply_to_snapshot (current : PersonalWorkerStoreDocument)
    (mutation : PersonalWorkerStoreMutation)
    : result PersonalWorkerStoreMutationError MutationApplication :=
  applied ← apply_arm (mkSnapshot (sd_queue current) (sd_cache_leases current)
                         (sd_terminal_tombstones current)) mutation;
  match applied with
  | ArmDuplicate => Ok Duplicate
  | ArmApplied sn observed_at activity_at =>
      queue ← record_activity (sn_queue sn) activity_at;
      Ok (Applied queue (sn_leases sn) (sn_tombstones sn) observed_at)
  end.

(** The part of [apply_personal_worker_store_mutation] between the application
    and the publication: move the clocks and advance the document. *)
Definition successor_document (current : PersonalWorkerStoreDocument)
    (queue : PersonalWorkerQueueInput) (leases : list PersonalWorkerDurableCacheLease)
    (terminal_tombstones : list PersonalWorkerTerminalTombstone) (observed_at : EpochMillis)
    : result PersonalWorkerStoreMutationError PersonalWorkerStoreDocument :=
  if observed_at <? qi_observed_at queue
  then Err (invalid "personal worker mutation observation cannot move backwards")
  else
    generation ← map_err (λ _, invalid
        "personal worker queue generation cannot advance for this mutation")
      (QueueGeneration_next (qi_generation queue));
    map_err (λ _, invalid "personal worker mutation does not produce a valid durable successor")
      (advance_with_terminal_tombstones current (set_clock generation observed_at queue)
         leases terminal_tombstones).

Definition apply_personal_worker_store_mutation {S} `{!PersonalWorkerStore S}
    (expected_revision : PersonalWorkerStoreRevision)
    (expected_queue_generation : PersonalWorkerQueueGeneration)
    (mutation : PersonalWorkerStoreMutation)
    : stM S PersonalWorkerStoreMutationError PersonalWorkerStoreMutationReceipt :=
  _ ← callM map_store_error store_recover;
  loaded ← callM map_store_error store_load;
  current ← pureM (ok_or loaded (mkMutationError MutMissingState
              "durable personal worker state does not exist"));
  if negb (sd_revision current =? expected_revision)
  then pureM (Err (mkMutationError MutStaleRevision
         "personal worker store revision does not match the exact expected revision"))
  else if negb (qi_generation (sd_queue current) =? expected_queue_generation)
  then pureM (Err (mkMutationError MutStaleQueueGeneration
         "personal worker queue generation does not match the exact expected generation"))
  else
    let old_revision := sd_revision current in
    let old_generation := qi_generation (sd_queue current) in
    application ← pureM (apply_to_snapshot current mutation);
    match application with
    | Duplicate =>
        mret (mkMutationReceipt PERSONAL_WORKER_STORE_TRANSACTION_SCHEMA_VERSION
          MutationDuplicate (class mutation) old_revision old_revision
          old_generation old_generation)
    | Applied queue leases terminal_tombstones observed_at =>
        next ← pureM (successor_document current queue leases terminal_tombstones observed_at);
        write ← callM map_store_error
          (λ store, store_replace_if_revision store expected_revision next);
        if negb (bool_decide (wrc_disposition write = WriteReplaced))
           || negb (wrc_revision write =? sd_revision next)
        then pureM (Err (mkMutationError MutCorruptState
               "personal worker store returned an invalid mutation publication receipt"))
        else
          mret (mkMutationReceipt PERSONAL_WORKER_STORE_TRANSACTION_SCHEMA_VERSION
            MutationApplied (class mutation) old_revision (sd_revision next)
            old_generation (qi_generation (sd_queue next)))
    end.
End transaction.
