(* ===== verification/StoreDocument.v ===== *)
(** * What a valid store document guarantees

    Theorems about [WorkerStore]: the cache leases of a valid document account
    for its active reservations one to one, its tombstones are bounded, unique
    and apart from live work, and along every chain of accepted replacements
    the history is the last 32 entries of the full revision log. *)

From S2P Require Import Prelude SortBy Artifact ExecutionAdmission AdmissionLifecycle PidCapacity.
From S2P Require Import WorkerQueue QueueSchedule QueueTheorems StoreWire WorkerStore.

Local Open Scope N_scope.

(** ** Revisions and generations *)

Lemma StoreRevision_next_Ok r r' : StoreRevision_next r = Ok r' →
  r' = r + 1 ∧ r + 1 ≤ MAX_PERSONAL_WORKER_STORE_REVISION.
Proof.
  unfold StoreRevision_next. intros H. inv_ok H.
  destruct (checked_add _ _ _) as [v|] eqn:Hv; [|done]. apply checked_add_Some in Hv as [-> _].
  simpl in H. case_match; [|done]. bprop. by injection H as <-.
Qed.

Lemma next_queue_generation_Ok g g' : next_queue_generation g = Ok g' → g' = g + 1.
Proof.
  unfold next_queue_generation. intros H. inv_ok H. apply ok_or_Ok, checked_add_Some in Hy as [-> _].
  unfold QueueGeneration_new in H. inv_ok H. congruence.
Qed.

(** ** Cache leases *)

(** A lease agrees with the reservation it belongs to. *)
Record lease_matches (lease : PersonalWorkerDurableCacheLease)
    (active : PersonalWorkerActiveReservation) : Prop := {
  lm_owner : cl_request_id lease = ac_id active;
  lm_namespace : cl_namespace lease = rq_cache_namespace (ac_request active);
  lm_access : cl_access lease = rq_cache_access (ac_request active);
  lm_reservation : ∃ evidence, ear_reservation (ac_admission active) = Some evidence ∧
    cl_reservation_id lease = res_id evidence ∧
    cl_reservation_generation lease = res_generation evidence ∧
    reserved_at evidence ≤ cl_acquired_at lease ≤ ear_observed_at (ac_admission active);
}.

Lemma active_by_id_Some active id a :
  active_by_id active !! id = Some a → a ∈ active ∧ ac_id a = id.
Proof.
  unfold active_by_id. induction active as [|x active IH] using rev_ind; [done|].
  rewrite foldl_app. simpl. rewrite lookup_insert. case_decide as Hid.
  - intros [= <-]. split; [|done]. apply elem_of_app. right. by left.
  - intros H. apply IH in H as [? ?]. split; [|done]. apply elem_of_app. by left.
Qed.

Lemma lease_step_Ok m owners held lease s :
  lease_step m (owners, held) lease = Ok s →
  cl_request_id lease ∉ owners ∧ s.1 = {[cl_request_id lease]} ∪ owners ∧
  ∃ a, m !! cl_request_id lease = Some a ∧ (ac_id a = cl_request_id lease → lease_matches lease a).
Proof.
  unfold lease_step. intros H. inv_ok H. all: injection H as <-; inv_opts; bprop.
  all: split_and!; [done..|]; eexists; split; [eassumption|]; intros Hid.
  all: split; [done|congruence..|]; eexists; split_and!; [eassumption|congruence..|lia|lia].
Qed.

Lemma lease_fold_Ok m l owners held s :
  fold_result (lease_step m) (owners, held) l = Ok s →
  NoDup (cl_request_id <$> l) ∧
  ∀ lease, lease ∈ l → cl_request_id lease ∉ owners ∧
    ∃ a, m !! cl_request_id lease = Some a ∧ (ac_id a = cl_request_id lease → lease_matches lease a).
Proof.
  revert owners held. induction l as [|x l IH]; intros owners held H; simpl in H.
  { split; [constructor|]. intros lease Hl. by apply elem_of_nil in Hl. }
  inv_ok H. destruct y as [owners' held']. apply lease_step_Ok in Hy as (Hfresh & Hown & Hx).
  simpl in Hown. subst. apply IH in H as [Hnd Hall]. csimpl. split.
  - constructor; [|done]. intros (y & Heq & Hy)%list_elem_of_fmap.
    destruct (Hall y Hy) as [Hno _]. apply Hno. rewrite <-Heq. set_solver.
  - intros lease [->|Hl]%elem_of_cons; [done|]. destruct (Hall lease Hl) as [Hno Ha].
    split; [set_solver|done].
Qed.

(** Equal length and no duplicates make an injection a bijection. *)
Lemma NoDup_covering {A} (l k : list A) :
  NoDup l → length l = length k → (∀ x, x ∈ l → x ∈ k) → l ≡ₚ k.
Proof.
  intros Hnd Hlen Hsub. apply submseteq_length_Permutation; [by apply NoDup_submseteq|lia].
Qed.

Lemma validate_cache_leases_Ok queue leases u :
  validate_cache_leases queue leases = Ok u →
  (cl_request_id <$> leases) ≡ₚ (ac_id <$> qi_active queue) ∧
  ∀ lease, lease ∈ leases → ∃ a, a ∈ qi_active queue ∧ lease_matches lease a.
Proof.
  unfold validate_cache_leases. intros H. inv_ok H. apply lease_fold_Ok in Hy as [Hnd Hall].
  bprop. apply Nat.eqb_eq in Heqb.
  assert (∀ lease, lease ∈ leases → ∃ a, a ∈ qi_active queue ∧ lease_matches lease a) as Hm.
  { intros lease Hl. destruct (Hall lease Hl) as (_ & a & Ha & Hmatch).
    apply active_by_id_Some in Ha as [Ha Hid]. eauto. }
  split; [|done]. apply NoDup_covering; [done|by rewrite !length_fmap|].
  intros id (lease & -> & Hl)%list_elem_of_fmap. destruct (Hm lease Hl) as (a & Ha & Hmatch).
  rewrite (lm_owner _ _ Hmatch). by apply list_elem_of_fmap_2.
Qed.

Section document.
Context `{SER : !StoreSerde}.

(** ** Tombstones *)

Lemma tombstone_fold_Ok live l ids prev s :
  fold_result (tombstone_step live) (ids, prev) l = Ok s →
  Forall (λ t, validate_tombstone t = Ok ()) l ∧ NoDup (tt_id <$> l) ∧
  (∀ t, t ∈ l → tt_id t ∉ live ∧ tt_id t ∉ ids ∧ ∀ p, prev = Some p → p ≤ completed_at t) ∧
  StronglySorted (λ t t', completed_at t ≤ completed_at t') l.
Proof.
  revert ids prev. induction l as [|x l IH]; intros ids prev H; simpl in H.
  { split_and!; [constructor..| |constructor]. intros t Ht. by apply elem_of_nil in Ht. }
  apply bind_Ok in H as (s' & Hx & H). unfold tombstone_step in Hx. inv_ok Hx.
  injection Hx as <-. bprop. apply IH in H as (Hval & Hnd & Hall & Hsorted). csimpl.
  split_and!.
  - constructor; [by destruct y|done].
  - constructor; [|done]. intros (t & Heq & Ht)%list_elem_of_fmap.
    destruct (Hall t Ht) as (_ & Hno & _). apply Hno. rewrite <-Heq. set_solver.
  - intros t [->|Ht]%elem_of_cons.
    + split_and!; [done..|]. intros p ->. simpl in *. by bprop.
    + destruct (Hall t Ht) as (Hl & Hno & Hle). split_and!; [done|set_solver|].
      intros p ->. simpl in *. bprop. etrans; [|by apply Hle]. done.
  - constructor; [done|]. apply Forall_forall. intros t Ht. destruct (Hall t Ht) as (_ & _ & Hle).
    by apply Hle.
Qed.

(** What the ledger of a valid document satisfies. *)
Record ledger_ok (queue : PersonalWorkerQueueInput)
    (tombstones : list PersonalWorkerTerminalTombstone) : Prop := {
  lo_bounded : (length tombstones ≤ MAX_PERSONAL_WORKER_TERMINAL_TOMBSTONES)%nat;
  lo_valid : Forall (λ t, validate_tombstone t = Ok ()) tombstones;
  lo_unique : NoDup (tt_id <$> tombstones);
  lo_apart : ∀ t, t ∈ tombstones → tt_id t ∉ live_ids_of queue;
  lo_ordered : StronglySorted (λ t t', completed_at t ≤ completed_at t') tombstones;
}.

Lemma validate_terminal_tombstones_Ok queue tombstones u :
  validate_terminal_tombstones queue tombstones = Ok u → ledger_ok queue tombstones.
Proof.
  unfold validate_terminal_tombstones. intros H. inv_ok H.
  apply tombstone_fold_Ok in Hy as (Hval & Hnd & Hall & Hs). apply Nat.ltb_ge in Heqb.
  split; [done..| |done]. intros t Ht. by apply Hall.
Qed.

(** ** Documents *)

Record document_ok (d : PersonalWorkerStoreDocument) : Prop := {
  do_schema : sd_schema_version d = PERSONAL_WORKER_STORE_SCHEMA_VERSION;
  do_input : validate_input (sd_queue d) = Ok ();
  do_leases : validate_cache_leases (sd_queue d) (sd_cache_leases d) = Ok ();
  do_tombstones : ledger_ok (sd_queue d) (sd_terminal_tombstones d);
  do_history : validate_history (sd_revision d) (qi_generation (sd_queue d))
    (qi_observed_at (sd_queue d)) (sd_history d) = Ok ();
}.

Lemma validate_document_Ok d u : validate_document d = Ok u → document_ok d.
Proof.
  unfold validate_document. intros H. inv_ok H. inv_opts. bprop.
  apply evaluate_Ok_valid in Hy as [_ Hin]. destruct u, y0.
  split; [done..|by eapply validate_terminal_tombstones_Ok|done].
Qed.

Lemma from_parts_Ok revision queue leases tombstones history d :
  from_parts revision queue leases tombstones history = Ok d →
  d = mkDocument PERSONAL_WORKER_STORE_SCHEMA_VERSION revision queue leases tombstones history ∧
  validate_document d = Ok ().
Proof. unfold from_parts. intros H. inv_ok H. injection H as <-. by destruct y. Qed.

(** An accepted advance: clocks move by one, the summary joins the history. *)
Lemma advance_Ok d queue leases tombstones d' :
  advance_with_terminal_tombstones d queue leases tombstones = Ok d' →
  ∃ entry, summary d = Ok entry ∧ StoreRevision_next (sd_revision d) = Ok (sd_revision d') ∧
    next_queue_generation (qi_generation (sd_queue d)) = Ok (qi_generation queue) ∧
    qi_observed_at (sd_queue d) ≤ qi_observed_at queue ∧
    validate_terminal_tombstone_ledger_shape (sd_terminal_tombstones d) tombstones = Ok () ∧
    validate_document d' = Ok () ∧
    d' = mkDocument PERSONAL_WORKER_STORE_SCHEMA_VERSION (sd_revision d') queue leases tombstones
           (push_history (sd_history d) entry).
Proof.
  unfold advance_with_terminal_tombstones. intros H. inv_ok H. bprop. subst.
  apply from_parts_Ok in H as [-> Hval]. destruct y0. simpl. eexists. split_and!; done.
Qed.

(** What [validate_successor_of] accepts. *)
Record succeeds (d d' : PersonalWorkerStoreDocument) : Prop := {
  su_revision : StoreRevision_next (sd_revision d) = Ok (sd_revision d');
  su_generation : next_queue_generation (qi_generation (sd_queue d))
    = Ok (qi_generation (sd_queue d'));
  su_time : qi_observed_at (sd_queue d) ≤ qi_observed_at (sd_queue d');
  su_tombstones : validate_terminal_tombstone_successor d d' = Ok ();
  su_history : ∃ entry, summary d = Ok entry ∧ sd_history d' = push_history (sd_history d) entry;
}.

Lemma validate_successor_of_iff d d' : validate_successor_of d' d = Ok () ↔ succeeds d d'.
Proof.
  split.
  - unfold validate_successor_of. intros H. inv_ok H. bprop. subst. destruct y1.
    split; [done..|]. eauto.
  - intros [Hr Hg Ht Htomb (entry & He & Hh)]. unfold validate_successor_of.
    rewrite Hr. rsimpl. rewrite N.eqb_refl. simpl. rewrite Hg. rsimpl. rewrite N.eqb_refl. simpl.
    rewrite (proj2 (N.ltb_ge _ _) Ht), Htomb, He. rsimpl.
    by rewrite bool_decide_eq_false_2 by congruence.
Qed.
End document.

(** ** The revision window *)

(** [history_to c r g t history]: the entries number revisions [r], [r+1], ...
    and generations [g], [g+1], ... up to, and not including, the current
    revision and generation [c]; observation times start at [t] or later and do
    not decrease up to the current one. *)
Fixpoint history_to (c : N * N * N) (r g t : N) (history : list PersonalWorkerHistoryEntry)
    : Prop :=
  match history with
  | [] => c.1.1 = r ∧ c.1.2 = g ∧ t ≤ c.2
  | e :: history =>
      he_revision e = r ∧ he_queue_generation e = g ∧ t ≤ he_observed_at e ∧
      history_to c (r + 1) (g + 1) (he_observed_at e) history
  end.

Lemma history_to_revision c r g t history :
  history_to c r g t history → c.1.1 = r + N.of_nat (length history) ∧
    c.1.2 = g + N.of_nat (length history).
Proof.
  revert r g t. induction history as [|e history IH]; intros r g t H; simpl in *.
  - destruct H as (-> & -> & _). lia.
  - destruct H as (_ & _ & _ & H). apply IH in H. lia.
Qed.

(** The current entry joins the window when the clocks move. *)
Lemma history_to_snoc R G T T' r g t history e :
  history_to (R, G, T) r g t history →
  he_revision e = R → he_queue_generation e = G → he_observed_at e = T → T ≤ T' →
  history_to (R + 1, G + 1, T') r g t (history ++ [e]).
Proof.
  revert r g t. induction history as [|x history IH]; intros r g t H Hr Hg Ht Hle; simpl in *.
  - destruct H as (-> & -> & H). split_and!; (done || lia).
  - destruct H as (? & ? & ? & H). split_and!; [done..|]. by apply IH.
Qed.

(** Dropping the oldest entry keeps the rest of the window. *)
Lemma history_to_tail c r g t history :
  history_to c r g t history → history ≠ [] → ∃ t', history_to c (r + 1) (g + 1) t' (tail history).
Proof. destruct history as [|e history]; [done|]. intros (_ & _ & _ & H) _. eauto. Qed.

Lemma history_fold_complete c first off pg po r g t history :
  history_to c r g t history → c.1.1 ≤ u64_max → c.1.2 ≤ u64_max → r = first + off →
  (∀ p, pg = Some p → g = p + 1) → (∀ p, po = Some p → p ≤ t) →
  is_ok (fold_result (history_step first) (off, pg, po) history) = true.
Proof.
  revert off pg po r g t. induction history as [|e history IH];
    intros off pg po r g t H HR HG Hr Hpg Hpo; simpl in *; [done|].
  pose proof (history_to_revision c r g t (e :: history) H) as [HR' HG']. simpl in HR', HG'.
  destruct H as (He & Hge & Hte & H).
  assert (saturating_add u64_max first off = r) as -> by (unfold saturating_add; lia).
  rewrite He, N.eqb_refl. simpl.
  assert (match pg with
    | Some previous => expected ← ok_or (checked_add u64_max previous 1)
        (invalid_document "personal worker store history queue generation is exhausted");
        if negb (he_queue_generation e =? expected) then Err (invalid_document
          "personal worker store history queue generations are not consecutive") else Ok ()
    | None => Ok () end = Ok ()) as ->.
  { destruct pg as [p|]; [|done]. specialize (Hpg p eq_refl). unfold checked_add.
    rewrite (proj2 (N.leb_le _ _)) by lia. rsimpl. rewrite Hge, Hpg, N.eqb_refl. done. }
  rsimpl. assert (is_some_and (λ value, he_observed_at e <? value) po = false) as ->.
  { destruct po as [p|]; [|done]. specialize (Hpo p eq_refl). simpl. lia. }
  rsimpl. apply (IH _ _ _ (r + 1) (g + 1) (he_observed_at e)); [done..|lia| |].
  - intros p [= <-]. by rewrite Hge.
  - by intros p [= <-].
Qed.

Lemma history_fold_sound R G T first history : ∀ off pg po s,
  fold_result (history_step first) (off, pg, po) history = Ok s →
  first + off + N.of_nat (length history) = R → R ≤ u64_max →
  (∀ last, list.last history = Some last → he_queue_generation last + 1 = G ∧
     he_observed_at last ≤ T) →
  match history with
  | [] => True
  | e :: _ => history_to (R, G, T) (first + off) (he_queue_generation e) (he_observed_at e) history ∧
      (∀ p, pg = Some p → he_queue_generation e = p + 1) ∧ (∀ p, po = Some p → p ≤ he_observed_at e)
  end.
Proof.
  induction history as [|e history IH]; intros off pg po s H HR Hmax Hlast; [done|].
  simpl in H. apply bind_Ok in H as (s' & Hstep & H). unfold history_step in Hstep.
  inv_ok Hstep. injection Hstep as <-. bprop. simpl in HR.
  assert (he_revision e = first + off) as He.
  { rewrite Heqb. unfold saturating_add. lia. }
  assert (∀ p, pg = Some p → he_queue_generation e = p + 1) as Hpg.
  { intros p ->. inv_ok Hy. inv_opts. apply checked_add_Some in Hy0 as [-> _]. by bprop. }
  assert (∀ p, po = Some p → p ≤ he_observed_at e) as Hpo.
  { intros p ->. simpl in *. by bprop. }
  split_and!; [|done..]. apply IH in H; [|lia|done|].
  - simpl. split_and!; [done..|]. destruct history as [|e' history].
    + destruct (Hlast e eq_refl) as [<- HT]. simpl. split_and!; simpl in *; lia.
    + destruct H as (H & Hg & Ho). specialize (Hg _ eq_refl). specialize (Ho _ eq_refl).
      rewrite <-Hg. replace (first + off + 1) with (first + (off + 1)) by lia.
      destruct H as (? & ? & _ & ?). by split_and!.
  - intros last Hl. apply Hlast. destruct history; [done|]. done.
Qed.

Definition history_ok (R G T : N) (history : list PersonalWorkerHistoryEntry) : Prop :=
  N.of_nat (length history) = N.min (R - 1) (N.of_nat MAX_PERSONAL_WORKER_HISTORY_ENTRIES) ∧
  ∃ g t, history_to (R, G, T) (R - N.of_nat (length history)) g t history.

Lemma validate_history_sound R G T history u :
  R ≤ u64_max → validate_history R G T history = Ok u → history_ok R G T history.
Proof.
  unfold validate_history. intros HR H. apply ok_guard in H as [Hlen H]. bprop.
  split; [done|]. apply bind_Ok in H as (first & Hfirst & H). inv_opts.
  unfold checked_sub in Hfirst. destruct (_ <=? R) eqn:Hle in Hfirst; [|done].
  injection Hfirst as <-. bprop.
  apply bind_Ok in H as (s & Hfold & H).
  apply (history_fold_sound R G T) in Hfold; [|lia|done|].
  - destruct history as [|e history].
    + exists G, 0. simpl. split_and!; lia.
    + destruct Hfold as [Hto _]. rewrite N.add_0_r in Hto. eauto.
  - intros last Hl. rewrite Hl in H. apply bind_Ok in H as (g & Hg & H). inv_opts.
    destruct (checked_add _ _ _) as [v|] eqn:Hv; [|done]. apply checked_add_Some in Hv as [-> _].
    simpl in Hg. apply ok_Some in Hg. unfold QueueGeneration_new in Hg. inv_ok Hg.
    injection Hg as <-. inv_ok H. bprop. lia.
Qed.

Lemma validate_history_complete R G T history :
  R ≤ u64_max → in_range 1 MAX_QUEUE_GENERATION G = true → history_ok R G T history →
  validate_history R G T history = Ok ().
Proof.
  intros HR HG [Hlen (g & t & Hto)]. unfold validate_history.
  rewrite Hlen, N.eqb_refl. simpl. rewrite <-Hlen.
  assert (G ≤ u64_max) as HG'. { bprop. unfold MAX_QUEUE_GENERATION, u64_max in *. lia. }
  unfold checked_sub. rewrite (proj2 (N.leb_le _ _)) by lia. rsimpl.
  pose proof (history_fold_complete (R, G, T) (R - N.of_nat (length history)) 0 None None
    _ _ _ _ Hto HR HG' ltac:(lia) ltac:(done) ltac:(done)) as Hok.
  destruct (fold_result _ _ history) as [s| |]; [|done..]. rsimpl.
  destruct (list.last history) as [last|] eqn:Hl; [|done].
  apply last_Some in Hl as [pre ->].
  assert (he_queue_generation last + 1 = G ∧ he_observed_at last ≤ T) as [Hg Ht].
  { clear -Hto. revert Hto. generalize (R - N.of_nat (length (pre ++ [last]))) as r. revert g t.
    induction pre as [|e pre IH]; intros g t r H; simpl in H.
    - destruct H as (_ & <- & _ & _ & <- & ?). done.
    - destruct H as (_ & _ & _ & H). by apply IH in H. }
  unfold checked_add. rewrite (proj2 (N.leb_le _ _)) by lia. simpl.
  unfold QueueGeneration_new. rewrite Hg, HG. simpl. rewrite N.eqb_refl. simpl.
  by rewrite (proj2 (N.ltb_ge _ _)).
Qed.

Lemma push_history_ok R G T T' history e :
  history_ok R G T history → 1 ≤ R →
  he_revision e = R → he_queue_generation e = G → he_observed_at e = T → T ≤ T' →
  history_ok (R + 1) (G + 1) T' (push_history history e).
Proof.
  intros [Hlen (g & t & Hto)] HR Hr Hg Ht Hle.
  pose proof (history_to_snoc _ _ _ T' _ _ _ _ e Hto Hr Hg Ht Hle) as Hto'.
  unfold push_history. rewrite length_app. simpl length.
  unfold history_ok, MAX_PERSONAL_WORKER_HISTORY_ENTRIES in *. destruct (_ <? _)%nat eqn:Hfull.
  - apply Nat.ltb_lt in Hfull.
    apply history_to_tail in Hto' as [t' Hto']; [|by destruct history].
    assert (length (tail (history ++ [e])) = length history) as Hl.
    { destruct history; simpl; [done|]. rewrite length_app. simpl. lia. }
    split; rewrite Hl; [lia|]. exists (g + 1), t'.
    replace (R + 1 - N.of_nat (length history)) with (R - N.of_nat (length history) + 1) by lia.
    done.
  - apply Nat.ltb_ge in Hfull. split; rewrite length_app; simpl length; [lia|].
    exists g, t. replace (R + 1 - N.of_nat (length history + 1)) with (R - N.of_nat (length history))
      by lia. done.
Qed.

(** ** Theorems *)

Section theorems.
Context `{SER : !StoreSerde}.

Lemma document_ids d : document_ok d →
  NoDup ((tt_id <$> sd_terminal_tombstones d)
         ++ (rq_id <$> qi_queued (sd_queue d)) ++ (ac_id <$> qi_active (sd_queue d))).
Proof.
  intros [_ Hin _ Hled _]. apply validate_input_checked in Hin. apply NoDup_app.
  split_and!; [apply Hled| |apply Hin].
  intros id (t & -> & Ht)%list_elem_of_fmap Hlive. apply (lo_apart _ _ Hled t Ht).
  unfold live_ids_of. by apply elem_of_list_to_set.
Qed.

Lemma active_ids_nodup d : document_ok d → NoDup (ac_id <$> qi_active (sd_queue d)).
Proof. intros H%document_ids. rewrite !NoDup_app in H. tauto. Qed.

(** In a valid document the durable cache leases account for the active
    reservations one to one: the owners are a permutation of the active request
    identities, and every active reservation has a lease on its namespace, in
    its access mode, bound to its reservation evidence and acquired within it. *)
Theorem leases_account_for_active (d : PersonalWorkerStoreDocument)
    (Hd : validate_document d = Ok ()) :
  (cl_request_id <$> sd_cache_leases d) ≡ₚ (ac_id <$> qi_active (sd_queue d)) ∧
  NoDup (cl_request_id <$> sd_cache_leases d) ∧
  ∀ a, a ∈ qi_active (sd_queue d) → ∃ lease, lease ∈ sd_cache_leases d ∧ lease_matches lease a.
Proof.
  apply validate_document_Ok in Hd as Hok. pose proof (active_ids_nodup d Hok) as Hnd.
  destruct (validate_cache_leases_Ok _ _ _ (do_leases d Hok)) as [Hperm Hall].
  split_and!; [done|by rewrite Hperm|]. intros a Ha.
  assert (ac_id a ∈ cl_request_id <$> sd_cache_leases d) as (lease & Hid & Hl)%list_elem_of_fmap.
  { rewrite Hperm. by apply list_elem_of_fmap_2. }
  exists lease. split; [done|]. destruct (Hall lease Hl) as (a' & Ha' & Hm).
  assert (a = a') as ->; [|done]. apply (NoDup_fmap_inj ac_id (qi_active (sd_queue d))); [done..|].
  rewrite Hid. apply Hm.
Qed.

(** In a valid document a request identity names one thing: a queued
    job, an active reservation or a terminal tombstone.  The tombstone ledger
    holds at most 32 entries in order of completion, each with terminal
    evidence. *)
Theorem document_identities_unique (d : PersonalWorkerStoreDocument)
    (Hd : validate_document d = Ok ()) :
  NoDup ((tt_id <$> sd_terminal_tombstones d)
         ++ (rq_id <$> qi_queued (sd_queue d)) ++ (ac_id <$> qi_active (sd_queue d))) ∧
  (length (sd_terminal_tombstones d) ≤ 32)%nat ∧
  StronglySorted (λ t t', completed_at t ≤ completed_at t') (sd_terminal_tombstones d) ∧
  Forall (λ t, ear_state (tt_terminal_admission t) = Unavailable) (sd_terminal_tombstones d).
Proof.
  apply validate_document_Ok in Hd as Hok. pose proof (do_tombstones d Hok) as Hled.
  split_and!; [by apply document_ids|apply Hled|apply Hled|].
  eapply Forall_impl; [apply Hled|]. intros t Ht. unfold validate_tombstone in Ht.
  apply ok_guard in Ht as [Ht _]. by bprop.
Qed.

(** [revision_log d0 d log]: a chain of accepted replacements leads from the
    first document [d0] to [d], and [log] lists the summaries of the documents
    replaced on the way. *)
Inductive revision_log (d0 : PersonalWorkerStoreDocument)
  : PersonalWorkerStoreDocument → list PersonalWorkerHistoryEntry → Prop :=
| log_start : sd_history d0 = [] → revision_log d0 d0 []
| log_replace d d' log entry :
    revision_log d0 d log → summary d = Ok entry → validate_successor_of d' d = Ok () →
    revision_log d0 d' (log ++ [entry]).

(** Along any chain of accepted replacements the revision and the queue
    generation each advance by one per replacement, time does not run
    backwards, and the stored history is exactly the last 32 entries of the
    full log. *)
Theorem history_is_log_window (d0 d : PersonalWorkerStoreDocument)
    (log : list PersonalWorkerHistoryEntry) (Hlog : revision_log d0 d log) :
  sd_history d = drop (length log - 32) log ∧
  sd_revision d = sd_revision d0 + N.of_nat (length log) ∧
  qi_generation (sd_queue d) = qi_generation (sd_queue d0) + N.of_nat (length log) ∧
  qi_observed_at (sd_queue d0) ≤ qi_observed_at (sd_queue d).
Proof.
  induction Hlog as [Hnil|d d' log entry _ (IHh & IHr & IHg & IHt) Hsum Hsucc].
  { rewrite Hnil. simpl. split_and!; (done || lia). }
  apply validate_successor_of_iff in Hsucc as [Hr Hg Ht _ (e & He & Hh)].
  rewrite Hsum in He. injection He as <-.
  apply StoreRevision_next_Ok in Hr as [-> _]. apply next_queue_generation_Ok in Hg.
  rewrite Hh, Hg, length_app. simpl length. split_and!; [|lia..].
  unfold push_history. rewrite IHh, length_app, length_drop. simpl length.
  unfold MAX_PERSONAL_WORKER_HISTORY_ENTRIES. destruct (_ <? _)%nat eqn:Hfull.
  - apply Nat.ltb_lt in Hfull.
    assert (∀ l : list PersonalWorkerHistoryEntry, tail l = drop 1 l) as -> by by intros [].
    rewrite <-drop_app_le, drop_drop by lia. f_equal. lia.
  - apply Nat.ltb_ge in Hfull. rewrite <-drop_app_le by lia. f_equal. lia.
Qed.

(** The bounded history never stands in the way of progress: from a
    valid document, any queue, leases and ledger that are valid themselves and
    respect the clocks and the ledger shape are accepted by the advance, as
    long as revisions and generations are not exhausted. *)
Theorem advance_accepts (d : PersonalWorkerStoreDocument) (queue : PersonalWorkerQueueInput)
    (leases : list PersonalWorkerDurableCacheLease)
    (tombstones : list PersonalWorkerTerminalTombstone) (entry : PersonalWorkerHistoryEntry)
    (decision : PersonalWorkerQueueDecision)
    (Hd : validate_document d = Ok ()) (Hrev : accepted StoreRevision_new (sd_revision d))
    (Hroom : sd_revision d < MAX_PERSONAL_WORKER_STORE_REVISION)
    (Hsum : summary d = Ok entry)
    (Hgen : next_queue_generation (qi_generation (sd_queue d)) = Ok (qi_generation queue))
    (Htime : qi_observed_at (sd_queue d) ≤ qi_observed_at queue)
    (Hshape : validate_terminal_tombstone_ledger_shape (sd_terminal_tombstones d) tombstones = Ok ())
    (Hqueue : evaluate_personal_worker_queue queue None = Ok decision)
    (Hleases : validate_cache_leases queue leases = Ok ())
    (Htombs : validate_terminal_tombstones queue tombstones = Ok ())
    (Hact : tombstones = [] ∨ qi_activity_evidence queue ≠ ActivityNever) :
  ∃ d', advance_with_terminal_tombstones d queue leases tombstones = Ok d' ∧
    sd_revision d' = sd_revision d + 1 ∧ sd_queue d' = queue ∧ sd_cache_leases d' = leases ∧
    sd_terminal_tombstones d' = tombstones.
Proof.
  apply validate_document_Ok in Hd as Hok.
  unfold accepted, StoreRevision_new in Hrev. destruct (in_range _ _ _) eqn:Hrange in Hrev; [|done].
  bprop. assert (MAX_PERSONAL_WORKER_STORE_REVISION < u64_max) as Hmax by (vm_compute; done).
  assert (StoreRevision_next (sd_revision d) = Ok (sd_revision d + 1)) as Hnext.
  { unfold StoreRevision_next, checked_add. rewrite (proj2 (N.leb_le _ _)) by lia. simpl.
    rewrite (proj2 (N.leb_le _ _)) by lia. done. }
  pose proof (next_queue_generation_Ok _ _ Hgen) as Hg.
  assert (in_range 1 MAX_QUEUE_GENERATION (qi_generation queue) = true) as HG.
  { unfold next_queue_generation in Hgen. inv_ok Hgen. unfold QueueGeneration_new in Hgen.
    inv_ok Hgen. injection Hgen as <-. by apply negb_false_iff. }
  assert (validate_history (sd_revision d + 1) (qi_generation queue) (qi_observed_at queue)
    (push_history (sd_history d) entry) = Ok ()) as Hhist.
  { apply validate_history_complete; [lia|done|]. rewrite Hg.
    unfold summary in Hsum. inv_ok Hsum. injection Hsum as <-.
    apply (push_history_ok _ _ (qi_observed_at (sd_queue d))); [|done..].
    eapply validate_history_sound; [lia|apply Hok]. }
  eexists. split; [|split_and!; [| | |]].
  - unfold advance_with_terminal_tombstones. rewrite Hgen. rsimpl. rewrite N.eqb_refl. simpl.
    rewrite (proj2 (N.ltb_ge _ _) Htime), Hshape, Hsum, Hnext. rsimpl.
    unfold from_parts, validate_document. simpl. rewrite Hqueue, Hleases, Htombs. rsimpl.
    assert (negb (bool_decide (tombstones = []))
      && bool_decide (qi_activity_evidence queue = ActivityNever) = false) as ->.
    { destruct Hact as [->|Hact]; [done|]. rewrite (bool_decide_eq_false_2 _ Hact). apply andb_false_r. }
    by rewrite Hhist.
  - done.
  - done.
  - done.
  - done.
Qed.
End theorems.

(** ** A sample document, and the theorems at it *)

Definition sample_hex : string :=
  "0123456789abcdef0123456789abcdef0123456789abcdef0123456789abcdef".

(** A serializer that writes nothing and a digest that is constant: enough to
    exercise the document, whose checks only compare digests with each other. *)
Definition sample_serde : StoreSerde :=
  {| json_snapshot := λ _, Some []; json_evidence := λ _, Some []; sha256_hex := λ _, sample_hex |}.

#[local] Existing Instance sample_serde.

Definition sample_lease : PersonalWorkerDurableCacheLease :=
  mkLease "job-a" (rq_cache_namespace job_a) Write "res-1" 1 1200.

Definition sample_document : PersonalWorkerStoreDocument :=
  mkDocument 2 1 sample_queue [sample_lease] [] [].

Lemma sample_document_valid : validate_document sample_document = Ok ().
Proof. vm_compute. reflexivity. Qed.

(** The same work seen a little later. *)
Definition sample_queue_later : PersonalWorkerQueueInput :=
  mkQueueInput 2 1400 (ProfileObserved ProfileWork) (ActivityObserved 1200)
    [job_b; job_c; job_d; job_e] [sample_active] None.

Definition sample_entry : PersonalWorkerHistoryEntry :=
  mkHistoryEntry 1 1 1300 4 1 1 0 ("sha256:" +:+ sample_hex).

Definition sample_document_later : PersonalWorkerStoreDocument :=
  mkDocument 2 2 sample_queue_later [sample_lease] [] [sample_entry].

Definition sample_decision_later : PersonalWorkerQueueDecision :=
  match evaluate_personal_worker_queue sample_queue_later None with
  | Ok d => d
  | _ => sample_decision
  end.

Lemma leases_account_for_active_witness :
  ∃ lease, lease ∈ [sample_lease] ∧ lease_matches lease sample_active.
Proof.
  exact (proj2 (proj2 (leases_account_for_active sample_document sample_document_valid))
    sample_active (list_elem_of_here _ _)).
Defined.

Lemma document_identities_unique_witness :
  NoDup ["job-b"; "job-c"; "job-d"; "job-e"; "job-a"].
Proof.
  exact (proj1 (document_identities_unique sample_document sample_document_valid)).
Defined.

Lemma sample_revision_log : revision_log sample_document sample_document_later [sample_entry].
Proof.
  apply (log_replace sample_document sample_document sample_document_later [] sample_entry).
  - by apply log_start.
  - vm_compute. reflexivity.
  - vm_compute. reflexivity.
Qed.

Lemma history_is_log_window_witness : sd_revision sample_document_later = 1 + 1.
Proof.
  exact (proj1 (proj2 (history_is_log_window sample_document sample_document_later [sample_entry]
    sample_revision_log))).
Defined.

Lemma advance_accepts_witness :
  ∃ d', advance_with_terminal_tombstones sample_document sample_queue_later [sample_lease] []
          = Ok d' ∧ sd_revision d' = 1 + 1.
Proof.
  destruct (advance_accepts sample_document sample_queue_later [sample_lease] [] sample_entry
    sample_decision_later sample_document_valid ltac:(vm_compute; reflexivity)
    ltac:(vm_compute; reflexivity) ltac:(vm_compute; reflexivity) ltac:(vm_compute; reflexivity)
    ltac:(vm_compute; discriminate) ltac:(vm_compute; reflexivity) ltac:(vm_compute; reflexivity)
    ltac:(vm_compute; reflexivity) ltac:(vm_compute; reflexivity) (or_introl eq_refl))
    as (d' & H1 & H2 & _).
  exact (ex_intro _ d' (conj H1 H2)).
Defined.
