(* ===== verification/TransactionSteps.v ===== *)
(** * What one mutation does to a document

    Facts shared by the theorems about [StoreTransaction]: the relation
    [mutated] (one mutation applied to a document, before publication), the
    effect of each arm on the jobs of the document, and the proof that the
    result satisfies the replacement contract of the store. *)

From S2P Require Import Prelude SortBy Artifact ExecutionAdmission AdmissionLifecycle PidCapacity.
From S2P Require Import WorkerQueue QueueSchedule QueueTheorems StoreWire WorkerStore StoreDocument.
From S2P Require Import StoreTransaction.

Local Open Scope N_scope.

(** ** The effect of an arm *)

Definition ids_of (sn : snapshot) : list string :=
  (rq_id <$> qi_queued (sn_queue sn)) ++ (ac_id <$> qi_active (sn_queue sn)).

Definition push_tombstone (ledger : list PersonalWorkerTerminalTombstone)
    (t : PersonalWorkerTerminalTombstone) : list PersonalWorkerTerminalTombstone :=
  let ledger := ledger ++ [t] in
  if (MAX_PERSONAL_WORKER_TERMINAL_TOMBSTONES <? length ledger)%nat then tail ledger else ledger.

(** Writing an admission through the slot of an active reservation. *)
Definition admit_in_slot (sn : snapshot) (i : nat) (request : PersonalWorkerJobRequest)
    (admission : ExecutionAdmissionRecord) (started_at : option EpochMillis) : snapshot :=
  with_queue sn (write_active i (mkActive request admission started_at) (sn_queue sn)).

(** [effect sn m sn' o act]: mutation [m] turns the snapshot [sn] into [sn'],
    observed at [o] and recording activity at [act]. *)
Inductive effect (sn : snapshot)
  : PersonalWorkerStoreMutation → snapshot → EpochMillis → option EpochMillis → Prop :=
| eff_submit request o :
    rq_id request ∉ ids_of sn → rq_id request ∉ tt_id <$> sn_tombstones sn →
    (length (qi_queued (sn_queue sn)) < MAX_PERSONAL_WORKER_QUEUE_ENTRIES)%nat →
    effect sn (Submit request o)
      (with_queue sn (set_queued (qi_queued (sn_queue sn) ++ [request]) (sn_queue sn))) o (Some o)
| eff_cancel_queued i request c :
    qi_queued (sn_queue sn) !! i = Some request → rq_cancellation request = CancellationActive →
    effect sn (Cancel (rq_id request) c None)
      (with_queue sn (set_queued (<[i := set_cancellation (CancellationCancelled c) request]>
         (qi_queued (sn_queue sn))) (sn_queue sn))) c (Some c)
| eff_cancel_active i active c next :
    rq_id (ac_request active) ∉ rq_id <$> qi_queued (sn_queue sn) →
    qi_active (sn_queue sn) !! i = Some active → ear_state next = Draining →
    effect sn (Cancel (ac_id active) c (Some next))
      (admit_in_slot sn i (set_cancellation (CancellationCancelled c) (ac_request active))
         next (ac_started_at active)) (ear_observed_at next) (Some c)
| eff_reserve i request admission lease :
    qi_queued (sn_queue sn) !! i = Some request → is_cancelled (rq_cancellation request) = false →
    rq_id request ∉ ac_id <$> qi_active (sn_queue sn) →
    ear_state admission = Reserved → ear_identity admission = rq_identity request →
    cl_request_id lease = rq_id request →
    effect sn (RecordReservationAndAcquireCacheLease (rq_id request) admission lease)
      (mkSnapshot
         (set_active (qi_active (sn_queue sn) ++ [mkActive request admission None])
            (set_queued (delete i (qi_queued (sn_queue sn))) (sn_queue sn)))
         (sn_leases sn ++ [lease]) (sn_tombstones sn))
      (ear_observed_at admission) (Some (ear_observed_at admission))
| eff_starting i active admission started :
    qi_active (sn_queue sn) !! i = Some active → ear_state admission = Starting →
    effect sn (MarkStarting (ac_id active) admission started)
      (admit_in_slot sn i (ac_request active) admission (Some started))
      (ear_observed_at admission) (Some (ear_observed_at admission))
| eff_running i active admission :
    qi_active (sn_queue sn) !! i = Some active → ear_state admission = Running →
    effect sn (MarkRunning (ac_id active) admission)
      (admit_in_slot sn i (ac_request active) admission (ac_started_at active))
      (ear_observed_at admission) (Some (ear_observed_at admission))
| eff_draining i active admission :
    qi_active (sn_queue sn) !! i = Some active → ear_state admission = Draining →
    effect sn (MarkDraining (ac_id active) admission)
      (admit_in_slot sn i (ac_request active) admission (ac_started_at active))
      (ear_observed_at admission) (Some (ear_observed_at admission))
| eff_release i j active transition lease t :
    qi_active (sn_queue sn) !! i = Some active → sn_leases sn !! j = Some lease →
    cl_request_id lease = ac_id active →
    plan_transition (ac_admission active) (tt_terminal_admission t) = Ok transition →
    tt_request t = ac_request active → tt_started_at t = ac_started_at active →
    tt_cache_lease t = lease → ear_state (tt_terminal_admission t) = Unavailable →
    request_id (ear_identity (tt_terminal_admission t)) = ac_id active →
    effect sn (ReleaseCompletion (ac_id active) (tt_terminal_admission t))
      (mkSnapshot (set_active (delete i (qi_active (sn_queue sn))) (sn_queue sn))
         (delete j (sn_leases sn)) (push_tombstone (sn_tombstones sn) t))
      (completed_at t) (Some (completed_at t))
| eff_set_intent target requested o :
    effect sn (SetProfileIntent target requested o)
      (with_queue sn (set_pending (Some (mkPendingProfileChange target requested)) (sn_queue sn)))
      o (Some o)
| eff_cancel_intent o :
    effect sn (CancelProfileIntent o) (with_queue sn (set_pending None (sn_queue sn))) o (Some o)
| eff_observe profile o :
    effect sn (ObserveProfile profile o)
      (with_queue sn (set_profile_observation (ProfileObserved profile) (sn_queue sn))) o None
| eff_activity activity o : effect sn (UpdateLastActivity activity o) sn o (Some activity).

Lemma transition_result r r' t : plan_transition r r' = Ok t → eat_resulting_record t = r'.
Proof. intros H. by apply plan_transition_facts in H as [_ ->]. Qed.

Lemma queued_index_Some queue id i :
  queued_index queue id = Some i → ∃ r, qi_queued queue !! i = Some r ∧ rq_id r = id.
Proof. intros (r & Hr & Hp)%position_lookup. bprop. eauto. Qed.

Lemma active_index_Some queue id i :
  active_index queue id = Some i → ∃ a, qi_active queue !! i = Some a ∧ ac_id a = id.
Proof. intros (a & Ha & Hp)%position_lookup. bprop. eauto. Qed.

Lemma active_mut_Ok queue id i a :
  active_mut queue id = Ok (i, a) → qi_active queue !! i = Some a ∧ ac_id a = id.
Proof.
  unfold active_mut. intros H. inv_ok H. inv_opts. injection H as <- <-.
  apply active_index_Some in Hy as (b & Hb & Hid). rewrite Hb in Hy0. by injection Hy0 as ->.
Qed.

Lemma submit_effect sn request o sn' o' act :
  apply_submit sn request o = Ok (ArmApplied sn' o' act) → effect sn (Submit request o) sn' o' act.
Proof.
  unfold apply_submit. intros H. apply ok_guard in H as [Hterm H]. rewrite existsb_key in Hterm.
  bprop. destruct (List.find _ (qi_queued _)) as [x|] eqn:Hq; [by case_bool_decide|].
  destruct (List.find _ (ac_request <$> _)) as [x|] eqn:Ha; [by case_bool_decide|].
  apply ok_guard in H as [Hfull H]. injection H as <- <- <-. apply find_None_key in Hq, Ha.
  rewrite <-list_fmap_compose in Ha. apply eff_submit; [|done|by apply Nat.leb_gt].
  unfold ids_of. rewrite not_elem_of_app. done.
Qed.

Lemma cancel_effect sn id c draining sn' o act :
  apply_cancel sn id c draining = Ok (ArmApplied sn' o act) →
  effect sn (Cancel id c draining) sn' o act.
Proof.
  unfold apply_cancel. destruct (queued_index _ _) as [i|] eqn:Hq.
  - apply queued_index_Some in Hq as (r & Hr & <-). unfold apply_cancel_queued.
    destruct draining; [done|]. rewrite Hr. rsimpl. intros H. inv_ok H.
    injection H as <- <- <-. by apply eff_cancel_queued.
  - destruct (active_index _ _) as [i|] eqn:Ha; [|done].
    apply active_index_Some in Ha as (a & Ha & <-). apply position_None_key in Hq.
    unfold apply_cancel_active. intros H. apply bind_Ok in H as (next & -> %ok_or_Ok & H).
    apply ok_guard in H as [Hst H]. bprop. rewrite Ha in H. rsimpl.
    assert (∀ x, (transition ← map_err (λ _, invalid
        "active cancellation violates admission transition ordering")
        (plan_transition (ac_admission a) next);
      Ok (ArmApplied (with_queue sn (write_active i (mkActive
        (set_cancellation (CancellationCancelled c) (ac_request a))
        (eat_resulting_record transition) (ac_started_at a)) (sn_queue sn)))
        (ear_observed_at (eat_resulting_record transition)) (Some c))) = Ok x →
      x = ArmApplied (admit_in_slot sn i
        (set_cancellation (CancellationCancelled c) (ac_request a)) next (ac_started_at a))
        (ear_observed_at next) (Some c)) as Hgen.
    { intros x Hx. inv_ok Hx. inv_opts. apply transition_result in Hy as Hres.
      injection Hx as <-. by rewrite Hres. }
    assert (ArmApplied sn' o act = ArmApplied (admit_in_slot sn i
        (set_cancellation (CancellationCancelled c) (ac_request a)) next (ac_started_at a))
        (ear_observed_at next) (Some c)) as [= -> -> ->]; [|by apply eff_cancel_active].
    destruct (rq_cancellation (ac_request a)); [by apply Hgen|].
    do 2 (case_match; [done|]). by apply Hgen.
Qed.

Lemma reservation_effect sn id admission lease sn' o act :
  apply_record_reservation sn id admission lease = Ok (ArmApplied sn' o act) →
  effect sn (RecordReservationAndAcquireCacheLease id admission lease) sn' o act.
Proof.
  unfold apply_record_reservation. intros H. apply ok_guard in H as [Hst H]. bprop.
  destruct (active_index _ _) as [i|] eqn:Ha.
  { apply bind_Ok in H as (a & _ & H). by case_match. }
  apply position_None_key in Ha. inv_ok H. inv_opts. bprop.
  apply queued_index_Some in Hy as (r & Hr & <-). rewrite Hr in Hy0. injection Hy0 as <-.
  rewrite last_snoc in Hy1. injection Hy1 as <-. injection H as <- <- <-.
  by apply eff_reserve.
Qed.

Lemma starting_effect sn id admission started sn' o act :
  apply_mark_starting sn id admission started = Ok (ArmApplied sn' o act) →
  effect sn (MarkStarting id admission started) sn' o act.
Proof.
  unfold apply_mark_starting. intros H. inv_ok H. inv_opts. bprop.
  apply active_mut_Ok in Hy as [Ha <-]. apply transition_result in Hy0 as Hres.
  injection H as <- <- <-. rewrite Hres. by apply eff_starting.
Qed.

Lemma mark_effect sn id admission st msg sn' o act :
  apply_mark sn id admission st msg = Ok (ArmApplied sn' o act) →
  ∃ i a, qi_active (sn_queue sn) !! i = Some a ∧ ac_id a = id ∧ ear_state admission = st ∧
    sn' = admit_in_slot sn i (ac_request a) admission (ac_started_at a) ∧
    o = ear_observed_at admission ∧ act = Some (ear_observed_at admission).
Proof.
  unfold apply_mark, apply_active_transition. intros H. apply bind_Ok in H as (m & Hm & H).
  inv_ok H. injection H as <- <- <-. inv_ok Hm. inv_opts. bprop.
  apply active_mut_Ok in Hy as [Ha Hid]. apply transition_result in Hy0 as Hres.
  injection Hm as <- <-. rewrite Hres. eauto 10.
Qed.

Section effects.
Context `{SER : !StoreSerde}.

Lemma Tombstone_new_Ok request admission started lease t :
  Tombstone_new request admission started lease = Ok t →
  validate_tombstone t = Ok () ∧ tt_request t = request ∧ tt_terminal_admission t = admission ∧
  tt_started_at t = started ∧ tt_cache_lease t = lease.
Proof. unfold Tombstone_new. intros H. inv_ok H. injection H as <-. by destruct y0. Qed.

Lemma release_effect sn id terminal sn' o act :
  apply_release sn id terminal = Ok (ArmApplied sn' o act) →
  effect sn (ReleaseCompletion id terminal) sn' o act.
Proof.
  unfold apply_release. intros H. apply ok_guard in H as [Hst H]. apply ok_guard in H as [Hid H].
  bprop. destruct (active_index _ _) as [i|] eqn:Hi; [|by repeat case_match].
  inv_ok H. inv_opts. apply active_index_Some in Hi as (a & Ha & <-).
  rewrite Ha in Hy. injection Hy as <-. apply position_lookup in Hy1 as (l & Hl & Hp). bprop.
  rewrite Hl in Hy2. injection Hy2 as <-. apply transition_result in Hy0 as Hres. rewrite Hres in Hy3.
  apply Tombstone_new_Ok in Hy3 as (_ & Hreq & <- & Hsta & Hlease).
  assert (effect sn (ReleaseCompletion (ac_id a) (tt_terminal_admission y3))
    (mkSnapshot (set_active (delete i (qi_active (sn_queue sn))) (sn_queue sn))
         (delete y1 (sn_leases sn)) (push_tombstone (sn_tombstones sn) y3))
      (completed_at y3) (Some (completed_at y3))) as Heff by by eapply eff_release.
  unfold push_tombstone in Heff. simpl in H. by injection H as <- <- <-.
Qed.

Lemma apply_arm_effect sn m sn' o act :
  apply_arm sn m = Ok (ArmApplied sn' o act) → effect sn m sn' o act.
Proof.
  destruct m; simpl; auto using submit_effect, cancel_effect, reservation_effect,
    starting_effect, release_effect.
  - intros (i & a & Ha & <- & Hst & -> & -> & ->)%mark_effect. by apply eff_running.
  - intros (i & a & Ha & <- & Hst & -> & -> & ->)%mark_effect. by apply eff_draining.
  - unfold apply_set_profile_intent. intros H. inv_ok H. injection H as <- <- <-. constructor.
  - unfold apply_cancel_profile_intent. intros H. inv_ok H. injection H as <- <- <-. constructor.
  - unfold apply_observe_profile. intros H. inv_ok H. injection H as <- <- <-. constructor.
  - unfold apply_update_last_activity. intros H. inv_ok H. injection H as <- <- <-. constructor.
Qed.
End effects.

(** ** One mutation of a document *)

Definition snapshot_of (d : PersonalWorkerStoreDocument) : snapshot :=
  mkSnapshot (sd_queue d) (sd_cache_leases d) (sd_terminal_tombstones d).

Section mutated.
Context `{SER : !StoreSerde}.

(** [mutated d m d']: mutation [m] is applied to [d] and advances it to [d']. *)
Definition mutated (d : PersonalWorkerStoreDocument) (m : PersonalWorkerStoreMutation)
    (d' : PersonalWorkerStoreDocument) : Prop :=
  ∃ queue leases tombstones o,
    apply_to_snapshot d m = Ok (Applied queue leases tombstones o) ∧
    successor_document d queue leases tombstones o = Ok d'.

(** The document after a mutation: the snapshot of its effect, under new
    clocks, with the activity recorded. *)
Record mutated_facts (d : PersonalWorkerStoreDocument) (m : PersonalWorkerStoreMutation)
    (d' : PersonalWorkerStoreDocument) (sn : snapshot) (o : EpochMillis)
    (act : option EpochMillis) : Prop := {
  mf_effect : effect (snapshot_of d) m sn o act;
  mf_queued : qi_queued (sd_queue d') = qi_queued (sn_queue sn);
  mf_active : qi_active (sd_queue d') = qi_active (sn_queue sn);
  mf_pending : qi_pending_profile_change (sd_queue d') = qi_pending_profile_change (sn_queue sn);
  mf_profile : qi_profile_observation (sd_queue d') = qi_profile_observation (sn_queue sn);
  mf_activity : ∀ a, act = Some a → qi_activity_evidence (sd_queue d') = ActivityObserved a;
  mf_time : qi_observed_at (sd_queue d') = o;
  mf_leases : sd_cache_leases d' = sn_leases sn;
  mf_tombstones : sd_terminal_tombstones d' = sn_tombstones sn;
  mf_valid : validate_document d' = Ok ();
  mf_revision : StoreRevision_next (sd_revision d) = Ok (sd_revision d');
  mf_generation : next_queue_generation (qi_generation (sd_queue d))
    = Ok (qi_generation (sd_queue d'));
  mf_forward : qi_observed_at (sd_queue d) ≤ qi_observed_at (sd_queue d');
  mf_shape : validate_terminal_tombstone_ledger_shape (sd_terminal_tombstones d)
    (sd_terminal_tombstones d') = Ok ();
  mf_history : ∃ entry, summary d = Ok entry ∧ sd_history d' = push_history (sd_history d) entry;
}.

Lemma mutated_inv d m d' : mutated d m d' → ∃ sn o act, mutated_facts d m d' sn o act.
Proof.
  intros (queue & leases & tombstones & o & Happ & Hsucc).
  unfold apply_to_snapshot in Happ. apply bind_Ok in Happ as (arm & Harm & Happ).
  destruct arm as [|sn o' act]; [done|]. apply bind_Ok in Happ as (q & Hq & Happ).
  injection Happ as -> <- <- ->. unfold successor_document in Hsucc.
  apply ok_guard in Hsucc as [Htime Hsucc]. apply bind_Ok in Hsucc as (g & _ & Hsucc).
  inv_opts. apply advance_Ok in Hsucc as (entry & Hsum & Hr & Hg & Hfw & Hshape & Hval & Heq).
  exists sn, o, act.
  assert (qi_queued queue = qi_queued (sn_queue sn) ∧ qi_active queue = qi_active (sn_queue sn) ∧
    qi_pending_profile_change queue = qi_pending_profile_change (sn_queue sn) ∧
    qi_profile_observation queue = qi_profile_observation (sn_queue sn) ∧
    ∀ a, act = Some a → qi_activity_evidence queue = ActivityObserved a) as (?&?&?&?&?).
  { unfold record_activity in Hq. destruct act as [a|].
    - apply ok_guard in Hq as [_ Hq]. injection Hq as <-. split_and!; [done..|]. by intros ? [= <-].
    - injection Hq as <-. by split_and!. }
  rewrite Heq in *. split; simpl; eauto using apply_arm_effect.
Qed.

(** Every mutation but a release keeps the ledger and all active identities. *)
Lemma effect_keeps_active sn m sn' o act :
  effect sn m sn' o act → (∀ id t, m ≠ ReleaseCompletion id t) →
  sn_tombstones sn' = sn_tombstones sn ∧
  ∃ new, ac_id <$> qi_active (sn_queue sn') = (ac_id <$> qi_active (sn_queue sn)) ++ new.
Proof.
  intros He Hm. destruct He; simpl; try (by edestruct Hm); (split; [done|]);
    try (exists []; by rewrite app_nil_r).
  all: try (exists []; rewrite app_nil_r; by eapply insert_same_key).
  exists [rq_id request]. by rewrite fmap_app.
Qed.

Lemma removed_active_none d d' :
  (∀ id, id ∈ ac_id <$> qi_active (sd_queue d) → id ∈ ac_id <$> qi_active (sd_queue d')) →
  removed_active_of d d' = [].
Proof.
  intros Hsub. unfold removed_active_of. induction (qi_active (sd_queue d)) as [|a l IH]; [done|].
  simpl. rewrite existsb_key, bool_decide_eq_true_2 by (apply Hsub; csimpl; left). simpl.
  apply IH. intros id Hid. apply Hsub. csimpl. by right.
Qed.

Lemma removed_active_one d d' i a :
  NoDup (ac_id <$> qi_active (sd_queue d)) → qi_active (sd_queue d) !! i = Some a →
  qi_active (sd_queue d') = delete i (qi_active (sd_queue d)) → removed_active_of d d' = [a].
Proof.
  intros Hnd Ha Hd'. unfold removed_active_of. rewrite Hd'.
  destruct (filter_key_delete ac_id _ i a Hnd Ha) as [_ Hout].
  apply (list_elem_of_split_length) in Ha as (l1 & l2 & Hl & Hi).
  assert (∀ x, x ∈ l1 ++ l2 → existsb (λ y, bool_decide (ac_id y = ac_id x)) (l1 ++ l2) = true) as Hin.
  { intros x Hx. rewrite existsb_key. apply bool_decide_eq_true_2. by apply list_elem_of_fmap_2. }
  rewrite Hl in *. rewrite Hi, delete_middle in *.
  rewrite List.filter_app. simpl. rewrite existsb_key, bool_decide_eq_false_2 by done. simpl.
  assert (∀ l, (∀ x, x ∈ l → x ∈ l1 ++ l2) → List.filter (λ active, negb (existsb
    (λ next_active, bool_decide (ac_id next_active = ac_id active)) (l1 ++ l2))) l = []) as Hnil.
  { induction l as [|x l IH]; intros Hsub; [done|]. simpl. rewrite Hin by (apply Hsub; left). simpl.
    apply IH. intros y Hy. apply Hsub. by right. }
  rewrite !Hnil; [done|..]; intros x Hx; apply elem_of_app; auto.
Qed.

Lemma push_tombstone_last ledger t : list.last (push_tombstone ledger t) = Some t.
Proof.
  unfold push_tombstone. case_match; [|by rewrite last_snoc].
  destruct ledger as [|x ledger]; simpl; [done|]. by rewrite last_snoc.
Qed.

(** A release satisfies the checks on the removed reservation and its
    tombstone. *)
Lemma release_validates d d' i j a transition lease t :
  document_ok d →
  qi_active (sd_queue d) !! i = Some a → sd_cache_leases d !! j = Some lease →
  cl_request_id lease = ac_id a →
  plan_transition (ac_admission a) (tt_terminal_admission t) = Ok transition →
  tt_request t = ac_request a → tt_started_at t = ac_started_at a → tt_cache_lease t = lease →
  qi_queued (sd_queue d') = qi_queued (sd_queue d) →
  qi_profile_observation (sd_queue d') = qi_profile_observation (sd_queue d) →
  qi_pending_profile_change (sd_queue d') = qi_pending_profile_change (sd_queue d) →
  qi_activity_evidence (sd_queue d') = ActivityObserved (completed_at t) →
  qi_observed_at (sd_queue d') = completed_at t →
  qi_active (sd_queue d') = delete i (qi_active (sd_queue d)) →
  sd_cache_leases d' = delete j (sd_cache_leases d) →
  validate_release d d' a t = Ok ().
Proof.
  intros Hok Ha Hl Hown Htr Hreq Hsta Hlease Hq Hprof Hpend Hact Hobs Hactive Hleases.
  destruct (validate_cache_leases_Ok _ _ _ (do_leases d Hok)) as [Hperm _].
  pose proof (active_ids_nodup d Hok) as Hnd.
  assert (NoDup (cl_request_id <$> sd_cache_leases d)) as Hndl by by rewrite Hperm.
  assert (tt_id t = ac_id a) as Hid by (unfold tt_id, ac_id; by rewrite Hreq).
  destruct (filter_key_delete ac_id _ i a Hnd Ha) as [Hfa _].
  destruct (filter_key_delete cl_request_id _ j lease Hndl Hl) as [Hfl Hout].
  unfold validate_release. rewrite Hid, <-Hown. rewrite !bool_decide_eq_false_2 by congruence. simpl.
  rewrite Htr. rsimpl. rewrite (transition_result _ _ _ Htr).
  rewrite (bool_decide_eq_false_2 (tt_terminal_admission t ≠ _)) by congruence.
  rewrite (find_unique cl_request_id _ lease) by
    (done || by eapply list_elem_of_lookup_2). rsimpl.
  rewrite bool_decide_eq_false_2 by congruence. rewrite Hleases, existsb_key.
  rewrite (bool_decide_eq_false_2 (_ ∈ _)) by done. simpl.
  rewrite ?Hq, ?Hprof, ?Hpend, ?Hact, Hobs, ?Hactive, N.eqb_refl. simpl.
  rewrite ?Hown, ?Hfa, <-?Hown, ?Hfl. by rewrite !bool_decide_eq_false_2 by congruence.
Qed.

Lemma mutated_tombstones d m d' sn o act :
  document_ok d → mutated_facts d m d' sn o act → validate_terminal_tombstone_successor d d' = Ok ().
Proof.
  intros Hok Hf. pose proof (mf_effect _ _ _ _ _ _ Hf) as He.
  unfold validate_terminal_tombstone_successor.
  assert ((∃ id t, m = ReleaseCompletion id t) ∨ ∀ id t, m ≠ ReleaseCompletion id t)
    as [(id & t0 & ->)|Hnot] by (destruct m; first [by right|left; by eauto]).
  2: { apply effect_keeps_active in He as [Ht (new & Hact)]; [|done].
    simpl in Ht, Hact. rewrite (mf_tombstones _ _ _ _ _ _ Hf), Ht, bool_decide_eq_true_2 by done.
    rewrite removed_active_none; [done|]. intros x Hx.
    rewrite (mf_active _ _ _ _ _ _ Hf), Hact. apply elem_of_app. by left. }
  inversion He as [| | | | | | |i j a tr lease t Ha Hl Hown Htr Hreq Hsta Hlease Hst Hid| | | |]; subst.
  simpl in Ha, Hl. pose proof (mf_tombstones _ _ _ _ _ _ Hf) as Htomb.
  pose proof (mf_active _ _ _ _ _ _ Hf) as Hactive. simpl in Htomb, Hactive.
  assert (sd_terminal_tombstones d' ≠ sd_terminal_tombstones d) as Hne.
  { intros Heq. pose proof (push_tombstone_last (sd_terminal_tombstones d) t) as Hlast.
    rewrite <-Htomb, Heq in Hlast. apply last_Some_elem_of in Hlast.
    pose proof (document_ids d Hok) as Hnd. apply NoDup_app in Hnd as (_ & Hdis & _).
    apply (Hdis (tt_id t)); [by apply list_elem_of_fmap_2|]. apply elem_of_app. right.
    unfold tt_id. rewrite Hreq. apply (list_elem_of_fmap_2 ac_id _ a).
    by eapply list_elem_of_lookup_2. }
  rewrite bool_decide_eq_false_2 by done. rewrite (mf_shape _ _ _ _ _ _ Hf). rsimpl.
  rewrite Htomb, push_tombstone_last. rsimpl.
  rewrite (removed_active_one d d' i a) by eauto using active_ids_nodup.
  rewrite bool_decide_eq_false_2 by (intros Hn; apply Hn; unfold tt_id; by rewrite Hreq).
  eapply release_validates; try done; apply Hf || eauto.
  all: first [apply (mf_activity _ _ _ _ _ _ Hf); done | done].
Qed.

Lemma mutated_succeeds d m d' :
  document_ok d → mutated d m d' → validate_successor_of d' d = Ok ().
Proof.
  intros Hok (sn & o & act & Hf)%mutated_inv. apply validate_successor_of_iff.
  split; [apply Hf..|by eapply mutated_tombstones|apply Hf].
Qed.
End mutated.
