(* ===== verification/TransactionTheorems.v ===== *)
(** * What the store transactions guarantee

    The theorems about [StoreTransaction]: every mutation respects the store's
    replacement contract, is idempotent, loses no work and cannot panic; and,
    against the interface [StoreContract] that the store implementation
    discharges, the transaction publishes the mutation at most once and never
    on top of a revision the caller did not expect. *)

From S2P Require Import Prelude SortBy Artifact ExecutionAdmission AdmissionLifecycle PidCapacity.
From S2P Require Import WorkerQueue QueueSchedule QueueTheorems StoreWire WorkerStore StoreDocument.
From S2P Require Import StoreTransaction TransactionSteps.

Local Open Scope N_scope.

Section idempotence.
Context `{SER : !StoreSerde}.

Lemma queued_ids_nodup d : document_ok d → NoDup (rq_id <$> qi_queued (sd_queue d)).
Proof. intros H%document_ids. rewrite !NoDup_app in H. tauto. Qed.

(** An active reservation written through its slot is found there again. *)
Lemma slot_found d i a :
  document_ok d → qi_active (sd_queue d) !! i = Some a →
  active_index (sd_queue d) (ac_id a) = Some i.
Proof. intros Hok Ha. apply (position_unique ac_id); [by apply active_ids_nodup|done]. Qed.

Lemma slot_written sn i a request admission started :
  qi_active (sn_queue sn) !! i = Some a →
  qi_active (sn_queue (admit_in_slot sn i request admission started)) !! i
    = Some (mkActive request admission started).
Proof. intros Ha. simpl. apply list_lookup_insert_eq. by eapply lookup_lt_Some. Qed.

Lemma active_mut_found d i a :
  document_ok d → qi_active (sd_queue d) !! i = Some a →
  active_mut (sd_queue d) (ac_id a) = Ok (i, a).
Proof.
  intros Hok Ha. unfold active_mut. rewrite (slot_found d i a Hok Ha). rsimpl. by rewrite Ha.
Qed.

Lemma mark_again d i a st msg :
  document_ok d → qi_active (sd_queue d) !! i = Some a → ear_state (ac_admission a) = st →
  apply_mark (snapshot_of d) (ac_id a) (ac_admission a) st msg = Ok ArmDuplicate.
Proof.
  intros Hok Ha Hst. unfold apply_mark, apply_active_transition. simpl.
  rewrite bool_decide_eq_false_2 by congruence. rewrite (active_mut_found d i a Hok Ha). rsimpl.
  by rewrite bool_decide_eq_true_2.
Qed.

(** What the second application of each arm meets, in a document [d'] that
    the first one produced. *)

Lemma submit_again d request o :
  document_ok d → request ∈ qi_queued (sd_queue d) →
  rq_id request ∉ tt_id <$> sd_terminal_tombstones d →
  apply_submit (snapshot_of d) request o = Ok ArmDuplicate.
Proof.
  intros Hok Hin Hterm. unfold apply_submit. simpl.
  rewrite existsb_key, bool_decide_eq_false_2 by done.
  rewrite (find_unique rq_id _ request) by auto using queued_ids_nodup.
  by rewrite bool_decide_eq_true_2.
Qed.

Lemma cancel_queued_again d i request c :
  document_ok d → qi_queued (sd_queue d) !! i = Some request →
  rq_cancellation request = CancellationCancelled c →
  apply_cancel (snapshot_of d) (rq_id request) c None = Ok ArmDuplicate.
Proof.
  intros Hok Hi Hc. unfold apply_cancel, queued_index. simpl.
  rewrite (position_unique rq_id _ i request) by auto using queued_ids_nodup.
  unfold apply_cancel_queued. simpl. rewrite Hi. rsimpl. by rewrite Hc, N.eqb_refl.
Qed.

Lemma cancel_active_again d i a c :
  document_ok d → qi_active (sd_queue d) !! i = Some a →
  ac_id a ∉ rq_id <$> qi_queued (sd_queue d) →
  rq_cancellation (ac_request a) = CancellationCancelled c →
  ear_state (ac_admission a) = Draining →
  apply_cancel (snapshot_of d) (ac_id a) c (Some (ac_admission a)) = Ok ArmDuplicate.
Proof.
  intros Hok Hi Hid Hc Hst. unfold apply_cancel. simpl.
  assert (queued_index (sd_queue d) (ac_id a) = None) as -> by by apply position_None_key.
  rewrite (slot_found d i a Hok Hi). unfold apply_cancel_active. rsimpl.
  rewrite bool_decide_eq_false_2 by congruence. simpl. rewrite Hi. rsimpl.
  by rewrite Hc, N.eqb_refl, bool_decide_eq_true_2.
Qed.

Lemma reserve_again d i a lease :
  document_ok d → qi_active (sd_queue d) !! i = Some a → ear_state (ac_admission a) = Reserved →
  ac_started_at a = None → lease ∈ sd_cache_leases d → cl_request_id lease = ac_id a →
  apply_record_reservation (snapshot_of d) (ac_id a) (ac_admission a) lease = Ok ArmDuplicate.
Proof.
  intros Hok Hi Hst Hnone Hl Hown. unfold apply_record_reservation. simpl.
  rewrite bool_decide_eq_false_2 by congruence. rewrite (slot_found d i a Hok Hi), Hi. rsimpl.
  destruct (validate_cache_leases_Ok _ _ _ (do_leases d Hok)) as [Hperm _].
  rewrite (find_unique cl_request_id _ lease), Hnone; [by rewrite !bool_decide_eq_true_2| |done..].
  rewrite Hperm. by apply active_ids_nodup.
Qed.

Lemma starting_again d i a started :
  document_ok d → qi_active (sd_queue d) !! i = Some a → ear_state (ac_admission a) = Starting →
  ac_started_at a = Some started →
  apply_mark_starting (snapshot_of d) (ac_id a) (ac_admission a) started = Ok ArmDuplicate.
Proof.
  intros Hok Hi Hst Hs. unfold apply_mark_starting. simpl.
  rewrite bool_decide_eq_false_2 by congruence. rewrite (active_mut_found d i a Hok Hi). rsimpl.
  by rewrite !bool_decide_eq_true_2.
Qed.

Lemma release_again d t id :
  document_ok d → id ∉ ac_id <$> qi_active (sd_queue d) → t ∈ sd_terminal_tombstones d →
  tt_id t = id → ear_state (tt_terminal_admission t) = Unavailable →
  request_id (ear_identity (tt_terminal_admission t)) = id →
  apply_release (snapshot_of d) id (tt_terminal_admission t) = Ok ArmDuplicate.
Proof.
  intros Hok Hgone Ht Htid Hst Hid. unfold apply_release. simpl.
  rewrite !bool_decide_eq_false_2 by congruence.
  assert (active_index (sd_queue d) id = None) as -> by by apply position_None_key.
  rewrite (find_unique tt_id _ t) by (done || apply Hok). by rewrite bool_decide_eq_true_2.
Qed.

Lemma mutated_again d m d' sn o act :
  document_ok d → document_ok d' → mutated_facts d m d' sn o act →
  apply_arm (snapshot_of d') m = Ok ArmDuplicate.
Proof.
  intros Hok Hok' [He Hq Ha Hp Hprof Hact Ho Hl Ht _ _ _ _ _ _]. destruct He as
    [request o Hid Htid Hroom|i request c Hi Hc|i a c next Hid Hi Hst
    |i request admission lease Hi Hc Hid Hst Hident Hown
    |i a admission started Hi Hst|i a admission Hi Hst|i a admission Hi Hst
    |i j a tr lease t Hi Hj Hown Htr Hreq Hsta Hlease Hst Hid
    |target requested o|o|profile o|activity o]; simpl in *.
  - apply submit_again; [done|rewrite Hq|by rewrite Ht]. apply elem_of_app. right. by left.
  - apply (cancel_queued_again d' i (set_cancellation (CancellationCancelled c) request)); [done| |done].
    rewrite Hq. apply list_lookup_insert_eq. by eapply lookup_lt_Some.
  - pose proof (slot_written (snapshot_of d) i a
      (set_cancellation (CancellationCancelled c) (ac_request a)) next (ac_started_at a) Hi) as Hi'.
    simpl in Hi'. rewrite <-Ha in Hi'.
    apply (cancel_active_again d' i _ c Hok' Hi'); [by rewrite Hq|done..].
  - apply (reserve_again d' (length (qi_active (sd_queue d))) (mkActive request admission None));
      [done|rewrite Ha; by apply list_lookup_middle|done..| |done].
    rewrite Hl. apply elem_of_app. right. by left.
  - pose proof (slot_written (snapshot_of d) i a (ac_request a) admission (Some started) Hi) as Hi'.
    simpl in Hi'. rewrite <-Ha in Hi'. by apply (starting_again d' i _ _ Hok' Hi').
  - pose proof (slot_written (snapshot_of d) i a (ac_request a) admission (ac_started_at a) Hi) as Hi'.
    simpl in Hi'. rewrite <-Ha in Hi'. by apply (mark_again d' i _ _ _ Hok' Hi').
  - pose proof (slot_written (snapshot_of d) i a (ac_request a) admission (ac_started_at a) Hi) as Hi'.
    simpl in Hi'. rewrite <-Ha in Hi'. by apply (mark_again d' i _ _ _ Hok' Hi').
  - apply release_again; [done| | |unfold tt_id; by rewrite Hreq|done..].
    + rewrite Ha. by apply (filter_key_delete ac_id _ i a (active_ids_nodup d Hok) Hi).
    + rewrite Ht. eapply last_Some_elem_of, push_tombstone_last.
  - unfold apply_set_profile_intent. simpl. by rewrite Hp, bool_decide_eq_true_2.
  - unfold apply_cancel_profile_intent. simpl. by rewrite Hp.
  - unfold apply_observe_profile. simpl. by rewrite Hprof, bool_decide_eq_true_2, Ho, N.eqb_refl.
  - unfold apply_update_last_activity. simpl. rewrite (Hact activity eq_refl). simpl.
    by rewrite N.ltb_irrefl, bool_decide_eq_true_2, Ho, N.eqb_refl.
Qed.
End idempotence.

(** ** Jobs are kept *)

Definition requests_of (q : PersonalWorkerQueueInput) : list PersonalWorkerJobRequest :=
  qi_queued q ++ (ac_request <$> qi_active q).

Lemma elem_of_insert_key {A} (l : list A) i x y z :
  l !! i = Some x → z ∈ l → z ≠ x → z ∈ <[i := y]> l.
Proof.
  intros Hx [j Hj]%list_elem_of_lookup Hne. apply list_elem_of_lookup. exists j.
  rewrite list_lookup_insert_ne; [done|]. intros ->. congruence.
Qed.

Lemma elem_of_inserted {A} (l : list A) i x y : l !! i = Some x → y ∈ <[i := y]> l.
Proof.
  intros Hx. apply list_elem_of_lookup. exists i. apply list_lookup_insert_eq.
  by eapply lookup_lt_Some.
Qed.

Lemma elem_of_delete {A} (l : list A) i x z : l !! i = Some x → z ∈ l → z ≠ x → z ∈ delete i l.
Proof.
  intros Hx Hz Hne. rewrite (delete_Permutation l i x Hx) in Hz.
  by apply elem_of_cons in Hz as [?|?].
Qed.

(** Rewriting the slot of one reservation keeps every job, up to the
    cancellation mark of the one rewritten. *)
Lemma slot_keeps_jobs sn i a r' admission started r :
  qi_active (sn_queue sn) !! i = Some a → (∃ c, r' = set_cancellation c (ac_request a)) →
  r ∈ requests_of (sn_queue sn) →
  ∃ c, set_cancellation c r ∈ requests_of (sn_queue (admit_in_slot sn i r' admission started)).
Proof.
  intros Hi [c ->]. assert (∀ x : PersonalWorkerJobRequest,
    set_cancellation (rq_cancellation x) x = x) as Hsame by by intros [].
  unfold requests_of. simpl. rewrite elem_of_app, list_elem_of_fmap.
  intros [Hr|(b & -> & Hb)].
  - exists (rq_cancellation r). rewrite Hsame. apply elem_of_app. by left.
  - destruct (decide (b = a)) as [->|Hne].
    + exists c. apply elem_of_app. right.
      apply (list_elem_of_fmap_2 ac_request _ (mkActive _ admission started)).
      by eapply elem_of_inserted.
    + exists (rq_cancellation (ac_request b)). rewrite Hsame. apply elem_of_app. right.
      apply list_elem_of_fmap_2. by eapply elem_of_insert_key.
Qed.

Lemma effect_keeps_jobs sn m sn' o act r :
  effect sn m sn' o act → r ∈ requests_of (sn_queue sn) →
  (∃ c, set_cancellation c r ∈ requests_of (sn_queue sn')) ∨
  (∃ t, t ∈ sn_tombstones sn' ∧ tt_request t = r).
Proof.
  assert (∀ x : PersonalWorkerJobRequest, set_cancellation (rq_cancellation x) x = x)
    as Hsame by by intros [].
  assert (∀ x, ac_request x = set_cancellation (rq_cancellation (ac_request x)) (ac_request x))
    as Hkeep by (intros x; by rewrite Hsame).
  assert (∀ q, r ∈ requests_of q → ∃ c, set_cancellation c r ∈ requests_of q) as Hplain.
  { intros q Hr. exists (rq_cancellation r). by rewrite Hsame. }
  intros He Hr. destruct He as [| i request c Hi Hc| | i request admission lease Hi
    | | | |i j a tr lease t Hi Hj Hown Htr Hreq| | | |]; simpl;
    try (left; by apply Hplain); try (left; eapply slot_keeps_jobs; eauto; fail).
  - left. apply Hplain. unfold requests_of in *. simpl in *. rewrite !elem_of_app in *. tauto.
  - left. unfold requests_of in *. simpl in *. rewrite elem_of_app in Hr.
    destruct Hr as [Hr|Hr]; [|exists (rq_cancellation r); rewrite Hsame; apply elem_of_app; by right].
    destruct (decide (r = request)) as [->|Hne].
    + eexists. apply elem_of_app. left. by eapply elem_of_inserted.
    + exists (rq_cancellation r). rewrite Hsame. apply elem_of_app. left. by eapply elem_of_insert_key.
  - left. apply Hplain. unfold requests_of in *. simpl in *. rewrite fmap_app, !elem_of_app in *.
    destruct Hr as [Hr|Hr]; [|tauto]. destruct (decide (r = request)) as [->|Hne].
    + right. right. by left.
    + left. by eapply elem_of_delete.
  - unfold requests_of in *. simpl in *. rewrite elem_of_app, list_elem_of_fmap in Hr.
    destruct Hr as [Hr|(b & -> & Hb)].
    + left. exists (rq_cancellation r). rewrite Hsame. apply elem_of_app. by left.
    + destruct (decide (b = a)) as [->|Hne].
      * right. exists t. split; [|done]. eapply last_Some_elem_of, push_tombstone_last.
      * left. exists (rq_cancellation (ac_request b)). rewrite Hsame. apply elem_of_app. right.
        apply list_elem_of_fmap_2. by eapply elem_of_delete.
Qed.

(** A cancelled queued job is left where it is by every mutation. *)
Lemma effect_keeps_cancelled sn m sn' o act r :
  effect sn m sn' o act → r ∈ qi_queued (sn_queue sn) → is_cancelled (rq_cancellation r) = true →
  r ∈ qi_queued (sn_queue sn').
Proof.
  intros He Hr Hc. destruct He as [| i request c Hi Hact| | i request admission lease Hi Hact
    | | | | | | | |]; simpl; try done.
  - apply elem_of_app. by left.
  - eapply elem_of_insert_key; [done..|]. intros ->. by rewrite Hact in Hc.
  - eapply elem_of_delete; [done..|]. intros ->. congruence.
Qed.

(** ** Absence of panics *)

Lemma expect_position {E A} (p : A → bool) l i :
  position p l = Some i → expect (E := E) (l !! i) ≠ Panic.
Proof. intros (x & Hx & _)%position_lookup. by rewrite Hx. Qed.

(** The admission records a mutation carries. *)
Definition mutation_records (m : PersonalWorkerStoreMutation) : list ExecutionAdmissionRecord :=
  match m with
  | Cancel _ _ (Some admission) => [admission]
  | RecordReservationAndAcquireCacheLease _ admission _ | MarkStarting _ admission _
  | MarkRunning _ admission | MarkDraining _ admission | ReleaseCompletion _ admission =>
      [admission]
  | _ => []
  end.

Lemma active_mut_no_panic queue id : active_mut queue id ≠ Panic.
Proof.
  unfold active_mut. no_panic. inv_opts. unfold active_index in *.
  by eapply expect_position in Hpanic.
Qed.

#[export] Hint Resolve active_mut_no_panic : no_panic.

Section no_panic.
Context `{SER : !StoreSerde}.

Lemma Sha256Digest_parse_no_panic s : Sha256Digest_parse s ≠ Panic.
Proof. unfold Sha256Digest_parse. no_panic. Qed.

#[local] Hint Resolve Sha256Digest_parse_no_panic : no_panic.

Lemma terminal_evidence_digest_no_panic c r a s l : terminal_evidence_digest c r a s l ≠ Panic.
Proof. unfold terminal_evidence_digest. no_panic. Qed.

Lemma snapshot_digest_no_panic q l t : snapshot_digest q l t ≠ Panic.
Proof. unfold snapshot_digest. no_panic. Qed.

#[local] Hint Resolve terminal_evidence_digest_no_panic snapshot_digest_no_panic : no_panic.

Lemma validate_tombstone_no_panic t : validate_tombstone t ≠ Panic.
Proof. unfold validate_tombstone. no_panic. Qed.

#[local] Hint Resolve validate_tombstone_no_panic : no_panic.

Lemma Tombstone_new_no_panic r a s l : Tombstone_new r a s l ≠ Panic.
Proof. unfold Tombstone_new. no_panic. Qed.

Lemma arm_transition_no_panic {A} r r' (e : ExecutionAdmissionError → PersonalWorkerStoreMutationError)
    (k : ExecutionAdmissionTransition → result PersonalWorkerStoreMutationError A) :
  record_valid r' → (∀ t, k t ≠ Panic) → (t ← map_err e (plan_transition r r'); k t) ≠ Panic.
Proof.
  intros Hv Hk H. inv_panic H; [by eapply plan_transition_no_panic|by eapply Hk].
Qed.

Lemma apply_arm_no_panic sn m : Forall record_valid (mutation_records m) → apply_arm sn m ≠ Panic.
Proof.
  destruct m as [| id c [next|] | | | | | | | | |]; simpl; intros Hv;
    rewrite ?Forall_singleton in Hv.
  - unfold apply_submit. no_panic.
  - unfold apply_cancel. destruct (queued_index _ _) as [i|] eqn:Hq; [done|].
    destruct (active_index _ _) as [i|] eqn:Ha; [|done]. unfold apply_cancel_active. rsimpl.
    case_match; [done|]. apply position_lookup in Ha as (a & Ha & _). rewrite Ha. rsimpl.
    repeat case_match; try done; by apply arm_transition_no_panic.
  - unfold apply_cancel. destruct (queued_index _ _) as [i|] eqn:Hq.
    + unfold apply_cancel_queued. simpl. apply position_lookup in Hq as (r & Hr & _). rewrite Hr.
      rsimpl. by repeat case_match.
    + by case_match.
  - unfold apply_record_reservation. no_panic.
    + by eapply expect_position in Hpanic.
    + inv_opts. by eapply expect_position in Hpanic.
    + by rewrite last_snoc in Hpanic.
  - unfold apply_mark_starting. no_panic. inv_opts. by eapply plan_transition_no_panic.
  - unfold apply_mark, apply_active_transition. no_panic. by eapply plan_transition_no_panic.
  - unfold apply_mark, apply_active_transition. no_panic. by eapply plan_transition_no_panic.
  - unfold apply_release. no_panic; inv_opts.
    + by eapply expect_position in Hpanic.
    + by eapply plan_transition_no_panic.
    + by eapply expect_position in Hpanic.
    + by eapply Tombstone_new_no_panic.
  - unfold apply_set_profile_intent. no_panic.
  - unfold apply_cancel_profile_intent. no_panic.
  - unfold apply_observe_profile. no_panic.
  - unfold apply_update_last_activity. no_panic.
Qed.

Lemma lease_step_no_panic m s l : lease_step m s l ≠ Panic.
Proof. destruct s. unfold lease_step. no_panic. Qed.

Lemma tombstone_step_no_panic live s t : tombstone_step live s t ≠ Panic.
Proof. destruct s. unfold tombstone_step. no_panic. Qed.

Lemma history_step_no_panic first s e : history_step first s e ≠ Panic.
Proof. destruct s as [[] ]. unfold history_step. no_panic. Qed.

#[local] Hint Resolve lease_step_no_panic tombstone_step_no_panic history_step_no_panic : no_panic.

Lemma validate_document_no_panic d : validate_document d ≠ Panic.
Proof.
  unfold validate_document, validate_cache_leases, validate_terminal_tombstones, validate_history.
  no_panic.
Qed.

Lemma summary_no_panic d : summary d ≠ Panic.
Proof. unfold summary, bounded_count. no_panic. Qed.

#[local] Hint Resolve validate_document_no_panic summary_no_panic : no_panic.

Lemma successor_document_no_panic d q l t o : successor_document d q l t o ≠ Panic.
Proof.
  unfold successor_document, QueueGeneration_next, advance_with_terminal_tombstones,
    next_queue_generation, validate_terminal_tombstone_ledger_shape, StoreRevision_next, from_parts.
  no_panic.
Qed.
End no_panic.

(** ** Theorems about one mutation *)

Section mutation.
Context `{SER : !StoreSerde}.

(** (C14) A mutation respects the replacement contract: applied to a valid
    document it yields a valid document that [validate_successor_of] accepts,
    so the store never refuses the result of a mutation as a successor. *)
Theorem mutation_is_accepted_successor (d d' : PersonalWorkerStoreDocument)
    (m : PersonalWorkerStoreMutation)
    (Hd : validate_document d = Ok ()) (Hm : mutated d m d') :
  validate_document d' = Ok () ∧ validate_successor_of d' d = Ok () ∧
  sd_revision d' = sd_revision d + 1 ∧
  qi_generation (sd_queue d') = qi_generation (sd_queue d) + 1.
Proof.
  apply validate_document_Ok in Hd. pose proof (mutated_succeeds d m d' Hd Hm) as Hs.
  destruct (mutated_inv d m d' Hm) as (sn & o & act & Hf).
  split_and!; [apply Hf|done|..].
  - by apply StoreRevision_next_Ok, (mf_revision _ _ _ _ _ _ Hf).
  - apply next_queue_generation_Ok, Hf.
Qed.

(** (C15) Every mutation is idempotent: applied again to the document it
    produced, it is recognised as a duplicate and changes nothing. *)
Theorem mutation_idempotent (d d' : PersonalWorkerStoreDocument) (m : PersonalWorkerStoreMutation)
    (Hd : validate_document d = Ok ()) (Hm : mutated d m d') :
  apply_to_snapshot d' m = Ok Duplicate.
Proof.
  apply validate_document_Ok in Hd. destruct (mutated_inv d m d' Hm) as (sn & o & act & Hf).
  pose proof (mf_valid _ _ _ _ _ _ Hf) as Hd'. apply validate_document_Ok in Hd'.
  unfold apply_to_snapshot. fold (snapshot_of d').
  by rewrite (mutated_again d m d' sn o act Hd Hd' Hf).
Qed.

(** (C16) No work is lost: every job queued or active before a mutation is
    still queued or active after it, unchanged but for its cancellation mark,
    or its exact request is in a terminal tombstone. *)
Theorem mutation_loses_no_work (d d' : PersonalWorkerStoreDocument)
    (m : PersonalWorkerStoreMutation) (r : PersonalWorkerJobRequest)
    (Hm : mutated d m d') (Hr : r ∈ requests_of (sd_queue d)) :
  (∃ c, set_cancellation c r ∈ requests_of (sd_queue d')) ∨
  (∃ t, t ∈ sd_terminal_tombstones d' ∧ tt_request t = r).
Proof.
  destruct (mutated_inv d m d' Hm) as (sn & o & act & Hf).
  assert (requests_of (sd_queue d') = requests_of (sn_queue sn)) as ->.
  { unfold requests_of. by rewrite (mf_queued _ _ _ _ _ _ Hf), (mf_active _ _ _ _ _ _ Hf). }
  rewrite (mf_tombstones _ _ _ _ _ _ Hf).
  by eapply (effect_keeps_jobs (snapshot_of d)); [apply Hf|].
Qed.

(** One mutation of any kind. *)
Definition mutation_step (d d' : PersonalWorkerStoreDocument) : Prop := ∃ m, mutated d m d'.

Lemma cancelled_stay d d' :
  rtc mutation_step d d' → ∀ r, r ∈ qi_queued (sd_queue d) →
  is_cancelled (rq_cancellation r) = true → r ∈ qi_queued (sd_queue d').
Proof.
  induction 1 as [|d d1 d' [m Hm] _ IH]; [done|]. intros r Hr Hc. apply IH; [|done].
  destruct (mutated_inv d m d1 Hm) as (sn & o & act & Hf).
  rewrite (mf_queued _ _ _ _ _ _ Hf).
  by eapply (effect_keeps_cancelled (snapshot_of d)); [apply Hf| |].
Qed.

(** (C39) A cancelled queued job never leaves the queue: no mutation, and no
    sequence of mutations, removes it.  A queue that has filled with cancelled
    jobs therefore refuses every new job for good. *)
Theorem cancelled_jobs_hold_their_place (d d' : PersonalWorkerStoreDocument)
    (Hd : validate_document d = Ok ()) (Hsteps : rtc mutation_step d d') :
  (∀ r, r ∈ qi_queued (sd_queue d) → is_cancelled (rq_cancellation r) = true →
     r ∈ qi_queued (sd_queue d')) ∧
  (length (qi_queued (sd_queue d)) = MAX_PERSONAL_WORKER_QUEUE_ENTRIES →
   Forall (λ r, is_cancelled (rq_cancellation r) = true) (qi_queued (sd_queue d)) →
   ∀ request observed_at d'', ¬ mutated d' (Submit request observed_at) d'').
Proof.
  split; [by apply cancelled_stay|]. intros Hfull Hall request o d'' Hsub.
  apply validate_document_Ok in Hd.
  assert (length (qi_queued (sd_queue d)) ≤ length (qi_queued (sd_queue d')))%nat as Hlen.
  { rewrite Forall_forall in Hall.
    assert (qi_queued (sd_queue d) ⊆+ qi_queued (sd_queue d')) as Hsubm; [|by apply submseteq_length].
    apply NoDup_submseteq; [by eapply NoDup_fmap_1, queued_ids_nodup|].
    intros r Hr. eapply cancelled_stay; eauto. }
  destruct (mutated_inv _ _ _ Hsub) as (sn & o' & act & Hf).
  pose proof (mf_effect _ _ _ _ _ _ Hf) as He. inversion He; subst. simpl in *. lia.
Qed.

(** Applying a mutation never panics, on any document, as long as the
    admission records it carries were built by [from_input]: every index comes
    from a search, every [expect] is guarded, and neither does building the
    successor. *)
Theorem mutation_no_panic (d : PersonalWorkerStoreDocument) (m : PersonalWorkerStoreMutation)
    (Hrecords : Forall record_valid (mutation_records m)) :
  apply_to_snapshot d m ≠ Panic ∧ ∀ q l t o, successor_document d q l t o ≠ Panic.
Proof.
  split; [|intros; apply successor_document_no_panic].
  unfold apply_to_snapshot, record_activity. intros H. inv_panic H.
  by apply apply_arm_no_panic in H.
Qed.
End mutation.

(** ** The transaction against a store *)

(** What the transaction relies on.  [settled s o] says that the store holds
    document [o] and nothing is in flight; [in_doubt s o d] that a publication
    of [d] over [o] stopped at an unknown point, and [restarts s s'] that the
    process or the machine stopped in [s] and came back as [s'].  A result that
    is not [Ok] is an error or a call that never returned. *)
Class StoreContract (S : Type) `{SER : !StoreSerde, !PersonalWorkerStore S}
    (settled : S → option PersonalWorkerStoreDocument → Prop)
    (in_doubt : S → option PersonalWorkerStoreDocument → PersonalWorkerStoreDocument → Prop)
    (restarts : S → S → Prop) : Prop := {
  contract_valid s d : settled s (Some d) → validate_document d = Ok ();
  contract_settled_restarts s s' o : settled s o → restarts s s' → settled s' o;
  contract_doubt_restarts s s' o d : in_doubt s o d → restarts s s' → in_doubt s' o d;
  contract_recover_settled s s' r o : settled s o → store_recover s = (s', r) → settled s' o;
  contract_recover_doubt s s' r o d :
    in_doubt s o d → store_recover s = (s', Ok r) → settled s' o ∨ settled s' (Some d);
  contract_recover_stopped s s' r o d :
    in_doubt s o d → store_recover s = (s', r) → in_doubt s' o d;
  contract_load s s' o r :
    settled s o → store_load s = (s', r) → settled s' o ∧ ∀ o', r = Ok o' → o' = o;
  contract_replace s s' o revision d receipt :
    settled s o → store_replace_if_revision s revision d = (s', Ok receipt) →
    (∃ current, o = Some current ∧ sd_revision current = revision ∧
      validate_successor_of d current = Ok ()) ∧
    settled s' (Some d) ∧ wrc_disposition receipt = WriteReplaced ∧
    wrc_revision receipt = sd_revision d;
  contract_replace_stopped s s' o revision d r :
    settled s o → store_replace_if_revision s revision d = (s', r) → in_doubt s' o d;
}.

Section contract.
Context {S : Type} `{SER : !StoreSerde, !PersonalWorkerStore S}
  (settled : S → option PersonalWorkerStoreDocument → Prop)
  (in_doubt : S → option PersonalWorkerStoreDocument → PersonalWorkerStoreDocument → Prop)
  (restarts : S → S → Prop) `{!StoreContract S settled in_doubt restarts}.

(** What a transaction that returned a receipt did. *)
Record committed (revision generation : N) (m : PersonalWorkerStoreMutation) (s s' : S)
    (receipt : PersonalWorkerStoreMutationReceipt) (s1 s2 : S)
    (recovery : PersonalWorkerStoreRecovery) (current : PersonalWorkerStoreDocument) : Prop := {
  cm_recover : store_recover s = (s1, Ok recovery);
  cm_load : store_load s1 = (s2, Ok (Some current));
  cm_revision : sd_revision current = revision;
  cm_generation : qi_generation (sd_queue current) = generation;
  cm_outcome :
    (apply_to_snapshot current m = Ok Duplicate ∧ s' = s2 ∧
     mr_disposition receipt = MutationDuplicate ∧ mr_new_revision receipt = revision) ∨
    (∃ next write, mutated current m next ∧
       store_replace_if_revision s2 revision next = (s', Ok write) ∧
       mr_disposition receipt = MutationApplied ∧ mr_new_revision receipt = sd_revision next);
}.

Lemma transaction_committed revision generation m s s' receipt :
  apply_personal_worker_store_mutation revision generation m s = (s', Ok receipt) →
  ∃ s1 s2 recovery current, committed revision generation m s s' receipt s1 s2 recovery current.
Proof.
  unfold apply_personal_worker_store_mutation, mbind, stM_bind, callM, pureM.
  destruct (store_recover s) as [s1 [recovery| |]] eqn:Hrec; simpl; [|done..].
  destruct (store_load s1) as [s2 [[current|]| |]] eqn:Hload; simpl; [|done..].
  destruct (_ =? revision) eqn:Hrev; simpl; [|done]. destruct (_ =? generation) eqn:Hgen; simpl; [|done].
  bprop. intros H. exists s1, s2, recovery, current. split; [done..|].
  destruct (apply_to_snapshot current m) as [[|queue leases tombstones o]| |] eqn:Happ; [|..|done|done].
  - left. injection H as <- <-. by split_and!.
  - right. destruct (successor_document current queue leases tombstones o) as [next| |] eqn:Hnext;
      [|done..].
    destruct (store_replace_if_revision s2 revision next) as [s3 [write| |]] eqn:Hw; simpl in H; [|done..].
    case_match; [done|]. injection H as <- <-. exists next, write. split_and!; [|done..].
    by exists queue, leases, tombstones, o.
Qed.

(** What a transaction may have done, whatever it returned. *)
Lemma transaction_ran revision generation m s s' r :
  apply_personal_worker_store_mutation revision generation m s = (s', r) →
  (∃ x, store_recover s = (s', x)) ∨
  (∃ s1 recovery x, store_recover s = (s1, Ok recovery) ∧ store_load s1 = (s', x)) ∨
  (∃ s1 s2 recovery current next x,
     store_recover s = (s1, Ok recovery) ∧ store_load s1 = (s2, Ok (Some current)) ∧
     mutated current m next ∧ store_replace_if_revision s2 revision next = (s', x)).
Proof.
  unfold apply_personal_worker_store_mutation, mbind, stM_bind, callM, pureM.
  destruct (store_recover s) as [s1 [recovery|x|]] eqn:Hrec; simpl; [|intros [= <- _]; eauto..].
  destruct (store_load s1) as [s2 [[current|]|x|]] eqn:Hload; simpl;
    [|intros [= <- _]; eauto 8..].
  destruct (_ =? revision) eqn:Hrev; simpl; [|intros [= <- _]; eauto 8].
  destruct (_ =? generation) eqn:Hgen; simpl; [|intros [= <- _]; eauto 8].
  destruct (apply_to_snapshot current m) as [[|queue leases tombstones o]|x|] eqn:Happ;
    [intros [= <- _]; eauto 8| |intros [= <- _]; eauto 8..].
  destruct (successor_document current queue leases tombstones o) as [next|x|] eqn:Hnext;
    [|intros [= <- _]; eauto 8..].
  destruct (store_replace_if_revision s2 revision next) as [s3 w] eqn:Hw. intros H.
  assert (s3 = s') as <-.
  { destruct w; simpl in H; [case_match|..]; by injection H. }
  right. right. exists s1, s2, recovery, current, next, w.
  split_and!; [done..|by exists queue, leases, tombstones, o|done].
Qed.

Lemma restarts_settled s s' o : settled s o → rtc restarts s s' → settled s' o.
Proof. intros Hs Hr. induction Hr; [done|]. by eapply IHHr, contract_settled_restarts. Qed.

Lemma restarts_doubt s s' o d : in_doubt s o d → rtc restarts s s' → in_doubt s' o d.
Proof. intros Hs Hr. induction Hr; [done|]. by eapply IHHr, contract_doubt_restarts. Qed.

(** A transaction that returns a receipt has published its mutation at
    most once, on the exact revision and generation the caller expected.  On a
    store that holds [o], or that a publication of [d] over [o] left in doubt,
    the document mutated is one of the two: a duplicate leaves the store with
    that document, an applied mutation with its successor, one revision later. *)
Theorem transaction_commits (s s' : S) (revision generation : N)
    (m : PersonalWorkerStoreMutation) (receipt : PersonalWorkerStoreMutationReceipt)
    (o : option PersonalWorkerStoreDocument) (d : PersonalWorkerStoreDocument)
    (Hs : settled s o ∨ in_doubt s o d)
    (Hrun : apply_personal_worker_store_mutation revision generation m s = (s', Ok receipt)) :
  ∃ current, (o = Some current ∨ current = d) ∧
    sd_revision current = revision ∧ qi_generation (sd_queue current) = generation ∧
    ((mr_disposition receipt = MutationDuplicate ∧ settled s' (Some current) ∧
      apply_to_snapshot current m = Ok Duplicate) ∨
     (∃ next, mr_disposition receipt = MutationApplied ∧ mutated current m next ∧
        settled s' (Some next) ∧ sd_revision next = revision + 1 ∧
        mr_new_revision receipt = revision + 1)).
Proof.
  destruct (transaction_committed _ _ _ _ _ _ Hrun)
    as (s1 & s2 & recovery & current & [Hrec Hload Hr Hg Hout]).
  assert (∃ o', settled s1 o' ∧ (o' = o ∨ o' = Some d)) as (o' & Hset & Ho').
  { destruct Hs as [Hs|Hs].
    - exists o. split; [by eapply contract_recover_settled|by left].
    - destruct (contract_recover_doubt _ _ _ _ _ Hs Hrec); eauto. }
  destruct (contract_load _ _ _ _ Hset Hload) as [Hset2 Hcur]. specialize (Hcur _ eq_refl) as <-.
  exists current. split_and!; [naive_solver|done..|].
  destruct Hout as [(Hdup & -> & Hdisp & _)|(next & write & Hm & Hw & Hdisp & Hnew)]; [by left|].
  right. exists next. destruct (contract_replace _ _ _ _ _ _ Hset2 Hw) as (_ & Hset' & _ & _).
  assert (sd_revision next = revision + 1) as Hrev.
  { destruct (mutated_inv _ _ _ Hm) as (sn & ob & act & Hf). rewrite <-Hr.
    by apply StoreRevision_next_Ok, (mf_revision _ _ _ _ _ _ Hf). }
  split_and!; [done..|congruence].
Qed.

(** (C2) A transaction that fails, or whose process or machine dies at any
    point of it, can be retried safely: after any number of restarts, once the
    store recovers it holds either the document from before the transaction,
    or its successor under the mutation, on which the retry is a duplicate. *)
Theorem transaction_retry_is_safe (s s' s1 s2 : S) (revision generation : N)
    (m : PersonalWorkerStoreMutation)
    (r : result PersonalWorkerStoreMutationError PersonalWorkerStoreMutationReceipt)
    (current : PersonalWorkerStoreDocument) (recovery : PersonalWorkerStoreRecovery)
    (Hset : settled s (Some current))
    (Hrun : apply_personal_worker_store_mutation revision generation m s = (s', r))
    (Hrestart : rtc restarts s' s1)
    (Hrec : store_recover s1 = (s2, Ok recovery)) :
  settled s2 (Some current) ∨
  ∃ next, mutated current m next ∧ settled s2 (Some next) ∧
    apply_to_snapshot next m = Ok Duplicate.
Proof.
  destruct (transaction_ran _ _ _ _ _ _ Hrun)
    as [[x Hx]|[(t & rec & x & Hr & Hl)|(t & u & rec & cur & next & x & Hr & Hload & Hm & Hw)]].
  - left. eapply contract_recover_settled, Hrec. eapply restarts_settled, Hrestart.
    by eapply contract_recover_settled.
  - left. eapply contract_recover_settled, Hrec. eapply restarts_settled, Hrestart.
    refine (proj1 (contract_load _ _ _ _ _ Hl)). by eapply contract_recover_settled.
  - pose proof (contract_recover_settled _ _ _ _ Hset Hr) as Hset1.
    destruct (contract_load _ _ _ _ Hset1 Hload) as [Hset2 Hcur]. injection (Hcur _ eq_refl) as <-.
    assert (in_doubt s1 (Some cur) next) as Hdoubt
      by (eapply restarts_doubt, Hrestart; exact (contract_replace_stopped _ _ _ _ _ _ Hset2 Hw)).
    destruct (contract_recover_doubt _ _ _ _ _ Hdoubt Hrec) as [?|Hnext]; [by left|].
    right. exists next. split_and!; [done..|].
    pose proof (contract_valid _ _ Hset) as Hd. apply validate_document_Ok in Hd.
    pose proof (contract_valid _ _ Hnext) as Hd'. apply validate_document_Ok in Hd'.
    destruct (mutated_inv _ _ _ Hm) as (sn & ob & act & Hf).
    unfold apply_to_snapshot. fold (snapshot_of next).
    by rewrite (mutated_again cur m next sn ob act Hd Hd' Hf).
Qed.
End contract.

(** ** A store in memory, sample mutations, and the theorems at them *)

Section memory.
Context `{SER : !StoreSerde}.

(** The document, and whether the acknowledgement of the next publication will
    be lost. *)
Record memory := mkMemory {
  mem_document : option PersonalWorkerStoreDocument;
  mem_lossy : bool;
}.

Definition memory_recover (s : memory)
    : memory * result PersonalWorkerStoreError PersonalWorkerStoreRecovery :=
  match mem_document s with
  | Some d => (s, _ ← validate_document d; Ok (mkRecovery RecoveryClean (Some (sd_revision d))))
  | None => (s, Ok (mkRecovery RecoveryClean None))
  end.

Definition memory_replace (s : memory) (revision : N) (d : PersonalWorkerStoreDocument)
    : memory * result PersonalWorkerStoreError PersonalWorkerStoreWriteReceipt :=
  match mem_document s with
  | None => (s, Err (mkStoreError Missing "personal worker state does not exist"))
  | Some current =>
      if negb (sd_revision current =? revision)
      then (s, Err (mkStoreError RevisionConflict
             "personal worker state revision changed before publication"))
      else
        match (_ ← validate_successor_of d current; validate_document d) with
        | Ok _ =>
            if mem_lossy s
            then (mkMemory (Some d) false, Err (mkStoreError Io "acknowledgement lost"))
            else (mkMemory (Some d) false, Ok (mkWriteReceipt WriteReplaced (sd_revision d) 0))
        | Err e => (s, Err e)
        | Panic => (s, Panic)
        end
  end.

#[local] Instance memory_store : PersonalWorkerStore memory := {|
  store_load s := (s, Ok (mem_document s));
  store_create s d := (s, Err (mkStoreError RevisionConflict "personal worker state already exists"));
  store_replace_if_revision := memory_replace;
  store_recover := memory_recover;
|}.

Definition memory_settled (s : memory) (o : option PersonalWorkerStoreDocument) : Prop :=
  mem_document s = o ∧ ∀ d, o = Some d → validate_document d = Ok ().

Definition memory_in_doubt (s : memory) (o : option PersonalWorkerStoreDocument)
    (d : PersonalWorkerStoreDocument) : Prop :=
  memory_settled s o ∨ memory_settled s (Some d).

Lemma memory_recover_Ok s s' r : memory_recover s = (s', Ok r) →
  s' = s ∧ memory_settled s (mem_document s).
Proof.
  unfold memory_recover. destruct (mem_document s) as [d|] eqn:Hd.
  - intros [= <- H]. inv_ok H. destruct y. split; [done|]. split; [done|]. by intros ? [= <-].
  - intros [= <- _]. by split.
Qed.

Lemma memory_replace_inv s s' revision d x : memory_replace s revision d = (s', x) →
  (s' = s ∧ ∀ w, x ≠ Ok w) ∨
  (∃ current, mem_document s = Some current ∧ sd_revision current = revision ∧
     validate_successor_of d current = Ok () ∧ validate_document d = Ok () ∧
     mem_document s' = Some d ∧ ∀ w, x = Ok w → w = mkWriteReceipt WriteReplaced (sd_revision d) 0).
Proof.
  unfold memory_replace. destruct (mem_document s) as [current|] eqn:Hd;
    [|intros [= <- <-]; by left].
  destruct (_ =? _) eqn:Hr; simpl; [|intros [= <- <-]; by left]. bprop.
  destruct (_ ≫= _) as [u|e|] eqn:Hv; [|intros [= <- <-]; by left..].
  inv_ok Hv. destruct y, u. right. exists current.
  destruct (mem_lossy s); injection H as <- <-; (split_and!; [done..|]); by intros w [= <-].
Qed.

#[local] Instance memory_contract : StoreContract memory memory_settled memory_in_doubt eq.
Proof.
  assert (∀ s s' r, memory_recover s = (s', r) → s' = s) as Hsame.
  { intros s s' r. unfold memory_recover. by destruct (mem_document s); intros [= <- _]. }
  split; simpl.
  - intros s d [_ H]. by apply H.
  - by intros s s' o H <-.
  - by intros s s' o d H <-.
  - by intros s s' r o Hs ->%Hsame.
  - by intros s s' r o d Hs ->%Hsame.
  - by intros s s' r o d Hs ->%Hsame.
  - intros s s' o r [<- Hv] [= <- <-]. split; [by split|]. by intros o' [= <-].
  - intros s s' o revision d receipt [<- Hv] [[-> Hno]|(c & Hc & Hr & Hs & Hd & Hs' & Hw)]%memory_replace_inv;
      [by destruct (Hno receipt)|].
    rewrite (Hw receipt eq_refl). split_and!; [by exists c| |done..].
    split; [done|]. by intros ? [= <-].
  - intros s s' o revision d e [<- Hv] [[-> Hno]|(c & Hc & Hr & Hs & Hd & Hs' & Hw)]%memory_replace_inv.
    + left. by split.
    + right. split; [done|]. by intros ? [= <-].
Qed.

(** An executable form of [mutated]. *)
Definition mutate (d : PersonalWorkerStoreDocument) (m : PersonalWorkerStoreMutation)
    : result PersonalWorkerStoreMutationError (option PersonalWorkerStoreDocument) :=
  application ← apply_to_snapshot d m;
  match application with
  | Duplicate => Ok None
  | Applied queue leases tombstones o =>
      next ← successor_document d queue leases tombstones o; Ok (Some next)
  end.

Lemma mutate_mutated d m d' : mutate d m = Ok (Some d') → mutated d m d'.
Proof.
  unfold mutate. intros H. apply bind_Ok in H as (a & Ha & H).
  destruct a as [|queue leases tombstones o]; [done|]. apply bind_Ok in H as (next & Hn & H).
  injection H as <-. by exists queue, leases, tombstones, o.
Qed.
End memory.

#[local] Existing Instances sample_serde memory_store memory_contract.

Definition job_f := sample_job "job-f" PriorityNormal 2000 CancellationActive.

(** A job submitted to the sample document. *)
Definition sample_submit : PersonalWorkerStoreMutation := Submit job_f 1400.

Definition sample_submitted : PersonalWorkerStoreDocument :=
  match mutate sample_document sample_submit with
  | Ok (Some d) => d
  | _ => sample_document
  end.

Lemma sample_submit_mutates : mutated sample_document sample_submit sample_submitted.
Proof. apply mutate_mutated. vm_compute. reflexivity. Qed.

(** The active job of the sample document is reported as ended. *)
Definition sample_release : PersonalWorkerStoreMutation :=
  ReleaseCompletion "job-a" (sample_record Unavailable 1400 None (Some HostUnavailable)).

Definition sample_released : PersonalWorkerStoreDocument :=
  match mutate sample_document sample_release with
  | Ok (Some d) => d
  | _ => sample_document
  end.

Lemma sample_release_mutates : mutated sample_document sample_release sample_released.
Proof. apply mutate_mutated. vm_compute. reflexivity. Qed.

Lemma mutation_is_accepted_successor_witness :
  validate_successor_of sample_released sample_document = Ok ().
Proof.
  exact (proj1 (proj2 (mutation_is_accepted_successor sample_document sample_released
    sample_release sample_document_valid sample_release_mutates))).
Defined.

Lemma mutation_idempotent_witness : apply_to_snapshot sample_released sample_release = Ok Duplicate.
Proof.
  exact (mutation_idempotent sample_document sample_released sample_release
    sample_document_valid sample_release_mutates).
Defined.

Lemma mutation_loses_no_work_witness :
  (∃ c, set_cancellation c job_a ∈ requests_of (sd_queue sample_released)) ∨
  (∃ t, t ∈ sd_terminal_tombstones sample_released ∧ tt_request t = job_a).
Proof.
  exact (mutation_loses_no_work sample_document sample_released sample_release job_a
    sample_release_mutates ltac:(vm_compute; do 4 right; left)).
Defined.

Lemma cancelled_jobs_hold_their_place_witness : job_e ∈ qi_queued (sd_queue sample_submitted).
Proof.
  exact (proj1 (cancelled_jobs_hold_their_place sample_document sample_submitted
    sample_document_valid (rtc_once _ _ (ex_intro _ sample_submit sample_submit_mutates)))
    job_e ltac:(vm_compute; do 3 right; left) eq_refl).
Defined.

Lemma mutation_no_panic_witness : apply_to_snapshot sample_document sample_release ≠ Panic.
Proof.
  exact (proj1 (mutation_no_panic sample_document sample_release
    (proj2 (Forall_singleton _ _)
       (sample_valid Unavailable 1400 None (Some HostUnavailable) eq_refl)))).
Defined.

Definition sample_store : memory := mkMemory (Some sample_document) false.
Definition sample_lossy_store : memory := mkMemory (Some sample_document) true.

Definition sample_receipt : PersonalWorkerStoreMutationReceipt :=
  mkMutationReceipt 1 MutationApplied ClassReleaseCompletionAndCacheLease 1 2 1 2.

Lemma sample_transaction_commits :
  apply_personal_worker_store_mutation 1 1 sample_release sample_store
    = (mkMemory (Some sample_released) false, Ok sample_receipt).
Proof. vm_compute. reflexivity. Qed.

Definition sample_failure : PersonalWorkerStoreMutationError :=
  map_store_error (mkStoreError Io "acknowledgement lost").

Lemma sample_transaction_fails :
  apply_personal_worker_store_mutation 1 1 sample_release sample_lossy_store
    = (mkMemory (Some sample_released) false, Err sample_failure).
Proof. vm_compute. reflexivity. Qed.

Lemma sample_recovers :
  memory_recover (mkMemory (Some sample_released) false)
    = (mkMemory (Some sample_released) false, Ok (mkRecovery RecoveryClean (Some 2))).
Proof. vm_compute. reflexivity. Qed.

Lemma sample_settled lossy :
  memory_settled (mkMemory (Some sample_document) lossy) (Some sample_document).
Proof. split; [done|]. intros d [= <-]. apply sample_document_valid. Qed.

Lemma transaction_commits_witness :
  ∃ current, sd_revision current = 1 ∧ qi_generation (sd_queue current) = 1.
Proof.
  destruct (transaction_commits memory_settled memory_in_doubt eq sample_store
    (mkMemory (Some sample_released) false) 1 1 sample_release sample_receipt
    (Some sample_document) sample_released (or_introl (sample_settled false))
    sample_transaction_commits) as (current & _ & H1 & H2 & _).
  exact (ex_intro _ current (conj H1 H2)).
Defined.

Lemma transaction_retry_is_safe_witness :
  memory_settled (mkMemory (Some sample_released) false) (Some sample_document) ∨
  ∃ next, mutated sample_document sample_release next ∧
    memory_settled (mkMemory (Some sample_released) false) (Some next) ∧
    apply_to_snapshot next sample_release = Ok Duplicate.
Proof.
  exact (transaction_retry_is_safe memory_settled memory_in_doubt eq sample_lossy_store
    (mkMemory (Some sample_released) false) (mkMemory (Some sample_released) false)
    (mkMemory (Some sample_released) false) 1 1
    sample_release (Err sample_failure) sample_document
    (mkRecovery RecoveryClean (Some 2)) (sample_settled true)
    sample_transaction_fails (rtc_refl _ _) sample_recovers).
Defined.
