(* ===== verification/StoreCodec.v ===== *)
(** * Encoding, decoding and migrating the store document

    [encode_personal_worker_store_document], [decode_personal_worker_store_document]
    and [migrate_personal_worker_store_v1_document] of
    [src/src/personal_worker_store.rs], with the conversions of tombstones,
    history entries and documents.  [serde_json] is a parameter
    ([DocumentSerde]); what the round trip relies on is [DocumentSerdeLaws]. *)

From S2P Require Import Prelude SortBy Artifact ExecutionAdmission AdmissionLifecycle PidCapacity.
From S2P Require Import WorkerQueue QueueSchedule QueueTheorems StoreWire WorkerStore StoreDocument.

Local Open Scope N_scope.

(** [serde_json] on the document structs. *)
Class DocumentSerde := {
  to_vec_pretty : WireDocument → option bytes;
  from_slice : bytes → option WireDocument;
  from_slice_version : bytes → option WireVersion;
  to_vec_pretty_v1 : WireDocumentV1 → option bytes;
  from_slice_v1 : bytes → option WireDocumentV1;
}.

Definition newline : ascii := "010"%char.

(** A derived [Serialize] is read back by the derived [Deserialize], trailing
    white space is skipped, a struct with fewer fields reads the same text by
    ignoring the others; an object cut short is not an object, and it ends in
    its closing brace. *)
Class DocumentSerdeLaws `{DS : !DocumentSerde} : Prop := {
  pretty_read_back w b : to_vec_pretty w = Some b → from_slice (b ++ [newline]) = Some w;
  pretty_version w b : to_vec_pretty w = Some b →
    from_slice_version (b ++ [newline]) = Some (mkWireVersion (wd_schema_version w));
  pretty_cut_short w b b' : to_vec_pretty w = Some b → b' `prefix_of` b → b' ≠ b →
    from_slice b' = None;
  pretty_last w b : to_vec_pretty w = Some b → last b ≠ Some newline;
}.

#[export] Instance store_revision_keeps : KeepsRaw StoreRevision_new.
Proof. intros raw a H. unfold StoreRevision_new in H. inv_ok H. congruence. Qed.

(** ** History entries *)

Definition WireHistoryEntry_try_into (value : WireHistoryEntry)
    : result PersonalWorkerStoreError PersonalWorkerHistoryEntry :=
  revision ← newtype StoreRevision_new (whe_revision value);
  queue_generation ← newtype QueueGeneration_new (whe_queue_generation value);
  observed_at ← epoch (whe_observed_at value);
  state_digest ← newtype Sha256Digest_parse (whe_state_digest value);
  Ok (mkHistoryEntry revision queue_generation observed_at (whe_queued_count value)
        (whe_active_count value) (whe_cache_lease_count value)
        (whe_terminal_tombstone_count value) state_digest).

Definition history_entry_wf (e : PersonalWorkerHistoryEntry) : Prop :=
  accepted StoreRevision_new (he_revision e) ∧ accepted QueueGeneration_new (he_queue_generation e) ∧
  accepted EpochMillis_new (he_observed_at e) ∧ accepted Sha256Digest_parse (he_state_digest e).

#[export] Instance WireHistoryEntry_iso :
  WireIso history_entry_wf WireHistoryEntry_from WireHistoryEntry_try_into.
Proof. wire_struct WireHistoryEntry_try_into WireHistoryEntry_from history_entry_wf. Qed.

(** ** Distinct values are written differently

    No field is dropped or merged: each conversion to the serialized form is
    injective, also on values no constructor would accept. *)

Ltac wire_inj from :=
  intros a b Heq; unfold from in Heq; destruct a, b;
  repeat match goal with c : PersonalWorkerTerminalMutationClass |- _ => destruct c end;
  simpl in Heq;
  repeat match type of Heq with
  | context [fmap ?f ?x] => let v := fresh "v" in remember (fmap f x) as v in Heq
  | context [?f ?x] => is_const f; let v := fresh "v" in remember (f x) as v in Heq
  end;
  try discriminate Heq; try (injection Heq; clear Heq; intros); subst;
  repeat match goal with
  | H : ?f ?x = ?f ?y |- _ => apply (inj f) in H
  | H : fmap ?f ?x = fmap ?f ?y |- _ => apply (inj (fmap f)) in H
  end; by subst.

#[export] Instance WirePriority_from_inj : Inj (=) (=) WirePriority_from.
Proof. wire_inj WirePriority_from. Qed.
#[export] Instance WireProfile_from_inj : Inj (=) (=) WireProfile_from.
Proof. wire_inj WireProfile_from. Qed.
#[export] Instance WireProfileObservation_from_inj : Inj (=) (=) WireProfileObservation_from.
Proof. wire_inj WireProfileObservation_from. Qed.
#[export] Instance WireCacheAccess_from_inj : Inj (=) (=) WireCacheAccess_from.
Proof. wire_inj WireCacheAccess_from. Qed.
#[export] Instance WireAdmissionState_from_inj : Inj (=) (=) WireAdmissionState_from.
Proof. wire_inj WireAdmissionState_from. Qed.
#[export] Instance WireAcknowledgement_from_inj : Inj (=) (=) WireAcknowledgement_from.
Proof. wire_inj WireAcknowledgement_from. Qed.
#[export] Instance WireUnavailableReason_from_inj : Inj (=) (=) WireUnavailableReason_from.
Proof. wire_inj WireUnavailableReason_from. Qed.
#[export] Instance WireTerminalMutationClass_from_inj : Inj (=) (=) WireTerminalMutationClass_from.
Proof. wire_inj WireTerminalMutationClass_from. Qed.
#[export] Instance WireActivityEvidence_from_inj : Inj (=) (=) WireActivityEvidence_from.
Proof. wire_inj WireActivityEvidence_from. Qed.
#[export] Instance WireIdentity_from_inj : Inj (=) (=) WireIdentity_from.
Proof. wire_inj WireIdentity_from. Qed.
#[export] Instance WireLimits_from_inj : Inj (=) (=) WireLimits_from.
Proof. wire_inj WireLimits_from. Qed.
#[export] Instance WireSource_from_inj : Inj (=) (=) WireSource_from.
Proof. wire_inj WireSource_from. Qed.
#[export] Instance WireCacheNamespace_from_inj : Inj (=) (=) WireCacheNamespace_from.
Proof. wire_inj WireCacheNamespace_from. Qed.
#[export] Instance WireCancellation_from_inj : Inj (=) (=) WireCancellation_from.
Proof. wire_inj WireCancellation_from. Qed.
#[export] Instance WireFallback_from_inj : Inj (=) (=) WireFallback_from.
Proof. wire_inj WireFallback_from. Qed.
#[export] Instance WireRequest_from_inj : Inj (=) (=) WireRequest_from.
Proof. wire_inj WireRequest_from. Qed.
#[export] Instance WireQueuePosition_from_inj : Inj (=) (=) WireQueuePosition_from.
Proof. wire_inj WireQueuePosition_from. Qed.
#[export] Instance WireReservation_from_inj : Inj (=) (=) WireReservation_from.
Proof. wire_inj WireReservation_from. Qed.
#[export] Instance WireHostCapacity_from_inj : Inj (=) (=) WireHostCapacity_from.
Proof. wire_inj WireHostCapacity_from. Qed.
#[export] Instance WireAdmission_from_inj : Inj (=) (=) WireAdmission_from.
Proof. wire_inj WireAdmission_from. Qed.
#[export] Instance WireActive_from_inj : Inj (=) (=) WireActive_from.
Proof. wire_inj WireActive_from. Qed.
#[export] Instance WirePendingProfileChange_from_inj : Inj (=) (=) WirePendingProfileChange_from.
Proof. wire_inj WirePendingProfileChange_from. Qed.
#[export] Instance WireQueue_from_inj : Inj (=) (=) WireQueue_from.
Proof. wire_inj WireQueue_from. Qed.
#[export] Instance WireCacheLease_from_inj : Inj (=) (=) WireCacheLease_from.
Proof. wire_inj WireCacheLease_from. Qed.
#[export] Instance WireTerminalTombstone_from_inj : Inj (=) (=) WireTerminalTombstone_from.
Proof. wire_inj WireTerminalTombstone_from. Qed.
#[export] Instance WireHistoryEntry_from_inj : Inj (=) (=) WireHistoryEntry_from.
Proof. wire_inj WireHistoryEntry_from. Qed.

Section codec.
Context `{SER : !StoreSerde, DS : !DocumentSerde}.

(** ** Tombstones *)

Definition WireTerminalTombstone_try_into (value : WireTerminalTombstone)
    : result PersonalWorkerStoreError PersonalWorkerTerminalTombstone :=
  let mutation_class := WireTerminalMutationClass_into (wtt_mutation_class value) in
  if bool_decide (mutation_class ≠ ReleaseCompletionAndCacheLease)
  then Err corrupt_state
  else
    expected_digest ← newtype Sha256Digest_parse (wtt_evidence_digest value);
    request ← WireRequest_try_into (wtt_request value);
    terminal_admission ← WireAdmission_try_into (wtt_terminal_admission value);
    started_at ← traverse_option epoch (wtt_started_at value);
    cache_lease ← WireCacheLease_try_into (wtt_cache_lease value);
    tombstone ← map_err (λ _, corrupt_state)
      (Tombstone_new request terminal_admission started_at cache_lease);
    if bool_decide (tt_evidence_digest tombstone ≠ expected_digest)
    then Err corrupt_state
    else Ok tombstone.

Definition tombstone_wf (t : PersonalWorkerTerminalTombstone) : Prop :=
  accepted Sha256Digest_parse (tt_evidence_digest t) ∧ request_wf (tt_request t) ∧
  record_wf (tt_terminal_admission t) ∧
  (∀ s, tt_started_at t = Some s → accepted EpochMillis_new s) ∧
  lease_wf (tt_cache_lease t) ∧ validate_tombstone t = Ok ().

Lemma validate_tombstone_digest t u : validate_tombstone t = Ok u →
  terminal_evidence_digest (tt_mutation_class t) (tt_request t) (tt_terminal_admission t)
    (tt_started_at t) (tt_cache_lease t) = Ok (tt_evidence_digest t).
Proof. unfold validate_tombstone. intros H. inv_ok H. bprop. congruence. Qed.

Lemma Tombstone_new_iff t :
  Tombstone_new (tt_request t) (tt_terminal_admission t) (tt_started_at t) (tt_cache_lease t) = Ok t
  ↔ validate_tombstone t = Ok ().
Proof.
  unfold Tombstone_new. split.
  - intros H. inv_ok H. injection H as H. rewrite H in Hy0. by destruct y0.
  - intros H. pose proof (validate_tombstone_digest t _ H) as Hd.
    destruct t as [[] r a s l dg]. simpl in *. rewrite Hd. rsimpl. by rewrite H.
Qed.

#[export] Instance WireTerminalTombstone_iso :
  WireIso tombstone_wf WireTerminalTombstone_from WireTerminalTombstone_try_into.
Proof.
  intros w t. unfold WireTerminalTombstone_try_into, tombstone_wf. split.
  - intros H. apply ok_guard in H as [_ H].
    do 5 (apply bind_Ok in H as (? & ?%wire_iso & H)). destruct_and!.
    apply bind_Ok in H as (t' & Ht & H). apply ok_guard in H as [Hd H]. injection H as <-.
    bprop. apply map_err_Ok in Ht. unfold Tombstone_new in Ht. inv_ok Ht. injection Ht as <-.
    destruct w as [[] ? ? ? ? ?]. simpl in *. subst. destruct y0. by split_and!.
  - intros [(Hd & Hr & Ha & Hs & Hl & Hval) <-]. simpl.
    rewrite bool_decide_eq_false_2 by (destruct (tt_mutation_class t); auto). simpl.
    do 5 (apply bind_Ok; eexists; split; [apply wire_iso; split; [|reflexivity]; assumption|]).
    apply Tombstone_new_iff in Hval. simpl. rewrite Hval. rsimpl.
    by rewrite bool_decide_eq_false_2 by auto.
Qed.

(** ** Documents *)

Definition WireDocument_from (value : PersonalWorkerStoreDocument) : WireDocument :=
  mkWireDocument (sd_schema_version value) (sd_revision value) (WireQueue_from (sd_queue value))
    (WireCacheLease_from <$> sd_cache_leases value)
    (WireTerminalTombstone_from <$> sd_terminal_tombstones value)
    (WireHistoryEntry_from <$> sd_history value).

#[export] Instance WireDocument_from_inj : Inj (=) (=) WireDocument_from.
Proof. wire_inj WireDocument_from. Qed.

Definition WireDocument_try_into (value : WireDocument)
    : result PersonalWorkerStoreError PersonalWorkerStoreDocument :=
  if negb (wd_schema_version value =? PERSONAL_WORKER_STORE_SCHEMA_VERSION)
  then Err version_incompatible
  else
    revision ← newtype StoreRevision_new (wd_revision value);
    queue ← WireQueue_try_into (wd_queue value);
    cache_leases ← traverse WireCacheLease_try_into (wd_cache_leases value);
    terminal_tombstones ← traverse WireTerminalTombstone_try_into (wd_terminal_tombstones value);
    history ← traverse WireHistoryEntry_try_into (wd_history value);
    map_err (λ _, corrupt_state)
      (from_parts revision queue cache_leases terminal_tombstones history).

Definition WireDocumentV1_try_into (value : WireDocumentV1)
    : result PersonalWorkerStoreError PersonalWorkerStoreDocument :=
  if negb (wd1_schema_version value =? 1)
  then Err version_incompatible
  else
    revision ← newtype StoreRevision_new (wd1_revision value);
    queue ← WireQueueV1_try_into (wd1_queue value);
    cache_leases ← traverse WireCacheLease_try_into (wd1_cache_leases value);
    terminal_tombstones ← traverse WireTerminalTombstone_try_into (wd1_terminal_tombstones value);
    history ← traverse WireHistoryEntry_try_into (wd1_history value);
    map_err (λ _, corrupt_state)
      (from_parts revision queue cache_leases terminal_tombstones history).

(** Every typed field of the document holds what its constructor accepts, and
    the document is valid: what the Rust types and constructors guarantee of a
    [PersonalWorkerStoreDocument]. *)
Definition document_wf (d : PersonalWorkerStoreDocument) : Prop :=
  accepted StoreRevision_new (sd_revision d) ∧ queue_wf (sd_queue d) ∧
  Forall lease_wf (sd_cache_leases d) ∧ Forall tombstone_wf (sd_terminal_tombstones d) ∧
  Forall history_entry_wf (sd_history d) ∧ validate_document d = Ok ().

#[export] Instance WireDocument_iso : WireIso document_wf WireDocument_from WireDocument_try_into.
Proof.
  intros w d. unfold WireDocument_try_into, document_wf. split.
  - intros H. apply ok_guard in H as [Hv H]. bprop.
    do 5 (apply bind_Ok in H as (? & ?%wire_iso & H)). destruct_and!.
    apply map_err_Ok, from_parts_Ok in H as [-> Hval]. simpl in *. split; [by split_and!|].
    destruct w. unfold WireDocument_from. simpl in *. congruence.
  - intros [(Hr & Hq & Hl & Ht & Hh & Hval) <-].
    pose proof (do_schema d (validate_document_Ok d () Hval)) as Hs. simpl. rewrite Hs. simpl.
    do 5 (apply bind_Ok; eexists; split; [apply wire_iso; split; [|reflexivity]; assumption|]).
    apply map_err_Ok. unfold from_parts. destruct d as [v r q l t h]. simpl in *. subst v.
    by rewrite Hval.
Qed.

(** ** The codec *)

Definition encode_personal_worker_store_document (document : PersonalWorkerStoreDocument)
    : result PersonalWorkerStoreError bytes :=
  _ ← validate_document document;
  let wire := WireDocument_from document in
  encoded ← ok_or (to_vec_pretty wire)
    (invalid_document "personal worker store document could not be encoded");
  let encoded := encoded ++ [newline] in
  if MAX_PERSONAL_WORKER_STORE_BYTES <? N.of_nat (length encoded)
  then Err (invalid_document "personal worker store document exceeds the bounded byte limit")
  else Ok encoded.

Definition decode_personal_worker_store_document (input : bytes)
    : result PersonalWorkerStoreError PersonalWorkerStoreDocument :=
  if MAX_PERSONAL_WORKER_STORE_BYTES <? N.of_nat (length input)
  then Err corrupt_state
  else
    version ← ok_or (from_slice_version input) corrupt_state;
    if negb (wv_schema_version version =? PERSONAL_WORKER_STORE_SCHEMA_VERSION)
    then Err version_incompatible
    else
      wire ← ok_or (from_slice input) corrupt_state;
      document ← WireDocument_try_into wire;
      canonical ← map_err (λ _, corrupt_state) (encode_personal_worker_store_document document);
      if bool_decide (canonical ≠ input)
      then Err corrupt_state
      else Ok document.

Definition migrate_personal_worker_store_v1_document (input : bytes)
    : result PersonalWorkerStoreError PersonalWorkerStoreDocument :=
  if MAX_PERSONAL_WORKER_STORE_BYTES <? N.of_nat (length input)
  then Err corrupt_state
  else
    version ← ok_or (from_slice_version input) corrupt_state;
    if negb (wv_schema_version version =? 1)
    then Err version_incompatible
    else
      wire ← ok_or (from_slice_v1 input) corrupt_state;
      canonical ← ok_or (to_vec_pretty_v1 wire) corrupt_state;
      if bool_decide (canonical ++ [newline] ≠ input)
      then Err corrupt_state
      else WireDocumentV1_try_into wire.

(** What a decoded document satisfies; no law of the serializer is needed. *)
Lemma decode_Ok b d : decode_personal_worker_store_document b = Ok d →
  encode_personal_worker_store_document d = Ok b ∧ document_wf d.
Proof.
  unfold decode_personal_worker_store_document. intros H. inv_ok H. inv_opts. bprop. subst.
  apply wire_iso in Hy1 as [Hwf _]. injection H as <-. done.
Qed.

Lemma decode_encode `{LAWS : !DocumentSerdeLaws} d b :
  document_wf d → encode_personal_worker_store_document d = Ok b →
  decode_personal_worker_store_document b = Ok d.
Proof.
  intros Hwf Henc. pose proof Henc as Henc'. unfold encode_personal_worker_store_document in Henc.
  apply bind_Ok in Henc as (u & Hval & Henc). apply bind_Ok in Henc as (text & Htext & Henc).
  inv_opts. apply ok_guard in Henc as [Hlen Henc]. injection Henc as <-.
  unfold decode_personal_worker_store_document. rewrite Hlen.
  rewrite (pretty_version _ _ Htext), (pretty_read_back _ _ Htext). rsimpl. simpl.
  destruct u. rewrite (do_schema d (validate_document_Ok d () Hval)). simpl.
  rewrite (proj2 (WireDocument_iso (WireDocument_from d) d) (conj Hwf eq_refl)). rsimpl.
  rewrite Henc'. rsimpl.
  by rewrite bool_decide_eq_false_2 by auto.
Qed.

(** The encoding determines the document, valid or not. *)
Lemma encode_inj `{LAWS : !DocumentSerdeLaws} d d' b :
  encode_personal_worker_store_document d = Ok b →
  encode_personal_worker_store_document d' = Ok b → d = d'.
Proof.
  unfold encode_personal_worker_store_document. intros H H'. inv_ok H. inv_ok H'. inv_opts.
  injection H as <-. injection H' as H'.
  match goal with
  | Hw : to_vec_pretty _ = Some _, Hw' : to_vec_pretty _ = Some _ |- _ =>
      apply pretty_read_back in Hw; apply pretty_read_back in Hw'
  end.
  apply (inj WireDocument_from). congruence.
Qed.

Lemma prefix_snoc (l k : bytes) c : l `prefix_of` k ++ [c] → l `prefix_of` k ∨ l = k ++ [c].
Proof.
  intros [m Hm]. destruct m as [|x m _] using rev_ind; [right; by rewrite Hm, app_nil_r|left].
  rewrite app_assoc in Hm. apply app_inj_2 in Hm as [-> _]; [|done]. by exists m.
Qed.

(** What is left of a document cut short does not decode. *)
Lemma decode_prefix `{LAWS : !DocumentSerdeLaws} d b b' d' :
  encode_personal_worker_store_document d = Ok b → b' `prefix_of` b →
  decode_personal_worker_store_document b' = Ok d' → b' = b ∧ d' = d.
Proof.
  intros Henc Hpre Hdec. destruct (decode_Ok _ _ Hdec) as [Henc' _].
  destruct (decide (b' = b)) as [->|Hne]; [by eauto using encode_inj|exfalso].
  unfold encode_personal_worker_store_document in Henc, Henc'. inv_ok Henc. inv_ok Henc'. inv_opts.
  injection Henc as <-. injection Henc' as <-.
  match goal with
  | Hw : to_vec_pretty (WireDocument_from d) = Some ?t,
    Hw' : to_vec_pretty (WireDocument_from d') = Some ?t' |- _ =>
      apply prefix_snoc in Hpre as [Hpre|Hpre]; [|done];
      assert (t' ++ [newline] ≠ t) by (intros <-; exact (pretty_last _ _ Hw (last_snoc _ _)));
      pose proof (pretty_cut_short _ _ _ Hw Hpre);
      pose proof (pretty_read_back _ _ Hw')
  end. naive_solver.
Qed.

(** ** Schema 1 read as schema 2

    The schema-2 text a schema-1 document stands for: the same fields, the
    profile and the last activity read as observations. *)

Definition upgrade_queue (q : WireQueueV1) : WireQueue :=
  mkWireQueue (wq1_generation q) (wq1_observed_at q)
    (WireObserved (wq1_current_profile q))
    (WireActivityObserved (wq1_last_activity_at q)) (wq1_queued q) (wq1_active q)
    (wq1_pending_profile_change q).

Definition upgrade_document (w : WireDocumentV1) : WireDocument :=
  mkWireDocument PERSONAL_WORKER_STORE_SCHEMA_VERSION (wd1_revision w)
    (upgrade_queue (wd1_queue w)) (wd1_cache_leases w) (wd1_terminal_tombstones w) (wd1_history w).

Lemma upgrade_queue_try_into q : WireQueue_try_into (upgrade_queue q) = WireQueueV1_try_into q.
Proof.
  unfold WireQueue_try_into, WireQueueV1_try_into. simpl.
  destruct (newtype QueueGeneration_new (wq1_generation q)); rsimpl; [|done..].
  destruct (epoch (wq1_observed_at q)); rsimpl; [|done..].
  by destruct (epoch (wq1_last_activity_at q)).
Qed.

Lemma upgrade_document_try_into w : wd1_schema_version w = 1 →
  WireDocumentV1_try_into w = WireDocument_try_into (upgrade_document w).
Proof.
  intros Hv. unfold WireDocumentV1_try_into, WireDocument_try_into. rewrite Hv. simpl.
  by rewrite upgrade_queue_try_into.
Qed.

Lemma migrate_Ok b d : migrate_personal_worker_store_v1_document b = Ok d →
  decode_personal_worker_store_document b = Err version_incompatible ∧
  (∃ w text, from_slice_v1 b = Some w ∧ to_vec_pretty_v1 w = Some text ∧ b = text ++ [newline] ∧
     WireDocument_from d = upgrade_document w) ∧
  document_wf d.
Proof.
  unfold migrate_personal_worker_store_v1_document, decode_personal_worker_store_document.
  intros H. inv_ok H. inv_opts. bprop.
  assert (wd1_schema_version y0 = 1) as Hv by
    (unfold WireDocumentV1_try_into in H; apply ok_guard in H as [? _]; by bprop).
  rewrite upgrade_document_try_into in H by done. apply wire_iso in H as [Hwf Hfrom].
  split_and!; [|by eauto 10|done]. rewrite Hy. rsimpl. by rewrite Heqb1.
Qed.

(** ** The properties *)

(** (C18) Reading a document file is exactly inverse to writing one: given that
    the JSON library reads back what it wrote, a byte string decodes to a
    document precisely when the document holds only values its constructors
    accept and the byte string is its encoding, so no two files stand for the
    same document and a written document is read back unchanged. *)
Theorem document_round_trip `{LAWS : !DocumentSerdeLaws} b d :
  decode_personal_worker_store_document b = Ok d ↔
  document_wf d ∧ encode_personal_worker_store_document d = Ok b.
Proof. split; [intros H%decode_Ok; naive_solver|]. intros [??]. by apply decode_encode. Qed.

(** Migrating a schema-1 file accepts only a canonical schema-1 text, one
    that ordinary reads report as version-incompatible; what it returns is a
    well-formed document with every field of the old text (revision, queue,
    leases, tombstones and history), and once written under schema 2 it is read
    back as that same document. *)
Theorem migration_preserves_state `{LAWS : !DocumentSerdeLaws} b d :
  migrate_personal_worker_store_v1_document b = Ok d →
  decode_personal_worker_store_document b = Err version_incompatible ∧
  (∃ w text, from_slice_v1 b = Some w ∧ to_vec_pretty_v1 w = Some text ∧ b = text ++ [newline] ∧
     WireDocument_from d = upgrade_document w) ∧
  document_wf d ∧
  ∀ b', encode_personal_worker_store_document d = Ok b' →
        decode_personal_worker_store_document b' = Ok d.
Proof.
  intros H. destruct (migrate_Ok _ _ H) as (Hdec & Hw & Hwf).
  split_and!; [done..|]. intros b' Hb'. by apply decode_encode.
Qed.
End codec.

(** ** A sample codec, and the theorems at it *)

(** Decidable equality of the serialized structs. *)
#[export] Instance WirePriority_eq_dec : EqDecision WirePriority.
Proof. solve_decision. Defined.
#[export] Instance WireProfile_eq_dec : EqDecision WireProfile.
Proof. solve_decision. Defined.
#[export] Instance WireProfileObservation_eq_dec : EqDecision WireProfileObservation.
Proof. solve_decision. Defined.
#[export] Instance WireCacheAccess_eq_dec : EqDecision WireCacheAccess.
Proof. solve_decision. Defined.
#[export] Instance WireAdmissionState_eq_dec : EqDecision WireAdmissionState.
Proof. solve_decision. Defined.
#[export] Instance WireAcknowledgement_eq_dec : EqDecision WireAcknowledgement.
Proof. solve_decision. Defined.
#[export] Instance WireUnavailableReason_eq_dec : EqDecision WireUnavailableReason.
Proof. solve_decision. Defined.
#[export] Instance WireTerminalMutationClass_eq_dec : EqDecision WireTerminalMutationClass.
Proof. solve_decision. Defined.
#[export] Instance WireActivityEvidence_eq_dec : EqDecision WireActivityEvidence.
Proof. solve_decision. Defined.
#[export] Instance WireIdentity_eq_dec : EqDecision WireIdentity.
Proof. solve_decision. Defined.
#[export] Instance WireLimits_eq_dec : EqDecision WireLimits.
Proof. solve_decision. Defined.
#[export] Instance WireSource_eq_dec : EqDecision WireSource.
Proof. solve_decision. Defined.
#[export] Instance WireCacheNamespace_eq_dec : EqDecision WireCacheNamespace.
Proof. solve_decision. Defined.
#[export] Instance WireCancellation_eq_dec : EqDecision WireCancellation.
Proof. solve_decision. Defined.
#[export] Instance WireFallback_eq_dec : EqDecision WireFallback.
Proof. solve_decision. Defined.
#[export] Instance WireRequest_eq_dec : EqDecision WireRequest.
Proof. solve_decision. Defined.
#[export] Instance WireQueuePosition_eq_dec : EqDecision WireQueuePosition.
Proof. solve_decision. Defined.
#[export] Instance WireReservation_eq_dec : EqDecision WireReservation.
Proof. solve_decision. Defined.
#[export] Instance WireHostCapacity_eq_dec : EqDecision WireHostCapacity.
Proof. solve_decision. Defined.
#[export] Instance WireAdmission_eq_dec : EqDecision WireAdmission.
Proof. solve_decision. Defined.
#[export] Instance WireActive_eq_dec : EqDecision WireActive.
Proof. solve_decision. Defined.
#[export] Instance WirePendingProfileChange_eq_dec : EqDecision WirePendingProfileChange.
Proof. solve_decision. Defined.
#[export] Instance WireQueue_eq_dec : EqDecision WireQueue.
Proof. solve_decision. Defined.
#[export] Instance WireCacheLease_eq_dec : EqDecision WireCacheLease.
Proof. solve_decision. Defined.
#[export] Instance WireTerminalTombstone_eq_dec : EqDecision WireTerminalTombstone.
Proof. solve_decision. Defined.
#[export] Instance WireHistoryEntry_eq_dec : EqDecision WireHistoryEntry.
Proof. solve_decision. Defined.
#[export] Instance WireDocument_eq_dec : EqDecision WireDocument.
Proof. solve_decision. Defined.

(** A codec that knows finitely many texts: enough to read and write them. *)
Definition table_serde (docs : list (bytes * WireDocument)) (old : list (bytes * WireDocumentV1))
    : DocumentSerde :=
  let text_of {A} (p : bytes * A) := p.1 ++ [newline] in
  {| to_vec_pretty w := fst <$> find (λ p, bool_decide (p.2 = w)) docs;
     from_slice b := snd <$> find (λ p, bool_decide (text_of p = b)) docs;
     from_slice_version b :=
       match find (λ p, bool_decide (text_of p = b)) docs with
       | Some (_, w) => Some (mkWireVersion (wd_schema_version w))
       | None => mkWireVersion ∘ wd1_schema_version ∘ snd <$>
                   find (λ p, bool_decide (text_of p = b)) old
       end;
     to_vec_pretty_v1 w := fst <$> head old;
     from_slice_v1 b := snd <$> find (λ p, bool_decide (text_of p = b)) old |}.

Lemma find_Some_in {A} (f : A → bool) l x : find f l = Some x → x ∈ l ∧ f x = true.
Proof. intros [Hin Hf]%find_some. by rewrite list_elem_of_In. Qed.

Lemma find_text {A} (docs : list (bytes * A)) p :
  NoDup docs.*1 → p ∈ docs →
  find (λ q, bool_decide (q.1 ++ [newline] = p.1 ++ [newline])) docs = Some p.
Proof.
  induction docs as [|q docs IH]; csimpl; [by rewrite elem_of_nil|].
  intros [Hq Hnd]%NoDup_cons [->|Hin]%elem_of_cons.
  - by rewrite bool_decide_eq_true_2.
  - rewrite bool_decide_eq_false_2; [by apply IH|].
    intros [Heq _]%app_inj_2; [|done]. apply Hq. rewrite Heq. by apply list_elem_of_fmap_2.
Qed.

(** No text of the table is part of another, or ends in a newline. *)
Definition table_ok (docs : list (bytes * WireDocument)) : bool :=
  bool_decide (NoDup docs.*1) &&
  forallb (λ p, bool_decide (last p.1 ≠ Some newline) &&
                forallb (λ q, negb (bool_decide (q.1 ++ [newline] `prefix_of` p.1))) docs) docs.

Lemma table_serde_laws docs old :
  table_ok docs = true → @DocumentSerdeLaws (table_serde docs old).
Proof.
  intros [Hnd Hall]%andb_prop. bprop.
  assert (∀ w b, @to_vec_pretty (table_serde docs old) w = Some b → (b, w) ∈ docs) as Hin.
  { intros w b ([b' w'] & [Hin Heq]%find_Some_in & ->)%fmap_Some. bprop. simpl in *. by subst w'. }
  rewrite forallb_forall in Hall.
  constructor; intros w b.
  1, 2: intros Hw%Hin; simpl; pose proof (find_text docs (b, w) Hnd Hw) as Hfind;
    simpl in Hfind; by rewrite Hfind.
  - intros b' Hw%Hin Hpre _. apply list_elem_of_In in Hw. apply Hall in Hw as [_ Hw]%andb_prop.
    simpl. apply fmap_None. destruct (find _ docs) as [p|] eqn:Hp; [|done].
    apply find_some in Hp as [Hp Heq]. bprop. rewrite forallb_forall in Hw. apply Hw in Hp.
    bprop. by rewrite Heq in Hp.
  - intros Hw%Hin. apply list_elem_of_In in Hw. apply Hall in Hw as [Hw _]%andb_prop. by bprop.
Qed.

#[local] Existing Instance sample_serde.

Definition sample_text (c : ascii) : bytes := [c].

(** The same queue as [sample_queue], in the words of schema 1. *)
Definition sample_wire_v1 : WireDocumentV1 :=
  mkWireDocumentV1 1 1
    (mkWireQueueV1 (qi_generation sample_queue) (qi_observed_at sample_queue) WireProfileWork 1200
       (WireRequest_from <$> qi_queued sample_queue) (WireActive_from <$> qi_active sample_queue)
       None)
    [WireCacheLease_from sample_lease] [] [].

Definition sample_table : list (bytes * WireDocument) :=
  [(sample_text "1"%char, WireDocument_from sample_document);
   (sample_text "2"%char, WireDocument_from sample_document_later)].

Definition sample_document_serde : DocumentSerde :=
  table_serde sample_table [(sample_text "v"%char, sample_wire_v1)].

#[local] Existing Instance sample_document_serde.

Lemma sample_document_serde_laws : DocumentSerdeLaws.
Proof. apply table_serde_laws. vm_compute. reflexivity. Qed.
#[local] Existing Instance sample_document_serde_laws.

Definition sample_bytes (c : ascii) : bytes := sample_text c ++ [newline].

Lemma sample_decodes : decode_personal_worker_store_document (sample_bytes "1") = Ok sample_document.
Proof. vm_compute. reflexivity. Qed.

Lemma sample_migrates : migrate_personal_worker_store_v1_document (sample_bytes "v") = Ok sample_document.
Proof. vm_compute. reflexivity. Qed.

Lemma document_round_trip_witness :
  encode_personal_worker_store_document sample_document = Ok (sample_bytes "1").
Proof. exact (proj2 (proj1 (document_round_trip (sample_bytes "1") sample_document) sample_decodes)). Defined.

Lemma migration_preserves_state_witness :
  decode_personal_worker_store_document (sample_bytes "v") = Err version_incompatible.
Proof. exact (proj1 (migration_preserves_state (sample_bytes "v") sample_document sample_migrates)). Defined.
