(* ===== verification/FileSystem.v ===== *)
(** * The directory a store lives in

    A model of the part of a Unix file system that
    [src/src/unix_personal_worker_store.rs] uses through [rustix::fs] and
    [std::fs::File], and [src/src/linux_lease_store.rs] after it: one managed
    directory below a state root, its entries,
    an advisory lock, and what the operating system may do to the caller: fail
    any call, write part of a buffer, or stop the process at any call.

    Durability.  A file written since its last successful [fsync] may be found
    truncated to any length after the machine stops.  Directory entries change
    atomically and reach the disk in order: after a stop the directory is as it
    was at some moment since its last successful [fsync].  An open file is
    named by its directory entry: the store closes each file before the entry is
    renamed, and the supported writers all hold the lock. *)

From S2P Require Import Prelude StoreWire WorkerStore.

Local Open Scope N_scope.

Inductive Errno :=
| NOENT
| EXIST
| LOOP
| NOTDIR
| ISDIR
| AGAIN
| OtherErrno (raw : N).

#[export] Instance errno_eq_dec : EqDecision Errno.
Proof. solve_decision. Defined.

Inductive FileType :=
| RegularFile
| DirectoryFile
| SymlinkFile
| OtherFile.

#[export] Instance file_type_eq_dec : EqDecision FileType.
Proof. solve_decision. Defined.

Record File := mkFile {
  f_type : FileType;
  f_nlink : N;
  f_mode : N;
  f_owner : N * N;
  f_bytes : bytes;
  f_stable : bool;
}.

#[export] Instance file_eq_dec : EqDecision File.
Proof. solve_decision. Defined.

(** What [fstat] reports, the mode without its type bits. *)
Record Stat := mkStat {
  st_type : FileType;
  st_nlink : N;
  st_mode : N;
  st_owner : N * N;
  st_size : N;
}.

Abbreviation entries := (gmap string File).

(** The errors a call may meet whatever the directory holds: contention, or any
    of the system's own failures.  The other error numbers above are answers
    about the directory, and only a served call gives them. *)
Inductive Fault :=
| FaultAgain
| FaultOther (raw : N).

Definition fault_errno (fault : Fault) : Errno :=
  match fault with
  | FaultAgain => AGAIN
  | FaultOther raw => OtherErrno raw
  end.

(** What the operating system does at one call: serve it, refuse it, or stop
    the process in it; a refused or stopped write may have written the first
    [written] bytes. *)
Inductive Event :=
| EvServe
| EvRefuse (fault : Fault) (written : nat)
| EvStop (written : nat).

Record World := mkWorld {
  w_now : entries;
  w_past : list entries;
  w_dir : option Stat;
  w_root : option Stat;
  w_creator : N * N;
  w_umask : N;
  w_locked : bool;
  w_script : list Event;
}.

Definition with_files (now : entries) (past : list entries) (w : World) : World :=
  mkWorld now past (w_dir w) (w_root w) (w_creator w) (w_umask w) (w_locked w) (w_script w).

Definition with_locked (locked : bool) (w : World) : World :=
  mkWorld (w_now w) (w_past w) (w_dir w) (w_root w) (w_creator w) (w_umask w) locked (w_script w).

Definition with_script (script : list Event) (w : World) : World :=
  mkWorld (w_now w) (w_past w) (w_dir w) (w_root w) (w_creator w) (w_umask w) (w_locked w) script.

(** A change of the directory: what it was may still be what the disk holds. *)
Definition change_entries (now : entries) (w : World) : World :=
  with_files now (w_now w :: w_past w) w.

(** A change inside a file leaves the directory as it is. *)
Definition change_file (name : string) (f : File) (w : World) : World :=
  with_files (<[name := f]> (w_now w)) (w_past w) w.

(** ** Programs that call the operating system *)

(** A call returns, or the process stops in it. *)
Inductive outcome (E A : Type) : Type :=
| Done (r : result E A)
| Stopped.

Arguments Done {E A} r.
Arguments Stopped {E A}.

(** Programs over a state [S]; those of the store run over the world. *)
Definition prog (S E A : Type) : Type := S → S * outcome E A.

Abbreviation io := (prog World).

(** [match call { Ok(a) => .., Err(e) => .. }]. *)
Definition catch {S E A E' B} (m : prog S E A) (k : result E A → prog S E' B) : prog S E' B := λ s,
  match m s with
  | (s', Done r) => k r s'
  | (s', Stopped) => (s', Stopped)
  end.

Definition lift {S E A} (r : result E A) : prog S E A := λ s, (s, Done r).

#[export] Instance io_ret {S E} : MRet (prog S E) := λ A a, lift (Ok a).

(** The [?] operator. *)
#[export] Instance io_bind {S E} : MBind (prog S E) := λ A B f m,
  catch m (λ r, match r with
                | Ok a => f a
                | Err e => lift (Err e)
                | Panic => lift Panic
                end).

(** [Result::map_err] on a call. *)
Definition failing {S E E' A} (f : E → E') (m : prog S E A) : prog S E' A :=
  catch m (λ r, lift (map_err f r)).

(** [let _ = call;]. *)
Definition ignoring {S E E' A} (m : prog S E A) : prog S E' unit := catch m (λ _, lift (Ok ())).

(** One call: [serve] is what it does, [write n] what it leaves behind when it
    does not complete. *)
Definition syscall {A} (serve : World → World * result Errno A) (write : nat → World → World)
    : io Errno A := λ w,
  match w_script w with
  | [] => let '(w', r) := serve w in (w', Done r)
  | EvServe :: script => let '(w', r) := serve (with_script script w) in (w', Done r)
  | EvRefuse fault n :: script =>
      (write n (with_script script w), Done (Err (fault_errno fault)))
  | EvStop n :: script => (write n (with_script script w), Stopped)
  end.

Definition atomic {A} (serve : World → World * result Errno A) : io Errno A :=
  syscall serve (λ _ w, w).

(** A call on the file an open descriptor names. *)
Definition on_file {A} (fd : string) (serve : File → World → World * result Errno A)
    (w : World) : World * result Errno A :=
  match w_now w !! fd with
  | Some f => serve f w
  | None => (w, Err (OtherErrno 9))
  end.

Inductive OpenMode :=
| OpenReadOnly
| OpenReadWrite
| OpenNew (mode : N).

(** [openat] below the managed directory with [O_NOFOLLOW]; [OpenNew] adds
    [O_CREAT | O_EXCL]. *)
Definition openat (mode : OpenMode) (name : string) : io Errno string :=
  atomic (λ w,
    match mode, w_now w !! name with
    | OpenNew _, Some _ => (w, Err EXIST)
    | OpenNew bits, None =>
        (change_entries (<[name := mkFile RegularFile 1 (N.ldiff bits (w_umask w)) (w_creator w)
                                     [] false]> (w_now w)) w, Ok name)
    | _, None => (w, Err NOENT)
    | _, Some f =>
        match f_type f, mode with
        | SymlinkFile, _ => (w, Err LOOP)
        | DirectoryFile, OpenReadWrite => (w, Err ISDIR)
        | _, _ => (w, Ok name)
        end
    end).

Definition fchmod (fd : string) (mode : N) : io Errno unit :=
  atomic (on_file fd (λ f w,
    (change_file fd (mkFile (f_type f) (f_nlink f) mode (f_owner f) (f_bytes f) (f_stable f)) w,
     Ok ()))).

Definition fstat (fd : string) : io Errno Stat :=
  atomic (on_file fd (λ f w,
    (w, Ok (mkStat (f_type f) (f_nlink f) (f_mode f) (f_owner f) (N.of_nat (length (f_bytes f))))))).

(** [fstat] on an open directory. *)
Definition fstat_dir (dir : World → option Stat) : io Errno Stat :=
  atomic (λ w, (w, ok_or (dir w) (OtherErrno 9))).

(** [open] with [O_DIRECTORY | O_NOFOLLOW] on the root or the managed directory. *)
Definition open_dir (dir : World → option Stat) : io Errno unit :=
  atomic (λ w,
    match dir w with
    | None => (w, Err NOENT)
    | Some st =>
        match st_type st with
        | DirectoryFile => (w, Ok ())
        | SymlinkFile => (w, Err LOOP)
        | _ => (w, Err NOTDIR)
        end
    end).

Fixpoint take_upto (limit : N) (l : bytes) : bytes :=
  match l with
  | [] => []
  | x :: l => if limit =? 0 then [] else x :: take_upto (limit - 1) l
  end.

(** [Read::take(limit).read_to_end]. *)
Definition read_to_end (fd : string) (limit : N) : io Errno bytes :=
  atomic (on_file fd (λ f w, (w, Ok (take_upto limit (f_bytes f))))).

Definition append (fd : string) (written : bytes) (w : World) : World :=
  match w_now w !! fd with
  | Some f =>
      change_file fd (mkFile (f_type f) (f_nlink f) (f_mode f) (f_owner f)
                        (f_bytes f ++ written) false) w
  | None => w
  end.

Definition write_all (fd : string) (encoded : bytes) : io Errno unit :=
  syscall (on_file fd (λ _ w, (append fd encoded w, Ok ())))
    (λ n w, append fd (take n encoded) w).

(** [File::sync_all]. *)
Definition sync_all (fd : string) : io Errno unit :=
  atomic (on_file fd (λ f w,
    (change_file fd (mkFile (f_type f) (f_nlink f) (f_mode f) (f_owner f) (f_bytes f) true) w,
     Ok ()))).

(** [fsync] on the managed directory. *)
Definition fsync_dir : io Errno unit := atomic (λ w, (with_files (w_now w) [] w, Ok ())).

(** [fsync] on the state root, whose entries are not part of the model. *)
Definition fsync_root : io Errno unit := atomic (λ w, (w, Ok ())).

(** [renameat_with] below the managed directory. *)
Definition renameat (from to : string) (no_replace : bool) : io Errno unit :=
  atomic (λ w,
    match w_now w !! from, w_now w !! to with
    | None, _ => (w, Err NOENT)
    | Some f, Some old =>
        if no_replace then (w, Err EXIST)
        else if bool_decide (f_type old = DirectoryFile) then (w, Err ISDIR)
        else (change_entries (<[to := f]> (delete from (w_now w))) w, Ok ())
    | Some f, None => (change_entries (<[to := f]> (delete from (w_now w))) w, Ok ())
    end).

Definition unlinkat (name : string) : io Errno unit :=
  atomic (λ w,
    match w_now w !! name with
    | None => (w, Err NOENT)
    | Some f =>
        if bool_decide (f_type f = DirectoryFile) then (w, Err ISDIR)
        else (change_entries (delete name (w_now w)) w, Ok ())
    end).

(** [flock] without blocking, exclusive or shared. *)
Definition flock_exclusive : io Errno unit :=
  atomic (λ w, if w_locked w then (w, Err AGAIN) else (with_locked true w, Ok ())).

Definition flock_shared : io Errno unit :=
  atomic (λ w, if w_locked w then (w, Err AGAIN) else (w, Ok ())).

(** Unlocking an open lock file and closing it, which releases the lock even
    where the unlocking is refused. *)
Definition funlock : io Errno unit :=
  syscall (λ w, (with_locked false w, Ok ())) (λ _ w, with_locked false w).

(** ** Stopping and starting again *)

(** A file found after the machine stopped: what was not synchronized may be
    cut short. *)
Definition survives (kept : nat) (f : File) : File :=
  if f_stable f then f
  else mkFile (f_type f) (f_nlink f) (f_mode f) (f_owner f) (take kept (f_bytes f)) true.

(** [restarts w w']: the process stopped in [w], and a new one runs in [w']. *)
Inductive restarts (w : World) : World → Prop :=
| process_restarts script :
    restarts w (with_locked false (with_script script w))
| machine_restarts files (kept : string → nat) script :
    files ∈ w_now w :: w_past w →
    restarts w (mkWorld (map_imap (λ name f, Some (survives (kept name) f)) files) []
                  (w_dir w) (w_root w) (w_creator w) (w_umask w) false script).
