(* ===== verification/UnixStore.v ===== *)
(** * The store on disk

    [src/src/unix_personal_worker_store.rs]: the durable store of the personal
    worker, one canonical document [current.json] replaced by staging its
    successor in [.next.json], synchronizing it, renaming it into place and
    synchronizing the directory, under an exclusive lock; and the recovery that
    finishes or discards an interrupted replacement.  Opening the store and the
    guards of the sibling documents under
    [src/src/unix_personal_worker_store/] are included; creating the managed
    directory is not. *)

From S2P Require Import Prelude WorkerQueue StoreWire WorkerStore StoreCodec FileSystem.

Local Open Scope N_scope.

Definition MANAGED_DIRECTORY_MODE : N := 488. (* 0o750 *)
Definition PRIVATE_FILE_MODE : N := 384. (* 0o600 *)
Definition STORE_LOCK_FILE : string := "store.lock".
Definition CURRENT_DOCUMENT : string := "current.json".
Definition STAGED_DOCUMENT : string := ".next.json".
Definition STAGED_CATALOG_DOCUMENT : string := ".disposable-attempt-catalog.next.json".
Definition DELIVERY_RECOVERY_DOCUMENT : string := "scale-set-delivery-recovery.json".
Definition STAGED_DELIVERY_RECOVERY_DOCUMENT : string := ".scale-set-delivery-recovery.next.json".
Definition STAGED_GENERATION_DOCUMENT : string := ".disposable-template-generation.next.json".
Definition AUTHORITY_DOCUMENT : string := "lima-authority.json".
Definition STAGED_AUTHORITY_DOCUMENT : string := ".lima-authority.next.json".

Definition MAX_DISPOSABLE_ATTEMPT_CATALOG_DOCUMENT_BYTES : N := 1048576.
Definition MAX_SCALE_SET_DELIVERY_BYTES : N := 128 * 1024.
Definition MAX_SCALE_SET_DELIVERY_RECOVERY_BYTES : N :=
  MAX_SCALE_SET_DELIVERY_BYTES * 4 + MAX_DISPOSABLE_ATTEMPT_CATALOG_DOCUMENT_BYTES * 4 + 64 * 1024.
Definition MAX_DISPOSABLE_TEMPLATE_GENERATION_BYTES : N := 16384.
Definition MAX_PERSONAL_WORKER_LIMA_AUTHORITY_BYTES : N := 16384.

Definition store_error := mkStoreError.

(** ** Error numbers to errors *)

Definition map_root_open_error (error : Errno) : PersonalWorkerStoreError :=
  match error with
  | LOOP | NOTDIR =>
      store_error UnsafeFilesystem "personal worker state root is symlinked or is not a directory"
  | NOENT => store_error Missing "personal worker state root does not exist"
  | _ => store_error Io "could not open the personal worker state root"
  end.

Definition map_existing_store_directory_open_error (error : Errno) : PersonalWorkerStoreError :=
  match error with
  | NOENT => store_error Missing "personal worker store directory does not exist"
  | LOOP | NOTDIR =>
      store_error UnsafeFilesystem "personal worker store directory is symlinked or invalid"
  | _ => store_error Io "could not open the personal worker store directory"
  end.

Definition map_lock_open_error (error : Errno) : PersonalWorkerStoreError :=
  match error with
  | LOOP | NOTDIR | ISDIR =>
      store_error UnsafeFilesystem "personal worker store lock is symlinked or invalid"
  | _ => store_error Io "could not open the personal worker store lock"
  end.

Definition map_existing_initialization_lock_open_error (error : Errno) : PersonalWorkerStoreError :=
  match error with
  | NOENT | LOOP | NOTDIR | ISDIR => store_error UnsafeFilesystem
      "existing personal worker store synchronization metadata is missing or unsafe"
  | _ => store_error Io
      "could not open existing personal worker store synchronization metadata"
  end.

Definition map_document_open_error (error : Errno) : PersonalWorkerStoreError :=
  match error with
  | LOOP | NOTDIR | ISDIR =>
      store_error UnsafeFilesystem "personal worker state document is symlinked or invalid"
  | _ => store_error Io "could not open the personal worker state document"
  end.

Definition map_stage_create_error (error : Errno) : PersonalWorkerStoreError :=
  match error with
  | EXIST => store_error CorruptState "staged personal worker state already exists after recovery"
  | LOOP | NOTDIR | ISDIR =>
      store_error UnsafeFilesystem "staged personal worker state path is unsafe"
  | _ => store_error Io "could not create the staged personal worker state document"
  end.

Definition map_publish_error (error : Errno) (no_replace : bool) : PersonalWorkerStoreError :=
  match error, no_replace with
  | EXIST, true => store_error RevisionConflict "personal worker state already exists"
  | LOOP, _ | NOTDIR, _ | ISDIR, _ =>
      store_error UnsafeFilesystem "personal worker state publication path is unsafe"
  | _, _ => store_error Io "could not atomically publish the personal worker state document"
  end.

Definition io_error {E} (message : string) (_ : E) : PersonalWorkerStoreError :=
  store_error Io message.

(** ** Inspection *)

Definition inspect_directory (dir : World → option Stat) (expected_owner : option (N * N))
    : io PersonalWorkerStoreError Stat :=
  stat ← failing (io_error "could not inspect a personal worker state directory") (fstat_dir dir);
  if negb (bool_decide (st_type stat = DirectoryFile))
  then lift (Err (store_error UnsafeFilesystem "personal worker state path is not a directory"))
  else if negb (N.land (st_mode stat) 4095 =? MANAGED_DIRECTORY_MODE)
  then lift (Err (store_error UnsafeFilesystem
         "personal worker state directory does not have mode 0750"))
  else if match expected_owner with
          | Some owner => bool_decide (owner ≠ st_owner stat)
          | None => false
          end
  then lift (Err (store_error UnsafeFilesystem
         "personal worker state directory has an unexpected owner or group"))
  else mret stat.

Definition inspect_private_file (file : string) (owner : N * N) (expected_size : option N)
    : io PersonalWorkerStoreError unit :=
  stat ← failing (io_error "could not inspect a personal worker state file") (fstat file);
  if negb (bool_decide (st_type stat = RegularFile))
  then lift (Err (store_error UnsafeFilesystem
         "personal worker state object is not a regular file"))
  else if negb (st_nlink stat =? 1)
  then lift (Err (store_error UnsafeFilesystem
         "personal worker state file has multiple hard links"))
  else if negb (N.land (st_mode stat) 4095 =? PRIVATE_FILE_MODE)
  then lift (Err (store_error UnsafeFilesystem
         "personal worker state file does not have mode 0600"))
  else if bool_decide (owner ≠ st_owner stat)
  then lift (Err (store_error UnsafeFilesystem
         "personal worker state file has an unexpected owner or group"))
  else if match expected_size with
          | Some expected => negb (st_size stat =? expected)
          | None => false
          end
  then lift (Err corrupt_state)
  else mret ().

Definition synchronize_directory : io PersonalWorkerStoreError unit :=
  failing (io_error "could not synchronize a personal worker state directory") fsync_dir.

Definition synchronize_root : io PersonalWorkerStoreError unit :=
  failing (io_error "could not synchronize a personal worker state directory") fsync_root.

(** ** Staged files *)

Record StagedDocument := mkStaged {
  sg_name : string;
  sg_file : option string;
  sg_armed : bool;
}.

Definition StagedDocument_existing (name : string) : StagedDocument := mkStaged name None false.

Definition disarm (staged : StagedDocument) : StagedDocument :=
  mkStaged (sg_name staged) (sg_file staged) false.

(** [Drop for StagedDocument]. *)
Definition drop_staged {E} (staged : StagedDocument) : io E unit :=
  if sg_armed staged then ignoring (unlinkat (sg_name staged)) else mret ().

(** A block that owns a staged file: unless it hands the file on, it drops it. *)
Definition unless_ok {E A} (staged : StagedDocument) (body : io E A) : io E A :=
  catch body (λ r, match r with
                   | Ok a => lift (Ok a)
                   | _ => _ ← drop_staged staged; lift r
                   end).

Definition always_drop {E A} (body : io E (StagedDocument * result E A)) : io E A :=
  '(staged, r) ← body; _ ← drop_staged staged; lift r.

Inductive StoreRecoveryPlan :=
| PlanClean (revision : option PersonalWorkerStoreRevision)
| PlanPublishStaged (revision : PersonalWorkerStoreRevision) (no_replace : bool)
| PlanRemoveStaleStaged (revision : PersonalWorkerStoreRevision).

Inductive PersonalWorkerStoreReadOnlyInspection :=
| InspectionMissing
| InspectionCurrent (document : PersonalWorkerStoreDocument)
| InspectionRecoveryRequired (revision : PersonalWorkerStoreRevision).

(** The open store: the descriptors of the two directories are the two
    directories of the world. *)
Record UnixPersonalWorkerStore := mkUnixStore {
  us_owner : N * N;
}.

(** The decoder of [lima-authority.json], which belongs to the Lima lifecycle:
    how it fails, and whether the document it reads records an attempt. *)
Inductive LimaAuthorityDecodeError :=
| LimaVersionIncompatible
| LimaInvalid.

Class LimaAuthorityReader := {
  lima_authority_attempt : bytes → result LimaAuthorityDecodeError bool;
}.

Section store.
Context `{SER : !StoreSerde, DS : !DocumentSerde, LIMA : !LimaAuthorityReader}
  (self : UnixPersonalWorkerStore).

(** ** Reading *)

Definition read_named_bytes_bounded (name : string) (max_bytes : N)
    : io PersonalWorkerStoreError (option bytes) :=
  _ ← inspect_directory w_dir (Some (us_owner self));
  catch (openat OpenReadOnly name) (λ opened,
    match opened with
    | Err NOENT => mret None
    | Err error => lift (Err (map_document_open_error error))
    | Panic => lift Panic
    | Ok file =>
        _ ← inspect_private_file file (us_owner self) None;
        bytes ← failing (io_error "could not read the personal worker state document")
          (read_to_end file (max_bytes + 1));
        if max_bytes <? N.of_nat (length bytes)
        then lift (Err corrupt_state)
        else mret (Some bytes)
    end).

Definition read_named_bytes (name : string) : io PersonalWorkerStoreError (option bytes) :=
  read_named_bytes_bounded name MAX_PERSONAL_WORKER_STORE_BYTES.

Definition load_named (name : string)
    : io PersonalWorkerStoreError (option PersonalWorkerStoreDocument) :=
  found ← read_named_bytes name;
  lift (traverse_option decode_personal_worker_store_document found).

(** ** Documents of other components in the same directory *)

Definition disposable_attempt_catalog_refuse_unsettled : io PersonalWorkerStoreError unit :=
  staged ← read_named_bytes_bounded STAGED_CATALOG_DOCUMENT
    MAX_DISPOSABLE_ATTEMPT_CATALOG_DOCUMENT_BYTES;
  if is_some staged
  then lift (Err (store_error RevisionConflict
         "disposable-attempt recovery must complete before personal-worker mutation"))
  else mret ().

Definition scale_set_delivery_recovery_refuse_unsettled : io PersonalWorkerStoreError unit :=
  _ ← synchronize_directory;
  staged ← read_named_bytes_bounded STAGED_DELIVERY_RECOVERY_DOCUMENT
    MAX_SCALE_SET_DELIVERY_RECOVERY_BYTES;
  current ← read_named_bytes_bounded DELIVERY_RECOVERY_DOCUMENT
    MAX_SCALE_SET_DELIVERY_RECOVERY_BYTES;
  if is_some staged || is_some current
  then lift (Err (store_error RevisionConflict
         "Scale Set delivery reconciliation must settle before unrelated mutation"))
  else mret ().

Definition disposable_template_generation_refuse_unsettled : io PersonalWorkerStoreError unit :=
  staged ← read_named_bytes_bounded STAGED_GENERATION_DOCUMENT
    MAX_DISPOSABLE_TEMPLATE_GENERATION_BYTES;
  if is_some staged
  then lift (Err (store_error RevisionConflict
         "disposable-template recovery must complete before another state mutation"))
  else mret ().

Definition authority_io : PersonalWorkerStoreError :=
  store_error Io "Lima authority persistence failed".

Definition authority_corrupt : PersonalWorkerStoreError :=
  store_error CorruptState "Lima authority is corrupt".

(** [load_authority] followed by [into_store_error], which gives back the kind
    and the message an error had; the result is whether the document records
    an attempt. *)
Definition load_authority (name : string) : io PersonalWorkerStoreError (option bool) :=
  _ ← inspect_directory w_dir (Some (us_owner self));
  catch (openat OpenReadOnly name) (λ opened,
    match opened with
    | Err NOENT => mret None
    | Err _ => lift (Err authority_io)
    | Panic => lift Panic
    | Ok file =>
        _ ← inspect_private_file file (us_owner self) None;
        bytes ← failing (λ _, authority_io)
          (read_to_end file (MAX_PERSONAL_WORKER_LIMA_AUTHORITY_BYTES + 1));
        if MAX_PERSONAL_WORKER_LIMA_AUTHORITY_BYTES <? N.of_nat (length bytes)
        then lift (Err authority_corrupt)
        else
          attempt ← lift (map_err (λ error,
            match error with
            | LimaVersionIncompatible => store_error VersionIncompatible
                "Lima authority requires an explicit supported migration"
            | LimaInvalid => authority_corrupt
            end) (lima_authority_attempt bytes));
          mret (Some attempt)
    end).

Definition refuse_unsettled_lima_authority : io PersonalWorkerStoreError unit :=
  _ ← synchronize_directory;
  staged ← load_authority STAGED_AUTHORITY_DOCUMENT;
  current ← load_authority AUTHORITY_DOCUMENT;
  worker ← read_named_bytes CURRENT_DOCUMENT;
  if is_some staged
     || match current with Some attempt => attempt | None => false end
     || (is_some current && negb (is_some worker))
  then lift (Err (store_error RevisionConflict
         "a Lima lifecycle attempt requires recovery before worker mutation"))
  else mret ().

(** The four guards, in the order every mutation runs them. *)
Definition refuse_unsettled : io PersonalWorkerStoreError unit :=
  _ ← disposable_attempt_catalog_refuse_unsettled;
  _ ← scale_set_delivery_recovery_refuse_unsettled;
  _ ← disposable_template_generation_refuse_unsettled;
  refuse_unsettled_lima_authority.

(** ** Locks *)

Definition busy_error : PersonalWorkerStoreError :=
  store_error Busy "another personal worker store mutation holds the writer lock".

Definition lock_error (message : string) (error : Errno) : PersonalWorkerStoreError :=
  match error with
  | AGAIN => busy_error
  | _ => store_error Io message
  end.

Definition acquire_mutation_lock : io PersonalWorkerStoreError unit :=
  lock ← failing map_lock_open_error (openat OpenReadWrite STORE_LOCK_FILE);
  _ ← inspect_private_file lock (us_owner self) (Some 0);
  failing (lock_error "could not acquire the personal worker store writer lock") flock_exclusive.

Definition acquire_read_lock : io PersonalWorkerStoreError unit :=
  lock ← failing map_existing_initialization_lock_open_error
    (openat OpenReadOnly STORE_LOCK_FILE);
  _ ← inspect_private_file lock (us_owner self) (Some 0);
  failing (lock_error "could not acquire the personal worker store reader lock") flock_shared.

(** A block that holds the lock and drops it when it returns. *)
Definition locked {A} (body : io PersonalWorkerStoreError A) : io PersonalWorkerStoreError A :=
  _ ← acquire_mutation_lock;
  catch body (λ r, catch funlock (λ _, lift r)).

(** ** Staging and publishing *)

Definition stage_named_bytes (staged_name : string) (encoded : bytes)
    : io PersonalWorkerStoreError StagedDocument :=
  file ← failing map_stage_create_error (openat (OpenNew PRIVATE_FILE_MODE) staged_name);
  let staged := mkStaged staged_name (Some file) true in
  unless_ok staged (
    opened ← lift (expect (sg_file staged));
    _ ← failing (io_error "could not set private staged-state permissions")
      (fchmod opened PRIVATE_FILE_MODE);
    _ ← inspect_private_file opened (us_owner self) (Some 0);
    file ← lift (expect (sg_file staged));
    _ ← failing (io_error "could not write the staged personal worker document")
      (write_all file encoded);
    _ ← failing (io_error "could not synchronize the staged personal worker document")
      (sync_all file);
    _ ← inspect_private_file file (us_owner self) (Some (N.of_nat (length encoded)));
    mret (mkStaged staged_name (Some file) true)).

Definition stage_document (document : PersonalWorkerStoreDocument)
    : io PersonalWorkerStoreError StagedDocument :=
  encoded ← lift (encode_personal_worker_store_document document);
  stage_named_bytes STAGED_DOCUMENT encoded.

(** The staged file comes back with the result, since its caller drops it. *)
Definition publish_named_staged (staged : StagedDocument) (current_name : string)
    (no_replace : bool)
    : io PersonalWorkerStoreError (StagedDocument * result PersonalWorkerStoreError unit) :=
  catch (failing (λ error, map_publish_error error no_replace)
           (renameat (sg_name staged) current_name no_replace)) (λ renamed,
    match renamed with
    | Ok _ =>
        let staged := disarm staged in
        catch synchronize_directory (λ r, mret (staged, r))
    | r => mret (staged, r)
    end).

Definition publish_staged (staged : StagedDocument) (no_replace : bool) :=
  publish_named_staged staged CURRENT_DOCUMENT no_replace.

Definition synchronize_existing_staged (expected : PersonalWorkerStoreDocument)
    : io PersonalWorkerStoreError unit :=
  file ← failing map_document_open_error (openat OpenReadOnly STAGED_DOCUMENT);
  _ ← inspect_private_file file (us_owner self) None;
  bytes ← failing (io_error "could not read the staged personal worker document")
    (read_to_end file (MAX_PERSONAL_WORKER_STORE_BYTES + 1));
  if (MAX_PERSONAL_WORKER_STORE_BYTES <? N.of_nat (length bytes))
     || negb (bool_decide (decode_personal_worker_store_document bytes = Ok expected))
  then lift (Err corrupt_state)
  else
    _ ← failing (io_error "could not synchronize the staged personal worker document")
      (sync_all file);
    inspect_private_file file (us_owner self) (Some (N.of_nat (length bytes))).

Definition remove_staged : io PersonalWorkerStoreError unit :=
  catch (unlinkat STAGED_DOCUMENT) (λ removed,
    match removed with
    | Ok _ => synchronize_directory
    | Err NOENT => mret ()
    | Err _ => lift (Err (store_error Io "could not remove stale staged personal worker state"))
    | Panic => lift Panic
    end).

(** ** Recovery *)

Definition recovery_plan : io PersonalWorkerStoreError StoreRecoveryPlan :=
  found ← load_named STAGED_DOCUMENT;
  match found with
  | None =>
      current ← load_named CURRENT_DOCUMENT;
      mret (PlanClean (sd_revision <$> current))
  | Some staged =>
      current ← load_named CURRENT_DOCUMENT;
      match current with
      | None =>
          if negb (sd_revision staged =? 1) || negb (bool_decide (sd_history staged = []))
          then lift (Err corrupt_state)
          else mret (PlanPublishStaged (sd_revision staged) true)
      | Some current =>
          if sd_revision staged <=? sd_revision current
          then mret (PlanRemoveStaleStaged (sd_revision current))
          else
            _ ← lift (map_err (λ _, corrupt_state) (validate_successor_of staged current));
            mret (PlanPublishStaged (sd_revision staged) false)
      end
  end.

Definition recover_locked : io PersonalWorkerStoreError PersonalWorkerStoreRecovery :=
  plan ← recovery_plan;
  match plan with
  | PlanClean revision => mret (mkRecovery RecoveryClean revision)
  | PlanPublishStaged revision no_replace =>
      found ← load_named STAGED_DOCUMENT;
      staged ← lift (ok_or found corrupt_state);
      _ ← synchronize_existing_staged staged;
      let staged_guard := StagedDocument_existing STAGED_DOCUMENT in
      _ ← always_drop (publish_staged staged_guard no_replace);
      mret (mkRecovery RecoveryPublishedStaged (Some revision))
  | PlanRemoveStaleStaged revision =>
      _ ← remove_staged;
      mret (mkRecovery RecoveryRemovedStaleStaged (Some revision))
  end.

(** ** The operations of [PersonalWorkerStore] *)

Definition load : io PersonalWorkerStoreError (option PersonalWorkerStoreDocument) :=
  load_named CURRENT_DOCUMENT.

Definition initial_error : PersonalWorkerStoreError :=
  store_error RevisionConflict
    "initial personal worker state must use revision one without history".

Definition not_initial (document : PersonalWorkerStoreDocument) : bool :=
  negb (sd_revision document =? 1) || negb (bool_decide (sd_history document = [])).

Definition create (document : PersonalWorkerStoreDocument)
    : io PersonalWorkerStoreError PersonalWorkerStoreWriteReceipt :=
  if not_initial document then lift (Err initial_error)
  else locked (
    _ ← refuse_unsettled;
    _ ← recover_locked;
    found ← load_named CURRENT_DOCUMENT;
    if is_some found
    then lift (Err (store_error RevisionConflict "personal worker state already exists"))
    else
      encoded ← lift (encode_personal_worker_store_document document);
      let bytes_written := N.of_nat (length encoded) in
      staged ← stage_document document;
      _ ← always_drop (publish_staged staged true);
      mret (mkWriteReceipt WriteCreated (sd_revision document) bytes_written)).

Definition replace_if_revision (expected_revision : PersonalWorkerStoreRevision)
    (document : PersonalWorkerStoreDocument)
    : io PersonalWorkerStoreError PersonalWorkerStoreWriteReceipt :=
  locked (
    _ ← refuse_unsettled;
    _ ← recover_locked;
    found ← load_named CURRENT_DOCUMENT;
    current ← lift (ok_or found (store_error Missing "personal worker state does not exist"));
    if negb (sd_revision current =? expected_revision)
    then lift (Err (store_error RevisionConflict
           "personal worker state revision changed before publication"))
    else
      _ ← lift (validate_successor_of document current);
      encoded ← lift (encode_personal_worker_store_document document);
      let bytes_written := N.of_nat (length encoded) in
      staged ← stage_document document;
      _ ← always_drop (publish_staged staged false);
      mret (mkWriteReceipt WriteReplaced (sd_revision document) bytes_written)).

Definition recover : io PersonalWorkerStoreError PersonalWorkerStoreRecovery :=
  locked (_ ← refuse_unsettled; recover_locked).

(** ** Reading without the writer lock *)

Definition inspect_read_only : io PersonalWorkerStoreError PersonalWorkerStoreReadOnlyInspection :=
  _ ← acquire_read_lock;
  catch (
    plan ← recovery_plan;
    match plan with
    | PlanClean None => mret InspectionMissing
    | PlanClean (Some revision) =>
        found ← load_named CURRENT_DOCUMENT;
        document ← lift (ok_or found (store_error CorruptState
          "durable personal worker state changed during read-only inspection"));
        if negb (sd_revision document =? revision)
        then lift (Err corrupt_state)
        else mret (InspectionCurrent document)
    | PlanPublishStaged revision _
    | PlanRemoveStaleStaged revision => mret (InspectionRecoveryRequired revision)
    end) (λ r, catch funlock (λ _, lift r)).

Definition InspectionRevision (inspection : PersonalWorkerStoreReadOnlyInspection)
    : option PersonalWorkerStoreRevision :=
  match inspection with
  | InspectionMissing => None
  | InspectionCurrent document => Some (sd_revision document)
  | InspectionRecoveryRequired revision => Some revision
  end.

(** The migration, once the lock is held and the guards have passed. *)
Definition migrate_locked : io PersonalWorkerStoreError PersonalWorkerStoreMigrationReceipt :=
  found ← read_named_bytes CURRENT_DOCUMENT;
  current_bytes ← lift (ok_or found (store_error Missing "personal worker state does not exist"));
  staged_bytes ← read_named_bytes STAGED_DOCUMENT;
  match decode_personal_worker_store_document current_bytes with
  | Ok current =>
      _ ← synchronize_directory;
      mret (MigrationReceipt_new
        (if is_some staged_bytes then MigrationRecoveryRequired else MigrationAlreadyCurrent)
        (sd_schema_version current) (sd_revision current) (qi_generation (sd_queue current)) 0)
  | Err error =>
      if negb (bool_decide (pse_kind error = VersionIncompatible))
      then lift (Err error)
      else
        migrated ← lift (migrate_personal_worker_store_v1_document current_bytes);
        encoded ← lift (encode_personal_worker_store_document migrated);
        let receipt disposition bytes_written :=
          MigrationReceipt_new disposition 1 (sd_revision migrated)
            (qi_generation (sd_queue migrated)) bytes_written in
        match staged_bytes with
        | Some staged_bytes =>
            let exact_stage :=
              bool_decide (decode_personal_worker_store_document staged_bytes = Ok migrated) in
            if negb exact_stage || negb (bool_decide (staged_bytes = encoded))
            then mret (receipt MigrationRecoveryRequired 0)
            else
              _ ← synchronize_existing_staged migrated;
              let staged := StagedDocument_existing STAGED_DOCUMENT in
              _ ← always_drop (publish_staged staged false);
              mret (receipt MigrationMigrated 0)
        | None =>
            let bytes_written := N.of_nat (length encoded) in
            staged ← stage_document migrated;
            _ ← always_drop (publish_staged staged false);
            mret (receipt MigrationMigrated bytes_written)
        end
  | Panic => lift Panic
  end.
End store.

(** ** Opening an existing store *)

Section opening.
Context `{SER : !StoreSerde, DS : !DocumentSerde, LIMA : !LimaAuthorityReader}.

Definition open_root : io PersonalWorkerStoreError (N * N) :=
  _ ← failing map_root_open_error (open_dir w_root);
  root_stat ← inspect_directory w_root None;
  mret (st_owner root_stat).

Definition open_existing_read_only : io PersonalWorkerStoreError UnixPersonalWorkerStore :=
  owner ← open_root;
  _ ← failing map_existing_store_directory_open_error (open_dir w_dir);
  _ ← inspect_directory w_dir (Some owner);
  mret (mkUnixStore owner).

Definition open_existing_initialization_directory (owner : N * N)
    : io PersonalWorkerStoreError unit :=
  _ ← failing map_existing_store_directory_open_error (open_dir w_dir);
  _ ← inspect_directory w_dir (Some owner);
  lock ← failing map_existing_initialization_lock_open_error
    (openat OpenReadWrite STORE_LOCK_FILE);
  inspect_private_file lock owner (Some 0).

Definition migrate_v1 : io PersonalWorkerStoreError PersonalWorkerStoreMigrationReceipt :=
  owner ← open_root;
  _ ← open_existing_initialization_directory owner;
  let store := mkUnixStore owner in
  locked store (
    _ ← synchronize_root;
    _ ← refuse_unsettled store;
    migrate_locked store).
End opening.
