(* ===== verification/UnixSteps.v ===== *)
(** * What the calls of the store do to its directory

    A program logic for [UnixStore] in the style of crash Hoare logic: a
    program is described by what holds when it returns a value and by what
    holds when it returns an error or stops midway.  Assertions speak of the
    directory as it is and of every earlier directory a stopped machine may
    still come back with. *)

From S2P Require Import Prelude WorkerQueue StoreWire WorkerStore StoreCodec FileSystem UnixStore.

Local Open Scope N_scope.

(** ** Assertions *)

(** Directory [now], and every directory that may be found instead is [φ]. *)
Definition St (now : entries) (φ : entries → Prop) (w : World) : Prop :=
  w_now w = now ∧ Forall φ (w_past w).

(** Every directory that may be found is [φ]. *)
Definition images (φ : entries → Prop) (w : World) : Prop := φ (w_now w) ∧ Forall φ (w_past w).

(** The directory is [P], and every directory that may be found instead is [φ]. *)
Definition leaves (P φ : entries → Prop) (w : World) : Prop := P (w_now w) ∧ Forall φ (w_past w).

(** Directory [now] has reached the disk. *)
Definition synced (now : entries) : World → Prop := St now (λ _, False).

Definition wp {S E A} (m : prog S E A) (Φ : outcome E A → S → Prop) (w : S) : Prop :=
  let '(w', out) := m w in Φ out w'.

(** [Q] on a value, [I] on an error or a stop. *)
Definition ensures {S E A} (I : S → Prop) (Q : A → S → Prop) (out : outcome E A) (w : S) : Prop :=
  match out with
  | Done (Ok a) => Q a w
  | _ => I w
  end.

Lemma St_mono now φ ψ w : St now φ w → (∀ img, φ img → ψ img) → St now ψ w.
Proof. intros [? ?] Himp. split; [done|]. by eapply Forall_impl. Qed.

Lemma St_images now φ ψ w : St now φ w → ψ now → (∀ img, φ img → ψ img) → images ψ w.
Proof. intros [Hn ?] ? ?. split; [by rewrite Hn|]. by eapply Forall_impl. Qed.

Lemma images_St φ w : images φ w → St (w_now w) φ w.
Proof. by intros [_ ?]. Qed.

Lemma images_mono φ ψ w : images φ w → (∀ img, φ img → ψ img) → images ψ w.
Proof. intros [? ?] Himp. split; [auto|]. by eapply Forall_impl. Qed.

Lemma leaves_mono (P Q φ ψ : entries → Prop) w :
  leaves P φ w → (∀ img, P img → Q img) → (∀ img, φ img → ψ img) → leaves Q ψ w.
Proof. intros [? ?] HP Himp. split; [auto|]. by eapply Forall_impl. Qed.

Lemma St_leaves now φ (P ψ : entries → Prop) w : St now φ w → P now → (∀ img, φ img → ψ img) → leaves P ψ w.
Proof. intros [Hn ?] ? ?. split; [by rewrite Hn|]. by eapply Forall_impl. Qed.

(** ** Rules *)

Section rules.
Context {S E : Type}.

Lemma wp_mono {A} (m : prog S E A) (Φ Ψ : outcome E A → S → Prop) w :
  wp m Φ w → (∀ out w', Φ out w' → Ψ out w') → wp m Ψ w.
Proof. unfold wp. destruct (m w). eauto. Qed.

Lemma wp_ensures {A} (m : prog S E A) (I J : S → Prop) (Q R : A → S → Prop) w :
  wp m (ensures I Q) w → (∀ w', I w' → J w') → (∀ a w', Q a w' → R a w') →
  wp m (ensures J R) w.
Proof. intros Hm HI HQ. eapply wp_mono; [done|]. intros [[]|] w' H; simpl in *; auto. Qed.

Lemma wp_catch {A E' B} (m : prog S E A) (k : result E A → prog S E' B) Φ w :
  wp m (λ out w', match out with
                  | Done r => wp (k r) Φ w'
                  | Stopped => Φ Stopped w'
                  end) w → wp (catch m k) Φ w.
Proof. unfold wp, catch. by destruct (m w) as [w' [r|]]. Qed.

Lemma wp_lift {A} (r : result E A) Φ (w : S) : Φ (Done r) w → wp (lift r) Φ w.
Proof. done. Qed.

Lemma wp_bind {A B} (m : prog S E A) (f : A → prog S E B) I (R : A → S → Prop) Q w :
  wp m (ensures I R) w → (∀ a w', R a w' → wp (f a) (ensures I Q) w') →
  wp (m ≫= f) (ensures I Q) w.
Proof.
  intros Hm Hf. apply wp_catch. eapply wp_mono; [done|].
  intros [[]|] w' H; simpl in *; [by apply Hf|done..].
Qed.

Lemma wp_failing {A E'} (f : E → E') (m : prog S E A) I Q w :
  wp m (ensures I Q) w → wp (failing f m) (ensures I Q) w.
Proof. intros Hm. apply wp_catch. eapply wp_mono; [done|]. by intros [[]|] w'. Qed.

Lemma wp_bind_ok {A B} (a : A) (f : A → prog S E B) Φ w : wp (f a) Φ w → wp (lift (Ok a) ≫= f) Φ w.
Proof. done. Qed.

Lemma wp_bind_lift {A B} (r : result E A) (f : A → prog S E B) I Q w :
  I w → (∀ a, r = Ok a → wp (f a) (ensures I Q) w) → wp (lift r ≫= f) (ensures I Q) w.
Proof. intros HI Hf. destruct r as [a|e|]; [by apply Hf|done..]. Qed.

Lemma wp_lift_ensures {A} (r : result E A) I (Q : A → S → Prop) w :
  (∀ a, r = Ok a → Q a w) → I w → wp (lift r) (ensures I Q) w.
Proof. intros HQ HI. apply wp_lift. destruct r; simpl; auto. Qed.
End rules.

(** A call is served, refused or stopped in. *)
Lemma wp_syscall {A} (serve : World → World * result Errno A) write Φ w :
  (∀ script, let '(w', r) := serve (with_script script w) in Φ (Done r) w') →
  (∀ script fault n, Φ (Done (Err (fault_errno fault))) (write n (with_script script w))) →
  (∀ script n, Φ Stopped (write n (with_script script w))) →
  wp (syscall serve write) Φ w.
Proof.
  intros Hs He Hk. unfold wp, syscall. destruct (w_script w) as [|[|e n|n] script] eqn:Hw; [|..|done|done].
  - specialize (Hs []). replace (with_script [] w) with w in Hs by (destruct w; simpl in *; by subst).
    by destruct (serve w).
  - specialize (Hs script). by destruct (serve (with_script script w)).
Qed.

Lemma wp_atomic {A} (serve : World → World * result Errno A) Φ w :
  (∀ script, let '(w', r) := serve (with_script script w) in Φ (Done r) w') →
  (∀ script fault, Φ (Done (Err (fault_errno fault))) (with_script script w)) →
  (∀ script, Φ Stopped (with_script script w)) →
  wp (atomic serve) Φ w.
Proof. intros. by apply wp_syscall. Qed.

(** ** Programs that leave the directory alone

    They may at most make what is there durable. *)

Definition keeps (w w' : World) : Prop :=
  w_now w' = w_now w ∧ (w_past w' = w_past w ∨ w_past w' = []).

Class Quiet {E A} (m : io E A) : Prop :=
  quiet : ∀ w, wp m (λ _ w', keeps w w') w.

#[export] Instance keeps_preorder : PreOrder keeps.
Proof.
  split; [intros w; by split; [|left]|].
  intros w1 w2 w3 [H1 H2] [H3 H4]. split; [congruence|]. destruct H4 as [->|]; auto.
Qed.

Lemma keeps_St now φ w w' : St now φ w → keeps w w' → St now φ w'.
Proof. intros [<- Hp] [Hn [Hpast|Hpast]]; (split; [done|]); by rewrite Hpast. Qed.

Lemma quiet_atomic {A} (serve : World → World * result Errno A) :
  (∀ w, keeps w (serve w).1) → Quiet (atomic serve).
Proof.
  intros Hs w. apply wp_atomic; [|intros; split; auto..].
  intros script. specialize (Hs (with_script script w)). by destruct (serve _).
Qed.

Lemma quiet_catch {E A E' B} (m : io E A) (k : result E A → io E' B) :
  Quiet m → (∀ r, Quiet (k r)) → Quiet (catch m k).
Proof.
  intros Hm Hk w. apply wp_catch. eapply wp_mono; [apply Hm|].
  intros [r|] w' Hw; [|done]. eapply wp_mono; [apply Hk|]. simpl. intros _ w'' Hw'. by etrans.
Qed.

Lemma quiet_lift {E A} (r : result E A) : Quiet (lift r).
Proof. intros w. by split; [|left]. Qed.

Lemma quiet_bind {E A B} (m : io E A) (f : A → io E B) :
  Quiet m → (∀ a, Quiet (f a)) → Quiet (m ≫= f).
Proof. intros Hm Hf. apply quiet_catch; [done|]. intros []; auto using quiet_lift. Qed.

Lemma quiet_failing {E E' A} (f : E → E') (m : io E A) : Quiet m → Quiet (failing f m).
Proof. intros Hm. apply quiet_catch; auto using quiet_lift. Qed.

Lemma quiet_ignoring {E E' A} (m : io E A) : Quiet m → Quiet (ignoring (E' := E') m).
Proof. intros Hm. apply quiet_catch; auto using quiet_lift. Qed.

Ltac quiet_call :=
  apply quiet_atomic; intros w; unfold on_file; repeat case_match; simpl; (split; auto).

#[export] Instance quiet_openat_read name : Quiet (openat OpenReadOnly name).
Proof. quiet_call. Qed.
#[export] Instance quiet_openat_write name : Quiet (openat OpenReadWrite name).
Proof. quiet_call. Qed.
#[export] Instance quiet_fstat fd : Quiet (fstat fd).
Proof. quiet_call. Qed.
#[export] Instance quiet_fstat_dir dir : Quiet (fstat_dir dir).
Proof. quiet_call. Qed.
#[export] Instance quiet_open_dir dir : Quiet (open_dir dir).
Proof. quiet_call. Qed.
#[export] Instance quiet_read_to_end fd limit : Quiet (read_to_end fd limit).
Proof. quiet_call. Qed.
#[export] Instance quiet_fsync_dir : Quiet fsync_dir.
Proof. quiet_call. Qed.
#[export] Instance quiet_fsync_root : Quiet fsync_root.
Proof. quiet_call. Qed.
#[export] Instance quiet_flock_exclusive : Quiet flock_exclusive.
Proof. quiet_call. Qed.
#[export] Instance quiet_flock_shared : Quiet flock_shared.
Proof. quiet_call. Qed.
#[export] Instance quiet_funlock : Quiet funlock.
Proof. intros w. apply wp_syscall; intros; simpl; (split; auto). Qed.

Ltac solve_quiet :=
  repeat first
    [ progress intros
    | solve [typeclasses eauto]
    | apply quiet_lift | apply quiet_bind | apply quiet_failing | apply quiet_ignoring
    | apply quiet_catch
    | progress case_match ].

#[export] Instance quiet_inspect_directory dir owner : Quiet (inspect_directory dir owner).
Proof. unfold inspect_directory. solve_quiet. Qed.
#[export] Instance quiet_inspect_private_file file owner size :
  Quiet (inspect_private_file file owner size).
Proof. unfold inspect_private_file. solve_quiet. Qed.
#[export] Instance quiet_synchronize_directory : Quiet synchronize_directory.
Proof. unfold synchronize_directory. solve_quiet. Qed.
#[export] Instance quiet_synchronize_root : Quiet synchronize_root.
Proof. unfold synchronize_root. solve_quiet. Qed.

Section store.
Context `{SER : !StoreSerde, DS : !DocumentSerde, LIMA : !LimaAuthorityReader}
  (self : UnixPersonalWorkerStore).

#[export] Instance quiet_read_named_bytes_bounded name max :
  Quiet (read_named_bytes_bounded self name max).
Proof. unfold read_named_bytes_bounded. solve_quiet. Qed.
#[export] Instance quiet_read_named_bytes name : Quiet (read_named_bytes self name).
Proof. unfold read_named_bytes. solve_quiet. Qed.
#[export] Instance quiet_load_named name : Quiet (load_named self name).
Proof. unfold load_named. solve_quiet. Qed.
#[export] Instance quiet_load_authority name : Quiet (load_authority self name).
Proof. unfold load_authority. solve_quiet. Qed.
#[export] Instance quiet_catalog : Quiet (disposable_attempt_catalog_refuse_unsettled self).
Proof. unfold disposable_attempt_catalog_refuse_unsettled. solve_quiet. Qed.
#[export] Instance quiet_scale_set : Quiet (scale_set_delivery_recovery_refuse_unsettled self).
Proof. unfold scale_set_delivery_recovery_refuse_unsettled. solve_quiet. Qed.
#[export] Instance quiet_template : Quiet (disposable_template_generation_refuse_unsettled self).
Proof. unfold disposable_template_generation_refuse_unsettled. solve_quiet. Qed.
#[export] Instance quiet_lima : Quiet (refuse_unsettled_lima_authority self).
Proof. unfold refuse_unsettled_lima_authority. solve_quiet. Qed.
#[export] Instance quiet_refuse_unsettled : Quiet (refuse_unsettled self).
Proof. unfold refuse_unsettled. solve_quiet. Qed.
#[export] Instance quiet_acquire_mutation_lock : Quiet (acquire_mutation_lock self).
Proof. unfold acquire_mutation_lock. solve_quiet. Qed.
#[export] Instance quiet_acquire_read_lock : Quiet (acquire_read_lock self).
Proof. unfold acquire_read_lock. solve_quiet. Qed.
#[export] Instance quiet_recovery_plan : Quiet (recovery_plan self).
Proof. unfold recovery_plan. solve_quiet. Qed.
#[export] Instance quiet_inspect_read_only : Quiet (inspect_read_only self).
Proof. unfold inspect_read_only. solve_quiet. Qed.

(** A quiet program keeps every assertion about the directory. *)
Lemma wp_quiet {E A} (m : io E A) now φ w :
  Quiet m → St now φ w → wp m (ensures (St now φ) (λ _, St now φ)) w.
Proof.
  intros Hm Hst. eapply wp_mono; [apply Hm|].
  intros out w' Hk. pose proof (keeps_St _ _ _ _ Hst Hk). by destruct out as [[]|].
Qed.

Lemma wp_bind_quiet {E A B} (m : io E A) (f : A → io E B) now φ I Q w :
  Quiet m → St now φ w → (∀ w', St now φ w' → I w') →
  (∀ a w', St now φ w' → wp (f a) (ensures I Q) w') → wp (m ≫= f) (ensures I Q) w.
Proof.
  intros Hm Hst HI Hf. apply (wp_bind _ _ _ (λ _, St now φ)); [|exact Hf].
  by eapply wp_ensures; [by apply wp_quiet|..].
Qed.

(** ** What reading finds *)

Definition found (name : string) (o : option bytes) (now : entries) : Prop :=
  match o with
  | None => now !! name = None
  | Some b => ∃ f, now !! name = Some f ∧ f_bytes f = b
  end.

Definition decoded (name : string) (o : option PersonalWorkerStoreDocument) (now : entries) : Prop :=
  match o with
  | None => now !! name = None
  | Some d => ∃ f, now !! name = Some f ∧
                decode_personal_worker_store_document (f_bytes f) = Ok d
  end.

Lemma take_upto_all limit l :
  N.of_nat (length (take_upto (limit + 1) l)) ≤ limit → take_upto (limit + 1) l = l.
Proof.
  revert limit. induction l as [|x l IH]; [done|]. intros limit. simpl.
  rewrite (proj2 (N.eqb_neq _ _)) by lia. simpl. intros Hlen.
  rewrite N.add_sub in *. f_equal. replace limit with (limit - 1 + 1) in * by lia. apply IH. lia.
Qed.

Lemma wp_read_to_end fd limit now φ w :
  St now φ w → wp (read_to_end fd limit) (ensures (St now φ)
    (λ b w', St now φ w' ∧ ∃ f, now !! fd = Some f ∧ b = take_upto limit (f_bytes f))) w.
Proof.
  intros [<- Hp]. apply wp_atomic; intros script; [|done..].
  unfold on_file. simpl. destruct (w_now w !! fd) as [f|] eqn:Hf; simpl; [|done]. split; [done|eauto].
Qed.

(** Opening for reading answers about the directory truthfully. *)
Lemma wp_openat_read name now φ w :
  St now φ w → wp (openat OpenReadOnly name) (λ out w', St now φ w' ∧
    match out with
    | Done (Ok fd) => fd = name
    | Done (Err NOENT) => now !! name = None
    | Done Panic => False
    | _ => True
    end) w.
Proof.
  intros [<- Hp]. apply wp_atomic; intros script; [|intros [|raw]; done|done].
  simpl. destruct (w_now w !! name) as [f|] eqn:Hf; simpl; [|done].
  by destruct (f_type f).
Qed.

Lemma wp_read_named_bytes_bounded name max now φ w :
  St now φ w → wp (read_named_bytes_bounded self name max)
    (ensures (St now φ) (λ o w', St now φ w' ∧ found name o now)) w.
Proof.
  intros Hst. eapply wp_bind_quiet; [solve_quiet|done..|]. intros _ w1 Hst1.
  apply wp_catch. eapply wp_mono; [by apply wp_openat_read|].
  intros [[fd|e|]|] w2 [Hst2 Hr]; [|by destruct e|done..]. subst fd.
  eapply wp_bind_quiet; [solve_quiet|done..|]. intros _ w3 Hst3.
  eapply wp_bind; [by apply wp_failing, wp_read_to_end|].
  intros b w4 (Hst4 & f & Hf & ->). case_match; [done|]. split; [done|].
  exists f. split; [done|]. symmetry. apply take_upto_all. by bprop.
Qed.

Lemma wp_load_named name now φ w :
  St now φ w → wp (load_named self name)
    (ensures (St now φ) (λ o w', St now φ w' ∧ decoded name o now)) w.
Proof.
  intros Hst. eapply wp_bind; [by apply wp_read_named_bytes_bounded|].
  intros o w' [Hst' Ho]. apply wp_lift_ensures; [|done]. intros a Ha.
  destruct o as [b|]; simpl in *.
  - destruct (decode_personal_worker_store_document b) as [d| |] eqn:Hd; [|done..].
    injection Ha as <-. destruct Ho as (f & Hf & <-). simpl. eauto.
  - by injection Ha as <-.
Qed.

(** A successful synchronization leaves one directory to be found. *)
Lemma wp_synchronize_directory now φ w :
  St now φ w → wp synchronize_directory (ensures (St now φ) (λ _, synced now)) w.
Proof.
  intros [<- Hp]. apply wp_failing, wp_atomic; intros; simpl; [by split|done..].
Qed.

Lemma synced_St now φ w : synced now w → St now φ w.
Proof. intros Hs. by eapply St_mono. Qed.

(** The guards synchronize the directory before they answer. *)
Lemma wp_refuse_unsettled now φ w :
  St now φ w → wp (refuse_unsettled self) (ensures (St now φ) (λ _, synced now)) w.
Proof.
  intros Hst. eapply wp_bind_quiet; [solve_quiet|done..|]. intros _ w1 Hst1.
  eapply wp_bind.
  - eapply wp_bind; [by apply wp_synchronize_directory|]. intros ? w2 Hs. simpl in Hs.
    eapply wp_ensures; [by apply wp_quiet; [solve_quiet|]|by apply synced_St|done].
  - intros ? w2 Hs. simpl in Hs. eapply wp_ensures; [by apply wp_quiet; [solve_quiet|]|by apply synced_St|done].
Qed.

(** ** Staging *)

(** The directory [base] with a file [f] added under [name]. *)
Definition staging (name : string) (base : entries) (φ : entries → Prop) (P : File → Prop)
    (w : World) : Prop :=
  ∃ f, P f ∧ St (<[name := f]> base) φ w.

Definition holding (b : bytes) (f : File) : Prop := f_bytes f = b.
Definition part_of (b : bytes) (f : File) : Prop := f_bytes f `prefix_of` b.
Definition settled_as (b : bytes) (f : File) : Prop := f_bytes f = b ∧ f_stable f = true.

Lemma staging_mono name base φ (P Q : File → Prop) w :
  staging name base φ P w → (∀ f, P f → Q f) → staging name base φ Q w.
Proof. intros (f & Hf & Hst) Himp. exists f. auto. Qed.

Lemma wp_fchmod name mode base φ b w :
  staging name base φ (holding b) w →
  wp (fchmod name mode) (ensures (staging name base φ (holding b))
    (λ _, staging name base φ (holding b))) w.
Proof.
  intros (f & Hf & Hn & Hp). apply wp_atomic; intros script; [|by exists f..].
  unfold on_file. simpl. rewrite Hn, lookup_insert_eq. simpl.
  eexists. split; [|split; [by simpl; rewrite Hn, insert_insert_eq|done]]. done.
Qed.

Lemma append_staging name base φ b b' w :
  staging name base φ (holding b) w → staging name base φ (holding (b ++ b')) (append name b' w).
Proof.
  intros (f & Hf & Hn & Hp). unfold append. rewrite Hn, lookup_insert_eq.
  eexists. split; [|split; [by simpl; rewrite Hn, insert_insert_eq|done]].
  unfold holding in *. simpl. congruence.
Qed.

Lemma wp_write_all name enc base φ w :
  staging name base φ (holding []) w →
  wp (write_all name enc) (ensures (staging name base φ (part_of enc))
    (λ _, staging name base φ (holding enc))) w.
Proof.
  intros Hst. assert (∀ script n,
    staging name base φ (part_of enc) (append name (take n enc) (with_script script w))) as Hpart.
  { intros script n. eapply staging_mono; [apply (append_staging _ _ _ []); exact Hst|].
    unfold holding, part_of. intros f ->. apply prefix_take. }
  apply wp_syscall; intros script; [|(intros; apply Hpart)..].
  destruct Hst as (f & Hf & Hn & Hp). unfold on_file. simpl. rewrite Hn, lookup_insert_eq.
  apply (append_staging _ _ _ []). by exists f.
Qed.

Lemma wp_sync_all name base φ b w :
  staging name base φ (holding b) w →
  wp (sync_all name) (ensures (staging name base φ (holding b))
    (λ _, staging name base φ (settled_as b))) w.
Proof.
  intros (f & Hf & Hn & Hp). apply wp_atomic; intros script; [|by exists f..].
  unfold on_file. simpl. rewrite Hn, lookup_insert_eq. simpl.
  eexists. split; [|split; [by simpl; rewrite Hn, insert_insert_eq|done]]. by split.
Qed.

(** Inspecting changes nothing, whatever is found. *)
Lemma wp_inspect_staging {E A} (m : io E A) `{!Quiet m} name base φ P w :
  staging name base φ P w → wp m (ensures (staging name base φ P) (λ _, staging name base φ P)) w.
Proof.
  intros (f & Hf & Hst). eapply wp_ensures; [by apply wp_quiet|..]; intros; by exists f.
Qed.

Lemma wp_unless_ok {E A} sg (body : io E A) I J Q w :
  wp body (ensures J Q) w → (∀ w', J w' → I w') →
  (∀ w', J w' → wp (drop_staged (E := E) sg) (λ _, I) w') →
  wp (unless_ok sg body) (ensures I Q) w.
Proof.
  intros Hb HJ Hd. apply wp_catch. eapply wp_mono; [done|].
  intros [[a|e|]|] w' H; simpl in H; [by apply wp_lift|..|by apply HJ].
  all: apply wp_catch; eapply wp_mono; [by apply Hd|]; by intros [[]|] w'' H'.
Qed.

(** What the directory is, and what it may hold, while [enc] is being staged in
    [base]. *)
Definition staging_now (name : string) (enc : bytes) (base img : entries) : Prop :=
  img = base ∨ ∃ f, part_of enc f ∧ img = <[name := f]> base.

Definition staging_images (name : string) (enc : bytes) (base : entries) (φ : entries → Prop)
    (img : entries) : Prop := φ img ∨ staging_now name enc base img.

Definition staging_left (name : string) (enc : bytes) (base : entries) (φ : entries → Prop) : World → Prop :=
  leaves (staging_now name enc base) (staging_images name enc base φ).

Lemma staging_stopped name enc base φ w :
  staging name base (λ img, φ img ∨ img = base) (part_of enc) w → staging_left name enc base φ w.
Proof.
  intros (f & Hf & Hst). eapply St_leaves; [done|right; eauto|].
  unfold staging_images, staging_now. tauto.
Qed.

Lemma wp_drop_stage {E} name enc base φ w :
  base !! name = None → staging name base (λ img, φ img ∨ img = base) (part_of enc) w →
  wp (drop_staged (E := E) (mkStaged name (Some name) true)) (λ _, staging_left name enc base φ) w.
Proof.
  intros Hnone Hst. pose proof (staging_stopped _ _ _ _ _ Hst) as Hstop.
  apply wp_catch, wp_atomic; intros script; [|done..].
  destruct Hst as (f & Hf & Hn & Hp). simpl. rewrite Hn, lookup_insert_eq.
  destruct (bool_decide _); [done|]. simpl. rewrite <-Hn. split; simpl.
  - left. by rewrite Hn, delete_insert_id.
  - destruct Hstop. constructor; [by right|done].
Qed.

(** Creating a private file and writing it, whatever the errors are called and
    whatever is inspected on the way. *)
Lemma wp_stage_file {E} (create_error mode_error write_error sync_error : Errno → E) mode
    (inspect : string → option N → io E unit) `{INSPECT : !∀ fd size, Quiet (inspect fd size)} name enc base φ w :
  St base φ w →
  wp (file ← failing create_error (openat (OpenNew mode) name);
      let staged := mkStaged name (Some file) true in
      unless_ok staged (
        opened ← lift (expect (sg_file staged));
        _ ← failing mode_error (fchmod opened mode);
        _ ← inspect opened (Some 0);
        file ← lift (expect (sg_file staged));
        _ ← failing write_error (write_all file enc);
        _ ← failing sync_error (sync_all file);
        _ ← inspect file (Some (N.of_nat (length enc)));
        mret (mkStaged name (Some file) true)))
    (ensures (staging_left name enc base φ)
      (λ sg w', sg = mkStaged name (Some name) true ∧ base !! name = None ∧
         staging name base (λ img, φ img ∨ img = base) (settled_as enc) w')) w.
Proof.
  intros Hst. eapply wp_bind with (R := λ fd w', fd = name ∧ base !! name = None ∧
    staging name base (λ img, φ img ∨ img = base) (holding []) w').
  { destruct Hst as [Hn Hp]. assert (∀ script, staging_left name enc base φ (with_script script w)) as Hsame.
    { intros script. eapply (St_leaves base φ); [done|by left|by left]. }
    apply wp_failing, wp_atomic; intros script; [|(intros; apply Hsame)..]. simpl.
    rewrite Hn. destruct (base !! name) as [f|] eqn:Hf; simpl; [apply Hsame|].
    split_and!; [done..|]. eexists. split; [|split; [by rewrite <-Hn|]]; [done|].
    simpl. constructor; [by right|]. eapply Forall_impl; [done|]. by left. }
  intros fd w1 (-> & Hnone & Hst1).
  eapply wp_unless_ok with (J := staging name base (λ img, φ img ∨ img = base) (part_of enc));
    [|by apply staging_stopped|by intros; apply wp_drop_stage].
  assert (∀ w', staging name base (λ img, φ img ∨ img = base) (holding []) w' →
    staging name base (λ img, φ img ∨ img = base) (part_of enc) w') as Hempty.
  { intros w' Hw'. eapply staging_mono; [done|]. unfold holding, part_of. intros f ->.
    apply prefix_nil. }
  assert (∀ P w', staging name base (λ img, φ img ∨ img = base) P w' →
    (∀ f, P f → f_bytes f = enc) →
    staging name base (λ img, φ img ∨ img = base) (part_of enc) w') as Hfull.
  { intros P w' Hw' HP. eapply staging_mono; [done|]. intros f Hf%HP. unfold part_of. by rewrite Hf. }
  apply wp_bind_ok. eapply wp_bind.
  { eapply wp_ensures; [by apply wp_failing, wp_fchmod|done|]. intros ? ? H; exact H. }
  intros ? w2 Hst2. simpl in Hst2. eapply wp_bind.
  { eapply wp_ensures; [by eapply wp_inspect_staging|done|]. intros ? ? H; exact H. }
  intros ? w3 Hst3. simpl in Hst3. apply wp_bind_ok. eapply wp_bind; [by apply wp_failing, wp_write_all|].
  intros ? w4 Hst4. simpl in Hst4. eapply wp_bind.
  { eapply wp_ensures; [by apply wp_failing, wp_sync_all|by eauto|]. intros ? ? H; exact H. }
  intros ? w5 Hst5. simpl in Hst5. eapply wp_bind.
  { eapply wp_ensures; [by eapply wp_inspect_staging| |intros ? ? H; exact H].
    intros w' Hw'. eapply Hfull; [done|]. by intros f [? _]. }
  intros ? w6 Hst6. simpl in Hst6. by apply wp_lift.
Qed.

Lemma wp_stage_named_bytes name enc base φ w :
  St base φ w →
  wp (stage_named_bytes self name enc)
    (ensures (images (staging_images name enc base φ))
      (λ sg w', sg = mkStaged name (Some name) true ∧ base !! name = None ∧
         staging name base (λ img, φ img ∨ img = base) (settled_as enc) w')) w.
Proof.
  intros Hst. unfold stage_named_bytes. eapply wp_ensures.
  - with_strategy opaque [catch syscall unless_ok lift]
      apply (wp_stage_file _ _ _ _ _ (λ fd size, inspect_private_file fd (us_owner self) size)); exact Hst.
  - intros w' Hw'. eapply leaves_mono; [exact Hw'|by right|done].
  - done.
Qed.

(** ** Publishing *)

Definition published (now : entries) (f : File) : entries :=
  <[CURRENT_DOCUMENT := f]> (delete STAGED_DOCUMENT now).

(** What a directory may hold while [f], staged in [now], is being published. *)
Definition publishing_images (now : entries) (f : File) (φ : entries → Prop) (img : entries)
    : Prop :=
  φ img ∨ img = now ∨ img = delete STAGED_DOCUMENT now ∨ img = published now f.

Lemma publishing_same now f φ w : St now φ w → images (publishing_images now f φ) w.
Proof. intros Hst. eapply St_images; [done|by right; left|by left]. Qed.

Lemma wp_renameat no_replace now φ f w :
  now !! STAGED_DOCUMENT = Some f → St now φ w →
  wp (renameat STAGED_DOCUMENT CURRENT_DOCUMENT no_replace)
    (ensures (St now φ) (λ _, St (published now f) (λ img, φ img ∨ img = now))) w.
Proof.
  intros Hf [Hn Hp]. apply wp_atomic; intros script; [|done..]. simpl. rewrite Hn, Hf.
  destruct (now !! CURRENT_DOCUMENT) as [old|].
  1: destruct no_replace; [done|]; destruct (bool_decide _); [done|].
  all: simpl; split; [done|]; constructor; [by right|];
    eapply Forall_impl; [done|]; by left.
Qed.

(** What dropping the guard of a staged file that was not renamed leaves. *)
Lemma wp_drop_staged {E} sg now φ f w :
  sg_name sg = STAGED_DOCUMENT → St now φ w →
  wp (drop_staged (E := E) sg) (λ _, images (publishing_images now f φ)) w.
Proof.
  intros Hname Hst. pose proof (publishing_same now f φ w Hst) as Hsame.
  unfold drop_staged. rewrite Hname. destruct (sg_armed sg); [|done].
  apply wp_catch, wp_atomic; intros script; [|done..]. destruct Hst as [Hn Hp]. simpl. rewrite Hn.
  destruct (now !! STAGED_DOCUMENT); [|done]. destruct (bool_decide _); [done|].
  simpl. split; [by right; right; left|]. destruct Hsame. by constructor.
Qed.

Lemma wp_publish sg no_replace now φ f w :
  sg_name sg = STAGED_DOCUMENT → now !! STAGED_DOCUMENT = Some f → St now φ w →
  wp (always_drop (publish_staged sg no_replace))
    (ensures (images (publishing_images now f φ)) (λ _, synced (published now f))) w.
Proof.
  intros Hname Hf Hst. apply wp_catch, wp_catch. unfold publish_named_staged.
  rewrite Hname. eapply wp_mono; [by apply wp_failing, wp_renameat|].
  assert (∀ (r : result PersonalWorkerStoreError unit) w', (∀ a, r ≠ Ok a) → St now φ w' →
    wp (_ ← drop_staged sg; lift r) (ensures (images (publishing_images now f φ))
      (λ _, synced (published now f))) w') as Hdrop.
  { intros r w' Hr Hst'. apply wp_catch. eapply wp_mono; [by apply wp_drop_staged|].
    intros [[a|e|]|] w'' H; [apply wp_lift; destruct r; [by edestruct Hr|done..]|done..]. }
  intros [[[]|e|]|] w1 Hst1; simpl in Hst1; [|by apply Hdrop..|by apply publishing_same].
  apply wp_catch. eapply wp_mono; [by apply wp_synchronize_directory|].
  intros [[[]|e|]|] w2 Hst2; simpl in *; [done| |..];
    (eapply St_images; [done|by do 3 right|]; unfold publishing_images; tauto).
Qed.

Definition stabilised (f : File) : File :=
  mkFile (f_type f) (f_nlink f) (f_mode f) (f_owner f) (f_bytes f) true.

(** Synchronizing a stage found on disk: it is what was expected, and now it
    is durable. *)
Lemma wp_synchronize_existing_staged expected now φ w :
  St now φ w →
  wp (synchronize_existing_staged self expected)
    (ensures (λ w', St now φ w' ∨ ∃ f, now !! STAGED_DOCUMENT = Some f ∧
                St (<[STAGED_DOCUMENT := stabilised f]> now) φ w')
      (λ _ w', ∃ f, now !! STAGED_DOCUMENT = Some f ∧
         decode_personal_worker_store_document (f_bytes f) = Ok expected ∧
         St (<[STAGED_DOCUMENT := stabilised f]> now) φ w')) w.
Proof.
  intros Hst. eapply wp_bind with (R := λ fd w', fd = STAGED_DOCUMENT ∧ St now φ w').
  { apply wp_failing. eapply wp_mono; [by apply wp_openat_read|].
    intros [[]|] w' [? ?]; simpl; auto. }
  intros fd w1 [-> Hst1]. eapply wp_bind_quiet; [solve_quiet|done|by left|]. intros _ w2 Hst2.
  eapply wp_bind.
  { eapply wp_ensures; [by apply wp_failing, wp_read_to_end|by left|]. intros ? ? H; exact H. }
  intros b w3 (Hst3 & f & Hf & ->). case_match; [by left|]. bprop. simpl.
  rewrite take_upto_all in * by done.
  eapply wp_bind with (R := λ _, St (<[STAGED_DOCUMENT := stabilised f]> now) φ).
  { destruct Hst3 as [Hn Hp]. apply wp_failing, wp_atomic; intros script; [|by left..].
    unfold on_file. simpl. rewrite Hn, Hf. split; [by simpl; rewrite Hn|done]. }
  intros _ w4 Hst4. eapply wp_ensures; [by apply wp_quiet; [solve_quiet|]|by eauto|by eauto].
Qed.

Lemma wp_remove_staged now φ w :
  St now φ w →
  wp remove_staged
    (ensures (λ w', St now φ w' ∨ St (delete STAGED_DOCUMENT now) (λ img, φ img ∨ img = now) w')
      (λ _ w', synced (delete STAGED_DOCUMENT now) w' ∨
         (now !! STAGED_DOCUMENT = None ∧ St now φ w'))) w.
Proof.
  intros [Hn Hp]. apply wp_catch, wp_atomic; intros script; [|intros []; by left|by left].
  simpl. rewrite Hn. destruct (now !! STAGED_DOCUMENT) as [f|]; [|by apply wp_lift; right].
  destruct (bool_decide _); [by left|]. simpl.
  eapply wp_ensures; [apply wp_synchronize_directory with (φ := λ img, φ img ∨ img = now)|by right|by left].
  split; [done|]. constructor; [by right|]. eapply Forall_impl; [done|]. by left.
Qed.
End store.
