(* ===== verification/UnixTheorems.v ===== *)
(** * Crash safety of the store on disk

    Whatever the operating system refuses and wherever the process or the
    machine stops, [current.json] holds the document from before a replacement
    or the one after it, whole; a replacement that was acknowledged survives;
    recovery settles on one of the two; and the store satisfies the contract
    the mutation transaction is proved against. *)

From S2P Require Import Prelude WorkerQueue StoreWire WorkerStore StoreDocument StoreTransaction.
From S2P Require Import TransactionSteps TransactionTheorems StoreCodec FileSystem UnixStore UnixSteps.

Local Open Scope N_scope.

(** ** What a directory holds *)

(** The canonical document is the durable text [b], or there is none. *)
Definition holds (ob : option bytes) (img : entries) : Prop :=
  match ob with
  | None => img !! CURRENT_DOCUMENT = None
  | Some b => ∃ f, img !! CURRENT_DOCUMENT = Some f ∧ settled_as b f
  end.

Definition clean_img (ob : option bytes) (img : entries) : Prop :=
  holds ob img ∧ img !! STAGED_DOCUMENT = None.

(** A replacement of [ob] by [nb] stopped somewhere. *)
Definition doubt_img (ob : option bytes) (nb : bytes) (img : entries) : Prop :=
  (holds ob img ∧ ∀ f, img !! STAGED_DOCUMENT = Some f → part_of nb f) ∨
  clean_img (Some nb) img.

Lemma clean_doubt ob nb img : clean_img ob img → doubt_img ob nb img.
Proof. intros [Hh Hn]. left. split; [done|]. by rewrite Hn. Qed.

Lemma holds_other ob name f img :
  name ≠ CURRENT_DOCUMENT → holds ob (<[name := f]> img) ↔ holds ob img.
Proof. intros Hne. unfold holds. by rewrite lookup_insert_ne. Qed.

Lemma holds_delete ob name img :
  name ≠ CURRENT_DOCUMENT → holds ob (delete name img) ↔ holds ob img.
Proof. intros Hne. unfold holds. by rewrite lookup_delete_ne. Qed.

Lemma published_clean b f img : settled_as b f → clean_img (Some b) (published img f).
Proof.
  intros Hf. split; [exists f; split; [apply lookup_insert_eq|done]|].
  unfold published. by rewrite lookup_insert_ne, lookup_delete_eq.
Qed.

Lemma keeps_images ψ w w' : images ψ w → keeps w w' → images ψ w'.
Proof.
  intros [Hn Hp] Hk. destruct (keeps_St _ _ _ _ (images_St ψ w (conj Hn Hp)) Hk) as [Hn' Hp'].
  split; [by rewrite Hn'|done].
Qed.

Section store.
Context `{SER : !StoreSerde, DS : !DocumentSerde, LIMA : !LimaAuthorityReader,
  LAWS : !DocumentSerdeLaws} (self : UnixPersonalWorkerStore).

(** ** Recovery *)

Definition planned (plan : StoreRecoveryPlan) (now : entries) : Prop :=
  match plan with
  | PlanClean _ => now !! STAGED_DOCUMENT = None
  | _ => is_Some (now !! STAGED_DOCUMENT)
  end.

Lemma wp_recovery_plan now φ w :
  St now φ w → wp (recovery_plan self)
    (ensures (St now φ) (λ plan w', St now φ w' ∧ planned plan now)) w.
Proof.
  intros Hst. eapply wp_bind; [by apply wp_load_named|]. intros o w1 [Hst1 Ho].
  destruct o as [staged|]; simpl in Ho.
  - destruct Ho as (f & Hf & Hd). eapply wp_bind; [by apply wp_load_named|].
    intros [current|] w2 [Hst2 _].
    + case_match; [by split; [|exists f]|].
      apply wp_bind_lift; [done|]. intros _ _. by split; [|exists f].
    + case_match; [done|]. by split; [|exists f].
  - eapply wp_bind; [by apply wp_load_named|]. intros current w2 [Hst2 _]. by split.
Qed.

(** Nothing staged, nothing recovered. *)
Lemma wp_recover_locked_clean now φ w :
  now !! STAGED_DOCUMENT = None → St now φ w →
  wp (recover_locked self) (ensures (St now φ) (λ _, St now φ)) w.
Proof.
  intros Hnone Hst. eapply wp_bind; [by apply wp_recovery_plan|].
  intros [revision|revision nr|revision] w1 [Hst1 Hplan]; [done|..];
    simpl in Hplan; rewrite Hnone in Hplan; by destruct Hplan.
Qed.

(** A stage found on disk that decodes is the whole text. *)
Lemma doubt_staged ob d nb now f d' :
  encode_personal_worker_store_document d = Ok nb → doubt_img ob nb now →
  now !! STAGED_DOCUMENT = Some f → decode_personal_worker_store_document (f_bytes f) = Ok d' →
  holds ob now ∧ f_bytes f = nb.
Proof.
  intros Henc [[Hh Hpart]|[_ Hnone]] Hf Hd; [|congruence]. split; [done|].
  exact (proj1 (decode_prefix d nb (f_bytes f) d' Henc (Hpart f Hf) Hd)).
Qed.

Lemma doubt_stabilised ob nb now f :
  doubt_img ob nb now → now !! STAGED_DOCUMENT = Some f →
  doubt_img ob nb (<[STAGED_DOCUMENT := stabilised f]> now).
Proof.
  intros [[Hh Hpart]|[_ Hnone]] Hf; [|congruence]. left.
  split; [by rewrite holds_other|]. intros g. rewrite lookup_insert_eq. intros [= <-].
  exact (Hpart f Hf).
Qed.

Lemma doubt_deleted ob nb now :
  doubt_img ob nb now → doubt_img ob nb (delete STAGED_DOCUMENT now).
Proof.
  intros [[Hh Hpart]|[Hh Hnone]].
  - left. split; [by rewrite holds_delete|]. by rewrite lookup_delete_eq.
  - right. split; [by rewrite holds_delete|apply lookup_delete_eq].
Qed.

(** The states a recovery ends in. *)
Definition settled_either (ob : option bytes) (nb : bytes) (w : World) : Prop :=
  ∃ now, synced now w ∧ (clean_img ob now ∨ clean_img (Some nb) now).

Lemma doubt_images ob nb now φ w :
  doubt_img ob nb now → (∀ img, φ img → doubt_img ob nb img) → St now φ w →
  images (doubt_img ob nb) w.
Proof. intros. by eapply St_images. Qed.

Lemma wp_publish_stage ob d nb no_replace now f d' w :
  encode_personal_worker_store_document d = Ok nb → doubt_img ob nb now →
  now !! STAGED_DOCUMENT = Some f → decode_personal_worker_store_document (f_bytes f) = Ok d' →
  synced (<[STAGED_DOCUMENT := stabilised f]> now) w →
  wp (always_drop (publish_staged (StagedDocument_existing STAGED_DOCUMENT) no_replace))
    (ensures (images (doubt_img ob nb))
      (λ _ w', ∃ now', synced now' w' ∧ clean_img (Some nb) now')) w.
Proof.
  intros Henc Hdoubt Hf Hd Hst. destruct (doubt_staged _ _ _ _ _ _ Henc Hdoubt Hf Hd) as [Hh Hb].
  assert (settled_as nb (stabilised f)) as Hs by done.
  pose proof (doubt_stabilised _ _ _ _ Hdoubt Hf) as Hdoubt'.
  eapply wp_ensures; [eapply wp_publish; [done|apply lookup_insert_eq|exact Hst]|..].
  - intros w' Hw'. eapply images_mono; [done|].
    intros img [[]|[->|[->| ->]]]; [done|by apply doubt_deleted|right; by apply published_clean].
  - intros ? w' Hw'. eexists. split; [exact Hw'|]. by apply published_clean.
Qed.

(** From a doubtful directory: recovery settles, or leaves the doubt. *)
Lemma wp_recover_locked ob d nb now w :
  encode_personal_worker_store_document d = Ok nb → doubt_img ob nb now → synced now w →
  wp (recover_locked self) (ensures (images (doubt_img ob nb)) (λ _, settled_either ob nb)) w.
Proof.
  intros Henc Hdoubt Hst. assert (∀ now' w', doubt_img ob nb now' → synced now' w' →
    images (doubt_img ob nb) w') as Himg
    by (intros now' w' ??; by apply (doubt_images ob nb now' (λ _, False))).
  eapply wp_bind.
  { eapply wp_ensures; [by apply wp_recovery_plan|by eauto|]. intros ? ? H; exact H. }
  intros [revision|revision nr|revision] w1 [Hst1 Hplan]; simpl in Hplan.
  - exists now. split; [done|]. destruct Hdoubt as [[Hh _]|Hc]; [by left|by right].
  - eapply wp_bind; [eapply wp_ensures; [by apply wp_load_named|by eauto|intros ? ? H; exact H]|].
    intros found w2 [Hst2 _].
    apply wp_bind_lift; [by eauto|]. intros staged _. eapply wp_bind.
    { eapply wp_ensures; [by apply wp_synchronize_existing_staged| |intros ? ? H; exact H].
      intros w' [?|(f & Hf & ?)]; eauto using doubt_stabilised. }
    intros ? w4 (f & Hf & Hd & Hst4).
    eapply wp_bind; [by eapply wp_publish_stage|]. intros ? w5 (now' & Hs & Hc).
    exists now'. auto.
  - eapply wp_bind.
    { eapply wp_ensures; [by apply wp_remove_staged| |intros ? ? H; exact H].
      intros w' [?|[Hn Hp]]; [by eauto|]. split; [rewrite Hn; by apply doubt_deleted|].
      eapply Forall_impl; [done|]. by intros img [[]| ->]. }
    intros ? w2 [Hst2|[Hnone _]]; [|rewrite Hnone in Hplan; by destruct Hplan].
    exists (delete STAGED_DOCUMENT now). split; [done|].
    pose proof (doubt_deleted _ _ _ Hdoubt) as [[Hh _]|Hc]; [left|by right].
    split; [done|apply lookup_delete_eq].
Qed.

(** ** Writing *)

Lemma staging_doubt ob nb base img :
  clean_img ob base → staging_images STAGED_DOCUMENT nb base (λ _, False) img →
  doubt_img ob nb img.
Proof.
  intros [Hh Hnone] [[]|[->|(f & Hf & ->)]]; [by apply clean_doubt|].
  left. split; [by rewrite holds_other|]. intros g. rewrite lookup_insert_eq. by intros [= <-].
Qed.

(** Staging and publishing: the new text, or a doubt. *)
Lemma wp_write {A} ob nb d no_replace (x : A) now w :
  encode_personal_worker_store_document d = Ok nb → clean_img ob now → synced now w →
  wp (staged ← stage_document self d; _ ← always_drop (publish_staged staged no_replace); mret x)
    (ensures (images (doubt_img ob nb))
      (λ a w', a = x ∧ ∃ now', synced now' w' ∧ clean_img (Some nb) now')) w.
Proof.
  intros Henc Hc Hst. unfold stage_document. rewrite Henc. eapply wp_bind.
  { eapply wp_ensures; [apply wp_bind_ok, wp_stage_named_bytes; exact Hst| |intros ? ? H; exact H].
    intros w' Hw'. eapply images_mono; [done|]. intros img. by apply staging_doubt. }
  intros sg w1 (-> & Hnone & f & Hf & Hst1).
  assert (doubt_img ob nb (<[STAGED_DOCUMENT := f]> now)) as Hdoubt.
  { eapply staging_doubt; [done|]. right. right. exists f. split; [|done].
    unfold part_of. by rewrite (proj1 Hf). }
  eapply wp_bind.
  { eapply wp_ensures; [eapply wp_publish; [done|apply lookup_insert_eq|exact Hst1]|
      |intros ? ? H; exact H].
    intros w' Hw'. eapply images_mono; [done|].
    intros img [[[]| ->]|[->|[->| ->]]]; [by apply clean_doubt|done|by apply doubt_deleted|].
    right. by apply published_clean. }
  intros ? w2 Hst2. apply wp_lift. split; [done|]. eexists. split; [exact Hst2|].
  by apply published_clean.
Qed.

(** ** Operations under the lock *)

Lemma wp_locked {A} (body : io PersonalWorkerStoreError A) now φ ψ (Q : A → entries → Prop) w :
  St now φ w → ψ now → (∀ img, φ img → ψ img) → (∀ a img, Q a img → ψ img) →
  (∀ w1, St now φ w1 →
     wp body (ensures (images ψ) (λ a w', ∃ now', synced now' w' ∧ Q a now')) w1) →
  wp (locked self body) (ensures (images ψ) (λ a w', ∃ now', synced now' w' ∧ Q a now')) w.
Proof.
  intros Hst Hnow Hφ HQ Hbody.
  eapply wp_bind_quiet; [solve_quiet|done|intros; by eapply St_images|].
  intros _ w1 Hst1. apply wp_catch. eapply wp_mono; [by apply Hbody|].
  intros [r|] w2 Hr; [|done]. apply wp_catch. eapply wp_mono; [apply quiet_funlock|].
  intros out w3 Hk. assert (images ψ w3) as Himg.
  { eapply keeps_images; [|exact Hk]. destruct r as [a|e|]; [|exact Hr..].
    destruct Hr as (now' & Hs & Ha). by eapply St_images; [exact Hs|eauto|]. }
  destruct out as [_|]; [|done]. apply wp_lift. destruct r as [a|e|]; [|done..].
  destruct Hr as (now' & Hs & Ha). exists now'. split; [exact (keeps_St _ _ _ _ Hs Hk)|done].
Qed.

(** The text of the document a store holds. *)
Definition encodes (o : option PersonalWorkerStoreDocument) (ob : option bytes) : Prop :=
  match o, ob with
  | None, None => True
  | Some d, Some b => encode_personal_worker_store_document d = Ok b
  | _, _ => False
  end.

(** An attempt to publish [d] over [ob], whether or not [d] can be written. *)
Definition attempt_img (ob : option bytes) (d : PersonalWorkerStoreDocument) (img : entries)
    : Prop :=
  clean_img ob img ∨
  ∃ nb, encode_personal_worker_store_document d = Ok nb ∧ doubt_img ob nb img.

Lemma decoded_holds o ob o' now :
  encodes o ob → holds ob now → decoded CURRENT_DOCUMENT o' now → o' = o.
Proof.
  destruct ob as [b|], o as [d|]; simpl; try done; intros Henc Hh.
  - destruct Hh as (f & Hf & Hb & _). destruct o' as [d'|]; simpl; [|congruence].
    rewrite Hf. intros (g & [= <-] & [Hd _]%decode_Ok). rewrite Hb in Hd. f_equal.
    by eapply encode_inj.
  - destruct o' as [d'|]; simpl; [|done]. intros (g & Hg & _). congruence.
Qed.

Lemma wp_load_current o ob now φ w :
  encodes o ob → holds ob now → St now φ w →
  wp (load_named self CURRENT_DOCUMENT)
    (ensures (St now φ) (λ o' w', St now φ w' ∧ o' = o)) w.
Proof.
  intros Henc Hh Hst. eapply wp_ensures; [by apply wp_load_named|done|].
  intros o' w' [Hst' Ho']. split; [done|]. by eapply decoded_holds.
Qed.

Lemma wp_recover_clean ob w :
  images (clean_img ob) w →
  wp (recover self) (ensures (images (clean_img ob)) (λ _, images (clean_img ob))) w.
Proof.
  intros Himg. pose proof (images_St _ _ Himg) as Hst. destruct Himg as [Hnow _].
  eapply wp_ensures; [eapply (wp_locked _ _ _ _ (λ _, clean_img ob)); [exact Hst|done..|]|done|].
  - intros w1 Hst1. eapply wp_bind.
    { eapply wp_ensures; [by apply wp_refuse_unsettled| |intros ? ? H; exact H].
      intros. by eapply St_images. }
    intros ? w2 Hs. simpl in Hs.
    eapply wp_ensures; [by apply wp_recover_locked_clean; [apply Hnow|]|..].
    + intros w' Hw'. eapply St_images; [exact Hw'|done..].
    + intros ? w' Hw'. eexists. split; [exact Hw'|done].
  - intros ? w' (now' & Hs & Hc). eapply St_images; [exact Hs|done..].
Qed.

Lemma wp_recover_doubt ob d nb w :
  encode_personal_worker_store_document d = Ok nb → images (doubt_img ob nb) w →
  wp (recover self) (ensures (images (doubt_img ob nb)) (λ _, settled_either ob nb)) w.
Proof.
  intros Henc Himg. pose proof (images_St _ _ Himg) as Hst. destruct Himg as [Hnow _].
  eapply (wp_locked _ _ _ _ (λ _ now', clean_img ob now' ∨ clean_img (Some nb) now'));
    [exact Hst|done..| |].
  - intros _ img [?|?]; [by apply clean_doubt|by right].
  - intros w1 Hst1. eapply wp_bind.
    { eapply wp_ensures; [by apply wp_refuse_unsettled| |intros ? ? H; exact H].
      intros. by eapply St_images. }
    intros ? w2 Hs. simpl in Hs. by eapply wp_recover_locked.
Qed.

(** What every writer does first, on a settled store: nothing is recovered, and
    the document is loaded. *)
Lemma wp_guarded {A} o ob ψ (k : option PersonalWorkerStoreDocument → io PersonalWorkerStoreError A)
    Q now φ w :
  encodes o ob → clean_img ob now → ψ now → (∀ img, φ img → ψ img) → St now φ w →
  (∀ w', synced now w' → images ψ w' → wp (k o) (ensures (images ψ) Q) w') →
  wp (_ ← refuse_unsettled self; _ ← recover_locked self;
      found ← load_named self CURRENT_DOCUMENT; k found) (ensures (images ψ) Q) w.
Proof.
  intros Henc [Hh Hnone] Hnow Hφ Hst Hk.
  assert (∀ w', synced now w' → images ψ w') as Hstay
    by (intros w' Hw'; by eapply St_images; [exact Hw'|..]).
  eapply wp_bind.
  { eapply wp_ensures; [by apply wp_refuse_unsettled| |intros ? ? H; exact H].
    intros. by eapply St_images. }
  intros ? w2 Hs2. simpl in Hs2. eapply wp_bind.
  { eapply wp_ensures; [by apply wp_recover_locked_clean|by apply Hstay|intros ? ? H; exact H]. }
  intros ? w3 Hs3. simpl in Hs3. eapply wp_bind.
  { eapply wp_ensures; [by eapply wp_load_current|by apply Hstay|intros ? ? H; exact H]. }
  intros o' w4 [Hs4 ->]. by apply Hk; [|apply Hstay].
Qed.

Lemma wp_replace o ob revision d w :
  encodes o ob → images (clean_img ob) w →
  wp (replace_if_revision self revision d)
    (ensures (images (attempt_img ob d))
      (λ receipt w', ∃ now', synced now' w' ∧ ∃ nb current,
         encode_personal_worker_store_document d = Ok nb ∧ clean_img (Some nb) now' ∧
         o = Some current ∧ sd_revision current = revision ∧
         validate_successor_of d current = Ok () ∧
         receipt = mkWriteReceipt WriteReplaced (sd_revision d) (N.of_nat (length nb)))) w.
Proof.
  intros Henc Himg. pose proof (images_St _ _ Himg) as Hst. destruct Himg as [Hnow _].
  eapply wp_locked; [exact Hst|by left|by left| |].
  { intros _ img (nb & current & Hnb & Hc & _). right. exists nb. split; [done|by right]. }
  intros w1 Hst1. eapply wp_guarded; [done..|by left|by left|done|]. intros w4 Hs4 Himg4.
  apply wp_bind_lift; [done|]. intros current Hcur. apply ok_or_Ok in Hcur.
  case_match eqn:Hrev; [by apply wp_lift|]. bprop.
  apply wp_bind_lift; [done|]. intros [] Hsucc.
  apply wp_bind_lift; [done|]. intros nb Hnb.
  eapply wp_ensures; [by eapply wp_write|..].
  - intros w' Hw'. eapply images_mono; [done|]. intros img Himg. right. eauto.
  - intros receipt w' (-> & now' & Hs & Hc). exists now'. split; [done|]. by exists nb, current.
Qed.

(** ** Stopping and starting again *)

Lemma survives_settled b k f : settled_as b f → survives k f = f.
Proof. intros [_ Hs]. unfold survives. by rewrite Hs. Qed.

Lemma survives_part b k f : part_of b f → part_of b (survives k f).
Proof.
  unfold survives, part_of. intros Hf. destruct (f_stable f); [done|]. simpl.
  etrans; [|done]. apply prefix_take.
Qed.

Definition survivors (kept : string → nat) (img : entries) : entries :=
  map_imap (λ name f, Some (survives (kept name) f)) img.

Lemma lookup_survivors kept img name :
  survivors kept img !! name = survives (kept name) <$> img !! name.
Proof. unfold survivors. rewrite map_lookup_imap. by destruct (img !! name). Qed.

Lemma holds_survivors ob kept img : holds ob img → holds ob (survivors kept img).
Proof.
  unfold holds. destruct ob as [b|]; rewrite lookup_survivors; [|by intros ->].
  intros (f & -> & Hf). exists f. simpl. by rewrite (survives_settled b).
Qed.

Lemma clean_survivors ob kept img : clean_img ob img → clean_img ob (survivors kept img).
Proof.
  intros [Hh Hn]. split; [by apply holds_survivors|]. by rewrite lookup_survivors, Hn.
Qed.

Lemma doubt_survivors ob nb kept img : doubt_img ob nb img → doubt_img ob nb (survivors kept img).
Proof.
  intros [[Hh Hp]|Hc]; [left|right; by apply clean_survivors].
  split; [by apply holds_survivors|]. intros f. rewrite lookup_survivors.
  destruct (img !! STAGED_DOCUMENT) as [g|]; [|done]. intros [= <-]. by apply survives_part, Hp.
Qed.

Lemma attempt_survivors ob d kept img :
  attempt_img ob d img → attempt_img ob d (survivors kept img).
Proof.
  intros [Hc|(nb & Hnb & Hd)]; [left; by apply clean_survivors|].
  right. exists nb. split; [done|]. by apply doubt_survivors.
Qed.

Lemma restarts_images ψ w w' :
  (∀ kept img, ψ img → ψ (survivors kept img)) → images ψ w → restarts w w' → images ψ w'.
Proof.
  intros Hψ Himg Hr. destruct Hr as [script|files kept script Hin]; [done|].
  split; [|constructor]. simpl. apply Hψ.
  destruct Himg as [Hn Hp]. rewrite Forall_forall in Hp.
  apply elem_of_cons in Hin as [->|Hin]; [done|]. by apply Hp.
Qed.

(** ** The store as a [PersonalWorkerStore] *)

(** A call that stops does not return. *)
Definition returned {S E A} (run : S * outcome E A) : S * result E A :=
  (run.1, match run.2 with
          | Done r => r
          | Stopped => Panic
          end).

#[local] Instance unix_store : PersonalWorkerStore World := {|
  store_load w := returned (load self w);
  store_create w d := returned (create self d w);
  store_replace_if_revision w revision d := returned (replace_if_revision self revision d w);
  store_recover w := returned (recover self w);
|}.

(** Every directory that may be found holds [o] and no stage. *)
Definition unix_settled (w : World) (o : option PersonalWorkerStoreDocument) : Prop :=
  ∃ ob, encodes o ob ∧ images (clean_img ob) w.

(** Every directory that may be found holds [o], with a part of [d] staged at
    most, or holds [d]. *)
Definition unix_in_doubt (w : World) (o : option PersonalWorkerStoreDocument)
    (d : PersonalWorkerStoreDocument) : Prop :=
  ∃ ob, encodes o ob ∧ images (attempt_img ob d) w.

Lemma returned_wp {S E A} (m : prog S E A) (I : S → Prop) (Q : A → S → Prop) w w' r :
  wp m (ensures I Q) w → returned (m w) = (w', r) →
  match r with
  | Ok a => Q a w'
  | _ => I w'
  end.
Proof. unfold wp, returned. destruct (m w) as [w1 [[]|]]; by intros ? [= <- <-]. Qed.

Lemma attempt_doubt ob d nb w :
  encode_personal_worker_store_document d = Ok nb →
  images (attempt_img ob d) w ↔ images (doubt_img ob nb) w.
Proof.
  intros Henc. split; intros H; (eapply images_mono; [done|]); intros img.
  - intros [?|(nb' & Hnb' & ?)]; [by apply clean_doubt|]. congruence.
  - right. eauto.
Qed.

Lemma attempt_unwritable ob d w :
  (∀ nb, encode_personal_worker_store_document d ≠ Ok nb) →
  images (attempt_img ob d) w → images (clean_img ob) w.
Proof. intros Hno H. eapply images_mono; [done|]. intros img [?|(nb & Hnb & _)]; [done|by destruct (Hno nb)]. Qed.

Lemma recover_doubt_run ob d w w' r :
  images (attempt_img ob d) w → returned (recover self w) = (w', r) →
  images (attempt_img ob d) w' ∧
  ∀ a, r = Ok a → images (clean_img ob) w' ∨
    ∃ nb, encode_personal_worker_store_document d = Ok nb ∧ images (clean_img (Some nb)) w'.
Proof.
  intros Himg Hrun. destruct (encode_personal_worker_store_document d) as [nb|e|] eqn:Henc.
  - rewrite attempt_doubt in Himg by done.
    pose proof (returned_wp _ _ _ _ _ _ (wp_recover_doubt _ _ _ _ Henc Himg) Hrun) as H.
    rewrite attempt_doubt by done.
    destruct r as [a|e|]; [|by split..]. destruct H as (now & Hs & Hc). split.
    + eapply St_images; [exact Hs| |done]. destruct Hc; [by apply clean_doubt|by right].
    + intros _ _. destruct Hc as [Hc|Hc]; [left|right; exists nb; split; [done|]];
        (eapply St_images; [exact Hs|done..]).
  - apply attempt_unwritable in Himg; [|congruence].
    pose proof (returned_wp _ _ _ _ _ _ (wp_recover_clean _ _ Himg) Hrun) as H.
    assert (images (clean_img ob) w') as H' by by destruct r.
    split; [|by left]. eapply images_mono; [done|]. by left.
  - apply attempt_unwritable in Himg; [|congruence].
    pose proof (returned_wp _ _ _ _ _ _ (wp_recover_clean _ _ Himg) Hrun) as H.
    assert (images (clean_img ob) w') as H' by by destruct r.
    split; [|by left]. eapply images_mono; [done|]. by left.
Qed.

(** (C3) The store on disk satisfies the contract of the mutation transaction,
    under every sequence of refused calls, short writes, stops and restarts: a
    restart keeps what is settled and what is in doubt; recovery keeps what is
    settled, and settles a doubt on the old document or the new one; a load
    returns the settled document; a replacement that returns has settled its
    document over the expected revision, and one that fails or stops leaves the
    old document, or the doubt between the two. *)
Theorem unix_store_contract : StoreContract World unix_settled unix_in_doubt restarts.
Proof.
  split; simpl.
  - intros w d ([b|] & Henc & _); [|done]. unfold encodes, encode_personal_worker_store_document in Henc.
    inv_ok Henc. by destruct y.
  - intros w w' o (ob & Henc & H) Hr. exists ob. split; [done|].
    eapply restarts_images; [|done..]. intros. by apply clean_survivors.
  - intros w w' o d (ob & Henc & H) Hr. exists ob. split; [done|].
    eapply restarts_images; [|done..]. intros. by apply attempt_survivors.
  - intros w w' r o (ob & Henc & H) Hrun. exists ob. split; [done|].
    pose proof (returned_wp _ _ _ _ _ _ (wp_recover_clean _ _ H) Hrun). by destruct r.
  - intros w w' r o d (ob & Henc & H) Hrun.
    destruct (recover_doubt_run _ _ _ _ _ H Hrun) as [_ Hok].
    destruct (Hok r eq_refl) as [Hc|(nb & Hnb & Hc)]; [left; by exists ob|right; by exists (Some nb)].
  - intros w w' r o d (ob & Henc & H) Hrun. exists ob. split; [done|].
    by destruct (recover_doubt_run _ _ _ _ _ H Hrun).
  - intros w w' o r (ob & Henc & H) Hrun. pose proof (images_St _ _ H) as Hst.
    destruct H as [[Hh Hn] Hp].
    pose proof (returned_wp _ _ _ _ _ _ (wp_load_current _ _ _ _ _ Henc Hh Hst) Hrun) as Hw.
    assert (St (w_now w) (clean_img ob) w') as Hst' by (destruct r; [apply Hw|done..]).
    split; [exists ob; split; [done|]; by eapply St_images|].
    intros o' ->. apply Hw.
  - intros w w' o revision d receipt (ob & Henc & H) Hrun.
    pose proof (returned_wp _ _ _ _ _ _ (wp_replace _ _ revision d _ Henc H) Hrun)
      as (now & Hs & nb & current & Hnb & Hc & -> & Hr & Hsucc & ->).
    split_and!; [by exists current| |done..].
    exists (Some nb). split; [done|]. eapply St_images; [exact Hs|done..].
  - intros w w' o revision d r (ob & Henc & H) Hrun. exists ob. split; [done|].
    pose proof (returned_wp _ _ _ _ _ _ (wp_replace _ _ revision d _ Henc H) Hrun) as Hw.
    destruct r as [a|e|]; [|done..]. destruct Hw as (now & Hs & nb & current & Hnb & Hc & _).
    eapply St_images; [exact Hs| |done]. right. exists nb. split; [done|by right].
Qed.

(** A restart keeps what every directory that may be found satisfies. *)
Lemma rtc_restarts_images ψ w w' :
  (∀ kept img, ψ img → ψ (survivors kept img)) → images ψ w → rtc restarts w w' → images ψ w'.
Proof. intros Hψ Himg Hr. induction Hr; [done|]. eauto using restarts_images. Qed.

(** (C1) Replacing the document is atomic and durable.  Start from a store that
    holds [d0] and run [replace_if_revision] with [d], whatever the operating
    system refuses, and wherever the process stops; then let the process or the
    machine restart any number of times: [current.json] is there, and it decodes
    to [d0] or to [d], whole; where the call had returned a receipt, it decodes
    to [d]. *)
Theorem replacement_is_atomic (w w1 w2 : World) (revision : N)
    (d0 d : PersonalWorkerStoreDocument) out
    (Hwf0 : document_wf d0) (Hwf : document_wf d) (Hset : unix_settled w (Some d0))
    (Hrun : replace_if_revision self revision d w = (w1, out)) (Hrestart : rtc restarts w1 w2) :
  ∃ f, w_now w2 !! CURRENT_DOCUMENT = Some f ∧
    (decode_personal_worker_store_document (f_bytes f) = Ok d0 ∨
     decode_personal_worker_store_document (f_bytes f) = Ok d) ∧
    ∀ receipt, out = Done (Ok receipt) → decode_personal_worker_store_document (f_bytes f) = Ok d.
Proof.
  destruct Hset as ([b0|] & Henc & Himg); [|done]. simpl in Henc.
  pose proof (wp_replace (Some d0) (Some b0) revision d w Henc Himg) as Hwp.
  unfold wp in Hwp. rewrite Hrun in Hwp.
  assert (images (attempt_img (Some b0) d) w1 ∧ ∀ receipt, out = Done (Ok receipt) →
    ∃ nb, encode_personal_worker_store_document d = Ok nb ∧ images (clean_img (Some nb)) w1)
    as [Hany Hok].
  { destruct out as [[receipt|e|]|]; [|by split..].
    destruct Hwp as (now & Hs & nb & _ & Hnb & Hc & _). split.
    - eapply St_images; [exact Hs| |done]. right. exists nb. split; [done|by right].
    - intros _ _. exists nb. split; [done|]. eapply St_images; [exact Hs|done..]. }
  destruct (rtc_restarts_images _ _ _ (λ k i, attempt_survivors (Some b0) d k i) Hany Hrestart) as [Hnow _].
  assert (∃ f, w_now w2 !! CURRENT_DOCUMENT = Some f ∧
    (f_bytes f = b0 ∨ encode_personal_worker_store_document d = Ok (f_bytes f))) as (f & Hf & Hb).
  { destruct Hnow as [[(f & Hf & Hb & _) _]|(nb & Hnb & [[(f & Hf & Hb & _) _]|[(f & Hf & Hb & _) _]])];
      exists f; (split; [done|]); [by left..|right; congruence]. }
  exists f. split_and!; [done|destruct Hb as [<-|Hb]; [left|right]; by apply decode_encode|].
  intros receipt Hr. destruct (Hok receipt Hr) as (nb & Hnb & Hc).
  destruct (rtc_restarts_images _ _ _ (λ k i, clean_survivors (Some nb) k i) Hc Hrestart)
    as [[(g & Hg & Hgb & _) _] _].
  assert (g = f) as -> by congruence. rewrite Hgb. by apply decode_encode.
Qed.

Lemma wp_create o ob d w :
  encodes o ob → images (clean_img ob) w →
  wp (create self d)
    (ensures (images (attempt_img ob d))
      (λ receipt w', ∃ now', synced now' w' ∧ ∃ nb,
         encode_personal_worker_store_document d = Ok nb ∧ clean_img (Some nb) now' ∧
         o = None ∧ sd_revision d = 1 ∧ sd_history d = [] ∧
         receipt = mkWriteReceipt WriteCreated 1 (N.of_nat (length nb)))) w.
Proof.
  intros Henc Himg. unfold create. case_match eqn:Hini.
  { apply wp_lift. eapply images_mono; [done|]. by left. }
  unfold not_initial in Hini. bprop.
  pose proof (images_St _ _ Himg) as Hst. destruct Himg as [Hnow _].
  eapply wp_locked; [exact Hst|by left|by left| |].
  { intros _ img (nb & Hnb & Hc & _). right. exists nb. split; [done|by right]. }
  intros w1 Hst1. eapply wp_guarded; [done..|by left|by left|done|]. intros w4 Hs4 Himg4.
  destruct o as [current|]; [by apply wp_lift|]. simpl.
  apply wp_bind_lift; [done|]. intros nb Hnb.
  eapply wp_ensures; [by eapply wp_write|..].
  - intros w' Hw'. eapply images_mono; [done|]. intros img Hi. right. eauto.
  - intros receipt w' (-> & now' & Hs & Hc). exists now'. split; [done|]. exists nb.
    split_and!; [done..|]. congruence.
Qed.

(** Creating the document is exclusive: a creation that returns found no
    document, and has settled the initial one; one that fails or stops leaves
    the document there was, or the doubt between none and the new one. *)
Theorem creation_is_exclusive (w w' : World) (o : option PersonalWorkerStoreDocument)
    (d : PersonalWorkerStoreDocument) out
    (Hset : unix_settled w o) (Hrun : create self d w = (w', out)) :
  unix_in_doubt w' o d ∧
  ∀ receipt, out = Done (Ok receipt) →
    o = None ∧ sd_revision d = 1 ∧ sd_history d = [] ∧ unix_settled w' (Some d) ∧
    wrc_disposition receipt = WriteCreated.
Proof.
  destruct Hset as (ob & Henc & Himg). pose proof (wp_create o ob d w Henc Himg) as Hwp.
  unfold wp in Hwp. rewrite Hrun in Hwp. split.
  - exists ob. split; [done|]. destruct out as [[receipt|e|]|]; [|done..].
    destruct Hwp as (now & Hs & nb & Hnb & Hc & _).
    eapply St_images; [exact Hs| |done]. right. exists nb. split; [done|by right].
  - intros receipt ->. destruct Hwp as (now & Hs & nb & Hnb & Hc & Ho & Hr & Hh & ->).
    split_and!; [done..| |done]. exists (Some nb). split; [done|].
    eapply St_images; [exact Hs|done..].
Qed.

(** ** Migration *)

Lemma found_holds b now o : holds (Some b) now → found CURRENT_DOCUMENT o now → o = Some b.
Proof.
  intros (f & Hf & Hb & _). destruct o as [b'|]; simpl; [|congruence].
  rewrite Hf. intros (g & [= <-] & <-). by rewrite Hb.
Qed.

(** What a migration that returns [receipt] ends in. *)
Definition migrated_as (ob : option bytes) (nb : bytes)
    (receipt : PersonalWorkerStoreMigrationReceipt) (now : entries) : Prop :=
  doubt_img ob nb now ∧
  (mrc_disposition receipt ≠ MigrationRecoveryRequired → clean_img (Some nb) now).

Lemma wp_migrate_locked b d nb now w :
  migrate_personal_worker_store_v1_document b = Ok d →
  encode_personal_worker_store_document d = Ok nb →
  doubt_img (Some b) nb now → synced now w →
  wp (migrate_locked self) (ensures (images (doubt_img (Some b) nb))
    (λ receipt w', ∃ now', synced now' w' ∧ migrated_as (Some b) nb receipt now')) w.
Proof.
  intros Hmig Hnb Hdoubt Hs. destruct (migrate_Ok _ _ Hmig) as (Hold & _ & Hwf).
  pose proof (decode_encode _ _ Hwf Hnb) as Hnew.
  assert (∀ now' w', doubt_img (Some b) nb now' → synced now' w' →
    images (doubt_img (Some b) nb) w') as Hstay
    by (intros now' w' ??; by apply (doubt_images (Some b) nb now' (λ _, False))).
  eapply wp_bind.
  { eapply wp_ensures; [by apply wp_read_named_bytes_bounded|by eauto|intros ? ? H; exact H]. }
  intros current w1 [Hs1 Hcur]. apply wp_bind_lift; [by eauto|]. intros cb Hcb.
  apply ok_or_Ok in Hcb as ->. eapply wp_bind.
  { eapply wp_ensures; [by apply wp_read_named_bytes_bounded|by eauto|intros ? ? H; exact H]. }
  intros staged w2 [Hs2 Hstaged]. simpl in Hs2.
  destruct Hdoubt as [[Hh Hpart]|Hclean].
  - apply (found_holds _ _ _ Hh) in Hcur as [= ->]. rewrite Hold. simpl.
    assert (doubt_img (Some b) nb now) as Hdoubt by by left.
    rewrite Hmig. apply wp_bind_ok. rewrite Hnb. apply wp_bind_ok.
    destruct staged as [sb|].
    + case_match eqn:Hexact; [exists now; split; [exact Hs2|by split]|]. bprop. subst sb.
      eapply wp_bind.
      { eapply wp_ensures; [by apply wp_synchronize_existing_staged| |intros ? ? H'; exact H'].
        intros w' [?|(f & Hf & ?)]; eauto using doubt_stabilised. }
      intros ? w3 (f & Hf & Hd & Hs3).
      eapply wp_bind; [by eapply wp_publish_stage|]. intros ? w4 (now' & Hs4 & Hc).
      exists now'. split; [done|]. by split; [right|].
    + eapply wp_ensures; [by eapply wp_write|done|].
      intros receipt w' (-> & now' & Hs' & Hc). exists now'. split; [done|]. by split; [right|].
  - apply (found_holds _ _ _ (proj1 Hclean)) in Hcur as [= ->]. rewrite Hnew.
    eapply wp_bind.
    { eapply wp_ensures; [by apply wp_synchronize_directory| |intros ? ? H'; exact H'].
      intros w' Hw'. eapply Hstay; [by right|exact Hw']. }
    intros ? w3 Hs3. exists now. split; [exact Hs3|]. by split; [right|].
Qed.

End store.

Section migration.
Context `{SER : !StoreSerde, DS : !DocumentSerde, LIMA : !LimaAuthorityReader,
  LAWS : !DocumentSerdeLaws}.

Lemma wp_migrate_v1 b d nb w :
  migrate_personal_worker_store_v1_document b = Ok d →
  encode_personal_worker_store_document d = Ok nb → images (doubt_img (Some b) nb) w →
  wp migrate_v1 (ensures (images (doubt_img (Some b) nb))
    (λ receipt w', ∃ now', synced now' w' ∧ migrated_as (Some b) nb receipt now')) w.
Proof.
  intros Hmig Hnb Himg. pose proof (images_St _ _ Himg) as Hst. destruct Himg as [Hnow _].
  assert (∀ w', St (w_now w) (doubt_img (Some b) nb) w' → images (doubt_img (Some b) nb) w') as Hstay
    by (intros; by eapply St_images).
  eapply wp_bind_quiet; [unfold open_root; solve_quiet|done..|]. intros owner w1 Hst1.
  eapply wp_bind_quiet; [unfold open_existing_initialization_directory; solve_quiet|done..|].
  intros _ w2 Hst2. eapply wp_locked; [done..|by intros ? ? [? _]|].
  intros w3 Hst3. eapply wp_bind_quiet; [solve_quiet|done..|]. intros _ w4 Hst4.
  eapply wp_bind.
  { eapply wp_ensures; [by apply wp_refuse_unsettled|done|intros ? ? H; exact H]. }
  intros ? w5 Hs5. simpl in Hs5. by eapply wp_migrate_locked.
Qed.

(** Migrating a schema-1 store is atomic: from a store whose document is
    the schema-1 text [b], or one that an earlier migration left in doubt, every
    directory that may be found afterwards holds [b], with a part of the
    migrated text staged at most, or the migrated text, whatever is refused and
    wherever the process stops; and a migration that returns anything but
    recovery-required has made the migrated text durable. *)
Theorem migration_is_atomic (w w' : World) (b nb : bytes) (d : PersonalWorkerStoreDocument) out
    (Hmig : migrate_personal_worker_store_v1_document b = Ok d)
    (Hnb : encode_personal_worker_store_document d = Ok nb)
    (Himg : images (doubt_img (Some b) nb) w) (Hrun : migrate_v1 w = (w', out)) :
  images (doubt_img (Some b) nb) w' ∧
  ∀ receipt, out = Done (Ok receipt) → mrc_disposition receipt ≠ MigrationRecoveryRequired →
    images (clean_img (Some nb)) w'.
Proof.
  pose proof (wp_migrate_v1 b d nb w Hmig Hnb Himg) as Hwp. unfold wp in Hwp. rewrite Hrun in Hwp.
  destruct out as [[receipt|e|]|]; [|by split..].
  destruct Hwp as (now & Hs & Hd & Hc). split; [by eapply St_images; [exact Hs|..]|].
  intros ? [= <-] Hdisp. by eapply St_images; [exact Hs|apply Hc|].
Qed.
End migration.

(** ** A sample store, and the theorems at it *)

#[local] Existing Instances sample_serde sample_document_serde sample_document_serde_laws.

(** A reader of Lima documents that finds no attempt in any of them. *)
Definition sample_lima : LimaAuthorityReader := {| lima_authority_attempt _ := Ok false |}.
#[local] Existing Instance sample_lima.

Definition sample_unix : UnixPersonalWorkerStore := mkUnixStore (501, 20).

Definition sample_file (text : bytes) : File :=
  mkFile RegularFile 1 PRIVATE_FILE_MODE (501, 20) text true.

Definition sample_dir : Stat := mkStat DirectoryFile 2 MANAGED_DIRECTORY_MODE (501, 20) 0.

(** A store directory with the sample text [c] as its document. *)
Definition sample_world (c : ascii) (script : list Event) : World :=
  mkWorld (<[CURRENT_DOCUMENT := sample_file (sample_bytes c)]>
             {[ STORE_LOCK_FILE := sample_file [] ]}) []
    (Some sample_dir) (Some sample_dir) (501, 20) 18 false script.

(** The same directory without a document. *)
Definition sample_empty_world (script : list Event) : World :=
  with_files {[ STORE_LOCK_FILE := sample_file [] ]} [] (sample_world "1" script).

Lemma sample_world_holds c script : images (clean_img (Some (sample_bytes c))) (sample_world c script).
Proof. split; [|constructor]. split; [|done]. by exists (sample_file (sample_bytes c)). Qed.

Lemma sample_world_settled script : unix_settled (sample_world "1" script) (Some sample_document).
Proof.
  exists (Some (sample_bytes "1")). split; [|apply sample_world_holds].
  exact (proj1 (decode_Ok _ _ sample_decodes)).
Qed.

Lemma sample_later_decodes :
  decode_personal_worker_store_document (sample_bytes "2") = Ok sample_document_later.
Proof. vm_compute. reflexivity. Qed.

Lemma sample_later_encodes :
  encode_personal_worker_store_document sample_document_later = Ok (sample_bytes "2").
Proof. exact (proj1 (decode_Ok _ _ sample_later_decodes)). Qed.

Lemma sample_later_succeeds : validate_successor_of sample_document_later sample_document = Ok ().
Proof. vm_compute. reflexivity. Qed.

Lemma unix_store_contract_witness :
  @StoreContract World _ (unix_store sample_unix) unix_settled unix_in_doubt restarts.
Proof. exact (unix_store_contract sample_unix). Defined.

(** The machine stops in the middle of writing the stage. *)
Definition sample_stop : list Event := replicate 34 EvServe ++ [EvStop 1].

Definition sample_stopped : World * outcome PersonalWorkerStoreError PersonalWorkerStoreWriteReceipt :=
  replace_if_revision sample_unix 1 sample_document_later (sample_world "1" sample_stop).

Lemma replacement_is_atomic_witness :
  ∃ f, w_now sample_stopped.1 !! CURRENT_DOCUMENT = Some f ∧
    (decode_personal_worker_store_document (f_bytes f) = Ok sample_document ∨
     decode_personal_worker_store_document (f_bytes f) = Ok sample_document_later).
Proof.
  destruct (replacement_is_atomic sample_unix (sample_world "1" sample_stop) sample_stopped.1
    sample_stopped.1 1 sample_document sample_document_later sample_stopped.2
    (proj2 (decode_Ok _ _ sample_decodes)) (proj2 (decode_Ok _ _ sample_later_decodes))
    (sample_world_settled _) (surjective_pairing _) (rtc_refl _ _)) as (f & Hf & Hd & _).
  exact (ex_intro _ f (conj Hf Hd)).
Defined.

Lemma sample_empty_settled script : unix_settled (sample_empty_world script) None.
Proof. exists None. split; [done|]. by split; [split|constructor]. Qed.

Definition sample_created : World * outcome PersonalWorkerStoreError PersonalWorkerStoreWriteReceipt :=
  create sample_unix sample_document (sample_empty_world []).

Lemma sample_created_returns :
  sample_created.2 = Done (Ok (mkWriteReceipt WriteCreated 1 2)).
Proof. vm_compute. reflexivity. Qed.

Lemma creation_is_exclusive_witness : unix_settled sample_created.1 (Some sample_document).
Proof.
  exact (proj1 (proj2 (proj2 (proj2 (proj2 (creation_is_exclusive sample_unix
    (sample_empty_world []) sample_created.1 None sample_document sample_created.2
    (sample_empty_settled _) (surjective_pairing _)) _ sample_created_returns))))).
Defined.

Definition sample_migration
    : World * outcome PersonalWorkerStoreError PersonalWorkerStoreMigrationReceipt :=
  migrate_v1 (sample_world "v" []).

Lemma sample_migration_returns :
  sample_migration.2 = Done (Ok (mkMigrationReceipt MigrationMigrated 1 2 1 1 2)).
Proof. vm_compute. reflexivity. Qed.

Lemma migration_is_atomic_witness : images (clean_img (Some (sample_bytes "1"))) sample_migration.1.
Proof.
  refine (proj2 (migration_is_atomic (sample_world "v" []) sample_migration.1 (sample_bytes "v")
    (sample_bytes "1") sample_document sample_migration.2 sample_migrates
    (proj1 (decode_Ok _ _ sample_decodes))
    (images_mono _ _ _ (sample_world_holds "v" []) (λ img, clean_doubt _ _ img))
    (surjective_pairing _)) _ sample_migration_returns _).
  discriminate.
Defined.
