(* ===== verification/UnixProgress.v ===== *)
(** * What the store does when nothing fails, and what stops it for good

    Under an operating system that serves every call, a writer that follows the
    protocol gets through: the replacement of a settled document returns its
    receipt and leaves the store ready for the next.  A stage that does not
    decode, on the other hand, is never removed: every writer refuses it. *)

From S2P Require Import Prelude WorkerQueue StoreWire WorkerStore StoreDocument StoreTransaction.
From S2P Require Import TransactionSteps TransactionTheorems StoreCodec FileSystem UnixStore UnixSteps.
From S2P Require Import UnixTheorems.

Local Open Scope N_scope.

(** ** Runs without faults *)

Definition runs {E A} (m : io E A) (w w' : World) (a : A) : Prop := m w = (w', Done (Ok a)).

Lemma runs_bind {E A B} (m : io E A) (f : A → io E B) w w1 w2 a b :
  runs m w w1 a → runs (f a) w1 w2 b → runs (m ≫= f) w w2 b.
Proof. unfold runs, mbind, io_bind, catch. by intros -> ->. Qed.

Lemma runs_lift {E A} (a : A) w : runs (lift (E := E) (Ok a)) w w a.
Proof. done. Qed.

Lemma runs_failing {E E' A} (f : E → E') (m : io E A) w w' a :
  runs m w w' a → runs (failing f m) w w' a.
Proof. unfold runs, failing, catch. by intros ->. Qed.

Lemma runs_atomic {A} (serve : World → World * result Errno A) w w' a :
  w_script w = [] → serve w = (w', Ok a) → runs (atomic serve) w w' a.
Proof. unfold runs, atomic, syscall. by intros -> ->. Qed.

Definition private_file (owner : N * N) (f : File) : Prop :=
  f_type f = RegularFile ∧ f_nlink f = 1 ∧ N.land (f_mode f) 4095 = PRIVATE_FILE_MODE ∧
  f_owner f = owner.

Definition managed_directory (owner : N * N) (st : Stat) : Prop :=
  st_type st = DirectoryFile ∧ N.land (st_mode st) 4095 = MANAGED_DIRECTORY_MODE ∧
  st_owner st = owner.

(** The calls are served, and the directory is the store's own. *)
Record served (owner : N * N) (w : World) : Prop := {
  sv_script : w_script w = [];
  sv_dir : ∃ st, w_dir w = Some st ∧ managed_directory owner st;
  sv_creator : w_creator w = owner;
}.

Lemma runs_inspect_directory owner w :
  served owner w → ∃ st, runs (inspect_directory w_dir (Some owner)) w w st.
Proof.
  intros [Hs (st & Hd & Ht & Hm & Ho) _]. exists st. unfold inspect_directory.
  eapply runs_bind; [apply runs_failing, runs_atomic; [done|by rewrite Hd]|].
  rewrite Ht, Hm, Ho. simpl. by rewrite bool_decide_eq_false_2 by auto.
Qed.

Lemma runs_inspect_private_file name owner size f w :
  w_script w = [] → w_now w !! name = Some f → private_file owner f →
  (∀ n, size = Some n → N.of_nat (length (f_bytes f)) = n) →
  runs (inspect_private_file name owner size) w w ().
Proof.
  intros Hs Hf (Ht & Hl & Hm & Ho) Hsize. unfold inspect_private_file.
  eapply runs_bind; [apply runs_failing, runs_atomic; [done|unfold on_file; by rewrite Hf]|].
  simpl. rewrite Ht, Hl, Hm, Ho. simpl. rewrite bool_decide_eq_false_2 by auto.
  destruct size as [n|]; [|done]. by rewrite (Hsize n eq_refl), N.eqb_refl.
Qed.

Lemma take_upto_short limit l : N.of_nat (length l) ≤ limit → take_upto limit l = l.
Proof.
  revert limit. induction l as [|x l IH]; [done|]. intros limit Hlen. simpl in *.
  rewrite (proj2 (N.eqb_neq _ _)) by lia. f_equal. apply IH. lia.
Qed.

Lemma runs_open_read name f w :
  w_script w = [] → w_now w !! name = Some f → f_type f = RegularFile →
  runs (openat OpenReadOnly name) w w name ∧ runs (openat OpenReadWrite name) w w name.
Proof.
  intros Hs Hf Ht. split; apply runs_atomic; [done| |done|]; simpl; by rewrite Hf, Ht.
Qed.

(** The text under a name, if the file there is one the store accepts. *)
Definition readable (owner : N * N) (max : N) (o : option File) : Prop :=
  ∀ f, o = Some f → private_file owner f ∧ N.of_nat (length (f_bytes f)) ≤ max.

Section progress.
Context `{SER : !StoreSerde, DS : !DocumentSerde, LIMA : !LimaAuthorityReader,
  LAWS : !DocumentSerdeLaws} (self : UnixPersonalWorkerStore).

Lemma runs_read_named_bytes_bounded name max w :
  served (us_owner self) w → readable (us_owner self) max (w_now w !! name) →
  runs (read_named_bytes_bounded self name max) w w (f_bytes <$> w_now w !! name).
Proof.
  intros Hsv Hread. pose proof (sv_script _ _ Hsv) as Hs.
  destruct (runs_inspect_directory _ _ Hsv) as [st Hdir].
  unfold read_named_bytes_bounded. eapply runs_bind; [done|].
  destruct (w_now w !! name) as [f|] eqn:Hf; simpl.
  - destruct (Hread f eq_refl) as [Hpriv Hlen]. unfold runs, catch.
    rewrite (proj1 (runs_open_read name f w Hs Hf (proj1 Hpriv))).
    fold (@runs PersonalWorkerStoreError (option bytes)).
    eapply runs_bind; [by eapply runs_inspect_private_file|].
    eapply runs_bind; [apply runs_failing, runs_atomic; [done|unfold on_file; by rewrite Hf]|].
    rewrite take_upto_short by lia. by rewrite (proj2 (N.ltb_ge _ _)).
  - unfold runs, catch, openat, atomic, syscall. by rewrite Hs, Hf.
Qed.

Lemma runs_read_absent name max w :
  served (us_owner self) w → w_now w !! name = None →
  runs (read_named_bytes_bounded self name max) w w None.
Proof.
  intros Hsv Hn. pose proof (runs_read_named_bytes_bounded name max w Hsv) as H.
  rewrite Hn in H. by apply H.
Qed.

Lemma runs_load_named name o w :
  served (us_owner self) w →
  readable (us_owner self) MAX_PERSONAL_WORKER_STORE_BYTES (w_now w !! name) →
  traverse_option decode_personal_worker_store_document (f_bytes <$> w_now w !! name) = Ok o →
  runs (load_named self name) w w o.
Proof.
  intros Hsv Hread Hd. eapply runs_bind; [by apply runs_read_named_bytes_bounded|].
  unfold runs, lift. by rewrite Hd.
Qed.

Lemma runs_load_authority_absent name w :
  served (us_owner self) w → w_now w !! name = None → runs (load_authority self name) w w None.
Proof.
  intros Hsv Hn. destruct (runs_inspect_directory _ _ Hsv) as [st Hdir].
  eapply runs_bind; [done|]. unfold runs, catch, openat, atomic, syscall.
  by rewrite (sv_script _ _ Hsv), Hn.
Qed.

Lemma runs_synchronize_directory w :
  w_script w = [] → runs synchronize_directory w (with_files (w_now w) [] w) ().
Proof. intros Hs. by apply runs_failing, runs_atomic. Qed.

(** The documents whose presence blocks the store. *)
Definition sibling_documents : list string :=
  [STAGED_CATALOG_DOCUMENT; STAGED_DELIVERY_RECOVERY_DOCUMENT; DELIVERY_RECOVERY_DOCUMENT;
   STAGED_GENERATION_DOCUMENT; STAGED_AUTHORITY_DOCUMENT; AUTHORITY_DOCUMENT].

(** A store in order: its calls are served, its lock is free, no sibling is
    unsettled and its own files are ones it accepts. *)
Record healthy (w : World) : Prop := {
  hl_served : served (us_owner self) w;
  hl_unlocked : w_locked w = false;
  hl_lock : ∃ f, w_now w !! STORE_LOCK_FILE = Some f ∧ private_file (us_owner self) f ∧
              f_bytes f = [];
  hl_siblings : ∀ name, name ∈ sibling_documents → w_now w !! name = None;
  hl_current : readable (us_owner self) MAX_PERSONAL_WORKER_STORE_BYTES
                 (w_now w !! CURRENT_DOCUMENT);
}.

Lemma runs_refuse_unsettled w :
  served (us_owner self) w → (∀ name, name ∈ sibling_documents → w_now w !! name = None) →
  readable (us_owner self) MAX_PERSONAL_WORKER_STORE_BYTES (w_now w !! CURRENT_DOCUMENT) →
  runs (refuse_unsettled self) w (with_files (w_now w) [] w) ().
Proof.
  intros Hsv Hnone Hcur. assert (served (us_owner self) (with_files (w_now w) [] w)) as Hsv'
    by by destruct Hsv.
  pose proof (sv_script _ _ Hsv) as Hs.
  eapply runs_bind.
  { eapply runs_bind; [apply runs_read_absent; [done|apply Hnone; set_solver]|done]. }
  eapply runs_bind.
  { eapply runs_bind; [by apply runs_synchronize_directory|].
    eapply runs_bind; [apply runs_read_absent; [done|apply Hnone; set_solver]|].
    eapply runs_bind; [apply runs_read_absent; [done|apply Hnone; set_solver]|done]. }
  eapply runs_bind.
  { eapply runs_bind; [apply runs_read_absent; [done|apply Hnone; set_solver]|done]. }
  eapply runs_bind; [by apply runs_synchronize_directory|].
  eapply runs_bind; [apply runs_load_authority_absent; [done|apply Hnone; set_solver]|].
  eapply runs_bind; [apply runs_load_authority_absent; [done|apply Hnone; set_solver]|].
  eapply runs_bind; [by apply runs_read_named_bytes_bounded|]. done.
Qed.

Lemma runs_locked {A} (body : io PersonalWorkerStoreError A) w w' a :
  healthy w → runs body (with_locked true w) w' a → w_script w' = [] →
  runs (locked self body) w (with_locked false w') a.
Proof.
  intros [[Hs _ _] Hl (f & Hf & Hp & Hb) _ _] Hbody Hs'. eapply runs_bind.
  { eapply runs_bind; [by apply runs_failing; eapply runs_open_read; [..|apply Hp]|].
    eapply runs_bind; [eapply runs_inspect_private_file; [done..|]; intros n [= <-]; by rewrite Hb|].
    apply runs_failing, runs_atomic; [done|]. by rewrite Hl. }
  unfold runs, catch. rewrite Hbody. unfold funlock, syscall. by rewrite Hs'.
Qed.

(** ** A replacement without faults *)

Definition staged_file (owner : N * N) (b : bytes) : File :=
  mkFile RegularFile 1 PRIVATE_FILE_MODE owner b true.

Lemma runs_unless_ok {E A} sg (body : io E A) w w' a :
  runs body w w' a → runs (unless_ok sg body) w w' a.
Proof. unfold runs, unless_ok, catch. by intros ->. Qed.

(** A call on the file just staged. *)
Lemma runs_on_staged (call : io Errno unit) name base past f f' w :
  w_script w = [] →
  call = atomic (on_file name (λ f w, (change_file name (f' f) w, Ok ()))) →
  runs call (with_files (<[name := f]> base) past w)
    (with_files (<[name := f' f]> base) past w) ().
Proof.
  intros Hs ->. apply runs_atomic; [done|]. unfold on_file, change_file, with_files. simpl.
  by rewrite lookup_insert_eq, insert_insert_eq.
Qed.

Lemma runs_write_all name base past f enc w :
  w_script w = [] →
  runs (write_all name enc) (with_files (<[name := f]> base) past w)
    (with_files (<[name := mkFile (f_type f) (f_nlink f) (f_mode f) (f_owner f)
                             (f_bytes f ++ enc) false]> base) past w) ().
Proof.
  intros Hs. unfold runs, write_all, syscall, on_file, append, change_file, with_files. simpl.
  by rewrite Hs, lookup_insert_eq, insert_insert_eq.
Qed.

Lemma runs_stage_named_bytes name enc w :
  served (us_owner self) w → w_now w !! name = None →
  runs (stage_named_bytes self name enc) w
    (with_files (<[name := staged_file (us_owner self) enc]> (w_now w)) (w_now w :: w_past w) w)
    (mkStaged name (Some name) true).
Proof.
  intros [Hs _ Hc] Hn. eapply runs_bind.
  { apply runs_failing, runs_atomic; [done|]. by rewrite Hn. }
  apply runs_unless_ok. eapply runs_bind; [apply runs_lift|].
  eapply runs_bind; [by apply runs_failing, runs_on_staged|].
  eapply runs_bind.
  { eapply runs_inspect_private_file; [done|apply lookup_insert_eq|by split_and!|].
    by intros n [= <-]. }
  eapply runs_bind; [apply runs_lift|].
  eapply runs_bind; [by apply runs_failing, runs_write_all|].
  eapply runs_bind; [by apply runs_failing, runs_on_staged|].
  eapply runs_bind.
  { eapply runs_inspect_private_file; [done|apply lookup_insert_eq|by split_and!|].
    by intros n [= <-]. }
  unfold runs, staged_file. simpl. by rewrite Hc.
Qed.

Lemma runs_publish sg no_replace f w :
  w_script w = [] → sg_name sg = STAGED_DOCUMENT → w_now w !! STAGED_DOCUMENT = Some f →
  (∀ old, w_now w !! CURRENT_DOCUMENT = Some old → no_replace = false ∧ f_type old = RegularFile) →
  runs (always_drop (publish_staged sg no_replace)) w
    (with_files (published (w_now w) f) [] w) ().
Proof.
  intros Hs Hsg Hf Hold. unfold always_drop. eapply runs_bind.
  { unfold publish_staged, publish_named_staged. rewrite Hsg. unfold runs at 1, catch.
    assert (runs (renameat STAGED_DOCUMENT CURRENT_DOCUMENT no_replace) w
      (change_entries (published (w_now w) f) w) ()) as Hren.
    { apply runs_atomic; [done|]. rewrite Hf.
      destruct (w_now w !! CURRENT_DOCUMENT) as [old|]; [|done].
      destruct (Hold old eq_refl) as [-> Ht]. by rewrite Ht. }
    apply (runs_failing (λ error, map_publish_error error no_replace)) in Hren. rewrite Hren.
    rewrite runs_synchronize_directory by done. done. }
  done.
Qed.

Lemma runs_recover_locked_clean o w :
  served (us_owner self) w → w_now w !! STAGED_DOCUMENT = None →
  runs (load_named self CURRENT_DOCUMENT) w w o →
  runs (recover_locked self) w w (mkRecovery RecoveryClean (sd_revision <$> o)).
Proof.
  intros Hsv Hnone Hload.
  assert (runs (load_named self STAGED_DOCUMENT) w w None) as Hstaged
    by (apply runs_load_named; [done|by rewrite Hnone..]).
  apply (runs_bind _ _ w w w (PlanClean (sd_revision <$> o))); [|apply runs_lift].
  eapply runs_bind; [exact Hstaged|]. eapply runs_bind; [exact Hload|apply runs_lift].
Qed.

Lemma encode_length d b : encode_personal_worker_store_document d = Ok b →
  N.of_nat (length b) ≤ MAX_PERSONAL_WORKER_STORE_BYTES.
Proof. unfold encode_personal_worker_store_document. intros H. inv_ok H. injection H as <-. by bprop. Qed.

Lemma lookup_published now f g name :
  name ≠ CURRENT_DOCUMENT → name ≠ STAGED_DOCUMENT →
  published (<[STAGED_DOCUMENT := g]> now) f !! name = now !! name.
Proof.
  intros H1 H2. unfold published.
  by rewrite lookup_insert_ne, lookup_delete_ne, lookup_insert_ne by done.
Qed.

Lemma healthy_published w nb :
  healthy w → N.of_nat (length nb) ≤ MAX_PERSONAL_WORKER_STORE_BYTES →
  healthy (with_locked false (with_files
    (published (<[STAGED_DOCUMENT := staged_file (us_owner self) nb]> (w_now w))
      (staged_file (us_owner self) nb)) [] w)).
Proof.
  intros [Hsv _ (f & Hf & Hpf & Hbf) Hsib _] Hlen. split; simpl.
  - by destruct Hsv.
  - done.
  - exists f. by rewrite lookup_published.
  - intros name Hname. rewrite lookup_published; [by apply Hsib|..];
      intros ->; by repeat (apply elem_of_cons in Hname as [Hname|Hname]; [discriminate|]); apply elem_of_nil in Hname.
  - unfold published. rewrite lookup_insert_eq. intros g [= <-]. by split; [split_and!|].
Qed.

(** A replacement that follows the protocol gets through: when the store
    is in order and every call is served, replacing the settled document by a
    valid successor that fits the size limit returns its receipt, and leaves the
    store in order for the next writer. *)
Theorem replacement_succeeds (w : World) (d0 d : PersonalWorkerStoreDocument) (nb : bytes)
    (Hok : healthy w) (Hset : unix_settled w (Some d0)) (Hwf : document_wf d0)
    (Hsucc : validate_successor_of d d0 = Ok ())
    (Hnb : encode_personal_worker_store_document d = Ok nb) :
  ∃ w', replace_if_revision self (sd_revision d0) d w
      = (w', Done (Ok (mkWriteReceipt WriteReplaced (sd_revision d) (N.of_nat (length nb))))) ∧
    healthy w'.
Proof.
  destruct Hset as ([b0|] & Henc & [Hh Hnone] & _); [|done]. destruct Hh as (f0 & Hf0 & Hb0 & _).
  pose proof (hl_current w Hok) as Hcur. destruct (Hcur f0 Hf0) as [Hp0 _].
  set (w1 := with_locked true w). set (w2 := with_files (w_now w1) [] w1).
  assert (served (us_owner self) w1) as Hsv1 by by destruct (hl_served w Hok).
  assert (served (us_owner self) w2) as Hsv2 by by destruct Hsv1.
  assert (runs (load_named self CURRENT_DOCUMENT) w2 w2 (Some d0)) as Hload.
  { apply runs_load_named; [done..|]. simpl. rewrite Hf0. simpl. rewrite Hb0.
    by rewrite (decode_encode d0 b0). }
  eexists. split; [|exact (healthy_published w nb Hok (encode_length d nb Hnb))].
  apply (runs_locked _ w (with_locked true (with_files (published
    (<[STAGED_DOCUMENT := staged_file (us_owner self) nb]> (w_now w))
    (staged_file (us_owner self) nb)) [] w))); [done| |by destruct Hsv2].
  eapply runs_bind; [by apply runs_refuse_unsettled; [|apply (hl_siblings w Hok)|]|].
  eapply runs_bind; [by apply runs_recover_locked_clean|].
  eapply runs_bind; [done|]. eapply runs_bind; [apply runs_lift|].
  rewrite N.eqb_refl. simpl. rewrite Hsucc, Hnb.
  do 2 (eapply runs_bind; [apply runs_lift|]).
  eapply runs_bind.
  { unfold stage_document. rewrite Hnb. eapply runs_bind; [apply runs_lift|].
    by apply runs_stage_named_bytes. }
  eapply runs_bind; [|apply runs_lift].
  eapply (runs_publish _ _ _ (with_files _ (w_now w :: []) w2));
    [by destruct Hsv2|done|apply lookup_insert_eq|].
  simpl. rewrite lookup_insert_ne by done. rewrite Hf0. intros old [= <-]. split; [done|apply Hp0].
Qed.

(** ** A recovery without faults *)

Lemma runs_synchronize_existing_staged d f w :
  served (us_owner self) w → w_now w !! STAGED_DOCUMENT = Some f →
  private_file (us_owner self) f →
  N.of_nat (length (f_bytes f)) ≤ MAX_PERSONAL_WORKER_STORE_BYTES →
  decode_personal_worker_store_document (f_bytes f) = Ok d →
  runs (synchronize_existing_staged self d) w
    (with_files (<[STAGED_DOCUMENT := stabilised f]> (w_now w)) (w_past w) w) ().
Proof.
  intros [Hs _ _] Hf Hp Hlen Hd.
  eapply runs_bind; [apply runs_failing; by eapply runs_open_read; [..|apply Hp]|].
  eapply runs_bind; [by eapply runs_inspect_private_file|].
  eapply runs_bind; [apply runs_failing, runs_atomic; [done|unfold on_file; by rewrite Hf]|].
  rewrite take_upto_short by lia. rewrite (proj2 (N.ltb_ge _ _) Hlen), Hd. simpl.
  rewrite bool_decide_eq_true_2 by done. simpl.
  eapply runs_bind; [apply runs_failing, runs_atomic; [done|unfold on_file; by rewrite Hf]|].
  eapply runs_inspect_private_file; [done|apply lookup_insert_eq|done|]. by intros n [= <-].
Qed.

(** Recovery finishes an interrupted replacement: when the store is in
    order and every call is served, and the stage holds the whole text of a
    valid successor of the document, recovery returns having published it. *)
Theorem recovery_finishes (w : World) (d0 d : PersonalWorkerStoreDocument) (f0 f : File)
    (Hok : healthy w) (Hwf0 : document_wf d0) (Hwf : document_wf d)
    (Hf0 : w_now w !! CURRENT_DOCUMENT = Some f0)
    (Henc0 : encode_personal_worker_store_document d0 = Ok (f_bytes f0))
    (Hf : w_now w !! STAGED_DOCUMENT = Some f) (Hpriv : private_file (us_owner self) f)
    (Henc : encode_personal_worker_store_document d = Ok (f_bytes f))
    (Hsucc : validate_successor_of d d0 = Ok ()) :
  ∃ w', recover self w = (w', Done (Ok (mkRecovery RecoveryPublishedStaged (Some (sd_revision d))))) ∧
    unix_settled w' (Some d).
Proof.
  pose proof (hl_current w Hok) as Hcur. destruct (Hcur f0 Hf0) as [Hp0 _].
  set (w1 := with_locked true w). set (w2 := with_files (w_now w1) [] w1).
  assert (served (us_owner self) w1) as Hsv1 by by destruct (hl_served w Hok).
  assert (served (us_owner self) w2) as Hsv2 by by destruct Hsv1.
  pose proof (sv_script _ _ Hsv2) as Hs2. pose proof (encode_length _ _ Henc) as Hlen.
  assert (runs (load_named self CURRENT_DOCUMENT) w2 w2 (Some d0)) as Hload0.
  { apply runs_load_named; [done..|]. simpl. rewrite Hf0. simpl. by rewrite (decode_encode d0). }
  assert (runs (load_named self STAGED_DOCUMENT) w2 w2 (Some d)) as Hload.
  { apply runs_load_named; [done|simpl; rewrite Hf; by intros g [= <-]|].
    simpl. rewrite Hf. simpl. by rewrite (decode_encode d). }
  assert (sd_revision d <=? sd_revision d0 = false) as Hrev.
  { apply validate_successor_of_iff in Hsucc as [[-> _]%StoreRevision_next_Ok _ _ _ _].
    apply N.leb_gt. lia. }
  set (now' := <[STAGED_DOCUMENT := stabilised f]> (w_now w)).
  exists (with_locked false (with_files (published now' (stabilised f)) [] w)). split.
  - apply (runs_locked _ w (with_locked true (with_files (published now' (stabilised f)) [] w)));
      [done| |by destruct Hsv2].
    eapply runs_bind; [by apply runs_refuse_unsettled; [|apply (hl_siblings w Hok)|]|].
    apply (runs_bind _ _ w2 w2 _ (PlanPublishStaged (sd_revision d) false)).
    { eapply runs_bind; [exact Hload|]. eapply runs_bind; [exact Hload0|].
      simpl. rewrite Hrev, Hsucc. eapply runs_bind; apply runs_lift. }
    eapply runs_bind; [exact Hload|]. eapply runs_bind; [apply runs_lift|].
    apply (runs_bind _ _ w2 (with_files now' [] w2) _ ()).
    { apply (runs_synchronize_existing_staged d f w2); [done..|]. by apply decode_encode. }
    eapply runs_bind; [|apply runs_lift].
    eapply (runs_publish _ _ _ (with_files now' [] w2)); [done|done|apply lookup_insert_eq|].
    simpl. unfold now'. rewrite lookup_insert_ne by done. rewrite Hf0. intros old [= <-].
    split; [done|apply Hp0].
  - exists (Some (f_bytes f)). split; [done|]. split; [|constructor]. by apply published_clean.
Qed.

(** ** A stage that does not decode *)

Lemma wp_recover_locked_torn now φ f w :
  now !! STAGED_DOCUMENT = Some f →
  (∀ d, decode_personal_worker_store_document (f_bytes f) ≠ Ok d) → St now φ w →
  wp (recover_locked self) (ensures (St now φ) (λ _ _, False)) w.
Proof.
  intros Hf Htorn Hst. eapply (wp_bind _ _ _ (λ _ _, False)); [|done].
  eapply (wp_bind _ _ _ (λ _ _, False)); [|done].
  eapply wp_ensures; [by apply wp_load_named|done|].
  intros [d|] w' [_ Hd]; simpl in Hd; [|congruence].
  destruct Hd as (g & Hg & Hd). apply (Htorn d). congruence.
Qed.

Lemma wp_locked_torn {A} (body : io PersonalWorkerStoreError A) now φ w :
  (∀ w', St now φ w' → wp body (ensures (St now φ) (λ _ _, False)) w') → St now φ w →
  wp (locked self (_ ← refuse_unsettled self; body)) (ensures (St now φ) (λ _ _, False)) w.
Proof.
  intros Hbody Hst. eapply wp_bind_quiet; [solve_quiet|done..|]. intros _ w1 Hst1.
  apply wp_catch. eapply wp_mono.
  { eapply (wp_bind_quiet _ _ now φ (St now φ)); [solve_quiet|done..|by intros _]. }
  intros [r|] w3 Hr; [|done]. apply wp_catch. eapply wp_mono; [apply quiet_funlock|].
  intros out w4 Hk. assert (St now φ w4)
    by (destruct r; [done|exact (keeps_St _ _ _ _ Hr Hk)..]).
  destruct out; [|done]. apply wp_lift. by destruct r.
Qed.

Lemma torn_outcome {A} (m : io PersonalWorkerStoreError A) w :
  wp m (ensures (St (w_now w) (λ _, True)) (λ _ _, False)) w →
  ∀ w' out, m w = (w', out) → w_now w' = w_now w ∧ ∀ a, out ≠ Done (Ok a).
Proof.
  unfold wp. intros Hm w' out Hrun. rewrite Hrun in Hm.
  destruct out as [[a|e|]|]; [done|by destruct Hm..].
Qed.

(** (C37) A stage that does not decode, such as one a stop cut short, blocks the
    store: recovery, replacement and creation all fail whatever else happens,
    and none of them removes it or touches any file, so that the document of
    before stays in place. *)
Theorem torn_stage_blocks_writers (w : World) (f : File) (revision : N)
    (d : PersonalWorkerStoreDocument)
    (Hf : w_now w !! STAGED_DOCUMENT = Some f)
    (Htorn : ∀ d', decode_personal_worker_store_document (f_bytes f) ≠ Ok d') :
  (∀ w' out, recover self w = (w', out) →
     w_now w' = w_now w ∧ ∀ a, out ≠ Done (Ok a)) ∧
  (∀ w' out, replace_if_revision self revision d w = (w', out) →
     w_now w' = w_now w ∧ ∀ a, out ≠ Done (Ok a)) ∧
  (∀ w' out, create self d w = (w', out) →
     w_now w' = w_now w ∧ ∀ a, out ≠ Done (Ok a)).
Proof.
  assert (St (w_now w) (λ _, True) w) as Hst by (split; [done|by apply Forall_true]).
  assert (∀ w', St (w_now w) (λ _, True) w' →
    wp (recover_locked self) (ensures (St (w_now w) (λ _, True)) (λ _ _, False)) w') as Hrec
    by (intros; by eapply wp_recover_locked_torn).
  split_and!; apply torn_outcome.
  - by apply wp_locked_torn.
  - apply wp_locked_torn; [|done]. intros w1 Hst1.
    eapply (wp_bind _ _ _ (λ _ _, False)); [by apply Hrec|done].
  - unfold create. destruct (not_initial d); [by apply wp_lift|].
    apply wp_locked_torn; [|done]. intros w1 Hst1.
    eapply (wp_bind _ _ _ (λ _ _, False)); [by apply Hrec|done].
Qed.
End progress.

(** ** The theorems at the sample store *)

#[local] Existing Instances sample_serde sample_document_serde sample_document_serde_laws sample_lima.

Lemma sample_healthy script : script = [] → healthy sample_unix (sample_world "1" script).
Proof.
  intros ->. split.
  - by split; [|exists sample_dir|].
  - done.
  - by exists (sample_file []).
  - intros name Hname. repeat (apply elem_of_cons in Hname as [->|Hname]; [done|]).
    by apply elem_of_nil in Hname.
  - intros f Hf. injection (Hf : Some (sample_file (sample_bytes "1")) = Some f) as <-.
    split; [by split_and!|]. vm_compute. discriminate.
Qed.

Lemma replacement_succeeds_witness :
  ∃ w', replace_if_revision sample_unix 1 sample_document_later (sample_world "1" [])
      = (w', Done (Ok (mkWriteReceipt WriteReplaced 2 2))) ∧ healthy sample_unix w'.
Proof.
  exact (replacement_succeeds sample_unix (sample_world "1" []) sample_document
    sample_document_later (sample_bytes "2") (sample_healthy [] eq_refl)
    (sample_world_settled []) (proj2 (decode_Ok _ _ sample_decodes))
    sample_later_succeeds sample_later_encodes).
Defined.

(** The sample store with a text staged. *)
Definition sample_staged (text : bytes) : World :=
  with_files (<[STAGED_DOCUMENT := sample_file text]> (w_now (sample_world "1" []))) []
    (sample_world "1" []).

Lemma sample_staged_healthy text : healthy sample_unix (sample_staged text).
Proof.
  destruct (sample_healthy [] eq_refl) as [Hsv Hl Hlock Hsib Hcur].
  split; [by destruct Hsv|done|..].
  - destruct Hlock as (f & Hf & H). exists f. by split; [|done].
  - intros name Hname. unfold sample_staged. simpl.
    rewrite lookup_insert_ne; [by apply Hsib|]. intros <-.
    by repeat (apply elem_of_cons in Hname as [Hname|Hname]; [discriminate|]);
      apply elem_of_nil in Hname.
  - exact Hcur.
Qed.

Lemma recovery_finishes_witness :
  ∃ w', recover sample_unix (sample_staged (sample_bytes "2"))
      = (w', Done (Ok (mkRecovery RecoveryPublishedStaged (Some 2)))) ∧
    unix_settled w' (Some sample_document_later).
Proof.
  exact (recovery_finishes sample_unix (sample_staged (sample_bytes "2")) sample_document
    sample_document_later (sample_file (sample_bytes "1")) (sample_file (sample_bytes "2"))
    (sample_staged_healthy _) (proj2 (decode_Ok _ _ sample_decodes))
    (proj2 (decode_Ok _ _ sample_later_decodes)) eq_refl
    (proj1 (decode_Ok _ _ sample_decodes)) eq_refl ltac:(by split_and!)
    sample_later_encodes sample_later_succeeds).
Defined.

Lemma sample_torn d : decode_personal_worker_store_document (sample_text "2") ≠ Ok d.
Proof. by vm_compute. Qed.

Lemma torn_stage_blocks_writers_witness :
  (w_now (recover sample_unix (sample_staged (sample_text "2"))).1
     = w_now (sample_staged (sample_text "2")) ∧
   ∀ a, (recover sample_unix (sample_staged (sample_text "2"))).2 ≠ Done (Ok a)) ∧
  (w_now (replace_if_revision sample_unix 1 sample_document (sample_staged (sample_text "2"))).1
     = w_now (sample_staged (sample_text "2")) ∧
   ∀ a, (replace_if_revision sample_unix 1 sample_document
           (sample_staged (sample_text "2"))).2 ≠ Done (Ok a)).
Proof.
  pose proof (torn_stage_blocks_writers sample_unix (sample_staged (sample_text "2"))
    (sample_file (sample_text "2")) 1 sample_document eq_refl sample_torn) as [Hr [Hp _]].
  split; [apply Hr|apply Hp]; apply surjective_pairing.
Defined.
