(* ===== verification/ScaleSetProtocol.v ===== *)
(** * Runner scale-set identities

    [src/src/github_scale_set_protocol.rs] and the identifier types of
    [src/src/disposable_worker_reconciler.rs]: the names, numbers and results
    the GitHub service and the controller exchange about one disposable
    runner, and the events that report on its job. *)

From S2P Require Import Prelude Artifact ExecutionAdmission.

Local Open Scope N_scope.

Definition GITHUB_SCALE_SET_PROTOCOL_SCHEMA_VERSION : N := 1.
Definition MAX_RUNNER_NAME_LEN : N := 96.
Definition MAX_JOB_ID_LEN : N := 256.
Definition MAX_JOB_RESULT_LEN : N := 128.

Record GitHubScaleSetProtocolError := mkProtocolError {
  spe_field : string;
  spe_code : string;
  spe_message : string;
}.

Notation ScaleSetRunnerName := string (only parsing).
Notation ScaleSetRunnerId := N (only parsing).
Notation ScaleSetRunnerRequestId := N (only parsing).
Notation ScaleSetJobId := string (only parsing).
Notation ScaleSetJobResult := string (only parsing).

(** ** Strings *)

Definition is_ascii_graphic (c : ascii) : bool := byte_in 33 126 c.

(** [char::is_whitespace] on ASCII. *)
Definition is_ascii_whitespace (c : ascii) : bool := byte_in 9 13 c || Ascii.eqb c " "%char.

Definition first_byte (s : string) : option ascii :=
  match s with
  | EmptyString => None
  | String c _ => Some c
  end.

Fixpoint last_byte (s : string) : option ascii :=
  match s with
  | EmptyString => None
  | String c EmptyString => Some c
  | String _ s => last_byte s
  end.

(** [value.starts_with(c)] and [value.ends_with(c)] for an ASCII [c]. *)
Definition starts_with (c : ascii) (s : string) : bool := is_some_and (Ascii.eqb c) (first_byte s).
Definition ends_with (c : ascii) (s : string) : bool := is_some_and (Ascii.eqb c) (last_byte s).

(** [value.trim() != value].  White space beyond ASCII is left to the test of
    the bytes that follows each use, which refuses it with the same error. *)
Definition has_edge_whitespace (s : string) : bool :=
  is_some_and is_ascii_whitespace (first_byte s) || is_some_and is_ascii_whitespace (last_byte s).

(** ** Constructors *)

Definition ScaleSetRunnerName_parse (value : string)
    : result GitHubScaleSetProtocolError ScaleSetRunnerName :=
  if str_is_empty value
     || (MAX_RUNNER_NAME_LEN <? str_len value)
     || negb (bytes_all (λ byte, is_ascii_lowercase byte || is_ascii_digit byte
                                 || Ascii.eqb byte "-"%char) value)
     || starts_with "-"%char value
     || ends_with "-"%char value
  then Err (mkProtocolError "runner_name" "invalid_runner_name"
         "runner name must be bounded lowercase ASCII with interior hyphens only")
  else Ok value.

Definition ScaleSetRunnerId_new (value : N) : result GitHubScaleSetProtocolError ScaleSetRunnerId :=
  if value =? 0
  then Err (mkProtocolError "runner_id" "invalid_runner_id" "runner ID must be greater than zero")
  else Ok value.

Definition ScaleSetRunnerRequestId_new (value : N)
    : result GitHubScaleSetProtocolError ScaleSetRunnerRequestId :=
  if value =? 0
  then Err (mkProtocolError "runner_request_id" "invalid_runner_request_id"
         "runner request ID must be greater than zero")
  else Ok value.

Definition ScaleSetJobId_parse (value : string)
    : result GitHubScaleSetProtocolError ScaleSetJobId :=
  if str_is_empty value
     || (MAX_JOB_ID_LEN <? str_len value)
     || negb (bytes_all is_ascii_graphic value)
  then Err (mkProtocolError "job_id" "invalid_job_id"
         "Scale Set job ID must be bounded non-whitespace printable ASCII")
  else Ok value.

Definition ScaleSetJobResult_parse (value : string)
    : result GitHubScaleSetProtocolError ScaleSetJobResult :=
  if str_is_empty value
     || (MAX_JOB_RESULT_LEN <? str_len value)
     || has_edge_whitespace value
     || negb (bytes_all (λ byte, is_ascii_graphic byte || Ascii.eqb byte " "%char) value)
  then Err (mkProtocolError "job_result" "invalid_job_result"
         "Scale Set job result must be bounded printable ASCII without edge whitespace")
  else Ok value.

Record ScaleSetRunnerReference := mkRunner {
  rr_id : ScaleSetRunnerId;
  rr_name : ScaleSetRunnerName;
}.

#[export] Instance runner_reference_eq_dec : EqDecision ScaleSetRunnerReference.
Proof. solve_decision. Defined.

Inductive ScaleSetJobEvent :=
| JobStarted (runner : ScaleSetRunnerReference) (job_id : ScaleSetJobId)
| JobCompleted (runner : option ScaleSetRunnerReference) (job_id : ScaleSetJobId)
    (job_result : ScaleSetJobResult).

Definition event_runner (self : ScaleSetJobEvent) : option ScaleSetRunnerReference :=
  match self with
  | JobStarted runner _ => Some runner
  | JobCompleted runner _ _ => runner
  end.

Definition event_job_id (self : ScaleSetJobEvent) : ScaleSetJobId :=
  match self with
  | JobStarted _ job_id | JobCompleted _ job_id _ => job_id
  end.

(** ** Identifiers of an attempt *)

Notation DisposableAttemptId := string (only parsing).
Notation CapacityClaimId := string (only parsing).
Notation DisposableVmId := string (only parsing).
Notation DisposableVmIdentity := string (only parsing).

Record DisposableWorkerReconcilerError := mkReconcilerError {
  wre_field : string;
  wre_code : string;
  wre_message : string;
}.

(** [validate_identifier] of the reconciler. *)
Definition worker_validate_identifier (field value : string)
    : result DisposableWorkerReconcilerError () :=
  if str_is_empty value
     || (MAX_IDENTIFIER_LEN <? str_len value)
     || negb (bytes_all (λ byte, is_ascii_lowercase byte || is_ascii_digit byte
                                 || Ascii.eqb byte "-"%char) value)
     || starts_with "-"%char value
     || ends_with "-"%char value
  then Err (mkReconcilerError field "invalid_identifier"
         "identifier must be bounded lowercase ASCII with interior hyphens only")
  else Ok ().

(** [parse] of [identifier!] in the reconciler. *)
Definition worker_identifier_parse (field value : string)
    : result DisposableWorkerReconcilerError string :=
  _ ← worker_validate_identifier field value; Ok value.

Definition DisposableAttemptId_parse := worker_identifier_parse "attempt_id".
Definition CapacityClaimId_parse := worker_identifier_parse "capacity_claim_id".
Definition DisposableVmId_parse := worker_identifier_parse "vm_id".

Definition DisposableVmIdentity_parse (value : string)
    : result DisposableWorkerReconcilerError DisposableVmIdentity :=
  map_err (λ _, mkReconcilerError "vm_identity" "invalid_vm_identity"
                  "disposable VM identity digest is invalid")
    (Sha256Digest_parse value).
