(* ===== verification/AttemptState.v ===== *)
(** * The state of a disposable attempt

    [src/src/disposable_attempt_state.rs]: the durable record of one
    disposable virtual machine and the runner in it, from the reservation of
    its capacity to the release.  Each transition builds a successor, validates
    it and returns it; a transition that is already reflected in the record
    returns the record unchanged.  The actions of the catalog
    ([src/src/disposable_attempt_catalog.rs]) name the transitions. *)

From S2P Require Import Prelude Artifact ExecutionAdmission ScaleSetProtocol.

Local Open Scope N_scope.

Definition DISPOSABLE_ATTEMPT_STATE_SCHEMA_VERSION : N := 6.
Definition MAX_DISPOSABLE_ATTEMPT_STATE_BYTES : N := 16384.
Definition MAX_DISPOSABLE_ATTEMPT_REVISION : N := 1000000000000.

(** ** Errors *)

Record DisposableAttemptStateError := mkAttemptError {
  ase_field : string;
  ase_code : string;
  ase_message : string;
}.

Definition invalid_attempt_document (message : string) : DisposableAttemptStateError :=
  mkAttemptError "document" "invalid_document" message.

Definition invalid_transition (message : string) : DisposableAttemptStateError :=
  mkAttemptError "phase" "invalid_transition" message.

Definition identity_drift (message : string) : DisposableAttemptStateError :=
  mkAttemptError "identity" "identity_drift" message.

(** ** Data *)

Notation DisposableAttemptRevision := N (only parsing).

Definition AttemptRevision_new (value : N)
    : result DisposableAttemptStateError DisposableAttemptRevision :=
  if negb (in_range 1 MAX_DISPOSABLE_ATTEMPT_REVISION value)
  then Err (mkAttemptError "revision" "invalid_revision"
         "disposable attempt revision is outside the bounded positive range")
  else Ok value.

Definition AttemptRevision_next (self : DisposableAttemptRevision)
    : result DisposableAttemptStateError DisposableAttemptRevision :=
  let cannot_advance := mkAttemptError "revision" "revision_conflict"
    "disposable attempt revision cannot advance" in
  value ← ok_or (checked_add u64_max self 1) cannot_advance;
  map_err (λ _, cannot_advance) (AttemptRevision_new value).

Inductive DisposableAttemptPhase :=
| PhaseReserved
| PhaseUnprovisionedReleasing
| PhaseProvisioning
| PhaseCloneAuthorized
| PhaseCloneStarted
| PhaseRegistering
| PhaseWaiting
| PhaseAssigned
| PhaseRunning
| PhaseTerminal
| PhaseDestroying
| PhaseDeregistering
| PhaseReleasing
| PhaseComplete.

#[export] Instance attempt_phase_eq_dec : EqDecision DisposableAttemptPhase.
Proof. solve_decision. Defined.

Record DisposableAttemptState := mkAttempt {
  at_schema_version : N;
  at_revision : DisposableAttemptRevision;
  at_attempt_id : DisposableAttemptId;
  at_capacity_claim_id : CapacityClaimId;
  at_vm_id : DisposableVmId;
  at_vm_identity : option DisposableVmIdentity;
  at_runner_name : ScaleSetRunnerName;
  at_runner_request_id : ScaleSetRunnerRequestId;
  at_runner_id : option ScaleSetRunnerId;
  at_jit_generation_started : bool;
  at_runner_start_started : bool;
  at_phase : DisposableAttemptPhase;
  at_github_job_id : option ScaleSetJobId;
  at_result : option ScaleSetJobResult;
  at_not_after : EpochMillis;
}.

#[export] Instance attempt_eq_dec : EqDecision DisposableAttemptState.
Proof. solve_decision. Defined.

Definition reserved (attempt_id : DisposableAttemptId) (capacity_claim_id : CapacityClaimId)
    (vm_id : DisposableVmId) (runner_name : ScaleSetRunnerName)
    (runner_request_id : ScaleSetRunnerRequestId) (not_after : EpochMillis)
    : DisposableAttemptState :=
  mkAttempt DISPOSABLE_ATTEMPT_STATE_SCHEMA_VERSION 1 attempt_id capacity_claim_id vm_id None
    runner_name runner_request_id None false false PhaseReserved None None not_after.

(** ** Validation *)

Definition revision_shape_valid (phase : DisposableAttemptPhase) (revision : N) : bool :=
  match phase with
  | PhaseReserved => revision =? 1
  | PhaseUnprovisionedReleasing => in_range 2 3 revision
  | PhaseCloneAuthorized => revision =? 2
  | PhaseCloneStarted => in_range 3 4 revision
  | PhaseProvisioning => false
  | PhaseRegistering => in_range 5 8 revision
  | PhaseWaiting => revision =? 9
  | PhaseAssigned => in_range 6 10 revision
  | PhaseRunning => in_range 9 11 revision
  | PhaseTerminal => in_range 5 12 revision
  | PhaseDestroying => 5 <=? revision
  | PhaseDeregistering => 6 <=? revision
  | PhaseReleasing => 7 <=? revision
  | PhaseComplete => in_range 2 4 revision || (8 <=? revision)
  end.

(** [matches!] on the revision and the checkpoints reached, while registering. *)
Definition registering_shape (revision : N) (jit runner start : bool) : bool :=
  match jit, runner, start with
  | false, false, false => revision =? 5
  | true, false, false => revision =? 6
  | true, true, false => revision =? 7
  | true, true, true => revision =? 8
  | _, _, _ => false
  end.

(** The same once a job is assigned. *)
Definition assigned_shape (revision : N) (jit runner start : bool) : bool :=
  match jit, runner, start with
  | false, false, false => revision =? 6
  | true, false, false => revision =? 7
  | true, true, false => revision =? 8
  | true, true, true => (revision =? 9) || (revision =? 10)
  | _, _, _ => false
  end.

Section operations.
Variable self : DisposableAttemptState.

(** The [match] of [validate] on the phase. *)
Definition validate_phase (revision : N) : result DisposableAttemptStateError () :=
  let vm := is_some (at_vm_identity self) in
  let runner := is_some (at_runner_id self) in
  let jit := at_jit_generation_started self in
  let start := at_runner_start_started self in
  let job := is_some (at_github_job_id self) in
  let res := is_some (at_result self) in
  match at_phase self with
  | PhaseReserved | PhaseUnprovisionedReleasing | PhaseCloneAuthorized =>
      if vm || runner || jit || start || job || res
      then Err (invalid_attempt_document
             "pre-clone attempt cannot carry VM, runner, or job evidence")
      else Ok ()
  | PhaseCloneStarted =>
      if negb (Bool.eqb (revision =? 3) (negb vm)) || runner || jit || start || job || res
      then Err (invalid_attempt_document
             "clone-started attempt has inconsistent VM, runner, or job evidence")
      else Ok ()
  | PhaseProvisioning =>
      Err (invalid_attempt_document
        "legacy provisioning phase is unsupported by the current schema")
  | PhaseRegistering =>
      if negb vm || job || res || (runner && negb jit)
         || negb (registering_shape revision jit runner start)
      then Err (invalid_attempt_document
             "registering attempt requires VM identity and no job terminal evidence")
      else Ok ()
  | PhaseWaiting =>
      if negb vm || negb runner || negb jit || negb start || job || res
      then Err (invalid_attempt_document
             "waiting attempt requires exact VM and runner identities and no assigned job")
      else Ok ()
  | PhaseAssigned =>
      if negb vm || negb job || res || (runner && negb jit)
         || negb (assigned_shape revision jit runner start)
      then Err (invalid_attempt_document
             "assigned attempt requires exact VM and job identities without terminal result")
      else Ok ()
  | PhaseRunning =>
      if negb vm || negb runner || negb job || negb jit || negb start || res
      then Err (invalid_attempt_document
             "running attempt requires exact VM, runner, and job identities")
      else Ok ()
  | PhaseTerminal =>
      if negb vm || negb job || negb res
      then Err (invalid_attempt_document
             "terminal attempt requires exact VM and job identities and result")
      else Ok ()
  | PhaseDestroying | PhaseDeregistering | PhaseReleasing =>
      if negb vm
      then Err (invalid_attempt_document "provisioned cleanup requires exact durable VM identity")
      else Ok ()
  | PhaseComplete => Ok ()
  end.

Definition validate : result DisposableAttemptStateError () :=
  let vm := is_some (at_vm_identity self) in
  let runner := is_some (at_runner_id self) in
  let jit := at_jit_generation_started self in
  let start := at_runner_start_started self in
  let job := is_some (at_github_job_id self) in
  let res := is_some (at_result self) in
  if negb (at_schema_version self =? DISPOSABLE_ATTEMPT_STATE_SCHEMA_VERSION)
  then Err (mkAttemptError "schema_version" "version_incompatible"
         "disposable attempt schema version is unsupported")
  else if res && negb job
  then Err (invalid_attempt_document "terminal result requires an exact Scale Set job identity")
  else if start && (negb jit || negb vm || negb runner)
  then Err (invalid_attempt_document
         "runner-start checkpoint requires JIT, VM, and runner identity evidence")
  else if jit && negb vm
  then Err (invalid_attempt_document "JIT checkpoint requires exact VM identity evidence")
  else if runner && negb jit
  then Err (invalid_attempt_document "runner identity requires the durable JIT checkpoint")
  else if is_some_and (λ r, negb start && negb (String.eqb r "canceled")) (at_result self)
  then Err (invalid_attempt_document "pre-start terminal evidence must be cancellation")
  else
    let revision := at_revision self in
    if negb (revision_shape_valid (at_phase self) revision)
    then Err (invalid_attempt_document
           "attempt phase conflicts with its durable revision history")
    else
      _ ← validate_phase revision;
      if bool_decide (at_phase self = PhaseComplete) && (revision <=? 4)
         && (vm || runner || jit || start || job || res)
      then Err (invalid_attempt_document
             "unprovisioned completion cannot carry external job or runner evidence")
      else if bool_decide (at_phase self = PhaseComplete) && (4 <? revision) && negb vm
      then Err (invalid_attempt_document
             "provisioned completion requires exact durable VM identity")
      else Ok ().
End operations.

(** ** Building a successor *)

Definition advance_with (self : DisposableAttemptState) (phase : DisposableAttemptPhase)
    (runner_id : option ScaleSetRunnerId) (github_job_id : option ScaleSetJobId)
    (job_result : option ScaleSetJobResult)
    : result DisposableAttemptStateError DisposableAttemptState :=
  revision ← AttemptRevision_next (at_revision self);
  let next := mkAttempt (at_schema_version self) revision (at_attempt_id self)
    (at_capacity_claim_id self) (at_vm_id self) (at_vm_identity self) (at_runner_name self)
    (at_runner_request_id self) runner_id (at_jit_generation_started self)
    (at_runner_start_started self) phase github_job_id job_result (at_not_after self) in
  _ ← validate next;
  Ok next.

Definition advance_phase (self : DisposableAttemptState)
    (expected phase : DisposableAttemptPhase)
    : result DisposableAttemptStateError DisposableAttemptState :=
  if bool_decide (at_phase self ≠ expected)
  then Err (invalid_transition "attempt phase does not match the required predecessor")
  else advance_with self phase (at_runner_id self) (at_github_job_id self) (at_result self).

(** [let mut next = self.clone()] with a new revision and one more field set. *)
Definition set_jit_generation_started (revision : DisposableAttemptRevision)
    (self : DisposableAttemptState) : DisposableAttemptState :=
  mkAttempt (at_schema_version self) revision (at_attempt_id self)
    (at_capacity_claim_id self) (at_vm_id self) (at_vm_identity self) (at_runner_name self)
    (at_runner_request_id self) (at_runner_id self) true
    (at_runner_start_started self) (at_phase self) (at_github_job_id self) (at_result self)
    (at_not_after self).

Definition set_runner_start_started (revision : DisposableAttemptRevision)
    (self : DisposableAttemptState) : DisposableAttemptState :=
  mkAttempt (at_schema_version self) revision (at_attempt_id self)
    (at_capacity_claim_id self) (at_vm_id self) (at_vm_identity self) (at_runner_name self)
    (at_runner_request_id self) (at_runner_id self) (at_jit_generation_started self)
    true (at_phase self) (at_github_job_id self) (at_result self) (at_not_after self).

Definition set_vm_identity (revision : DisposableAttemptRevision) (identity : DisposableVmIdentity)
    (self : DisposableAttemptState) : DisposableAttemptState :=
  mkAttempt (at_schema_version self) revision (at_attempt_id self)
    (at_capacity_claim_id self) (at_vm_id self) (Some identity) (at_runner_name self)
    (at_runner_request_id self) (at_runner_id self) (at_jit_generation_started self)
    (at_runner_start_started self) (at_phase self) (at_github_job_id self) (at_result self)
    (at_not_after self).

Definition validate_runner (self : DisposableAttemptState) (runner : ScaleSetRunnerReference)
    : result DisposableAttemptStateError ScaleSetRunnerId :=
  if bool_decide (rr_name runner ≠ at_runner_name self)
  then Err (identity_drift
         "observed runner name differs from the prechosen durable runner name")
  else if is_some_and (λ current, negb (current =? rr_id runner)) (at_runner_id self)
  then Err (identity_drift "observed runner ID differs from the durable runner ID")
  else Ok (rr_id runner).

Definition validate_job (self : DisposableAttemptState) (job_id : ScaleSetJobId)
    : result DisposableAttemptStateError () :=
  if is_some_and (λ current, negb (String.eqb current job_id)) (at_github_job_id self)
  then Err (identity_drift "observed Scale Set job ID differs from the durable job ID")
  else Ok ().

Definition has_clone_started_history (self : DisposableAttemptState) : bool :=
  let revision := at_revision self in
  match at_phase self with
  | PhaseCloneStarted | PhaseRegistering | PhaseWaiting | PhaseAssigned | PhaseRunning
  | PhaseTerminal => true
  | PhaseDestroying => 5 <=? revision
  | PhaseDeregistering => 6 <=? revision
  | PhaseReleasing => 7 <=? revision
  | PhaseComplete => 8 <=? revision
  | PhaseReserved | PhaseUnprovisionedReleasing | PhaseProvisioning | PhaseCloneAuthorized => false
  end.

(** ** Transitions *)

Definition begin_provisioning (_ : DisposableAttemptState)
    : result DisposableAttemptStateError DisposableAttemptState :=
  Err (invalid_transition "legacy provisioning cannot advance a current-schema attempt").

Definition authorize_clone (self : DisposableAttemptState) :=
  advance_phase self PhaseReserved PhaseCloneAuthorized.

Definition record_clone_started (self : DisposableAttemptState) :=
  advance_phase self PhaseCloneAuthorized PhaseCloneStarted.

Definition bind_vm_identity_after_clone (self : DisposableAttemptState)
    (identity : DisposableVmIdentity)
    : result DisposableAttemptStateError DisposableAttemptState :=
  if bool_decide (at_phase self ≠ PhaseCloneStarted)
     || negb (at_revision self =? 3)
     || is_some (at_vm_identity self)
  then Err (invalid_transition "VM identity can bind only to the first clone-started checkpoint")
  else
    revision ← AttemptRevision_next (at_revision self);
    let next := set_vm_identity revision identity self in
    _ ← validate next;
    Ok next.

Definition begin_unprovisioned_release (self : DisposableAttemptState)
    : result DisposableAttemptStateError DisposableAttemptState :=
  match at_phase self with
  | PhaseReserved | PhaseCloneAuthorized =>
      advance_with self PhaseUnprovisionedReleasing None None None
  | _ => Err (invalid_transition
           "only an attempt that has not started cloning may release without VM cleanup")
  end.

Definition complete_unprovisioned (self : DisposableAttemptState)
    : result DisposableAttemptStateError DisposableAttemptState :=
  match at_phase self with
  | PhaseReserved | PhaseCloneAuthorized | PhaseUnprovisionedReleasing =>
      advance_with self PhaseComplete None None None
  | _ => Err (invalid_transition "only an unprovisioned attempt may complete without cleanup")
  end.

Definition begin_registration (self : DisposableAttemptState) :=
  advance_phase self PhaseCloneStarted PhaseRegistering.

Definition is_registering_or_assigned (phase : DisposableAttemptPhase) : bool :=
  match phase with
  | PhaseRegistering | PhaseAssigned => true
  | _ => false
  end.

Definition record_jit_generation_started (self : DisposableAttemptState)
    : result DisposableAttemptStateError DisposableAttemptState :=
  if negb (is_registering_or_assigned (at_phase self)) || is_some (at_runner_id self)
  then Err (invalid_transition "JIT generation requires an unbound registering attempt")
  else if at_jit_generation_started self then Ok self
  else
    revision ← AttemptRevision_next (at_revision self);
    let next := set_jit_generation_started revision self in
    _ ← validate next;
    Ok next.

Definition record_registration (self : DisposableAttemptState) (runner : ScaleSetRunnerReference)
    : result DisposableAttemptStateError DisposableAttemptState :=
  if negb match at_phase self with
          | PhaseRegistering | PhaseAssigned | PhaseDestroying | PhaseDeregistering
          | PhaseReleasing => true
          | _ => false
          end
  then Err (invalid_transition
         "runner registration can only be recorded while registering or cleaning up")
  else if negb (at_jit_generation_started self)
  then Err (invalid_transition "runner registration requires the durable JIT checkpoint")
  else
    runner_id ← validate_runner self runner;
    if bool_decide (at_runner_id self = Some runner_id) then Ok self
    else advance_with self (at_phase self) (Some runner_id) (at_github_job_id self)
           (at_result self).

Definition record_runner_start_started (self : DisposableAttemptState)
    : result DisposableAttemptStateError DisposableAttemptState :=
  if negb (is_registering_or_assigned (at_phase self))
     || negb (at_jit_generation_started self)
     || negb (is_some (at_runner_id self))
  then Err (invalid_transition
         "runner start requires a checkpointed JIT request and exact registration")
  else if at_runner_start_started self then Ok self
  else
    revision ← AttemptRevision_next (at_revision self);
    let next := set_runner_start_started revision self in
    _ ← validate next;
    Ok next.

Definition record_runner_ready (self : DisposableAttemptState) (runner : ScaleSetRunnerReference)
    : result DisposableAttemptStateError DisposableAttemptState :=
  let cannot := Err (invalid_transition
    "runner readiness cannot advance the current attempt phase") in
  runner_id ← validate_runner self runner;
  if negb (at_runner_start_started self)
  then Err (invalid_transition "runner readiness requires the durable runner-start checkpoint")
  else
    let same := if bool_decide (at_runner_id self = Some runner_id) then Ok self else cannot in
    match at_phase self with
    | PhaseRegistering => advance_with self PhaseWaiting (Some runner_id) None None
    | PhaseAssigned =>
        if negb (is_some (at_runner_id self))
        then advance_with self PhaseAssigned (Some runner_id) (at_github_job_id self) None
        else same
    | PhaseWaiting | PhaseRunning | PhaseTerminal => same
    | _ => cannot
    end.

Definition record_assigned (self : DisposableAttemptState) (job_id : ScaleSetJobId)
    : result DisposableAttemptStateError DisposableAttemptState :=
  let cannot := Err (invalid_transition
    "job assignment cannot advance the current attempt phase") in
  _ ← validate_job self job_id;
  match at_phase self with
  | PhaseRegistering | PhaseWaiting =>
      advance_with self PhaseAssigned (at_runner_id self) (Some job_id) None
  | PhaseAssigned | PhaseRunning | PhaseTerminal =>
      if bool_decide (at_github_job_id self = Some job_id) then Ok self else cannot
  | _ => cannot
  end.

(** [record_running] in a cleanup phase. *)
Definition record_running_late (self : DisposableAttemptState) (runner_id : ScaleSetRunnerId)
    (job_id : ScaleSetJobId) : result DisposableAttemptStateError DisposableAttemptState :=
  let same := bool_decide (at_runner_id self = Some runner_id)
              && bool_decide (at_github_job_id self = Some job_id) in
  if negb (is_some (at_github_job_id self)) && negb (has_clone_started_history self)
  then Err (invalid_transition "late job evidence requires a durable clone-start checkpoint")
  else if is_some (at_result self)
  then if same then Ok self
       else Err (identity_drift "late job start conflicts with terminal cleanup evidence")
  else if same then Ok self
  else advance_with self (at_phase self) (Some runner_id) (Some job_id) None.

Definition record_running (self : DisposableAttemptState) (runner : ScaleSetRunnerReference)
    (job_id : ScaleSetJobId) : result DisposableAttemptStateError DisposableAttemptState :=
  let cannot := Err (invalid_transition "job start cannot advance the current attempt phase") in
  runner_id ← validate_runner self runner;
  if negb (at_runner_start_started self)
  then Err (invalid_transition "job start requires the durable runner-start checkpoint")
  else
    _ ← validate_job self job_id;
    match at_phase self with
    | PhaseRegistering | PhaseWaiting | PhaseAssigned =>
        advance_with self PhaseRunning (Some runner_id) (Some job_id) None
    | PhaseRunning | PhaseTerminal =>
        if bool_decide (at_runner_id self = Some runner_id)
           && bool_decide (at_github_job_id self = Some job_id)
        then Ok self else cannot
    | PhaseDestroying | PhaseDeregistering | PhaseReleasing | PhaseComplete =>
        record_running_late self runner_id job_id
    | _ => cannot
    end.

Definition is_cleanup (phase : DisposableAttemptPhase) : bool :=
  match phase with
  | PhaseDestroying | PhaseDeregistering | PhaseReleasing | PhaseComplete => true
  | _ => false
  end.

(** [record_terminal] once the result is known to be new. *)
Definition record_terminal_new (self : DisposableAttemptState)
    (observed_runner_id : option ScaleSetRunnerId) (job_id : ScaleSetJobId)
    (job_result : ScaleSetJobResult)
    : result DisposableAttemptStateError DisposableAttemptState :=
  if bool_decide (at_phase self = PhaseTerminal)
  then Err (identity_drift "terminal attempt is missing its validated result")
  else
    let cleanup := is_cleanup (at_phase self) in
    if cleanup && negb (is_some (at_github_job_id self)) && negb (has_clone_started_history self)
    then Err (invalid_transition
           "late terminal evidence requires a durable clone-start checkpoint")
    else if negb cleanup
            && negb match at_phase self with
                    | PhaseCloneStarted | PhaseRegistering | PhaseWaiting | PhaseAssigned
                    | PhaseRunning => true
                    | _ => false
                    end
    then Err (invalid_transition "terminal evidence cannot advance the current attempt phase")
    else
      runner_id ←
        match at_runner_id self, observed_runner_id with
        | Some current, Some observed =>
            if negb (current =? observed)
            then Err (identity_drift "terminal runner identity differs from the bound runner")
            else Ok (Some current)
        | Some current, None => Ok (Some current)
        | None, observed => Ok observed
        end;
      advance_with self (if cleanup then at_phase self else PhaseTerminal)
        runner_id (Some job_id) (Some job_result).

Definition record_terminal (self : DisposableAttemptState)
    (runner : option ScaleSetRunnerReference) (job_id : ScaleSetJobId)
    (job_result : ScaleSetJobResult)
    : result DisposableAttemptStateError DisposableAttemptState :=
  observed_runner_id ← traverse_option (validate_runner self) runner;
  _ ← validate_job self job_id;
  if negb (is_some observed_runner_id) && negb (is_some (at_github_job_id self))
  then Err (identity_drift
         "runnerless terminal evidence requires an already-bound job identity")
  else
    match at_result self with
    | Some current_result =>
        if bool_decide (at_github_job_id self = Some job_id)
           && String.eqb current_result job_result
           && is_none_or (λ id, bool_decide (at_runner_id self = Some id)) observed_runner_id
        then Ok self
        else Err (identity_drift "terminal evidence conflicts with the bound disposable attempt")
    | None => record_terminal_new self observed_runner_id job_id job_result
    end.

Definition begin_cleanup (self : DisposableAttemptState)
    : result DisposableAttemptStateError DisposableAttemptState :=
  match at_phase self with
  | PhaseReserved | PhaseCloneAuthorized | PhaseUnprovisionedReleasing | PhaseProvisioning =>
      Err (invalid_transition "cleanup requires durable clone or later external-object authority")
  | PhaseCloneStarted | PhaseRegistering | PhaseWaiting | PhaseAssigned | PhaseRunning
  | PhaseTerminal =>
      advance_with self PhaseDestroying (at_runner_id self) (at_github_job_id self)
        (at_result self)
  | PhaseDestroying | PhaseDeregistering | PhaseReleasing | PhaseComplete => Ok self
  end.

Definition advance_cleanup (self : DisposableAttemptState) (phase : DisposableAttemptPhase)
    : result DisposableAttemptStateError DisposableAttemptState :=
  if bool_decide (at_phase self = phase) then Ok self
  else
    let valid :=
      match at_phase self, phase with
      | PhaseDestroying, PhaseDeregistering
      | PhaseDeregistering, PhaseReleasing
      | PhaseReleasing, PhaseComplete => true
      | _, _ => false
      end in
    if negb valid
    then Err (invalid_transition "cleanup phase does not follow the durable attempt order")
    else advance_with self phase (at_runner_id self) (at_github_job_id self) (at_result self).

(** ** The successor test *)

Definition is_exact_successor_of (self current : DisposableAttemptState) : bool :=
  let matches (candidate : result DisposableAttemptStateError DisposableAttemptState) :=
    match candidate with
    | Ok candidate => bool_decide (candidate = self)
    | _ => false
    end in
  let runner := (λ id, mkRunner id (at_runner_name self)) <$> at_runner_id self in
  if matches (authorize_clone current)
     || matches (record_clone_started current)
     || matches (begin_unprovisioned_release current)
     || matches (complete_unprovisioned current)
     || matches (begin_registration current)
     || matches (record_jit_generation_started current)
     || matches (record_runner_start_started current)
     || matches (begin_cleanup current)
     || matches (advance_cleanup current (at_phase self))
  then true
  else if is_some_and (λ runner, matches (record_registration current runner)
                                 || matches (record_runner_ready current runner)) runner
  then true
  else
    match at_github_job_id self with
    | None => false
    | Some job_id =>
        matches (record_assigned current job_id)
        || is_some_and (λ runner, matches (record_running current runner job_id)) runner
        || is_some_and (λ job_result,
             matches (record_terminal current None job_id job_result)
             || is_some_and (λ runner,
                  matches (record_terminal current (Some runner) job_id job_result)) runner)
             (at_result self)
    end.

(** ** Catalog actions *)

Inductive DisposableAttemptCatalogAction :=
| BeginProvisioning
| AuthorizeClone
| RecordCloneStarted
| BeginUnprovisionedRelease
| CompleteUnprovisioned
| BeginRegistration
| RecordJitGenerationStarted
| RecordRegistration (runner : ScaleSetRunnerReference)
| RecordRunnerStartStarted
| RecordRunnerReady (runner : ScaleSetRunnerReference)
| RecordAssigned (job_id : ScaleSetJobId)
| RecordRunning (runner : ScaleSetRunnerReference) (job_id : ScaleSetJobId)
| RecordTerminal (runner : option ScaleSetRunnerReference) (job_id : ScaleSetJobId)
    (job_result : ScaleSetJobResult)
| BeginCleanup
| AdvanceCleanup (phase : DisposableAttemptPhase).

(** The [match] of [apply_action]. *)
Definition transition (current : DisposableAttemptState) (action : DisposableAttemptCatalogAction)
    : result DisposableAttemptStateError DisposableAttemptState :=
  match action with
  | BeginProvisioning => begin_provisioning current
  | AuthorizeClone => authorize_clone current
  | RecordCloneStarted => record_clone_started current
  | BeginUnprovisionedRelease => begin_unprovisioned_release current
  | CompleteUnprovisioned => complete_unprovisioned current
  | BeginRegistration => begin_registration current
  | RecordJitGenerationStarted => record_jit_generation_started current
  | RecordRegistration runner => record_registration current runner
  | RecordRunnerStartStarted => record_runner_start_started current
  | RecordRunnerReady runner => record_runner_ready current runner
  | RecordAssigned job_id => record_assigned current job_id
  | RecordRunning runner job_id => record_running current runner job_id
  | RecordTerminal runner job_id job_result => record_terminal current runner job_id job_result
  | BeginCleanup => begin_cleanup current
  | AdvanceCleanup phase => advance_cleanup current phase
  end.
