(* ===== verification/AttemptLifecycle.v ===== *)
(** * The lifecycle of a disposable attempt

    The transition system of [AttemptState]: its invariant, what a chain of
    transitions keeps, which transitions may be repeated, how an attempt gets
    to its end, and that the successor test decides the step relation. *)

From S2P Require Import Prelude Artifact ExecutionAdmission ScaleSetProtocol AttemptState.

Local Open Scope N_scope.

(** ** The step relation *)

(** One durable step: a catalog action, or the identity of the machine bound by
    the clone runtime. *)
Inductive attempt_step (s s' : DisposableAttemptState) : Prop :=
| attempt_acts action : transition s action = Ok s' → attempt_step s s'
| attempt_binds identity : bind_vm_identity_after_clone s identity = Ok s' → attempt_step s s'.

(** What no step may change. *)
Definition attempt_key (s : DisposableAttemptState) :=
  (at_schema_version s, at_attempt_id s, at_capacity_claim_id s, at_vm_id s, at_runner_name s,
   at_runner_request_id s, at_not_after s).

Definition phase_rank (phase : DisposableAttemptPhase) : N :=
  match phase with
  | PhaseReserved => 0
  | PhaseCloneAuthorized => 1
  | PhaseUnprovisionedReleasing | PhaseProvisioning => 2
  | PhaseCloneStarted => 3
  | PhaseRegistering => 4
  | PhaseWaiting => 5
  | PhaseAssigned => 6
  | PhaseRunning => 7
  | PhaseTerminal => 8
  | PhaseDestroying => 9
  | PhaseDeregistering => 10
  | PhaseReleasing => 11
  | PhaseComplete => 12
  end.

(** [o'] keeps what [o] has recorded. *)
Definition keeps {A} (o o' : option A) : Prop := ∀ a, o = Some a → o' = Some a.

(** What a step from a valid record guarantees. *)
Record step_facts (s s' : DisposableAttemptState) : Prop := {
  sf_key : attempt_key s' = attempt_key s;
  sf_valid : validate s' = Ok ();
  sf_phase : phase_rank (at_phase s) ≤ phase_rank (at_phase s');
  sf_vm : keeps (at_vm_identity s) (at_vm_identity s');
  sf_runner : keeps (at_runner_id s) (at_runner_id s');
  sf_job : keeps (at_github_job_id s) (at_github_job_id s');
  sf_result : keeps (at_result s) (at_result s');
  sf_jit : at_jit_generation_started s = true → at_jit_generation_started s' = true;
  sf_start : at_runner_start_started s = true → at_runner_start_started s' = true;
  sf_revision : s' = s ∨ at_revision s' = at_revision s + 1;
  sf_bound : at_vm_identity s' = at_vm_identity s ∨ at_phase s' = PhaseCloneStarted;
  sf_history : has_clone_started_history s = true → has_clone_started_history s' = true;
}.

(** ** Reading the operations backwards *)

Lemma AttemptRevision_next_Ok r r' :
  AttemptRevision_next r = Ok r' ↔ r' = r + 1 ∧ r + 1 ≤ MAX_DISPOSABLE_ATTEMPT_REVISION.
Proof.
  unfold AttemptRevision_next, AttemptRevision_new, checked_add, in_range.
  destruct (N.leb_spec (r + 1) u64_max); rsimpl.
  - destruct (N.leb_spec 1 (r + 1)), (N.leb_spec (r + 1) MAX_DISPOSABLE_ATTEMPT_REVISION);
      simpl; split; try done; try lia; [intros [= <-]; lia|by intros [-> _]].
  - split; [done|]. intros [_ ?]. unfold u64_max, MAX_DISPOSABLE_ATTEMPT_REVISION in *. lia.
Qed.

Definition advanced (s : DisposableAttemptState) (phase : DisposableAttemptPhase)
    (runner_id : option N) (job_id job_result : option string) : DisposableAttemptState :=
  mkAttempt (at_schema_version s) (at_revision s + 1) (at_attempt_id s)
    (at_capacity_claim_id s) (at_vm_id s) (at_vm_identity s) (at_runner_name s)
    (at_runner_request_id s) runner_id (at_jit_generation_started s)
    (at_runner_start_started s) phase job_id job_result (at_not_after s).

Lemma advance_with_Ok s phase runner_id job_id job_result s' :
  advance_with s phase runner_id job_id job_result = Ok s' ↔
  s' = advanced s phase runner_id job_id job_result ∧
  at_revision s + 1 ≤ MAX_DISPOSABLE_ATTEMPT_REVISION ∧ validate s' = Ok ().
Proof.
  unfold advance_with. rewrite bind_Ok. setoid_rewrite AttemptRevision_next_Ok.
  split.
  - intros (r & [-> Hmax] & H). apply bind_Ok in H as ([] & Hval & [= <-]). done.
  - intros (-> & Hmax & Hval). eexists. split; [done|]. fold (advanced s phase runner_id job_id job_result).
    by rewrite Hval.
Qed.

Lemma validate_runner_Ok s runner id :
  validate_runner s runner = Ok id →
  id = rr_id runner ∧ rr_name runner = at_runner_name s ∧ keeps (at_runner_id s) (Some id).
Proof.
  unfold validate_runner. intros H. inv_ok H. injection H as <-. bprop. split_and!; [done..|].
  intros c Hc. rewrite Hc in *. simpl in *. bprop. by subst.
Qed.

Lemma validate_job_Ok s job :
  validate_job s job = Ok () → keeps (at_github_job_id s) (Some job).
Proof.
  unfold validate_job. intros H. inv_ok H. intros c Hc.
  rewrite Hc in *. simpl in *. bprop. f_equal. symmetry. by apply String.eqb_eq.
Qed.

Lemma keeps_refl {A} (o : option A) : keeps o o.
Proof. by intros ?. Qed.

Lemma keeps_None {A} (o o' : option A) : o = None → keeps o o'.
Proof. by intros -> ?. Qed.

#[local] Hint Resolve keeps_refl keeps_None : core.

(** What a valid record cannot carry yet. *)
Lemma valid_evidence s :
  validate s = Ok () →
  match at_phase s with
  | PhaseReserved | PhaseUnprovisionedReleasing | PhaseCloneAuthorized =>
      at_vm_identity s = None ∧ at_runner_id s = None ∧ at_github_job_id s = None ∧
      at_result s = None
  | PhaseCloneStarted =>
      at_runner_id s = None ∧ at_github_job_id s = None ∧ at_result s = None ∧
      at_jit_generation_started s = false
  | PhaseRegistering | PhaseWaiting => at_github_job_id s = None ∧ at_result s = None
  | PhaseAssigned | PhaseRunning => at_result s = None
  | PhaseProvisioning => False
  | _ => True
  end.
Proof.
  assert (∀ A (o : option A), is_some o = false → o = None) as Hnone by (by intros A []).
  unfold validate. intros H. do 7 (apply ok_guard in H as [_ H]).
  apply bind_Ok in H as (u & Hphase & _). unfold validate_phase in Hphase.
  destruct (at_phase s); try done; apply ok_guard in Hphase as [Hphase _]; bprop; auto.
Qed.

(** A valid record beyond the clone checkpoint shows it, unless it completed
    without having had a machine. *)
Lemma valid_history s :
  validate s = Ok () → 3 ≤ phase_rank (at_phase s) →
  (at_phase s = PhaseComplete → 8 ≤ at_revision s) → has_clone_started_history s = true.
Proof.
  unfold validate, has_clone_started_history. intros H Hrank Hdone.
  do 6 (apply ok_guard in H as [_ H]). apply ok_guard in H as [Hshape _]. bprop.
  unfold revision_shape_valid in Hshape.
  destruct (at_phase s); simpl in Hrank; done || lia || (apply N.leb_le; auto).
Qed.

Lemma step_facts_same s : validate s = Ok () → step_facts s s.
Proof. intros H. split; auto; reflexivity. Qed.

Lemma step_facts_advanced s phase runner_id job_id job_result s' :
  advance_with s phase runner_id job_id job_result = Ok s' →
  phase_rank (at_phase s) ≤ phase_rank phase →
  keeps (at_runner_id s) runner_id → keeps (at_github_job_id s) job_id →
  keeps (at_result s) job_result →
  (phase = PhaseComplete → has_clone_started_history s = true → 7 ≤ at_revision s) →
  step_facts s s'.
Proof.
  intros (-> & _ & Hval)%advance_with_Ok Hrank ? ? ? Hdone. split; simpl; auto.
  intros Hhist. apply valid_history; simpl; [done| |].
  - etrans; [|exact Hrank]. unfold has_clone_started_history in Hhist.
    by destruct (at_phase s).
  - intros Hphase. specialize (Hdone Hphase Hhist). lia.
Qed.

Lemma history_kept s phase :
  at_phase s = phase → phase = PhaseComplete → has_clone_started_history s = true →
  7 ≤ at_revision s.
Proof.
  unfold has_clone_started_history. intros -> -> Hhist. bprop. lia.
Qed.

Lemma advance_phase_facts s expected phase s' :
  phase_rank expected ≤ phase_rank phase → phase ≠ PhaseComplete →
  advance_phase s expected phase = Ok s' → step_facts s s'.
Proof.
  unfold advance_phase. intros Hrank Hopen H. apply ok_guard in H as [Hphase H]. bprop. subst.
  by eapply step_facts_advanced; eauto.
Qed.

(** ** Every operation keeps the invariant and what is recorded *)

Lemma checkpoint_facts s set s' :
  (r ← AttemptRevision_next (at_revision s); _ ← validate (set r s); Ok (set r s)) = Ok s' →
  attempt_key s' = attempt_key s → at_phase s' = at_phase s → at_runner_id s' = at_runner_id s →
  at_github_job_id s' = at_github_job_id s → at_result s' = at_result s →
  keeps (at_vm_identity s) (at_vm_identity s') →
  (at_jit_generation_started s = true → at_jit_generation_started s' = true) →
  (at_runner_start_started s = true → at_runner_start_started s' = true) →
  (∀ r, at_revision (set r s) = r) →
  at_vm_identity s' = at_vm_identity s ∨ at_phase s' = PhaseCloneStarted → step_facts s s'.
Proof.
  intros H Hkey Hphase Hrun Hjob Hres Hvm Hjit Hst Hrev Hbound.
  apply bind_Ok in H as (r & [-> _]%AttemptRevision_next_Ok & H).
  apply bind_Ok in H as ([] & Hval & [= <-]).
  split; auto; try (by rewrite ?Hphase, ?Hrun, ?Hjob, ?Hres).
  unfold has_clone_started_history. rewrite Hphase, Hrev. destruct (at_phase s); auto;
    intros; bprop; apply N.leb_le; lia.
Qed.

Lemma bind_facts s identity s' :
  bind_vm_identity_after_clone s identity = Ok s' → step_facts s s'.
Proof.
  unfold bind_vm_identity_after_clone. intros H. apply ok_guard in H as [Hg H]. bprop.
  pose proof H as H'. apply bind_Ok in H' as (r & _ & H').
  apply bind_Ok in H' as ([] & _ & [= <-]).
  eapply (checkpoint_facts _ (λ r, set_vm_identity r identity)); try exact H; try done.
  - by destruct (at_vm_identity s).
  - by right.
Qed.

Lemma record_jit_facts s s' :
  validate s = Ok () → record_jit_generation_started s = Ok s' → step_facts s s'.
Proof.
  intros Hval H. unfold record_jit_generation_started in H. apply ok_guard in H as [_ H].
  destruct (at_jit_generation_started s) eqn:Hjit; [injection H as <-; by apply step_facts_same|].
  pose proof H as H'. apply bind_Ok in H' as (r & _ & H').
  apply bind_Ok in H' as ([] & _ & [= <-]).
  eapply (checkpoint_facts _ set_jit_generation_started); [exact H|done..|by left].
Qed.

Lemma record_start_facts s s' :
  validate s = Ok () → record_runner_start_started s = Ok s' → step_facts s s'.
Proof.
  intros Hval H. unfold record_runner_start_started in H. apply ok_guard in H as [_ H].
  destruct (at_runner_start_started s) eqn:Hst; [injection H as <-; by apply step_facts_same|].
  pose proof H as H'. apply bind_Ok in H' as (r & _ & H').
  apply bind_Ok in H' as ([] & _ & [= <-]).
  eapply (checkpoint_facts _ set_runner_start_started); [exact H|done..|by left].
Qed.

(** [step_case Hval H] closes a branch [H] that returned the record itself or
    an advanced one, from what the valid record of before could not carry. *)
Ltac step_case Hval H :=
  pose proof (valid_evidence _ Hval);
  lazymatch type of H with
  | Ok _ = Ok _ => injection H as <-; by apply step_facts_same
  | advance_with _ _ _ _ _ = Ok _ =>
      eapply step_facts_advanced; [exact H|..];
      repeat match goal with Hp : at_phase _ = _ |- _ => rewrite Hp in * end;
      destruct_and?; auto; try done; try (vm_compute; discriminate); try reflexivity;
      try (by apply history_kept); unfold has_clone_started_history;
      repeat match goal with Hp : at_phase _ = _ |- _ => rewrite Hp in * end; done
  end.

Lemma record_registration_facts s runner s' :
  validate s = Ok () → record_registration s runner = Ok s' → step_facts s s'.
Proof.
  intros Hval H. unfold record_registration in H. do 2 (apply ok_guard in H as [? H]).
  apply bind_Ok in H as (id & (_ & _ & Hkeep)%validate_runner_Ok & H).
  case_bool_decide; step_case Hval H.
Qed.

Lemma record_runner_ready_facts s runner s' :
  validate s = Ok () → record_runner_ready s runner = Ok s' → step_facts s s'.
Proof.
  intros Hval H. unfold record_runner_ready in H.
  apply bind_Ok in H as (id & (_ & _ & Hkeep)%validate_runner_Ok & H).
  apply ok_guard in H as [_ H].
  inv_ok H; step_case Hval H.
Qed.

Lemma record_assigned_facts s job s' :
  validate s = Ok () → record_assigned s job = Ok s' → step_facts s s'.
Proof.
  intros Hval H. unfold record_assigned in H.
  apply bind_Ok in H as ([] & Hkeep%validate_job_Ok & H).
  inv_ok H; step_case Hval H.
Qed.

Lemma record_running_facts s runner job s' :
  validate s = Ok () → record_running s runner job = Ok s' → step_facts s s'.
Proof.
  intros Hval H. unfold record_running in H.
  apply bind_Ok in H as (id & (_ & _ & Hkeep)%validate_runner_Ok & H).
  apply ok_guard in H as [_ H].
  apply bind_Ok in H as ([] & Hjob%validate_job_Ok & H).
  inv_ok H; try step_case Hval H; unfold record_running_late in H;
    apply ok_guard in H as [_ H]; destruct (at_result s) eqn:Hres; simpl in H;
    case_match; try discriminate H; step_case Hval H.
Qed.

Lemma record_terminal_facts s runner job job_result s' :
  validate s = Ok () → record_terminal s runner job job_result = Ok s' → step_facts s s'.
Proof.
  intros Hval H. unfold record_terminal in H. apply bind_Ok in H as (oid & _ & H).
  apply bind_Ok in H as ([] & Hjob%validate_job_Ok & H). apply ok_guard in H as [_ H].
  destruct (at_result s) eqn:Hres; [case_match; [|done]; step_case Hval H|].
  unfold record_terminal_new in H. do 3 (apply ok_guard in H as [? H]).
  apply bind_Ok in H as (id & Hid & H). bprop.
  assert (keeps (at_runner_id s) id).
  { intros c Hc. rewrite Hc in Hid. destruct oid; inv_ok Hid; congruence. }
  eapply step_facts_advanced; [exact H| |auto..|].
  - destruct (at_phase s); simpl in *; done || lia.
  - intros Hphase. apply (history_kept s PhaseComplete); [|done]. by destruct (at_phase s).
Qed.

Lemma begin_cleanup_facts s s' :
  validate s = Ok () → begin_cleanup s = Ok s' → step_facts s s'.
Proof. intros Hval H. unfold begin_cleanup in H. inv_ok H; step_case Hval H. Qed.

Lemma advance_cleanup_facts s phase s' :
  validate s = Ok () → advance_cleanup s phase = Ok s' → step_facts s s'.
Proof.
  intros Hval H. unfold advance_cleanup in H. case_bool_decide; [step_case Hval H|].
  apply ok_guard in H as [Hphase H]. eapply step_facts_advanced; [exact H| |auto..|].
  - destruct (at_phase s), phase; done || (vm_compute; discriminate).
  - unfold has_clone_started_history. intros ->. destruct (at_phase s); try done.
    intros. by bprop.
Qed.

Lemma transition_facts s action s' :
  validate s = Ok () → transition s action = Ok s' → step_facts s s'.
Proof.
  intros Hval. destruct action; simpl; intros H;
    try (eapply advance_phase_facts; [| |exact H]; vm_compute; discriminate).
  - done.
  - unfold begin_unprovisioned_release in H. inv_ok H; step_case Hval H.
  - unfold complete_unprovisioned in H. inv_ok H; step_case Hval H.
  - by apply record_jit_facts.
  - by eapply record_registration_facts.
  - by apply record_start_facts.
  - by eapply record_runner_ready_facts.
  - by eapply record_assigned_facts.
  - by eapply record_running_facts.
  - by eapply record_terminal_facts.
  - by apply begin_cleanup_facts.
  - by eapply advance_cleanup_facts.
Qed.

Lemma attempt_step_facts s s' : validate s = Ok () → attempt_step s s' → step_facts s s'.
Proof. intros Hval [action H|identity H]; [by eapply transition_facts|by eapply bind_facts]. Qed.

(** ** Chains of steps *)

Record chain_facts (s s' : DisposableAttemptState) : Prop := {
  cf_key : attempt_key s' = attempt_key s;
  cf_valid : validate s' = Ok ();
  cf_phase : phase_rank (at_phase s) ≤ phase_rank (at_phase s');
  cf_vm : keeps (at_vm_identity s) (at_vm_identity s');
  cf_runner : keeps (at_runner_id s) (at_runner_id s');
  cf_job : keeps (at_github_job_id s) (at_github_job_id s');
  cf_result : keeps (at_result s) (at_result s');
  cf_jit : at_jit_generation_started s = true → at_jit_generation_started s' = true;
  cf_start : at_runner_start_started s = true → at_runner_start_started s' = true;
  cf_revision : s' = s ∨ at_revision s < at_revision s';
  cf_history : has_clone_started_history s = true → has_clone_started_history s' = true;
}.

Lemma keeps_trans {A} (o1 o2 o3 : option A) : keeps o1 o2 → keeps o2 o3 → keeps o1 o3.
Proof. intros H1 H2 a Ha. by apply H2, H1. Qed.

Lemma attempt_chain s s' :
  validate s = Ok () → rtc attempt_step s s' → chain_facts s s'.
Proof.
  intros Hval. induction 1 as [s|s t s' Hstep Hchain IH]; [split; auto; reflexivity|].
  destruct (attempt_step_facts s t Hval Hstep) as [Hk Hv Hp Hvm Hr Hj Hres Hjit Hst Hrev _ Hh].
  destruct (IH Hv) as [Hk' Hv' Hp' Hvm' Hr' Hj' Hres' Hjit' Hst' Hrev' Hh'].
  split; eauto using keeps_trans; [congruence|by etrans|].
  destruct Hrev as [->|Hrev], Hrev' as [->|Hrev']; auto; right; lia.
Qed.

Lemma reserved_valid a c v n r t : validate (reserved a c v n r t) = Ok ().
Proof. done. Qed.

(** The order of the evidence in a valid record. *)
Lemma valid_order s :
  validate s = Ok () →
  (is_some (at_runner_id s) = true → at_jit_generation_started s = true) ∧
  (at_jit_generation_started s = true → is_some (at_vm_identity s) = true) ∧
  (at_runner_start_started s = true → is_some (at_runner_id s) = true) ∧
  (is_some (at_result s) = true → is_some (at_github_job_id s) = true) ∧
  (at_runner_start_started s = false → ∀ r, at_result s = Some r → r = "canceled").
Proof.
  unfold validate. intros H. apply ok_guard in H as [_ H].
  do 4 (apply ok_guard in H as [? H]). apply ok_guard in H as [Hcancel _]. split_and!.
  1-4: destruct (at_vm_identity s), (at_runner_id s), (at_jit_generation_started s),
    (at_runner_start_started s), (at_github_job_id s), (at_result s); done.
  intros Hst r Hr. rewrite Hst, Hr in Hcancel. simpl in Hcancel. bprop. by apply String.eqb_eq.
Qed.

(** A step that first shows the clone checkpoint is the step that took it. *)
Lemma history_begins s s' :
  validate s = Ok () → attempt_step s s' → has_clone_started_history s = false →
  has_clone_started_history s' = true → at_phase s' = PhaseCloneStarted.
Proof.
  intros Hval Hstep Hno Hyes. destruct (attempt_step_facts s s' Hval Hstep) as [_ Hv _ _ _ _ _ _ _ _ Hb _].
  destruct Hb as [Hb|]; [|done].
  assert (at_vm_identity s = None) as Hnone.
  { unfold has_clone_started_history in Hno. pose proof (valid_evidence s Hval) as He.
    unfold validate in Hval. do 6 (apply ok_guard in Hval as [_ Hval]).
    apply ok_guard in Hval as [Hshape Hval]. bprop.
    apply bind_Ok in Hval as (u & _ & Hval). apply ok_guard in Hval as [Hc _].
    unfold revision_shape_valid in Hshape.
    destruct (at_phase s); try done; try (by destruct He); try congruence.
    simpl in Hc. destruct (at_vm_identity s); [|done]. simpl in Hc. bprop. unfold in_range in Hshape.
    exfalso. lia. }
  rewrite Hnone in Hb. unfold has_clone_started_history in Hyes.
  unfold validate in Hv. do 7 (apply ok_guard in Hv as [_ Hv]).
  apply bind_Ok in Hv as (u & Hphase & Hv). apply ok_guard in Hv as [_ Hv].
  apply ok_guard in Hv as [Hc _]. unfold validate_phase in Hphase. rewrite Hb in *. simpl in *.
  destruct (at_phase s'); try done. simpl in Hc. bprop. exfalso. destruct Hc; bprop; [lia|done].
Qed.

Lemma history_passed s s' :
  validate s = Ok () → rtc attempt_step s s' → has_clone_started_history s = false →
  has_clone_started_history s' = true →
  ∃ mid, rtc attempt_step s mid ∧ at_phase mid = PhaseCloneStarted ∧ rtc attempt_step mid s'.
Proof.
  intros Hval. induction 1 as [s|s t s' Hstep Hchain IH]; [congruence|]. intros Hno Hyes.
  pose proof (sf_valid _ _ (attempt_step_facts s t Hval Hstep)) as Hvt.
  destruct (has_clone_started_history t) eqn:Ht.
  - exists t. split_and!; [by apply rtc_once|exact (history_begins s t Hval Hstep Hno Ht)|done].
  - destruct (IH Hvt eq_refl Hyes) as (mid & H1 & Hp & H2). exists mid.
    split_and!; [by eapply rtc_l|done..].
Qed.

(** (C24) Along every chain of durable steps from a valid record the attempt
    keeps its identities and its deadline, every record is valid, the phase
    never goes back, and the machine, runner, job and result once recorded, and
    the checkpoints once taken, are never changed; the revision identifies the
    record.  A runner identity implies the JIT checkpoint, that one the identity
    of the machine, and a result before the runner started is a cancellation. *)
Theorem attempt_chain_invariant (s s' : DisposableAttemptState)
    (Hval : validate s = Ok ()) (Hchain : rtc attempt_step s s') :
  attempt_key s' = attempt_key s ∧ validate s' = Ok () ∧
  phase_rank (at_phase s) ≤ phase_rank (at_phase s') ∧
  (keeps (at_vm_identity s) (at_vm_identity s') ∧ keeps (at_runner_id s) (at_runner_id s') ∧
   keeps (at_github_job_id s) (at_github_job_id s') ∧ keeps (at_result s) (at_result s')) ∧
  (at_jit_generation_started s = true → at_jit_generation_started s' = true) ∧
  (at_runner_start_started s = true → at_runner_start_started s' = true) ∧
  at_revision s ≤ at_revision s' ∧ (at_revision s' = at_revision s → s' = s) ∧
  (is_some (at_runner_id s') = true → at_jit_generation_started s' = true) ∧
  (at_jit_generation_started s' = true → is_some (at_vm_identity s') = true) ∧
  (at_runner_start_started s' = false → ∀ r, at_result s' = Some r → r = "canceled").
Proof.
  destruct (attempt_chain s s' Hval Hchain) as [Hk Hv Hp Hvm Hr Hj Hres Hjit Hst Hrev _].
  destruct (valid_order s' Hv) as (H1 & H2 & _ & _ & H3).
  split_and!; try done; destruct Hrev as [->|]; (done || lia).
Qed.

(** The durable history test is exact: of the records an attempt can
    reach from its reservation, those that pass are the ones that went through
    the clone checkpoint, so that late evidence never gives cleanup authority
    over a machine the attempt did not create. *)
Theorem clone_history_exact (a c v n : string) (r t : N) (s : DisposableAttemptState)
    (Hchain : rtc attempt_step (reserved a c v n r t) s) :
  has_clone_started_history s = true ↔
  ∃ mid, rtc attempt_step (reserved a c v n r t) mid ∧ at_phase mid = PhaseCloneStarted ∧
    rtc attempt_step mid s.
Proof.
  pose proof (reserved_valid a c v n r t) as Hval. split.
  - by apply history_passed.
  - intros (mid & H1 & Hp & H2). pose proof (cf_valid _ _ (attempt_chain _ _ Hval H1)) as Hvm.
    apply (cf_history _ _ (attempt_chain _ _ Hvm H2)).
    unfold has_clone_started_history. by rewrite Hp.
Qed.

(** ** Repeating an action *)

(** The checkpoints that may be taken once only. *)
Definition no_replay (action : DisposableAttemptCatalogAction) : bool :=
  match action with
  | BeginProvisioning | AuthorizeClone | RecordCloneStarted | BeginUnprovisionedRelease
  | CompleteUnprovisioned | BeginRegistration => true
  | _ => false
  end.

Lemma validate_runner_again s runner :
  rr_name runner = at_runner_name s → at_runner_id s = Some (rr_id runner) →
  validate_runner s runner = Ok (rr_id runner).
Proof.
  intros Hname Hid. unfold validate_runner. rewrite Hname, Hid.
  rewrite bool_decide_eq_false_2 by (intros []; done). simpl. by rewrite N.eqb_refl.
Qed.

Lemma validate_job_again s job : at_github_job_id s = Some job → validate_job s job = Ok ().
Proof. intros Hjob. unfold validate_job. rewrite Hjob. simpl. by rewrite String.eqb_refl. Qed.

(** The runner an action names is the one its successor records. *)
Lemma registered_runner s runner s' :
  record_registration s runner = Ok s' →
  at_runner_id s' = Some (rr_id runner) ∧ at_runner_name s' = rr_name runner ∧
  at_phase s' = at_phase s ∧ at_jit_generation_started s' = true.
Proof.
  unfold record_registration. intros H. do 2 (apply ok_guard in H as [? H]). bprop.
  apply bind_Ok in H as (id & (-> & Hn & _)%validate_runner_Ok & H).
  case_bool_decide; [by injection H as <-|]. by apply advance_with_Ok in H as (-> & _).
Qed.

Lemma ready_runner s runner s' :
  record_runner_ready s runner = Ok s' →
  at_runner_id s' = Some (rr_id runner) ∧ at_runner_name s' = rr_name runner ∧
  at_runner_start_started s' = true ∧
  (at_phase s' = PhaseWaiting ∨ at_phase s' = PhaseAssigned ∨ at_phase s' = PhaseRunning ∨
   at_phase s' = PhaseTerminal).
Proof.
  unfold record_runner_ready. intros H.
  apply bind_Ok in H as (id & (-> & Hn & _)%validate_runner_Ok & H).
  apply ok_guard in H as [? H]. bprop.
  inv_ok H; try (apply advance_with_Ok in H as (-> & _)); try (injection H as <-); bprop;
    simpl; rewrite ?Hn; split_and!; auto.
Qed.

Lemma assigned_job s job s' :
  record_assigned s job = Ok s' →
  at_github_job_id s' = Some job ∧
  (at_phase s' = PhaseAssigned ∨ at_phase s' = PhaseRunning ∨ at_phase s' = PhaseTerminal).
Proof.
  unfold record_assigned. intros H. apply bind_Ok in H as ([] & _ & H).
  inv_ok H; try (apply advance_with_Ok in H as (-> & _)); try (injection H as <-); bprop;
    simpl; split; auto.
Qed.

Lemma running_job s runner job s' :
  record_running s runner job = Ok s' →
  at_runner_id s' = Some (rr_id runner) ∧ at_runner_name s' = rr_name runner ∧
  at_runner_start_started s' = true ∧ at_github_job_id s' = Some job ∧
  (at_phase s' = PhaseRunning ∨ at_phase s' = PhaseTerminal ∨ is_cleanup (at_phase s') = true).
Proof.
  unfold record_running, record_running_late. intros H.
  apply bind_Ok in H as (id & (-> & Hn & _)%validate_runner_Ok & H).
  apply ok_guard in H as [? H]. bprop. apply bind_Ok in H as ([] & _ & H).
  inv_ok H; try (apply advance_with_Ok in H as (-> & _)); try (injection H as <-); bprop;
    simpl; rewrite ?Hn; split_and!; auto; right; right;
    match goal with Hp : at_phase _ = _ |- _ => by rewrite Hp end.
Qed.

Lemma terminal_job s runner job job_result s' :
  record_terminal s runner job job_result = Ok s' →
  at_github_job_id s' = Some job ∧ at_result s' = Some job_result ∧
  ∀ r, runner = Some r → at_runner_id s' = Some (rr_id r) ∧ at_runner_name s' = rr_name r.
Proof.
  unfold record_terminal. intros H. apply bind_Ok in H as (oid & Hoid & H).
  apply bind_Ok in H as ([] & _ & H). apply ok_guard in H as [_ H].
  assert (∀ r, runner = Some r → oid = Some (rr_id r) ∧ rr_name r = at_runner_name s) as Hrun.
  { intros r ->. simpl in Hoid. apply bind_Ok in Hoid as (id & (-> & Hn & _)%validate_runner_Ok & [= <-]).
    done. }
  destruct (at_result s) eqn:Hres.
  - case_match eqn:Hsame; [|done]. injection H as <-. bprop.
    split_and!; [done|rewrite Hres; f_equal; by apply String.eqb_eq|].
    intros r Hr. destruct (Hrun r Hr) as [-> ?]. simpl in *. by bprop.
  - unfold record_terminal_new in H. do 3 (apply ok_guard in H as [? H]).
    apply bind_Ok in H as (id & Hid & (-> & _)%advance_with_Ok). simpl. split_and!; [done..|].
    intros r Hr. destruct (Hrun r Hr) as [-> ?]. split; [|done].
    destruct (at_runner_id s); inv_ok Hid; bprop; subst; congruence.
Qed.

Lemma advance_phase_once s expected phase s' :
  expected ≠ phase → advance_phase s expected phase = Ok s' →
  ∃ e, advance_phase s' expected phase = Err e.
Proof.
  unfold advance_phase. intros Hne H. apply ok_guard in H as [_ H].
  apply advance_with_Ok in H as (-> & _). simpl. rewrite bool_decide_eq_true_2 by done. eauto.
Qed.

Lemma no_replay_once s action s' :
  no_replay action = true → transition s action = Ok s' → ∃ e, transition s' action = Err e.
Proof.
  destruct action; try done; simpl; intros _ H; try (by eapply advance_phase_once).
  - unfold begin_unprovisioned_release in *.
    inv_ok H; apply advance_with_Ok in H as (-> & _); simpl; eauto.
  - unfold complete_unprovisioned in *.
    inv_ok H; apply advance_with_Ok in H as (-> & _); simpl; eauto.
Qed.

Lemma checkpoint_again s action s' :
  action = RecordJitGenerationStarted ∨ action = RecordRunnerStartStarted →
  transition s action = Ok s' → transition s' action = Ok s'.
Proof.
  intros [->| ->]; simpl; intros H;
    unfold record_jit_generation_started, record_runner_start_started in *;
    apply ok_guard in H as [Hg H]; case_match eqn:Hdone;
    try (injection H as <-; by rewrite Hg, Hdone);
    apply bind_Ok in H as (r & _ & H); apply bind_Ok in H as ([] & _ & [= <-]); simpl;
    by rewrite Hg.
Qed.

Lemma record_again s action s' :
  no_replay action = false → transition s action = Ok s' → transition s' action = Ok s'.
Proof.
  destruct action; try done; simpl; intros _ H.
  - exact (checkpoint_again s RecordJitGenerationStarted s' (or_introl eq_refl) H).
  - pose proof H as H0. apply registered_runner in H as (Hid & Hname & Hphase & Hjit).
    unfold record_registration in *. apply ok_guard in H0 as [Hg _].
    rewrite Hphase, Hg, Hjit. simpl. rewrite validate_runner_again by done. rsimpl.
    by rewrite bool_decide_eq_true_2.
  - exact (checkpoint_again s RecordRunnerStartStarted s' (or_intror eq_refl) H).
  - apply ready_runner in H as (Hid & Hname & Hst & Hphase). unfold record_runner_ready.
    rewrite validate_runner_again by done. rsimpl. rewrite Hst. simpl. rewrite Hid.
    rewrite bool_decide_eq_true_2 by done. by destruct Hphase as [-> |[-> |[-> | ->]]].
  - apply assigned_job in H as (Hjob & Hphase). unfold record_assigned.
    rewrite validate_job_again by done. rsimpl. rewrite bool_decide_eq_true_2 by done.
    by destruct Hphase as [-> |[-> | ->]].
  - apply running_job in H as (Hid & Hname & Hst & Hjob & Hphase). unfold record_running, record_running_late.
    rewrite validate_runner_again by done. rsimpl. rewrite Hst. simpl.
    rewrite validate_job_again by done. rsimpl. rewrite Hid, Hjob.
    rewrite !bool_decide_eq_true_2 by done. simpl. destruct Hphase as [-> |[-> | Hphase]]; try done.
    destruct (at_phase s'); try done; by destruct (at_result s').
  - apply terminal_job in H as (Hjob & Hres & Hrun). unfold record_terminal.
    assert (traverse_option (validate_runner s') runner = Ok (rr_id <$> runner)) as ->.
    { destruct runner as [r|]; [|done]. destruct (Hrun r eq_refl). simpl.
      by rewrite validate_runner_again. }
    rsimpl. rewrite validate_job_again by done. rsimpl. rewrite Hjob, Hres, String.eqb_refl.
    rewrite andb_false_r, bool_decide_eq_true_2 by done. simpl.
    destruct runner as [r|]; [|done]. destruct (Hrun r eq_refl) as [Hid _]. simpl.
    by rewrite bool_decide_eq_true_2.
  - unfold begin_cleanup in *. inv_ok H; try (injection H as <-);
      try (apply advance_with_Ok in H as (-> & _)); simpl; try done;
      match goal with Hp : at_phase _ = _ |- _ => by rewrite Hp end.
  - unfold advance_cleanup in *. case_bool_decide as Hp.
    + injection H as <-. by rewrite bool_decide_eq_true_2.
    + apply ok_guard in H as [_ H]. apply advance_with_Ok in H as (-> & _). simpl.
      by rewrite bool_decide_eq_true_2.
Qed.

(** Replaying an action on the record it produced does nothing, except for
    the checkpoints that may be taken once: those are refused, so that no clone
    is authorized, started or released a second time. *)
Theorem attempt_replay (s s' : DisposableAttemptState) (action : DisposableAttemptCatalogAction)
    (Haction : transition s action = Ok s') :
  if no_replay action then ∃ e, transition s' action = Err e else transition s' action = Ok s'.
Proof.
  destruct (no_replay action) eqn:Hno; [by eapply no_replay_once|by eapply record_again].
Qed.

(** ** The successor test *)

(** [matches] of [is_exact_successor_of]. *)
Definition yields (s' : DisposableAttemptState)
    (candidate : result DisposableAttemptStateError DisposableAttemptState) : bool :=
  match candidate with
  | Ok candidate => bool_decide (candidate = s')
  | _ => false
  end.

Lemma yields_true s' candidate : yields s' candidate = true ↔ candidate = Ok s'.
Proof.
  destruct candidate; simpl; [|done..]. rewrite bool_decide_eq_true. split; congruence.
Qed.

Definition named_runner (s' : DisposableAttemptState) : option ScaleSetRunnerReference :=
  (λ id, mkRunner id (at_runner_name s')) <$> at_runner_id s'.

Lemma named_runner_Some s' runner :
  at_runner_id s' = Some (rr_id runner) → at_runner_name s' = rr_name runner →
  named_runner s' = Some runner.
Proof. unfold named_runner. intros -> ->. by destruct runner. Qed.

(** The actions the test tries, with the arguments it reads off the successor. *)
Definition tried_actions (s' : DisposableAttemptState) : list DisposableAttemptCatalogAction :=
  [AuthorizeClone; RecordCloneStarted; BeginUnprovisionedRelease; CompleteUnprovisioned;
   BeginRegistration; RecordJitGenerationStarted; RecordRunnerStartStarted; BeginCleanup;
   AdvanceCleanup (at_phase s')] ++
  (runner ← option_list (named_runner s'); [RecordRegistration runner; RecordRunnerReady runner]) ++
  (job ← option_list (at_github_job_id s');
   RecordAssigned job ::
   (runner ← option_list (named_runner s'); [RecordRunning runner job]) ++
   (job_result ← option_list (at_result s');
    RecordTerminal None job job_result ::
    (runner ← option_list (named_runner s'); [RecordTerminal (Some runner) job job_result]))).

Lemma is_exact_successor_of_tried s' s :
  is_exact_successor_of s' s = existsb (λ action, yields s' (transition s action)) (tried_actions s').
Proof.
  unfold is_exact_successor_of, tried_actions. fold (named_runner s').
  rewrite !existsb_app.
  destruct (named_runner s') as [runner|], (at_github_job_id s') as [job|], (at_result s') as [res|];
    simpl;
    repeat match goal with
    | |- context [match ?c with Ok x => bool_decide (x = s') | Err _ => false | Panic => false end] =>
        change (match c with Ok x => bool_decide (x = s') | Err _ => false | Panic => false end)
          with (yields s' c)
    end;
    repeat match goal with |- context [yields s' ?c] => destruct (yields s' c); simpl; [reflexivity|] end;
    reflexivity.
Qed.

Lemma transition_tried s action s' :
  transition s action = Ok s' → action ∈ tried_actions s'.
Proof.
  intros H. unfold tried_actions. destruct action; simpl in H; try done;
    try (apply elem_of_app; left; set_solver).
  - apply registered_runner in H as (Hid & Hname & _). rewrite (named_runner_Some s' runner) by done.
    set_solver.
  - apply ready_runner in H as (Hid & Hname & _). rewrite (named_runner_Some s' runner) by done.
    set_solver.
  - apply assigned_job in H as [-> _]. set_solver.
  - apply running_job in H as (Hid & Hname & _ & -> & _). rewrite (named_runner_Some s' runner) by done.
    set_solver.
  - apply terminal_job in H as (-> & -> & Hrun). destruct runner as [runner|]; [|set_solver].
    destruct (Hrun runner eq_refl) as [Hid Hname]. rewrite (named_runner_Some s' runner) by done.
    set_solver.
  - unfold advance_cleanup in H. case_bool_decide as Hp; [injection H as <-; rewrite Hp; set_solver|].
    apply ok_guard in H as [_ H]. apply advance_with_Ok in H as (-> & _). set_solver.
Qed.

Lemma successor_test_iff (s s' : DisposableAttemptState) :
  is_exact_successor_of s' s = true ↔ ∃ action, transition s action = Ok s'.
Proof.
  rewrite is_exact_successor_of_tried, existsb_exists. setoid_rewrite yields_true. split.
  - intros (action & _ & H). eauto.
  - intros [action H]. exists action. split; [|done].
    by apply list_elem_of_In, (transition_tried s).
Qed.

(** ** Reaching the end *)

(** What [validate] checks besides the phase: it only looks at the evidence. *)
Definition evidence_ok (s : DisposableAttemptState) : bool :=
  (at_schema_version s =? DISPOSABLE_ATTEMPT_STATE_SCHEMA_VERSION)
  && negb (is_some (at_result s) && negb (is_some (at_github_job_id s)))
  && negb (at_runner_start_started s && (negb (at_jit_generation_started s)
           || negb (is_some (at_vm_identity s)) || negb (is_some (at_runner_id s))))
  && negb (at_jit_generation_started s && negb (is_some (at_vm_identity s)))
  && negb (is_some (at_runner_id s) && negb (at_jit_generation_started s))
  && negb (is_some_and (λ r, negb (at_runner_start_started s) && negb (String.eqb r "canceled"))
             (at_result s)).

Lemma validate_evidence s :
  validate s = Ok () →
  evidence_ok s = true ∧ revision_shape_valid (at_phase s) (at_revision s) = true.
Proof.
  unfold validate, evidence_ok. intros H. apply ok_guard in H as [H1%negb_false_iff H].
  apply ok_guard in H as [H2 H]. apply ok_guard in H as [H3 H]. apply ok_guard in H as [H4 H].
  apply ok_guard in H as [H5 H]. apply ok_guard in H as [H6 H].
  apply ok_guard in H as [H7%negb_false_iff _]. by rewrite H1, H2, H3, H4, H5, H6.
Qed.

Lemma validate_cleanup s :
  evidence_ok s = true → is_some (at_vm_identity s) = true → is_cleanup (at_phase s) = true →
  revision_shape_valid (at_phase s) (at_revision s) = true → 5 ≤ at_revision s →
  validate s = Ok ().
Proof.
  unfold validate, evidence_ok. rewrite !andb_true_iff, !negb_true_iff.
  intros (((((-> & ->) & ->) & ->) & ->) & ->) Hvm Hphase -> Hrev. simpl.
  rewrite Hvm. unfold validate_phase. rewrite Hvm.
  rewrite (proj2 (N.leb_gt _ _)) by lia. rewrite !andb_false_r. simpl.
  by destruct (at_phase s).
Qed.

(** From a record that owns a machine, cleaning up one phase further. *)
Lemma cleanup_moves s phase :
  validate s = Ok () → is_some (at_vm_identity s) = true → is_cleanup phase = true →
  revision_shape_valid phase (at_revision s + 1) = true → 4 ≤ at_revision s →
  at_revision s + 1 ≤ MAX_DISPOSABLE_ATTEMPT_REVISION →
  advance_with s phase (at_runner_id s) (at_github_job_id s) (at_result s) =
  Ok (advanced s phase (at_runner_id s) (at_github_job_id s) (at_result s)).
Proof.
  intros [Hev _]%validate_evidence Hvm Hphase Hshape Hrev Hmax. apply advance_with_Ok.
  split_and!; [done..|]. apply validate_cleanup; simpl; [done..|lia].
Qed.

(** Steps by catalog actions alone. *)
Definition action_step (s s' : DisposableAttemptState) : Prop :=
  ∃ action, transition s action = Ok s'.

Lemma advance_cleanup_applies s phase phase' :
  at_phase s = phase → (phase, phase') ∈
    [(PhaseDestroying, PhaseDeregistering); (PhaseDeregistering, PhaseReleasing);
     (PhaseReleasing, PhaseComplete)] →
  validate s = Ok () → is_some (at_vm_identity s) = true →
  at_revision s + 1 ≤ MAX_DISPOSABLE_ATTEMPT_REVISION →
  ∃ s', advance_cleanup s phase' = Ok s' ∧ at_phase s' = phase' ∧ validate s' = Ok () ∧
    is_some (at_vm_identity s') = true ∧ at_revision s' = at_revision s + 1.
Proof.
  intros Hp Hnext Hval Hvm Hmax.
  assert (5 ≤ at_revision s ∧ is_cleanup phase' = true ∧
    revision_shape_valid phase' (at_revision s + 1) = true) as (Hrev & Hcl & Hshape).
  { destruct (validate_evidence s Hval) as [_ Hs]. rewrite Hp in Hs.
    repeat (apply elem_of_cons in Hnext as [[= -> ->]|Hnext]; simpl in *; bprop;
      [split_and!; [lia|done|try apply orb_true_iff; try right; apply N.leb_le; lia]|]).
    by apply elem_of_nil in Hnext. }
  pose proof (cleanup_moves s phase' Hval Hvm Hcl Hshape ltac:(lia) Hmax) as Hadv.
  assert (advance_cleanup s phase' =
    advance_with s phase' (at_runner_id s) (at_github_job_id s) (at_result s)) as Heq.
  { unfold advance_cleanup. rewrite Hp. clear -Hnext.
    repeat (apply elem_of_cons in Hnext as [[= -> ->]|Hnext]; [done|]). by apply elem_of_nil in Hnext. }
  eexists. split; [by rewrite Heq|].
  apply advance_with_Ok in Hadv as (_ & _ & Hval'). by split_and!.
Qed.

Lemma cleanup_phase_next s phase phase' :
  at_phase s = phase → (phase, phase') ∈
    [(PhaseDestroying, PhaseDeregistering); (PhaseDeregistering, PhaseReleasing);
     (PhaseReleasing, PhaseComplete)] →
  validate s = Ok () → is_some (at_vm_identity s) = true →
  at_revision s + 1 ≤ MAX_DISPOSABLE_ATTEMPT_REVISION →
  ∃ s', action_step s s' ∧ at_phase s' = phase' ∧ validate s' = Ok () ∧
    is_some (at_vm_identity s') = true ∧ at_revision s' = at_revision s + 1.
Proof.
  intros Hp Hnext Hval Hvm Hmax.
  destruct (advance_cleanup_applies s phase phase' Hp Hnext Hval Hvm Hmax) as (s' & H & Hrest).
  exists s'. split; [by exists (AdvanceCleanup phase')|done].
Qed.

Lemma cleanup_completes s :
  validate s = Ok () → is_some (at_vm_identity s) = true →
  at_phase s = PhaseDestroying ∨ at_phase s = PhaseDeregistering ∨ at_phase s = PhaseReleasing ∨
    at_phase s = PhaseComplete →
  at_revision s + 3 ≤ MAX_DISPOSABLE_ATTEMPT_REVISION →
  ∃ s', rtc action_step s s' ∧ at_phase s' = PhaseComplete.
Proof.
  intros Hval Hvm Hphase Hmax.
  assert (∀ x, validate x = Ok () → is_some (at_vm_identity x) = true → at_phase x = PhaseReleasing →
    at_revision x + 1 ≤ MAX_DISPOSABLE_ATTEMPT_REVISION →
    ∃ s', rtc action_step x s' ∧ at_phase s' = PhaseComplete) as Hrel.
  { intros x Hv Hm Hp Hx. destruct (cleanup_phase_next x _ PhaseComplete Hp) as (y & Hs & Hy & _);
      [set_solver|done..|]. exists y. split; [by apply rtc_once|done]. }
  assert (∀ x, validate x = Ok () → is_some (at_vm_identity x) = true →
    at_phase x = PhaseDeregistering → at_revision x + 2 ≤ MAX_DISPOSABLE_ATTEMPT_REVISION →
    ∃ s', rtc action_step x s' ∧ at_phase s' = PhaseComplete) as Hder.
  { intros x Hv Hm Hp Hx.
    destruct (cleanup_phase_next x _ PhaseReleasing Hp) as (y & Hs & Hy & Hvy & Hmy & Hry);
      [set_solver|done..|lia|].
    destruct (Hrel y Hvy Hmy Hy ltac:(lia)) as (z & Hz & Hpz). exists z. split; [by eapply rtc_l|done]. }
  destruct Hphase as [Hp|[Hp|[Hp|Hp]]].
  - destruct (cleanup_phase_next s _ PhaseDeregistering Hp) as (y & Hs & Hy & Hvy & Hmy & Hry);
      [set_solver|done..|lia|].
    destruct (Hder y Hvy Hmy Hy ltac:(lia)) as (z & Hz & Hpz). exists z. split; [by eapply rtc_l|done].
  - apply Hder; (done || lia).
  - apply Hrel; (done || lia).
  - exists s. split; [reflexivity|done].
Qed.

(** No catalog action binds the identity of a machine. *)
Lemma transition_vm s action s' :
  transition s action = Ok s' → at_vm_identity s' = at_vm_identity s.
Proof.
  intros H. destruct action; simpl in H;
    unfold begin_provisioning, authorize_clone, record_clone_started, begin_registration,
      advance_phase, begin_unprovisioned_release, complete_unprovisioned,
      record_jit_generation_started, record_registration, record_runner_start_started,
      record_runner_ready, record_assigned, record_running, record_running_late,
      record_terminal, record_terminal_new, begin_cleanup, advance_cleanup in H;
    inv_ok H; by (apply advance_with_Ok in H as (-> & _)) || (injection H as <-).
Qed.

Lemma valid_machine s :
  validate s = Ok () →
  match at_phase s with
  | PhaseReserved | PhaseUnprovisionedReleasing | PhaseCloneAuthorized | PhaseProvisioning => True
  | PhaseCloneStarted => at_revision s = 3 ↔ at_vm_identity s = None
  | PhaseComplete => 8 ≤ at_revision s → is_some (at_vm_identity s) = true
  | _ => is_some (at_vm_identity s) = true
  end.
Proof.
  unfold validate. intros H. do 6 (apply ok_guard in H as [_ H]).
  apply ok_guard in H as [Hshape H]. apply bind_Ok in H as (u & Hphase & H).
  apply ok_guard in H as [_ H]. apply ok_guard in H as [Hdone _].
  unfold validate_phase in Hphase.
  destruct (at_phase s); try done; try (apply ok_guard in Hphase as [Hphase _]); bprop; try done.
  - destruct (N.eqb_spec (at_revision s) 3), (at_vm_identity s); naive_solver.
  - intros Hrev. simpl in Hdone. destruct (at_vm_identity s); [done|]. simpl in Hdone.
    bprop. destruct Hdone; bprop; [lia|done].
Qed.

Lemma unbound_stuck s s' :
  validate s = Ok () → at_phase s = PhaseCloneStarted → at_vm_identity s = None →
  action_step s s' → s' = s.
Proof.
  intros Hval Hphase Hvm [action H]. pose proof (transition_vm _ _ _ H) as Hvm'.
  destruct (transition_facts s action s' Hval H) as [_ Hv Hrank _ _ _ _ _ _ Hrev _ Hhist].
  destruct Hrev as [|Hrev]; [done|]. exfalso.
  pose proof (valid_machine s Hval) as Hm. rewrite Hphase in Hm, Hrank. apply Hm in Hvm as Hthree.
  pose proof (valid_machine s' Hv) as Hm'. rewrite Hvm', Hvm in Hm'.
  unfold has_clone_started_history in Hhist. rewrite Hphase in Hhist. specialize (Hhist eq_refl).
  destruct (at_phase s'); simpl in *; try done; bprop; try lia.
  apply proj2 in Hm'. specialize (Hm' eq_refl). lia.
Qed.

Lemma unprovisioned_completes s :
  validate s = Ok () →
  at_phase s = PhaseReserved ∨ at_phase s = PhaseCloneAuthorized ∨
    at_phase s = PhaseUnprovisionedReleasing →
  ∃ s', complete_unprovisioned s = Ok s' ∧ at_phase s' = PhaseComplete.
Proof.
  intros Hval Hphase. exists (advanced s PhaseComplete None None None). split; [|done].
  assert (at_vm_identity s = None ∧ at_jit_generation_started s = false ∧
    at_runner_start_started s = false) as (Hvm & Hjit & Hst).
  { destruct (valid_order s Hval) as (_ & H1 & H2 & _). pose proof (valid_evidence s Hval) as He.
    assert (at_vm_identity s = None ∧ at_runner_id s = None) as [Hvm Hr]
      by (destruct Hphase as [Hp|[Hp|Hp]]; rewrite Hp in He; naive_solver).
    rewrite Hvm in H1. rewrite Hr in H2.
    destruct (at_jit_generation_started s), (at_runner_start_started s); naive_solver. }
  destruct (validate_evidence s Hval) as [Hev Hshape].
  assert (1 ≤ at_revision s ≤ 3) as Hrev
    by (destruct Hphase as [Hp|[Hp|Hp]]; rewrite Hp in Hshape; simpl in Hshape; bprop; lia).
  assert (at_schema_version s = DISPOSABLE_ATTEMPT_STATE_SCHEMA_VERSION) as Hschema.
  { unfold evidence_ok in Hev. bprop. done. }
  assert (advance_with s PhaseComplete None None None =
    Ok (advanced s PhaseComplete None None None)) as Hadv.
  { apply advance_with_Ok. split_and!; [done|unfold MAX_DISPOSABLE_ATTEMPT_REVISION; lia|].
    unfold validate, validate_phase, revision_shape_valid, in_range. simpl.
    rewrite Hschema, Hvm, Hjit, Hst. simpl.
    rewrite !(proj2 (N.leb_le _ _)), (proj2 (N.ltb_ge _ _)) by lia. done. }
  unfold complete_unprovisioned. by destruct Hphase as [-> |[-> | ->]].
Qed.

Lemma begin_cleanup_applies s :
  validate s = Ok () → is_some (at_vm_identity s) = true → 3 ≤ phase_rank (at_phase s) →
  is_cleanup (at_phase s) = false → at_revision s + 1 ≤ MAX_DISPOSABLE_ATTEMPT_REVISION →
  begin_cleanup s = Ok (advanced s PhaseDestroying (at_runner_id s) (at_github_job_id s) (at_result s)).
Proof.
  intros Hval Hvm Hrank Hcl Hmax.
  destruct (validate_evidence s Hval) as [_ Hshape]. pose proof (valid_machine s Hval) as Hm.
  assert (4 ≤ at_revision s) as Hrev.
  { destruct (at_phase s); simpl in *; try done; bprop; try lia.
    assert (at_revision s ≠ 3) by (intros Heq; apply Hm in Heq; by rewrite Heq in Hvm). lia. }
  assert (5 ≤ at_revision s + 1) as Hfive%N.leb_le by lia.
  pose proof (cleanup_moves s PhaseDestroying Hval Hvm eq_refl Hfive Hrev Hmax) as Hadv.
  unfold begin_cleanup. by destruct (at_phase s).
Qed.

Lemma owned_completes s :
  validate s = Ok () → is_some (at_vm_identity s) = true → 3 ≤ phase_rank (at_phase s) →
  at_revision s + 4 ≤ MAX_DISPOSABLE_ATTEMPT_REVISION →
  ∃ s', rtc action_step s s' ∧ at_phase s' = PhaseComplete.
Proof.
  intros Hval Hvm Hrank Hmax. destruct (is_cleanup (at_phase s)) eqn:Hcl.
  { apply cleanup_completes; [done..| |lia]. destruct (at_phase s); auto; done. }
  pose proof (begin_cleanup_applies s Hval Hvm Hrank Hcl ltac:(lia)) as Hadv.
  pose proof (sf_valid _ _ (begin_cleanup_facts _ _ Hval Hadv)) as Hval'.
  destruct (cleanup_completes _ Hval') as (s' & Hs' & Hp); [done|by left|simpl; lia|].
  exists s'. split; [|done]. eapply rtc_l; [|exact Hs']. by exists BeginCleanup.
Qed.

(** (C36) Catalog actions can bring a valid attempt to completion exactly when
    it is not at the clone checkpoint without the identity of its machine: from
    there no action changes the record, and only the clone runtime, which knows
    what was created, can go on. *)
Theorem attempt_completes_iff (s : DisposableAttemptState)
    (Hval : validate s = Ok ()) (Hmax : at_revision s + 4 ≤ MAX_DISPOSABLE_ATTEMPT_REVISION) :
  (∃ s', rtc action_step s s' ∧ at_phase s' = PhaseComplete) ↔
  ¬ (at_phase s = PhaseCloneStarted ∧ at_vm_identity s = None).
Proof.
  split.
  - intros (s' & Hchain & Hdone) [Hphase Hvm].
    assert (s' = s) as ->; [|congruence].
    clear Hdone. induction Hchain as [x|x y z Hstep _ IH]; [done|].
    rewrite (unbound_stuck x y Hval Hphase Hvm Hstep) in *. auto.
  - intros Hbound. pose proof (valid_machine s Hval) as Hm.
    assert ((at_phase s = PhaseReserved ∨ at_phase s = PhaseCloneAuthorized ∨
        at_phase s = PhaseUnprovisionedReleasing) ∨ at_phase s = PhaseComplete ∨
      is_some (at_vm_identity s) = true ∧ 3 ≤ phase_rank (at_phase s)) as [Hp|[Hp|[Hvm Hrank]]].
    { pose proof (valid_evidence s Hval) as He.
      destruct (at_phase s); auto; right; right; try (split; [done|vm_compute; discriminate]); [done|].
      destruct (at_vm_identity s); [split; [done|vm_compute; discriminate]|]. by destruct Hbound. }
    + destruct (unprovisioned_completes s Hval Hp) as (s' & H & Hdone). exists s'.
      split; [|done]. apply rtc_once. by exists CompleteUnprovisioned.
    + by exists s.
    + by apply owned_completes.
Qed.

(** ** The theorems at a sample attempt *)

Definition sample_runner : ScaleSetRunnerReference := mkRunner 42 "glaeda-1".

Definition sample_actions : list DisposableAttemptCatalogAction :=
  [AuthorizeClone; RecordCloneStarted; BeginRegistration; RecordJitGenerationStarted;
   RecordRegistration sample_runner; RecordRunnerStartStarted; RecordRunnerReady sample_runner;
   RecordAssigned "job-7"; RecordRunning sample_runner "job-7";
   RecordTerminal (Some sample_runner) "job-7" "succeeded"; BeginCleanup;
   AdvanceCleanup PhaseDeregistering; AdvanceCleanup PhaseReleasing; AdvanceCleanup PhaseComplete].

Definition sample_reserved : DisposableAttemptState :=
  reserved "attempt-1" "claim-1" "vm-1" "glaeda-1" 7 5000.

Definition sample_identity : string :=
  "sha256:0000000000000000000000000000000000000000000000000000000000000000".

(** A run: after the clone checkpoint the runtime binds the machine. *)
Definition sample_bound : DisposableAttemptState :=
  mkAttempt 6 4 "attempt-1" "claim-1" "vm-1" (Some sample_identity) "glaeda-1" 7 None false false
    PhaseCloneStarted None None 5000.

Definition sample_complete : DisposableAttemptState :=
  mkAttempt 6 16 "attempt-1" "claim-1" "vm-1" (Some sample_identity) "glaeda-1" 7 (Some 42) true
    true PhaseComplete (Some "job-7") (Some "succeeded") 5000.

Lemma fold_transitions s actions s' :
  fold_result transition s actions = Ok s' → rtc attempt_step s s'.
Proof.
  revert s. induction actions as [|action actions IH]; intros s H; [by injection H as <-|].
  apply bind_Ok in H as (t & Ht & H). eapply rtc_l; [by eapply attempt_acts|by apply IH].
Qed.

Lemma sample_binds : rtc attempt_step sample_reserved sample_bound.
Proof.
  transitivity (mkAttempt 6 3 "attempt-1" "claim-1" "vm-1" None "glaeda-1" 7 None
    false false PhaseCloneStarted None None 5000).
  - by apply (fold_transitions _ [AuthorizeClone; RecordCloneStarted]).
  - apply rtc_once. by apply (attempt_binds _ _ sample_identity).
Qed.

Lemma sample_completes : rtc attempt_step sample_bound sample_complete.
Proof. by apply (fold_transitions _ (drop 2 sample_actions)). Qed.

Lemma sample_run : rtc attempt_step sample_reserved sample_complete.
Proof. etrans; [apply sample_binds|apply sample_completes]. Qed.

Lemma attempt_completes_iff_witness :
  (∃ s', rtc action_step sample_bound s' ∧ at_phase s' = PhaseComplete) ↔
  ¬ (at_phase sample_bound = PhaseCloneStarted ∧ at_vm_identity sample_bound = None).
Proof. apply (attempt_completes_iff sample_bound); [done|vm_compute; discriminate]. Defined.

Lemma attempt_chain_invariant_witness :
  attempt_key sample_complete = attempt_key sample_reserved ∧ validate sample_complete = Ok ().
Proof.
  destruct (attempt_chain_invariant sample_reserved sample_complete eq_refl
    sample_run) as (H1 & H2 & _).
  exact (conj H1 H2).
Defined.

Lemma clone_history_exact_witness :
  has_clone_started_history sample_complete = true ↔
  ∃ mid, rtc attempt_step sample_reserved mid ∧ at_phase mid = PhaseCloneStarted ∧
    rtc attempt_step mid sample_complete.
Proof.
  exact (clone_history_exact "attempt-1" "claim-1" "vm-1" "glaeda-1" 7 5000 sample_complete
    sample_run).
Defined.

Lemma attempt_replay_witness :
  transition sample_complete (AdvanceCleanup PhaseComplete) = Ok sample_complete.
Proof.
  exact (attempt_replay
    (mkAttempt 6 15 "attempt-1" "claim-1" "vm-1" (Some sample_identity) "glaeda-1" 7 (Some 42) true
       true PhaseReleasing (Some "job-7") (Some "succeeded") 5000)
    sample_complete (AdvanceCleanup PhaseComplete) eq_refl).
Defined.
