(* ===== verification/WorkerReconciler.v ===== *)
(** * Capacity and reconciliation of disposable workers

    [src/src/disposable_worker_reconciler.rs]: how many workers a host may
    take on ([plan_capacity]), and what to do next about one attempt given its
    durable record and an observation of its machine, its runner and its job
    ([reconcile_attempt]).  An [unreachable!()] of the source is [Panic]. *)

From S2P Require Import Prelude Artifact ExecutionAdmission ScaleSetProtocol AttemptState.

Local Open Scope N_scope.

Definition DISPOSABLE_WORKER_RECONCILER_SCHEMA_VERSION : N := 2.
Definition MAX_WORKERS : N := 64.
Definition MAX_BYTES : N := N.shiftl 1 50.
Definition u16_max : N := 65535.

(** ** Capacity *)

Record DisposableWorkerResources := mkWorkerResources {
  wr_cpu_millis : N;
  wr_memory_bytes : N;
  wr_disk_bytes : N;
}.

#[export] Instance worker_resources_eq_dec : EqDecision DisposableWorkerResources.
Proof. solve_decision. Defined.

Definition WorkerResources_new (cpu_millis memory_bytes disk_bytes : N)
    : result DisposableWorkerReconcilerError DisposableWorkerResources :=
  if negb (in_range 1 MAX_CPU_MILLIS cpu_millis)
  then Err (mkReconcilerError "resources.cpu_millis" "invalid_cpu_limit"
         "CPU must be within the bounded positive range")
  else if negb (in_range 1 MAX_BYTES memory_bytes)
  then Err (mkReconcilerError "resources.memory_bytes" "invalid_memory_limit"
         "memory must be within the bounded positive range")
  else if negb (in_range 1 MAX_BYTES disk_bytes)
  then Err (mkReconcilerError "resources.disk_bytes" "invalid_disk_limit"
         "disk must be within the bounded positive range")
  else Ok (mkWorkerResources cpu_millis memory_bytes disk_bytes).

(** Integer division; a zero divisor would panic, which a request built by
    [WorkerResources_new] excludes. *)
Definition worker_capacity_within (self request : DisposableWorkerResources)
    : result DisposableWorkerReconcilerError N :=
  if (wr_cpu_millis request =? 0) || (wr_memory_bytes request =? 0)
     || (wr_disk_bytes request =? 0)
  then Panic
  else Ok (N.min (N.min (wr_cpu_millis self / wr_cpu_millis request)
                    (wr_memory_bytes self / wr_memory_bytes request))
             (wr_disk_bytes self / wr_disk_bytes request)).

Definition worker_fits_within (self limit : DisposableWorkerResources) : bool :=
  (wr_cpu_millis self <=? wr_cpu_millis limit)
  && (wr_memory_bytes self <=? wr_memory_bytes limit)
  && (wr_disk_bytes self <=? wr_disk_bytes limit).

Record DisposableHostBudget := mkHostBudget {
  hb_max_workers : N;
  hb_total : DisposableWorkerResources;
}.

Definition HostBudget_new (max_workers : N) (total : DisposableWorkerResources)
    : result DisposableWorkerReconcilerError DisposableHostBudget :=
  if negb (in_range 1 MAX_WORKERS max_workers)
  then Err (mkReconcilerError "budget.max_workers" "invalid_worker_limit"
         "worker limit must be within the bounded positive range")
  else Ok (mkHostBudget max_workers total).

Record DisposableHostUsage := mkHostUsage {
  hu_workers : N;
  hu_resources : DisposableWorkerResources;
}.

#[export] Instance host_usage_eq_dec : EqDecision DisposableHostUsage.
Proof. solve_decision. Defined.

Definition HostUsage_zero : DisposableHostUsage := mkHostUsage 0 (mkWorkerResources 0 0 0).

Definition HostUsage_new (workers : N) (resources : DisposableWorkerResources)
    : result DisposableWorkerReconcilerError DisposableHostUsage :=
  if MAX_WORKERS <? workers
  then Err (mkReconcilerError "usage.workers" "invalid_worker_usage"
         "observed worker usage exceeds the implementation bound")
  else Ok (mkHostUsage workers resources).

Record ScaleSetDemand := mkDemand {
  dm_assigned_jobs : N;
  dm_running_jobs : N;
  dm_observed_at : EpochMillis;
  dm_expires_at : EpochMillis;
}.

Definition ScaleSetDemand_new (assigned_jobs running_jobs : N) (observed_at expires_at : EpochMillis)
    : result DisposableWorkerReconcilerError ScaleSetDemand :=
  if (MAX_WORKERS <? assigned_jobs) || (assigned_jobs <? running_jobs)
  then Err (mkReconcilerError "demand" "invalid_scale_set_demand"
         "scale-set demand must be bounded and running jobs cannot exceed assigned jobs")
  else if expires_at <? observed_at
  then Err (mkReconcilerError "demand.expires_at" "invalid_demand_window"
         "scale-set demand expiry cannot precede its observation")
  else Ok (mkDemand assigned_jobs running_jobs observed_at expires_at).

Record DisposableCapacityPlan := mkCapacityPlan {
  cp_schema_version : N;
  cp_advertised_max_capacity : N;
  cp_desired_workers : N;
  cp_additional_workers : N;
}.

(** A subtraction that must not underflow. *)
Definition strict_sub {E} (a b : N) : result E N := expect (checked_sub a b).

Definition plan_capacity (now : EpochMillis) (demand : ScaleSetDemand)
    (budget : DisposableHostBudget) (usage : DisposableHostUsage)
    (worker : DisposableWorkerResources)
    : result DisposableWorkerReconcilerError DisposableCapacityPlan :=
  if (now <? dm_observed_at demand) || (dm_expires_at demand <? now)
  then Err (mkReconcilerError "demand" "stale_scale_set_demand"
         "scale-set demand must be current at the capacity decision")
  else if (hb_max_workers budget <? hu_workers usage)
          || negb (worker_fits_within (hu_resources usage) (hb_total budget))
  then Err (mkReconcilerError "usage" "host_budget_exceeded"
         "current worker usage already exceeds the configured host budget")
  else
    let total := hb_total budget in
    let used := hu_resources usage in
    resource_capacity ← worker_capacity_within total worker;
    let advertised_max_capacity :=
      N.min (hb_max_workers budget) (default u16_max (try_from_int u16_max resource_capacity)) in
    let desired_workers := N.min (dm_assigned_jobs demand) advertised_max_capacity in
    cpu ← strict_sub (wr_cpu_millis total) (wr_cpu_millis used);
    memory ← strict_sub (wr_memory_bytes total) (wr_memory_bytes used);
    disk ← strict_sub (wr_disk_bytes total) (wr_disk_bytes used);
    remaining ← worker_capacity_within (mkWorkerResources cpu memory disk) worker;
    let resource_slots := default u16_max (try_from_int u16_max remaining) in
    worker_slots ← strict_sub (hb_max_workers budget) (hu_workers usage);
    let demand_slots := desired_workers - hu_workers usage in
    let additional_workers := N.min (N.min demand_slots worker_slots) resource_slots in
    Ok (mkCapacityPlan DISPOSABLE_WORKER_RECONCILER_SCHEMA_VERSION advertised_max_capacity
          desired_workers additional_workers).

(** ** Reconciliation *)

Inductive DisposableVmObservation :=
| VmUnknown
| VmAbsent
| VmStopped
| VmReady
| VmConflicting.

Inductive ScaleSetRunnerObservation :=
| RunnerUnknown
| RunnerAbsent
| RunnerRegistrationOnly (runner : ScaleSetRunnerReference)
| RunnerIdleReady (runner : ScaleSetRunnerReference)
| RunnerConflicting.

Record DisposableWorkerReconcileInput := mkReconcileInput {
  ri_now : EpochMillis;
  ri_attempt : DisposableAttemptState;
  ri_vm : DisposableVmObservation;
  ri_vm_identity : option DisposableVmIdentity;
  ri_runner : ScaleSetRunnerObservation;
  ri_job_event : option ScaleSetJobEvent;
  ri_capacity_reserved : bool;
  ri_cancellation_requested : bool;
}.

Inductive DisposableWorkerObservationTarget := TargetVm | TargetRunner.

Inductive DisposableWorkerAction :=
| Persist (transition : DisposableAttemptCatalogAction)
| Observe (target : DisposableWorkerObservationTarget)
| CheckpointAndCloneVm
| DiscardIncompleteVm
| CheckpointAndGenerateJit
| Wait
| DestroyVm
| DeleteRunner (runner : ScaleSetRunnerReference)
| ReleaseCapacity
| NoOp
| Blocked (code : string).

Definition validate_transition (attempt : DisposableAttemptState)
    (action : DisposableAttemptCatalogAction)
    : result DisposableWorkerReconcilerError DisposableAttemptCatalogAction :=
  _ ← map_err (λ error, mkReconcilerError "attempt"
        (if negb (String.eqb (ase_code error) "identity_drift")
         then "invalid_attempt_transition" else "github_job_identity_drift")
        "observation cannot advance the durable disposable attempt")
      (transition attempt action);
  Ok action.

Definition validate_vm_observation (attempt : DisposableAttemptState)
    (observation : DisposableVmObservation) (observed_identity : option DisposableVmIdentity)
    : result DisposableWorkerReconcilerError () :=
  let identity_required :=
    match observation with
    | VmStopped | VmReady => true
    | _ => false
    end in
  if negb (Bool.eqb identity_required (is_some observed_identity))
  then Err (mkReconcilerError "vm_identity" "invalid_vm_observation"
         "VM identity evidence does not match the observation state")
  else
    match at_vm_identity attempt, observed_identity with
    | Some current, Some observed =>
        if bool_decide (current ≠ observed)
        then Err (mkReconcilerError "vm_identity" "vm_identity_drift"
               "observed VM identity differs from the durable disposable VM identity")
        else Ok ()
    | _, _ => Ok ()
    end.

Definition validate_runner_observation (attempt : DisposableAttemptState)
    (observation : ScaleSetRunnerObservation) : result DisposableWorkerReconcilerError () :=
  match observation with
  | RunnerRegistrationOnly runner | RunnerIdleReady runner =>
      if bool_decide (rr_name runner ≠ at_runner_name attempt)
         || is_some_and (λ id, negb (id =? rr_id runner)) (at_runner_id attempt)
      then Err (mkReconcilerError "runner" "runner_identity_drift"
             "runner observation differs from the durable runner identity")
      else Ok ()
  | RunnerUnknown | RunnerAbsent | RunnerConflicting => Ok ()
  end.

(** The action an event asks for. *)
Definition event_action (event : ScaleSetJobEvent) : DisposableAttemptCatalogAction :=
  match event with
  | JobStarted runner job_id => RecordRunning runner job_id
  | JobCompleted runner job_id job_result => RecordTerminal runner job_id job_result
  end.

Definition plan_job_event (attempt : DisposableAttemptState) (event : ScaleSetJobEvent)
    : result DisposableWorkerReconcilerError (option DisposableWorkerAction) :=
  let before := at_revision attempt in
  action ← validate_transition attempt (event_action event);
  after ← map_err (λ _, mkReconcilerError "job_event" "invalid_job_event"
            "job event cannot advance the durable attempt")
    match action with
    | RecordRunning runner job_id => record_running attempt runner job_id
    | RecordTerminal runner job_id job_result =>
        record_terminal attempt runner job_id job_result
    | _ => Panic
    end;
  Ok (if negb (at_revision after =? before) then Some (Persist action) else None).

Section reconcile.
Variable input : DisposableWorkerReconcileInput.

(** [input.cancellation_requested || input.now > input.attempt.not_after()]. *)
Definition cleanup_requested : bool :=
  ri_cancellation_requested input || (at_not_after (ri_attempt input) <? ri_now input).

(** [persist(validate_transition(input.attempt, action)?)]. *)
Definition persist_validated (action : DisposableAttemptCatalogAction)
    : result DisposableWorkerReconcilerError DisposableWorkerAction :=
  action ← validate_transition (ri_attempt input) action;
  Ok (Persist action).

(** The arm of [Registering | Assigned] before the runner start. *)
Definition reconcile_unstarted : result DisposableWorkerReconcilerError DisposableWorkerAction :=
  let jit := at_jit_generation_started (ri_attempt input) in
  let bound := is_some (at_runner_id (ri_attempt input)) in
  match ri_runner input with
  | RunnerUnknown => Ok (Observe TargetRunner)
  | RunnerAbsent =>
      if negb jit then Ok CheckpointAndGenerateJit
      else if negb bound then Ok (Blocked "jit_generation_outcome_unknown")
      else Ok (Persist BeginCleanup)
  | RunnerRegistrationOnly runner | RunnerIdleReady runner =>
      if jit && negb bound then persist_validated (RecordRegistration runner)
      else if jit then Ok (Persist BeginCleanup)
      else Ok (Blocked "runner_exists_before_jit_checkpoint")
  | RunnerConflicting => Panic
  end.

(** The arms of [Waiting | Assigned | Running]. *)
Definition reconcile_started : result DisposableWorkerReconcilerError DisposableWorkerAction :=
  if cleanup_requested then Ok (Persist BeginCleanup)
  else
    match ri_vm input with
    | VmUnknown => Ok (Observe TargetVm)
    | VmAbsent | VmStopped => Ok (Persist BeginCleanup)
    | _ =>
        match ri_runner input with
        | RunnerUnknown => Ok (Observe TargetRunner)
        | RunnerAbsent | RunnerRegistrationOnly _ => Ok (Persist BeginCleanup)
        | RunnerIdleReady runner =>
            if negb (is_some (at_runner_id (ri_attempt input)))
            then persist_validated (RecordRunnerReady runner)
            else Ok Wait
        | RunnerConflicting => Panic
        end
    end.

(** The arms of [Registering], and of [Assigned] before the runner start. *)
Definition reconcile_registering (started : result DisposableWorkerReconcilerError DisposableWorkerAction)
    : result DisposableWorkerReconcilerError DisposableWorkerAction :=
  if negb (at_runner_start_started (ri_attempt input))
  then
    match ri_vm input with
    | VmUnknown => Ok (Observe TargetVm)
    | VmAbsent | VmStopped => Ok (Persist BeginCleanup)
    | _ => reconcile_unstarted
    end
  else started.

(** [input.vm_identity.is_some() && input.attempt.vm_identity().is_none()]. *)
Definition unbound_vm : bool :=
  is_some (ri_vm_identity input) && negb (is_some (at_vm_identity (ri_attempt input))).

Definition reconcile_deregistering
    : result DisposableWorkerReconcilerError DisposableWorkerAction :=
  if unbound_vm then Ok (Blocked "unbound_vm_recovery_required")
  else
    match ri_vm input with
    | VmUnknown => Ok (Observe TargetVm)
    | VmStopped | VmReady => Ok DestroyVm
    | _ =>
        let bound := is_some (at_runner_id (ri_attempt input)) in
        match ri_runner input with
        | RunnerUnknown => Ok (Observe TargetRunner)
        | RunnerAbsent => Ok (Persist (AdvanceCleanup PhaseReleasing))
        | RunnerRegistrationOnly runner | RunnerIdleReady runner =>
            if negb bound && at_jit_generation_started (ri_attempt input)
            then persist_validated (RecordRegistration runner)
            else if negb bound then Ok (Blocked "runner_exists_before_jit_checkpoint")
            else Ok (DeleteRunner runner)
        | RunnerConflicting => Panic
        end
    end.

Definition reconcile_releasing : result DisposableWorkerReconcilerError DisposableWorkerAction :=
  if unbound_vm then Ok (Blocked "unbound_vm_recovery_required")
  else
    match ri_vm input with
    | VmUnknown => Ok (Observe TargetVm)
    | VmStopped | VmReady => Ok DestroyVm
    | _ =>
        match ri_runner input with
        | RunnerUnknown => Ok (Observe TargetRunner)
        | RunnerRegistrationOnly runner | RunnerIdleReady runner =>
            if negb (is_some (at_runner_id (ri_attempt input)))
            then persist_validated (RecordRegistration runner)
            else Ok (DeleteRunner runner)
        | RunnerAbsent =>
            if ri_capacity_reserved input then Ok ReleaseCapacity
            else Ok (Persist (AdvanceCleanup PhaseComplete))
        | RunnerConflicting => Panic
        end
    end.

Definition reconcile_complete : result DisposableWorkerReconcilerError DisposableWorkerAction :=
  if ri_capacity_reserved input then Ok (Blocked "completed_attempt_retains_capacity")
  else
    match ri_vm input, ri_runner input with
    | VmUnknown, _ | _, RunnerUnknown => Ok (Blocked "completed_attempt_external_state_unknown")
    | VmAbsent, RunnerAbsent => Ok NoOp
    | _, _ => Ok (Blocked "completed_attempt_retains_external_state")
    end.

(** The [match] on the phase. *)
Definition reconcile_phase : result DisposableWorkerReconcilerError DisposableWorkerAction :=
  match at_phase (ri_attempt input) with
  | PhaseReserved =>
      if cleanup_requested then Ok (Persist BeginUnprovisionedRelease)
      else
        match ri_vm input with
        | VmUnknown => Ok (Observe TargetVm)
        | VmAbsent => Ok (Persist AuthorizeClone)
        | VmStopped | VmReady => Ok (Blocked "vm_exists_before_clone_authorization")
        | VmConflicting => Panic
        end
  | PhaseUnprovisionedReleasing =>
      if ri_capacity_reserved input then Ok ReleaseCapacity else Panic
  | PhaseProvisioning => Ok (Blocked "legacy_provisioning_recovery_required")
  | PhaseCloneAuthorized =>
      if cleanup_requested then Ok (Persist BeginUnprovisionedRelease)
      else
        match ri_vm input with
        | VmUnknown => Ok (Observe TargetVm)
        | VmAbsent => Ok CheckpointAndCloneVm
        | VmStopped | VmReady => Ok (Blocked "vm_changed_before_clone_start")
        | VmConflicting => Panic
        end
  | PhaseCloneStarted =>
      if cleanup_requested then Ok (Persist BeginCleanup)
      else
        match ri_vm input with
        | VmUnknown => Ok (Observe TargetVm)
        | VmAbsent => Ok (Persist BeginCleanup)
        | VmStopped => Ok DiscardIncompleteVm
        | VmReady => Ok (Persist BeginRegistration)
        | VmConflicting => Panic
        end
  | PhaseRegistering =>
      if cleanup_requested then Ok (Persist BeginCleanup)
      else
        reconcile_registering
          match ri_runner input with
          | RunnerUnknown => Ok (Observe TargetRunner)
          | RunnerAbsent | RunnerRegistrationOnly _ => Ok (Persist BeginCleanup)
          | RunnerIdleReady runner => persist_validated (RecordRunnerReady runner)
          | RunnerConflicting => Panic
          end
  | PhaseAssigned =>
      if negb (at_runner_start_started (ri_attempt input)) && cleanup_requested
      then Ok (Persist BeginCleanup)
      else reconcile_registering reconcile_started
  | PhaseWaiting | PhaseRunning => reconcile_started
  | PhaseTerminal => Ok (Persist BeginCleanup)
  | PhaseDestroying =>
      if unbound_vm then Ok (Blocked "unbound_vm_recovery_required")
      else
        match ri_vm input with
        | VmUnknown => Ok (Observe TargetVm)
        | VmStopped | VmReady => Ok DestroyVm
        | VmAbsent => Ok (Persist (AdvanceCleanup PhaseDeregistering))
        | VmConflicting => Panic
        end
  | PhaseDeregistering => reconcile_deregistering
  | PhaseReleasing => reconcile_releasing
  | PhaseComplete => reconcile_complete
  end.

(** What follows the job event. *)
Definition reconcile_capacity : result DisposableWorkerReconcilerError DisposableWorkerAction :=
  let phase := at_phase (ri_attempt input) in
  if negb (ri_capacity_reserved input)
     && match phase with
        | PhaseReserved | PhaseCloneAuthorized | PhaseUnprovisionedReleasing => true
        | _ => false
        end
  then Ok (Persist CompleteUnprovisioned)
  else if negb (ri_capacity_reserved input)
     && match phase with
        | PhaseCloneStarted | PhaseRegistering | PhaseWaiting | PhaseAssigned | PhaseRunning
        | PhaseTerminal => true
        | _ => false
        end
  then Ok (Persist BeginCleanup)
  else reconcile_phase.

Definition reconcile_attempt : result DisposableWorkerReconcilerError DisposableWorkerAction :=
  match ri_vm input with
  | VmConflicting => Ok (Blocked "conflicting_vm_identity")
  | _ =>
      _ ← validate_vm_observation (ri_attempt input) (ri_vm input) (ri_vm_identity input);
      match ri_runner input with
      | RunnerConflicting => Ok (Blocked "conflicting_runner_identity")
      | _ =>
          _ ← validate_runner_observation (ri_attempt input) (ri_runner input);
          if bool_decide (at_phase (ri_attempt input) = PhaseCloneStarted)
             && negb (is_some (at_vm_identity (ri_attempt input)))
          then Ok (Blocked "unbound_vm_recovery_required")
          else
            match ri_job_event input with
            | Some event =>
                planned ← plan_job_event (ri_attempt input) event;
                match planned with
                | Some action => Ok action
                | None => reconcile_capacity
                end
            | None => reconcile_capacity
            end
      end
  end.
End reconcile.
