(* ===== verification/ReconcilerTheorems.v ===== *)
(** * What the reconciler decides

    Totality of the capacity plan and of the reconciliation, what every
    external action is justified by, that proposed transitions apply and make
    progress, and that the control loop around a cancelled attempt terminates
    with nothing left behind. *)

From S2P Require Import Prelude Artifact ExecutionAdmission ScaleSetProtocol AttemptState.
From S2P Require Import AttemptLifecycle WorkerReconciler.

Local Open Scope N_scope.

(** ** Nothing panics *)

Lemma validate_no_panic s : validate s ≠ Panic.
Proof.
  unfold validate, validate_phase. intros H.
  repeat (case_match; try discriminate H); simpl in H;
    repeat (case_match; try discriminate H).
Qed.

Lemma AttemptRevision_next_no_panic r : AttemptRevision_next r ≠ Panic.
Proof. unfold AttemptRevision_next, AttemptRevision_new. no_panic. Qed.

#[export] Hint Resolve validate_no_panic AttemptRevision_next_no_panic : no_panic.

Lemma advance_with_no_panic s phase r j res : advance_with s phase r j res ≠ Panic.
Proof. unfold advance_with. no_panic. Qed.

Lemma validate_runner_no_panic s runner : validate_runner s runner ≠ Panic.
Proof. unfold validate_runner. no_panic. Qed.

Lemma validate_job_no_panic s job : validate_job s job ≠ Panic.
Proof. unfold validate_job. no_panic. Qed.

#[export] Hint Resolve advance_with_no_panic validate_runner_no_panic validate_job_no_panic : no_panic.

Lemma transition_no_panic s action : transition s action ≠ Panic.
Proof.
  destruct action; simpl;
    unfold begin_provisioning, authorize_clone, record_clone_started, begin_registration,
      advance_phase, begin_unprovisioned_release, complete_unprovisioned,
      record_jit_generation_started, record_registration, record_runner_start_started,
      record_runner_ready, record_assigned, record_running, record_running_late,
      record_terminal, record_terminal_new, traverse_option, begin_cleanup, advance_cleanup;
    no_panic.
Qed.

#[export] Hint Resolve transition_no_panic : no_panic.

Lemma validate_transition_no_panic s action : validate_transition s action ≠ Panic.
Proof. unfold validate_transition. no_panic. Qed.

#[export] Hint Resolve validate_transition_no_panic : no_panic.

Lemma persist_validated_no_panic input action : persist_validated input action ≠ Panic.
Proof. unfold persist_validated. no_panic. Qed.

#[export] Hint Resolve persist_validated_no_panic : no_panic.

Lemma plan_job_event_no_panic s event : plan_job_event s event ≠ Panic.
Proof.
  unfold plan_job_event. intros H. apply bind_Panic in H as [H|(action & Ha & H)].
  { by apply validate_transition_no_panic in H. }
  unfold validate_transition in Ha. apply bind_Ok in Ha as (s' & _ & [= <-]).
  destruct event as [runner job|runner job res]; simpl in H;
    apply bind_Panic in H as [H|(after & _ & [=])]; apply map_err_Panic in H.
  - by apply (transition_no_panic s (RecordRunning runner job)).
  - by apply (transition_no_panic s (RecordTerminal runner job res)).
Qed.

Lemma reconcile_capacity_no_panic input :
  ri_vm input ≠ VmConflicting → ri_runner input ≠ RunnerConflicting →
  reconcile_capacity input ≠ Panic.
Proof.
  intros Hvm Hrunner.
  unfold reconcile_capacity, reconcile_phase, reconcile_registering, reconcile_started,
    reconcile_unstarted, reconcile_deregistering, reconcile_releasing, reconcile_complete.
  intros H. destruct (ri_capacity_reserved input) eqn:Hcap; simpl in H;
    destruct (at_phase (ri_attempt input)); simpl in H; inv_panic H; try congruence;
    by apply persist_validated_no_panic in H.
Qed.

Lemma reconcile_attempt_no_panic input : reconcile_attempt input ≠ Panic.
Proof.
  unfold reconcile_attempt. intros H.
  destruct (ri_vm input) eqn:Hvm; try discriminate H; try (destruct (ri_runner input) eqn:Hrunner);
    inv_panic H;
    try (by apply plan_job_event_no_panic in H);
    try (by apply reconcile_capacity_no_panic in H; [done|rewrite ?Hvm, ?Hrunner..]);
    unfold validate_vm_observation, validate_runner_observation in *; by inv_panic H.
Qed.

(** ** The capacity plan *)

Definition positive_worker (w : DisposableWorkerResources) : Prop :=
  0 < wr_cpu_millis w ∧ 0 < wr_memory_bytes w ∧ 0 < wr_disk_bytes w.

(** [k] workers beside what is in use stay within the total. *)
Definition workers_fit (total used worker : DisposableWorkerResources) (k : N) : Prop :=
  wr_cpu_millis used + k * wr_cpu_millis worker ≤ wr_cpu_millis total ∧
  wr_memory_bytes used + k * wr_memory_bytes worker ≤ wr_memory_bytes total ∧
  wr_disk_bytes used + k * wr_disk_bytes worker ≤ wr_disk_bytes total.

Lemma div_fits a b c k : 0 < c → b ≤ a → k ≤ (a - b) / c ↔ b + k * c ≤ a.
Proof.
  intros Hc Hb. split.
  - intros Hk. assert (k * c ≤ a - b); [|lia].
    etrans; [apply N.mul_le_mono_r, Hk|]. rewrite N.mul_comm. apply N.Div0.mul_div_le.
  - intros Hk. apply N.div_le_lower_bound; lia.
Qed.

Lemma worker_capacity_Ok self worker :
  positive_worker worker →
  worker_capacity_within self worker =
    Ok (N.min (N.min (wr_cpu_millis self / wr_cpu_millis worker)
                 (wr_memory_bytes self / wr_memory_bytes worker))
          (wr_disk_bytes self / wr_disk_bytes worker)).
Proof.
  intros (Hc & Hm & Hd). unfold worker_capacity_within.
  by rewrite !(proj2 (N.eqb_neq _ _)) by lia.
Qed.

Lemma clamp_le k v : k ≤ u16_max → k ≤ default u16_max (try_from_int u16_max v) ↔ k ≤ v.
Proof. unfold try_from_int. intros Hk. destruct (N.leb_spec v u16_max); simpl; lia. Qed.

Lemma capacity_le total used worker k :
  positive_worker worker → worker_fits_within used total = true →
  k ≤ N.min (N.min ((wr_cpu_millis total - wr_cpu_millis used) / wr_cpu_millis worker)
               ((wr_memory_bytes total - wr_memory_bytes used) / wr_memory_bytes worker))
        ((wr_disk_bytes total - wr_disk_bytes used) / wr_disk_bytes worker)
  ↔ workers_fit total used worker k.
Proof.
  intros (Hc & Hm & Hd) Hfits. unfold worker_fits_within in Hfits. bprop.
  unfold workers_fit. rewrite !N.min_glb_iff, !div_fits by done. tauto.
Qed.

Lemma zero_fits total : worker_fits_within (mkWorkerResources 0 0 0) total = true.
Proof. unfold worker_fits_within. simpl. by rewrite !(proj2 (N.leb_le 0 _)) by lia. Qed.

(** The capacity plan is exact.  For a current demand, a usage within the
    budget and a worker of positive size it never panics, and the number of
    additional workers is the largest one that demand, worker slots and every
    resource allow: taking that many on cannot overcommit the host. *)
Theorem capacity_plan_exact (now : N) (demand : ScaleSetDemand) (budget : DisposableHostBudget)
    (usage : DisposableHostUsage) (worker : DisposableWorkerResources)
    (Hworker : positive_worker worker) (Hmax : hb_max_workers budget ≤ MAX_WORKERS)
    (Hnow : dm_observed_at demand ≤ now ≤ dm_expires_at demand)
    (Hslots : hu_workers usage ≤ hb_max_workers budget)
    (Hfits : worker_fits_within (hu_resources usage) (hb_total budget) = true) :
  ∃ plan, plan_capacity now demand budget usage worker = Ok plan ∧
    (∀ k, k ≤ cp_advertised_max_capacity plan ↔
       k ≤ hb_max_workers budget ∧ workers_fit (hb_total budget) (mkWorkerResources 0 0 0) worker k) ∧
    (∀ k, k ≤ cp_additional_workers plan ↔
       (k = 0 ∨ hu_workers usage + k ≤ dm_assigned_jobs demand ∧
                hu_workers usage + k ≤ cp_advertised_max_capacity plan) ∧
       hu_workers usage + k ≤ hb_max_workers budget ∧
       workers_fit (hb_total budget) (hu_resources usage) worker k).
Proof.
  pose proof Hfits as Hsub. unfold worker_fits_within in Hsub. bprop.
  unfold plan_capacity, strict_sub, checked_sub. rewrite Hfits, worker_capacity_Ok by done.
  rewrite !(proj2 (N.ltb_ge _ _)), !(proj2 (N.leb_le _ _)) by lia. simpl.
  rewrite worker_capacity_Ok by done. simpl. eexists. split; [reflexivity|]. simpl.
  assert (∀ k, k ≤ hb_max_workers budget → k ≤ u16_max) as Hsmall
    by (unfold MAX_WORKERS, u16_max in *; lia).
  assert (∀ k, k ≤ N.min (hb_max_workers budget) (default u16_max (try_from_int u16_max
      (N.min (N.min (wr_cpu_millis (hb_total budget) / wr_cpu_millis worker)
                    (wr_memory_bytes (hb_total budget) / wr_memory_bytes worker))
             (wr_disk_bytes (hb_total budget) / wr_disk_bytes worker)))) ↔
    k ≤ hb_max_workers budget ∧
      workers_fit (hb_total budget) (mkWorkerResources 0 0 0) worker k) as Hadv.
  { intros k. rewrite N.min_glb_iff.
    destruct (N.le_gt_cases k (hb_max_workers budget)) as [Hk|]; [|lia].
    rewrite clamp_le by auto.
    rewrite <-(capacity_le (hb_total budget) (mkWorkerResources 0 0 0) worker k)
      by (done || apply zero_fits).
    simpl. rewrite !N.sub_0_r. tauto. }
  split; [done|]. intros k. revert Hadv.
  match goal with |- context [N.min (dm_assigned_jobs demand) ?a] => generalize a end.
  intros adv _. rewrite !N.min_glb_iff.
  destruct (N.le_gt_cases (hu_workers usage + k) (hb_max_workers budget)) as [Hk|]; [|lia].
  rewrite clamp_le by (apply Hsmall; lia). rewrite capacity_le by done.
  assert (k ≤ N.min (dm_assigned_jobs demand) adv - hu_workers usage ↔
    k = 0 ∨ hu_workers usage + k ≤ dm_assigned_jobs demand ∧ hu_workers usage + k ≤ adv) as -> by lia.
  assert (k ≤ hb_max_workers budget - hu_workers usage ↔
    hu_workers usage + k ≤ hb_max_workers budget) as -> by lia.
  tauto.
Qed.

(** ** What an action is justified by *)

(** The observation passed the checks of [reconcile_attempt]. *)
Record observed (input : DisposableWorkerReconcileInput) : Prop := {
  ob_vm : ri_vm input ≠ VmConflicting;
  ob_runner : ri_runner input ≠ RunnerConflicting;
  ob_identity : is_some (ri_vm_identity input) = true ↔
    ri_vm input = VmStopped ∨ ri_vm input = VmReady;
  ob_same_vm : ∀ i j, at_vm_identity (ri_attempt input) = Some i →
    ri_vm_identity input = Some j → i = j;
  ob_same_runner : ∀ r, ri_runner input = RunnerRegistrationOnly r ∨
    ri_runner input = RunnerIdleReady r →
    rr_name r = at_runner_name (ri_attempt input) ∧
    keeps (at_runner_id (ri_attempt input)) (Some (rr_id r));
  ob_bound : ¬ (at_phase (ri_attempt input) = PhaseCloneStarted ∧
                at_vm_identity (ri_attempt input) = None);
}.

Lemma validate_runner_observation_Ok s obs :
  validate_runner_observation s obs = Ok () →
  ∀ r, obs = RunnerRegistrationOnly r ∨ obs = RunnerIdleReady r →
  rr_name r = at_runner_name s ∧ keeps (at_runner_id s) (Some (rr_id r)).
Proof.
  intros H r Hr. unfold validate_runner_observation in H.
  destruct Hr as [-> | ->]; apply ok_guard in H as [H _]; bprop; (split; [done|]);
    intros c Hc; rewrite Hc in *; simpl in *; bprop; by subst.
Qed.

Lemma validate_vm_observation_Ok s vm identity :
  validate_vm_observation s vm identity = Ok () →
  (is_some identity = true ↔ vm = VmStopped ∨ vm = VmReady) ∧
  ∀ i j, at_vm_identity s = Some i → identity = Some j → i = j.
Proof.
  unfold validate_vm_observation. intros H. apply ok_guard in H as [Hreq H]. bprop. split.
  - destruct vm, identity; simpl in *; naive_solver.
  - intros i j Hi Hj. rewrite Hi, Hj in H. apply ok_guard in H as [H _]. by bprop.
Qed.

(** How an action came about: blocked at the door, asked for by an event, or
    decided from the phase. *)
Lemma reconcile_inv input action :
  reconcile_attempt input = Ok action →
  (∃ code, action = Blocked code) ∨
  observed input ∧
    ((∃ event, ri_job_event input = Some event ∧
        plan_job_event (ri_attempt input) event = Ok (Some action)) ∨
     reconcile_capacity input = Ok action).
Proof.
  unfold reconcile_attempt. intros H.
  destruct (ri_vm input) eqn:Hvm; try (injection H as <-; eauto; fail);
  apply bind_Ok in H as ([] & [Hid Hsame]%validate_vm_observation_Ok & H);
  destruct (ri_runner input) eqn:Hr; try (injection H as <-; eauto; fail);
  apply bind_Ok in H as ([] & Hsr & H);
  pose proof (validate_runner_observation_Ok _ _ Hsr) as Hsame';
  (destruct (bool_decide (at_phase (ri_attempt input) = PhaseCloneStarted)
             && negb (is_some (at_vm_identity (ri_attempt input)))) eqn:Hb;
    [injection H as <-; eauto|]);
  right; (split;
    [split; rewrite ?Hvm, ?Hr; try done; intros [Hp Hn]; rewrite Hp, Hn in Hb; done|]);
  (destruct (ri_job_event input) as [event|]; [|by right]);
  apply bind_Ok in H as ([planned|] & Hplan & H); try (by right);
  injection H as ->; eauto.
Qed.

(** ** Proposed transitions apply *)

(** A valid record before the clone checkpoint carries nothing. *)
Lemma valid_pre_clone s :
  validate s = Ok () →
  at_phase s = PhaseReserved ∨ at_phase s = PhaseCloneAuthorized ∨
    at_phase s = PhaseUnprovisionedReleasing →
  ∃ a c v n r t rev phase,
    s = mkAttempt DISPOSABLE_ATTEMPT_STATE_SCHEMA_VERSION rev a c v None n r None false false phase
          None None t ∧
    match phase with
    | PhaseReserved => rev = 1
    | PhaseCloneAuthorized => rev = 2
    | _ => rev = 2 ∨ rev = 3
    end.
Proof.
  intros Hval Hphase. destruct (validate_evidence s Hval) as [Hev Hshape].
  pose proof (valid_evidence s Hval) as He. destruct (valid_order s Hval) as (_ & H1 & H2 & _).
  assert (at_schema_version s = DISPOSABLE_ATTEMPT_STATE_SCHEMA_VERSION) as Hschema
    by (unfold evidence_ok in Hev; by bprop).
  destruct s as [v rev a c vm vi n r rid jit start phase job res t]; simpl in *.
  assert (vi = None ∧ rid = None ∧ job = None ∧ res = None) as (-> & -> & -> & ->)
    by (destruct Hphase as [Hp|[Hp|Hp]]; by rewrite Hp in He).
  destruct jit; [by specialize (H1 eq_refl)|]. destruct start; [by specialize (H2 eq_refl)|].
  rewrite Hschema. do 8 eexists. split; [reflexivity|].
  destruct Hphase as [-> |[-> | ->]]; simpl in Hshape; bprop; lia.
Qed.

(** The action makes the record advance by one revision. *)
Definition advances (s : DisposableAttemptState) (action : DisposableAttemptCatalogAction) : Prop :=
  ∃ s', transition s action = Ok s' ∧ at_revision s' = at_revision s + 1.

Lemma pre_clone_advances s action :
  validate s = Ok () →
  at_phase s = PhaseReserved ∧
    (action = AuthorizeClone ∨ action = BeginUnprovisionedRelease ∨ action = CompleteUnprovisioned) ∨
  at_phase s = PhaseCloneAuthorized ∧
    (action = RecordCloneStarted ∨ action = BeginUnprovisionedRelease ∨
     action = CompleteUnprovisioned) ∨
  at_phase s = PhaseUnprovisionedReleasing ∧ action = CompleteUnprovisioned →
  advances s action.
Proof.
  intros Hval Hcase.
  destruct (valid_pre_clone s Hval) as (a & c & v & n & r & t & rev & phase & -> & Hrev); [tauto|].
  simpl in Hcase.
  destruct Hcase as [[-> Ha]|[[-> Ha]|[-> ->]]]; [destruct Ha as [-> |[-> | ->]]..|];
    repeat destruct Hrev as [Hrev|Hrev]; subst rev; eexists; split; reflexivity.
Qed.

Lemma clone_started_advances s :
  validate s = Ok () → at_phase s = PhaseCloneStarted → is_some (at_vm_identity s) = true →
  advances s BeginRegistration.
Proof.
  intros Hval Hp Hvm. destruct (validate_evidence s Hval) as [Hev Hshape].
  pose proof (valid_evidence s Hval) as He. pose proof (valid_machine s Hval) as Hm.
  destruct (valid_order s Hval) as (_ & _ & H2 & _).
  assert (at_schema_version s = DISPOSABLE_ATTEMPT_STATE_SCHEMA_VERSION) as Hschema
    by (unfold evidence_ok in Hev; by bprop).
  destruct s as [v rev a c vm vi n r rid jit start phase job res t]; simpl in *.
  subst phase v. destruct He as (-> & -> & -> & ->).
  destruct start; [by specialize (H2 eq_refl)|]. destruct vi as [i|]; [|done].
  simpl in Hshape. bprop. assert (rev ≠ 3) by (intros Heq; by apply Hm in Heq). assert (rev = 4) as -> by lia.
  eexists. split; reflexivity.
Qed.

Lemma cleanup_advances s :
  validate s = Ok () → 3 ≤ phase_rank (at_phase s) → is_cleanup (at_phase s) = false →
  ¬ (at_phase s = PhaseCloneStarted ∧ at_vm_identity s = None) →
  at_revision s + 1 ≤ MAX_DISPOSABLE_ATTEMPT_REVISION → advances s BeginCleanup.
Proof.
  intros Hval Hrank Hcl Hbound Hmax.
  assert (is_some (at_vm_identity s) = true) as Hvm.
  { pose proof (valid_machine s Hval) as Hm. pose proof (valid_evidence s Hval) as He.
    destruct (at_phase s); try done. destruct (at_vm_identity s); [done|]. by destruct Hbound. }
  eexists. split; [by apply begin_cleanup_applies|done].
Qed.

Lemma advance_cleanup_advances s phase' :
  (at_phase s, phase') ∈
    [(PhaseDestroying, PhaseDeregistering); (PhaseDeregistering, PhaseReleasing);
     (PhaseReleasing, PhaseComplete)] →
  validate s = Ok () → at_revision s + 1 ≤ MAX_DISPOSABLE_ATTEMPT_REVISION →
  advances s (AdvanceCleanup phase').
Proof.
  intros Hnext Hval Hmax. pose proof (valid_machine s Hval) as Hm.
  assert (is_some (at_vm_identity s) = true) as Hvm.
  { destruct (at_phase s); try done;
      repeat (apply elem_of_cons in Hnext as [[=]|Hnext]); by apply elem_of_nil in Hnext. }
  destruct (advance_cleanup_applies s _ phase' eq_refl Hnext Hval Hvm Hmax)
    as (s' & H & _ & _ & _ & Hrev).
  by exists s'.
Qed.

Lemma validated_advances input action proposed :
  validate (ri_attempt input) = Ok () → persist_validated input action = Ok proposed →
  (∀ s', transition (ri_attempt input) action = Ok s' → s' ≠ ri_attempt input) →
  proposed = Persist action ∧ advances (ri_attempt input) action.
Proof.
  unfold persist_validated, validate_transition. intros Hval H Hne.
  apply bind_Ok in H as (x & Hx & H). apply bind_Ok in Hx as (s' & Hs' & Hx).
  apply map_err_Ok in Hs'. injection Hx as <-. injection H as <-. split; [done|].
  exists s'. split; [done|].
  destruct (sf_revision _ _ (transition_facts _ _ _ Hval Hs')) as [Heq|]; [|done].
  by destruct (Hne s' Hs').
Qed.

Lemma event_advances s event action :
  validate s = Ok () → plan_job_event s event = Ok (Some action) →
  action = Persist (event_action event) ∧ advances s (event_action event).
Proof.
  unfold plan_job_event, validate_transition. intros Hval H.
  apply bind_Ok in H as (x & Hx & H). apply bind_Ok in Hx as (s' & Hs' & Hx).
  apply map_err_Ok in Hs'. injection Hx as <-. apply bind_Ok in H as (after & Hafter & H).
  apply map_err_Ok in Hafter.
  assert (after = s') as ->
    by (destruct event; simpl in *; rewrite Hs' in Hafter; congruence).
  destruct (negb _) eqn:Hne; [|discriminate H]. injection H as <-. bprop. split; [done|].
  exists s'. split; [done|].
  destruct (sf_revision _ _ (transition_facts _ _ _ Hval Hs')) as [->|]; done.
Qed.

(** The observed machine is the one the attempt has recorded. *)
Definition owns_observed_vm (input : DisposableWorkerReconcileInput) : Prop :=
  ∃ i, at_vm_identity (ri_attempt input) = Some i ∧ ri_vm_identity input = Some i.

(** What must hold for an action to be taken. *)
Definition justified (input : DisposableWorkerReconcileInput) (action : DisposableWorkerAction)
    : Prop :=
  let attempt := ri_attempt input in
  match action with
  | Persist change => advances attempt change
  | CheckpointAndCloneVm =>
      at_phase attempt = PhaseCloneAuthorized ∧ ri_vm input = VmAbsent ∧
      ri_capacity_reserved input = true ∧ cleanup_requested input = false ∧
      advances attempt RecordCloneStarted
  | DiscardIncompleteVm =>
      at_phase attempt = PhaseCloneStarted ∧ ri_vm input = VmStopped ∧ owns_observed_vm input
  | CheckpointAndGenerateJit =>
      is_registering_or_assigned (at_phase attempt) = true ∧
      at_jit_generation_started attempt = false ∧ ri_runner input = RunnerAbsent ∧
      ri_vm input = VmReady ∧ owns_observed_vm input ∧ ri_capacity_reserved input = true ∧
      cleanup_requested input = false
  | Wait =>
      ri_vm input = VmReady ∧ owns_observed_vm input ∧ at_runner_start_started attempt = true ∧
      cleanup_requested input = false
  | DestroyVm =>
      is_cleanup (at_phase attempt) = true ∧ owns_observed_vm input
  | DeleteRunner runner =>
      is_cleanup (at_phase attempt) = true ∧ ri_vm input = VmAbsent ∧
      at_runner_id attempt = Some (rr_id runner) ∧ at_runner_name attempt = rr_name runner ∧
      at_jit_generation_started attempt = true
  | ReleaseCapacity =>
      ri_capacity_reserved input = true ∧
      (at_phase attempt = PhaseUnprovisionedReleasing ∧ at_vm_identity attempt = None ∨
       at_phase attempt = PhaseReleasing ∧ ri_vm input = VmAbsent ∧ ri_runner input = RunnerAbsent)
  | NoOp =>
      at_phase attempt = PhaseComplete ∧ ri_vm input = VmAbsent ∧ ri_runner input = RunnerAbsent ∧
      ri_capacity_reserved input = false
  | Observe _ | Blocked _ => True
  end.

Section justification.
Context (input : DisposableWorkerReconcileInput).
Context (Hval : validate (ri_attempt input) = Ok ()) (Hob : observed input).
Context (Hmax : at_revision (ri_attempt input) + 1 ≤ MAX_DISPOSABLE_ATTEMPT_REVISION).

(** A machine seen in a phase that requires one is the recorded one. *)
Lemma seen_vm_owned :
  ri_vm input = VmStopped ∨ ri_vm input = VmReady → is_some (at_vm_identity (ri_attempt input)) = true →
  owns_observed_vm input.
Proof.
  intros Hvm Hown. apply (ob_identity _ Hob) in Hvm.
  destruct (at_vm_identity (ri_attempt input)) as [i|] eqn:Hi; [|done].
  destruct (ri_vm_identity input) as [j|] eqn:Hj; [|done].
  exists i. split; [done|]. rewrite (ob_same_vm _ Hob i j Hi Hj). done.
Qed.

(** From the clone checkpoint on, an attempt at this point of the decision has
    recorded its machine. *)
Lemma machine_recorded :
  3 ≤ phase_rank (at_phase (ri_attempt input)) → at_phase (ri_attempt input) ≠ PhaseComplete →
  is_some (at_vm_identity (ri_attempt input)) = true.
Proof.
  intros Hrank Hopen. pose proof (valid_machine _ Hval) as Hm. pose proof (ob_bound _ Hob) as Hb.
  pose proof (valid_evidence _ Hval) as He.
  destruct (at_phase (ri_attempt input)); try done.
  destruct (at_vm_identity (ri_attempt input)); [done|]. by destruct Hb.
Qed.

Lemma runner_deleted runner :
  ri_runner input = RunnerRegistrationOnly runner ∨ ri_runner input = RunnerIdleReady runner →
  is_some (at_runner_id (ri_attempt input)) = true →
  at_runner_id (ri_attempt input) = Some (rr_id runner) ∧
  at_runner_name (ri_attempt input) = rr_name runner ∧
  at_jit_generation_started (ri_attempt input) = true.
Proof.
  intros Hr Hbound. destruct (ob_same_runner _ Hob runner Hr) as [Hname Hkeep].
  destruct (valid_order _ Hval) as (Hjit & _).
  destruct (at_runner_id (ri_attempt input)) as [id|]; [|done].
  split_and!; [by rewrite (Hkeep id eq_refl)|done|by apply Hjit].
Qed.

Lemma registration_justified runner action :
  at_runner_id (ri_attempt input) = None →
  persist_validated input (RecordRegistration runner) = Ok action → justified input action.
Proof.
  intros Hnone H. apply validated_advances in H as [-> H]; [done..|].
  intros s' Hs' ->. simpl in Hs'. apply registered_runner in Hs' as [Hs' _]. congruence.
Qed.

Lemma started_justified action :
  at_runner_start_started (ri_attempt input) = true →
  at_phase (ri_attempt input) = PhaseWaiting ∨ at_phase (ri_attempt input) = PhaseAssigned ∨
    at_phase (ri_attempt input) = PhaseRunning →
  reconcile_started input = Ok action → justified input action.
Proof.
  intros Hst Hphase H. unfold reconcile_started in H.
  assert (advances (ri_attempt input) BeginCleanup) as Hadv.
  { apply cleanup_advances; try done; destruct Hphase as [Hp|[Hp|Hp]]; rewrite Hp; try done;
      by intros [[=] _]. }
  destruct (valid_order _ Hval) as (_ & _ & Hrun & _). specialize (Hrun Hst).
  inv_ok H; try (injection H as <-); try done;
    try (match goal with Hb : negb _ = true |- _ => rewrite Hrun in Hb; discriminate Hb end).
  all: pose proof (ob_vm _ Hob); try congruence; simpl; split_and!; try done.
  all: apply seen_vm_owned; [by right|]; apply machine_recorded;
    destruct Hphase as [Hp|[Hp|Hp]]; rewrite Hp; vm_compute; discriminate.
Qed.

Lemma unstarted_justified action :
  is_registering_or_assigned (at_phase (ri_attempt input)) = true →
  ri_vm input = VmReady → ri_capacity_reserved input = true → cleanup_requested input = false →
  reconcile_unstarted input = Ok action → justified input action.
Proof.
  intros Hphase Hvm Hcap Hcl H.
  assert (3 ≤ phase_rank (at_phase (ri_attempt input)) ∧
    is_cleanup (at_phase (ri_attempt input)) = false ∧
    at_phase (ri_attempt input) ≠ PhaseComplete ∧ at_phase (ri_attempt input) ≠ PhaseCloneStarted)
    as (Hrank & Hopen & Hnc & Hns) by (destruct (at_phase (ri_attempt input)); done).
  assert (advances (ri_attempt input) BeginCleanup) as Hadv
    by (apply cleanup_advances; try done; by intros []).
  unfold reconcile_unstarted in H.
  inv_ok H; try (injection H as <-); try done.
  1: simpl; bprop; split_and!; try done;
    apply seen_vm_owned; [by right|by apply machine_recorded].
  all: eapply registration_justified; [|exact H]; bprop;
    by destruct (at_runner_id (ri_attempt input)).
Qed.

Lemma cleaning_justified action :
  at_phase (ri_attempt input) = PhaseDeregistering ∧ reconcile_deregistering input = Ok action ∨
  at_phase (ri_attempt input) = PhaseReleasing ∧ reconcile_releasing input = Ok action →
  justified input action.
Proof.
  intros H. pose proof (ob_vm _ Hob) as Hnc.
  assert (∀ runner, at_phase (ri_attempt input) = PhaseDeregistering ∨
      at_phase (ri_attempt input) = PhaseReleasing → ri_vm input = VmAbsent →
    ri_runner input = RunnerRegistrationOnly runner ∨ ri_runner input = RunnerIdleReady runner →
    negb (is_some (at_runner_id (ri_attempt input))) = false →
    justified input (DeleteRunner runner)) as Hdel.
  { intros runner Hp Hvm Hr Hb. bprop. destruct (runner_deleted runner Hr Hb) as (? & ? & ?).
    simpl. split_and!; try done. by destruct Hp as [-> | ->]. }
  assert (at_phase (ri_attempt input) = PhaseDeregistering ∨
    at_phase (ri_attempt input) = PhaseReleasing → ri_vm input = VmStopped ∨ ri_vm input = VmReady →
    justified input DestroyVm) as Hdes.
  { intros Hp Hvm. simpl. split; [by destruct Hp as [-> | ->]|]. apply seen_vm_owned; [done|].
    apply machine_recorded; destruct Hp as [-> | ->]; vm_compute; discriminate. }
  assert (∀ runner, negb (is_some (at_runner_id (ri_attempt input))) = true →
    persist_validated input (RecordRegistration runner) = Ok action → justified input action) as Hreg.
  { intros runner Hb Hp. bprop. eapply registration_justified; [|exact Hp].
    by destruct (at_runner_id (ri_attempt input)). }
  unfold reconcile_deregistering, reconcile_releasing in H.
  destruct H as [[Hp H]|[Hp H]]; inv_ok H; try (injection H as <-); try congruence;
    try (exact I); try (by apply Hdes; auto); try (by apply Hdel; auto); bprop;
    try (eapply Hreg; [first [done|by apply negb_true_iff]|exact H]);
    simpl; auto; apply advance_cleanup_advances; try done; rewrite Hp; set_solver.
Qed.
End justification.

Lemma valid_started s :
  validate s = Ok () → at_phase s = PhaseWaiting ∨ at_phase s = PhaseRunning →
  at_runner_start_started s = true.
Proof.
  unfold validate. intros Hv Hp. do 7 (apply ok_guard in Hv as [_ Hv]).
  apply bind_Ok in Hv as (u & Hph & _). unfold validate_phase in Hph.
  destruct Hp as [Hp|Hp]; rewrite Hp in Hph; apply ok_guard in Hph as [Hph _]; by bprop.
Qed.

Lemma registering_justified input started action :
  validate (ri_attempt input) = Ok () → observed input →
  at_revision (ri_attempt input) + 1 ≤ MAX_DISPOSABLE_ATTEMPT_REVISION →
  ri_capacity_reserved input = true → is_registering_or_assigned (at_phase (ri_attempt input)) = true →
  (at_runner_start_started (ri_attempt input) = false → cleanup_requested input = false) →
  (at_runner_start_started (ri_attempt input) = true → started = Ok action → justified input action) →
  reconcile_registering input started = Ok action → justified input action.
Proof.
  intros Hval Hob Hmax Hcap Hphase Hcl Hstarted H. unfold reconcile_registering in H.
  assert (advances (ri_attempt input) BeginCleanup) as Hadv.
  { apply cleanup_advances; try done; try (by destruct (at_phase (ri_attempt input))).
    apply (ob_bound _ Hob). }
  destruct (at_runner_start_started (ri_attempt input)); simpl in H; [by apply Hstarted|].
  destruct (ri_vm input) eqn:Hvm; try (by injection H as <-).
  - by apply unstarted_justified; auto.
  - by destruct (ob_vm _ Hob).
Qed.

(** In the phases before cleanup the capacity is still reserved at this point
    of the decision. *)
Lemma phase_justified input action :
  validate (ri_attempt input) = Ok () → observed input →
  at_revision (ri_attempt input) + 1 ≤ MAX_DISPOSABLE_ATTEMPT_REVISION →
  ri_capacity_reserved input = true ∨ is_cleanup (at_phase (ri_attempt input)) = true →
  reconcile_phase input = Ok action → justified input action.
Proof.
  intros Hval Hob Hmax Hcap H. unfold reconcile_phase in H.
  assert (3 ≤ phase_rank (at_phase (ri_attempt input)) →
    is_cleanup (at_phase (ri_attempt input)) = false → advances (ri_attempt input) BeginCleanup) as Hadv
    by (intros; apply cleanup_advances; try done; apply (ob_bound _ Hob)).
  pose proof (machine_recorded input Hval Hob) as Hown. pose proof (ob_vm _ Hob) as Hnc.
  pose proof (pre_clone_advances (ri_attempt input)) as Hpre.
  pose proof (seen_vm_owned input Hob) as Hseen.
  destruct (at_phase (ri_attempt input)) eqn:Hp; simpl in Hadv, Hown, Hcap;
    try (specialize (Hadv ltac:(vm_compute; discriminate) eq_refl));
    try (specialize (Hown ltac:(vm_compute; discriminate) ltac:(done)));
    try (destruct Hcap as [Hcap|?]; [|done]).
  - inv_ok H; injection H as <-; try done; apply Hpre; auto 10.
  - inv_ok H; injection H as <-. simpl. split; [done|]. left. split; [done|].
    pose proof (valid_evidence _ Hval) as Hev. rewrite Hp in Hev. by destruct Hev.
  - by injection H as <-.
  - inv_ok H; injection H as <-; try done; [apply Hpre; auto 10|].
    simpl. split_and!; try done. apply Hpre; auto 10.
  - inv_ok H; injection H as <-; try done; [simpl; auto|]. by apply clone_started_advances.
  - destruct (cleanup_requested input) eqn:Hcl; [by injection H as <-|].
    eapply registering_justified in H; try done; [by rewrite Hp|].
    intros Hst Hs. inv_ok Hs; try (injection Hs as <-); try done.
    apply validated_advances in Hs as [-> ?]; [done..|].
    intros s' Hs' ->. simpl in Hs'. apply ready_runner in Hs' as (_ & _ & _ & Hs').
    rewrite Hp in Hs'. naive_solver.
  - eapply started_justified; eauto. apply valid_started; auto.
  - destruct (_ && _) eqn:Hg; [by injection H as <-|].
    eapply registering_justified in H; try done; [by rewrite Hp| |].
    + intros Hst. rewrite Hst in Hg. by destruct (cleanup_requested input).
    + intros Hst. apply started_justified; auto.
  - eapply started_justified; eauto. apply valid_started; auto.
  - by injection H as <-.
  - inv_ok H; injection H as <-; try done; simpl; rewrite ?Hp; auto.
    apply advance_cleanup_advances; try done. rewrite Hp. set_solver.
  - apply cleaning_justified; auto.
  - apply cleaning_justified; auto.
  - unfold reconcile_complete in H. inv_ok H; injection H as <-; try done.
Qed.

Lemma reconcile_justified input action :
  validate (ri_attempt input) = Ok () →
  at_revision (ri_attempt input) + 1 ≤ MAX_DISPOSABLE_ATTEMPT_REVISION →
  reconcile_attempt input = Ok action → justified input action.
Proof.
  intros Hval Hmax H. apply reconcile_inv in H as [[code ->]|[Hob [(event & _ & H)|H]]]; [done| |].
  { by apply event_advances in H as [-> H]. }
  unfold reconcile_capacity in H.
  assert (advances (ri_attempt input) BeginCleanup ∨
    at_phase (ri_attempt input) = PhaseProvisioning ∨
    phase_rank (at_phase (ri_attempt input)) < 3 ∨ is_cleanup (at_phase (ri_attempt input)) = true) as Hadv.
  { destruct (N.le_gt_cases 3 (phase_rank (at_phase (ri_attempt input)))); [|auto].
    destruct (is_cleanup _) eqn:Hcl; [auto|]. left. apply cleanup_advances; try done. apply (ob_bound _ Hob). }
  destruct (ri_capacity_reserved input) eqn:Hcap; simpl in H.
  { apply phase_justified; auto. }
  destruct (at_phase (ri_attempt input)) eqn:Hp; simpl in *;
    try (injection H as <-; apply pre_clone_advances; auto 10; fail);
    try (injection H as <-; by destruct Hadv as [|[|[|]]]).
  all: try (apply phase_justified; rewrite ?Hp; auto; fail).
  by pose proof (valid_evidence _ Hval) as He; rewrite Hp in He.
Qed.

(** (C20) Whatever is observed, reconciling a valid attempt returns, and the
    action is justified by the durable record: a clone is started only once,
    where no machine exists and capacity is held; a machine is discarded or
    destroyed only if its observed identity is the recorded one; a registration
    is deleted only if its name and number are the recorded ones and after the
    machine is gone; capacity is released only where nothing was created or
    nothing is left; and a proposed transition applies and makes progress. *)
Theorem reconcile_is_safe (input : DisposableWorkerReconcileInput)
    (Hval : validate (ri_attempt input) = Ok ())
    (Hmax : at_revision (ri_attempt input) + 1 ≤ MAX_DISPOSABLE_ATTEMPT_REVISION) :
  reconcile_attempt input ≠ Panic ∧
  ∀ action, reconcile_attempt input = Ok action → justified input action.
Proof.
  split; [apply reconcile_attempt_no_panic|]. intros action H. by apply reconcile_justified.
Qed.

(** ** The theorems at sample inputs *)

Definition sample_input : DisposableWorkerReconcileInput :=
  mkReconcileInput 1000 sample_bound VmReady (Some sample_identity) RunnerAbsent None true false.

Lemma capacity_plan_exact_witness :
  ∃ plan, plan_capacity 1000 (mkDemand 5 2 900 1100) (mkHostBudget 4 (mkWorkerResources 8000 16 100))
            (mkHostUsage 1 (mkWorkerResources 2000 4 20)) (mkWorkerResources 2000 6 20) = Ok plan ∧
    (∀ k, k ≤ cp_additional_workers plan ↔
       (k = 0 ∨ 1 + k ≤ 5 ∧ 1 + k ≤ cp_advertised_max_capacity plan) ∧ 1 + k ≤ 4 ∧
       workers_fit (mkWorkerResources 8000 16 100) (mkWorkerResources 2000 4 20)
         (mkWorkerResources 2000 6 20) k).
Proof.
  destruct (capacity_plan_exact 1000 (mkDemand 5 2 900 1100)
    (mkHostBudget 4 (mkWorkerResources 8000 16 100)) (mkHostUsage 1 (mkWorkerResources 2000 4 20))
    (mkWorkerResources 2000 6 20)) as (plan & H & _ & Hk);
    [vm_compute; done|vm_compute; discriminate|vm_compute; split; discriminate
    |vm_compute; discriminate|done|].
  exact (ex_intro _ plan (conj H Hk)).
Defined.

Lemma reconcile_is_safe_witness :
  reconcile_attempt sample_input ≠ Panic ∧
  justified sample_input (Persist BeginRegistration).
Proof.
  destruct (reconcile_is_safe sample_input eq_refl) as [H1 H2]; [vm_compute; discriminate|].
  exact (conj H1 (H2 _ eq_refl)).
Defined.
