(* ===== verification/CleanupLoop.v ===== *)
(** * The cleanup loop

    The controller observes an attempt, asks [reconcile_attempt] what to do,
    does it, and starts over.  This file closes that loop over a small world
    in which observations are truthful and actions take effect, and proves that
    a cancelled or expired attempt is cleaned up in a bounded number of rounds
    with no machine, registration or capacity left behind. *)

From S2P Require Import Prelude Artifact ExecutionAdmission ScaleSetProtocol AttemptState.
From S2P Require Import AttemptLifecycle WorkerReconciler ReconcilerTheorems.

Local Open Scope N_scope.

(** What exists: the durable record, the machine, the registration and the
    capacity reservation. *)
Record LoopWorld := mkLoop {
  lw_attempt : DisposableAttemptState;
  lw_vm : bool;
  lw_runner : option ScaleSetRunnerReference;
  lw_capacity : bool;
}.

(** The input is an observation of the world, made after the attempt was
    cancelled or has expired, without a job event in it. *)
Record truthful (input : DisposableWorkerReconcileInput) (w : LoopWorld) : Prop := {
  tr_attempt : ri_attempt input = lw_attempt w;
  tr_vm : if lw_vm w then ri_vm input = VmStopped ∨ ri_vm input = VmReady else ri_vm input = VmAbsent;
  tr_identity : ri_vm_identity input = if lw_vm w then at_vm_identity (lw_attempt w) else None;
  tr_runner : match lw_runner w with
    | Some r => ri_runner input = RunnerRegistrationOnly r ∨ ri_runner input = RunnerIdleReady r
    | None => ri_runner input = RunnerAbsent
    end;
  tr_event : ri_job_event input = None;
  tr_capacity : ri_capacity_reserved input = lw_capacity w;
  tr_cleanup : cleanup_requested input = true;
}.

(** The effect of an action on the world; [None] where the loop stops. *)
Definition effect (action : DisposableWorkerAction) (w : LoopWorld) : option LoopWorld :=
  match action with
  | Persist change =>
      match transition (lw_attempt w) change with
      | Ok s => Some (mkLoop s (lw_vm w) (lw_runner w) (lw_capacity w))
      | _ => None
      end
  | DestroyVm | DiscardIncompleteVm => Some (mkLoop (lw_attempt w) false (lw_runner w) (lw_capacity w))
  | DeleteRunner _ => Some (mkLoop (lw_attempt w) (lw_vm w) None (lw_capacity w))
  | ReleaseCapacity => Some (mkLoop (lw_attempt w) (lw_vm w) (lw_runner w) false)
  | _ => None
  end.

(** The loop, with one unit of fuel per round. *)
Fixpoint run_loop (observe : LoopWorld → DisposableWorkerReconcileInput) (fuel : nat) (w : LoopWorld)
    : option LoopWorld :=
  match reconcile_attempt (observe w) with
  | Ok NoOp => Some w
  | Ok action =>
      match fuel with
      | O => None
      | S fuel => effect action w ≫= run_loop observe fuel
      end
  | _ => None
  end.

Definition truth (b : bool) : N := if b then 1 else 0.

(** How much is left to do. *)
Definition potential (w : LoopWorld) : N :=
  2 * (12 - phase_rank (at_phase (lw_attempt w))) + truth (lw_vm w) + truth (lw_capacity w)
  + match lw_runner w with
    | Some _ => if is_some (at_runner_id (lw_attempt w)) then 1 else 2
    | None => 0
    end.

(** What exists is accounted for by the record. *)
Record consistent (w : LoopWorld) : Prop := {
  co_valid : validate (lw_attempt w) = Ok ();
  co_room : at_revision (lw_attempt w) + potential w ≤ MAX_DISPOSABLE_ATTEMPT_REVISION;
  co_bound : ¬ (at_phase (lw_attempt w) = PhaseCloneStarted ∧ at_vm_identity (lw_attempt w) = None);
  co_vm : lw_vm w = true → is_some (at_vm_identity (lw_attempt w)) = true;
  co_runner : ∀ r, lw_runner w = Some r →
    at_jit_generation_started (lw_attempt w) = true ∧ rr_name r = at_runner_name (lw_attempt w) ∧
    keeps (at_runner_id (lw_attempt w)) (Some (rr_id r));
  co_done : at_phase (lw_attempt w) = PhaseComplete →
    lw_vm w = false ∧ lw_runner w = None ∧ lw_capacity w = false;
}.

(** The decision, read off the world. *)
Definition decision (w : LoopWorld) : DisposableWorkerAction :=
  let bound := is_some (at_runner_id (lw_attempt w)) in
  match at_phase (lw_attempt w) with
  | PhaseReserved | PhaseCloneAuthorized =>
      Persist (if lw_capacity w then BeginUnprovisionedRelease else CompleteUnprovisioned)
  | PhaseUnprovisionedReleasing =>
      if lw_capacity w then ReleaseCapacity else Persist CompleteUnprovisioned
  | PhaseDestroying =>
      if lw_vm w then DestroyVm else Persist (AdvanceCleanup PhaseDeregistering)
  | PhaseDeregistering =>
      if lw_vm w then DestroyVm
      else match lw_runner w with
           | Some r => if bound then DeleteRunner r else Persist (RecordRegistration r)
           | None => Persist (AdvanceCleanup PhaseReleasing)
           end
  | PhaseReleasing =>
      if lw_vm w then DestroyVm
      else match lw_runner w with
           | Some r => if bound then DeleteRunner r else Persist (RecordRegistration r)
           | None => if lw_capacity w then ReleaseCapacity
                     else Persist (AdvanceCleanup PhaseComplete)
           end
  | PhaseComplete => NoOp
  | _ => Persist BeginCleanup
  end.

(** Binding a rediscovered registration while cleaning up succeeds. *)
Lemma registration_applies s r :
  validate s = Ok () → at_phase s = PhaseDeregistering ∨ at_phase s = PhaseReleasing →
  at_jit_generation_started s = true → at_runner_id s = None → rr_name r = at_runner_name s →
  at_revision s + 1 ≤ MAX_DISPOSABLE_ATTEMPT_REVISION →
  record_registration s r = Ok (advanced s (at_phase s) (Some (rr_id r)) (at_github_job_id s) (at_result s)).
Proof.
  intros Hval Hphase Hjit Hnone Hname Hmax. destruct (validate_evidence s Hval) as [Hev Hshape].
  pose proof (valid_machine s Hval) as Hm.
  assert (is_some (at_vm_identity s) = true ∧ is_cleanup (at_phase s) = true ∧ 5 ≤ at_revision s ∧
    revision_shape_valid (at_phase s) (at_revision s + 1) = true) as (Hvm & Hcl & Hrev & Hshape').
  { destruct Hphase as [Hp|Hp]; rewrite Hp in *; simpl in *; bprop; split_and!; try done; try lia;
      apply N.leb_le; lia. }
  unfold record_registration. rewrite Hjit. unfold validate_runner. rewrite Hname, Hnone.
  rewrite bool_decide_eq_false_2 by (intros []; done). simpl.
  assert (advance_with s (at_phase s) (Some (rr_id r)) (at_github_job_id s) (at_result s) =
    Ok (advanced s (at_phase s) (Some (rr_id r)) (at_github_job_id s) (at_result s))) as ->.
  { apply advance_with_Ok. split_and!; [done..|].
    apply validate_cleanup; simpl; [|done..|lia].
    unfold evidence_ok in *. simpl. rewrite Hjit, Hnone in *. simpl in *.
    destruct (at_runner_start_started s), (is_some (at_vm_identity s)); simpl in *; rewrite ?andb_true_r, ?andb_false_r in *; done. }
  by destruct Hphase as [-> | ->].
Qed.

Lemma truthful_observed input w :
  truthful input w → consistent w →
  validate_vm_observation (ri_attempt input) (ri_vm input) (ri_vm_identity input) = Ok () ∧
  validate_runner_observation (ri_attempt input) (ri_runner input) = Ok () ∧
  reconcile_attempt input = reconcile_capacity input.
Proof.
  intros [Ha Hv Hi Hr He _ _] [Hval _ Hb Hvm Hrun _].
  assert (validate_vm_observation (ri_attempt input) (ri_vm input) (ri_vm_identity input) = Ok ())
    as Hvmok.
  { unfold validate_vm_observation. rewrite Ha, Hi. destruct (lw_vm w).
    - specialize (Hvm eq_refl). destruct (at_vm_identity (lw_attempt w)) as [i|]; [|done].
      destruct Hv as [-> | ->]; simpl; by rewrite bool_decide_eq_false_2 by (intros []; done).
    - rewrite Hv. simpl. by destruct (at_vm_identity (lw_attempt w)). }
  assert (validate_runner_observation (ri_attempt input) (ri_runner input) = Ok ()) as Hrok.
  { unfold validate_runner_observation. rewrite Ha. destruct (lw_runner w) as [r|]; [|by rewrite Hr].
    destruct (Hrun r eq_refl) as (_ & Hname & Hkeep).
    assert (is_some_and (λ id, negb (id =? rr_id r)) (at_runner_id (lw_attempt w)) = false) as Hsame.
    { destruct (at_runner_id (lw_attempt w)) as [id|]; [|done]. specialize (Hkeep id eq_refl).
      injection Hkeep as ->. simpl. by rewrite N.eqb_refl. }
    destruct Hr as [-> | ->]; by rewrite Hsame, Hname, bool_decide_eq_false_2 by (intros []; done). }
  split_and!; [done..|]. unfold reconcile_attempt. rewrite Hvmok, Hrok, He. rsimpl.
  assert (bool_decide (at_phase (ri_attempt input) = PhaseCloneStarted)
          && negb (is_some (at_vm_identity (ri_attempt input))) = false) as ->.
  { rewrite Ha. case_bool_decide; [|done]. destruct (at_vm_identity (lw_attempt w)); [done|].
    by destruct Hb. }
  assert (ri_vm input ≠ VmConflicting) by (destruct (lw_vm w); [destruct Hv as [-> | ->]|rewrite Hv]; done).
  assert (ri_runner input ≠ RunnerConflicting)
    by (destruct (lw_runner w); [destruct Hr as [-> | ->]|rewrite Hr]; done).
  by destruct (ri_vm input), (ri_runner input).
Qed.

Lemma reconcile_decision input w :
  truthful input w → consistent w → reconcile_attempt input = Ok (decision w).
Proof.
  intros Ht Hc. destruct (truthful_observed input w Ht Hc) as (_ & _ & ->).
  destruct Ht as [Ha Hv Hi Hr _ Hcap Hcl]. pose proof (valid_evidence _ (co_valid _ Hc)) as Hev.
  pose proof (valid_machine _ (co_valid _ Hc)) as Hm.
  pose proof (co_room _ Hc) as Hroom.
  assert (∀ r, lw_runner w = Some r → at_runner_id (lw_attempt w) = None →
    at_phase (lw_attempt w) = PhaseDeregistering ∨ at_phase (lw_attempt w) = PhaseReleasing →
    persist_validated input (RecordRegistration r) = Ok (Persist (RecordRegistration r))) as Hreg.
  { intros r Hw Hnone Hp. destruct (co_runner _ Hc r Hw) as (Hjit & Hname & _).
    unfold persist_validated, validate_transition. simpl. rewrite Ha, registration_applies; try done;
      [apply (co_valid _ Hc)|]. unfold potential in Hroom. rewrite Hw, Hnone in Hroom. simpl in Hroom. lia. }
  assert (∀ r, lw_runner w = Some r → at_jit_generation_started (lw_attempt w) = true) as Hjit
    by (intros r Hw; apply (co_runner _ Hc r Hw)).
  pose proof (co_done _ Hc) as Hdone.
  unfold reconcile_capacity, reconcile_phase, reconcile_registering, reconcile_started,
    reconcile_deregistering, reconcile_releasing, reconcile_complete, unbound_vm, decision.
  rewrite Ha, Hcap, Hcl, Hi.
  destruct (at_phase (lw_attempt w)) eqn:Hp, (lw_capacity w) eqn:Hcapw; simpl; try done;
    try (by rewrite andb_true_r; destruct (negb _));
    try (destruct (Hdone eq_refl) as (Hnovm & Hnorun & Hnocap); try discriminate Hnocap;
         rewrite Hnovm in Hv; rewrite Hnorun in Hr; by rewrite Hv, Hr);
    rewrite Hm, andb_false_r;
    (destruct (lw_vm w); [by destruct Hv as [-> | ->]|rewrite Hv]); try done;
    (destruct (lw_runner w) as [r|]; [|by rewrite Hr]);
    rewrite ?(Hjit r eq_refl);
    destruct (at_runner_id (lw_attempt w)) eqn:Hid; destruct Hr as [-> | ->]; simpl; auto.
Qed.

Lemma truth_le b : truth b ≤ 1.
Proof. by destruct b. Qed.

(** A transition taken by the loop keeps the world consistent and leaves less
    to do, if it moves the phase on or binds the registration. *)
Lemma consistent_persist w change s :
  consistent w → transition (lw_attempt w) change = Ok s →
  at_revision s = at_revision (lw_attempt w) + 1 →
  (phase_rank (at_phase (lw_attempt w)) < phase_rank (at_phase s) ∨
   at_phase s = at_phase (lw_attempt w) ∧ is_some (lw_runner w) = true ∧
     at_runner_id (lw_attempt w) = None ∧ is_some (at_runner_id s) = true) →
  (at_phase s ≠ PhaseCloneStarted) →
  (at_phase s = PhaseComplete → lw_vm w = false ∧ lw_runner w = None ∧ lw_capacity w = false) →
  (∀ r, lw_runner w = Some r → keeps (at_runner_id s) (Some (rr_id r))) →
  let w' := mkLoop s (lw_vm w) (lw_runner w) (lw_capacity w) in
  consistent w' ∧ potential w' < potential w.
Proof.
  intros Hc Hs Hrev Hmove Hnc Hdone Hkeep w'.
  pose proof (transition_facts _ _ _ (co_valid _ Hc) Hs) as Hf.
  pose proof (sf_key _ _ Hf) as Hkey. unfold attempt_key in Hkey. injection Hkey as _ _ _ _ Hname _ _.
  assert (phase_rank (at_phase s) ≤ 12) as Hcap by (destruct (at_phase s); vm_compute; discriminate).
  assert (potential w' < potential w) as Hless.
  { unfold potential. simpl. destruct Hmove as [Hmove|(Hsame & Hrun & Hnone & Hsome)].
    - assert (∀ a, match lw_runner w with Some _ => if is_some (at_runner_id a) then 1 else 2 | None => 0 end ≤ 2)
        as Hr by (intros a; destruct (lw_runner w); [destruct (is_some _)|]; vm_compute; discriminate).
      assert (match lw_runner w with Some _ => if is_some (at_runner_id s) then 1 else 2 | None => 0 end ≤
        match lw_runner w with Some _ => if is_some (at_runner_id (lw_attempt w)) then 1 else 2 | None => 0 end).
      { destruct (lw_runner w) as [r|]; [|done]. pose proof (sf_runner _ _ Hf) as Hk.
        destruct (at_runner_id (lw_attempt w)) as [id|] eqn:Hid; simpl.
        - rewrite (Hk id eq_refl). done.
        - destruct (is_some (at_runner_id s)); vm_compute; discriminate. }
      lia.
    - rewrite Hsame, Hnone, Hsome. destruct (lw_runner w); [simpl; lia|done]. }
  split; [|done]. split; simpl.
  - apply (sf_valid _ _ Hf).
  - pose proof (co_room _ Hc). rewrite Hrev. lia.
  - by intros [? _].
  - intros Hvm. rewrite (transition_vm _ _ _ Hs). by apply (co_vm _ Hc).
  - intros r Hr. destruct (co_runner _ Hc r Hr) as (Hjit & Hn & _).
    split_and!; [by apply (sf_jit _ _ Hf)|congruence|by apply Hkeep].
  - done.
Qed.

(** Where the transitions of the loop lead. *)
Definition leads_to (change : DisposableAttemptCatalogAction) : option DisposableAttemptPhase :=
  match change with
  | BeginUnprovisionedRelease => Some PhaseUnprovisionedReleasing
  | CompleteUnprovisioned => Some PhaseComplete
  | BeginCleanup => Some PhaseDestroying
  | AdvanceCleanup phase => Some phase
  | _ => None
  end.

Lemma transition_leads s change s' phase :
  leads_to change = Some phase → (change = BeginCleanup → is_cleanup (at_phase s) = false) →
  transition s change = Ok s' →
  at_phase s' = phase ∧ (at_runner_id s' = at_runner_id s ∨ at_runner_id s' = None).
Proof.
  intros Hl Hcl H. destruct change; simplify_eq/=;
    unfold begin_unprovisioned_release, complete_unprovisioned, begin_cleanup, advance_cleanup in H.
  - inv_ok H; apply advance_with_Ok in H as (-> & _); simpl; auto.
  - inv_ok H; apply advance_with_Ok in H as (-> & _); simpl; auto.
  - specialize (Hcl eq_refl). destruct (at_phase s); try done;
      apply advance_with_Ok in H as (-> & _); simpl; auto.
  - case_bool_decide as Hp; [injection H as <-; auto|]. apply ok_guard in H as [_ H].
    apply advance_with_Ok in H as (-> & _); simpl; auto.
Qed.

(** A round of the loop that moves the attempt to another phase. *)
Lemma moves_on w change phase :
  consistent w → leads_to change = Some phase →
  (change = BeginCleanup → is_cleanup (at_phase (lw_attempt w)) = false) →
  phase_rank (at_phase (lw_attempt w)) < phase_rank phase → phase ≠ PhaseCloneStarted →
  (phase = PhaseComplete → lw_vm w = false ∧ lw_runner w = None ∧ lw_capacity w = false) →
  advances (lw_attempt w) change →
  ∃ w', effect (Persist change) w = Some w' ∧ consistent w' ∧ potential w' < potential w.
Proof.
  intros Hc Hl Hcl Hrank Hnc Hdone (s & Hs & Hrev). simpl. rewrite Hs. eexists. split; [done|].
  destruct (transition_leads _ _ _ _ Hl Hcl Hs) as [Hp Hr].
  eapply consistent_persist; rewrite ?Hp; eauto.
  intros r Hw. destruct Hr as [-> | ->]; [apply (co_runner _ Hc r Hw)|done].
Qed.

Lemma removes w w' :
  consistent w → lw_attempt w' = lw_attempt w → potential w' < potential w →
  (lw_vm w' = true → lw_vm w = true) → (∀ r, lw_runner w' = Some r → lw_runner w = Some r) →
  (lw_capacity w' = true → lw_capacity w = true) → consistent w'.
Proof.
  intros [Hv Hroom Hb Hvm Hr Hd] Ha Hp H1 H2 H3. split; rewrite ?Ha; auto; [lia|].
  intros Hdone. destruct (Hd Hdone) as (E1 & E2 & E3). split_and!.
  - destruct (lw_vm w'); [|done]. by rewrite (H1 eq_refl) in E1.
  - destruct (lw_runner w') as [r|]; [|done]. by rewrite (H2 r eq_refl) in E2.
  - destruct (lw_capacity w'); [|done]. by rewrite (H3 eq_refl) in E3.
Qed.

Lemma bound_world_removes w w' :
  consistent w → lw_attempt w' = lw_attempt w →
  (lw_vm w = true ∧ lw_vm w' = false ∧ lw_runner w' = lw_runner w ∧ lw_capacity w' = lw_capacity w) ∨
  (lw_runner w ≠ None ∧ lw_runner w' = None ∧ lw_vm w' = lw_vm w ∧ lw_capacity w' = lw_capacity w) ∨
  (lw_capacity w = true ∧ lw_capacity w' = false ∧ lw_vm w' = lw_vm w ∧ lw_runner w' = lw_runner w) →
  consistent w' ∧ potential w' < potential w.
Proof.
  intros Hc Ha Hcase.
  assert (potential w' < potential w) as Hp.
  { unfold potential. rewrite Ha. destruct Hcase as [(E1 & -> & -> & ->)|[(E1 & -> & -> & ->)|(E1 & -> & -> & ->)]].
    - rewrite E1. simpl. lia.
    - destruct (lw_runner w); [|done]. destruct (is_some _); lia.
    - rewrite E1. simpl. lia. }
  split; [|done].
  destruct Hcase as [(E1 & E2 & E3 & E4)|[(E1 & E2 & E3 & E4)|(E1 & E2 & E3 & E4)]];
    eapply removes; eauto; congruence.
Qed.

(** The action takes effect, and leaves less to do. *)
Definition reduces (w : LoopWorld) (action : DisposableWorkerAction) : Prop :=
  ∃ w', effect action w = Some w' ∧ consistent w' ∧ potential w' < potential w.

Lemma reduces_vm w : consistent w → lw_vm w = true → reduces w DestroyVm.
Proof. intros Hc Hvm. eexists. split; [done|]. apply bound_world_removes; auto 10. Qed.

Lemma reduces_capacity w : consistent w → lw_capacity w = true → reduces w ReleaseCapacity.
Proof. intros Hc Hcap. eexists. split; [done|]. apply bound_world_removes; auto 10. Qed.

Lemma reduces_runner w r : consistent w → lw_runner w = Some r → reduces w (DeleteRunner r).
Proof.
  intros Hc Hr. eexists. split; [done|]. apply bound_world_removes; [done..|].
  right. left. rewrite Hr. auto.
Qed.

Section round.
Context (w : LoopWorld) (Hc : consistent w).
Notation attempt := (lw_attempt w).

Lemma room : at_phase attempt ≠ PhaseComplete →
  at_revision attempt + 1 ≤ MAX_DISPOSABLE_ATTEMPT_REVISION.
Proof.
  intros Hp. pose proof (co_room _ Hc) as Hroom. unfold potential in Hroom.
  assert (phase_rank (at_phase attempt) < 12) by (destruct (at_phase attempt); done). lia.
Qed.

Lemma round_unprovisioned :
  at_phase attempt = PhaseReserved ∨ at_phase attempt = PhaseCloneAuthorized ∨
    at_phase attempt = PhaseUnprovisionedReleasing →
  reduces w (decision w).
Proof.
  intros Hp. pose proof (co_valid _ Hc) as Hval. pose proof (valid_evidence _ Hval) as Hev.
  assert (lw_vm w = false ∧ lw_runner w = None) as [Hvm Hr].
  { pose proof (co_vm _ Hc) as Hvm. pose proof (co_runner _ Hc) as Hr.
    destruct (valid_order _ Hval) as (_ & H1 & _).
    assert (at_vm_identity attempt = None) as Hn
      by (destruct Hp as [Hp|[Hp|Hp]]; rewrite Hp in Hev; by destruct Hev).
    rewrite Hn in *. destruct (lw_vm w); [by specialize (Hvm eq_refl)|]. split; [done|].
    destruct (lw_runner w) as [r|]; [|done]. destruct (Hr r eq_refl) as (Hjit & _). by specialize (H1 Hjit). }
  assert (lw_capacity w = false → reduces w (Persist CompleteUnprovisioned)) as Hdone.
  { intros Hcap. eapply moves_on; try done;
      [by destruct Hp as [-> |[-> | ->]]|]. apply pre_clone_advances; [done|].
    destruct Hp as [-> |[-> | ->]]; auto 10. }
  unfold decision. destruct (lw_capacity w) eqn:Hcap; destruct Hp as [Hp|[Hp|Hp]]; rewrite Hp; auto.
  1-2: eapply moves_on; rewrite ?Hp; try done; apply pre_clone_advances; rewrite ?Hp; auto 10.
  by apply reduces_capacity.
Qed.

Lemma round_active :
  3 ≤ phase_rank (at_phase attempt) → is_cleanup (at_phase attempt) = false →
  reduces w (decision w).
Proof.
  intros Hrank Hcl. pose proof (co_valid _ Hc) as Hval. pose proof (valid_evidence _ Hval) as Hev.
  assert (decision w = Persist BeginCleanup) as ->
    by (unfold decision; destruct (at_phase attempt); done).
  eapply moves_on; try done; [by destruct (at_phase attempt)|].
  apply cleanup_advances; try done; [apply (co_bound _ Hc)|].
  apply room. by destruct (at_phase attempt).
Qed.

Lemma round_runner r :
  at_phase attempt = PhaseDeregistering ∨ at_phase attempt = PhaseReleasing →
  lw_runner w = Some r →
  reduces w (if is_some (at_runner_id attempt) then DeleteRunner r else Persist (RecordRegistration r)).
Proof.
  intros Hp Hr. destruct (at_runner_id attempt) eqn:Hid; [by apply reduces_runner|].
  destruct (co_runner _ Hc r Hr) as (Hjit & Hname & _). unfold reduces. simpl.
  assert (at_revision attempt + 1 ≤ MAX_DISPOSABLE_ATTEMPT_REVISION) as Hmax
    by (apply room; by destruct Hp as [-> | ->]).
  pose proof (registration_applies _ r (co_valid _ Hc) Hp Hjit Hid Hname Hmax) as Hreg.
  rewrite Hreg. eexists. split; [done|].
  eapply (consistent_persist w (RecordRegistration r)); simpl; try done.
  - right. by rewrite Hr.
  - by destruct Hp as [-> | ->].
  - by destruct Hp as [-> | ->].
  - intros r' Hr'. rewrite Hr in Hr'. injection Hr' as <-. apply keeps_refl.
Qed.

Lemma round_cleaning :
  at_phase attempt = PhaseDestroying ∨ at_phase attempt = PhaseDeregistering ∨
    at_phase attempt = PhaseReleasing →
  reduces w (decision w).
Proof.
  intros Hp. unfold decision. pose proof room as Hmax. pose proof (co_valid _ Hc) as Hval.
  destruct (lw_vm w) eqn:Hvm.
  { destruct Hp as [-> |[-> | ->]]; by apply reduces_vm. }
  assert (∀ phase, (at_phase attempt, phase) ∈
    [(PhaseDestroying, PhaseDeregistering); (PhaseDeregistering, PhaseReleasing);
     (PhaseReleasing, PhaseComplete)] →
    (phase = PhaseComplete → lw_runner w = None ∧ lw_capacity w = false) →
    reduces w (Persist (AdvanceCleanup phase))) as Hadv.
  { intros phase Hnext Hdone. eapply moves_on; try done.
    - rewrite !elem_of_cons, elem_of_nil in Hnext.
      by destruct Hnext as [[= E1 E2]|[[= E1 E2]|[[= E1 E2]|[]]]]; rewrite ?E1, ?E2.
    - rewrite !elem_of_cons, elem_of_nil in Hnext.
      by destruct Hnext as [[= E1 E2]|[[= E1 E2]|[[= E1 E2]|[]]]]; rewrite ?E1, ?E2.
    - intros ->. by destruct (Hdone eq_refl).
    - apply advance_cleanup_advances; [done..|]. apply Hmax. by destruct Hp as [-> |[-> | ->]]. }
  destruct Hp as [Hp|[Hp|Hp]]; rewrite Hp in *.
  - apply Hadv; [set_solver|done].
  - destruct (lw_runner w) eqn:Hr; [apply round_runner; auto|]. apply Hadv; [set_solver|done].
  - destruct (lw_runner w) eqn:Hr; [apply round_runner; auto|].
    destruct (lw_capacity w) eqn:Hcap; [by apply reduces_capacity|]. apply Hadv; [set_solver|done].
Qed.

(** One round: the loop is done, or there is less to do. *)
Lemma loop_round :
  at_phase attempt = PhaseComplete ∨ decision w ≠ NoOp ∧ reduces w (decision w).
Proof.
  pose proof (valid_evidence _ (co_valid _ Hc)) as Hev.
  destruct (at_phase attempt) eqn:Hp; try (by left); try done; right;
    (split; [unfold decision; rewrite Hp; repeat case_match; done|]);
    (apply round_unprovisioned; rewrite Hp; auto; fail) ||
    (apply round_cleaning; rewrite Hp; auto; fail) ||
    (apply round_active; rewrite Hp; done).
Qed.
End round.

Lemma run_loop_done observe n w :
  (∀ w, truthful (observe w) w) → consistent w → potential w ≤ N.of_nat n →
  ∃ w', run_loop observe n w = Some w' ∧ consistent w' ∧ at_phase (lw_attempt w') = PhaseComplete ∧
    rtc action_step (lw_attempt w) (lw_attempt w').
Proof.
  intros Hob. revert w. induction n as [|n IH]; intros w Hc Hn.
  all: destruct (loop_round w Hc) as [Hp|(Hno & w' & Heff & Hc' & Hless)]; [|try lia].
  1-2: exists w; split_and!; try done; simpl;
    rewrite (reconcile_decision _ w (Hob w) Hc); unfold decision; by rewrite Hp.
  destruct (IH w' Hc') as (w'' & Hrun & Hc'' & Hp'' & Hchain); [lia|].
  exists w''. split_and!; try done.
  - simpl. rewrite (reconcile_decision _ w (Hob w) Hc), Heff. simpl.
    by destruct (decision w).
  - destruct (decision w); simpl in Heff; try done;
      try (injection Heff as <-; done).
    case_match eqn:Hs; try done. injection Heff as <-.
    eapply rtc_l; [by eexists|done].
Qed.


(** ** The loop at a sample attempt *)

Definition sample_observe (w : LoopWorld) : DisposableWorkerReconcileInput :=
  mkReconcileInput 6000 (lw_attempt w) (if lw_vm w then VmReady else VmAbsent)
    (if lw_vm w then at_vm_identity (lw_attempt w) else None)
    (match lw_runner w with Some r => RunnerIdleReady r | None => RunnerAbsent end)
    None (lw_capacity w) true.

(** Registered, but the controller stopped before it recorded the runner. *)
Definition sample_world : LoopWorld :=
  mkLoop (mkAttempt 6 6 "attempt-1" "claim-1" "vm-1" (Some sample_identity) "glaeda-1" 7 None true
            false PhaseRegistering None None 5000)
    true (Some sample_runner) true.

Lemma sample_truthful w : truthful (sample_observe w) w.
Proof. split; simpl; try done; [destruct (lw_vm w)|destruct (lw_runner w)]; auto. Qed.

Lemma sample_consistent : consistent sample_world.
Proof.
  split; simpl; try done; try (vm_compute; discriminate); [by intros []|].
  intros r [= <-]. by split_and!.
Qed.

