(* ===== verification/AttemptCatalog.v ===== *)
(** * The catalog of disposable attempts

    [src/src/disposable_attempt_catalog.rs]: the durable document that holds
    every active attempt with its resources and the replay history of completed
    ones; its operations, its validation, the tests a store applies to a
    successor, the store interface and the facade over it. *)

From S2P Require Import Prelude Artifact ExecutionAdmission ScaleSetProtocol AttemptState.
From S2P Require Import WorkerReconciler.

Local Open Scope N_scope.

Definition DISPOSABLE_ATTEMPT_CATALOG_SCHEMA_VERSION : N := 7.
Definition MAX_ACTIVE_DISPOSABLE_ATTEMPTS : nat := 64.
Definition MAX_DISPOSABLE_ATTEMPT_TOMBSTONES : nat := 64.
Definition MAX_DISPOSABLE_ATTEMPT_CATALOG_REVISION : N := 1000000000000.

(** ** Errors *)

Inductive DisposableAttemptCatalogErrorKind :=
| CatAlreadyExists
| CatMissing
| CatConflict
| CatIdentityDrift
| CatInvalidAction
| CatLimitExceeded
| CatCorruptState
| CatBusy
| CatIo
| CatUnsafeFilesystem
| CatVersionIncompatible
| CatRecoveryRequired.

#[export] Instance catalog_error_kind_eq_dec : EqDecision DisposableAttemptCatalogErrorKind.
Proof. solve_decision. Defined.

Record DisposableAttemptCatalogError := mkCatalogError {
  ce_kind : DisposableAttemptCatalogErrorKind;
  ce_message : string;
}.

Definition catalog_error := mkCatalogError.

Definition stale_catalog_revision : DisposableAttemptCatalogError :=
  catalog_error CatConflict "stale disposable attempt catalog revision".

Definition stale_attempt_revision : DisposableAttemptCatalogError :=
  catalog_error CatConflict "stale disposable attempt revision".

Definition duplicate_identity : DisposableAttemptCatalogError :=
  catalog_error CatCorruptState "disposable attempt catalog contains duplicate ownership identity".

Definition resource_overflow : DisposableAttemptCatalogError :=
  catalog_error CatLimitExceeded
    "durable disposable resource usage exceeds the bounded host envelope".

Definition invalid_store_successor : DisposableAttemptCatalogError :=
  catalog_error CatConflict "replacement catalog is not one exact authorized successor".

Definition attempt_missing : DisposableAttemptCatalogError :=
  catalog_error CatMissing "disposable attempt does not exist".

(** ** Data *)

Notation DisposableAttemptCatalogRevision := N (only parsing).
Notation DisposablePreparedTemplateIdentity := string (only parsing).

Definition CatalogRevision_new (value : N)
    : result DisposableAttemptCatalogError DisposableAttemptCatalogRevision :=
  if negb (in_range 1 MAX_DISPOSABLE_ATTEMPT_CATALOG_REVISION value)
  then Err (catalog_error CatCorruptState
         "disposable attempt catalog revision is outside the bounded positive range")
  else Ok value.

Definition CatalogRevision_next (self : DisposableAttemptCatalogRevision)
    : result DisposableAttemptCatalogError DisposableAttemptCatalogRevision :=
  let cannot_advance :=
    catalog_error CatConflict "disposable attempt catalog revision cannot advance" in
  value ← ok_or (checked_add u64_max self 1) cannot_advance;
  map_err (λ _, cannot_advance) (CatalogRevision_new value).

Record DisposableAttemptReservation := mkAttemptReservation {
  dr_attempt : DisposableAttemptState;
  dr_resources : DisposableWorkerResources;
  dr_prepared_template_identity : DisposablePreparedTemplateIdentity;
}.

#[export] Instance attempt_reservation_eq_dec : EqDecision DisposableAttemptReservation.
Proof. solve_decision. Defined.

Definition Reservation_new (attempt : DisposableAttemptState) (resources : DisposableWorkerResources)
    (prepared_template_identity : DisposablePreparedTemplateIdentity)
    : result DisposableAttemptCatalogError DisposableAttemptReservation :=
  if bool_decide (at_phase attempt ≠ PhaseReserved) || negb (at_revision attempt =? 1)
  then Err (catalog_error CatCorruptState
         "new disposable reservation must begin at reserved attempt revision one")
  else Ok (mkAttemptReservation attempt resources prepared_template_identity).

Record DisposableAttemptCatalogDocument := mkCatalog {
  cd_schema_version : N;
  cd_revision : DisposableAttemptCatalogRevision;
  cd_active : list DisposableAttemptReservation;
  cd_tombstones : list DisposableAttemptState;
}.

#[export] Instance catalog_document_eq_dec : EqDecision DisposableAttemptCatalogDocument.
Proof. solve_decision. Defined.

Definition empty_catalog : DisposableAttemptCatalogDocument :=
  mkCatalog DISPOSABLE_ATTEMPT_CATALOG_SCHEMA_VERSION 1 [] [].

Definition find_active (self : DisposableAttemptCatalogDocument) (attempt_id : DisposableAttemptId)
    : option DisposableAttemptReservation :=
  List.find (λ r, bool_decide (at_attempt_id (dr_attempt r) = attempt_id)) (cd_active self).

Definition find_tombstone (self : DisposableAttemptCatalogDocument) (attempt_id : DisposableAttemptId)
    : option DisposableAttemptState :=
  List.find (λ a, bool_decide (at_attempt_id a = attempt_id)) (cd_tombstones self).

(** ** Host usage *)

(** The running totals of the loop. *)
Record usage_totals := mkTotals {
  ut_workers : N;
  ut_cpu : N;
  ut_memory : N;
  ut_disk : N;
}.

Definition usage_step (totals : usage_totals) (reservation : DisposableAttemptReservation)
    : result DisposableAttemptCatalogError usage_totals :=
  if bool_decide (at_phase (dr_attempt reservation) = PhaseComplete) then Ok totals
  else
    workers ← ok_or (checked_add u16_max (ut_workers totals) 1) resource_overflow;
    cpu ← ok_or (checked_add u32_max (ut_cpu totals) (wr_cpu_millis (dr_resources reservation)))
      resource_overflow;
    memory ← ok_or (checked_add u64_max (ut_memory totals)
                      (wr_memory_bytes (dr_resources reservation))) resource_overflow;
    disk ← ok_or (checked_add u64_max (ut_disk totals) (wr_disk_bytes (dr_resources reservation)))
      resource_overflow;
    Ok (mkTotals workers cpu memory disk).

Definition host_usage (self : DisposableAttemptCatalogDocument)
    : result DisposableAttemptCatalogError DisposableHostUsage :=
  totals ← fold_result usage_step (mkTotals 0 0 0 0) (cd_active self);
  if ut_workers totals =? 0 then Ok HostUsage_zero
  else
    resources ← map_err (λ _, resource_overflow)
      (WorkerResources_new (ut_cpu totals) (ut_memory totals) (ut_disk totals));
    map_err (λ _, resource_overflow) (HostUsage_new (ut_workers totals) resources).

(** ** Validation *)

(** The identities seen so far. *)
Record seen_identities := mkSeen {
  se_attempt_ids : gset string;
  se_claim_ids : gset string;
  se_vm_ids : gset string;
  se_vm_identities : gset string;
  se_runner_names : gset string;
  se_runner_request_ids : gset N;
  se_runner_ids : gset N;
  se_job_ids : gset string;
}.

Definition nothing_seen : seen_identities := mkSeen ∅ ∅ ∅ ∅ ∅ ∅ ∅ ∅.

(** [insert] of an optional identity. *)
Definition insert_option {A} `{Countable A} (o : option A) (X : gset A) : gset A :=
  match o with
  | Some a => {[a]} ∪ X
  | None => X
  end.

Definition seen_step (seen : seen_identities) (attempt : DisposableAttemptState)
    : result DisposableAttemptCatalogError seen_identities :=
  if bool_decide (at_attempt_id attempt ∈ se_attempt_ids seen)
     || bool_decide (at_capacity_claim_id attempt ∈ se_claim_ids seen)
     || bool_decide (at_vm_id attempt ∈ se_vm_ids seen)
     || bool_decide (at_runner_name attempt ∈ se_runner_names seen)
     || bool_decide (at_runner_request_id attempt ∈ se_runner_request_ids seen)
  then Err duplicate_identity
  else if is_some_and (λ identity, bool_decide (identity ∈ se_vm_identities seen))
            (at_vm_identity attempt)
  then Err duplicate_identity
  else if is_some_and (λ runner_id, bool_decide (runner_id ∈ se_runner_ids seen))
            (at_runner_id attempt)
  then Err duplicate_identity
  else if is_some_and (λ job_id, bool_decide (job_id ∈ se_job_ids seen)) (at_github_job_id attempt)
  then Err duplicate_identity
  else Ok (mkSeen ({[at_attempt_id attempt]} ∪ se_attempt_ids seen)
             ({[at_capacity_claim_id attempt]} ∪ se_claim_ids seen)
             ({[at_vm_id attempt]} ∪ se_vm_ids seen)
             (insert_option (at_vm_identity attempt) (se_vm_identities seen))
             ({[at_runner_name attempt]} ∪ se_runner_names seen)
             ({[at_runner_request_id attempt]} ∪ se_runner_request_ids seen)
             (insert_option (at_runner_id attempt) (se_runner_ids seen))
             (insert_option (at_github_job_id attempt) (se_job_ids seen))).

(** [iter().try_fold] with [checked_add]. *)
Fixpoint try_fold_add (revision : N) (l : list N) : option N :=
  match l with
  | [] => Some revision
  | r :: l => checked_add u64_max revision r ≫= λ revision, try_fold_add revision l
  end.

(** The same with a second [checked_add(1)] per entry. *)
Fixpoint try_fold_add_succ (revision : N) (l : list N) : option N :=
  match l with
  | [] => Some revision
  | r :: l =>
      checked_add u64_max revision r ≫= λ revision,
      checked_add u64_max revision 1 ≫= λ revision, try_fold_add_succ revision l
  end.

Definition represented_revision (self : DisposableAttemptCatalogDocument) : option N :=
  try_fold_add 1 ((λ r, at_revision (dr_attempt r)) <$> cd_active self) ≫= λ revision,
  try_fold_add_succ revision (at_revision <$> cd_tombstones self).

(** Every attempt of the document, active ones first. *)
Definition catalog_attempts (self : DisposableAttemptCatalogDocument) : list DisposableAttemptState :=
  (dr_attempt <$> cd_active self) ++ cd_tombstones self.

Definition validate_catalog (self : DisposableAttemptCatalogDocument)
    : result DisposableAttemptCatalogError () :=
  if negb (cd_schema_version self =? DISPOSABLE_ATTEMPT_CATALOG_SCHEMA_VERSION)
  then Err (catalog_error CatCorruptState
         "disposable attempt catalog schema version is unsupported")
  else if (MAX_ACTIVE_DISPOSABLE_ATTEMPTS <? length (cd_active self))%nat
          || (MAX_DISPOSABLE_ATTEMPT_TOMBSTONES <? length (cd_tombstones self))%nat
  then Err (catalog_error CatCorruptState
         "disposable attempt catalog exceeds a reviewed entry bound")
  else
    represented ← ok_or (represented_revision self)
      (catalog_error CatCorruptState "disposable attempt catalog represented revision overflows");
    let revision_is_consistent :=
      if (length (cd_tombstones self) <? MAX_DISPOSABLE_ATTEMPT_TOMBSTONES)%nat
      then cd_revision self =? represented
      else represented <=? cd_revision self in
    if negb revision_is_consistent
    then Err (catalog_error CatCorruptState
           "disposable attempt catalog revision conflicts with represented history")
    else if existsb (λ r, bool_decide (at_phase (dr_attempt r) = PhaseReserved)
                          && negb (at_revision (dr_attempt r) =? 1)) (cd_active self)
    then Err (catalog_error CatCorruptState
           "reserved disposable attempt must remain at attempt revision one")
    else
      _ ← fold_result seen_step nothing_seen (catalog_attempts self);
      if existsb (λ a, bool_decide (at_phase a ≠ PhaseComplete)) (cd_tombstones self)
      then Err (catalog_error CatCorruptState
             "disposable attempt replay history contains an incomplete attempt")
      else
        _ ← host_usage self;
        Ok ().

(** ** Operations on the document *)

Definition set_catalog (self : DisposableAttemptCatalogDocument)
    (revision : DisposableAttemptCatalogRevision) (active : list DisposableAttemptReservation)
    (tombstones : list DisposableAttemptState) : DisposableAttemptCatalogDocument :=
  mkCatalog (cd_schema_version self) revision active tombstones.

Definition catalog_reserve (self : DisposableAttemptCatalogDocument)
    (reservation : DisposableAttemptReservation)
    : result DisposableAttemptCatalogError DisposableAttemptCatalogDocument :=
  let id := at_attempt_id (dr_attempt reservation) in
  match find_active self id with
  | Some existing =>
      if bool_decide (existing = reservation) then Ok self
      else Err (catalog_error CatAlreadyExists
             "disposable attempt already exists with different durable evidence")
  | None =>
      if is_some (find_tombstone self id)
      then Err (catalog_error CatAlreadyExists
             "completed disposable attempt identity remains in replay history")
      else if (MAX_ACTIVE_DISPOSABLE_ATTEMPTS <=? length (cd_active self))%nat
      then Err (catalog_error CatLimitExceeded "active disposable attempt limit is reached")
      else
        revision ← CatalogRevision_next (cd_revision self);
        let next := set_catalog self revision (cd_active self ++ [reservation]) (cd_tombstones self) in
        _ ← validate_catalog next;
        Ok next
  end.

(** The error of a refused action. *)
Definition action_error (error : DisposableAttemptStateError) : DisposableAttemptCatalogError :=
  let kind := if String.eqb (ase_code error) "identity_drift" then CatIdentityDrift
              else CatInvalidAction in
  catalog_error kind
    (if String.eqb (ase_code error) "identity_drift"
     then "disposable attempt action conflicts with durable identity"
     else if String.eqb (ase_code error) "invalid_transition"
     then "disposable attempt action is invalid for the current phase"
     else "disposable attempt action produced invalid durable state").

Definition apply_action (current : DisposableAttemptState) (action : DisposableAttemptCatalogAction)
    : result DisposableAttemptCatalogError DisposableAttemptState :=
  map_err action_error (transition current action).

(** The position of an active attempt, at the expected revision. *)
Definition active_at (self : DisposableAttemptCatalogDocument) (attempt_id : DisposableAttemptId)
    (expected_attempt_revision : DisposableAttemptRevision)
    : result DisposableAttemptCatalogError (nat * DisposableAttemptReservation) :=
  index ← ok_or (position (λ r, bool_decide (at_attempt_id (dr_attempt r) = attempt_id))
                   (cd_active self)) attempt_missing;
  current ← expect (cd_active self !! index);
  if negb (at_revision (dr_attempt current) =? expected_attempt_revision)
  then Err stale_attempt_revision
  else Ok (index, current).

(** [next.active[index].attempt = successor]. *)
Definition set_attempt (current : DisposableAttemptReservation) (successor : DisposableAttemptState)
    : DisposableAttemptReservation :=
  mkAttemptReservation successor (dr_resources current) (dr_prepared_template_identity current).

(** Write the successor of the attempt at [index] and validate. *)
Definition write_attempt (self : DisposableAttemptCatalogDocument) (index : nat)
    (current : DisposableAttemptReservation) (successor : DisposableAttemptState)
    : result DisposableAttemptCatalogError DisposableAttemptCatalogDocument :=
  revision ← CatalogRevision_next (cd_revision self);
  let next := set_catalog self revision (<[index := set_attempt current successor]> (cd_active self))
                (cd_tombstones self) in
  _ ← validate_catalog next;
  Ok next.

Definition replace_attempt (self : DisposableAttemptCatalogDocument)
    (attempt_id : DisposableAttemptId) (expected_attempt_revision : DisposableAttemptRevision)
    (action : DisposableAttemptCatalogAction)
    : result DisposableAttemptCatalogError DisposableAttemptCatalogDocument :=
  found ← active_at self attempt_id expected_attempt_revision;
  let '(index, current) := found in
  successor ← apply_action (dr_attempt current) action;
  if bool_decide (successor = dr_attempt current) then Ok self
  else write_attempt self index current successor.

Definition catalog_retire_complete (self : DisposableAttemptCatalogDocument)
    (attempt_id : DisposableAttemptId) (expected_attempt_revision : DisposableAttemptRevision)
    : result DisposableAttemptCatalogError DisposableAttemptCatalogDocument :=
  found ← active_at self attempt_id expected_attempt_revision;
  let '(index, current) := found in
  if bool_decide (at_phase (dr_attempt current) ≠ PhaseComplete)
  then Err (catalog_error CatInvalidAction
         "only a complete disposable attempt may enter replay history")
  else
    revision ← CatalogRevision_next (cd_revision self);
    let tombstones := cd_tombstones self ++ [dr_attempt current] in
    let tombstones :=
      if (MAX_DISPOSABLE_ATTEMPT_TOMBSTONES <? length tombstones)%nat
      then tail tombstones else tombstones in
    let next := set_catalog self revision (delete index (cd_active self)) tombstones in
    _ ← validate_catalog next;
    Ok next.

Definition catalog_bind_vm_identity (self : DisposableAttemptCatalogDocument)
    (attempt_id : DisposableAttemptId) (expected_attempt_revision : DisposableAttemptRevision)
    (identity : DisposableVmIdentity)
    : result DisposableAttemptCatalogError DisposableAttemptCatalogDocument :=
  found ← active_at self attempt_id expected_attempt_revision;
  let '(index, current) := found in
  successor ← map_err (λ _, catalog_error CatInvalidAction
                 "clone completion cannot bind VM identity")
    (bind_vm_identity_after_clone (dr_attempt current) identity);
  write_attempt self index current successor.

Definition checkpoint_clone_started (self : DisposableAttemptCatalogDocument)
    (attempt_id : DisposableAttemptId) (expected_attempt_revision : DisposableAttemptRevision) :=
  replace_attempt self attempt_id expected_attempt_revision RecordCloneStarted.

(** ** The tests a store applies to a successor *)

(** [iter().zip(..).filter(|(next, prior)| next != prior)]. *)
Definition changed_entries (next prior : list DisposableAttemptReservation)
    : list (DisposableAttemptReservation * DisposableAttemptReservation) :=
  List.filter (λ p, bool_decide (p.1 ≠ p.2)) (zip next prior).

Definition is_reservation_of (self current : DisposableAttemptCatalogDocument) : bool :=
  match list.last (cd_active self) with
  | Some reservation =>
      (length (cd_active self) =? length (cd_active current) + 1)%nat
      && is_some_and (λ candidate, bool_decide (candidate = self))
           (ok (catalog_reserve current reservation))
  | None => false
  end.

Definition is_transition_of (self current : DisposableAttemptCatalogDocument) : bool :=
  if (length (cd_active self) =? length (cd_active current))%nat
     && bool_decide (cd_tombstones self = cd_tombstones current)
  then
    match changed_entries (cd_active self) (cd_active current) with
    | [(next, prior)] =>
        bool_decide (dr_resources next = dr_resources prior)
        && bool_decide (dr_prepared_template_identity next = dr_prepared_template_identity prior)
        && is_exact_successor_of (dr_attempt next) (dr_attempt prior)
    | _ => false
    end
  else false.

Definition is_retirement_of (self current : DisposableAttemptCatalogDocument) : bool :=
  existsb (λ reservation,
    match catalog_retire_complete current (at_attempt_id (dr_attempt reservation))
            (at_revision (dr_attempt reservation)) with
    | Ok candidate => bool_decide (candidate = self)
    | _ => false
    end) (cd_active current).

Definition catalog_validate_successor_of (self current : DisposableAttemptCatalogDocument)
    : result DisposableAttemptCatalogError () :=
  _ ← validate_catalog current;
  _ ← validate_catalog self;
  next ← CatalogRevision_next (cd_revision current);
  if negb (cd_revision self =? next) then Err invalid_store_successor
  else if is_reservation_of self current || is_transition_of self current
          || is_retirement_of self current
  then Ok ()
  else Err invalid_store_successor.

(** [valid] of [validate_recovery_successor_of]: the identity bound after the
    clone and nothing else. *)
Definition is_identity_bind (next prior : DisposableAttemptReservation) : bool :=
  let n := dr_attempt next in
  let p := dr_attempt prior in
  bool_decide (dr_resources next = dr_resources prior)
  && bool_decide (dr_prepared_template_identity next = dr_prepared_template_identity prior)
  && bool_decide (at_phase p = PhaseCloneStarted)
  && (at_revision p =? 3)
  && negb (is_some (at_vm_identity p))
  && bool_decide (at_phase n = PhaseCloneStarted)
  && (at_revision n =? 4)
  && is_some (at_vm_identity n)
  && bool_decide (at_attempt_id n = at_attempt_id p)
  && bool_decide (at_capacity_claim_id n = at_capacity_claim_id p)
  && bool_decide (at_vm_id n = at_vm_id p)
  && bool_decide (at_runner_name n = at_runner_name p)
  && bool_decide (at_runner_request_id n = at_runner_request_id p)
  && bool_decide (at_runner_id n = at_runner_id p)
  && bool_decide (at_github_job_id n = at_github_job_id p)
  && bool_decide (at_result n = at_result p)
  && bool_decide (at_not_after n = at_not_after p).

Definition validate_recovery_successor_of (self current : DisposableAttemptCatalogDocument)
    : result DisposableAttemptCatalogError () :=
  if is_ok (catalog_validate_successor_of self current) then Ok ()
  else
    _ ← validate_catalog current;
    _ ← validate_catalog self;
    next ← CatalogRevision_next (cd_revision current);
    if negb (cd_revision self =? next)
       || negb (length (cd_active self) =? length (cd_active current))%nat
       || bool_decide (cd_tombstones self ≠ cd_tombstones current)
    then Err invalid_store_successor
    else
      match changed_entries (cd_active self) (cd_active current) with
      | [(next, prior)] =>
          if is_identity_bind next prior then Ok () else Err invalid_store_successor
      | _ => Err invalid_store_successor
      end.

(** ** The store interface and the facade *)

Inductive DisposableAttemptCatalogWriteDisposition := CatCreated | CatReplaced | CatSatisfied.

Record DisposableAttemptCatalogWriteReceipt := mkCatalogReceipt {
  cr_disposition : DisposableAttemptCatalogWriteDisposition;
  cr_catalog_revision : DisposableAttemptCatalogRevision;
  cr_attempt_revision : option DisposableAttemptRevision;
}.

Class DisposableAttemptCatalogStore (S : Type) := {
  catalog_recover : stM S DisposableAttemptCatalogError ();
  catalog_load : stM S DisposableAttemptCatalogError (option DisposableAttemptCatalogDocument);
  catalog_create : DisposableAttemptCatalogDocument →
    stM S DisposableAttemptCatalogError DisposableAttemptCatalogWriteReceipt;
  catalog_replace_if_revision : DisposableAttemptCatalogRevision → DisposableAttemptCatalogDocument →
    stM S DisposableAttemptCatalogError DisposableAttemptCatalogWriteReceipt;
}.

Section facade.
Context {S : Type} `{STORE : !DisposableAttemptCatalogStore S}.

(** The snapshot with a receipt that says nothing was written. *)
Definition satisfied (document : DisposableAttemptCatalogDocument)
    (attempt_revision : option DisposableAttemptRevision) :=
  (document, mkCatalogReceipt CatSatisfied (cd_revision document) attempt_revision).

Definition Catalog_load : stM S DisposableAttemptCatalogError DisposableAttemptCatalogDocument :=
  loaded ← catalog_load;
  document ← pureM (ok_or loaded (catalog_error CatMissing
               "disposable attempt catalog is not initialized"));
  _ ← pureM (validate_catalog document);
  mret document.

Definition Catalog_initialize : stM S DisposableAttemptCatalogError
    (DisposableAttemptCatalogDocument * DisposableAttemptCatalogWriteReceipt) :=
  _ ← catalog_recover;
  loaded ← catalog_load;
  match loaded with
  | Some current =>
      _ ← pureM (validate_catalog current);
      mret (satisfied current None)
  | None =>
      let document := empty_catalog in
      λ s,
        match catalog_create document s with
        | (s, Ok receipt) => (s, Ok (document, receipt))
        | (s, Err error) =>
            if bool_decide (ce_kind error = CatAlreadyExists)
            then (loaded ← catalog_load;
                  current ← pureM (ok_or loaded error);
                  _ ← pureM (validate_catalog current);
                  mret (satisfied current None)) s
            else (s, Err error)
        | (s, Panic) => (s, Panic)
        end
  end.

Definition require_catalog_revision (current : DisposableAttemptCatalogDocument)
    (expected : DisposableAttemptCatalogRevision) : result DisposableAttemptCatalogError () :=
  if negb (cd_revision current =? expected) then Err stale_catalog_revision else Ok ().

Definition Catalog_reserve (expected_catalog_revision : DisposableAttemptCatalogRevision)
    (reservation : DisposableAttemptReservation) : stM S DisposableAttemptCatalogError
    (DisposableAttemptCatalogDocument * DisposableAttemptCatalogWriteReceipt) :=
  _ ← catalog_recover;
  current ← Catalog_load;
  _ ← pureM (require_catalog_revision current expected_catalog_revision);
  next ← pureM (catalog_reserve current reservation);
  let attempt_revision := Some (at_revision (dr_attempt reservation)) in
  if bool_decide (next = current) then mret (satisfied current attempt_revision)
  else
    receipt ← catalog_replace_if_revision expected_catalog_revision next;
    mret (next, mkCatalogReceipt (cr_disposition receipt) (cr_catalog_revision receipt)
                  attempt_revision).

Definition Catalog_transition (expected_catalog_revision : DisposableAttemptCatalogRevision)
    (attempt_id : DisposableAttemptId) (expected_attempt_revision : DisposableAttemptRevision)
    (action : DisposableAttemptCatalogAction) : stM S DisposableAttemptCatalogError
    (DisposableAttemptCatalogDocument * DisposableAttemptCatalogWriteReceipt) :=
  _ ← catalog_recover;
  current ← Catalog_load;
  _ ← pureM (require_catalog_revision current expected_catalog_revision);
  next ← pureM (replace_attempt current attempt_id expected_attempt_revision action);
  if bool_decide (next = current)
  then mret (satisfied current (Some expected_attempt_revision))
  else
    let attempt_revision :=
      (λ r, at_revision (dr_attempt r)) <$> find_active next attempt_id in
    receipt ← catalog_replace_if_revision expected_catalog_revision next;
    mret (next, mkCatalogReceipt (cr_disposition receipt) (cr_catalog_revision receipt)
                  attempt_revision).

Definition Catalog_retire_complete (expected_catalog_revision : DisposableAttemptCatalogRevision)
    (attempt_id : DisposableAttemptId) (expected_attempt_revision : DisposableAttemptRevision)
    : stM S DisposableAttemptCatalogError
    (DisposableAttemptCatalogDocument * DisposableAttemptCatalogWriteReceipt) :=
  _ ← catalog_recover;
  current ← Catalog_load;
  _ ← pureM (require_catalog_revision current expected_catalog_revision);
  next ← pureM (catalog_retire_complete current attempt_id expected_attempt_revision);
  receipt ← catalog_replace_if_revision expected_catalog_revision next;
  mret (next, mkCatalogReceipt (cr_disposition receipt) (cr_catalog_revision receipt)
                (Some expected_attempt_revision)).
End facade.

(** ** The store in memory *)

Definition memory_catalog_store := option DisposableAttemptCatalogDocument.

#[export] Instance memory_catalog : DisposableAttemptCatalogStore memory_catalog_store := {|
  catalog_recover := mret ();
  catalog_load := λ document, (document, Ok document);
  catalog_create := λ document stored,
    if is_some stored
    then (stored, Err (catalog_error CatAlreadyExists "disposable attempt catalog already exists"))
    else
      match validate_catalog document with
      | Ok _ =>
          if bool_decide (document ≠ empty_catalog) then (stored, Err invalid_store_successor)
          else (Some document, Ok (mkCatalogReceipt CatCreated (cd_revision document) None))
      | Err e => (stored, Err e)
      | Panic => (stored, Panic)
      end;
  catalog_replace_if_revision := λ expected_revision document stored,
    match stored with
    | None => (stored, Err (catalog_error CatMissing "disposable attempt catalog is not initialized"))
    | Some current =>
        if negb (cd_revision current =? expected_revision)
        then (stored, Err stale_catalog_revision)
        else
          match catalog_validate_successor_of document current with
          | Ok _ => (Some document, Ok (mkCatalogReceipt CatReplaced (cd_revision document) None))
          | Err e => (stored, Err e)
          | Panic => (stored, Panic)
          end
    end;
|}.
