(* ===== verification/CatalogDocument.v ===== *)
(** * What a valid catalog guarantees

    The tests of [validate_catalog] as propositions, the sums behind the
    revision accounting and the host usage, and the effect of each operation of
    the document. *)

From S2P Require Import Prelude Artifact ExecutionAdmission ScaleSetProtocol AttemptState.
From S2P Require Import AttemptLifecycle WorkerReconciler ReconcilerTheorems AttemptCatalog.

Local Open Scope N_scope.

(** ** Sums *)

Definition sum_N (l : list N) : N := foldr N.add 0 l.

Lemma sum_N_app l1 l2 : sum_N (l1 ++ l2) = sum_N l1 + sum_N l2.
Proof. induction l1 as [|x l1 IH]; simpl; [done|]. rewrite IH. lia. Qed.

Lemma sum_N_insert (l : list N) i x y :
  l !! i = Some x → sum_N (<[i := y]> l) + x = sum_N l + y.
Proof.
  revert i. induction l as [|z l IH]; intros [|i] H; simplify_eq/=; [lia|].
  specialize (IH i H). lia.
Qed.

Lemma sum_N_delete (l : list N) i x : l !! i = Some x → sum_N (delete i l) + x = sum_N l.
Proof.
  revert i. induction l as [|z l IH]; intros [|i] H; simplify_eq/=; [lia|].
  specialize (IH i H). lia.
Qed.

Lemma try_fold_add_Some r l r' :
  try_fold_add r l = Some r' ↔ r' = r + sum_N l ∧ (l = [] ∨ r + sum_N l ≤ u64_max).
Proof.
  revert r. induction l as [|x l IH]; intros r; simpl.
  { rewrite N.add_0_r. split; [intros [= <-]; auto|by intros [-> _]]. }
  rewrite bind_Some. setoid_rewrite checked_add_Some. setoid_rewrite IH. split.
  - intros (y & [-> Hy] & -> & Hl). split; [lia|]. right. destruct Hl as [->|]; simpl in *; lia.
  - intros [-> [?|Hl]]; [done|]. exists (r + x). split; [lia|]. split; [lia|right; lia].
Qed.

Lemma try_fold_add_succ_Some r l r' :
  try_fold_add_succ r l = Some r' ↔
  r' = r + sum_N (N.succ <$> l) ∧ (l = [] ∨ r + sum_N (N.succ <$> l) ≤ u64_max).
Proof.
  revert r. induction l as [|x l IH]; intros r; csimpl.
  { rewrite N.add_0_r. split; [intros [= <-]; auto|by intros [-> _]]. }
  rewrite bind_Some. setoid_rewrite bind_Some. setoid_rewrite checked_add_Some. setoid_rewrite IH. split.
  - intros (y & [-> Hy] & z & [-> Hz] & -> & Hl). split; [lia|]. right. destruct Hl as [->|]; csimpl in *; simpl in *; lia.
  - intros [-> [?|Hl]]; [done|]. exists (r + x). split; [lia|]. exists (r + x + 1).
    split; [lia|]. split; [lia|right; lia].
Qed.

(** ** Identities *)

(** The entries of [l] are distinct and none is in [X]. *)
Definition fresh_in {A} `{Countable A} (X : gset A) (l : list A) : Prop :=
  NoDup l ∧ ∀ x, x ∈ l → x ∉ X.

Lemma fresh_in_nil {A} `{Countable A} (X : gset A) : fresh_in X [].
Proof. split; [constructor|]. intros x Hx. by apply elem_of_nil in Hx. Qed.

Lemma fresh_in_cons {A} `{Countable A} (X : gset A) x l :
  fresh_in X (x :: l) ↔ x ∉ X ∧ fresh_in ({[x]} ∪ X) l.
Proof. unfold fresh_in. rewrite NoDup_cons. set_solver. Qed.

Lemma fresh_in_option {A B} `{Countable B} (f : A → option B) (X : gset B) x l :
  fresh_in X (omap f (x :: l)) ↔
  is_some_and (λ b, bool_decide (b ∈ X)) (f x) = false ∧
  fresh_in (insert_option (f x) X) (omap f l).
Proof.
  simpl. destruct (f x) as [b|]; simpl; [|tauto].
  rewrite fresh_in_cons, bool_decide_eq_false. done.
Qed.

Lemma fresh_in_empty {A} `{Countable A} (l : list A) : fresh_in ∅ l ↔ NoDup l.
Proof. unfold fresh_in. set_solver. Qed.

(** No two attempts share an identity. *)
Record distinct_attempts (seen : seen_identities) (l : list DisposableAttemptState) : Prop := {
  di_attempt_ids : fresh_in (se_attempt_ids seen) (at_attempt_id <$> l);
  di_claim_ids : fresh_in (se_claim_ids seen) (at_capacity_claim_id <$> l);
  di_vm_ids : fresh_in (se_vm_ids seen) (at_vm_id <$> l);
  di_vm_identities : fresh_in (se_vm_identities seen) (omap at_vm_identity l);
  di_runner_names : fresh_in (se_runner_names seen) (at_runner_name <$> l);
  di_request_ids : fresh_in (se_runner_request_ids seen) (at_runner_request_id <$> l);
  di_runner_ids : fresh_in (se_runner_ids seen) (omap at_runner_id l);
  di_job_ids : fresh_in (se_job_ids seen) (omap at_github_job_id l);
}.

Lemma seen_step_Ok seen a seen' l :
  (seen_step seen a = Ok seen' ∧ distinct_attempts seen' l) →
  distinct_attempts seen (a :: l).
Proof.
  intros [H [H1 H2 H3 H4 H5 H6 H7 H8]]. unfold seen_step in H.
  apply ok_guard in H as [Hg H]. bprop. do 3 (apply ok_guard in H as [? H]). injection H as <-.
  split; try (by apply fresh_in_cons); by apply fresh_in_option.
Qed.

Lemma distinct_step seen a l :
  distinct_attempts seen (a :: l) → ∃ seen', seen_step seen a = Ok seen' ∧ distinct_attempts seen' l.
Proof.
  intros [H1 H2 H3 H4 H5 H6 H7 H8].
  apply fresh_in_cons in H1 as [? H1], H2 as [? H2], H3 as [? H3], H5 as [? H5], H6 as [? H6].
  apply fresh_in_option in H4 as [E4 H4], H7 as [E7 H7], H8 as [E8 H8].
  eexists. split.
  { unfold seen_step. rewrite !bool_decide_eq_false_2 by done. rewrite E4, E7, E8. done. }
  by split.
Qed.

Lemma seen_fold_Ok seen l :
  (∃ seen', fold_result seen_step seen l = Ok seen') ↔ distinct_attempts seen l.
Proof.
  revert seen. induction l as [|a l IH]; intros seen; simpl.
  { split; [|eauto]. intros _. split; apply fresh_in_nil. }
  split.
  - intros (seen' & H). apply bind_Ok in H as (mid & Hmid & H).
    eapply seen_step_Ok. split; [done|]. apply IH. eauto.
  - intros (mid & Hmid & Hl)%distinct_step. apply IH in Hl as (seen' & Hl).
    exists seen'. by rewrite Hmid.
Qed.

(** ** Usage *)

(** The reservations that hold capacity. *)
Definition open_reservations (c : DisposableAttemptCatalogDocument) : list DisposableAttemptReservation :=
  filter (λ r, at_phase (dr_attempt r) ≠ PhaseComplete) (cd_active c).

Definition sum_of {A} (f : A → N) (l : list A) : N := sum_N (f <$> l).

Lemma sum_of_cons {A} (f : A → N) x l : sum_of f (x :: l) = f x + sum_of f l.
Proof. done. Qed.

Definition resources_of (f : DisposableWorkerResources → N) (l : list DisposableAttemptReservation) : N :=
  sum_of (λ r, f (dr_resources r)) l.

Definition usage_of (l : list DisposableAttemptReservation) : DisposableHostUsage :=
  mkHostUsage (N.of_nat (length l))
    (mkWorkerResources (resources_of wr_cpu_millis l) (resources_of wr_memory_bytes l)
       (resources_of wr_disk_bytes l)).

(** What [WorkerResources_new] and [HostUsage_new] accept, or nothing at all. *)
Definition within_envelope (u : DisposableHostUsage) : Prop :=
  hu_workers u ≤ MAX_WORKERS ∧
  (hu_workers u = 0 ∨
   1 ≤ wr_cpu_millis (hu_resources u) ≤ MAX_CPU_MILLIS ∧
   1 ≤ wr_memory_bytes (hu_resources u) ≤ MAX_BYTES ∧
   1 ≤ wr_disk_bytes (hu_resources u) ≤ MAX_BYTES).

Definition add_usage (t : usage_totals) (u : DisposableHostUsage) : usage_totals :=
  mkTotals (ut_workers t + hu_workers u) (ut_cpu t + wr_cpu_millis (hu_resources u))
    (ut_memory t + wr_memory_bytes (hu_resources u)) (ut_disk t + wr_disk_bytes (hu_resources u)).

Lemma add_usage_nil t : add_usage t (usage_of []) = t.
Proof. destruct t. unfold add_usage, usage_of, resources_of, sum_of. simpl. f_equal; lia. Qed.

Lemma add_usage_cons t r l :
  add_usage t (usage_of (r :: l)) =
  add_usage (mkTotals (ut_workers t + 1) (ut_cpu t + wr_cpu_millis (dr_resources r))
    (ut_memory t + wr_memory_bytes (dr_resources r)) (ut_disk t + wr_disk_bytes (dr_resources r)))
    (usage_of l).
Proof. unfold add_usage, usage_of, resources_of. rewrite !sum_of_cons. simpl. f_equal; lia. Qed.

Lemma usage_fold_Ok t l t' :
  fold_result usage_step t l = Ok t' →
  t' = add_usage t (usage_of (filter (λ r, at_phase (dr_attempt r) ≠ PhaseComplete) l)).
Proof.
  revert t. induction l as [|r l IH]; intros t H; simpl in H.
  { injection H as <-. symmetry. apply add_usage_nil. }
  apply bind_Ok in H as (m & Hm & H). apply IH in H as ->. unfold usage_step in Hm.
  case_bool_decide as Hp.
  - injection Hm as <-. by rewrite filter_cons_False by auto.
  - rewrite filter_cons_True, add_usage_cons by done. f_equal.
    apply bind_Ok in Hm as (w & [-> _]%ok_or_Ok%checked_add_Some & Hm).
    apply bind_Ok in Hm as (cpu & [-> _]%ok_or_Ok%checked_add_Some & Hm).
    apply bind_Ok in Hm as (mem & [-> _]%ok_or_Ok%checked_add_Some & Hm).
    by apply bind_Ok in Hm as (disk & [-> _]%ok_or_Ok%checked_add_Some & [= <-]).
Qed.

Lemma usage_fold_total t l :
  let t' := add_usage t (usage_of (filter (λ r, at_phase (dr_attempt r) ≠ PhaseComplete) l)) in
  ut_workers t' ≤ u16_max → ut_cpu t' ≤ u32_max → ut_memory t' ≤ u64_max → ut_disk t' ≤ u64_max →
  fold_result usage_step t l = Ok t'.
Proof.
  revert t. induction l as [|r l IH]; intros t t' Hw Hc Hm Hd; subst t'; simpl.
  { f_equal. symmetry. apply add_usage_nil. }
  unfold usage_step. destruct (decide (at_phase (dr_attempt r) = PhaseComplete)) as [Hp|Hp].
  - rewrite bool_decide_eq_true_2 by done. simpl.
    rewrite filter_cons_False in Hw, Hc, Hm, Hd |- * by auto. by apply IH.
  - rewrite bool_decide_eq_false_2 by done.
    rewrite filter_cons_True, add_usage_cons in Hw, Hc, Hm, Hd |- * by done. simpl in Hw, Hc, Hm, Hd.
    unfold checked_add. rewrite !(proj2 (N.leb_le _ _)) by lia. simpl. by apply IH.
Qed.

Lemma WorkerResources_new_Ok cpu memory disk w :
  WorkerResources_new cpu memory disk = Ok w ↔
  w = mkWorkerResources cpu memory disk ∧
  1 ≤ cpu ≤ MAX_CPU_MILLIS ∧ 1 ≤ memory ≤ MAX_BYTES ∧ 1 ≤ disk ≤ MAX_BYTES.
Proof.
  unfold WorkerResources_new. split.
  - intros H. do 3 (apply ok_guard in H as [? H]). bprop. unfold in_range in *. bprop.
    by injection H as <-.
  - intros (-> & Hc & Hm & Hd). apply in_range_true in Hc, Hm, Hd. by rewrite Hc, Hm, Hd.
Qed.

(** The usage of a catalog is the exact sum over the reservations that are not
    complete, wherever that sum is one the host can represent. *)
Lemma host_usage_Ok c u :
  (length (cd_active c) ≤ MAX_ACTIVE_DISPOSABLE_ATTEMPTS)%nat →
  host_usage c = Ok u ↔ u = usage_of (open_reservations c) ∧ within_envelope u.
Proof.
  intros Hlen. unfold host_usage. set (o := open_reservations c).
  assert (length o ≤ 64)%nat as Ho.
  { etrans; [apply length_filter|]. exact Hlen. }
  assert (add_usage (mkTotals 0 0 0 0) (usage_of o) =
    mkTotals (N.of_nat (length o)) (resources_of wr_cpu_millis o) (resources_of wr_memory_bytes o)
      (resources_of wr_disk_bytes o)) as Hadd by done.
  split.
  - intros H. apply bind_Ok in H as (t & ->%usage_fold_Ok & H). fold (open_reservations c) in H.
    fold o in H. rewrite Hadd in H. simpl in H.
    destruct (N.eqb_spec (N.of_nat (length o)) 0) as [Hz|Hz].
    + injection H as <-. destruct o; [|simpl in Hz; lia]. split; [done|]. unfold within_envelope. simpl. lia.
    + apply bind_Ok in H as (w & [-> Hw]%map_err_Ok%WorkerResources_new_Ok & H).
      apply map_err_Ok in H. unfold HostUsage_new in H. apply ok_guard in H as [Hg H]. bprop.
      injection H as <-. split; [done|]. unfold within_envelope. simpl. auto.
  - intros [-> [Hmax Henv]]. destruct Henv as [Hz|(Hc & Hm & Hd)].
    + rewrite usage_fold_total; fold (open_reservations c); fold o; rewrite Hadd; simpl in *; try lia;
        destruct o; simpl in *; done || lia.
    + assert (64 ≤ u16_max ∧ MAX_CPU_MILLIS ≤ u32_max ∧ MAX_BYTES ≤ u64_max) as (? & ? & ?)
        by (split_and!; vm_compute; discriminate).
      rewrite usage_fold_total; fold (open_reservations c); fold o; rewrite Hadd; simpl in *; try lia.
      destruct (N.eqb_spec (N.of_nat (length o)) 0) as [Hz|Hz].
      { exfalso. destruct o; [by destruct Hc as [Hc _]; apply Hc|simpl in Hz; lia]. }
      rewrite (proj2 (map_err_Ok _ _ (mkWorkerResources (resources_of wr_cpu_millis o)
        (resources_of wr_memory_bytes o) (resources_of wr_disk_bytes o)))); simpl.
      * unfold HostUsage_new. by rewrite (proj2 (N.ltb_ge _ _)).
      * by apply WorkerResources_new_Ok.
Qed.

(** ** Validity *)

(** The number of durable writes the entries stand for: the creation of the
    document, every revision of every attempt, and every retirement. *)
Definition represented (c : DisposableAttemptCatalogDocument) : N :=
  1 + sum_of (λ r, at_revision (dr_attempt r)) (cd_active c) +
  sum_of (λ a, N.succ (at_revision a)) (cd_tombstones c).

Lemma represented_revision_Some c r :
  represented_revision c = Some r ↔ r = represented c ∧ r ≤ u64_max.
Proof.
  unfold represented_revision, represented, sum_of. rewrite bind_Some.
  setoid_rewrite try_fold_add_Some. setoid_rewrite try_fold_add_succ_Some.
  rewrite <-list_fmap_compose. unfold compose.
  assert (1 ≤ u64_max) by (vm_compute; discriminate).
  assert (∀ (l : list N), l = [] → sum_N l = 0) as Hnil by (by intros ? ->).
  split.
  - intros (x & [-> Hx] & -> & Hl). split; [done|].
    destruct Hl as [Hl|Hl]; [|done]. destruct Hx as [Hx|Hx];
      rewrite ?(Hnil _ Hx), ?(Hnil (_ <$> cd_tombstones c)); try lia;
      by apply fmap_nil_inv in Hl as ->.
  - intros [-> Hmax]. eexists. split; [split; [done|right; lia]|]. split; [done|]. by right.
Qed.

(** What [validate_catalog] tests before it looks at identities and usage. *)
Record catalog_counts (c : DisposableAttemptCatalogDocument) : Prop := {
  co_schema : cd_schema_version c = DISPOSABLE_ATTEMPT_CATALOG_SCHEMA_VERSION;
  co_active : (length (cd_active c) ≤ MAX_ACTIVE_DISPOSABLE_ATTEMPTS)%nat;
  co_tombstones : (length (cd_tombstones c) ≤ MAX_DISPOSABLE_ATTEMPT_TOMBSTONES)%nat;
  co_bounded : represented c ≤ u64_max;
  co_revision :
    if decide (length (cd_tombstones c) < MAX_DISPOSABLE_ATTEMPT_TOMBSTONES)%nat
    then cd_revision c = represented c else represented c ≤ cd_revision c;
  co_reserved : ∀ r, r ∈ cd_active c → at_phase (dr_attempt r) = PhaseReserved →
    at_revision (dr_attempt r) = 1;
  co_complete : ∀ a, a ∈ cd_tombstones c → at_phase a = PhaseComplete;
}.

Definition catalog_distinct (c : DisposableAttemptCatalogDocument) : Prop :=
  distinct_attempts nothing_seen (catalog_attempts c).

Definition catalog_usage_ok (c : DisposableAttemptCatalogDocument) : Prop :=
  within_envelope (usage_of (open_reservations c)).

Record catalog_ok (c : DisposableAttemptCatalogDocument) : Prop := {
  co_counts : catalog_counts c;
  co_distinct : catalog_distinct c;
  co_usage : catalog_usage_ok c;
}.

Lemma seen_fold_Err l :
  ¬ distinct_attempts nothing_seen l → fold_result seen_step nothing_seen l = Err duplicate_identity.
Proof.
  rewrite <-seen_fold_Ok. generalize nothing_seen as seen.
  induction l as [|a l IH]; intros seen H; simpl in *; [by destruct H; eauto|].
  assert ((∃ seen', seen_step seen a = Ok seen') ∨ seen_step seen a = Err duplicate_identity)
    as [[seen' Ha]|Ha] by (unfold seen_step; repeat case_match; eauto).
  - rewrite Ha in *. simpl in *. by apply IH.
  - by rewrite Ha.
Qed.

Lemma host_usage_cases c : (∃ u, host_usage c = Ok u) ∨ host_usage c = Err resource_overflow.
Proof.
  assert (∀ t l, (∃ t', fold_result usage_step t l = Ok t') ∨
    fold_result usage_step t l = Err resource_overflow) as Hfold.
  { intros t l. revert t. induction l as [|r l IH]; intros t; simpl; [eauto|].
    assert ((∃ t', usage_step t r = Ok t') ∨ usage_step t r = Err resource_overflow) as [[t' ->]| ->].
    { unfold usage_step. case_match; [eauto|]. repeat (destruct (checked_add _ _ _); simpl; eauto). }
    - apply IH.
    - by right. }
  unfold host_usage. destruct (Hfold (mkTotals 0 0 0 0) (cd_active c)) as [[t ->]| ->]; simpl; [|auto].
  case_match; [eauto|]. unfold WorkerResources_new, HostUsage_new.
  repeat (case_match; simpl in *; eauto).
Qed.

Lemma host_usage_Err c :
  (length (cd_active c) ≤ MAX_ACTIVE_DISPOSABLE_ATTEMPTS)%nat → ¬ catalog_usage_ok c →
  host_usage c = Err resource_overflow.
Proof.
  intros Hlen Hu. destruct (host_usage_cases c) as [[u H]|H]; [|done].
  by apply host_usage_Ok in H as [-> ?].
Qed.

(** The revision test, as [validate_catalog] writes it. *)
Lemma revision_test c :
  (if (length (cd_tombstones c) <? MAX_DISPOSABLE_ATTEMPT_TOMBSTONES)%nat
   then cd_revision c =? represented c else represented c <=? cd_revision c) = true ↔
  if decide (length (cd_tombstones c) < MAX_DISPOSABLE_ATTEMPT_TOMBSTONES)%nat
  then cd_revision c = represented c else represented c ≤ cd_revision c.
Proof.
  case_decide as Hlt.
  - rewrite (proj2 (Nat.ltb_lt _ _) Hlt). apply N.eqb_eq.
  - rewrite (proj2 (Nat.ltb_ge _ _)) by lia. apply N.leb_le.
Qed.

(** Where the counts are right, identities and usage decide. *)
Lemma validate_counts c :
  catalog_counts c →
  validate_catalog c =
    (_ ← fold_result seen_step nothing_seen (catalog_attempts c); _ ← host_usage c; Ok ()).
Proof.
  intros [Hschema Hact Htomb Hmax Hrev Hres Hcomp]. unfold validate_catalog. rewrite Hschema.
  rewrite !(proj2 (Nat.ltb_ge _ _)) by done. simpl.
  rewrite (proj2 (ok_or_Ok _ _ (represented c)) (proj2 (represented_revision_Some c _) (conj eq_refl Hmax))).
  simpl. rewrite (proj2 (revision_test c) Hrev). simpl. rewrite (proj2 (existsb_false _ _)).
  2:{ intros r Hr. case_bool_decide; [|done]. apply negb_eqb_false. auto. }
  destruct (fold_result seen_step _ _) as [seen|e|]; simpl; [|done..]. rewrite (proj2 (existsb_false _ _)); [done|].
  intros a Ha. rewrite bool_decide_eq_false. auto.
Qed.

(** [validate_catalog] decides [catalog_ok]. *)
Lemma validate_catalog_iff c : validate_catalog c = Ok () ↔ catalog_ok c.
Proof.
  split.
  - unfold validate_catalog. intros H. apply ok_guard in H as [?%negb_eqb_false H].
    apply ok_guard in H as [Hb H]. apply orb_false_iff in Hb as [?%Nat.ltb_ge ?%Nat.ltb_ge].
    apply bind_Ok in H as (rep & Hrep & H). apply ok_or_Ok, represented_revision_Some in Hrep as [-> Hmax].
    apply ok_guard in H as [Hrev H]. apply ok_guard in H as [Hres H].
    apply bind_Ok in H as (seen & Hseen & H). apply ok_guard in H as [Hcomp H].
    apply bind_Ok in H as (u & [-> Hu]%host_usage_Ok & _); [|done].
    rewrite existsb_false in Hres. rewrite existsb_false in Hcomp.
    split; [split; auto|apply seen_fold_Ok; eauto|done].
    + by apply revision_test, negb_false_iff.
    + intros r Hr Hp. specialize (Hres r Hr). rewrite bool_decide_eq_true_2 in Hres by done.
      by apply negb_eqb_false.
    + intros a Ha. specialize (Hcomp a Ha). by bprop.
  - intros [Hcounts Hdist Hu]. rewrite validate_counts by done.
    apply seen_fold_Ok in Hdist as [seen ->]. simpl.
    by rewrite (proj2 (host_usage_Ok c _ (co_active _ Hcounts)) (conj eq_refl Hu)).
Qed.
