(* ===== verification/CatalogSteps.v ===== *)
(** * What each operation of the catalog does

    The invariant of the catalogs the program handles, and every operation of
    the document on every branch: an operation on such a catalog is refused for
    the reasons written here and no other, and keeps the invariant. *)

From S2P Require Import Prelude SortBy Artifact ExecutionAdmission ScaleSetProtocol AttemptState.
From S2P Require Import AttemptLifecycle WorkerReconciler ReconcilerTheorems AttemptCatalog.
From S2P Require Import CatalogDocument.

Local Open Scope N_scope.

(** ** The invariant *)

Definition resources_ok (w : DisposableWorkerResources) : Prop :=
  WorkerResources_new (wr_cpu_millis w) (wr_memory_bytes w) (wr_disk_bytes w) = Ok w.

(** A document that validates, with a representable revision and entries that
    came from their constructors. *)
Record catalog_wf (c : DisposableAttemptCatalogDocument) : Prop := {
  wf_ok : catalog_ok c;
  wf_revision : cd_revision c ≤ MAX_DISPOSABLE_ATTEMPT_CATALOG_REVISION;
  wf_attempts : ∀ a, a ∈ catalog_attempts c → validate a = Ok ();
  wf_resources : ∀ r, r ∈ cd_active c → resources_ok (dr_resources r);
}.

Lemma represented_le c : catalog_counts c → represented c ≤ cd_revision c.
Proof. intros Hc. pose proof (co_revision _ Hc). case_decide; lia. Qed.

Lemma catalog_revision_u64 r : r ≤ MAX_DISPOSABLE_ATTEMPT_CATALOG_REVISION → r ≤ u64_max.
Proof. unfold MAX_DISPOSABLE_ATTEMPT_CATALOG_REVISION, u64_max. lia. Qed.

Definition cannot_advance : DisposableAttemptCatalogError :=
  catalog_error CatConflict "disposable attempt catalog revision cannot advance".

Lemma CatalogRevision_next_eq r :
  CatalogRevision_next r =
  if r + 1 <=? MAX_DISPOSABLE_ATTEMPT_CATALOG_REVISION then Ok (r + 1) else Err cannot_advance.
Proof.
  unfold CatalogRevision_next, CatalogRevision_new, checked_add, in_range.
  destruct (N.leb_spec (r + 1) u64_max); simpl.
  - rewrite (proj2 (N.leb_le 1 (r + 1))) by lia. simpl.
    by destruct (r + 1 <=? MAX_DISPOSABLE_ATTEMPT_CATALOG_REVISION).
  - rewrite (proj2 (N.leb_gt _ _)); [done|].
    unfold MAX_DISPOSABLE_ATTEMPT_CATALOG_REVISION, u64_max in *. lia.
Qed.

(** ** Finding an attempt *)

Lemma attempt_ids_nodup c : catalog_distinct c → NoDup ((λ r, at_attempt_id (dr_attempt r)) <$> cd_active c).
Proof.
  intros [[Hnd _] _ _ _ _ _ _ _]. unfold catalog_attempts in Hnd. rewrite fmap_app in Hnd.
  apply NoDup_app in Hnd as [Hnd _]. by rewrite <-list_fmap_compose in Hnd.
Qed.

Lemma active_at_eq c id rev :
  active_at c id rev =
  match position (λ r, bool_decide (at_attempt_id (dr_attempt r) = id)) (cd_active c) with
  | Some i =>
      match cd_active c !! i with
      | Some cur =>
          if negb (at_revision (dr_attempt cur) =? rev) then Err stale_attempt_revision else Ok (i, cur)
      | None => Panic
      end
  | None => Err attempt_missing
  end.
Proof.
  unfold active_at. destruct (position _ _) as [i|]; simpl; [|done].
  by destruct (cd_active c !! i).
Qed.

Lemma active_at_Ok c id rev i cur :
  active_at c id rev = Ok (i, cur) →
  cd_active c !! i = Some cur ∧ at_attempt_id (dr_attempt cur) = id ∧
  at_revision (dr_attempt cur) = rev ∧ find_active c id = Some cur.
Proof.
  rewrite active_at_eq. unfold find_active. rewrite find_position.
  destruct (position _ _) as [j|] eqn:Hpos; [|done].
  apply position_lookup in Hpos as (x & Hx & Hid). bprop. rewrite Hx. simpl.
  intros H. apply ok_guard in H as [?%negb_eqb_false H]. injection H as <- <-. auto.
Qed.

Lemma find_active_Some c id cur :
  find_active c id = Some cur →
  ∃ i, cd_active c !! i = Some cur ∧ at_attempt_id (dr_attempt cur) = id ∧
    ∀ rev, active_at c id rev =
      if negb (at_revision (dr_attempt cur) =? rev) then Err stale_attempt_revision else Ok (i, cur).
Proof.
  unfold find_active. rewrite find_position. intros (i & Hpos & Hi)%bind_Some.
  exists i. setoid_rewrite active_at_eq. rewrite Hpos, Hi.
  apply position_lookup in Hpos as (x & Hx & Hid). bprop. simplify_eq. auto.
Qed.

Lemma find_active_None c id rev : find_active c id = None → active_at c id rev = Err attempt_missing.
Proof.
  unfold find_active. rewrite find_position, active_at_eq.
  destruct (position _ _) as [i|] eqn:Hpos; [|done]. simpl.
  apply position_lookup in Hpos as (x & Hx & _). by rewrite Hx.
Qed.

(** ** Identities under the operations *)

(** [s] records evidence that [cur] had not and that another attempt has. *)
Definition clash_in {B} `{EqDecision B} (f : DisposableAttemptState → option B)
    (l : list DisposableAttemptState) (cur s : DisposableAttemptState) : bool :=
  match f cur, f s with
  | None, Some b => bool_decide (b ∈ omap f l)
  | _, _ => false
  end.

Definition evidence_clash (l : list DisposableAttemptState) (cur s : DisposableAttemptState) : bool :=
  clash_in at_vm_identity l cur s || clash_in at_runner_id l cur s || clash_in at_github_job_id l cur s.

Lemma omap_insert {B} `{EqDecision B} (f : DisposableAttemptState → option B) l (i : nat) cur s :
  l !! i = Some cur → NoDup (omap f l) → keeps (f cur) (f s) →
  NoDup (omap f (<[i := s]> l)) ↔ clash_in f l cur s = false.
Proof.
  intros (a & b & -> & ->)%list_elem_of_split_length Hnd Hk. unfold clash_in.
  rewrite insert_app_r_alt, Nat.sub_diag by lia. revert Hnd. simpl. rewrite !omap_app. csimpl.
  destruct (f cur) as [x|].
  - by rewrite (Hk x eq_refl).
  - intros Hnd. destruct (f s) as [x|]; [|done].
    rewrite bool_decide_eq_false, <-Permutation_middle, NoDup_cons. tauto.
Qed.

Lemma distinct_nothing l :
  distinct_attempts nothing_seen l ↔
  NoDup (at_attempt_id <$> l) ∧ NoDup (at_capacity_claim_id <$> l) ∧ NoDup (at_vm_id <$> l) ∧
  NoDup (at_runner_name <$> l) ∧ NoDup (at_runner_request_id <$> l) ∧
  NoDup (omap at_vm_identity l) ∧ NoDup (omap at_runner_id l) ∧ NoDup (omap at_github_job_id l).
Proof.
  split.
  - intros [H1 H2 H3 H4 H5 H6 H7 H8]. split_and!; (apply H1 || apply H2 || apply H3 || apply H4 || apply H5 || apply H6 || apply H7 || apply H8).
  - intros (?&?&?&?&?&?&?&?). by split; apply fresh_in_empty.
Qed.

(** Advancing one attempt keeps identities distinct unless it clashes. *)
Lemma distinct_insert l (i : nat) cur s :
  l !! i = Some cur → distinct_attempts nothing_seen l → step_facts cur s →
  distinct_attempts nothing_seen (<[i := s]> l) ↔ evidence_clash l cur s = false.
Proof.
  intros Hi Hd Hstep. rewrite distinct_nothing in Hd |- *. destruct Hd as (?&?&?&?&?&?&?&?).
  pose proof (sf_key _ _ Hstep) as Hkey. injection Hkey as ? ? ? ? ? ? ?.
  rewrite !(insert_same_key _ l i cur s) by done.
  rewrite !(omap_insert _ l i cur s) by (done || apply Hstep).
  unfold evidence_clash. rewrite !orb_false_iff. tauto.
Qed.

Lemma distinct_submseteq l l' :
  l' ⊆+ l → distinct_attempts nothing_seen l → distinct_attempts nothing_seen l'.
Proof.
  intros Hsub. rewrite !distinct_nothing. intros (?&?&?&?&?&?&?&?).
  apply submseteq_Permutation in Hsub as [k Hk].
  repeat match goal with H : NoDup _ |- _ => rewrite Hk, ?fmap_app, ?omap_app in H; apply NoDup_app in H end.
  tauto.
Qed.

(** ** Sums under the operations *)

Lemma sum_of_app {A} (f : A → N) l1 l2 : sum_of f (l1 ++ l2) = sum_of f l1 + sum_of f l2.
Proof. unfold sum_of. by rewrite fmap_app, sum_N_app. Qed.

Lemma sum_of_insert {A} (f : A → N) l (i : nat) x y :
  l !! i = Some x → f y = f x + 1 → sum_of f (<[i := y]> l) = sum_of f l + 1.
Proof.
  intros Hx Hf. unfold sum_of. rewrite list_fmap_insert.
  pose proof (sum_N_insert (f <$> l) i (f x) (f y)) as Hs. rewrite list_lookup_fmap, Hx in Hs.
  specialize (Hs eq_refl). lia.
Qed.

Lemma sum_of_delete {A} (f : A → N) l (i : nat) x :
  l !! i = Some x → sum_of f (delete i l) + f x = sum_of f l.
Proof.
  intros (a & b & -> & ->)%list_elem_of_split_length. rewrite delete_middle.
  rewrite !sum_of_app, sum_of_cons. lia.
Qed.

#[export] Instance sum_of_perm {A} (f : A → N) : Proper ((≡ₚ) ==> eq) (sum_of f).
Proof.
  intros l l' H. induction H as [|x l l' _ IH|x y l|l1 l2 l3 _ IH1 _ IH2];
    rewrite ?sum_of_cons; [done|congruence|lia|congruence].
Qed.

#[export] Instance usage_of_perm : Proper ((≡ₚ) ==> eq) usage_of.
Proof. intros l l' H. unfold usage_of, resources_of. by rewrite !H. Qed.

Definition holds_capacity (r : DisposableAttemptReservation) : Prop :=
  at_phase (dr_attempt r) ≠ PhaseComplete.

Lemma open_reservations_eq c : open_reservations c = filter holds_capacity (cd_active c).
Proof. done. Qed.

(** Fewer reservations of positive size fit where more did. *)
Lemma envelope_mono o o' :
  o' ⊆+ o → (∀ r, r ∈ o' → resources_ok (dr_resources r)) →
  within_envelope (usage_of o) → within_envelope (usage_of o').
Proof.
  intros [k Hk]%submseteq_Permutation Hres. rewrite Hk. unfold within_envelope, usage_of, resources_of.
  rewrite length_app, !sum_of_app. simpl. intros [Hmax Henv]. split; [lia|].
  destruct o' as [|r o']; [by left|right]. rewrite !sum_of_cons in *.
  assert (resources_ok (dr_resources r)) as Hr by (apply Hres; left).
  apply WorkerResources_new_Ok in Hr as (_ & Hc & Hm & Hd). simpl in *. destruct Henv as [?|(?&?&?)]; lia.
Qed.

(** The reservations that hold capacity once one of them is replaced by a later
    state of itself. *)
Lemma open_insert l (i : nat) cur r :
  l !! i = Some cur → dr_resources r = dr_resources cur → (holds_capacity r → holds_capacity cur) →
  ∃ o, o ⊆+ filter holds_capacity l ∧
    dr_resources <$> o = dr_resources <$> filter holds_capacity (<[i := r]> l).
Proof.
  intros (a & b & -> & ->)%list_elem_of_split_length Hres Hopen.
  rewrite insert_app_r_alt, Nat.sub_diag by lia. simpl. rewrite !filter_app.
  destruct (decide (holds_capacity r)) as [Hr|Hr].
  - exists (filter holds_capacity a ++ cur :: filter holds_capacity b).
    rewrite !filter_cons_True by auto. split; [done|]. rewrite !fmap_app. csimpl. by rewrite Hres.
  - exists (filter holds_capacity a ++ filter holds_capacity b). rewrite (filter_cons_False _ r) by done.
    split; [|done]. apply submseteq_app; [done|]. rewrite filter_cons. case_decide; [|done].
    by apply submseteq_cons.
Qed.

Lemma usage_of_resources l l' : dr_resources <$> l = dr_resources <$> l' → usage_of l = usage_of l'.
Proof.
  intros H. unfold usage_of, resources_of, sum_of.
  rewrite <-(length_fmap dr_resources l), H, length_fmap.
  assert (∀ g : DisposableWorkerResources → N,
    (λ r, g (dr_resources r)) <$> l = (λ r, g (dr_resources r)) <$> l') as Hg.
  { intros g. change (g ∘ dr_resources <$> l = g ∘ dr_resources <$> l').
    by rewrite !list_fmap_compose, H. }
  by rewrite !Hg.
Qed.

Lemma resources_elem (l l' : list DisposableAttemptReservation) (P : DisposableWorkerResources → Prop) :
  dr_resources <$> l = dr_resources <$> l' → (∀ r, r ∈ l → P (dr_resources r)) →
  ∀ r, r ∈ l' → P (dr_resources r).
Proof.
  intros H Hl r Hr. assert (dr_resources r ∈ dr_resources <$> l) as (r0 & -> & ?)%list_elem_of_fmap; [|auto].
  rewrite H. by apply list_elem_of_fmap_2.
Qed.

(** ** Advancing one attempt *)

(** The catalog with the attempt at [i] replaced and the revision advanced. *)
Definition written (c : DisposableAttemptCatalogDocument) (i : nat) (cur : DisposableAttemptReservation)
    (s : DisposableAttemptState) : DisposableAttemptCatalogDocument :=
  set_catalog c (cd_revision c + 1) (<[i := set_attempt cur s]> (cd_active c)) (cd_tombstones c).

Lemma written_attempts c i cur s :
  cd_active c !! i = Some cur → catalog_attempts (written c i cur s) = <[i := s]> (catalog_attempts c).
Proof.
  intros Hi. unfold catalog_attempts, written. simpl. rewrite list_fmap_insert. simpl.
  rewrite insert_app_l; [done|]. rewrite length_fmap. by eapply lookup_lt_Some.
Qed.

Lemma active_attempt c i cur : cd_active c !! i = Some cur → catalog_attempts c !! i = Some (dr_attempt cur).
Proof.
  intros Hi. unfold catalog_attempts. apply lookup_app_l_Some. by rewrite list_lookup_fmap, Hi.
Qed.

Section advance.
Context (c : DisposableAttemptCatalogDocument) (Hwf : catalog_wf c).
Context (i : nat) (cur : DisposableAttemptReservation) (Hi : cd_active c !! i = Some cur).
Context (s : DisposableAttemptState) (Hstep : step_facts (dr_attempt cur) s).
Context (Hnew : s ≠ dr_attempt cur).
Context (Hmax : cd_revision c + 1 ≤ MAX_DISPOSABLE_ATTEMPT_CATALOG_REVISION).

Lemma step_revision : at_revision s = at_revision (dr_attempt cur) + 1.
Proof. by destruct (sf_revision _ _ Hstep). Qed.

Lemma valid_reserved a : validate a = Ok () → at_phase a = PhaseReserved → at_revision a = 1.
Proof.
  unfold validate. intros H Hp. do 6 (apply ok_guard in H as [_ H]). apply ok_guard in H as [Hshape _].
  bprop. rewrite Hp in Hshape. simpl in Hshape. by bprop.
Qed.

Lemma written_counts : catalog_counts (written c i cur s).
Proof.
  pose proof (wf_ok _ Hwf) as [Hc _ _]. pose proof (represented_le _ Hc) as Hrep.
  assert (represented (written c i cur s) = represented c + 1) as Heq.
  { unfold represented, written. simpl.
    rewrite (sum_of_insert _ _ i cur) by (done || apply step_revision). lia. }
  destruct Hc as [Hs Ha Ht Hb Hr Hres Hcomp]. split; simpl; rewrite ?Heq; auto.
  - by rewrite length_insert.
  - apply catalog_revision_u64. lia.
  - case_decide; lia.
  - intros r [j Hj]%list_elem_of_lookup.
    apply list_lookup_insert_Some in Hj as [(_ & <- & _)|[_ Hj]]; simpl.
    + apply valid_reserved, Hstep.
    + apply Hres. by eapply list_elem_of_lookup_2.
Qed.

Lemma written_usage : catalog_usage_ok (written c i cur s).
Proof.
  unfold catalog_usage_ok. rewrite open_reservations_eq. simpl.
  destruct (open_insert (cd_active c) i cur (set_attempt cur s)) as (o & Hsub & Hres); [done..| |].
  { unfold holds_capacity. simpl. intros Hopen Hdone. apply Hopen.
    pose proof (sf_phase _ _ Hstep) as Hrank. rewrite Hdone in Hrank.
    by destruct (at_phase s); simpl in Hrank; try lia. }
  rewrite <-(usage_of_resources _ _ Hres). eapply envelope_mono; [exact Hsub| |apply Hwf].
  intros r Hr. apply (elem_of_submseteq _ _ _ Hr) in Hsub.
  apply list_elem_of_filter in Hsub as [_ Hsub]. by apply Hwf.
Qed.

Lemma written_validates :
  validate_catalog (written c i cur s) =
  if evidence_clash (catalog_attempts c) (dr_attempt cur) s then Err duplicate_identity else Ok ().
Proof.
  pose proof (distinct_insert (catalog_attempts c) i (dr_attempt cur) s (active_attempt _ _ _ Hi)
    (co_distinct _ (wf_ok _ Hwf)) Hstep) as Hd.
  rewrite <-(written_attempts _ _ cur) in Hd by done.
  destruct (evidence_clash _ _ _).
  - rewrite validate_counts by apply written_counts. rewrite seen_fold_Err; [done|]. by intros ?%Hd.
  - apply validate_catalog_iff. split; [apply written_counts|by apply Hd|apply written_usage].
Qed.

Lemma written_wf :
  evidence_clash (catalog_attempts c) (dr_attempt cur) s = false → catalog_wf (written c i cur s).
Proof.
  intros Hclash. split.
  - apply validate_catalog_iff. by rewrite written_validates, Hclash.
  - done.
  - rewrite written_attempts by done. intros a [j Hj]%list_elem_of_lookup.
    apply list_lookup_insert_Some in Hj as [(_ & <- & _)|[_ Hj]]; [apply Hstep|].
    apply Hwf. by eapply list_elem_of_lookup_2.
  - simpl. intros r [j Hj]%list_elem_of_lookup.
    apply list_lookup_insert_Some in Hj as [(_ & <- & _)|[_ Hj]]; simpl; apply Hwf;
      by eapply list_elem_of_lookup_2.
Qed.
End advance.

(** Writing the later state of an attempt, on every branch. *)
Lemma write_attempt_eq c i cur s :
  catalog_wf c → cd_active c !! i = Some cur → step_facts (dr_attempt cur) s → s ≠ dr_attempt cur →
  write_attempt c i cur s =
    if negb (cd_revision c + 1 <=? MAX_DISPOSABLE_ATTEMPT_CATALOG_REVISION) then Err cannot_advance
    else if evidence_clash (catalog_attempts c) (dr_attempt cur) s then Err duplicate_identity
    else Ok (written c i cur s).
Proof.
  intros Hwf Hi Hstep Hnew. unfold write_attempt. rewrite CatalogRevision_next_eq.
  destruct (N.leb_spec (cd_revision c + 1) MAX_DISPOSABLE_ATTEMPT_CATALOG_REVISION); simpl; [|done].
  fold (written c i cur s). rewrite written_validates by done.
  by destruct (evidence_clash _ _ _).
Qed.

(** The one entry of [id], advanced to [s]. *)
Definition with_attempt (id : DisposableAttemptId) (s : DisposableAttemptState)
    (r : DisposableAttemptReservation) : DisposableAttemptReservation :=
  if bool_decide (at_attempt_id (dr_attempt r) = id) then set_attempt r s else r.

Lemma insert_by_id c (i : nat) cur s :
  catalog_distinct c → cd_active c !! i = Some cur →
  <[i := set_attempt cur s]> (cd_active c) =
    with_attempt (at_attempt_id (dr_attempt cur)) s <$> cd_active c.
Proof.
  intros Hnd%attempt_ids_nodup Hi. apply list_eq. intros j. rewrite list_lookup_fmap.
  destruct (decide (i = j)) as [<-|Hne].
  - rewrite list_lookup_insert_eq, Hi by (by eapply lookup_lt_Some). simpl.
    unfold with_attempt. by rewrite bool_decide_eq_true_2.
  - rewrite list_lookup_insert_ne by done. destruct (cd_active c !! j) as [r|] eqn:Hj; [|done].
    simpl. unfold with_attempt. rewrite bool_decide_eq_false_2; [done|]. intros Heq. apply Hne.
    eapply NoDup_lookup; [exact Hnd|..]; rewrite list_lookup_fmap; [by rewrite Hi|].
    rewrite Hj. simpl. by rewrite Heq.
Qed.

(** What recording the successor [s] of the attempt of [cur] comes to. *)
Definition record_successor (c : DisposableAttemptCatalogDocument) (cur : DisposableAttemptReservation)
    (s : DisposableAttemptState) : result DisposableAttemptCatalogError DisposableAttemptCatalogDocument :=
  if negb (cd_revision c + 1 <=? MAX_DISPOSABLE_ATTEMPT_CATALOG_REVISION) then Err cannot_advance
  else if evidence_clash (catalog_attempts c) (dr_attempt cur) s then Err duplicate_identity
  else Ok (set_catalog c (cd_revision c + 1)
             (with_attempt (at_attempt_id (dr_attempt cur)) s <$> cd_active c) (cd_tombstones c)).

Lemma write_attempt_record c i cur s :
  catalog_wf c → cd_active c !! i = Some cur → step_facts (dr_attempt cur) s → s ≠ dr_attempt cur →
  write_attempt c i cur s = record_successor c cur s.
Proof.
  intros Hwf Hi Hstep Hnew. rewrite write_attempt_eq by done. unfold record_successor, written.
  by rewrite (insert_by_id c i cur s (co_distinct _ (wf_ok _ Hwf)) Hi).
Qed.

(** An operation on the active attempt of [id] at revision [rev]. *)
Definition on_active (c : DisposableAttemptCatalogDocument) (id : DisposableAttemptId) (rev : N)
    (k : DisposableAttemptReservation → result DisposableAttemptCatalogError DisposableAttemptCatalogDocument)
    : result DisposableAttemptCatalogError DisposableAttemptCatalogDocument :=
  match find_active c id with
  | None => Err attempt_missing
  | Some cur => if negb (at_revision (dr_attempt cur) =? rev) then Err stale_attempt_revision else k cur
  end.

Lemma on_active_bind c id rev k k' :
  (∀ i cur, cd_active c !! i = Some cur → at_attempt_id (dr_attempt cur) = id → k (i, cur) = k' cur) →
  (found ← active_at c id rev; k found) = on_active c id rev k'.
Proof.
  intros Hk. unfold on_active. destruct (find_active c id) as [cur|] eqn:Hf.
  - apply find_active_Some in Hf as (i & Hi & Hid & ->). case_match; [done|]. simpl. auto.
  - by rewrite (find_active_None _ _ rev Hf).
Qed.

Lemma active_valid c i cur : catalog_wf c → cd_active c !! i = Some cur → validate (dr_attempt cur) = Ok ().
Proof. intros Hwf Hi. apply Hwf. eapply list_elem_of_lookup_2. by apply active_attempt. Qed.

(** A transition of an attempt on every branch. *)
Lemma replace_attempt_eq c id rev action :
  catalog_wf c →
  replace_attempt c id rev action = on_active c id rev (λ cur,
    match transition (dr_attempt cur) action with
    | Ok s => if bool_decide (s = dr_attempt cur) then Ok c else record_successor c cur s
    | Err e => Err (action_error e)
    | Panic => Panic
    end).
Proof.
  intros Hwf. unfold replace_attempt. apply on_active_bind. intros i cur Hi _.
  unfold apply_action. destruct (transition (dr_attempt cur) action) as [s|e|] eqn:Ht; simpl; [|done..].
  case_bool_decide; [done|]. apply write_attempt_record; try done.
  by apply (transition_facts _ action); [eapply active_valid|].
Qed.

Lemma bind_changes a identity s : bind_vm_identity_after_clone a identity = Ok s → s ≠ a.
Proof.
  unfold bind_vm_identity_after_clone. intros Hb. apply ok_guard in Hb as [_ Hb].
  apply bind_Ok in Hb as (r & [-> _]%AttemptRevision_next_Ok & Hb).
  apply bind_Ok in Hb as ([] & _ & [= <-]). intros Heq%(f_equal at_revision). simpl in Heq. lia.
Qed.

(** The bind of a machine's identity on every branch. *)
Lemma bind_vm_identity_eq c id rev identity :
  catalog_wf c →
  catalog_bind_vm_identity c id rev identity = on_active c id rev (λ cur,
    match bind_vm_identity_after_clone (dr_attempt cur) identity with
    | Ok s => record_successor c cur s
    | Err _ => Err (catalog_error CatInvalidAction "clone completion cannot bind VM identity")
    | Panic => Panic
    end).
Proof.
  intros Hwf. unfold catalog_bind_vm_identity. apply on_active_bind. intros i cur Hi _.
  destruct (bind_vm_identity_after_clone (dr_attempt cur) identity) as [s|e|] eqn:Hb; simpl; [|done..].
  pose proof (bind_facts _ _ _ Hb). apply write_attempt_record; try done. by eapply bind_changes.
Qed.

(** ** Retiring a complete attempt *)

Definition retired (c : DisposableAttemptCatalogDocument) (cur : DisposableAttemptReservation)
    : list DisposableAttemptState :=
  let tombstones := cd_tombstones c ++ [dr_attempt cur] in
  if (MAX_DISPOSABLE_ATTEMPT_TOMBSTONES <? length tombstones)%nat then tail tombstones else tombstones.

Section retire.
Context (c : DisposableAttemptCatalogDocument) (Hwf : catalog_wf c).
Context (i : nat) (cur : DisposableAttemptReservation) (Hi : cd_active c !! i = Some cur).
Context (Hdone : at_phase (dr_attempt cur) = PhaseComplete).
Context (Hmax : cd_revision c + 1 ≤ MAX_DISPOSABLE_ATTEMPT_CATALOG_REVISION).

Definition after_retire : DisposableAttemptCatalogDocument :=
  set_catalog c (cd_revision c + 1) (delete i (cd_active c)) (retired c cur).

Lemma retired_sublist : retired c cur ⊆+ cd_tombstones c ++ [dr_attempt cur].
Proof.
  unfold retired. destruct (cd_tombstones c ++ _) as [|x l]; case_match; try done.
  by apply submseteq_cons.
Qed.

Lemma retired_attempts : catalog_attempts after_retire ⊆+ catalog_attempts c.
Proof.
  unfold catalog_attempts. simpl. etrans; [apply submseteq_app; [done|apply retired_sublist]|].
  apply list_elem_of_split_length in Hi as (a & b & Heq & ->). rewrite Heq, delete_middle.
  apply Permutation_submseteq. rewrite !fmap_app. csimpl. rewrite <-!app_assoc. f_equiv.
  by rewrite (assoc (++)), Permutation_app_comm.
Qed.

Lemma retired_cases :
  (length (cd_tombstones c) < MAX_DISPOSABLE_ATTEMPT_TOMBSTONES)%nat ∧
    retired c cur = cd_tombstones c ++ [dr_attempt cur] ∨
  (length (cd_tombstones c) = MAX_DISPOSABLE_ATTEMPT_TOMBSTONES)%nat ∧
    ∃ x, x :: retired c cur = cd_tombstones c ++ [dr_attempt cur].
Proof.
  pose proof (co_tombstones _ (co_counts _ (wf_ok _ Hwf))) as Hlen. unfold retired.
  rewrite length_app. simpl.
  destruct (Nat.ltb_spec MAX_DISPOSABLE_ATTEMPT_TOMBSTONES (length (cd_tombstones c) + 1)).
  - right. split; [lia|]. destruct (cd_tombstones c) as [|x l]; simpl; [by exists (dr_attempt cur)|eauto].
  - left. split; [lia|done].
Qed.

Lemma retired_counts : catalog_counts after_retire.
Proof.
  pose proof (wf_ok _ Hwf) as [Hc _ _]. pose proof (represented_le _ Hc) as Hrep.
  pose proof (sum_of_delete (λ r, at_revision (dr_attempt r)) _ _ _ Hi) as Hsum. simpl in Hsum.
  assert (sum_of (λ a, N.succ (at_revision a)) (cd_tombstones c ++ [dr_attempt cur]) =
    sum_of (λ a, N.succ (at_revision a)) (cd_tombstones c) + N.succ (at_revision (dr_attempt cur))) as Happ.
  { rewrite sum_of_app, sum_of_cons. change (sum_of _ []) with 0. lia. }
  assert ((length (retired c cur) = length (cd_tombstones c) + 1)%nat ∧
      represented after_retire = represented c + 1 ∧
      (length (cd_tombstones c) < MAX_DISPOSABLE_ATTEMPT_TOMBSTONES)%nat ∨
    (length (retired c cur) = MAX_DISPOSABLE_ATTEMPT_TOMBSTONES)%nat ∧
      represented after_retire ≤ represented c + 1) as Hcount.
  { unfold represented. simpl. destruct retired_cases as [[Hlt ->]|[Heq [x Hx]]].
    - left. rewrite length_app. split_and!; [done|lia|done].
    - right. pose proof (f_equal length Hx) as Hl. rewrite length_app in Hl. simpl in Hl.
      split; [lia|]. rewrite <-Hx, sum_of_cons in Happ. lia. }
  destruct Hc as [Hs Ha Ht Hb Hr Hres Hcomp]. split; simpl; auto.
  - rewrite length_delete by (by eexists). lia.
  - destruct Hcount as [(-> & _ & ?)|[-> _]]; lia.
  - apply catalog_revision_u64. destruct Hcount as [(_ & -> & _)|[_ ?]]; lia.
  - destruct Hcount as [(-> & -> & Hlt)|[-> ?]]; [|rewrite decide_False by lia; lia].
    rewrite decide_True in Hr by done. case_decide; lia.
  - intros r Hr'. apply Hres. by eapply elem_of_submseteq; [|apply sublist_submseteq, sublist_delete].
  - intros a Ha'. pose proof (elem_of_submseteq _ _ _ Ha' retired_sublist) as Hin.
    apply elem_of_app in Hin as [?| ->%list_elem_of_singleton]; auto.
Qed.

Lemma retired_open : open_reservations after_retire = open_reservations c.
Proof.
  rewrite !open_reservations_eq. simpl.
  apply list_elem_of_split_length in Hi as (a & b & -> & ->). rewrite delete_middle, !filter_app.
  by rewrite (filter_cons_False holds_capacity) by (unfold holds_capacity; auto).
Qed.

Lemma retired_wf : catalog_wf after_retire.
Proof.
  split.
  - split; [apply retired_counts| |].
    + apply (distinct_submseteq (catalog_attempts c)); [apply retired_attempts|apply Hwf].
    + unfold catalog_usage_ok. rewrite retired_open. apply Hwf.
  - done.
  - intros a Ha. apply Hwf. by eapply elem_of_submseteq; [|apply retired_attempts].
  - simpl. intros r Hr. apply Hwf. by eapply elem_of_submseteq; [|apply sublist_submseteq, sublist_delete].
Qed.
End retire.

Lemma delete_by_id c (i : nat) cur :
  catalog_distinct c → cd_active c !! i = Some cur →
  delete i (cd_active c) =
    List.filter (λ r, bool_decide (at_attempt_id (dr_attempt r) ≠ at_attempt_id (dr_attempt cur)))
      (cd_active c).
Proof.
  intros Hnd%attempt_ids_nodup Hi.
  by destruct (filter_key_delete (λ r, at_attempt_id (dr_attempt r)) _ i cur Hnd Hi) as [-> _].
Qed.

(** The retirement of an attempt on every branch. *)
Lemma retire_complete_eq c id rev :
  catalog_wf c →
  catalog_retire_complete c id rev = on_active c id rev (λ cur,
    if bool_decide (at_phase (dr_attempt cur) ≠ PhaseComplete)
    then Err (catalog_error CatInvalidAction "only a complete disposable attempt may enter replay history")
    else if negb (cd_revision c + 1 <=? MAX_DISPOSABLE_ATTEMPT_CATALOG_REVISION) then Err cannot_advance
    else Ok (set_catalog c (cd_revision c + 1)
               (List.filter (λ r, bool_decide (at_attempt_id (dr_attempt r) ≠ id)) (cd_active c))
               (retired c cur))).
Proof.
  intros Hwf. unfold catalog_retire_complete. apply on_active_bind. intros i cur Hi <-.
  case_bool_decide as Hp; [done|]. rewrite CatalogRevision_next_eq.
  destruct (N.leb_spec (cd_revision c + 1) MAX_DISPOSABLE_ATTEMPT_CATALOG_REVISION); simpl; [|done].
  fold (retired c cur). fold (after_retire c i cur).
  assert (catalog_wf (after_retire c i cur)) as Hw by (apply retired_wf; try done; by apply dec_stable).
  rewrite (proj2 (validate_catalog_iff _) (wf_ok _ Hw)). simpl. unfold after_retire.
  by rewrite (delete_by_id c i cur (co_distinct _ (wf_ok _ Hwf)) Hi).
Qed.

(** ** Reserving *)

(** A reservation as [Reservation_new] builds it, of a valid attempt. *)
Record reservation_ok (r : DisposableAttemptReservation) : Prop := {
  ro_phase : at_phase (dr_attempt r) = PhaseReserved;
  ro_revision : at_revision (dr_attempt r) = 1;
  ro_valid : validate (dr_attempt r) = Ok ();
  ro_resources : resources_ok (dr_resources r);
}.

(** A new attempt has an identity of an attempt in [l], its name aside. *)
Definition identity_clash (l : list DisposableAttemptState) (a : DisposableAttemptState) : bool :=
  existsb (λ b, bool_decide (at_capacity_claim_id b = at_capacity_claim_id a)
                || bool_decide (at_vm_id b = at_vm_id a)
                || bool_decide (at_runner_name b = at_runner_name a)
                || bool_decide (at_runner_request_id b = at_runner_request_id a)) l.

(** The host envelope has room for one more reservation. *)
Definition envelope_fits (o : list DisposableAttemptReservation) (r : DisposableAttemptReservation) : bool :=
  (resources_of wr_cpu_millis o + wr_cpu_millis (dr_resources r) <=? MAX_CPU_MILLIS)
  && (resources_of wr_memory_bytes o + wr_memory_bytes (dr_resources r) <=? MAX_BYTES)
  && (resources_of wr_disk_bytes o + wr_disk_bytes (dr_resources r) <=? MAX_BYTES).

Definition after_reserve (c : DisposableAttemptCatalogDocument) (r : DisposableAttemptReservation) :=
  set_catalog c (cd_revision c + 1) (cd_active c ++ [r]) (cd_tombstones c).

Lemma reserve_attempts c r :
  catalog_attempts (after_reserve c r) ≡ₚ dr_attempt r :: catalog_attempts c.
Proof.
  unfold catalog_attempts. simpl. rewrite fmap_app. csimpl. rewrite <-(assoc (++)). simpl.
  by rewrite <-Permutation_middle.
Qed.

Lemma not_in_existsb {A B} `{EqDecision B} (f : A → B) l b :
  b ∉ f <$> l ↔ existsb (λ x, bool_decide (f x = b)) l = false.
Proof.
  rewrite existsb_false. setoid_rewrite bool_decide_eq_false. rewrite list_elem_of_fmap. naive_solver.
Qed.

Lemma existsb_orb {A} (f g : A → bool) l : existsb (λ x, f x || g x) l = existsb f l || existsb g l.
Proof.
  induction l as [|x l IH]; simpl; [done|]. rewrite IH.
  by destruct (f x), (g x), (existsb f l), (existsb g l).
Qed.

Lemma distinct_cons l a :
  at_vm_identity a = None → at_runner_id a = None → at_github_job_id a = None →
  distinct_attempts nothing_seen l →
  distinct_attempts nothing_seen (a :: l) ↔ at_attempt_id a ∉ at_attempt_id <$> l ∧ identity_clash l a = false.
Proof.
  intros Hv Hr Hj. rewrite !distinct_nothing. intros (?&?&?&?&?&?&?&?). csimpl. rewrite Hv, Hr, Hj.
  unfold identity_clash. rewrite !existsb_orb, !orb_false_iff, <-!not_in_existsb, !NoDup_cons. tauto.
Qed.

Lemma not_found c id :
  find_active c id = None → find_tombstone c id = None → id ∉ at_attempt_id <$> catalog_attempts c.
Proof.
  intros Ha Ht. unfold find_active in Ha. unfold find_tombstone in Ht.
  apply (find_None_key (λ r, at_attempt_id (dr_attempt r))) in Ha. apply (find_None_key at_attempt_id) in Ht.
  unfold catalog_attempts. rewrite fmap_app, <-list_fmap_compose, elem_of_app. tauto.
Qed.

Section reserve.
Context (c : DisposableAttemptCatalogDocument) (Hwf : catalog_wf c).
Context (r : DisposableAttemptReservation) (Hr : reservation_ok r).
Context (Hfind : find_active c (at_attempt_id (dr_attempt r)) = None).
Context (Htomb : find_tombstone c (at_attempt_id (dr_attempt r)) = None).
Context (Hlen : (length (cd_active c) < MAX_ACTIVE_DISPOSABLE_ATTEMPTS)%nat).
Context (Hmax : cd_revision c + 1 ≤ MAX_DISPOSABLE_ATTEMPT_CATALOG_REVISION).

Lemma reserve_counts : catalog_counts (after_reserve c r).
Proof.
  pose proof (wf_ok _ Hwf) as [Hc _ _]. pose proof (represented_le _ Hc) as Hrep.
  assert (represented (after_reserve c r) = represented c + 1) as Heq.
  { unfold represented. simpl. rewrite sum_of_app, sum_of_cons, (ro_revision _ Hr).
    change (sum_of _ []) with 0. lia. }
  destruct Hc as [Hs Ha Ht Hb Hrv Hres Hcomp]. split; simpl; rewrite ?Heq; auto.
  - rewrite length_app. simpl. lia.
  - apply catalog_revision_u64. lia.
  - case_decide; lia.
  - intros x [?| ->%list_elem_of_singleton]%elem_of_app; [auto|]. intros _. apply Hr.
Qed.

Lemma reserve_distinct :
  catalog_distinct (after_reserve c r) ↔ identity_clash (catalog_attempts c) (dr_attempt r) = false.
Proof.
  assert (∀ l l', l ≡ₚ l' → distinct_attempts nothing_seen l → distinct_attempts nothing_seen l') as Hperm.
  { intros l l' Hll. apply distinct_submseteq. by rewrite Hll. }
  pose proof (valid_evidence _ (ro_valid _ Hr)) as He. rewrite (ro_phase _ Hr) in He.
  destruct He as (Hv & Hrun & Hj & _).
  assert (catalog_distinct (after_reserve c r) ↔
    distinct_attempts nothing_seen (dr_attempt r :: catalog_attempts c)) as ->
    by (split; apply Hperm; [|symmetry]; apply reserve_attempts).
  rewrite distinct_cons by (done || apply Hwf). pose proof (not_found _ _ Hfind Htomb). tauto.
Qed.

Lemma reserve_usage :
  catalog_usage_ok (after_reserve c r) ↔ envelope_fits (open_reservations c) r = true.
Proof.
  pose proof (ro_resources _ Hr) as (_ & Hcpu & Hmem & Hdisk)%WorkerResources_new_Ok.
  assert (length (open_reservations c) ≤ length (cd_active c))%nat as Ho by apply length_filter.
  unfold catalog_usage_ok. rewrite open_reservations_eq. simpl. rewrite filter_app.
  rewrite (filter_cons_True holds_capacity), filter_nil
    by (unfold holds_capacity; rewrite (ro_phase _ Hr); done).
  fold (open_reservations c). change (filter holds_capacity (cd_active c)) with (open_reservations c).
  unfold within_envelope, envelope_fits, usage_of, resources_of. rewrite length_app. simpl.
  rewrite !sum_of_app, !sum_of_cons. change (sum_of _ []) with 0.
  rewrite !andb_true_iff, !N.leb_le. unfold MAX_ACTIVE_DISPOSABLE_ATTEMPTS, MAX_WORKERS in *. split.
  - intros [_ [?|?]]; lia.
  - intros [[? ?] ?]. split; [lia|right; lia].
Qed.

Lemma reserve_validates :
  validate_catalog (after_reserve c r) =
  if identity_clash (catalog_attempts c) (dr_attempt r) then Err duplicate_identity
  else if negb (envelope_fits (open_reservations c) r) then Err resource_overflow
  else Ok ().
Proof.
  pose proof reserve_counts as Hc. pose proof reserve_distinct as Hd. pose proof reserve_usage as Hu.
  rewrite validate_counts by done. destruct (identity_clash _ _).
  - rewrite seen_fold_Err; [done|]. by intros ?%Hd.
  - destruct (proj2 (seen_fold_Ok _ _) (proj2 Hd eq_refl)) as [seen ->]. simpl.
    destruct (envelope_fits _ _); simpl.
    + by rewrite (proj2 (host_usage_Ok _ _ (co_active _ Hc)) (conj eq_refl (proj2 Hu eq_refl))).
    + rewrite host_usage_Err; [done|apply Hc|]. by intros ?%Hu.
Qed.

Lemma reserve_wf :
  identity_clash (catalog_attempts c) (dr_attempt r) = false →
  envelope_fits (open_reservations c) r = true → catalog_wf (after_reserve c r).
Proof.
  intros Hid Hfit. split.
  - apply validate_catalog_iff. by rewrite reserve_validates, Hid, Hfit.
  - done.
  - intros a Ha. rewrite reserve_attempts in Ha. apply elem_of_cons in Ha as [->|Ha]; [apply Hr|by apply Hwf].
  - simpl. intros x [?| ->%list_elem_of_singleton]%elem_of_app; [by apply Hwf|apply Hr].
Qed.
End reserve.

(** A reservation on every branch. *)
Lemma reserve_eq c r :
  catalog_wf c → reservation_ok r →
  catalog_reserve c r =
    match find_active c (at_attempt_id (dr_attempt r)) with
    | Some existing =>
        if bool_decide (existing = r) then Ok c
        else Err (catalog_error CatAlreadyExists
               "disposable attempt already exists with different durable evidence")
    | None =>
        if is_some (find_tombstone c (at_attempt_id (dr_attempt r)))
        then Err (catalog_error CatAlreadyExists
               "completed disposable attempt identity remains in replay history")
        else if (MAX_ACTIVE_DISPOSABLE_ATTEMPTS <=? length (cd_active c))%nat
        then Err (catalog_error CatLimitExceeded "active disposable attempt limit is reached")
        else if negb (cd_revision c + 1 <=? MAX_DISPOSABLE_ATTEMPT_CATALOG_REVISION) then Err cannot_advance
        else if identity_clash (catalog_attempts c) (dr_attempt r) then Err duplicate_identity
        else if negb (envelope_fits (open_reservations c) r) then Err resource_overflow
        else Ok (after_reserve c r)
    end.
Proof.
  intros Hwf Hr. unfold catalog_reserve. destruct (find_active c _) eqn:Hf; [done|].
  destruct (find_tombstone c _) eqn:Ht; [done|]; cbn [is_some].
  destruct (Nat.leb_spec MAX_ACTIVE_DISPOSABLE_ATTEMPTS (length (cd_active c))); [done|].
  rewrite CatalogRevision_next_eq.
  destruct (N.leb_spec (cd_revision c + 1) MAX_DISPOSABLE_ATTEMPT_CATALOG_REVISION); simpl; [|done].
  fold (after_reserve c r). rewrite reserve_validates by done.
  destruct (identity_clash _ _); [done|]. by destruct (envelope_fits _ _).
Qed.
