(* ===== verification/CatalogTheorems.v ===== *)
(** * Theorems about the catalog of attempts

    Chains of operations from the empty catalog, the successor tests of the
    store, and capacity planned from the catalog's own usage. *)

From S2P Require Import Prelude SortBy Artifact ExecutionAdmission ScaleSetProtocol AttemptState.
From S2P Require Import AttemptLifecycle WorkerReconciler ReconcilerTheorems AttemptCatalog.
From S2P Require Import CatalogDocument CatalogSteps.

Local Open Scope N_scope.

(** ** Chains of operations *)

(** One operation of the program: the reservation of a new attempt, a
    transition, the bind of a machine's identity, a retirement. *)
Inductive catalog_step (c c' : DisposableAttemptCatalogDocument) : Prop :=
| step_reserve attempt_id claim vm name request not_after cpu memory disk resources template r :
    WorkerResources_new cpu memory disk = Ok resources →
    Reservation_new (reserved attempt_id claim vm name request not_after) resources template = Ok r →
    catalog_reserve c r = Ok c' → catalog_step c c'
| step_transition id rev action : replace_attempt c id rev action = Ok c' → catalog_step c c'
| step_bind id rev identity : catalog_bind_vm_identity c id rev identity = Ok c' → catalog_step c c'
| step_retire id rev : catalog_retire_complete c id rev = Ok c' → catalog_step c c'.

(** Where an attempt came from. *)
Definition from_reservation (a : DisposableAttemptState) : Prop :=
  ∃ attempt_id claim vm name request not_after,
    rtc attempt_step (reserved attempt_id claim vm name request not_after) a.

Lemma empty_catalog_wf : catalog_wf empty_catalog.
Proof.
  split; [by apply validate_catalog_iff|vm_compute; discriminate|..];
    intros x Hx; by apply elem_of_nil in Hx.
Qed.

(** The operations read backwards. *)
Lemma on_active_Ok c id rev k c' :
  on_active c id rev k = Ok c' →
  ∃ i cur, cd_active c !! i = Some cur ∧ at_attempt_id (dr_attempt cur) = id ∧
    at_revision (dr_attempt cur) = rev ∧ k cur = Ok c'.
Proof.
  unfold on_active. destruct (find_active c id) as [cur|] eqn:Hf; [|done].
  intros H. apply ok_guard in H as [?%negb_eqb_false H].
  apply find_active_Some in Hf as (i & ? & ? & _). eauto 6.
Qed.

Lemma record_successor_Ok c i cur s c' :
  catalog_wf c → cd_active c !! i = Some cur → record_successor c cur s = Ok c' →
  c' = written c i cur s ∧ cd_revision c + 1 ≤ MAX_DISPOSABLE_ATTEMPT_CATALOG_REVISION ∧
  evidence_clash (catalog_attempts c) (dr_attempt cur) s = false.
Proof.
  intros Hwf Hi. unfold record_successor. intros H. do 2 (apply ok_guard in H as [? H]).
  injection H as <-. bprop. unfold written.
  by rewrite (insert_by_id c i cur s (co_distinct _ (wf_ok _ Hwf)) Hi).
Qed.

(** What one operation does to a catalog with the invariant: nothing, a new
    reservation, one attempt advanced by one step, or a complete one retired. *)
Inductive catalog_effect (c c' : DisposableAttemptCatalogDocument) : Prop :=
| effect_none : c' = c → catalog_effect c c'
| effect_reserved r :
    reservation_ok r → from_reservation (dr_attempt r) → c' = after_reserve c r → catalog_effect c c'
| effect_written i cur s :
    cd_active c !! i = Some cur → attempt_step (dr_attempt cur) s →
    at_revision s = at_revision (dr_attempt cur) + 1 → c' = written c i cur s → catalog_effect c c'
| effect_retired i cur :
    cd_active c !! i = Some cur → at_phase (dr_attempt cur) = PhaseComplete →
    c' = after_retire c i cur → catalog_effect c c'.

Lemma write_effect c i cur s c' :
  catalog_wf c → cd_active c !! i = Some cur → attempt_step (dr_attempt cur) s →
  s ≠ dr_attempt cur → record_successor c cur s = Ok c' → catalog_wf c' ∧ catalog_effect c c'.
Proof.
  intros Hwf Hi Hstep Hnew (-> & Hmax & Hclash)%(record_successor_Ok _ i); [|done..].
  assert (step_facts (dr_attempt cur) s) as Hfacts
    by (apply attempt_step_facts; [by eapply active_valid|done]).
  split; [by apply written_wf|]. eapply effect_written; eauto. by eapply step_revision.
Qed.

Lemma reserve_result c r c' :
  catalog_wf c → reservation_ok r → catalog_reserve c r = Ok c' →
  c' = c ∨ catalog_wf c' ∧ c' = after_reserve c r.
Proof.
  intros Hwf Hr H. rewrite reserve_eq in H by done. destruct (find_active c _) eqn:Hf.
  { case_match; [|done]. injection H as <-. by left. }
  destruct (find_tombstone c _) eqn:Ht; [done|]. cbn [is_some] in H.
  do 4 (apply ok_guard in H as [? H]). injection H as <-. bprop. right.
  split; [|done]. apply reserve_wf; try done. by apply Nat.leb_gt.
Qed.

Lemma replace_result c id rev action c' :
  catalog_wf c → replace_attempt c id rev action = Ok c' →
  c' = c ∨ ∃ i cur s, cd_active c !! i = Some cur ∧ transition (dr_attempt cur) action = Ok s ∧
    s ≠ dr_attempt cur ∧ record_successor c cur s = Ok c'.
Proof.
  intros Hwf H. rewrite replace_attempt_eq in H by done. apply on_active_Ok in H as (i & cur & Hi & _ & _ & H).
  destruct (transition (dr_attempt cur) action) as [s|e|] eqn:Ht; [|done..].
  case_bool_decide as Hs; [injection H as <-; by left|]. right. eauto 8.
Qed.

Lemma bind_result c id rev identity c' :
  catalog_wf c → catalog_bind_vm_identity c id rev identity = Ok c' →
  ∃ i cur s, cd_active c !! i = Some cur ∧ bind_vm_identity_after_clone (dr_attempt cur) identity = Ok s ∧
    record_successor c cur s = Ok c'.
Proof.
  intros Hwf H. rewrite bind_vm_identity_eq in H by done. apply on_active_Ok in H as (i & cur & Hi & _ & _ & H).
  destruct (bind_vm_identity_after_clone (dr_attempt cur) identity) as [s|e|] eqn:Hb; [|done..]. eauto 6.
Qed.

Lemma retire_result c id rev c' :
  catalog_wf c → catalog_retire_complete c id rev = Ok c' →
  ∃ i cur, cd_active c !! i = Some cur ∧ at_phase (dr_attempt cur) = PhaseComplete ∧ catalog_wf c' ∧
    c' = after_retire c i cur.
Proof.
  intros Hwf H. rewrite retire_complete_eq in H by done. apply on_active_Ok in H as (i & cur & Hi & Hid & _ & H).
  do 2 (apply ok_guard in H as [? H]). injection H as <-. bprop.
  rewrite <-Hid, <-(delete_by_id c i cur (co_distinct _ (wf_ok _ Hwf)) Hi).
  exists i, cur. split_and!; [done..|by apply (retired_wf c Hwf i)|done].
Qed.

Lemma step_effect c c' : catalog_wf c → catalog_step c c' → catalog_wf c' ∧ catalog_effect c c'.
Proof.
  intros Hwf [aid claim vm name req t cpu mem disk w tmpl r Hw Hr H|id rev action H|id rev identity H|id rev H].
  - assert (reservation_ok r ∧ from_reservation (dr_attempt r)) as [Hok Hfrom].
    { unfold Reservation_new in Hr. apply ok_guard in Hr as [_ [= <-]]. split.
      - split; simpl; [done|done|apply reserved_valid|].
        apply WorkerResources_new_Ok in Hw as [-> Hw]. by apply WorkerResources_new_Ok.
      - do 6 eexists. apply rtc_refl. }
    apply reserve_result in H as [->|[Hwf' Heq]]; [|split; [done|]..|done|done].
    + split; [done|by apply effect_none].
    + by eapply effect_reserved.
  - apply replace_result in H as [->|(i & cur & s & Hi & Ht & Hs & H)]; [| |done].
    + split; [done|by apply effect_none].
    + eapply write_effect; eauto. by eapply attempt_acts.
  - apply bind_result in H as (i & cur & s & Hi & Hb & H); [|done].
    eapply write_effect; eauto; [by eapply attempt_binds|by eapply bind_changes].
  - apply retire_result in H as (i & cur & Hi & Hdone & Hwf' & Heq); [|done].
    split; [done|by eapply effect_retired].
Qed.

Lemma effect_attempts c c' a :
  catalog_effect c c' → a ∈ catalog_attempts c' →
  a ∈ catalog_attempts c ∨ from_reservation a ∨ ∃ b, b ∈ catalog_attempts c ∧ attempt_step b a.
Proof.
  intros [-> |r _ Hfrom ->|i cur s Hi Hstep _ ->|i cur Hi _ ->] Ha.
  - by left.
  - rewrite reserve_attempts in Ha. apply elem_of_cons in Ha as [->|?]; auto.
  - rewrite written_attempts in Ha by done. apply list_elem_of_lookup in Ha as [j Hj].
    apply list_lookup_insert_Some in Hj as [(_ & <- & _)|[_ Hj]].
    + right. right. exists (dr_attempt cur). split; [|done].
      eapply list_elem_of_lookup_2. by apply active_attempt.
    + left. by eapply list_elem_of_lookup_2.
  - left. by eapply elem_of_submseteq; [|eapply retired_attempts].
Qed.

(** What holds of every catalog the program can produce. *)
Lemma chain_wf c c' :
  catalog_wf c → rtc catalog_step c c' → catalog_wf c'.
Proof. intros Hwf H. induction H as [|c1 c2 c3 H _ IH]; [done|]. by apply IH, (step_effect c1). Qed.

Lemma chain_provenance c c' :
  catalog_wf c → (∀ a, a ∈ catalog_attempts c → from_reservation a) → rtc catalog_step c c' →
  ∀ a, a ∈ catalog_attempts c' → from_reservation a.
Proof.
  intros Hwf Hfrom H. induction H as [|c1 c2 c3 H _ IH]; [done|].
  destruct (step_effect _ _ Hwf H) as [Hwf2 Heff]. apply IH; [done|]. intros a Ha.
  destruct (effect_attempts _ _ _ Heff Ha) as [?|[?|(b & (k1&k2&k3&k4&k5&k6&Hb)%Hfrom & Hstep)]]; auto.
  exists k1, k2, k3, k4, k5, k6. by eapply rtc_r.
Qed.

(** (C19) Every catalog that operations build from the empty one validates,
    stays within its revision bound, and holds only attempts that are valid and
    were reached from a reservation by attempt steps: validation on load
    rejects nothing the program wrote. *)
Theorem catalog_chain_invariant (c : DisposableAttemptCatalogDocument)
    (H : rtc catalog_step empty_catalog c) :
  validate_catalog c = Ok () ∧ cd_revision c ≤ MAX_DISPOSABLE_ATTEMPT_CATALOG_REVISION ∧
  ∀ a, a ∈ catalog_attempts c → validate a = Ok () ∧ from_reservation a.
Proof.
  pose proof (chain_wf _ _ empty_catalog_wf H) as Hwf.
  split; [by apply validate_catalog_iff, wf_ok|]. split; [by apply wf_revision|].
  intros a Ha. split; [by apply Hwf|]. revert a Ha.
  apply (chain_provenance _ _ empty_catalog_wf); [|done]. intros a Ha. by apply elem_of_nil in Ha.
Qed.

(** ** Capacity is held until the end *)

(** The reservation [r] is still held, by a later state [a] of its attempt. *)
Definition still_held (c : DisposableAttemptCatalogDocument) (r : DisposableAttemptReservation)
    (a : DisposableAttemptState) : Prop := set_attempt r a ∈ cd_active c.

Lemma effect_held c c' r a :
  catalog_effect c c' → still_held c r a →
  ∃ a', rtc attempt_step a a' ∧ (still_held c' r a' ∨ at_phase a' = PhaseComplete).
Proof.
  unfold still_held.
  intros [-> |r' _ _ ->|i cur s Hi Hstep _ ->|i cur Hi Hdone ->] Hr; simpl.
  - exists a. split; [apply rtc_refl|by left].
  - exists a. split; [apply rtc_refl|left]. apply elem_of_app. by left.
  - apply list_elem_of_lookup in Hr as [j Hj]. destruct (decide (i = j)) as [<-|Hne].
    + simplify_eq. exists s. split; [by apply rtc_once|left].
      apply list_elem_of_lookup. exists i. by rewrite list_lookup_insert_eq by (by eapply lookup_lt_Some).
    + exists a. split; [apply rtc_refl|left]. apply list_elem_of_lookup. exists j.
      by rewrite list_lookup_insert_ne.
  - exists a. split; [apply rtc_refl|]. apply list_elem_of_split_length in Hi as (l1 & l2 & Hl & ->).
    rewrite Hl in Hr |- *. rewrite delete_middle.
    apply elem_of_app in Hr as [Hr|[Hr|Hr]%elem_of_cons].
    + left. apply elem_of_app. by left.
    + right. by rewrite <-Hr in Hdone.
    + left. apply elem_of_app. by right.
Qed.

(** A reservation is given up only by a complete attempt: whatever
    operations follow, the attempt of an active entry is found again in an
    active entry of the same size and template, in a state reached by attempt
    steps, unless such steps have brought it to its end. *)
Theorem capacity_held_until_complete (c c' : DisposableAttemptCatalogDocument)
    (r : DisposableAttemptReservation) (H : rtc catalog_step empty_catalog c)
    (H' : rtc catalog_step c c') (Hr : r ∈ cd_active c) :
  ∃ a, rtc attempt_step (dr_attempt r) a ∧ (still_held c' r a ∨ at_phase a = PhaseComplete).
Proof.
  pose proof (chain_wf _ _ empty_catalog_wf H) as Hwf. clear H.
  assert (still_held c r (dr_attempt r)) as Hheld by (unfold still_held; by destruct r).
  clear Hr. revert Hheld. generalize (dr_attempt r) as a.
  induction H' as [c|c1 c2 c3 H _ IH]; intros a Hheld; [eauto using rtc_refl|].
  destruct (step_effect _ _ Hwf H) as [Hwf2 Heff].
  destruct (effect_held _ _ _ _ Heff Hheld) as (a' & Ha' & [Hheld'|Hdone]); [|by eauto].
  destruct (IH Hwf2 a' Hheld') as (a'' & Ha'' & Hend). exists a''. split; [by etrans|done].
Qed.

(** ** Every operation, on every branch *)

(** A transition of a catalog has one outcome per cause: no such active
    attempt, another attempt revision, an action its phase refuses, a revision
    that cannot advance, an identity recorded for another attempt, and nothing
    else; otherwise that attempt alone advances and the result can be operated
    on again. *)
Theorem catalog_transition_exact (c : DisposableAttemptCatalogDocument) (id : string) (rev : N)
    (action : DisposableAttemptCatalogAction) (H : rtc catalog_step empty_catalog c) :
  replace_attempt c id rev action =
    match find_active c id with
    | None => Err attempt_missing
    | Some cur =>
        if negb (at_revision (dr_attempt cur) =? rev) then Err stale_attempt_revision
        else match transition (dr_attempt cur) action with
             | Err e => Err (action_error e)
             | Panic => Panic
             | Ok s =>
                 if bool_decide (s = dr_attempt cur) then Ok c
                 else if negb (cd_revision c + 1 <=? MAX_DISPOSABLE_ATTEMPT_CATALOG_REVISION)
                 then Err cannot_advance
                 else if evidence_clash (catalog_attempts c) (dr_attempt cur) s
                 then Err duplicate_identity
                 else Ok (set_catalog c (cd_revision c + 1)
                            (with_attempt id s <$> cd_active c) (cd_tombstones c))
             end
    end.
Proof.
  rewrite replace_attempt_eq by by apply (chain_wf _ _ empty_catalog_wf). unfold on_active, record_successor.
  destruct (find_active c id) as [cur|] eqn:Hf; [|done].
  by apply find_active_Some in Hf as (i & _ & -> & _).
Qed.

(** A reservation of a new attempt has one outcome per cause: the same
    reservation again (nothing changes), another one of that name, a completed
    attempt of that name, the active limit, a revision that cannot advance, an
    identity in use, resources beyond the host envelope; otherwise it is
    appended. *)
Theorem catalog_reserve_exact (c : DisposableAttemptCatalogDocument) (r : DisposableAttemptReservation)
    (H : rtc catalog_step empty_catalog c) (Hr : reservation_ok r) :
  catalog_reserve c r =
    match find_active c (at_attempt_id (dr_attempt r)) with
    | Some existing =>
        if bool_decide (existing = r) then Ok c
        else Err (catalog_error CatAlreadyExists
               "disposable attempt already exists with different durable evidence")
    | None =>
        if is_some (find_tombstone c (at_attempt_id (dr_attempt r)))
        then Err (catalog_error CatAlreadyExists
               "completed disposable attempt identity remains in replay history")
        else if (MAX_ACTIVE_DISPOSABLE_ATTEMPTS <=? length (cd_active c))%nat
        then Err (catalog_error CatLimitExceeded "active disposable attempt limit is reached")
        else if negb (cd_revision c + 1 <=? MAX_DISPOSABLE_ATTEMPT_CATALOG_REVISION)
        then Err cannot_advance
        else if identity_clash (catalog_attempts c) (dr_attempt r) then Err duplicate_identity
        else if negb (envelope_fits (open_reservations c) r) then Err resource_overflow
        else Ok (after_reserve c r)
    end.
Proof. apply reserve_eq; [by apply (chain_wf _ _ empty_catalog_wf)|done]. Qed.

(** A retirement is refused only for a missing, stale or incomplete
    attempt or a revision that cannot advance: a complete attempt always leaves
    the active list, and the oldest replay record makes room if there are
    already sixty-four. *)
Theorem catalog_retire_exact (c : DisposableAttemptCatalogDocument) (id : string) (rev : N)
    (H : rtc catalog_step empty_catalog c) :
  catalog_retire_complete c id rev =
    match find_active c id with
    | None => Err attempt_missing
    | Some cur =>
        if negb (at_revision (dr_attempt cur) =? rev) then Err stale_attempt_revision
        else if bool_decide (at_phase (dr_attempt cur) ≠ PhaseComplete)
        then Err (catalog_error CatInvalidAction
               "only a complete disposable attempt may enter replay history")
        else if negb (cd_revision c + 1 <=? MAX_DISPOSABLE_ATTEMPT_CATALOG_REVISION)
        then Err cannot_advance
        else Ok (set_catalog c (cd_revision c + 1)
                   (List.filter (λ r, bool_decide (at_attempt_id (dr_attempt r) ≠ id)) (cd_active c))
                   (retired c cur))
    end.
Proof. by rewrite retire_complete_eq by by apply (chain_wf _ _ empty_catalog_wf). Qed.

(** ** Capacity planned from the catalog's usage *)

Lemma reserve_appends c r c' :
  catalog_wf c → reservation_ok r → catalog_reserve c r = Ok c' →
  catalog_wf c' ∧ (c' = c ∨ open_reservations c' = open_reservations c ++ [r]).
Proof.
  intros Hwf Hr H. apply reserve_result in H as [->|[Hwf' ->]]; [auto| |done..].
  split; [done|right]. rewrite !open_reservations_eq. simpl. rewrite filter_app.
  by rewrite (filter_cons_True holds_capacity) by (unfold holds_capacity; rewrite (ro_phase _ Hr); done).
Qed.

Lemma reserves_append c rs c' :
  catalog_wf c → Forall reservation_ok rs → fold_result catalog_reserve c rs = Ok c' →
  catalog_wf c' ∧ ∃ rs', rs' ⊆+ rs ∧ open_reservations c' = open_reservations c ++ rs'.
Proof.
  intros Hwf Hrs. revert c Hwf. induction Hrs as [|r rs Hr Hrs IH]; intros c Hwf H; simpl in H.
  { injection H as <-. split; [done|]. exists []. by rewrite app_nil_r. }
  apply bind_Ok in H as (c1 & H1 & H).
  destruct (reserve_appends _ _ _ Hwf Hr H1) as [Hwf1 Hopen].
  destruct (IH _ Hwf1 H) as [Hwf' (rs' & Hsub & Heq)]. split; [done|].
  destruct Hopen as [->|Ho]; [exists rs'|exists (r :: rs')].
  - split; [by apply submseteq_cons|done].
  - split; [by apply submseteq_skip|]. by rewrite Heq, Ho, <-(assoc (++)).
Qed.

Lemma resources_of_repeat f l w :
  (∀ r, r ∈ l → dr_resources r = w) → resources_of f l = N.of_nat (length l) * f w.
Proof.
  intros Hl. induction l as [|r l IH]; [done|]. unfold resources_of in *. rewrite sum_of_cons, IH.
  - rewrite (Hl r) by left. simpl length. lia.
  - intros x Hx. apply Hl. by right.
Qed.

Lemma resources_ok_positive w : resources_ok w → positive_worker w.
Proof. intros (_ & ? & ? & ?)%WorkerResources_new_Ok. unfold positive_worker. lia. Qed.

Lemma plan_capacity_fits now demand budget usage worker plan k :
  positive_worker worker → plan_capacity now demand budget usage worker = Ok plan →
  k ≤ cp_additional_workers plan →
  hu_workers usage + k ≤ hb_max_workers budget ∧
  workers_fit (hb_total budget) (hu_resources usage) worker k.
Proof.
  intros Hw H Hk. unfold plan_capacity in H. apply ok_guard in H as [_ H].
  apply ok_guard in H as [Hin H]. bprop. rewrite worker_capacity_Ok in H by done. simpl in H.
  unfold strict_sub, checked_sub in H.
  match goal with Hf : worker_fits_within _ _ = true |- _ =>
    pose proof Hf as Hfits; unfold worker_fits_within in Hf end. bprop.
  rewrite !(proj2 (N.leb_le _ _)) in H by lia. simpl in H.
  rewrite worker_capacity_Ok in H by done. simpl in H. injection H as <-. simpl in Hk.
  rewrite !N.min_glb_iff in Hk. destruct Hk as [[_ Hslots] Hres]. split; [lia|].
  rewrite <-capacity_le by done. revert Hres.
  match goal with |- _ → _ ≤ ?m => generalize m end. clear. intros m.
  unfold try_from_int. destruct (N.leb_spec m u16_max); simpl; lia.
Qed.

(** Planned capacity is capacity the host has.  If the plan is made from
    the usage the catalog reports, then after at most as many reservations of
    the planned size as the plan allows the catalog still reports a usage, and
    it fits the worker limit and every resource total of the budget. *)
Theorem planned_reservations_fit (c c' : DisposableAttemptCatalogDocument) (now : N)
    (demand : ScaleSetDemand) (budget : DisposableHostBudget) (usage : DisposableHostUsage)
    (worker : DisposableWorkerResources) (plan : DisposableCapacityPlan)
    (rs : list DisposableAttemptReservation)
    (Hc : rtc catalog_step empty_catalog c) (Husage : host_usage c = Ok usage)
    (Hplan : plan_capacity now demand budget usage worker = Ok plan)
    (Hrs : Forall (λ r, reservation_ok r ∧ dr_resources r = worker) rs)
    (Hn : N.of_nat (length rs) ≤ cp_additional_workers plan) (Hworker : resources_ok worker)
    (H : fold_result catalog_reserve c rs = Ok c') :
  ∃ usage', host_usage c' = Ok usage' ∧ hu_workers usage' ≤ hb_max_workers budget ∧
    worker_fits_within (hu_resources usage') (hb_total budget) = true.
Proof.
  pose proof (chain_wf _ _ empty_catalog_wf Hc) as Hwf.
  destruct (reserves_append c rs c') as [Hwf' (rs' & Hsub & Hopen)]; try done.
  { eapply Forall_impl; [exact Hrs|]. by intros r [? _]. }
  exists (usage_of (open_reservations c')). split.
  { apply host_usage_Ok; [apply Hwf'|split; [done|apply Hwf']]. }
  apply host_usage_Ok in Husage as [-> _]; [|apply Hwf].
  pose proof (submseteq_length _ _ Hsub) as Hlen.
  destruct (plan_capacity_fits _ _ _ _ _ _ (N.of_nat (length rs')) (resources_ok_positive _ Hworker) Hplan)
    as [Hslots (Hcpu & Hmem & Hdisk)]; [lia|].
  assert (∀ f, resources_of f (open_reservations c') =
    resources_of f (open_reservations c) + N.of_nat (length rs') * f worker) as Hres.
  { intros f. rewrite Hopen. unfold resources_of at 1. rewrite sum_of_app. f_equal.
    apply resources_of_repeat. intros r Hr. apply (elem_of_submseteq _ _ _ Hr) in Hsub.
    rewrite Forall_forall in Hrs. by apply Hrs. }
  simpl in *. split; [rewrite Hopen, length_app; lia|].
  unfold worker_fits_within. simpl. rewrite !Hres, !andb_true_iff, !N.leb_le. done.
Qed.

(** ** The theorems at sample catalogs *)

Definition sample_worker : DisposableWorkerResources := mkWorkerResources 2000 4096 8192.

Definition sample_reservation : DisposableAttemptReservation :=
  mkAttemptReservation sample_reserved sample_worker "template-1".

(** A second attempt. *)
Definition other_reservation : DisposableAttemptReservation :=
  mkAttemptReservation (reserved "attempt-2" "claim-2" "vm-2" "glaeda-2" 8 5000) sample_worker "template-1".

Definition sample_catalog : DisposableAttemptCatalogDocument :=
  mkCatalog 7 2 [sample_reservation] [].

(** The attempt released without a machine, and retired. *)
Definition released_attempt : DisposableAttemptState :=
  mkAttempt 6 3 "attempt-1" "claim-1" "vm-1" None "glaeda-1" 7 None false false PhaseComplete None None 5000.

Definition released_catalog : DisposableAttemptCatalogDocument :=
  mkCatalog 7 4 [mkAttemptReservation released_attempt sample_worker "template-1"] [].

Definition retired_catalog : DisposableAttemptCatalogDocument :=
  mkCatalog 7 5 [] [released_attempt].

Lemma sample_reserves : rtc catalog_step empty_catalog sample_catalog.
Proof.
  apply rtc_once. by eapply (step_reserve _ _ "attempt-1" "claim-1" "vm-1" "glaeda-1" 7 5000 2000 4096 8192).
Qed.

Lemma sample_releases : rtc catalog_step sample_catalog released_catalog.
Proof.
  eapply rtc_l; [|apply rtc_once].
  - by apply (step_transition _ (mkCatalog 7 3 [mkAttemptReservation (mkAttempt 6 2 "attempt-1" "claim-1"
      "vm-1" None "glaeda-1" 7 None false false PhaseUnprovisionedReleasing None None 5000)
      sample_worker "template-1"] []) "attempt-1" 1 BeginUnprovisionedRelease).
  - by apply (step_transition _ _ "attempt-1" 2 CompleteUnprovisioned).
Qed.

Lemma sample_retires : rtc catalog_step sample_catalog retired_catalog.
Proof.
  eapply rtc_r; [apply sample_releases|]. by apply (step_retire _ _ "attempt-1" 3).
Qed.

Lemma sample_reservation_ok r :
  r = sample_reservation ∨ r = other_reservation → reservation_ok r ∧ dr_resources r = sample_worker.
Proof. by intros [-> | ->]. Qed.

Lemma catalog_chain_invariant_witness : validate_catalog retired_catalog = Ok ().
Proof.
  apply (catalog_chain_invariant retired_catalog). etrans; [apply sample_reserves|apply sample_retires].
Defined.

Lemma capacity_held_until_complete_witness :
  ∃ a, rtc attempt_step (dr_attempt sample_reservation) a ∧
    (still_held retired_catalog sample_reservation a ∨ at_phase a = PhaseComplete).
Proof.
  apply (capacity_held_until_complete sample_catalog retired_catalog sample_reservation
    sample_reserves sample_retires). left.
Defined.

Lemma catalog_transition_exact_witness :
  replace_attempt sample_catalog "attempt-1" 1 AuthorizeClone =
    Ok (mkCatalog 7 3 [mkAttemptReservation (mkAttempt 6 2 "attempt-1" "claim-1" "vm-1" None "glaeda-1" 7
      None false false PhaseCloneAuthorized None None 5000) sample_worker "template-1"] []).
Proof. rewrite (catalog_transition_exact _ _ _ _ sample_reserves). reflexivity. Defined.

Lemma catalog_reserve_exact_witness :
  catalog_reserve sample_catalog other_reservation =
    Ok (mkCatalog 7 3 [sample_reservation; other_reservation] []).
Proof.
  rewrite (catalog_reserve_exact _ _ sample_reserves); [reflexivity|].
  apply sample_reservation_ok. by right.
Defined.

Lemma catalog_retire_exact_witness :
  catalog_retire_complete released_catalog "attempt-1" 3 = Ok retired_catalog.
Proof.
  rewrite catalog_retire_exact; [reflexivity|]. etrans; [apply sample_reserves|apply sample_releases].
Defined.

Lemma planned_reservations_fit_witness :
  ∃ usage', host_usage (mkCatalog 7 3 [sample_reservation; other_reservation] []) = Ok usage' ∧
    hu_workers usage' ≤ 2 ∧
    worker_fits_within (hu_resources usage') (mkWorkerResources 4000 10000 20000) = true.
Proof.
  apply (planned_reservations_fit sample_catalog _ 1000 (mkDemand 5 2 900 1100)
    (mkHostBudget 2 (mkWorkerResources 4000 10000 20000)) (mkHostUsage 1 sample_worker) sample_worker
    (mkCapacityPlan 2 2 2 1) [other_reservation]);
    [apply sample_reserves|reflexivity|reflexivity| |vm_compute; discriminate|reflexivity|reflexivity].
  apply Forall_singleton, sample_reservation_ok. by right.
Defined.
