(* ===== verification/CatalogStore.v ===== *)
(** * The catalog behind its store

    The tests a store applies to the successor of a catalog decide exactly the
    operations of the document; and the facade over any store that keeps the
    contract below behaves as the operation on the stored document. *)

From S2P Require Import Prelude SortBy Artifact ExecutionAdmission ScaleSetProtocol AttemptState.
From S2P Require Import AttemptLifecycle WorkerReconciler ReconcilerTheorems AttemptCatalog.
From S2P Require Import CatalogDocument CatalogSteps CatalogTheorems.

Local Open Scope N_scope.

(** ** The successor test *)

Lemma changed_none n p :
  length n = length p → changed_entries n p = [] → n = p.
Proof.
  revert p. induction n as [|x n IH]; intros [|y p] Hlen H; try done.
  unfold changed_entries in H. simpl in H. case_bool_decide as Hxy; [done|].
  subst y. f_equal. apply IH; [|done]. by injection Hlen.
Qed.

Lemma changed_self p : changed_entries p p = [].
Proof.
  induction p as [|y p IH]; [done|]. unfold changed_entries. simpl.
  by rewrite bool_decide_eq_false_2 by auto.
Qed.

(** Exactly one entry changed. *)
Lemma changed_one n p a b :
  length n = length p ∧ changed_entries n p = [(a, b)] ↔
  ∃ i : nat, p !! i = Some b ∧ n = <[i := a]> p ∧ a ≠ b.
Proof.
  split.
  - intros [Hlen H]. revert p Hlen H. induction n as [|x n IH]; intros [|y p] Hlen H; try done.
    unfold changed_entries in H. simpl in H. injection Hlen as Hlen. case_bool_decide as Hxy.
    + injection H as -> -> H. apply changed_none in H as ->; [|done]. by exists 0%nat.
    + subst y. destruct (IH p Hlen H) as (i & Hi & -> & Hab). by exists (S i).
  - intros (i & Hi & -> & Hab). split; [by rewrite length_insert|].
    revert i Hi. induction p as [|y p IH]; intros [|i] Hi; simplify_eq/=.
    + unfold changed_entries. simpl. rewrite bool_decide_eq_true_2 by done. f_equal. apply changed_self.
    + unfold changed_entries. simpl. rewrite bool_decide_eq_false_2 by auto. by apply IH.
Qed.

(** One operation that writes, without the bind of a machine's identity. *)
Inductive catalog_write (c c' : DisposableAttemptCatalogDocument) : Prop :=
| write_reserve r : catalog_reserve c r = Ok c' → catalog_write c c'
| write_transition id rev action : replace_attempt c id rev action = Ok c' → catalog_write c c'
| write_retire id rev : catalog_retire_complete c id rev = Ok c' → catalog_write c c'.

Lemma find_active_unique c i cur :
  catalog_wf c → cd_active c !! i = Some cur → find_active c (at_attempt_id (dr_attempt cur)) = Some cur.
Proof.
  intros Hwf Hi. apply (find_unique (λ r, at_attempt_id (dr_attempt r))); [|by eapply list_elem_of_lookup_2|done].
  apply attempt_ids_nodup, Hwf.
Qed.

Lemma active_at_unique c i cur :
  catalog_wf c → cd_active c !! i = Some cur →
  active_at c (at_attempt_id (dr_attempt cur)) (at_revision (dr_attempt cur)) = Ok (i, cur).
Proof.
  intros Hwf Hi. rewrite active_at_eq.
  rewrite (position_unique (λ r, at_attempt_id (dr_attempt r)) _ i cur) by (done || apply attempt_ids_nodup, Hwf).
  by rewrite Hi, N.eqb_refl.
Qed.

Section successor.
Context (cur next : DisposableAttemptCatalogDocument) (Hwf : catalog_wf cur).

Lemma reservation_test :
  is_reservation_of next cur = true ↔ ∃ r, catalog_reserve cur r = Ok next ∧ next ≠ cur.
Proof.
  unfold is_reservation_of. split.
  - destruct (list.last (cd_active next)) as [r|] eqn:Hlast; [|done]. intros H. bprop.
    destruct (catalog_reserve cur r) as [cand| |] eqn:Hr; simpl in *; try done. bprop. subst cand.
    exists r. split; [done|]. intros ->.
    match goal with H : (_ =? _)%nat = true |- _ => apply Nat.eqb_eq in H end. lia.
  - intros (r & Hr & Hne). pose proof Hr as H. unfold catalog_reserve in H.
    destruct (find_active cur _); [case_match; congruence|]. do 2 (apply ok_guard in H as [_ H]).
    apply bind_Ok in H as (v & _ & H). apply bind_Ok in H as (u & _ & H).
    assert (cd_active next = cd_active cur ++ [r]) as -> by (by injection H as <-).
    rewrite last_snoc, length_app, Hr. simpl. rewrite Nat.eqb_refl. simpl. by apply bool_decide_eq_true_2.
Qed.

Lemma retirement_test :
  is_retirement_of next cur = true ↔ ∃ id rev, catalog_retire_complete cur id rev = Ok next.
Proof.
  unfold is_retirement_of. rewrite existsb_exists. split.
  - intros (r & _ & H). destruct (catalog_retire_complete _ _ _) eqn:Hr; [|done..]. bprop. subst. eauto.
  - intros (id & rev & H). pose proof H as Hr. rewrite retire_complete_eq in H by done.
    apply on_active_Ok in H as (i & r & Hi & <- & <- & _). exists r.
    split; [by eapply list_elem_of_In, list_elem_of_lookup_2|]. rewrite Hr. by apply bool_decide_eq_true_2.
Qed.

(** A valid document whose one changed entry is a later state of the old one is
    what the operation writes. *)
Lemma rewrite_written (i : nat) (r r' : DisposableAttemptReservation) :
  catalog_ok next → cd_revision next = cd_revision cur + 1 → cd_tombstones next = cd_tombstones cur →
  cd_active next = <[i := r']> (cd_active cur) → dr_resources r' = dr_resources r →
  dr_prepared_template_identity r' = dr_prepared_template_identity r →
  next = written cur i r (dr_attempt r').
Proof.
  intros Hok Hrev Htomb Hact Hres Htmpl. unfold written, set_catalog, set_attempt.
  rewrite (co_schema _ (co_counts _ (wf_ok _ Hwf))), <-(co_schema _ (co_counts _ Hok)), <-Hrev, <-Htomb.
  destruct r' as [a w t], next as [sv rv act ts]. simpl in *. by subst.
Qed.

Lemma write_attempt_of i r s :
  cd_revision cur + 1 ≤ MAX_DISPOSABLE_ATTEMPT_CATALOG_REVISION → catalog_ok (written cur i r s) →
  write_attempt cur i r s = Ok (written cur i r s).
Proof.
  intros Hmax Hok. unfold write_attempt. rewrite CatalogRevision_next_eq, (proj2 (N.leb_le _ _)) by done.
  simpl. fold (written cur i r s). by rewrite (proj2 (validate_catalog_iff _) Hok).
Qed.

Lemma transition_test :
  catalog_ok next → cd_revision next = cd_revision cur + 1 →
  cd_revision cur + 1 ≤ MAX_DISPOSABLE_ATTEMPT_CATALOG_REVISION →
  is_transition_of next cur = true ↔ ∃ id rev action, replace_attempt cur id rev action = Ok next.
Proof.
  intros Hok Hrev Hmax. unfold is_transition_of. split.
  - intros H. case_match eqn:Hg; [|done]. bprop.
    match goal with H : (_ =? _)%nat = true |- _ => apply Nat.eqb_eq in H; rename H into Hlen end.
    destruct (changed_entries _ _) as [|[r' r] [|]] eqn:Hch; [done| |done]. bprop.
    destruct (proj1 (changed_one _ _ _ _) (conj Hlen Hch)) as (i & Hi & Hact & Hne).
    match goal with H : is_exact_successor_of _ _ = true |- _ =>
      apply successor_test_iff in H as [action Hact'] end.
    exists (at_attempt_id (dr_attempt r)), (at_revision (dr_attempt r)), action.
    unfold replace_attempt. rewrite (active_at_unique _ i) by done. simpl. unfold apply_action.
    rewrite Hact'. simpl. rewrite bool_decide_eq_false_2.
    2:{ intros Heq. apply Hne. destruct r, r'. simpl in *. congruence. }
    pose proof (rewrite_written i r r' Hok Hrev) as Hw.
    rewrite write_attempt_of; [f_equal; symmetry; auto|done|]. rewrite <-Hw by auto. done.
  - intros (id & rev & action & H). unfold replace_attempt in H.
    apply bind_Ok in H as ([i r] & (Hi & _ & _ & _)%active_at_Ok & H).
    apply bind_Ok in H as (s & Ht%map_err_Ok & H). case_bool_decide as Hs.
    { injection H as <-. lia. }
    rewrite write_attempt_eq in H; [|done|done| |done].
    2:{ apply (transition_facts _ action); [by eapply active_valid|done]. }
    do 2 (apply ok_guard in H as [_ H]). injection H as <-. simpl.
    rewrite length_insert, Nat.eqb_refl, bool_decide_eq_true_2 by done. simpl.
    destruct (proj2 (changed_one (<[i:=set_attempt r s]> (cd_active cur)) (cd_active cur) (set_attempt r s) r))
      as [_ ->].
    { exists i. split_and!; [done..|]. intros Heq. apply Hs. by rewrite <-Heq. }
    simpl. rewrite !bool_decide_eq_true_2 by done. simpl. apply successor_test_iff. eauto.
Qed.
End successor.

(** How every writing operation ends. *)
Lemma advance_and_validate c active tombstones c' :
  (revision ← CatalogRevision_next (cd_revision c);
   _ ← validate_catalog (set_catalog c revision active tombstones);
   Ok (set_catalog c revision active tombstones)) = Ok c' →
  catalog_ok c' ∧ cd_revision c' = cd_revision c + 1 ∧
  cd_revision c + 1 ≤ MAX_DISPOSABLE_ATTEMPT_CATALOG_REVISION.
Proof.
  rewrite CatalogRevision_next_eq. destruct (N.leb_spec (cd_revision c + 1) MAX_DISPOSABLE_ATTEMPT_CATALOG_REVISION);
    simpl; [|done]. intros Hv. by apply bind_Ok in Hv as ([] & ?%validate_catalog_iff & [= <-]).
Qed.

Lemma write_valid c c' :
  catalog_wf c → catalog_write c c' → c' ≠ c →
  catalog_ok c' ∧ cd_revision c' = cd_revision c + 1 ∧
  cd_revision c + 1 ≤ MAX_DISPOSABLE_ATTEMPT_CATALOG_REVISION.
Proof.
  intros Hwf [r H|id rev action H|id rev H] Hne.
  - unfold catalog_reserve in H. destruct (find_active c _); [case_match; congruence|].
    do 2 (apply ok_guard in H as [_ H]). by apply advance_and_validate in H.
  - unfold replace_attempt in H. apply bind_Ok in H as ([i r] & _ & H).
    apply bind_Ok in H as (s & _ & H). case_match; [congruence|]. by apply advance_and_validate in H.
  - unfold catalog_retire_complete in H. apply bind_Ok in H as ([i r] & _ & H). apply ok_guard in H as [_ H].
    by apply advance_and_validate in H.
Qed.

(** The test of the store decides the operations. *)
Lemma successor_iff cur next :
  catalog_wf cur →
  catalog_validate_successor_of next cur = Ok () ↔ catalog_write cur next ∧ next ≠ cur.
Proof.
  intros Hwf. unfold catalog_validate_successor_of.
  rewrite (proj2 (validate_catalog_iff _) (wf_ok _ Hwf)). simpl. rewrite CatalogRevision_next_eq. split.
  - intros H. apply bind_Ok in H as ([] & Hok%validate_catalog_iff & H).
    apply bind_Ok in H as (v & Hv & H).
    destruct (N.leb_spec (cd_revision cur + 1) MAX_DISPOSABLE_ATTEMPT_CATALOG_REVISION); [|done].
    injection Hv as <-. apply ok_guard in H as [Hrev%negb_eqb_false H]. bprop. case_match eqn:Ht; [|done].
    split; [|intros ->; lia]. apply orb_true_iff in Ht as [Ht|Ht]; [apply orb_true_iff in Ht as [Ht|Ht]|].
    + apply reservation_test in Ht as (r & Hr & _). by eapply write_reserve.
    + apply transition_test in Ht as (id & rev & action & Ht); [|done..]. by eapply write_transition.
    + apply retirement_test in Ht as (id & rev & Ht); [|done]. by eapply write_retire.
  - intros [Hw Hne]. destruct (write_valid _ _ Hwf Hw Hne) as (Hok & Hrev & Hmax).
    rewrite (proj2 (validate_catalog_iff _) Hok), (proj2 (N.leb_le _ _)) by done. simpl.
    rewrite (proj2 (negb_eqb_false _ _)) by done. destruct Hw as [r H|id rev action H|id rev H].
    + by rewrite (proj2 (reservation_test cur next)) by eauto.
    + rewrite (proj2 (transition_test cur next Hwf Hok Hrev Hmax)), orb_true_r by eauto. done.
    + rewrite (proj2 (retirement_test cur next Hwf)), orb_true_r by eauto. done.
Qed.

(** The store accepts exactly the operations: over a catalog with the
    invariant, a replacement passes the successor test if and only if it differs
    and one reservation, transition or retirement produces it, although the test
    sees only the two documents. *)
Theorem store_successor_exact (cur next : DisposableAttemptCatalogDocument)
    (H : rtc catalog_step empty_catalog cur) :
  catalog_validate_successor_of next cur = Ok () ↔ catalog_write cur next ∧ next ≠ cur.
Proof. apply successor_iff. by apply (chain_wf _ _ empty_catalog_wf). Qed.

(** *** The identity bound by a recovered clone *)

Lemma validate_schema a : validate a = Ok () → at_schema_version a = DISPOSABLE_ATTEMPT_STATE_SCHEMA_VERSION.
Proof. unfold validate. intros H. apply ok_guard in H as [?%negb_eqb_false _]. done. Qed.

(** A clone-started record has no checkpoint of the runner. *)
Lemma valid_flags a :
  validate a = Ok () → at_phase a = PhaseCloneStarted →
  at_jit_generation_started a = false ∧ at_runner_start_started a = false.
Proof.
  unfold validate. intros H Hp. do 7 (apply ok_guard in H as [_ H]).
  apply bind_Ok in H as ([] & Hphase & _). unfold validate_phase in Hphase. rewrite Hp in Hphase.
  apply ok_guard in Hphase as [Hphase _]. by bprop.
Qed.

Lemma is_identity_bind_iff r' r :
  validate (dr_attempt r) = Ok () → validate (dr_attempt r') = Ok () →
  is_identity_bind r' r = true ↔
  ∃ identity, bind_vm_identity_after_clone (dr_attempt r) identity = Ok (dr_attempt r') ∧
    r' = set_attempt r (dr_attempt r').
Proof.
  intros Hval Hval'. split.
  - intros H. unfold is_identity_bind in H. bprop.
    destruct r as [a w t], r' as [a' w' t']. simpl in *. subst w' t'.
    pose proof (validate_schema _ Hval) as Hs. pose proof (validate_schema _ Hval') as Hs'.
    pose proof (valid_flags _ Hval) as Hf. pose proof (valid_flags _ Hval') as Hf'.
    destruct a, a'. simpl in *. subst. destruct at_vm_identity0 as [identity|]; [|done].
    exists identity. split; [|done]. unfold bind_vm_identity_after_clone. simpl.
    destruct at_vm_identity; [done|]. simpl.
    destruct (Hf eq_refl) as [-> ->], (Hf' eq_refl) as [-> ->].
    unfold set_vm_identity. change (3 + 1) with 4. cbn -[validate]. by rewrite Hval'.
  - intros (identity & H & ->). pose proof H as H'. unfold bind_vm_identity_after_clone in H.
    apply ok_guard in H as [Hg H]. bprop.
    apply bind_Ok in H as (v & [-> _]%AttemptRevision_next_Ok & H).
    apply bind_Ok in H as ([] & _ & [= <-]). unfold is_identity_bind. simpl.
    repeat (rewrite bool_decide_eq_true_2 by done). simpl.
    repeat match goal with H : _ = _ |- _ => rewrite H end. done.
Qed.

Lemma bind_test cur next :
  catalog_wf cur → catalog_ok next → (∀ a, a ∈ catalog_attempts next → validate a = Ok ()) →
  cd_revision next = cd_revision cur + 1 →
  cd_revision cur + 1 ≤ MAX_DISPOSABLE_ATTEMPT_CATALOG_REVISION →
  (length (cd_active next) = length (cd_active cur) ∧ cd_tombstones next = cd_tombstones cur ∧
   ∃ r' r, changed_entries (cd_active next) (cd_active cur) = [(r', r)] ∧ is_identity_bind r' r = true) ↔
  ∃ id rev identity, catalog_bind_vm_identity cur id rev identity = Ok next.
Proof.
  intros Hwf Hok Hval Hrev Hmax. split.
  - intros (Hlen & Htomb & r' & r & Hch & Hbind).
    destruct (proj1 (changed_one _ _ _ _) (conj Hlen Hch)) as (i & Hi & Hact & Hne).
    assert (cd_active next !! i = Some r') as Hi'.
    { rewrite Hact. by rewrite list_lookup_insert_eq by (by eapply lookup_lt_Some). }
    apply is_identity_bind_iff in Hbind as (identity & Hb & Hr').
    + exists (at_attempt_id (dr_attempt r)), (at_revision (dr_attempt r)), identity.
      unfold catalog_bind_vm_identity. rewrite (active_at_unique _ i) by done. simpl. rewrite Hb. simpl.
      assert (next = written cur i r (dr_attempt r')) as ->.
      { apply (rewrite_written cur next Hwf i r r'); try done; by rewrite Hr'. }
      by apply write_attempt_of.
    + by eapply active_valid.
    + apply Hval. by eapply list_elem_of_lookup_2, active_attempt.
  - intros (id & rev & identity & H). rewrite bind_vm_identity_eq in H by done.
    apply on_active_Ok in H as (i & r & Hi & _ & _ & H).
    destruct (bind_vm_identity_after_clone _ _) as [s| |] eqn:Hb; [|done..].
    apply (record_successor_Ok _ i) in H as (-> & _ & _); [|done..]. simpl.
    rewrite length_insert. split; [done|]. split; [done|]. exists (set_attempt r s), r. split.
    + apply changed_one. exists i. split_and!; [done..|]. intros Heq. apply (bind_changes _ _ _ Hb).
      by rewrite <-Heq.
    + apply is_identity_bind_iff; [by eapply active_valid|apply (bind_facts _ _ _ Hb)|]. by exists identity.
Qed.

(** Recovery accepts one thing more: over a catalog with the invariant, a
    document of valid attempts passes the recovery test if and only if it is an
    authorized successor or the result of binding one machine's identity to a
    started clone. *)
Theorem recovery_successor_exact (cur next : DisposableAttemptCatalogDocument)
    (H : rtc catalog_step empty_catalog cur)
    (Hval : ∀ a, a ∈ catalog_attempts next → validate a = Ok ()) :
  validate_recovery_successor_of next cur = Ok () ↔
  (catalog_write cur next ∧ next ≠ cur) ∨
  ∃ id rev identity, catalog_bind_vm_identity cur id rev identity = Ok next.
Proof.
  assert (catalog_wf cur) as Hwf by by apply (chain_wf _ _ empty_catalog_wf).
  rewrite <-successor_iff by done. unfold validate_recovery_successor_of.
  rewrite (proj2 (validate_catalog_iff _) (wf_ok _ Hwf)). cbn [mbind result_bind].
  rewrite CatalogRevision_next_eq.
  assert (catalog_validate_successor_of next cur = Ok () ↔
    is_ok (catalog_validate_successor_of next cur) = true) as ->
    by (by destruct (catalog_validate_successor_of next cur) as [[]| |]).
  destruct (is_ok _); [tauto|]. split; [intros Hr; right|intros [?|(id & rev & identity & Hb)]; [done|]].
  - apply bind_Ok in Hr as ([] & Hok%validate_catalog_iff & Hr). apply bind_Ok in Hr as (v & Hv & Hr).
    destruct (N.leb_spec (cd_revision cur + 1) MAX_DISPOSABLE_ATTEMPT_CATALOG_REVISION); [|done].
    injection Hv as <-. apply ok_guard in Hr as [Hg Hr]. bprop.
    destruct (changed_entries _ _) as [|[r' r] [|]] eqn:Hch; [done| |done].
    destruct (is_identity_bind r' r) eqn:Hib; [|done].
    apply (bind_test cur next Hwf Hok Hval); [done..|]. split_and!; [by apply Nat.eqb_eq|done|eauto].
  - pose proof Hb as Hw. unfold catalog_bind_vm_identity in Hw.
    apply bind_Ok in Hw as ([i r] & _ & Hw). apply bind_Ok in Hw as (s & _ & Hw).
    apply advance_and_validate in Hw as (Hok & Hrev & Hmax).
    destruct (proj2 (bind_test cur next Hwf Hok Hval Hrev Hmax)) as (Hlen & Htomb & r1 & r2 & Hch & Hib);
      [eauto|].
    rewrite (proj2 (validate_catalog_iff _) Hok), (proj2 (N.leb_le _ _)) by done. cbn [mbind result_bind].
    by rewrite Hrev, N.eqb_refl, Hlen, Nat.eqb_refl, bool_decide_eq_false_2, Hch, Hib by auto.
Qed.

(** ** The facade *)

(** What a store promises: [stored] is its document; loading and recovering
    leave it as it is; a first document is created where there is none and is
    the empty one; a replacement is written if it was made for the stored
    revision and passes the successor test, and refused without a trace
    otherwise. *)
Class CatalogStoreLaws (S : Type) `{!DisposableAttemptCatalogStore S} := {
  stored : S → option DisposableAttemptCatalogDocument;
  recover_law s : ∃ s', catalog_recover s = (s', Ok ()) ∧ stored s' = stored s;
  load_law s : ∃ s', catalog_load s = (s', Ok (stored s)) ∧ stored s' = stored s;
  create_law s : stored s = None →
    ∃ s' receipt, catalog_create empty_catalog s = (s', Ok receipt) ∧ stored s' = Some empty_catalog;
  replace_law s cur next :
    stored s = Some cur →
    ∃ s', catalog_replace_if_revision (cd_revision cur) next s =
      match catalog_validate_successor_of next cur with
      | Ok _ => (s', Ok (mkCatalogReceipt CatReplaced (cd_revision next) None))
      | Err e => (s', Err e)
      | Panic => (s', Panic)
      end ∧
      stored s' = if is_ok (catalog_validate_successor_of next cur) then Some next else stored s;
}.

#[export] Instance memory_catalog_laws : CatalogStoreLaws memory_catalog_store.
Proof.
  refine (Build_CatalogStoreLaws _ _ (λ s, s) _ _ _ _).
  - intros s. by exists s.
  - intros s. by exists s.
  - intros s ->. by eexists _, _.
  - intros s cur next ->. exists (if is_ok (catalog_validate_successor_of next cur) then Some next else Some cur).
    simpl. rewrite N.eqb_refl. simpl. by destruct (catalog_validate_successor_of next cur).
Defined.

(** The answer of a facade operation over a stored catalog: what the operation
    on the document gives, written if it changed anything. *)
Record facade_answer {S} `{CatalogStoreLaws S} (s s' : S) (cur : DisposableAttemptCatalogDocument)
    (op : result DisposableAttemptCatalogError DisposableAttemptCatalogDocument)
    (answer : result DisposableAttemptCatalogError
       (DisposableAttemptCatalogDocument * DisposableAttemptCatalogWriteReceipt)) : Prop := {
  fa_stored : stored s' = Some (match op with Ok next => next | _ => cur end);
  fa_answer : match op with
    | Ok next => ∃ receipt, answer = Ok (next, receipt) ∧ cr_catalog_revision receipt = cd_revision next ∧
        (cr_disposition receipt = CatReplaced ↔ next ≠ cur)
    | Err e => answer = Err e
    | Panic => answer = Panic
    end;
}.

Section facade_laws.
Context {S : Type} `{LAWS : CatalogStoreLaws S}.
Context (s : S) (cur : DisposableAttemptCatalogDocument) (Hs : stored s = Some cur).
Context (Hwf : catalog_wf cur).

(** The part every operation shares: recover, load, compare the revision. *)
Lemma facade_prefix {A} (k : DisposableAttemptCatalogDocument → stM S DisposableAttemptCatalogError A) :
  ∃ s1, stored s1 = Some cur ∧
    (_ ← catalog_recover; current ← Catalog_load;
     _ ← pureM (require_catalog_revision current (cd_revision cur)); k current) s = k cur s1.
Proof.
  destruct (recover_law s) as (s0 & Hrec & Hs0). destruct (load_law s0) as (s1 & Hload & Hs1).
  exists s1. split; [congruence|]. unfold mbind, stM_bind. rewrite Hrec.
  unfold Catalog_load, mbind, stM_bind. rewrite Hload, Hs0, Hs. unfold pureM. cbn [ok_or].
  rewrite (proj2 (validate_catalog_iff _) (wf_ok _ Hwf)). cbn.
  unfold require_catalog_revision. by rewrite N.eqb_refl.
Qed.

Lemma pureM_Ok_bind {A B} (a : A) (k : A → stM S DisposableAttemptCatalogError B) (s1 : S) :
  (pureM (Ok a) ≫= k) s1 = k a s1.
Proof. done. Qed.

(** The end of an operation whose document is a write of the stored one. *)
Lemma facade_suffix (s1 : S) (next : DisposableAttemptCatalogDocument)
    (attempt_revision : option DisposableAttemptRevision) :
  stored s1 = Some cur → catalog_write cur next → next ≠ cur →
  let answer :=
    (receipt ← catalog_replace_if_revision (cd_revision cur) next;
     mret (next, mkCatalogReceipt (cr_disposition receipt) (cr_catalog_revision receipt) attempt_revision)) s1 in
  facade_answer s answer.1 cur (Ok next) answer.2.
Proof.
  intros Hs1 Hw Hne. destruct (replace_law s1 cur next Hs1) as (s2 & Hrep & Hs2).
  rewrite (proj2 (successor_iff cur next Hwf) (conj Hw Hne)) in Hrep, Hs2. cbn [is_ok] in Hs2.
  unfold mbind, stM_bind. rewrite Hrep. cbn. split; [done|]. cbn. eexists. by split_and!.
Qed.

Lemma facade_satisfied (s1 : S) attempt_revision :
  stored s1 = Some cur → facade_answer s s1 cur (Ok cur) (Ok (satisfied cur attempt_revision)).
Proof. intros Hs1. split; [done|]. cbn. eexists. by split_and!. Qed.

Lemma facade_reserve r :
  let answer := Catalog_reserve (cd_revision cur) r s in
  facade_answer s answer.1 cur (catalog_reserve cur r) answer.2.
Proof.
  unfold Catalog_reserve. edestruct (facade_prefix (A := DisposableAttemptCatalogDocument *
    DisposableAttemptCatalogWriteReceipt)) as (s1 & Hs1 & ->).
  destruct (catalog_reserve cur r) as [next|e|] eqn:Hop; [|by split..].
  rewrite !pureM_Ok_bind. case_bool_decide as Heq.
  - subst next. by apply facade_satisfied.
  - apply facade_suffix; [done|by eapply write_reserve|done].
Qed.

Lemma facade_transition id rev action :
  let answer := Catalog_transition (cd_revision cur) id rev action s in
  facade_answer s answer.1 cur (replace_attempt cur id rev action) answer.2.
Proof.
  unfold Catalog_transition. edestruct (facade_prefix (A := DisposableAttemptCatalogDocument *
    DisposableAttemptCatalogWriteReceipt)) as (s1 & Hs1 & ->).
  destruct (replace_attempt cur id rev action) as [next|e|] eqn:Hop; [|by split..].
  rewrite !pureM_Ok_bind. case_bool_decide as Heq.
  - subst next. by apply facade_satisfied.
  - apply facade_suffix; [done|by eapply write_transition|done].
Qed.

Lemma facade_retire id rev :
  let answer := Catalog_retire_complete (cd_revision cur) id rev s in
  facade_answer s answer.1 cur (catalog_retire_complete cur id rev) answer.2.
Proof.
  unfold Catalog_retire_complete. edestruct (facade_prefix (A := DisposableAttemptCatalogDocument *
    DisposableAttemptCatalogWriteReceipt)) as (s1 & Hs1 & ->).
  destruct (catalog_retire_complete cur id rev) as [next|e|] eqn:Hop; [|by split..].
  rewrite !pureM_Ok_bind.
  apply facade_suffix; [done|by eapply write_retire|]. intros ->.
  unfold catalog_retire_complete in Hop. apply bind_Ok in Hop as ([i r] & _ & Hop).
  apply ok_guard in Hop as [_ Hop]. apply advance_and_validate in Hop as (_ & ? & _). lia.
Qed.
End facade_laws.

(** Initializing: an empty store gets the empty catalog, any other keeps its
    document. *)
Lemma facade_initialize {S : Type} `{LAWS : CatalogStoreLaws S} (s : S) :
  match stored s with
  | Some cur =>
      catalog_wf cur →
      let answer := Catalog_initialize s in
      stored answer.1 = Some cur ∧ answer.2 = Ok (satisfied cur None)
  | None =>
      let answer := Catalog_initialize s in
      stored answer.1 = Some empty_catalog ∧ ∃ receipt, answer.2 = Ok (empty_catalog, receipt)
  end.
Proof.
  destruct (recover_law s) as (s0 & Hrec & Hs0). destruct (load_law s0) as (s1 & Hload & Hs1).
  destruct (stored s) as [cur|] eqn:Hs; [intros Hwf|];
    unfold Catalog_initialize, mbind, stM_bind; rewrite Hrec, Hload, Hs0.
  - unfold pureM. rewrite (proj2 (validate_catalog_iff _) (wf_ok _ Hwf)). cbn. split; [congruence|done].
  - destruct (create_law s1) as (s2 & receipt & Hcreate & Hs2); [congruence|].
    rewrite Hcreate. cbn. eauto.
Qed.

(** The facade implements the document: over every store that keeps the
    contract, reserving, moving or retiring an attempt at the current revision
    answers and leaves stored what the operation gives on the stored document.
    What the facade submits the store never refuses, and a receipt says
    [Replaced] exactly if something was written.  Initializing again changes
    nothing. *)
Theorem facade_refines_document {S : Type} `{LAWS : CatalogStoreLaws S} (s : S)
    (cur : DisposableAttemptCatalogDocument) (Hs : stored s = Some cur)
    (H : rtc catalog_step empty_catalog cur) :
  (∀ r, let answer := Catalog_reserve (cd_revision cur) r s in
     facade_answer s answer.1 cur (catalog_reserve cur r) answer.2) ∧
  (∀ id rev action, let answer := Catalog_transition (cd_revision cur) id rev action s in
     facade_answer s answer.1 cur (replace_attempt cur id rev action) answer.2) ∧
  (∀ id rev, let answer := Catalog_retire_complete (cd_revision cur) id rev s in
     facade_answer s answer.1 cur (catalog_retire_complete cur id rev) answer.2) ∧
  (let answer := Catalog_initialize s in
     stored answer.1 = Some cur ∧ answer.2 = Ok (satisfied cur None)).
Proof.
  assert (catalog_wf cur) as Hwf by by apply (chain_wf _ _ empty_catalog_wf).
  split_and!; intros; [by apply facade_reserve|by apply facade_transition|by apply facade_retire|..];
    pose proof (facade_initialize s) as Hi; rewrite Hs in Hi; by apply Hi.
Qed.

(** ** The theorems at sample catalogs *)

Lemma store_successor_exact_witness :
  catalog_validate_successor_of (mkCatalog 7 3 [sample_reservation; other_reservation] []) sample_catalog
    = Ok ().
Proof.
  apply (store_successor_exact _ _ sample_reserves).
  split; [by apply (write_reserve _ _ other_reservation)|done].
Defined.

(** The clone of the attempt started, and its machine bound. *)
Definition started_catalog : DisposableAttemptCatalogDocument :=
  mkCatalog 7 4 [mkAttemptReservation (mkAttempt 6 3 "attempt-1" "claim-1" "vm-1" None "glaeda-1" 7 None
    false false PhaseCloneStarted None None 5000) sample_worker "template-1"] [].

Definition bound_catalog : DisposableAttemptCatalogDocument :=
  mkCatalog 7 5 [mkAttemptReservation sample_bound sample_worker "template-1"] [].

Lemma sample_starts : rtc catalog_step empty_catalog started_catalog.
Proof.
  etrans; [apply sample_reserves|].
  apply (rtc_l _ _ (mkCatalog 7 3 [mkAttemptReservation (mkAttempt 6 2 "attempt-1" "claim-1" "vm-1" None
    "glaeda-1" 7 None false false PhaseCloneAuthorized None None 5000) sample_worker "template-1"] [])).
  - by apply (step_transition _ _ "attempt-1" 1 AuthorizeClone).
  - apply rtc_once. by apply (step_transition _ _ "attempt-1" 2 RecordCloneStarted).
Qed.

Lemma recovery_successor_exact_witness :
  validate_recovery_successor_of bound_catalog started_catalog = Ok ().
Proof.
  apply (recovery_successor_exact _ _ sample_starts).
  - intros a [->|Ha]%elem_of_cons; [reflexivity|by apply elem_of_nil in Ha].
  - right. by exists "attempt-1", 3, sample_identity.
Defined.

Lemma facade_refines_document_witness :
  facade_answer (S := memory_catalog_store) (Some sample_catalog)
    (Some (mkCatalog 7 3 [sample_reservation; other_reservation] [])) sample_catalog
    (catalog_reserve sample_catalog other_reservation)
    (Catalog_reserve 2 other_reservation (Some sample_catalog)).2.
Proof.
  destruct (facade_refines_document (LAWS := memory_catalog_laws) (Some sample_catalog) sample_catalog)
    as [Hr _]; [reflexivity|apply sample_reserves|].
  exact (Hr other_reservation).
Defined.
