(* ===== verification/AttemptCodec.v ===== *)
(** * Durable text of attempts and of their catalog

    [encode_disposable_attempt_state] and [decode_disposable_attempt_state] of
    [src/src/disposable_attempt_state.rs], and the codec of the catalog in
    [src/src/disposable_attempt_catalog/codec.rs], which embeds every attempt as
    a JSON value.  [serde_json] is a parameter ([CatalogSerde]); what the round
    trips rely on is [CatalogSerdeLaws]. *)

From S2P Require Import Prelude Artifact ExecutionAdmission ScaleSetProtocol AttemptState.
From S2P Require Import WorkerReconciler AttemptCatalog.

Local Open Scope N_scope.

(** ** Attempts *)

(** [AttemptWire] and [OwnedAttemptWire]: the same fields, borrowed or owned. *)
Record OwnedAttemptWire := mkAttemptWire {
  aw_schema_version : N;
  aw_revision : N;
  aw_attempt_id : string;
  aw_capacity_claim_id : string;
  aw_vm_id : string;
  aw_vm_identity_digest : option string;
  aw_runner_name : string;
  aw_runner_request_id : N;
  aw_runner_id : option N;
  aw_jit_generation_started : bool;
  aw_runner_start_started : bool;
  aw_phase : string;
  aw_github_job_id : option string;
  aw_result : option string;
  aw_not_after : N;
}.

Record ResourceWire := mkResourceWire {
  rw_cpu_millis : N;
  rw_memory_bytes : N;
  rw_disk_bytes : N;
}.

Record ReservationWire (Value : Type) := mkReservationWire {
  rv_attempt : Value;
  rv_resources : ResourceWire;
  rv_prepared_template_digest : string;
}.
Arguments mkReservationWire {Value} _ _ _.
Arguments rv_attempt {Value} _.
Arguments rv_resources {Value} _.
Arguments rv_prepared_template_digest {Value} _.

Record CatalogWire (Value : Type) := mkCatalogWire {
  cw_schema_version : N;
  cw_revision : N;
  cw_active : list (ReservationWire Value);
  cw_tombstones : list Value;
}.
Arguments mkCatalogWire {Value} _ _ _ _.
Arguments cw_schema_version {Value} _.
Arguments cw_revision {Value} _.
Arguments cw_active {Value} _.
Arguments cw_tombstones {Value} _.

(** [serde_json] on these types; a version struct has one field. *)
Class CatalogSerde := {
  Value : Type;
  attempt_to_vec : OwnedAttemptWire → option bytes;
  attempt_from_slice : bytes → option OwnedAttemptWire;
  attempt_version_from_slice : bytes → option N;
  value_to_vec : Value → option bytes;
  value_from_slice : bytes → option Value;
  catalog_to_vec : CatalogWire Value → option bytes;
  catalog_from_slice : bytes → option (CatalogWire Value);
  catalog_version_from_slice : bytes → option N;
}.

Definition phase_name (phase : DisposableAttemptPhase) : string :=
  match phase with
  | PhaseReserved => "reserved"
  | PhaseUnprovisionedReleasing => "unprovisioned_releasing"
  | PhaseProvisioning => "provisioning"
  | PhaseCloneAuthorized => "clone_authorized"
  | PhaseCloneStarted => "clone_started"
  | PhaseRegistering => "registering"
  | PhaseWaiting => "waiting"
  | PhaseAssigned => "assigned"
  | PhaseRunning => "running"
  | PhaseTerminal => "terminal"
  | PhaseDestroying => "destroying"
  | PhaseDeregistering => "deregistering"
  | PhaseReleasing => "releasing"
  | PhaseComplete => "complete"
  end.

Definition parse_phase (value : string) : result DisposableAttemptStateError DisposableAttemptPhase :=
  if String.eqb value "reserved" then Ok PhaseReserved
  else if String.eqb value "unprovisioned_releasing" then Ok PhaseUnprovisionedReleasing
  else if String.eqb value "provisioning" then Ok PhaseProvisioning
  else if String.eqb value "clone_authorized" then Ok PhaseCloneAuthorized
  else if String.eqb value "clone_started" then Ok PhaseCloneStarted
  else if String.eqb value "registering" then Ok PhaseRegistering
  else if String.eqb value "waiting" then Ok PhaseWaiting
  else if String.eqb value "assigned" then Ok PhaseAssigned
  else if String.eqb value "running" then Ok PhaseRunning
  else if String.eqb value "terminal" then Ok PhaseTerminal
  else if String.eqb value "destroying" then Ok PhaseDestroying
  else if String.eqb value "deregistering" then Ok PhaseDeregistering
  else if String.eqb value "releasing" then Ok PhaseReleasing
  else if String.eqb value "complete" then Ok PhaseComplete
  else Err (invalid_attempt_document "attempt phase is invalid").

Definition attempt_too_large : DisposableAttemptStateError :=
  mkAttemptError "document" "document_too_large"
    "disposable attempt document exceeds the reviewed byte bound".

Definition len (b : bytes) : N := N.of_nat (length b).

Section codec.
Context `{SERDE : CatalogSerde}.

(** The [AttemptWire] of a record. *)
Definition attempt_wire (state : DisposableAttemptState) : OwnedAttemptWire :=
  mkAttemptWire (at_schema_version state) (at_revision state) (at_attempt_id state)
    (at_capacity_claim_id state) (at_vm_id state) (at_vm_identity state) (at_runner_name state)
    (at_runner_request_id state) (at_runner_id state) (at_jit_generation_started state)
    (at_runner_start_started state) (phase_name (at_phase state)) (at_github_job_id state)
    (at_result state) (at_not_after state).

Definition encode_disposable_attempt_state (state : DisposableAttemptState)
    : result DisposableAttemptStateError bytes :=
  _ ← validate state;
  encoded ← ok_or (attempt_to_vec (attempt_wire state)) (invalid_attempt_document "attempt cannot encode");
  if MAX_DISPOSABLE_ATTEMPT_STATE_BYTES <? len encoded then Err attempt_too_large
  else Ok encoded.

(** The record of an [OwnedAttemptWire], field by field. *)
Definition attempt_of_wire (wire : OwnedAttemptWire)
    : result DisposableAttemptStateError DisposableAttemptState :=
  let doc (message : string) {E} (_ : E) := invalid_attempt_document message in
  revision ← AttemptRevision_new (aw_revision wire);
  attempt_id ← map_err (doc "attempt ID is invalid") (DisposableAttemptId_parse (aw_attempt_id wire));
  capacity_claim_id ← map_err (doc "capacity claim ID is invalid")
    (CapacityClaimId_parse (aw_capacity_claim_id wire));
  vm_id ← map_err (doc "VM ID is invalid") (DisposableVmId_parse (aw_vm_id wire));
  vm_identity ← map_err (doc "VM identity digest is invalid")
    (traverse_option DisposableVmIdentity_parse (aw_vm_identity_digest wire));
  runner_name ← map_err (doc "runner name is invalid") (ScaleSetRunnerName_parse (aw_runner_name wire));
  runner_request_id ← map_err (doc "runner request ID is invalid")
    (ScaleSetRunnerRequestId_new (aw_runner_request_id wire));
  runner_id ← map_err (doc "runner ID is invalid")
    (traverse_option ScaleSetRunnerId_new (aw_runner_id wire));
  phase ← parse_phase (aw_phase wire);
  github_job_id ← map_err (doc "Scale Set job ID is invalid")
    (traverse_option ScaleSetJobId_parse (aw_github_job_id wire));
  job_result ← map_err (doc "Scale Set job result is invalid")
    (traverse_option ScaleSetJobResult_parse (aw_result wire));
  not_after ← map_err (doc "attempt deadline is invalid") (EpochMillis_new (aw_not_after wire));
  Ok (mkAttempt (aw_schema_version wire) revision attempt_id capacity_claim_id vm_id vm_identity
        runner_name runner_request_id runner_id (aw_jit_generation_started wire)
        (aw_runner_start_started wire) phase github_job_id job_result not_after).

Definition decode_disposable_attempt_state (b : bytes)
    : result DisposableAttemptStateError DisposableAttemptState :=
  if MAX_DISPOSABLE_ATTEMPT_STATE_BYTES <? len b then Err attempt_too_large
  else
    version ← ok_or (attempt_version_from_slice b) (invalid_attempt_document "attempt JSON is invalid");
    if negb (version =? DISPOSABLE_ATTEMPT_STATE_SCHEMA_VERSION)
    then Err (mkAttemptError "schema_version" "version_incompatible"
           "disposable attempt schema version is unsupported")
    else
      wire ← ok_or (attempt_from_slice b) (invalid_attempt_document "attempt JSON is invalid");
      state ← attempt_of_wire wire;
      _ ← validate state;
      Ok state.
End codec.

(** ** The catalog *)

Inductive DisposableAttemptCatalogCodecErrorKind :=
| CodecInvalidDocument
| CodecVersionIncompatible
| CodecDocumentTooLarge
| CodecNonCanonical
| CodecCorruptState.

Record DisposableAttemptCatalogCodecError := mkCodecError {
  cce_kind : DisposableAttemptCatalogCodecErrorKind;
  cce_message : string;
}.

Definition codec_error := mkCodecError.

Definition MAX_DISPOSABLE_ATTEMPT_CATALOG_DOCUMENT_BYTES : N := 1048576.

(** [DisposablePreparedTemplateIdentity::parse]; its error is mapped away here. *)
Definition PreparedTemplateIdentity_parse (value : string) := Sha256Digest_parse value.

Section catalog_codec.
Context `{SERDE : CatalogSerde}.

Definition encode_attempt_value (attempt : DisposableAttemptState)
    : result DisposableAttemptCatalogCodecError Value :=
  encoded ← map_err (λ _, codec_error CodecCorruptState "embedded disposable attempt cannot encode")
    (encode_disposable_attempt_state attempt);
  ok_or (value_from_slice encoded)
    (codec_error CodecCorruptState "embedded disposable attempt JSON is invalid").

Definition decode_attempt_value (value : Value)
    : result DisposableAttemptCatalogCodecError DisposableAttemptState :=
  encoded ← ok_or (value_to_vec value)
    (codec_error CodecInvalidDocument "embedded disposable attempt cannot decode");
  map_err (λ error, codec_error
      (if String.eqb (ase_code error) "version_incompatible" then CodecVersionIncompatible
       else CodecCorruptState)
      "embedded disposable attempt state is invalid")
    (decode_disposable_attempt_state encoded).

Definition encode_reservation (reservation : DisposableAttemptReservation)
    : result DisposableAttemptCatalogCodecError (ReservationWire Value) :=
  attempt ← encode_attempt_value (dr_attempt reservation);
  Ok (mkReservationWire attempt
        (mkResourceWire (wr_cpu_millis (dr_resources reservation))
           (wr_memory_bytes (dr_resources reservation)) (wr_disk_bytes (dr_resources reservation)))
        (dr_prepared_template_identity reservation)).

Definition encode_disposable_attempt_catalog (document : DisposableAttemptCatalogDocument)
    : result DisposableAttemptCatalogCodecError bytes :=
  _ ← map_err (λ _, codec_error CodecCorruptState "catalog invariants are invalid")
    (validate_catalog document);
  active ← traverse encode_reservation (cd_active document);
  tombstones ← traverse encode_attempt_value (cd_tombstones document);
  let wire := mkCatalogWire (cd_schema_version document) (cd_revision document) active tombstones in
  encoded ← ok_or (catalog_to_vec wire)
    (codec_error CodecInvalidDocument "disposable attempt catalog cannot encode");
  if MAX_DISPOSABLE_ATTEMPT_CATALOG_DOCUMENT_BYTES <? len encoded
  then Err (codec_error CodecDocumentTooLarge
         "disposable attempt catalog exceeds the reviewed byte limit")
  else Ok encoded.

Definition decode_reservation (reservation : ReservationWire Value)
    : result DisposableAttemptCatalogCodecError DisposableAttemptReservation :=
  attempt ← decode_attempt_value (rv_attempt reservation);
  resources ← map_err (λ _, codec_error CodecCorruptState
                 "disposable attempt reservation resources are invalid")
    (WorkerResources_new (rw_cpu_millis (rv_resources reservation))
       (rw_memory_bytes (rv_resources reservation)) (rw_disk_bytes (rv_resources reservation)));
  template ← map_err (λ _, codec_error CodecCorruptState
                "disposable prepared-template digest is invalid")
    (PreparedTemplateIdentity_parse (rv_prepared_template_digest reservation));
  Ok (mkAttemptReservation attempt resources template).

Definition decode_disposable_attempt_catalog (b : bytes)
    : result DisposableAttemptCatalogCodecError DisposableAttemptCatalogDocument :=
  if MAX_DISPOSABLE_ATTEMPT_CATALOG_DOCUMENT_BYTES <? len b
  then Err (codec_error CodecDocumentTooLarge
         "disposable attempt catalog exceeds the reviewed byte limit")
  else
    version ← ok_or (catalog_version_from_slice b)
      (codec_error CodecInvalidDocument "disposable attempt catalog JSON is invalid");
    if negb (version =? DISPOSABLE_ATTEMPT_CATALOG_SCHEMA_VERSION)
    then Err (codec_error CodecVersionIncompatible
           "disposable attempt catalog schema version is unsupported")
    else
      wire ← ok_or (catalog_from_slice b)
        (codec_error CodecInvalidDocument "disposable attempt catalog JSON is invalid");
      if (MAX_ACTIVE_DISPOSABLE_ATTEMPTS <? length (cw_active wire))%nat
         || (MAX_DISPOSABLE_ATTEMPT_TOMBSTONES <? length (cw_tombstones wire))%nat
      then Err (codec_error CodecCorruptState "disposable attempt catalog exceeds a reviewed entry bound")
      else
        revision ← map_err (λ _, codec_error CodecCorruptState
                      "disposable attempt catalog revision is invalid")
          (CatalogRevision_new (cw_revision wire));
        active ← traverse decode_reservation (cw_active wire);
        tombstones ← traverse decode_attempt_value (cw_tombstones wire);
        let document := mkCatalog DISPOSABLE_ATTEMPT_CATALOG_SCHEMA_VERSION revision active tombstones in
        _ ← map_err (λ _, codec_error CodecCorruptState "disposable attempt catalog invariants are invalid")
          (validate_catalog document);
        canonical ← encode_disposable_attempt_catalog document;
        if bool_decide (canonical ≠ b)
        then Err (codec_error CodecNonCanonical "disposable attempt catalog is not in canonical JSON form")
        else Ok document.
End catalog_codec.
