(* ===== verification/CatalogCodec.v ===== *)
(** * The durable text of a catalog can be read back

    The types of the fields of an attempt and of a catalog are kept by every
    operation, and text and document determine each other. *)

From S2P Require Import Prelude SortBy Artifact ExecutionAdmission ScaleSetProtocol AttemptState.
From S2P Require Import AttemptLifecycle WorkerReconciler ReconcilerTheorems AttemptCatalog.
From S2P Require Import CatalogDocument CatalogSteps CatalogTheorems AttemptCodec.

Local Open Scope N_scope.

(** ** Constructors that keep the raw value *)

Ltac keeps_by f := let H := fresh "H" in intros ? ? H; unfold f in H; inv_ok H; congruence.

#[export] Instance attempt_revision_keeps : KeepsRaw AttemptRevision_new.
Proof. keeps_by AttemptRevision_new. Qed.
#[export] Instance catalog_revision_keeps : KeepsRaw CatalogRevision_new.
Proof. keeps_by CatalogRevision_new. Qed.
#[export] Instance worker_identifier_keeps field : KeepsRaw (worker_identifier_parse field).
Proof. keeps_by worker_identifier_parse. Qed.
#[export] Instance attempt_id_keeps : KeepsRaw DisposableAttemptId_parse := worker_identifier_keeps _.
#[export] Instance claim_id_keeps : KeepsRaw CapacityClaimId_parse := worker_identifier_keeps _.
#[export] Instance vm_id_keeps : KeepsRaw DisposableVmId_parse := worker_identifier_keeps _.
#[export] Instance vm_identity_keeps : KeepsRaw DisposableVmIdentity_parse.
Proof. intros raw a H. apply map_err_Ok in H. by apply parse_keeps in H. Qed.
#[export] Instance runner_name_keeps : KeepsRaw ScaleSetRunnerName_parse.
Proof. keeps_by ScaleSetRunnerName_parse. Qed.
#[export] Instance request_number_keeps : KeepsRaw ScaleSetRunnerRequestId_new.
Proof. keeps_by ScaleSetRunnerRequestId_new. Qed.
#[export] Instance runner_id_keeps : KeepsRaw ScaleSetRunnerId_new.
Proof. keeps_by ScaleSetRunnerId_new. Qed.
#[export] Instance job_id_keeps : KeepsRaw ScaleSetJobId_parse.
Proof. keeps_by ScaleSetJobId_parse. Qed.
#[export] Instance job_result_keeps : KeepsRaw ScaleSetJobResult_parse.
Proof. keeps_by ScaleSetJobResult_parse. Qed.
#[export] Instance deadline_keeps : KeepsRaw EpochMillis_new.
Proof. keeps_by EpochMillis_new. Qed.
#[export] Instance template_keeps : KeepsRaw PreparedTemplateIdentity_parse.
Proof. intros raw a H. by apply parse_keeps in H. Qed.

Lemma newtype_iff {E F A} (f : E → F) (new : A → result E A) `{!KeepsRaw new} raw a :
  map_err f (new raw) = Ok a ↔ accepted new a ∧ a = raw.
Proof. rewrite map_err_Ok. apply keeps_raw_iff, _. Qed.

(** An optional field, accepted if it is there. *)
Definition accepted_option {E A} (new : A → result E A) (o : option A) : Prop :=
  ∀ a, o = Some a → accepted new a.

Lemma newtype_option_iff {E F A} (f : E → F) (new : A → result E A) `{!KeepsRaw new} raw o :
  map_err f (traverse_option new raw) = Ok o ↔ accepted_option new o ∧ o = raw.
Proof.
  rewrite map_err_Ok. unfold accepted_option. destruct raw as [r|]; simpl.
  - rewrite bind_Ok. split.
    + intros (a & [Ha ->]%keeps_raw_iff & [= <-]); [|done]. split; [|done]. by intros ? [= <-].
    + intros [Ha ->]. exists r. split; [|done]. by apply Ha.
  - split; [intros [= <-]; split; [|done]; by intros ?|]. by intros [_ ->].
Qed.

(** ** Typed attempts *)

(** Every field holds a value of its type. *)
Record attempt_typed (a : DisposableAttemptState) : Prop := {
  ty_revision : accepted AttemptRevision_new (at_revision a);
  ty_attempt_id : accepted DisposableAttemptId_parse (at_attempt_id a);
  ty_claim_id : accepted CapacityClaimId_parse (at_capacity_claim_id a);
  ty_vm_id : accepted DisposableVmId_parse (at_vm_id a);
  ty_vm_identity : accepted_option DisposableVmIdentity_parse (at_vm_identity a);
  ty_runner_name : accepted ScaleSetRunnerName_parse (at_runner_name a);
  ty_request_id : accepted ScaleSetRunnerRequestId_new (at_runner_request_id a);
  ty_runner_id : accepted_option ScaleSetRunnerId_new (at_runner_id a);
  ty_job_id : accepted_option ScaleSetJobId_parse (at_github_job_id a);
  ty_result : accepted_option ScaleSetJobResult_parse (at_result a);
  ty_not_after : accepted EpochMillis_new (at_not_after a);
}.

Lemma phase_name_inj p q : phase_name p = phase_name q → p = q.
Proof. by destruct p, q. Qed.

Lemma parse_phase_iff s p : parse_phase s = Ok p ↔ phase_name p = s.
Proof.
  split.
  - unfold parse_phase. intros H.
    repeat match type of H with
    | (if String.eqb s ?n then _ else _) = _ =>
        destruct (String.eqb_spec s n) as [->|]; [by injection H as <-|]
    end. done.
  - intros <-. by destruct p.
Qed.

(** A record is what the fields of its wire form say, and nothing else. *)
Lemma attempt_of_wire_iff w a : attempt_of_wire w = Ok a ↔ attempt_typed a ∧ attempt_wire a = w.
Proof.
  unfold attempt_of_wire. split.
  - intros H. repeat match type of H with (_ ≫= _) = Ok _ => let Hx := fresh "Hx" in
      apply bind_Ok in H as (? & Hx & H) end.
    injection H as <-.
    rewrite keeps_raw_iff in Hx by apply _. rewrite parse_phase_iff in Hx7.
    repeat match goal with
    | H : map_err _ (traverse_option _ _) = Ok _ |- _ => rewrite newtype_option_iff in H by apply _
    | H : map_err _ _ = Ok _ |- _ => rewrite newtype_iff in H by apply _
    end.
    destruct_and!. subst. split; [by split|]. destruct w; unfold attempt_wire; simpl. by rewrite Hx7.
  - intros [[] <-]. unfold accepted in *. simpl.
    repeat match goal with H : ?e = Ok _ |- _ => rewrite H; clear H; simpl end.
    repeat match goal with
    | H : accepted_option ?n ?o |- context [map_err ?f (traverse_option ?n ?o)] =>
        rewrite (proj2 (newtype_option_iff f n o o) (conj H eq_refl)); simpl
    end.
    rewrite (proj2 (parse_phase_iff _ _) eq_refl). simpl.
    repeat match goal with
    | H : accepted_option ?n ?o |- context [map_err ?f (traverse_option ?n ?o)] =>
        rewrite (proj2 (newtype_option_iff f n o o) (conj H eq_refl)); simpl
    end.
    by destruct a.
Qed.

(** ** Round trips *)

(** A derived [Serialize] is read back by the derived [Deserialize], and a
    struct with one of the fields reads the same text.  An object read as a
    [Value] and written again is the same object: its members may be in another
    order, so the text has the same length and reads as the same struct. *)
Class CatalogSerdeLaws `{SERDE : CatalogSerde} : Prop := {
  attempt_reads w b : attempt_to_vec w = Some b →
    attempt_from_slice b = Some w ∧ attempt_version_from_slice b = Some (aw_schema_version w);
  value_reads w b : attempt_to_vec w = Some b →
    ∃ v b', value_from_slice b = Some v ∧ value_to_vec v = Some b' ∧ length b' = length b ∧
      attempt_from_slice b' = Some w ∧ attempt_version_from_slice b' = Some (aw_schema_version w);
  catalog_reads w b : catalog_to_vec w = Some b →
    catalog_from_slice b = Some w ∧ catalog_version_from_slice b = Some (cw_schema_version w);
}.

(** Every field of the catalog holds a value of its type. *)
Record catalog_typed (c : DisposableAttemptCatalogDocument) : Prop := {
  ct_revision : accepted CatalogRevision_new (cd_revision c);
  ct_attempts : ∀ a, a ∈ catalog_attempts c → attempt_typed a;
  ct_resources : ∀ r, r ∈ cd_active c → resources_ok (dr_resources r);
  ct_templates : ∀ r, r ∈ cd_active c →
    accepted PreparedTemplateIdentity_parse (dr_prepared_template_identity r);
}.

Section round_trip.
Context `{LAWS : CatalogSerdeLaws}.

Lemma encode_attempt_Ok a b :
  encode_disposable_attempt_state a = Ok b ↔
  validate a = Ok () ∧ attempt_to_vec (attempt_wire a) = Some b ∧ len b ≤ MAX_DISPOSABLE_ATTEMPT_STATE_BYTES.
Proof.
  unfold encode_disposable_attempt_state. split.
  - intros H. apply bind_Ok in H as ([] & Hv & H). apply bind_Ok in H as (b' & Hb%ok_or_Ok & H).
    apply ok_guard in H as [Hl [= <-]]. bprop. auto.
  - intros (-> & Hb & Hl). simpl. rewrite Hb. simpl. by rewrite (proj2 (N.ltb_ge _ _)).
Qed.

(** Text that reads as the wire form of a valid typed record decodes to it. *)
Lemma decode_attempt_text a b :
  attempt_typed a → validate a = Ok () → len b ≤ MAX_DISPOSABLE_ATTEMPT_STATE_BYTES →
  attempt_from_slice b = Some (attempt_wire a) →
  attempt_version_from_slice b = Some (at_schema_version a) →
  decode_disposable_attempt_state b = Ok a.
Proof.
  intros Hty Hv Hl Hb Hver. unfold decode_disposable_attempt_state.
  rewrite (proj2 (N.ltb_ge _ _)), Hver, Hb by done. simpl.
  assert (at_schema_version a = DISPOSABLE_ATTEMPT_STATE_SCHEMA_VERSION) as ->.
  { unfold validate in Hv. apply ok_guard in Hv as [?%negb_eqb_false _]. done. }
  rewrite N.eqb_refl. simpl. rewrite (proj2 (attempt_of_wire_iff _ _) (conj Hty eq_refl)). simpl. by rewrite Hv.
Qed.

Lemma decode_attempt_typed b a :
  decode_disposable_attempt_state b = Ok a → attempt_typed a ∧ validate a = Ok ().
Proof.
  unfold decode_disposable_attempt_state. intros H. apply ok_guard in H as [_ H].
  apply bind_Ok in H as (v & _ & H). apply ok_guard in H as [_ H]. apply bind_Ok in H as (w & _ & H).
  apply bind_Ok in H as (a' & [Hty _]%attempt_of_wire_iff & H).
  by apply bind_Ok in H as ([] & Hv & [= <-]).
Qed.

Lemma attempt_value_round_trip a v :
  attempt_typed a → encode_attempt_value a = Ok v → decode_attempt_value v = Ok a.
Proof.
  intros Hty H. unfold encode_attempt_value in H. apply bind_Ok in H as (b & Hb%map_err_Ok & H).
  apply encode_attempt_Ok in Hb as (Hval & Hb & Hl). apply ok_or_Ok in H.
  destruct (value_reads _ _ Hb) as (v' & b' & Hv & Hb' & Hlen & Hfrom & Hver). simplify_eq.
  unfold decode_attempt_value. rewrite Hb'. simpl. apply map_err_Ok.
  apply decode_attempt_text; [done..| |done|done]. unfold len in *. by rewrite Hlen.
Qed.

Lemma reservation_round_trip r w :
  attempt_typed (dr_attempt r) → resources_ok (dr_resources r) →
  accepted PreparedTemplateIdentity_parse (dr_prepared_template_identity r) →
  encode_reservation r = Ok w → decode_reservation w = Ok r.
Proof.
  intros Hty Hres Htmpl H. unfold encode_reservation in H. apply bind_Ok in H as (v & Hv & [= <-]).
  unfold decode_reservation. simpl. rewrite (attempt_value_round_trip _ _ Hty Hv). simpl.
  rewrite Hres, Htmpl. simpl. by destruct r.
Qed.

Lemma traverse_back {A B E} (f : A → result E B) (g : B → result E A) (P : A → Prop) l l' :
  (∀ a b, P a → f a = Ok b → g b = Ok a) → (∀ a, a ∈ l → P a) →
  traverse f l = Ok l' → traverse g l' = Ok l.
Proof.
  intros Hfg HP. rewrite !traverse_Ok. intros H. apply Forall2_flip.
  eapply Forall2_impl; [|intros a b Hab; exact Hab].
  revert HP. induction H as [|a b l l' Hab H IH]; intros HP; constructor; [|by apply IH; intros; apply HP; right].
  apply Hfg; [apply HP; left|done].
Qed.

Lemma traverse_length {A B E} (f : A → result E B) l l' : traverse f l = Ok l' → length l' = length l.
Proof. intros H%traverse_Ok. symmetry. by eapply Forall2_length. Qed.

Lemma traverse_image {A B E} (f : A → result E B) l l' b :
  traverse f l = Ok l' → b ∈ l' → ∃ a, f a = Ok b.
Proof.
  intros H%traverse_Ok [i Hi]%list_elem_of_lookup.
  destruct (Forall2_lookup_r _ _ _ _ _ H Hi) as (a & _ & Ha). eauto.
Qed.

Lemma decode_value_typed v a : decode_attempt_value v = Ok a → attempt_typed a.
Proof.
  unfold decode_attempt_value. intros H. apply bind_Ok in H as (b & _ & H%map_err_Ok).
  by apply decode_attempt_typed in H as [? _].
Qed.

Lemma encode_catalog_Ok c b :
  encode_disposable_attempt_catalog c = Ok b ↔
  ∃ active tombstones,
    validate_catalog c = Ok () ∧ traverse encode_reservation (cd_active c) = Ok active ∧
    traverse encode_attempt_value (cd_tombstones c) = Ok tombstones ∧
    catalog_to_vec (mkCatalogWire (cd_schema_version c) (cd_revision c) active tombstones) = Some b ∧
    len b ≤ MAX_DISPOSABLE_ATTEMPT_CATALOG_DOCUMENT_BYTES.
Proof.
  unfold encode_disposable_attempt_catalog. split.
  - intros H. apply bind_Ok in H as ([] & Hv%map_err_Ok & H). apply bind_Ok in H as (act & Ha & H).
    apply bind_Ok in H as (ts & Ht & H). apply bind_Ok in H as (b' & Hb%ok_or_Ok & H).
    apply ok_guard in H as [Hl [= <-]]. bprop. eauto 10.
  - intros (act & ts & -> & -> & -> & Hb & Hl). simpl. rewrite Hb. simpl. by rewrite (proj2 (N.ltb_ge _ _)).
Qed.

Lemma encode_decode_catalog c b :
  catalog_typed c → encode_disposable_attempt_catalog c = Ok b → decode_disposable_attempt_catalog b = Ok c.
Proof.
  intros [Hrev Hatt Hres Htmpl] Henc.
  pose proof Henc as (act & ts & Hv & Ha & Ht & Hb & Hl)%encode_catalog_Ok.
  pose proof Hv as Hok%validate_catalog_iff. destruct (catalog_reads _ _ Hb) as [Hfrom Hver].
  unfold decode_disposable_attempt_catalog. rewrite (proj2 (N.ltb_ge _ _)), Hver, Hfrom by done. simpl.
  rewrite (co_schema _ (co_counts _ Hok)). simpl.
  rewrite !(proj2 (Nat.ltb_ge _ _)); [|by rewrite (traverse_length _ _ _ Ht); apply Hok
                                      |by rewrite (traverse_length _ _ _ Ha); apply Hok].
  simpl. rewrite Hrev. simpl.
  rewrite (traverse_back encode_reservation decode_reservation
    (λ r, attempt_typed (dr_attempt r) ∧ resources_ok (dr_resources r) ∧
      accepted PreparedTemplateIdentity_parse (dr_prepared_template_identity r)) (cd_active c) act).
  2:{ intros r w (? & ? & ?). by apply reservation_round_trip. }
  2:{ intros r Hr. split_and!; auto. apply Hatt. unfold catalog_attempts. apply elem_of_app. left.
      by apply list_elem_of_fmap_2. }
  2:{ done. }
  simpl. rewrite (traverse_back encode_attempt_value decode_attempt_value attempt_typed (cd_tombstones c) ts).
  2:{ intros a w. apply attempt_value_round_trip. }
  2:{ intros a Hin. apply Hatt. unfold catalog_attempts. apply elem_of_app. by right. }
  2:{ done. }
  simpl. rewrite <-(co_schema _ (co_counts _ Hok)).
  assert (mkCatalog (cd_schema_version c) (cd_revision c) (cd_active c) (cd_tombstones c) = c) as ->
    by (by destruct c).
  rewrite Hv. simpl. rewrite Henc. simpl. by rewrite bool_decide_eq_false_2 by auto.
Qed.

Lemma decode_encode_catalog c b :
  decode_disposable_attempt_catalog b = Ok c →
  catalog_typed c ∧ encode_disposable_attempt_catalog c = Ok b.
Proof.
  unfold decode_disposable_attempt_catalog. intros H. apply ok_guard in H as [_ H].
  apply bind_Ok in H as (ver & _ & H). apply ok_guard in H as [_ H]. apply bind_Ok in H as (w & _ & H).
  apply ok_guard in H as [_ H]. apply bind_Ok in H as (rev & Hrev & H). apply bind_Ok in H as (act & Ha & H).
  apply bind_Ok in H as (ts & Ht & H). apply bind_Ok in H as ([] & Hv & H).
  apply bind_Ok in H as (canonical & Henc & H). apply ok_guard in H as [Heq [= <-]]. bprop. subst.
  split; [|done]. apply newtype_iff in Hrev as [Hrev _]; [|apply _].
  assert (∀ r, r ∈ act → attempt_typed (dr_attempt r) ∧ resources_ok (dr_resources r) ∧
    accepted PreparedTemplateIdentity_parse (dr_prepared_template_identity r)) as Hact.
  { intros r Hr. destruct (traverse_image _ _ _ _ Ha Hr) as [x Hx]. unfold decode_reservation in Hx.
    apply bind_Ok in Hx as (a & Hatt%decode_value_typed & Hx).
    apply bind_Ok in Hx as (res & [-> Hres]%map_err_Ok%WorkerResources_new_Ok & Hx).
    apply bind_Ok in Hx as (t & [Htmpl _]%newtype_iff & [= <-]); [|apply _].
    split_and!; [done|by apply WorkerResources_new_Ok|done]. }
  split; simpl; [done| |intros r Hr; by apply Hact..].
  intros a [(r & -> & Hr)%list_elem_of_fmap|Hin]%elem_of_app; [by apply Hact|].
  destruct (traverse_image _ _ _ _ Ht Hin) as [x Hx]. by apply decode_value_typed in Hx.
Qed.
End round_trip.

(** Text and catalog determine each other: the durable text a typed
    catalog encodes to is the only one that decodes to it, and decoding yields
    typed catalogs only; members in another order, other white space or any
    other text of the same content are refused. *)
Theorem catalog_round_trip `{LAWS : CatalogSerdeLaws} (c : DisposableAttemptCatalogDocument) (b : bytes) :
  decode_disposable_attempt_catalog b = Ok c ↔
  catalog_typed c ∧ encode_disposable_attempt_catalog c = Ok b.
Proof.
  split; [apply decode_encode_catalog|]. intros [Hty H]. by apply encode_decode_catalog.
Qed.

(** ** Types are kept *)

(** The evidence an action carries is of its type. *)
Definition action_typed (action : DisposableAttemptCatalogAction) : Prop :=
  match action with
  | RecordRegistration runner | RecordRunnerReady runner => accepted ScaleSetRunnerId_new (rr_id runner)
  | RecordAssigned job_id => accepted ScaleSetJobId_parse job_id
  | RecordRunning runner job_id =>
      accepted ScaleSetRunnerId_new (rr_id runner) ∧ accepted ScaleSetJobId_parse job_id
  | RecordTerminal runner job_id job_result =>
      (∀ r, runner = Some r → accepted ScaleSetRunnerId_new (rr_id r)) ∧
      accepted ScaleSetJobId_parse job_id ∧ accepted ScaleSetJobResult_parse job_result
  | _ => True
  end.

Lemma accepted_Some {E A} (new : A → result E A) a : accepted new a → accepted_option new (Some a).
Proof. by intros H ? [= <-]. Qed.

Lemma accepted_None {E A} (new : A → result E A) : accepted_option new None.
Proof. by intros ?. Qed.

#[local] Hint Resolve accepted_Some accepted_None : core.

Lemma next_accepted r r' : AttemptRevision_next r = Ok r' → accepted AttemptRevision_new r'.
Proof.
  intros [-> Hmax]%AttemptRevision_next_Ok. unfold accepted, AttemptRevision_new.
  rewrite (proj2 (in_range_true 1 _ _)); [done|lia].
Qed.

Lemma advance_typed s phase runner_id job_id job_result s' :
  attempt_typed s → advance_with s phase runner_id job_id job_result = Ok s' →
  accepted_option ScaleSetRunnerId_new runner_id → accepted_option ScaleSetJobId_parse job_id →
  accepted_option ScaleSetJobResult_parse job_result → attempt_typed s'.
Proof.
  intros [] H ? ? ?. unfold advance_with in H. apply bind_Ok in H as (r & Hr%next_accepted & H).
  apply bind_Ok in H as ([] & _ & [= <-]). by split.
Qed.

(** [typed_case Hty H] closes a branch [H] that returned the record or an
    advanced one. *)
Ltac typed_case Hty H :=
  lazymatch type of H with
  | Ok _ = Ok _ => injection H as <-; exact Hty
  | advance_with _ _ _ _ _ = Ok _ => eapply advance_typed; [exact Hty|exact H|..]; destruct Hty; auto
  end.

Lemma checkpoint_typed s set s' :
  (r ← AttemptRevision_next (at_revision s); _ ← validate (set r s); Ok (set r s)) = Ok s' →
  (∀ r, accepted AttemptRevision_new r → attempt_typed (set r s)) → attempt_typed s'.
Proof.
  intros H Hset. apply bind_Ok in H as (r & Hr%next_accepted & H).
  apply bind_Ok in H as ([] & _ & [= <-]). by apply Hset.
Qed.

Lemma advance_phase_typed s expected phase s' :
  attempt_typed s → advance_phase s expected phase = Ok s' → attempt_typed s'.
Proof. intros Hty H. unfold advance_phase in H. apply ok_guard in H as [_ H]. typed_case Hty H. Qed.

Lemma record_typed s action s' :
  attempt_typed s → action_typed action → transition s action = Ok s' →
  match action with
  | RecordRegistration _ | RecordRunnerReady _ | RecordAssigned _ | RecordRunning _ _ => attempt_typed s'
  | _ => True
  end.
Proof.
  intros Hty Ha H. destruct action; try done; simpl in H, Ha.
  - unfold record_registration in H. do 2 (apply ok_guard in H as [_ H]).
    apply bind_Ok in H as (id & (-> & _ & _)%validate_runner_Ok & H). case_bool_decide; typed_case Hty H.
  - unfold record_runner_ready in H. apply bind_Ok in H as (id & (-> & _ & _)%validate_runner_Ok & H).
    apply ok_guard in H as [_ H]. inv_ok H; typed_case Hty H.
  - unfold record_assigned in H. apply bind_Ok in H as ([] & _ & H). inv_ok H; typed_case Hty H.
  - unfold record_running in H. destruct Ha as [Har Haj].
    apply bind_Ok in H as (id & (-> & _ & _)%validate_runner_Ok & H). apply ok_guard in H as [_ H].
    apply bind_Ok in H as ([] & _ & H).
    inv_ok H; try typed_case Hty H; unfold record_running_late in H; inv_ok H; typed_case Hty H.
Qed.

Lemma record_terminal_typed s runner job job_result s' :
  attempt_typed s → action_typed (RecordTerminal runner job job_result) →
  record_terminal s runner job job_result = Ok s' → attempt_typed s'.
Proof.
  intros Hty (Hr & Hj & Hres) H. unfold record_terminal in H. apply bind_Ok in H as (oid & Hoid & H).
  assert (accepted_option ScaleSetRunnerId_new oid) as Ho.
  { destruct runner as [r|]; simpl in Hoid; [|injection Hoid as <-; auto].
    apply bind_Ok in Hoid as (id & (-> & _ & _)%validate_runner_Ok & [= <-]). auto. }
  apply bind_Ok in H as ([] & _ & H). apply ok_guard in H as [_ H].
  destruct (at_result s); [case_match; [|done]; typed_case Hty H|].
  unfold record_terminal_new in H. do 3 (apply ok_guard in H as [_ H]).
  apply bind_Ok in H as (id & Hid & H). eapply advance_typed; [exact Hty|exact H| |auto..].
  destruct Hty as [_ _ _ _ _ _ _ Hrun _ _ _]. destruct (at_runner_id s), oid; inv_ok Hid; by injection Hid as <-.
Qed.

(** A typed action takes a typed record to a typed record. *)
Lemma transition_typed s action s' :
  attempt_typed s → action_typed action → transition s action = Ok s' → attempt_typed s'.
Proof.
  intros Hty Ha H. pose proof (record_typed _ _ _ Hty Ha H) as Hrec.
  destruct action; try exact Hrec; clear Hrec; simpl in H.
  - done.
  - apply (advance_phase_typed _ _ _ _ Hty H).
  - apply (advance_phase_typed _ _ _ _ Hty H).
  - unfold begin_unprovisioned_release in H. inv_ok H; typed_case Hty H.
  - unfold complete_unprovisioned in H. inv_ok H; typed_case Hty H.
  - apply (advance_phase_typed _ _ _ _ Hty H).
  - unfold record_jit_generation_started in H. apply ok_guard in H as [_ H].
    case_match; [typed_case Hty H|]. eapply checkpoint_typed; [exact H|]. intros r Hr. by destruct Hty.
  - unfold record_runner_start_started in H. apply ok_guard in H as [_ H].
    case_match; [typed_case Hty H|]. eapply checkpoint_typed; [exact H|]. intros r Hr. by destruct Hty.
  - apply (record_terminal_typed _ _ _ _ _ Hty Ha H).
  - unfold begin_cleanup in H. inv_ok H; typed_case Hty H.
  - unfold advance_cleanup in H. case_bool_decide; [typed_case Hty H|]. apply ok_guard in H as [_ H].
    typed_case Hty H.
Qed.

Lemma bind_typed s identity s' :
  attempt_typed s → accepted DisposableVmIdentity_parse identity →
  bind_vm_identity_after_clone s identity = Ok s' → attempt_typed s'.
Proof.
  intros Hty Hid H. unfold bind_vm_identity_after_clone in H. apply ok_guard in H as [_ H].
  eapply (checkpoint_typed _ (λ r, set_vm_identity r identity)); [exact H|].
  intros r Hr. destruct Hty. split; simpl; auto.
Qed.

(** ** The program's typed steps *)

(** [catalog_step] with the arguments that the types of the program allow. *)
Inductive typed_step (c c' : DisposableAttemptCatalogDocument) : Prop :=
| typed_reserve attempt_id claim vm name request not_after cpu memory disk resources template r :
    accepted DisposableAttemptId_parse attempt_id → accepted CapacityClaimId_parse claim →
    accepted DisposableVmId_parse vm → accepted ScaleSetRunnerName_parse name →
    accepted ScaleSetRunnerRequestId_new request → accepted EpochMillis_new not_after →
    WorkerResources_new cpu memory disk = Ok resources →
    accepted PreparedTemplateIdentity_parse template →
    Reservation_new (reserved attempt_id claim vm name request not_after) resources template = Ok r →
    catalog_reserve c r = Ok c' → typed_step c c'
| typed_transition id rev action :
    action_typed action → replace_attempt c id rev action = Ok c' → typed_step c c'
| typed_bind id rev identity :
    accepted DisposableVmIdentity_parse identity → catalog_bind_vm_identity c id rev identity = Ok c' →
    typed_step c c'
| typed_retire id rev : catalog_retire_complete c id rev = Ok c' → typed_step c c'.

Lemma typed_step_step c c' : typed_step c c' → catalog_step c c'.
Proof.
  intros [????????????? ? ? ? ? ? Hw ? Hr H|id rev action _ H|id rev identity _ H|id rev H].
  - by eapply step_reserve.
  - by eapply step_transition.
  - by eapply step_bind.
  - by eapply step_retire.
Qed.

Lemma revision_accepted r :
  1 ≤ r → r ≤ MAX_DISPOSABLE_ATTEMPT_CATALOG_REVISION → accepted CatalogRevision_new r.
Proof. intros H1 H2. unfold accepted, CatalogRevision_new. by rewrite (proj2 (in_range_true 1 _ r)). Qed.

Lemma written_typed c i cur s c' :
  catalog_wf c → catalog_typed c → cd_active c !! i = Some cur → attempt_typed s →
  record_successor c cur s = Ok c' → catalog_typed c'.
Proof.
  intros Hwf [Hrev Hatt Hres Htmpl] Hi Hs (-> & Hmax & _)%(record_successor_Ok _ i); [|done..]. split; simpl.
  - apply revision_accepted; lia.
  - intros a. rewrite written_attempts by done. intros [j Hj]%list_elem_of_lookup.
    apply list_lookup_insert_Some in Hj as [(_ & <- & _)|[_ Hj]]; [done|]. by eapply Hatt, list_elem_of_lookup_2.
  - intros r [j Hj]%list_elem_of_lookup.
    apply list_lookup_insert_Some in Hj as [(_ & <- & _)|[_ Hj]]; simpl; eapply Hres, list_elem_of_lookup_2; done.
  - intros r [j Hj]%list_elem_of_lookup.
    apply list_lookup_insert_Some in Hj as [(_ & <- & _)|[_ Hj]]; simpl; eapply Htmpl, list_elem_of_lookup_2; done.
Qed.

Lemma active_typed c i cur :
  catalog_typed c → cd_active c !! i = Some cur → attempt_typed (dr_attempt cur).
Proof. intros Hty Hi. eapply Hty, list_elem_of_lookup_2. by apply active_attempt. Qed.

Lemma step_typed c c' : catalog_wf c → catalog_typed c → typed_step c c' → catalog_typed c'.
Proof.
  intros Hwf Hty Hstep. pose proof (proj1 (step_effect _ _ Hwf (typed_step_step _ _ Hstep))) as Hwf'.
  destruct Hstep as [aid claim vm name req t cpu mem disk w tmpl r Ha Hc Hv Hn Hq Ht Hw Htm Hr H
    |id rev action Ha H|id rev identity Hid H|id rev H].
  - assert (reservation_ok r ∧ attempt_typed (dr_attempt r) ∧
      accepted PreparedTemplateIdentity_parse (dr_prepared_template_identity r)) as (Hok & Hr1 & Hr2).
    { unfold Reservation_new in Hr. apply ok_guard in Hr as [_ [= <-]]. split_and!; [|split; simpl; auto; done|done].
      split; simpl; [done|done|apply reserved_valid|].
      apply WorkerResources_new_Ok in Hw as [-> Hw]. by apply WorkerResources_new_Ok. }
    apply reserve_result in H as [->|[_ ->]]; [done| |done..]. destruct Hty as [Hrev Hatt Hres Htmpl].
    split; simpl.
    + apply revision_accepted; [lia|apply Hwf'].
    + intros a. rewrite reserve_attempts. intros [->|?]%elem_of_cons; auto.
    + intros x [?| ->%list_elem_of_singleton]%elem_of_app; [auto|apply Hok].
    + intros x [?| ->%list_elem_of_singleton]%elem_of_app; auto.
  - apply replace_result in H as [->|(i & cur & s & Hi & Htr & _ & H)]; [done| |done].
    eapply (written_typed c i cur s); [done..| |done]. eapply transition_typed; [|done..].
    by eapply active_typed.
  - apply bind_result in H as (i & cur & s & Hi & Hb & H); [|done].
    eapply (written_typed c i cur s); [done..| |done]. eapply bind_typed; [|done..].
    by eapply active_typed.
  - apply retire_result in H as (i & cur & Hi & _ & _ & ->); [|done]. destruct Hty as [Hrev Hatt Hres Htmpl].
    assert (∀ r, r ∈ delete i (cd_active c) → r ∈ cd_active c) as Hsub.
    { intros r Hr. by eapply elem_of_submseteq; [|apply sublist_submseteq, sublist_delete]. }
    split; simpl; [apply revision_accepted; [lia|apply Hwf']| |by auto..].
    intros a Hin. apply Hatt. by eapply elem_of_submseteq; [|eapply retired_attempts].
Qed.

Lemma typed_chain c :
  rtc typed_step empty_catalog c → catalog_typed c.
Proof.
  assert (catalog_typed empty_catalog) as H0.
  { split; [done|..]; intros x Hx; by apply elem_of_nil in Hx. }
  intros H. revert H0. pose proof empty_catalog_wf as Hwf. revert Hwf.
  induction H as [|c1 c2 c3 H _ IH]; [done|]. intros Hwf Hty. apply IH; [|by eapply step_typed].
  by apply (step_effect c1), typed_step_step.
Qed.

(** (C35) The types of the program are invariants of its data, also behind the
    codec: every catalog that typed operations build from the empty one has
    fields of their types only, and whatever text it is written as reads back as
    that catalog. *)
Theorem catalog_types_kept `{LAWS : CatalogSerdeLaws} (c : DisposableAttemptCatalogDocument)
    (H : rtc typed_step empty_catalog c) :
  catalog_typed c ∧
  ∀ b, encode_disposable_attempt_catalog c = Ok b → decode_disposable_attempt_catalog b = Ok c.
Proof.
  pose proof (typed_chain _ H) as Hty. split; [done|]. intros b. by apply encode_decode_catalog.
Qed.

(** ** The theorems with a concrete serializer *)

(** A text of zeros and ones. *)
Fixpoint bits_of (p : positive) : bytes :=
  match p with
  | xH => []
  | xO p => "0"%char :: bits_of p
  | xI p => "1"%char :: bits_of p
  end.

Fixpoint pos_of (b : bytes) : option positive :=
  match b with
  | [] => Some xH
  | c :: b => if Ascii.eqb c "0"%char then xO <$> pos_of b
              else if Ascii.eqb c "1"%char then xI <$> pos_of b else None
  end.

Lemma pos_of_bits p : pos_of (bits_of p) = Some p.
Proof. induction p as [p IH|p IH|]; simpl; by rewrite ?IH. Qed.

Definition text_of {A} `{Countable A} (a : A) : bytes := bits_of (encode a).
Definition read_text {A} `{Countable A} (b : bytes) : option A := pos_of b ≫= decode.

Lemma read_text_of {A} `{Countable A} (a : A) : read_text (text_of a) = Some a.
Proof. unfold read_text, text_of. rewrite pos_of_bits. apply decode_encode. Qed.

#[export] Instance attempt_wire_eq_dec : EqDecision OwnedAttemptWire.
Proof. solve_decision. Defined.

(** A field of a struct; the flat list of fields keeps the text short. *)
Definition field : Type := string + N.

Definition field_option_string (o : option string) : field := match o with Some s => inl s | None => inr 0 end.
Definition field_option_N (o : option N) : field := match o with Some n => inr (n + 1) | None => inr 0 end.
Definition field_bool (b : bool) : field := inr (if b then 1 else 0).

Definition option_string_of (f : field) : option string := match f with inl s => Some s | inr _ => None end.
Definition option_N_of (f : field) : option N :=
  match f with inr n => if n =? 0 then None else Some (n - 1) | inl _ => None end.
Definition bool_of (f : field) : bool := match f with inr n => n =? 1 | inl _ => false end.

Definition attempt_fields (w : OwnedAttemptWire) : list field :=
  [inr (aw_schema_version w); inr (aw_revision w); inl (aw_attempt_id w); inl (aw_capacity_claim_id w);
   inl (aw_vm_id w); field_option_string (aw_vm_identity_digest w); inl (aw_runner_name w);
   inr (aw_runner_request_id w); field_option_N (aw_runner_id w); field_bool (aw_jit_generation_started w);
   field_bool (aw_runner_start_started w); inl (aw_phase w); field_option_string (aw_github_job_id w);
   field_option_string (aw_result w); inr (aw_not_after w)].

Definition attempt_of_fields (l : list field) : option OwnedAttemptWire :=
  match l with
  | [inr v; inr r; inl a; inl c; inl m; i; inl n; inr q; d; j; s; inl p; b; t; inr e] =>
      Some (mkAttemptWire v r a c m (option_string_of i) n q (option_N_of d) (bool_of j) (bool_of s) p
              (option_string_of b) (option_string_of t) e)
  | _ => None
  end.

Lemma option_N_field o : option_N_of (field_option_N o) = o.
Proof.
  destruct o as [n|]; simpl; [|done]. destruct (N.eqb_spec (n + 1) 0); [lia|]. f_equal. lia.
Qed.

Lemma option_string_field o : option_string_of (field_option_string o) = o.
Proof. by destruct o. Qed.

Lemma bool_field b : bool_of (field_bool b) = b.
Proof. by destruct b. Qed.

#[export] Instance attempt_wire_countable : Countable OwnedAttemptWire.
Proof.
  refine (inj_countable attempt_fields attempt_of_fields _).
  intros [v r a c m i n q d j s p b t e]. unfold attempt_fields, attempt_of_fields. cbn [aw_schema_version aw_revision aw_attempt_id
    aw_capacity_claim_id aw_vm_id aw_vm_identity_digest aw_runner_name aw_runner_request_id aw_runner_id
    aw_jit_generation_started aw_runner_start_started aw_phase aw_github_job_id aw_result aw_not_after].
  by rewrite option_N_field, !option_string_field, !bool_field.
Defined.

#[export] Instance resource_wire_eq_dec : EqDecision ResourceWire.
Proof. solve_decision. Defined.

#[export] Instance reservation_wire_eq_dec : EqDecision (ReservationWire OwnedAttemptWire).
Proof. solve_decision. Defined.

#[export] Instance reservation_wire_countable : Countable (ReservationWire OwnedAttemptWire).
Proof.
  refine (inj_countable'
    (λ w, (rv_attempt w, (rv_prepared_template_digest w, (rw_cpu_millis (rv_resources w),
           (rw_memory_bytes (rv_resources w), rw_disk_bytes (rv_resources w))))))
    (λ t, let '(a, (p, (c, (m, d)))) := t in mkReservationWire a (mkResourceWire c m d) p) _).
  by intros [? [] ?].
Defined.

#[export] Instance catalog_wire_eq_dec : EqDecision (CatalogWire OwnedAttemptWire).
Proof. solve_decision. Defined.

#[export] Instance catalog_wire_countable : Countable (CatalogWire OwnedAttemptWire).
Proof.
  refine (inj_countable' (λ w, (cw_active w, (cw_tombstones w, (cw_schema_version w, cw_revision w))))
    (λ t, let '(a, (ts, (v, r))) := t in mkCatalogWire v r a ts) _).
  by intros [].
Defined.

Definition binary_serde : CatalogSerde := {|
  Value := OwnedAttemptWire;
  attempt_to_vec w := Some (text_of w);
  attempt_from_slice := read_text;
  attempt_version_from_slice b := aw_schema_version <$> read_text b;
  value_to_vec w := Some (text_of w);
  value_from_slice := read_text;
  catalog_to_vec w := Some (text_of w);
  catalog_from_slice := read_text;
  catalog_version_from_slice b := cw_schema_version <$> read_text (A := CatalogWire OwnedAttemptWire) b;
|}.

Lemma binary_serde_laws : CatalogSerdeLaws (SERDE := binary_serde).
Proof.
  split; simpl.
  - intros w b [= <-]. by rewrite read_text_of.
  - intros w b [= <-]. exists w, (text_of w). by rewrite read_text_of.
  - intros w b [= <-]. by rewrite read_text_of.
Qed.

Definition typed_catalog : DisposableAttemptCatalogDocument :=
  mkCatalog 7 2 [mkAttemptReservation sample_reserved sample_worker sample_identity] [].

Definition encoded_catalog : bytes :=
  match encode_disposable_attempt_catalog (SERDE := binary_serde) typed_catalog with
  | Ok b => b
  | _ => []
  end.

Lemma typed_reserves : rtc typed_step empty_catalog typed_catalog.
Proof.
  apply rtc_once. by eapply (typed_reserve _ _ "attempt-1" "claim-1" "vm-1" "glaeda-1" 7 5000 2000 4096 8192
    sample_worker sample_identity).
Qed.

Lemma catalog_types_kept_witness :
  decode_disposable_attempt_catalog (SERDE := binary_serde) encoded_catalog = Ok typed_catalog.
Proof.
  apply (catalog_types_kept (LAWS := binary_serde_laws) typed_catalog typed_reserves).
  vm_compute. reflexivity.
Defined.

Lemma catalog_round_trip_witness :
  encode_disposable_attempt_catalog (SERDE := binary_serde) typed_catalog = Ok encoded_catalog.
Proof.
  apply (catalog_round_trip (LAWS := binary_serde_laws)). vm_compute. reflexivity.
Defined.
