(* ===== verification/ScaleSetDelivery.v ===== *)
(** * Deliveries of a runner scale set

    [src/src/github_scale_set_delivery.rs]: the durable form of one message of
    the service, its validation, the typed events it retains and its canonical
    text, with the response types of [src/src/github_scale_set_bridge.rs] it is
    made from.  [serde_json] is a parameter ([DeliverySerde]). *)

From S2P Require Import Prelude Artifact ExecutionAdmission ScaleSetProtocol AttemptState.
From S2P Require Import WorkerReconciler AttemptCatalog AttemptCodec.

Local Open Scope N_scope.

Definition SCALE_SET_DELIVERY_SCHEMA_VERSION : N := 1.
Definition MAX_SCALE_SET_DELIVERY_BYTES : N := 128 * 1024.
Definition MAX_SCALE_SET_DELIVERY_EVENTS : nat := 50.
Definition MAX_SCALE_SET_DELIVERY_LABELS : nat := 32.
Definition MAX_TOKEN_BYTES : N := 100.

(** ** Errors *)

Inductive ScaleSetDeliveryErrorKind :=
| DeliveryInvalidDocument
| DeliveryVersionIncompatible
| DeliveryDocumentTooLarge
| DeliveryNonCanonical
| DeliveryCorruptEvidence.

Record ScaleSetDeliveryError := mkDeliveryError {
  sde_kind : ScaleSetDeliveryErrorKind;
  sde_message : string;
}.

Definition delivery_error := mkDeliveryError.

Definition corrupt_evidence (message : string) : ScaleSetDeliveryError :=
  delivery_error DeliveryCorruptEvidence message.

(** ** Responses of the bridge *)

Record ScaleSetStatistics := mkStatistics {
  st_available_jobs : N;
  st_acquired_jobs : N;
  st_assigned_jobs : N;
  st_running_jobs : N;
  st_registered_runners : N;
  st_busy_runners : N;
  st_idle_runners : N;
}.

Record ScaleSetBridgeJobEvidence := mkBridgeJob {
  bj_runner_request_id : N;
  bj_repository : string;
  bj_owner : string;
  bj_job_id : ScaleSetJobId;
  bj_workflow_run_id : N;
  bj_request_labels : list string;
}.

Inductive ScaleSetBridgeEvent :=
| BridgeAvailable (job : ScaleSetBridgeJobEvidence)
| BridgeAssigned (job : ScaleSetBridgeJobEvidence)
| BridgeStarted (job : ScaleSetBridgeJobEvidence) (runner : ScaleSetRunnerReference)
| BridgeCompleted (job : ScaleSetBridgeJobEvidence) (runner : option ScaleSetRunnerReference)
    (job_result : ScaleSetJobResult).

Inductive ScaleSetBridgePoll :=
| PollIdle (statistics : ScaleSetStatistics)
| PollMessage (message_id : N) (statistics : ScaleSetStatistics) (events : list ScaleSetBridgeEvent).

(** ** The document *)

Record ScaleSetDeliveryStatistics := mkDeliveryStatistics {
  ds_available_jobs : N;
  ds_acquired_jobs : N;
  ds_assigned_jobs : N;
  ds_running_jobs : N;
  ds_registered_runners : N;
  ds_busy_runners : N;
  ds_idle_runners : N;
}.

#[export] Instance delivery_statistics_eq_dec : EqDecision ScaleSetDeliveryStatistics.
Proof. solve_decision. Defined.

Record ScaleSetDeliveryJob := mkDeliveryJob {
  dj_runner_request_id : N;
  dj_repository : string;
  dj_owner : string;
  dj_job_id : string;
  dj_workflow_run_id : N;
  dj_request_labels : list string;
}.

#[export] Instance delivery_job_eq_dec : EqDecision ScaleSetDeliveryJob.
Proof. solve_decision. Defined.

Record ScaleSetDeliveryRunner := mkDeliveryRunner {
  dn_id : N;
  dn_name : string;
}.

#[export] Instance delivery_runner_eq_dec : EqDecision ScaleSetDeliveryRunner.
Proof. solve_decision. Defined.

Inductive ScaleSetDeliveryEvent :=
| DeliveryAvailable (job : ScaleSetDeliveryJob)
| DeliveryAssigned (job : ScaleSetDeliveryJob)
| DeliveryStarted (job : ScaleSetDeliveryJob) (runner : ScaleSetDeliveryRunner)
| DeliveryCompleted (job : ScaleSetDeliveryJob) (runner : option ScaleSetDeliveryRunner)
    (job_result : string).

#[export] Instance delivery_event_eq_dec : EqDecision ScaleSetDeliveryEvent.
Proof. solve_decision. Defined.

Record ScaleSetDelivery := mkDelivery {
  dl_schema_version : N;
  dl_message_id : N;
  dl_statistics : ScaleSetDeliveryStatistics;
  dl_available_request_ids : list N;
  dl_events : list ScaleSetDeliveryEvent;
}.

#[export] Instance delivery_eq_dec : EqDecision ScaleSetDelivery.
Proof. solve_decision. Defined.

(** ** Typed evidence *)

Record ScaleSetDeliveryJobEvidence := mkJobEvidence {
  je_runner_request_id : ScaleSetRunnerRequestId;
  je_repository : string;
  je_owner : string;
  je_job_id : ScaleSetJobId;
  je_workflow_run_id : N;
  je_request_labels : list string;
}.

#[export] Instance job_evidence_eq_dec : EqDecision ScaleSetDeliveryJobEvidence.
Proof. solve_decision. Defined.

Inductive ScaleSetDeliveryLifecycleEvent :=
| LifecycleAvailable (job : ScaleSetDeliveryJobEvidence)
| LifecycleAssigned (job : ScaleSetDeliveryJobEvidence)
| LifecycleStarted (job : ScaleSetDeliveryJobEvidence) (runner : ScaleSetRunnerReference)
| LifecycleCompleted (job : ScaleSetDeliveryJobEvidence) (runner : option ScaleSetRunnerReference)
    (job_result : ScaleSetJobResult).

(** ** Validation *)

Definition parse_runner_request_id (value : N) : result ScaleSetDeliveryError ScaleSetRunnerRequestId :=
  map_err (λ _, corrupt_evidence "Scale Set runner request identity is invalid")
    (ScaleSetRunnerRequestId_new value).

Definition bounded_token (value : string) (maximum : N) : bool :=
  negb (str_is_empty value) && (str_len value <=? maximum) && bytes_all (byte_in 33 126) value.

Definition statistics_validate (self : ScaleSetDeliveryStatistics) : result ScaleSetDeliveryError () :=
  classified ← ok_or (checked_add u32_max (ds_busy_runners self) (ds_idle_runners self))
    (corrupt_evidence "Scale Set runner statistics overflow");
  if (ds_assigned_jobs self <? ds_running_jobs self)
     || (ds_registered_runners self <? ds_busy_runners self)
     || (ds_registered_runners self <? ds_idle_runners self)
     || (ds_registered_runners self <? classified)
  then Err (corrupt_evidence "Scale Set delivery statistics are inconsistent")
  else Ok ().

Definition job_identity (job_id : string) : result ScaleSetDeliveryError ScaleSetJobId :=
  map_err (λ _, corrupt_evidence "Scale Set job identity is invalid") (ScaleSetJobId_parse job_id).

Definition job_validate (self : ScaleSetDeliveryJob) : result ScaleSetDeliveryError () :=
  _ ← parse_runner_request_id (dj_runner_request_id self);
  _ ← job_identity (dj_job_id self);
  if (dj_workflow_run_id self =? 0)
     || negb (bounded_token (dj_repository self) MAX_TOKEN_BYTES)
     || negb (bounded_token (dj_owner self) MAX_TOKEN_BYTES)
     || (MAX_SCALE_SET_DELIVERY_LABELS <? length (dj_request_labels self))%nat
     || existsb (λ label, negb (bounded_token label MAX_TOKEN_BYTES)) (dj_request_labels self)
  then Err (corrupt_evidence "Scale Set job evidence is invalid")
  else Ok ().

Definition runner_number (id : N) : result ScaleSetDeliveryError ScaleSetRunnerId :=
  map_err (λ _, corrupt_evidence "Scale Set runner ID is invalid") (ScaleSetRunnerId_new id).

Definition runner_name_of (name : string) : result ScaleSetDeliveryError ScaleSetRunnerName :=
  map_err (λ _, corrupt_evidence "Scale Set runner name is invalid") (ScaleSetRunnerName_parse name).

Definition runner_validate (self : ScaleSetDeliveryRunner) : result ScaleSetDeliveryError () :=
  _ ← runner_number (dn_id self);
  _ ← runner_name_of (dn_name self);
  Ok ().

Definition completion_result (job_result : string) : result ScaleSetDeliveryError ScaleSetJobResult :=
  map_err (λ _, corrupt_evidence "Scale Set completion result is invalid")
    (ScaleSetJobResult_parse job_result).

Definition event_validate (self : ScaleSetDeliveryEvent) : result ScaleSetDeliveryError () :=
  match self with
  | DeliveryAvailable job | DeliveryAssigned job => job_validate job
  | DeliveryStarted job runner =>
      _ ← job_validate job;
      runner_validate runner
  | DeliveryCompleted job runner job_result =>
      _ ← job_validate job;
      parsed ← completion_result job_result;
      match runner with
      | Some runner =>
          _ ← runner_validate runner;
          Ok ()
      | None =>
          if negb (String.eqb parsed "canceled")
          then Err (corrupt_evidence "runnerless completion must be an exact cancellation")
          else Ok ()
      end
  end.

(** The loop over the events: [expected_available] and [seen_available]. *)
Definition available_step (state : list N * gset N) (event : ScaleSetDeliveryEvent)
    : result ScaleSetDeliveryError (list N * gset N) :=
  let '(expected_available, seen_available) := state in
  _ ← event_validate event;
  match event with
  | DeliveryAvailable job =>
      request_id ← parse_runner_request_id (dj_runner_request_id job);
      if bool_decide (request_id ∈ seen_available)
      then Err (corrupt_evidence "Scale Set delivery repeats an available runner request")
      else Ok (expected_available ++ [dj_runner_request_id job], {[request_id]} ∪ seen_available)
  | _ => Ok state
  end.

(** [ScaleSetDelivery::available_request_ids]. *)
Definition available_request_ids (self : ScaleSetDelivery)
    : result ScaleSetDeliveryError (list ScaleSetRunnerRequestId) :=
  traverse parse_runner_request_id (dl_available_request_ids self).

Definition delivery_validate (self : ScaleSetDelivery) : result ScaleSetDeliveryError () :=
  if negb (dl_schema_version self =? SCALE_SET_DELIVERY_SCHEMA_VERSION)
     || (dl_message_id self =? 0)
     || (MAX_SCALE_SET_DELIVERY_EVENTS <? length (dl_events self))%nat
     || (MAX_SCALE_SET_DELIVERY_EVENTS <? length (dl_available_request_ids self))%nat
  then Err (corrupt_evidence "Scale Set delivery metadata is invalid")
  else
    _ ← statistics_validate (dl_statistics self);
    state ← fold_result available_step ([], ∅) (dl_events self);
    if bool_decide (state.1 ≠ dl_available_request_ids self)
    then Err (corrupt_evidence "available runner requests differ from the retained message events")
    else
      _ ← available_request_ids self;
      Ok ().

(** ** From the bridge *)

Definition statistics_from_bridge (statistics : ScaleSetStatistics) : ScaleSetDeliveryStatistics :=
  mkDeliveryStatistics (st_available_jobs statistics) (st_acquired_jobs statistics)
    (st_assigned_jobs statistics) (st_running_jobs statistics) (st_registered_runners statistics)
    (st_busy_runners statistics) (st_idle_runners statistics).

Definition job_from_bridge (job : ScaleSetBridgeJobEvidence) : ScaleSetDeliveryJob :=
  mkDeliveryJob (bj_runner_request_id job) (bj_repository job) (bj_owner job) (bj_job_id job)
    (bj_workflow_run_id job) (bj_request_labels job).

Definition runner_from_bridge (runner : ScaleSetRunnerReference) : ScaleSetDeliveryRunner :=
  mkDeliveryRunner (rr_id runner) (rr_name runner).

Definition event_from_bridge (event : ScaleSetBridgeEvent) : ScaleSetDeliveryEvent :=
  match event with
  | BridgeAvailable job => DeliveryAvailable (job_from_bridge job)
  | BridgeAssigned job => DeliveryAssigned (job_from_bridge job)
  | BridgeStarted job runner => DeliveryStarted (job_from_bridge job) (runner_from_bridge runner)
  | BridgeCompleted job runner job_result =>
      DeliveryCompleted (job_from_bridge job) (runner_from_bridge <$> runner) job_result
  end.

(** The request an event makes available. *)
Definition available_request (event : ScaleSetDeliveryEvent) : option N :=
  match event with
  | DeliveryAvailable job => Some (dj_runner_request_id job)
  | _ => None
  end.

Definition from_bridge_poll (poll : ScaleSetBridgePoll)
    : result ScaleSetDeliveryError (option ScaleSetDelivery) :=
  match poll with
  | PollIdle _ => Ok None
  | PollMessage message_id statistics events =>
      let retained := event_from_bridge <$> events in
      let delivery := mkDelivery SCALE_SET_DELIVERY_SCHEMA_VERSION message_id
        (statistics_from_bridge statistics) (omap available_request retained) retained in
      _ ← delivery_validate delivery;
      Ok (Some delivery)
  end.

(** ** Typed events *)

Definition to_job_evidence (self : ScaleSetDeliveryJob)
    : result ScaleSetDeliveryError ScaleSetDeliveryJobEvidence :=
  _ ← job_validate self;
  runner_request_id ← parse_runner_request_id (dj_runner_request_id self);
  job_id ← job_identity (dj_job_id self);
  Ok (mkJobEvidence runner_request_id (dj_repository self) (dj_owner self) job_id
        (dj_workflow_run_id self) (dj_request_labels self)).

Definition to_runner_reference (self : ScaleSetDeliveryRunner)
    : result ScaleSetDeliveryError ScaleSetRunnerReference :=
  _ ← runner_validate self;
  id ← runner_number (dn_id self);
  name ← runner_name_of (dn_name self);
  Ok (mkRunner id name).

Definition to_lifecycle_event (self : ScaleSetDeliveryEvent)
    : result ScaleSetDeliveryError ScaleSetDeliveryLifecycleEvent :=
  _ ← event_validate self;
  match self with
  | DeliveryAvailable job => job ← to_job_evidence job; Ok (LifecycleAvailable job)
  | DeliveryAssigned job => job ← to_job_evidence job; Ok (LifecycleAssigned job)
  | DeliveryStarted job runner =>
      job ← to_job_evidence job;
      runner ← to_runner_reference runner;
      Ok (LifecycleStarted job runner)
  | DeliveryCompleted job runner job_result =>
      job ← to_job_evidence job;
      runner ← traverse_option to_runner_reference runner;
      job_result ← completion_result job_result;
      Ok (LifecycleCompleted job runner job_result)
  end.

Definition retained_events (self : ScaleSetDelivery)
    : result ScaleSetDeliveryError (list ScaleSetDeliveryLifecycleEvent) :=
  _ ← delivery_validate self;
  traverse to_lifecycle_event (dl_events self).

(** ** Canonical text *)

Class DeliverySerde := {
  delivery_to_vec : ScaleSetDelivery → option bytes;
  delivery_from_slice : bytes → option ScaleSetDelivery;
  delivery_version_from_slice : bytes → option N;
}.

Section codec.
Context `{DSERDE : DeliverySerde}.

Definition encode_scale_set_delivery (delivery : ScaleSetDelivery) : result ScaleSetDeliveryError bytes :=
  _ ← delivery_validate delivery;
  b ← ok_or (delivery_to_vec delivery)
    (delivery_error DeliveryInvalidDocument "Scale Set delivery cannot encode");
  if MAX_SCALE_SET_DELIVERY_BYTES <? len b
  then Err (delivery_error DeliveryDocumentTooLarge "Scale Set delivery exceeds the reviewed byte limit")
  else Ok b.

Definition decode_scale_set_delivery (b : bytes) : result ScaleSetDeliveryError ScaleSetDelivery :=
  if MAX_SCALE_SET_DELIVERY_BYTES <? len b
  then Err (delivery_error DeliveryDocumentTooLarge "Scale Set delivery exceeds the reviewed byte limit")
  else
    version ← ok_or (delivery_version_from_slice b)
      (delivery_error DeliveryInvalidDocument "Scale Set delivery JSON is invalid");
    if negb (version =? SCALE_SET_DELIVERY_SCHEMA_VERSION)
    then Err (delivery_error DeliveryVersionIncompatible "Scale Set delivery schema version is unsupported")
    else
      delivery ← ok_or (delivery_from_slice b)
        (delivery_error DeliveryInvalidDocument "Scale Set delivery JSON is invalid");
      _ ← delivery_validate delivery;
      encoded ← encode_scale_set_delivery delivery;
      if bool_decide (encoded ≠ b)
      then Err (delivery_error DeliveryNonCanonical "Scale Set delivery is not in canonical JSON form")
      else Ok delivery.
End codec.
