(* ===== verification/DeliveryConsumer.v ===== *)
(** * Applying deliveries to the catalog

    [src/src/github_scale_set_delivery_consumer.rs]: which catalog a delivery
    of the scale set makes of the current one, given the enrolled policy, and
    how a later delivery resolves an ambiguous acquisition.  The lookups by
    request are those of [src/src/disposable_attempt_catalog_job_lookup.rs].
    SHA-256 is a parameter ([Sha256Hasher]). *)

From S2P Require Import Prelude SortBy Artifact ExecutionAdmission ScaleSetProtocol AttemptState.
From S2P Require Import WorkerReconciler AttemptCatalog AttemptCodec ScaleSetDelivery.

Local Open Scope N_scope.

Definition ATTEMPT_IDENTITY_DOMAIN : string := "smolrunner.scale-set-delivery-attempt.v1" +:+ String "000" EmptyString.
Definition MAX_REPOSITORY_COMPONENT_BYTES : N := 100.
Definition MAX_LABELS : nat := 32.
Definition DISPOSABLE_JOB_MAX_MILLIS : N := 6 * 60 * 60 * 1000.
Definition DISPOSABLE_LIMA_VM_ID_HEX_CHARS : nat := 24.

Record ScaleSetDeliveryConsumerError := mkConsumerError { sce_code : string }.
Definition consumer_error := mkConsumerError.
Definition invalid_policy : ScaleSetDeliveryConsumerError := consumer_error "delivery_consumer_policy_invalid".

(** ** Lookups by request *)

Definition find_active_by_runner_request_id (self : DisposableAttemptCatalogDocument)
    (request_id : ScaleSetRunnerRequestId) : option DisposableAttemptReservation :=
  List.find (λ r, at_runner_request_id (dr_attempt r) =? request_id) (cd_active self).

Definition find_tombstone_by_runner_request_id (self : DisposableAttemptCatalogDocument)
    (request_id : ScaleSetRunnerRequestId) : option DisposableAttemptState :=
  List.find (λ a, at_runner_request_id a =? request_id) (cd_tombstones self).

(** ** The policy *)

Record ScaleSetDeliveryConsumerPolicy := mkConsumerPolicy {
  po_scale_set_id : N;
  po_repository : string;
  po_owner : string;
  po_request_labels : list string;
  po_resources : DisposableWorkerResources;
  po_prepared_template_identity : DisposablePreparedTemplateIdentity;
}.

(** [labels.sort()]. *)
Definition sort_labels (labels : list string) : list string := sort_by String.compare labels.

(** [labels.windows(2).any(|pair| pair[0] == pair[1])]. *)
Fixpoint adjacent_equal (labels : list string) : bool :=
  match labels with
  | a :: (b :: _) as rest => String.eqb a b || adjacent_equal rest
  | _ => false
  end.

Definition policy_new_with_identity (scale_set_id : N) (repository owner : string)
    (request_labels : list string) (resources : DisposableWorkerResources)
    (prepared_template_identity : DisposablePreparedTemplateIdentity)
    : result ScaleSetDeliveryConsumerError ScaleSetDeliveryConsumerPolicy :=
  if (scale_set_id =? 0)
     || negb (bounded_token repository MAX_REPOSITORY_COMPONENT_BYTES)
     || negb (bounded_token owner MAX_REPOSITORY_COMPONENT_BYTES)
     || (length request_labels =? 0)%nat
     || (MAX_LABELS <? length request_labels)%nat
  then Err invalid_policy
  else
    let labels := sort_labels request_labels in
    if existsb (λ label, negb (bounded_token label MAX_REPOSITORY_COMPONENT_BYTES)) labels
       || adjacent_equal labels
    then Err invalid_policy
    else Ok (mkConsumerPolicy scale_set_id repository owner labels resources prepared_template_identity).

Definition policy_new_owned_linux := policy_new_with_identity.

(** ** Derived identities *)

(** [u32::to_be_bytes] and [u64::to_be_bytes], by their width. *)
Fixpoint be_bytes (width : nat) (value : N) : bytes :=
  match width with
  | O => []
  | S width => be_bytes width (value / 256) ++ [ascii_of_N (value mod 256)]
  end.

(** The lower-hex form of a SHA-256 digest. *)
Class Sha256Hasher := sha256_digest_hex : bytes → string.

Definition str_bytes (s : string) : bytes := String.list_ascii_of_string s.

Definition hash_field (value : bytes) : bytes := be_bytes 8 (N.min (len value) u64_max) ++ value.

(** [&digest[..n]], which panics beyond the end. *)
Definition str_prefix {E} (n : nat) (s : string) : result E string :=
  if (n <=? String.length s)%nat then Ok (String.substring 0 n s) else Panic.

Record DerivedIdentities := mkDerived {
  di_attempt_id : DisposableAttemptId;
  di_claim_id : CapacityClaimId;
  di_vm_id : DisposableVmId;
  di_runner_name : ScaleSetRunnerName;
}.

(** The bytes that are hashed. *)
Definition identity_bytes (policy : ScaleSetDeliveryConsumerPolicy) (job : ScaleSetDeliveryJobEvidence) : bytes :=
  str_bytes ATTEMPT_IDENTITY_DOMAIN
  ++ hash_field (be_bytes 4 (po_scale_set_id policy))
  ++ hash_field (be_bytes 4 (wr_cpu_millis (po_resources policy)))
  ++ hash_field (be_bytes 8 (wr_memory_bytes (po_resources policy)))
  ++ hash_field (be_bytes 8 (wr_disk_bytes (po_resources policy)))
  ++ hash_field (str_bytes (po_prepared_template_identity policy))
  ++ hash_field (be_bytes 8 (je_runner_request_id job))
  ++ hash_field (str_bytes (je_repository job))
  ++ hash_field (str_bytes (je_owner job))
  ++ hash_field (str_bytes (je_job_id job))
  ++ hash_field (be_bytes 8 (je_workflow_run_id job))
  ++ concat ((λ label, hash_field (str_bytes label)) <$> sort_labels (je_request_labels job)).

Section consumer.
Context `{HASHER : Sha256Hasher}.

Definition derive_identities (policy : ScaleSetDeliveryConsumerPolicy) (job : ScaleSetDeliveryJobEvidence)
    : result ScaleSetDeliveryConsumerError DerivedIdentities :=
  let invalid {E} (_ : E) := consumer_error "delivery_consumer_identity_invalid" in
  let digest := sha256_digest_hex (identity_bytes policy job) in
  short ← str_prefix 32 digest;
  vm_short ← str_prefix DISPOSABLE_LIMA_VM_ID_HEX_CHARS digest;
  attempt_id ← map_err invalid (DisposableAttemptId_parse ("attempt-" +:+ short));
  claim_id ← map_err invalid (CapacityClaimId_parse ("claim-" +:+ digest));
  vm_id ← map_err invalid (DisposableVmId_parse ("w-" +:+ vm_short));
  runner_name ← map_err invalid (ScaleSetRunnerName_parse ("smolrunner-" +:+ short));
  Ok (mkDerived attempt_id claim_id vm_id runner_name).

(** ** Checks *)

Definition consumer_validate_job (policy : ScaleSetDeliveryConsumerPolicy)
    (job : ScaleSetDeliveryJobEvidence) : result ScaleSetDeliveryConsumerError () :=
  if bool_decide (je_repository job ≠ po_repository policy)
     || bool_decide (je_owner job ≠ po_owner policy)
     || bool_decide (sort_labels (je_request_labels job) ≠ po_request_labels policy)
  then Err (consumer_error "delivery_consumer_job_not_enrolled")
  else Ok ().

Definition consumer_validate_attempt (attempt : DisposableAttemptState)
    (job : ScaleSetDeliveryJobEvidence) (identities : DerivedIdentities)
    : result ScaleSetDeliveryConsumerError () :=
  if bool_decide (at_attempt_id attempt ≠ di_attempt_id identities)
     || bool_decide (at_capacity_claim_id attempt ≠ di_claim_id identities)
     || bool_decide (at_vm_id attempt ≠ di_vm_id identities)
     || bool_decide (at_runner_name attempt ≠ di_runner_name identities)
     || negb (at_runner_request_id attempt =? je_runner_request_id job)
     || is_some_and (λ job_id, bool_decide (job_id ≠ je_job_id job)) (at_github_job_id attempt)
  then Err (consumer_error "delivery_consumer_identity_drift")
  else Ok ().

Definition consumer_validate_reservation (policy : ScaleSetDeliveryConsumerPolicy)
    (reservation : DisposableAttemptReservation) (job : ScaleSetDeliveryJobEvidence)
    (identities : DerivedIdentities) : result ScaleSetDeliveryConsumerError () :=
  _ ← consumer_validate_attempt (dr_attempt reservation) job identities;
  if bool_decide (dr_resources reservation ≠ po_resources policy)
     || bool_decide (dr_prepared_template_identity reservation ≠ po_prepared_template_identity policy)
  then Err (consumer_error "delivery_consumer_identity_drift")
  else Ok ().

Definition event_job (event : ScaleSetDeliveryLifecycleEvent) : ScaleSetDeliveryJobEvidence :=
  match event with
  | LifecycleAvailable job | LifecycleAssigned job | LifecycleStarted job _
  | LifecycleCompleted job _ _ => job
  end.

Definition delivery_event_action (event : ScaleSetDeliveryLifecycleEvent)
    : result ScaleSetDeliveryConsumerError DisposableAttemptCatalogAction :=
  match event with
  | LifecycleAssigned job => Ok (RecordAssigned (je_job_id job))
  | LifecycleStarted job runner => Ok (RecordRunning runner (je_job_id job))
  | LifecycleCompleted job runner job_result => Ok (RecordTerminal runner (je_job_id job) job_result)
  | LifecycleAvailable _ => Err (consumer_error "delivery_consumer_event_invalid")
  end.

(** [attempt.runner_id() == Some(runner.id) && attempt.runner_name() == &runner.name]. *)
Definition names_runner (attempt : DisposableAttemptState) (runner : ScaleSetRunnerReference) : bool :=
  bool_decide (at_runner_id attempt = Some (rr_id runner))
  && bool_decide (at_runner_name attempt = rr_name runner).

Definition validate_tombstone_event (attempt : DisposableAttemptState)
    (event : ScaleSetDeliveryLifecycleEvent) : result ScaleSetDeliveryConsumerError () :=
  let valid :=
    match event with
    | LifecycleAvailable _ => true
    | LifecycleAssigned job => bool_decide (at_github_job_id attempt = Some (je_job_id job))
    | LifecycleStarted job runner =>
        bool_decide (at_github_job_id attempt = Some (je_job_id job)) && names_runner attempt runner
    | LifecycleCompleted job runner job_result =>
        (bool_decide (at_github_job_id attempt = Some (je_job_id job))
         && bool_decide (at_result attempt = Some job_result)
         && is_none_or (names_runner attempt) runner)
        || (bool_decide (at_phase attempt = PhaseComplete)
            && negb (is_some (at_github_job_id attempt))
            && negb (is_some (at_result attempt))
            && negb (is_some runner)
            && String.eqb job_result "canceled")
    end in
  if valid then Ok () else Err (consumer_error "delivery_consumer_event_conflict").

(** [Completed { runner: None, result, .. } if result.as_str() == "canceled"]. *)
Definition is_runnerless_cancellation (event : ScaleSetDeliveryLifecycleEvent) : bool :=
  match event with
  | LifecycleCompleted _ None job_result => String.eqb job_result "canceled"
  | _ => false
  end.

Definition is_unbound_runnerless_cancellation (event : ScaleSetDeliveryLifecycleEvent)
    (attempt : DisposableAttemptState) : bool :=
  negb (is_some (at_github_job_id attempt)) && is_runnerless_cancellation event.

Definition attempt_not_after (observed_at : EpochMillis)
    : result ScaleSetDeliveryConsumerError EpochMillis :=
  ok_or (checked_add u64_max observed_at DISPOSABLE_JOB_MAX_MILLIS ≫= λ value, ok (EpochMillis_new value))
    (consumer_error "delivery_consumer_deadline_invalid").

(** ** Operations *)

Definition event_conflict {E} (_ : E) : ScaleSetDeliveryConsumerError :=
  consumer_error "delivery_consumer_event_conflict".

Definition consumer_attempt_missing : ScaleSetDeliveryConsumerError :=
  consumer_error "delivery_consumer_attempt_missing".

Definition retire_unprovisioned_cancellation (catalog : DisposableAttemptCatalogDocument)
    (reservation : DisposableAttemptReservation)
    : result ScaleSetDeliveryConsumerError DisposableAttemptCatalogDocument :=
  let attempt_id := at_attempt_id (dr_attempt reservation) in
  releasing ← map_err event_conflict
    (replace_attempt catalog attempt_id (at_revision (dr_attempt reservation)) BeginUnprovisionedRelease);
  releasing_attempt ← ok_or (find_active releasing attempt_id) consumer_attempt_missing;
  complete ← map_err event_conflict
    (replace_attempt releasing attempt_id (at_revision (dr_attempt releasing_attempt)) CompleteUnprovisioned);
  complete_attempt ← ok_or (find_active complete attempt_id) consumer_attempt_missing;
  map_err event_conflict
    (catalog_retire_complete complete attempt_id (at_revision (dr_attempt complete_attempt))).

(** Apply the action of [event] to an active attempt. *)
Definition apply_event (catalog : DisposableAttemptCatalogDocument)
    (existing : DisposableAttemptReservation) (event : ScaleSetDeliveryLifecycleEvent)
    : result ScaleSetDeliveryConsumerError DisposableAttemptCatalogDocument :=
  action ← delivery_event_action event;
  map_err event_conflict
    (replace_attempt catalog (at_attempt_id (dr_attempt existing)) (at_revision (dr_attempt existing)) action).

(** The arm of [Available] and [Assigned]. *)
Definition reconcile_offer (policy : ScaleSetDeliveryConsumerPolicy)
    (event : ScaleSetDeliveryLifecycleEvent) (catalog : DisposableAttemptCatalogDocument)
    (observed_at : EpochMillis) (identities : DerivedIdentities) (available : bool)
    : result ScaleSetDeliveryConsumerError DisposableAttemptCatalogDocument :=
  let job := event_job event in
  not_after ← attempt_not_after observed_at;
  match find_active_by_runner_request_id catalog (je_runner_request_id job) with
  | Some existing =>
      _ ← consumer_validate_reservation policy existing job identities;
      if available
         || (bool_decide (at_phase (dr_attempt existing) = PhaseReserved)
             && negb (is_some (at_github_job_id (dr_attempt existing))))
      then
        if negb (at_not_after (dr_attempt existing) =? not_after)
        then Err (consumer_error "delivery_consumer_identity_drift")
        else Ok catalog
      else apply_event catalog existing event
  | None =>
      match find_tombstone_by_runner_request_id catalog (je_runner_request_id job) with
      | Some existing =>
          _ ← consumer_validate_attempt existing job identities;
          if available && negb (at_not_after existing =? not_after)
          then Err (consumer_error "delivery_consumer_identity_drift")
          else
            _ ← validate_tombstone_event existing event;
            Ok catalog
      | None =>
          usage ← map_err (λ _, consumer_error "delivery_consumer_catalog_invalid") (host_usage catalog);
          if negb (hu_workers usage =? 0)
          then Err (consumer_error "delivery_consumer_capacity_unavailable")
          else
            reservation ← map_err (λ _, consumer_error "delivery_consumer_reservation_invalid")
              (Reservation_new
                 (reserved (di_attempt_id identities) (di_claim_id identities) (di_vm_id identities)
                    (di_runner_name identities) (je_runner_request_id job) not_after)
                 (po_resources policy) (po_prepared_template_identity policy));
            map_err (λ _, consumer_error "delivery_consumer_reservation_failed")
              (catalog_reserve catalog reservation)
      end
  end.

(** The arm of an unbound cancellation without a runner. *)
Definition reconcile_cancellation (catalog : DisposableAttemptCatalogDocument)
    (existing : DisposableAttemptReservation)
    : result ScaleSetDeliveryConsumerError DisposableAttemptCatalogDocument :=
  let begin_cleanup := map_err event_conflict
    (replace_attempt catalog (at_attempt_id (dr_attempt existing)) (at_revision (dr_attempt existing))
       BeginCleanup) in
  match at_phase (dr_attempt existing) with
  | PhaseReserved | PhaseCloneAuthorized => retire_unprovisioned_cancellation catalog existing
  | PhaseCloneStarted =>
      if negb (is_some (at_vm_identity (dr_attempt existing))) then Ok catalog else begin_cleanup
  | PhaseRegistering | PhaseWaiting => begin_cleanup
  | PhaseDestroying | PhaseDeregistering | PhaseReleasing | PhaseUnprovisionedReleasing
  | PhaseComplete => Ok catalog
  | PhaseProvisioning | PhaseAssigned | PhaseRunning | PhaseTerminal =>
      Err (consumer_error "delivery_consumer_event_conflict")
  end.

(** The arm of [Started] and [Completed]. *)
Definition reconcile_progress (policy : ScaleSetDeliveryConsumerPolicy)
    (event : ScaleSetDeliveryLifecycleEvent) (catalog : DisposableAttemptCatalogDocument)
    (identities : DerivedIdentities)
    : result ScaleSetDeliveryConsumerError DisposableAttemptCatalogDocument :=
  let job := event_job event in
  match find_active_by_runner_request_id catalog (je_runner_request_id job) with
  | Some existing =>
      _ ← consumer_validate_reservation policy existing job identities;
      if is_unbound_runnerless_cancellation event (dr_attempt existing)
      then reconcile_cancellation catalog existing
      else apply_event catalog existing event
  | None =>
      match find_tombstone_by_runner_request_id catalog (je_runner_request_id job) with
      | Some existing =>
          _ ← consumer_validate_attempt existing job identities;
          _ ← validate_tombstone_event existing event;
          Ok catalog
      | None => Err consumer_attempt_missing
      end
  end.

Definition reconcile_event (policy : ScaleSetDeliveryConsumerPolicy)
    (event : ScaleSetDeliveryLifecycleEvent) (catalog : DisposableAttemptCatalogDocument)
    (observed_at : EpochMillis)
    : result ScaleSetDeliveryConsumerError DisposableAttemptCatalogDocument :=
  let job := event_job event in
  _ ← consumer_validate_job policy job;
  identities ← derive_identities policy job;
  match event with
  | LifecycleAvailable _ => reconcile_offer policy event catalog observed_at identities true
  | LifecycleAssigned _ => reconcile_offer policy event catalog observed_at identities false
  | _ => reconcile_progress policy event catalog identities
  end.

Definition evidence_invalid {E} (_ : E) : ScaleSetDeliveryConsumerError :=
  consumer_error "delivery_consumer_evidence_invalid".

Definition reconcile_scale_set_delivery (policy : ScaleSetDeliveryConsumerPolicy)
    (delivery : ScaleSetDelivery) (catalog : DisposableAttemptCatalogDocument)
    (observed_at : EpochMillis)
    : result ScaleSetDeliveryConsumerError DisposableAttemptCatalogDocument :=
  events ← map_err evidence_invalid (retained_events delivery);
  fold_result (λ current event, reconcile_event policy event current observed_at) catalog events.

(** ** Resolving an ambiguous acquisition *)

(** [BTreeSet::into_iter().collect()]. *)
Definition btree_elements (X : gset N) : list N := sort_by N.compare (elements X).

Definition resolution_conflict {E} (_ : E) : ScaleSetDeliveryConsumerError :=
  consumer_error "delivery_consumer_resolution_conflict".

Definition resolution_step (policy : ScaleSetDeliveryConsumerPolicy) (ambiguous : gset N)
    (state : DisposableAttemptCatalogDocument * gset N) (event : ScaleSetDeliveryLifecycleEvent)
    : result ScaleSetDeliveryConsumerError (DisposableAttemptCatalogDocument * gset N) :=
  let '(next, acquired) := state in
  let job := event_job event in
  if negb (bool_decide (je_runner_request_id job ∈ ambiguous)) then Err (resolution_conflict ())
  else
    _ ← consumer_validate_job policy job;
    identities ← derive_identities policy job;
    reservation ← ok_or (find_active_by_runner_request_id next (je_runner_request_id job))
      consumer_attempt_missing;
    _ ← consumer_validate_reservation policy reservation job identities;
    if bool_decide (at_phase (dr_attempt reservation) ≠ PhaseReserved) then Err (resolution_conflict ())
    else
      match event with
      | LifecycleAssigned _ => Ok (next, {[je_runner_request_id job]} ∪ acquired)
      | _ =>
          if is_runnerless_cancellation event
          then
            next ← map_err resolution_conflict (retire_unprovisioned_cancellation next reservation);
            Ok (next, {[je_runner_request_id job]} ∪ acquired)
          else Err (resolution_conflict ())
      end.

Definition reconcile_scale_set_acquisition_resolution (policy : ScaleSetDeliveryConsumerPolicy)
    (ambiguous_requests : list ScaleSetRunnerRequestId) (delivery : ScaleSetDelivery)
    (catalog : DisposableAttemptCatalogDocument)
    : result ScaleSetDeliveryConsumerError
        (DisposableAttemptCatalogDocument * list ScaleSetRunnerRequestId) :=
  let invalid := consumer_error "delivery_consumer_resolution_invalid" in
  empty ←
    (if (length ambiguous_requests =? 0)%nat then Ok false
     else
       available ← map_err evidence_invalid (available_request_ids delivery);
       Ok (length available =? 0)%nat);
  if negb empty then Err invalid
  else
    let ambiguous : gset N := list_to_set ambiguous_requests in
    if negb (size ambiguous =? length ambiguous_requests)%nat then Err invalid
    else
      events ← map_err evidence_invalid (retained_events delivery);
      state ← fold_result (resolution_step policy ambiguous) (catalog, ∅) events;
      let '(next, acquired) := state in
      if (size acquired =? 0)%nat
      then Err (consumer_error "delivery_consumer_resolution_inconclusive")
      else Ok (next, btree_elements acquired).
End consumer.
