(* ===== verification/DeliveryTheorems.v ===== *)
(** * Theorems about deliveries

    What one retained event and one whole delivery do to a catalog with the
    invariant: chains of catalog operations, one new worker at most, and
    nothing when an event is seen again. *)

From S2P Require Import Prelude SortBy Artifact ExecutionAdmission ScaleSetProtocol AttemptState.
From S2P Require Import AttemptLifecycle WorkerReconciler ReconcilerTheorems AttemptCatalog.
From S2P Require Import CatalogDocument CatalogSteps CatalogTheorems AttemptCodec ScaleSetDelivery DeliveryConsumer.

Local Open Scope N_scope.

(** ** Attempts by request *)

Lemma request_ids_nodup c : catalog_wf c → NoDup (at_runner_request_id <$> catalog_attempts c).
Proof. intros Hwf. by destruct (di_request_ids _ _ (co_distinct _ (wf_ok _ Hwf))). Qed.

Lemma request_found c q r :
  find_active_by_runner_request_id c q = Some r →
  ∃ i, cd_active c !! i = Some r ∧ at_runner_request_id (dr_attempt r) = q.
Proof.
  intros [Hin Hq]%find_some. apply N.eqb_eq in Hq.
  apply list_elem_of_In, list_elem_of_lookup in Hin as [i Hi]. eauto.
Qed.

Lemma tombstone_found c q a :
  find_tombstone_by_runner_request_id c q = Some a → a ∈ cd_tombstones c ∧ at_runner_request_id a = q.
Proof. intros [Hin%list_elem_of_In Hq%N.eqb_eq]%find_some. done. Qed.

Lemma find_request_unique {A} (f : A → N) l x :
  NoDup (f <$> l) → x ∈ l → List.find (λ y, f y =? f x) l = Some x.
Proof.
  intros Hnd Hx. destruct (List.find _ l) as [y|] eqn:Hf.
  - apply find_some in Hf as [Hy Hq]. apply N.eqb_eq in Hq. f_equal.
    apply list_elem_of_In in Hy. by apply (NoDup_fmap_inj f l).
  - apply list_elem_of_In in Hx. eapply find_none in Hf; [|exact Hx]. by rewrite N.eqb_refl in Hf.
Qed.

Lemma active_requests_nodup c :
  catalog_wf c → NoDup ((λ r, at_runner_request_id (dr_attempt r)) <$> cd_active c).
Proof.
  intros Hnd%request_ids_nodup. unfold catalog_attempts in Hnd. rewrite fmap_app in Hnd.
  apply NoDup_app in Hnd as [Hnd _]. by rewrite <-list_fmap_compose in Hnd.
Qed.

Lemma request_active c i r :
  catalog_wf c → cd_active c !! i = Some r →
  find_active_by_runner_request_id c (at_runner_request_id (dr_attempt r)) = Some r.
Proof.
  intros Hwf Hi. apply (find_request_unique (λ r, at_runner_request_id (dr_attempt r)));
    [by apply active_requests_nodup|by eapply list_elem_of_lookup_2].
Qed.

Lemma request_tombstone c a :
  catalog_wf c → a ∈ cd_tombstones c →
  find_active_by_runner_request_id c (at_runner_request_id a) = None ∧
  find_tombstone_by_runner_request_id c (at_runner_request_id a) = Some a.
Proof.
  intros Hnd%request_ids_nodup Ha. unfold catalog_attempts in Hnd. rewrite fmap_app in Hnd.
  apply NoDup_app in Hnd as (_ & Hdis & Hnd). split.
  - destruct (find_active_by_runner_request_id c _) as [r|] eqn:Hf; [|done].
    apply request_found in Hf as (i & Hi & Hq). exfalso.
    apply (Hdis (at_runner_request_id a)); [|by apply list_elem_of_fmap_2].
    rewrite <-Hq, <-list_fmap_compose. apply (list_elem_of_fmap_2 (at_runner_request_id ∘ dr_attempt)).
    by eapply list_elem_of_lookup_2.
  - by apply (find_request_unique at_runner_request_id).
Qed.

(** ** Operations at a known position *)

Lemma found_at c i cur :
  catalog_wf c → cd_active c !! i = Some cur → find_active c (at_attempt_id (dr_attempt cur)) = Some cur.
Proof.
  intros Hwf Hi. unfold find_active.
  apply (find_unique (λ r, at_attempt_id (dr_attempt r))); [|by eapply list_elem_of_lookup_2|done].
  by apply attempt_ids_nodup, wf_ok.
Qed.

Lemma on_active_found c i cur k :
  catalog_wf c → cd_active c !! i = Some cur →
  on_active c (at_attempt_id (dr_attempt cur)) (at_revision (dr_attempt cur)) k = k cur.
Proof. intros Hwf Hi. unfold on_active. by rewrite (found_at c i), N.eqb_refl. Qed.

Lemma replace_at c i cur action c' :
  catalog_wf c → cd_active c !! i = Some cur →
  replace_attempt c (at_attempt_id (dr_attempt cur)) (at_revision (dr_attempt cur)) action = Ok c' →
  catalog_wf c' ∧ ∃ s, transition (dr_attempt cur) action = Ok s ∧
    (s = dr_attempt cur ∧ c' = c ∨ s ≠ dr_attempt cur ∧ c' = written c i cur s).
Proof.
  intros Hwf Hi H. pose proof H as H0. rewrite replace_attempt_eq in H by done.
  rewrite (on_active_found c i) in H by done.
  destruct (transition (dr_attempt cur) action) as [s|e|] eqn:Ht; [|done..].
  case_bool_decide as Hs.
  - injection H as <-. split; [done|]. eauto.
  - destruct (write_effect c i cur s c') as [Hwf' _]; eauto using attempt_acts.
    apply (record_successor_Ok c i) in H as (-> & _); [|done..]. eauto 8.
Qed.

Lemma replace_same c i cur action :
  catalog_wf c → cd_active c !! i = Some cur → transition (dr_attempt cur) action = Ok (dr_attempt cur) →
  replace_attempt c (at_attempt_id (dr_attempt cur)) (at_revision (dr_attempt cur)) action = Ok c.
Proof.
  intros Hwf Hi Ht. rewrite replace_attempt_eq, (on_active_found c i) by done. rewrite Ht.
  by rewrite bool_decide_eq_true_2.
Qed.

Lemma written_lookup c i cur s :
  cd_active c !! i = Some cur → cd_active (written c i cur s) !! i = Some (set_attempt cur s).
Proof. intros Hi. simpl. by rewrite list_lookup_insert_eq by (by eapply lookup_lt_Some). Qed.

Lemma retired_tail c cur : ∃ l, retired c cur = l ++ [dr_attempt cur].
Proof.
  unfold retired. case_match; [|eauto]. destruct (cd_tombstones c) as [|x l]; simpl; [|eauto].
  match goal with H : (_ <? _)%nat = true |- _ => by vm_compute in H end.
Qed.

(** ** A cancellation before any machine *)

(** What the attempt is in the end. *)
Record canceled_unprovisioned (a done : DisposableAttemptState) : Prop := {
  cu_key : attempt_key done = attempt_key a;
  cu_phase : at_phase done = PhaseComplete;
  cu_vm : at_vm_identity done = at_vm_identity a;
  cu_runner : at_runner_id done = None;
  cu_job : at_github_job_id done = None;
  cu_result : at_result done = None;
}.

Lemma retire_at c i cur c' :
  catalog_wf c → cd_active c !! i = Some cur →
  catalog_retire_complete c (at_attempt_id (dr_attempt cur)) (at_revision (dr_attempt cur)) = Ok c' →
  catalog_wf c' ∧ at_phase (dr_attempt cur) = PhaseComplete ∧ c' = after_retire c i cur.
Proof.
  intros Hwf Hi H. rewrite retire_complete_eq, (on_active_found c i) in H by done.
  do 2 (apply ok_guard in H as [? H]). injection H as <-. bprop.
  rewrite <-(delete_by_id c i cur (co_distinct _ (wf_ok _ Hwf)) Hi).
  split_and!; [|done..]. by apply (retired_wf c Hwf i).
Qed.

(** Steps that reserve nothing. *)
Inductive catalog_progress (c c' : DisposableAttemptCatalogDocument) : Prop :=
| progress_transition id rev action : replace_attempt c id rev action = Ok c' → catalog_progress c c'
| progress_retire id rev : catalog_retire_complete c id rev = Ok c' → catalog_progress c c'.

Lemma progress_step c c' : catalog_progress c c' → catalog_step c c'.
Proof. intros []; [by eapply step_transition|by eapply step_retire]. Qed.

Lemma delete_inserted {A} (l : list A) (i : nat) x : delete i (<[i := x]> l) = delete i l.
Proof. revert i. induction l as [|y l IH]; intros [|i]; simpl; [done..|]. by rewrite IH. Qed.

Lemma advanced_ne s phase runner_id job_id job_result : advanced s phase runner_id job_id job_result ≠ s.
Proof. intros H%(f_equal at_revision). simpl in H. lia. Qed.

(** A transition that always advances, at a known position. *)
Lemma replace_advanced c i cur action phase c' :
  catalog_wf c → cd_active c !! i = Some cur →
  replace_attempt c (at_attempt_id (dr_attempt cur)) (at_revision (dr_attempt cur)) action = Ok c' →
  (∀ s, transition (dr_attempt cur) action = Ok s → advance_with (dr_attempt cur) phase None None None = Ok s) →
  let next := set_attempt cur (advanced (dr_attempt cur) phase None None None) in
  catalog_wf c' ∧ c' = written c i cur (dr_attempt next) ∧ cd_active c' !! i = Some next ∧
  find_active c' (at_attempt_id (dr_attempt cur)) = Some next.
Proof.
  intros Hwf Hi H Hadv. destruct (replace_at c i cur _ c' Hwf Hi H) as (Hwf' & s & Ht & Hc).
  apply Hadv, advance_with_Ok in Ht as (-> & _).
  destruct Hc as [[Heq _]|[_ ->]]; [by apply advanced_ne in Heq|]. simpl.
  split_and!; [done..|exact (written_lookup c i cur _ Hi)|].
  exact (found_at _ i _ Hwf' (written_lookup c i cur _ Hi)).
Qed.

Lemma retire_unprovisioned_result c i cur c' :
  catalog_wf c → cd_active c !! i = Some cur → retire_unprovisioned_cancellation c cur = Ok c' →
  catalog_wf c' ∧ rtc catalog_progress c c' ∧ ∃ done, canceled_unprovisioned (dr_attempt cur) done ∧
    cd_active c' = delete i (cd_active c) ∧ cd_tombstones c' = retired c (set_attempt cur done).
Proof.
  intros Hwf Hi H. unfold retire_unprovisioned_cancellation in H.
  apply bind_Ok in H as (c1 & H1%map_err_Ok & H).
  apply bind_Ok in H as (r1 & F1%ok_or_Ok & H).
  apply bind_Ok in H as (c2 & H2%map_err_Ok & H).
  apply bind_Ok in H as (r2 & F2%ok_or_Ok & H3%map_err_Ok).
  assert (rtc catalog_progress c c') as Hrun.
  { eapply rtc_l; [by eapply progress_transition|]. eapply rtc_l; [by eapply progress_transition|].
    apply rtc_once. by eapply progress_retire. }
  destruct (replace_advanced c i cur _ PhaseUnprovisionedReleasing c1 Hwf Hi H1) as (Hwf1 & E1 & Hi1 & G1).
  { simpl. unfold begin_unprovisioned_release. intros s Hs. by destruct (at_phase (dr_attempt cur)). }
  assert (r1 = set_attempt cur (advanced (dr_attempt cur) PhaseUnprovisionedReleasing None None None)) as ->
    by congruence.
  destruct (replace_advanced c1 i _ _ PhaseComplete c2 Hwf1 Hi1 H2) as (Hwf2 & E2 & Hi2 & G2).
  { simpl. unfold complete_unprovisioned. done. }
  simpl in G2. assert (r2 = set_attempt cur (advanced (advanced (dr_attempt cur) PhaseUnprovisionedReleasing
    None None None) PhaseComplete None None None)) as -> by (unfold set_attempt in *; simpl in *; congruence).
  destruct (retire_at c2 i _ c' Hwf2 Hi2 H3) as (Hwf3 & _ & ->).
  split_and!; [done..|]. exists (dr_attempt (set_attempt cur (advanced (advanced (dr_attempt cur)
    PhaseUnprovisionedReleasing None None None) PhaseComplete None None None))).
  split; [by split|]. split.
  - rewrite E2, E1. simpl. by rewrite !delete_inserted.
  - rewrite E2, E1. done.
Qed.

(** ** One event *)

Section events.
Context `{HASHER : Sha256Hasher}.
Context (policy : ScaleSetDeliveryConsumerPolicy) (Hpolicy : resources_ok (po_resources policy)).

(** The reservation an offer of [job] makes. *)
Definition offered_reservation (ids : DerivedIdentities) (job : ScaleSetDeliveryJobEvidence)
    (not_after : N) : DisposableAttemptReservation :=
  mkAttemptReservation
    (reserved (di_attempt_id ids) (di_claim_id ids) (di_vm_id ids) (di_runner_name ids)
       (je_runner_request_id job) not_after)
    (po_resources policy) (po_prepared_template_identity policy).

Definition is_offer (event : ScaleSetDeliveryLifecycleEvent) : bool :=
  match event with LifecycleAvailable _ | LifecycleAssigned _ => true | _ => false end.

(** What an event makes of a catalog. *)
Inductive event_outcome (event : ScaleSetDeliveryLifecycleEvent) (ids : DerivedIdentities)
    (t : EpochMillis) (c c' : DisposableAttemptCatalogDocument) : Prop :=
| outcome_same : c' = c → event_outcome event ids t c c'
| outcome_reserved not_after :
    is_offer event = true → open_reservations c = [] → attempt_not_after t = Ok not_after →
    catalog_reserve c (offered_reservation ids (event_job event) not_after) = Ok c' →
    c' = after_reserve c (offered_reservation ids (event_job event) not_after) →
    event_outcome event ids t c c'
| outcome_recorded i cur action s :
    cd_active c !! i = Some cur →
    at_runner_request_id (dr_attempt cur) = je_runner_request_id (event_job event) →
    consumer_validate_reservation policy cur (event_job event) ids = Ok () →
    delivery_event_action event = Ok action →
    replace_attempt c (at_attempt_id (dr_attempt cur)) (at_revision (dr_attempt cur)) action = Ok c' →
    transition (dr_attempt cur) action = Ok s → s ≠ dr_attempt cur → c' = written c i cur s →
    event_outcome event ids t c c'
| outcome_cleanup i cur s :
    cd_active c !! i = Some cur →
    at_runner_request_id (dr_attempt cur) = je_runner_request_id (event_job event) →
    consumer_validate_reservation policy cur (event_job event) ids = Ok () →
    is_unbound_runnerless_cancellation event (dr_attempt cur) = true →
    replace_attempt c (at_attempt_id (dr_attempt cur)) (at_revision (dr_attempt cur)) BeginCleanup = Ok c' →
    transition (dr_attempt cur) BeginCleanup = Ok s → s ≠ dr_attempt cur → c' = written c i cur s →
    event_outcome event ids t c c'
| outcome_canceled i cur done :
    cd_active c !! i = Some cur →
    at_runner_request_id (dr_attempt cur) = je_runner_request_id (event_job event) →
    consumer_validate_reservation policy cur (event_job event) ids = Ok () →
    is_unbound_runnerless_cancellation event (dr_attempt cur) = true →
    rtc catalog_progress c c' → canceled_unprovisioned (dr_attempt cur) done →
    cd_active c' = delete i (cd_active c) → cd_tombstones c' = retired c (set_attempt cur done) →
    event_outcome event ids t c c'.

Lemma host_usage_workers c u :
  catalog_wf c → host_usage c = Ok u → hu_workers u = 0 → open_reservations c = [].
Proof.
  intros Hwf [-> _]%host_usage_Ok Hz; [|apply Hwf]. simpl in Hz.
  destruct (open_reservations c); simpl in Hz; [done|lia].
Qed.

Lemma offered_ok ids job not_after r :
  Reservation_new (reserved (di_attempt_id ids) (di_claim_id ids) (di_vm_id ids) (di_runner_name ids)
    (je_runner_request_id job) not_after) (po_resources policy) (po_prepared_template_identity policy) = Ok r →
  r = offered_reservation ids job not_after ∧ reservation_ok r.
Proof.
  unfold Reservation_new. intros H. apply ok_guard in H as [_ [= <-]]. split; [done|].
  split; simpl; [done|done|apply reserved_valid|done].
Qed.

Lemma apply_event_outcome c event ids t i cur c' :
  catalog_wf c → cd_active c !! i = Some cur →
  at_runner_request_id (dr_attempt cur) = je_runner_request_id (event_job event) →
  consumer_validate_reservation policy cur (event_job event) ids = Ok () →
  apply_event c cur event = Ok c' → catalog_wf c' ∧ event_outcome event ids t c c'.
Proof.
  intros Hwf Hi Hq Hval H. unfold apply_event in H.
  apply bind_Ok in H as (action & Haction & H%map_err_Ok).
  destruct (replace_at c i cur _ c' Hwf Hi H) as (Hwf' & s & Ht & [[_ ->]|[Hne Hc]]); split; try done.
  - by apply outcome_same.
  - by eapply outcome_recorded.
Qed.

Lemma cancellation_outcome c event ids t i cur c' :
  catalog_wf c → cd_active c !! i = Some cur →
  at_runner_request_id (dr_attempt cur) = je_runner_request_id (event_job event) →
  consumer_validate_reservation policy cur (event_job event) ids = Ok () →
  is_unbound_runnerless_cancellation event (dr_attempt cur) = true →
  reconcile_cancellation c cur = Ok c' → catalog_wf c' ∧ event_outcome event ids t c c'.
Proof.
  intros Hwf Hi Hq Hval Hun H. unfold reconcile_cancellation in H.
  assert (replace_attempt c (at_attempt_id (dr_attempt cur)) (at_revision (dr_attempt cur)) BeginCleanup = Ok c' →
    catalog_wf c' ∧ event_outcome event ids t c c') as Hcleanup.
  { intros Hr. destruct (replace_at c i cur _ c' Hwf Hi Hr) as (Hwf' & s & Ht & [[_ ->]|[Hne Hc]]);
      split; try done; [by apply outcome_same|by eapply outcome_cleanup]. }
  assert (retire_unprovisioned_cancellation c cur = Ok c' →
    catalog_wf c' ∧ event_outcome event ids t c c') as Hretire.
  { intros Hr. destruct (retire_unprovisioned_result c i cur c' Hwf Hi Hr) as (Hwf' & Hrun & done' & ? & ? & ?).
    split; [done|]. by eapply outcome_canceled. }
  assert (Ok (E := ScaleSetDeliveryConsumerError) c = Ok c' → catalog_wf c' ∧ event_outcome event ids t c c') as Hsame.
  { intros [= <-]. split; [done|by apply outcome_same]. }
  destruct (at_phase (dr_attempt cur)); try done; auto; try (by apply map_err_Ok in H; auto).
  case_match; auto. apply map_err_Ok in H. auto.
Qed.

Lemma reconcile_offer_outcome c event ids t available c' :
  catalog_wf c → is_offer event = true → reconcile_offer policy event c t ids available = Ok c' →
  catalog_wf c' ∧ event_outcome event ids t c c'.
Proof.
  intros Hwf Hoffer H. unfold reconcile_offer in H.
  apply bind_Ok in H as (not_after & Hdue & H).
  destruct (find_active_by_runner_request_id c _) as [cur|] eqn:Hf.
  { apply request_found in Hf as (i & Hi & Hq). apply bind_Ok in H as ([] & Hval & H). case_match.
    - apply ok_guard in H as [_ [= <-]]. split; [done|by apply outcome_same].
    - by eapply apply_event_outcome. }
  destruct (find_tombstone_by_runner_request_id c _) as [a|] eqn:Ht.
  { apply bind_Ok in H as ([] & _ & H). apply ok_guard in H as [_ H].
    apply bind_Ok in H as ([] & _ & [= <-]). split; [done|by apply outcome_same]. }
  apply bind_Ok in H as (u & Hu%map_err_Ok & H). apply ok_guard in H as [Hz%negb_eqb_false H].
  apply bind_Ok in H as (r & Hr%map_err_Ok & H%map_err_Ok).
  apply offered_ok in Hr as [-> Hok].
  destruct (reserve_result c _ c' Hwf Hok H) as [->|[Hwf' Hc]].
  - split; [done|by apply outcome_same].
  - split; [done|]. eapply outcome_reserved; try done. by eapply host_usage_workers.
Qed.

Lemma reconcile_progress_outcome c event ids t c' :
  catalog_wf c → reconcile_progress policy event c ids = Ok c' →
  catalog_wf c' ∧ event_outcome event ids t c c'.
Proof.
  intros Hwf H. unfold reconcile_progress in H.
  destruct (find_active_by_runner_request_id c _) as [cur|] eqn:Hf.
  { apply request_found in Hf as (i & Hi & Hq). apply bind_Ok in H as ([] & Hval & H). case_match.
    - by eapply cancellation_outcome.
    - by eapply apply_event_outcome. }
  destruct (find_tombstone_by_runner_request_id c _) as [a|] eqn:Ht; [|done].
  do 2 apply bind_Ok in H as ([] & _ & H). injection H as <-. split; [done|by apply outcome_same].
Qed.

Lemma reconcile_event_outcome c event t c' :
  catalog_wf c → reconcile_event policy event c t = Ok c' →
  catalog_wf c' ∧ ∃ ids, consumer_validate_job policy (event_job event) = Ok () ∧
    derive_identities policy (event_job event) = Ok ids ∧ event_outcome event ids t c c'.
Proof.
  intros Hwf H. unfold reconcile_event in H. apply bind_Ok in H as ([] & Hjob & H).
  apply bind_Ok in H as (ids & Hids & H).
  assert (catalog_wf c' ∧ event_outcome event ids t c c') as [Hwf' Hout].
  { destruct event; [by eapply reconcile_offer_outcome..| |]; by eapply reconcile_progress_outcome. }
  eauto.
Qed.
(** ** An event seen again *)

Lemma validate_attempt_again a s job ids :
  consumer_validate_attempt a job ids = Ok () → attempt_key s = attempt_key a →
  is_none_or (λ id, bool_decide (id = je_job_id job)) (at_github_job_id s) = true →
  consumer_validate_attempt s job ids = Ok ().
Proof.
  unfold consumer_validate_attempt. intros H [= _ Hid Hclaim Hvm Hname Hq _] Hjob.
  rewrite Hid, Hclaim, Hvm, Hname, Hq. apply ok_guard in H as [Hg _].
  rewrite !orb_false_iff in Hg. destruct Hg as [Hg _].
  rewrite (proj2 (orb_false_iff _ _)); [done|]. split; [by rewrite !orb_false_iff|].
  destruct (at_github_job_id s); simpl in *; [|done]. bprop. by rewrite bool_decide_eq_false_2 by auto.
Qed.

Lemma validate_reservation_again cur s job ids :
  consumer_validate_reservation policy cur job ids = Ok () → attempt_key s = attempt_key (dr_attempt cur) →
  is_none_or (λ id, bool_decide (id = je_job_id job)) (at_github_job_id s) = true →
  consumer_validate_reservation policy (set_attempt cur s) job ids = Ok ().
Proof.
  unfold consumer_validate_reservation. intros H Hkey Hjob. apply bind_Ok in H as ([] & Hval & H).
  simpl. by rewrite (validate_attempt_again _ _ _ _ Hval Hkey Hjob).
Qed.

Lemma recorded_job event action a s :
  delivery_event_action event = Ok action → transition a action = Ok s →
  at_github_job_id s = Some (je_job_id (event_job event)) ∧ no_replay action = false.
Proof.
  destruct event; simpl; intros [= <-] H; simpl in H; split; try done.
  - by apply assigned_job in H as [? _].
  - by apply running_job in H as (_ & _ & _ & ? & _).
  - by apply terminal_job in H as [? _].
Qed.

(** The attempt of an event, after it was written at [i]. *)
Lemma written_found event ids c i cur s :
  catalog_wf (written c i cur s) → cd_active c !! i = Some cur →
  at_runner_request_id (dr_attempt cur) = je_runner_request_id (event_job event) →
  consumer_validate_reservation policy cur (event_job event) ids = Ok () →
  attempt_key s = attempt_key (dr_attempt cur) →
  is_none_or (λ id, bool_decide (id = je_job_id (event_job event))) (at_github_job_id s) = true →
  find_active_by_runner_request_id (written c i cur s) (je_runner_request_id (event_job event)) =
    Some (set_attempt cur s) ∧
  consumer_validate_reservation policy (set_attempt cur s) (event_job event) ids = Ok ().
Proof.
  intros Hwf' Hi Hq Hval Hkey Hjob. split; [|by apply validate_reservation_again].
  rewrite <-Hq. assert (at_runner_request_id (dr_attempt cur) = at_runner_request_id s) as ->
    by (injection Hkey; congruence).
  exact (request_active _ i _ Hwf' (written_lookup c i cur s Hi)).
Qed.

Lemma recorded_again event ids t c i cur action s :
  catalog_wf c → catalog_wf (written c i cur s) → cd_active c !! i = Some cur →
  at_runner_request_id (dr_attempt cur) = je_runner_request_id (event_job event) →
  consumer_validate_reservation policy cur (event_job event) ids = Ok () →
  delivery_event_action event = Ok action → transition (dr_attempt cur) action = Ok s →
  (is_offer event = true → ∃ n, attempt_not_after t = Ok n) →
  (match event with
   | LifecycleAvailable _ => reconcile_offer policy event (written c i cur s) t ids true
   | LifecycleAssigned _ => reconcile_offer policy event (written c i cur s) t ids false
   | _ => reconcile_progress policy event (written c i cur s) ids
   end) = Ok (written c i cur s).
Proof.
  intros Hwf Hwf' Hi Hq Hval Hact Ht Hdue.
  assert (attempt_key s = attempt_key (dr_attempt cur)) as Hkey.
  { eapply sf_key, attempt_step_facts; [exact (active_valid c i cur Hwf Hi)|by eapply attempt_acts]. }
  destruct (recorded_job _ _ _ _ Hact Ht) as [Hjob Hno].
  destruct (written_found event ids c i cur s) as [Hfound Hval']; try done.
  { rewrite Hjob. simpl. by apply bool_decide_eq_true_2. }
  assert (apply_event (written c i cur s) (set_attempt cur s) event = Ok (written c i cur s)) as Happ.
  { unfold apply_event. rewrite Hact. rsimpl.
    rewrite (replace_same (written c i cur s) i (set_attempt cur s) action);
      [done|done|by apply written_lookup|by eapply record_again]. }
  destruct event; [done|..]; simpl in Hdue.
  - unfold reconcile_offer. destruct (Hdue eq_refl) as [n ->]. rsimpl.
    rewrite Hfound, Hval'. simpl. rewrite Hjob, andb_false_r. done.
  - unfold reconcile_progress. rewrite Hfound, Hval'. simpl. unfold is_unbound_runnerless_cancellation.
    rewrite Hjob. done.
  - unfold reconcile_progress. rewrite Hfound, Hval'. simpl. unfold is_unbound_runnerless_cancellation.
    rewrite Hjob. done.
Qed.
Lemma reserved_again event ids t c n :
  catalog_wf (after_reserve c (offered_reservation ids (event_job event) n)) →
  is_offer event = true → attempt_not_after t = Ok n →
  ∀ available, reconcile_offer policy event (after_reserve c (offered_reservation ids (event_job event) n))
    t ids available = Ok (after_reserve c (offered_reservation ids (event_job event) n)).
Proof.
  intros Hwf' Hoffer Hdue available. unfold reconcile_offer. rewrite Hdue. rsimpl.
  assert (cd_active (after_reserve c (offered_reservation ids (event_job event) n)) !! length (cd_active c) =
    Some (offered_reservation ids (event_job event) n)) as Hi.
  { simpl. by rewrite list_lookup_middle. }
  pose proof (request_active _ _ _ Hwf' Hi) as Hf. change (at_runner_request_id (dr_attempt _))
    with (je_runner_request_id (event_job event)) in Hf. rewrite Hf.
  assert (consumer_validate_reservation policy (offered_reservation ids (event_job event) n)
    (event_job event) ids = Ok ()) as ->.
  { unfold consumer_validate_reservation, consumer_validate_attempt. simpl.
    by rewrite !(bool_decide_eq_false_2 (_ ≠ _)), N.eqb_refl by auto. }
  rsimpl. simpl. by rewrite orb_true_r, N.eqb_refl.
Qed.

Lemma cleanup_again event ids c i cur s :
  catalog_wf c → catalog_wf (written c i cur s) → cd_active c !! i = Some cur →
  at_runner_request_id (dr_attempt cur) = je_runner_request_id (event_job event) →
  consumer_validate_reservation policy cur (event_job event) ids = Ok () →
  is_unbound_runnerless_cancellation event (dr_attempt cur) = true →
  transition (dr_attempt cur) BeginCleanup = Ok s → s ≠ dr_attempt cur →
  reconcile_progress policy event (written c i cur s) ids = Ok (written c i cur s).
Proof.
  intros Hwf Hwf' Hi Hq Hval Hun Ht Hne.
  assert (s = advanced (dr_attempt cur) PhaseDestroying (at_runner_id (dr_attempt cur))
    (at_github_job_id (dr_attempt cur)) (at_result (dr_attempt cur))) as Hs.
  { simpl in Ht. unfold begin_cleanup in Ht.
    destruct (at_phase (dr_attempt cur)); try done; try (by apply advance_with_Ok in Ht as [-> _]);
      by injection Ht as <-. }
  unfold is_unbound_runnerless_cancellation in Hun. apply andb_true_iff in Hun as [Hjob Hcancel].
  destruct (at_github_job_id (dr_attempt cur)) eqn:Hnone; [done|].
  destruct (written_found event ids c i cur s) as [Hfound Hval']; try done; [by rewrite Hs..|].
  unfold reconcile_progress. rewrite Hfound, Hval'. rsimpl. unfold is_unbound_runnerless_cancellation.
  rewrite Hcancel. by rewrite Hs.
Qed.

Lemma canceled_again event ids c' i cur done c :
  catalog_wf c' → at_runner_request_id (dr_attempt cur) = je_runner_request_id (event_job event) →
  consumer_validate_reservation policy cur (event_job event) ids = Ok () →
  is_unbound_runnerless_cancellation event (dr_attempt cur) = true →
  canceled_unprovisioned (dr_attempt cur) done → cd_tombstones c' = retired c (set_attempt cur done) →
  cd_active c' = delete i (cd_active c) →
  reconcile_progress policy event c' ids = Ok c'.
Proof.
  intros Hwf' Hq Hval Hun [Hkey Hphase _ Hrun Hjob Hres] Htomb _.
  unfold consumer_validate_reservation in Hval. apply bind_Ok in Hval as ([] & Hval & _).
  assert (at_runner_request_id (dr_attempt cur) = at_runner_request_id done) as Hreq
    by (injection Hkey; congruence).
  destruct (retired_tail c (set_attempt cur done)) as [l Hl].
  destruct (request_tombstone c' done Hwf') as [Hnone Hsome].
  { rewrite Htomb, Hl. apply elem_of_app. right. by left. }
  unfold reconcile_progress. rewrite <-Hq, Hreq, Hnone, Hsome.
  rewrite (validate_attempt_again _ _ _ _ Hval Hkey) by by rewrite Hjob. rsimpl.
  unfold is_unbound_runnerless_cancellation in Hun. apply andb_true_iff in Hun as [_ Hcancel].
  destruct event as [| | |job [runner|] job_result]; try done. simpl in Hcancel. unfold validate_tombstone_event.
  by rewrite Hphase, Hjob, Hres, Hcancel.
Qed.

Lemma unbound_progress event a :
  is_unbound_runnerless_cancellation event a = true → is_offer event = false.
Proof. intros [_ H]%andb_true_iff. by destruct event. Qed.

(** An event that was applied can be seen again: the catalog it made is
    accepted with the same event and does not change. *)
Theorem event_replay (event : ScaleSetDeliveryLifecycleEvent) (c c' : DisposableAttemptCatalogDocument)
    (t : EpochMillis) (Hc : rtc catalog_step empty_catalog c)
    (H : reconcile_event policy event c t = Ok c') :
  reconcile_event policy event c' t = Ok c'.
Proof.
  pose proof (chain_wf _ _ empty_catalog_wf Hc) as Hwf.
  destruct (reconcile_event_outcome _ _ _ _ Hwf H) as (Hwf' & ids & Hjob & Hids & Hout).
  assert (is_offer event = true → ∃ n, attempt_not_after t = Ok n) as Hdue.
  { intros Hoffer. unfold reconcile_event in H. rewrite Hjob, Hids in H. rsimpl.
    destruct event; try done; unfold reconcile_offer in H; apply bind_Ok in H as (n & ? & _); eauto. }
  unfold reconcile_event. rewrite Hjob, Hids. rsimpl.
  destruct Hout as [->|n Hoffer _ Hn _ ->|i cur action s Hi Hq Hval Hact _ Ht _ ->
    |i cur s Hi Hq Hval Hun _ Ht Hne ->|i cur done' Hi Hq Hval Hun _ Hdone Hact Htomb].
  - unfold reconcile_event in H. by rewrite Hjob, Hids in H.
  - destruct event; try done; by apply reserved_again.
  - by eapply recorded_again.
  - assert (reconcile_progress policy event (written c i cur s) ids = Ok (written c i cur s)) as Hrun
      by by eapply cleanup_again.
    apply unbound_progress in Hun. by destruct event.
  - assert (reconcile_progress policy event c' ids = Ok c') as Hrun by by eapply canceled_again.
    apply unbound_progress in Hun. by destruct event.
Qed.
(** ** A whole delivery *)

(** [r'] is a later state of the worker [r]. *)
Definition same_worker (r r' : DisposableAttemptReservation) : Prop :=
  attempt_key (dr_attempt r') = attempt_key (dr_attempt r) ∧ dr_resources r' = dr_resources r ∧
  dr_prepared_template_identity r' = dr_prepared_template_identity r.

#[local] Instance same_worker_preorder : PreOrder same_worker.
Proof.
  split; [by intros r|]. intros r1 r2 r3 (? & ? & ?) (? & ? & ?). unfold same_worker.
  split_and!; congruence.
Qed.

(** [r] is the worker that [event] asked for. *)
Definition asked_for (t : EpochMillis) (event : ScaleSetDeliveryLifecycleEvent)
    (r : DisposableAttemptReservation) : Prop :=
  is_offer event = true ∧ at_runner_request_id (dr_attempt r) = je_runner_request_id (event_job event) ∧
  dr_resources r = po_resources policy ∧
  dr_prepared_template_identity r = po_prepared_template_identity policy ∧
  attempt_not_after t = Ok (at_not_after (dr_attempt r)).

Lemma asked_for_same t event r r' : asked_for t event r → same_worker r r' → asked_for t event r'.
Proof.
  intros (? & ? & ? & ? & ?) ([= ?? ?? ?? Hdue] & ? & ?). unfold asked_for. rewrite Hdue. split_and!; congruence.
Qed.

Lemma open_length_insert l (i : nat) cur r :
  l !! i = Some cur → (holds_capacity r → holds_capacity cur) →
  (length (filter holds_capacity (<[i := r]> l)) ≤ length (filter holds_capacity l))%nat.
Proof.
  intros (a & b & -> & ->)%list_elem_of_split_length Hopen.
  rewrite insert_app_r_alt, Nat.sub_diag by lia. simpl. rewrite !filter_app, !length_app, !filter_cons.
  repeat case_decide; simpl; auto; lia || tauto.
Qed.

Lemma open_length_delete l (i : nat) cur :
  l !! i = Some cur →
  (length (filter holds_capacity (delete i l)) ≤ length (filter holds_capacity l))%nat.
Proof.
  intros (a & b & -> & ->)%list_elem_of_split_length.
  rewrite delete_middle, !filter_app, !length_app, filter_cons. case_decide; simpl; lia.
Qed.

(** One step of a worker already held. *)
Lemma written_worker c i cur s action :
  catalog_wf c → cd_active c !! i = Some cur → transition (dr_attempt cur) action = Ok s →
  (length (open_reservations (written c i cur s)) ≤ length (open_reservations c))%nat ∧
  ∀ r', r' ∈ cd_active (written c i cur s) → ∃ r, r ∈ cd_active c ∧ same_worker r r'.
Proof.
  intros Hwf Hi Ht.
  assert (step_facts (dr_attempt cur) s) as Hfacts
    by (apply attempt_step_facts; [exact (active_valid c i cur Hwf Hi)|by eapply attempt_acts]).
  split.
  - rewrite !open_reservations_eq. apply (open_length_insert _ _ cur); [done|].
    unfold holds_capacity. simpl. intros Hs Hc. apply Hs. pose proof (sf_phase _ _ Hfacts) as Hrank.
    rewrite Hc in Hrank. by destruct (at_phase s).
  - intros r' [j Hj]%list_elem_of_lookup. simpl in Hj.
    apply list_lookup_insert_Some in Hj as [(<- & <- & _)|[_ Hj]].
    + exists cur. split; [by eapply list_elem_of_lookup_2|]. split; [by apply Hfacts|done].
    + exists r'. split; [by eapply list_elem_of_lookup_2|done].
Qed.

Lemma outcome_facts event ids t c c' :
  catalog_wf c → event_outcome event ids t c c' →
  rtc catalog_step c c' ∧
  (length (open_reservations c') ≤ Nat.max 1 (length (open_reservations c)))%nat ∧
  ∀ r', r' ∈ cd_active c' → (∃ r, r ∈ cd_active c ∧ same_worker r r') ∨ asked_for t event r'.
Proof.
  intros Hwf [->|n Hoffer Hopen Hn Hres ->|i cur action s Hi _ _ _ Hrep Ht _ ->
    |i cur s Hi _ _ _ Hrep Ht _ ->|i cur done' Hi _ _ _ Hrun _ Hact _].
  - split_and!; [done|lia|]. intros r' Hr. left. by exists r'.
  - split_and!.
    + apply rtc_once. eapply step_reserve; [exact Hpolicy| |exact Hres]. done.
    + rewrite open_reservations_eq in Hopen |- *. simpl. rewrite filter_app, Hopen. simpl.
      lia.
    + simpl. intros r' [Hr| ->%list_elem_of_singleton]%elem_of_app; [left; by exists r'|right].
      done.
  - destruct (written_worker c i cur s action Hwf Hi Ht) as [? ?].
    split_and!; [apply rtc_once; by eapply step_transition|lia|by auto].
  - destruct (written_worker c i cur s BeginCleanup Hwf Hi Ht) as [? ?].
    split_and!; [apply rtc_once; by eapply step_transition|lia|by auto].
  - split_and!.
    + by eapply rtc_subrel; [|exact Hrun]; intros ?? ?%progress_step.
    + rewrite !open_reservations_eq, Hact. pose proof (open_length_delete (cd_active c) i cur Hi). lia.
    + rewrite Hact. intros r' Hr. left. exists r'. split; [|done].
      eapply elem_of_sublist; [exact Hr|apply sublist_delete].
Qed.

Lemma events_facts events t c c' :
  catalog_wf c → fold_result (λ current event, reconcile_event policy event current t) c events = Ok c' →
  catalog_wf c' ∧ rtc catalog_step c c' ∧
  (length (open_reservations c') ≤ Nat.max 1 (length (open_reservations c)))%nat ∧
  (∀ event, event ∈ events → consumer_validate_job policy (event_job event) = Ok ()) ∧
  ∀ r', r' ∈ cd_active c' → (∃ r, r ∈ cd_active c ∧ same_worker r r') ∨
    ∃ event, event ∈ events ∧ asked_for t event r'.
Proof.
  revert c. induction events as [|event events IH]; intros c Hwf H; simpl in H.
  { injection H as <-. split_and!; [done..|lia|by intros ? ?%elem_of_nil|].
    intros r' Hr. left. by exists r'. }
  apply bind_Ok in H as (c1 & H1 & H).
  destruct (reconcile_event_outcome _ _ _ _ Hwf H1) as (Hwf1 & ids & Hjob & _ & Hout).
  destruct (outcome_facts _ _ _ _ _ Hwf Hout) as (Hrun1 & Hlen1 & Hfrom1).
  destruct (IH _ Hwf1 H) as (Hwf' & Hrun & Hlen & Hjobs & Hfrom).
  split_and!; [done|by etrans|lia| |].
  - intros e [->|He]%elem_of_cons; auto.
  - intros r' Hr. destruct (Hfrom r' Hr) as [(r1 & Hr1 & Hsame)|(e & He & Hask)].
    + destruct (Hfrom1 r1 Hr1) as [(r & Hr0 & Hsame0)|Hask].
      * left. exists r. split; [done|by etrans].
      * right. exists event. split; [by left|by eapply asked_for_same].
    + right. exists e. split; [by right|done].
Qed.

(** (C25) A delivery that is applied to a catalog of the program makes one of
    the program again: all its jobs are enrolled, it never leads to a second
    worker holding capacity, and every worker in the result was already there
    or is the one an event of the delivery asked for, of the enrolled size and
    template and due six hours after the observation. *)
Theorem delivery_builds_catalog (delivery : ScaleSetDelivery) (events : list ScaleSetDeliveryLifecycleEvent)
    (c c' : DisposableAttemptCatalogDocument) (t : EpochMillis)
    (Hc : rtc catalog_step empty_catalog c) (Hevents : retained_events delivery = Ok events)
    (H : reconcile_scale_set_delivery policy delivery c t = Ok c') :
  rtc catalog_step empty_catalog c' ∧
  (length (open_reservations c') ≤ Nat.max 1 (length (open_reservations c)))%nat ∧
  (∀ event, event ∈ events → consumer_validate_job policy (event_job event) = Ok ()) ∧
  ∀ r', r' ∈ cd_active c' → (∃ r, r ∈ cd_active c ∧ same_worker r r') ∨
    ∃ event, event ∈ events ∧ asked_for t event r'.
Proof.
  unfold reconcile_scale_set_delivery in H. rewrite Hevents in H. simpl in H.
  destruct (events_facts events t c c') as (_ & Hrun & Hrest); [by apply (chain_wf _ _ empty_catalog_wf)|done|].
  split; [by etrans|done].
Qed.
(** ** Resolving an ambiguous acquisition *)

Lemma elem_of_btree x X : x ∈ btree_elements X ↔ x ∈ X.
Proof. unfold btree_elements. rewrite elem_of_sort_by. apply elem_of_elements. Qed.

Lemma btree_sorted X : StronglySorted N.lt (btree_elements X).
Proof.
  pose proof (sort_by_sorted N.compare (elements X)) as Hs.
  assert (NoDup (btree_elements X)) as Hnd.
  { unfold btree_elements. rewrite sort_by_Permutation. apply NoDup_elements. }
  unfold btree_elements in *. induction Hs as [|x l Hs IH Hx]; constructor.
  - apply IH. by apply NoDup_cons in Hnd as [_ ?].
  - apply NoDup_cons in Hnd as [Hnot _]. rewrite Forall_forall in *. intros y Hy. apply Hx in Hy as Hle.
    assert (x ≠ y) by (by intros ->). unfold cmp_le in Hle. rewrite N.compare_ngt_iff in Hle. lia.
Qed.

(** An attempt that the resolution ended. *)
Record released_unprovisioned (q : N) (a : DisposableAttemptState) : Prop := {
  ru_request : at_runner_request_id a = q;
  ru_phase : at_phase a = PhaseComplete;
  ru_vm : at_vm_identity a = None;
  ru_runner : at_runner_id a = None;
  ru_job : at_github_job_id a = None;
  ru_result : at_result a = None;
}.

(** What the loop keeps, from the catalog [c] it started with. *)
Record resolution_inv (c next : DisposableAttemptCatalogDocument) (acquired : gset N) : Prop := {
  ri_wf : catalog_wf next;
  ri_run : rtc catalog_progress c next;
  ri_found : ∀ q, q ∈ acquired →
    ∃ r, r ∈ cd_active c ∧ at_runner_request_id (dr_attempt r) = q ∧ at_phase (dr_attempt r) = PhaseReserved;
  ri_attempts : ∀ a, a ∈ catalog_attempts next →
    a ∈ catalog_attempts c ∨ ∃ q, q ∈ acquired ∧ released_unprovisioned q a;
}.

Lemma reserved_origin c next acquired i r :
  catalog_wf c → resolution_inv c next acquired → cd_active next !! i = Some r →
  at_phase (dr_attempt r) = PhaseReserved →
  ∃ r0, r0 ∈ cd_active c ∧ dr_attempt r0 = dr_attempt r.
Proof.
  intros Hwf Hinv Hi Hphase.
  destruct (ri_attempts _ _ _ Hinv (dr_attempt r)) as [Hin|(q & _ & [_ Hdone _ _ _ _])]; [| |congruence].
  { apply elem_of_app. left. apply list_elem_of_fmap_2. by eapply list_elem_of_lookup_2. }
  apply elem_of_app in Hin as [(r0 & ? & ?)%list_elem_of_fmap|Hin]; [eauto|].
  apply (co_complete _ (co_counts _ (wf_ok _ Hwf))) in Hin. congruence.
Qed.

Lemma canceled_attempts c i cur done c' :
  cd_active c !! i = Some cur → cd_active c' = delete i (cd_active c) →
  cd_tombstones c' = retired c (set_attempt cur done) →
  ∀ a, a ∈ catalog_attempts c' → a ∈ catalog_attempts c ∨ a = done.
Proof.
  intros Hi Hact Htomb a. unfold catalog_attempts. rewrite Hact, Htomb.
  intros [(r & -> & Hr)%list_elem_of_fmap|Ha]%elem_of_app.
  - left. apply elem_of_app. left. apply list_elem_of_fmap_2.
    eapply elem_of_sublist; [exact Hr|apply sublist_delete].
  - pose proof (elem_of_submseteq _ _ _ Ha (retired_sublist c (set_attempt cur done))) as Hin.
    apply elem_of_app in Hin as [Hin|Hin%list_elem_of_singleton]; [|by right].
    left. apply elem_of_app. by right.
Qed.

Lemma resolution_step_inv ambiguous c next acquired event next' acquired' :
  catalog_wf c → resolution_inv c next acquired →
  resolution_step policy ambiguous (next, acquired) event = Ok (next', acquired') →
  resolution_inv c next' acquired' ∧ je_runner_request_id (event_job event) ∈ ambiguous ∧
  acquired' = {[je_runner_request_id (event_job event)]} ∪ acquired.
Proof.
  intros Hwf Hinv H. unfold resolution_step in H. apply ok_guard in H as [Hamb H].
  apply bind_Ok in H as ([] & _ & H). apply bind_Ok in H as (ids & _ & H).
  apply bind_Ok in H as (cur & Hcur%ok_or_Ok & H). apply request_found in Hcur as (i & Hi & Hq).
  apply bind_Ok in H as ([] & _ & H). apply ok_guard in H as [Hphase H]. bprop.
  destruct (reserved_origin c next acquired i cur Hwf Hinv Hi Hphase) as (r0 & Hr0 & Hsame).
  set (q := je_runner_request_id (event_job event)) in *.
  assert (∀ q', q' ∈ {[q]} ∪ acquired → ∃ r, r ∈ cd_active c ∧ at_runner_request_id (dr_attempt r) = q' ∧
    at_phase (dr_attempt r) = PhaseReserved) as Hfound.
  { intros q' [->%elem_of_singleton|Hin]%elem_of_union; [|by apply Hinv].
    exists r0. rewrite Hsame. auto. }
  assert (resolution_inv c next ({[q]} ∪ acquired)) as Hkeep.
  { split; [apply Hinv..|done|]. intros a [?|(q' & ? & ?)]%(ri_attempts _ _ _ Hinv); [by left|].
    right. exists q'. split; [set_solver|done]. }
  destruct (is_runnerless_cancellation event) eqn:Hcancel.
  - destruct event; try done. apply bind_Ok in H as (c1 & H1%map_err_Ok & [= <- <-]).
    split_and!; [|done..].
    destruct (retire_unprovisioned_result next i cur c1 (ri_wf _ _ _ Hinv) Hi H1)
      as (Hwf1 & Hrun & done' & [Hkey Hdone Hvm Hrunner Hjob Hres] & Hact & Htomb).
    pose proof (active_valid next i cur (ri_wf _ _ _ Hinv) Hi) as Hvalid. apply valid_evidence in Hvalid.
    rewrite Hphase in Hvalid. destruct Hvalid as [Hnovm _].
    split; [done|etrans; [apply Hinv|done]|done|]. intros a Ha.
    destruct (canceled_attempts next i cur done' c1 Hi Hact Htomb a Ha) as [Hin|Ha'].
    + by apply (ri_attempts _ _ _ Hkeep).
    + right. exists q. split; [set_solver|]. subst a. split; try done; [|congruence].
      injection Hkey. congruence.
  - destruct event; try done; injection H as <- <-; done.
Qed.

Lemma resolution_fold_inv ambiguous c events next acquired next' acquired' :
  catalog_wf c → resolution_inv c next acquired →
  fold_result (resolution_step policy ambiguous) (next, acquired) events = Ok (next', acquired') →
  resolution_inv c next' acquired' ∧
  (∀ event, event ∈ events → je_runner_request_id (event_job event) ∈ ambiguous) ∧
  acquired' = list_to_set ((λ e, je_runner_request_id (event_job e)) <$> events) ∪ acquired.
Proof.
  intros Hwf. revert next acquired. induction events as [|event events IH]; intros next acquired Hinv H; simpl in H.
  { injection H as <- <-. split_and!; [done|by intros ? ?%elem_of_nil|set_solver]. }
  apply bind_Ok in H as ([next1 acquired1] & H1 & H).
  destruct (resolution_step_inv _ _ _ _ _ _ _ Hwf Hinv H1) as (Hinv1 & Hamb & ->).
  destruct (IH _ _ Hinv1 H) as (Hinv' & Hin & ->). split_and!; [done| |csimpl; set_solver].
  intros e [->|He]%elem_of_cons; auto.
Qed.

Lemma resolution_result ambiguous acquired delivery events c c' :
  catalog_wf c → retained_events delivery = Ok events →
  reconcile_scale_set_acquisition_resolution policy ambiguous delivery c = Ok (c', acquired) →
  available_request_ids delivery = Ok [] ∧
  ∃ X : gset N,
    fold_result (resolution_step policy (list_to_set ambiguous)) (c, ∅) events = Ok (c', X) ∧
    acquired = btree_elements X ∧ acquired ≠ [] ∧ resolution_inv c c' X ∧
    X = list_to_set ((λ e, je_runner_request_id (event_job e)) <$> events) ∧ ∀ q, q ∈ X → q ∈ ambiguous.
Proof.
  intros Hwf Hevents H. unfold reconcile_scale_set_acquisition_resolution in H.
  apply bind_Ok in H as (empty & Hempty & H). apply ok_guard in H as [Hyes H]. apply ok_guard in H as [_ H].
  split.
  { case_match; [injection Hempty as <-; done|]. apply bind_Ok in Hempty as (av & Hav%map_err_Ok & [= <-]).
    by destruct av. }
  rewrite Hevents in H. rsimpl. apply bind_Ok in H as ([next X] & Hfold & H).
  apply ok_guard in H as [Hsize [= -> <-]].
  assert (resolution_inv c c ∅) as H0 by (split; [done..|set_solver|by left]).
  destruct (resolution_fold_inv _ _ _ _ _ _ _ Hwf H0 Hfold) as (Hinv & Hamb & HX).
  rewrite union_empty_r_L in HX. exists X. split_and!; [done..| |done|done|].
  - intros Hnil. apply Nat.eqb_neq in Hsize. apply Hsize, size_empty_iff. intros q.
    rewrite <-elem_of_btree, Hnil. set_solver.
  - intros q. rewrite HX, elem_of_list_to_set. intros (e & -> & He)%list_elem_of_fmap.
    by apply Hamb, elem_of_list_to_set in He.
Qed.

(** A later delivery resolves an ambiguous acquisition only by evidence:
    the acquired requests are exactly those its events name, in order, at least
    one and all of them ambiguous; each was reserved and not yet provisioned;
    and nothing is done to the catalog but to end such attempts as released
    without a machine, a runner or a job. *)
Theorem resolution_by_evidence (ambiguous acquired : list N) (delivery : ScaleSetDelivery)
    (events : list ScaleSetDeliveryLifecycleEvent) (c c' : DisposableAttemptCatalogDocument)
    (Hc : rtc catalog_step empty_catalog c) (Hevents : retained_events delivery = Ok events)
    (H : reconcile_scale_set_acquisition_resolution policy ambiguous delivery c = Ok (c', acquired)) :
  rtc catalog_progress c c' ∧ acquired ≠ [] ∧ StronglySorted N.lt acquired ∧
  (∀ q, q ∈ acquired → q ∈ ambiguous ∧ ∃ r, r ∈ cd_active c ∧
    at_runner_request_id (dr_attempt r) = q ∧ at_phase (dr_attempt r) = PhaseReserved) ∧
  (∀ q, q ∈ acquired ↔ ∃ event, event ∈ events ∧ je_runner_request_id (event_job event) = q) ∧
  ∀ a, a ∈ catalog_attempts c' →
    a ∈ catalog_attempts c ∨ ∃ q, q ∈ acquired ∧ released_unprovisioned q a.
Proof.
  destruct (resolution_result _ _ _ _ _ _ (chain_wf _ _ empty_catalog_wf Hc) Hevents H)
    as (_ & X & _ & -> & Hne & Hinv & HX & Hamb).
  setoid_rewrite elem_of_btree. split_and!; [apply Hinv|done|apply btree_sorted| | |apply Hinv].
  - intros q Hq. split; [by apply Hamb|by apply Hinv].
  - intros q. rewrite HX, elem_of_list_to_set, list_elem_of_fmap. naive_solver.
Qed.
End events.

(** ** The theorems at a sample delivery *)

(** A stand-in for SHA-256: any function to sixty-four hex digits. *)
#[local] Instance sample_sha256 : Sha256Hasher :=
  λ _, "00112233445566778899aabbccddeeff00112233445566778899aabbccddeeff".

Definition sample_policy : ScaleSetDeliveryConsumerPolicy :=
  mkConsumerPolicy 5 "glaeda" "team" ["linux"] sample_worker "template-1".

Definition sample_job : ScaleSetDeliveryJob := mkDeliveryJob 7 "glaeda" "team" "job-1" 3 ["linux"].

Definition sample_statistics : ScaleSetDeliveryStatistics := mkDeliveryStatistics 1 0 0 0 0 0 0.

Definition available_delivery : ScaleSetDelivery :=
  mkDelivery 1 9 sample_statistics [7] [DeliveryAvailable sample_job].

(** The same request canceled before a runner took it. *)
Definition canceled_delivery : ScaleSetDelivery :=
  mkDelivery 1 10 sample_statistics [] [DeliveryCompleted sample_job None "canceled"].

Definition sample_evidence : ScaleSetDeliveryJobEvidence := mkJobEvidence 7 "glaeda" "team" "job-1" 3 ["linux"].

Definition delivered_attempt (revision : N) (phase : DisposableAttemptPhase) : DisposableAttemptState :=
  mkAttempt 6 revision "attempt-00112233445566778899aabbccddeeff"
    "claim-00112233445566778899aabbccddeeff00112233445566778899aabbccddeeff" "w-00112233445566778899aabb" None
    "smolrunner-00112233445566778899aabbccddeeff" 7 None false false phase None None 21601000.

Definition delivered_catalog : DisposableAttemptCatalogDocument :=
  mkCatalog 7 2 [mkAttemptReservation (delivered_attempt 1 PhaseReserved) sample_worker "template-1"] [].

Definition canceled_catalog : DisposableAttemptCatalogDocument :=
  mkCatalog 7 5 [] [delivered_attempt 3 PhaseComplete].

Lemma sample_policy_new :
  policy_new_with_identity 5 "glaeda" "team" ["linux"] sample_worker "template-1" = Ok sample_policy.
Proof. vm_compute. reflexivity. Qed.

Lemma sample_delivered :
  reconcile_scale_set_delivery sample_policy available_delivery empty_catalog 1000 = Ok delivered_catalog.
Proof. vm_compute. reflexivity. Qed.

Lemma sample_canceled :
  reconcile_scale_set_acquisition_resolution sample_policy [7; 8] canceled_delivery delivered_catalog =
    Ok (canceled_catalog, [7]).
Proof. vm_compute. reflexivity. Qed.

Lemma delivered_reachable : rtc catalog_step empty_catalog delivered_catalog.
Proof.
  apply rtc_once. eapply (step_reserve _ _ _ _ _ _ 7 21601000 2000 4096 8192 sample_worker "template-1");
    [reflexivity|reflexivity|vm_compute; reflexivity].
Qed.

Lemma event_replay_witness :
  reconcile_event sample_policy (LifecycleAvailable sample_evidence) delivered_catalog 1000 = Ok delivered_catalog.
Proof.
  apply (event_replay sample_policy eq_refl _ empty_catalog); [apply rtc_refl|vm_compute; reflexivity].
Defined.

Lemma delivery_builds_catalog_witness :
  rtc catalog_step empty_catalog delivered_catalog ∧ (length (open_reservations delivered_catalog) ≤ 1)%nat.
Proof.
  destruct (delivery_builds_catalog sample_policy eq_refl available_delivery [LifecycleAvailable sample_evidence]
    empty_catalog delivered_catalog 1000) as (Hrun & Hlen & _);
    [apply rtc_refl|vm_compute; reflexivity|apply sample_delivered|]. by split.
Defined.

Lemma resolution_by_evidence_witness :
  rtc catalog_progress delivered_catalog canceled_catalog ∧ StronglySorted N.lt [7].
Proof.
  destruct (resolution_by_evidence sample_policy eq_refl [7; 8] [7] canceled_delivery
    [LifecycleCompleted sample_evidence None "canceled"] delivered_catalog canceled_catalog)
    as (Hrun & _ & Hsorted & _);
    [apply delivered_reachable|vm_compute; reflexivity|apply sample_canceled|]. by split.
Defined.
