(* ===== verification/DeliveryRecovery.v ===== *)
(** * The recovery document of a delivery

    [src/src/github_scale_set_delivery_state.rs]: what is known, durably, about
    the acknowledgement of one reconciled delivery, and the steps from its
    reconciliation to a settlement.  The JSON texts and SHA-256 are parameters
    ([CatalogSerde], [DeliverySerde], [Sha256Hasher]); the text of the recovery
    document itself is not modelled. *)

From S2P Require Import Prelude SortBy Artifact ExecutionAdmission ScaleSetProtocol AttemptState.
From S2P Require Import WorkerReconciler AttemptCatalog AttemptCodec ScaleSetDelivery DeliveryConsumer.

Local Open Scope N_scope.

Definition SCALE_SET_DELIVERY_RECOVERY_SCHEMA_VERSION : N := 4.
Definition MAX_DELIVERY_RECOVERY_REVISION : N := 1000000000000.
Definition CATALOG_BINDING_DOMAIN : string :=
  "smolrunner.scale-set-catalog-binding.v1" +:+ String "000" EmptyString.

(** ** Errors *)

Inductive ScaleSetDeliveryRecoveryErrorKind :=
| RecoveryInvalidDocument
| RecoveryVersionIncompatible
| RecoveryDocumentTooLarge
| RecoveryNonCanonical
| RecoveryCorruptState
| RecoveryConflict.

Record ScaleSetDeliveryRecoveryError := mkRecoveryError {
  sre_kind : ScaleSetDeliveryRecoveryErrorKind;
  sre_message : string;
}.

Definition recovery_error := mkRecoveryError.

Definition recovery_corrupt : ScaleSetDeliveryRecoveryError :=
  recovery_error RecoveryCorruptState "Scale Set delivery recovery state is corrupt".

Definition recovery_conflict (message : string) : ScaleSetDeliveryRecoveryError :=
  recovery_error RecoveryConflict message.

(** [map_err(|_| corrupt_state())]. *)
Definition or_corrupt {E A} (r : result E A) : result ScaleSetDeliveryRecoveryError A :=
  map_err (λ _, recovery_corrupt) r.

(** ** The document *)

Record ScaleSetLifecycleResolution := mkResolution {
  lr_base_revision : N;
  lr_delivery : ScaleSetDelivery;
  lr_acquired : list ScaleSetRunnerRequestId;
  lr_prior_catalog : DisposableAttemptCatalogDocument;
  lr_catalog_revision : DisposableAttemptCatalogRevision;
  lr_catalog_digest : string;
}.

#[export] Instance resolution_eq_dec : EqDecision ScaleSetLifecycleResolution.
Proof. solve_decision. Defined.

Inductive ScaleSetDeliverySettlementProof :=
| ProofAcknowledged
| ProofAcquisitionRecovery
| ProofLifecycleEvidence (resolution : ScaleSetLifecycleResolution).

#[export] Instance settlement_proof_eq_dec : EqDecision ScaleSetDeliverySettlementProof.
Proof. solve_decision. Defined.

Inductive ScaleSetDeliveryRecoveryPhase :=
| Reconciled
| AcknowledgementStarted
| Acknowledged (acquired : list ScaleSetRunnerRequestId)
| AcquisitionRecoveryObserved (acquired : list ScaleSetRunnerRequestId)
| LifecycleReconciled (resolution : ScaleSetLifecycleResolution)
| LifecycleAcknowledgementStarted (resolution : ScaleSetLifecycleResolution)
| LifecycleAcknowledged (resolution : ScaleSetLifecycleResolution)
| SettlementPrepared (proof : ScaleSetDeliverySettlementProof) (acquired : list ScaleSetRunnerRequestId)
    (prior_catalog : DisposableAttemptCatalogDocument)
    (catalog_revision : DisposableAttemptCatalogRevision) (catalog_digest : string).

#[export] Instance recovery_phase_eq_dec : EqDecision ScaleSetDeliveryRecoveryPhase.
Proof. solve_decision. Defined.

Record ScaleSetDeliveryRecoveryState := mkRecovery {
  rs_schema_version : N;
  rs_revision : N;
  rs_prior_catalog_revision : DisposableAttemptCatalogRevision;
  rs_prior_catalog_digest : string;
  rs_catalog_revision : DisposableAttemptCatalogRevision;
  rs_catalog_digest : string;
  rs_delivery : ScaleSetDelivery;
  rs_phase : ScaleSetDeliveryRecoveryPhase;
}.

#[export] Instance recovery_state_eq_dec : EqDecision ScaleSetDeliveryRecoveryState.
Proof. solve_decision. Defined.

Section recovery.
Context `{SERDE : CatalogSerde} `{DSERDE : DeliverySerde} `{HASHER : Sha256Hasher}.

(** ** Bindings to a catalog *)

Definition catalog_digest (catalog : DisposableAttemptCatalogDocument)
    : result ScaleSetDeliveryRecoveryError string :=
  b ← or_corrupt (encode_disposable_attempt_catalog catalog);
  length ← ok_or (try_from_int u64_max (len b)) recovery_corrupt;
  or_corrupt (Sha256Digest_parse
    ("sha256:" +:+ sha256_digest_hex (str_bytes CATALOG_BINDING_DOMAIN ++ be_bytes 8 length ++ b))).

(** [catalog_digest(catalog).is_ok_and(|digest| digest == expected)]. *)
Definition digest_is (catalog : DisposableAttemptCatalogDocument) (expected : string) : bool :=
  match catalog_digest catalog with
  | Ok digest => bool_decide (digest = expected)
  | _ => false
  end.

Definition binds (revision : DisposableAttemptCatalogRevision) (digest : string)
    (catalog : DisposableAttemptCatalogDocument) : bool :=
  (revision =? cd_revision catalog) && digest_is catalog digest.

Definition matches_prior_catalog (self : ScaleSetDeliveryRecoveryState) :=
  binds (rs_prior_catalog_revision self) (rs_prior_catalog_digest self).

Definition matches_catalog (self : ScaleSetDeliveryRecoveryState) :=
  binds (rs_catalog_revision self) (rs_catalog_digest self).

Definition resolution_matches_catalog (self : ScaleSetLifecycleResolution) :=
  binds (lr_catalog_revision self) (lr_catalog_digest self).

Definition matches_settlement_catalog (self : ScaleSetDeliveryRecoveryState)
    (catalog : DisposableAttemptCatalogDocument) : bool :=
  match rs_phase self with
  | SettlementPrepared _ _ _ catalog_revision expected => binds catalog_revision expected catalog
  | _ => false
  end.

Definition matches_catalog_digest (self : ScaleSetDeliveryRecoveryState)
    (revision : DisposableAttemptCatalogRevision) (digest : string) : bool :=
  (rs_catalog_revision self =? revision) && bool_decide (rs_catalog_digest self = digest).

(** ** Acquired requests *)

Definition acquired_step (available : gset N) (seen : gset N) (request_id : ScaleSetRunnerRequestId)
    : result ScaleSetDeliveryRecoveryError (gset N) :=
  if negb (bool_decide (request_id ∈ available)) || bool_decide (request_id ∈ seen)
  then Err (recovery_conflict
         "acquired request evidence is duplicate or foreign to the durable delivery")
  else Ok ({[request_id]} ∪ seen).

Definition validated_acquired (self : ScaleSetDeliveryRecoveryState)
    (acquired : list ScaleSetRunnerRequestId)
    : result ScaleSetDeliveryRecoveryError (list ScaleSetRunnerRequestId) :=
  available ← or_corrupt (available_request_ids (rs_delivery self));
  seen ← fold_result (acquired_step (list_to_set available)) ∅ acquired;
  Ok (btree_elements seen).

(** ** Validation *)

(** The job of an event that may resolve an acquisition. *)
Definition lifecycle_job (event : ScaleSetDeliveryLifecycleEvent)
    : result ScaleSetDeliveryRecoveryError ScaleSetDeliveryJobEvidence :=
  match event with
  | LifecycleAssigned job | LifecycleStarted job _ | LifecycleCompleted job _ _ => Ok job
  | LifecycleAvailable _ => Err recovery_corrupt
  end.

(** [original_events.iter().find_map(..)]. *)
Fixpoint find_original_job (events : list ScaleSetDeliveryLifecycleEvent)
    (request_id : ScaleSetRunnerRequestId) : option ScaleSetDeliveryJobEvidence :=
  match events with
  | [] => None
  | LifecycleAvailable job :: events =>
      if je_runner_request_id job =? request_id then Some job
      else find_original_job events request_id
  | _ :: events => find_original_job events request_id
  end.

(** The end of a reserved attempt that was never provisioned, found by its
    request each time. *)
Definition retire_reserved {E} (conflict missing : E) (catalog : DisposableAttemptCatalogDocument)
    (reservation : DisposableAttemptReservation) (request_id : ScaleSetRunnerRequestId)
    : result E DisposableAttemptCatalogDocument :=
  let attempt_id := at_attempt_id (dr_attempt reservation) in
  releasing ← map_err (λ _, conflict) (replace_attempt catalog attempt_id
    (at_revision (dr_attempt reservation)) BeginUnprovisionedRelease);
  releasing_attempt ← ok_or (find_active_by_runner_request_id releasing request_id) missing;
  complete ← map_err (λ _, conflict) (replace_attempt releasing attempt_id
    (at_revision (dr_attempt releasing_attempt)) CompleteUnprovisioned);
  complete_attempt ← ok_or (find_active_by_runner_request_id complete request_id) missing;
  map_err (λ _, conflict)
    (catalog_retire_complete complete attempt_id (at_revision (dr_attempt complete_attempt))).

Definition reconstruct_step (original_events : list ScaleSetDeliveryLifecycleEvent)
    (state : DisposableAttemptCatalogDocument * gset N) (event : ScaleSetDeliveryLifecycleEvent)
    : result ScaleSetDeliveryRecoveryError (DisposableAttemptCatalogDocument * gset N) :=
  let '(reconstructed, acquired) := state in
  job ← lifecycle_job event;
  let request_id := je_runner_request_id job in
  original_job ← ok_or (find_original_job original_events request_id) recovery_corrupt;
  if bool_decide (original_job ≠ job) then Err recovery_corrupt
  else
    reservation ← ok_or (find_active_by_runner_request_id reconstructed request_id) recovery_corrupt;
    if bool_decide (at_phase (dr_attempt reservation) ≠ PhaseReserved) then Err recovery_corrupt
    else
      let acquired := {[request_id]} ∪ acquired in
      match event with
      | LifecycleAssigned _ => Ok (reconstructed, acquired)
      | _ =>
          if is_runnerless_cancellation event
          then
            reconstructed ← retire_reserved recovery_corrupt recovery_corrupt reconstructed reservation request_id;
            Ok (reconstructed, acquired)
          else Err recovery_corrupt
      end.

(** The state that [resolution] came from. *)
Definition resolution_predecessor (self : ScaleSetLifecycleResolution)
    (state : ScaleSetDeliveryRecoveryState) (digest : string) : ScaleSetDeliveryRecoveryState :=
  mkRecovery (rs_schema_version state) (lr_base_revision self) (rs_prior_catalog_revision state)
    (rs_prior_catalog_digest state) (cd_revision (lr_prior_catalog self)) digest (rs_delivery state)
    (AcquisitionRecoveryObserved []).

Definition expected_revision_step (phase : ScaleSetDeliveryRecoveryPhase) : option N :=
  match phase with
  | LifecycleReconciled _ => Some 1
  | LifecycleAcknowledgementStarted _ => Some 2
  | LifecycleAcknowledged _ => Some 3
  | _ => None
  end.

(** [ScaleSetLifecycleResolution::validate], given the validation of states. *)
Definition resolution_validate
    (state_validate : ScaleSetDeliveryRecoveryState → result ScaleSetDeliveryRecoveryError ())
    (self : ScaleSetLifecycleResolution) (state : ScaleSetDeliveryRecoveryState)
    : result ScaleSetDeliveryRecoveryError () :=
  step ← ok_or (expected_revision_step (rs_phase state)) recovery_corrupt;
  expected ← ok_or (checked_add u64_max (lr_base_revision self) step) recovery_corrupt;
  if negb (rs_revision state =? expected)
     || negb (lr_base_revision self =? 3)
     || (dl_message_id (lr_delivery self) <=? dl_message_id (rs_delivery state))
  then Err recovery_corrupt
  else
    available ← or_corrupt (available_request_ids (lr_delivery self));
    if negb (length available =? 0)%nat
       || (length (lr_acquired self) =? 0)%nat
       || negb (matches_catalog_digest state (lr_catalog_revision self) (lr_catalog_digest self))
       || (lr_catalog_revision self <? cd_revision (lr_prior_catalog self))
    then Err recovery_corrupt
    else
      digest ← catalog_digest (lr_prior_catalog self);
      let predecessor := resolution_predecessor self state digest in
      _ ← state_validate predecessor;
      if negb (matches_catalog predecessor (lr_prior_catalog self)) then Err recovery_corrupt
      else
        acquired ← validated_acquired state (lr_acquired self);
        if bool_decide (acquired ≠ lr_acquired self) then Err recovery_corrupt
        else
          original_events ← or_corrupt (retained_events (rs_delivery state));
          lifecycle_events ← or_corrupt (retained_events (lr_delivery self));
          state' ← fold_result (reconstruct_step original_events) (lr_prior_catalog self, ∅)
            lifecycle_events;
          let '(reconstructed, reconstructed_acquired) := state' in
          if bool_decide (btree_elements reconstructed_acquired ≠ lr_acquired self)
             || negb (matches_catalog state reconstructed)
          then Err recovery_corrupt
          else Ok ().

Definition same_acquired (self : ScaleSetDeliveryRecoveryState)
    (acquired : list ScaleSetRunnerRequestId) : result ScaleSetDeliveryRecoveryError () :=
  validated ← validated_acquired self acquired;
  if bool_decide (validated = acquired) then Ok () else Err recovery_corrupt.

(** The acknowledged state that a settlement by lifecycle evidence came from. *)
Definition acknowledged_before (self : ScaleSetDeliveryRecoveryState)
    (resolution : ScaleSetLifecycleResolution) : ScaleSetDeliveryRecoveryState :=
  mkRecovery (rs_schema_version self) (rs_revision self - 1) (rs_prior_catalog_revision self)
    (rs_prior_catalog_digest self) (rs_catalog_revision self) (rs_catalog_digest self)
    (rs_delivery self) (LifecycleAcknowledged resolution).

Definition settlement_validate
    (state_validate : ScaleSetDeliveryRecoveryState → result ScaleSetDeliveryRecoveryError ())
    (self : ScaleSetDeliveryRecoveryState) (proof : ScaleSetDeliverySettlementProof)
    (acquired : list ScaleSetRunnerRequestId) (prior_catalog : DisposableAttemptCatalogDocument)
    (catalog_revision : DisposableAttemptCatalogRevision) (digest : string)
    : result ScaleSetDeliveryRecoveryError () :=
  _ ← same_acquired self acquired;
  if negb (matches_catalog self prior_catalog) then Err recovery_corrupt
  else if bool_decide (proof = ProofAcquisitionRecovery) && (length acquired =? 0)%nat
  then Err recovery_corrupt
  else if (bool_decide (proof = ProofAcknowledged) && negb (rs_revision self =? 4))
          || (bool_decide (proof = ProofAcquisitionRecovery) && (rs_revision self <? 4))
  then Err recovery_corrupt
  else
    _ ←
      match proof with
      | ProofLifecycleEvidence resolution =>
          if bool_decide (acquired ≠ lr_acquired resolution) then Err recovery_corrupt
          else
            expected ← ok_or (checked_add u64_max (lr_base_revision resolution) 4) recovery_corrupt;
            if negb (rs_revision self =? expected) then Err recovery_corrupt
            else state_validate (acknowledged_before self resolution)
      | _ => Ok ()
      end;
    if (catalog_revision <? rs_catalog_revision self)
       || ((catalog_revision =? rs_catalog_revision self)
           && bool_decide (digest ≠ rs_catalog_digest self))
    then Err recovery_corrupt
    else Ok ().

(** [ScaleSetDeliveryRecoveryState::validate]: a settlement validates the
    acknowledged state it came from, and a resolution the observed one, so
    three levels are enough. *)
Fixpoint recovery_validate_at (depth : nat) (self : ScaleSetDeliveryRecoveryState)
    : result ScaleSetDeliveryRecoveryError () :=
  match depth with
  | O => Panic
  | S depth =>
      if negb (rs_schema_version self =? SCALE_SET_DELIVERY_RECOVERY_SCHEMA_VERSION)
         || negb (in_range 1 MAX_DELIVERY_RECOVERY_REVISION (rs_revision self))
         || (rs_catalog_revision self <? rs_prior_catalog_revision self)
         || ((rs_prior_catalog_revision self =? rs_catalog_revision self)
             && bool_decide (rs_prior_catalog_digest self ≠ rs_catalog_digest self))
      then Err recovery_corrupt
      else
        _ ← or_corrupt (encode_scale_set_delivery (rs_delivery self));
        match rs_phase self with
        | Reconciled => if rs_revision self =? 1 then Ok () else Err recovery_corrupt
        | AcknowledgementStarted => if rs_revision self =? 2 then Ok () else Err recovery_corrupt
        | Acknowledged acquired =>
            if rs_revision self =? 3 then same_acquired self acquired else Err recovery_corrupt
        | AcquisitionRecoveryObserved acquired =>
            if (3 <=? rs_revision self)
               && (negb (length acquired =? 0)%nat || (rs_revision self =? 3))
            then same_acquired self acquired else Err recovery_corrupt
        | LifecycleReconciled resolution | LifecycleAcknowledgementStarted resolution
        | LifecycleAcknowledged resolution =>
            resolution_validate (recovery_validate_at depth) resolution self
        | SettlementPrepared proof acquired prior_catalog catalog_revision digest =>
            settlement_validate (recovery_validate_at depth) self proof acquired prior_catalog
              catalog_revision digest
        end
  end.

Definition recovery_validate : ScaleSetDeliveryRecoveryState → result ScaleSetDeliveryRecoveryError () :=
  recovery_validate_at 3.

(** ** Steps *)

Definition reconciled (delivery : ScaleSetDelivery) (prior_catalog catalog : DisposableAttemptCatalogDocument)
    : result ScaleSetDeliveryRecoveryError ScaleSetDeliveryRecoveryState :=
  prior_digest ← catalog_digest prior_catalog;
  digest ← catalog_digest catalog;
  let state := mkRecovery SCALE_SET_DELIVERY_RECOVERY_SCHEMA_VERSION 1 (cd_revision prior_catalog)
    prior_digest (cd_revision catalog) digest delivery Reconciled in
  _ ← recovery_validate state;
  Ok state.

(** [checked_add(1).filter(|revision| *revision <= MAX)]. *)
Definition next_recovery_revision (self : ScaleSetDeliveryRecoveryState)
    : result ScaleSetDeliveryRecoveryError N :=
  ok_or (checked_add u64_max (rs_revision self) 1 ≫= λ revision,
           if revision <=? MAX_DELIVERY_RECOVERY_REVISION then Some revision else None)
    (recovery_conflict "delivery recovery revision cannot advance").

Definition recovery_successor (self : ScaleSetDeliveryRecoveryState) (phase : ScaleSetDeliveryRecoveryPhase)
    : result ScaleSetDeliveryRecoveryError ScaleSetDeliveryRecoveryState :=
  revision ← next_recovery_revision self;
  let state := mkRecovery (rs_schema_version self) revision (rs_prior_catalog_revision self)
    (rs_prior_catalog_digest self) (rs_catalog_revision self) (rs_catalog_digest self)
    (rs_delivery self) phase in
  _ ← recovery_validate state;
  Ok state.

Definition successor_with_catalog (self : ScaleSetDeliveryRecoveryState)
    (phase : ScaleSetDeliveryRecoveryPhase) (catalog : DisposableAttemptCatalogDocument)
    : result ScaleSetDeliveryRecoveryError ScaleSetDeliveryRecoveryState :=
  revision ← next_recovery_revision self;
  digest ← catalog_digest catalog;
  let state := mkRecovery (rs_schema_version self) revision (rs_prior_catalog_revision self)
    (rs_prior_catalog_digest self) (cd_revision catalog) digest (rs_delivery self) phase in
  _ ← recovery_validate state;
  Ok state.

Definition begin_ack (self : ScaleSetDeliveryRecoveryState)
    : result ScaleSetDeliveryRecoveryError ScaleSetDeliveryRecoveryState :=
  match rs_phase self with
  | Reconciled => recovery_successor self AcknowledgementStarted
  | AcknowledgementStarted => Ok self
  | _ => Err (recovery_conflict "only a reconciled delivery may begin acknowledgement")
  end.

Definition record_ack_response (self : ScaleSetDeliveryRecoveryState)
    (acquired : list ScaleSetRunnerRequestId)
    : result ScaleSetDeliveryRecoveryError ScaleSetDeliveryRecoveryState :=
  let conflict := Err (recovery_conflict
    "acknowledgement response conflicts with the durable recovery phase") in
  acquired ← validated_acquired self acquired;
  match rs_phase self with
  | AcknowledgementStarted => recovery_successor self (Acknowledged acquired)
  | Acknowledged current => if bool_decide (current = acquired) then Ok self else conflict
  | _ => conflict
  end.

(** The loop over [newly_acquired], with [seen] and [observed]. *)
Definition observe_step (state : gset N * list N) (request_id : N) : gset N * list N :=
  let '(seen, observed) := state in
  if bool_decide (request_id ∈ seen) then state
  else ({[request_id]} ∪ seen, observed ++ [request_id]).

Definition merge_observed (observed newly_acquired : list N) : list N :=
  sort_by N.compare (foldl observe_step (list_to_set observed, observed) newly_acquired).2.

Definition record_recovery_acquire (self : ScaleSetDeliveryRecoveryState)
    (acquired : list ScaleSetRunnerRequestId)
    : result ScaleSetDeliveryRecoveryError ScaleSetDeliveryRecoveryState :=
  observed ←
    match rs_phase self with
    | AcknowledgementStarted => Ok []
    | AcquisitionRecoveryObserved acquired => Ok acquired
    | _ => Err (recovery_conflict
             "standalone acquisition replay requires ambiguous acknowledgement state")
    end;
  newly_acquired ← validated_acquired self acquired;
  let phase := AcquisitionRecoveryObserved (merge_observed observed newly_acquired) in
  if bool_decide (rs_phase self = phase) then Ok self else recovery_successor self phase.

(** The requests a later delivery has lifecycle evidence of. *)
Definition lifecycle_request (event : ScaleSetDeliveryLifecycleEvent) : option N :=
  match event with
  | LifecycleAvailable _ => None
  | LifecycleAssigned job | LifecycleStarted job _ | LifecycleCompleted job _ _ =>
      Some (je_runner_request_id job)
  end.

Definition is_empty_observation (phase : ScaleSetDeliveryRecoveryPhase) : bool :=
  match phase with
  | AcquisitionRecoveryObserved acquired => (length acquired =? 0)%nat
  | _ => false
  end.

Definition prepare_lifecycle_resolution (self : ScaleSetDeliveryRecoveryState)
    (delivery : ScaleSetDelivery) (acquired : list ScaleSetRunnerRequestId)
    (prior_catalog target_catalog : DisposableAttemptCatalogDocument)
    : result ScaleSetDeliveryRecoveryError ScaleSetDeliveryRecoveryState :=
  let cannot := recovery_conflict "lifecycle evidence cannot resolve this Scale Set acquisition" in
  if negb (is_empty_observation (rs_phase self))
     || negb (matches_catalog self prior_catalog)
     || (dl_message_id delivery <=? dl_message_id (rs_delivery self))
  then Err cannot
  else
    available ← or_corrupt (available_request_ids delivery);
    if negb (length available =? 0)%nat then Err cannot
    else
      acquired ← validated_acquired self acquired;
      if (length acquired =? 0)%nat
      then Err (recovery_conflict "lifecycle resolution requires positive acquisition evidence")
      else
        events ← or_corrupt (retained_events delivery);
        let lifecycle_requests : gset N := list_to_set (omap lifecycle_request events) in
        if existsb (λ request_id, negb (bool_decide (request_id ∈ lifecycle_requests))) acquired
        then Err (recovery_conflict
               "lifecycle resolution does not contain the acquired request evidence")
        else
          digest ← catalog_digest target_catalog;
          let resolution := mkResolution (rs_revision self) delivery acquired prior_catalog
            (cd_revision target_catalog) digest in
          successor_with_catalog self (LifecycleReconciled resolution) target_catalog.

Definition begin_lifecycle_ack (self : ScaleSetDeliveryRecoveryState)
    : result ScaleSetDeliveryRecoveryError ScaleSetDeliveryRecoveryState :=
  match rs_phase self with
  | LifecycleReconciled resolution => recovery_successor self (LifecycleAcknowledgementStarted resolution)
  | LifecycleAcknowledgementStarted _ => Ok self
  | _ => Err (recovery_conflict "only reconciled lifecycle evidence may begin acknowledgement")
  end.

Definition record_lifecycle_ack (self : ScaleSetDeliveryRecoveryState)
    : result ScaleSetDeliveryRecoveryError ScaleSetDeliveryRecoveryState :=
  match rs_phase self with
  | LifecycleAcknowledgementStarted resolution => recovery_successor self (LifecycleAcknowledged resolution)
  | LifecycleAcknowledged _ => Ok self
  | _ => Err (recovery_conflict "lifecycle acknowledgement conflicts with the durable recovery phase")
  end.

Definition lifecycle_resolution (self : ScaleSetDeliveryRecoveryState) : option ScaleSetLifecycleResolution :=
  match rs_phase self with
  | LifecycleReconciled resolution | LifecycleAcknowledgementStarted resolution
  | LifecycleAcknowledged resolution => Some resolution
  | _ => None
  end.

Definition is_lifecycle_resolution_of (self predecessor : ScaleSetDeliveryRecoveryState)
    (prior_catalog : DisposableAttemptCatalogDocument) : bool :=
  match lifecycle_resolution self with
  | Some resolution =>
      (lr_base_revision resolution =? rs_revision predecessor)
      && matches_catalog predecessor prior_catalog
      && bool_decide (lr_prior_catalog resolution = prior_catalog)
      && (rs_prior_catalog_revision self =? rs_prior_catalog_revision predecessor)
      && bool_decide (rs_prior_catalog_digest self = rs_prior_catalog_digest predecessor)
      && bool_decide (rs_delivery self = rs_delivery predecessor)
  | None => false
  end.

(** What the phase proves about the acquired requests, if it is conclusive. *)
Definition conclusive_evidence (phase : ScaleSetDeliveryRecoveryPhase)
    : option (ScaleSetDeliverySettlementProof * list ScaleSetRunnerRequestId) :=
  match phase with
  | Acknowledged acquired => Some (ProofAcknowledged, acquired)
  | AcquisitionRecoveryObserved acquired =>
      if negb (length acquired =? 0)%nat then Some (ProofAcquisitionRecovery, acquired) else None
  | LifecycleAcknowledged resolution =>
      Some (ProofLifecycleEvidence resolution, lr_acquired resolution)
  | _ => None
  end.

Definition prepare_settlement_binding (self : ScaleSetDeliveryRecoveryState)
    (prior_catalog : DisposableAttemptCatalogDocument)
    (catalog_revision : DisposableAttemptCatalogRevision) (digest : string)
    : result ScaleSetDeliveryRecoveryError ScaleSetDeliveryRecoveryState :=
  evidence ← ok_or (conclusive_evidence (rs_phase self))
    (recovery_conflict "Scale Set delivery lacks conclusive settlement evidence");
  let '(proof, acquired) := evidence in
  recovery_successor self (SettlementPrepared proof acquired prior_catalog catalog_revision digest).

Definition prepare_settlement (self : ScaleSetDeliveryRecoveryState)
    (prior_catalog target_catalog : DisposableAttemptCatalogDocument)
    : result ScaleSetDeliveryRecoveryError ScaleSetDeliveryRecoveryState :=
  if negb (matches_catalog self prior_catalog)
  then Err (recovery_conflict "Scale Set settlement prior catalog does not match durable recovery")
  else
    digest ← catalog_digest target_catalog;
    prepare_settlement_binding self prior_catalog (cd_revision target_catalog) digest.

Definition settlement_acquired (self : ScaleSetDeliveryRecoveryState)
    : option (list ScaleSetRunnerRequestId) :=
  match rs_phase self with
  | SettlementPrepared _ acquired _ _ _ => Some acquired
  | _ => None
  end.

Definition settlement_prior_catalog (self : ScaleSetDeliveryRecoveryState)
    : option DisposableAttemptCatalogDocument :=
  match rs_phase self with
  | SettlementPrepared _ _ prior_catalog _ _ => Some prior_catalog
  | _ => None
  end.

(** ** The test the store applies to a successor

    [exact_recovery_successor] of
    [src/src/unix_personal_worker_store/scale_set_delivery_recovery.rs]. *)

Definition exact_recovery_successor (current candidate : ScaleSetDeliveryRecoveryState) : bool :=
  if negb (rs_revision candidate =? saturating_add u64_max (rs_revision current) 1)
     || negb (rs_catalog_revision candidate =? rs_catalog_revision current)
     || bool_decide (rs_delivery candidate ≠ rs_delivery current)
  then false
  else
    let is_candidate (expected : result ScaleSetDeliveryRecoveryError ScaleSetDeliveryRecoveryState) :=
      match expected with
      | Ok expected => bool_decide (expected = candidate)
      | _ => false
      end in
    match rs_phase candidate with
    | AcknowledgementStarted => is_candidate (begin_ack current)
    | Acknowledged acquired => is_candidate (record_ack_response current acquired)
    | AcquisitionRecoveryObserved acquired => is_candidate (record_recovery_acquire current acquired)
    | LifecycleAcknowledgementStarted _ => is_candidate (begin_lifecycle_ack current)
    | LifecycleAcknowledged _ => is_candidate (record_lifecycle_ack current)
    | SettlementPrepared _ _ prior_catalog catalog_revision digest =>
        is_candidate (prepare_settlement_binding current prior_catalog catalog_revision digest)
    | Reconciled | LifecycleReconciled _ => false
    end.

(** ** The catalog after a settlement

    [src/src/github_scale_set_delivery_settlement.rs]. *)

Record ScaleSetDeliverySettlementError := mkSettlementError { sse_code : string }.

Definition settlement_error := mkSettlementError.

(** The requests a state may settle with. *)
Definition settled_requests (phase : ScaleSetDeliveryRecoveryPhase) : option (list ScaleSetRunnerRequestId) :=
  match phase with
  | SettlementPrepared _ acquired _ _ _ => Some acquired
  | _ => snd <$> conclusive_evidence phase
  end.

Definition settle_step (acquired : gset N) (next : DisposableAttemptCatalogDocument)
    (request_id : ScaleSetRunnerRequestId)
    : result ScaleSetDeliverySettlementError DisposableAttemptCatalogDocument :=
  let missing := settlement_error "scale_set_settlement_attempt_missing" in
  let conflict := settlement_error "scale_set_settlement_attempt_conflict" in
  let active := find_active_by_runner_request_id next request_id in
  let tombstone := find_tombstone_by_runner_request_id next request_id in
  if bool_decide (request_id ∈ acquired)
  then if negb (is_some active) && negb (is_some tombstone) then Err missing else Ok next
  else
    match active with
    | None => if is_some tombstone then Ok next else Err missing
    | Some reservation =>
        if bool_decide (at_phase (dr_attempt reservation) ≠ PhaseReserved)
        then
          if is_some (at_github_job_id (dr_attempt reservation))
             || bool_decide (at_phase (dr_attempt reservation) = PhaseComplete)
          then Ok next else Err conflict
        else retire_reserved conflict missing next reservation request_id
    end.

Definition settle_scale_set_delivery_catalog (recovery : ScaleSetDeliveryRecoveryState)
    (catalog : DisposableAttemptCatalogDocument)
    : result ScaleSetDeliverySettlementError DisposableAttemptCatalogDocument :=
  if negb (matches_catalog recovery catalog)
  then Err (settlement_error "scale_set_settlement_catalog_drift")
  else
    acquired ← ok_or (settled_requests (rs_phase recovery))
      (settlement_error "scale_set_settlement_evidence_incomplete");
    available ← map_err (λ _, settlement_error "scale_set_settlement_delivery_invalid")
      (available_request_ids (rs_delivery recovery));
    fold_result (settle_step (list_to_set acquired)) catalog available.
End recovery.
