(* ===== verification/RecoveryTheorems.v ===== *)
(** * Theorems about the recovery of a delivery

    Runs of the recovery document from a reconciled delivery: what stays fixed,
    how long a run can be, what a settlement rests on, and what a step does when
    it is taken again. *)

From S2P Require Import Prelude SortBy Artifact ExecutionAdmission ScaleSetProtocol AttemptState.
From S2P Require Import AttemptLifecycle WorkerReconciler ReconcilerTheorems AttemptCatalog.
From S2P Require Import CatalogDocument CatalogSteps CatalogTheorems AttemptCodec ScaleSetDelivery DeliveryConsumer.
From S2P Require Import CatalogCodec DeliveryTheorems DeliveryRecovery.

Local Open Scope N_scope.

(** ** Sorted request lists *)

Lemma btree_of_list l : NoDup l → sort_by N.compare l = btree_elements (list_to_set l).
Proof.
  intros Hnd. unfold btree_elements. apply (sort_by_unique N.compare).
  - intros x y _ _. apply N.compare_eq.
  - by rewrite elements_list_to_set.
Qed.

Lemma btree_NoDup X : NoDup (btree_elements X).
Proof. unfold btree_elements. rewrite sort_by_Permutation. apply NoDup_elements. Qed.

Lemma btree_length X : length (btree_elements X) = size X.
Proof. unfold btree_elements. by rewrite length_sort_by. Qed.

Lemma list_of_btree X : list_to_set (btree_elements X) = X.
Proof. apply set_eq. intros q. by rewrite elem_of_list_to_set, elem_of_btree. Qed.

Lemma observe_step_spec (seen : gset N) observed q :
  NoDup observed → seen = list_to_set observed →
  NoDup (observe_step (seen, observed) q).2 ∧
  (observe_step (seen, observed) q).1 = list_to_set (observe_step (seen, observed) q).2 ∧
  (observe_step (seen, observed) q).1 = {[q]} ∪ seen.
Proof.
  intros Hnd ->. simpl. case_bool_decide as Hq; simpl.
  - split_and!; [done..|]. set_solver.
  - split_and!; [|set_solver|done]. apply NoDup_app. split_and!; [done| |apply NoDup_singleton].
    intros x Hx ->%list_elem_of_singleton. set_solver.
Qed.

Lemma merge_observed_spec observed newly :
  NoDup observed →
  merge_observed observed newly = btree_elements (list_to_set observed ∪ list_to_set newly).
Proof.
  intros Hnd. unfold merge_observed.
  assert (∀ (seen : gset N) obs, NoDup obs → seen = list_to_set obs →
    NoDup (foldl observe_step (seen, obs) newly).2 ∧
    list_to_set (foldl observe_step (seen, obs) newly).2 = seen ∪ list_to_set newly) as Hfold.
  { induction newly as [|q newly IH]; intros seen obs Hobs Hseen; cbn [foldl].
    - simpl. split; [done|]. set_solver.
    - destruct (observe_step_spec seen obs q Hobs Hseen) as (Hnd1 & Heq1 & Hq1).
      destruct (observe_step (seen, obs) q) as [seen1 obs1]. cbn [fst snd] in *.
      destruct (IH seen1 obs1 Hnd1 Heq1) as [? Heq2]. split; [done|].
      etrans; [exact Heq2|]. set_solver. }
  destruct (Hfold (list_to_set observed) observed Hnd eq_refl) as [Hnd' Heq].
  rewrite btree_of_list by done. by rewrite Heq.
Qed.

Section recovery.
Context `{SERDE : CatalogSerde} `{DSERDE : DeliverySerde} `{HASHER : Sha256Hasher}.

(** ** Acquired requests *)

Lemma acquired_step_Ok (available seen seen' : gset N) q :
  acquired_step available seen q = Ok seen' ↔ q ∈ available ∧ q ∉ seen ∧ seen' = {[q]} ∪ seen.
Proof.
  unfold acquired_step. repeat case_bool_decide; simpl; split; try done; try (by intros (? & ? & _)).
  - by intros [= <-].
  - by intros (_ & _ & ->).
Qed.

Lemma acquired_fold (available seen : gset N) l seen' :
  fold_result (acquired_step available) seen l = Ok seen' ↔
  NoDup l ∧ (∀ q, q ∈ l → q ∈ available ∧ q ∉ seen) ∧ seen' = list_to_set l ∪ seen.
Proof.
  revert seen. induction l as [|q l IH]; intros seen; cbn [fold_result list_to_set].
  { split; [intros [= <-]; split_and!; [constructor|by intros ? ?%elem_of_nil|set_solver]|].
    intros (_ & _ & ->). simpl. by rewrite union_empty_l_L. }
  rewrite bind_Ok. setoid_rewrite acquired_step_Ok. setoid_rewrite IH. simpl. split.
  - intros (seen1 & (Hav & Hns & ->) & Hnd & Hin & ->). split_and!; [|set_solver..].
    constructor; [|done]. intros Hq. apply Hin in Hq as [_ Hq]. set_solver.
  - intros ([Hq Hnd]%NoDup_cons & Hin & ->). destruct (Hin q) as [Hav Hns]; [by left|].
    exists ({[q]} ∪ seen). split_and!; [done..| |set_solver].
    intros q' Hq'. destruct (Hin q') as [? ?]; [by right|]. set_solver.
Qed.

Lemma validated_acquired_Ok s l l' :
  validated_acquired s l = Ok l' ↔
  ∃ available, available_request_ids (rs_delivery s) = Ok available ∧
    NoDup l ∧ (∀ q, q ∈ l → q ∈ available) ∧ l' = btree_elements (list_to_set l).
Proof.
  unfold validated_acquired. rewrite bind_Ok. split.
  - intros (available & Hav%map_err_Ok & H). apply bind_Ok in H as (seen & Hseen & [= <-]).
    apply acquired_fold in Hseen as (Hnd & Hin & ->). exists available. split_and!; [done|done| |].
    + intros q Hq. apply Hin in Hq as [Hq _]. by apply elem_of_list_to_set in Hq.
    + by rewrite union_empty_r_L.
  - intros (available & Hav & Hnd & Hin & ->). exists available.
    split; [unfold or_corrupt; by rewrite Hav|].
    rewrite (proj2 (acquired_fold _ _ _ (list_to_set l))); [done|].
    split_and!; [done| |by rewrite union_empty_r_L]. intros q Hq. split; [|set_solver].
    by apply elem_of_list_to_set, Hin.
Qed.

(** A list that [validated_acquired] keeps: sorted requests of the delivery. *)
Definition acquired_ok (d : ScaleSetDelivery) (l : list N) : Prop :=
  ∃ available, available_request_ids d = Ok available ∧ (∀ q, q ∈ l → q ∈ available) ∧
    l = btree_elements (list_to_set l).

Lemma same_acquired_Ok s l : same_acquired s l = Ok () ↔ acquired_ok (rs_delivery s) l.
Proof.
  unfold same_acquired. rewrite bind_Ok. setoid_rewrite validated_acquired_Ok. split.
  - intros (l' & (available & Hav & Hnd & Hin & ->) & H). case_bool_decide as Heq; [|done].
    exists available. by rewrite Heq.
  - intros (available & Hav & Hin & Heq). exists (btree_elements (list_to_set l)). split.
    + exists available. split_and!; try done. rewrite Heq. apply btree_NoDup.
    + by rewrite bool_decide_eq_true_2.
Qed.

(** ** The depth of validation is enough *)

Definition phase_depth (phase : ScaleSetDeliveryRecoveryPhase) : nat :=
  match phase with
  | LifecycleReconciled _ | LifecycleAcknowledgementStarted _ | LifecycleAcknowledged _ => 2
  | SettlementPrepared _ _ _ _ _ => 3
  | _ => 1
  end.

Lemma bind_congr {E A B} (m : result E A) (f g : A → result E B) : (∀ a, f a = g a) → m ≫= f = m ≫= g.
Proof. intros Hfg. destruct m; simpl; [apply Hfg|done..]. Qed.

Lemma resolution_validate_ext f g r s :
  (∀ s', phase_depth (rs_phase s') = 1%nat → f s' = g s') → resolution_validate f r s = resolution_validate g r s.
Proof.
  intros Hfg. unfold resolution_validate. do 2 (apply bind_congr; intros ?). case_match; [done|].
  apply bind_congr; intros ?. case_match; [done|]. apply bind_congr; intros ?. by rewrite Hfg.
Qed.

Lemma settlement_validate_ext f g s proof acquired prior revision digest :
  (∀ s', phase_depth (rs_phase s') = 2%nat → f s' = g s') →
  settlement_validate f s proof acquired prior revision digest =
  settlement_validate g s proof acquired prior revision digest.
Proof.
  intros Hfg. unfold settlement_validate. destruct proof; [done..|].
  apply bind_congr; intros ?. do 3 (case_match; [done|]). f_equal. case_match; [done|].
  apply bind_congr; intros ?. case_match; [done|]. by apply Hfg.
Qed.

Lemma recovery_validate_deeper n s :
  (phase_depth (rs_phase s) ≤ n)%nat → recovery_validate_at n s = recovery_validate s.
Proof.
  assert (∀ k n s, (phase_depth (rs_phase s) ≤ k)%nat → (k ≤ n)%nat →
    recovery_validate_at n s = recovery_validate_at k s) as Hdeep.
  { intros k. induction k as [|k IH]; intros m s' Hk Hm.
    - destruct (rs_phase s'); simpl in Hk; lia.
    - destruct m as [|m]; [lia|]. cbn [recovery_validate_at].
      destruct (rs_phase s') eqn:Hp; simpl in Hk; try done.
      1-3: rewrite (resolution_validate_ext (recovery_validate_at m) (recovery_validate_at k)); [done|];
        intros s1 Hs1; apply IH; lia.
      rewrite (settlement_validate_ext (recovery_validate_at m) (recovery_validate_at k)); [done|].
      intros s1 Hs1; apply IH; lia. }
  intros Hn. unfold recovery_validate. rewrite (Hdeep (phase_depth (rs_phase s)) n) by done.
  symmetry. apply Hdeep; [done|]. destruct (rs_phase s); simpl; lia.
Qed.

(** ** Runs *)

Inductive recovery_action :=
| ActBeginAck
| ActAckResponse (acquired : list N)
| ActRecoveryAcquire (acquired : list N)
| ActResolve (delivery : ScaleSetDelivery) (acquired : list N)
    (prior_catalog target_catalog : DisposableAttemptCatalogDocument)
| ActBeginLifecycleAck
| ActLifecycleAck
| ActSettle (prior_catalog target_catalog : DisposableAttemptCatalogDocument).

Definition recovery_apply (s : ScaleSetDeliveryRecoveryState) (action : recovery_action)
    : result ScaleSetDeliveryRecoveryError ScaleSetDeliveryRecoveryState :=
  match action with
  | ActBeginAck => begin_ack s
  | ActAckResponse acquired => record_ack_response s acquired
  | ActRecoveryAcquire acquired => record_recovery_acquire s acquired
  | ActResolve delivery acquired prior target => prepare_lifecycle_resolution s delivery acquired prior target
  | ActBeginLifecycleAck => begin_lifecycle_ack s
  | ActLifecycleAck => record_lifecycle_ack s
  | ActSettle prior target => prepare_settlement s prior target
  end.

(** The phase after a step that changed it. *)
Inductive phase_step (s : ScaleSetDeliveryRecoveryState) :
    recovery_action → ScaleSetDeliveryRecoveryPhase → Prop :=
| phase_begin_ack : rs_phase s = Reconciled → phase_step s ActBeginAck AcknowledgementStarted
| phase_ack l l' :
    rs_phase s = AcknowledgementStarted → validated_acquired s l = Ok l' →
    phase_step s (ActAckResponse l) (Acknowledged l')
| phase_first_acquire l l' :
    rs_phase s = AcknowledgementStarted → validated_acquired s l = Ok l' →
    phase_step s (ActRecoveryAcquire l) (AcquisitionRecoveryObserved (merge_observed [] l'))
| phase_acquire observed l l' :
    rs_phase s = AcquisitionRecoveryObserved observed → validated_acquired s l = Ok l' →
    merge_observed observed l' ≠ observed →
    phase_step s (ActRecoveryAcquire l) (AcquisitionRecoveryObserved (merge_observed observed l'))
| phase_resolve delivery l l' prior target digest :
    rs_phase s = AcquisitionRecoveryObserved [] → validated_acquired s l = Ok l' → l' ≠ [] →
    matches_catalog s prior = true → catalog_digest target = Ok digest →
    phase_step s (ActResolve delivery l prior target)
      (LifecycleReconciled (mkResolution (rs_revision s) delivery l' prior (cd_revision target) digest))
| phase_begin_lifecycle r :
    rs_phase s = LifecycleReconciled r → phase_step s ActBeginLifecycleAck (LifecycleAcknowledgementStarted r)
| phase_lifecycle_ack r :
    rs_phase s = LifecycleAcknowledgementStarted r → phase_step s ActLifecycleAck (LifecycleAcknowledged r)
| phase_settle prior target digest proof acquired :
    conclusive_evidence (rs_phase s) = Some (proof, acquired) → matches_catalog s prior = true →
    catalog_digest target = Ok digest →
    phase_step s (ActSettle prior target)
      (SettlementPrepared proof acquired prior (cd_revision target) digest).

(** What a step that changed the phase kept. *)
Record recovery_next (s s' : ScaleSetDeliveryRecoveryState) : Prop := {
  rn_revision : rs_revision s' = rs_revision s + 1;
  rn_delivery : rs_delivery s' = rs_delivery s;
  rn_prior_revision : rs_prior_catalog_revision s' = rs_prior_catalog_revision s;
  rn_prior_digest : rs_prior_catalog_digest s' = rs_prior_catalog_digest s;
  rn_valid : recovery_validate s' = Ok ();
}.

Lemma next_recovery_revision_Ok s r :
  next_recovery_revision s = Ok r ↔ r = rs_revision s + 1 ∧ rs_revision s + 1 ≤ MAX_DELIVERY_RECOVERY_REVISION.
Proof.
  unfold next_recovery_revision, checked_add. rewrite ok_or_Ok.
  destruct (N.leb_spec (rs_revision s + 1) u64_max); simpl.
  - destruct (N.leb_spec (rs_revision s + 1) MAX_DELIVERY_RECOVERY_REVISION); split; try done.
    + by intros [= <-].
    + by intros [-> _].
    + intros [_ ?]. lia.
  - split; [done|]. intros [_ ?]. unfold u64_max, MAX_DELIVERY_RECOVERY_REVISION in *. lia.
Qed.

Lemma recovery_successor_Ok s phase s' :
  recovery_successor s phase = Ok s' → recovery_next s s' ∧ rs_phase s' = phase ∧
    rs_catalog_revision s' = rs_catalog_revision s ∧ rs_catalog_digest s' = rs_catalog_digest s.
Proof.
  unfold recovery_successor. intros H. apply bind_Ok in H as (r & [-> _]%next_recovery_revision_Ok & H).
  apply bind_Ok in H as ([] & Hval & [= <-]). done.
Qed.

Lemma successor_with_catalog_Ok s phase c s' :
  successor_with_catalog s phase c = Ok s' → recovery_next s s' ∧ rs_phase s' = phase ∧
    rs_catalog_revision s' = cd_revision c ∧ catalog_digest c = Ok (rs_catalog_digest s').
Proof.
  unfold successor_with_catalog. intros H. apply bind_Ok in H as (r & [-> _]%next_recovery_revision_Ok & H).
  apply bind_Ok in H as (digest & Hd & H). apply bind_Ok in H as ([] & Hval & [= <-]). done.
Qed.

(** Every step: nothing, or the next phase at the next revision. *)
Lemma recovery_apply_Ok s action s' :
  recovery_apply s action = Ok s' → s' = s ∨ recovery_next s s' ∧ phase_step s action (rs_phase s').
Proof.
  destruct action as [|l|l|d l prior target| | |prior target]; simpl; intros H.
  - unfold begin_ack in H. destruct (rs_phase s) eqn:Hp; try done; [|injection H as <-; by left].
    apply recovery_successor_Ok in H as (? & -> & _). right. split; [done|by constructor].
  - unfold record_ack_response in H. apply bind_Ok in H as (l' & Hl & H).
    destruct (rs_phase s) eqn:Hp; try done.
    + apply recovery_successor_Ok in H as (? & -> & _). right. split; [done|by constructor].
    + case_bool_decide; [|done]. injection H as <-. by left.
  - unfold record_recovery_acquire in H. apply bind_Ok in H as (observed & Hobs & H).
    apply bind_Ok in H as (l' & Hl & H). case_bool_decide as Hsame; [injection H as <-; by left|].
    apply recovery_successor_Ok in H as (? & -> & _). right. split; [done|].
    destruct (rs_phase s) eqn:Hp; try done; injection Hobs as <-; [by constructor|].
    constructor; [done..|]. congruence.
  - unfold prepare_lifecycle_resolution in H. apply ok_guard in H as [Hg H].
    apply bind_Ok in H as (available & _ & H). apply ok_guard in H as [_ H].
    apply bind_Ok in H as (l' & Hl & H). apply ok_guard in H as [Hne H].
    apply bind_Ok in H as (events & _ & H). apply ok_guard in H as [_ H].
    apply bind_Ok in H as (digest & Hd & H). apply successor_with_catalog_Ok in H as (? & -> & _).
    right. split; [done|]. bprop. constructor; [|done| |done..].
    + unfold is_empty_observation in *. destruct (rs_phase s) as [| | |[]| | | |]; done.
    + by destruct l'.
  - unfold begin_lifecycle_ack in H. destruct (rs_phase s) eqn:Hp; try done; [|injection H as <-; by left].
    apply recovery_successor_Ok in H as (? & -> & _). right. split; [done|by constructor].
  - unfold record_lifecycle_ack in H. destruct (rs_phase s) eqn:Hp; try done; [|injection H as <-; by left].
    apply recovery_successor_Ok in H as (? & -> & _). right. split; [done|by constructor].
  - unfold prepare_settlement, prepare_settlement_binding in H. apply ok_guard in H as [Hm H].
    apply bind_Ok in H as (digest & Hd & H). apply bind_Ok in H as ([proof acquired] & He%ok_or_Ok & H).
    apply recovery_successor_Ok in H as (? & -> & _). right. bprop. split; [done|by constructor].
Qed.

(** ** How long a run can be *)

Lemma acquired_length d l :
  acquired_ok d l → ∀ available, available_request_ids d = Ok available → (length l ≤ length available)%nat.
Proof.
  intros (available' & Hav & Hin & Heq) available Hav'. assert (available' = available) as -> by congruence.
  apply submseteq_length, NoDup_submseteq; [rewrite Heq; apply btree_NoDup|done].
Qed.

Lemma available_length d available :
  available_request_ids d = Ok available → length available = length (dl_available_request_ids d).
Proof.
  unfold available_request_ids. generalize (dl_available_request_ids d) as l. intros l.
  revert available. induction l as [|q l IH]; intros available H; simpl in H; [by injection H as <-|].
  apply bind_Ok in H as (q' & _ & H). apply bind_Ok in H as (l' & Hl & [= <-]). simpl. f_equal. auto.
Qed.

Lemma valid_header s :
  recovery_validate s = Ok () →
  (length (dl_available_request_ids (rs_delivery s)) ≤ MAX_SCALE_SET_DELIVERY_EVENTS)%nat ∧
  match rs_phase s with
  | Reconciled => rs_revision s = 1
  | AcknowledgementStarted => rs_revision s = 2
  | Acknowledged l => rs_revision s = 3 ∧ acquired_ok (rs_delivery s) l
  | AcquisitionRecoveryObserved l => 3 ≤ rs_revision s ∧ acquired_ok (rs_delivery s) l
  | LifecycleReconciled r => rs_revision s = 4 ∧ lr_base_revision r = 3
  | LifecycleAcknowledgementStarted r => rs_revision s = 5 ∧ lr_base_revision r = 3
  | LifecycleAcknowledged r => rs_revision s = 6 ∧ lr_base_revision r = 3
  | SettlementPrepared proof l prior _ _ => acquired_ok (rs_delivery s) l ∧ matches_catalog s prior = true
  end.
Proof.
  assert (∀ f r step, expected_revision_step (rs_phase s) = Some step → resolution_validate f r s = Ok () →
    rs_revision s = 3 + step ∧ lr_base_revision r = 3) as Hres.
  { intros f r step Hstep H. unfold resolution_validate in H. rewrite Hstep in H. simpl in H.
    apply bind_Ok in H as (expected & He%ok_or_Ok & H). apply ok_guard in H as [Hg _].
    apply checked_add_Some in He as [-> _]. bprop. lia. }
  unfold recovery_validate. cbn [recovery_validate_at]. intros H. apply ok_guard in H as [_ H].
  apply bind_Ok in H as (b & Hb%map_err_Ok & H). split.
  { unfold encode_scale_set_delivery in Hb. apply bind_Ok in Hb as ([] & Hv & _).
    unfold delivery_validate in Hv. apply ok_guard in Hv as [Hg _]. bprop. by apply Nat.ltb_ge. }
  destruct (rs_phase s) eqn:Hp; try (case_match eqn:Hrev; [|done]); bprop;
    try (apply same_acquired_Ok in H); try done; try (by eapply (Hres _ _ _ eq_refl)).
  unfold settlement_validate in H. apply bind_Ok in H as ([] & Hacq%same_acquired_Ok & H).
  apply ok_guard in H as [? _]. by bprop.
Qed.

(** The bound on the revision by phase that runs keep. *)
Definition revision_bound (phase : ScaleSetDeliveryRecoveryPhase) : N :=
  match phase with
  | AcquisitionRecoveryObserved l => 3 + N.of_nat (length l)
  | SettlementPrepared ProofAcquisitionRecovery l _ _ _ => 4 + N.of_nat (length l)
  | _ => 7
  end.

Lemma merge_grows observed l :
  observed = btree_elements (list_to_set observed) → merge_observed observed l ≠ observed →
  (length observed < length (merge_observed observed l))%nat.
Proof.
  intros Heq Hne. assert (NoDup observed) as Hnd by (rewrite Heq; apply btree_NoDup).
  rewrite merge_observed_spec in * by done. rewrite btree_length.
  rewrite Heq, btree_length at 1. apply subset_size.
  split; [set_solver|]. intros Hsub. apply Hne. rewrite Heq at 2. f_equal. set_solver.
Qed.

Lemma phase_step_bound s action s' :
  recovery_validate s = Ok () → rs_revision s ≤ revision_bound (rs_phase s) →
  recovery_next s s' → phase_step s action (rs_phase s') → rs_revision s' ≤ revision_bound (rs_phase s').
Proof.
  intros Hval Hle [-> _ _ _ Hval'] Hstep. apply valid_header in Hval as [_ Hval], Hval' as [_ Hval'].
  destruct Hstep as [Hp|l l' Hp|l l' Hp|observed l l' Hp _ Hne|d l l' prior target digest Hp|r Hp|r Hp
    |prior target digest proof acquired He]; try (rewrite Hp in *; simpl in *; lia).
  - rewrite Hp in *. simpl in *. destruct Hval as [_ (av & _ & _ & Heq)].
    pose proof (merge_grows observed l' Heq Hne). lia.
  - unfold conclusive_evidence in He. destruct (rs_phase s) as [| |l|l| | |r|]; simpl in *; try done.
    + injection He as <- <-. lia.
    + case_match; [|done]. injection He as <- <-. lia.
    + injection He as <- <-. lia.
Qed.

Lemma run_facts s actions s' :
  recovery_validate s = Ok () → rs_revision s ≤ revision_bound (rs_phase s) →
  fold_result recovery_apply s actions = Ok s' →
  recovery_validate s' = Ok () ∧ rs_revision s' ≤ revision_bound (rs_phase s') ∧
  rs_delivery s' = rs_delivery s ∧ rs_prior_catalog_revision s' = rs_prior_catalog_revision s ∧
  rs_prior_catalog_digest s' = rs_prior_catalog_digest s.
Proof.
  revert s. induction actions as [|action actions IH]; intros s Hval Hle H; simpl in H.
  { by injection H as <-. }
  apply bind_Ok in H as (s1 & H1 & H). apply recovery_apply_Ok in H1 as [->|[Hn Hstep]]; [by apply IH|].
  destruct (IH s1) as (? & ? & -> & -> & ->); [apply Hn|by eapply phase_step_bound|done|].
  destruct Hn. done.
Qed.

Lemma reconciled_Ok d prior c s :
  reconciled d prior c = Ok s →
  recovery_validate s = Ok () ∧ rs_phase s = Reconciled ∧ rs_revision s = 1 ∧ rs_delivery s = d ∧
  matches_prior_catalog s prior = true ∧ matches_catalog s c = true.
Proof.
  unfold reconciled. intros H. apply bind_Ok in H as (d0 & H0 & H). apply bind_Ok in H as (d1 & H1 & H).
  apply bind_Ok in H as ([] & Hval & [= <-]). split_and!; [done..| |];
    unfold matches_prior_catalog, matches_catalog, binds, digest_is; simpl;
    rewrite N.eqb_refl, ?H0, ?H1; by apply bool_decide_eq_true_2.
Qed.

(** (C33) From the moment a delivery is reconciled, whatever steps are taken,
    the recovery document stays valid, keeps the delivery and its binding to the
    catalog before it, and has at most fifty-four revisions: there are finitely
    many changes, and the revision limit is never what stops one. *)
Theorem recovery_run_bounded (d : ScaleSetDelivery) (prior c : DisposableAttemptCatalogDocument)
    (s0 s : ScaleSetDeliveryRecoveryState) (actions : list recovery_action)
    (H0 : reconciled d prior c = Ok s0) (H : fold_result recovery_apply s0 actions = Ok s) :
  recovery_validate s = Ok () ∧ rs_delivery s = d ∧ matches_prior_catalog s prior = true ∧
  rs_revision s ≤ 54 ∧ next_recovery_revision s = Ok (rs_revision s + 1).
Proof.
  apply reconciled_Ok in H0 as (Hval0 & Hp0 & Hrev0 & Hd0 & Hprior & _).
  apply run_facts in H as (Hval & Hle & Hd & Hr & Hg); [|done|rewrite Hp0, Hrev0; simpl; lia].
  assert (rs_revision s ≤ 54) as Hmax.
  { apply valid_header in Hval as [Hlen Hval]. unfold revision_bound in Hle.
    assert (∀ l, acquired_ok (rs_delivery s) l → (length l ≤ 50)%nat) as Hacq.
    { intros l Hl. pose proof Hl as (available & Hav & _). apply (acquired_length _ _ Hl) in Hav as Hle'.
      apply available_length in Hav. unfold MAX_SCALE_SET_DELIVERY_EVENTS in Hlen. lia. }
    destruct (rs_phase s) as [| | |l| | | |[] l]; try lia.
    - destruct Hval as [_ Hval%Hacq]. lia.
    - destruct Hval as [Hval%Hacq _]. lia. }
  split_and!; [done|congruence| |done|].
  - unfold matches_prior_catalog in *. by rewrite Hr, Hg.
  - apply next_recovery_revision_Ok. split; [done|]. unfold MAX_DELIVERY_RECOVERY_REVISION. lia.
Qed.

(** ** What a settlement rests on *)

(** A lifecycle resolution that was asked for. *)
Definition resolved_in (actions : list recovery_action) (r : ScaleSetLifecycleResolution) : Prop :=
  lr_acquired r ≠ [] ∧ ∃ l target, ActResolve (lr_delivery r) l (lr_prior_catalog r) target ∈ actions ∧
    ∀ q, q ∈ lr_acquired r ↔ q ∈ l.

Definition acquired_in (actions : list recovery_action) (l : list N) : Prop :=
  ∀ q, q ∈ l ↔ ∃ l', ActRecoveryAcquire l' ∈ actions ∧ q ∈ l'.

Definition acknowledged_in (actions : list recovery_action) (l : list N) : Prop :=
  ∃ l', ActAckResponse l' ∈ actions ∧ ∀ q, q ∈ l ↔ q ∈ l'.

(** What the steps so far show for the phase they led to. *)
Definition phase_evidence (actions : list recovery_action) (phase : ScaleSetDeliveryRecoveryPhase) : Prop :=
  match phase with
  | Reconciled | AcknowledgementStarted => ∀ l, ActRecoveryAcquire l ∉ actions
  | Acknowledged l => acknowledged_in actions l
  | AcquisitionRecoveryObserved l => acquired_in actions l
  | LifecycleReconciled r | LifecycleAcknowledgementStarted r => resolved_in actions r
  | LifecycleAcknowledged r => resolved_in actions r ∧ ActLifecycleAck ∈ actions
  | SettlementPrepared proof l prior revision digest =>
      (∃ target, ActSettle prior target ∈ actions ∧ revision = cd_revision target ∧
         catalog_digest target = Ok digest) ∧
      match proof with
      | ProofAcknowledged => acknowledged_in actions l
      | ProofAcquisitionRecovery => l ≠ [] ∧ acquired_in actions l
      | ProofLifecycleEvidence r => l = lr_acquired r ∧ resolved_in actions r ∧ ActLifecycleAck ∈ actions
      end
  end.

(** A step that changes nothing adds nothing. *)
Lemma evidence_same s actions action :
  recovery_validate s = Ok () → recovery_apply s action = Ok s →
  phase_evidence actions (rs_phase s) → phase_evidence (actions ++ [action]) (rs_phase s).
Proof.
  intros Hval Happ H.
  assert (∀ a, a ∈ actions → a ∈ actions ++ [action]) as Hin by (intros; apply elem_of_app; by left).
  assert (∀ r, resolved_in actions r → resolved_in (actions ++ [action]) r) as Hresolved
    by (intros r (? & l & target & ? & ?); split; eauto).
  assert (∀ l, acknowledged_in actions l → acknowledged_in (actions ++ [action]) l) as Hack
    by (intros l (l' & ? & ?); exists l'; auto).
  assert ((∀ l, action ≠ ActRecoveryAcquire l) → ∀ l, acquired_in actions l → acquired_in (actions ++ [action]) l)
    as Hacq.
  { intros Hno l Hl q. rewrite (Hl q). split.
    - intros (l' & ? & ?). eauto.
    - intros (l' & [?|Heq%list_elem_of_singleton]%elem_of_app & ?); [eauto|]. by destruct (Hno l'). }
  destruct (rs_phase s) as [| |l|l|r|r|r|proof l prior revision digest] eqn:Hp; simpl in *; auto.
  - intros l [?|Heq%list_elem_of_singleton]%elem_of_app; [by eapply H|]. subst action. simpl in Happ.
    unfold record_recovery_acquire in Happ. by rewrite Hp in Happ.
  - intros l [?|Heq%list_elem_of_singleton]%elem_of_app; [by eapply H|]. subst action. simpl in Happ.
    unfold record_recovery_acquire in Happ. rewrite Hp in Happ. rsimpl.
    apply bind_Ok in Happ as (l' & _ & Happ). rewrite bool_decide_eq_false_2 in Happ by done.
    apply recovery_successor_Ok in Happ as (_ & Hp' & _). congruence.
  - destruct action as [| |l'| | | |]; try (by apply Hacq). simpl in Happ.
    apply valid_header in Hval as [_ Hval]. rewrite Hp in Hval. destruct Hval as [_ (av & _ & _ & Heq)].
    unfold record_recovery_acquire in Happ. rewrite Hp in Happ. rsimpl.
    apply bind_Ok in Happ as (l1 & (av' & _ & _ & _ & ->)%validated_acquired_Ok & Happ).
    assert (merge_observed l (btree_elements (list_to_set l')) = l) as Hm.
    { case_bool_decide as Hsame; [by injection Hsame|].
      apply recovery_successor_Ok in Happ as (_ & Hp' & _). rewrite Hp in Hp'. by injection Hp'. }
    intros q. split.
    + intros (l2 & ? & ?)%H. eauto.
    + intros (l2 & [?|[= <-]%list_elem_of_singleton]%elem_of_app & Hq); [apply H; eauto|].
      rewrite <-Hm, merge_observed_spec, elem_of_btree, list_of_btree by (rewrite Heq; apply btree_NoDup).
      set_solver.
  - destruct H. auto.
  - destruct H as [(target & ? & ? & ?) H]. split; [eauto|]. destruct proof; auto.
    + destruct H as [? H]. split; [done|]. apply Hacq; [|done]. intros l' ->. simpl in Happ.
      unfold record_recovery_acquire in Happ. by rewrite Hp in Happ.
    + destruct H as (? & ? & ?). auto.
Qed.

Lemma evidence_step s s' actions action :
  recovery_validate s = Ok () → phase_step s action (rs_phase s') →
  phase_evidence actions (rs_phase s) → phase_evidence (actions ++ [action]) (rs_phase s').
Proof.
  intros Hval Hstep H.
  assert (∀ a, a ∈ actions → a ∈ actions ++ [action]) as Hin by (intros; apply elem_of_app; by left).
  assert (action ∈ actions ++ [action]) as Hlast by (apply elem_of_app; right; by left).
  assert (∀ r, resolved_in actions r → resolved_in (actions ++ [action]) r) as Hresolved
    by (intros r (? & l & target & ? & ?); split; eauto).
  destruct Hstep as [Hp|l l' Hp Hl|l l' Hp Hl|observed l l' Hp Hl Hne|d l l' prior target digest Hp Hl Hne|r Hp|r Hp
    |prior target digest proof acquired He _ Hd]; try rewrite Hp in H; simpl in *.
  - intros l [?|?%list_elem_of_singleton]%elem_of_app; [by eapply H|done].
  - apply validated_acquired_Ok in Hl as (av & _ & _ & _ & ->). exists l. split; [done|].
    intros q. by rewrite elem_of_btree, elem_of_list_to_set.
  - apply validated_acquired_Ok in Hl as (av & _ & _ & _ & ->). intros q.
    rewrite merge_observed_spec, elem_of_btree, list_of_btree by constructor. simpl. rewrite union_empty_l_L.
    rewrite elem_of_list_to_set. split; [eauto|].
    intros (l' & [Hin'|[= <-]%list_elem_of_singleton]%elem_of_app & Hq); [by apply H in Hin'|done].
  - apply valid_header in Hval as [_ Hval]. rewrite Hp in Hval. destruct Hval as [_ (av & _ & _ & Heq)].
    apply validated_acquired_Ok in Hl as (av' & _ & _ & _ & ->). intros q.
    rewrite merge_observed_spec, elem_of_btree, list_of_btree by (rewrite Heq; apply btree_NoDup).
    rewrite elem_of_union, !elem_of_list_to_set, (H q). split.
    + intros [(l' & ? & ?)|?]; eauto.
    + intros (l' & [?|[= <-]%list_elem_of_singleton]%elem_of_app & ?); eauto.
  - apply validated_acquired_Ok in Hl as (av' & _ & _ & _ & ->). split; [done|]. simpl. exists l, target.
    split; [done|]. intros q. by rewrite elem_of_btree, elem_of_list_to_set.
  - auto.
  - auto.
  - split; [eauto|]. unfold conclusive_evidence in He.
    destruct (rs_phase s) as [| |l|l| | |r|] eqn:Hp; try done; simpl in H.
    + injection He as <- <-. destruct H as (l' & ? & ?). exists l'. auto.
    + case_match eqn:Hne; [|done]. injection He as <- <-. split; [by destruct l|]. intros q. rewrite (H q). split.
      * intros (l' & ? & ?). eauto.
      * intros (l' & [?|?%list_elem_of_singleton]%elem_of_app & ?); [eauto|done].
    + injection He as <- <-. destruct H. auto.
Qed.

Lemma run_evidence s0 before actions s :
  recovery_validate s0 = Ok () → phase_evidence before (rs_phase s0) →
  fold_result recovery_apply s0 actions = Ok s → phase_evidence (before ++ actions) (rs_phase s).
Proof.
  revert s0 before. induction actions as [|action actions IH]; intros s0 before Hval H Hrun; simpl in Hrun.
  { injection Hrun as <-. by rewrite app_nil_r. }
  apply bind_Ok in Hrun as (s1 & H1 & Hrun). rewrite cons_middle, app_assoc.
  pose proof H1 as [->|[Hn Hstep]]%recovery_apply_Ok.
  - apply (IH s0); [done|by apply evidence_same|done].
  - apply (IH s1); [apply Hn|by eapply evidence_step|done].
Qed.

(** (C21) A settlement rests on what was observed.  In every run that settles,
    the acquired requests are those of a response to the acknowledgement, or
    all those that replayed acquisitions reported, of which there is at least
    one, or those of a later delivery that was itself acknowledged: an empty
    replay never becomes proof. *)
Theorem settlement_by_evidence (d : ScaleSetDelivery) (prior c : DisposableAttemptCatalogDocument)
    (s0 s : ScaleSetDeliveryRecoveryState) (actions : list recovery_action)
    (proof : ScaleSetDeliverySettlementProof) (l : list N) (settled : DisposableAttemptCatalogDocument)
    (revision : N) (digest : string)
    (H0 : reconciled d prior c = Ok s0) (H : fold_result recovery_apply s0 actions = Ok s)
    (Hs : rs_phase s = SettlementPrepared proof l settled revision digest) :
  match proof with
  | ProofAcknowledged => acknowledged_in actions l
  | ProofAcquisitionRecovery => l ≠ [] ∧ acquired_in actions l
  | ProofLifecycleEvidence r => l = lr_acquired r ∧ resolved_in actions r ∧ ActLifecycleAck ∈ actions
  end.
Proof.
  apply reconciled_Ok in H0 as (Hval0 & Hp0 & _).
  apply (run_evidence s0 []) in H; [|done|rewrite Hp0; intros l' ?%elem_of_nil; done].
  rewrite Hs in H. by destruct H.
Qed.

(** ** A step taken again *)

Lemma validated_again s s' l l' :
  rs_delivery s' = rs_delivery s → validated_acquired s l = Ok l' → validated_acquired s' l = Ok l'.
Proof. intros Hd. by rewrite !validated_acquired_Ok, Hd. Qed.

Lemma merge_again observed l :
  NoDup observed → merge_observed (merge_observed observed l) l = merge_observed observed l.
Proof.
  intros Hnd. rewrite (merge_observed_spec observed) by done.
  rewrite merge_observed_spec, list_of_btree by apply btree_NoDup. f_equal. set_solver.
Qed.

(** A step that was taken can be taken again without effect, after a crash
    say: every record of what the service answered is idempotent.  Only a
    resolution and a settlement are refused a second time. *)
Theorem recovery_replay (s s' : ScaleSetDeliveryRecoveryState) (action : recovery_action)
    (Hval : recovery_validate s = Ok ()) (H : recovery_apply s action = Ok s') :
  match action with
  | ActResolve _ _ _ _ | ActSettle _ _ => ∃ e, recovery_apply s' action = Err e
  | _ => recovery_apply s' action = Ok s'
  end.
Proof.
  pose proof H as Hstep. apply recovery_apply_Ok in Hstep as [->|[Hn Hstep]].
  { destruct action; try done; simpl in *.
    - unfold prepare_lifecycle_resolution in H. apply ok_guard in H as [_ H].
      apply bind_Ok in H as (? & _ & H). apply ok_guard in H as [_ H]. apply bind_Ok in H as (? & _ & H).
      apply ok_guard in H as [_ H]. apply bind_Ok in H as (? & _ & H). apply ok_guard in H as [_ H].
      apply bind_Ok in H as (? & _ & H). apply successor_with_catalog_Ok in H as [[Hr] _]. lia.
    - unfold prepare_settlement, prepare_settlement_binding in H. apply ok_guard in H as [_ H].
      apply bind_Ok in H as (? & _ & H). apply bind_Ok in H as ([] & _ & H).
      apply recovery_successor_Ok in H as [[Hr] _]. lia. }
  destruct Hn as [_ Hd _ _ _].
  inversion Hstep as [Hp Ha Hp'|l l' Hp Hl Ha Hp'|l l' Hp Hl Ha Hp'|observed l l' Hp Hl Hne Ha Hp'
    |d l l' prior target digest Hp Hl Hne _ _ Ha Hp'|r Hp Ha Hp'|r Hp Ha Hp'
    |prior target digest proof acquired He _ Hdig Ha Hp']; simpl.
  - unfold begin_ack. by rewrite <-Hp'.
  - unfold record_ack_response. rewrite (validated_again s s' l l') by done. rsimpl. rewrite <-Hp'.
    by rewrite bool_decide_eq_true_2.
  - unfold record_recovery_acquire. rewrite <-Hp'. rsimpl. rewrite (validated_again s s' l l') by done. rsimpl.
    rewrite merge_again by constructor. by rewrite bool_decide_eq_true_2.
  - apply valid_header in Hval as [_ Hval]. rewrite Hp in Hval. destruct Hval as [_ (av & _ & _ & Heq)].
    unfold record_recovery_acquire. rewrite <-Hp'. rsimpl. rewrite (validated_again s s' l l') by done. rsimpl.
    rewrite merge_again by (rewrite Heq; apply btree_NoDup). by rewrite bool_decide_eq_true_2.
  - unfold prepare_lifecycle_resolution. rewrite <-Hp'. simpl. eauto.
  - unfold begin_lifecycle_ack. by rewrite <-Hp'.
  - unfold record_lifecycle_ack. by rewrite <-Hp'.
  - unfold prepare_settlement, prepare_settlement_binding. rewrite <-Hp', Hdig. case_match; simpl; eauto.
Qed.

(** ** The successor test of the store *)

(** What the store may write over a recovery document in one replacement. *)
Inductive recovery_write (s s' : ScaleSetDeliveryRecoveryState) : Prop :=
| write_begin_ack : begin_ack s = Ok s' → recovery_write s s'
| write_ack l : record_ack_response s l = Ok s' → recovery_write s s'
| write_acquire l : record_recovery_acquire s l = Ok s' → recovery_write s s'
| write_begin_lifecycle_ack : begin_lifecycle_ack s = Ok s' → recovery_write s s'
| write_lifecycle_ack : record_lifecycle_ack s = Ok s' → recovery_write s s'
| write_settlement prior revision digest :
    prepare_settlement_binding s prior revision digest = Ok s' → recovery_write s s'.

Lemma is_candidate_true (r : result ScaleSetDeliveryRecoveryError ScaleSetDeliveryRecoveryState) s' :
  match r with Ok x => bool_decide (x = s') | _ => false end = true ↔ r = Ok s'.
Proof. destruct r; [rewrite bool_decide_eq_true|..]; naive_solver congruence. Qed.

(** The arguments of a record can be read off its result. *)
Lemma acquire_again s l l' observed :
  acquired_ok (rs_delivery s) observed → validated_acquired s l = Ok l' →
  ∃ l'', validated_acquired s (merge_observed observed l') = Ok l'' ∧
    merge_observed observed l'' = merge_observed observed l'.
Proof.
  intros (av & Hav & Hobs & Heq) Hl. pose proof Hl as (av' & Hav' & Hnd & Hin & ->)%validated_acquired_Ok.
  assert (av' = av) as -> by congruence.
  assert (NoDup observed) as Hobsnd by (rewrite Heq; apply btree_NoDup).
  rewrite (merge_observed_spec observed), list_of_btree by done. eexists. split.
  - apply validated_acquired_Ok. exists av. split_and!; [done|apply btree_NoDup| |done].
    intros q [Hq|Hq]%elem_of_btree%elem_of_union; apply elem_of_list_to_set in Hq; auto.
  - rewrite merge_observed_spec, !list_of_btree by done. f_equal. set_solver.
Qed.

Lemma ack_again s l l' :
  validated_acquired s l = Ok l' → validated_acquired s l' = Ok l'.
Proof.
  intros (av & Hav & Hnd & Hin & ->)%validated_acquired_Ok. apply validated_acquired_Ok. exists av.
  split_and!; [done|apply btree_NoDup| |by rewrite list_of_btree].
  intros q Hq. apply Hin. by apply elem_of_btree, elem_of_list_to_set in Hq.
Qed.

Lemma valid_revision s : recovery_validate s = Ok () → rs_revision s ≤ MAX_DELIVERY_RECOVERY_REVISION.
Proof.
  unfold recovery_validate. cbn [recovery_validate_at]. intros H. apply ok_guard in H as [Hg _]. by bprop.
Qed.

Lemma saturates r : r + 1 ≤ MAX_DELIVERY_RECOVERY_REVISION + 1 → saturating_add u64_max r 1 = r + 1.
Proof. unfold saturating_add, MAX_DELIVERY_RECOVERY_REVISION, u64_max. lia. Qed.

(** Where a document is one step further, the phases decide. *)
Lemma successor_test s phase s' :
  recovery_successor s phase = Ok s' →
  exact_recovery_successor s s' =
    let is_candidate r := match r with Ok x => bool_decide (x = s') | _ => false end in
    match phase with
    | AcknowledgementStarted => is_candidate (begin_ack s)
    | Acknowledged l => is_candidate (record_ack_response s l)
    | AcquisitionRecoveryObserved l => is_candidate (record_recovery_acquire s l)
    | LifecycleAcknowledgementStarted _ => is_candidate (begin_lifecycle_ack s)
    | LifecycleAcknowledged _ => is_candidate (record_lifecycle_ack s)
    | SettlementPrepared _ _ prior revision digest =>
        is_candidate (prepare_settlement_binding s prior revision digest)
    | Reconciled | LifecycleReconciled _ => false
    end.
Proof.
  intros ([Hr Hd _ _ Hval] & <- & Hcat & _)%recovery_successor_Ok. unfold exact_recovery_successor.
  apply valid_revision in Hval. rewrite saturates by lia. rewrite Hr, Hd, Hcat, !N.eqb_refl.
  by rewrite bool_decide_eq_false_2 by auto.
Qed.

Lemma write_accepted s s' :
  recovery_validate s = Ok () → recovery_write s s' → s' ≠ s → exact_recovery_successor s s' = true.
Proof.
  intros Hval Hw Hne. apply valid_header in Hval as [_ Hval].
  destruct Hw as [H|l H|l H|H|H|prior revision digest H]; pose proof H as H0.
  - unfold begin_ack in H. destruct (rs_phase s) eqn:Hp; try done; [|congruence].
    rewrite (successor_test _ _ _ H). by apply is_candidate_true.
  - unfold record_ack_response in H. apply bind_Ok in H as (l' & Hl & H). destruct (rs_phase s) eqn:Hp; try done.
    + rewrite (successor_test _ _ _ H). apply is_candidate_true. unfold record_ack_response.
      by rewrite (ack_again s l l' Hl), Hp.
    + case_bool_decide; congruence.
  - unfold record_recovery_acquire in H. apply bind_Ok in H as (observed & Hobs & H).
    apply bind_Ok in H as (l' & Hl & H). case_bool_decide as Hsame; [congruence|].
    assert (acquired_ok (rs_delivery s) observed) as Hok.
    { destruct (rs_phase s) eqn:Hp; try done; injection Hobs as <-; [|by destruct Hval].
      apply validated_acquired_Ok in Hl as (av & Hav & _). exists av. split_and!; [done|by intros ? ?%elem_of_nil|done]. }
    destruct (acquire_again s l l' observed Hok Hl) as (l'' & Hl'' & Hmerge).
    rewrite (successor_test _ _ _ H). apply is_candidate_true. unfold record_recovery_acquire.
    rewrite Hobs. rsimpl. rewrite Hl''. rsimpl. by rewrite Hmerge, bool_decide_eq_false_2.
  - unfold begin_lifecycle_ack in H. destruct (rs_phase s) eqn:Hp; try done; [|congruence].
    rewrite (successor_test _ _ _ H). by apply is_candidate_true.
  - unfold record_lifecycle_ack in H. destruct (rs_phase s) eqn:Hp; try done; [|congruence].
    rewrite (successor_test _ _ _ H). by apply is_candidate_true.
  - unfold prepare_settlement_binding in H. apply bind_Ok in H as ([proof l] & _ & H).
    rewrite (successor_test _ _ _ H). by apply is_candidate_true.
Qed.

(** The store's test for a replacement is exact: over a valid recovery
    document it accepts a document if and only if it differs and one of the
    durable steps produces it, although it is given only the two documents. *)
Theorem recovery_successor_iff (s s' : ScaleSetDeliveryRecoveryState) (Hval : recovery_validate s = Ok ()) :
  exact_recovery_successor s s' = true ↔ recovery_write s s' ∧ s' ≠ s.
Proof.
  split; [|intros [Hw Hne]; by apply write_accepted].
  unfold exact_recovery_successor. intros H. case_match eqn:Hg; [done|]. bprop. split.
  - destruct (rs_phase s'); try done; apply is_candidate_true in H; by econstructor.
  - intros ->. apply valid_revision in Hval.
    match goal with Hr : rs_revision s = _ |- _ => rewrite saturates in Hr by lia end. lia.
Qed.
End recovery.

(** ** The theorems at a sample run *)

#[local] Existing Instance binary_serde.
#[local] Existing Instance sample_sha256.

(** A stand-in for the text of deliveries, of which only the length is used. *)
#[local] Instance sample_delivery_serde : DeliverySerde := {|
  delivery_to_vec := λ d, Some (be_bytes 4 (dl_message_id d));
  delivery_from_slice := λ _, None;
  delivery_version_from_slice := λ _, None;
|}.

Definition observed_actions : list recovery_action := [ActBeginAck; ActRecoveryAcquire []].

Definition settled_actions : list recovery_action :=
  observed_actions ++ [ActResolve canceled_delivery [7] delivered_catalog canceled_catalog; ActBeginLifecycleAck;
    ActLifecycleAck; ActSettle canceled_catalog canceled_catalog].

Definition sample_digest : string :=
  "sha256:00112233445566778899aabbccddeeff00112233445566778899aabbccddeeff".

(** The document of the sample delivery at a revision and a phase. *)
Definition sample_recovery (revision : N) (c : DisposableAttemptCatalogDocument)
    (phase : ScaleSetDeliveryRecoveryPhase) : ScaleSetDeliveryRecoveryState :=
  mkRecovery 4 revision 1 sample_digest (cd_revision c) sample_digest available_delivery phase.

Definition sample_resolution : ScaleSetLifecycleResolution :=
  mkResolution 3 canceled_delivery [7] delivered_catalog 5 sample_digest.

Definition settled_state : ScaleSetDeliveryRecoveryState :=
  sample_recovery 7 canceled_catalog
    (SettlementPrepared (ProofLifecycleEvidence sample_resolution) [7] canceled_catalog 5 sample_digest).

Lemma sample_reconciles :
  reconciled available_delivery empty_catalog delivered_catalog = Ok (sample_recovery 1 delivered_catalog Reconciled).
Proof. vm_compute. reflexivity. Qed.

Lemma sample_settles :
  fold_result recovery_apply (sample_recovery 1 delivered_catalog Reconciled) settled_actions = Ok settled_state.
Proof. vm_compute. reflexivity. Qed.

Lemma recovery_run_bounded_witness :
  recovery_validate settled_state = Ok () ∧ rs_revision settled_state ≤ 54.
Proof.
  destruct (recovery_run_bounded available_delivery empty_catalog delivered_catalog _ settled_state settled_actions
    sample_reconciles sample_settles) as (Hval & _ & _ & Hmax & _). by split.
Defined.

Lemma settlement_by_evidence_witness :
  [7] = lr_acquired sample_resolution ∧ resolved_in settled_actions sample_resolution ∧
  ActLifecycleAck ∈ settled_actions.
Proof.
  exact (settlement_by_evidence available_delivery empty_catalog delivered_catalog _ settled_state settled_actions
    (ProofLifecycleEvidence sample_resolution) [7] canceled_catalog 5 sample_digest
    sample_reconciles sample_settles eq_refl).
Defined.

Lemma recovery_replay_witness :
  recovery_apply (sample_recovery 3 delivered_catalog (Acknowledged [7])) (ActAckResponse [7]) =
    Ok (sample_recovery 3 delivered_catalog (Acknowledged [7])).
Proof.
  refine (recovery_replay (sample_recovery 2 delivered_catalog AcknowledgementStarted)
    (sample_recovery 3 delivered_catalog (Acknowledged [7])) (ActAckResponse [7]) _ _);
    vm_compute; reflexivity.
Defined.

Lemma recovery_successor_iff_witness :
  exact_recovery_successor (sample_recovery 2 delivered_catalog AcknowledgementStarted)
    (sample_recovery 3 delivered_catalog (AcquisitionRecoveryObserved [7])) = true.
Proof.
  apply recovery_successor_iff; [vm_compute; reflexivity|]. split; [|discriminate].
  apply (write_acquire _ _ [7]). vm_compute. reflexivity.
Defined.
