(* ===== verification/SettlementTheorems.v ===== *)
(** * Theorems about resolutions and settlements

    The consumer, the recovery document and the settlement agree on catalogs:
    what the consumer derives from a later delivery the recovery document
    accepts, and a settlement ends exactly the offers that were not acquired. *)

From S2P Require Import Prelude SortBy Artifact ExecutionAdmission ScaleSetProtocol AttemptState.
From S2P Require Import AttemptLifecycle WorkerReconciler ReconcilerTheorems AttemptCatalog.
From S2P Require Import CatalogDocument CatalogSteps CatalogTheorems AttemptCodec ScaleSetDelivery DeliveryConsumer.
From S2P Require Import CatalogCodec DeliveryTheorems DeliveryRecovery RecoveryTheorems.

Local Open Scope N_scope.

(** ** Ending an unprovisioned attempt *)

(** The two searches for an attempt that was just advanced find the same. *)
Lemma replace_finds c i cur action phase c' :
  catalog_wf c → cd_active c !! i = Some cur →
  replace_attempt c (at_attempt_id (dr_attempt cur)) (at_revision (dr_attempt cur)) action = Ok c' →
  (∀ s, transition (dr_attempt cur) action = Ok s → advance_with (dr_attempt cur) phase None None None = Ok s) →
  ∃ next, catalog_wf c' ∧ cd_active c' !! i = Some next ∧
    at_attempt_id (dr_attempt next) = at_attempt_id (dr_attempt cur) ∧
    at_runner_request_id (dr_attempt next) = at_runner_request_id (dr_attempt cur) ∧
    at_phase (dr_attempt next) = phase ∧
    find_active c' (at_attempt_id (dr_attempt cur)) = Some next ∧
    find_active_by_runner_request_id c' (at_runner_request_id (dr_attempt cur)) = Some next.
Proof.
  intros Hwf Hi H Hadv. destruct (replace_advanced c i cur action phase c' Hwf Hi H Hadv) as (Hwf' & _ & Hi' & Hf).
  eexists. split_and!; [done|exact Hi'|done..|exact Hf|exact (request_active c' i _ Hwf' Hi')].
Qed.

Lemma retire_reserved_iff {E} (conflict missing : E) c i cur c' :
  catalog_wf c → cd_active c !! i = Some cur →
  retire_reserved conflict missing c cur (at_runner_request_id (dr_attempt cur)) = Ok c' ↔
  retire_unprovisioned_cancellation c cur = Ok c'.
Proof.
  intros Hwf Hi. unfold retire_reserved, retire_unprovisioned_cancellation.
  destruct (replace_attempt c _ _ BeginUnprovisionedRelease) as [c1|e|] eqn:H1; rsimpl; [|done..].
  destruct (replace_finds c i cur _ PhaseUnprovisionedReleasing c1 Hwf Hi H1)
    as (r1 & Hwf1 & Hi1 & Hid1 & Hq1 & Hp1 & Hf1 & Hg1).
  { simpl. unfold begin_unprovisioned_release. intros s Hs. by destruct (at_phase (dr_attempt cur)). }
  rewrite Hf1, Hg1. rsimpl.
  destruct (replace_attempt c1 _ _ CompleteUnprovisioned) as [c2|e|] eqn:H2; rsimpl; [|done..].
  rewrite <-Hid1 in H2. destruct (replace_finds c1 i r1 _ PhaseComplete c2 Hwf1 Hi1 H2)
    as (r2 & Hwf2 & Hi2 & Hid2 & Hq2 & Hp2 & Hf2 & Hg2).
  { simpl. unfold complete_unprovisioned. intros s Hs. by rewrite Hp1 in Hs. }
  rewrite <-Hq1, Hg2, <-Hid1, Hf2. rsimpl. by rewrite !map_err_Ok.
Qed.

Lemma elem_of_delete_unique {A} (l : list A) (i : nat) x :
  NoDup l → l !! i = Some x → ∀ y, y ∈ delete i l ↔ y ∈ l ∧ y ≠ x.
Proof.
  intros Hnd (l1 & l2 & -> & ->)%list_elem_of_split_length y. rewrite delete_middle.
  apply NoDup_app in Hnd as (_ & Hdis & [Hx _]%NoDup_cons). rewrite !elem_of_app, elem_of_cons. split.
  - intros Hy. split; [tauto|]. intros ->. destruct Hy as [Hy|Hy]; [|done]. apply (Hdis x); [done|left].
  - tauto.
Qed.

(** ** Progress and revisions *)

Lemma progress_revision c c' :
  catalog_wf c → rtc catalog_progress c c' → c' = c ∨ cd_revision c < cd_revision c'.
Proof.
  intros Hwf H. induction H as [c|c1 c2 c3 H _ IH]; [by left|].
  destruct (step_effect _ _ Hwf (progress_step _ _ H)) as [Hwf2 Heff].
  destruct Heff as [-> |r _ _ ->|i cur s _ _ _ ->|i cur _ _ ->]; [auto|..]; right;
    destruct (IH Hwf2) as [->|Hlt]; simpl in *; lia.
Qed.

Section settlement.
Context `{SERDE : CatalogSerde} `{DSERDE : DeliverySerde} `{HASHER : Sha256Hasher}.

Lemma binds_true revision digest c :
  binds revision digest c = true ↔ revision = cd_revision c ∧ catalog_digest c = Ok digest.
Proof.
  unfold binds, digest_is. rewrite andb_true_iff, N.eqb_eq.
  destruct (catalog_digest c) as [digest'| |]; [rewrite bool_decide_eq_true|..]; naive_solver congruence.
Qed.

(** ** The consumer's resolution is the one the document reconstructs *)

Section resolution.
Context (policy : ScaleSetDeliveryConsumerPolicy) (Hpolicy : resources_ok (po_resources policy)).
Context (originals : list ScaleSetDeliveryLifecycleEvent).

Definition same_job (event : ScaleSetDeliveryLifecycleEvent) : Prop :=
  find_original_job originals (je_runner_request_id (event_job event)) = Some (event_job event).

Lemma reconstruct_agrees ambiguous next acquired event state :
  catalog_wf next → same_job event →
  resolution_step policy ambiguous (next, acquired) event = Ok state →
  reconstruct_step originals (next, acquired) event = Ok state ∧
  lifecycle_request event = Some (je_runner_request_id (event_job event)).
Proof.
  intros Hwf Hjob H. unfold resolution_step in H. apply ok_guard in H as [_ H].
  apply bind_Ok in H as ([] & _ & H). apply bind_Ok in H as (ids & _ & H).
  apply bind_Ok in H as (cur & Hcur%ok_or_Ok & H). pose proof Hcur as (i & Hi & Hq)%request_found.
  apply bind_Ok in H as ([] & _ & H). apply ok_guard in H as [Hphase H].
  assert (lifecycle_job event = Ok (event_job event)) as Hlife by (by destruct event).
  split; [|by destruct event]. unfold reconstruct_step. rewrite Hlife. rsimpl. rewrite Hjob. rsimpl.
  rewrite bool_decide_eq_false_2 by auto. rewrite Hcur. rsimpl. rewrite Hphase.
  destruct (is_runnerless_cancellation event) eqn:Hcancel; [|by destruct event; try done; injection H as <-].
  destruct event as [| | |job runner job_result]; try done. apply bind_Ok in H as (c1 & H1%map_err_Ok & [= <-]).
  rewrite <-Hq, (proj2 (retire_reserved_iff _ _ next i cur c1 Hwf Hi) H1). rsimpl. by rewrite Hq.
Qed.

Lemma reconstruct_fold_agrees ambiguous c events next acquired state :
  catalog_wf c → resolution_inv c next acquired → Forall same_job events →
  fold_result (resolution_step policy ambiguous) (next, acquired) events = Ok state →
  fold_result (reconstruct_step originals) (next, acquired) events = Ok state ∧
  omap lifecycle_request events = (λ e, je_runner_request_id (event_job e)) <$> events.
Proof.
  intros Hwf Hinv Hjobs. revert next acquired Hinv.
  induction Hjobs as [|event events Hjob _ IH]; intros next acquired Hinv H; simpl in H;
    [by injection H as <-|].
  apply bind_Ok in H as ([next1 acquired1] & H1 & H).
  destruct (reconstruct_agrees _ _ _ _ _ (ri_wf _ _ _ Hinv) Hjob H1) as [Hr Hreq].
  destruct (resolution_step_inv policy Hpolicy _ _ _ _ _ _ _ Hwf Hinv H1) as (Hinv1 & _).
  destruct (IH _ _ Hinv1 H) as [Hfold Homap]. cbn [fold_result]. rewrite Hr. split; [done|].
  csimpl. by rewrite Hreq, Homap.
Qed.
End resolution.

(** The state of a lifecycle resolution, built from the one before it. *)
Definition resolved_state (s : ScaleSetDeliveryRecoveryState) (d : ScaleSetDelivery) (acquired : list N)
    (c c' : DisposableAttemptCatalogDocument) (digest : string) : ScaleSetDeliveryRecoveryState :=
  mkRecovery (rs_schema_version s) (rs_revision s + 1) (rs_prior_catalog_revision s)
    (rs_prior_catalog_digest s) (cd_revision c') digest (rs_delivery s)
    (LifecycleReconciled (mkResolution (rs_revision s) d acquired c (cd_revision c') digest)).

(** What validation found in a state that observed nothing. *)
Lemma valid_empty_observation s :
  recovery_validate s = Ok () → rs_phase s = AcquisitionRecoveryObserved [] →
  rs_schema_version s = SCALE_SET_DELIVERY_RECOVERY_SCHEMA_VERSION ∧ rs_revision s = 3 ∧
  rs_prior_catalog_revision s ≤ rs_catalog_revision s ∧
  (rs_prior_catalog_revision s = rs_catalog_revision s → rs_prior_catalog_digest s = rs_catalog_digest s) ∧
  ∃ b, encode_scale_set_delivery (rs_delivery s) = Ok b.
Proof.
  unfold recovery_validate. cbn [recovery_validate_at]. intros H Hp. apply ok_guard in H as [Hg H].
  apply bind_Ok in H as (b & Hb%map_err_Ok & H). rewrite Hp in H. case_match eqn:Hrev; [|done]. bprop.
  split_and!; [done| |lia| |by exists b].
  - match goal with Hor : _ ∨ (rs_revision s =? 3) = true |- _ => destruct Hor as [?|?%N.eqb_eq]; done end.
  - intros Heq. match goal with Hor : _ ∨ bool_decide _ = false |- _ =>
      destruct Hor as [?%N.eqb_neq|?]; [done|by bprop] end.
Qed.

Lemma lifecycle_validate s r b :
  rs_phase s = LifecycleReconciled r → rs_schema_version s = SCALE_SET_DELIVERY_RECOVERY_SCHEMA_VERSION →
  1 ≤ rs_revision s ≤ MAX_DELIVERY_RECOVERY_REVISION → rs_prior_catalog_revision s ≤ rs_catalog_revision s →
  (rs_prior_catalog_revision s = rs_catalog_revision s → rs_prior_catalog_digest s = rs_catalog_digest s) →
  encode_scale_set_delivery (rs_delivery s) = Ok b →
  recovery_validate s = resolution_validate (recovery_validate_at 2) r s.
Proof.
  intros Hp Hschema Hrev Hle Hsame Hb. unfold recovery_validate.
  cbn [recovery_validate_at]. fold (recovery_validate_at 2). rewrite Hp, Hschema, Hb, N.eqb_refl. unfold or_corrupt.
  rsimpl. rewrite (proj2 (in_range_true _ _ _) Hrev), (proj2 (N.ltb_ge _ _) Hle). simpl.
  destruct (N.eqb_spec (rs_prior_catalog_revision s) (rs_catalog_revision s)) as [Heq|]; [|done].
  simpl. by rewrite bool_decide_eq_false_2 by auto.
Qed.

#[local] Arguments recovery_validate_at : simpl never.

Lemma resolution_validate_intro f r s step digest originals events (X : gset N) c' :
  expected_revision_step (rs_phase s) = Some step → lr_base_revision r = 3 → rs_revision s = 3 + step →
  dl_message_id (rs_delivery s) < dl_message_id (lr_delivery r) →
  available_request_ids (lr_delivery r) = Ok [] → lr_acquired r ≠ [] →
  rs_catalog_revision s = lr_catalog_revision r → rs_catalog_digest s = lr_catalog_digest r →
  cd_revision (lr_prior_catalog r) ≤ lr_catalog_revision r →
  catalog_digest (lr_prior_catalog r) = Ok digest → f (resolution_predecessor r s digest) = Ok () →
  acquired_ok (rs_delivery s) (lr_acquired r) →
  retained_events (rs_delivery s) = Ok originals → retained_events (lr_delivery r) = Ok events →
  fold_result (reconstruct_step originals) (lr_prior_catalog r, ∅) events = Ok (c', X) →
  btree_elements X = lr_acquired r → matches_catalog s c' = true →
  resolution_validate f r s = Ok ().
Proof.
  intros Hstep Hbase Hrev Hmsg Hav Hne Hcr Hcd Hle Hdig Hf Hacq Horig Hev Hfold HX Hm.
  unfold resolution_validate, or_corrupt. rewrite Hstep, Hbase, Hrev, Hav, Hdig. rsimpl.
  rewrite (proj2 (checked_add_Some u64_max 3 step (3 + step))).
  2:{ split; [done|]. destruct (rs_phase s); simpl in Hstep; try done; by injection Hstep as <-. }
  rsimpl. rewrite N.eqb_refl, (proj2 (N.leb_gt _ _) Hmsg). simpl.
  unfold matches_catalog_digest. rewrite Hcr, Hcd, N.eqb_refl, (bool_decide_eq_true_2 (_ = _)) by done.
  rewrite (proj2 (N.ltb_ge _ _) Hle). assert ((length (lr_acquired r) =? 0)%nat = false) as ->
    by (by destruct (lr_acquired r)).
  simpl. rewrite Hf. rsimpl.
  assert (matches_catalog (resolution_predecessor r s digest) (lr_prior_catalog r) = true) as ->
    by (by apply binds_true).
  simpl. pose proof (proj2 (same_acquired_Ok s (lr_acquired r)) Hacq) as Hsame. unfold same_acquired in Hsame.
  apply bind_Ok in Hsame as (l' & -> & Hsame). case_bool_decide as Heq; [|done]. rsimpl.
  rewrite bool_decide_eq_false_2 by auto. rewrite Horig, Hev. rsimpl. rewrite Hfold. rsimpl.
  by rewrite HX, Hm, bool_decide_eq_false_2 by auto.
Qed.

Lemma resolved_state_valid policy ambiguous s d acquired c c' digest events originals :
  resources_ok (po_resources policy) → catalog_wf c →
  recovery_validate s = Ok () → rs_phase s = AcquisitionRecoveryObserved [] →
  matches_catalog s c = true → available_request_ids (rs_delivery s) = Ok ambiguous →
  dl_message_id (rs_delivery s) < dl_message_id d → available_request_ids d = Ok [] →
  retained_events (rs_delivery s) = Ok originals → retained_events d = Ok events →
  Forall (same_job originals) events → catalog_digest c' = Ok digest →
  acquired ≠ [] → (∀ q, q ∈ acquired → q ∈ ambiguous) → acquired = btree_elements (list_to_set acquired) →
  rtc catalog_progress c c' →
  (∃ X : gset N, fold_result (resolution_step policy (list_to_set ambiguous)) (c, ∅) events = Ok (c', X) ∧
    btree_elements X = acquired) →
  recovery_validate (resolved_state s d acquired c c' digest) = Ok ().
Proof.
  intros Hpolicy Hwf Hval Hp [Hrev Hdig]%binds_true Hav Hmsg Hnone Horig Hev Hjobs Hdigest Hne Hin Hsorted Hrun
    (X & Hfold & HX).
  destruct (valid_empty_observation s Hval Hp) as (Hschema & Hthree & Hprior & Hsame & b & Hb).
  assert (resolution_inv c c ∅) as H0 by (split; [done..|set_solver|by left]).
  destruct (reconstruct_fold_agrees policy Hpolicy originals _ _ _ _ _ _ Hwf H0 Hjobs Hfold) as [Hrec _].
  assert (rs_catalog_revision s ≤ cd_revision c' ∧
    (rs_catalog_revision s = cd_revision c' → digest = rs_catalog_digest s)) as [Hle Heq].
  { destruct (progress_revision c c' Hwf Hrun) as [->|Hlt]; rewrite Hrev; [|lia].
    split; [lia|]. intros _. congruence. }
  assert (resolution_predecessor (mkResolution (rs_revision s) d acquired c (cd_revision c') digest)
    (resolved_state s d acquired c c' digest) (rs_catalog_digest s) = s) as Hpred.
  { destruct s. simpl in *. unfold resolution_predecessor. simpl. congruence. }
  rewrite (lifecycle_validate (resolved_state s d acquired c c' digest) _ b eq_refl); simpl; try done.
  - eapply (resolution_validate_intro _ _ _ 1); simpl; try done.
    + lia.
    + by destruct (progress_revision c c' Hwf Hrun) as [->|]; lia.
    + rewrite Hpred. rewrite recovery_validate_deeper; [done|]. rewrite Hp. simpl. lia.
    + by exists ambiguous.
    + by apply binds_true.
  - rewrite Hthree. unfold MAX_DELIVERY_RECOVERY_REVISION. lia.
  - lia.
  - intros Heq'. rewrite Heq by lia. apply Hsame. lia.
Qed.


(** ** Settling *)

(** What the loop over the offered requests keeps, from the catalog [c]. *)
Record settle_inv (acquired : gset N) (offered : list N) (c next : DisposableAttemptCatalogDocument) : Prop := {
  si_wf : catalog_wf next;
  si_run : rtc catalog_progress c next;
  si_kept : ∀ r, r ∈ cd_active c →
    at_runner_request_id (dr_attempt r) ∈ acquired ∨ at_runner_request_id (dr_attempt r) ∉ offered ∨
    at_phase (dr_attempt r) ≠ PhaseReserved → r ∈ cd_active next;
  si_active : ∀ r, r ∈ cd_active next → r ∈ cd_active c;
  si_attempts : ∀ a, a ∈ catalog_attempts next → a ∈ catalog_attempts c ∨
    ∃ q, q ∈ offered ∧ q ∉ acquired ∧ released_unprovisioned q a;
  si_ended : ∀ r, r ∈ cd_active next → at_phase (dr_attempt r) = PhaseReserved →
    at_runner_request_id (dr_attempt r) ∈ offered → at_runner_request_id (dr_attempt r) ∈ acquired;
}.

(** A request that was not ended by its step. *)
Lemma settle_skip acquired offered c next q :
  settle_inv acquired offered c next →
  (∀ r, r ∈ cd_active next → at_runner_request_id (dr_attempt r) = q → at_phase (dr_attempt r) = PhaseReserved →
    q ∈ acquired) →
  settle_inv acquired (offered ++ [q]) c next.
Proof.
  intros [Hwf Hrun Hkept Hact Hatt Hend] Hq. split; try done.
  - intros r Hr [?|[Hno|?]]; [auto..|]. { apply Hkept; [done|]. right. left. set_solver. } auto.
  - intros a [?|(q' & ? & ? & ?)]%Hatt; [by left|]. right. exists q'. set_solver.
  - intros r Hr Hres [?|Heq%list_elem_of_singleton]%elem_of_app; [auto|]. rewrite Heq. by eapply Hq.
Qed.

Lemma settle_end acquired offered c next i cur next' :
  settle_inv acquired offered c next → cd_active next !! i = Some cur →
  at_phase (dr_attempt cur) = PhaseReserved → at_runner_request_id (dr_attempt cur) ∉ acquired →
  retire_unprovisioned_cancellation next cur = Ok next' →
  settle_inv acquired (offered ++ [at_runner_request_id (dr_attempt cur)]) c next'.
Proof.
  intros [Hwf Hrun Hkept Hact Hatt Hend] Hi Hres Hno H.
  destruct (retire_unprovisioned_result next i cur next' Hwf Hi H) as (Hwf' & Hrun' & done' & Hdone & Heq & Htomb).
  assert (∀ r, r ∈ cd_active next → at_runner_request_id (dr_attempt r) = at_runner_request_id (dr_attempt cur) →
    r = cur) as Hunique.
  { intros r Hr Hq. apply (NoDup_fmap_inj (λ r, at_runner_request_id (dr_attempt r)) (cd_active next));
      [by apply active_requests_nodup|done|by eapply list_elem_of_lookup_2|done]. }
  assert (∀ r, r ∈ cd_active next' ↔ r ∈ cd_active next ∧ r ≠ cur) as Hin.
  { intros r. rewrite Heq. apply (elem_of_delete_unique _ _ cur); [|done].
    by eapply NoDup_fmap_1, active_requests_nodup. }
  pose proof (active_valid next i cur Hwf Hi) as Hvalid%valid_evidence. rewrite Hres in Hvalid.
  split.
  - done.
  - by etrans.
  - intros r Hr Hcase. apply Hin. split.
    + apply Hkept; [done|]. destruct Hcase as [?|[Hn|?]]; [auto| |auto]. right. left. set_solver.
    + intros ->. destruct Hcase as [?|[Hn|?]]; [done| |done]. apply Hn, elem_of_app. right. by left.
  - intros r [Hr _]%Hin. auto.
  - intros a Ha. destruct (canceled_attempts next i cur done' next' Hi Heq Htomb a Ha) as [Hold| ->].
    + destruct (Hatt a Hold) as [?|(q & ? & ? & ?)]; [by left|]. right. exists q. set_solver.
    + right. exists (at_runner_request_id (dr_attempt cur)). split_and!; [set_solver|done|].
      destruct Hdone as [Hkey Hphase Hvm Hrunner Hjob Hresult]. split; try done.
      * injection Hkey. congruence.
      * rewrite Hvm. by destruct Hvalid.
  - intros r [Hr Hne]%Hin Hphase [Hq|Hq%list_elem_of_singleton]%elem_of_app; [by apply Hend|].
    by destruct Hne; apply Hunique.
Qed.

Lemma settle_step_inv acquired offered c next q next' :
  settle_inv acquired offered c next → settle_step acquired next q = Ok next' →
  settle_inv acquired (offered ++ [q]) c next'.
Proof.
  intros Hinv H. unfold settle_step in H. case_bool_decide as Hacq.
  { apply ok_guard in H as [_ [= <-]]. by apply settle_skip. }
  destruct (find_active_by_runner_request_id next q) as [cur|] eqn:Hf.
  - apply request_found in Hf as (i & Hi & <-). case_bool_decide as Hphase.
    + case_match; [|done]. injection H as <-. apply settle_skip; [done|]. intros r Hr Hq Hres.
      destruct Hphase. rewrite <-Hres. f_equal. f_equal.
      apply (NoDup_fmap_inj (λ r, at_runner_request_id (dr_attempt r)) (cd_active next));
        [by eapply active_requests_nodup, si_wf|by eapply list_elem_of_lookup_2|done..].
    + eapply settle_end; try done.
      by apply (retire_reserved_iff _ _ next i cur) in H; [|apply Hinv|].
  - case_match; [|done]. injection H as <-. apply settle_skip; [done|]. intros r Hr <- _.
    apply list_elem_of_lookup in Hr as [i Hi]. by rewrite (request_active next i r (si_wf _ _ _ _ Hinv) Hi) in Hf.
Qed.

Lemma settle_start acquired c : catalog_wf c → settle_inv acquired [] c c.
Proof.
  intros Hwf. split; try done; [by left|]. intros r _ _ Hno. by apply elem_of_nil in Hno.
Qed.

Lemma settle_fold_inv acquired available offered c next c' :
  settle_inv acquired offered c next → fold_result (settle_step acquired) next available = Ok c' →
  settle_inv acquired (offered ++ available) c c'.
Proof.
  revert offered next. induction available as [|q l IH]; intros offered next Hinv H; simpl in H.
  { injection H as <-. by rewrite app_nil_r. }
  apply bind_Ok in H as (next1 & H1 & H). rewrite cons_middle, app_assoc.
  apply (IH _ next1); [|done]. by eapply settle_step_inv.
Qed.

(** A settlement ends the offers that were not acquired and nothing else:
    a worker that is acquired, was not offered or has left its reservation stays
    as it is; a reserved worker of an offered request is left only if the
    request was acquired; and every attempt of the result was there before or is
    such an offer, released without a machine, a runner or a job. *)
Theorem settlement_exact (s : ScaleSetDeliveryRecoveryState) (c c' : DisposableAttemptCatalogDocument)
    (acquired available : list N) (Hc : rtc catalog_step empty_catalog c)
    (Hacq : settled_requests (rs_phase s) = Some acquired)
    (Hav : available_request_ids (rs_delivery s) = Ok available)
    (H : settle_scale_set_delivery_catalog s c = Ok c') :
  rtc catalog_progress c c' ∧ settle_inv (list_to_set acquired) available c c'.
Proof.
  unfold settle_scale_set_delivery_catalog in H. apply ok_guard in H as [_ H]. rewrite Hacq, Hav in H. rsimpl.
  pose proof (chain_wf _ _ empty_catalog_wf Hc) as Hwf.
  assert (settle_inv (list_to_set acquired) available c c') as Hinv; [|split; [apply Hinv|done]].
  apply (settle_fold_inv _ available [] c c); [by apply settle_start|done].
Qed.
End settlement.

(** ** The theorems at the sample run *)

#[local] Existing Instance binary_serde.
#[local] Existing Instance sample_sha256.
#[local] Existing Instance sample_delivery_serde.


Lemma settlement_exact_witness :
  rtc catalog_progress delivered_catalog canceled_catalog ∧ settle_inv ∅ [7] delivered_catalog canceled_catalog.
Proof.
  apply (settlement_exact (sample_recovery 3 delivered_catalog (Acknowledged [])) delivered_catalog canceled_catalog
    [] [7]); [apply delivered_reachable|reflexivity|reflexivity|vm_compute; reflexivity].
Defined.
