(* ===== verification/RecoveryCodec.v ===== *)
(** * Durable text of the recovery document

    [encode_scale_set_delivery_recovery] and
    [decode_scale_set_delivery_recovery] of
    [src/src/github_scale_set_delivery_state.rs], with the serialized structs:
    deliveries and catalogs are embedded as strings of their canonical text.
    [serde_json] is a parameter ([RecoverySerde]); what the round trip relies
    on is [RecoverySerdeLaws] and [DeliverySerdeLaws]. *)

From S2P Require Import Prelude Artifact ExecutionAdmission ScaleSetProtocol AttemptState.
From S2P Require Import WorkerReconciler AttemptCatalog AttemptCodec CatalogCodec ScaleSetDelivery.
From S2P Require Import DeliveryConsumer DeliveryRecovery.

Local Open Scope N_scope.

Definition MAX_SCALE_SET_DELIVERY_RECOVERY_BYTES : N :=
  MAX_SCALE_SET_DELIVERY_BYTES * 4 + MAX_DISPOSABLE_ATTEMPT_CATALOG_DOCUMENT_BYTES * 4 + 64 * 1024.

Definition recovery_invalid_document : ScaleSetDeliveryRecoveryError :=
  recovery_error RecoveryInvalidDocument "Scale Set delivery recovery JSON is invalid".

(** ** [String::from_utf8]

    A string is its bytes; the well-formed byte sequences are those of
    Unicode. *)

Definition utf8_continuation (c : ascii) : bool := in_range 128 191 (N_of_ascii c).

(** The second byte after the leading byte [lead] of a longer sequence. *)
Definition utf8_second (lead : N) (c : ascii) : bool :=
  let n := N_of_ascii c in
  if lead =? 224 then in_range 160 191 n
  else if lead =? 237 then in_range 128 159 n
  else if lead =? 240 then in_range 144 191 n
  else if lead =? 244 then in_range 128 143 n
  else in_range 128 191 n.

Fixpoint utf8_valid (b : bytes) : bool :=
  match b with
  | [] => true
  | x :: b =>
      let n := N_of_ascii x in
      if n <=? 127 then utf8_valid b
      else if in_range 194 223 n
      then match b with
           | c2 :: b => utf8_continuation c2 && utf8_valid b
           | _ => false
           end
      else if in_range 224 239 n
      then match b with
           | c2 :: c3 :: b => utf8_second n c2 && utf8_continuation c3 && utf8_valid b
           | _ => false
           end
      else if in_range 240 244 n
      then match b with
           | c2 :: c3 :: c4 :: b =>
               utf8_second n c2 && utf8_continuation c3 && utf8_continuation c4 && utf8_valid b
           | _ => false
           end
      else false
  end.

Definition String_from_utf8 (b : bytes) : option string :=
  if utf8_valid b then Some (String.string_of_list_ascii b) else None.

(** ** Serialized structs *)

Record LifecycleResolutionWire := mkResolutionWire {
  lw_base_revision : N;
  lw_delivery_json : string;
  lw_acquired_request_ids : list N;
  lw_prior_catalog_json : string;
  lw_catalog_revision : N;
  lw_catalog_digest : string;
}.

Inductive SettlementProofWire :=
| ProofWireAcknowledged
| ProofWireAcquisitionRecovery
| ProofWireLifecycleEvidence (resolution : LifecycleResolutionWire).

Inductive RecoveryPhaseWire :=
| PhaseWireReconciled
| PhaseWireAcknowledgementStarted
| PhaseWireAcknowledged (acquired_request_ids : list N)
| PhaseWireAcquisitionRecoveryObserved (acquired_request_ids : list N)
| PhaseWireLifecycleReconciled (resolution : LifecycleResolutionWire)
| PhaseWireLifecycleAcknowledgementStarted (resolution : LifecycleResolutionWire)
| PhaseWireLifecycleAcknowledged (resolution : LifecycleResolutionWire)
| PhaseWireSettlementPrepared (proof : SettlementProofWire) (acquired_request_ids : list N)
    (prior_catalog_json : string) (catalog_revision : N) (catalog_digest : string).

Record RecoveryWire := mkRecoveryWire {
  yw_schema_version : N;
  yw_revision : N;
  yw_prior_catalog_revision : N;
  yw_prior_catalog_digest : string;
  yw_catalog_revision : N;
  yw_catalog_digest : string;
  yw_delivery_json : string;
  yw_phase : RecoveryPhaseWire;
}.

Class RecoverySerde := {
  recovery_to_vec : RecoveryWire → option bytes;
  recovery_from_slice : bytes → option RecoveryWire;
  recovery_version_from_slice : bytes → option N;
}.

Section codec.
Context `{SERDE : CatalogSerde} `{DSERDE : DeliverySerde} `{HASHER : Sha256Hasher} `{RSERDE : RecoverySerde}.

(** ** To the wire *)

(** [String::from_utf8(encode_scale_set_delivery(..)?)]. *)
Definition delivery_text (delivery : ScaleSetDelivery) : result ScaleSetDeliveryRecoveryError string :=
  b ← or_corrupt (encode_scale_set_delivery delivery);
  ok_or (String_from_utf8 b) recovery_corrupt.

Definition catalog_text (catalog : DisposableAttemptCatalogDocument)
    : result ScaleSetDeliveryRecoveryError string :=
  b ← or_corrupt (encode_disposable_attempt_catalog catalog);
  ok_or (String_from_utf8 b) recovery_corrupt.

Definition from_resolution (resolution : ScaleSetLifecycleResolution)
    : result ScaleSetDeliveryRecoveryError LifecycleResolutionWire :=
  delivery_json ← delivery_text (lr_delivery resolution);
  prior_catalog_json ← catalog_text (lr_prior_catalog resolution);
  Ok (mkResolutionWire (lr_base_revision resolution) delivery_json (lr_acquired resolution)
        prior_catalog_json (lr_catalog_revision resolution) (lr_catalog_digest resolution)).

Definition from_proof (proof : ScaleSetDeliverySettlementProof)
    : result ScaleSetDeliveryRecoveryError SettlementProofWire :=
  match proof with
  | ProofAcknowledged => Ok ProofWireAcknowledged
  | ProofAcquisitionRecovery => Ok ProofWireAcquisitionRecovery
  | ProofLifecycleEvidence resolution =>
      resolution ← from_resolution resolution;
      Ok (ProofWireLifecycleEvidence resolution)
  end.

Definition from_phase (phase : ScaleSetDeliveryRecoveryPhase)
    : result ScaleSetDeliveryRecoveryError RecoveryPhaseWire :=
  match phase with
  | Reconciled => Ok PhaseWireReconciled
  | AcknowledgementStarted => Ok PhaseWireAcknowledgementStarted
  | Acknowledged acquired => Ok (PhaseWireAcknowledged acquired)
  | AcquisitionRecoveryObserved acquired => Ok (PhaseWireAcquisitionRecoveryObserved acquired)
  | LifecycleReconciled resolution =>
      resolution ← from_resolution resolution; Ok (PhaseWireLifecycleReconciled resolution)
  | LifecycleAcknowledgementStarted resolution =>
      resolution ← from_resolution resolution; Ok (PhaseWireLifecycleAcknowledgementStarted resolution)
  | LifecycleAcknowledged resolution =>
      resolution ← from_resolution resolution; Ok (PhaseWireLifecycleAcknowledged resolution)
  | SettlementPrepared proof acquired prior_catalog catalog_revision catalog_digest =>
      proof ← from_proof proof;
      prior_catalog_json ← catalog_text prior_catalog;
      Ok (PhaseWireSettlementPrepared proof acquired prior_catalog_json catalog_revision catalog_digest)
  end.

Definition from_state (state : ScaleSetDeliveryRecoveryState)
    : result ScaleSetDeliveryRecoveryError RecoveryWire :=
  delivery_json ← delivery_text (rs_delivery state);
  phase ← from_phase (rs_phase state);
  Ok (mkRecoveryWire (rs_schema_version state) (rs_revision state) (rs_prior_catalog_revision state)
        (rs_prior_catalog_digest state) (rs_catalog_revision state) (rs_catalog_digest state)
        delivery_json phase).

(** ** From the wire *)

Definition parse_request_ids (values : list N)
    : result ScaleSetDeliveryRecoveryError (list ScaleSetRunnerRequestId) :=
  traverse (λ value, or_corrupt (ScaleSetRunnerRequestId_new value)) values.

Definition into_resolution (self : LifecycleResolutionWire)
    : result ScaleSetDeliveryRecoveryError ScaleSetLifecycleResolution :=
  delivery ← or_corrupt (decode_scale_set_delivery (str_bytes (lw_delivery_json self)));
  acquired ← parse_request_ids (lw_acquired_request_ids self);
  prior_catalog ← or_corrupt (decode_disposable_attempt_catalog (str_bytes (lw_prior_catalog_json self)));
  catalog_revision ← or_corrupt (CatalogRevision_new (lw_catalog_revision self));
  catalog_digest ← or_corrupt (Sha256Digest_parse (lw_catalog_digest self));
  Ok (mkResolution (lw_base_revision self) delivery acquired prior_catalog catalog_revision catalog_digest).

Definition into_proof (proof : SettlementProofWire)
    : result ScaleSetDeliveryRecoveryError ScaleSetDeliverySettlementProof :=
  match proof with
  | ProofWireAcknowledged => Ok ProofAcknowledged
  | ProofWireAcquisitionRecovery => Ok ProofAcquisitionRecovery
  | ProofWireLifecycleEvidence resolution =>
      resolution ← into_resolution resolution;
      Ok (ProofLifecycleEvidence resolution)
  end.

Definition into_phase (self : RecoveryPhaseWire)
    : result ScaleSetDeliveryRecoveryError ScaleSetDeliveryRecoveryPhase :=
  match self with
  | PhaseWireReconciled => Ok Reconciled
  | PhaseWireAcknowledgementStarted => Ok AcknowledgementStarted
  | PhaseWireAcknowledged ids => acquired ← parse_request_ids ids; Ok (Acknowledged acquired)
  | PhaseWireAcquisitionRecoveryObserved ids =>
      acquired ← parse_request_ids ids; Ok (AcquisitionRecoveryObserved acquired)
  | PhaseWireLifecycleReconciled resolution =>
      resolution ← into_resolution resolution; Ok (LifecycleReconciled resolution)
  | PhaseWireLifecycleAcknowledgementStarted resolution =>
      resolution ← into_resolution resolution; Ok (LifecycleAcknowledgementStarted resolution)
  | PhaseWireLifecycleAcknowledged resolution =>
      resolution ← into_resolution resolution; Ok (LifecycleAcknowledged resolution)
  | PhaseWireSettlementPrepared proof ids prior_catalog_json catalog_revision catalog_digest =>
      proof ← into_proof proof;
      acquired ← parse_request_ids ids;
      prior_catalog ← or_corrupt (decode_disposable_attempt_catalog (str_bytes prior_catalog_json));
      catalog_revision ← or_corrupt (CatalogRevision_new catalog_revision);
      catalog_digest ← or_corrupt (Sha256Digest_parse catalog_digest);
      Ok (SettlementPrepared proof acquired prior_catalog catalog_revision catalog_digest)
  end.

Definition into_state (self : RecoveryWire)
    : result ScaleSetDeliveryRecoveryError ScaleSetDeliveryRecoveryState :=
  delivery ← or_corrupt (decode_scale_set_delivery (str_bytes (yw_delivery_json self)));
  prior_catalog_revision ← or_corrupt (CatalogRevision_new (yw_prior_catalog_revision self));
  prior_catalog_digest ← or_corrupt (Sha256Digest_parse (yw_prior_catalog_digest self));
  catalog_revision ← or_corrupt (CatalogRevision_new (yw_catalog_revision self));
  catalog_digest ← or_corrupt (Sha256Digest_parse (yw_catalog_digest self));
  phase ← into_phase (yw_phase self);
  let state := mkRecovery (yw_schema_version self) (yw_revision self) prior_catalog_revision
    prior_catalog_digest catalog_revision catalog_digest delivery phase in
  _ ← recovery_validate state;
  Ok state.

(** ** The codec *)

Definition recovery_too_large : ScaleSetDeliveryRecoveryError :=
  recovery_error RecoveryDocumentTooLarge "Scale Set delivery recovery state exceeds the reviewed byte limit".

Definition encode_scale_set_delivery_recovery (state : ScaleSetDeliveryRecoveryState)
    : result ScaleSetDeliveryRecoveryError bytes :=
  _ ← recovery_validate state;
  wire ← from_state state;
  b ← ok_or (recovery_to_vec wire)
    (recovery_error RecoveryInvalidDocument "Scale Set delivery recovery state cannot encode");
  if MAX_SCALE_SET_DELIVERY_RECOVERY_BYTES <? len b then Err recovery_too_large else Ok b.

Definition decode_scale_set_delivery_recovery (b : bytes)
    : result ScaleSetDeliveryRecoveryError ScaleSetDeliveryRecoveryState :=
  if MAX_SCALE_SET_DELIVERY_RECOVERY_BYTES <? len b then Err recovery_too_large
  else
    version ← ok_or (recovery_version_from_slice b) recovery_invalid_document;
    if negb (version =? SCALE_SET_DELIVERY_RECOVERY_SCHEMA_VERSION)
    then Err (recovery_error RecoveryVersionIncompatible
           "Scale Set delivery recovery schema version is unsupported")
    else
      wire ← ok_or (recovery_from_slice b) recovery_invalid_document;
      state ← into_state wire;
      _ ← recovery_validate state;
      encoded ← encode_scale_set_delivery_recovery state;
      if bool_decide (encoded ≠ b)
      then Err (recovery_error RecoveryNonCanonical "Scale Set delivery recovery state is not canonical JSON")
      else Ok state.
End codec.

(** ** Round trips *)

(** What is written is read back; what is left of a text cut short is not
    JSON. *)
Class DeliverySerdeLaws `{DSERDE : DeliverySerde} : Prop := {
  delivery_reads d b : delivery_to_vec d = Some b →
    delivery_from_slice b = Some d ∧ delivery_version_from_slice b = Some (dl_schema_version d);
}.

Class RecoverySerdeLaws `{RSERDE : RecoverySerde} : Prop := {
  recovery_reads w b : recovery_to_vec w = Some b →
    recovery_from_slice b = Some w ∧ recovery_version_from_slice b = Some (yw_schema_version w);
  recovery_cut_short w b b' : recovery_to_vec w = Some b → b' `prefix_of` b → b' ≠ b →
    recovery_from_slice b' = None;
}.

Class CatalogSerdeCut `{SERDE : CatalogSerde} : Prop :=
  catalog_cut_short w b b' : catalog_to_vec w = Some b → b' `prefix_of` b → b' ≠ b →
    catalog_from_slice b' = None.

Definition requests_typed (l : list N) : Prop := ∀ q, q ∈ l → accepted ScaleSetRunnerRequestId_new q.

Record binding_typed (revision : N) (digest : string) : Prop := {
  bt_revision : accepted CatalogRevision_new revision;
  bt_digest : accepted Sha256Digest_parse digest;
}.

Record resolution_typed (r : ScaleSetLifecycleResolution) : Prop := {
  rt_acquired : requests_typed (lr_acquired r);
  rt_prior : catalog_typed (lr_prior_catalog r);
  rt_binding : binding_typed (lr_catalog_revision r) (lr_catalog_digest r);
}.

Definition proof_typed (proof : ScaleSetDeliverySettlementProof) : Prop :=
  match proof with
  | ProofLifecycleEvidence resolution => resolution_typed resolution
  | _ => True
  end.

Definition phase_typed (phase : ScaleSetDeliveryRecoveryPhase) : Prop :=
  match phase with
  | Reconciled | AcknowledgementStarted => True
  | Acknowledged acquired | AcquisitionRecoveryObserved acquired => requests_typed acquired
  | LifecycleReconciled r | LifecycleAcknowledgementStarted r | LifecycleAcknowledged r => resolution_typed r
  | SettlementPrepared proof acquired prior_catalog revision digest =>
      proof_typed proof ∧ requests_typed acquired ∧ catalog_typed prior_catalog ∧ binding_typed revision digest
  end.

(** Every field of the document holds a value of its type. *)
Record recovery_typed (s : ScaleSetDeliveryRecoveryState) : Prop := {
  yt_prior : binding_typed (rs_prior_catalog_revision s) (rs_prior_catalog_digest s);
  yt_catalog : binding_typed (rs_catalog_revision s) (rs_catalog_digest s);
  yt_phase : phase_typed (rs_phase s);
}.

Lemma from_utf8_bytes b s : String_from_utf8 b = Some s → str_bytes s = b.
Proof.
  unfold String_from_utf8. case_match; [|done]. intros [= <-].
  unfold str_bytes. apply String.list_ascii_of_string_of_list_ascii.
Qed.

Section round_trip.
Context `{LAWS : CatalogSerdeLaws} `{DLAWS : DeliverySerdeLaws} `{HASHER : Sha256Hasher}
  `{RLAWS : RecoverySerdeLaws}.

Lemma decode_delivery_text d t : delivery_text d = Ok t → decode_scale_set_delivery (str_bytes t) = Ok d.
Proof.
  unfold delivery_text. intros H. apply bind_Ok in H as (b & Hb%map_err_Ok & Ht%ok_or_Ok%from_utf8_bytes).
  rewrite Ht. pose proof Hb as Henc. unfold encode_scale_set_delivery in Hb.
  apply bind_Ok in Hb as ([] & Hv & Hb). apply bind_Ok in Hb as (b' & Hvec%ok_or_Ok & Hb).
  apply ok_guard in Hb as [Hl [= <-]]. destruct (delivery_reads _ _ Hvec) as [Hfrom Hver].
  unfold decode_scale_set_delivery. rewrite Hl, Hver. rsimpl.
  assert (dl_schema_version d = SCALE_SET_DELIVERY_SCHEMA_VERSION) as ->.
  { unfold delivery_validate in Hv. apply ok_guard in Hv as [Hg _]. bprop. done. }
  rewrite N.eqb_refl. cbn [negb]. rewrite Hfrom. rsimpl. rewrite Hv. rsimpl. rewrite Henc. rsimpl.
  by rewrite bool_decide_eq_false_2 by auto.
Qed.

Lemma decode_catalog_text c t :
  catalog_typed c → catalog_text c = Ok t → decode_disposable_attempt_catalog (str_bytes t) = Ok c.
Proof.
  intros Hty. unfold catalog_text. intros H.
  apply bind_Ok in H as (b & Hb%map_err_Ok & ->%ok_or_Ok%from_utf8_bytes). by apply encode_decode_catalog.
Qed.

Lemma parse_request_ids_Ok l l' : parse_request_ids l = Ok l' ↔ l' = l ∧ requests_typed l.
Proof.
  unfold parse_request_ids, requests_typed. rewrite traverse_Ok. split.
  - induction 1 as [|x y l l' Hx H [-> IH]].
    + split; [done|]. intros q Hq. by apply elem_of_nil in Hq.
    + unfold or_corrupt in Hx. apply newtype_iff in Hx as [Hx ->]; [|apply _].
      split; [done|]. intros q [->|Hq]%elem_of_cons; auto.
  - intros [-> Hty]. apply Forall2_same_length_lookup_2; [done|]. intros i x y Hx Hy. simplify_eq.
    unfold or_corrupt. apply newtype_iff; [apply _|]. split; [|done]. apply Hty. by eapply list_elem_of_lookup_2.
Qed.

Lemma binding_parses revision digest :
  binding_typed revision digest →
  or_corrupt (CatalogRevision_new revision) = Ok revision ∧ or_corrupt (Sha256Digest_parse digest) = Ok digest.
Proof. intros [Hr Hd]. unfold or_corrupt, accepted in *. by rewrite Hr, Hd. Qed.

Lemma parsed_binding revision digest revision' digest' :
  or_corrupt (CatalogRevision_new revision) = Ok revision' →
  or_corrupt (Sha256Digest_parse digest) = Ok digest' → binding_typed revision' digest'.
Proof.
  unfold or_corrupt. intros [? _]%newtype_iff [? _]%newtype_iff; [by split|apply _..].
Qed.

Lemma resolution_round_trip r w :
  resolution_typed r → from_resolution r = Ok w → into_resolution w = Ok r.
Proof.
  intros [Ha Hp Hb] H. unfold from_resolution in H. apply bind_Ok in H as (dj & Hd%decode_delivery_text & H).
  apply bind_Ok in H as (cj & Hc%decode_catalog_text & [= <-]); [|done].
  destruct (binding_parses _ _ Hb) as [Hrev Hdig].
  unfold into_resolution. simpl. rewrite Hd. simpl.
  rewrite (proj2 (parse_request_ids_Ok _ _) (conj eq_refl Ha)). simpl. rewrite Hc. simpl.
  rewrite Hrev. simpl. rewrite Hdig. simpl. by destruct r.
Qed.

Lemma into_resolution_typed w r : into_resolution w = Ok r → resolution_typed r.
Proof.
  unfold into_resolution. intros H. apply bind_Ok in H as (d & _ & H).
  apply bind_Ok in H as (a & [-> Ha]%parse_request_ids_Ok & H).
  apply bind_Ok in H as (c & [Hc _]%map_err_Ok%decode_encode_catalog & H).
  apply bind_Ok in H as (rev & Hrev & H). apply bind_Ok in H as (dig & Hdig & [= <-]).
  split; [done..|]. by eapply parsed_binding.
Qed.

Lemma proof_round_trip p w : proof_typed p → from_proof p = Ok w → into_proof w = Ok p.
Proof.
  destruct p; simpl; [by intros _ [= <-]..|]. intros Hty H. apply bind_Ok in H as (w' & Hw & [= <-]).
  simpl. by rewrite (resolution_round_trip _ _ Hty Hw).
Qed.

Lemma into_proof_typed w p : into_proof w = Ok p → proof_typed p.
Proof.
  destruct w; simpl; [by intros [= <-]..|]. intros H.
  by apply bind_Ok in H as (r & Hr%into_resolution_typed & [= <-]).
Qed.

Lemma phase_round_trip p w : phase_typed p → from_phase p = Ok w → into_phase w = Ok p.
Proof.
  destruct p; simpl; intros Hty H; inv_ok H; simplify_eq; simpl;
    try rewrite (proj2 (parse_request_ids_Ok _ _) (conj eq_refl Hty)); try done;
    try (by erewrite resolution_round_trip).
  destruct Hty as (Hp & Ha & Hc & [Hrev Hdig]%binding_parses).
  erewrite proof_round_trip by done. simpl.
  rewrite (proj2 (parse_request_ids_Ok _ _) (conj eq_refl Ha)). simpl.
  erewrite decode_catalog_text by done. simpl. rewrite Hrev. simpl. by rewrite Hdig.
Qed.

Lemma into_phase_typed w p : into_phase w = Ok p → phase_typed p.
Proof.
  destruct w; simpl; intros H; inv_ok H; simplify_eq; simpl;
    try (by eapply into_resolution_typed);
    repeat match goal with H : parse_request_ids _ = Ok _ |- _ => apply parse_request_ids_Ok in H as [-> H] end;
    try done.
  split_and!; [by eapply into_proof_typed|done| |by eapply parsed_binding].
  unfold or_corrupt in *. inv_opts. by eapply decode_encode_catalog.
Qed.

Lemma into_state_typed w s : into_state w = Ok s → recovery_typed s.
Proof.
  unfold into_state. intros H. apply bind_Ok in H as (d & _ & H).
  do 4 (apply bind_Ok in H as (? & ? & H)). apply bind_Ok in H as (p & Hp%into_phase_typed & H).
  apply bind_Ok in H as ([] & _ & [= <-]). split; simpl; [by eapply parsed_binding..|done].
Qed.

Lemma state_round_trip s w :
  recovery_typed s → recovery_validate s = Ok () → from_state s = Ok w → into_state w = Ok s.
Proof.
  intros [[Hr1 Hd1]%binding_parses [Hr2 Hd2]%binding_parses Hph] Hv H. unfold from_state in H.
  apply bind_Ok in H as (dj & Hd%decode_delivery_text & H).
  apply bind_Ok in H as (ph & Hphw & [= <-]). apply phase_round_trip in Hphw; [|done].
  unfold into_state. simpl. rewrite Hd. simpl. rewrite Hr1. simpl. rewrite Hd1. simpl.
  rewrite Hr2. simpl. rewrite Hd2. simpl. rewrite Hphw. simpl.
  assert (mkRecovery (rs_schema_version s) (rs_revision s) (rs_prior_catalog_revision s)
    (rs_prior_catalog_digest s) (rs_catalog_revision s) (rs_catalog_digest s) (rs_delivery s) (rs_phase s) = s)
    as -> by by destruct s.
  by rewrite Hv.
Qed.

Lemma encode_recovery_Ok s b :
  encode_scale_set_delivery_recovery s = Ok b →
  ∃ w, recovery_validate s = Ok () ∧ from_state s = Ok w ∧ recovery_to_vec w = Some b ∧
    len b ≤ MAX_SCALE_SET_DELIVERY_RECOVERY_BYTES.
Proof.
  unfold encode_scale_set_delivery_recovery. intros H. apply bind_Ok in H as ([] & Hv & H).
  apply bind_Ok in H as (w & Hw & H). apply bind_Ok in H as (b' & Hb%ok_or_Ok & H).
  apply ok_guard in H as [Hl [= <-]]. bprop. eauto.
Qed.

Lemma encode_decode_recovery s b :
  recovery_typed s → encode_scale_set_delivery_recovery s = Ok b →
  decode_scale_set_delivery_recovery b = Ok s.
Proof.
  intros Hty Henc. pose proof Henc as (w & Hv & Hw & Hb & Hl)%encode_recovery_Ok.
  destruct (recovery_reads _ _ Hb) as [Hfrom Hver]. unfold decode_scale_set_delivery_recovery.
  rewrite (proj2 (N.ltb_ge _ _)) by done. rewrite Hver, Hfrom. rsimpl.
  assert (yw_schema_version w = SCALE_SET_DELIVERY_RECOVERY_SCHEMA_VERSION) as ->.
  { unfold from_state in Hw. do 2 (apply bind_Ok in Hw as (? & _ & Hw)). injection Hw as <-. simpl.
    unfold recovery_validate in Hv. simpl in Hv. apply ok_guard in Hv as [Hg _]. bprop. done. }
  rewrite N.eqb_refl. cbn [negb]. rewrite (state_round_trip _ _ Hty Hv Hw). rsimpl. rewrite Hv. rsimpl.
  rewrite Henc. rsimpl. by rewrite bool_decide_eq_false_2 by auto.
Qed.

Lemma decode_encode_recovery b s :
  decode_scale_set_delivery_recovery b = Ok s →
  recovery_typed s ∧ encode_scale_set_delivery_recovery s = Ok b.
Proof.
  unfold decode_scale_set_delivery_recovery. intros H. apply ok_guard in H as [_ H].
  apply bind_Ok in H as (v & _ & H). apply ok_guard in H as [_ H]. apply bind_Ok in H as (w & _ & H).
  apply bind_Ok in H as (s' & Hty%into_state_typed & H). apply bind_Ok in H as ([] & _ & H).
  apply bind_Ok in H as (b' & Henc & H). apply ok_guard in H as [Heq [= <-]]. bprop. by subst.
Qed.

(** ** Texts determine documents *)

Lemma attempt_wire_inj a a' : attempt_wire a = attempt_wire a' → a = a'.
Proof.
  destruct a, a'. unfold attempt_wire. simpl. intros H. injection H. intros. subst.
  f_equal. by apply phase_name_inj.
Qed.

Lemma encode_attempt_value_inj a a' v :
  encode_attempt_value a = Ok v → encode_attempt_value a' = Ok v → a = a'.
Proof.
  unfold encode_attempt_value. intros H H'.
  apply bind_Ok in H as (b & (_ & Hb & _)%map_err_Ok%encode_attempt_Ok & Hv%ok_or_Ok).
  apply bind_Ok in H' as (b' & (_ & Hb' & _)%map_err_Ok%encode_attempt_Ok & Hv'%ok_or_Ok).
  destruct (value_reads _ _ Hb) as (v1 & t1 & Hv1 & Ht1 & _ & Hf1 & _).
  destruct (value_reads _ _ Hb') as (v2 & t2 & Hv2 & Ht2 & _ & Hf2 & _).
  apply attempt_wire_inj. congruence.
Qed.

Lemma encode_reservation_inj r r' w :
  encode_reservation r = Ok w → encode_reservation r' = Ok w → r = r'.
Proof.
  unfold encode_reservation. intros H H'. apply bind_Ok in H as (v & Hv & [= <-]).
  apply bind_Ok in H' as (v' & Hv' & [= -> Hc Hm Hd Ht]).
  destruct r as [a [c m d] t], r' as [a' [c' m' d'] t']. simpl in *. subst.
  f_equal. by eapply encode_attempt_value_inj.
Qed.

Lemma traverse_inj {E A C} (f : A → result E C) l l' r :
  (∀ a a' b, f a = Ok b → f a' = Ok b → a = a') → traverse f l = Ok r → traverse f l' = Ok r → l = l'.
Proof.
  intros Hinj. rewrite !traverse_Ok. intros H. revert l'. induction H as [|a b l r Ha H IH]; intros l' H'.
  - by inversion H'.
  - inversion H' as [|a' ? l'' ? Ha' H'']; subst. f_equal; [by eapply Hinj|by apply IH].
Qed.

Lemma encode_catalog_inj c c' b :
  encode_disposable_attempt_catalog c = Ok b → encode_disposable_attempt_catalog c' = Ok b → c = c'.
Proof.
  intros (a1 & t1 & _ & Ha1 & Ht1 & Hb1 & _)%encode_catalog_Ok
         (a2 & t2 & _ & Ha2 & Ht2 & Hb2 & _)%encode_catalog_Ok.
  destruct (catalog_reads _ _ Hb1) as [Hf1 _]. destruct (catalog_reads _ _ Hb2) as [Hf2 _].
  rewrite Hf1 in Hf2. injection Hf2 as Hver Hrev Hact Htomb. subst a2 t2.
  pose proof (traverse_inj _ _ _ _ encode_reservation_inj Ha1 Ha2).
  pose proof (traverse_inj _ _ _ _ encode_attempt_value_inj Ht1 Ht2).
  destruct c, c'. simpl in *. by subst.
Qed.

Lemma delivery_text_inj d d' t : delivery_text d = Ok t → delivery_text d' = Ok t → d = d'.
Proof. intros H%decode_delivery_text H'%decode_delivery_text. congruence. Qed.

Lemma catalog_text_inj c c' t : catalog_text c = Ok t → catalog_text c' = Ok t → c = c'.
Proof.
  unfold catalog_text. intros H H'. apply bind_Ok in H as (b & Hb%map_err_Ok & Ht%ok_or_Ok%from_utf8_bytes).
  apply bind_Ok in H' as (b' & Hb'%map_err_Ok & Ht'%ok_or_Ok%from_utf8_bytes).
  rewrite Ht in Ht'. subst b'. by eapply encode_catalog_inj.
Qed.

Lemma from_resolution_inj r r' w : from_resolution r = Ok w → from_resolution r' = Ok w → r = r'.
Proof.
  unfold from_resolution. intros H H'.
  apply bind_Ok in H as (dj & Hd & H). apply bind_Ok in H as (cj & Hc & [= <-]).
  apply bind_Ok in H' as (dj' & Hd' & H'). apply bind_Ok in H' as (cj' & Hc' & [= Hbase -> Hacq -> Hrev Hdig]).
  destruct r, r'. simpl in *. subst. f_equal; [by eapply delivery_text_inj|by eapply catalog_text_inj].
Qed.

Lemma from_proof_inj p p' w : from_proof p = Ok w → from_proof p' = Ok w → p = p'.
Proof.
  destruct p, p'; simpl; intros H H'; inv_ok H; inv_ok H'; simplify_eq; try done.
  f_equal. by eapply from_resolution_inj.
Qed.

Lemma from_phase_inj p p' w : from_phase p = Ok w → from_phase p' = Ok w → p = p'.
Proof.
  destruct p, p'; simpl; intros H H'; inv_ok H; inv_ok H'; simplify_eq; try done;
    f_equal; first [by eapply from_resolution_inj|by eapply from_proof_inj|by eapply catalog_text_inj].
Qed.

Lemma encode_recovery_inj s s' b :
  encode_scale_set_delivery_recovery s = Ok b → encode_scale_set_delivery_recovery s' = Ok b → s = s'.
Proof.
  intros (w & _ & Hw & Hb & _)%encode_recovery_Ok (w' & _ & Hw' & Hb' & _)%encode_recovery_Ok.
  destruct (recovery_reads _ _ Hb) as [Hf _]. destruct (recovery_reads _ _ Hb') as [Hf' _].
  rewrite Hf in Hf'. injection Hf' as <-. unfold from_state in Hw, Hw'.
  apply bind_Ok in Hw as (dj & Hd & Hw). apply bind_Ok in Hw as (ph & Hp & [= <-]).
  apply bind_Ok in Hw' as (dj' & Hd' & Hw'). apply bind_Ok in Hw' as (ph' & Hp' & [= Hv Hr Hpr Hpd Hcr Hcd -> ->]).
  destruct s, s'. simpl in *. subst. f_equal; [by eapply delivery_text_inj|by eapply from_phase_inj].
Qed.

(** What is left of a text cut short does not decode. *)
Lemma decode_recovery_part s b b' s' :
  encode_scale_set_delivery_recovery s = Ok b → b' `prefix_of` b →
  decode_scale_set_delivery_recovery b' = Ok s' → b' = b ∧ s' = s.
Proof.
  intros Henc Hpre Hdec. assert (b' = b) as ->.
  { pose proof Henc as (w & _ & _ & Hb & _)%encode_recovery_Ok.
    destruct (decide (b' = b)) as [|Hne]; [done|exfalso].
    pose proof (recovery_cut_short _ _ _ Hb Hpre Hne) as Hcut.
    unfold decode_scale_set_delivery_recovery in Hdec. apply ok_guard in Hdec as [_ Hdec].
    apply bind_Ok in Hdec as (v & _ & Hdec). apply ok_guard in Hdec as [_ Hdec]. by rewrite Hcut in Hdec. }
  split; [done|]. apply decode_encode_recovery in Hdec as [_ Hdec]. by eapply encode_recovery_inj.
Qed.

Lemma decode_catalog_part `{!CatalogSerdeCut} c b b' c' :
  encode_disposable_attempt_catalog c = Ok b → b' `prefix_of` b →
  decode_disposable_attempt_catalog b' = Ok c' → b' = b ∧ c' = c.
Proof.
  intros Henc Hpre Hdec. assert (b' = b) as ->.
  { pose proof Henc as (act & ts & _ & _ & _ & Hb & _)%encode_catalog_Ok.
    destruct (decide (b' = b)) as [|Hne]; [done|exfalso].
    pose proof (catalog_cut_short _ _ _ Hb Hpre Hne) as Hcut.
    unfold decode_disposable_attempt_catalog in Hdec. apply ok_guard in Hdec as [_ Hdec].
    apply bind_Ok in Hdec as (v & _ & Hdec). apply ok_guard in Hdec as [_ Hdec]. by rewrite Hcut in Hdec. }
  split; [done|]. apply decode_encode_catalog in Hdec as [_ Hdec]. by eapply encode_catalog_inj.
Qed.
End round_trip.

(** The text of a recovery document and the document determine each other:
    the text a typed document encodes to is the only one that decodes to it, and
    decoding yields typed documents only; the deliveries and catalogs embedded
    in it are in canonical form too. *)
Theorem recovery_round_trip `{LAWS : CatalogSerdeLaws} `{DLAWS : DeliverySerdeLaws} `{HASHER : Sha256Hasher}
    `{RLAWS : RecoverySerdeLaws} (s : ScaleSetDeliveryRecoveryState) (b : bytes) :
  decode_scale_set_delivery_recovery b = Ok s ↔
  recovery_typed s ∧ encode_scale_set_delivery_recovery s = Ok b.
Proof.
  split; [apply decode_encode_recovery|]. intros [Hty H]. by apply encode_decode_recovery.
Qed.
