(* ===== verification/CatalogDisk.v ===== *)
(** * The attempt catalog on disk

    [src/src/unix_personal_worker_store/disposable_attempt_catalog.rs]: the
    catalog document in the directory of the personal worker store, staged,
    published and recovered like the queue document, behind the guards of the
    other documents there.  What opening does when the managed directory does
    not exist yet is the class [StoreInitializer]. *)

From S2P Require Import Prelude WorkerQueue StoreWire WorkerStore StoreCodec FileSystem UnixStore.
From S2P Require Import AttemptState WorkerReconciler AttemptCatalog AttemptCodec.

Local Open Scope N_scope.

Definition CATALOG_DOCUMENT : string := "disposable-attempt-catalog.json".

Inductive RecoveryPlan :=
| RecoverClean
| RecoverPublishStaged (no_replace : bool)
| RecoverRemoveStaleStaged.

(** ** Errors *)

Definition map_personal_error (error : PersonalWorkerStoreError) : DisposableAttemptCatalogError :=
  catalog_error
    match pse_kind error with
    | InvalidDocument | CorruptState => CatCorruptState
    | RevisionConflict => CatConflict
    | Busy => CatBusy
    | Missing => CatMissing
    | Io => CatIo
    | UnsafeFilesystem => CatUnsafeFilesystem
    | VersionIncompatible => CatVersionIncompatible
    end (pse_message error).

Definition map_codec_error (error : DisposableAttemptCatalogCodecError) : DisposableAttemptCatalogError :=
  catalog_error
    match cce_kind error with
    | CodecVersionIncompatible => CatVersionIncompatible
    | _ => CatCorruptState
    end "disposable-attempt catalog is invalid or noncanonical".

Definition catalog_corrupt : DisposableAttemptCatalogError :=
  catalog_error CatCorruptState "disposable-attempt catalog is corrupt or noncanonical".

Definition catalog_io {E} (message : string) (_ : E) : DisposableAttemptCatalogError :=
  catalog_error CatIo message.

(** [map_personal_error], but a conflict is a recovery the caller has to wait for. *)
Definition or_recovery_required (message : string) (error : PersonalWorkerStoreError)
    : DisposableAttemptCatalogError :=
  if bool_decide (pse_kind error = RevisionConflict)
  then catalog_error CatRecoveryRequired message
  else map_personal_error error.

(** The rest of [open_or_publish_initialization_directory] where the directory
    does not exist: it creates one, and says whether it holds its lock. *)
Class StoreInitializer := {
  publish_initialization_directory : N * N → io PersonalWorkerStoreError bool;
}.

Section opening.
Context `{INIT : StoreInitializer}.

Definition open_or_publish_initialization_directory (owner : N * N) : io PersonalWorkerStoreError bool :=
  catch (open_existing_initialization_directory owner) (λ opened,
    match opened with
    | Ok _ => mret false
    | Err error =>
        if bool_decide (pse_kind error ≠ Missing) then lift (Err error)
        else publish_initialization_directory owner
    | Panic => lift Panic
    end).

(** The lock an opener holds until it returns: the one it came with, or one it
    takes. *)
Definition with_opener_lock {A} (store : UnixPersonalWorkerStore) (published : bool)
    (body : io PersonalWorkerStoreError A) : io PersonalWorkerStoreError A :=
  if published then catch body (λ r, catch funlock (λ _, lift r)) else locked store body.

(** What every opener of the shared store does: it opens the root and the
    directory, and recovers under the lock. *)
Definition open_or_create_store (body : UnixPersonalWorkerStore → io PersonalWorkerStoreError unit)
    : io PersonalWorkerStoreError UnixPersonalWorkerStore :=
  owner ← open_root;
  published ← open_or_publish_initialization_directory owner;
  let store := mkUnixStore owner in
  _ ← with_opener_lock store published (
    _ ← synchronize_root;
    _ ← synchronize_directory;
    body store);
  mret store.
End opening.

Section catalog_disk.
Context `{SER : !StoreSerde, DS : !DocumentSerde, LIMA : !LimaAuthorityReader, SERDE : CatalogSerde}
  (self : UnixPersonalWorkerStore).

(** ** Reading, staging, removing *)

Definition load_catalog_named (name : string)
    : io DisposableAttemptCatalogError (option DisposableAttemptCatalogDocument) :=
  found ← failing map_personal_error
    (read_named_bytes_bounded self name MAX_DISPOSABLE_ATTEMPT_CATALOG_DOCUMENT_BYTES);
  lift (traverse_option (λ b, map_err map_codec_error (decode_disposable_attempt_catalog b)) found).

Definition stage_catalog (document : DisposableAttemptCatalogDocument)
    : io DisposableAttemptCatalogError StagedDocument :=
  encoded ← lift (map_err map_codec_error (encode_disposable_attempt_catalog document));
  failing map_personal_error (stage_named_bytes self STAGED_CATALOG_DOCUMENT encoded).

Definition synchronize_existing_catalog_stage (expected : DisposableAttemptCatalogDocument)
    : io DisposableAttemptCatalogError unit :=
  file ← failing (λ error, map_personal_error (map_document_open_error error))
    (openat OpenReadOnly STAGED_CATALOG_DOCUMENT);
  _ ← failing map_personal_error (inspect_private_file file (us_owner self) None);
  bytes ← failing (catalog_io "could not read staged disposable-attempt catalog")
    (read_to_end file (MAX_DISPOSABLE_ATTEMPT_CATALOG_DOCUMENT_BYTES + 1));
  if MAX_DISPOSABLE_ATTEMPT_CATALOG_DOCUMENT_BYTES <? N.of_nat (length bytes)
  then lift (Err catalog_corrupt)
  else
    decoded ← lift (map_err map_codec_error (decode_disposable_attempt_catalog bytes));
    if bool_decide (decoded ≠ expected) then lift (Err catalog_corrupt)
    else
      _ ← failing (catalog_io "could not synchronize staged disposable-attempt catalog") (sync_all file);
      failing map_personal_error
        (inspect_private_file file (us_owner self) (Some (N.of_nat (length bytes)))).

Definition remove_catalog_stage : io DisposableAttemptCatalogError unit :=
  catch (unlinkat STAGED_CATALOG_DOCUMENT) (λ removed,
    match removed with
    | Ok _ => failing map_personal_error synchronize_directory
    | Err NOENT => mret ()
    | Err error => lift (Err (catalog_io "could not remove stale disposable-attempt catalog" error))
    | Panic => lift Panic
    end).

(** ** Recovery *)

Definition catalog_recovery_plan : io DisposableAttemptCatalogError RecoveryPlan :=
  found ← load_catalog_named STAGED_CATALOG_DOCUMENT;
  match found with
  | None => mret RecoverClean
  | Some staged =>
      current ← load_catalog_named CATALOG_DOCUMENT;
      match current with
      | None =>
          if bool_decide (staged ≠ empty_catalog) then lift (Err catalog_corrupt)
          else mret (RecoverPublishStaged true)
      | Some current =>
          if bool_decide (staged = current) then mret RecoverRemoveStaleStaged
          else if is_some_and (λ next, cd_revision staged =? next)
                    (checked_add u64_max (cd_revision current) 1)
          then
            _ ← lift (map_err (λ _, catalog_corrupt) (validate_recovery_successor_of staged current));
            mret (RecoverPublishStaged false)
          else lift (Err catalog_corrupt)
      end
  end.

(** No replacement of the queue document is pending. *)
Definition refuse_unsettled_personal_worker_state : io DisposableAttemptCatalogError unit :=
  plan ← failing map_personal_error (recovery_plan self);
  match plan with
  | PlanClean _ => mret ()
  | _ => lift (Err (catalog_error CatRecoveryRequired
           "personal-worker recovery must complete before disposable-attempt mutation"))
  end.

Definition recover_catalog_locked : io DisposableAttemptCatalogError unit :=
  _ ← refuse_unsettled_personal_worker_state;
  plan ← catalog_recovery_plan;
  match plan with
  | RecoverClean => mret ()
  | RecoverPublishStaged no_replace =>
      found ← load_catalog_named STAGED_CATALOG_DOCUMENT;
      staged ← lift (ok_or found catalog_corrupt);
      _ ← synchronize_existing_catalog_stage staged;
      let guard := StagedDocument_existing STAGED_CATALOG_DOCUMENT in
      failing map_personal_error
        (always_drop (publish_named_staged guard CATALOG_DOCUMENT no_replace))
  | RecoverRemoveStaleStaged => remove_catalog_stage
  end.

(** ** The operations of [DisposableAttemptCatalogStore] *)

(** What every mutation of the catalog does under the lock before it looks at
    the documents: it makes the directory durable, and refuses while another
    component has something unfinished. *)
Definition catalog_guards : io DisposableAttemptCatalogError unit :=
  _ ← failing map_personal_error synchronize_directory;
  _ ← failing map_personal_error (disposable_template_generation_refuse_unsettled self);
  _ ← failing (or_recovery_required
        "Lima lifecycle recovery must complete before disposable-attempt mutation")
    (refuse_unsettled_lima_authority self);
  failing (or_recovery_required
    "Scale Set delivery reconciliation must complete before disposable-attempt mutation")
    (scale_set_delivery_recovery_refuse_unsettled self).

(** A block that holds the writer lock, with its errors converted. *)
Definition catalog_locked {A} (body : io DisposableAttemptCatalogError A)
    : io DisposableAttemptCatalogError A :=
  _ ← failing map_personal_error (acquire_mutation_lock self);
  catch body (λ r, catch funlock (λ _, lift r)).

Definition unix_catalog_recover : io DisposableAttemptCatalogError unit :=
  catalog_locked (_ ← catalog_guards; recover_catalog_locked).

Definition unix_catalog_load
    : io DisposableAttemptCatalogError (option DisposableAttemptCatalogDocument) :=
  _ ← failing map_personal_error (acquire_read_lock self);
  catch (
    staged ← failing map_personal_error (read_named_bytes_bounded self STAGED_CATALOG_DOCUMENT
      MAX_DISPOSABLE_ATTEMPT_CATALOG_DOCUMENT_BYTES);
    if is_some staged
    then lift (Err (catalog_error CatRecoveryRequired "disposable-attempt catalog requires recovery"))
    else load_catalog_named CATALOG_DOCUMENT) (λ r, catch funlock (λ _, lift r)).

Definition unix_catalog_create (document : DisposableAttemptCatalogDocument)
    : io DisposableAttemptCatalogError DisposableAttemptCatalogWriteReceipt :=
  if bool_decide (document ≠ empty_catalog)
  then lift (Err (catalog_error CatConflict
         "initial disposable-attempt catalog must be empty revision one"))
  else catalog_locked (
    _ ← catalog_guards;
    _ ← recover_catalog_locked;
    found ← load_catalog_named CATALOG_DOCUMENT;
    if is_some found
    then lift (Err (catalog_error CatAlreadyExists "disposable-attempt catalog already exists"))
    else
      staged ← stage_catalog document;
      _ ← failing map_personal_error (always_drop (publish_named_staged staged CATALOG_DOCUMENT true));
      mret (mkCatalogReceipt CatCreated (cd_revision document) None)).

Definition unix_catalog_replace (expected_revision : DisposableAttemptCatalogRevision)
    (document : DisposableAttemptCatalogDocument)
    : io DisposableAttemptCatalogError DisposableAttemptCatalogWriteReceipt :=
  catalog_locked (
    _ ← catalog_guards;
    _ ← recover_catalog_locked;
    found ← load_catalog_named CATALOG_DOCUMENT;
    current ← lift (ok_or found (catalog_error CatMissing "disposable-attempt catalog does not exist"));
    if negb (cd_revision current =? expected_revision)
    then lift (Err (catalog_error CatConflict
           "disposable-attempt catalog revision changed before publication"))
    else
      _ ← lift (catalog_validate_successor_of document current);
      staged ← stage_catalog document;
      _ ← failing map_personal_error (always_drop (publish_named_staged staged CATALOG_DOCUMENT false));
      mret (mkCatalogReceipt CatReplaced (cd_revision document) None)).
End catalog_disk.

(** [open_or_create_disposable_catalog]. *)
Definition open_or_create_disposable_catalog
    `{!StoreSerde, !DocumentSerde, !LimaAuthorityReader, CatalogSerde, StoreInitializer}
    : io DisposableAttemptCatalogError UnixPersonalWorkerStore :=
  owner ← failing map_personal_error open_root;
  published ← failing map_personal_error (open_or_publish_initialization_directory owner);
  let store := mkUnixStore owner in
  let body : io DisposableAttemptCatalogError unit :=
    _ ← failing map_personal_error synchronize_root;
    _ ← catalog_guards store;
    recover_catalog_locked store in
  _ ← (if published : bool
       then catch body (λ r, catch funlock (λ _, lift (S := World) r)) else catalog_locked store body);
  mret store.

(** [DisposableAttemptCatalog::load] over the store on disk. *)
Definition unix_Catalog_load
    `{!StoreSerde, !DocumentSerde, !LimaAuthorityReader, CatalogSerde} (store : UnixPersonalWorkerStore)
    : io DisposableAttemptCatalogError DisposableAttemptCatalogDocument :=
  loaded ← unix_catalog_load store;
  document ← lift (ok_or loaded (catalog_error CatMissing "disposable attempt catalog is not initialized"));
  _ ← lift (validate_catalog document);
  mret document.
