(* ===== verification/DeliveryDisk.v ===== *)
(** * Deliveries on disk

    [src/src/unix_personal_worker_store/scale_set_delivery_recovery.rs] and its
    submodules [controller_transaction.rs], [reconcile_transaction.rs] and
    [settlement_transaction.rs]: the recovery document in the directory of the
    store, advanced alone or together with the attempt catalog.  A transaction
    that runs a call of the bridge under the lock is a program over the world
    and the state of the bridge. *)

From S2P Require Import Prelude WorkerQueue StoreWire WorkerStore StoreCodec FileSystem UnixStore.
From S2P Require Import ScaleSetProtocol AttemptState WorkerReconciler AttemptCatalog AttemptCodec.
From S2P Require Import ScaleSetDelivery DeliveryConsumer DeliveryRecovery RecoveryCodec CatalogDisk.

Local Open Scope N_scope.

(** ** Errors *)

Definition map_recovery_error (error : ScaleSetDeliveryRecoveryError) : PersonalWorkerStoreError :=
  store_error
    match sre_kind error with
    | RecoveryVersionIncompatible => VersionIncompatible
    | RecoveryConflict => RevisionConflict
    | RecoveryInvalidDocument | RecoveryDocumentTooLarge | RecoveryNonCanonical
    | RecoveryCorruptState => CorruptState
    end "Scale Set delivery recovery state is invalid".

Definition catalog_error_kind (error : DisposableAttemptCatalogError) : PersonalWorkerStoreErrorKind :=
  match ce_kind error with
  | CatCorruptState => CorruptState
  | CatBusy => Busy
  | CatMissing => Missing
  | CatIo => Io
  | CatUnsafeFilesystem => UnsafeFilesystem
  | CatVersionIncompatible => VersionIncompatible
  | CatAlreadyExists | CatConflict | CatIdentityDrift | CatInvalidAction | CatLimitExceeded
  | CatRecoveryRequired => RevisionConflict
  end.

(** [map_catalog_error] of the reconciliation keeps the message. *)
Definition reconcile_catalog_error (error : DisposableAttemptCatalogError) : PersonalWorkerStoreError :=
  store_error (catalog_error_kind error) (ce_message error).

(** [map_catalog_error] of the settlement. *)
Definition settlement_catalog_error (error : DisposableAttemptCatalogError) : PersonalWorkerStoreError :=
  store_error (catalog_error_kind error) "disposable-attempt catalog is invalid".

(** ** Programs that also talk to a bridge *)

(** A program of the store, beside a bridge in state [B]. *)
Definition disk {B E A} (m : io E A) : prog (World * B) E A := λ '(w, b),
  let '(w', out) := m w in ((w', b), out).

(** A block that holds the writer lock while it may call the bridge. *)
Definition locked_with {B A} (self : UnixPersonalWorkerStore)
    (body : prog (World * B) PersonalWorkerStoreError A) : prog (World * B) PersonalWorkerStoreError A :=
  _ ← disk (acquire_mutation_lock self);
  catch body (λ r, catch (disk funlock) (λ _, lift r)).

(** [ScaleSetExternalTransaction]. *)
Inductive ScaleSetExternalTransaction (T E : Type) :=
| Completed (state : T)
| ExternalFailed (error : E).
Arguments Completed {T E} state.
Arguments ExternalFailed {T E} error.

(** [match call { Ok(v) => v, Err(error) => return Ok(ExternalFailed(error)) }]. *)
Definition external {B E A T} (call : prog (World * B) E A)
    (k : A → prog (World * B) PersonalWorkerStoreError (ScaleSetExternalTransaction T E))
    : prog (World * B) PersonalWorkerStoreError (ScaleSetExternalTransaction T E) :=
  catch call (λ answer,
    match answer with
    | Ok value => k value
    | Err error => mret (ExternalFailed error)
    | Panic => lift Panic
    end).

Definition is_reconciled (phase : ScaleSetDeliveryRecoveryPhase) : bool :=
  match phase with Reconciled => true | _ => false end.

Definition is_acknowledgement_started (phase : ScaleSetDeliveryRecoveryPhase) : bool :=
  match phase with AcknowledgementStarted => true | _ => false end.

Definition is_acquisition_recovery (phase : ScaleSetDeliveryRecoveryPhase) : bool :=
  match phase with AcknowledgementStarted | AcquisitionRecoveryObserved _ => true | _ => false end.

Definition is_lifecycle_started (phase : ScaleSetDeliveryRecoveryPhase) : bool :=
  match phase with LifecycleAcknowledgementStarted _ => true | _ => false end.

Definition is_lifecycle_pending (phase : ScaleSetDeliveryRecoveryPhase) : bool :=
  match phase with LifecycleReconciled _ | LifecycleAcknowledgementStarted _ => true | _ => false end.

Definition is_settlement_prepared (phase : ScaleSetDeliveryRecoveryPhase) : bool :=
  match phase with SettlementPrepared _ _ _ _ _ => true | _ => false end.

Section delivery_disk.
Context `{SER : !StoreSerde, DS : !DocumentSerde, LIMA : !LimaAuthorityReader, SERDE : CatalogSerde,
  DSERDE : DeliverySerde, HASHER : Sha256Hasher, RSERDE : RecoverySerde}
  (self : UnixPersonalWorkerStore).

Abbreviation sio := (io PersonalWorkerStoreError).

(** ** Reading and staging *)

Definition load_scale_set_delivery_named (name : string) : sio (option ScaleSetDeliveryRecoveryState) :=
  found ← read_named_bytes_bounded self name MAX_SCALE_SET_DELIVERY_RECOVERY_BYTES;
  lift (traverse_option (λ b, map_err map_recovery_error (decode_scale_set_delivery_recovery b)) found).

Definition stage_scale_set_delivery (state : ScaleSetDeliveryRecoveryState) : sio StagedDocument :=
  bytes ← lift (map_err map_recovery_error (encode_scale_set_delivery_recovery state));
  stage_named_bytes self STAGED_DELIVERY_RECOVERY_DOCUMENT bytes.

Definition load_scale_set_delivery_recovery : sio (option ScaleSetDeliveryRecoveryState) :=
  _ ← acquire_read_lock self;
  catch (
    staged ← read_named_bytes_bounded self STAGED_DELIVERY_RECOVERY_DOCUMENT
      MAX_SCALE_SET_DELIVERY_RECOVERY_BYTES;
    if is_some staged
    then lift (Err (store_error RevisionConflict "Scale Set delivery state requires recovery"))
    else load_scale_set_delivery_named DELIVERY_RECOVERY_DOCUMENT) (λ r, catch funlock (λ _, lift r)).

Definition has_scale_set_delivery_recovery_evidence : sio bool :=
  _ ← acquire_read_lock self;
  catch (
    staged ← read_named_bytes_bounded self STAGED_DELIVERY_RECOVERY_DOCUMENT
      MAX_SCALE_SET_DELIVERY_RECOVERY_BYTES;
    current ← read_named_bytes_bounded self DELIVERY_RECOVERY_DOCUMENT
      MAX_SCALE_SET_DELIVERY_RECOVERY_BYTES;
    mret (is_some staged || is_some current)) (λ r, catch funlock (λ _, lift r)).

(** ** Recovery of the document alone *)

Definition scale_set_delivery_recovery_plan : sio RecoveryPlan :=
  found ← load_scale_set_delivery_named STAGED_DELIVERY_RECOVERY_DOCUMENT;
  match found with
  | None => mret RecoverClean
  | Some staged =>
      current ← load_scale_set_delivery_named DELIVERY_RECOVERY_DOCUMENT;
      match current with
      | None =>
          if (rs_revision staged =? 1) && is_reconciled (rs_phase staged)
          then mret (RecoverPublishStaged true)
          else lift (Err corrupt_state)
      | Some current =>
          if bool_decide (staged = current) then mret RecoverRemoveStaleStaged
          else if exact_recovery_successor current staged then mret (RecoverPublishStaged false)
          else lift (Err corrupt_state)
      end
  end.

Definition synchronize_existing_scale_set_delivery_stage (expected : ScaleSetDeliveryRecoveryState)
    : sio unit :=
  file ← failing map_document_open_error (openat OpenReadOnly STAGED_DELIVERY_RECOVERY_DOCUMENT);
  _ ← inspect_private_file file (us_owner self) None;
  bytes ← failing (io_error "could not read staged Scale Set delivery recovery state")
    (read_to_end file (MAX_SCALE_SET_DELIVERY_RECOVERY_BYTES + 1));
  if (MAX_SCALE_SET_DELIVERY_RECOVERY_BYTES <? N.of_nat (length bytes))
     || negb (bool_decide (ok (decode_scale_set_delivery_recovery bytes) = Some expected))
  then lift (Err corrupt_state)
  else
    _ ← failing (io_error "could not synchronize staged Scale Set delivery recovery state") (sync_all file);
    inspect_private_file file (us_owner self) (Some (N.of_nat (length bytes))).

(** Removing a staged document that is not needed. *)
Definition unlink_delivery_stage (message : string) : sio unit :=
  catch (unlinkat STAGED_DELIVERY_RECOVERY_DOCUMENT) (λ removed,
    match removed with
    | Ok _ => synchronize_directory
    | Err NOENT => mret ()
    | Err _ => lift (Err (store_error Io message))
    | Panic => lift Panic
    end).

(** A stage found on disk, published. *)
Definition publish_existing_delivery_stage (no_replace : bool) : sio unit :=
  always_drop (publish_named_staged (StagedDocument_existing STAGED_DELIVERY_RECOVERY_DOCUMENT)
    DELIVERY_RECOVERY_DOCUMENT no_replace).

Definition recover_scale_set_delivery_locked : sio unit :=
  plan ← scale_set_delivery_recovery_plan;
  match plan with
  | RecoverClean => mret ()
  | RecoverPublishStaged no_replace =>
      found ← load_scale_set_delivery_named STAGED_DELIVERY_RECOVERY_DOCUMENT;
      staged ← lift (ok_or found corrupt_state);
      _ ← synchronize_existing_scale_set_delivery_stage staged;
      publish_existing_delivery_stage no_replace
  | RecoverRemoveStaleStaged =>
      unlink_delivery_stage "could not remove stale Scale Set delivery recovery state"
  end.

(** ** Guards *)

Definition refuse_pending_worker_recovery (message : string) : sio unit :=
  plan ← recovery_plan self;
  match plan with
  | PlanClean _ => mret ()
  | _ => lift (Err (store_error RevisionConflict message))
  end.

Definition refuse_other_unsettled_scale_set_state : sio unit :=
  _ ← refuse_pending_worker_recovery
    "personal-worker recovery must complete before Scale Set delivery mutation";
  _ ← disposable_attempt_catalog_refuse_unsettled self;
  _ ← disposable_template_generation_refuse_unsettled self;
  refuse_unsettled_lima_authority self.

Definition refuse_unsettled_scale_set_neighbors : sio unit :=
  _ ← refuse_pending_worker_recovery
    "personal-worker recovery must complete before Scale Set reconciliation";
  _ ← disposable_template_generation_refuse_unsettled self;
  refuse_unsettled_lima_authority self.

(** What the transactions on the document alone do first. *)
Definition delivery_guards : sio unit :=
  _ ← synchronize_directory;
  _ ← refuse_other_unsettled_scale_set_state;
  recover_scale_set_delivery_locked.

(** ** Publishing the document alone *)

Definition create_scale_set_delivery_recovery (state : ScaleSetDeliveryRecoveryState)
    : sio ScaleSetDeliveryRecoveryState :=
  if negb (rs_revision state =? 1) || negb (is_reconciled (rs_phase state))
  then lift (Err (store_error RevisionConflict "initial Scale Set delivery recovery state is invalid"))
  else locked self (
    _ ← delivery_guards;
    found ← load_scale_set_delivery_named DELIVERY_RECOVERY_DOCUMENT;
    if is_some found
    then lift (Err (store_error RevisionConflict "Scale Set delivery recovery state already exists"))
    else
      staged ← stage_scale_set_delivery state;
      _ ← always_drop (publish_named_staged staged DELIVERY_RECOVERY_DOCUMENT true);
      mret state).

Definition delivery_missing : PersonalWorkerStoreError :=
  store_error Missing "Scale Set delivery recovery state does not exist".

Definition replace_scale_set_delivery_recovery (expected_revision : N)
    (successor : ScaleSetDeliveryRecoveryState) : sio ScaleSetDeliveryRecoveryState :=
  locked self (
    _ ← delivery_guards;
    found ← load_scale_set_delivery_named DELIVERY_RECOVERY_DOCUMENT;
    current ← lift (ok_or found delivery_missing);
    if negb (rs_revision current =? expected_revision) || negb (exact_recovery_successor current successor)
    then lift (Err (store_error RevisionConflict
           "Scale Set delivery recovery successor no longer matches durable state"))
    else
      staged ← stage_scale_set_delivery successor;
      _ ← always_drop (publish_named_staged staged DELIVERY_RECOVERY_DOCUMENT false);
      mret successor).

Definition publish_scale_set_delivery_successor_locked (current successor : ScaleSetDeliveryRecoveryState)
    : sio unit :=
  if negb (exact_recovery_successor current successor)
  then lift (Err (store_error RevisionConflict "Scale Set delivery recovery successor is invalid"))
  else
    staged ← stage_scale_set_delivery successor;
    always_drop (publish_named_staged staged DELIVERY_RECOVERY_DOCUMENT false).

Definition require_scale_set_catalog_binding (delivery : ScaleSetDeliveryRecoveryState) : sio unit :=
  found ← failing (λ _, corrupt_state) (load_catalog_named self CATALOG_DOCUMENT);
  catalog ← lift (ok_or found corrupt_state);
  if negb (matches_catalog delivery catalog) then lift (Err corrupt_state) else mret ().

(** What every transaction of the controller does first: it loads the document,
    which has to be the one the caller saw, in a phase [candidate] accepts, and
    still bound to the catalog. *)
Definition load_candidate (expected : ScaleSetDeliveryRecoveryState) (absent : PersonalWorkerStoreError)
    (candidate : ScaleSetDeliveryRecoveryState → result PersonalWorkerStoreError bool) (message : string)
    : sio ScaleSetDeliveryRecoveryState :=
  _ ← delivery_guards;
  found ← load_scale_set_delivery_named DELIVERY_RECOVERY_DOCUMENT;
  current ← lift (ok_or found absent);
  if bool_decide (current ≠ expected) then lift (Err (store_error RevisionConflict message))
  else
    accepts ← lift (candidate current);
    if negb accepts then lift (Err (store_error RevisionConflict message))
    else
      _ ← require_scale_set_catalog_binding current;
      mret current.

(** A started acknowledgement of a delivery without available requests. *)
Definition lifecycle_only_candidate (current : ScaleSetDeliveryRecoveryState)
    : result PersonalWorkerStoreError bool :=
  if negb (is_acknowledgement_started (rs_phase current)) then Ok false
  else
    available ← map_err (λ _, corrupt_state) (available_request_ids (rs_delivery current));
    Ok (length available =? 0)%nat.

(** ** Transactions of the controller *)

Section external_calls.
Context {B E : Type}.
Abbreviation xio := (prog (World * B) PersonalWorkerStoreError).
Abbreviation xtx := (ScaleSetExternalTransaction ScaleSetDeliveryRecoveryState E).

Definition acknowledge_scale_set_delivery_locked (expected : ScaleSetDeliveryRecoveryState)
    (acknowledge : N → prog (World * B) E (list ScaleSetRunnerRequestId)) : xio xtx :=
  locked_with self (
    current ← disk (load_candidate expected delivery_missing
      (λ current, Ok (is_reconciled (rs_phase current)))
      "Scale Set delivery is not the exact reconciled acknowledgement candidate");
    started ← lift (map_err map_recovery_error (begin_ack current));
    _ ← disk (publish_scale_set_delivery_successor_locked current started);
    external (acknowledge (dl_message_id (rs_delivery started))) (λ acquired,
      acknowledged ← lift (map_err map_recovery_error (record_ack_response started acquired));
      _ ← disk (publish_scale_set_delivery_successor_locked started acknowledged);
      mret (Completed acknowledged))).

Definition retry_scale_set_delivery_acknowledgement_locked (expected : ScaleSetDeliveryRecoveryState)
    (acknowledge : N → prog (World * B) E (list ScaleSetRunnerRequestId)) : xio xtx :=
  locked_with self (
    current ← disk (load_candidate expected corrupt_state lifecycle_only_candidate
      "Scale Set delivery is not the exact lifecycle-only acknowledgement candidate");
    external (acknowledge (dl_message_id (rs_delivery current))) (λ acquired,
      if negb (length acquired =? 0)%nat then lift (Err corrupt_state)
      else
        acknowledged ← lift (map_err map_recovery_error (record_ack_response current []));
        _ ← disk (publish_scale_set_delivery_successor_locked current acknowledged);
        mret (Completed acknowledged))).

Definition recover_scale_set_acquisition_locked (expected : ScaleSetDeliveryRecoveryState)
    (acquire : list ScaleSetRunnerRequestId → prog (World * B) E (list ScaleSetRunnerRequestId)) : xio xtx :=
  locked_with self (
    current ← disk (load_candidate expected delivery_missing
      (λ current, Ok (is_acquisition_recovery (rs_phase current)))
      "Scale Set delivery is not the exact acquisition recovery candidate");
    available ← lift (map_err (λ _, corrupt_state) (available_request_ids (rs_delivery current)));
    if (length available =? 0)%nat
    then lift (Err (store_error RevisionConflict
           "Scale Set delivery has no replayable acquisition identities"))
    else external (acquire available) (λ acquired,
      successor ← lift (map_err map_recovery_error (record_recovery_acquire current acquired));
      _ ← disk (if bool_decide (successor ≠ current)
                then publish_scale_set_delivery_successor_locked current successor else mret ());
      mret (Completed successor))).

Definition acknowledge_scale_set_lifecycle_locked (expected : ScaleSetDeliveryRecoveryState)
    (acknowledge : N → prog (World * B) E (list ScaleSetRunnerRequestId)) : xio xtx :=
  locked_with self (
    current ← disk (load_candidate expected
      (store_error Missing "Scale Set lifecycle recovery state does not exist")
      (λ current, Ok (is_lifecycle_pending (rs_phase current)))
      "Scale Set lifecycle delivery is not the exact acknowledgement candidate");
    started ← lift (map_err map_recovery_error (begin_lifecycle_ack current));
    _ ← disk (if bool_decide (started ≠ current)
              then publish_scale_set_delivery_successor_locked current started else mret ());
    resolution ← lift (ok_or (lifecycle_resolution started) corrupt_state);
    external (acknowledge (dl_message_id (lr_delivery resolution))) (λ acquired,
      if negb (length acquired =? 0)%nat then lift (Err corrupt_state)
      else
        acknowledged ← lift (map_err map_recovery_error (record_lifecycle_ack started));
        _ ← disk (publish_scale_set_delivery_successor_locked started acknowledged);
        mret (Completed acknowledged))).
End external_calls.

Definition confirm_scale_set_delivery_acknowledged_locked (expected : ScaleSetDeliveryRecoveryState)
    : sio ScaleSetDeliveryRecoveryState :=
  locked self (
    current ← load_candidate expected corrupt_state lifecycle_only_candidate
      "Scale Set acknowledgement absence does not match durable state";
    acknowledged ← lift (map_err map_recovery_error (record_ack_response current []));
    _ ← publish_scale_set_delivery_successor_locked current acknowledged;
    mret acknowledged).

Definition confirm_scale_set_lifecycle_acknowledged_locked (expected : ScaleSetDeliveryRecoveryState)
    : sio ScaleSetDeliveryRecoveryState :=
  locked self (
    current ← load_candidate expected corrupt_state (λ current, Ok (is_lifecycle_started (rs_phase current)))
      "Scale Set lifecycle acknowledgement absence does not match durable state";
    acknowledged ← lift (map_err map_recovery_error (record_lifecycle_ack current));
    _ ← publish_scale_set_delivery_successor_locked current acknowledged;
    mret acknowledged).
End delivery_disk.
