(* ===== verification/DeliveryPair.v ===== *)
(** * Deliveries and catalogs published together

    [reconcile_transaction.rs] and [settlement_transaction.rs] under
    [src/src/unix_personal_worker_store/scale_set_delivery_recovery/]: the
    transactions that change the attempt catalog and the recovery document as a
    pair, and the recovery that completes or undoes an interrupted one. *)

From S2P Require Import Prelude WorkerQueue StoreWire WorkerStore StoreCodec FileSystem UnixStore.
From S2P Require Import ExecutionAdmission ScaleSetProtocol AttemptState WorkerReconciler AttemptCatalog AttemptCodec.
From S2P Require Import ScaleSetDelivery DeliveryConsumer DeliveryRecovery RecoveryCodec CatalogDisk DeliveryDisk.

Local Open Scope N_scope.

(** What a settlement that was carried out reports. *)
Record ScaleSetDeliverySettlement := mkSettlement {
  ss_catalog : DisposableAttemptCatalogDocument;
  ss_prepared : ScaleSetDeliveryRecoveryState;
  ss_acquired : nat;
}.

(** The guard of a staged file that may not exist. *)
Definition drop_staged_option {E} (staged : option StagedDocument) : io E unit :=
  match staged with
  | Some staged => drop_staged staged
  | None => mret ()
  end.

Section delivery_pair.
Context `{SER : !StoreSerde, DS : !DocumentSerde, LIMA : !LimaAuthorityReader, SERDE : CatalogSerde,
  DSERDE : DeliverySerde, HASHER : Sha256Hasher, RSERDE : RecoverySerde}
  (self : UnixPersonalWorkerStore).

Abbreviation sio := (io PersonalWorkerStoreError).

(** A catalog stage found on disk, published. *)
Definition publish_existing_catalog_stage (no_replace : bool) : sio unit :=
  always_drop (publish_named_staged (StagedDocument_existing STAGED_CATALOG_DOCUMENT)
    CATALOG_DOCUMENT no_replace).

Definition remove_uncommitted_delivery_stage : sio unit :=
  unlink_delivery_stage "could not remove uncommitted Scale Set delivery stage".

(** ** Recovery of a pair *)

(** The branch for a stage that resolves the current delivery by lifecycle
    evidence. *)
Definition recover_lifecycle_resolution (current_delivery staged_delivery : ScaleSetDeliveryRecoveryState)
    (current_catalog : DisposableAttemptCatalogDocument)
    (staged_catalog : option DisposableAttemptCatalogDocument) : sio unit :=
  resolution ← lift (ok_or (lifecycle_resolution staged_delivery) corrupt_state);
  if matches_catalog current_delivery current_catalog
  then
    match staged_catalog with
    | Some staged =>
        if resolution_matches_catalog resolution staged
        then
          _ ← synchronize_existing_scale_set_delivery_stage self staged_delivery;
          _ ← failing reconcile_catalog_error (synchronize_existing_catalog_stage self staged);
          _ ← publish_existing_catalog_stage false;
          publish_existing_delivery_stage false
        else lift (Err corrupt_state)
    | None =>
        if resolution_matches_catalog resolution current_catalog
        then
          _ ← synchronize_existing_scale_set_delivery_stage self staged_delivery;
          publish_existing_delivery_stage false
        else remove_uncommitted_delivery_stage
    end
  else if resolution_matches_catalog resolution current_catalog
  then
    _ ←
      match staged_catalog with
      | Some staged =>
          if bool_decide (staged ≠ current_catalog) then lift (Err corrupt_state)
          else failing reconcile_catalog_error remove_catalog_stage
      | None => mret ()
      end;
    _ ← synchronize_existing_scale_set_delivery_stage self staged_delivery;
    publish_existing_delivery_stage false
  else lift (Err corrupt_state).

(** The branch for a current delivery. *)
Definition recover_beside_delivery (current_delivery : ScaleSetDeliveryRecoveryState)
    (staged_delivery : option ScaleSetDeliveryRecoveryState)
    (current_catalog staged_catalog : option DisposableAttemptCatalogDocument) : sio unit :=
  current_catalog ← lift (ok_or current_catalog corrupt_state);
  resolves ←
    match staged_delivery with
    | Some staged =>
        resolution ← lift (ok_or (lifecycle_resolution staged) corrupt_state);
        mret (if is_lifecycle_resolution_of staged current_delivery (lr_prior_catalog resolution)
              then Some staged else None)
    | None => mret None
    end;
  match resolves with
  | Some staged => recover_lifecycle_resolution current_delivery staged current_catalog staged_catalog
  | None =>
      if negb (matches_catalog current_delivery current_catalog) then lift (Err corrupt_state)
      else if is_some staged_catalog
      then lift (Err (store_error RevisionConflict
             "disposable-attempt recovery conflicts with a live Scale Set delivery"))
      else if is_some staged_delivery then recover_scale_set_delivery_locked self
      else mret ()
  end.

(** The branch for a first stage of a delivery. *)
Definition recover_first_delivery (staged_delivery : ScaleSetDeliveryRecoveryState)
    (current_catalog staged_catalog : option DisposableAttemptCatalogDocument) : sio unit :=
  if negb (rs_revision staged_delivery =? 1) || negb (is_reconciled (rs_phase staged_delivery))
  then lift (Err corrupt_state)
  else
    current_catalog ← lift (ok_or current_catalog corrupt_state);
    match staged_catalog with
    | Some staged_catalog =>
        if matches_catalog staged_delivery current_catalog && bool_decide (staged_catalog = current_catalog)
        then
          _ ← failing reconcile_catalog_error remove_catalog_stage;
          _ ← synchronize_existing_scale_set_delivery_stage self staged_delivery;
          publish_existing_delivery_stage true
        else if negb (matches_prior_catalog staged_delivery current_catalog)
                || negb (matches_catalog staged_delivery staged_catalog)
        then lift (Err corrupt_state)
        else
          _ ← synchronize_existing_scale_set_delivery_stage self staged_delivery;
          _ ← failing reconcile_catalog_error (synchronize_existing_catalog_stage self staged_catalog);
          _ ← publish_existing_catalog_stage false;
          publish_existing_delivery_stage true
    | None =>
        if matches_catalog staged_delivery current_catalog
        then
          _ ← synchronize_existing_scale_set_delivery_stage self staged_delivery;
          publish_existing_delivery_stage true
        else if matches_prior_catalog staged_delivery current_catalog
        then remove_uncommitted_delivery_stage
        else lift (Err corrupt_state)
    end.

Definition recover_scale_set_reconcile_transaction_locked : sio unit :=
  _ ← refuse_unsettled_scale_set_neighbors self;
  current_catalog ← failing reconcile_catalog_error (load_catalog_named self CATALOG_DOCUMENT);
  staged_catalog ← failing reconcile_catalog_error (load_catalog_named self STAGED_CATALOG_DOCUMENT);
  current_delivery ← load_scale_set_delivery_named self DELIVERY_RECOVERY_DOCUMENT;
  staged_delivery ← load_scale_set_delivery_named self STAGED_DELIVERY_RECOVERY_DOCUMENT;
  match current_delivery, staged_delivery with
  | Some current_delivery, _ =>
      recover_beside_delivery current_delivery staged_delivery current_catalog staged_catalog
  | None, Some staged_delivery => recover_first_delivery staged_delivery current_catalog staged_catalog
  | None, None =>
      if is_some staged_catalog
      then failing reconcile_catalog_error (recover_catalog_locked self)
      else mret ()
  end.

(** ** Publishing a pair *)

(** Both documents staged and published, the catalog first; where the catalog
    does not change, the delivery alone. *)
Definition publish_pair (current_catalog target_catalog : DisposableAttemptCatalogDocument)
    (recovery : ScaleSetDeliveryRecoveryState) (no_replace : bool) : sio unit :=
  staged_delivery ← stage_scale_set_delivery self recovery;
  if bool_decide (target_catalog ≠ current_catalog)
  then
    _ ← unless_ok staged_delivery synchronize_directory;
    let staged_delivery := disarm staged_delivery in
    staged_catalog ← failing reconcile_catalog_error (stage_catalog self target_catalog);
    _ ← unless_ok staged_catalog synchronize_directory;
    _ ← always_drop (publish_named_staged staged_catalog CATALOG_DOCUMENT false);
    always_drop (publish_named_staged staged_delivery DELIVERY_RECOVERY_DOCUMENT no_replace)
  else always_drop (publish_named_staged staged_delivery DELIVERY_RECOVERY_DOCUMENT no_replace).

Definition publish_scale_set_reconciled_delivery
    (expected_catalog_revision : DisposableAttemptCatalogRevision)
    (policy : ScaleSetDeliveryConsumerPolicy) (delivery : ScaleSetDelivery) (observed_at : EpochMillis)
    : sio (DisposableAttemptCatalogDocument * ScaleSetDeliveryRecoveryState) :=
  locked self (
    _ ← synchronize_directory;
    _ ← recover_scale_set_reconcile_transaction_locked;
    found ← failing reconcile_catalog_error (load_catalog_named self CATALOG_DOCUMENT);
    current_catalog ← lift (ok_or found (store_error Missing
                              "disposable-attempt catalog is not initialized"));
    found ← load_scale_set_delivery_named self DELIVERY_RECOVERY_DOCUMENT;
    match found with
    | Some current_delivery =>
        let expected_is_replay :=
          (expected_catalog_revision =? cd_revision current_catalog)
          || (expected_catalog_revision =? rs_prior_catalog_revision current_delivery) in
        if expected_is_replay && matches_catalog current_delivery current_catalog
           && bool_decide (rs_delivery current_delivery = delivery)
        then mret (current_catalog, current_delivery)
        else lift (Err (store_error RevisionConflict "a different Scale Set delivery remains unsettled"))
    | None =>
        if negb (cd_revision current_catalog =? expected_catalog_revision)
        then lift (Err (store_error RevisionConflict
               "disposable-attempt catalog revision changed before Scale Set reconciliation"))
        else
          catalog_successor ← lift (map_err (λ _, store_error RevisionConflict
                "Scale Set delivery conflicts with the disposable-attempt catalog")
            (reconcile_scale_set_delivery policy delivery current_catalog observed_at));
          recovery ← lift (map_err map_recovery_error
            (reconciled delivery current_catalog catalog_successor));
          _ ← publish_pair current_catalog catalog_successor recovery true;
          mret (catalog_successor, recovery)
    end).

Definition publish_scale_set_lifecycle_resolution (expected : ScaleSetDeliveryRecoveryState)
    (policy : ScaleSetDeliveryConsumerPolicy) (delivery : ScaleSetDelivery)
    : sio ScaleSetDeliveryRecoveryState :=
  locked self (
    _ ← synchronize_directory;
    _ ← recover_scale_set_reconcile_transaction_locked;
    found ← load_scale_set_delivery_named self DELIVERY_RECOVERY_DOCUMENT;
    current ← lift (ok_or found (store_error Missing
                      "ambiguous Scale Set delivery recovery state does not exist"));
    if bool_decide (current ≠ expected) || negb (is_empty_observation (rs_phase current))
    then lift (Err (store_error RevisionConflict
           "Scale Set delivery is not the exact lifecycle-resolution candidate"))
    else
      found ← failing reconcile_catalog_error (load_catalog_named self CATALOG_DOCUMENT);
      current_catalog ← lift (ok_or found corrupt_state);
      if negb (matches_catalog current current_catalog) then lift (Err corrupt_state)
      else
        ambiguous ← lift (map_err (λ _, corrupt_state) (available_request_ids (rs_delivery current)));
        resolved ← lift (map_err (λ _, store_error RevisionConflict
              "later Scale Set lifecycle evidence conflicts with acquisition recovery")
          (reconcile_scale_set_acquisition_resolution policy ambiguous delivery current_catalog));
        let '(target_catalog, acquired) := resolved in
        successor ← lift (map_err map_recovery_error
          (prepare_lifecycle_resolution current delivery acquired current_catalog target_catalog));
        _ ← publish_pair current_catalog target_catalog successor false;
        mret successor).

(** ** Settlement *)

Definition settlement_matches_expected (settled : ScaleSetDeliverySettlement)
    (expected : ScaleSetDeliveryRecoveryState) : bool :=
  bool_decide (expected = ss_prepared settled)
  || is_some_and (λ prior,
       match prepare_settlement expected prior (ss_catalog settled) with
       | Ok prepared => bool_decide (prepared = ss_prepared settled)
       | _ => false
       end) (settlement_prior_catalog (ss_prepared settled)).

Definition remove_settled_delivery (expected : ScaleSetDeliveryRecoveryState) : sio unit :=
  found ← load_scale_set_delivery_named self DELIVERY_RECOVERY_DOCUMENT;
  current ← lift (ok_or found corrupt_state);
  if bool_decide (current ≠ expected) || negb (is_settlement_prepared (rs_phase current))
  then lift (Err corrupt_state)
  else
    _ ← failing (io_error "could not remove settled Scale Set delivery")
      (unlinkat DELIVERY_RECOVERY_DOCUMENT);
    synchronize_directory.

Definition finish_recovered_settlement (prepared : ScaleSetDeliveryRecoveryState)
    (target : DisposableAttemptCatalogDocument) : sio (option ScaleSetDeliverySettlement) :=
  acquired ← lift (ok_or (settlement_acquired prepared) corrupt_state);
  _ ← remove_settled_delivery prepared;
  mret (Some (mkSettlement target prepared (length acquired))).

(** The catalog of a prepared settlement that was not published yet. *)
Definition publish_settlement_catalog (prepared : ScaleSetDeliveryRecoveryState)
    (catalog : DisposableAttemptCatalogDocument) (staged_catalog : option DisposableAttemptCatalogDocument)
    : sio DisposableAttemptCatalogDocument :=
  target ← lift (map_err (λ _, corrupt_state) (settle_scale_set_delivery_catalog prepared catalog));
  if negb (matches_settlement_catalog prepared target) then lift (Err corrupt_state)
  else
    _ ←
      (if bool_decide (target ≠ catalog)
       then
         match staged_catalog with
         | Some staged =>
             if bool_decide (staged = target)
             then
               _ ← failing settlement_catalog_error (synchronize_existing_catalog_stage self staged);
               publish_existing_catalog_stage false
             else lift (Err corrupt_state)
         | None =>
             staged ← failing settlement_catalog_error (stage_catalog self target);
             _ ← unless_ok staged synchronize_directory;
             always_drop (publish_named_staged staged CATALOG_DOCUMENT false)
         end
       else
         match staged_catalog with
         | Some staged =>
             if bool_decide (staged ≠ catalog) then lift (Err corrupt_state)
             else failing settlement_catalog_error remove_catalog_stage
         | None => mret ()
         end);
    mret target.

(** The catalog of a prepared settlement that is already current. *)
Definition confirm_settlement_catalog (prepared : ScaleSetDeliveryRecoveryState)
    (catalog : DisposableAttemptCatalogDocument) (staged_catalog : option DisposableAttemptCatalogDocument)
    : sio DisposableAttemptCatalogDocument :=
  prior ← lift (ok_or (settlement_prior_catalog prepared) corrupt_state);
  derived ← lift (map_err (λ _, corrupt_state) (settle_scale_set_delivery_catalog prepared prior));
  if bool_decide (derived ≠ catalog) || negb (matches_settlement_catalog prepared derived)
  then lift (Err corrupt_state)
  else
    _ ←
      match staged_catalog with
      | Some staged =>
          if bool_decide (staged ≠ catalog) then lift (Err corrupt_state)
          else failing settlement_catalog_error remove_catalog_stage
      | None => mret ()
      end;
    mret catalog.

(** The rest of the recovery, once the prepared settlement is current. *)
Definition complete_settlement : sio (option ScaleSetDeliverySettlement) :=
  found ← load_scale_set_delivery_named self DELIVERY_RECOVERY_DOCUMENT;
  prepared ← lift (ok_or found corrupt_state);
  if negb (is_settlement_prepared (rs_phase prepared)) then lift (Err corrupt_state)
  else
    found ← failing settlement_catalog_error (load_catalog_named self CATALOG_DOCUMENT);
    catalog ← lift (ok_or found corrupt_state);
    staged_catalog ← failing settlement_catalog_error (load_catalog_named self STAGED_CATALOG_DOCUMENT);
    target ←
      (if matches_catalog prepared catalog then publish_settlement_catalog prepared catalog staged_catalog
       else if matches_settlement_catalog prepared catalog
       then confirm_settlement_catalog prepared catalog staged_catalog
       else lift (Err corrupt_state));
    finish_recovered_settlement prepared target.

Definition recover_scale_set_settlement_locked : sio (option ScaleSetDeliverySettlement) :=
  current ← load_scale_set_delivery_named self DELIVERY_RECOVERY_DOCUMENT;
  staged ← load_scale_set_delivery_named self STAGED_DELIVERY_RECOVERY_DOCUMENT;
  let prepared_in := is_some_and (λ state, is_settlement_prepared (rs_phase state)) in
  if negb (prepared_in current || prepared_in staged) then mret None
  else
    _ ← refuse_pending_worker_recovery self "personal-worker recovery conflicts with Scale Set settlement";
    _ ← disposable_template_generation_refuse_unsettled self;
    _ ← refuse_unsettled_lima_authority self;
    _ ← (if is_some staged then recover_scale_set_delivery_locked self else mret ());
    complete_settlement.

(** The staging of both documents of a settlement; the stage of the delivery is
    dropped with an error. *)
Definition stage_settlement (staged_delivery : StagedDocument)
    (catalog target : DisposableAttemptCatalogDocument) : sio (option StagedDocument) :=
  unless_ok staged_delivery (
    _ ← synchronize_directory;
    if bool_decide (target ≠ catalog)
    then
      staged ← failing settlement_catalog_error (stage_catalog self target);
      _ ← unless_ok staged synchronize_directory;
      mret (Some staged)
    else mret None).

(** Publishing them, the delivery first; what is not published is dropped, the
    catalog stage first. *)
Definition publish_settlement (staged_delivery : StagedDocument) (staged_catalog : option StagedDocument)
    : sio unit :=
  '(staged_delivery, published) ←
    publish_named_staged staged_delivery DELIVERY_RECOVERY_DOCUMENT false;
  match published with
  | Ok _ =>
      match staged_catalog with
      | Some staged => always_drop (publish_named_staged staged CATALOG_DOCUMENT false)
      | None => mret ()
      end
  | r =>
      _ ← drop_staged_option staged_catalog;
      _ ← drop_staged staged_delivery;
      lift r
  end.

Definition settle_scale_set_delivery_locked (expected : ScaleSetDeliveryRecoveryState)
    : sio ScaleSetDeliverySettlement :=
  locked self (
    _ ← synchronize_directory;
    recovered ← recover_scale_set_settlement_locked;
    match recovered with
    | Some settled =>
        if settlement_matches_expected settled expected then mret settled
        else lift (Err (store_error RevisionConflict
               "a different Scale Set delivery settlement was recovered"))
    | None =>
        _ ← recover_scale_set_reconcile_transaction_locked;
        found ← load_scale_set_delivery_named self DELIVERY_RECOVERY_DOCUMENT;
        current ← lift (ok_or found (store_error RevisionConflict "Scale Set delivery was already settled"));
        if bool_decide (current ≠ expected)
        then lift (Err (store_error RevisionConflict "Scale Set delivery changed before settlement"))
        else
          found ← failing settlement_catalog_error (load_catalog_named self CATALOG_DOCUMENT);
          catalog ← lift (ok_or found corrupt_state);
          target ← lift (map_err (λ _, corrupt_state) (settle_scale_set_delivery_catalog current catalog));
          prepared ← lift (map_err map_recovery_error (prepare_settlement current catalog target));
          staged_delivery ← stage_scale_set_delivery self prepared;
          staged_catalog ← stage_settlement staged_delivery catalog target;
          _ ← publish_settlement staged_delivery staged_catalog;
          _ ← remove_settled_delivery prepared;
          acquired ← lift (ok_or (settlement_acquired prepared) corrupt_state);
          mret (mkSettlement target prepared (length acquired))
    end).
End delivery_pair.

(** ** Opening *)

Section opening_pair.
Context `{SER : !StoreSerde, DS : !DocumentSerde, LIMA : !LimaAuthorityReader, SERDE : CatalogSerde,
  DSERDE : DeliverySerde, HASHER : Sha256Hasher, RSERDE : RecoverySerde, INIT : StoreInitializer}.

Definition open_or_create_scale_set_delivery_recovery
    : io PersonalWorkerStoreError UnixPersonalWorkerStore :=
  open_or_create_store (λ store,
    _ ← refuse_other_unsettled_scale_set_state store;
    recover_scale_set_delivery_locked store).

Definition open_or_create_scale_set_reconcile_transaction
    : io PersonalWorkerStoreError UnixPersonalWorkerStore :=
  open_or_create_store recover_scale_set_reconcile_transaction_locked.

Definition open_or_create_scale_set_delivery_controller
    : io PersonalWorkerStoreError UnixPersonalWorkerStore :=
  open_or_create_store (λ store,
    _ ← recover_scale_set_settlement_locked store;
    recover_scale_set_reconcile_transaction_locked store).
End opening_pair.
