(* ===== verification/DeliveryController.v ===== *)
(** * The delivery controller

    [src/src/github_scale_set_delivery_controller.rs]: one delivery carried over
    its external acknowledgement.  The bridge to the service is a class with the
    methods of the trait [DeliveryBridge]; a call may return a value or an
    error, and the process may stop in it. *)

From S2P Require Import Prelude WorkerQueue StoreWire WorkerStore StoreCodec FileSystem UnixStore.
From S2P Require Import ExecutionAdmission ScaleSetProtocol AttemptState WorkerReconciler AttemptCatalog AttemptCodec.
From S2P Require Import ScaleSetDelivery DeliveryConsumer DeliveryRecovery RecoveryCodec CatalogDisk DeliveryDisk.
From S2P Require Import DeliveryPair.

Local Open Scope N_scope.

Record ScaleSetBridgeError := mkBridgeError { be_code : string }.

(** The trait [DeliveryBridge]. *)
Class DeliveryBridge (B : Type) := {
  bridge_resume_after : N → prog B ScaleSetBridgeError unit;
  bridge_poll : N → prog B ScaleSetBridgeError ScaleSetBridgePoll;
  bridge_ack : N → prog B ScaleSetBridgeError (list N);
  bridge_acquire : list ScaleSetRunnerRequestId →
    prog B ScaleSetBridgeError (list ScaleSetRunnerRequestId);
  bridge_poison : B → B;
}.

Inductive ScaleSetDeliveryControllerDisposition :=
| Idle
| Settled (acquired : nat)
| RecoveryRequired.

Record ScaleSetDeliveryControllerError := mkControllerError { sce_code : string }.

Definition controller_error := mkControllerError.

Definition map_bridge_error (_ : ScaleSetBridgeError) : ScaleSetDeliveryControllerError :=
  controller_error "scale_set_bridge_failed".

Definition map_store_error (_ : PersonalWorkerStoreError) : ScaleSetDeliveryControllerError :=
  controller_error "scale_set_delivery_store_failed".

Definition delivery_invalid : ScaleSetDeliveryControllerError :=
  controller_error "scale_set_delivery_invalid".

Definition controller_conflict : ScaleSetDeliveryControllerError :=
  controller_error "scale_set_delivery_recovery_conflict".

Definition ack_response_invalid : ScaleSetDeliveryControllerError :=
  controller_error "scale_set_ack_response_invalid".

(** [is_some_and(..)] and the like on an available-requests result. *)
Definition no_available (delivery : ScaleSetDelivery) : bool :=
  match available_request_ids delivery with
  | Ok available => (length available =? 0)%nat
  | _ => false
  end.

Section controller.
Context `{SER : !StoreSerde, DS : !DocumentSerde, LIMA : !LimaAuthorityReader, SERDE : CatalogSerde,
  DSERDE : DeliverySerde, HASHER : Sha256Hasher, RSERDE : RecoverySerde, INIT : StoreInitializer}
  {B : Type} `{BRIDGE : DeliveryBridge B}.

Abbreviation cio := (prog (World * B) ScaleSetDeliveryControllerError).

(** A call of the bridge. *)
Definition bridge {A} (call : prog B ScaleSetBridgeError A) : cio A :=
  failing map_bridge_error (λ '(w, b), let '(b', out) := call b in ((w, b'), out)).

Definition poison {E} : prog (World * B) E unit := λ '(w, b), ((w, bridge_poison b), Done (Ok ())).

(** A call of the store. *)
Definition stored_call {A} (call : io PersonalWorkerStoreError A) : cio A :=
  failing map_store_error (disk call).

(** [bridge.poison(); return Err(error)]. *)
Definition poisoned {A} (error : ScaleSetDeliveryControllerError) : cio A :=
  _ ← poison; lift (Err error).

(** [call.map_err(|error| { bridge.poison(); error })?]. *)
Definition or_poison {A} (call : cio A) : cio A :=
  catch call (λ r,
    match r with
    | Err error => poisoned error
    | r => lift r
    end).

(** [bridge.poll(..)] read as a delivery; an invalid message poisons. *)
Definition poll_delivery (capacity : N) : cio (option ScaleSetDelivery) :=
  poll ← bridge (bridge_poll capacity);
  match from_bridge_poll poll with
  | Ok delivery => mret delivery
  | Err _ => poisoned delivery_invalid
  | Panic => lift Panic
  end.

Definition available_of (current : ScaleSetDeliveryRecoveryState)
    : result ScaleSetDeliveryControllerError (list ScaleSetRunnerRequestId) :=
  map_err (λ _, delivery_invalid) (available_request_ids (rs_delivery current)).

(** ** Settling *)

Definition settle_delivery (store : UnixPersonalWorkerStore) (current : ScaleSetDeliveryRecoveryState)
    (expected_acquired : nat) : cio ScaleSetDeliveryControllerDisposition :=
  settled ← stored_call (settle_scale_set_delivery_locked store current);
  if negb (ss_acquired settled =? expected_acquired)%nat then lift (Err controller_conflict)
  else mret (Settled (ss_acquired settled)).

(** The result of a transaction with a bridge call; its failure poisons. *)
Definition completed_or_poison {T}
    (transaction : ScaleSetExternalTransaction T ScaleSetDeliveryControllerError) : cio T :=
  match transaction with
  | Completed state => mret state
  | ExternalFailed error => poisoned error
  end.

(** ** Acknowledging *)

(** The acknowledgement and what its answer has to be. *)
Definition acknowledge_available (available : gset N) (message_id : N) : cio (list ScaleSetRunnerRequestId) :=
  values ← bridge (bridge_ack message_id);
  acquired ← lift (traverse (λ value, map_err (λ _, ack_response_invalid) (ScaleSetRunnerRequestId_new value))
                     values);
  if existsb (λ request_id, negb (bool_decide (request_id ∈ available))) acquired
  then poisoned ack_response_invalid
  else mret acquired.

Definition acknowledge_delivery (store : UnixPersonalWorkerStore) (current : ScaleSetDeliveryRecoveryState)
    : cio ScaleSetDeliveryControllerDisposition :=
  available ← lift (available_of current);
  transaction ← failing map_store_error
    (acknowledge_scale_set_delivery_locked store current
       (acknowledge_available (list_to_set available)));
  acknowledged ← completed_or_poison transaction;
  match rs_phase acknowledged with
  | Acknowledged acquired => settle_delivery store acknowledged (length acquired)
  | _ => lift (Err controller_conflict)
  end.

(** An acknowledgement that must not acquire anything; [poisons] says whether
    an answer that did poisons at once. *)
Definition acknowledge_nothing (poisons : bool) (message_id : N) : cio (list ScaleSetRunnerRequestId) :=
  acquired ← bridge (bridge_ack message_id);
  if (length acquired =? 0)%nat then mret []
  else if poisons then poisoned ack_response_invalid else lift (Err ack_response_invalid).

Definition lifecycle_acquired (state : ScaleSetDeliveryRecoveryState)
    : result ScaleSetDeliveryControllerError nat :=
  resolution ← ok_or (lifecycle_resolution state) controller_conflict;
  Ok (length (lr_acquired resolution)).

Definition acknowledge_lifecycle (store : UnixPersonalWorkerStore) (current : ScaleSetDeliveryRecoveryState)
    : cio ScaleSetDeliveryControllerDisposition :=
  transaction ← failing map_store_error
    (acknowledge_scale_set_lifecycle_locked store current (acknowledge_nothing false));
  acknowledged ← completed_or_poison transaction;
  acquired ← lift (lifecycle_acquired acknowledged);
  settle_delivery store acknowledged acquired.

Definition confirm_lifecycle_ack (store : UnixPersonalWorkerStore) (current : ScaleSetDeliveryRecoveryState)
    : cio ScaleSetDeliveryControllerDisposition :=
  acknowledged ← stored_call (confirm_scale_set_lifecycle_acknowledged_locked store current);
  acquired ← lift (lifecycle_acquired acknowledged);
  settle_delivery store acknowledged acquired.

(** ** Recovering *)

Definition recover_acknowledgement_without_acquisition (store : UnixPersonalWorkerStore)
    (current : ScaleSetDeliveryRecoveryState) : cio ScaleSetDeliveryControllerDisposition :=
  observed ← poll_delivery 0;
  if bool_decide (observed = Some (rs_delivery current))
  then
    transaction ← failing map_store_error
      (retry_scale_set_delivery_acknowledgement_locked store current (acknowledge_nothing true));
    acknowledged ← completed_or_poison transaction;
    settle_delivery store acknowledged 0
  else
    let original_absent := is_none_or (λ delivery,
      (dl_message_id (rs_delivery current) <? dl_message_id delivery) && no_available delivery) observed in
    _ ← poison;
    if negb original_absent then lift (Err controller_conflict)
    else
      acknowledged ← stored_call (confirm_scale_set_delivery_acknowledged_locked store current);
      settle_delivery store acknowledged 0.

Definition observe_lifecycle_resolution (policy : ScaleSetDeliveryConsumerPolicy)
    (store : UnixPersonalWorkerStore) (current : ScaleSetDeliveryRecoveryState)
    : cio ScaleSetDeliveryControllerDisposition :=
  _ ← bridge (bridge_resume_after (dl_message_id (rs_delivery current)));
  observed ← poll_delivery 0;
  match observed with
  | None =>
      _ ← poison;
      mret RecoveryRequired
  | Some delivery =>
      paired ← or_poison (stored_call open_or_create_scale_set_reconcile_transaction);
      resolved ← or_poison (stored_call
        (publish_scale_set_lifecycle_resolution paired current policy delivery));
      acknowledge_lifecycle store resolved
  end.

Definition recover_acquisition (policy : ScaleSetDeliveryConsumerPolicy) (store : UnixPersonalWorkerStore)
    (current : ScaleSetDeliveryRecoveryState) : cio ScaleSetDeliveryControllerDisposition :=
  available ← lift (available_of current);
  if (length available =? 0)%nat then recover_acknowledgement_without_acquisition store current
  else
    transaction ← failing map_store_error
      (recover_scale_set_acquisition_locked store current (λ available, bridge (bridge_acquire available)));
    successor ←
      match transaction with
      | Completed state => mret state
      | ExternalFailed error => lift (Err error)
      end;
    match rs_phase successor with
    | AcquisitionRecoveryObserved acquired =>
        if (length acquired =? 0)%nat then observe_lifecycle_resolution policy store successor
        else settle_delivery store successor (length acquired)
    | _ => lift (Err controller_conflict)
    end.

Definition recover_lifecycle_ack (store : UnixPersonalWorkerStore) (current : ScaleSetDeliveryRecoveryState)
    : cio ScaleSetDeliveryControllerDisposition :=
  resolution ← lift (ok_or (lifecycle_resolution current) controller_conflict);
  let resolution_delivery := lr_delivery resolution in
  let acknowledgement_started := is_lifecycle_started (rs_phase current) in
  _ ← bridge (bridge_resume_after (dl_message_id (rs_delivery current)));
  observed ← poll_delivery 0;
  match observed with
  | None =>
      _ ← poison;
      if acknowledgement_started then confirm_lifecycle_ack store current else mret RecoveryRequired
  | Some redelivered =>
      if bool_decide (redelivered = resolution_delivery) then acknowledge_lifecycle store current
      else
        later ←
          (if acknowledgement_started && (dl_message_id resolution_delivery <? dl_message_id redelivered)
           then
             available ← lift (map_err (λ _, delivery_invalid) (available_request_ids redelivered));
             mret (length available =? 0)%nat
           else mret false);
        if later : bool
        then (_ ← poison; confirm_lifecycle_ack store current)
        else poisoned controller_conflict
  end.

(** ** A new delivery *)

Definition controller_catalog_error (_ : DisposableAttemptCatalogError) : ScaleSetDeliveryControllerError :=
  controller_error "scale_set_catalog_unavailable".

(** The revision the caller expects, or the current one. *)
Definition expected_revision_or_current (expected : option DisposableAttemptCatalogRevision)
    : cio DisposableAttemptCatalogRevision :=
  match expected with
  | Some revision => mret revision
  | None =>
      store ← failing controller_catalog_error (disk open_or_create_disposable_catalog);
      document ← failing controller_catalog_error (disk (unix_Catalog_load store));
      mret (cd_revision document)
  end.

Definition reconcile_and_ack_delivery_inner (policy : ScaleSetDeliveryConsumerPolicy)
    (delivery : ScaleSetDelivery) (observed_at : EpochMillis)
    (expected_catalog_revision : option DisposableAttemptCatalogRevision)
    : cio ScaleSetDeliveryControllerDisposition :=
  recovery ← or_poison (
    revision ← expected_revision_or_current expected_catalog_revision;
    paired ← stored_call open_or_create_scale_set_reconcile_transaction;
    published ← stored_call
      (publish_scale_set_reconciled_delivery paired revision policy delivery observed_at);
    mret published.2);
  store ← stored_call open_or_create_scale_set_delivery_controller;
  acknowledge_delivery store recovery.

Definition reconcile_and_ack_delivery (policy : ScaleSetDeliveryConsumerPolicy)
    (delivery : ScaleSetDelivery) (observed_at : EpochMillis) : cio ScaleSetDeliveryControllerDisposition :=
  reconcile_and_ack_delivery_inner policy delivery observed_at None.

(** A delivery that was reconciled, seen again. *)
Definition resume_reconciled (policy : ScaleSetDeliveryConsumerPolicy) (observed_at : EpochMillis)
    (store : UnixPersonalWorkerStore) (current : ScaleSetDeliveryRecoveryState)
    : cio ScaleSetDeliveryControllerDisposition :=
  available ← lift (available_of current);
  observed ← poll_delivery (if (length available =? 0)%nat then 0 else 1);
  match observed with
  | None => poisoned (controller_error "scale_set_delivery_recovery_required")
  | Some observed =>
      if bool_decide (observed ≠ rs_delivery current) then poisoned controller_conflict
      else
        paired ← or_poison (stored_call open_or_create_scale_set_reconcile_transaction);
        _ ← or_poison (stored_call (publish_scale_set_reconciled_delivery paired
              (rs_prior_catalog_revision current) policy observed observed_at));
        acknowledge_delivery store current
  end.

Definition resume_delivery (policy : ScaleSetDeliveryConsumerPolicy) (observed_at : EpochMillis)
    (store : UnixPersonalWorkerStore) (current : ScaleSetDeliveryRecoveryState)
    : cio ScaleSetDeliveryControllerDisposition :=
  match rs_phase current with
  | Reconciled => resume_reconciled policy observed_at store current
  | AcknowledgementStarted => recover_acquisition policy store current
  | AcquisitionRecoveryObserved acquired =>
      if (length acquired =? 0)%nat then observe_lifecycle_resolution policy store current
      else settle_delivery store current (length acquired)
  | Acknowledged acquired => settle_delivery store current (length acquired)
  | LifecycleReconciled _ | LifecycleAcknowledgementStarted _ => recover_lifecycle_ack store current
  | LifecycleAcknowledged resolution => settle_delivery store current (length (lr_acquired resolution))
  | SettlementPrepared _ acquired _ _ _ => settle_delivery store current (length acquired)
  end.

Definition consume_with_bridge_capacity_inner (policy : ScaleSetDeliveryConsumerPolicy)
    (observed_at : EpochMillis) (available_capacity : N)
    (expected_catalog_revision : option DisposableAttemptCatalogRevision)
    : cio ScaleSetDeliveryControllerDisposition :=
  if 1 <? available_capacity then lift (Err (controller_error "scale_set_capacity_invalid"))
  else
    recovery_store ← stored_call open_or_create_scale_set_delivery_controller;
    found ← stored_call (load_scale_set_delivery_recovery recovery_store);
    match found with
    | Some current => resume_delivery policy observed_at recovery_store current
    | None =>
        observed ← poll_delivery available_capacity;
        match observed with
        | Some delivery =>
            reconcile_and_ack_delivery_inner policy delivery observed_at expected_catalog_revision
        | None => mret Idle
        end
    end.

Definition consume_with_bridge_capacity (policy : ScaleSetDeliveryConsumerPolicy)
    (observed_at : EpochMillis) (available_capacity : N) : cio ScaleSetDeliveryControllerDisposition :=
  consume_with_bridge_capacity_inner policy observed_at available_capacity None.

Definition consume_with_bridge_capacity_at_revision (policy : ScaleSetDeliveryConsumerPolicy)
    (observed_at : EpochMillis) (available_capacity : N)
    (expected_catalog_revision : DisposableAttemptCatalogRevision)
    : cio ScaleSetDeliveryControllerDisposition :=
  consume_with_bridge_capacity_inner policy observed_at available_capacity (Some expected_catalog_revision).

(** [consume_scale_set_delivery_once], with the capacity of one worker. *)
Definition consume_scale_set_delivery_once (policy : ScaleSetDeliveryConsumerPolicy)
    (observed_at : EpochMillis) : cio ScaleSetDeliveryControllerDisposition :=
  consume_with_bridge_capacity policy observed_at 1.
End controller.
