(* ===== verification/DiskLogic.v ===== *)
(** * Directories a transaction may expose

    Rules for programs of the store in terms of a set [ψ] of directories: as
    long as every directory that is or may be found is in [ψ], a call that
    fails or stops leaves it so.  Documents are described by what their place
    in the directory holds: nothing, the whole durable text, or at most a part
    of it. *)

From S2P Require Import Prelude WorkerQueue StoreWire WorkerStore StoreCodec FileSystem UnixStore UnixSteps.
From S2P Require Import UnixTheorems.

Local Open Scope N_scope.

(** ** Rules at a set of directories *)

Definition closed_under (name : string) (ψ : entries → Prop) : Prop :=
  ∀ img, ψ img → ψ (delete name img).

(** The directory after [stage] was renamed to [current]. *)
Definition published_at (current stage : string) (now : entries) (f : File) : entries :=
  <[current := f]> (delete stage now).

Section rules.
Context (ψ φ : entries → Prop) (Hφ : ∀ img, φ img → ψ img).

Lemma wp_quiet_in {E A} (m : io E A) `{!Quiet m} now w :
  ψ now → St now φ w → wp m (ensures (images ψ) (λ _, St now φ)) w.
Proof.
  intros Hnow Hst. eapply wp_ensures; [by apply wp_quiet|intros w' Hw'; by eapply St_images|done].
Qed.

Lemma wp_read_in (self : UnixPersonalWorkerStore) name max now w :
  ψ now → St now φ w →
  wp (read_named_bytes_bounded self name max)
    (ensures (images ψ) (λ o w', St now φ w' ∧ found name o now)) w.
Proof.
  intros Hnow Hst. eapply wp_ensures; [by apply wp_read_named_bytes_bounded|intros w' Hw'; by eapply St_images|done].
Qed.

Lemma wp_sync_in now w :
  ψ now → St now φ w → wp synchronize_directory (ensures (images ψ) (λ _, synced now)) w.
Proof.
  intros Hnow Hst. eapply wp_ensures; [by apply wp_synchronize_directory|intros w' Hw'; by eapply St_images|done].
Qed.

Lemma wp_stage_in (self : UnixPersonalWorkerStore) name enc now w :
  ψ now → (∀ f, part_of enc f → ψ (<[name := f]> now)) → St now φ w →
  wp (stage_named_bytes self name enc)
    (ensures (images ψ) (λ sg w', sg = mkStaged name (Some name) true ∧ now !! name = None ∧
       ∃ f, settled_as enc f ∧ St (<[name := f]> now) ψ w')) w.
Proof.
  intros Hnow Hpart Hst. eapply wp_ensures; [by apply wp_stage_named_bytes|..].
  - intros w' Hw'. eapply images_mono; [done|]. intros img [Himg|[->|(f & Hf & ->)]]; auto.
  - intros sg w' (-> & Hnone & f & Hf & Hst'). split_and!; [done..|]. exists f. split; [done|].
    eapply St_mono; [done|]. intros img [Himg| ->]; auto.
Qed.

Lemma wp_unlink_in name now w :
  ψ (delete name now) → ψ now → St now φ w →
  wp (unlinkat name) (λ out w',
    match out with
    | Done (Ok _) => is_Some (now !! name) ∧ St (delete name now) ψ w'
    | Done (Err NOENT) => now !! name = None ∧ St now φ w'
    | Done Panic => False
    | _ => St now φ w'
    end) w.
Proof.
  intros Hdel Hnow [Hn Hp]. apply wp_atomic; intros script; [|intros []; by split|by split].
  simpl. rewrite Hn. destruct (now !! name) as [f|] eqn:Hf; [|by split].
  destruct (bool_decide _); [by split|]. simpl. split; [by exists f|]. split; [done|].
  simpl. rewrite Hn. constructor; [done|]. by eapply Forall_impl.
Qed.

Lemma wp_rename_in current stage no_replace now f w :
  now !! stage = Some f → ψ now → St now φ w →
  wp (renameat stage current no_replace)
    (ensures (St now φ) (λ _, St (published_at current stage now f) ψ)) w.
Proof.
  intros Hf Hnow [Hn Hp]. apply wp_atomic; intros script; [|by split..]. simpl. rewrite Hn, Hf.
  destruct (now !! current) as [old|].
  1: destruct no_replace; [by split|]; destruct (bool_decide _); [by split|].
  all: simpl; split; [done|]; simpl; rewrite Hn; constructor; [done|]; by eapply Forall_impl.
Qed.
End rules.

(** Dropping the guard of a stage. *)
Lemma wp_drop_in {E} ψ sg w :
  (sg_armed sg = true → closed_under (sg_name sg) ψ) → images ψ w →
  wp (drop_staged (E := E) sg) (λ _, images ψ) w.
Proof.
  intros Hcl Himg. unfold drop_staged. destruct (sg_armed sg); [|done]. specialize (Hcl eq_refl).
  pose proof Himg as [Hnow Hp]. apply wp_catch, wp_atomic; intros script; [|done..].
  simpl. destruct (w_now w !! sg_name sg) as [f|]; [|done].
  destruct (bool_decide _); [done|]. simpl. split; simpl; [by apply Hcl|by constructor].
Qed.

Lemma wp_unless_ok_in {E A} ψ sg (body : io E A) Q w :
  (sg_armed sg = true → closed_under (sg_name sg) ψ) →
  wp body (ensures (images ψ) Q) w → wp (unless_ok sg body) (ensures (images ψ) Q) w.
Proof.
  intros Hcl Hb. eapply wp_unless_ok; [done|done|]. intros w' Hw'. by apply wp_drop_in.
Qed.

Lemma wp_drop_then {E A} ψ sg (r : result E A) Q w :
  (sg_armed sg = true → closed_under (sg_name sg) ψ) → (∀ a, r ≠ Ok a) → images ψ w →
  wp (_ ← drop_staged sg; lift r) (ensures (images ψ) Q) w.
Proof.
  intros Hcl Hr Himg. apply wp_catch. eapply wp_mono; [by apply wp_drop_in|].
  intros [[a|e|]|] w' Hw'; [|done..]. apply wp_lift. destruct r as [a'|e|]; [by destruct (Hr a')|done..].
Qed.

(** Renaming a stage, with the guard still in the caller's hands; the errors may
    be called anything. *)
Definition publishes {E} (rename_error sync_error : Errno → E) (current : string) (no_replace : bool)
    (sg : StagedDocument) : io E (StagedDocument * result E unit) :=
  catch (failing rename_error (renameat (sg_name sg) current no_replace)) (λ renamed,
    match renamed with
    | Ok _ => catch (failing sync_error fsync_dir) (λ r, mret (disarm sg, r))
    | r => mret (sg, r)
    end).

(** The directory before and after the renaming. *)
Definition unrenamed (now : entries) (φ : entries → Prop) : World → Prop := St now φ.

Definition renamed (current stage : string) (now : entries) (f : File) (φ : entries → Prop) : World → Prop :=
  St (published_at current stage now f) (λ img, φ img ∨ img = now).

Lemma wp_publishes {E} (rename_error sync_error : Errno → E) φ current no_replace sg now f w :
  now !! sg_name sg = Some f → St now φ w →
  wp (publishes rename_error sync_error current no_replace sg) (λ out w',
    match out with
    | Done (Ok (sg', Ok _)) => sg_name sg' = sg_name sg ∧ sg_armed sg' = false ∧ synced (published_at current (sg_name sg) now f) w'
    | Done (Ok (sg', _)) => sg' = sg ∧ unrenamed now φ w' ∨
        (sg_name sg' = sg_name sg ∧ sg_armed sg' = false) ∧ renamed current (sg_name sg) now f φ w'
    | Stopped => unrenamed now φ w' ∨ renamed current (sg_name sg) now f φ w'
    | _ => False
    end) w.
Proof.
  intros Hf Hst. apply wp_catch.
  eapply wp_mono; [apply wp_failing; eapply (wp_rename_in (λ img, φ img ∨ img = now) φ); [by left|done|by right|done]|].
  intros [[[]|e|]|] w1 Hw1; simpl in Hw1; [|by left..].
  apply wp_catch, wp_catch, wp_atomic; intros; simpl; [|by right..]. destruct Hw1. by split_and!.
Qed.

(** ... and dropped after it was not renamed. *)
Definition publishing_left (current : string) (sg : StagedDocument) (now : entries) (f : File) (φ : entries → Prop) (w : World)
    : Prop :=
  unrenamed now φ w ∨ renamed current (sg_name sg) now f φ w ∨
  sg_armed sg = true ∧ St (delete (sg_name sg) now) (λ img, φ img ∨ img = now) w.

Lemma wp_publishes_dropped {E} (rename_error sync_error : Errno → E) φ current no_replace sg now f w :
  now !! sg_name sg = Some f → St now φ w →
  wp (always_drop (publishes rename_error sync_error current no_replace sg))
    (ensures (publishing_left current sg now f φ) (λ _, synced (published_at current (sg_name sg) now f))) w.
Proof.
  intros Hf Hst. apply wp_catch. eapply wp_mono; [by eapply wp_publishes|].
  intros [[[sg' r]|e|]|] w' Hr; [|done..|destruct Hr as [|]; [by left|by right; left]].
  assert ((sg_armed sg' = false ∧ ensures (publishing_left current sg now f φ)
      (λ _, synced (published_at current (sg_name sg) now f)) (Done r) w') ∨
    (sg' = sg ∧ unrenamed now φ w' ∧ is_ok r = false)) as [[Harm Hd]|(-> & Hu & Hbad)].
  { destruct r as [u|e|]; [left; naive_solver|..]; (destruct Hr as [[-> Hu]|[[_ Ha] Hu]];
      [by right|left; split; [done|]; by right; left]). }
  { apply wp_catch. unfold drop_staged. rewrite Harm. by apply wp_lift. }
  assert (∀ script, publishing_left current sg now f φ (with_script script w')) as Hsame by (intros; by left).
  apply wp_catch. unfold drop_staged. destruct (sg_armed sg) eqn:Harm.
  - apply wp_catch, wp_atomic; intros script; [|intros; destruct r; [done|apply Hsame..]|apply Hsame].
    destruct Hu as [Hn Hp]. simpl. rewrite Hn, Hf. destruct (bool_decide _); [destruct r; [done|apply Hsame..]|].
    simpl. assert (publishing_left current sg now f φ (change_entries (delete (sg_name sg) now) (with_script script w'))).
    { right. right. split; [done|]. split; [done|]. simpl. constructor; [by right|]. eapply Forall_impl; [done|]. by left. }
    by destruct r.
  - apply wp_lift. destruct r; [done|by left..].
Qed.

Lemma St_after now now' φ (ψ : entries → Prop) w :
  St now' (λ img, φ img ∨ img = now) w → ψ now' → (∀ img, φ img → ψ img) → ψ now → images ψ w.
Proof. intros Hst ? ? ?. eapply St_images; [done|done|]. by intros img [?| ->]; auto. Qed.

Lemma wp_publish_guarded ψ φ current no_replace sg now f w :
  (∀ img, φ img → ψ img) → now !! sg_name sg = Some f → ψ now →
  ψ (published_at current (sg_name sg) now f) → St now φ w →
  wp (publish_named_staged sg current no_replace)
    (ensures (images ψ) (λ '(sg', r) w', sg_name sg' = sg_name sg ∧
       match r with
       | Ok _ => sg_armed sg' = false ∧ synced (published_at current (sg_name sg) now f) w'
       | _ => (sg' = sg ∨ sg_armed sg' = false) ∧ images ψ w'
       end)) w.
Proof.
  intros Hφ Hf Hnow Hpub Hst.
  eapply wp_mono; [by eapply (wp_publishes (λ error, map_publish_error error no_replace))|].
  intros [[[sg' [u|e|]]|e|]|] w' Hr; simpl in *; [done|..|done|done|].
  3: destruct Hr; [by eapply St_images|by eapply St_after].
  all: destruct Hr as [[-> Hu]|[[-> Ha] Hu]];
    (split; [done|]; split; [auto|]); [by eapply St_images|by eapply St_after].
Qed.

Lemma wp_publish_in ψ φ current no_replace sg now f w :
  (∀ img, φ img → ψ img) → now !! sg_name sg = Some f → ψ now →
  ψ (published_at current (sg_name sg) now f) →
  (sg_armed sg = true → closed_under (sg_name sg) ψ) → St now φ w →
  wp (always_drop (publish_named_staged sg current no_replace))
    (ensures (images ψ) (λ _, synced (published_at current (sg_name sg) now f))) w.
Proof.
  intros Hφ Hf Hnow Hpub Hcl Hst.
  eapply wp_ensures; [by apply (wp_publishes_dropped (λ error, map_publish_error error no_replace))| |done].
  intros w' [Hu|[Hr|[Ha Hd]]]; [by eapply St_images|by eapply St_after|]. eapply St_after; [done|by apply Hcl|done..].
Qed.

(** A block under the lock. *)
Lemma wp_locked_in {A} (self : UnixPersonalWorkerStore) (body : io PersonalWorkerStoreError A) ψ now φ Q w :
  (∀ img, φ img → ψ img) → ψ now → St now φ w →
  (∀ a w1 w2, Q a w1 → keeps w1 w2 → Q a w2) → (∀ a w', Q a w' → images ψ w') →
  (∀ w1, St now φ w1 → wp body (ensures (images ψ) Q) w1) →
  wp (locked self body) (ensures (images ψ) Q) w.
Proof.
  intros Hφ Hnow Hst HQ HQψ Hbody.
  eapply wp_bind_quiet; [solve_quiet|done|intros; by eapply St_images|].
  intros _ w1 Hst1. apply wp_catch. eapply wp_mono; [by apply Hbody|].
  intros [r|] w2 Hr; [|done]. apply wp_catch. eapply wp_mono; [apply quiet_funlock|].
  intros out w3 Hk. assert (images ψ w3) as Himg.
  { eapply keeps_images; [|exact Hk]. destruct r as [a|e|]; [by eapply HQψ|done..]. }
  destruct out as [_|]; [|done]. apply wp_lift. destruct r as [a|e|]; [|done..]. by eapply HQ.
Qed.

Lemma keeps_synced now w w' : synced now w → keeps w w' → synced now w'.
Proof. apply keeps_St. Qed.

(** ** Documents in the directory *)

(** A durable document: its text, how the text is read, and that a part of a
    text reads as nothing but the document it is the whole text of. *)
Class Durable (D : Type) := {
  dtext : D → option bytes;
  dread : bytes → option D;
  dread_part d b b' d' : dtext d = Some b → b' `prefix_of` b → dread b' = Some d' → b' = b ∧ d' = d;
}.

(** What the place of a document holds: nothing, all of it, or a part of it at
    most. *)
Inductive slot (D : Type) :=
| Absent
| Whole (d : D)
| Torn (d : D).
Arguments Absent {D}.
Arguments Whole {D} d.
Arguments Torn {D} d.

Section slots.
Context {D : Type} `{!Durable D}.

Definition slot_at (name : string) (s : slot D) (img : entries) : Prop :=
  match s with
  | Absent => img !! name = None
  | Whole d => ∃ f b, img !! name = Some f ∧ dtext d = Some b ∧ settled_as b f
  | Torn d => ∀ f, img !! name = Some f → ∃ b, dtext d = Some b ∧ part_of b f
  end.

Definition whole_or_absent (o : option D) : slot D :=
  match o with Some d => Whole d | None => Absent end.

(** What reading the document found. *)
Definition read_as (name : string) (o : option D) (img : entries) : Prop :=
  match o with
  | None => img !! name = None
  | Some d => ∃ f, img !! name = Some f ∧ dread (f_bytes f) = Some d
  end.

Lemma slot_insert name name' s f img :
  name ≠ name' → slot_at name s (<[name' := f]> img) ↔ slot_at name s img.
Proof. intros Hne. destruct s; simpl; by rewrite lookup_insert_ne. Qed.

Lemma slot_delete name name' s img :
  name ≠ name' → slot_at name s (delete name' img) ↔ slot_at name s img.
Proof. intros Hne. destruct s; simpl; by rewrite lookup_delete_ne. Qed.

Lemma slot_deleted name img : slot_at name Absent (delete name img).
Proof. apply lookup_delete_eq. Qed.

Lemma slot_whole name d b f img :
  dtext d = Some b → settled_as b f → slot_at name (Whole d) (<[name := f]> img).
Proof. intros Hd Hf. exists f, b. by rewrite lookup_insert_eq. Qed.

Lemma slot_torn name d b f img :
  dtext d = Some b → part_of b f → slot_at name (Torn d) (<[name := f]> img).
Proof. intros Hd Hf g. rewrite lookup_insert_eq. intros [= <-]. by exists b. Qed.

Lemma absent_torn name d img : slot_at name Absent img → slot_at name (Torn d) img.
Proof. simpl. intros -> f. done. Qed.

Lemma whole_torn name d img : slot_at name (Whole d) img → slot_at name (Torn d) img.
Proof.
  intros (f & b & Hf & Hd & Hs) g Hg. exists b. split; [done|]. rewrite Hf in Hg. injection Hg as <-.
  unfold part_of. by rewrite (proj1 Hs).
Qed.

Lemma slot_survives name s kept img : slot_at name s img → slot_at name s (survivors kept img).
Proof.
  destruct s as [|d|d]; simpl; rewrite lookup_survivors.
  - by intros ->.
  - intros (f & b & -> & Hd & Hs). exists f, b. simpl. by rewrite (survives_settled b).
  - intros H f. destruct (img !! name) as [g|]; [|done]. intros [= <-].
    destruct (H g eq_refl) as (b & Hd & Hp). exists b. split; [done|]. by apply survives_part.
Qed.

Lemma read_whole name d o img : slot_at name (Whole d) img → read_as name o img → o = Some d.
Proof.
  intros (f & b & Hf & Hd & Hb & _). destruct o as [d'|]; simpl; [|congruence].
  intros (g & Hg & Hr). assert (g = f) as -> by congruence. rewrite Hb in Hr. f_equal.
  by apply (dread_part d b b d' Hd).
Qed.

Lemma read_absent name o img : slot_at name Absent img → read_as name o img → o = None.
Proof. simpl. intros Hn. destruct o as [d|]; [|done]. intros (f & Hf & _). congruence. Qed.

(** A torn document that is read is there in full, if not yet durable. *)
Lemma read_torn name d o img :
  slot_at name (Torn d) img → read_as name o img →
  (o = None ∧ img !! name = None) ∨
  (o = Some d ∧ ∃ f b, img !! name = Some f ∧ dtext d = Some b ∧ f_bytes f = b).
Proof.
  intros Ht. destruct o as [d'|]; simpl; [|by left]. intros (f & Hf & Hr). right.
  destruct (Ht f Hf) as (b & Hd & Hp). destruct (dread_part _ _ _ _ Hd Hp Hr) as [Hb ->]. eauto 10.
Qed.

(** The place of a stage of [d]. *)
Definition stage_of (d : D) (s : slot D) : Prop := s = Torn d ∨ s = Whole d.

Lemma stage_torn name d s img : stage_of d s → slot_at name s img → slot_at name (Torn d) img.
Proof. intros [->| ->]; [done|apply whole_torn]. Qed.

Lemma whole_stage name d s img : stage_of d s → slot_at name (Whole d) img → slot_at name s img.
Proof. intros [->| ->]; [apply whole_torn|done]. Qed.

Lemma slot_stabilised name d f b img :
  dtext d = Some b → f_bytes f = b → slot_at name (Whole d) (<[name := stabilised f]> img).
Proof. intros Hd Hb. by eapply slot_whole. Qed.
End slots.
