(* ===== verification/PairSteps.v ===== *)
(** * What the calls of the paired transactions do to the four documents

    The catalog, its stage, the recovery document and its stage, described by
    their places ([slot]); one rule per call of [CatalogDisk], [DeliveryDisk]
    and [DeliveryPair]. *)

From S2P Require Import Prelude WorkerQueue StoreWire WorkerStore StoreCodec FileSystem UnixStore UnixSteps.
From S2P Require Import UnixTheorems DiskLogic AttemptState WorkerReconciler AttemptCatalog AttemptCodec CatalogCodec.
From S2P Require Import ScaleSetDelivery DeliveryConsumer DeliveryRecovery RecoveryCodec CatalogDisk DeliveryDisk.
From S2P Require Import DeliveryPair.

Local Open Scope N_scope.

(** Distinct document names. *)
Ltac names := solve [intros Hnames; vm_compute in Hnames; discriminate Hnames].

Section steps.
Context `{SER : !StoreSerde, DS : !DocumentSerde, LIMA : !LimaAuthorityReader, LAWS : CatalogSerdeLaws}
  {CUT : CatalogSerdeCut} `{DLAWS : DeliverySerdeLaws} {HASHER : Sha256Hasher} `{RLAWS : RecoverySerdeLaws}.

#[export] Instance durable_catalog : Durable DisposableAttemptCatalogDocument := {|
  dtext c := ok (encode_disposable_attempt_catalog c);
  dread b := ok (decode_disposable_attempt_catalog b);
  dread_part c b b' c' Hc Hp Hr :=
    decode_catalog_part c b b' c' (proj1 (ok_Some _ _) Hc) Hp (proj1 (ok_Some _ _) Hr);
|}.

#[export] Instance durable_recovery : Durable ScaleSetDeliveryRecoveryState := {|
  dtext s := ok (encode_scale_set_delivery_recovery s);
  dread b := ok (decode_scale_set_delivery_recovery b);
  dread_part s b b' s' Hs Hp Hr :=
    decode_recovery_part s b b' s' (proj1 (ok_Some _ _) Hs) Hp (proj1 (ok_Some _ _) Hr);
|}.

(** ** Shapes *)

Record shape (cc sc : slot DisposableAttemptCatalogDocument) (cd sd : slot ScaleSetDeliveryRecoveryState)
    (img : entries) : Prop := {
  sh_cc : slot_at CATALOG_DOCUMENT cc img;
  sh_sc : slot_at STAGED_CATALOG_DOCUMENT sc img;
  sh_cd : slot_at DELIVERY_RECOVERY_DOCUMENT cd img;
  sh_sd : slot_at STAGED_DELIVERY_RECOVERY_DOCUMENT sd img;
}.

Lemma shape_survives cc sc cd sd kept img : shape cc sc cd sd img → shape cc sc cd sd (survivors kept img).
Proof. intros []. split; by apply slot_survives. Qed.

Ltac shape_other := split; rewrite ?slot_insert, ?slot_delete by names; eauto using slot_deleted.

Lemma shape_set_sd cc sc cd sd sd' f img :
  shape cc sc cd sd img → slot_at STAGED_DELIVERY_RECOVERY_DOCUMENT sd' (<[STAGED_DELIVERY_RECOVERY_DOCUMENT := f]> img) →
  shape cc sc cd sd' (<[STAGED_DELIVERY_RECOVERY_DOCUMENT := f]> img).
Proof. intros [] H. shape_other. Qed.

Lemma shape_set_sc cc sc sc' cd sd f img :
  shape cc sc cd sd img → slot_at STAGED_CATALOG_DOCUMENT sc' (<[STAGED_CATALOG_DOCUMENT := f]> img) →
  shape cc sc' cd sd (<[STAGED_CATALOG_DOCUMENT := f]> img).
Proof. intros [] H. shape_other. Qed.

Lemma shape_delete_sd cc sc cd sd img :
  shape cc sc cd sd img → shape cc sc cd Absent (delete STAGED_DELIVERY_RECOVERY_DOCUMENT img).
Proof. intros []. shape_other. Qed.

Lemma shape_delete_sc cc sc cd sd img :
  shape cc sc cd sd img → shape cc Absent cd sd (delete STAGED_CATALOG_DOCUMENT img).
Proof. intros []. shape_other. Qed.

Lemma shape_delete_cd cc sc cd sd img :
  shape cc sc cd sd img → shape cc sc Absent sd (delete DELIVERY_RECOVERY_DOCUMENT img).
Proof. intros []. shape_other. Qed.

Lemma shape_publish_d cc sc cd sd d b f img :
  shape cc sc cd sd img → dtext d = Some b → settled_as b f →
  shape cc sc (Whole d) Absent (published_at DELIVERY_RECOVERY_DOCUMENT STAGED_DELIVERY_RECOVERY_DOCUMENT img f).
Proof.
  intros [] Hd Hf. unfold published_at. shape_other. by eapply slot_whole.
Qed.

Lemma shape_publish_c cc sc cd sd c b f img :
  shape cc sc cd sd img → dtext c = Some b → settled_as b f →
  shape (Whole c) Absent cd sd (published_at CATALOG_DOCUMENT STAGED_CATALOG_DOCUMENT img f).
Proof.
  intros [] Hd Hf. unfold published_at. shape_other. by eapply slot_whole.
Qed.

(** ** Calls *)

Context (self : UnixPersonalWorkerStore).

Section calls.
Context (ψ φ : entries → Prop) (Hφ : ∀ img, φ img → ψ img).

Lemma wp_load_catalog name now w :
  ψ now → St now φ w →
  wp (load_catalog_named self name) (ensures (images ψ) (λ o w', St now φ w' ∧ read_as name o now)) w.
Proof.
  intros Hnow Hst. eapply wp_bind; [by apply wp_failing, (wp_read_in ψ φ Hφ)|].
  intros o w' [Hst' Ho]. apply wp_lift_ensures; [|by eapply St_images]. intros a Ha. split; [done|].
  destruct o as [b|]; simpl in Ha; [|by injection Ha as <-].
  apply bind_Ok in Ha as (c & Hc%map_err_Ok & [= <-]). destruct Ho as (f & Hf & <-).
  exists f. split; [done|]. by apply ok_Some.
Qed.

Lemma wp_load_delivery name now w :
  ψ now → St now φ w →
  wp (load_scale_set_delivery_named self name) (ensures (images ψ) (λ o w', St now φ w' ∧ read_as name o now)) w.
Proof.
  intros Hnow Hst. eapply wp_bind; [by apply (wp_read_in ψ φ Hφ)|].
  intros o w' [Hst' Ho]. apply wp_lift_ensures; [|by eapply St_images]. intros a Ha. split; [done|].
  destruct o as [b|]; simpl in Ha; [|by injection Ha as <-].
  apply bind_Ok in Ha as (s & Hs%map_err_Ok & [= <-]). destruct Ho as (f & Hf & <-).
  exists f. split; [done|]. by apply ok_Some.
Qed.

(** Making a stage that was found durable. *)
Lemma wp_sync_all_in {E} (g : Errno → E) name now f w :
  now !! name = Some f → ψ now → ψ (<[name := stabilised f]> now) → St now φ w →
  wp (failing g (sync_all name)) (ensures (images ψ) (λ _, St (<[name := stabilised f]> now) φ)) w.
Proof.
  intros Hf Hnow Hstab [Hn Hp]. assert (images ψ w) as Himg by (by eapply St_images; [split|..]).
  apply wp_failing, wp_atomic; intros script; [|done..].
  unfold on_file. simpl. rewrite Hn, Hf. split; [by simpl; rewrite Hn|done].
Qed.

Lemma wp_open_read_in {E} (g : Errno → E) name now w :
  ψ now → St now φ w →
  wp (failing g (openat OpenReadOnly name)) (ensures (images ψ) (λ fd w', fd = name ∧ St now φ w')) w.
Proof.
  intros Hnow Hst. apply wp_failing. eapply wp_mono; [by apply wp_openat_read|].
  intros [[fd|e|]|] w' [Hw' Hr]; simpl; try done; by eapply St_images.
Qed.

Lemma wp_read_end_in {E} (g : Errno → E) name limit now w :
  ψ now → St now φ w →
  wp (failing g (read_to_end name limit)) (ensures (images ψ)
    (λ b w', St now φ w' ∧ ∃ f, now !! name = Some f ∧ b = take_upto limit (f_bytes f))) w.
Proof.
  intros Hnow Hst. apply wp_failing. eapply wp_ensures; [by apply wp_read_to_end|intros; by eapply St_images|done].
Qed.

Lemma wp_sync_delivery_stage cc sc cd sd d d' now w :
  stage_of d sd → (∀ img, shape cc sc cd sd img → ψ img) → shape cc sc cd sd now → St now φ w →
  wp (synchronize_existing_scale_set_delivery_stage self d')
    (ensures (images ψ) (λ _ w', d' = d ∧ ∃ now', St now' φ w' ∧ shape cc sc cd (Whole d) now')) w.
Proof.
  intros Hsd Hψ Hsh Hst. eapply wp_bind; [by apply wp_open_read_in; [apply Hψ|]|]. intros fd w1 [-> Hst1].
  eapply wp_bind; [by apply (wp_quiet_in ψ φ Hφ); [solve_quiet|apply Hψ|]|]. intros ? w2 Hst2. simpl in Hst2.
  eapply wp_bind; [by apply wp_read_end_in; [apply Hψ|]|]. intros b w3 (Hst3 & f & Hf & ->).
  case_match eqn:Hg; [by eapply St_images; [|apply Hψ|]|]. bprop. rewrite take_upto_all in * by done.
  destruct (read_torn _ d (Some d') now (stage_torn _ _ _ _ Hsd (sh_sd _ _ _ _ _ Hsh))) as [[? _]|([= ->] & f' & b & Hf' & Hd & Hb)];
    [by exists f|done|]. assert (f' = f) as -> by congruence.
  assert (shape cc sc cd (Whole d) (<[STAGED_DELIVERY_RECOVERY_DOCUMENT := stabilised f]> now)) as Hsh'.
  { eapply shape_set_sd; [done|]. by eapply slot_stabilised. }
  assert (ψ (<[STAGED_DELIVERY_RECOVERY_DOCUMENT := stabilised f]> now)) as Hnow'.
  { apply Hψ. destruct Hsh'. split; [done..|]. by eapply whole_stage. }
  eapply wp_bind; [by apply wp_sync_all_in; [|apply Hψ|..]|]. intros ? w4 Hst4. simpl in Hst4.
  eapply wp_ensures; [by apply (wp_quiet_in ψ φ Hφ); [solve_quiet|exact Hnow'|]|done|]. intros ? w5 Hst5. split; [done|]. eexists. split; [exact Hst5|done].
Qed.

Lemma wp_sync_catalog_stage cc c c' cd sd now w :
  (∀ img, shape cc (Torn c) cd sd img → ψ img) → shape cc (Torn c) cd sd now → St now φ w →
  wp (synchronize_existing_catalog_stage self c')
    (ensures (images ψ) (λ _ w', c' = c ∧ ∃ now', St now' φ w' ∧ shape cc (Whole c) cd sd now')) w.
Proof.
  intros Hψ Hsh Hst. eapply wp_bind; [by apply wp_open_read_in; [apply Hψ|]|]. intros fd w1 [-> Hst1].
  eapply wp_bind; [by apply wp_failing, (wp_quiet_in ψ φ Hφ); [solve_quiet|apply Hψ|]|].
  intros ? w2 Hst2. simpl in Hst2.
  eapply wp_bind; [by apply wp_read_end_in; [apply Hψ|]|]. intros b w3 (Hst3 & f & Hf & ->).
  case_match eqn:Hg; [by eapply St_images; [|apply Hψ|]|]. bprop. rewrite take_upto_all in * by done.
  apply wp_bind_lift; [by eapply St_images; [|apply Hψ|]|]. intros c0 Hc0%map_err_Ok.
  case_match eqn:Hne; [by eapply St_images; [|apply Hψ|]|]. bprop. subst c0.
  destruct (read_torn _ c (Some c') now (sh_sc _ _ _ _ _ Hsh)) as [[? _]|([= ->] & f' & b & Hf' & Hd & Hb)];
    [exists f; split; [done|]; by apply ok_Some|done|]. assert (f' = f) as -> by congruence.
  assert (shape cc (Whole c) cd sd (<[STAGED_CATALOG_DOCUMENT := stabilised f]> now)) as Hsh'.
  { eapply shape_set_sc; [done|]. by eapply slot_stabilised. }
  assert (ψ (<[STAGED_CATALOG_DOCUMENT := stabilised f]> now)) as Hnow'.
  { apply Hψ. destruct Hsh'. split; [done| |done..]. by apply whole_torn. }
  eapply wp_bind; [by apply wp_sync_all_in; [|apply Hψ|..]|]. intros ? w4 Hst4. simpl in Hst4.
  eapply wp_ensures; [by apply wp_failing, (wp_quiet_in ψ φ Hφ); [solve_quiet|exact Hnow'|]|done|].
  intros ? w5 Hst5. split; [done|]. eexists. split; [exact Hst5|done].
Qed.

Lemma wp_stage_delivery cc sc cd sd d now w :
  ψ now → (∀ img, shape cc sc cd (Torn d) img → ψ img) → shape cc sc cd sd now → St now φ w →
  wp (stage_scale_set_delivery self d)
    (ensures (images ψ) (λ sg w',
       sg = mkStaged STAGED_DELIVERY_RECOVERY_DOCUMENT (Some STAGED_DELIVERY_RECOVERY_DOCUMENT) true ∧
       ∃ now', St now' ψ w' ∧ shape cc sc cd (Whole d) now' ∧ ψ now')) w.
Proof.
  intros Hnow Hψ Hsh Hst. apply wp_bind_lift; [by eapply St_images|]. intros b Hb%map_err_Ok.
  assert (dtext d = Some b) as Hd by by apply ok_Some.
  eapply wp_ensures; [apply (wp_stage_in ψ φ Hφ); [done| |done]|done|].
  - intros f Hf. apply Hψ. eapply shape_set_sd; [done|]. by eapply slot_torn.
  - intros sg w' (-> & Hnone & f & Hf & Hst'). split; [done|]. eexists. split; [done|].
    split; [eapply shape_set_sd; [done|]; by eapply slot_whole|].
    apply Hψ. eapply shape_set_sd; [done|]. apply whole_torn. by eapply slot_whole.
Qed.

Lemma wp_stage_catalog cc sc cd sd c now w :
  ψ now → (∀ img, shape cc (Torn c) cd sd img → ψ img) → shape cc sc cd sd now → St now φ w →
  wp (stage_catalog self c)
    (ensures (images ψ) (λ sg w',
       sg = mkStaged STAGED_CATALOG_DOCUMENT (Some STAGED_CATALOG_DOCUMENT) true ∧
       ∃ now', St now' ψ w' ∧ shape cc (Whole c) cd sd now' ∧ ψ now')) w.
Proof.
  intros Hnow Hψ Hsh Hst. apply wp_bind_lift; [by eapply St_images|]. intros b Hb%map_err_Ok.
  assert (dtext c = Some b) as Hd by by apply ok_Some.
  eapply wp_ensures; [apply wp_failing, (wp_stage_in ψ φ Hφ); [done| |done]|done|].
  - intros f Hf. apply Hψ. eapply shape_set_sc; [done|]. by eapply slot_torn.
  - intros sg w' (-> & Hnone & f & Hf & Hst'). split; [done|]. eexists. split; [done|].
    split; [eapply shape_set_sc; [done|]; by eapply slot_whole|].
    apply Hψ. eapply shape_set_sc; [done|]. apply whole_torn. by eapply slot_whole.
Qed.

Lemma wp_publish_delivery cc sc cd d sg no_replace now w :
  sg_name sg = STAGED_DELIVERY_RECOVERY_DOCUMENT →
  (sg_armed sg = true → closed_under STAGED_DELIVERY_RECOVERY_DOCUMENT ψ) →
  (∀ img, shape cc sc (Whole d) Absent img → ψ img) → ψ now → shape cc sc cd (Whole d) now → St now φ w →
  wp (always_drop (publish_named_staged sg DELIVERY_RECOVERY_DOCUMENT no_replace))
    (ensures (images ψ) (λ _ w', ∃ now', synced now' w' ∧ shape cc sc (Whole d) Absent now')) w.
Proof.
  intros Hname Harm Hψ Hnow Hsh Hst. destruct (sh_sd _ _ _ _ _ Hsh) as (f & b & Hf & Hd & Hs).
  pose proof (shape_publish_d _ _ _ _ d b f now Hsh Hd Hs) as Hpub.
  eapply wp_ensures; [eapply (wp_publish_in ψ φ); rewrite ?Hname; eauto|done|].
  intros ? w' Hw'. eexists. split; [exact Hw'|]. by rewrite Hname.
Qed.

Lemma wp_publish_catalog cc c cd sd sg no_replace now w :
  sg_name sg = STAGED_CATALOG_DOCUMENT →
  (sg_armed sg = true → closed_under STAGED_CATALOG_DOCUMENT ψ) →
  (∀ img, shape (Whole c) Absent cd sd img → ψ img) → ψ now → shape cc (Whole c) cd sd now → St now φ w →
  wp (always_drop (publish_named_staged sg CATALOG_DOCUMENT no_replace))
    (ensures (images ψ) (λ _ w', ∃ now', synced now' w' ∧ shape (Whole c) Absent cd sd now')) w.
Proof.
  intros Hname Harm Hψ Hnow Hsh Hst. destruct (sh_sc _ _ _ _ _ Hsh) as (f & b & Hf & Hd & Hs).
  pose proof (shape_publish_c _ _ _ _ c b f now Hsh Hd Hs) as Hpub.
  eapply wp_ensures; [eapply (wp_publish_in ψ φ); rewrite ?Hname; eauto|done|].
  intros ? w' Hw'. eexists. split; [exact Hw'|]. by rewrite Hname.
Qed.

End calls.

(** Removing a document and making that durable. *)
Lemma wp_remove_in {E} ψ name (k : result Errno unit → io E unit) now w :
  (∀ u w', St (delete name now) ψ w' → wp (k (Ok u)) (ensures (images ψ) (λ _, synced (delete name now))) w') →
  k (Err NOENT) = mret () → (∀ e, e ≠ NOENT → ∃ err, k (Err e) = lift (Err err)) →
  ψ now → ψ (delete name now) → synced now w →
  wp (catch (unlinkat name) k) (ensures (images ψ) (λ _, synced (delete name now))) w.
Proof.
  intros Hok Hno Herr Hnow Hdel Hst. apply wp_catch.
  eapply wp_mono; [by eapply (wp_unlink_in ψ (λ _, False))|].
  assert (∀ w', synced now w' → images ψ w') as Hstay by (intros; by eapply St_images).
  intros [[u|e|]|] w' Hw'; [..|done|by apply Hstay].
  - apply Hok, Hw'.
  - destruct (decide (e = NOENT)) as [->|Hne].
    + destruct Hw' as [Hnone Hw']. rewrite Hno. apply wp_lift. simpl. by rewrite delete_id.
    + destruct (Herr e Hne) as [err ->]. apply wp_lift. simpl. apply Hstay. by destruct e.
Qed.

Lemma wp_unlink_delivery_stage ψ message cc sc cd sd now w :
  ψ now → (∀ img, shape cc sc cd Absent img → ψ img) → shape cc sc cd sd now → synced now w →
  wp (unlink_delivery_stage message)
    (ensures (images ψ) (λ _ w', ∃ now', synced now' w' ∧ shape cc sc cd Absent now')) w.
Proof.
  intros Hnow Hψ Hsh Hst. pose proof (shape_delete_sd _ _ _ _ _ Hsh) as Hdel.
  eapply wp_ensures; [apply (wp_remove_in ψ _ _ now); auto|done|intros ? w' Hw'; eexists; split; [exact Hw'|done]].
  - intros u w' Hw'. by apply (wp_sync_in ψ ψ (λ _ H, H)); [apply Hψ|].
  - intros e He. destruct e; try done; by eexists.
Qed.

Lemma wp_remove_catalog_stage ψ cc sc cd sd now w :
  ψ now → (∀ img, shape cc Absent cd sd img → ψ img) → shape cc sc cd sd now → synced now w →
  wp remove_catalog_stage
    (ensures (images ψ) (λ _ w', ∃ now', synced now' w' ∧ shape cc Absent cd sd now')) w.
Proof.
  intros Hnow Hψ Hsh Hst. pose proof (shape_delete_sc _ _ _ _ _ Hsh) as Hdel.
  eapply wp_ensures; [apply (wp_remove_in ψ _ _ now); auto|done|intros ? w' Hw'; eexists; split; [exact Hw'|done]].
  - intros u w' Hw'. apply wp_failing. by apply (wp_sync_in ψ ψ (λ _ H, H)); [apply Hψ|].
  - intros e He. destruct e; try done; by eexists.
Qed.
End steps.
