(* ===== verification/PairRecovery.v ===== *)
(** * Recovery of interrupted transactions

    The directories each transaction on the catalog and the recovery document
    may leave behind ([tx_img]), and the proof that the recovery of the
    controller ends in one of the two states the transaction leads between. *)

From S2P Require Import Prelude WorkerQueue StoreWire WorkerStore StoreCodec FileSystem UnixStore UnixSteps.
From S2P Require Import UnixTheorems DiskLogic AttemptState WorkerReconciler AttemptCatalog AttemptCodec CatalogCodec.
From S2P Require Import ScaleSetDelivery DeliveryConsumer DeliveryRecovery RecoveryCodec CatalogDisk DeliveryDisk.
From S2P Require Import DeliveryPair PairSteps.

Local Open Scope N_scope.

Abbreviation catalog_doc := DisposableAttemptCatalogDocument.
Abbreviation recovery_doc := ScaleSetDeliveryRecoveryState.

(** What is under way in the directory: nothing, a replacement of the catalog,
    of the recovery document, of both, or a settlement. *)
Inductive tx :=
| TxIdle (c : option catalog_doc) (d : option recovery_doc)
| TxCatalog (c : option catalog_doc) (c' : catalog_doc)
| TxStep (c : catalog_doc) (d : option recovery_doc) (d' : recovery_doc)
| TxPair (c : catalog_doc) (d : option recovery_doc) (c' : catalog_doc) (d' : recovery_doc)
| TxSettle (c : catalog_doc) (d : recovery_doc) (c' : catalog_doc) (p : recovery_doc).

(** The states of the two documents a transaction leads between. *)
Definition tx_ends (t : tx) : list (option catalog_doc * option recovery_doc) :=
  match t with
  | TxIdle c d => [(c, d)]
  | TxCatalog c c' => [(c, None); (Some c', None)]
  | TxStep c d d' => [(Some c, d); (Some c, Some d')]
  | TxPair c d c' d' => [(Some c, d); (Some c', Some d')]
  | TxSettle c d c' p => [(Some c, Some d); (Some c', None)]
  end.

Definition prepared (d : recovery_doc) : bool := is_settlement_prepared (rs_phase d).

Section recovery.
Context `{SER : !StoreSerde, DS : !DocumentSerde, LIMA : !LimaAuthorityReader, LAWS : CatalogSerdeLaws}
  {CUT : CatalogSerdeCut} `{DLAWS : DeliverySerdeLaws} {HASHER : Sha256Hasher} `{RLAWS : RecoverySerdeLaws}.

(** The directories that may be found while it is under way. *)
Definition tx_img (t : tx) (img : entries) : Prop :=
  match t with
  | TxIdle c d => shape (whole_or_absent c) Absent (whole_or_absent d) Absent img
  | TxCatalog c c' =>
      shape (whole_or_absent c) (Torn c') Absent Absent img ∨ shape (Whole c') Absent Absent Absent img
  | TxStep c d d' =>
      shape (Whole c) Absent (whole_or_absent d) (Torn d') img ∨ shape (Whole c) Absent (Whole d') Absent img
  | TxPair c d c' d' =>
      shape (Whole c) Absent (whole_or_absent d) (Torn d') img ∨
      shape (Whole c) (Torn c') (whole_or_absent d) (Whole d') img ∨
      shape (Whole c') Absent (whole_or_absent d) (Whole d') img ∨
      shape (Whole c') Absent (Whole d') Absent img
  | TxSettle c d c' p =>
      shape (Whole c) (Torn c') (Whole d) (Torn p) img ∨
      shape (Whole c) (Torn c') (Whole p) Absent img ∨
      shape (Whole c') Absent (Whole p) Absent img ∨
      shape (Whole c') Absent Absent Absent img
  end.

(** A first delivery [d'], or the resolution [d'] of the delivery [d], that
    leads from the catalog [c] to [c']. *)
Definition pair_ok (c : catalog_doc) (d : option recovery_doc) (c' : catalog_doc) (d' : recovery_doc) : Prop :=
  matches_catalog d' c' = true ∧ matches_catalog d' c = false ∧
  match d with
  | None => True
  | Some s => ∃ r, lifecycle_resolution d' = Some r ∧
      is_lifecycle_resolution_of d' s (lr_prior_catalog r) = true ∧
      matches_catalog s c = true ∧ matches_catalog s c' = false ∧
      resolution_matches_catalog r c' = true ∧ resolution_matches_catalog r c = false
  end.

(** A settlement [p] that leads from the catalog [c] to [c']. *)
Definition settle_ok (c : catalog_doc) (d : recovery_doc) (c' : catalog_doc) (p : recovery_doc) : Prop :=
  prepared d = false ∧ prepared p = true ∧
  matches_catalog p c = true ∧ settle_scale_set_delivery_catalog p c = Ok c' ∧
  (c' = c ∨ matches_catalog p c' = false).

Definition tx_ok (t : tx) : Prop :=
  match t with
  | TxIdle _ d => ∀ s, d = Some s → prepared s = false
  | TxCatalog _ _ => True
  | TxStep _ d d' => (∀ s, d = Some s → prepared s = false) ∧ prepared d' = false
  | TxPair c d c' d' => (∀ s, d = Some s → prepared s = false) ∧ prepared d' = false ∧ pair_ok c d c' d'
  | TxSettle c d c' p => settle_ok c d c' p
  end.

Lemma tx_survives t kept img : tx_img t img → tx_img t (survivors kept img).
Proof. destruct t; simpl; intros; repeat destruct_or?; eauto using shape_survives. Qed.

(** The two documents are [c] and [d], durably, and nothing is staged. *)
Definition idle (c : option catalog_doc) (d : option recovery_doc) : World → Prop :=
  images (tx_img (TxIdle c d)).

Definition at_rest (c : option catalog_doc) (d : option recovery_doc) (w : World) : Prop :=
  ∃ now, synced now w ∧ tx_img (TxIdle c d) now.

Lemma rest_idle c d w : at_rest c d w → idle c d w.
Proof. intros (now & Hs & Hsh). by eapply St_images. Qed.

Lemma rest_keeps c d w w' : at_rest c d w → keeps w w' → at_rest c d w'.
Proof. intros (now & Hs & Hsh) Hk. exists now. split; [by eapply keeps_synced|done]. Qed.

Context (self : UnixPersonalWorkerStore).

#[export] Instance quiet_load_catalog name : Quiet (load_catalog_named self name).
Proof. unfold load_catalog_named. solve_quiet. Qed.
#[export] Instance quiet_load_delivery name : Quiet (load_scale_set_delivery_named self name).
Proof. unfold load_scale_set_delivery_named. solve_quiet. Qed.
#[export] Instance quiet_pending message : Quiet (refuse_pending_worker_recovery self message).
Proof. unfold refuse_pending_worker_recovery. solve_quiet. Qed.
#[export] Instance quiet_neighbors : Quiet (refuse_unsettled_scale_set_neighbors self).
Proof. unfold refuse_unsettled_scale_set_neighbors. solve_quiet. Qed.
#[export] Instance quiet_other : Quiet (refuse_other_unsettled_scale_set_state self).
Proof. unfold refuse_other_unsettled_scale_set_state. solve_quiet. Qed.
#[export] Instance quiet_catalog_plan : Quiet (catalog_recovery_plan self).
Proof. unfold catalog_recovery_plan. solve_quiet. Qed.
#[export] Instance quiet_worker_state : Quiet (refuse_unsettled_personal_worker_state self).
Proof. unfold refuse_unsettled_personal_worker_state. solve_quiet. Qed.

Section at_directories.
Context (ψ : entries → Prop).

Lemma stay now w : ψ now → synced now w → images ψ w.
Proof. intros Hnow Hs. by eapply St_images. Qed.

Lemma wp_quiet_rest {E A} (m : io E A) `{!Quiet m} now w :
  ψ now → synced now w → wp m (ensures (images ψ) (λ _, synced now)) w.
Proof. intros. by apply (wp_quiet_in ψ (λ _, False)). Qed.

Lemma wp_load_catalog_rest name now w :
  ψ now → synced now w →
  wp (load_catalog_named self name) (ensures (images ψ) (λ o w', synced now w' ∧ read_as name o now)) w.
Proof. intros. by apply (wp_load_catalog self ψ (λ _, False)). Qed.

Lemma wp_load_delivery_rest name now w :
  ψ now → synced now w →
  wp (load_scale_set_delivery_named self name)
    (ensures (images ψ) (λ o w', synced now w' ∧ read_as name o now)) w.
Proof. intros. by apply (wp_load_delivery self ψ (λ _, False)). Qed.

(** A stage of the recovery document that was found is made durable and
    published. *)
Lemma wp_sync_publish_delivery cc sc cd sd d d' no_replace now w :
  stage_of d sd →
  (∀ img, shape cc sc cd sd img → ψ img) → (∀ img, shape cc sc (Whole d) Absent img → ψ img) →
  shape cc sc cd sd now → synced now w →
  wp (_ ← synchronize_existing_scale_set_delivery_stage self d'; publish_existing_delivery_stage no_replace)
    (ensures (images ψ) (λ _ w', ∃ now', synced now' w' ∧ shape cc sc (Whole d) Absent now')) w.
Proof.
  intros Hsd H1 H2 Hsh Hs. eapply wp_bind.
  { eapply (wp_sync_delivery_stage self ψ (λ _, False)); [done|exact Hsd|exact H1|exact Hsh|exact Hs]. }
  intros ? w1 (-> & now1 & Hs1 & Hsh1).
  eapply (wp_publish_delivery ψ (λ _, False)); [done|done|done|exact H2| |exact Hsh1|exact Hs1].
  apply H1. destruct Hsh1. split; [done..|]. by eapply whole_stage.
Qed.

Lemma wp_publish_existing_catalog cc c cd sd no_replace now w :
  ψ now → (∀ img, shape (Whole c) Absent cd sd img → ψ img) → shape cc (Whole c) cd sd now → synced now w →
  wp (publish_existing_catalog_stage no_replace)
    (ensures (images ψ) (λ _ w', ∃ now', synced now' w' ∧ shape (Whole c) Absent cd sd now')) w.
Proof.
  intros Hnow H Hsh Hs. by eapply (wp_publish_catalog ψ (λ _, False)); [done|done|done|exact H|done|exact Hsh|exact Hs].
Qed.

(** Recovering the recovery document alone: a stage that is there is published,
    dropped as a duplicate, or refused. *)
Lemma wp_recover_delivery cc sc od sd d now w :
  stage_of d sd → (∀ img, shape cc sc (whole_or_absent od) sd img → ψ img) →
  (∀ img, shape cc sc (Whole d) Absent img → ψ img) →
  shape cc sc (whole_or_absent od) sd now → synced now w →
  wp (recover_scale_set_delivery_locked self)
    (ensures (images ψ) (λ _ w', ∃ now', synced now' w' ∧
       (now !! STAGED_DELIVERY_RECOVERY_DOCUMENT = None ∧ now' = now ∨ shape cc sc (Whole d) Absent now'))) w.
Proof.
  intros Hsd H1 H2 Hsh Hs.
  assert (∀ w', synced now w' → images ψ w') as Hstay by (intros; by eapply stay; [apply H1|]).
  eapply wp_bind with (R := λ plan w', synced now w' ∧
    match plan with
    | RecoverClean => now !! STAGED_DELIVERY_RECOVERY_DOCUMENT = None
    | RecoverPublishStaged _ => True
    | RecoverRemoveStaleStaged => od = Some d
    end).
  { eapply wp_bind; [by apply wp_load_delivery_rest; [apply H1|]|]. intros staged w1 [Hs1 Hst].
    destruct staged as [staged|]; [|by split].
    destruct (read_torn _ _ _ _ (stage_torn _ _ _ _ Hsd (sh_sd _ _ _ _ _ Hsh)) Hst) as [[? _]|([= ->] & _)]; [done|].
    eapply wp_bind; [by apply wp_load_delivery_rest; [apply H1|]|]. intros current w2 [Hs2 Hcd].
    destruct current as [current|]; [|case_match; [by split|by apply Hstay]].
    case_match eqn:He; [|case_match; [by split|by apply Hstay]]. bprop. subst current. split; [done|].
    pose proof (sh_cd _ _ _ _ _ Hsh) as Hd. destruct od as [d0|]; cbn [whole_or_absent] in Hd.
    - by apply (read_whole _ _ _ _ Hd) in Hcd as [= ->].
    - by apply (read_absent _ _ _ Hd) in Hcd. }
  intros plan w1 [Hs1 Hplan]. destruct plan as [|nr|].
  - exists now. split; [done|]. by left.
  - eapply wp_bind; [by apply wp_load_delivery_rest; [apply H1|]|]. intros found w2 [Hs2 _].
    apply wp_bind_lift; [by apply Hstay|]. intros staged _.
    eapply wp_ensures; [by eapply wp_sync_publish_delivery|done|]. intros ? w3 (now' & Hs3 & Hsh3). eauto.
  - subst od. eapply wp_ensures; [eapply wp_unlink_delivery_stage; [by apply H1|exact H2|exact Hsh|exact Hs1]|done|].
    intros ? w3 (now' & Hs3 & Hsh3). eauto.
Qed.

(** What the recovery of a pair reads before it decides. *)
Lemma wp_recover_reads Q now w :
  ψ now → synced now w →
  (∀ cc sc cd sd w', synced now w' → read_as CATALOG_DOCUMENT cc now → read_as STAGED_CATALOG_DOCUMENT sc now →
     read_as DELIVERY_RECOVERY_DOCUMENT cd now → read_as STAGED_DELIVERY_RECOVERY_DOCUMENT sd now →
     wp match cd, sd with
        | Some d, _ => recover_beside_delivery self d sd cc sc
        | None, Some d => recover_first_delivery self d cc sc
        | None, None => if is_some sc then failing reconcile_catalog_error (recover_catalog_locked self) else mret ()
        end (ensures (images ψ) Q) w') →
  wp (recover_scale_set_reconcile_transaction_locked self) (ensures (images ψ) Q) w.
Proof.
  intros Hnow Hs Hk. eapply wp_bind; [by apply wp_quiet_rest; [solve_quiet|..]|]. intros ? w1 Hs1. simpl in Hs1.
  eapply wp_bind; [by apply wp_failing, wp_load_catalog_rest|]. intros cc w2 [Hs2 Hcc].
  eapply wp_bind; [by apply wp_failing, wp_load_catalog_rest|]. intros sc w3 [Hs3 Hsc].
  eapply wp_bind; [by apply wp_load_delivery_rest|]. intros cd w4 [Hs4 Hcd].
  eapply wp_bind; [by apply wp_load_delivery_rest|]. intros sd w5 [Hs5 Hsd]. by apply Hk.
Qed.

(** A first delivery whose catalog is not staged: published if it is bound to
    the current catalog, dropped if not. *)
Lemma wp_first_alone c sd d now w :
  stage_of d sd → (∀ img, shape (Whole c) Absent Absent sd img → ψ img) →
  (∀ img, shape (Whole c) Absent (if matches_catalog d c then Whole d else Absent) Absent img → ψ img) →
  shape (Whole c) Absent Absent sd now → synced now w →
  wp (recover_first_delivery self d (Some c) None)
    (ensures (images ψ) (λ _ w', ∃ now', synced now' w' ∧
       shape (Whole c) Absent (if matches_catalog d c then Whole d else Absent) Absent now')) w.
Proof.
  intros Hsd H1 H2 Hsh Hs. unfold recover_first_delivery.
  destruct (negb (_ =? 1) || _); [by eapply stay; [apply H1|]|].
  apply wp_bind_ok. destruct (matches_catalog d c); [by eapply wp_sync_publish_delivery|].
  case_match; [by eapply wp_unlink_delivery_stage; [apply H1|..]|by eapply stay; [apply H1|]].
Qed.

(** Both stages are there: both are published, the catalog first. *)
Lemma wp_both_stages cc c cd sd d c' d' no_replace now w :
  stage_of d sd →
  (∀ img, shape cc (Torn c) cd sd img → ψ img) → (∀ img, shape (Whole c) Absent cd sd img → ψ img) →
  (∀ img, shape (Whole c) Absent (Whole d) Absent img → ψ img) →
  shape cc (Torn c) cd sd now → synced now w →
  wp (_ ← synchronize_existing_scale_set_delivery_stage self d';
      _ ← failing reconcile_catalog_error (synchronize_existing_catalog_stage self c');
      _ ← publish_existing_catalog_stage false;
      publish_existing_delivery_stage no_replace)
    (ensures (images ψ) (λ _ w', ∃ now', synced now' w' ∧ shape (Whole c) Absent (Whole d) Absent now')) w.
Proof.
  intros Hsd H1 H2 H3 Hsh Hs. eapply wp_bind.
  { eapply (wp_sync_delivery_stage self ψ (λ _, False)); [done|exact Hsd|exact H1|exact Hsh|exact Hs]. }
  intros ? w1 (-> & now1 & Hs1 & Hsh1).
  assert (∀ img, shape cc (Torn c) cd (Whole d) img → ψ img) as H1'.
  { intros img []. apply H1. split; [done..|]. by eapply whole_stage. }
  eapply wp_bind.
  { apply wp_failing. eapply (wp_sync_catalog_stage self ψ (λ _, False)); [done|exact H1'|exact Hsh1|exact Hs1]. }
  intros ? w2 (-> & now2 & Hs2 & Hsh2). eapply wp_bind.
  { eapply wp_publish_existing_catalog; [|intros img []|exact Hsh2|exact Hs2].
    - apply H1'. destruct Hsh2. split; [done| |done..]. by apply whole_torn.
    - apply H2. split; [done..|]. by eapply whole_stage. }
  intros ? w3 (now3 & Hs3 & Hsh3).
  eapply (wp_publish_delivery ψ (λ _, False)); [done|done|done|exact H3| |exact Hsh3|exact Hs3].
  apply H2. destruct Hsh3. split; [done..|]. by eapply whole_stage.
Qed.

(** Recovering the catalog alone. *)
Lemma wp_recover_catalog cc c cd sd now w :
  (∀ img, shape cc (Torn c) cd sd img → ψ img) → (∀ img, shape (Whole c) Absent cd sd img → ψ img) →
  shape cc (Torn c) cd sd now → synced now w →
  wp (recover_catalog_locked self)
    (ensures (images ψ) (λ _ w', ∃ now', synced now' w' ∧
       (shape cc Absent cd sd now' ∨ shape (Whole c) Absent cd sd now'))) w.
Proof.
  intros H1 H2 Hsh Hs. assert (∀ img, shape cc Absent cd sd img → ψ img) as H3.
  { intros img []. apply H1. split; [done| |done..]. by apply absent_torn. }
  eapply wp_bind; [by apply wp_quiet_rest; [solve_quiet|apply H1|]|]. intros ? w0 Hs0. simpl in Hs0.
  eapply wp_bind with (R := λ plan w', synced now w' ∧
    (plan = RecoverClean → now !! STAGED_CATALOG_DOCUMENT = None)).
  { eapply wp_bind; [by apply wp_load_catalog_rest; [apply H1|]|]. intros staged w1 [Hs1 Hst].
    destruct staged as [staged|]; [|by split].
    eapply wp_bind; [by apply wp_load_catalog_rest; [apply H1|]|]. intros current w2 [Hs2 _].
    destruct current as [current|]; repeat case_match; simpl; try done; try (by eapply stay; [apply H1|]).
    apply wp_bind_lift; [by eapply stay; [apply H1|]|]. intros ? _. by split. }
  intros plan w1 [Hs1 Hplan]. destruct plan as [|nr|].
  - exists now. split; [done|]. left. destruct Hsh. split; [done| |done..]. by apply Hplan.
  - eapply wp_bind; [by apply wp_load_catalog_rest; [apply H1|]|]. intros found w2 [Hs2 _].
    apply wp_bind_lift; [by eapply stay; [apply H1|]|]. intros staged _. eapply wp_bind.
    { eapply (wp_sync_catalog_stage self ψ (λ _, False)); [done|exact H1|exact Hsh|exact Hs2]. }
    intros ? w3 (-> & now3 & Hs3 & Hsh3). apply wp_failing.
    eapply wp_ensures; [eapply wp_publish_existing_catalog; [|exact H2|exact Hsh3|exact Hs3]|done|].
    + apply H1. destruct Hsh3. split; [done| |done..]. by apply whole_torn.
    + intros ? w4 (now' & Hs4 & Hsh4). eauto.
  - eapply wp_ensures; [eapply wp_remove_catalog_stage; [by apply H1|exact H3|exact Hsh|exact Hs1]|done|].
    intros ? w3 (now' & Hs3 & Hsh3). eauto.
Qed.

(** Beside a delivery with no stage nothing is done. *)
Lemma wp_beside_unstaged d oc sc now w :
  ψ now → synced now w →
  wp (recover_beside_delivery self d None oc sc) (ensures (images ψ) (λ _ w', synced now w' ∧ sc = None)) w.
Proof.
  intros Hnow Hs. unfold recover_beside_delivery. apply wp_bind_lift; [by eapply stay|]. intros c _.
  apply wp_bind_ok. case_match; [by eapply stay|]. destruct sc; [by eapply stay|done].
Qed.

(** Whether a stage [d'] resolves the delivery [d] towards a catalog that is
    not the current one. *)
Definition withheld (c : catalog_doc) (d d' : recovery_doc) : bool :=
  match lifecycle_resolution d' with
  | Some r => is_lifecycle_resolution_of d' d (lr_prior_catalog r) && matches_catalog d c
                && negb (resolution_matches_catalog r c)
  | None => false
  end.

(** Beside a delivery whose stage is a successor of it, and no staged catalog:
    such a stage is dropped, any other is published. *)
Lemma wp_beside_staged c d sd d' now w :
  stage_of d' sd → (∀ img, shape (Whole c) Absent (Whole d) sd img → ψ img) →
  (∀ img, shape (Whole c) Absent (Whole (if withheld c d d' then d else d')) Absent img → ψ img) →
  shape (Whole c) Absent (Whole d) sd now → now !! STAGED_DELIVERY_RECOVERY_DOCUMENT ≠ None → synced now w →
  wp (recover_beside_delivery self d (Some d') (Some c) None)
    (ensures (images ψ) (λ _ w', ∃ now', synced now' w' ∧
       shape (Whole c) Absent (Whole (if withheld c d d' then d else d')) Absent now')) w.
Proof.
  unfold withheld. intros Hsd H1 H2 Hsh Hsome Hs.
  assert (images ψ w) as Hstay by (by eapply stay; [apply H1|]).
  unfold recover_beside_delivery. apply wp_bind_ok.
  destruct (lifecycle_resolution d') as [r|] eqn:Hr; [|done].
  destruct (is_lifecycle_resolution_of d' d (lr_prior_catalog r)) eqn:Hof; simpl in H2 |- *.
  - eapply wp_bind with (R := λ o w', o = Some d' ∧ w' = w); [apply wp_bind_ok; by rewrite Hof|].
    intros ? ? [-> ->]. unfold recover_lifecycle_resolution. rewrite Hr. apply wp_bind_ok.
    destruct (matches_catalog d c); destruct (resolution_matches_catalog r c); simpl in H2 |- *; [..|done].
    + by eapply wp_sync_publish_delivery.
    + by eapply wp_unlink_delivery_stage; [apply H1|..].
    + by apply wp_bind_ok; eapply wp_sync_publish_delivery.
  - eapply wp_bind with (R := λ o w', o = None ∧ w' = w); [apply wp_bind_ok; by rewrite Hof|].
    intros ? ? [-> ->]. case_match; [done|]. simpl.
    eapply wp_ensures; [by eapply (wp_recover_delivery _ _ (Some d))|done|].
    intros ? w1 (now' & Hs' & [[? _]|Hsh']); [done|eauto].
Qed.

(** Nothing staged: nothing is done. *)
Lemma wp_reconcile_idle c d now w :
  ψ now → shape (whole_or_absent c) Absent (whole_or_absent d) Absent now → synced now w →
  wp (recover_scale_set_reconcile_transaction_locked self) (ensures (images ψ) (λ _, synced now)) w.
Proof.
  intros Hnow Hsh Hs. apply (wp_recover_reads _ now); [done..|].
  intros cc sc cd sd w' Hs' _ Hsc Hcd Hsd. apply (read_absent _ _ _ (sh_sc _ _ _ _ _ Hsh)) in Hsc as ->.
  apply (read_absent _ _ _ (sh_sd _ _ _ _ _ Hsh)) in Hsd as ->. pose proof (sh_cd _ _ _ _ _ Hsh) as Hd.
  destruct d as [d|]; cbn [whole_or_absent] in Hd.
  - apply (read_whole _ _ _ _ Hd) in Hcd as ->.
    eapply wp_ensures; [by apply wp_beside_unstaged|done|by intros ? ? []].
  - by apply (read_absent _ _ _ Hd) in Hcd as ->.
Qed.

(** What a stage of the recovery document beside the catalog [c] is made of. *)
Definition stage_verdict (c : catalog_doc) (d : option recovery_doc) (d' : recovery_doc) : option recovery_doc :=
  match d with
  | Some s => Some (if withheld c s d' then s else d')
  | None => if matches_catalog d' c then Some d' else None
  end.

Lemma wp_reconcile_step c d sd d' now w :
  stage_of d' sd → (∀ img, shape (Whole c) Absent (whole_or_absent d) sd img → ψ img) →
  (∀ img, shape (Whole c) Absent (whole_or_absent (stage_verdict c d d')) Absent img → ψ img) →
  shape (Whole c) Absent (whole_or_absent d) sd now → synced now w →
  wp (recover_scale_set_reconcile_transaction_locked self)
    (ensures (images ψ) (λ _ w', ∃ now', synced now' w' ∧
       (now !! STAGED_DELIVERY_RECOVERY_DOCUMENT = None ∧ now' = now ∨
        shape (Whole c) Absent (whole_or_absent (stage_verdict c d d')) Absent now'))) w.
Proof.
  intros Hsd H1 H2 Hsh Hs. destruct (now !! STAGED_DELIVERY_RECOVERY_DOCUMENT) as [f|] eqn:Hf.
  2: { assert (shape (Whole c) Absent (whole_or_absent d) Absent now) as Hsh' by by destruct Hsh.
       eapply wp_ensures; [by eapply (wp_reconcile_idle (Some c)); [apply H1|..]|done|].
       intros ? w' Hs'. exists now. auto. }
  apply (wp_recover_reads _ now); [by apply H1|done|]. intros cc sc cd sd' w' Hs' Hcc Hsc Hcd Hsd'.
  apply (read_whole _ _ _ _ (sh_cc _ _ _ _ _ Hsh)) in Hcc as ->.
  apply (read_absent _ _ _ (sh_sc _ _ _ _ _ Hsh)) in Hsc as ->.
  apply (read_torn _ _ _ _ (stage_torn _ _ _ _ Hsd (sh_sd _ _ _ _ _ Hsh))) in Hsd' as [[_ Hno]|[-> _]]; [congruence|].
  pose proof (sh_cd _ _ _ _ _ Hsh) as Hd. destruct d as [d|]; cbn [whole_or_absent stage_verdict] in *.
  - apply (read_whole _ _ _ _ Hd) in Hcd as ->.
    eapply wp_ensures; [by eapply wp_beside_staged; [..|rewrite Hf|]|done|]. naive_solver.
  - apply (read_absent _ _ _ Hd) in Hcd as ->. eapply wp_ensures; [eapply wp_first_alone; [done| | |done|done]|done|].
    + done.
    + by destruct (matches_catalog d' c).
    + intros ? w1 (now' & Hs1 & Hsh1). exists now'. split; [done|]. right. by destruct (matches_catalog d' c).
Qed.

(** Both documents of a pair are staged, the catalog in part at most. *)
Lemma wp_reconcile_both c d c' d' now w :
  pair_ok c d c' d' → (∀ img, tx_img (TxPair c d c' d') img → ψ img) →
  shape (Whole c) (Torn c') (whole_or_absent d) (Whole d') now → synced now w →
  now !! STAGED_CATALOG_DOCUMENT ≠ None →
  wp (recover_scale_set_reconcile_transaction_locked self)
    (ensures (images ψ) (λ _ w', ∃ now', synced now' w' ∧ shape (Whole c') Absent (Whole d') Absent now')) w.
Proof.
  intros (Hm' & Hm & Hr) Hψ Hsh Hs Hsome. assert (ψ now) as Hnow by (apply Hψ; simpl; auto).
  assert (∀ no_replace w, synced now w →
    wp (_ ← synchronize_existing_scale_set_delivery_stage self d';
        _ ← failing reconcile_catalog_error (synchronize_existing_catalog_stage self c');
        _ ← publish_existing_catalog_stage false; publish_existing_delivery_stage no_replace)
    (ensures (images ψ) (λ _ w', ∃ now', synced now' w' ∧ shape (Whole c') Absent (Whole d') Absent now')) w) as Hboth.
  { intros. eapply wp_both_stages; [by right|..|exact Hsh|done]; intros; apply Hψ; simpl; auto. }
  apply (wp_recover_reads _ now); [done..|]. intros cc sc cd sd w' Hs' Hcc Hsc Hcd Hsd.
  apply (read_whole _ _ _ _ (sh_cc _ _ _ _ _ Hsh)) in Hcc as ->.
  apply (read_torn _ _ _ _ (sh_sc _ _ _ _ _ Hsh)) in Hsc as [[_ ?]|[-> _]]; [done|].
  apply (read_whole _ _ _ _ (sh_sd _ _ _ _ _ Hsh)) in Hsd as ->.
  pose proof (sh_cd _ _ _ _ _ Hsh) as Hd. destruct d as [d|]; cbn [whole_or_absent] in *.
  - apply (read_whole _ _ _ _ Hd) in Hcd as ->. destruct Hr as (r & Hr & Hof & Hdc & _ & Hrc' & _).
    apply wp_bind_ok. eapply wp_bind with (R := λ o w1, o = Some d' ∧ w1 = w').
    { rewrite Hr. apply wp_bind_ok. by rewrite Hof. }
    intros ? ? [-> ->]. unfold recover_lifecycle_resolution. rewrite Hr, Hdc. apply wp_bind_ok.
    rewrite Hrc'. by apply Hboth.
  - apply (read_absent _ _ _ Hd) in Hcd as ->. unfold recover_first_delivery.
    case_match; [by eapply stay|]. apply wp_bind_ok. rewrite Hm. cbn [andb].
    case_match; [by eapply stay|by apply Hboth].
Qed.

Lemma verdict_keeps c d c' d' : pair_ok c d c' d' → stage_verdict c d d' = d.
Proof.
  intros (Hm' & Hm & Hr). destruct d as [s|]; simpl; [|by rewrite Hm].
  destruct Hr as (r & Hr & Hof & Hsc & _ & _ & Hrc). unfold withheld. by rewrite Hr, Hof, Hsc, Hrc.
Qed.

Lemma verdict_publishes c d c' d' : pair_ok c d c' d' → stage_verdict c' d d' = Some d'.
Proof.
  intros (Hm' & Hm & Hr). destruct d as [s|]; simpl; [|by rewrite Hm'].
  destruct Hr as (r & Hr & Hof & _ & Hsc' & _). unfold withheld. by rewrite Hr, Hof, Hsc'.
Qed.

Lemma wp_reconcile_pair c d c' d' now w :
  pair_ok c d c' d' → (∀ img, tx_img (TxPair c d c' d') img → ψ img) → tx_img (TxPair c d c' d') now →
  synced now w →
  wp (recover_scale_set_reconcile_transaction_locked self)
    (ensures (images ψ) (λ _ w', at_rest (Some c) d w' ∨ at_rest (Some c') (Some d') w')) w.
Proof.
  intros Hok Hψ Himg Hs.
  assert (∀ sd, stage_of d' sd → (∀ img, shape (Whole c) Absent (whole_or_absent d) sd img →
      shape (Whole c) Absent (whole_or_absent d) (Torn d') img)) as Hweak.
  { intros sd Hsd img []. split; [done..|]. by eapply stage_torn. }
  assert (∀ sd, stage_of d' sd → shape (Whole c) Absent (whole_or_absent d) sd now →
    wp (recover_scale_set_reconcile_transaction_locked self)
      (ensures (images ψ) (λ _ w', at_rest (Some c) d w' ∨ at_rest (Some c') (Some d') w')) w) as Hback.
  { intros sd Hsd Hsh. eapply wp_ensures; [eapply (wp_reconcile_step c d sd d')|done|]; [done| | |exact Hsh|done|].
    - intros img Hi. apply Hψ. simpl. eauto.
    - rewrite (verdict_keeps _ _ _ _ Hok). intros img []. apply Hψ. left. split; [done..|]. by apply absent_torn.
    - rewrite (verdict_keeps _ _ _ _ Hok). intros ? w' (now' & Hs' & [[Hno ->]|Hsh']); left; eexists; (split; [done|]); [|done].
      destruct Hsh. by split. }
  destruct Himg as [Hsh|[Hsh|[Hsh|Hsh]]].
  - eapply (Hback (Torn d')); [by left|done].
  - destruct (decide (now !! STAGED_CATALOG_DOCUMENT = None)) as [Hno|Hsome].
    + eapply (Hback (Whole d')); [by right|]. destruct Hsh. by split.
    + eapply wp_ensures; [by eapply wp_reconcile_both|done|]. intros ? w' (now' & ? & ?). right. by exists now'.
  - eapply wp_ensures; [eapply (wp_reconcile_step c' d (Whole d') d')|done|]; [by right| | |exact Hsh|done|].
    + intros img Hi. apply Hψ. simpl. eauto.
    + rewrite (verdict_publishes _ _ _ _ Hok). intros img Hi. apply Hψ. simpl. eauto.
    + rewrite (verdict_publishes _ _ _ _ Hok). intros ? w' (now' & Hs' & [[Hno _]|Hsh']); [|right; by exists now'].
      destruct (sh_sd _ _ _ _ _ Hsh) as (f & ? & Hf & _). congruence.
  - eapply wp_ensures; [eapply (wp_reconcile_idle (Some c') (Some d') now); [|done..]|done|].
    + apply Hψ. simpl. eauto.
    + intros ? w' Hs'. right. by exists now.
Qed.

Lemma wp_reconcile_catalog c c' now w :
  (∀ img, tx_img (TxCatalog c c') img → ψ img) → tx_img (TxCatalog c c') now → synced now w →
  wp (recover_scale_set_reconcile_transaction_locked self)
    (ensures (images ψ) (λ _ w', at_rest c None w' ∨ at_rest (Some c') None w')) w.
Proof.
  intros Hψ Himg Hs. destruct Himg as [Hsh|Hsh].
  2: { eapply wp_ensures; [eapply (wp_reconcile_idle (Some c') None now); [|done..]|done|].
       - apply Hψ. by right.
       - intros ? w' Hs'. right. by exists now. }
  assert (ψ now) as Hnow by (apply Hψ; by left).
  apply (wp_recover_reads _ now); [done..|]. intros cc sc cd sd w' Hs' Hcc Hsc Hcd Hsd.
  apply (read_absent _ _ _ (sh_cd _ _ _ _ _ Hsh)) in Hcd as ->.
  apply (read_absent _ _ _ (sh_sd _ _ _ _ _ Hsh)) in Hsd as ->.
  destruct sc as [c0|]; simpl.
  - apply wp_failing. eapply wp_ensures; [eapply wp_recover_catalog; [..|exact Hsh|done]|done|].
    + intros img Hi. apply Hψ. by left.
    + intros img Hi. apply Hψ. by right.
    + intros ? w1 (now' & Hs1 & [Hsh1|Hsh1]); [left|right]; by exists now'.
  - left. exists now. split; [done|]. destruct Hsh. by split.
Qed.

Lemma verdict_cases c d d' : stage_verdict c d d' = d ∨ stage_verdict c d d' = Some d'.
Proof. destruct d; simpl; case_match; auto. Qed.

Lemma wp_reconcile_alone c d d' now w :
  (∀ img, tx_img (TxStep c d d') img → ψ img) → tx_img (TxStep c d d') now → synced now w →
  wp (recover_scale_set_reconcile_transaction_locked self)
    (ensures (images ψ) (λ _ w', at_rest (Some c) d w' ∨ at_rest (Some c) (Some d') w')) w.
Proof.
  intros Hψ [Hsh|Hsh] Hs.
  - eapply wp_ensures; [eapply (wp_reconcile_step c d (Torn d') d')|done|]; [by left| | |exact Hsh|done|].
    + intros img Hi. apply Hψ. by left.
    + intros img Hi. apply Hψ. destruct (verdict_cases c d d') as [E|E]; rewrite E in Hi; [left|by right].
      destruct Hi. split; [done..|]. by apply absent_torn.
    + intros ? w' (now' & Hs' & [[Hno ->]|Hsh']).
      * left. exists now. split; [done|]. destruct Hsh. by split.
      * destruct (verdict_cases c d d') as [E|E]; rewrite E in Hsh'; [left|right]; by exists now'.
  - eapply wp_ensures; [eapply (wp_reconcile_idle (Some c) (Some d') now); [|done..]|done|].
    + apply Hψ. by right.
    + intros ? w' Hs'. right. by exists now.
Qed.

(** The recovery of the controller, for everything but a settlement. *)
Lemma wp_recover_reconcile t now w :
  tx_ok t → (∀ c d c' p, t ≠ TxSettle c d c' p) → (∀ img, tx_img t img → ψ img) → tx_img t now → synced now w →
  wp (recover_scale_set_reconcile_transaction_locked self)
    (ensures (images ψ) (λ _ w', ∃ e, e ∈ tx_ends t ∧ at_rest e.1 e.2 w')) w.
Proof.
  intros Hok Hns Hψ Himg Hs. destruct t as [c d|c c'|c d d'|c d c' d'|]; [..|by destruct (Hns c d c' p)].
  - eapply wp_ensures; [eapply (wp_reconcile_idle c d now); [by apply Hψ|done..]|done|].
    intros ? w' Hs'. exists (c, d). split; [set_solver|]. by exists now.
  - eapply wp_ensures; [by eapply wp_reconcile_catalog|done|].
    intros ? w' [H|H]; [exists (c, None)|exists (Some c', None)]; set_solver.
  - eapply wp_ensures; [by eapply wp_reconcile_alone|done|].
    intros ? w' [H|H]; [exists (Some c, d)|exists (Some c, Some d')]; set_solver.
  - eapply wp_ensures; [eapply wp_reconcile_pair; [apply Hok|done..]|done|].
    intros ? w' [H|H]; [exists (Some c, d)|exists (Some c', Some d')]; set_solver.
Qed.

(** ** Settlement *)

(** Removing the prepared settlement once its catalog is current. *)
Lemma wp_remove_settled cc sc sd d e now w :
  ψ now → (∀ img, shape cc sc Absent sd img → ψ img) → shape cc sc (Whole d) sd now → synced now w →
  wp (remove_settled_delivery self e)
    (ensures (images ψ) (λ _ w', e = d ∧ ∃ now', synced now' w' ∧ shape cc sc Absent sd now')) w.
Proof.
  intros Hnow Hψ Hsh Hs. pose proof (shape_delete_cd _ _ _ _ _ Hsh) as Hdel.
  eapply wp_bind; [by apply wp_load_delivery_rest|]. intros found w1 [Hs1 Hr].
  apply (read_whole _ _ _ _ (sh_cd _ _ _ _ _ Hsh)) in Hr as ->. apply wp_bind_ok.
  case_match eqn:Hg; [by eapply stay|]. apply orb_false_iff in Hg as [Hne _]. bprop. subst e.
  eapply wp_bind with (R := λ _, St (delete DELIVERY_RECOVERY_DOCUMENT now) ψ).
  { apply wp_failing. eapply wp_mono; [by eapply (wp_unlink_in ψ (λ _, False)); [|apply Hψ|..]|].
    intros [[u|err|]|] w2 Hw2; simpl; [by destruct Hw2| |done|by eapply stay].
    eapply stay; [exact Hnow|]. by destruct err; destruct_and?. }
  intros ? w2 Hst2. eapply wp_ensures; [by apply (wp_sync_in ψ ψ (λ _ H, H)); [apply Hψ|]|done|].
  intros ? w3 Hs3. split; [done|]. eexists. split; [exact Hs3|done].
Qed.

Lemma wp_finish_settlement c p e target now w :
  ψ now → (∀ img, shape (Whole c) Absent Absent Absent img → ψ img) →
  shape (Whole c) Absent (Whole p) Absent now → synced now w →
  wp (finish_recovered_settlement self e target)
    (ensures (images ψ) (λ o w', (∃ n, o = Some (mkSettlement target p n)) ∧ at_rest (Some c) None w')) w.
Proof.
  intros Hnow Hψ Hsh Hs. apply wp_bind_lift; [by eapply stay|]. intros acquired _.
  eapply wp_bind; [by eapply wp_remove_settled|]. intros ? w1 (-> & now' & Hs' & Hsh').
  split; [by eexists|]. by exists now'.
Qed.

Section settlement.
Context (c c' : catalog_doc) (d p : recovery_doc).
Context (Hok : settle_ok c d c' p) (Hψ : ∀ img, tx_img (TxSettle c d c' p) img → ψ img)
  (Hclosed : closed_under STAGED_CATALOG_DOCUMENT ψ).

(** The catalog of a prepared settlement is published, from its stage or
    again. *)
Lemma wp_publish_settlement_catalog sc now w :
  shape (Whole c) (Torn c') (Whole p) Absent now → read_as STAGED_CATALOG_DOCUMENT sc now → synced now w →
  wp (publish_settlement_catalog self p c sc)
    (ensures (images ψ) (λ target w', target = c' ∧
       ∃ now', synced now' w' ∧ shape (Whole c') Absent (Whole p) Absent now')) w.
Proof.
  intros Hsh Hsc Hs. destruct Hok as (Hd & Hp & Hm & Hset & Hdiff).
  assert (ψ now) as Hnow by (apply Hψ; right; by left).
  assert (∀ img, shape (Whole c) (Torn c') (Whole p) Absent img → ψ img) as H2 by (intros; apply Hψ; simpl; auto).
  assert (∀ img, shape (Whole c') Absent (Whole p) Absent img → ψ img) as H3 by (intros; apply Hψ; simpl; auto).
  unfold publish_settlement_catalog. rewrite Hset. apply wp_bind_ok.
  destruct (negb (matches_settlement_catalog p c')); [by eapply stay|].
  eapply wp_bind with (R := λ _ w', ∃ now', synced now' w' ∧ shape (Whole c') Absent (Whole p) Absent now').
  2: { intros ? w' H'. by split. }
  apply (read_torn _ _ _ _ (sh_sc _ _ _ _ _ Hsh)) in Hsc as [[-> Hno]|[-> _]].
  - assert (shape (Whole c) Absent (Whole p) Absent now) as Hsh' by by destruct Hsh.
    case_match eqn:Hne; bprop; [|subst c'; by exists now].
    eapply wp_bind; [by apply wp_failing; eapply (wp_stage_catalog self ψ (λ _, False))|].
    intros sg w1 (-> & now1 & Hst1 & Hsh1 & Hnow1).
    eapply wp_bind; [apply wp_unless_ok_in; [done|by apply (wp_sync_in ψ ψ (λ _ H, H))]|].
    intros ? w2 Hs2. by eapply (wp_publish_catalog ψ (λ _, False)).
  - case_match eqn:Hne; bprop.
    + rewrite bool_decide_true by done. eapply wp_bind.
      { apply wp_failing. by eapply (wp_sync_catalog_stage self ψ (λ _, False)). }
      intros ? w1 (_ & now1 & Hs1 & Hsh1). eapply wp_publish_existing_catalog; [|done..].
      apply H2. destruct Hsh1. split; [done| |done..]. by apply whole_torn.
    + subst c'. apply wp_failing. by eapply wp_remove_catalog_stage.
Qed.

(** A prepared settlement is completed. *)
Lemma wp_complete_settlement now w :
  shape (Whole c) (Torn c') (Whole p) Absent now ∨ shape (Whole c') Absent (Whole p) Absent now →
  synced now w →
  wp (complete_settlement self)
    (ensures (images ψ) (λ o w', (∃ n, o = Some (mkSettlement c' p n)) ∧ at_rest (Some c') None w')) w.
Proof.
  intros Hsh Hs. destruct Hok as (Hd & Hp & Hm & Hset & Hdiff).
  assert (ψ now) as Hnow by (apply Hψ; simpl; tauto).
  assert (∀ img, shape (Whole c') Absent (Whole p) Absent img → ψ img) as H3 by (intros; apply Hψ; simpl; auto).
  assert (∀ img, shape (Whole c') Absent Absent Absent img → ψ img) as H4 by (intros; apply Hψ; simpl; auto).
  assert (slot_at DELIVERY_RECOVERY_DOCUMENT (Whole p) now) as Hcd by by destruct Hsh as [[]|[]].
  eapply wp_bind; [by apply wp_load_delivery_rest|]. intros found w1 [Hs1 Hr].
  apply (read_whole _ _ _ _ Hcd) in Hr as ->. apply wp_bind_ok. unfold prepared in Hp. rewrite Hp. cbn [negb].
  eapply wp_bind; [by apply wp_failing, wp_load_catalog_rest|]. intros occ w2 [Hs2 Hcc].
  apply wp_bind_lift; [by eapply stay|]. intros cc ->%ok_or_Ok.
  eapply wp_bind; [by apply wp_failing, wp_load_catalog_rest|]. intros sc w3 [Hs3 Hsc].
  eapply wp_bind with (R := λ target w', target = c' ∧
       ∃ now', synced now' w' ∧ shape (Whole c') Absent (Whole p) Absent now').
  2: { intros ? w4 (-> & now4 & Hs4 & Hsh4). by eapply wp_finish_settlement; [apply H3|..]. }
  destruct Hsh as [Hsh|Hsh]; apply (read_whole _ _ _ _ (sh_cc _ _ _ _ _ Hsh)) in Hcc; injection Hcc as Hcc.
  - rewrite Hcc, Hm. by eapply wp_publish_settlement_catalog.
  - destruct Hdiff as [Heq|Hm'].
    + assert (cc = c) as -> by congruence. rewrite Hm. eapply wp_publish_settlement_catalog; [|done..].
      rewrite Heq in Hsh. destruct Hsh. split; [done| |done..]. by apply absent_torn.
    + rewrite Hcc, Hm'. apply (read_absent _ _ _ (sh_sc _ _ _ _ _ Hsh)) in Hsc as ->.
      case_match; [|by eapply stay]. apply wp_bind_lift; [by eapply stay|]. intros prior _.
      apply wp_bind_lift; [by eapply stay|]. intros derived _. case_match; [by eapply stay|].
      apply wp_bind_ok. split; [done|]. by exists now.
Qed.

Lemma wp_settlement_found (sd : option recovery_doc) now w :
  match sd with
  | Some _ => shape (Whole c) (Torn c') (Whole d) (Torn p) now ∧ now !! STAGED_DELIVERY_RECOVERY_DOCUMENT ≠ None
  | None => shape (Whole c) (Torn c') (Whole p) Absent now ∨ shape (Whole c') Absent (Whole p) Absent now
  end → synced now w →
  wp (_ ← refuse_pending_worker_recovery self "personal-worker recovery conflicts with Scale Set settlement";
      _ ← disposable_template_generation_refuse_unsettled self;
      _ ← refuse_unsettled_lima_authority self;
      _ ← (if is_some sd then recover_scale_set_delivery_locked self else mret ());
      complete_settlement self)
    (ensures (images ψ) (λ o w', (∃ n, o = Some (mkSettlement c' p n)) ∧ at_rest (Some c') None w')) w.
Proof.
  intros Hsh Hs. assert (ψ now) as Hnow by (apply Hψ; destruct sd; simpl; tauto).
  do 3 (eapply wp_bind; [by apply wp_quiet_rest; [solve_quiet|..]|]; simpl; intros ? ? ?).
  destruct sd as [x|]; simpl.
  - destruct Hsh as [Hsh Hno]. eapply wp_bind.
    { eapply (wp_recover_delivery (Whole c) (Torn c') (Some d)); [by left|..|exact Hsh|done];
        intros; apply Hψ; simpl; auto. }
    intros ? w1 (now' & Hs' & [[? _]|Hsh']); [done|]. eapply wp_complete_settlement; [by left|done].
  - apply wp_bind_ok. by eapply wp_complete_settlement.
Qed.

(** An interrupted settlement is completed, unless it was not prepared yet or
    is over already. *)
Lemma wp_recover_settlement now w :
  tx_img (TxSettle c d c' p) now → synced now w →
  wp (recover_scale_set_settlement_locked self)
    (ensures (images ψ) (λ o w',
       match o with
       | Some settled => (∃ n, settled = mkSettlement c' p n) ∧ at_rest (Some c') None w'
       | None => synced now w' ∧ (shape (Whole c) (Torn c') (Whole d) Absent now ∨
                                  shape (Whole c') Absent Absent Absent now)
       end)) w.
Proof.
  intros Himg Hs. pose proof Hok as (Hd & Hp & _). unfold prepared in Hd, Hp.
  assert (ψ now) as Hnow by by apply Hψ.
  eapply wp_bind; [by apply wp_load_delivery_rest|]. intros cd w1 [Hs1 Hcd].
  eapply wp_bind; [by apply wp_load_delivery_rest|]. intros sd w2 [Hs2 Hsd].
  destruct Himg as [Hsh|[Hsh|[Hsh|Hsh]]].
  1: apply (read_whole _ _ _ _ (sh_cd _ _ _ _ _ Hsh)) in Hcd as ->;
    apply (read_torn _ _ _ _ (sh_sd _ _ _ _ _ Hsh)) in Hsd as [[-> Hno]|[-> (f & ? & Hf & _)]]; simpl; rewrite Hd.
  2-4: rewrite ?Hp.
  - simpl. split; [done|]. left. destruct Hsh. by split.
  - eapply wp_ensures; [apply (wp_settlement_found (Some p) now); [|done]|done|].
    + split; [done|]. by rewrite Hf.
    + intros ? ? [[n ->] Hr]. eauto.
  - apply (read_whole _ _ _ _ (sh_cd _ _ _ _ _ Hsh)) in Hcd as ->.
    apply (read_absent _ _ _ (sh_sd _ _ _ _ _ Hsh)) in Hsd as ->. simpl. rewrite Hp.
    eapply wp_ensures; [apply (wp_settlement_found None now); auto|done|]. intros ? ? [[n ->] Hr]. eauto.
  - apply (read_whole _ _ _ _ (sh_cd _ _ _ _ _ Hsh)) in Hcd as ->.
    apply (read_absent _ _ _ (sh_sd _ _ _ _ _ Hsh)) in Hsd as ->. simpl. rewrite Hp.
    eapply wp_ensures; [apply (wp_settlement_found None now); auto|done|]. intros ? ? [[n ->] Hr]. eauto.
  - apply (read_absent _ _ _ (sh_cd _ _ _ _ _ Hsh)) in Hcd as ->.
    apply (read_absent _ _ _ (sh_sd _ _ _ _ _ Hsh)) in Hsd as ->. split; [done|by right].
Qed.
End settlement.
End at_directories.

(** ** The recovery of the controller *)

Lemma settle_closed c d c' p : closed_under STAGED_CATALOG_DOCUMENT (tx_img (TxSettle c d c' p)).
Proof.
  assert (∀ x, slot_at STAGED_CATALOG_DOCUMENT Absent x → slot_at STAGED_CATALOG_DOCUMENT (Torn c') x) as Ht
    by (intros; by apply absent_torn).
  intros img Himg. simpl in Himg |- *.
  destruct Himg as [H|[H|[H|H]]]; apply shape_delete_sc in H; [left|right; left|by auto..];
    destruct H; (split; [done| |done..]); by apply Ht.
Qed.

(** A document that is read is not a prepared settlement, unless one is under
    way. *)
Lemma tx_unprepared t now name o :
  tx_ok t → (∀ c d c' p, t ≠ TxSettle c d c' p) → tx_img t now →
  name = DELIVERY_RECOVERY_DOCUMENT ∨ name = STAGED_DELIVERY_RECOVERY_DOCUMENT →
  read_as name o now → is_some_and (λ state, is_settlement_prepared (rs_phase state)) o = false.
Proof.
  intros Hok Hns Himg Hname Hread. destruct o as [s|]; [|done]. simpl. fold (prepared s).
  assert (∀ x, slot_at name (Whole x) now → s = x) as Hw.
  { intros x Hx. pose proof (read_whole _ _ _ _ Hx Hread). congruence. }
  assert (∀ x, slot_at name (Torn x) now → s = x) as Ht.
  { intros x Hx. destruct (read_torn _ _ _ _ Hx Hread) as [[? _]|[? _]]; congruence. }
  assert (slot_at (D := recovery_doc) name Absent now → False) as Ha.
  { intros Hx. by pose proof (read_absent _ _ _ Hx Hread). }
  assert (∀ od : option recovery_doc, slot_at name (whole_or_absent od) now → od = Some s) as Ho.
  { intros [x|] Hx; [by rewrite (Hw x)|by destruct Ha]. }
  destruct t as [c d|c c'|c d d'|c d c' d'|]; simpl in Hok, Himg; [..|by edestruct Hns];
    destruct Hname as [-> | ->]; repeat destruct_or?; destruct Himg as [_ _ Hcd Hsd]; try done; eauto.
  all: try (apply Ho in Hcd as ->; by apply Hok).
  all: try (apply Hw in Hcd as ->; by apply Hok).
  all: try (apply Hw in Hsd as ->; by apply Hok).
  all: try (apply Ht in Hsd as ->; by apply Hok).
Qed.

(** Nothing is settled unless a settlement is under way. *)
Lemma wp_settlement_none ψ now w :
  (∀ name o, name = DELIVERY_RECOVERY_DOCUMENT ∨ name = STAGED_DELIVERY_RECOVERY_DOCUMENT →
     read_as name o now → is_some_and (λ state, is_settlement_prepared (rs_phase state)) o = false) →
  ψ now → synced now w →
  wp (recover_scale_set_settlement_locked self) (ensures (images ψ) (λ o w', o = None ∧ synced now w')) w.
Proof.
  intros Hun Hnow Hs.
  eapply wp_bind; [by apply wp_load_delivery_rest|]. intros cd w1 [Hs1 Hcd].
  eapply wp_bind; [by apply wp_load_delivery_rest|]. intros sd w2 [Hs2 Hsd].
  simpl. rewrite (Hun _ cd (or_introl eq_refl) Hcd). by rewrite (Hun _ sd (or_intror eq_refl) Hsd).
Qed.

Lemma wp_recover_controller t now w :
  tx_ok t → tx_img t now → synced now w →
  wp (_ ← recover_scale_set_settlement_locked self; recover_scale_set_reconcile_transaction_locked self)
    (ensures (images (tx_img t)) (λ _ w', ∃ e, e ∈ tx_ends t ∧ at_rest e.1 e.2 w')) w.
Proof.
  intros Hok Himg Hs. destruct (match t with TxSettle _ _ _ _ => true | _ => false end) eqn:Ht.
  - destruct t as [| | | |c d c' p]; try done. eapply wp_bind.
    { by eapply (wp_recover_settlement (tx_img _) c c' d p); [..|apply settle_closed| |]. }
    intros [settled|] w1 H1.
    + destruct H1 as [_ (now1 & Hs1 & Hsh1)].
      eapply wp_ensures; [eapply (wp_reconcile_idle (tx_img (TxSettle c d c' p)) (Some c') None); [do 3 right; exact Hsh1|done..]|done|].
      intros ? w2 Hs2. exists (Some c', None). split; [set_solver|]. by exists now1.
    + destruct H1 as [Hs1 [Hsh|Hsh]].
      * apply (wp_recover_reads _ _ now); [done..|]. intros cc sc cd sd w2 Hs2 _ Hsc Hcd Hsd.
        apply (read_whole _ _ _ _ (sh_cd _ _ _ _ _ Hsh)) in Hcd as ->.
        apply (read_absent _ _ _ (sh_sd _ _ _ _ _ Hsh)) in Hsd as ->.
        eapply wp_ensures; [by apply (wp_beside_unstaged (tx_img (TxSettle c d c' p)))|done|]. intros ? w3 [Hs3 ->].
        exists (Some c, Some d). split; [set_solver|]. exists now. split; [done|]. destruct Hsh. by split.
      * eapply wp_ensures; [by eapply (wp_reconcile_idle (tx_img (TxSettle c d c' p)) (Some c') None)|done|].
        intros ? w2 Hs2. exists (Some c', None). split; [set_solver|]. by exists now.
  - assert (∀ c d c' p, t ≠ TxSettle c d c' p) as Hns by by intros ???? ->.
    eapply wp_bind; [apply wp_settlement_none; [intros ???; by eapply tx_unprepared|done..]|]. intros ? w1 [_ Hs1].
    by apply (wp_recover_reconcile (tx_img t) t now).
Qed.
End recovery.
