(* ===== verification/PairPublish.v ===== *)
(** * The transactions on the catalog and the recovery document

    Each publication of [DeliveryPair] leaves only directories of the
    transaction it carries out ([PairRecovery.tx_img]), and opening the
    controller turns any of those into one of its two ends. *)

From S2P Require Import Prelude WorkerQueue StoreWire WorkerStore StoreCodec FileSystem UnixStore UnixSteps.
From S2P Require Import UnixTheorems DiskLogic AttemptState WorkerReconciler AttemptCatalog CatalogSteps CatalogTheorems AttemptCodec.
From S2P Require Import CatalogCodec ScaleSetDelivery DeliveryConsumer DeliveryTheorems DeliveryRecovery RecoveryTheorems.
From S2P Require Import ExecutionAdmission SettlementTheorems RecoveryCodec CatalogDisk DeliveryDisk DeliveryPair PairSteps PairRecovery.

Local Open Scope N_scope.

(** ** Opening *)

(** Programs whose errors are all of a kind. *)
Definition errors_are {S E A} (P : E → Prop) (m : prog S E A) : Prop :=
  ∀ s, match (m s).2 with Done (Err e) => P e | _ => True end.

Lemma errors_bind {S E A B} (P : E → Prop) (m : prog S E A) (f : A → prog S E B) :
  errors_are P m → (∀ a, errors_are P (f a)) → errors_are P (m ≫= f).
Proof.
  intros Hm Hf s. specialize (Hm s). unfold mbind, io_bind, catch.
  destruct (m s) as [s' [[a|e|]|]]; try done. apply Hf.
Qed.

Lemma errors_failing {S E E' A} (P : E' → Prop) (f : E → E') (m : prog S E A) :
  (∀ e, P (f e)) → errors_are P (failing f m).
Proof. intros Hf s. unfold failing, catch. destruct (m s) as [s' [[a|e|]|]]; try done. apply Hf. Qed.

Lemma errors_lift {S E A} (P : E → Prop) (r : result E A) :
  (∀ e, r = Err e → P e) → errors_are (S := S) P (lift r).
Proof. intros Hr s. destruct r as [a|e|]; try done. by apply Hr. Qed.

Lemma errors_wp {S E A} (P : E → Prop) (m : prog S E A) w :
  errors_are P m → wp m (λ out _, ∀ e, out = Done (Err e) → P e) w.
Proof. intros Hm. specialize (Hm w). unfold wp. destruct (m w) as [w' out]. by intros e ->. Qed.

Definition not_missing (e : PersonalWorkerStoreError) : Prop := pse_kind e ≠ Missing.

Ltac solve_errors :=
  repeat first
    [ progress intros
    | apply errors_bind
    | apply errors_failing; intros []; done
    | apply errors_lift; by intros ? [= <-]
    | apply errors_lift; done
    | progress case_match ].

Section opening.
Context `{SER : !StoreSerde, DS : !DocumentSerde, LIMA : !LimaAuthorityReader, LAWS : CatalogSerdeLaws}
  {CUT : CatalogSerdeCut} `{DLAWS : DeliverySerdeLaws} {HASHER : Sha256Hasher} `{RLAWS : RecoverySerdeLaws}
  {INIT : StoreInitializer}.

Lemma open_existing_errors owner w :
  is_Some (w_dir w) →
  wp (open_existing_initialization_directory owner) (λ out _, ∀ e, out = Done (Err e) → not_missing e) w.
Proof.
  intros [st Hst]. apply wp_catch, wp_catch. apply wp_atomic.
  - intros script. simpl. rewrite Hst. destruct (st_type st); try (by intros ? [= <-]).
    apply wp_lift. cbn [map_err].
    apply errors_wp. solve_errors.
  - intros script []; by intros ? [= <-].
  - done.
Qed.

#[export] Instance quiet_open_existing owner : Quiet (open_existing_initialization_directory owner).
Proof. unfold open_existing_initialization_directory. solve_quiet. Qed.

#[export] Instance quiet_open_root : Quiet open_root.
Proof. unfold open_root. solve_quiet. Qed.

(** The managed directory that is there is opened as it is. *)
Lemma wp_open_directory owner w :
  is_Some (w_dir w) →
  wp (open_or_publish_initialization_directory owner)
    (λ out w', keeps w w' ∧ ∀ b, out = Done (Ok b) → b = false) w.
Proof.
  intros Hst. apply wp_catch. pose proof (open_existing_errors owner w Hst) as He.
  pose proof (quiet_open_existing owner w) as Hk. unfold wp in *.
  destruct (open_existing_initialization_directory owner w) as [w' [[u|e|]|]].
  - split; [done|]. by intros ? [= <-].
  - rewrite bool_decide_true by (by apply He). split; [done|]. by intros ? [= ].
  - split; [done|]. by intros ? [= ].
  - split; [done|]. by intros ? [= ].
Qed.

Lemma open_root_dir w : wp open_root (λ _ w', w_dir w' = w_dir w) w.
Proof.
  apply wp_catch, wp_catch, wp_atomic; intros script; [|done..]. simpl.
  destruct (w_root w) as [st|] eqn:Hr; [|done]. destruct (st_type st); try done. apply wp_lift. cbn [map_err].
  apply wp_catch, wp_catch, wp_catch, wp_atomic; intros script'; [|done..]. simpl. rewrite Hr. simpl.
  apply wp_lift. cbn [map_err]. repeat case_match; done.
Qed.

(** Opening a store whose directory exists. *)
Lemma wp_open_store ψ body (Q : World → Prop) w :
  is_Some (w_dir w) → images ψ w →
  (∀ w1 w2, Q w1 → keeps w1 w2 → Q w2) → (∀ w', Q w' → images ψ w') →
  (∀ store now w1, ψ now → synced now w1 → wp (body store) (ensures (images ψ) (λ _, Q)) w1) →
  wp (open_or_create_store body) (ensures (images ψ) (λ _, Q)) w.
Proof.
  intros Hdir Himg HQ HQψ Hbody.
  eapply wp_bind with (R := λ _ w', w_dir w' = w_dir w ∧ images ψ w').
  { pose proof (open_root_dir w) as H1. pose proof (quiet_open_root w) as H2. unfold wp in *.
    destruct (open_root w) as [w' out]. apply (keeps_images _ _ _ Himg) in H2. by destruct out as [[]|]. }
  intros owner w1 [Hdir1 Himg1]. rewrite <-Hdir1 in Hdir.
  eapply wp_bind with (R := λ b w', b = false ∧ images ψ w').
  { eapply wp_mono; [by apply wp_open_directory|]. intros out w' [Hk Hb].
    apply (keeps_images _ _ _ Himg1) in Hk. destruct out as [[b|e|]|]; simpl; auto. }
  intros ? w2 [-> Himg2]. pose proof (images_St _ _ Himg2) as Hst. destruct Himg2 as [Hnow2 _].
  eapply wp_bind with (R := λ _, Q); [|done]. cbn [with_opener_lock].
  eapply wp_locked_in; [done|exact Hnow2|exact Hst|by eauto|done|]. intros w3 Hst3.
  eapply wp_bind; [by apply (wp_quiet_in ψ ψ (λ _ H, H)); [solve_quiet|..]|]. intros ? w4 Hst4. simpl in Hst4.
  eapply wp_bind; [by apply (wp_sync_in ψ ψ (λ _ H, H))|]. intros ? w5 Hs5. by eapply Hbody.
Qed.

(** Either end of a transaction is a directory of it. *)
Lemma ends_img t e img : e ∈ tx_ends t → tx_img (TxIdle e.1 e.2) img → tx_img t img.
Proof.
  assert (∀ c d, shape (whole_or_absent c) Absent (whole_or_absent d) Absent img →
    ∀ d', shape (whole_or_absent c) Absent (whole_or_absent d) (Torn d') img) as Hsd.
  { intros c d [] d'. split; [done..|]. by apply absent_torn. }
  intros He Himg. destruct t as [c d|c c'|c d d'|c d c' d'|c d c' p]; simpl in *;
    repeat (apply elem_of_cons in He as [->|He]; simpl in Himg); try (by apply elem_of_nil in He); auto.
  - left. destruct Himg. split; [done| |done..]. by apply absent_torn.
  - left. by apply (Hsd (Some c)).
  - left. by apply (Hsd (Some c)).
  - left. destruct Himg. split; [done| |done|]; by apply absent_torn.
Qed.

(** Opening the controller ends any transaction. *)
Lemma wp_open_controller t w :
  tx_ok t → is_Some (w_dir w) → images (tx_img t) w →
  wp open_or_create_scale_set_delivery_controller
    (ensures (images (tx_img t)) (λ _ w', ∃ e, e ∈ tx_ends t ∧ at_rest e.1 e.2 w')) w.
Proof.
  intros Hok Hdir Himg. apply wp_open_store; [done..| | |].
  - intros w1 w2 (e & He & Hr) Hk. exists e. split; [done|]. by eapply rest_keeps.
  - intros w' (e & He & Hr%rest_idle). eapply images_mono; [exact Hr|]. intros img. by apply ends_img.
  - intros store now w1 Hnow Hs. by eapply wp_recover_controller.
Qed.

(** Restarts and openings of the controller, in any number, each of which may
    be cut short. *)
Inductive reopened (w : World) : World → Prop :=
| reopened_not : reopened w w
| reopened_restart w1 w2 : reopened w w1 → restarts w1 w2 → reopened w w2
| reopened_open w1 : reopened w w1 → is_Some (w_dir w1) →
    reopened w (open_or_create_scale_set_delivery_controller w1).1.

Lemma reopened_images t w w' : tx_ok t → images (tx_img t) w → reopened w w' → images (tx_img t) w'.
Proof.
  intros Hok Himg H. induction H as [|w1 w2 _ IH Hr|w1 _ IH Hdir]; [done|..].
  - eapply restarts_images; [|exact IH|exact Hr]. intros. by apply tx_survives.
  - pose proof (wp_open_controller t w1 Hok Hdir IH) as H. unfold wp in H.
    destruct (open_or_create_scale_set_delivery_controller w1) as [w' [[a|e|]|]]; simpl in H |- *; try done.
    destruct H as (e & He & Hr%rest_idle). eapply images_mono; [exact Hr|]. intros img. by apply ends_img.
Qed.

(** After [w], whatever restarts and interrupted openings follow: once the
    controller is open the two documents are in one of [ends], durably, with
    nothing staged. *)
Definition settles_in (ends : list (option catalog_doc * option recovery_doc)) (w : World) : Prop :=
  ∀ w1 w2 store, reopened w w1 → is_Some (w_dir w1) →
    open_or_create_scale_set_delivery_controller w1 = (w2, Done (Ok store)) →
    ∃ e, e ∈ ends ∧ idle e.1 e.2 w2.

Lemma tx_settles t w : tx_ok t → images (tx_img t) w → settles_in (tx_ends t) w.
Proof.
  intros Hok Himg w1 w2 store Hre Hdir Hopen.
  pose proof (wp_open_controller t w1 Hok Hdir (reopened_images _ _ _ Hok Himg Hre)) as H.
  unfold wp in H. rewrite Hopen in H. destruct H as (e & He & Hr%rest_idle). by exists e.
Qed.
End opening.

(** ** Publishing *)

Section publishing.
Context `{SER : !StoreSerde, DS : !DocumentSerde, LIMA : !LimaAuthorityReader, LAWS : CatalogSerdeLaws}
  {CUT : CatalogSerdeCut} `{DLAWS : DeliverySerdeLaws} {HASHER : Sha256Hasher} `{RLAWS : RecoverySerdeLaws}
  (self : UnixPersonalWorkerStore).

(** The publication of a recovery document [d'] beside the catalog [c']. *)
Definition pair_tx (c : catalog_doc) (d : option recovery_doc) (c' : catalog_doc) (d' : recovery_doc) : tx :=
  if bool_decide (c' ≠ c) then TxPair c d c' d' else TxStep c d d'.

Lemma pair_tx_ends c d c' d' : tx_ends (pair_tx c d c' d') = [(Some c, d); (Some c', Some d')].
Proof. unfold pair_tx. case_bool_decide; [done|]. by subst. Qed.

Lemma pair_catalog_closed c d c' d' : closed_under STAGED_CATALOG_DOCUMENT (tx_img (TxPair c d c' d')).
Proof.
  intros img Himg. simpl in *.
  destruct Himg as [H|[H|[H|H]]]; apply shape_delete_sc in H; [by auto| |by auto..].
  right; left. destruct H. split; [done| |done..]. by apply absent_torn.
Qed.

Lemma step_closed c d d' : closed_under STAGED_DELIVERY_RECOVERY_DOCUMENT (tx_img (TxStep c d d')).
Proof.
  intros img Himg. simpl in *. destruct Himg as [H|H]; apply shape_delete_sd in H; [left|by right].
  destruct H. split; [done..|]. by apply absent_torn.
Qed.

(** Both documents, staged and published. *)
Lemma wp_publish_pair c d c' d' no_replace now w :
  shape (Whole c) Absent (whole_or_absent d) Absent now → synced now w →
  wp (publish_pair self c c' d' no_replace)
    (ensures (images (tx_img (pair_tx c d c' d'))) (λ _, at_rest (Some c') (Some d'))) w.
Proof.
  intros Hsh Hs. set (ψ1 img := shape (Whole c) Absent (whole_or_absent d) (Torn d') img).
  assert (∀ img, ψ1 img → tx_img (pair_tx c d c' d') img) as Hψ1.
  { intros img Hi. unfold pair_tx. case_match; by left. }
  assert (closed_under STAGED_DELIVERY_RECOVERY_DOCUMENT ψ1) as Hcl.
  { intros img Hi%shape_delete_sd. destruct Hi. split; [done..|]. by apply absent_torn. }
  assert (ψ1 now) as Hnow. { destruct Hsh. split; [done..|]. by apply absent_torn. }
  eapply wp_bind.
  { eapply wp_ensures; [by eapply (wp_stage_delivery self ψ1 (λ _, False))| |intros ? ? H; exact H].
    intros w' Hw'. by eapply images_mono. }
  intros sg w1 (-> & now1 & Hst1 & Hsh1 & Hnow1). unfold pair_tx in *.
  unfold publish_pair. destruct (bool_decide (c' ≠ c)) eqn:Hne; bprop.
  - assert (∀ img, shape (Whole c) (Torn c') (whole_or_absent d) (Whole d') img → tx_img (TxPair c d c' d') img) as H2
      by (simpl; auto).
    assert (∀ img, shape (Whole c') Absent (whole_or_absent d) (Whole d') img → tx_img (TxPair c d c' d') img) as H3
      by (simpl; auto).
    assert (∀ img, shape (Whole c') Absent (Whole d') Absent img → tx_img (TxPair c d c' d') img) as H4
      by (simpl; auto).
    eapply wp_bind.
    { eapply wp_ensures; [apply (wp_unless_ok_in ψ1); [done|by apply (wp_sync_in ψ1 ψ1 (λ _ H, H))]| |intros ? ? H; exact H].
      intros w' Hw'. by eapply images_mono. }
    intros ? w2 Hs2. simpl in Hs2. eapply wp_bind.
    { apply wp_failing. eapply (wp_stage_catalog self _ (λ _, False)); [done| |exact H2|exact Hsh1|exact Hs2].
      by apply Hψ1. }
    intros sg w3 (-> & now3 & Hst3 & Hsh3 & Hnow3). eapply wp_bind.
    { apply wp_unless_ok_in; [intros _; apply pair_catalog_closed|]. by apply (wp_sync_in _ _ (λ _ H, H)). }
    intros ? w4 Hs4. simpl in Hs4. eapply wp_bind.
    { by eapply (wp_publish_catalog _ (λ _, False)); [..|exact Hsh3|exact Hs4];
        [done|done|intros _; apply pair_catalog_closed|..]. }
    intros ? w5 (now5 & Hs5 & Hsh5).
    by eapply (wp_publish_delivery _ (λ _, False)); [done|done|done|exact H4|apply H3|exact Hsh5|exact Hs5].
  - subst c'. eapply (wp_publish_delivery _ ψ1); [exact Hψ1|done|intros _; apply step_closed|by right|by apply Hψ1|exact Hsh1|exact Hst1].
Qed.

(** The frame of every transaction on a directory with nothing staged: it takes
    the lock, makes the directory durable, runs [before] and goes on. *)
Lemma wp_transaction {A B} ψ c d (before : io PersonalWorkerStoreError A)
    (k : A → io PersonalWorkerStoreError B) (Q : B → World → Prop) P w :
  (∀ img, tx_img (TxIdle (Some c) d) img → ψ img) →
  (∀ b w1 w2, Q b w1 → keeps w1 w2 → Q b w2) → (∀ b w', Q b w' → images ψ w') →
  (∀ now w1, tx_img (TxIdle (Some c) d) now → ψ now → synced now w1 →
     wp before (ensures (images ψ) (λ a w', P a ∧ synced now w')) w1) →
  (∀ a now w1, P a → tx_img (TxIdle (Some c) d) now → ψ now → synced now w1 →
     wp (k a) (ensures (images ψ) Q) w1) →
  idle (Some c) d w → wp (locked self (_ ← synchronize_directory; a ← before; k a)) (ensures (images ψ) Q) w.
Proof.
  intros Hψ HQ HQψ Hbefore Hk Himg. pose proof (images_St _ _ Himg) as Hst. destruct Himg as [Hsh _].
  assert (ψ (w_now w)) as Hnow by by apply Hψ.
  eapply wp_locked_in; [exact Hψ|exact Hnow|exact Hst|done|done|]. intros w1 Hst1.
  eapply wp_bind; [by apply (wp_sync_in ψ _ Hψ)|]. intros ? w2 Hs2. simpl in Hs2.
  eapply wp_bind; [by apply Hbefore|]. intros x w3 [Ha Hs3]. by eapply Hk.
Qed.

Lemma wp_nothing_to_recover ψ c d now w :
  tx_img (TxIdle (Some c) d) now → ψ now → synced now w →
  wp (recover_scale_set_reconcile_transaction_locked self)
    (ensures (images ψ) (λ _ w', True ∧ synced now w')) w.
Proof.
  intros Hsh Hnow Hs. eapply wp_ensures; [by apply (wp_reconcile_idle self ψ (Some c) d)|done|done].
Qed.

(** ** The first delivery *)

(** What publishing the first recovery document of a delivery carries out. *)
Definition first_tx (policy : ScaleSetDeliveryConsumerPolicy) (delivery : ScaleSetDelivery)
    (observed_at : EpochMillis) (c : catalog_doc) : tx :=
  match reconcile_scale_set_delivery policy delivery c observed_at with
  | Ok c' =>
      match reconciled delivery c c' with
      | Ok d' => pair_tx c None c' d'
      | _ => TxIdle (Some c) None
      end
  | _ => TxIdle (Some c) None
  end.

Lemma idle_pair c d c' d' img : tx_img (TxIdle (Some c) d) img → tx_img (pair_tx c d c' d') img.
Proof. apply (ends_img _ (Some c, d)). rewrite pair_tx_ends. set_solver. Qed.

Lemma idle_first policy delivery t c img :
  tx_img (TxIdle (Some c) None) img → tx_img (first_tx policy delivery t c) img.
Proof. unfold first_tx. repeat case_match; auto using idle_pair. Qed.

Lemma wp_publish_first expected policy delivery t c w :
  idle (Some c) None w →
  wp (publish_scale_set_reconciled_delivery self expected policy delivery t)
    (ensures (images (tx_img (first_tx policy delivery t c)))
      (λ '(c', d'), λ w', reconcile_scale_set_delivery policy delivery c t = Ok c' ∧
         reconciled delivery c c' = Ok d' ∧ at_rest (Some c') (Some d') w')) w.
Proof.
  set (ψ := tx_img (first_tx policy delivery t c)).
  apply wp_transaction with (P := λ _, True).
  { intros. by apply idle_first. }
  { intros [c' d'] w1 w2 (? & ? & Hr) Hk. split_and!; [done..|]. by eapply rest_keeps. }
  { intros [c' d'] w' (Hc' & Hd' & Hr%rest_idle). eapply images_mono; [exact Hr|]. intros img.
    unfold ψ, first_tx. rewrite Hc', Hd'. apply (ends_img _ (Some c', Some d')). rewrite pair_tx_ends. set_solver. }
  { intros. by eapply wp_nothing_to_recover. }
  intros _ now w3 _ Hsh Hnow Hs3.
  eapply wp_bind; [by apply wp_failing, wp_load_catalog_rest|]. intros occ w4 [Hs4 Hcc].
  apply (read_whole _ _ _ _ (sh_cc _ _ _ _ _ Hsh)) in Hcc as ->. apply wp_bind_ok.
  eapply wp_bind; [by apply wp_load_delivery_rest|]. intros ocd w5 [Hs5 Hcd].
  apply (read_absent _ _ _ (sh_cd _ _ _ _ _ Hsh)) in Hcd as ->. case_match; [by eapply stay|].
  apply wp_bind_lift; [by eapply stay|]. intros c' Hc'%map_err_Ok.
  apply wp_bind_lift; [by eapply stay|]. intros d' Hd'%map_err_Ok.
  assert (ψ = tx_img (pair_tx c None c' d')) as -> by (unfold ψ, first_tx; by rewrite Hc', Hd').
  eapply wp_bind; [by eapply wp_publish_pair|]. intros ? w6 Hr. by apply wp_lift.
Qed.

(** ** A resolution *)

(** The catalog and the recovery document that resolve [s] by a delivery. *)
Definition resolves (policy : ScaleSetDeliveryConsumerPolicy) (s : recovery_doc) (delivery : ScaleSetDelivery)
    (c c' : catalog_doc) (d' : recovery_doc) : Prop :=
  ∃ ambiguous acquired, available_request_ids (rs_delivery s) = Ok ambiguous ∧
    reconcile_scale_set_acquisition_resolution policy ambiguous delivery c = Ok (c', acquired) ∧
    prepare_lifecycle_resolution s delivery acquired c c' = Ok d'.

Definition resolution_tx (policy : ScaleSetDeliveryConsumerPolicy) (s : recovery_doc) (delivery : ScaleSetDelivery)
    (c : catalog_doc) : tx :=
  match available_request_ids (rs_delivery s) with
  | Ok ambiguous =>
      match reconcile_scale_set_acquisition_resolution policy ambiguous delivery c with
      | Ok (c', acquired) =>
          match prepare_lifecycle_resolution s delivery acquired c c' with
          | Ok d' => pair_tx c (Some s) c' d'
          | _ => TxIdle (Some c) (Some s)
          end
      | _ => TxIdle (Some c) (Some s)
      end
  | _ => TxIdle (Some c) (Some s)
  end.

Lemma idle_resolution policy s delivery c img :
  tx_img (TxIdle (Some c) (Some s)) img → tx_img (resolution_tx policy s delivery c) img.
Proof. unfold resolution_tx. repeat case_match; auto using idle_pair. Qed.

Lemma resolves_tx policy s delivery c c' d' :
  resolves policy s delivery c c' d' → resolution_tx policy s delivery c = pair_tx c (Some s) c' d'.
Proof. intros (am & ac & H1 & H2 & H3). unfold resolution_tx. by rewrite H1, H2, H3. Qed.

Lemma wp_publish_resolution expected policy delivery c s w :
  idle (Some c) (Some s) w →
  wp (publish_scale_set_lifecycle_resolution self expected policy delivery)
    (ensures (images (tx_img (resolution_tx policy s delivery c)))
      (λ d' w', ∃ c', resolves policy s delivery c c' d' ∧ at_rest (Some c') (Some d') w')) w.
Proof.
  set (ψ := tx_img (resolution_tx policy s delivery c)).
  apply wp_transaction with (P := λ _, True).
  { intros. by apply idle_resolution. }
  { intros d' w1 w2 (c' & ? & Hr) Hk. exists c'. split; [done|]. by eapply rest_keeps. }
  { intros d' w' (c' & Hd' & Hr%rest_idle). eapply images_mono; [exact Hr|]. intros img.
    unfold ψ. rewrite (resolves_tx _ _ _ _ _ _ Hd'). apply (ends_img _ (Some c', Some d')).
    rewrite pair_tx_ends. set_solver. }
  { intros. by eapply wp_nothing_to_recover. }
  intros _ now w3 _ Hsh Hnow Hs3.
  eapply wp_bind; [by apply wp_load_delivery_rest|]. intros ocd w4 [Hs4 Hcd].
  apply (read_whole _ _ _ _ (sh_cd _ _ _ _ _ Hsh)) in Hcd as ->. apply wp_bind_ok.
  case_match eqn:Hexp; [by eapply stay|].
  eapply wp_bind; [by apply wp_failing, wp_load_catalog_rest|]. intros occ w5 [Hs5 Hcc].
  apply (read_whole _ _ _ _ (sh_cc _ _ _ _ _ Hsh)) in Hcc as ->. apply wp_bind_ok.
  case_match; [by eapply stay|].
  apply wp_bind_lift; [by eapply stay|]. intros ambiguous Ham%map_err_Ok.
  apply wp_bind_lift; [by eapply stay|]. intros [c' acquired] Hc'%map_err_Ok.
  apply wp_bind_lift; [by eapply stay|]. intros d' Hd'%map_err_Ok.
  assert (resolves policy s delivery c c' d') as Hres by by exists ambiguous, acquired.
  assert (ψ = tx_img (pair_tx c (Some s) c' d')) as -> by (unfold ψ; by rewrite (resolves_tx _ _ _ _ _ _ Hres)).
  eapply wp_bind; [by eapply wp_publish_pair|]. intros ? w6 Hr. apply wp_lift. by exists c'.
Qed.

(** ** A settlement *)

(** The settlement [p] of [s], and the catalog it leads to. *)
Definition settles (s : recovery_doc) (c c' : catalog_doc) (p : recovery_doc) : Prop :=
  settle_scale_set_delivery_catalog s c = Ok c' ∧ prepare_settlement s c c' = Ok p.

Definition settlement_tx (s : recovery_doc) (c : catalog_doc) : tx :=
  match settle_scale_set_delivery_catalog s c with
  | Ok c' =>
      match prepare_settlement s c c' with
      | Ok p => TxSettle c s c' p
      | _ => TxIdle (Some c) (Some s)
      end
  | _ => TxIdle (Some c) (Some s)
  end.

Lemma settles_tx s c c' p : settles s c c' p → settlement_tx s c = TxSettle c s c' p.
Proof. intros [H1 H2]. unfold settlement_tx. by rewrite H1, H2. Qed.

Lemma idle_settlement s c img : tx_img (TxIdle (Some c) (Some s)) img → tx_img (settlement_tx s c) img.
Proof.
  unfold settlement_tx. repeat case_match; auto. apply (ends_img _ (Some c, Some s)). set_solver.
Qed.

Lemma settle_delivery_closed c d c' p :
  closed_under STAGED_DELIVERY_RECOVERY_DOCUMENT (tx_img (TxSettle c d c' p)).
Proof.
  intros img Himg. simpl in *.
  destruct Himg as [H|[H|[H|H]]]; apply shape_delete_sd in H; [|by auto..].
  left. destruct H. split; [done..|]. by apply absent_torn.
Qed.

Lemma wp_drop_option_in {E} ψ (o : option StagedDocument) w :
  (∀ sg, o = Some sg → sg_armed sg = true → closed_under (sg_name sg) ψ) → images ψ w →
  wp (drop_staged_option (E := E) o) (λ _, images ψ) w.
Proof. intros Ho Himg. destruct o as [sg|]; [|done]. apply wp_drop_in; [|done]. by apply Ho. Qed.

Lemma wp_drop_both {E A} ψ (o : option StagedDocument) sg (r : result E A) Q w :
  (∀ x, o = Some x → sg_armed x = true → closed_under (sg_name x) ψ) →
  (sg_armed sg = true → closed_under (sg_name sg) ψ) → (∀ a, r ≠ Ok a) → images ψ w →
  wp (_ ← drop_staged_option o; _ ← drop_staged sg; lift r) (ensures (images ψ) Q) w.
Proof.
  intros Ho Hsg Hr Himg. apply wp_catch. eapply wp_mono; [by apply wp_drop_option_in|].
  intros [[a|e|]|] w' Hw'; [|done..]. by apply wp_drop_then.
Qed.

Section settling.
Context (c c' : catalog_doc) (s p : recovery_doc).
Let ψ := tx_img (TxSettle c s c' p).

(** The stage of the catalog, where it changes. *)
Definition settlement_stage : option StagedDocument :=
  if bool_decide (c' ≠ c)
  then Some (mkStaged STAGED_CATALOG_DOCUMENT (Some STAGED_CATALOG_DOCUMENT) true) else None.

Definition staged_delivery_guard : StagedDocument :=
  mkStaged STAGED_DELIVERY_RECOVERY_DOCUMENT (Some STAGED_DELIVERY_RECOVERY_DOCUMENT) true.

Definition settlement_slot : slot catalog_doc := if bool_decide (c' ≠ c) then Whole c' else Absent.

Lemma first_shape img :
  shape (Whole c) settlement_slot (Whole s) (Whole p) img → ψ img.
Proof.
  intros []. left. split; [done| |done|by apply whole_torn].
  unfold settlement_slot in *. case_match; [by apply whole_torn|by apply absent_torn].
Qed.

Lemma wp_stage_settlement now w :
  shape (Whole c) Absent (Whole s) (Whole p) now → St now ψ w →
  wp (stage_settlement self staged_delivery_guard c c')
    (ensures (images ψ) (λ o w', o = settlement_stage ∧
       ∃ now', synced now' w' ∧ shape (Whole c) settlement_slot (Whole s) (Whole p) now')) w.
Proof.
  intros Hsh Hst. assert (∀ img, shape (Whole c) (Torn c') (Whole s) (Whole p) img → ψ img) as H1.
  { intros img []. left. split; [done..|]. by apply whole_torn. }
  assert (∀ img, shape (Whole c) Absent (Whole s) (Whole p) img → ψ img) as H0.
  { intros img []. apply H1. split; [done| |done..]. by apply absent_torn. }
  apply wp_unless_ok_in; [intros _; apply settle_delivery_closed|].
  eapply wp_bind; [by apply (wp_sync_in ψ ψ (λ _ H, H)); [apply H0|]|]. intros ? w1 Hs1. simpl in Hs1.
  unfold settlement_stage, settlement_slot. case_match; [|by split; [|exists now]].
  eapply wp_bind.
  { apply wp_failing. eapply (wp_stage_catalog self ψ (λ _, False)); [done| |exact H1|exact Hsh|exact Hs1]. by apply H0. }
  intros sg w2 (-> & now2 & Hst2 & Hsh2 & Hnow2). eapply wp_bind.
  { apply wp_unless_ok_in; [intros _; apply settle_closed|]. by apply (wp_sync_in ψ ψ (λ _ H, H)). }
  intros ? w3 Hs3. split; [done|]. by exists now2.
Qed.

Lemma wp_publish_settlement now w :
  shape (Whole c) settlement_slot (Whole s) (Whole p) now → synced now w →
  wp (publish_settlement staged_delivery_guard settlement_stage)
    (ensures (images ψ) (λ _ w', ∃ now', synced now' w' ∧ shape (Whole c') Absent (Whole p) Absent now')) w.
Proof.
  intros Hsh Hs. destruct (sh_sd _ _ _ _ _ Hsh) as (f & b & Hf & Hd & Hb).
  pose proof (shape_publish_d _ _ _ _ p b f now Hsh Hd Hb) as Hpub.
  assert (∀ img, shape (Whole c) settlement_slot (Whole p) Absent img → ψ img) as H2.
  { intros img []. right; left. split; [done| |done..]. unfold settlement_slot in *.
    case_match; [by apply whole_torn|by apply absent_torn]. }
  eapply wp_bind.
  { eapply (wp_publish_guarded ψ (λ _, False)); [done|exact Hf|by apply first_shape|by apply H2|exact Hs]. }
  intros [sg r] w1 [Hname Hr]. simpl in Hname.
  assert (sg_armed sg = true → closed_under (sg_name sg) ψ) as Hsg.
  { intros _. rewrite Hname. apply settle_delivery_closed. }
  assert (∀ x, settlement_stage = Some x → sg_armed x = true → closed_under (sg_name x) ψ) as Hst.
  { intros x Hx _. unfold settlement_stage in Hx. case_match; [|done]. injection Hx as <-. apply settle_closed. }
  destruct r as [[]|e|]; simpl in Hr; [|by apply wp_drop_both; try apply Hr..]. destruct Hr as [_ Hs1].
  unfold settlement_stage, settlement_slot in *. case_match eqn:Hne; bprop; [|subst c'; by eexists].
  eapply (wp_publish_catalog ψ (λ _, False)); [done|done|intros _; apply settle_closed| |by apply H2|exact Hpub|exact Hs1].
  intros img Hi. right; right; by left.
Qed.

(** The whole settlement. *)
Lemma wp_carry_out_settlement now w :
  settles s c c' p → shape (Whole c) Absent (Whole s) Absent now → synced now w →
  wp (staged_delivery ← stage_scale_set_delivery self p;
      staged_catalog ← stage_settlement self staged_delivery c c';
      _ ← publish_settlement staged_delivery staged_catalog;
      _ ← remove_settled_delivery self p;
      acquired ← lift (ok_or (settlement_acquired p) corrupt_state);
      mret (mkSettlement c' p (length acquired)))
    (ensures (images ψ) (λ settled w', ss_catalog settled = c' ∧ ss_prepared settled = p ∧
       at_rest (Some c') None w')) w.
Proof.
  intros _ Hsh Hs. assert (∀ img, shape (Whole c) Absent (Whole s) (Torn p) img → ψ img) as H1.
  { intros img []. left. split; [done| |done..]. by apply absent_torn. }
  eapply wp_bind.
  { eapply (wp_stage_delivery self ψ (λ _, False)); [done| |exact H1|exact Hsh|exact Hs].
    apply H1. destruct Hsh. split; [done..|]. by apply absent_torn. }
  intros sg w1 (-> & now1 & Hst1 & Hsh1 & _). eapply wp_bind; [by eapply wp_stage_settlement|].
  intros ? w2 (-> & now2 & Hs2 & Hsh2). eapply wp_bind; [by eapply wp_publish_settlement|].
  intros ? w3 (now3 & Hs3 & Hsh3). eapply wp_bind.
  { eapply (wp_remove_settled self ψ); [| |exact Hsh3|exact Hs3].
    - right; right; by left.
    - intros img Hi. by do 3 right. }
  intros ? w4 (_ & now4 & Hs4 & Hsh4). apply wp_bind_lift.
  - eapply (stay ψ); [|exact Hs4]. by do 3 right.
  - intros acquired _. split_and!; [done..|]. by exists now4.
Qed.
End settling.

Lemma wp_settle expected c s w :
  prepared s = false → idle (Some c) (Some s) w →
  wp (settle_scale_set_delivery_locked self expected)
    (ensures (images (tx_img (settlement_tx s c)))
      (λ settled w', settles s c (ss_catalog settled) (ss_prepared settled) ∧
         at_rest (Some (ss_catalog settled)) None w')) w.
Proof.
  set (ψ := tx_img (settlement_tx s c)). intros Hun.
  apply wp_transaction with (P := λ o, o = None).
  { intros. by apply idle_settlement. }
  { intros x w1 w2 [? Hr] Hk. split; [done|]. by eapply rest_keeps. }
  { intros x w' [Hx Hr%rest_idle]. eapply images_mono; [exact Hr|]. intros img.
    unfold ψ. rewrite (settles_tx _ _ _ _ Hx). apply (ends_img _ (Some (ss_catalog x), None)). set_solver. }
  { intros now w1 Hsh Hnow Hs. apply wp_settlement_none; [|done..]. intros ???.
    apply (tx_unprepared (TxIdle (Some c) (Some s))); [by intros ? [= <-]|done..]. }
  intros ? now w1 -> Hsh Hnow Hs1.
  eapply wp_bind; [by eapply wp_nothing_to_recover|]. intros ? w2 [_ Hs2].
  eapply wp_bind; [by apply wp_load_delivery_rest|]. intros ocd w3 [Hs3 Hcd].
  apply (read_whole _ _ _ _ (sh_cd _ _ _ _ _ Hsh)) in Hcd as ->. apply wp_bind_ok.
  case_match; [by eapply stay|].
  eapply wp_bind; [by apply wp_failing, wp_load_catalog_rest|]. intros occ w4 [Hs4 Hcc].
  apply (read_whole _ _ _ _ (sh_cc _ _ _ _ _ Hsh)) in Hcc as ->. apply wp_bind_ok.
  apply wp_bind_lift; [by eapply stay|]. intros c' Hc'%map_err_Ok.
  apply wp_bind_lift; [by eapply stay|]. intros p Hp%map_err_Ok.
  assert (settles s c c' p) as Hset by done.
  assert (ψ = tx_img (TxSettle c s c' p)) as -> by (unfold ψ; by rewrite (settles_tx _ _ _ _ Hset)).
  eapply wp_ensures; [by eapply wp_carry_out_settlement|done|]. intros x w5 (<- & <- & Hr). by split.
Qed.
End publishing.
