(* ===== verification/PairSamples.v ===== *)
(** * A sample directory of the controller

    Stand-ins for [serde_json] that write a known document as one byte, its
    place in a table; sample deliveries, catalogs and recovery documents; and
    the directories that hold them. *)

From S2P Require Import Prelude WorkerQueue StoreWire WorkerStore StoreDocument StoreCodec FileSystem UnixStore UnixSteps.
From S2P Require Import UnixTheorems DiskLogic ScaleSetProtocol AttemptState WorkerReconciler AttemptCatalog AttemptLifecycle CatalogTheorems.
From S2P Require Import AttemptCodec CatalogCodec ScaleSetDelivery DeliveryConsumer DeliveryTheorems DeliveryRecovery.
From S2P Require Import ExecutionAdmission RecoveryTheorems RecoveryCodec CatalogDisk DeliveryDisk DeliveryPair PairSteps.
From S2P Require Import PairRecovery PairPublish.

Local Open Scope N_scope.

(** ** Texts by table *)

Section table.
Context {A : Type} `{!EqDecision A} (table : list A).

Definition table_text (a : A) : option bytes :=
  '(i, _) ← list_find (λ x, x = a) table;
  if (i <? 64)%nat then Some [ascii_of_nat (64 + i)] else None.

Definition table_read (b : bytes) : option A :=
  match b with
  | [x] => table !! (nat_of_ascii x - 64)%nat
  | _ => None
  end.

Lemma table_reads a b : table_text a = Some b → table_read b = Some a.
Proof.
  unfold table_text. destruct (list_find (λ x, x = a) table) as [[i x]|] eqn:Hf; [|done].
  apply list_find_Some in Hf as (Hi & <- & _). simpl. destruct (Nat.ltb_spec i 64); [|done]. intros [= <-].
  cbn [table_read]. rewrite nat_ascii_embedding by lia. rewrite <-Hi. f_equal. lia.
Qed.

Lemma table_cut a b b' : table_text a = Some b → b' `prefix_of` b → b' ≠ b → table_read b' = None.
Proof.
  unfold table_text. destruct (list_find (λ x, x = a) table) as [[i x]|]; [|done]. simpl.
  destruct (i <? 64)%nat; [|done]. intros [= <-] Hp Hne.
  destruct b' as [|y b']; [done|]. apply prefix_cons_inv_1 in Hp as Hy.
  apply prefix_cons_inv_2, prefix_nil_inv in Hp. congruence.
Qed.
End table.

(** ** Documents *)

Definition pair_policy : ScaleSetDeliveryConsumerPolicy :=
  mkConsumerPolicy 5 "glaeda" "team" ["linux"] sample_worker AttemptLifecycle.sample_identity.

Definition pair_catalog : catalog_doc :=
  mkCatalog 7 2
    [mkAttemptReservation (delivered_attempt 1 PhaseReserved) sample_worker AttemptLifecycle.sample_identity] [].

Definition pair_released : catalog_doc := mkCatalog 7 5 [] [delivered_attempt 3 PhaseComplete].

#[export] Instance resolution_wire_eq_dec : EqDecision LifecycleResolutionWire.
Proof. solve_decision. Defined.
#[export] Instance proof_wire_eq_dec : EqDecision SettlementProofWire.
Proof. solve_decision. Defined.
#[export] Instance phase_wire_eq_dec : EqDecision RecoveryPhaseWire.
Proof. solve_decision. Defined.
#[export] Instance recovery_wire_eq_dec : EqDecision RecoveryWire.
Proof. solve_decision. Defined.

Definition attempt_table : list OwnedAttemptWire :=
  attempt_wire <$> [delivered_attempt 1 PhaseReserved; delivered_attempt 3 PhaseComplete].

Definition reservation_wire (r : DisposableAttemptReservation) : ReservationWire OwnedAttemptWire :=
  mkReservationWire (attempt_wire (dr_attempt r))
    (mkResourceWire (wr_cpu_millis (dr_resources r)) (wr_memory_bytes (dr_resources r))
       (wr_disk_bytes (dr_resources r))) (dr_prepared_template_identity r).

Definition catalog_table : list (CatalogWire OwnedAttemptWire) :=
  (λ c, mkCatalogWire (cd_schema_version c) (cd_revision c) (reservation_wire <$> cd_active c)
          (attempt_wire <$> cd_tombstones c)) <$> [empty_catalog; pair_catalog; pair_released].

Definition table_serde : CatalogSerde := {|
  Value := OwnedAttemptWire;
  attempt_to_vec := table_text attempt_table;
  attempt_from_slice := table_read attempt_table;
  attempt_version_from_slice b := aw_schema_version <$> table_read attempt_table b;
  value_to_vec := table_text attempt_table;
  value_from_slice := table_read attempt_table;
  catalog_to_vec := table_text catalog_table;
  catalog_from_slice := table_read catalog_table;
  catalog_version_from_slice b := cw_schema_version <$> table_read catalog_table b;
|}.

#[export] Existing Instance table_serde.
#[export] Existing Instance sample_sha256.

#[export] Instance table_serde_laws : CatalogSerdeLaws.
Proof.
  split; simpl.
  - intros w b H%table_reads. by rewrite H.
  - intros w b H. exists w, b. pose proof (table_reads _ _ _ H) as Hr. by rewrite Hr.
  - intros w b H%table_reads. by rewrite H.
Qed.

#[export] Instance table_serde_cut : CatalogSerdeCut.
Proof. intros w b b'. apply table_cut. Qed.

Definition delivery_table : list ScaleSetDelivery := [available_delivery; canceled_delivery].

#[export] Instance table_delivery_serde : DeliverySerde := {|
  delivery_to_vec := table_text delivery_table;
  delivery_from_slice := table_read delivery_table;
  delivery_version_from_slice b := dl_schema_version <$> table_read delivery_table b;
|}.

#[export] Instance table_delivery_laws : DeliverySerdeLaws.
Proof. split. simpl. intros d b H%table_reads. by rewrite H. Qed.

(** The document of the sample delivery at a revision and a phase. *)
Definition pair_recovery (revision : N) (c : catalog_doc) (phase : ScaleSetDeliveryRecoveryPhase) : recovery_doc :=
  mkRecovery 4 revision 1 sample_digest (cd_revision c) sample_digest available_delivery phase.

Definition pair_resolution : ScaleSetLifecycleResolution :=
  mkResolution 3 canceled_delivery [7] pair_catalog 5 sample_digest.

Definition recovery_table : list RecoveryWire :=
  omap (λ s, ok (from_state s))
    [pair_recovery 1 pair_catalog Reconciled;
     pair_recovery 2 pair_catalog AcknowledgementStarted;
     pair_recovery 3 pair_catalog (Acknowledged [7]);
     pair_recovery 3 pair_catalog (Acknowledged []);
     pair_recovery 3 pair_catalog (AcquisitionRecoveryObserved []);
     pair_recovery 4 pair_released (LifecycleReconciled pair_resolution);
     pair_recovery 5 pair_released (LifecycleAcknowledgementStarted pair_resolution);
     pair_recovery 6 pair_released (LifecycleAcknowledged pair_resolution);
     pair_recovery 4 pair_catalog (SettlementPrepared ProofAcknowledged [] pair_catalog 5 sample_digest);
     pair_recovery 4 pair_catalog (SettlementPrepared ProofAcknowledged [7] pair_catalog 2 sample_digest);
     pair_recovery 3 pair_catalog (AcquisitionRecoveryObserved [7]);
     pair_recovery 4 pair_catalog (SettlementPrepared ProofAcquisitionRecovery [7] pair_catalog 2 sample_digest)].

#[export] Instance table_recovery_serde : RecoverySerde := {|
  recovery_to_vec := table_text recovery_table;
  recovery_from_slice := table_read recovery_table;
  recovery_version_from_slice b := yw_schema_version <$> table_read recovery_table b;
|}.

#[export] Instance table_recovery_laws : RecoverySerdeLaws.
Proof.
  split; simpl.
  - intros w b H%table_reads. by rewrite H.
  - intros w b b'. apply table_cut.
Qed.

#[export] Existing Instances sample_serde sample_document_serde sample_lima.

(** The managed directory exists, so nothing is ever initialized. *)
#[export] Instance sample_initializer : StoreInitializer := {|
  publish_initialization_directory _ := lift (Err (store_error Io "not initialized"));
|}.

(** ** Directories *)

Definition document_file (text : option bytes) : File := sample_file (default [] text).

Definition pair_world (c : catalog_doc) (d : option recovery_doc) (script : list Event) : World :=
  let base := <[CATALOG_DOCUMENT := document_file (dtext c)]> {[ STORE_LOCK_FILE := sample_file [] ]} in
  with_files
    match d with
    | Some d => <[DELIVERY_RECOVERY_DOCUMENT := document_file (dtext d)]> base
    | None => base
    end [] (sample_world "1" script).

Example recovery_table_full : length recovery_table = 12%nat.
Proof. vm_compute. reflexivity. Qed.

(** The machine stops and comes back with the directory as it was last. *)
Definition crashed (w : World) : World :=
  mkWorld (map_imap (λ _ f, Some (survives 0 f)) (w_now w)) [] (w_dir w) (w_root w) (w_creator w) (w_umask w)
    false [].

Lemma crashed_restarts w : restarts w (crashed w).
Proof. apply (machine_restarts w (w_now w) (λ _, 0%nat) []). by left. Qed.

(** A place that holds a sample document. *)
Lemma slot_sample {D} `{!Durable D} name (d : D) b img :
  dtext d = Some b → img !! name = Some (sample_file b) → slot_at name (Whole d) img.
Proof. intros Hd Hn. by exists (sample_file b), b. Qed.

Lemma pair_world_idle c d b script :
  dtext c = Some b → (∀ s, d = Some s → is_Some (dtext s)) → idle (Some c) d (pair_world c d script).
Proof.
  intros Hc Hd. split; [|constructor]. unfold pair_world. rewrite Hc.
  assert (∀ name : string, name ≠ STORE_LOCK_FILE → ({[ STORE_LOCK_FILE := sample_file [] ]} : entries) !! name = None)
    as Hlock by (intros name Hne; by rewrite lookup_singleton_ne).
  destruct d as [s|]; cbn [w_now with_files tx_img whole_or_absent].
  1: destruct (Hd s eq_refl) as [b' Hs]; rewrite Hs.
  all: split; first [apply (slot_sample _ _ b _ Hc)|apply (slot_sample _ _ b' _ Hs)|cbn [slot_at]].
  all: repeat first [rewrite lookup_insert_eq; done|rewrite lookup_insert_ne by names].
  all: apply Hlock; names.
Qed.

Lemma pair_catalog_reachable : rtc catalog_step empty_catalog pair_catalog.
Proof.
  apply rtc_once. eapply (step_reserve _ _ _ _ _ _ 7 21601000 2000 4096 8192 sample_worker AttemptLifecycle.sample_identity);
    [reflexivity|reflexivity|vm_compute; reflexivity].
Qed.

Lemma recovery_round_trip_witness :
  decode_scale_set_delivery_recovery ["A"%char] = Ok (pair_recovery 2 pair_catalog AcknowledgementStarted).
Proof.
  apply (proj2 (recovery_round_trip (pair_recovery 2 pair_catalog AcknowledgementStarted) ["A"%char])).
  split; [|vm_compute; reflexivity].
  split; [split; vm_compute; reflexivity..|exact I].
Defined.
