(* ===== verification/PairTheorems.v ===== *)
(** * Deliveries and catalogs change together

    The theorems about the transactions on the attempt catalog and the recovery
    document: whatever calls are refused and wherever the machine stops, the
    controller that opens the store afterwards finds both documents as they
    were, or both as they were meant to be. *)

From S2P Require Import Prelude WorkerQueue StoreWire WorkerStore StoreCodec FileSystem UnixStore UnixSteps.
From S2P Require Import UnixTheorems DiskLogic AttemptState WorkerReconciler AttemptCatalog CatalogSteps CatalogTheorems AttemptCodec.
From S2P Require Import CatalogCodec ScaleSetDelivery DeliveryConsumer DeliveryTheorems DeliveryRecovery RecoveryTheorems.
From S2P Require Import ExecutionAdmission SettlementTheorems RecoveryCodec CatalogDisk DeliveryDisk DeliveryPair PairSteps PairRecovery.
From S2P Require Import PairPublish PairSamples.

Local Open Scope N_scope.

Section facts.
Context {SERDE : CatalogSerde} {DSERDE : DeliverySerde} {HASHER : Sha256Hasher}.

(** A catalog that changes gets a later revision. *)
Lemma chain_revision c c' :
  catalog_wf c → rtc catalog_step c c' → c' = c ∨ cd_revision c < cd_revision c'.
Proof.
  intros Hwf H. induction H as [c|c1 c2 c3 H _ IH]; [by left|].
  destruct (step_effect _ _ Hwf H) as [Hwf2 Heff].
  destruct Heff as [-> |r _ _ ->|i cur s _ _ _ ->|i cur _ _ ->]; [auto|..]; right;
    destruct (IH Hwf2) as [->|Hlt]; simpl in *; lia.
Qed.

Lemma binds_other revision digest c : revision ≠ cd_revision c → binds revision digest c = false.
Proof. intros Hne. unfold binds. by rewrite (proj2 (N.eqb_neq _ _) Hne). Qed.

(** A document bound to one catalog is not bound to a later one, nor back. *)
Lemma binds_later revision digest c c' :
  binds revision digest c = true → cd_revision c ≠ cd_revision c' → binds revision digest c' = false.
Proof. intros [-> _]%binds_true Hne. by apply binds_other. Qed.

Lemma pair_tx_ok c d c' d' :
  (∀ s, d = Some s → prepared s = false) → prepared d' = false →
  (c' ≠ c → pair_ok c d c' d') → tx_ok (pair_tx c d c' d').
Proof. intros Hd Hd' Hp. unfold pair_tx. case_bool_decide; simpl; auto. Qed.

Lemma first_ok policy delivery t c :
  resources_ok (po_resources policy) → rtc catalog_step empty_catalog c → tx_ok (first_tx policy delivery t c).
Proof.
  intros Hpol Hc. pose proof (chain_wf _ _ empty_catalog_wf Hc) as Hwf. unfold first_tx.
  destruct (reconcile_scale_set_delivery policy delivery c t) as [c'|e|] eqn:Hrec; [|done..].
  destruct (reconciled delivery c c') as [d'|e|] eqn:Hd; [|done..].
  apply reconciled_Ok in Hd as (_ & Hph & _ & _ & _ & Hm).
  apply pair_tx_ok; [done|unfold prepared; by rewrite Hph|]. intros Hne.
  unfold reconcile_scale_set_delivery in Hrec. apply bind_Ok in Hrec as (events & _ & Hrec).
  destruct (events_facts policy Hpol events t c c' Hwf Hrec) as (_ & Hrun & _).
  destruct (chain_revision _ _ Hwf Hrun) as [?|Hlt]; [done|].
  split_and!; [done| |done]. eapply binds_later; [exact Hm|lia].
Qed.

(** What a resolution that is prepared records. *)
Lemma prepared_resolution s delivery acquired c c' d' :
  prepare_lifecycle_resolution s delivery acquired c c' = Ok d' →
  matches_catalog s c = true ∧ matches_catalog d' c' = true ∧
  (∃ events, retained_events delivery = Ok events) ∧
  ∃ r, rs_phase d' = LifecycleReconciled r ∧ lr_base_revision r = rs_revision s ∧ lr_prior_catalog r = c ∧
    resolution_matches_catalog r c' = true ∧ rs_delivery d' = rs_delivery s ∧
    rs_prior_catalog_revision d' = rs_prior_catalog_revision s ∧
    rs_prior_catalog_digest d' = rs_prior_catalog_digest s.
Proof.
  unfold prepare_lifecycle_resolution. intros H. apply ok_guard in H as [Hg H]. bprop.
  apply bind_Ok in H as (available & _ & H). apply ok_guard in H as [_ H].
  apply bind_Ok in H as (acquired' & _ & H). apply ok_guard in H as [_ H].
  apply bind_Ok in H as (events & Hev%map_err_Ok & H). apply ok_guard in H as [_ H].
  apply bind_Ok in H as (digest & Hdig & H). apply successor_with_catalog_Ok in H as ([] & Hph & Hrev & Hd).
  split; [done|]. split; [by apply binds_true|]. split; [by exists events|].
  eexists. split; [exact Hph|]. simpl. split_and!; [done|done| |done..]. by apply binds_true.
Qed.

Lemma resolution_ok policy s delivery c :
  resources_ok (po_resources policy) → rtc catalog_step empty_catalog c → prepared s = false →
  tx_ok (resolution_tx policy s delivery c).
Proof.
  intros Hpol Hc Hs. pose proof (chain_wf _ _ empty_catalog_wf Hc) as Hwf. unfold resolution_tx.
  assert (tx_ok (TxIdle (Some c) (Some s))) as Hidle by (simpl; congruence).
  destruct (available_request_ids (rs_delivery s)) as [ambiguous|e|]; [|done..].
  destruct (reconcile_scale_set_acquisition_resolution policy ambiguous delivery c)
    as [[c' acquired]|e|] eqn:Hrec; [|done..].
  destruct (prepare_lifecycle_resolution s delivery acquired c c') as [d'|e|] eqn:Hd; [|done..].
  apply prepared_resolution in Hd as (Hsc & Hdc & [events Hev] & r & Hph & Hbase & Hprior & Hrc & Hdel & Hpr & Hpd).
  apply pair_tx_ok; [congruence|unfold prepared; by rewrite Hph|]. intros Hne.
  destruct (resolution_result policy Hpol _ _ _ _ _ _ Hwf Hev Hrec) as (_ & X & _ & _ & _ & Hinv & _).
  destruct (progress_revision _ _ Hwf (ri_run _ _ _ Hinv)) as [?|Hlt]; [done|].
  assert (lifecycle_resolution d' = Some r) as Hlr by (unfold lifecycle_resolution; by rewrite Hph).
  split_and!; [done|eapply binds_later; [exact Hdc|lia]|].
  exists r. split_and!; [done| |done|eapply binds_later; [exact Hsc|lia]|done|eapply binds_later; [exact Hrc|lia]].
  unfold is_lifecycle_resolution_of. rewrite Hlr, Hprior, Hbase, Hsc, Hdel, Hpr, Hpd, !N.eqb_refl.
  by rewrite !bool_decide_true by done.
Qed.

Lemma settlement_ok s c :
  rtc catalog_step empty_catalog c → prepared s = false → tx_ok (settlement_tx s c).
Proof.
  intros Hc Hs. pose proof (chain_wf _ _ empty_catalog_wf Hc) as Hwf. unfold settlement_tx.
  assert (tx_ok (TxIdle (Some c) (Some s))) as Hidle by (simpl; congruence).
  destruct (settle_scale_set_delivery_catalog s c) as [c'|e|] eqn:Hset; [|done..].
  destruct (prepare_settlement s c c') as [p|e|] eqn:Hp; [|done..].
  unfold prepare_settlement in Hp. apply ok_guard in Hp as [Hm Hp]. bprop.
  apply bind_Ok in Hp as (digest & Hdig & Hp).
  apply bind_Ok in Hp as ([proof acquired] & Hev%ok_or_Ok & Hp).
  apply recovery_successor_Ok in Hp as ([] & Hph & Hrev & Hcd).
  pose proof Hset as Hset'. unfold settle_scale_set_delivery_catalog in Hset'.
  apply ok_guard in Hset' as [_ Hset']. apply bind_Ok in Hset' as (acq & Hacq%ok_or_Ok & Hset').
  apply bind_Ok in Hset' as (available & Hav%map_err_Ok & Hfold).
  assert (acq = acquired) as ->.
  { destruct (rs_phase s); cbn [settled_requests] in Hacq; [rewrite Hev in Hacq; simpl in Hacq; congruence..|done]. }
  split_and!; [done|unfold prepared; by rewrite Hph| | |].
  - unfold matches_catalog. by rewrite Hrev, Hcd.
  - unfold settle_scale_set_delivery_catalog, matches_catalog.
    rewrite Hrev, Hcd. unfold matches_catalog in Hm. rewrite Hm. simpl. rewrite Hph. simpl.
    by rewrite rn_delivery, Hav.
  - pose proof (settle_fold_inv _ _ [] c c c' (settle_start _ _ Hwf) Hfold) as Hinv.
    destruct (progress_revision _ _ Hwf (si_run _ _ _ _ Hinv)) as [?|Hlt]; [by left|right].
    unfold matches_catalog. rewrite Hrev, Hcd. eapply binds_later; [exact Hm|lia].
Qed.
End facts.

Section atomicity.
Context `{SER : !StoreSerde, DS : !DocumentSerde, LIMA : !LimaAuthorityReader, LAWS : CatalogSerdeLaws}
  {CUT : CatalogSerdeCut} `{DLAWS : DeliverySerdeLaws} {HASHER : Sha256Hasher} `{RLAWS : RecoverySerdeLaws}
  {INIT : StoreInitializer} (self : UnixPersonalWorkerStore).

(** What a transaction that ran leaves: its images, and its result. *)
Lemma run_wp {E A} (m : io E A) t (Q : A → World → Prop) w w' out :
  wp m (ensures (images (tx_img t)) Q) w → m w = (w', out) →
  (∀ a w', Q a w' → images (tx_img t) w') →
  images (tx_img t) w' ∧ ∀ a, out = Done (Ok a) → Q a w'.
Proof.
  unfold wp. intros H Hrun HQ. rewrite Hrun in H. destruct out as [[a|e|]|]; simpl in H; [|by split..].
  split; [by eapply HQ|]. by intros ? [= <-].
Qed.

(** (C7) Publishing a new delivery is atomic on disk.  It changes two documents,
    the catalog and the recovery document; whatever calls are refused, wherever
    the process or the machine stops, and however often it is restarted and the
    controller is opened and interrupted again, a controller that is open finds
    both documents as they were, or the catalog the delivery was reconciled to
    together with its recovery document, in either case durably and with nothing
    staged; and a publication that returns has the latter on disk. *)
Theorem first_publication_atomic (expected : N) (policy : ScaleSetDeliveryConsumerPolicy)
    (delivery : ScaleSetDelivery) (t : EpochMillis) (c : catalog_doc) (w w' : World)
    (out : outcome PersonalWorkerStoreError (catalog_doc * recovery_doc))
    (Hpolicy : resources_ok (po_resources policy)) (Hc : rtc catalog_step empty_catalog c)
    (Hidle : idle (Some c) None w)
    (Hrun : publish_scale_set_reconciled_delivery self expected policy delivery t w = (w', out)) :
  (∀ c' d', out = Done (Ok (c', d')) →
     reconcile_scale_set_delivery policy delivery c t = Ok c' ∧ reconciled delivery c c' = Ok d' ∧
     idle (Some c') (Some d') w') ∧
  ∀ w1 w2 store, reopened w' w1 → is_Some (w_dir w1) →
    open_or_create_scale_set_delivery_controller w1 = (w2, Done (Ok store)) →
    idle (Some c) None w2 ∨
    ∃ c' d', reconcile_scale_set_delivery policy delivery c t = Ok c' ∧ reconciled delivery c c' = Ok d' ∧
      idle (Some c') (Some d') w2.
Proof.
  destruct (run_wp _ _ _ _ _ _ (wp_publish_first self expected policy delivery t c w Hidle) Hrun) as [Himg Hout].
  { intros [c' d'] w1 (Hc' & Hd' & Hr%rest_idle). eapply images_mono; [exact Hr|]. intros img.
    unfold first_tx. rewrite Hc', Hd'. apply (ends_img _ (Some c', Some d')). rewrite pair_tx_ends. set_solver. }
  split.
  { intros c' d' Hok. destruct (Hout _ Hok) as (? & ? & Hr%rest_idle). done. }
  intros w1 w2 store Hre Hdir Hopen.
  destruct (tx_settles _ _ (first_ok _ _ _ _ Hpolicy Hc) Himg _ _ _ Hre Hdir Hopen) as ([oc od] & He & Hi).
  unfold first_tx in He. destruct (reconcile_scale_set_delivery policy delivery c t) as [c'| |] eqn:Hc'.
  1: destruct (reconciled delivery c c') as [d'| |] eqn:Hd'.
  1: rewrite pair_tx_ends in He.
  all: repeat (apply elem_of_cons in He as [[= -> ->]|He]; [by eauto 10|]); by apply elem_of_nil in He.
Qed.

(** So is resolving an acquisition by a later delivery: the open controller
    finds the catalog and the unresolved document as they were, or the catalog
    the evidence leads to with the document that records it. *)
Theorem resolution_publication_atomic (expected s : recovery_doc) (policy : ScaleSetDeliveryConsumerPolicy)
    (delivery : ScaleSetDelivery) (c : catalog_doc) (w w' : World)
    (out : outcome PersonalWorkerStoreError recovery_doc)
    (Hpolicy : resources_ok (po_resources policy)) (Hc : rtc catalog_step empty_catalog c)
    (Hs : prepared s = false) (Hidle : idle (Some c) (Some s) w)
    (Hrun : publish_scale_set_lifecycle_resolution self expected policy delivery w = (w', out)) :
  (∀ d', out = Done (Ok d') →
     ∃ c', resolves policy s delivery c c' d' ∧ idle (Some c') (Some d') w') ∧
  ∀ w1 w2 store, reopened w' w1 → is_Some (w_dir w1) →
    open_or_create_scale_set_delivery_controller w1 = (w2, Done (Ok store)) →
    idle (Some c) (Some s) w2 ∨
    ∃ c' d', resolves policy s delivery c c' d' ∧ idle (Some c') (Some d') w2.
Proof.
  destruct (run_wp _ _ _ _ _ _ (wp_publish_resolution self expected policy delivery c s w Hidle) Hrun)
    as [Himg Hout].
  { intros d' w1 (c' & Hd' & Hr%rest_idle). eapply images_mono; [exact Hr|]. intros img.
    rewrite (resolves_tx _ _ _ _ _ _ Hd'). apply (ends_img _ (Some c', Some d')). rewrite pair_tx_ends. set_solver. }
  split.
  { intros d' Hok. destruct (Hout _ Hok) as (c' & ? & Hr%rest_idle). by exists c'. }
  intros w1 w2 store Hre Hdir Hopen.
  destruct (tx_settles _ _ (resolution_ok _ _ delivery _ Hpolicy Hc Hs) Himg _ _ _ Hre Hdir Hopen)
    as ([oc od] & He & Hi).
  unfold resolution_tx in He.
  destruct (available_request_ids (rs_delivery s)) as [ambiguous| |] eqn:Ham.
  1: destruct (reconcile_scale_set_acquisition_resolution policy ambiguous delivery c) as [[c' acquired]| |] eqn:Hc'.
  1: destruct (prepare_lifecycle_resolution s delivery acquired c c') as [d'| |] eqn:Hd'.
  1: rewrite pair_tx_ends in He.
  all: repeat (apply elem_of_cons in He as [[= -> ->]|He]; [first [by left|right; exists c', d'; split; [by exists ambiguous, acquired|done]]|]);
    by apply elem_of_nil in He.
Qed.

(** (C8) And so is settling a delivery: the open controller finds the delivery
    unsettled with its catalog, or the settled catalog and no delivery; a
    settlement that was interrupted is completed by the opening. *)
Theorem settlement_atomic (expected s : recovery_doc) (c : catalog_doc) (w w' : World)
    (out : outcome PersonalWorkerStoreError ScaleSetDeliverySettlement)
    (Hc : rtc catalog_step empty_catalog c) (Hs : prepared s = false) (Hidle : idle (Some c) (Some s) w)
    (Hrun : settle_scale_set_delivery_locked self expected w = (w', out)) :
  (∀ settled, out = Done (Ok settled) →
     settles s c (ss_catalog settled) (ss_prepared settled) ∧ idle (Some (ss_catalog settled)) None w') ∧
  ∀ w1 w2 store, reopened w' w1 → is_Some (w_dir w1) →
    open_or_create_scale_set_delivery_controller w1 = (w2, Done (Ok store)) →
    idle (Some c) (Some s) w2 ∨ ∃ c' p, settles s c c' p ∧ idle (Some c') None w2.
Proof.
  destruct (run_wp _ _ _ _ _ _ (wp_settle self expected c s w Hs Hidle) Hrun) as [Himg Hout].
  { intros x w1 [Hx Hr%rest_idle]. eapply images_mono; [exact Hr|]. intros img.
    rewrite (settles_tx _ _ _ _ Hx). apply (ends_img _ (Some (ss_catalog x), None)). set_solver. }
  split.
  { intros x Hok. destruct (Hout _ Hok) as [? Hr%rest_idle]. done. }
  intros w1 w2 store Hre Hdir Hopen.
  destruct (tx_settles _ _ (settlement_ok _ _ Hc Hs) Himg _ _ _ Hre Hdir Hopen) as ([oc od] & He & Hi).
  unfold settlement_tx in He. destruct (settle_scale_set_delivery_catalog s c) as [c'| |] eqn:Hc'.
  1: destruct (prepare_settlement s c c') as [p| |] eqn:Hp.
  all: repeat (apply elem_of_cons in He as [[= -> ->]|He]; [first [by left|right; by exists c', p]|]);
    by apply elem_of_nil in He.
Qed.

(** ** Directories the controller cannot leave *)

(** A set of directories on which recovery never succeeds. *)
Lemma never_opens ψ w w1 store :
  (∀ kept img, ψ img → ψ (survivors kept img)) →
  (∀ store now w, ψ now → synced now w →
     wp (_ ← recover_scale_set_settlement_locked store; recover_scale_set_reconcile_transaction_locked store)
       (ensures (images ψ) (λ _ _, False)) w) →
  images ψ w → reopened w w1 → is_Some (w_dir w1) →
  (open_or_create_scale_set_delivery_controller w1).2 ≠ Done (Ok store).
Proof.
  intros Hψ Hbody Himg Hre.
  assert (∀ w, is_Some (w_dir w) → images ψ w →
    wp open_or_create_scale_set_delivery_controller (ensures (images ψ) (λ _ _, False)) w) as Hopen.
  { intros w2 Hdir Himg2. by apply wp_open_store. }
  assert (images ψ w1) as Himg1.
  { induction Hre as [|w1 w2 _ IH Hr|w1 _ IH Hdir]; [done|by eapply restarts_images|].
    specialize (Hopen w1 Hdir IH). unfold wp in Hopen.
    by destruct (open_or_create_scale_set_delivery_controller w1) as [w2 [[]|]]. }
  intros Hdir Hok. specialize (Hopen w1 Hdir Himg1). unfold wp in Hopen.
  destruct (open_or_create_scale_set_delivery_controller w1) as [w2 out]. simpl in Hok. by subst out.
Qed.

(** (C38) A machine that stops between staging and publishing the next document
    of a delivery (the start of its acknowledgement, say) leaves a directory the
    controller never opens again, however often it is tried: the recovery of
    pairs asks the staged document for a lifecycle resolution and reports
    corruption when it has none, before it comes to the branch that would
    publish an ordinary successor. *)
Theorem interrupted_successor_blocks (c : catalog_doc) (d d' : recovery_doc) (w w1 : World)
    (store : UnixPersonalWorkerStore)
    (Himg : images (shape (Whole c) Absent (Whole d) (Whole d')) w)
    (Hd : prepared d = false) (Hd' : prepared d' = false) (Hr : lifecycle_resolution d' = None)
    (Hre : reopened w w1) (Hdir : is_Some (w_dir w1)) :
  (open_or_create_scale_set_delivery_controller w1).2 ≠ Done (Ok store).
Proof.
  eapply never_opens; [intros; by apply shape_survives| |exact Himg|exact Hre|exact Hdir].
  intros st now w2 Hsh Hs. eapply wp_bind; [apply wp_settlement_none; [|done..]|].
  { intros name o [-> | ->] Ho.
    - apply (read_whole _ _ _ _ (sh_cd _ _ _ _ _ Hsh)) in Ho as ->. exact Hd.
    - apply (read_whole _ _ _ _ (sh_sd _ _ _ _ _ Hsh)) in Ho as ->. exact Hd'. }
  intros ? w3 [_ Hs3]. apply (wp_recover_reads _ _ _ now); [done..|]. intros cc sc cd sd w4 Hs4 Hcc _ Hcd Hsd.
  apply (read_whole _ _ _ _ (sh_cd _ _ _ _ _ Hsh)) in Hcd as ->.
  apply (read_whole _ _ _ _ (sh_sd _ _ _ _ _ Hsh)) in Hsd as ->.
  unfold recover_beside_delivery. rewrite Hr. apply wp_bind_lift; [by eapply stay|].
  intros ? _. by eapply (stay (shape (Whole c) Absent (Whole d) (Whole d'))).
Qed.

(** A staged catalog beside a delivery with no stage of its own is another
    such directory. *)
Theorem orphaned_catalog_stage_blocks (c c' : catalog_doc) (d : recovery_doc) (w w1 : World)
    (store : UnixPersonalWorkerStore)
    (Himg : images (shape (Whole c) (Whole c') (Whole d) Absent) w) (Hd : prepared d = false)
    (Hre : reopened w w1) (Hdir : is_Some (w_dir w1)) :
  (open_or_create_scale_set_delivery_controller w1).2 ≠ Done (Ok store).
Proof.
  eapply never_opens; [intros; by apply shape_survives| |exact Himg|exact Hre|exact Hdir].
  intros st now w2 Hsh Hs. eapply wp_bind; [apply wp_settlement_none; [|done..]|].
  { intros name o [-> | ->] Ho.
    - apply (read_whole _ _ _ _ (sh_cd _ _ _ _ _ Hsh)) in Ho as ->. exact Hd.
    - by apply (read_absent _ _ _ (sh_sd _ _ _ _ _ Hsh)) in Ho as ->. }
  intros ? w3 [_ Hs3]. apply (wp_recover_reads _ _ _ now); [done..|]. intros cc sc cd sd w4 Hs4 _ Hsc Hcd Hsd.
  apply (read_whole _ _ _ _ (sh_cd _ _ _ _ _ Hsh)) in Hcd as ->.
  apply (read_absent _ _ _ (sh_sd _ _ _ _ _ Hsh)) in Hsd as ->.
  apply (read_whole _ _ _ _ (sh_sc _ _ _ _ _ Hsh)) in Hsc as ->.
  eapply wp_ensures; [by apply (wp_beside_unstaged st (shape (Whole c) (Whole c') (Whole d) Absent))|done|].
  by intros ? ? [_ ?].
Qed.
End atomicity.

(** ** The theorems at sample runs *)

(** The first publication, stopped after the catalog was renamed into place. *)
Definition stopped_first : World * outcome PersonalWorkerStoreError (catalog_doc * recovery_doc) :=
  publish_scale_set_reconciled_delivery sample_unix 1 pair_policy available_delivery 1000
    (pair_world empty_catalog None (replicate 48 EvServe ++ [EvStop 0])).

Definition reopened_first : World := (open_or_create_scale_set_delivery_controller (crashed stopped_first.1)).1.

Lemma first_publication_atomic_witness :
  idle (Some empty_catalog) None reopened_first ∨
  ∃ c' d', reconcile_scale_set_delivery pair_policy available_delivery empty_catalog 1000 = Ok c' ∧
    reconciled available_delivery empty_catalog c' = Ok d' ∧ idle (Some c') (Some d') reopened_first.
Proof.
  refine (proj2 (first_publication_atomic sample_unix 1 pair_policy available_delivery 1000 empty_catalog
    (pair_world empty_catalog None (replicate 48 EvServe ++ [EvStop 0])) stopped_first.1 stopped_first.2
    eq_refl (rtc_refl _ _) _ (surjective_pairing _)) (crashed stopped_first.1) reopened_first sample_unix _ _ _).
  - by apply (pair_world_idle _ _ ["@"%char]).
  - eapply reopened_restart; [apply reopened_not|apply crashed_restarts].
  - vm_compute. by eexists.
  - vm_compute. reflexivity.
Defined.

(** A resolution, stopped with both documents staged. *)
Definition observed_nothing : recovery_doc := pair_recovery 3 pair_catalog (AcquisitionRecoveryObserved []).

Definition stopped_resolution : World * outcome PersonalWorkerStoreError recovery_doc :=
  publish_scale_set_lifecycle_resolution sample_unix observed_nothing pair_policy canceled_delivery
    (pair_world pair_catalog (Some observed_nothing) (replicate 51 EvServe ++ [EvStop 0])).

Definition reopened_resolution : World :=
  (open_or_create_scale_set_delivery_controller (crashed stopped_resolution.1)).1.

Lemma resolution_publication_atomic_witness :
  idle (Some pair_catalog) (Some observed_nothing) reopened_resolution ∨
  ∃ c' d', resolves pair_policy observed_nothing canceled_delivery pair_catalog c' d' ∧
    idle (Some c') (Some d') reopened_resolution.
Proof.
  refine (proj2 (resolution_publication_atomic sample_unix observed_nothing observed_nothing pair_policy
    canceled_delivery pair_catalog (pair_world pair_catalog (Some observed_nothing) (replicate 51 EvServe ++ [EvStop 0]))
    stopped_resolution.1 stopped_resolution.2 eq_refl pair_catalog_reachable eq_refl _ (surjective_pairing _))
    (crashed stopped_resolution.1) reopened_resolution sample_unix _ _ _).
  - apply (pair_world_idle _ _ ["A"%char]); [done|]. intros ? [= <-]. by eexists.
  - eapply reopened_restart; [apply reopened_not|apply crashed_restarts].
  - vm_compute. by eexists.
  - vm_compute. reflexivity.
Defined.

(** A settlement, stopped after the prepared document was renamed into place. *)
Definition nothing_acquired : recovery_doc := pair_recovery 3 pair_catalog (Acknowledged []).

Definition stopped_settlement : World * outcome PersonalWorkerStoreError ScaleSetDeliverySettlement :=
  settle_scale_set_delivery_locked sample_unix nothing_acquired
    (pair_world pair_catalog (Some nothing_acquired) (replicate 58 EvServe ++ [EvStop 0])).

Definition reopened_settlement : World :=
  (open_or_create_scale_set_delivery_controller (crashed stopped_settlement.1)).1.

Lemma settlement_atomic_witness :
  idle (Some pair_catalog) (Some nothing_acquired) reopened_settlement ∨
  ∃ c' p, settles nothing_acquired pair_catalog c' p ∧ idle (Some c') None reopened_settlement.
Proof.
  refine (proj2 (settlement_atomic sample_unix nothing_acquired nothing_acquired pair_catalog
    (pair_world pair_catalog (Some nothing_acquired) (replicate 58 EvServe ++ [EvStop 0]))
    stopped_settlement.1 stopped_settlement.2 pair_catalog_reachable eq_refl _ (surjective_pairing _))
    (crashed stopped_settlement.1) reopened_settlement sample_unix _ _ _).
  - apply (pair_world_idle _ _ ["A"%char]); [done|]. intros ? [= <-]. by eexists.
  - eapply reopened_restart; [apply reopened_not|apply crashed_restarts].
  - vm_compute. by eexists.
  - vm_compute. reflexivity.
Defined.

(** The start of an acknowledgement, staged and not renamed. *)
Definition stopped_acknowledgement : World :=
  (acknowledge_scale_set_delivery_locked (B := unit) (E := unit) sample_unix
     (pair_recovery 1 pair_catalog Reconciled) (λ _, lift (Ok [7]))
     (pair_world pair_catalog (Some (pair_recovery 1 pair_catalog Reconciled))
        (replicate 35 EvServe ++ [EvStop 0]), ())).1.1.

Lemma interrupted_successor_blocks_witness :
  (open_or_create_scale_set_delivery_controller (crashed stopped_acknowledgement)).2 ≠ Done (Ok sample_unix).
Proof.
  apply (interrupted_successor_blocks pair_catalog (pair_recovery 1 pair_catalog Reconciled)
    (pair_recovery 2 pair_catalog AcknowledgementStarted) (crashed stopped_acknowledgement));
    [|reflexivity..|apply reopened_not|vm_compute; by eexists].
  split; [|constructor]. split.
  - apply (slot_sample _ _ ["A"%char]); vm_compute; reflexivity.
  - vm_compute. reflexivity.
  - apply (slot_sample _ _ ["@"%char]); vm_compute; reflexivity.
  - apply (slot_sample _ _ ["A"%char]); vm_compute; reflexivity.
Defined.

(** A settlement whose publication is refused, and then the removal of the
    catalog stage. *)
Definition refused_settlement : World :=
  (settle_scale_set_delivery_locked sample_unix nothing_acquired
     (pair_world pair_catalog (Some nothing_acquired)
        (replicate 57 EvServe ++ [EvRefuse (FaultOther 5) 0; EvRefuse (FaultOther 5) 0; EvServe]))).1.

Lemma orphaned_catalog_stage_blocks_witness :
  (open_or_create_scale_set_delivery_controller (crashed refused_settlement)).2 ≠ Done (Ok sample_unix).
Proof.
  apply (orphaned_catalog_stage_blocks pair_catalog pair_released nothing_acquired (crashed refused_settlement));
    [|reflexivity|apply reopened_not|vm_compute; by eexists].
  split; [|constructor]. split.
  - apply (slot_sample _ _ ["A"%char]); vm_compute; reflexivity.
  - apply (slot_sample _ _ ["B"%char]); vm_compute; reflexivity.
  - apply (slot_sample _ _ ["C"%char]); vm_compute; reflexivity.
  - vm_compute. reflexivity.
Defined.
