(* ===== verification/ControllerSteps.v ===== *)
(** * The steps of the delivery controller

    The program logic of the store for programs that also call a bridge, and
    one rule per transaction of [DeliveryDisk] on a directory with nothing
    staged. *)

From S2P Require Import Prelude WorkerQueue StoreWire WorkerStore StoreCodec FileSystem UnixStore UnixSteps.
From S2P Require Import UnixTheorems DiskLogic AttemptState WorkerReconciler AttemptCatalog CatalogSteps CatalogTheorems AttemptCodec.
From S2P Require Import CatalogCodec ScaleSetProtocol ScaleSetDelivery DeliveryConsumer DeliveryTheorems DeliveryRecovery RecoveryTheorems.
From S2P Require Import ExecutionAdmission SettlementTheorems RecoveryCodec CatalogDisk DeliveryDisk DeliveryPair PairSteps PairRecovery.
From S2P Require Import PairPublish DeliveryController.

Local Open Scope N_scope.

(** ** The managed directory stays where it is *)

Definition same_dir (w w' : World) : Prop := w_dir w' = w_dir w.

(** Programs that neither make nor remove the directory itself. *)
Class Steady {E A} (m : io E A) : Prop :=
  steady : ∀ w, same_dir w (m w).1.

Lemma steady_syscall {A} (serve : World → World * result Errno A) write :
  (∀ w, same_dir w (serve w).1) → (∀ n w, same_dir w (write n w)) → Steady (syscall serve write).
Proof.
  intros Hs Hw w. unfold syscall. destruct (w_script w) as [|[|f n|n] script] eqn:Hsc.
  - specialize (Hs w). by destruct (serve w).
  - specialize (Hs (with_script script w)). by destruct (serve _).
  - apply (Hw n (with_script script w)).
  - apply (Hw n (with_script script w)).
Qed.

Lemma steady_catch {E A E' B} (m : io E A) (k : result E A → io E' B) :
  Steady m → (∀ r, Steady (k r)) → Steady (catch m k).
Proof.
  intros Hm Hk w. unfold catch. specialize (Hm w). destruct (m w) as [w' [r|]]; [|done].
  unfold same_dir in *. simpl in Hm. rewrite (Hk r w'). done.
Qed.

Lemma steady_lift {E A} (r : result E A) : Steady (lift r).
Proof. by intros w. Qed.

Lemma steady_bind {E A B} (m : io E A) (f : A → io E B) :
  Steady m → (∀ a, Steady (f a)) → Steady (m ≫= f).
Proof. intros Hm Hf. apply steady_catch; [done|]. intros []; auto using steady_lift. Qed.

Lemma steady_failing {E E' A} (f : E → E') (m : io E A) : Steady m → Steady (failing f m).
Proof. intros Hm. apply steady_catch; auto using steady_lift. Qed.

Ltac steady_call :=
  apply steady_syscall; intros; unfold on_file, append; repeat case_match; done.

#[export] Instance steady_openat mode name : Steady (openat mode name).
Proof. steady_call. Qed.
#[export] Instance steady_fchmod fd mode : Steady (fchmod fd mode).
Proof. steady_call. Qed.
#[export] Instance steady_fstat fd : Steady (fstat fd).
Proof. steady_call. Qed.
#[export] Instance steady_fstat_dir dir : Steady (fstat_dir dir).
Proof. steady_call. Qed.
#[export] Instance steady_open_dir dir : Steady (open_dir dir).
Proof. steady_call. Qed.
#[export] Instance steady_read_to_end fd limit : Steady (read_to_end fd limit).
Proof. steady_call. Qed.
#[export] Instance steady_write_all fd b : Steady (write_all fd b).
Proof. steady_call. Qed.
#[export] Instance steady_sync_all fd : Steady (sync_all fd).
Proof. steady_call. Qed.
#[export] Instance steady_fsync_dir : Steady fsync_dir.
Proof. steady_call. Qed.
#[export] Instance steady_fsync_root : Steady fsync_root.
Proof. steady_call. Qed.
#[export] Instance steady_renameat from to b : Steady (renameat from to b).
Proof. steady_call. Qed.
#[export] Instance steady_unlinkat name : Steady (unlinkat name).
Proof. steady_call. Qed.
#[export] Instance steady_flock_exclusive : Steady flock_exclusive.
Proof. steady_call. Qed.
#[export] Instance steady_flock_shared : Steady flock_shared.
Proof. steady_call. Qed.
#[export] Instance steady_funlock : Steady funlock.
Proof. steady_call. Qed.

(** Every program of the store is built of those. *)
Ltac solve_steady :=
  repeat first
    [ progress intros
    | solve [typeclasses eauto]
    | apply steady_lift | apply steady_bind | apply steady_failing | apply steady_catch
    | progress case_match ].

Section steady.
Context `{SER : !StoreSerde, DS : !DocumentSerde, LIMA : !LimaAuthorityReader, SERDE : CatalogSerde,
  DSERDE : DeliverySerde, HASHER : Sha256Hasher, RSERDE : RecoverySerde} (self : UnixPersonalWorkerStore).

#[export] Instance steady_inspect_directory dir owner : Steady (inspect_directory dir owner).
Proof. unfold inspect_directory. solve_steady. Qed.
#[export] Instance steady_inspect_file file owner size : Steady (inspect_private_file file owner size).
Proof. unfold inspect_private_file. solve_steady. Qed.
#[export] Instance steady_synchronize : Steady synchronize_directory.
Proof. unfold synchronize_directory. solve_steady. Qed.
#[export] Instance steady_synchronize_root : Steady synchronize_root.
Proof. unfold synchronize_root. solve_steady. Qed.
#[export] Instance steady_drop_staged {E} sg : Steady (drop_staged (E := E) sg).
Proof. unfold drop_staged, ignoring. solve_steady. Qed.
#[export] Instance steady_read name max : Steady (read_named_bytes_bounded self name max).
Proof. unfold read_named_bytes_bounded. solve_steady. Qed.
#[export] Instance steady_load_named name : Steady (load_named self name).
Proof. unfold load_named, read_named_bytes. solve_steady. Qed.
#[export] Instance steady_load_authority name : Steady (load_authority self name).
Proof. unfold load_authority. solve_steady. Qed.
#[export] Instance steady_mutation_lock : Steady (acquire_mutation_lock self).
Proof. unfold acquire_mutation_lock. solve_steady. Qed.
#[export] Instance steady_read_lock : Steady (acquire_read_lock self).
Proof. unfold acquire_read_lock. solve_steady. Qed.
#[export] Instance steady_locked {A} (body : io PersonalWorkerStoreError A) : Steady body → Steady (locked self body).
Proof. intros. unfold locked. solve_steady. Qed.
#[export] Instance steady_unless_ok {E A} sg (body : io E A) : Steady body → Steady (unless_ok sg body).
Proof. intros. unfold unless_ok. solve_steady. Qed.
#[export] Instance steady_always_drop {E A} (body : io E (StagedDocument * result E A)) :
  Steady body → Steady (always_drop body).
Proof. intros. unfold always_drop. solve_steady. Qed.
#[export] Instance steady_stage name b : Steady (stage_named_bytes self name b).
Proof. unfold stage_named_bytes. solve_steady. Qed.
#[export] Instance steady_publish sg current no_replace : Steady (publish_named_staged sg current no_replace).
Proof. unfold publish_named_staged. solve_steady. Qed.
#[export] Instance steady_recovery_plan : Steady (recovery_plan self).
Proof. unfold recovery_plan. solve_steady. Qed.
#[export] Instance steady_load_catalog name : Steady (load_catalog_named self name).
Proof. unfold load_catalog_named. solve_steady. Qed.
#[export] Instance steady_load_delivery name : Steady (load_scale_set_delivery_named self name).
Proof. unfold load_scale_set_delivery_named. solve_steady. Qed.
#[export] Instance steady_stage_catalog c : Steady (stage_catalog self c).
Proof. unfold stage_catalog. solve_steady. Qed.
#[export] Instance steady_stage_delivery d : Steady (stage_scale_set_delivery self d).
Proof. unfold stage_scale_set_delivery. solve_steady. Qed.
#[export] Instance steady_sync_catalog_stage c : Steady (synchronize_existing_catalog_stage self c).
Proof. unfold synchronize_existing_catalog_stage, inspect_private_file. solve_steady. Qed.
#[export] Instance steady_remove_catalog_stage : Steady remove_catalog_stage.
Proof. unfold remove_catalog_stage. solve_steady. Qed.
#[export] Instance steady_sync_delivery_stage d : Steady (synchronize_existing_scale_set_delivery_stage self d).
Proof. unfold synchronize_existing_scale_set_delivery_stage. solve_steady. Qed.
#[export] Instance steady_unlink_delivery_stage message : Steady (unlink_delivery_stage message).
Proof. unfold unlink_delivery_stage. solve_steady. Qed.
#[export] Instance steady_recover_delivery : Steady (recover_scale_set_delivery_locked self).
Proof.
  unfold recover_scale_set_delivery_locked, scale_set_delivery_recovery_plan, publish_existing_delivery_stage.
  solve_steady.
Qed.
#[export] Instance steady_recover_catalog : Steady (recover_catalog_locked self).
Proof. unfold recover_catalog_locked, catalog_recovery_plan. solve_steady. Qed.
#[export] Instance steady_pending message : Steady (refuse_pending_worker_recovery self message).
Proof. unfold refuse_pending_worker_recovery. solve_steady. Qed.
#[export] Instance steady_catalog_unsettled : Steady (disposable_attempt_catalog_refuse_unsettled self).
Proof. unfold disposable_attempt_catalog_refuse_unsettled. solve_steady. Qed.
#[export] Instance steady_template_unsettled : Steady (disposable_template_generation_refuse_unsettled self).
Proof. unfold disposable_template_generation_refuse_unsettled. solve_steady. Qed.
#[export] Instance steady_lima_unsettled : Steady (refuse_unsettled_lima_authority self).
Proof. unfold refuse_unsettled_lima_authority. solve_steady. Qed.
#[export] Instance steady_neighbors : Steady (refuse_unsettled_scale_set_neighbors self).
Proof. unfold refuse_unsettled_scale_set_neighbors. solve_steady. Qed.
#[export] Instance steady_recover_pair : Steady (recover_scale_set_reconcile_transaction_locked self).
Proof.
  unfold recover_scale_set_reconcile_transaction_locked, recover_beside_delivery, recover_first_delivery,
    recover_lifecycle_resolution, publish_existing_catalog_stage, publish_existing_delivery_stage,
    remove_uncommitted_delivery_stage.
  solve_steady.
Qed.
#[export] Instance steady_publish_pair c c' d b : Steady (publish_pair self c c' d b).
Proof. unfold publish_pair. solve_steady. Qed.
#[export] Instance steady_load_candidate d e f message : Steady (load_candidate self d e f message).
Proof.
  unfold load_candidate, delivery_guards, refuse_other_unsettled_scale_set_state, require_scale_set_catalog_binding.
  solve_steady.
Qed.
#[export] Instance steady_publish_successor d d' : Steady (publish_scale_set_delivery_successor_locked self d d').
Proof. unfold publish_scale_set_delivery_successor_locked. solve_steady. Qed.
#[export] Instance steady_load_recovery : Steady (load_scale_set_delivery_recovery self).
Proof. unfold load_scale_set_delivery_recovery. solve_steady. Qed.
#[export] Instance steady_publish_first revision policy delivery t :
  Steady (publish_scale_set_reconciled_delivery self revision policy delivery t).
Proof. unfold publish_scale_set_reconciled_delivery. solve_steady. Qed.
#[export] Instance steady_publish_resolution d policy delivery :
  Steady (publish_scale_set_lifecycle_resolution self d policy delivery).
Proof. unfold publish_scale_set_lifecycle_resolution. solve_steady. Qed.
#[export] Instance steady_remove_settled d : Steady (remove_settled_delivery self d).
Proof. unfold remove_settled_delivery. solve_steady. Qed.
#[export] Instance steady_recover_settlement : Steady (recover_scale_set_settlement_locked self).
Proof.
  unfold recover_scale_set_settlement_locked, complete_settlement, publish_settlement_catalog,
    confirm_settlement_catalog, finish_recovered_settlement, publish_existing_catalog_stage.
  solve_steady.
Qed.
#[export] Instance steady_settle d : Steady (settle_scale_set_delivery_locked self d).
Proof.
  unfold settle_scale_set_delivery_locked, stage_settlement, publish_settlement, drop_staged_option. solve_steady.
Qed.
#[export] Instance steady_confirm_lifecycle d : Steady (confirm_scale_set_lifecycle_acknowledged_locked self d).
Proof. unfold confirm_scale_set_lifecycle_acknowledged_locked. solve_steady. Qed.
End steady.

(** ** Transactions on a directory with nothing staged *)

Section at_rest.
Context `{SER : !StoreSerde, DS : !DocumentSerde, LIMA : !LimaAuthorityReader, LAWS : CatalogSerdeLaws}
  {CUT : CatalogSerdeCut} `{DLAWS : DeliverySerdeLaws} {HASHER : Sha256Hasher} `{RLAWS : RecoverySerdeLaws}
  {INIT : StoreInitializer} (self : UnixPersonalWorkerStore).

(** The next document of a delivery. *)
Lemma wp_publish_successor c d d' w :
  at_rest (Some c) (Some d) w →
  wp (publish_scale_set_delivery_successor_locked self d d')
    (ensures (images (tx_img (TxStep c (Some d) d'))) (λ _, at_rest (Some c) (Some d'))) w.
Proof.
  intros (now & Hs & Hsh). unfold publish_scale_set_delivery_successor_locked.
  destruct (exact_recovery_successor d d'); simpl.
  - pose proof (wp_publish_pair self c (Some d) c d' false now w Hsh Hs) as H.
    unfold publish_pair, pair_tx in H. by rewrite bool_decide_false in H by naive_solver.
  - apply wp_lift. apply (stay _ now); [|done]. by apply (ends_img (TxStep c (Some d) d') (Some c, Some d)); [set_solver|].
Qed.

Lemma wp_no_stage ψ oc od now w :
  ψ now → shape (whole_or_absent oc) Absent (whole_or_absent od) Absent now → synced now w →
  wp (recover_scale_set_delivery_locked self) (ensures (images ψ) (λ _, synced now)) w.
Proof.
  intros Hnow Hsh Hs. eapply wp_bind with (R := λ plan w', plan = RecoverClean ∧ synced now w').
  - eapply wp_bind; [by apply wp_load_delivery_rest|]. intros o w1 [Hs1 Ho].
    by apply (read_absent _ _ _ (sh_sd _ _ _ _ _ Hsh)) in Ho as ->.
  - by intros ? w1 [-> Hs1].
Qed.

(** The document that is loaded is the one that is there. *)
Lemma wp_load_candidate c d expected absent candidate message w :
  at_rest (Some c) (Some d) w →
  wp (load_candidate self expected absent candidate message)
    (ensures (idle (Some c) (Some d)) (λ current w', current = d ∧ expected = d ∧ candidate d = Ok true ∧
       at_rest (Some c) (Some d) w')) w.
Proof.
  intros (now & Hs & Hsh). set (ψ := tx_img (TxIdle (Some c) (Some d))).
  assert (ψ now) as Hnow by done. unfold idle. fold ψ.
  eapply wp_bind with (R := λ _, synced now).
  { eapply wp_bind; [by apply (wp_sync_in ψ (λ _, False))|]. intros ? w1 Hs1. simpl in Hs1.
    eapply wp_bind; [by apply (wp_quiet_rest ψ); [apply quiet_other|..]|]. intros ? w2 Hs2.
    by apply (wp_no_stage ψ (Some c) (Some d)). }
  intros ? w1 Hs1. eapply wp_bind; [by apply wp_load_delivery_rest|]. intros o w2 [Hs2 Ho].
  apply (read_whole _ _ _ _ (sh_cd _ _ _ _ _ Hsh)) in Ho as ->. apply wp_bind_ok.
  case_bool_decide as Hexp; [by eapply stay|]. apply wp_bind_lift; [by eapply stay|].
  intros accepts Hacc. destruct accepts; simpl; [|by eapply stay].
  eapply wp_bind with (R := λ _, synced now).
  { eapply wp_bind; [by apply wp_failing, wp_load_catalog_rest|]. intros oc w3 [Hs3 _].
    apply wp_bind_lift; [by eapply stay|]. intros c' _. case_match; [by eapply stay|done]. }
  intros ? w3 Hs3. split_and!; [done|by subst|done|]. by exists now.
Qed.

(** What a step of the document carries out. *)
Definition step_tx {E} (c : catalog_doc) (d : recovery_doc) (next : result E recovery_doc) : tx :=
  match next with
  | Ok d' => TxStep c (Some d) d'
  | _ => TxIdle (Some c) (Some d)
  end.

Lemma idle_step {E} c d (next : result E recovery_doc) img :
  tx_img (TxIdle (Some c) (Some d)) img → tx_img (step_tx c d next) img.
Proof.
  unfold step_tx. destruct next as [d'| |]; [|done..]. apply (ends_img _ (Some c, Some d)). set_solver.
Qed.

Lemma rest_step {E} c d (next : result E recovery_doc) d' w :
  next = Ok d' → at_rest (Some c) (Some d') w → images (tx_img (step_tx c d next)) w.
Proof.
  intros -> Hr%rest_idle. eapply images_mono; [exact Hr|]. intros img.
  apply (ends_img _ (Some c, Some d')). set_solver.
Qed.

Lemma wp_confirm_lifecycle c d expected w :
  at_rest (Some c) (Some d) w →
  wp (confirm_scale_set_lifecycle_acknowledged_locked self expected)
    (ensures (images (tx_img (step_tx c d (record_lifecycle_ack d))))
       (λ d' w', record_lifecycle_ack d = Ok d' ∧ at_rest (Some c) (Some d') w')) w.
Proof.
  intros (now & Hs & Hsh). set (ψ := tx_img (step_tx c d (record_lifecycle_ack d))).
  assert (∀ img, tx_img (TxIdle (Some c) (Some d)) img → ψ img) as Hψ by (intros; by apply idle_step).
  assert (∀ w', idle (Some c) (Some d) w' → images ψ w') as Hidle by (intros w' Hi; by eapply images_mono).
  eapply (wp_locked_in _ _ ψ now (λ _, False)); [done|by apply Hψ|done| | |].
  - intros d' w1 w2 [Hd' Hr] Hk. split; [done|]. by eapply rest_keeps.
  - intros d' w' [Hd' Hr]. by eapply rest_step.
  - intros w1 Hs1. eapply wp_bind.
    { eapply wp_ensures; [apply (wp_load_candidate c d); by exists now|done|intros ? ? H; exact H]. }
    intros ? w2 (-> & _ & _ & Hr). apply wp_bind_lift; [by apply Hidle, rest_idle|].
    intros d' Hd'%map_err_Ok. eapply wp_bind.
    { assert (ψ = tx_img (TxStep c (Some d) d')) as -> by (unfold ψ; by rewrite Hd'). by apply wp_publish_successor. }
    intros ? w3 Hr3. done.
Qed.

(** Opening leaves a directory that is there where it is. *)
Lemma open_store_dir body w :
  is_Some (w_dir w) → (∀ store, Steady (body store)) → same_dir w (open_or_create_store body w).1.
Proof.
  intros Hdir Hbody. assert (Steady open_root) as Hroot by (unfold open_root; solve_steady).
  assert (∀ owner, Steady (open_existing_initialization_directory owner)) as Hexist
    by (intros; unfold open_existing_initialization_directory; solve_steady).
  unfold open_or_create_store, mbind, io_bind, catch.
  pose proof (Hroot w) as H0. destruct (open_root w) as [w0 [[owner|e|]|]]; try done. simpl in H0.
  unfold open_or_publish_initialization_directory, catch. pose proof (Hexist owner w0) as H1.
  unfold same_dir in *. rewrite <-H0 in Hdir.
  pose proof (open_existing_errors owner w0 Hdir) as He. unfold wp in He.
  destruct (open_existing_initialization_directory owner w0) as [w1 [[u|e|]|]]; simpl in H1;
    [|rewrite bool_decide_true by (by apply He)|..]; try (simpl; congruence).
  assert (Steady (with_opener_lock (mkUnixStore owner) false
    (_ ← synchronize_root; _ ← synchronize_directory; body (mkUnixStore owner)))) as Hlock.
  { unfold with_opener_lock. solve_steady. }
  specialize (Hlock w1). unfold same_dir in Hlock. simpl. unfold mbind, io_bind, catch in Hlock.
  simpl in Hlock. repeat case_match; simplify_eq; simpl in *; congruence.
Qed.

(** The openers, on a directory with nothing to recover. *)
Lemma wp_open_reconcile oc od w :
  is_Some (w_dir w) → at_rest oc od w →
  wp open_or_create_scale_set_reconcile_transaction (ensures (idle oc od) (λ _, at_rest oc od)) w.
Proof.
  intros Hdir Hr. apply wp_open_store; [done|by apply rest_idle|..].
  - intros w1 w2 H Hk. by eapply rest_keeps.
  - intros w'. apply rest_idle.
  - intros store now w1 Hnow Hs.
    eapply wp_ensures; [by apply (wp_reconcile_idle store (tx_img (TxIdle oc od)) oc od)|done|].
    intros ? w2 Hs2. by exists now.
Qed.

(** A delivery that is on disk is not published again. *)
Lemma wp_publish_again revision policy delivery t c d w :
  at_rest (Some c) (Some d) w →
  wp (publish_scale_set_reconciled_delivery self revision policy delivery t)
    (ensures (idle (Some c) (Some d)) (λ _, at_rest (Some c) (Some d))) w.
Proof.
  intros Hr.
  apply (wp_transaction self (tx_img (TxIdle (Some c) (Some d))) c (Some d)) with (P := λ _, True);
    [done| | | | |by apply rest_idle].
  - intros [c' d'] w1 w2 H Hk. by eapply rest_keeps.
  - intros [c' d'] w'. apply rest_idle.
  - intros. by eapply wp_nothing_to_recover.
  - intros ? now w1 _ Hsh Hnow Hs1.
    eapply wp_bind; [by apply wp_failing, wp_load_catalog_rest|]. intros occ w4 [Hs4 Hcc].
    apply (read_whole _ _ _ _ (sh_cc _ _ _ _ _ Hsh)) in Hcc as ->. apply wp_bind_ok.
    eapply wp_bind; [by apply wp_load_delivery_rest|]. intros ocd w5 [Hs5 Hcd].
    apply (read_whole _ _ _ _ (sh_cd _ _ _ _ _ Hsh)) in Hcd as ->.
    cbv beta iota zeta. case_match; [by exists now|by eapply stay].
Qed.

Lemma wp_load_recovery oc od w :
  at_rest oc od w →
  wp (load_scale_set_delivery_recovery self) (ensures (idle oc od) (λ o w', o = od ∧ at_rest oc od w')) w.
Proof.
  intros (now & Hs & Hsh). set (ψ := tx_img (TxIdle oc od)). unfold idle. fold ψ.
  assert (ψ now) as Hnow by done.
  eapply wp_bind; [by apply (wp_quiet_rest ψ); [solve_quiet|..]|]. intros ? w1 Hs1. simpl in Hs1. apply wp_catch.
  eapply wp_mono with (Φ := ensures (images ψ) (λ o w', o = od ∧ synced now w')).
  { eapply wp_bind; [by apply (wp_read_in ψ (λ _, False))|]. intros staged w2 [Hs2 _]. case_match; [by eapply stay|].
    eapply wp_ensures; [by apply wp_load_delivery_rest|done|]. intros o w3 [Hs3 Ho]. split; [|done].
    pose proof (sh_cd _ _ _ _ _ Hsh) as Hd. destruct od as [d|]; cbn [whole_or_absent] in Hd.
    - by apply (read_whole _ _ _ _ Hd) in Ho.
    - by apply (read_absent _ _ _ Hd) in Ho. }
  intros [r|] w2 Hw2; [|done]. apply wp_catch. eapply wp_mono; [apply quiet_funlock|]. intros out w3 Hk.
  assert (images ψ w3) as Himg.
  { eapply keeps_images; [|exact Hk]. destruct r as [o|e|]; [|done..]. destruct Hw2 as [_ Hw2]. by eapply stay. }
  destruct out as [_|]; [|done]. apply wp_lift. destruct r as [o|e|]; [|done..]. destruct Hw2 as [-> Hw2].
  split; [done|]. exists now. split; [|done]. by eapply keeps_synced.
Qed.
End at_rest.
