(* ===== verification/ControllerTheorems.v ===== *)
(** * A delivery is acknowledged once

    Runs of the delivery controller against any bridge, stopped and restarted
    at any point: a message with available work is acknowledged only after the
    start of its acknowledgement is durable, and never a second time while its
    delivery is on disk. *)

From S2P Require Import Prelude WorkerQueue StoreWire WorkerStore StoreCodec FileSystem UnixStore UnixSteps.
From S2P Require Import UnixTheorems DiskLogic AttemptState WorkerReconciler AttemptCatalog CatalogSteps CatalogTheorems AttemptCodec.
From S2P Require Import CatalogCodec ScaleSetProtocol ScaleSetDelivery DeliveryConsumer DeliveryTheorems DeliveryRecovery RecoveryTheorems.
From S2P Require Import ExecutionAdmission SettlementTheorems RecoveryCodec CatalogDisk DeliveryDisk DeliveryPair PairSteps PairRecovery.
From S2P Require Import PairPublish PairSamples PairTheorems DeliveryController ControllerSteps.

Local Open Scope N_scope.

(** ** A bridge that keeps what it was asked *)

Inductive bridge_call :=
| CallPoll (capacity : N)
| CallAck (message_id : N)
| CallAcquire (requests : list N).

Definition beside_log {B E A} (record : list bridge_call → list bridge_call) (call : prog B E A)
    : prog (B * list bridge_call) E A :=
  λ '(b, log), let '(b', out) := call b in ((b', record log), out).

Definition logged {B} `{DeliveryBridge B} : DeliveryBridge (B * list bridge_call) := {|
  bridge_resume_after n := beside_log id (bridge_resume_after n);
  bridge_poll n := beside_log (λ log, log ++ [CallPoll n]) (bridge_poll n);
  bridge_ack n := beside_log (λ log, log ++ [CallAck n]) (bridge_ack n);
  bridge_acquire l := beside_log (λ log, log ++ [CallAcquire l]) (bridge_acquire l);
  bridge_poison '(b, log) := (bridge_poison b, log);
|}.

(** What the calls for a delivery with available work have to be: it is
    acknowledged once; after that nothing is polled for but evidence; and what
    is acquired is all that was available. *)
Record obeys (message : N) (available : list N) (log : list bridge_call) : Prop := {
  ob_acquire l : CallAcquire l ∈ log → l = available;
  ob_ack before after : log = before ++ CallAck message :: after → CallAck message ∉ after;
  ob_poll before after n : log = before ++ CallAck message :: after → CallPoll n ∈ after → n = 0;
}.

Lemma obeys_nil message available : obeys message available [].
Proof.
  split; [by intros ? ?%elem_of_nil|..]; intros before after; [|intros n]; intros H; by destruct before.
Qed.

Lemma obeys_snoc message available log call :
  obeys message available log →
  match call with
  | CallPoll n => n = 0 ∨ CallAck message ∉ log
  | CallAck id => id = message → CallAck message ∉ log
  | CallAcquire l => l = available
  end → obeys message available (log ++ [call]).
Proof.
  intros [H1 H2 H3] Hcall.
  assert (∀ before after, log ++ [call] = before ++ CallAck message :: after →
    call = CallAck message ∧ before = log ∧ after = [] ∨
    ∃ after', after = after' ++ [call] ∧ log = before ++ CallAck message :: after') as Hsplit.
  { intros before after Heq. destruct after as [|x after _] using rev_ind.
    - apply app_inj_tail in Heq as [-> ->]. by left.
    - right. exists after. rewrite app_comm_cons, app_assoc in Heq. by apply app_inj_tail in Heq as [-> ->]. }
  split.
  - intros l Hl. apply elem_of_app in Hl as [?|Hl%list_elem_of_singleton]; [by apply H1|]. by subst call.
  - intros before after [(_ & _ & ->)|(after' & -> & Hlog)]%Hsplit; [by intros ?%elem_of_nil|].
    pose proof (H2 _ _ Hlog) as Hn. intros [?|Hx%list_elem_of_singleton]%elem_of_app; [done|].
    subst call. apply Hcall; [done|]. rewrite Hlog. set_solver.
  - intros before after n [(_ & _ & ->)|(after' & -> & Hlog)]%Hsplit; [by intros ?%elem_of_nil|].
    intros [?|Hx%list_elem_of_singleton]%elem_of_app; [by eapply H3|].
    subst call. destruct Hcall as [?|Hn]; [done|]. destruct Hn. rewrite Hlog. set_solver.
Qed.

Section runs.
Context `{SER : !StoreSerde, DS : !DocumentSerde, LIMA : !LimaAuthorityReader, LAWS : CatalogSerdeLaws}
  {CUT : CatalogSerdeCut} `{DLAWS : DeliverySerdeLaws} {HASHER : Sha256Hasher} `{RLAWS : RecoverySerdeLaws}
  {INIT : StoreInitializer} {B : Type} `{BRIDGE : DeliveryBridge B} (δ : ScaleSetDelivery)
  (available : list N) (Hav : available_request_ids δ = Ok available) (Hne : available ≠ []).

#[local] Existing Instance logged | 0.

Abbreviation LB := (B * list bridge_call)%type.
Abbreviation st := (World * LB)%type.
Abbreviation cio := (prog st ScaleSetDeliveryControllerError).
Abbreviation message := (dl_message_id δ).

(** ** What is true at every point *)

(** A document of the delivery; what resolves it has another message. *)
Record carried (d : recovery_doc) : Prop := {
  ca_delivery : rs_delivery d = δ;
  ca_unprepared : prepared d = false;
  ca_resolution r : lifecycle_resolution d = Some r → dl_message_id (lr_delivery r) ≠ message;
}.

(** Before its acknowledgement has started, it was not acknowledged. *)
Definition allowed (log : list bridge_call) (d : recovery_doc) : Prop :=
  carried d ∧ (rs_phase d = Reconciled → CallAck message ∉ log).

Definition reachable (c : catalog_doc) : Prop := rtc catalog_step empty_catalog c.

(** A transaction between documents of the delivery. *)
Definition tx_carries (log : list bridge_call) (t : tx) : Prop :=
  tx_ok t ∧ ∀ oc d, (oc, Some d) ∈ tx_ends t → ∃ c, oc = Some c ∧ reachable c ∧ allowed log d.

Record inv (s : st) : Prop := {
  in_tx : ∃ t, tx_carries s.2.2 t ∧ images (tx_img t) s.1;
  in_dir : is_Some (w_dir s.1);
  in_calls : obeys message available s.2.2;
}.

(** Programs that keep it, wherever they stop. *)
Abbreviation safe m s := (wp m (ensures inv (λ _, inv)) s).

(** Nothing is under way. *)
Record resting (log : list bridge_call) (c : catalog_doc) (d : recovery_doc) (s : st) : Prop := {
  re_rest : at_rest (Some c) (Some d) s.1;
  re_reachable : reachable c;
  re_allowed : allowed log d;
  re_log : s.2.2 = log;
  re_dir : is_Some (w_dir s.1);
  re_calls : obeys message available log;
}.

Lemma step_carries {E} log c d (next : result E recovery_doc) :
  reachable c → allowed log d → (∀ d', next = Ok d' → allowed log d') → tx_carries log (step_tx c d next).
Proof.
  intros Hc Hd Hd'. destruct next as [d'| |]; simpl.
  - specialize (Hd' d' eq_refl). split.
    + split; [|apply Hd']. intros ? [= <-]. apply Hd.
    + intros oc x Hx. apply elem_of_cons in Hx as [[= -> ->]|Hx%list_elem_of_singleton]; [by eauto|].
      injection Hx as -> ->. eauto.
  - split; [intros ? [= <-]; apply Hd|]. intros oc x [= -> ->]%list_elem_of_singleton. eauto.
  - split; [intros ? [= <-]; apply Hd|]. intros oc x [= -> ->]%list_elem_of_singleton. eauto.
Qed.

Lemma idle_carries log c d : reachable c → allowed log d → tx_carries log (TxIdle (Some c) (Some d)).
Proof. intros Hc Hd. by apply (step_carries (E := unit) log c d Panic). Qed.

Lemma resting_inv log c d s : resting log c d s → inv s.
Proof.
  intros [Hr Hc Hd Hlog Hdir Hacks]. split; [|done|by rewrite Hlog].
  exists (TxIdle (Some c) (Some d)). rewrite Hlog. split; [by apply idle_carries|by apply rest_idle].
Qed.

(** ** Rules *)

(** A call of the store that may at most make the directory durable. *)
Definition still (s s' : st) : Prop := keeps s.1 s'.1 ∧ same_dir s.1 s'.1 ∧ s'.2 = s.2.

Lemma inv_still s s' : inv s → still s s' → inv s'.
Proof.
  intros [(t & Ht & Himg) Hdir Hacks] (Hk & Hsame & Heq). unfold same_dir in Hsame. split; rewrite ?Hsame, ?Heq; [|done..].
  exists t. split; [done|]. by eapply keeps_images.
Qed.

Lemma resting_still log c d s s' : resting log c d s → still s s' → resting log c d s'.
Proof.
  intros [] (Hk & Hsame & Heq). unfold same_dir in Hsame. split; rewrite ?Hsame, ?Heq; try done. by eapply rest_keeps.
Qed.

Lemma wp_disk {E A} (m : io E A) Φ (s : st) :
  same_dir s.1 (m s.1).1 → wp m Φ s.1 →
  wp (disk m) (λ out s', Φ out s'.1 ∧ s'.2 = s.2 ∧ same_dir s.1 s'.1) s.
Proof.
  destruct s as [w b]. unfold wp, disk. cbn [fst snd]. destruct (m w) as [w' out]. done.
Qed.

(** A transaction of the store. *)
Lemma wp_disk_tx {E A} (m : io E A) t Q log c d s :
  resting log c d s → tx_carries log t → wp m (ensures (images (tx_img t)) Q) s.1 → same_dir s.1 (m s.1).1 →
  wp (disk m) (ensures inv (λ a s', Q a s'.1 ∧ s'.2.2 = log ∧ is_Some (w_dir s'.1))) s.
Proof.
  intros [Hr Hc Hd Hlog Hdir Hacks] Ht Hm Hs. eapply wp_mono; [by apply wp_disk|].
  intros out s' (Hout & Heq & Hsame). unfold same_dir in Hsame.
  assert (images (tx_img t) s'.1 → inv s') as Hinv.
  { intros Himg. split; rewrite ?Hsame, ?Heq, ?Hlog; [by exists t|done..]. }
  destruct out as [[a|e|]|]; simpl in *; [|auto..]. by rewrite Hsame, Heq, Hlog.
Qed.

(** A call of the store that leaves the documents as they are. *)
Lemma wp_disk_rest {E A} (m : io E A) (P : A → Prop) log c d s :
  resting log c d s →
  wp m (ensures (idle (Some c) (Some d)) (λ a w', P a ∧ at_rest (Some c) (Some d) w')) s.1 →
  same_dir s.1 (m s.1).1 → wp (disk m) (ensures inv (λ a s', P a ∧ resting log c d s')) s.
Proof.
  intros Hr Hm Hs.
  eapply wp_ensures; [by eapply (wp_disk_tx m (TxIdle (Some c) (Some d))); [..|apply idle_carries; apply Hr| |]|done|].
  intros a s' ((HP & Hr') & Hlog & Hdir). split; [done|]. destruct Hr. by split.
Qed.

Lemma wp_locked_with {A} (self : UnixPersonalWorkerStore) (body : prog st PersonalWorkerStoreError A) Q log c d s :
  resting log c d s → (∀ s1, resting log c d s1 → wp body (ensures inv Q) s1) →
  (∀ a s1 s2, Q a s1 → still s1 s2 → Q a s2) → (∀ a s1, Q a s1 → inv s1) →
  wp (locked_with self body) (ensures inv Q) s.
Proof.
  intros Hr Hbody HQ HQinv. eapply wp_bind with (R := λ _ s', resting log c d s').
  { eapply wp_mono; [apply wp_disk; [apply steady|apply (quiet (Quiet := _))]|].
    intros out s' (Hk & Heq & Hsame). pose proof (resting_still _ _ _ _ s' Hr (conj Hk (conj Hsame Heq))) as Hr'.
    destruct out as [[a|e|]|]; simpl; eauto using resting_inv. }
  intros u s1 Hr1. apply wp_catch. eapply wp_mono; [by apply Hbody|]. intros [r|] s2 Hs2; [|done].
  apply wp_catch. eapply wp_mono; [apply wp_disk; [apply steady|apply quiet_funlock]|].
  intros out s3 (Hk & Heq & Hsame). assert (still s2 s3) as Hst by done.
  assert (inv s3). { eapply inv_still; [|exact Hst]. destruct r as [a|e|]; simpl in Hs2; eauto. }
  destruct out as [_|]; [|done]. apply wp_lift. destruct r as [a|e|]; simpl in *; eauto.
Qed.

(** The next document of the delivery. *)
Lemma wp_step (self : UnixPersonalWorkerStore) log c d d' s :
  resting log c d s → allowed log d' →
  wp (disk (publish_scale_set_delivery_successor_locked self d d')) (ensures inv (λ _, resting log c d')) s.
Proof.
  intros Hr Hd'. eapply wp_ensures.
  - apply (wp_disk_tx _ (step_tx (E := unit) c d (Ok d'))
      (λ _, at_rest (Some c) (Some d')) log c d); [done| |apply wp_publish_successor, Hr|apply steady].
    apply step_carries; [apply Hr..|]. by intros ? [= <-].
  - done.
  - intros [] s' (Hr' & Hlog & Hdir). destruct Hr. by split.
Qed.

Lemma wp_step_or_stay (self : UnixPersonalWorkerStore) log c d d' s :
  resting log c d s → allowed log d' →
  wp (disk (if bool_decide (d' ≠ d) then publish_scale_set_delivery_successor_locked self d d' else mret ()))
    (ensures inv (λ _, resting log c d')) s.
Proof.
  intros Hr Hd'. case_bool_decide as Hch; [by apply wp_step|]. subst. by destruct s as [w b].
Qed.

(** Programs described by what holds however they end. *)
Lemma wp_bind_any {E A A'} (m : prog st E A) (f : A → prog st E A') (R : st → Prop) s :
  wp m (λ _, R) s → (∀ a s', R s' → wp (f a) (λ _, R) s') → wp (m ≫= f) (λ _, R) s.
Proof.
  intros Hm Hf. apply wp_catch. eapply wp_mono; [exact Hm|]. intros [[a|e|]|] s' HR; [by apply Hf|done..].
Qed.

Lemma wp_any {E A} (m : prog st E A) (R : st → Prop) s :
  wp m (λ _, R) s → (∀ s', R s' → inv s') → wp m (ensures inv (λ _, R)) s.
Proof. intros Hm HR. eapply wp_mono; [exact Hm|]. intros [[a|e|]|] s' H; simpl; auto. Qed.

Lemma wp_external {E A T} (call : prog st E A) k (R : st → Prop) Q s :
  wp call (λ _, R) s → (∀ s', R s' → inv s') → (∀ e s', R s' → Q (ExternalFailed e) s') →
  (∀ a s', R s' → wp (k a) (ensures inv Q) s') → wp (external (T := T) call k) (ensures inv Q) s.
Proof.
  intros Hcall HR HQ Hk. apply wp_catch. eapply wp_mono; [exact Hcall|].
  intros [[a|e|]|] s' HRs; [by apply Hk|by apply HQ|by apply HR..].
Qed.

(** *** Calls of the bridge *)

Lemma wp_bridge {A} (call : prog B ScaleSetBridgeError A) record log c d s :
  resting log c d s → allowed (record log) d → obeys message available (record log) →
  wp (bridge (B := LB) (beside_log record call)) (λ _, resting (record log) c d) s.
Proof.
  destruct s as [w [b l]]. intros [Hr Hc Hd Hlog Hdir Hacks] Hd' Hacks'. simpl in Hlog. subst l.
  apply wp_catch. unfold wp, beside_log. destruct (call b) as [b' [r|]]; by split.
Qed.

Lemma wp_poison {E} (R : st → Prop) s :
  (∀ w b b' log, R (w, (b, log)) → R (w, (b', log))) → R s → wp (poison (E := E)) (λ _, R) s.
Proof. intros HR. destruct s as [w [b log]]. unfold wp, poison. simpl. apply HR. Qed.

Lemma resting_bridge log c d w b b' l : resting log c d (w, (b, l)) → resting log c d (w, (b', l)).
Proof. intros []. by split. Qed.

Lemma inv_bridge w b b' l : inv (w, (b, l)) → inv (w, (b', l)).
Proof. intros []. by split. Qed.

Lemma wp_poisoned {A} (R : st → Prop) e s :
  (∀ w b b' log, R (w, (b, log)) → R (w, (b', log))) → R s → wp (poisoned (A := A) e) (λ _, R) s.
Proof. intros HR Hs. apply wp_bind_any; [by apply wp_poison|done]. Qed.

Lemma allowed_other log call d : call ≠ CallAck message → allowed log d → allowed (log ++ [call]) d.
Proof. intros Hx [Hca Hn]. split; [done|]. intros Hph. specialize (Hn Hph). set_solver. Qed.

Lemma wp_poll capacity log c d s :
  capacity = 0 ∨ CallAck message ∉ log → resting log c d s →
  wp (poll_delivery capacity) (λ _, resting (log ++ [CallPoll capacity]) c d) s.
Proof.
  intros Hcap Hr. apply wp_bind_any.
  { apply (wp_bridge (bridge_poll capacity) (λ log, log ++ [CallPoll capacity])); [done|..].
    - by apply allowed_other; [|apply Hr].
    - by apply obeys_snoc; [apply Hr|]. }
  intros poll s' Hr'. destruct (from_bridge_poll poll); [done|apply wp_poisoned, Hr'; apply resting_bridge|done].
Qed.

(** ** Documents of the delivery *)

Lemma step_allowed log d action d' :
  match action with ActResolve _ _ _ _ | ActSettle _ _ => False | _ => True end →
  recovery_apply d action = Ok d' → allowed log d → allowed log d'.
Proof.
  intros Hact Happ [[Hdel Hun Hres] Hrec]. apply recovery_apply_Ok in Happ as [->|[Hnext Hstep]]; [by split|].
  split; [split; [by rewrite (rn_delivery _ _ Hnext)|..]|].
  1: unfold prepared. 2: unfold lifecycle_resolution.
  all: destruct Hstep as [|?? Hp|?? Hp|??? Hp|?????? Hp|? Hp|? Hp|]; try done.
  all: intros ? [= <-]; apply Hres; unfold lifecycle_resolution; by rewrite Hp.
Qed.

(** Once its acknowledgement has started, any acknowledgement is allowed. *)
Lemma started_allowed log log' d d' :
  begin_ack d = Ok d' → rs_phase d = Reconciled → allowed log d → allowed log' d'.
Proof.
  intros Hd Hph Ha. pose proof (step_allowed log d ActBeginAck d' I Hd Ha) as [Hca _]. split; [done|].
  unfold begin_ack in Hd. rewrite Hph in Hd. apply recovery_successor_Ok in Hd as (_ & Hp & _). by rewrite Hp.
Qed.

Lemma resolved_allowed log policy d delivery c c' d' :
  resources_ok (po_resources policy) → reachable c → carried d →
  resolves policy d delivery c c' d' → reachable c' ∧ allowed log d'.
Proof.
  intros Hpol Hc [Hdel Hun Hres] (ambiguous & acquired & Ham & Hc' & Hd').
  pose proof (prepared_resolution _ _ _ _ _ _ Hd')
    as (_ & _ & [events Hev] & r & Hph & _ & _ & _ & Hdel' & _).
  destruct (resolution_result policy Hpol _ _ _ _ _ _ (chain_wf _ _ empty_catalog_wf Hc) Hev Hc')
    as (_ & X & _ & _ & _ & Hinv & _).
  split.
  { unfold reachable in *. etrans; [exact Hc|]. eapply rtc_subrel; [|apply Hinv]. intros ?? ?%progress_step. done. }
  split; [split|by rewrite Hph].
  - by rewrite Hdel'.
  - unfold prepared. by rewrite Hph.
  - intros r' Hr'. unfold lifecycle_resolution in Hr'. rewrite Hph in Hr'. injection Hr' as <-.
    unfold prepare_lifecycle_resolution in Hd'. apply ok_guard in Hd' as [Hg Hd']. bprop.
    apply bind_Ok in Hd' as (? & _ & Hd'). apply ok_guard in Hd' as [_ Hd'].
    apply bind_Ok in Hd' as (? & _ & Hd'). apply ok_guard in Hd' as [_ Hd'].
    apply bind_Ok in Hd' as (? & _ & Hd'). apply ok_guard in Hd' as [_ Hd'].
    apply bind_Ok in Hd' as (? & _ & Hd'). apply successor_with_catalog_Ok in Hd' as (_ & Hp & _).
    rewrite Hph in Hp. injection Hp as ->. simpl. rewrite <-Hdel. lia.
Qed.

(** ** The transactions that call the bridge *)

Section transactions.
Context (self : UnixPersonalWorkerStore).

Definition completed {E} (c : catalog_doc) (r : ScaleSetExternalTransaction recovery_doc E) (s : st) : Prop :=
  match r with
  | Completed d' => ∃ log, resting log c d' s
  | ExternalFailed _ => inv s
  end.

Lemma completed_still {E} c (r : ScaleSetExternalTransaction recovery_doc E) s s' :
  completed c r s → still s s' → completed c r s'.
Proof.
  destruct r; simpl; [|apply inv_still]. intros [log Hr] Hs. exists log. by eapply resting_still.
Qed.

Lemma completed_inv {E} c (r : ScaleSetExternalTransaction recovery_doc E) s : completed c r s → inv s.
Proof. destruct r; simpl; [|done]. intros [log Hr]. by eapply resting_inv. Qed.

Lemma wp_completed {E} log c d s :
  resting log c d s →
  wp (mret (Completed (E := E) d)) (ensures (E := PersonalWorkerStoreError) inv (completed c)) s.
Proof. intros Hr. apply wp_lift. by exists log. Qed.

Lemma wp_ack_available (ids : gset N) id log c d s :
  resting log c d s → allowed (log ++ [CallAck id]) d → obeys message available (log ++ [CallAck id]) →
  wp (acknowledge_available ids id) (λ _, resting (log ++ [CallAck id]) c d) s.
Proof.
  intros Hr Ha Hob. apply wp_bind_any; [by apply (wp_bridge (bridge_ack id) (λ log, log ++ [CallAck id]))|].
  intros values s1 Hr1. apply wp_bind_any; [done|]. intros acquired s2 Hr2.
  case_match; [apply wp_poisoned, Hr2; apply resting_bridge|done].
Qed.

Lemma wp_ack_nothing poisons id log c d s :
  id ≠ message → resting log c d s → wp (acknowledge_nothing poisons id) (λ _, resting (log ++ [CallAck id]) c d) s.
Proof.
  intros Hid Hr. apply wp_bind_any.
  { apply (wp_bridge (bridge_ack id) (λ log, log ++ [CallAck id])); [done|..].
    - apply allowed_other; [congruence|apply Hr].
    - by apply obeys_snoc; [apply Hr|]. }
  intros acquired s1 Hr1. case_match; [done|]. case_match; [apply wp_poisoned, Hr1; apply resting_bridge|done].
Qed.

(** What every transaction loads is the document that is there. *)
Lemma wp_candidate expected absent candidate text log c d s :
  resting log c d s →
  wp (disk (load_candidate self expected absent candidate text))
    (ensures inv (λ current s', (current = d ∧ candidate d = Ok true) ∧ resting log c d s')) s.
Proof.
  intros Hr. eapply (wp_disk_rest _ (λ current, current = d ∧ candidate d = Ok true)); [done| |apply steady].
  eapply wp_ensures; [by apply (wp_load_candidate self c d), Hr|done|]. naive_solver.
Qed.

Lemma wp_acknowledge expected (ids : gset N) log c d s :
  resting log c d s →
  wp (acknowledge_scale_set_delivery_locked self expected (acknowledge_available ids))
    (ensures inv (completed c)) s.
Proof.
  intros Hr0. eapply wp_locked_with; [exact Hr0| |apply completed_still|apply completed_inv].
  intros s1 Hr1. eapply wp_bind; [by apply wp_candidate|]. intros ? s2 [[-> Hph] Hr2].
  assert (rs_phase d = Reconciled) as Hrec by (by destruct (rs_phase d)). clear Hph.
  pose proof (re_allowed _ _ _ _ Hr2) as Ha. pose proof Ha as [_ Hnot%(λ H, H Hrec)].
  apply wp_bind_lift; [by eapply resting_inv|]. intros started Hst%map_err_Ok.
  eapply wp_bind; [by apply wp_step; [|eapply started_allowed]|]. intros ? s3 Hr3.
  pose proof (started_allowed log (log ++ [CallAck message]) _ _ Hst Hrec Ha) as Ha'.
  rewrite (ca_delivery _ (proj1 Ha')).
  eapply wp_external; [apply (wp_ack_available _ message log c started); [done..|by apply obeys_snoc; [apply Hr3|]]| | |].
  - intros s'. apply resting_inv.
  - intros e s'. apply resting_inv.
  - intros acquired s4 Hr4. apply wp_bind_lift; [by eapply resting_inv|]. intros acknowledged Hack%map_err_Ok.
    eapply wp_bind; [apply wp_step; [exact Hr4|by eapply (step_allowed _ _ (ActAckResponse acquired))]|].
    intros ? s5 Hr5. eapply wp_completed. exact Hr5.
Qed.

Lemma wp_acquire expected log c d s :
  resting log c d s →
  wp (recover_scale_set_acquisition_locked self expected (λ l, bridge (B := LB) (bridge_acquire l)))
    (ensures inv (completed c)) s.
Proof.
  intros Hr0. eapply wp_locked_with; [exact Hr0| |apply completed_still|apply completed_inv].
  intros s1 Hr1. eapply wp_bind; [by apply wp_candidate|]. intros ? s2 [[-> Hph] Hr2].
  pose proof (ca_delivery _ (proj1 (re_allowed _ _ _ _ Hr2))) as Hdel.
  apply wp_bind_lift; [by eapply resting_inv|]. intros l Hl%map_err_Ok. case_match; [by eapply resting_inv|].
  assert (l = available) as -> by congruence.
  eapply wp_external; [apply (wp_bridge (bridge_acquire available) (λ log, log ++ [CallAcquire available]) log c d);
    [done|by apply allowed_other; [|apply Hr2]|by apply obeys_snoc; [apply Hr2|]]| | |].
  - intros s'. apply resting_inv.
  - intros e s'. apply resting_inv.
  - intros acquired s4 Hr4. apply wp_bind_lift; [by eapply resting_inv|]. intros d' Hd'%map_err_Ok.
    pose proof (step_allowed _ _ (ActRecoveryAcquire acquired) _ I Hd' (re_allowed _ _ _ _ Hr4)) as Ha.
    eapply wp_bind; [by apply wp_step_or_stay|].
    intros ? s5 Hr5. eapply wp_completed. exact Hr5.
Qed.

Lemma wp_acknowledge_lifecycle expected log c d s :
  resting log c d s →
  wp (acknowledge_scale_set_lifecycle_locked self expected (acknowledge_nothing false))
    (ensures inv (completed c)) s.
Proof.
  intros Hr0. eapply wp_locked_with; [exact Hr0| |apply completed_still|apply completed_inv].
  intros s1 Hr1. eapply wp_bind; [by apply wp_candidate|]. intros ? s2 [[-> Hph] Hr2].
  apply wp_bind_lift; [by eapply resting_inv|]. intros started Hst%map_err_Ok.
  pose proof (step_allowed _ _ ActBeginLifecycleAck _ I Hst (re_allowed _ _ _ _ Hr2)) as Ha.
  eapply wp_bind; [by apply wp_step_or_stay|]. intros ? s3 Hr3. simpl in Hr3. apply wp_bind_lift; [by eapply resting_inv|]. intros r Hres%ok_or_Ok.
  assert (dl_message_id (lr_delivery r) ≠ message) as Hother by (by apply Ha).
  eapply wp_external; [by apply (wp_ack_nothing false _ log c started)| | |].
  - intros s'. apply resting_inv.
  - intros e s'. apply resting_inv.
  - intros acquired s4 Hr4. case_match; [by eapply resting_inv|].
    apply wp_bind_lift; [by eapply resting_inv|]. intros d' Hd'%map_err_Ok.
    eapply wp_bind; [apply wp_step; [exact Hr4|by eapply (step_allowed _ _ ActLifecycleAck); [..|apply Hr4]]|].
    intros ? s5 Hr5. eapply wp_completed. exact Hr5.
Qed.

(** ** The controller *)

Lemma settlement_carries log c d : reachable c → allowed log d → tx_carries log (settlement_tx d c).
Proof.
  intros Hc Ha. split; [by apply settlement_ok; [|apply Ha]|]. intros oc x Hx.
  assert ((oc, Some x) = (Some c, Some d)) as [= -> ->]; [|by eauto].
  unfold settlement_tx in Hx. repeat case_match; simpl in Hx; set_solver.
Qed.

Lemma resolution_carries log policy delivery c d :
  resources_ok (po_resources policy) → reachable c → allowed log d →
  tx_carries log (resolution_tx policy d delivery c).
Proof.
  intros Hpol Hc Ha. split; [by apply resolution_ok; [..|apply Ha]|]. intros oc x Hx. unfold resolution_tx in Hx.
  destruct (available_request_ids (rs_delivery d)) as [ambiguous| |] eqn:Ham.
  1: destruct (reconcile_scale_set_acquisition_resolution policy ambiguous delivery c) as [[c' acquired]| |] eqn:Hc'.
  1: destruct (prepare_lifecycle_resolution d delivery acquired c c') as [d'| |] eqn:Hd'.
  1: rewrite pair_tx_ends in Hx.
  all: repeat (apply elem_of_cons in Hx as [[= -> ->]|Hx]; [|]); try (by apply elem_of_nil in Hx); try by eauto.
  assert (resolves policy d delivery c c' d') as Hres by by exists ambiguous, acquired.
  destruct (resolved_allowed log policy d delivery c c' d' Hpol Hc (proj1 Ha) Hres). by eauto.
Qed.

Lemma settle_safe log c d n s : resting log c d s → safe (settle_delivery self d n) s.
Proof.
  intros Hr. pose proof Hr as [Hat Hc Ha Hlog Hdir Hacks]. eapply wp_bind with (R := λ _, inv).
  - apply wp_failing. eapply wp_ensures.
    + eapply (wp_disk_tx _ (settlement_tx d c)); [exact Hr|by apply settlement_carries| |apply steady].
      apply wp_settle; [apply Ha|by apply rest_idle].
    + done.
    + intros x s' ((Hset & Hr') & Hlog' & Hdir'). split; [|done|by rewrite Hlog'].
      exists (settlement_tx d c). rewrite Hlog'. split; [by apply settlement_carries|].
      eapply images_mono; [by apply rest_idle|]. intros img. rewrite (settles_tx _ _ _ _ Hset).
      apply (ends_img _ (Some (ss_catalog x), None)). set_solver.
  - intros x s' Hs'. by case_match.
Qed.

Lemma completed_safe {E} c (r : ScaleSetExternalTransaction recovery_doc ScaleSetDeliveryControllerError) s
    (k : recovery_doc → cio E) :
  completed c r s → (∀ log d s', resting log c d s' → safe (k d) s') → safe (completed_or_poison r ≫= k) s.
Proof.
  intros Hr Hk. destruct r as [d|e]; simpl in Hr.
  - destruct Hr as [log Hr]. by apply (Hk log).
  - destruct s as [w [b log]]. by apply (inv_bridge w b).
Qed.

Lemma acknowledge_delivery_safe log c d s : resting log c d s → safe (acknowledge_delivery self d) s.
Proof.
  intros Hr. apply wp_bind_lift; [by eapply resting_inv|]. intros l _.
  eapply wp_bind; [by eapply wp_failing, wp_acknowledge|]. intros r s1 Hs1. eapply completed_safe; [exact Hs1|].
  intros log' d' s2 Hr2. case_match; try (by eapply resting_inv). by eapply settle_safe.
Qed.

Lemma settle_acquired_safe log c d s :
  resting log c d s → safe (acquired ← lift (lifecycle_acquired d); settle_delivery self d acquired) s.
Proof.
  intros Hr. apply wp_bind_lift; [by eapply resting_inv|]. intros n _. by eapply settle_safe.
Qed.

Lemma acknowledge_lifecycle_safe log c d s : resting log c d s → safe (acknowledge_lifecycle self d) s.
Proof.
  intros Hr. eapply wp_bind; [by eapply wp_failing, wp_acknowledge_lifecycle|]. intros r s1 Hs1.
  eapply completed_safe; [exact Hs1|]. intros log' d' s2 Hr2. by eapply settle_acquired_safe.
Qed.

Lemma confirm_lifecycle_safe log c d s : resting log c d s → safe (confirm_lifecycle_ack self d) s.
Proof.
  intros Hr. pose proof Hr as [Hat Hc Ha Hlog Hdir Hacks].
  eapply wp_bind with (R := λ d', resting log c d').
  - apply wp_failing. eapply wp_ensures.
    + eapply (wp_disk_tx _ (step_tx c d (record_lifecycle_ack d))); [exact Hr| |by apply wp_confirm_lifecycle|apply steady].
      apply step_carries; [done..|]. intros d' Hd'. by eapply (step_allowed _ _ ActLifecycleAck).
    + done.
    + intros d' s' ((Hd' & Hr') & Hlog' & Hdir'). split; try done. by eapply (step_allowed _ _ ActLifecycleAck).
  - intros d' s' Hr'. by eapply settle_acquired_safe.
Qed.

(** An error or a stop leaves the invariant, and poisoning keeps it. *)
Lemma wp_or_poison {A} (call : cio A) Q s : wp call (ensures inv Q) s → wp (or_poison call) (ensures inv Q) s.
Proof.
  intros Hcall. apply wp_catch. eapply wp_mono; [exact Hcall|]. intros [[a|e|]|] s' Hs'; [done| |done..].
  destruct s' as [w [b log]]. by apply (inv_bridge w b).
Qed.

Lemma wp_poll_rest capacity log c d s :
  capacity = 0 ∨ CallAck message ∉ log → resting log c d s →
  wp (poll_delivery capacity) (ensures inv (λ _, resting (log ++ [CallPoll capacity]) c d)) s.
Proof. intros Hcap Hr. apply wp_any; [by apply wp_poll|]. intros s'. apply resting_inv. Qed.

Lemma wp_resume id log c d s :
  resting log c d s →
  wp (bridge (B := LB) (bridge_resume_after id)) (ensures inv (λ _, resting log c d)) s.
Proof.
  intros Hr. apply wp_any; [apply (wp_bridge (bridge_resume_after id) (λ l, l)); [done|apply Hr..]|].
  intros s'. apply resting_inv.
Qed.

Lemma poison_then {A} log c d (k : unit → cio A) s :
  resting log c d s → (∀ s', resting log c d s' → safe (k ()) s') → safe (poison ≫= k) s.
Proof.
  intros Hr Hk. eapply wp_bind; [apply wp_any; [by apply (wp_poison (resting log c d)); [apply resting_bridge|]|]|].
  - intros s'. apply resting_inv.
  - intros [] s' Hs'. by apply Hk.
Qed.

(** Opening the store again, with nothing to recover. *)
Lemma wp_open_again log c d s :
  resting log c d s →
  wp (stored_call open_or_create_scale_set_reconcile_transaction) (ensures inv (λ _, resting log c d)) s.
Proof.
  intros Hr. apply wp_failing. eapply wp_ensures; [apply (wp_disk_rest _ (λ _, True) log c d); [done| |]|done|by intros ? ? []].
  - eapply wp_ensures; [apply wp_open_reconcile; apply Hr|done|done].
  - apply open_store_dir; [apply Hr|solve_steady].
Qed.

Lemma observe_safe policy log c d s :
  resources_ok (po_resources policy) → resting log c d s → safe (observe_lifecycle_resolution policy self d) s.
Proof.
  intros Hpol Hr. eapply wp_bind; [by apply wp_resume|]. intros ? s1 Hr1. simpl in Hr1.
  eapply wp_bind; [by apply wp_poll_rest; [left|]|]. intros observed s2 Hr2. simpl in Hr2.
  set (log2 := log ++ [CallPoll 0]) in *. destruct observed as [delivery|].
  - eapply wp_bind; [by apply wp_or_poison, wp_open_again|]. intros paired s3 Hr3. simpl in Hr3.
    pose proof Hr3 as [Hat Hc Ha Hlog Hdir Hacks].
    eapply wp_bind with (R := λ d' s', ∃ c', resting log2 c' d' s').
    + apply wp_or_poison, wp_failing. eapply wp_ensures.
      * eapply (wp_disk_tx _ (resolution_tx policy d delivery c)); [exact Hr3|by apply resolution_carries| |apply steady].
        by apply wp_publish_resolution, rest_idle.
      * done.
      * intros d' s' ((c' & Hres & Hr') & Hlog' & Hdir'). exists c'.
        destruct (resolved_allowed log2 policy d delivery c c' d' Hpol Hc (proj1 Ha) Hres). by split.
    + intros d' s4 [c' Hr4]. by eapply acknowledge_lifecycle_safe.
  - eapply poison_then; [exact Hr2|]. intros s3 Hr3. by eapply resting_inv.
Qed.

Lemma acquire_safe policy log c d s :
  resources_ok (po_resources policy) → resting log c d s → safe (recover_acquisition policy self d) s.
Proof.
  intros Hpol Hr. pose proof (re_allowed _ _ _ _ Hr) as [[Hd _ _] _].
  unfold recover_acquisition, available_of. rewrite Hd, Hav. apply wp_bind_ok.
  case_match eqn:Hlen; [by destruct available|].
  eapply wp_bind; [by eapply wp_failing, wp_acquire|]. intros r s1 Hs1.
  destruct r as [d'|e]; [|done]. destruct Hs1 as [log' Hr1]. apply wp_bind_ok.
  case_match; try (by eapply resting_inv). case_match; [by eapply observe_safe|by eapply settle_safe].
Qed.

Lemma lifecycle_safe log c d s : resting log c d s → safe (recover_lifecycle_ack self d) s.
Proof.
  intros Hr. apply wp_bind_lift; [by eapply resting_inv|]. intros r _.
  eapply wp_bind; [by apply wp_resume|]. intros ? s1 Hr1. simpl in Hr1.
  eapply wp_bind; [by apply wp_poll_rest; [left|]|]. intros observed s2 Hr2. simpl in Hr2. destruct observed as [redelivered|].
  - case_match; [by eapply acknowledge_lifecycle_safe|].
    eapply wp_bind with (R := λ _, resting (log ++ [CallPoll 0]) c d).
    { case_match; [|done]. apply wp_bind_lift; [by eapply resting_inv|]. by intros. }
    intros [] s3 Hr3; simpl in Hr3.
    + eapply poison_then; [exact Hr3|]. intros s4 Hr4. by eapply confirm_lifecycle_safe.
    + eapply (poison_then _ c d (λ _, lift (Err controller_conflict))); [exact Hr3|].
      intros s4 Hr4. by eapply resting_inv.
  - eapply poison_then; [exact Hr2|]. intros s3 Hr3. case_match; [by eapply confirm_lifecycle_safe|by eapply resting_inv].
Qed.

Lemma poisoned_safe {A} log c d e s : resting log c d s → safe (poisoned (A := A) e) s.
Proof.
  intros Hr. eapply (poison_then log c d (λ _, lift (Err e))); [exact Hr|]. intros s' Hr'. by eapply resting_inv.
Qed.

Lemma reconciled_safe policy t log c d s :
  rs_phase d = Reconciled → resting log c d s → safe (resume_reconciled policy t self d) s.
Proof.
  intros Hph Hr. apply wp_bind_lift; [by eapply resting_inv|]. intros l _.
  eapply wp_bind; [apply wp_poll_rest; [right; by apply (re_allowed _ _ _ _ Hr)|done]|]. intros observed s1 Hr1. simpl in Hr1.
  destruct observed as [observed|]; [|by eapply poisoned_safe]. case_bool_decide; [by eapply poisoned_safe|].
  eapply wp_bind; [by apply wp_or_poison, wp_open_again|]. intros paired s2 Hr2. simpl in Hr2.
  eapply wp_bind.
  { apply wp_or_poison, wp_failing. eapply (wp_disk_rest _ (λ _, True)); [exact Hr2| |apply steady].
    eapply wp_ensures; [apply wp_publish_again, Hr2|done|done]. }
  intros ? s3 [_ Hr3]. by eapply acknowledge_delivery_safe.
Qed.

Lemma resume_safe policy t log c d s :
  resources_ok (po_resources policy) → resting log c d s → safe (resume_delivery policy t self d) s.
Proof.
  intros Hpol Hr. unfold resume_delivery. destruct (rs_phase d) eqn:Hph.
  - by eapply reconciled_safe; [exact Hph|].
  - by eapply acquire_safe.
  - by eapply settle_safe.
  - case_match; [by eapply observe_safe|by eapply settle_safe].
  - by eapply lifecycle_safe.
  - by eapply lifecycle_safe.
  - by eapply settle_safe.
  - by eapply settle_safe.
Qed.
End transactions.

(** What a run of the controller finds first. *)
Definition find_delivery : io PersonalWorkerStoreError (option recovery_doc) :=
  store ← open_or_create_scale_set_delivery_controller;
  load_scale_set_delivery_recovery store.

Lemma wp_with_run {E A} (m : io E A) Φ w : wp m Φ w → wp m (λ out w', Φ out w' ∧ m w = (w', out)) w.
Proof. unfold wp. by destruct (m w). Qed.

(** A run that finds the delivery keeps the invariant, wherever it stops. *)
Lemma consume_safe policy t capacity revision s :
  resources_ok (po_resources policy) →
  inv s → (find_delivery s.1).2 ≠ Done (Ok None) →
  safe (consume_with_bridge_capacity_inner policy t capacity revision) s.
Proof.
  intros Hpol Hinv Hfind. pose proof Hinv as [(tr & Htr & Himg) Hdir Hacks].
  unfold consume_with_bridge_capacity_inner. case_match; [done|].
  eapply wp_bind with (R := λ store s1, open_or_create_scale_set_delivery_controller s.1 = (s1.1, Done (Ok store)) ∧
    s1.2 = s.2 ∧ is_Some (w_dir s1.1) ∧ ∃ e, e ∈ tx_ends tr ∧ at_rest e.1 e.2 s1.1).
  { apply wp_failing. eapply wp_mono.
    - apply wp_disk; [apply open_store_dir; [done|solve_steady]|].
      apply wp_with_run, (wp_open_controller tr); [apply Htr|done|done].
    - intros out s1 ((Hout & Hrun) & Heq & Hsame). unfold same_dir in Hsame.
      assert (images (tx_img tr) s1.1 → inv s1) as Hi.
      { intros Hi. split; rewrite ?Hsame, ?Heq; [by exists tr|done..]. }
      destruct out as [[store|e|]|]; simpl in *; [|by apply Hi..]. by rewrite Hsame. }
  intros store s1 (Hrun & Heq & Hdir1 & [oc od] & He & Hat). simpl in Hat.
  assert (idle oc od s1.1 → inv s1) as Hidle.
  { intros Hi. split; rewrite ?Heq; [|done..]. exists tr. split; [done|]. eapply images_mono; [exact Hi|].
    intros img. by apply (ends_img _ (oc, od)). }
  eapply wp_bind with (R := λ found s2, ∃ d c, found = Some d ∧ resting s.2.2 c d s2).
  - apply wp_failing. eapply wp_mono; [apply wp_disk; [apply steady|]; apply wp_with_run; by apply (wp_load_recovery store oc od)|].
    intros out s2 ((Hout & Hload) & Heq2 & Hsame). unfold same_dir in Hsame.
    assert (idle oc od s2.1 → inv s2) as Hi2.
    { intros Hi. split; rewrite ?Hsame, ?Heq2, ?Heq; [|done..]. exists tr. split; [done|]. eapply images_mono; [exact Hi|].
      intros img. by apply (ends_img _ (oc, od)). }
    destruct out as [[found|e|]|]; simpl in *; [|by apply Hi2..]. destruct Hout as [-> Hr2].
    destruct od as [d|].
    + destruct (proj2 Htr oc d He) as (c & -> & Hc & Ha). exists d, c. split; [done|].
      split; rewrite ?Hsame, ?Heq2, ?Heq; done.
    + exfalso. apply Hfind. unfold find_delivery, mbind, io_bind, catch. rewrite Hrun. by rewrite Hload.
  - intros found s2 (d & c & -> & Hr2). by eapply resume_safe.
Qed.
End runs.

Section acknowledgement.
Context `{SER : !StoreSerde, DS : !DocumentSerde, LIMA : !LimaAuthorityReader, LAWS : CatalogSerdeLaws}
  {CUT : CatalogSerdeCut} `{DLAWS : DeliverySerdeLaws} {HASHER : Sha256Hasher} `{RLAWS : RecoverySerdeLaws}
  {INIT : StoreInitializer} {B : Type} `{BRIDGE : DeliveryBridge B}.

(** Runs of the controller that find the delivery on disk, each of which may
    stop anywhere, and restarts with a fresh bridge, in any number and order.
    The calls of all bridges are kept. *)
Inductive controller_runs (s0 : World * (B * list bridge_call)) : World * (B * list bridge_call) → Prop :=
| runs_not : controller_runs s0 s0
| runs_restart w w' b b' log :
    controller_runs s0 (w, (b, log)) → restarts w w' → controller_runs s0 (w', (b', log))
| runs_again s policy t capacity revision :
    controller_runs s0 s → resources_ok (po_resources policy) → (find_delivery s.1).2 ≠ Done (Ok None) →
    controller_runs s0 (consume_with_bridge_capacity_inner (BRIDGE := logged) policy t capacity revision s).1.

Lemma inv_restarts δ available w w' (b b' : B) log :
  inv (B := B) δ available (w, (b, log)) → restarts w w' → inv δ available (w', (b', log)).
Proof.
  intros [(t & Ht & Himg) Hdir Hcalls] Hre. split; [|by destruct Hre|done]. exists t. split; [done|].
  eapply restarts_images; [|exact Himg|exact Hre]. intros. by apply tx_survives.
Qed.

Lemma runs_inv δ available s0 s :
  available_request_ids δ = Ok available → available ≠ [] →
  inv δ available s0 → controller_runs s0 s → inv δ available s.
Proof.
  intros Hav Hne H0 Hruns. induction Hruns as [|w w' b b' log _ IH Hre|s policy t capacity revision _ IH Hpol Hfind].
  - done.
  - by eapply inv_restarts.
  - pose proof (consume_safe δ available Hav Hne policy t capacity revision s Hpol IH Hfind) as H. unfold wp in H.
    by destruct (consume_with_bridge_capacity_inner policy t capacity revision s) as [s' [[]|]].
Qed.

(** The document in the directory of a transaction. *)
Lemma current_document t img d :
  tx_ok t → tx_img t img → read_as DELIVERY_RECOVERY_DOCUMENT (Some d) img →
  (∃ oc, (oc, Some d) ∈ tx_ends t) ∨ prepared d = true.
Proof.
  intros Hok Himg Hread.
  assert (∀ x, slot_at DELIVERY_RECOVERY_DOCUMENT (Whole x) img → x = d) as Hw.
  { intros x Hx. pose proof (read_whole _ _ _ _ Hx Hread). congruence. }
  assert (∀ od, slot_at DELIVERY_RECOVERY_DOCUMENT (whole_or_absent od) img → od = Some d) as Ho.
  { intros [x|] Hx; [by rewrite (Hw x)|]. by pose proof (read_absent _ _ _ Hx Hread). }
  destruct t as [c o|c c'|c o d'|c o c' d'|c o c' p]; simpl in *; repeat destruct_or?;
    match goal with H : shape _ _ _ _ img |- _ => destruct H as [_ _ Hcd _] end;
    first [apply Ho in Hcd as ->|apply Hw in Hcd as ->|apply (Ho None) in Hcd];
    try done; try (left; eexists; solve [left|right; left]).
  all: right; apply Hok.
Qed.

(** (C4) A message with available work is acknowledged at most once.  Start
    where its delivery is reconciled on disk and no acknowledgement was begun,
    and let the controller run against any bridge any number of times, each run
    cut short anywhere and followed by restarts and fresh bridges, as long as
    the delivery is found unsettled.  Then the message was acknowledged at most
    once; whatever was polled for after that was evidence only, with capacity
    zero; standalone acquisitions asked for exactly the available requests; and
    once it was acknowledged, every directory that may be found holds a document
    past its reconciliation. *)
Theorem acknowledged_at_most_once (c : catalog_doc) (d : recovery_doc) (available : list N)
    (w w' : World) (b b' : B) (log : list bridge_call)
    (Hc : rtc catalog_step empty_catalog c) (Hphase : rs_phase d = Reconciled)
    (Havailable : available_request_ids (rs_delivery d) = Ok available) (Hwork : available ≠ [])
    (Hdir : is_Some (w_dir w)) (Hidle : idle (Some c) (Some d) w)
    (Hruns : controller_runs (w, (b, [])) (w', (b', log))) :
  obeys (dl_message_id (rs_delivery d)) available log ∧
  (CallAck (dl_message_id (rs_delivery d)) ∈ log →
     images (λ img, ∀ d', read_as DELIVERY_RECOVERY_DOCUMENT (Some d') img → rs_phase d' ≠ Reconciled) w').
Proof.
  assert (allowed (rs_delivery d) [] d) as Ha.
  { split; [split; [done|unfold prepared; by rewrite Hphase|]|by intros ? ?%elem_of_nil].
    unfold lifecycle_resolution. by rewrite Hphase. }
  destruct (runs_inv (rs_delivery d) available (w, (b, [])) (w', (b', log)) Havailable Hwork) as [(t & Ht & Himg) _ Hob];
    [|done|split; [done|]].
  { split; [|done|apply obeys_nil]. exists (TxIdle (Some c) (Some d)). split; [by apply idle_carries|done]. }
  intros Hack. eapply images_mono; [exact Himg|]. intros img Hi d' Hd' Hph.
  destruct (current_document _ _ _ (proj1 Ht) Hi Hd') as [[oc He]|Hp].
  - destruct (proj2 Ht _ _ He) as (? & _ & _ & _ & Hn). by apply Hn.
  - unfold prepared in Hp. by rewrite Hph in Hp.
Qed.
End acknowledgement.

(** ** The theorem at sample runs *)

(** A bridge that offers the sample delivery, dies in the acknowledgement and
    acquires whatever it is asked for. *)
Definition sample_bridge : DeliveryBridge unit := {|
  bridge_resume_after _ := lift (Ok ());
  bridge_poll _ := lift (Ok (PollMessage 9 (mkStatistics 1 0 0 0 0 0 0)
    [BridgeAvailable (mkBridgeJob 7 "glaeda" "team" "job-1" 3 ["linux"])]));
  bridge_ack _ := λ b, (b, Stopped);
  bridge_acquire l := lift (Ok l);
  bridge_poison := id;
|}.

#[local] Existing Instance sample_bridge.

Definition first_run : World * (unit * list bridge_call) :=
  (consume_with_bridge_capacity_inner (BRIDGE := logged) pair_policy 1000 1 None
     (pair_world pair_catalog (Some (pair_recovery 1 pair_catalog Reconciled)) [], ((), []))).1.

Definition second_run : World * (unit * list bridge_call) :=
  (consume_with_bridge_capacity_inner (BRIDGE := logged) pair_policy 2000 1 None
     (crashed first_run.1, ((), first_run.2.2))).1.

Example runs_called : second_run.2.2 = [CallPoll 1; CallAck 9; CallAcquire [7]].
Proof. vm_compute. reflexivity. Qed.

Lemma acknowledged_at_most_once_witness :
  obeys 9 [7] second_run.2.2 ∧
  (CallAck 9 ∈ second_run.2.2 →
     images (λ img, ∀ d', read_as DELIVERY_RECOVERY_DOCUMENT (Some d') img → rs_phase d' ≠ Reconciled) second_run.1).
Proof.
  refine (acknowledged_at_most_once pair_catalog (pair_recovery 1 pair_catalog Reconciled) [7]
    (pair_world pair_catalog (Some (pair_recovery 1 pair_catalog Reconciled)) []) second_run.1 () second_run.2.1
    second_run.2.2 pair_catalog_reachable eq_refl eq_refl _ _ _ _).
  - done.
  - by eexists.
  - apply (pair_world_idle _ _ ["A"%char]); [done|]. intros ? [= <-]. vm_compute. by eexists.
  - replace (second_run.1, (second_run.2.1, second_run.2.2)) with second_run by (by destruct second_run as [? []]).
    apply runs_again; [|done|vm_compute; congruence].
    apply (runs_restart _ first_run.1 _ first_run.2.1 () first_run.2.2); [|apply crashed_restarts].
    replace (first_run.1, (first_run.2.1, first_run.2.2)) with first_run by (by destruct first_run as [? []]).
    apply runs_again; [apply runs_not|done|vm_compute; congruence].
Defined.
