(* ===== verification/LimaLifecycle.v ===== *)
(** * Lima worker lifecycle

    [src/src/lima_lifecycle.rs]: the observation record of the one Lima
    virtual machine that runs personal work, the reviewed target an idle
    machine should move to, and the transitions between two observations.
    [LimaLifecycleObservation_new] is the only way to build an observation;
    [LimaLifecyclePolicy_plan_transition] checks that a second one is an
    allowed successor of the first.  What a sequence of accepted transitions
    can do is in [LimaTheorems]. *)

From S2P Require Import Prelude Artifact ExecutionAdmission.

Local Open Scope N_scope.

(** ** Data *)

Definition LIMA_LIFECYCLE_SCHEMA_VERSION : N := 1.
Definition MAX_LIMA_OBSERVATION_AGE_MILLIS : N := 300000.
Definition INTERACTIVE_AFTER_IDLE_MILLIS : N := 10 * 60 * 1000.
Definition STOP_AFTER_IDLE_MILLIS : N := 30 * 60 * 1000.
Definition INTERACTIVE_VCPUS : N := 4.
Definition INTERACTIVE_MEMORY_BYTES : N := 3 * 1024 * 1024 * 1024.
Definition WORK_VCPUS : N := 8.
Definition WORK_MEMORY_BYTES : N := 10 * 1024 * 1024 * 1024.
Definition MAX_LIMA_IDENTIFIER_LEN : N := 96.
Definition MAX_VCPUS : N := 256.
Definition MAX_LIMA_MEMORY_BYTES : N := N.shiftl 1 50.

Record LimaLifecycleError := mkLimaError {
  lle_field : string;
  lle_code : string;
  lle_message : string;
}.

#[export] Instance lima_error_eq_dec : EqDecision LimaLifecycleError.
Proof. solve_decision. Defined.

(** The newtypes wrap the value their constructor accepted. *)
Notation LimaInstanceId := string (only parsing).
Notation LimaCacheDiskId := string (only parsing).
Notation LimaProfileGeneration := N (only parsing).

Inductive LimaResourceProfile :=
| LimaInteractive
| LimaWork.

#[export] Instance lima_profile_eq_dec : EqDecision LimaResourceProfile.
Proof. solve_decision. Defined.

Record LimaResourceEnvelope := mkEnvelope {
  env_vcpus : N;
  env_memory_bytes : N;
}.

Record LimaObservedResources := mkObservedResources {
  lor_vcpus : N;
  lor_memory_bytes : N;
}.

#[export] Instance lima_resources_eq_dec : EqDecision LimaObservedResources.
Proof. solve_decision. Defined.

Record LimaCacheDiskIdentity := mkCacheDisk {
  disk_id : LimaCacheDiskId;
  disk_identity_digest : string;
}.

#[export] Instance cache_disk_eq_dec : EqDecision LimaCacheDiskIdentity.
Proof. solve_decision. Defined.

Record LimaInstanceIdentity := mkLimaIdentity {
  lima_instance_id : LimaInstanceId;
  lima_cache_disk : LimaCacheDiskIdentity;
}.

#[export] Instance lima_identity_eq_dec : EqDecision LimaInstanceIdentity.
Proof. solve_decision. Defined.

Inductive LimaLifecycleState :=
| LimaStopped
| LimaStarting
| LimaRunning
| LimaDraining
| LimaStopping
| LimaUnavailable.

#[export] Instance lima_state_eq_dec : EqDecision LimaLifecycleState.
Proof. solve_decision. Defined.

Inductive LimaLifecycleTarget :=
| TargetWork
| TargetInteractive
| TargetStopped.

#[export] Instance lima_target_eq_dec : EqDecision LimaLifecycleTarget.
Proof. solve_decision. Defined.

Inductive LimaDrainAcknowledgement :=
| DrainNotRequired
| DrainCompleted.

#[export] Instance lima_drain_eq_dec : EqDecision LimaDrainAcknowledgement.
Proof. solve_decision. Defined.

Record GracefulStopAcknowledgement := mkStopAcknowledgement {
  gsa_acknowledged_at : EpochMillis;
  gsa_profile_generation : LimaProfileGeneration;
  gsa_cache_disk : LimaCacheDiskIdentity;
  gsa_drain : LimaDrainAcknowledgement;
}.

#[export] Instance stop_acknowledgement_eq_dec : EqDecision GracefulStopAcknowledgement.
Proof. solve_decision. Defined.

Record LimaLifecycleObservationDefinition := mkLimaDefinition {
  lod_identity : LimaInstanceIdentity;
  lod_state : LimaLifecycleState;
  lod_profile : LimaResourceProfile;
  lod_profile_generation : LimaProfileGeneration;
  lod_observed_resources : LimaObservedResources;
  lod_observed_at : EpochMillis;
  lod_active_reservation_id : option ReservationId;
  lod_last_activity_at : EpochMillis;
  lod_idle_deadline : EpochMillis;
  lod_graceful_stop_acknowledgement : option GracefulStopAcknowledgement;
}.

Record LimaLifecycleObservation := mkLimaObservation {
  llo_schema_version : N;
  llo_identity : LimaInstanceIdentity;
  llo_state : LimaLifecycleState;
  llo_profile : LimaResourceProfile;
  llo_profile_generation : LimaProfileGeneration;
  llo_observed_resources : LimaObservedResources;
  llo_observed_at : EpochMillis;
  llo_active_reservation_id : option ReservationId;
  llo_last_activity_at : EpochMillis;
  llo_idle_deadline : EpochMillis;
  llo_graceful_stop_acknowledgement : option GracefulStopAcknowledgement;
}.

#[export] Instance lima_observation_eq_dec : EqDecision LimaLifecycleObservation.
Proof. solve_decision. Defined.

Record LimaLifecyclePolicy := mkLimaPolicy {
  llp_schema_version : N;
  llp_max_observation_age_millis : N;
}.

Record LimaLifecycleTransition := mkLimaTransition {
  llt_schema_version : N;
  llt_identity : LimaInstanceIdentity;
  llt_from : LimaLifecycleState;
  llt_to : LimaLifecycleState;
  llt_from_profile : LimaResourceProfile;
  llt_to_profile : LimaResourceProfile;
  llt_profile_generation : LimaProfileGeneration;
  llt_observed_at : EpochMillis;
  llt_resulting_observation : LimaLifecycleObservation;
}.

(** ** Constructors of the small types *)

Definition validate_lima_identifier (field value : string) : result LimaLifecycleError () :=
  let first_is_safe :=
    match value with
    | EmptyString => false
    | String byte _ => is_ascii_lowercase byte || is_ascii_digit byte
    end in
  let remaining_are_safe :=
    match value with
    | EmptyString => true
    | String _ bytes =>
        bytes_all (λ byte, is_ascii_lowercase byte || is_ascii_digit byte
                           || is_identifier_punctuation byte) bytes
    end in
  if (MAX_LIMA_IDENTIFIER_LEN <? str_len value) || negb first_is_safe
     || negb remaining_are_safe
  then Err (mkLimaError field "invalid_identifier"
         "identifier must be bounded lowercase ASCII without path or log content")
  else Ok ().

(** [identifier_type!]: one [parse] for the two identifier types. *)
Definition lima_identifier_parse (field value : string) : result LimaLifecycleError string :=
  _ ← validate_lima_identifier field value; Ok value.

Definition LimaInstanceId_parse := lima_identifier_parse "identity.instance_id".
Definition LimaCacheDiskId_parse := lima_identifier_parse "identity.cache_disk.disk_id".

Definition LimaProfileGeneration_new (value : N)
    : result LimaLifecycleError LimaProfileGeneration :=
  if value =? 0
  then Err (mkLimaError "profile_generation" "invalid_profile_generation"
         "profile generation must be greater than zero")
  else Ok value.

Definition checked_next (generation : LimaProfileGeneration) : option LimaProfileGeneration :=
  checked_add u64_max generation 1.

Definition envelope (profile : LimaResourceProfile) : LimaResourceEnvelope :=
  match profile with
  | LimaInteractive => mkEnvelope INTERACTIVE_VCPUS INTERACTIVE_MEMORY_BYTES
  | LimaWork => mkEnvelope WORK_VCPUS WORK_MEMORY_BYTES
  end.

Definition idle_deadline_offset_millis (profile : LimaResourceProfile) : N :=
  match profile with
  | LimaWork => INTERACTIVE_AFTER_IDLE_MILLIS
  | LimaInteractive => STOP_AFTER_IDLE_MILLIS
  end.

Definition LimaObservedResources_new (vcpus memory : N)
    : result LimaLifecycleError LimaObservedResources :=
  if negb (in_range 1 MAX_VCPUS vcpus)
  then Err (mkLimaError "observed_resources.vcpus" "invalid_vcpu_observation"
         "observed vCPU count must be within the bounded positive range")
  else if negb (in_range 1 MAX_LIMA_MEMORY_BYTES memory)
  then Err (mkLimaError "observed_resources.memory_bytes" "invalid_memory_observation"
         "observed memory bytes must be within the bounded positive range")
  else Ok (mkObservedResources vcpus memory).

Definition LimaObservedResources_for_profile (profile : LimaResourceProfile)
    : LimaObservedResources :=
  let envelope := envelope profile in
  mkObservedResources (env_vcpus envelope) (env_memory_bytes envelope).

Definition matches_profile (resources : LimaObservedResources) (profile : LimaResourceProfile)
    : bool :=
  let envelope := envelope profile in
  (lor_vcpus resources =? env_vcpus envelope)
  && (lor_memory_bytes resources =? env_memory_bytes envelope).

Definition LimaLifecycleState_is_terminal (state : LimaLifecycleState) : bool :=
  match state with
  | LimaUnavailable => true
  | _ => false
  end.

(** ** One observation *)

Definition validate_observation_shape (definition : LimaLifecycleObservationDefinition)
    : result LimaLifecycleError () :=
  if negb (matches_profile (lod_observed_resources definition) (lod_profile definition))
  then Err (mkLimaError "observed_resources" "profile_resource_mismatch"
         "observed CPU and memory must exactly match the reviewed Lima profile")
  else if lod_observed_at definition <? lod_last_activity_at definition
  then Err (mkLimaError "last_activity_at" "future_last_activity"
         "last activity cannot be newer than the lifecycle observation")
  else
    expected_idle_deadline ←
      ok_or (checked_add u64_max (lod_last_activity_at definition)
               (idle_deadline_offset_millis (lod_profile definition)))
        (mkLimaError "idle_deadline" "invalid_idle_deadline"
           "reviewed idle deadline exceeds the supported time range");
    if negb (lod_idle_deadline definition =? expected_idle_deadline)
    then Err (mkLimaError "idle_deadline" "idle_deadline_policy_mismatch"
           "work requires a ten-minute idle deadline and interactive requires thirty total idle minutes")
    else
      let reservation_allowed :=
        match lod_state definition with
        | LimaRunning | LimaDraining | LimaUnavailable => true
        | _ => false
        end in
      if is_some (lod_active_reservation_id definition) && negb reservation_allowed
      then Err (mkLimaError "active_reservation_id" "reservation_in_invalid_state"
             "active reservation identity is valid only while running, draining, or unavailable")
      else if is_some (lod_active_reservation_id definition)
              && bool_decide (lod_profile definition ≠ LimaWork)
      then Err (mkLimaError "profile" "active_reservation_requires_work"
             "active jobs and reservations require the exact work profile")
      else
        let acknowledgement_allowed :=
          match lod_state definition with
          | LimaStopping | LimaStopped => true
          | _ => false
          end in
        if is_some (lod_graceful_stop_acknowledgement definition)
           && negb acknowledgement_allowed
        then Err (mkLimaError "graceful_stop_acknowledgement" "acknowledgement_in_invalid_state"
               "graceful-stop acknowledgement is valid only while stopping or stopped")
        else
          match lod_graceful_stop_acknowledgement definition with
          | None => Ok ()
          | Some acknowledgement =>
              if negb (gsa_profile_generation acknowledgement
                       =? lod_profile_generation definition)
              then Err (mkLimaError "graceful_stop_acknowledgement.profile_generation"
                     "acknowledgement_generation_drift"
                     "graceful-stop acknowledgement must bind the exact profile generation")
              else if bool_decide (gsa_cache_disk acknowledgement
                                   ≠ lima_cache_disk (lod_identity definition))
              then Err (mkLimaError "graceful_stop_acknowledgement.cache_disk"
                     "acknowledgement_cache_drift"
                     "graceful-stop acknowledgement must bind the exact cache-disk identity")
              else if (lod_observed_at definition <? gsa_acknowledged_at acknowledgement)
                      || (gsa_acknowledged_at acknowledgement
                          <? lod_last_activity_at definition)
              then Err (mkLimaError "graceful_stop_acknowledgement.acknowledged_at"
                     "invalid_acknowledgement_time"
                     "graceful-stop acknowledgement must follow last activity and not exceed observation time")
              else Ok ()
          end.

Definition LimaLifecycleObservation_new (definition : LimaLifecycleObservationDefinition)
    : result LimaLifecycleError LimaLifecycleObservation :=
  _ ← validate_observation_shape definition;
  Ok {| llo_schema_version := LIMA_LIFECYCLE_SCHEMA_VERSION;
        llo_identity := lod_identity definition;
        llo_state := lod_state definition;
        llo_profile := lod_profile definition;
        llo_profile_generation := lod_profile_generation definition;
        llo_observed_resources := lod_observed_resources definition;
        llo_observed_at := lod_observed_at definition;
        llo_active_reservation_id := lod_active_reservation_id definition;
        llo_last_activity_at := lod_last_activity_at definition;
        llo_idle_deadline := lod_idle_deadline definition;
        llo_graceful_stop_acknowledgement := lod_graceful_stop_acknowledgement definition |}.

(** ** The policy *)

Definition LimaLifecyclePolicy_new (max_observation_age_millis : N)
    : result LimaLifecycleError LimaLifecyclePolicy :=
  if negb (in_range 1 MAX_LIMA_OBSERVATION_AGE_MILLIS max_observation_age_millis)
  then Err (mkLimaError "policy.max_observation_age_millis" "invalid_freshness_window"
         "freshness window must be positive and within the reviewed maximum")
  else Ok (mkLimaPolicy LIMA_LIFECYCLE_SCHEMA_VERSION max_observation_age_millis).

Definition lima_validate_freshness (field : string) (observed_at decision_at : EpochMillis)
    (max_age_millis : N) : result LimaLifecycleError () :=
  age ← ok_or (checked_sub decision_at observed_at)
    (mkLimaError field "future_observation"
       "lifecycle observation cannot be newer than the decision time");
  if max_age_millis <? age
  then Err (mkLimaError field "stale_observation"
         "lifecycle observation is older than the reviewed freshness window")
  else Ok ().

Definition LimaLifecyclePolicy_desired_target (policy : LimaLifecyclePolicy)
    (observation : LimaLifecycleObservation) (decision_at : EpochMillis)
    : result LimaLifecycleError LimaLifecycleTarget :=
  _ ← lima_validate_freshness "observation.observed_at" (llo_observed_at observation)
        decision_at (llp_max_observation_age_millis policy);
  if is_some (llo_active_reservation_id observation) then Ok TargetWork
  else
    idle_millis ← ok_or (checked_sub decision_at (llo_last_activity_at observation))
      (mkLimaError "last_activity_at" "future_last_activity"
         "last activity cannot be newer than the lifecycle decision");
    if STOP_AFTER_IDLE_MILLIS <=? idle_millis then Ok TargetStopped
    else if INTERACTIVE_AFTER_IDLE_MILLIS <=? idle_millis then Ok TargetInteractive
    else Ok TargetWork.

Definition validate_activity_progress (current next : LimaLifecycleObservation)
    : result LimaLifecycleError () :=
  if llo_last_activity_at next <? llo_last_activity_at current
  then Err (mkLimaError "last_activity_at" "activity_time_reversal"
         "last activity time cannot move backwards")
  else if (llo_last_activity_at next =? llo_last_activity_at current)
          && bool_decide (llo_profile next = llo_profile current)
          && negb (llo_idle_deadline next =? llo_idle_deadline current)
  then Err (mkLimaError "idle_deadline" "idle_deadline_drift"
         "idle deadline may change only when last activity advances")
  else Ok ().

Definition validate_profile_progress (current next : LimaLifecycleObservation)
    : result LimaLifecycleError () :=
  if bool_decide (llo_profile next = llo_profile current)
  then
    if negb (llo_profile_generation next =? llo_profile_generation current)
    then Err (mkLimaError "profile_generation" "profile_generation_drift"
           "unchanged Lima profile must retain the exact generation")
    else Ok ()
  else if is_some (llo_active_reservation_id current)
          || is_some (llo_active_reservation_id next)
  then Err (mkLimaError "active_reservation_id" "profile_change_while_active"
         "Lima profile cannot change while a job or reservation remains active")
  else if bool_decide (llo_state current ≠ LimaStopped)
          || bool_decide (llo_state next ≠ LimaStarting)
  then Err (mkLimaError "profile" "profile_change_outside_stopped_transition"
         "Lima profile may change only from stopped into starting")
  else if bool_decide (checked_next (llo_profile_generation current)
                       ≠ Some (llo_profile_generation next))
  then Err (mkLimaError "profile_generation" "profile_generation_drift"
         "profile change must advance generation by exactly one")
  else if bool_decide (llo_profile current = LimaWork)
          && bool_decide (llo_profile next = LimaInteractive)
          && is_none_or (λ acknowledgement, bool_decide (gsa_drain acknowledgement
                                                         ≠ DrainCompleted))
               (llo_graceful_stop_acknowledgement current)
  then Err (mkLimaError "graceful_stop_acknowledgement" "downscale_without_drain"
         "work-to-interactive downscale requires completed drain and graceful-stop evidence")
  else Ok ().

Definition lima_validate_reservation_progress (current next : LimaLifecycleObservation)
    : result LimaLifecycleError () :=
  if match llo_active_reservation_id current, llo_active_reservation_id next with
     | Some current_id, Some next_id => bool_decide (current_id ≠ next_id)
     | _, _ => false
     end
  then Err (mkLimaError "active_reservation_id" "reservation_identity_drift"
         "active reservation identity cannot change without an idle observation")
  else if bool_decide (llo_state current = LimaRunning)
          && bool_decide (llo_state next = LimaDraining)
          && is_some (llo_active_reservation_id current)
          && bool_decide (llo_active_reservation_id next ≠ llo_active_reservation_id current)
  then Err (mkLimaError "active_reservation_id" "reservation_drain_identity_drift"
         "initial draining observation must retain the active reservation identity")
  else if bool_decide (llo_state current = LimaDraining)
          && bool_decide (llo_state next = LimaDraining)
          && negb (is_some (llo_active_reservation_id current))
          && is_some (llo_active_reservation_id next)
  then Err (mkLimaError "active_reservation_id" "reservation_started_while_draining"
         "draining state cannot acquire a new reservation")
  else Ok ().

Definition lima_validate_transition_pair (current next : LimaLifecycleState)
    : result LimaLifecycleError () :=
  let valid :=
    match current, next with
    | LimaStopped, (LimaStopped | LimaStarting | LimaUnavailable) => true
    | LimaStarting, (LimaStarting | LimaRunning | LimaUnavailable) => true
    | LimaRunning, (LimaRunning | LimaDraining | LimaStopping | LimaUnavailable) => true
    | LimaDraining, (LimaDraining | LimaRunning | LimaStopping | LimaUnavailable) => true
    | LimaStopping, (LimaStopping | LimaStopped | LimaUnavailable) => true
    | _, _ => false
    end in
  if negb valid
  then Err (mkLimaError "state" "invalid_lifecycle_transition"
         "requested Lima lifecycle state transition is not permitted")
  else Ok ().

Definition validate_stop_acknowledgement_progress (current next : LimaLifecycleObservation)
    : result LimaLifecycleError () :=
  if bool_decide (llo_state next = LimaStopped)
     && negb (is_some (llo_graceful_stop_acknowledgement next))
  then Err (mkLimaError "graceful_stop_acknowledgement" "graceful_stop_acknowledgement_missing"
         "stopped transition requires exact graceful-stop acknowledgement")
  else if match llo_graceful_stop_acknowledgement current,
                llo_graceful_stop_acknowledgement next with
          | Some current_ack, Some next_ack => bool_decide (current_ack ≠ next_ack)
          | _, _ => false
          end
  then Err (mkLimaError "graceful_stop_acknowledgement" "graceful_stop_acknowledgement_drift"
         "existing graceful-stop acknowledgement must remain exact")
  else Ok ().

Definition validate_stop_request (current next : LimaLifecycleObservation)
    (decision_at : EpochMillis) : result LimaLifecycleError () :=
  if bool_decide (llo_state next = LimaStopping) then
    if is_some (llo_active_reservation_id current)
    then Err (mkLimaError "active_reservation_id" "stop_while_active"
           "Lima worker cannot stop while a job or reservation remains active")
    else if decision_at <? llo_idle_deadline current
    then Err (mkLimaError "idle_deadline" "stop_before_cooldown"
           "Lima worker cannot stop before the explicit idle deadline")
    else Ok ()
  else Ok ().

Definition LimaLifecyclePolicy_plan_transition (policy : LimaLifecyclePolicy)
    (current next : LimaLifecycleObservation) (decision_at : EpochMillis)
    : result LimaLifecycleError LimaLifecycleTransition :=
  if LimaLifecycleState_is_terminal (llo_state current)
  then Err (mkLimaError "state" "terminal_state_reversal"
         "unavailable lifecycle state cannot transition")
  else
    _ ← lima_validate_freshness "current.observed_at" (llo_observed_at current) decision_at
          (llp_max_observation_age_millis policy);
    _ ← lima_validate_freshness "next.observed_at" (llo_observed_at next) decision_at
          (llp_max_observation_age_millis policy);
    if llo_observed_at next <? llo_observed_at current
    then Err (mkLimaError "next.observed_at" "observation_time_reversal"
           "lifecycle observation time cannot move backwards")
    else if bool_decide (lima_instance_id (llo_identity next)
                         ≠ lima_instance_id (llo_identity current))
    then Err (mkLimaError "identity.instance_id" "instance_identity_drift"
           "Lima instance identity must remain exact across transitions")
    else if bool_decide (lima_cache_disk (llo_identity next)
                         ≠ lima_cache_disk (llo_identity current))
    then Err (mkLimaError "identity.cache_disk" "cache_identity_drift"
           "persistent cache-disk identity must remain exact across transitions")
    else
      _ ← validate_activity_progress current next;
      _ ← validate_profile_progress current next;
      _ ← lima_validate_reservation_progress current next;
      _ ← validate_stop_request current next decision_at;
      _ ← lima_validate_transition_pair (llo_state current) (llo_state next);
      _ ← validate_stop_acknowledgement_progress current next;
      Ok {| llt_schema_version := LIMA_LIFECYCLE_SCHEMA_VERSION;
            llt_identity := llo_identity current;
            llt_from := llo_state current;
            llt_to := llo_state next;
            llt_from_profile := llo_profile current;
            llt_to_profile := llo_profile next;
            llt_profile_generation := llo_profile_generation next;
            llt_observed_at := llo_observed_at next;
            llt_resulting_observation := next |}.
