(* ===== verification/LimaTheorems.v ===== *)
(** * What a sequence of Lima transitions can do

    A run is a list of accepted transitions ([LimaLifecycle]), each with the
    time it was decided at.  The theorems say what every run preserves, that a
    machine is stopped only after its cooldown and resized only after a
    completed drain, and that a machine that is due to shrink or stop can. *)

From S2P Require Import Prelude Artifact ExecutionAdmission LimaLifecycle.

Local Open Scope N_scope.

(** ** Observations the constructor accepts *)

Definition lima_valid (o : LimaLifecycleObservation) : Prop :=
  ∃ definition, LimaLifecycleObservation_new definition = Ok o.

Definition may_hold_reservation (state : LimaLifecycleState) : Prop :=
  state = LimaRunning ∨ state = LimaDraining ∨ state = LimaUnavailable.

Definition may_hold_acknowledgement (state : LimaLifecycleState) : Prop :=
  state = LimaStopping ∨ state = LimaStopped.

Record lima_shape (o : LimaLifecycleObservation) : Prop := {
  shape_schema : llo_schema_version o = LIMA_LIFECYCLE_SCHEMA_VERSION;
  shape_resources :
    llo_observed_resources o = LimaObservedResources_for_profile (llo_profile o);
  shape_activity : llo_last_activity_at o ≤ llo_observed_at o;
  shape_deadline :
    llo_idle_deadline o = llo_last_activity_at o + idle_deadline_offset_millis (llo_profile o);
  shape_deadline_fits : llo_idle_deadline o ≤ u64_max;
  shape_reservation r :
    llo_active_reservation_id o = Some r →
    llo_profile o = LimaWork ∧ may_hold_reservation (llo_state o);
  shape_acknowledgement a :
    llo_graceful_stop_acknowledgement o = Some a →
    may_hold_acknowledgement (llo_state o)
    ∧ gsa_profile_generation a = llo_profile_generation o
    ∧ gsa_cache_disk a = lima_cache_disk (llo_identity o)
    ∧ llo_last_activity_at o ≤ gsa_acknowledged_at a ≤ llo_observed_at o;
}.

Lemma matches_profile_true r profile :
  matches_profile r profile = true ↔ r = LimaObservedResources_for_profile profile.
Proof.
  unfold matches_profile, LimaObservedResources_for_profile.
  destruct r as [c m]; simpl. rewrite andb_true_iff, !N.eqb_eq.
  split; [by intros [-> ->]|by intros [= -> ->]].
Qed.

(** The constructor accepts exactly the observations of that shape. *)
Lemma lima_valid_shape o : lima_valid o ↔ lima_shape o.
Proof.
  split.
  - intros [[i s p g r t a l d k] H]. unfold LimaLifecycleObservation_new in H.
    inv_ok H. injection H as <-. unfold validate_observation_shape in Hy; simpl in Hy.
    inv_ok Hy; bprop; inv_opts;
    rewrite matches_profile_true in *; rewrite checked_add_Some in *; destruct_and!; subst;
    constructor; simpl; try done; try lia; unfold may_hold_reservation, may_hold_acknowledgement.
    all: intros ? ?; simplify_eq/=; destruct p, s; naive_solver.
  - intros [H1 H2 H3 H4 H5 H6 H7]. destruct o as [v i s p g r t a l d k]; simpl in *; subst.
    exists (mkLimaDefinition i s p g (LimaObservedResources_for_profile p) t a l
              (l + idle_deadline_offset_millis p) k).
    unfold LimaLifecycleObservation_new, validate_observation_shape; simpl.
    rewrite (proj2 (matches_profile_true _ p)) by done. simpl.
    rewrite (proj2 (N.ltb_ge _ _)) by done.
    rewrite (proj2 (checked_add_Some _ _ _ _)) by done. simpl. rewrite N.eqb_refl. simpl.
    destruct a as [a|], k as [[ka kg kd kr]|]; simpl in *;
      try (destruct (H6 _ eq_refl) as [-> Hs]);
      try (specialize (H7 _ eq_refl); simpl in H7; destruct H7 as (Hk & -> & -> & ? & ?));
      unfold may_hold_reservation, may_hold_acknowledgement in *.
    + naive_solver.
    + by destruct Hs as [->|[->| ->]].
    + destruct Hk as [->| ->]; simpl; rewrite N.eqb_refl; simpl;
        rewrite bool_decide_false by auto; by rewrite !(proj2 (N.ltb_ge _ _)).
    + done.
Qed.

(** ** Runs *)

Section run.
Context (policy : LimaLifecyclePolicy).

Definition lima_step (decision_at : EpochMillis) (o o' : LimaLifecycleObservation) : Prop :=
  lima_valid o'
  ∧ ∃ t, LimaLifecyclePolicy_plan_transition policy o o' decision_at = Ok t.

(** [lima_run o steps o']: the steps lead from [o] to [o']; each is the time
    of its decision and the observation it produced. *)
Inductive lima_run (o : LimaLifecycleObservation)
    : list (EpochMillis * LimaLifecycleObservation) → LimaLifecycleObservation → Prop :=
| lima_run_nil : lima_run o [] o
| lima_run_snoc steps m decision_at o' :
    lima_run o steps m → lima_step decision_at m o' →
    lima_run o (steps ++ [(decision_at, o')]) o'.

(** ** One step *)

Definition lima_moves (s s' : LimaLifecycleState) : Prop :=
  lima_validate_transition_pair s s' = Ok ().

Record lima_step_facts (decision_at : EpochMillis) (o o' : LimaLifecycleObservation) : Prop := {
  step_shape : lima_shape o';
  step_alive : llo_state o ≠ LimaUnavailable;
  step_fresh : llo_observed_at o ≤ llo_observed_at o' ≤ decision_at;
  step_identity : llo_identity o' = llo_identity o;
  step_activity : llo_last_activity_at o ≤ llo_last_activity_at o';
  step_state : lima_moves (llo_state o) (llo_state o');
  step_same_profile :
    llo_profile o' = llo_profile o → llo_profile_generation o' = llo_profile_generation o;
  step_new_profile :
    llo_profile o' ≠ llo_profile o →
    llo_active_reservation_id o = None ∧ llo_active_reservation_id o' = None
    ∧ llo_state o = LimaStopped ∧ llo_state o' = LimaStarting
    ∧ llo_profile_generation o' = llo_profile_generation o + 1;
  step_downscale :
    llo_profile o = LimaWork → llo_profile o' = LimaInteractive →
    ∃ a, llo_graceful_stop_acknowledgement o = Some a ∧ gsa_drain a = DrainCompleted;
  step_reservation r r' :
    llo_active_reservation_id o = Some r → llo_active_reservation_id o' = Some r' → r' = r;
  step_stop :
    llo_state o' = LimaStopping →
    llo_active_reservation_id o = None ∧ llo_idle_deadline o ≤ decision_at;
  step_stopped :
    llo_state o' = LimaStopped → is_Some (llo_graceful_stop_acknowledgement o');
  step_acknowledgement a a' :
    llo_graceful_stop_acknowledgement o = Some a →
    llo_graceful_stop_acknowledgement o' = Some a' → a' = a;
}.

Lemma lima_freshness_Ok field t at_ age u :
  lima_validate_freshness field t at_ age = Ok u ↔ t ≤ at_ ≤ t + age.
Proof.
  unfold lima_validate_freshness, checked_sub. destruct u.
  destruct (t <=? at_) eqn:H1; bprop; rsimpl; [|split; [done|lia]].
  destruct (age <? _) eqn:H2; bprop; [split; [done|lia]|]. split; [lia|done].
Qed.

Lemma activity_progress_facts o o' u :
  validate_activity_progress o o' = Ok u → llo_last_activity_at o ≤ llo_last_activity_at o'.
Proof. unfold validate_activity_progress. intros H. inv_ok H. by bprop. Qed.

Lemma profile_progress_facts o o' u :
  validate_profile_progress o o' = Ok u →
  (llo_profile o' = llo_profile o ∧ llo_profile_generation o' = llo_profile_generation o)
  ∨ (llo_profile o' ≠ llo_profile o
     ∧ llo_active_reservation_id o = None ∧ llo_active_reservation_id o' = None
     ∧ llo_state o = LimaStopped ∧ llo_state o' = LimaStarting
     ∧ llo_profile_generation o' = llo_profile_generation o + 1
     ∧ (llo_profile o = LimaWork → llo_profile o' = LimaInteractive →
        ∃ a, llo_graceful_stop_acknowledgement o = Some a ∧ gsa_drain a = DrainCompleted)).
Proof.
  unfold validate_profile_progress. intros H.
  destruct (bool_decide (llo_profile o' = llo_profile o)) eqn:Hp; bprop.
  { left. inv_ok H. by bprop. }
  right. inv_ok H; bprop.
  repeat match goal with
  | H : checked_next _ = Some _ |- _ => apply checked_add_Some in H as [-> ?]
  | H : is_some ?x = false |- _ => destruct x eqn:?; [discriminate H|clear H]
  end.
  repeat split; try done. intros Hw Hi.
  rewrite !bool_decide_true in * by done; simpl in *.
  destruct (llo_graceful_stop_acknowledgement o) as [a|]; simpl in *; [|naive_solver].
  exists a. split; [done|]. destruct Heqb2; [done|]. by bprop.
Qed.

Lemma reservation_progress_facts o o' u r r' :
  lima_validate_reservation_progress o o' = Ok u →
  llo_active_reservation_id o = Some r → llo_active_reservation_id o' = Some r' → r' = r.
Proof.
  unfold lima_validate_reservation_progress. intros H Hr Hr'. rewrite Hr, Hr' in H.
  apply ok_guard in H as [H _]. by bprop.
Qed.

Lemma stop_request_facts o o' t u :
  validate_stop_request o o' t = Ok u → llo_state o' = LimaStopping →
  llo_active_reservation_id o = None ∧ llo_idle_deadline o ≤ t.
Proof.
  unfold validate_stop_request. intros H Hs. rewrite bool_decide_true in H by done.
  inv_ok H. bprop. by destruct (llo_active_reservation_id o).
Qed.

Lemma stop_acknowledgement_facts o o' u :
  validate_stop_acknowledgement_progress o o' = Ok u →
  (llo_state o' = LimaStopped → is_Some (llo_graceful_stop_acknowledgement o'))
  ∧ (∀ a a', llo_graceful_stop_acknowledgement o = Some a →
             llo_graceful_stop_acknowledgement o' = Some a' → a' = a).
Proof.
  unfold validate_stop_acknowledgement_progress. intros H. apply ok_guard in H as [H1 H]. split.
  - intros Hs. rewrite bool_decide_true in H1 by done.
    destruct (llo_graceful_stop_acknowledgement o'); simpl in H1; [eauto|done].
  - intros a a' Ha Ha'. rewrite Ha, Ha' in H. apply ok_guard in H as [H _]. by bprop.
Qed.

Lemma lima_step_has_facts t o o' : lima_step t o o' → lima_step_facts t o o'.
Proof.
  intros [Hv [tr H]]. apply lima_valid_shape in Hv.
  unfold LimaLifecyclePolicy_plan_transition in H. inv_ok H. bprop.
  match goal with Hp : validate_profile_progress _ _ = Ok _ |- _ =>
    apply profile_progress_facts in Hp as Hprofile end.
  match goal with Ha : validate_stop_acknowledgement_progress _ _ = Ok _ |- _ =>
    apply stop_acknowledgement_facts in Ha as [? ?] end.
  rewrite !lima_freshness_Ok in *.
  constructor; try done.
  - intros Hs. by rewrite Hs in *.
  - lia.
  - destruct (llo_identity o), (llo_identity o'); simpl in *; congruence.
  - by eapply activity_progress_facts.
  - unfold lima_moves.
    by match goal with H : lima_validate_transition_pair _ _ = Ok ?y |- _ => destruct y end.
  - intros Hp. by destruct Hprofile as [[_ ?]|[? _]].
  - intros Hp. destruct Hprofile as [[? _]|(_ & ? & ? & ? & ? & ? & _)]; [done|]. by repeat split.
  - intros Hw Hi. destruct Hprofile as [[? _]|(_ & _ & _ & _ & _ & _ & Hd)]; [congruence|auto].
  - intros r r'. by eapply reservation_progress_facts.
  - by eapply stop_request_facts.
Qed.

(** ** What every run preserves *)

(** How many transitions of a run changed the profile. *)
Fixpoint profile_changes (o : LimaLifecycleObservation)
    (steps : list (EpochMillis * LimaLifecycleObservation)) : N :=
  match steps with
  | [] => 0
  | (_, o') :: steps =>
      (if bool_decide (llo_profile o' = llo_profile o) then 0 else 1)
      + profile_changes o' steps
  end.

(** The last observation of a run. *)
Definition run_end (o : LimaLifecycleObservation)
    (steps : list (EpochMillis * LimaLifecycleObservation)) : LimaLifecycleObservation :=
  default o (snd <$> last steps).

Lemma run_end_snoc o steps s : run_end o (steps ++ [s]) = s.2.
Proof. unfold run_end. by rewrite last_snoc. Qed.

Lemma run_end_eq o steps o' : lima_run o steps o' → run_end o steps = o'.
Proof. destruct 1; [done|]. apply run_end_snoc. Qed.

Lemma run_end_cons o s steps : run_end o (s :: steps) = run_end s.2 steps.
Proof.
  unfold run_end. destruct steps as [|x steps]; [done|].
  rewrite last_cons_cons. destruct (last (x :: steps)) eqn:E; [done|]. by apply last_None in E.
Qed.

Lemma profile_changes_snoc o steps s :
  profile_changes o (steps ++ [s])
  = profile_changes o steps
    + (if bool_decide (llo_profile s.2 = llo_profile (run_end o steps)) then 0 else 1).
Proof.
  revert o. induction steps as [|[t m] steps IH]; intros o; destruct s as [ts ms]; simpl.
  { unfold run_end; simpl. lia. }
  rewrite IH, run_end_cons. simpl. lia.
Qed.

Lemma lima_run_shape o steps o' : lima_run o steps o' → lima_shape o → lima_shape o'.
Proof. destruct 1 as [|? ? ? ? _ H]; [done|]. intros _. apply (lima_step_has_facts _ _ _ H). Qed.

Lemma lima_run_generation o steps o' :
  lima_run o steps o' →
  llo_profile_generation o' = llo_profile_generation o + profile_changes o steps
  ∧ (llo_profile o' = llo_profile o ↔ N.even (profile_changes o steps) = true).
Proof.
  induction 1 as [|steps m t o' Hr [IHg IHp] Hs]; [simpl; split; [lia|done]|].
  apply lima_step_has_facts in Hs. rewrite profile_changes_snoc, (run_end_eq _ _ _ Hr); simpl.
  destruct (bool_decide _) eqn:E; bprop.
  - rewrite N.add_0_r, (step_same_profile _ _ _ Hs E). by rewrite E.
  - destruct (step_new_profile _ _ _ Hs E) as (_ & _ & _ & _ & ->). split; [lia|].
    rewrite N.add_1_r, N.even_succ, <- N.negb_even.
    destruct (N.even (profile_changes o steps)), (llo_profile o), (llo_profile m),
      (llo_profile o'); simpl; naive_solver.
Qed.

Lemma lima_run_monotone o steps o' :
  lima_run o steps o' →
  llo_identity o' = llo_identity o
  ∧ llo_observed_at o ≤ llo_observed_at o'
  ∧ llo_last_activity_at o ≤ llo_last_activity_at o'.
Proof.
  induction 1 as [|steps m t o' Hr (IH1 & IH2 & IH3) Hs]; [repeat split; lia|].
  apply lima_step_has_facts in Hs.
  pose proof (step_fresh _ _ _ Hs). pose proof (step_activity _ _ _ Hs).
  rewrite (step_identity _ _ _ Hs). repeat split; [done|lia|lia].
Qed.

Lemma lima_run_terminal o steps o' :
  lima_run o steps o' → llo_state o = LimaUnavailable → steps = [] ∧ o' = o.
Proof.
  induction 1 as [|steps m t o' Hr IH Hs]; intros Hu; [done|].
  destruct (IH Hu) as [-> ->]. by apply lima_step_has_facts, step_alive in Hs.
Qed.

(** An observation of any run is a well-formed observation of the same
    machine and the same cache disk, no older than the first; the profile
    generation has advanced by exactly the number of profile changes, so that
    it names the profile: the profile is the first one if and only if it
    changed an even number of times; and an unavailable machine has no
    transitions. *)
Theorem lima_run_invariant o steps o' :
  lima_valid o → lima_run o steps o' →
  lima_valid o'
  ∧ llo_identity o' = llo_identity o
  ∧ llo_observed_at o ≤ llo_observed_at o'
  ∧ llo_last_activity_at o ≤ llo_last_activity_at o'
  ∧ llo_profile_generation o' = llo_profile_generation o + profile_changes o steps
  ∧ (llo_profile o' = llo_profile o ↔ N.even (profile_changes o steps) = true)
  ∧ (llo_state o = LimaUnavailable → steps = []).
Proof.
  intros Hv Hr. rewrite lima_valid_shape in *.
  split; [by eapply lima_run_shape|].
  destruct (lima_run_monotone _ _ _ Hr) as (? & ? & ?).
  destruct (lima_run_generation _ _ _ Hr) as [? ?].
  repeat (split; [done|]). intros Hu. by destruct (lima_run_terminal _ _ _ Hr Hu).
Qed.

(** ** Stops and reservations *)

Definition at_rest (o : LimaLifecycleObservation) : Prop :=
  llo_state o = LimaStopping ∨ llo_state o = LimaStopped.

(** A step into a resting state either extends the rest or is a stop of an
    idle machine whose deadline has passed. *)
Lemma lima_rest_step t o o' :
  lima_step t o o' → at_rest o' →
  llo_active_reservation_id o' = None
  ∧ llo_profile o' = llo_profile o
  ∧ llo_profile_generation o' = llo_profile_generation o
  ∧ (at_rest o
     ∨ (llo_state o' = LimaStopping ∧ llo_active_reservation_id o = None
        ∧ llo_idle_deadline o ≤ t)).
Proof.
  intros Hs%lima_step_has_facts Hrest.
  assert (llo_active_reservation_id o' = None) as Hn.
  { destruct (llo_active_reservation_id o') as [r|] eqn:E; [|done].
    destruct (shape_reservation _ (step_shape _ _ _ Hs) _ E) as [_ Hm].
    unfold may_hold_reservation, at_rest in *. destruct Hrest as [Hx|Hx]; rewrite Hx in Hm;
      naive_solver. }
  assert (llo_profile o' = llo_profile o) as Hp.
  { destruct (decide (llo_profile o' = llo_profile o)) as [|Hn']; [done|].
    destruct (step_new_profile _ _ _ Hs Hn') as (_ & _ & _ & Hx & _).
    destruct Hrest; congruence. }
  split; [done|]. split; [done|]. split; [by apply (step_same_profile _ _ _ Hs)|].
  pose proof (step_state _ _ _ Hs) as Hm. pose proof (step_stop _ _ _ Hs) as Hd.
  unfold lima_moves, lima_validate_transition_pair, at_rest in *.
  destruct Hrest as [Hx|Hx]; rewrite Hx in Hm; destruct (llo_state o); naive_solver.
Qed.

Definition idle_stop (steps : list (EpochMillis * LimaLifecycleObservation))
    (o o' : LimaLifecycleObservation) : Prop :=
  ∃ before m decision_at stopping rest,
    steps = before ++ (decision_at, stopping) :: rest
    ∧ lima_run o before m
    ∧ lima_step decision_at m stopping
    ∧ llo_state stopping = LimaStopping
    ∧ llo_active_reservation_id m = None
    ∧ llo_last_activity_at m + idle_deadline_offset_millis (llo_profile m) ≤ decision_at
    ∧ llo_profile m = llo_profile o' ∧ llo_profile_generation m = llo_profile_generation o'
    ∧ Forall (λ s, at_rest s.2 ∧ llo_active_reservation_id s.2 = None)
        ((decision_at, stopping) :: rest).

Lemma idle_stop_snoc steps o m t o' :
  idle_stop steps o m → lima_step t m o' → at_rest o' →
  idle_stop (steps ++ [(t, o')]) o o'.
Proof.
  intros (before & m0 & t0 & x & rest & -> & ? & ? & ? & ? & ? & Hp & Hg & Hf) Hs Hrest.
  destruct (lima_rest_step _ _ _ Hs Hrest) as (Hn & Hp' & Hg' & _).
  exists before, m0, t0, x, (rest ++ [(t, o')]). rewrite Hp', Hg'.
  rewrite <- app_assoc. repeat (split; [done|]).
  apply (Forall_app _ (_ :: rest)). split; [done|]. by apply Forall_singleton.
Qed.

Lemma run_idle_stop o steps o' :
  lima_run o steps o' → lima_shape o → ¬ at_rest o → at_rest o' → idle_stop steps o o'.
Proof.
  intros Hr Hsh Hno. induction Hr as [|steps m t o' Hr IH Hs]; intros Hrest; [done|].
  destruct (lima_rest_step _ _ _ Hs Hrest) as (Hn & Hp & Hg & [Hm|(Hst & Hna & Hd)]).
  { eapply idle_stop_snoc; eauto. }
  pose proof (lima_run_shape _ _ _ Hr Hsh) as Hm. rewrite (shape_deadline _ Hm) in Hd.
  exists steps, m, t, o', []. rewrite Hp, Hg. repeat (split; [done|]).
  by apply Forall_singleton.
Qed.

(** A machine is stopping or stopped only because the run stopped it when it
    held no reservation and its deadline — ten minutes after the last activity
    on the work profile, thirty on the interactive one — had passed; and from
    that stop on it has held none, on the same profile generation. *)
Theorem lima_stop_after_cooldown o steps o' :
  lima_valid o → ¬ at_rest o → lima_run o steps o' → at_rest o' → idle_stop steps o o'.
Proof. intros Hv%lima_valid_shape Hno Hr. by apply run_idle_stop. Qed.

(** The first change of profile of a run. *)
Lemma first_profile_change o steps o' :
  lima_run o steps o' → llo_profile o' ≠ llo_profile o →
  ∃ before m t m' after,
    steps = before ++ (t, m') :: after ∧ lima_run o before m ∧ lima_step t m m'
    ∧ llo_profile m = llo_profile o ∧ llo_profile m' ≠ llo_profile m.
Proof.
  induction 1 as [|steps m t o' Hr IH Hs]; intros Hp; [done|].
  destruct (decide (llo_profile m = llo_profile o)) as [Hm|Hm].
  - exists steps, m, t, o', []. rewrite Hm. auto.
  - destruct (IH Hm) as (before & x & t' & x' & after & -> & ? & ? & ? & ?).
    exists before, x, t', x', (after ++ [(t, o')]). by rewrite <- app_assoc.
Qed.

(** A machine that runs on the work profile reaches the interactive one only
    by way of an idle stop and a completed drain: the run contains a step from
    a stopped observation [m], acknowledged as drained on this generation and
    this cache disk, into a starting one on the next generation, and before it
    an idle stop. *)
Theorem lima_downscale_after_drain o steps o' :
  lima_valid o → ¬ at_rest o → llo_profile o = LimaWork → lima_run o steps o' →
  llo_profile o' = LimaInteractive →
  ∃ before m t m' after a,
    steps = before ++ (t, m') :: after
    ∧ lima_run o before m ∧ lima_step t m m' ∧ idle_stop before o m
    ∧ llo_state m = LimaStopped ∧ llo_state m' = LimaStarting
    ∧ llo_profile_generation m' = llo_profile_generation m + 1
    ∧ llo_graceful_stop_acknowledgement m = Some a
    ∧ gsa_drain a = DrainCompleted
    ∧ gsa_profile_generation a = llo_profile_generation m
    ∧ gsa_cache_disk a = lima_cache_disk (llo_identity o)
    ∧ llo_last_activity_at m ≤ gsa_acknowledged_at a.
Proof.
  intros Hv%lima_valid_shape Hno Hw Hr Hi.
  destruct (first_profile_change _ _ _ Hr) as (before & m & t & m' & after & -> & Hb & Hs & Hm & Hn);
    [congruence|].
  pose proof (lima_step_has_facts _ _ _ Hs) as Hf.
  destruct (step_new_profile _ _ _ Hf Hn) as (_ & _ & Hst & Hst' & Hg).
  destruct (step_downscale _ _ _ Hf) as (a & Ha & Hd); [congruence| |].
  { destruct (llo_profile m'); congruence. }
  destruct (shape_acknowledgement _ (lima_run_shape _ _ _ Hb Hv) _ Ha) as (_ & ? & Hc & ? & _).
  rewrite (proj1 (lima_run_monotone _ _ _ Hb)) in Hc.
  exists before, m, t, m', after, a. repeat (split; [done|]).
  split; [|done]. eapply run_idle_stop; [done|done|done|by right].
Qed.

(** Between two different reservations there is an observation of the idle
    machine. *)
Lemma lima_reservation_handover o steps o' r r' :
  lima_run o steps o' →
  llo_active_reservation_id o = Some r → llo_active_reservation_id o' = Some r' → r ≠ r' →
  Exists (λ s, llo_active_reservation_id s.2 = None) steps.
Proof.
  intros Hr Ho. revert r'.
  induction Hr as [|steps m t o' Hr IH Hs]; intros r' Hr' Hne; [congruence|].
  apply Exists_app. destruct (llo_active_reservation_id m) as [rm|] eqn:Hm.
  - left. apply (IH rm); [done|]. intros ->.
    apply Hne. symmetry. by apply (step_reservation _ _ _ (lima_step_has_facts _ _ _ Hs)).
  - left. destruct Hr as [|? ? ? ? _ _]; [congruence|].
    apply Exists_app. right. by constructor.
Qed.

(** ** An idle machine can follow its target *)

(** The observation of the idle machine [o] in another state, profile,
    generation and with another acknowledgement, made at [t]. *)
Definition idle_observation (o : LimaLifecycleObservation) (state : LimaLifecycleState)
    (profile : LimaResourceProfile) (generation : N)
    (acknowledgement : option GracefulStopAcknowledgement) (t : EpochMillis)
    : LimaLifecycleObservation :=
  {| llo_schema_version := LIMA_LIFECYCLE_SCHEMA_VERSION;
     llo_identity := llo_identity o;
     llo_state := state;
     llo_profile := profile;
     llo_profile_generation := generation;
     llo_observed_resources := LimaObservedResources_for_profile profile;
     llo_observed_at := t;
     llo_active_reservation_id := None;
     llo_last_activity_at := llo_last_activity_at o;
     llo_idle_deadline := llo_last_activity_at o + idle_deadline_offset_millis profile;
     llo_graceful_stop_acknowledgement := acknowledgement |}.

Definition drained (o : LimaLifecycleObservation) (t : EpochMillis)
    : GracefulStopAcknowledgement :=
  mkStopAcknowledgement t (llo_profile_generation o) (lima_cache_disk (llo_identity o))
    DrainCompleted.

Lemma lima_step_intro t o o' :
  lima_shape o' →
  llo_active_reservation_id o = None → llo_active_reservation_id o' = None →
  llo_observed_at o ≤ llo_observed_at o' ≤ t →
  t ≤ llo_observed_at o + llp_max_observation_age_millis policy →
  llo_identity o' = llo_identity o →
  llo_last_activity_at o' = llo_last_activity_at o →
  (llo_profile o' = llo_profile o → llo_idle_deadline o' = llo_idle_deadline o) →
  validate_profile_progress o o' = Ok () →
  lima_moves (llo_state o) (llo_state o') →
  (llo_state o' = LimaStopping → llo_idle_deadline o ≤ t) →
  validate_stop_acknowledgement_progress o o' = Ok () →
  lima_step t o o'.
Proof.
  intros Hs Hn Hn' Hobs Hage Hid Hact Hdl Hp Hm Hd Hk. split; [by apply lima_valid_shape|].
  unfold LimaLifecyclePolicy_plan_transition.
  replace (LimaLifecycleState_is_terminal (llo_state o)) with false
    by (destruct (llo_state o); try done; by destruct (llo_state o')).
  rewrite !(proj2 (lima_freshness_Ok _ _ _ _ ())) by lia. rsimpl.
  rewrite (proj2 (N.ltb_ge _ _)) by lia. rewrite Hid, !bool_decide_false by auto.
  assert (validate_activity_progress o o' = Ok ()) as ->.
  { unfold validate_activity_progress. rewrite Hact, N.ltb_irrefl, N.eqb_refl. simpl.
    case_bool_decide; [|done]. by rewrite Hdl, N.eqb_refl by done. }
  rsimpl. rewrite Hp. rsimpl.
  assert (lima_validate_reservation_progress o o' = Ok ()) as ->.
  { unfold lima_validate_reservation_progress. rewrite Hn, Hn'. simpl.
    by rewrite !andb_false_r. }
  rsimpl.
  assert (validate_stop_request o o' t = Ok ()) as ->.
  { unfold validate_stop_request. case_bool_decide; [|done]. rewrite Hn. simpl.
    by rewrite (proj2 (N.ltb_ge _ _)) by auto. }
  rsimpl. unfold lima_moves in Hm. rewrite Hm. rsimpl. rewrite Hk. rsimpl. eauto.
Qed.

Lemma idle_shape o state profile generation k t :
  lima_shape o → llo_observed_at o ≤ t →
  llo_last_activity_at o + idle_deadline_offset_millis profile ≤ u64_max →
  (∀ a, k = Some a → may_hold_acknowledgement state ∧ a = drained o t
                     ∧ generation = llo_profile_generation o) →
  lima_shape (idle_observation o state profile generation k t).
Proof.
  intros Hs Ht Hfit Hk. pose proof (shape_activity _ Hs).
  constructor; simpl; try done; [lia|]. intros a ->.
  destruct (Hk a eq_refl) as (? & -> & ->). simpl. repeat split; try done; lia.
Qed.

Lemma same_profile_progress o o' :
  llo_profile o' = llo_profile o → llo_profile_generation o' = llo_profile_generation o →
  validate_profile_progress o o' = Ok ().
Proof.
  intros Hp Hg. unfold validate_profile_progress.
  by rewrite bool_decide_true, Hg, N.eqb_refl by done.
Qed.

Lemma idle_stop_run o t :
  lima_shape o → llo_state o = LimaRunning ∨ llo_state o = LimaDraining →
  llo_active_reservation_id o = None →
  llo_observed_at o ≤ t ≤ llo_observed_at o + llp_max_observation_age_millis policy →
  llo_idle_deadline o ≤ t →
  lima_run o
    [(t, idle_observation o LimaDraining (llo_profile o) (llo_profile_generation o) None t);
     (t, idle_observation o LimaStopping (llo_profile o) (llo_profile_generation o) None t);
     (t, idle_observation o LimaStopped (llo_profile o) (llo_profile_generation o)
           (Some (drained o t)) t)]
    (idle_observation o LimaStopped (llo_profile o) (llo_profile_generation o)
       (Some (drained o t)) t).
Proof.
  intros Hs Hst Hn Ht Hd.
  pose proof (shape_deadline_fits _ Hs) as Hfit. rewrite (shape_deadline _ Hs) in Hfit, Hd.
  refine (lima_run_snoc o [(t, _); (t, _)] _ t _ _ _);
    [refine (lima_run_snoc o [(t, _)] _ t _ _ _);
       [refine (lima_run_snoc o [] _ t _ _ _); [constructor|]|]|].
  all: apply lima_step_intro; simpl; try done; try lia;
    try (by apply same_profile_progress).
  - apply idle_shape; done || lia.
  - by rewrite (shape_deadline _ Hs).
  - by destruct Hst as [->| ->].
  - unfold validate_stop_acknowledgement_progress. simpl.
    by destruct (llo_graceful_stop_acknowledgement o).
  - apply idle_shape; done || lia.
  - apply idle_shape; [done|lia|done|]. intros a [= <-]. split; [by right|done].
Qed.

Lemma interactive_after_stop o t :
  lima_shape o → llo_profile o = LimaWork → llo_profile_generation o < u64_max →
  llo_observed_at o ≤ t →
  llo_last_activity_at o + STOP_AFTER_IDLE_MILLIS ≤ u64_max →
  let s := idle_observation o LimaStopped LimaWork (llo_profile_generation o)
             (Some (drained o t)) t in
  let next state := idle_observation o state LimaInteractive (llo_profile_generation o + 1)
                      None t in
  lima_step t s (next LimaStarting) ∧ lima_step t (next LimaStarting) (next LimaRunning).
Proof.
  intros Hs Hw Hg Ht Hfit s next.
  assert (∀ state, lima_shape (next state)) as Hnext.
  { intros state. by apply idle_shape. }
  split; apply lima_step_intro; simpl; try done; try lia.
  - unfold validate_profile_progress, checked_next, checked_add. simpl.
    rewrite (proj2 (N.leb_le _ _)) by lia. by rewrite bool_decide_false by auto.
  - by apply same_profile_progress.
Qed.

(** The machine is where the target wants it. *)
Definition realises (target : LimaLifecycleTarget) (o : LimaLifecycleObservation) : Prop :=
  match target with
  | TargetWork => llo_state o = LimaRunning ∧ llo_profile o = LimaWork
  | TargetInteractive => llo_state o = LimaRunning ∧ llo_profile o = LimaInteractive
  | TargetStopped => llo_state o = LimaStopped
  end.

Lemma desired_target_due o t target :
  lima_shape o →
  LimaLifecyclePolicy_desired_target policy o t = Ok target → target ≠ TargetWork →
  llo_active_reservation_id o = None
  ∧ llo_observed_at o ≤ t ≤ llo_observed_at o + llp_max_observation_age_millis policy
  ∧ (llo_profile o = LimaWork ∨ target = TargetStopped → llo_idle_deadline o ≤ t).
Proof.
  intros Hs H Ht. unfold LimaLifecyclePolicy_desired_target in H.
  apply bind_Ok in H as (u & Hf & H). apply lima_freshness_Ok in Hf.
  destruct (llo_active_reservation_id o); simpl in H; [congruence|].
  split; [done|]. split; [done|]. rewrite (shape_deadline _ Hs).
  pose proof (shape_activity _ Hs). unfold checked_sub in H.
  rewrite (proj2 (N.leb_le _ _)) in H by lia. simpl in H.
  intros Hcase. unfold STOP_AFTER_IDLE_MILLIS, INTERACTIVE_AFTER_IDLE_MILLIS in *.
  inv_ok H; bprop; injection H as <-; try done; destruct (llo_profile o); simpl;
    unfold STOP_AFTER_IDLE_MILLIS, INTERACTIVE_AFTER_IDLE_MILLIS; try lia.
  by destruct Hcase.
Qed.

(** When the policy wants a running machine interactive or stopped, it can be:
    transitions the policy accepts now lead there. *)
Theorem lima_target_reachable o t target :
  lima_valid o → llo_state o = LimaRunning ∨ llo_state o = LimaDraining →
  llo_profile_generation o < u64_max → t + STOP_AFTER_IDLE_MILLIS ≤ u64_max →
  LimaLifecyclePolicy_desired_target policy o t = Ok target → target ≠ TargetWork →
  ∃ steps o', lima_run o steps o' ∧ Forall (λ s, s.1 = t) steps ∧ realises target o'.
Proof.
  intros Hs%lima_valid_shape Hst Hg Hend Hdes Hne.
  destruct (desired_target_due _ _ _ Hs Hdes Hne) as (Hn & Ht & Hd).
  pose proof (shape_activity _ Hs).
  destruct target; [done| |].
  - destruct (llo_profile o) eqn:Hp.
    + eexists [(t, _)], (idle_observation o LimaRunning (llo_profile o)
        (llo_profile_generation o) None t).
      split; [|by split; [apply Forall_singleton|]].
      pose proof (shape_deadline_fits _ Hs) as Hfit. pose proof (shape_deadline _ Hs) as Hdl.
      apply (lima_run_snoc o [] o t); [constructor|].
      apply lima_step_intro; simpl; try done; try lia.
      * apply idle_shape; try done; lia.
      * by apply same_profile_progress.
      * by destruct Hst as [->| ->].
      * unfold validate_stop_acknowledgement_progress. simpl.
        by destruct (llo_graceful_stop_acknowledgement o).
    + destruct (interactive_after_stop o t) as [H1 H2]; try done; [lia|lia|].
      pose proof (idle_stop_run o t Hs Hst Hn Ht (Hd (or_introl eq_refl))) as H0.
      rewrite Hp in H0. do 2 eexists. split.
      { eapply lima_run_snoc; [eapply lima_run_snoc; [exact H0|exact H1]|exact H2]. }
      split; [by repeat (apply Forall_cons; split); try apply Forall_nil|done].
  - do 2 eexists. split; [apply (idle_stop_run o t Hs Hst Hn Ht); auto|].
    split; [by repeat (apply Forall_cons; split); try apply Forall_nil|done].
Qed.

End run.

(** ** A machine that shrinks *)

Definition sample_lima_policy : LimaLifecyclePolicy := mkLimaPolicy 1 300000.

Definition sample_lima_disk : LimaCacheDiskIdentity := mkCacheDisk "glaeda-cache" "sha256:00".

Definition sample_lima_running : LimaLifecycleObservation :=
  {| llo_schema_version := 1;
     llo_identity := mkLimaIdentity "glaeda-worker" sample_lima_disk;
     llo_state := LimaRunning;
     llo_profile := LimaWork;
     llo_profile_generation := 7;
     llo_observed_resources := mkObservedResources 8 10737418240;
     llo_observed_at := 1700000;
     llo_active_reservation_id := None;
     llo_last_activity_at := 1000000;
     llo_idle_deadline := 1600000;
     llo_graceful_stop_acknowledgement := None |}.

Definition sample_lima_step (state : LimaLifecycleState) (profile : LimaResourceProfile)
    (generation : N) (acknowledgement : option GracefulStopAcknowledgement)
    : EpochMillis * LimaLifecycleObservation :=
  (1700001, idle_observation sample_lima_running state profile generation acknowledgement
              1700001).

Definition sample_lima_run : list (EpochMillis * LimaLifecycleObservation) :=
  [sample_lima_step LimaDraining LimaWork 7 None;
   sample_lima_step LimaStopping LimaWork 7 None;
   sample_lima_step LimaStopped LimaWork 7 (Some (drained sample_lima_running 1700001));
   sample_lima_step LimaStarting LimaInteractive 8 None;
   sample_lima_step LimaRunning LimaInteractive 8 None].

(** The run as a fixpoint, so that a concrete one is checked by evaluation. *)
Fixpoint lima_accepts (policy : LimaLifecyclePolicy) (o : LimaLifecycleObservation)
    (steps : list (EpochMillis * LimaLifecycleObservation)) : bool :=
  match steps with
  | [] => true
  | (t, o') :: steps =>
      bool_decide (LimaLifecycleObservation_new
        {| lod_identity := llo_identity o';
           lod_state := llo_state o';
           lod_profile := llo_profile o';
           lod_profile_generation := llo_profile_generation o';
           lod_observed_resources := llo_observed_resources o';
           lod_observed_at := llo_observed_at o';
           lod_active_reservation_id := llo_active_reservation_id o';
           lod_last_activity_at := llo_last_activity_at o';
           lod_idle_deadline := llo_idle_deadline o';
           lod_graceful_stop_acknowledgement := llo_graceful_stop_acknowledgement o' |} = Ok o')
      && is_ok (LimaLifecyclePolicy_plan_transition policy o o' t)
      && lima_accepts policy o' steps
  end.

Lemma lima_accepts_run policy o before m steps :
  lima_run policy o before m → lima_accepts policy m steps = true →
  lima_run policy o (before ++ steps) (run_end m steps).
Proof.
  revert before m. induction steps as [|[t o'] steps IH]; intros before m Hr H.
  { by rewrite app_nil_r. }
  cbn [lima_accepts] in H. bprop.
  destruct (LimaLifecyclePolicy_plan_transition policy m o' t) eqn:Hp; try done.
  assert (lima_run policy o (before ++ [(t, o')]) o') as Hr'.
  { eapply lima_run_snoc; [done|]. split; [by eexists|by eexists]. }
  rewrite run_end_cons. specialize (IH _ _ Hr'). rewrite <- app_assoc in IH. auto.
Qed.

Lemma sample_lima_runs :
  lima_run sample_lima_policy sample_lima_running sample_lima_run
    (run_end sample_lima_running sample_lima_run).
Proof.
  apply (lima_accepts_run _ _ []); [constructor|]. vm_compute. reflexivity.
Qed.

Lemma sample_lima_valid : lima_valid sample_lima_running.
Proof.
  exists {| lod_identity := llo_identity sample_lima_running;
            lod_state := LimaRunning; lod_profile := LimaWork; lod_profile_generation := 7;
            lod_observed_resources := mkObservedResources 8 10737418240;
            lod_observed_at := 1700000; lod_active_reservation_id := None;
            lod_last_activity_at := 1000000; lod_idle_deadline := 1600000;
            lod_graceful_stop_acknowledgement := None |}.
  vm_compute. reflexivity.
Qed.

Lemma lima_run_invariant_witness :
  profile_changes sample_lima_running sample_lima_run = 1
  ∧ llo_profile_generation (run_end sample_lima_running sample_lima_run) = 7 + 1.
Proof.
  split; [reflexivity|].
  destruct (lima_run_invariant sample_lima_policy _ _ _ sample_lima_valid sample_lima_runs)
    as (_ & _ & _ & _ & Hg & _).
  exact Hg.
Defined.

Lemma lima_stop_after_cooldown_witness :
  idle_stop sample_lima_policy (take 3 sample_lima_run) sample_lima_running
    (run_end sample_lima_running (take 3 sample_lima_run)).
Proof.
  apply lima_stop_after_cooldown.
  - exact sample_lima_valid.
  - intros [H|H]; discriminate H.
  - apply (lima_accepts_run _ _ []); [constructor|]. vm_compute. reflexivity.
  - right. reflexivity.
Defined.

Lemma lima_downscale_after_drain_witness :
  ∃ before m t m' after a,
    sample_lima_run = before ++ (t, m') :: after
    ∧ idle_stop sample_lima_policy before sample_lima_running m
    ∧ llo_graceful_stop_acknowledgement m = Some a ∧ gsa_drain a = DrainCompleted.
Proof.
  destruct (lima_downscale_after_drain sample_lima_policy sample_lima_running sample_lima_run
              (run_end sample_lima_running sample_lima_run))
    as (before & m & t & m' & after & a & H).
  - exact sample_lima_valid.
  - intros [H|H]; discriminate H.
  - reflexivity.
  - exact sample_lima_runs.
  - reflexivity.
  - exists before, m, t, m', after, a. repeat split; apply H.
Defined.

Lemma lima_target_reachable_witness :
  ∃ steps o', lima_run sample_lima_policy sample_lima_running steps o'
              ∧ Forall (λ s, s.1 = 1700001) steps ∧ realises TargetInteractive o'.
Proof.
  apply lima_target_reachable.
  - exact sample_lima_valid.
  - left. reflexivity.
  - vm_compute. reflexivity.
  - vm_compute. discriminate.
  - vm_compute. reflexivity.
  - discriminate.
Defined.
