(* ===== verification/MacAvailability.v ===== *)
(** * Availability of the Mac

    [src/src/mac_availability.rs]: whether the host may be moved between its
    interactive, away and off modes, and the steps of the move.  A plan either
    changes nothing, lists what blocks the change, or lists the steps.  The
    text rendering of a plan is left out. *)

From S2P Require Import Prelude.

Local Open Scope N_scope.

(** ** Data *)

Definition MAC_AVAILABILITY_SCHEMA_VERSION : N := 1.

Inductive AvailabilityRequest :=
| RequestActive
| RequestAway
| RequestOff
| RequestAuto.

#[export] Instance availability_request_eq_dec : EqDecision AvailabilityRequest.
Proof. solve_decision. Defined.

Inductive EffectiveAvailabilityMode :=
| ModeActive
| ModeAway
| ModeOff.

#[export] Instance availability_mode_eq_dec : EqDecision EffectiveAvailabilityMode.
Proof. solve_decision. Defined.

Inductive VmPowerState :=
| PowerRunning
| PowerStopped
| PowerUnknown.

#[export] Instance vm_power_eq_dec : EqDecision VmPowerState.
Proof. solve_decision. Defined.

Inductive JobActivity :=
| JobIdle
| JobActive
| JobUnknown.

#[export] Instance job_activity_eq_dec : EqDecision JobActivity.
Proof. solve_decision. Defined.

Inductive ObservationFreshness :=
| ObservationFresh
| ObservationStale.

#[export] Instance observation_freshness_eq_dec : EqDecision ObservationFreshness.
Proof. solve_decision. Defined.

Inductive HostPowerSource :=
| HostAc
| HostBattery
| HostPowerUnknown.

#[export] Instance host_power_eq_dec : EqDecision HostPowerSource.
Proof. solve_decision. Defined.

Inductive MemoryPressure :=
| PressureNormal
| PressureElevated
| PressureCritical
| PressureUnknown.

#[export] Instance memory_pressure_eq_dec : EqDecision MemoryPressure.
Proof. solve_decision. Defined.

Record MacVmProfile := mkVmProfile {
  mvp_cpus : N;
  mvp_memory_mib : N;
  mvp_max_concurrent_jobs : N;
}.

Definition ACTIVE_PROFILE : MacVmProfile := mkVmProfile 4 (3 * 1024) 1.
Definition AWAY_PROFILE : MacVmProfile := mkVmProfile 8 (10 * 1024) 1.

Record MacAvailabilityObservation := mkAvailability {
  mao_effective_mode : EffectiveAvailabilityMode;
  mao_vm_power : VmPowerState;
  mao_job_activity : JobActivity;
  mao_freshness : ObservationFreshness;
  mao_host_power : HostPowerSource;
  mao_memory_pressure : MemoryPressure;
  mao_operator_hold : bool;
}.

Inductive AvailabilityDisposition :=
| NoChange
| DispositionReady
| DispositionBlocked
| ManualPolicyRequired.

#[export] Instance disposition_eq_dec : EqDecision AvailabilityDisposition.
Proof. solve_decision. Defined.

Inductive AvailabilityBlockerKind :=
| BlockerActiveJob
| BlockerAutoPolicyUnavailable
| BlockerBatteryPower
| BlockerCriticalMemoryPressure
| BlockerElevatedMemoryPressure
| BlockerInconsistentEffectiveState
| BlockerOperatorHold
| BlockerStaleObservation
| BlockerUnknownJobActivity
| BlockerUnknownMemoryPressure
| BlockerUnknownPowerSource
| BlockerUnknownVmPower.

#[export] Instance blocker_kind_eq_dec : EqDecision AvailabilityBlockerKind.
Proof. solve_decision. Defined.

Record AvailabilityBlocker := mkBlocker {
  blocker_kind : AvailabilityBlockerKind;
  blocker_message : string;
}.

Inductive AvailabilityActionKind :=
| ApplyProfile
| DrainRunner
| StartVmStep
| StopVmStep
| VerifyTransition.

#[export] Instance action_kind_eq_dec : EqDecision AvailabilityActionKind.
Proof. solve_decision. Defined.

Record AvailabilityAction := mkAction {
  action_kind : AvailabilityActionKind;
  action_summary : string;
}.

Record MacAvailabilityPlan := mkAvailabilityPlan {
  map_schema_version : N;
  map_effective_mode : EffectiveAvailabilityMode;
  map_requested_mode : AvailabilityRequest;
  map_disposition : AvailabilityDisposition;
  map_target_profile : option MacVmProfile;
  map_actions : list AvailabilityAction;
  map_blockers : list AvailabilityBlocker;
}.

Definition blocker (kind : AvailabilityBlockerKind) (message : string) : AvailabilityBlocker :=
  mkBlocker kind message.

Definition action (kind : AvailabilityActionKind) (summary : string) : AvailabilityAction :=
  mkAction kind summary.

Definition availability_plan (effective_mode : EffectiveAvailabilityMode)
    (requested_mode : AvailabilityRequest) (disposition : AvailabilityDisposition)
    (target_profile : option MacVmProfile) (actions : list AvailabilityAction)
    (blockers : list AvailabilityBlocker) : MacAvailabilityPlan :=
  mkAvailabilityPlan MAC_AVAILABILITY_SCHEMA_VERSION effective_mode requested_mode disposition
    target_profile actions blockers.

Definition blocked_plan (effective_mode : EffectiveAvailabilityMode)
    (requested_mode : AvailabilityRequest) (target_profile : option MacVmProfile)
    (blockers : list AvailabilityBlocker) : MacAvailabilityPlan :=
  availability_plan effective_mode requested_mode DispositionBlocked target_profile [] blockers.

(** ** Classification *)

Definition requested_profile (requested_mode : AvailabilityRequest) : option MacVmProfile :=
  match requested_mode with
  | RequestActive => Some ACTIVE_PROFILE
  | RequestAway => Some AWAY_PROFILE
  | RequestOff | RequestAuto => None
  end.

Definition request_matches_effective (requested_mode : AvailabilityRequest)
    (effective_mode : EffectiveAvailabilityMode) : bool :=
  match requested_mode, effective_mode with
  | RequestActive, ModeActive | RequestAway, ModeAway | RequestOff, ModeOff => true
  | _, _ => false
  end.

Definition effective_state_is_consistent (effective_mode : EffectiveAvailabilityMode)
    (vm_power : VmPowerState) : bool :=
  match effective_mode, vm_power with
  | (ModeActive | ModeAway), PowerRunning | ModeOff, PowerStopped => true
  | _, _ => false
  end.

(** The functions that take [&mut Vec<AvailabilityBlocker>] return the vector
    with what they pushed at its end. *)
Definition classify_off_job_consistency (observation : MacAvailabilityObservation)
    (blockers : list AvailabilityBlocker) : list AvailabilityBlocker :=
  if bool_decide (mao_effective_mode observation ≠ ModeOff) then blockers
  else
    match mao_job_activity observation with
    | JobIdle => blockers
    | JobActive =>
        blockers ++ [blocker BlockerInconsistentEffectiveState
          "the VM is off but runner job activity is reported as active"]
    | JobUnknown =>
        blockers ++ [blocker BlockerUnknownJobActivity
          "the VM is off but runner job activity is unknown; prove the listener idle"]
    end.

Definition classify_start_capacity (observation : MacAvailabilityObservation)
    (requested_mode : AvailabilityRequest) (blockers : list AvailabilityBlocker)
    : result Empty_set (list AvailabilityBlocker) :=
  if bool_decide (requested_mode = RequestAway) then
    let blockers :=
      match mao_host_power observation with
      | HostAc => blockers
      | HostBattery =>
          blockers ++ [blocker BlockerBatteryPower
            "away mode requires AC power in the initial policy"]
      | HostPowerUnknown =>
          blockers ++ [blocker BlockerUnknownPowerSource
            "away mode requires a known host power source"]
      end in
    Ok match mao_memory_pressure observation with
       | PressureNormal => blockers
       | PressureElevated =>
           blockers ++ [blocker BlockerElevatedMemoryPressure
             "away mode is blocked while macOS memory pressure is elevated"]
       | PressureCritical =>
           blockers ++ [blocker BlockerCriticalMemoryPressure
             "away mode is blocked while macOS memory pressure is critical"]
       | PressureUnknown =>
           blockers ++ [blocker BlockerUnknownMemoryPressure
             "away mode requires a known memory-pressure observation"]
       end
  else if match mao_memory_pressure observation with
          | PressureCritical | PressureUnknown => true
          | _ => false
          end
  then
    kind_message ←
      match mao_memory_pressure observation with
      | PressureCritical =>
          Ok (BlockerCriticalMemoryPressure,
              "starting the interactive VM is blocked while macOS memory pressure is critical")
      | PressureUnknown =>
          Ok (BlockerUnknownMemoryPressure,
              "starting the interactive VM requires a known memory-pressure observation")
      | PressureNormal | PressureElevated => Panic
      end;
    Ok (blockers ++ [blocker kind_message.1 kind_message.2])
  else Ok blockers.

Definition classify_job_barrier (observation : MacAvailabilityObservation)
    (requested_mode : AvailabilityRequest) (blockers : list AvailabilityBlocker)
    : list AvailabilityBlocker :=
  if bool_decide (mao_effective_mode observation = ModeOff)
     || request_matches_effective requested_mode (mao_effective_mode observation)
  then blockers
  else
    match mao_job_activity observation with
    | JobIdle => blockers
    | JobActive =>
        blockers ++ [blocker BlockerActiveJob
          "an active runner job blocks VM stop, restart, or profile replacement"]
    | JobUnknown =>
        blockers ++ [blocker BlockerUnknownJobActivity
          "runner job activity is unknown; prove the listener idle before changing availability"]
    end.

Definition transition_actions (effective_mode : EffectiveAvailabilityMode)
    (requested_mode : AvailabilityRequest) : list AvailabilityAction :=
  match effective_mode, requested_mode with
  | ModeOff, RequestActive =>
      [action ApplyProfile "apply the interactive Lima profile";
       action StartVmStep "start the Lima VM";
       action VerifyTransition "freshly verify VM profile and runner admission state"]
  | ModeOff, RequestAway =>
      [action ApplyProfile "apply the away Lima profile";
       action StartVmStep "start the Lima VM";
       action VerifyTransition "freshly verify VM profile and runner admission state"]
  | (ModeActive | ModeAway), RequestOff =>
      [action DrainRunner "drain the runner and prove no job is active";
       action StopVmStep "stop the Lima VM";
       action VerifyTransition "freshly verify the VM is stopped and admission remains disabled"]
  | ModeActive, RequestAway =>
      [action DrainRunner "drain the runner and prove no job is active";
       action StopVmStep "stop the Lima VM before changing its resource profile";
       action ApplyProfile "apply the away Lima profile";
       action StartVmStep "start the Lima VM";
       action VerifyTransition "freshly verify VM profile and runner admission state"]
  | ModeAway, RequestActive =>
      [action DrainRunner "drain the runner and prove no job is active";
       action StopVmStep "stop the Lima VM before changing its resource profile";
       action ApplyProfile "apply the interactive Lima profile";
       action StartVmStep "start the Lima VM";
       action VerifyTransition "freshly verify VM profile and runner admission state"]
  | _, RequestAuto | ModeActive, RequestActive | ModeAway, RequestAway
  | ModeOff, RequestOff => []
  end.

(** ** The plan *)

(** The blockers every request meets, in the order they are pushed. *)
Definition common_blockers (observation : MacAvailabilityObservation)
    : list AvailabilityBlocker :=
  let blockers :=
    (if bool_decide (mao_freshness observation = ObservationStale)
     then [blocker BlockerStaleObservation
            "availability evidence is stale; refresh host and job observations before planning a transition"]
     else [])
    ++ (if mao_operator_hold observation
        then [blocker BlockerOperatorHold "an operator hold blocks availability transitions"]
        else [])
    ++ (if bool_decide (mao_vm_power observation = PowerUnknown)
        then [blocker BlockerUnknownVmPower "the Lima VM power state is unknown"]
        else [])
    ++ (if negb (effective_state_is_consistent (mao_effective_mode observation)
                   (mao_vm_power observation))
        then [blocker BlockerInconsistentEffectiveState
               "the effective availability mode conflicts with the observed VM power state"]
        else []) in
  classify_off_job_consistency observation blockers.

Definition plan_availability_transition (observation : MacAvailabilityObservation)
    (requested_mode : AvailabilityRequest) : result Empty_set MacAvailabilityPlan :=
  let target_profile := requested_profile requested_mode in
  let effective_mode := mao_effective_mode observation in
  let blockers := common_blockers observation in
  let is_empty (blockers : list AvailabilityBlocker) :=
    match blockers with [] => true | _ => false end in
  if bool_decide (requested_mode = RequestAuto) then
    if is_empty blockers
    then Ok (availability_plan effective_mode requested_mode ManualPolicyRequired target_profile []
               (blockers ++ [blocker BlockerAutoPolicyUnavailable
                 "auto mode requires reviewed idle, power, memory, dwell-time, and job-drain policy that is not implemented yet"]))
    else Ok (blocked_plan effective_mode requested_mode target_profile blockers)
  else if request_matches_effective requested_mode effective_mode && is_empty blockers
  then Ok (availability_plan effective_mode requested_mode NoChange target_profile [] [])
  else
    blockers ←
      (if bool_decide (requested_mode ≠ RequestOff)
       then classify_start_capacity observation requested_mode blockers
       else Ok blockers);
    let blockers := classify_job_barrier observation requested_mode blockers in
    if negb (is_empty blockers)
    then Ok (blocked_plan effective_mode requested_mode target_profile blockers)
    else Ok (availability_plan effective_mode requested_mode DispositionReady target_profile
               (transition_actions effective_mode requested_mode) []).
