(* ===== verification/HostBroker.v ===== *)
(** * Host broker

    [src/src/personal_worker_host_broker.rs]: the pure reducer that turns one
    queue decision, one observation of the Lima machine and one of the runner
    into the next action of the host. *)

From S2P Require Import Prelude Artifact ExecutionAdmission WorkerQueue LimaLifecycle.

Local Open Scope N_scope.

(** ** Data *)

Definition PERSONAL_WORKER_HOST_BROKER_SCHEMA_VERSION : N := 1.
Definition MAX_HOST_BROKER_OBSERVATION_AGE_MILLIS : N := 300000.
Definition MAX_HOST_BROKER_STATE_REVISION : N := 1000000000000.

Record HostBrokerReducerError := mkBrokerError {
  hbe_field : string;
  hbe_code : string;
  hbe_message : string;
}.

Notation HostBrokerStateRevision := N (only parsing).

Inductive HostBrokerObservationTarget :=
| ObserveQueue
| ObserveLima
| ObserveRunner.

#[export] Instance broker_target_eq_dec : EqDecision HostBrokerObservationTarget.
Proof. solve_decision. Defined.

Inductive HostBrokerRunnerState :=
| RunnerOffline
| RunnerStarting
| RunnerIdleReady
| RunnerBusy (request_id : ExecutionRequestId)
| RunnerDraining (request_id : ExecutionRequestId).

#[export] Instance broker_runner_state_eq_dec : EqDecision HostBrokerRunnerState.
Proof. solve_decision. Defined.

Record HostBrokerRunnerObservation := mkRunnerObservation {
  hbr_instance_id : LimaInstanceId;
  hbr_profile_generation : LimaProfileGeneration;
  hbr_observed_at : EpochMillis;
  hbr_state : HostBrokerRunnerState;
}.

Inductive HostBrokerAction :=
| BrokerObserve (target : HostBrokerObservationTarget)
| BrokerStart (identity : LimaInstanceIdentity) (profile : LimaResourceProfile)
    (profile_generation : LimaProfileGeneration)
| BrokerStop (identity : LimaInstanceIdentity) (current_profile : LimaResourceProfile)
    (profile_generation : LimaProfileGeneration) (target_after_stop : PersonalWorkerProfile)
| BrokerChangeProfile (identity : LimaInstanceIdentity)
    (from_profile to_profile : LimaResourceProfile)
    (current_generation next_generation : LimaProfileGeneration)
| BrokerWaitForRunner (identity : LimaInstanceIdentity) (profile : LimaResourceProfile)
    (profile_generation : LimaProfileGeneration)
| BrokerReserve (selection : PersonalWorkerSelection)
| BrokerRelease (request_id : ExecutionRequestId)
| BrokerCancelDownscale (target : PersonalWorkerProfile)
| BrokerNoOp.

Record HostBrokerPlan := mkBrokerPlan {
  hbp_schema_version : N;
  hbp_state_revision : HostBrokerStateRevision;
  hbp_queue_generation : PersonalWorkerQueueGeneration;
  hbp_decision_at : EpochMillis;
  hbp_action : HostBrokerAction;
}.

Record HostBrokerReducerInput := mkBrokerInput {
  hbi_state_revision : HostBrokerStateRevision;
  hbi_decision_at : EpochMillis;
  hbi_queue : PersonalWorkerQueueDecision;
  hbi_lifecycle_policy : LimaLifecyclePolicy;
  hbi_lifecycle : option LimaLifecycleObservation;
  hbi_runner : option HostBrokerRunnerObservation;
  hbi_previous : option HostBrokerPlan;
}.

Record HostBrokerReducerPolicy := mkBrokerPolicy {
  hbpol_schema_version : N;
  hbpol_max_queue_age_millis : N;
  hbpol_max_runner_age_millis : N;
}.

(** [RunnerEvidence] of the broker; the tick has its own of the same shape. *)
Inductive RunnerEvidence :=
| RunnerMissingOrStale
| RunnerFresh (runner : HostBrokerRunnerObservation).

(** ** Constructors *)

Definition HostBrokerStateRevision_new (value : N)
    : result HostBrokerReducerError HostBrokerStateRevision :=
  if negb (in_range 1 MAX_HOST_BROKER_STATE_REVISION value)
  then Err (mkBrokerError "state_revision" "invalid_state_revision"
         "broker state revision must be within the bounded positive range")
  else Ok value.

Definition HostBrokerStateRevision_next (self : HostBrokerStateRevision)
    : result HostBrokerReducerError HostBrokerStateRevision :=
  value ← ok_or (checked_add u64_max self 1)
    (mkBrokerError "state_revision" "state_revision_exhausted"
       "broker state revision space is exhausted");
  HostBrokerStateRevision_new value.

Definition validate_freshness_window (field : string) (value : N)
    : result HostBrokerReducerError () :=
  if negb (in_range 1 MAX_HOST_BROKER_OBSERVATION_AGE_MILLIS value)
  then Err (mkBrokerError field "invalid_freshness_window"
         "broker freshness window must be positive and within the reviewed maximum")
  else Ok ().

Definition HostBrokerReducerPolicy_new (max_queue_age_millis max_runner_age_millis : N)
    : result HostBrokerReducerError HostBrokerReducerPolicy :=
  _ ← validate_freshness_window "policy.max_queue_age_millis" max_queue_age_millis;
  _ ← validate_freshness_window "policy.max_runner_age_millis" max_runner_age_millis;
  Ok (mkBrokerPolicy PERSONAL_WORKER_HOST_BROKER_SCHEMA_VERSION max_queue_age_millis
        max_runner_age_millis).

Definition broker_plan (input : HostBrokerReducerInput) (action : HostBrokerAction)
    : HostBrokerPlan :=
  mkBrokerPlan PERSONAL_WORKER_HOST_BROKER_SCHEMA_VERSION (hbi_state_revision input)
    (qd_generation (hbi_queue input)) (hbi_decision_at input) action.

Definition stop_plan (input : HostBrokerReducerInput) (lifecycle : LimaLifecycleObservation)
    (target_after_stop : PersonalWorkerProfile) : HostBrokerPlan :=
  broker_plan input (BrokerStop (llo_identity lifecycle) (llo_profile lifecycle)
    (llo_profile_generation lifecycle) target_after_stop).

Definition wait_plan (input : HostBrokerReducerInput) (lifecycle : LimaLifecycleObservation)
    : HostBrokerPlan :=
  broker_plan input (BrokerWaitForRunner (llo_identity lifecycle) (llo_profile lifecycle)
    (llo_profile_generation lifecycle)).

Definition map_lima_profile (profile : LimaResourceProfile) : PersonalWorkerProfile :=
  match profile with
  | LimaInteractive => ProfileInteractive
  | LimaWork => ProfileWork
  end.

Definition map_worker_profile (profile : PersonalWorkerProfile) : option LimaResourceProfile :=
  match profile with
  | ProfileStopped => None
  | ProfileInteractive => Some LimaInteractive
  | ProfileWork => Some LimaWork
  end.

(** ** Validation *)

Definition validate_revision (input : HostBrokerReducerInput)
    : result HostBrokerReducerError () :=
  match hbi_previous input with
  | None => Ok ()
  | Some previous =>
      if negb (hbp_schema_version previous =? PERSONAL_WORKER_HOST_BROKER_SCHEMA_VERSION)
      then Err (mkBrokerError "previous.schema_version" "unsupported_previous_broker_schema"
             "previous broker plan schema is not supported")
      else
        next ← HostBrokerStateRevision_next (hbp_state_revision previous);
        if negb (hbi_state_revision input =? next)
        then Err (mkBrokerError "state_revision" "stale_or_skipped_state_revision"
               "durable broker state revision must advance by exactly one")
        else if hbi_decision_at input <? hbp_decision_at previous
        then Err (mkBrokerError "decision_at" "broker_decision_time_reversal"
               "broker decision time cannot move backwards")
        else if qd_generation (hbi_queue input) <? hbp_queue_generation previous
        then Err (mkBrokerError "queue.generation" "queue_generation_reversal"
               "queue generation cannot move backwards across broker reductions")
        else Ok ()
  end.

Definition validate_queue_schema (queue : PersonalWorkerQueueDecision)
    : result HostBrokerReducerError () :=
  if negb (qd_schema_version queue =? PERSONAL_WORKER_QUEUE_SCHEMA_VERSION)
  then Err (mkBrokerError "queue.schema_version" "unsupported_queue_schema"
         "personal worker queue decision schema is not supported")
  else Ok ().

Definition broker_observation_is_stale (field : string) (observed_at decision_at : EpochMillis)
    (max_age_millis : N) : result HostBrokerReducerError bool :=
  age ← ok_or (checked_sub decision_at observed_at)
    (mkBrokerError field "future_observation"
       "broker input observation cannot be newer than the decision time");
  Ok (max_age_millis <? age).

Definition queue_has_work (queue : PersonalWorkerQueueDecision) : bool :=
  negb (match qd_selected queue with [] => true | _ => false end)
  || existsb (λ entry, bool_decide (vis_state entry ≠ EntryCancelled)) (qd_visibility queue).

Definition is_active_entry (entry : PersonalWorkerQueueVisibility) : bool :=
  match vis_state entry with
  | EntryReserved | EntryStarting | EntryRunning | EntryDraining => true
  | _ => false
  end.

Definition queue_has_active_work (queue : PersonalWorkerQueueDecision) : bool :=
  existsb is_active_entry (qd_visibility queue).

Definition validate_queue_lifecycle_alignment (queue : PersonalWorkerQueueDecision)
    (lifecycle : LimaLifecycleObservation) : result HostBrokerReducerError () :=
  let expected_current :=
    match llo_state lifecycle with
    | LimaStopped => ProfileStopped
    | _ => map_lima_profile (llo_profile lifecycle)
    end in
  current_profile ← ok_or (observed_profile (qd_profile_observation queue))
    (mkBrokerError "queue.profile_observation" "queue_profile_unobserved"
       "queue profile must be observed before lifecycle planning");
  if bool_decide (current_profile ≠ expected_current)
  then Err (mkBrokerError "queue.profile_observation" "queue_lifecycle_profile_mismatch"
         "queue current profile must match the exact Lima lifecycle observation")
  else if queue_has_active_work queue && bool_decide (llo_profile lifecycle ≠ LimaWork)
  then Err (mkBrokerError "lifecycle.profile" "active_work_requires_work_profile"
         "active broker work requires the exact Lima work profile")
  else if negb (Bool.eqb (is_some (llo_active_reservation_id lifecycle))
                  (queue_has_active_work queue))
  then Err (mkBrokerError "lifecycle.active_reservation_id" "queue_lifecycle_reservation_mismatch"
         "queue active-work evidence and Lima reservation evidence must agree")
  else Ok ().

Definition broker_desired_profile (queue : PersonalWorkerQueueDecision)
    (lifecycle_target : LimaLifecycleTarget)
    : result HostBrokerReducerError PersonalWorkerProfile :=
  let expected :=
    if queue_has_work queue then ProfileWork
    else
      match lifecycle_target with
      | TargetWork => ProfileWork
      | TargetInteractive => ProfileInteractive
      | TargetStopped => ProfileStopped
      end in
  if bool_decide (qd_desired_profile queue ≠ expected)
  then Err (mkBrokerError "queue.desired_profile" "queue_lifecycle_policy_mismatch"
         "queue and lifecycle policies must select the same exact desired profile")
  else Ok expected.

Definition validated_runner (policy : HostBrokerReducerPolicy) (input : HostBrokerReducerInput)
    (lifecycle : LimaLifecycleObservation) : result HostBrokerReducerError RunnerEvidence :=
  match hbi_runner input with
  | None => Ok RunnerMissingOrStale
  | Some runner =>
      stale ← broker_observation_is_stale "runner.observed_at" (hbr_observed_at runner)
                (hbi_decision_at input) (hbpol_max_runner_age_millis policy);
      if (stale : bool) then Ok RunnerMissingOrStale
      else if bool_decide (hbr_instance_id runner ≠ lima_instance_id (llo_identity lifecycle))
      then Err (mkBrokerError "runner.instance_id" "runner_instance_identity_mismatch"
             "runner readiness must bind the exact Lima instance identity")
      else if negb (hbr_profile_generation runner =? llo_profile_generation lifecycle)
      then Err (mkBrokerError "runner.profile_generation" "runner_profile_generation_mismatch"
             "runner readiness must bind the exact Lima profile generation")
      else Ok (RunnerFresh runner)
  end.

Definition validate_runner_request_identity (queue : PersonalWorkerQueueDecision)
    (runner_state : HostBrokerRunnerState) : result HostBrokerReducerError () :=
  let check (request_id : ExecutionRequestId)
      (expected_states : list PersonalWorkerQueueEntryState) :=
    if negb (existsb (λ entry, bool_decide (vis_request_id entry = request_id)
                               && bool_decide (vis_state entry ∈ expected_states))
               (qd_visibility queue))
    then Err (mkBrokerError "runner.state.request_id" "runner_queue_identity_mismatch"
           "busy or draining runner identity must match exact active queue evidence")
    else Ok () in
  match runner_state with
  | RunnerBusy request_id => check request_id [EntryStarting; EntryRunning]
  | RunnerDraining request_id => check request_id [EntryDraining]
  | RunnerOffline | RunnerStarting | RunnerIdleReady => Ok ()
  end.

Definition require_profile_change_permitted (queue : PersonalWorkerQueueDecision)
    : result HostBrokerReducerError () :=
  if negb (qd_profile_change_permitted queue) || queue_has_active_work queue
  then Err (mkBrokerError "queue.profile_change_permitted" "profile_change_while_active"
         "profile change or stop is forbidden while a reservation remains active")
  else Ok ().

(** ** The action *)

Definition choose_stopped_action (input : HostBrokerReducerInput)
    (lifecycle : LimaLifecycleObservation) (desired : PersonalWorkerProfile)
    : result HostBrokerReducerError HostBrokerPlan :=
  match desired with
  | ProfileStopped => Ok (broker_plan input BrokerNoOp)
  | ProfileInteractive | ProfileWork =>
      desired_lima ← expect (map_worker_profile desired);
      if bool_decide (llo_profile lifecycle = desired_lima)
      then Ok (broker_plan input (BrokerStart (llo_identity lifecycle) desired_lima
                 (llo_profile_generation lifecycle)))
      else
        _ ← require_profile_change_permitted (hbi_queue input);
        next ← ok_or (checked_add u64_max (llo_profile_generation lifecycle) 1)
          (mkBrokerError "lifecycle.profile_generation" "profile_generation_exhausted"
             "Lima profile generation space is exhausted");
        next_generation ← map_err
          (λ _, mkBrokerError "lifecycle.profile_generation" "invalid_next_profile_generation"
                  "next Lima profile generation is invalid")
          (LimaProfileGeneration_new next);
        Ok (broker_plan input (BrokerChangeProfile (llo_identity lifecycle)
              (llo_profile lifecycle) desired_lima (llo_profile_generation lifecycle)
              next_generation))
  end.

Definition choose_runner_action (policy : HostBrokerReducerPolicy)
    (input : HostBrokerReducerInput) (lifecycle : LimaLifecycleObservation)
    : result HostBrokerReducerError HostBrokerPlan :=
  evidence ← validated_runner policy input lifecycle;
  match evidence with
  | RunnerMissingOrStale => Ok (broker_plan input (BrokerObserve ObserveRunner))
  | RunnerFresh runner =>
      _ ← validate_runner_request_identity (hbi_queue input) (hbr_state runner);
      match hbr_state runner with
      | RunnerOffline | RunnerStarting => Ok (wait_plan input lifecycle)
      | RunnerIdleReady =>
          match List.find (λ entry, bool_decide (vis_state entry = EntryDraining))
                  (qd_visibility (hbi_queue input)) with
          | Some draining => Ok (broker_plan input (BrokerRelease (vis_request_id draining)))
          | None =>
              match head (qd_selected (hbi_queue input)) with
              | Some selection => Ok (broker_plan input (BrokerReserve selection))
              | None => Ok (broker_plan input BrokerNoOp)
              end
          end
      | RunnerBusy _ | RunnerDraining _ => Ok (broker_plan input BrokerNoOp)
      end
  end.

Definition choose_running_action (policy : HostBrokerReducerPolicy)
    (input : HostBrokerReducerInput) (lifecycle : LimaLifecycleObservation)
    (desired : PersonalWorkerProfile) : result HostBrokerReducerError HostBrokerPlan :=
  match desired with
  | ProfileWork =>
      if bool_decide (llo_profile lifecycle = LimaWork)
      then choose_runner_action policy input lifecycle
      else
        _ ← require_profile_change_permitted (hbi_queue input);
        Ok (stop_plan input lifecycle ProfileWork)
  | ProfileInteractive =>
      if bool_decide (llo_profile lifecycle = LimaInteractive)
      then Ok (broker_plan input BrokerNoOp)
      else
        _ ← require_profile_change_permitted (hbi_queue input);
        Ok (stop_plan input lifecycle ProfileInteractive)
  | ProfileStopped =>
      _ ← require_profile_change_permitted (hbi_queue input);
      Ok (stop_plan input lifecycle ProfileStopped)
  end.

Definition choose_draining_action (policy : HostBrokerReducerPolicy)
    (input : HostBrokerReducerInput) (lifecycle : LimaLifecycleObservation)
    (desired : PersonalWorkerProfile) : result HostBrokerReducerError HostBrokerPlan :=
  if bool_decide (desired ≠ ProfileWork) && queue_has_active_work (hbi_queue input)
  then Err (mkBrokerError "queue.desired_profile" "downscale_while_draining"
         "broker cannot downscale while an active reservation is draining")
  else choose_runner_action policy input lifecycle.

Definition choose_wait_action (policy : HostBrokerReducerPolicy)
    (input : HostBrokerReducerInput) (lifecycle : LimaLifecycleObservation)
    : result HostBrokerReducerError HostBrokerPlan :=
  evidence ← validated_runner policy input lifecycle;
  match evidence with
  | RunnerMissingOrStale => Ok (broker_plan input (BrokerObserve ObserveRunner))
  | RunnerFresh _ => Ok (wait_plan input lifecycle)
  end.

Definition choose_action (policy : HostBrokerReducerPolicy) (input : HostBrokerReducerInput)
    (lifecycle : LimaLifecycleObservation) (desired : PersonalWorkerProfile)
    : result HostBrokerReducerError HostBrokerPlan :=
  if bool_decide (llo_state lifecycle = LimaUnavailable)
  then Err (mkBrokerError "lifecycle.state" "lima_unavailable"
         "unavailable Lima lifecycle evidence cannot produce an execution action")
  else
    match llo_state lifecycle with
    | LimaStopped => choose_stopped_action input lifecycle desired
    | LimaStarting => choose_wait_action policy input lifecycle
    | LimaRunning => choose_running_action policy input lifecycle desired
    | LimaDraining => choose_draining_action policy input lifecycle desired
    | LimaStopping => Ok (broker_plan input BrokerNoOp)
    | LimaUnavailable => Panic
    end.

Definition HostBrokerReducerPolicy_reduce (policy : HostBrokerReducerPolicy)
    (input : HostBrokerReducerInput) : result HostBrokerReducerError HostBrokerPlan :=
  _ ← validate_revision input;
  _ ← validate_queue_schema (hbi_queue input);
  stale ← broker_observation_is_stale "queue.observed_at" (qd_observed_at (hbi_queue input))
            (hbi_decision_at input) (hbpol_max_queue_age_millis policy);
  if (stale : bool) then Ok (broker_plan input (BrokerObserve ObserveQueue))
  else if qd_cancel_pending_downscale (hbi_queue input) then
    if negb (queue_has_work (hbi_queue input))
    then Err (mkBrokerError "queue.cancel_pending_downscale" "unproven_downscale_cancellation"
           "downscale cancellation requires queued, selected, reserved, or active work")
    else Ok (broker_plan input (BrokerCancelDownscale ProfileWork))
  else
    match hbi_lifecycle input with
    | None => Ok (broker_plan input (BrokerObserve ObserveLima))
    | Some lifecycle =>
        if hbi_decision_at input <? llo_observed_at lifecycle
        then Err (mkBrokerError "lifecycle.observed_at" "future_lifecycle_observation"
               "Lima lifecycle observation cannot be newer than the broker decision")
        else
          match LimaLifecyclePolicy_desired_target (hbi_lifecycle_policy input) lifecycle
                  (hbi_decision_at input) with
          | Ok lifecycle_target =>
              _ ← validate_queue_lifecycle_alignment (hbi_queue input) lifecycle;
              desired ← broker_desired_profile (hbi_queue input) lifecycle_target;
              choose_action policy input lifecycle desired
          | Err error =>
              if bool_decide (lle_code error = "stale_observation")
              then Ok (broker_plan input (BrokerObserve ObserveLima))
              else Err (mkBrokerError "lifecycle" "invalid_lifecycle_evidence"
                     "Lima lifecycle evidence cannot produce a reviewed broker target")
          | Panic => Panic
          end
    end.
