(* ===== verification/WorkerTick.v ===== *)
(** * Worker tick

    [src/src/personal_worker_tick.rs]: one tick of the personal worker puts a
    queue decision, the availability of the Mac and the observations of the
    Lima machine, the runner and the host's capacity together and authorises
    at most one next action. *)

From S2P Require Import Prelude Artifact ExecutionAdmission WorkerQueue LimaLifecycle MacAvailability HostBroker.

Local Open Scope N_scope.

(** ** Data *)

Definition PERSONAL_WORKER_TICK_SCHEMA_VERSION : N := 1.
Definition MAX_PERSONAL_WORKER_TICK_OBSERVATION_AGE_MILLIS : N := 300000.

Inductive PersonalWorkerTickObservationTarget :=
| TickQueue
| TickLima
| TickRunner
| TickAvailability
| TickCapacity.

#[export] Instance tick_target_eq_dec : EqDecision PersonalWorkerTickObservationTarget.
Proof. solve_decision. Defined.

Inductive PersonalWorkerTickBlocker :=
| AvailabilityOff
| AvailabilityAutoUnsupported
| AvailabilityBlocked
| CapacityInsufficient
| ConcurrencyLimit.

#[export] Instance tick_blocker_eq_dec : EqDecision PersonalWorkerTickBlocker.
Proof. solve_decision. Defined.

Inductive PersonalWorkerTickJobStep :=
| CancelPendingDownscale (target : PersonalWorkerProfile)
| JobReserve (selection : PersonalWorkerSelection) (capacity : HostCapacityObservation)
| JobExecute (request_id : ExecutionRequestId) (capacity : HostCapacityObservation).

Inductive PersonalWorkerTickDrainStep :=
| DrainRelease (request_id : ExecutionRequestId).

Inductive PersonalWorkerTickAction :=
| Satisfied
| TickBlocked (blocker : PersonalWorkerTickBlocker)
| TickObserve (target : PersonalWorkerTickObservationTarget)
| TickChangeProfile (identity : LimaInstanceIdentity)
    (from_profile to_profile : LimaResourceProfile)
    (current_generation next_generation : LimaProfileGeneration)
| TickStartVm (identity : LimaInstanceIdentity) (profile : LimaResourceProfile)
    (profile_generation : LimaProfileGeneration) (capacity : HostCapacityObservation)
| TickRunJob (job : PersonalWorkerTickJobStep)
| TickDrain (drain : PersonalWorkerTickDrainStep)
| TickStopVm (identity : LimaInstanceIdentity) (current_profile : LimaResourceProfile)
    (profile_generation : LimaProfileGeneration) (target_after_stop : PersonalWorkerProfile).

Record PersonalWorkerTickInput := mkTickInput {
  pti_store_revision : N;
  pti_decision_at : EpochMillis;
  pti_queue : PersonalWorkerQueueDecision;
  pti_lifecycle_policy : LimaLifecyclePolicy;
  pti_lifecycle : option LimaLifecycleObservation;
  pti_runner : option HostBrokerRunnerObservation;
  pti_capacity : option HostCapacityObservation;
  pti_availability_request : AvailabilityRequest;
  pti_availability : option MacAvailabilityObservation;
}.

Record PersonalWorkerTickPlan := mkTickPlan {
  ptp_schema_version : N;
  ptp_store_revision : N;
  ptp_queue_generation : PersonalWorkerQueueGeneration;
  ptp_decision_at : EpochMillis;
  ptp_action : PersonalWorkerTickAction;
}.

Record PersonalWorkerTickPolicy := mkTickPolicy {
  ptpol_host_broker : HostBrokerReducerPolicy;
  ptpol_max_runner_age_millis : N;
  ptpol_max_capacity_age_millis : N;
}.

Inductive PersonalWorkerTickErrorKind :=
| KindPolicy
| KindHostBrokerEvidence
| KindAvailabilityEvidence
| KindLifecycleEvidence
| KindRunnerEvidence
| KindCapacityEvidence.

#[export] Instance tick_error_kind_eq_dec : EqDecision PersonalWorkerTickErrorKind.
Proof. solve_decision. Defined.

Record PersonalWorkerTickError := mkTickError {
  pte_kind : PersonalWorkerTickErrorKind;
  pte_field : string;
  pte_code : string;
  pte_message : string;
}.

Definition from_host_broker (error : HostBrokerReducerError) : PersonalWorkerTickError :=
  mkTickError KindHostBrokerEvidence (hbe_field error) (hbe_code error) (hbe_message error).

Inductive CapacityEvidence :=
| CapacityMissingOrStale
| CapacityShort
| CapacityFresh (capacity : HostCapacityObservation).

Definition PersonalWorkerTickPolicy_new
    (max_queue_age_millis max_runner_age_millis max_capacity_age_millis : N)
    : result PersonalWorkerTickError PersonalWorkerTickPolicy :=
  host_broker ← map_err from_host_broker
    (HostBrokerReducerPolicy_new max_queue_age_millis max_runner_age_millis);
  if negb (in_range 1 MAX_PERSONAL_WORKER_TICK_OBSERVATION_AGE_MILLIS max_capacity_age_millis)
  then Err (mkTickError KindPolicy "policy.max_capacity_age_millis"
         "invalid_capacity_freshness_window"
         "capacity freshness must be positive and within the reviewed maximum")
  else Ok (mkTickPolicy host_broker max_runner_age_millis max_capacity_age_millis).

(** ** The queue *)

(** The tick's own copies of [queue_has_work] and [queue_has_active_work] read
    the same conditions as the broker's. *)

Definition concurrency_exceeded (queue : PersonalWorkerQueueDecision) : bool :=
  let active_count := length (take 2 (List.filter is_active_entry (qd_visibility queue))) in
  (1 <? length (qd_selected queue))%nat || (1 <? active_count)%nat.

Definition single_execution_candidate (queue : PersonalWorkerQueueDecision)
    : result PersonalWorkerTickError (option PersonalWorkerQueueVisibility) :=
  match List.filter (λ entry, bool_decide (vis_state entry = EntryReserved))
          (qd_visibility queue) with
  | [] => Ok None
  | [candidate] => Ok (Some candidate)
  | _ :: _ :: _ =>
      Err (mkTickError KindHostBrokerEvidence "queue.visibility" "multiple_execution_candidates"
             "one worker tick cannot select more than one reserved request")
  end.

(** ** Evidence *)

Definition map_observation_target (target : HostBrokerObservationTarget)
    : PersonalWorkerTickObservationTarget :=
  match target with
  | ObserveQueue => TickQueue
  | ObserveLima => TickLima
  | ObserveRunner => TickRunner
  end.

Definition tick_plan (input : PersonalWorkerTickInput) (action : PersonalWorkerTickAction)
    : PersonalWorkerTickPlan :=
  mkTickPlan PERSONAL_WORKER_TICK_SCHEMA_VERSION (pti_store_revision input)
    (qd_generation (pti_queue input)) (pti_decision_at input) action.

Definition tick_observation_is_stale (observed_at decision_at : EpochMillis)
    (max_age_millis : N) (error_kind : PersonalWorkerTickErrorKind) (field : string)
    : result PersonalWorkerTickError bool :=
  age ← ok_or (checked_sub decision_at observed_at)
    (mkTickError error_kind field "future_observation"
       "worker tick evidence cannot be newer than the decision time");
  Ok (max_age_millis <? age).

Definition validate_availability_coherence (queue : PersonalWorkerQueueDecision)
    (lifecycle : LimaLifecycleObservation) (availability : MacAvailabilityObservation)
    : result PersonalWorkerTickError () :=
  let expected_job_activity := if queue_has_active_work queue then JobActive else JobIdle in
  if bool_decide (mao_job_activity availability ≠ expected_job_activity)
  then Err (mkTickError KindAvailabilityEvidence "availability.job_activity"
         "availability_queue_activity_mismatch"
         "availability job activity must match exact queue activity evidence")
  else
    expected_vm_power ←
      match llo_state lifecycle with
      | LimaStopped => Ok PowerStopped
      | LimaStarting | LimaRunning | LimaDraining | LimaStopping => Ok PowerRunning
      | LimaUnavailable =>
          Err (mkTickError KindLifecycleEvidence "lifecycle.state"
                 "unavailable_lifecycle_in_availability_gate"
                 "unavailable Lima evidence cannot authorize a worker tick")
      end;
    if bool_decide (mao_vm_power availability ≠ expected_vm_power)
    then Err (mkTickError KindAvailabilityEvidence "availability.vm_power"
           "availability_lifecycle_power_mismatch"
           "availability VM power must match exact Lima lifecycle evidence")
    else Ok ().

Definition validate_available_cross_source_evidence (input : PersonalWorkerTickInput)
    : result PersonalWorkerTickError () :=
  match pti_lifecycle input, pti_availability input with
  | Some lifecycle, Some availability =>
      if bool_decide (mao_freshness availability = ObservationFresh)
         && bool_decide (mao_job_activity availability ≠ JobUnknown)
         && bool_decide (mao_vm_power availability ≠ PowerUnknown)
      then validate_availability_coherence (pti_queue input) lifecycle availability
      else Ok ()
  | _, _ => Ok ()
  end.

(** The memory and power vetoes of a queue that has work. *)
Definition pressure_gate (input : PersonalWorkerTickInput)
    (availability : MacAvailabilityObservation) : option PersonalWorkerTickAction :=
  if queue_has_work (pti_queue input) then
    match mao_memory_pressure availability with
    | PressureUnknown => Some (TickObserve TickAvailability)
    | PressureElevated | PressureCritical => Some (TickBlocked AvailabilityBlocked)
    | PressureNormal =>
        if bool_decide (pti_availability_request input = RequestAway) then
          match mao_host_power availability with
          | HostPowerUnknown => Some (TickObserve TickAvailability)
          | HostBattery => Some (TickBlocked AvailabilityBlocked)
          | HostAc => None
          end
        else None
    end
  else None.

Definition availability_gate (input : PersonalWorkerTickInput)
    (lifecycle : LimaLifecycleObservation)
    : result PersonalWorkerTickError (option PersonalWorkerTickAction) :=
  match pti_availability input with
  | None => Ok (Some (TickObserve TickAvailability))
  | Some availability =>
      if bool_decide (mao_freshness availability = ObservationStale)
         || bool_decide (mao_job_activity availability = JobUnknown)
         || bool_decide (mao_vm_power availability = PowerUnknown)
      then Ok (Some (TickObserve TickAvailability))
      else
        _ ← validate_availability_coherence (pti_queue input) lifecycle availability;
        if bool_decide (pti_availability_request input = RequestOff)
           && queue_has_work (pti_queue input)
        then Ok (Some (TickBlocked AvailabilityOff))
        else
          match pressure_gate input availability with
          | Some action => Ok (Some action)
          | None =>
              availability_plan ←
                map_err (λ e : Empty_set, match e with end)
                  (plan_availability_transition availability (pti_availability_request input));
              Ok match map_disposition availability_plan with
                 | NoChange => None
                 | DispositionReady => None
                 | ManualPolicyRequired => Some (TickBlocked AvailabilityAutoUnsupported)
                 | DispositionBlocked => Some (TickBlocked AvailabilityBlocked)
                 end
          end
  end.

Definition validated_runner_for_stop (policy : PersonalWorkerTickPolicy)
    (input : PersonalWorkerTickInput) (identity : LimaInstanceIdentity)
    (profile_generation : LimaProfileGeneration)
    : result PersonalWorkerTickError RunnerEvidence :=
  match pti_runner input with
  | None => Ok RunnerMissingOrStale
  | Some runner =>
      stale ← tick_observation_is_stale (hbr_observed_at runner) (pti_decision_at input)
                (ptpol_max_runner_age_millis policy) KindRunnerEvidence "runner.observed_at";
      if (stale : bool) then Ok RunnerMissingOrStale
      else if bool_decide (hbr_instance_id runner ≠ lima_instance_id identity)
      then Err (mkTickError KindRunnerEvidence "runner.instance_id"
             "runner_instance_identity_mismatch"
             "runner readiness must bind the exact Lima instance identity")
      else if negb (hbr_profile_generation runner =? profile_generation)
      then Err (mkTickError KindRunnerEvidence "runner.profile_generation"
             "runner_profile_generation_mismatch"
             "runner readiness must bind the exact Lima profile generation")
      else Ok (RunnerFresh runner)
  end.

Section policy.
Context (policy : PersonalWorkerTickPolicy) (input : PersonalWorkerTickInput).

Definition plan_stop (identity : LimaInstanceIdentity) (current_profile : LimaResourceProfile)
    (profile_generation : LimaProfileGeneration) (target_after_stop : PersonalWorkerProfile)
    : result PersonalWorkerTickError PersonalWorkerTickPlan :=
  evidence ← validated_runner_for_stop policy input identity profile_generation;
  match evidence with
  | RunnerMissingOrStale => Ok (tick_plan input (TickObserve TickRunner))
  | RunnerFresh runner =>
      action ←
        match hbr_state runner with
        | RunnerOffline =>
            Ok (TickStopVm identity current_profile profile_generation target_after_stop)
        | RunnerStarting => Ok (TickObserve TickRunner)
        | RunnerIdleReady =>
            Ok (TickStopVm identity current_profile profile_generation target_after_stop)
        | RunnerBusy _ | RunnerDraining _ =>
            Err (mkTickError KindRunnerEvidence "runner.state" "runner_active_without_queue_work"
                   "runner activity cannot authorize stop without matching active queue evidence")
        end;
      Ok (tick_plan input action)
  end.

Definition validated_capacity (selection : PersonalWorkerSelection)
    : result PersonalWorkerTickError CapacityEvidence :=
  match pti_capacity input with
  | None => Ok CapacityMissingOrStale
  | Some capacity =>
      stale ← tick_observation_is_stale (hco_observed_at capacity) (pti_decision_at input)
                (ptpol_max_capacity_age_millis policy) KindCapacityEvidence
                "capacity.observed_at";
      if (stale : bool) then Ok CapacityMissingOrStale
      else if negb (fits_within (sel_reserved_limits selection) (hco_capacity capacity))
      then Ok CapacityShort
      else Ok (CapacityFresh capacity)
  end.

(** The [u32] product is written out with its bound: a product that overflows
    panics in a debug build. *)
Definition required_cpu_millis (profile : LimaResourceProfile)
    : result PersonalWorkerTickError N :=
  expect (try_from_int u32_max (env_vcpus (envelope profile) * 1000)).

Definition validated_profile_capacity (profile : LimaResourceProfile)
    : result PersonalWorkerTickError CapacityEvidence :=
  match pti_capacity input with
  | None => Ok CapacityMissingOrStale
  | Some capacity =>
      stale ← tick_observation_is_stale (hco_observed_at capacity) (pti_decision_at input)
                (ptpol_max_capacity_age_millis policy) KindCapacityEvidence
                "capacity.observed_at";
      if (stale : bool) then Ok CapacityMissingOrStale
      else
        required ← required_cpu_millis profile;
        if (cpu_millis (hco_capacity capacity) <? required)
           || (memory_bytes (hco_capacity capacity) <? env_memory_bytes (envelope profile))
        then Ok CapacityShort
        else Ok (CapacityFresh capacity)
  end.

Definition validated_execution_capacity (entry : PersonalWorkerQueueVisibility)
    : result PersonalWorkerTickError CapacityEvidence :=
  match pti_capacity input with
  | None => Ok CapacityMissingOrStale
  | Some capacity =>
      stale ← tick_observation_is_stale (hco_observed_at capacity) (pti_decision_at input)
                (ptpol_max_capacity_age_millis policy) KindCapacityEvidence
                "capacity.observed_at";
      if (stale : bool) then Ok CapacityMissingOrStale
      else
        match vis_reserved_cpu_millis entry, vis_reserved_memory_bytes entry with
        | Some reserved_cpu_millis, Some reserved_memory_bytes =>
            if (cpu_millis (hco_capacity capacity) <? reserved_cpu_millis)
               || (memory_bytes (hco_capacity capacity) <? reserved_memory_bytes)
            then Ok CapacityShort
            else Ok (CapacityFresh capacity)
        | _, _ =>
            Err (mkTickError KindHostBrokerEvidence "queue.visibility.reserved_resources"
                   "missing_reserved_resources"
                   "reserved or starting work requires exact reserved resource evidence")
        end
  end.

Definition validate_supplied_time : result PersonalWorkerTickError () :=
  _ ← match pti_lifecycle input with
      | Some lifecycle =>
          tick_observation_is_stale (llo_observed_at lifecycle) (pti_decision_at input)
            (llp_max_observation_age_millis (pti_lifecycle_policy input))
            KindLifecycleEvidence "lifecycle.observed_at"
      | None => Ok false
      end;
  _ ← match pti_runner input with
      | Some runner =>
          tick_observation_is_stale (hbr_observed_at runner) (pti_decision_at input)
            (ptpol_max_runner_age_millis policy) KindRunnerEvidence "runner.observed_at"
      | None => Ok false
      end;
  _ ← match pti_capacity input with
      | Some capacity =>
          tick_observation_is_stale (hco_observed_at capacity) (pti_decision_at input)
            (ptpol_max_capacity_age_millis policy) KindCapacityEvidence "capacity.observed_at"
      | None => Ok false
      end;
  Ok ().

(** What a capacity check that did not pass makes of the tick. *)
Definition capacity_action (evidence : CapacityEvidence)
    (authorised : HostCapacityObservation → PersonalWorkerTickAction)
    : PersonalWorkerTickAction :=
  match evidence with
  | CapacityMissingOrStale => TickObserve TickCapacity
  | CapacityShort => TickBlocked CapacityInsufficient
  | CapacityFresh capacity => authorised capacity
  end.

Definition no_op_action (lifecycle : LimaLifecycleObservation)
    : result PersonalWorkerTickError PersonalWorkerTickAction :=
  if bool_decide (llo_state lifecycle = LimaStopping) then Ok (TickObserve TickLima)
  else if is_some_and (λ runner, match hbr_state runner with
                                 | RunnerBusy _ | RunnerDraining _ => true
                                 | _ => false
                                 end) (pti_runner input)
  then Ok (TickObserve TickRunner)
  else if existsb (λ entry, match vis_state entry with
                            | EntryStarting | EntryRunning => true
                            | _ => false
                            end) (qd_visibility (pti_queue input))
  then Ok (TickObserve TickRunner)
  else
    candidate ← single_execution_candidate (pti_queue input);
    match candidate with
    | Some entry =>
        evidence ← validated_execution_capacity entry;
        Ok (capacity_action evidence (λ capacity,
              TickRunJob (JobExecute (vis_request_id entry) capacity)))
    | None => Ok Satisfied
    end.

(** The last part of [plan]: the action of the broker that passed the gates. *)
Definition authorise (lifecycle : LimaLifecycleObservation) (action : HostBrokerAction)
    : result PersonalWorkerTickError PersonalWorkerTickPlan :=
  match action with
  | BrokerObserve _ => Panic
  | BrokerStart identity profile profile_generation =>
      evidence ← validated_profile_capacity profile;
      Ok (tick_plan input (capacity_action evidence
            (TickStartVm identity profile profile_generation)))
  | BrokerStop identity current_profile profile_generation target_after_stop =>
      plan_stop identity current_profile profile_generation target_after_stop
  | BrokerChangeProfile identity from_profile to_profile current_generation next_generation =>
      Ok (tick_plan input (TickChangeProfile identity from_profile to_profile
            current_generation next_generation))
  | BrokerWaitForRunner _ _ _ => Ok (tick_plan input (TickObserve TickRunner))
  | BrokerReserve selection =>
      if queue_has_active_work (pti_queue input)
         || negb (length (qd_selected (pti_queue input)) =? 1)%nat
      then Ok (tick_plan input (TickBlocked ConcurrencyLimit))
      else
        evidence ← validated_capacity selection;
        Ok (tick_plan input (capacity_action evidence (λ capacity,
              TickRunJob (JobReserve selection capacity))))
  | BrokerRelease _ | BrokerCancelDownscale _ => Panic
  | BrokerNoOp =>
      action ← no_op_action lifecycle;
      Ok (tick_plan input action)
  end.

Definition broker_input (state_revision : HostBrokerStateRevision) : HostBrokerReducerInput :=
  {| hbi_state_revision := state_revision;
     hbi_decision_at := pti_decision_at input;
     hbi_queue := pti_queue input;
     hbi_lifecycle_policy := pti_lifecycle_policy input;
     hbi_lifecycle := pti_lifecycle input;
     hbi_runner := pti_runner input;
     hbi_previous := None |}.

Definition PersonalWorkerTickPolicy_plan
    : result PersonalWorkerTickError PersonalWorkerTickPlan :=
  _ ← validate_supplied_time;
  state_revision ← map_err from_host_broker
    (HostBrokerStateRevision_new (pti_store_revision input));
  host ← map_err from_host_broker
    (HostBrokerReducerPolicy_reduce (ptpol_host_broker policy) (broker_input state_revision));
  match hbp_action host with
  | BrokerObserve target =>
      _ ← (if bool_decide (target = ObserveRunner)
           then validate_available_cross_source_evidence input
           else Ok ());
      Ok (tick_plan input (TickObserve (map_observation_target target)))
  | BrokerCancelDownscale target =>
      Ok (tick_plan input (TickRunJob (CancelPendingDownscale target)))
  | BrokerRelease request_id =>
      Ok (tick_plan input (TickDrain (DrainRelease request_id)))
  | action =>
      if concurrency_exceeded (pti_queue input)
      then Ok (tick_plan input (TickBlocked ConcurrencyLimit))
      else
        lifecycle ← ok_or (pti_lifecycle input)
          (mkTickError KindLifecycleEvidence "lifecycle" "missing_lifecycle_after_broker_plan"
             "a consequential broker plan requires exact Lima lifecycle evidence");
        gate ← availability_gate input lifecycle;
        match gate with
        | Some action => Ok (tick_plan input action)
        | None => authorise lifecycle action
        end
  end.

End policy.
