(* ===== verification/TickTheorems.v ===== *)
(** * What a tick may do

    The facts each action of the host broker and of the worker tick rests on:
    a tick never touches the machine or a job without fresh evidence that
    matches the queue ([tick_authority]), it always returns ([tick_total]),
    and with evidence that agrees it moves a selected job forward
    ([tick_progress]). *)

From S2P Require Import Prelude Artifact ExecutionAdmission AdmissionLifecycle WorkerQueue QueueSchedule QueueTheorems LimaLifecycle LimaTheorems MacAvailability HostBroker WorkerTick.

Local Open Scope N_scope.

(** ** Freshness *)

(** An observation made at [t] is at most [age] old at [now] and not newer. *)
Definition fresh (age now t : N) : Prop := t ≤ now ≤ t + age.

Lemma broker_stale_Ok field t now age b :
  broker_observation_is_stale field t now age = Ok b → t ≤ now ∧ (b = false → fresh age now t).
Proof.
  unfold broker_observation_is_stale, checked_sub, fresh.
  destruct (t <=? now) eqn:E; rsimpl; bprop; [|done].
  intros [= <-]. split; [done|]. intros Hb. bprop. lia.
Qed.

Lemma tick_stale_Ok t now age kind field b :
  tick_observation_is_stale t now age kind field = Ok b →
  t ≤ now ∧ (b = false → fresh age now t).
Proof.
  unfold tick_observation_is_stale, checked_sub, fresh.
  destruct (t <=? now) eqn:E; rsimpl; bprop; [|done].
  intros [= <-]. split; [done|]. intros Hb. bprop. lia.
Qed.

(** ** The broker's evidence *)

Section broker.
Context (policy : HostBrokerReducerPolicy) (input : HostBrokerReducerInput).

(** The machine's observation a consequential action rests on. *)
Record machine_evidence (l : LimaLifecycleObservation) (desired : PersonalWorkerProfile)
    : Prop := {
  me_given : hbi_lifecycle input = Some l;
  me_fresh : fresh (llp_max_observation_age_millis (hbi_lifecycle_policy input))
               (hbi_decision_at input) (llo_observed_at l);
  me_queue_fresh : fresh (hbpol_max_queue_age_millis policy) (hbi_decision_at input)
                     (qd_observed_at (hbi_queue input));
  me_desired : qd_desired_profile (hbi_queue input) = desired;
  me_work : queue_has_work (hbi_queue input) = true → desired = ProfileWork;
  me_reservation : is_some (llo_active_reservation_id l) = queue_has_active_work (hbi_queue input);
  me_active_profile : queue_has_active_work (hbi_queue input) = true → llo_profile l = LimaWork;
  me_available : llo_state l ≠ LimaUnavailable;
}.

(** A runner observation that is fresh and of this machine and generation. *)
Definition runner_evidence (l : LimaLifecycleObservation) (state : HostBrokerRunnerState)
    : Prop :=
  ∃ r, hbi_runner input = Some r ∧ hbr_state r = state
    ∧ fresh (hbpol_max_runner_age_millis policy) (hbi_decision_at input) (hbr_observed_at r)
    ∧ hbr_instance_id r = lima_instance_id (llo_identity l)
    ∧ hbr_profile_generation r = llo_profile_generation l.

Definition no_active_work : Prop := queue_has_active_work (hbi_queue input) = false.

(** What each action of the broker rests on. *)
Definition broker_authorised (a : HostBrokerAction) : Prop :=
  match a with
  | BrokerObserve _ => True
  | BrokerStart identity profile generation =>
      ∃ l, machine_evidence l (map_lima_profile profile) ∧ llo_state l = LimaStopped
        ∧ llo_identity l = identity ∧ llo_profile l = profile
        ∧ llo_profile_generation l = generation
  | BrokerStop identity profile generation target =>
      ∃ l, machine_evidence l target ∧ llo_state l = LimaRunning ∧ no_active_work
        ∧ qd_profile_change_permitted (hbi_queue input) = true
        ∧ llo_identity l = identity ∧ llo_profile l = profile
        ∧ llo_profile_generation l = generation ∧ target ≠ map_lima_profile profile
  | BrokerChangeProfile identity from_profile to_profile current next =>
      ∃ l, machine_evidence l (map_lima_profile to_profile) ∧ llo_state l = LimaStopped
        ∧ no_active_work ∧ qd_profile_change_permitted (hbi_queue input) = true
        ∧ llo_identity l = identity ∧ llo_profile l = from_profile ∧ from_profile ≠ to_profile
        ∧ llo_profile_generation l = current ∧ next = current + 1 ∧ next ≤ u64_max
  | BrokerWaitForRunner identity profile generation =>
      ∃ l desired, machine_evidence l desired
        ∧ llo_identity l = identity ∧ llo_profile l = profile
        ∧ llo_profile_generation l = generation
  | BrokerReserve selection =>
      ∃ l desired, machine_evidence l desired ∧ runner_evidence l RunnerIdleReady
        ∧ (llo_state l = LimaRunning ∧ llo_profile l = LimaWork ∨ llo_state l = LimaDraining)
        ∧ head (qd_selected (hbi_queue input)) = Some selection
  | BrokerRelease request_id =>
      ∃ l desired entry, machine_evidence l desired ∧ runner_evidence l RunnerIdleReady
        ∧ entry ∈ qd_visibility (hbi_queue input)
        ∧ vis_state entry = EntryDraining ∧ vis_request_id entry = request_id
  | BrokerCancelDownscale target =>
      target = ProfileWork ∧ qd_cancel_pending_downscale (hbi_queue input) = true
      ∧ queue_has_work (hbi_queue input) = true
  | BrokerNoOp =>
      ∃ l desired, machine_evidence l desired
        ∧ (llo_state l = LimaStopped ∧ desired = ProfileStopped
           ∨ llo_state l = LimaStopping
           ∨ llo_state l = LimaRunning ∧ desired = ProfileInteractive
             ∧ llo_profile l = LimaInteractive
           ∨ (llo_state l = LimaRunning ∧ llo_profile l = LimaWork ∨ llo_state l = LimaDraining)
             ∧ ∃ state, runner_evidence l state ∧ state ≠ RunnerOffline ∧ state ≠ RunnerStarting)
  end.

Lemma validated_runner_fresh l r :
  validated_runner policy input l = Ok (RunnerFresh r) → runner_evidence l (hbr_state r).
Proof.
  unfold validated_runner. intros H. inv_ok H. bprop. injection H as ->.
  destruct y; [done|].
  match goal with H : broker_observation_is_stale _ _ _ _ = Ok _ |- _ =>
    apply broker_stale_Ok in H as [_ ?] end.
  exists r. auto 6.
Qed.

Lemma profile_change_Ok u :
  require_profile_change_permitted (hbi_queue input) = Ok u →
  no_active_work ∧ qd_profile_change_permitted (hbi_queue input) = true.
Proof. unfold require_profile_change_permitted, no_active_work. intros H. inv_ok H. by bprop. Qed.

Lemma choose_stopped_authorised l desired p :
  machine_evidence l desired → llo_state l = LimaStopped →
  choose_stopped_action input l desired = Ok p → broker_authorised (hbp_action p).
Proof.
  intros Hm Hs H. unfold choose_stopped_action in H.
  destruct desired; simpl in H; [injection H as <-; simpl; eauto 10|..].
  all: destruct (bool_decide _) eqn:E in H; bprop;
    [injection H as <-; simpl; exists l; by rewrite <- E|].
  all: inv_ok H; inv_opts; injection H as <-; simpl;
    repeat match goal with
    | H : require_profile_change_permitted _ = Ok _ |- _ => apply profile_change_Ok in H as [? ?]
    | H : LimaProfileGeneration_new _ = Ok _ |- _ =>
        unfold LimaProfileGeneration_new in H; inv_ok H; injection H as <-
    | H : checked_add _ _ _ = Some _ |- _ => apply checked_add_Some in H as [-> ?]
    end; exists l; split_and!; done.
Qed.

Lemma choose_runner_authorised l desired p :
  machine_evidence l desired →
  (llo_state l = LimaRunning ∧ llo_profile l = LimaWork ∨ llo_state l = LimaDraining) →
  choose_runner_action policy input l = Ok p → broker_authorised (hbp_action p).
Proof.
  intros Hm Hs H. unfold choose_runner_action in H.
  apply bind_Ok in H as ([|r] & Hr & H); [by injection H as <-|].
  apply validated_runner_fresh in Hr. apply bind_Ok in H as (u & _ & H).
  destruct (hbr_state r) eqn:Er.
  - injection H as <-. simpl. eauto 10.
  - injection H as <-. simpl. eauto 10.
  - destruct (List.find _ _) as [e|] eqn:Ef.
    { injection H as <-. simpl. apply List.find_some in Ef as [Hin He]. bprop.
      exists l, desired, e. rewrite list_elem_of_In. auto. }
    destruct (head _) eqn:Eh; injection H as <-; simpl; [eauto 10|].
    exists l, desired. split; [done|]. do 3 right. split; [done|]. eexists. split; [done|done].
  - injection H as <-. exists l, desired. split; [done|]. do 3 right. split; [done|].
    eexists. split; [done|done].
  - injection H as <-. exists l, desired. split; [done|]. do 3 right. split; [done|].
    eexists. split; [done|done].
Qed.

Lemma choose_running_authorised l desired p :
  machine_evidence l desired → llo_state l = LimaRunning →
  choose_running_action policy input l desired = Ok p → broker_authorised (hbp_action p).
Proof.
  intros Hm Hs H. unfold choose_running_action in H.
  destruct desired; [|destruct (bool_decide _) eqn:E in H..]; bprop;
    try (apply bind_Ok in H as (u & Hu & H); apply profile_change_Ok in Hu as [? ?];
         injection H as <-; simpl; exists l; split_and!; try done;
         by destruct (llo_profile l)).
  - injection H as <-. simpl. exists l, ProfileInteractive. auto 10.
  - eapply choose_runner_authorised; eauto.
Qed.

Lemma choose_authorised l desired p :
  machine_evidence l desired →
  choose_action policy input l desired = Ok p → broker_authorised (hbp_action p).
Proof.
  intros Hm H. unfold choose_action in H. apply ok_guard in H as [_ H].
  destruct (llo_state l) eqn:Hs; try done.
  - by eapply choose_stopped_authorised.
  - unfold choose_wait_action in H. apply bind_Ok in H as ([|r] & Hr & H);
      injection H as <-; simpl; eauto 10.
  - by eapply choose_running_authorised.
  - unfold choose_draining_action in H. apply ok_guard in H as [_ H].
    eapply choose_runner_authorised; eauto.
  - injection H as <-. simpl. eauto 10.
Qed.

Lemma alignment_Ok l u :
  validate_queue_lifecycle_alignment (hbi_queue input) l = Ok u →
  is_some (llo_active_reservation_id l) = queue_has_active_work (hbi_queue input)
  ∧ (queue_has_active_work (hbi_queue input) = true → llo_profile l = LimaWork).
Proof.
  unfold validate_queue_lifecycle_alignment. intros H. inv_ok H. bprop.
  split; [by apply Bool.eqb_prop|]. intros Ha. rewrite Ha in *.
  match goal with H : _ ∨ _ |- _ => destruct H; [done|] end. by bprop.
Qed.

Lemma desired_Ok target desired :
  broker_desired_profile (hbi_queue input) target = Ok desired →
  qd_desired_profile (hbi_queue input) = desired
  ∧ (queue_has_work (hbi_queue input) = true → desired = ProfileWork).
Proof.
  unfold broker_desired_profile. intros H. apply ok_guard in H as [Hg H]. bprop.
  injection H as <-. split; [done|]. by intros ->.
Qed.

Lemma desired_target_fresh l now target :
  LimaLifecyclePolicy_desired_target (hbi_lifecycle_policy input) l now = Ok target →
  fresh (llp_max_observation_age_millis (hbi_lifecycle_policy input)) now (llo_observed_at l).
Proof.
  unfold LimaLifecyclePolicy_desired_target. intros H.
  apply bind_Ok in H as (u & Hf & _). by apply lima_freshness_Ok in Hf.
Qed.

Lemma reduce_authorised p :
  HostBrokerReducerPolicy_reduce policy input = Ok p → broker_authorised (hbp_action p).
Proof.
  unfold HostBrokerReducerPolicy_reduce. intros H.
  apply bind_Ok in H as (u1 & _ & H). apply bind_Ok in H as (u2 & _ & H).
  apply bind_Ok in H as (stale & Hq & H). apply broker_stale_Ok in Hq as [_ Hq].
  destruct stale; [by injection H as <-|]. specialize (Hq eq_refl).
  destruct (qd_cancel_pending_downscale _) eqn:Ec.
  { apply ok_guard in H as [Hw H]. injection H as <-. by bprop. }
  destruct (hbi_lifecycle input) as [l|] eqn:El; [|by injection H as <-].
  apply ok_guard in H as [_ H].
  destruct (LimaLifecyclePolicy_desired_target _ _ _) as [t|e|] eqn:Et; [|destruct (bool_decide _)|];
    try done; [|by injection H as <-].
  apply bind_Ok in H as (u3 & Ha & H). apply bind_Ok in H as (desired & Hd & H).
  apply alignment_Ok in Ha as [Ha1 Ha2]. apply desired_Ok in Hd as [Hd1 Hd2].
  eapply choose_authorised; [|exact H]. constructor; try done; [by eapply desired_target_fresh|].
  intros Hs. unfold choose_action in H. by rewrite bool_decide_true in H.
Qed.

End broker.

(** ** Availability *)

Lemma classify_start_capacity_total observation request blockers :
  ∃ blockers', classify_start_capacity observation request blockers = Ok blockers'.
Proof.
  unfold classify_start_capacity.
  destruct (bool_decide _); [by eexists|]. by destruct (mao_memory_pressure observation); eexists.
Qed.

Lemma plan_availability_total observation request :
  ∃ plan, plan_availability_transition observation request = Ok plan.
Proof.
  unfold plan_availability_transition.
  destruct (classify_start_capacity_total observation request (common_blockers observation))
    as [b Hb].
  destruct (bool_decide (request = RequestAuto)); [destruct (common_blockers _); by eexists|].
  destruct (_ && _); [by eexists|].
  destruct (bool_decide (request ≠ RequestOff)); [rewrite Hb|]; rsimpl;
    destruct (classify_job_barrier _ _ _); by eexists.
Qed.

Lemma common_blockers_nil o :
  common_blockers o = [] →
  mao_operator_hold o = false ∧ mao_freshness o = ObservationFresh
  ∧ effective_state_is_consistent (mao_effective_mode o) (mao_vm_power o) = true
  ∧ (mao_effective_mode o = ModeOff → mao_job_activity o = JobIdle).
Proof.
  unfold common_blockers, classify_off_job_consistency.
  destruct (mao_freshness o), (mao_operator_hold o), (mao_effective_mode o),
    (mao_vm_power o), (mao_job_activity o); simpl; naive_solver.
Qed.

Lemma start_capacity_nil o request blockers :
  classify_start_capacity o request blockers = Ok [] → blockers = [].
Proof.
  destruct blockers as [|b bs]; [done|]. unfold classify_start_capacity.
  destruct (bool_decide _), (mao_memory_pressure o), (mao_host_power o); simpl; congruence.
Qed.

Lemma job_barrier_nil o request blockers :
  classify_job_barrier o request blockers = [] →
  blockers = []
  ∧ (mao_effective_mode o ≠ ModeOff →
     request_matches_effective request (mao_effective_mode o) = false →
     mao_job_activity o = JobIdle).
Proof.
  unfold classify_job_barrier. destruct blockers as [|b bs].
  - split; [done|]. intros Hm Hr. rewrite bool_decide_false, Hr in H by done. simpl in H.
    by destruct (mao_job_activity o).
  - destruct (_ || _), (mao_job_activity o); simpl; congruence.
Qed.

(** A plan is ready, or changes nothing, only when nothing stands in the way,
    and it is ready only while no job is active. *)
Lemma plan_availability_clear o request plan :
  plan_availability_transition o request = Ok plan →
  map_disposition plan = NoChange ∨ map_disposition plan = DispositionReady →
  request ≠ RequestAuto ∧ mao_operator_hold o = false ∧ mao_freshness o = ObservationFresh
  ∧ effective_state_is_consistent (mao_effective_mode o) (mao_vm_power o) = true
  ∧ (map_disposition plan = DispositionReady → mao_job_activity o = JobIdle).
Proof.
  unfold plan_availability_transition. intros H Hd.
  destruct (bool_decide (request = RequestAuto)) eqn:Ea.
  { destruct (common_blockers o); injection H as <-; naive_solver. }
  bprop. split; [done|].
  destruct (_ && _) eqn:Em.
  { injection H as <-. bprop. destruct (common_blockers o) eqn:E; [|done].
    apply common_blockers_nil in E. naive_solver. }
  apply bind_Ok in H as (b & Hb & H).
  destruct (classify_job_barrier o request b) eqn:Ej; injection H as <-; [|naive_solver].
  apply job_barrier_nil in Ej as [-> Hj].
  assert (common_blockers o = []) as Hn.
  { destruct (bool_decide _); [by eapply start_capacity_nil|by injection Hb]. }
  rewrite Hn in Em. rewrite andb_true_r in Em.
  apply common_blockers_nil in Hn as (? & ? & ? & Hoff). split_and!; try done.
  intros _. destruct (decide (mao_effective_mode o = ModeOff)); auto.
Qed.

(** ** The authority of a tick *)

Section tick.
Context (policy : PersonalWorkerTickPolicy) (input : PersonalWorkerTickInput).
Context (Hwindow : hbpol_max_runner_age_millis (ptpol_host_broker policy)
                   = ptpol_max_runner_age_millis policy).

Abbreviation queue := (pti_queue input).

(** The evidence about the machine and its runner, as the broker saw it. *)
Definition tick_machine (l : LimaLifecycleObservation) (desired : PersonalWorkerProfile) : Prop :=
  machine_evidence (ptpol_host_broker policy) (broker_input input (pti_store_revision input))
    l desired.

Definition tick_runner (l : LimaLifecycleObservation) (state : HostBrokerRunnerState) : Prop :=
  runner_evidence (ptpol_host_broker policy) (broker_input input (pti_store_revision input))
    l state.

(** The host is available for the request: fresh evidence that agrees with the
    queue and the machine, no hold, and, when there is work, no memory
    pressure, not off, and mains power when away. *)
Record availability_evidence (l : LimaLifecycleObservation) (a : MacAvailabilityObservation)
    : Prop := {
  av_given : pti_availability input = Some a;
  av_fresh : mao_freshness a = ObservationFresh;
  av_hold : mao_operator_hold a = false;
  av_jobs : mao_job_activity a = if queue_has_active_work queue then JobActive else JobIdle;
  av_power : mao_vm_power a
             = if decide (llo_state l = LimaStopped) then PowerStopped else PowerRunning;
  av_auto : pti_availability_request input ≠ RequestAuto;
  av_work : queue_has_work queue = true →
    pti_availability_request input ≠ RequestOff
    ∧ mao_memory_pressure a = PressureNormal
    ∧ (pti_availability_request input = RequestAway → mao_host_power a = HostAc);
}.

Definition available (l : LimaLifecycleObservation) : Prop := ∃ a, availability_evidence l a.

(** The queue asks for one job at most. *)
Definition one_job : Prop :=
  (length (qd_selected queue) ≤ 1)%nat
  ∧ (length (List.filter is_active_entry (qd_visibility queue)) ≤ 1)%nat.

Definition capacity_evidence (c : HostCapacityObservation) : Prop :=
  pti_capacity input = Some c
  ∧ fresh (ptpol_max_capacity_age_millis policy) (pti_decision_at input) (hco_observed_at c).

Definition tick_authorised (a : PersonalWorkerTickAction) : Prop :=
  match a with
  | Satisfied | TickBlocked _ | TickObserve _ => True
  | TickRunJob (CancelPendingDownscale target) =>
      target = ProfileWork ∧ qd_cancel_pending_downscale queue = true
      ∧ queue_has_work queue = true
  | TickDrain (DrainRelease request_id) =>
      ∃ l desired entry, tick_machine l desired ∧ tick_runner l RunnerIdleReady
        ∧ entry ∈ qd_visibility queue
        ∧ vis_state entry = EntryDraining ∧ vis_request_id entry = request_id
  | TickStartVm identity profile generation c =>
      one_job ∧ ∃ l, available l ∧ tick_machine l (map_lima_profile profile)
        ∧ llo_state l = LimaStopped ∧ llo_identity l = identity ∧ llo_profile l = profile
        ∧ llo_profile_generation l = generation ∧ capacity_evidence c
        ∧ env_vcpus (envelope profile) * 1000 ≤ cpu_millis (hco_capacity c)
        ∧ env_memory_bytes (envelope profile) ≤ memory_bytes (hco_capacity c)
  | TickChangeProfile identity from_profile to_profile current next =>
      one_job ∧ ∃ l, available l ∧ tick_machine l (map_lima_profile to_profile)
        ∧ llo_state l = LimaStopped ∧ queue_has_active_work queue = false
        ∧ llo_identity l = identity ∧ llo_profile l = from_profile ∧ from_profile ≠ to_profile
        ∧ llo_profile_generation l = current ∧ next = current + 1 ∧ next ≤ u64_max
  | TickStopVm identity profile generation target =>
      one_job ∧ ∃ l, available l ∧ tick_machine l target
        ∧ llo_state l = LimaRunning ∧ queue_has_active_work queue = false
        ∧ llo_identity l = identity ∧ llo_profile l = profile
        ∧ llo_profile_generation l = generation ∧ target ≠ map_lima_profile profile
        ∧ (tick_runner l RunnerOffline ∨ tick_runner l RunnerIdleReady)
  | TickRunJob (JobReserve selection c) =>
      qd_selected queue = [selection] ∧ queue_has_active_work queue = false
      ∧ ∃ l desired, available l ∧ tick_machine l desired ∧ tick_runner l RunnerIdleReady
        ∧ (llo_state l = LimaRunning ∧ llo_profile l = LimaWork ∨ llo_state l = LimaDraining)
        ∧ capacity_evidence c
        ∧ fits_within (sel_reserved_limits selection) (hco_capacity c) = true
  | TickRunJob (JobExecute request_id c) =>
      ∃ l entry cpu memory, available l ∧ tick_machine l ProfileWork
        ∧ tick_runner l RunnerIdleReady
        ∧ (llo_state l = LimaRunning ∨ llo_state l = LimaDraining) ∧ llo_profile l = LimaWork
        ∧ is_some (llo_active_reservation_id l) = true
        ∧ List.filter is_active_entry (qd_visibility queue) = [entry]
        ∧ vis_state entry = EntryReserved ∧ vis_request_id entry = request_id
        ∧ capacity_evidence c
        ∧ vis_reserved_cpu_millis entry = Some cpu ∧ cpu ≤ cpu_millis (hco_capacity c)
        ∧ vis_reserved_memory_bytes entry = Some memory ∧ memory ≤ memory_bytes (hco_capacity c)
  end.

Lemma concurrency_one_job : concurrency_exceeded queue = false → one_job.
Proof.
  unfold concurrency_exceeded, one_job. intros H. bprop.
  rewrite Nat.ltb_ge in *. split; [done|]. rewrite length_take in *. lia.
Qed.

Lemma gate_available l :
  availability_gate input l = Ok None → llo_state l ≠ LimaUnavailable ∧ available l.
Proof.
  unfold availability_gate. intros H.
  destruct (pti_availability input) as [a|] eqn:Ea; [|done].
  destruct (_ || _) eqn:E in H; [done|]. bprop. apply bind_Ok in H as (u & Hc & H).
  destruct (_ && _) eqn:Eoff in H; [done|].
  destruct (pressure_gate input a) eqn:Ep; [done|].
  apply bind_Ok in H as (plan & Hplan & H). apply map_err_Ok in Hplan.
  assert (map_disposition plan = NoChange ∨ map_disposition plan = DispositionReady) as Hd.
  { destruct (map_disposition plan); auto; discriminate H. }
  apply plan_availability_clear in Hplan as (? & ? & ? & _); [|done].
  unfold validate_availability_coherence in Hc. apply ok_guard in Hc as [Hj Hc].
  apply bind_Ok in Hc as (power & Hpow & Hc). apply ok_guard in Hc as [Hp _]. bprop.
  split; [by intros Hs; rewrite Hs in Hpow|].
  exists a. constructor; try done.
  - rewrite Hp. destruct (llo_state l); simplify_eq/=; done.
  - intros Hw. unfold pressure_gate in Ep. rewrite Hw in *.
    split; [intros Hr; rewrite Hr in Eoff; naive_solver|].
    destruct (mao_memory_pressure a); try done. split; [done|].
    intros Hr. rewrite bool_decide_true in Ep by done. by destruct (mao_host_power a).
Qed.

Lemma capacity_checked c (kind : PersonalWorkerTickErrorKind) field :
  pti_capacity input = Some c →
  tick_observation_is_stale (hco_observed_at c) (pti_decision_at input)
    (ptpol_max_capacity_age_millis policy) kind field = Ok false →
  capacity_evidence c.
Proof. intros Hc Hs. split; [done|]. by apply tick_stale_Ok in Hs as [_ ?]; auto. Qed.

Lemma validated_capacity_Fresh selection c :
  validated_capacity policy input selection = Ok (CapacityFresh c) →
  capacity_evidence c ∧ fits_within (sel_reserved_limits selection) (hco_capacity c) = true.
Proof.
  unfold validated_capacity. intros H. inv_ok H. bprop. destruct y; [done|].
  injection H as ->. eauto using capacity_checked.
Qed.

Lemma validated_profile_capacity_Fresh profile c :
  validated_profile_capacity policy input profile = Ok (CapacityFresh c) →
  capacity_evidence c
  ∧ env_vcpus (envelope profile) * 1000 ≤ cpu_millis (hco_capacity c)
  ∧ env_memory_bytes (envelope profile) ≤ memory_bytes (hco_capacity c).
Proof.
  unfold validated_profile_capacity. intros H. inv_ok H. destruct y; [done|].
  match goal with H : required_cpu_millis _ = Ok _ |- _ =>
    unfold required_cpu_millis, try_from_int in H; inv_opts end.
  destruct (_ <=? u32_max); simplify_eq. bprop.
  eauto using capacity_checked.
Qed.

Lemma validated_execution_capacity_Fresh entry c :
  validated_execution_capacity policy input entry = Ok (CapacityFresh c) →
  capacity_evidence c ∧ ∃ cpu memory,
    vis_reserved_cpu_millis entry = Some cpu ∧ cpu ≤ cpu_millis (hco_capacity c)
    ∧ vis_reserved_memory_bytes entry = Some memory ∧ memory ≤ memory_bytes (hco_capacity c).
Proof.
  unfold validated_execution_capacity. intros H. inv_ok H. bprop. destruct y; [done|].
  injection H as ->. split; [by eapply capacity_checked|]. eauto 8.
Qed.

Lemma plan_stop_authorised l profile generation target p :
  one_job → available l → tick_machine l target → llo_state l = LimaRunning →
  queue_has_active_work queue = false → llo_profile l = profile →
  llo_profile_generation l = generation → target ≠ map_lima_profile profile →
  plan_stop policy input (llo_identity l) profile generation target = Ok p →
  tick_authorised (ptp_action p).
Proof.
  intros H1 Hav Hm Hs Hq Hp Hg Ht H. unfold plan_stop in H.
  apply bind_Ok in H as ([|r] & Hr & H); [by injection H as <-|].
  assert (tick_runner l (hbr_state r)) as Hrun.
  { unfold validated_runner_for_stop in Hr. inv_ok Hr. bprop. injection Hr as ->.
    destruct y; [done|].
    match goal with H : tick_observation_is_stale _ _ _ _ _ = Ok _ |- _ =>
      apply tick_stale_Ok in H as [_ Hf] end.
    exists r. simpl. rewrite Hwindow. split_and!; auto; congruence. }
  apply bind_Ok in H as (a & Ha & H). injection H as <-. simpl.
  destruct (hbr_state r); try discriminate Ha; injection Ha as <-; simpl; try done;
    split; try done; exists l; auto 12.
Qed.

Lemma filter_active_reserved entry :
  one_job →
  List.filter (λ e, bool_decide (vis_state e = EntryReserved)) (qd_visibility queue) = [entry] →
  List.filter is_active_entry (qd_visibility queue) = [entry] ∧ vis_state entry = EntryReserved.
Proof.
  intros [_ Hone] Hf.
  assert (entry ∈ qd_visibility queue ∧ vis_state entry = EntryReserved) as [Hin Hst].
  { assert (List.In entry [entry]) as Hi by (by left). rewrite <- Hf in Hi.
    apply List.filter_In in Hi as [? ?]. rewrite list_elem_of_In. by bprop. }
  split; [|done].
  assert (List.In entry (List.filter is_active_entry (qd_visibility queue))) as Hi.
  { apply List.filter_In. rewrite <- list_elem_of_In. split; [done|].
    unfold is_active_entry. by rewrite Hst. }
  destruct (List.filter _ _) as [|e [|]]; simpl in *; [done| |lia].
  destruct Hi as [->|[]]. done.
Qed.

Lemma no_op_authorised l desired a :
  one_job → available l → tick_machine l desired →
  broker_authorised (ptpol_host_broker policy) (broker_input input (pti_store_revision input))
    BrokerNoOp →
  no_op_action policy input l = Ok a → tick_authorised a.
Proof.
  intros H1 Hav Hm (l' & d & Hm' & Hcase) H.
  assert (l' = l) as -> by (pose proof (me_given _ _ _ _ Hm); pose proof (me_given _ _ _ _ Hm');
    congruence).
  assert (d = desired) as -> by (pose proof (me_desired _ _ _ _ Hm);
    pose proof (me_desired _ _ _ _ Hm'); congruence).
  clear Hm'. unfold no_op_action in H.
  destruct (bool_decide _) eqn:Es in H; [by injection H as <-|].
  destruct (is_some_and _ _) eqn:Er in H; [by injection H as <-|].
  destruct (existsb _ _) eqn:Ee in H; [by injection H as <-|].
  apply bind_Ok in H as (candidate & Hc & H). destruct candidate as [entry|];
    [|by injection H as <-].
  unfold single_execution_candidate in Hc.
  destruct (List.filter _ _) as [|e [|]] eqn:Ef in Hc; try discriminate Hc.
  injection Hc as ->. apply (filter_active_reserved _ H1) in Ef as [Hact Hst].
  assert (queue_has_active_work queue = true) as Hqa.
  { unfold queue_has_active_work. apply existsb_exists.
    assert (List.In entry [entry]) as Hi by (by left). rewrite <- Hact in Hi.
    apply List.filter_In in Hi. by exists entry. }
  assert (queue_has_work queue = true) as Hw.
  { unfold queue_has_active_work in Hqa. apply existsb_exists in Hqa as (e & Hin & He).
    unfold queue_has_work. apply orb_true_iff. right. apply existsb_exists. exists e.
    split; [done|]. unfold is_active_entry in He. by destruct (vis_state e). }
  pose proof (me_work _ _ _ _ Hm Hw) as ->.
  pose proof (me_active_profile _ _ _ _ Hm Hqa) as Hprof.
  pose proof (me_reservation _ _ _ _ Hm) as Hres. simpl in Hres. rewrite Hqa in Hres. bprop.
  apply bind_Ok in H as (ev & Hev & H). injection H as <-.
  destruct ev as [| |c]; simpl; try done.
  apply validated_execution_capacity_Fresh in Hev as (Hce & cpu & memory & Hev).
  assert ((llo_state l = LimaRunning ∨ llo_state l = LimaDraining) ∧ tick_runner l RunnerIdleReady)
    as [Hstate Hrun].
  { destruct Hcase as [[_ ?]|[?|[(_ & ? & _)|[Hs (state & Hrun & ? & ?)]]]]; try done.
    split; [naive_solver|]. destruct Hrun as (r & Hr & Hrs & Hrest). simpl in Hr.
    rewrite Hr in Er. simpl in Er. rewrite Hrs in Er.
    destruct state; try done. by exists r. }
  exists l, entry, cpu, memory. tauto.
Qed.

Lemma authorise_authorised l a p :
  one_job → available l → pti_lifecycle input = Some l →
  broker_authorised (ptpol_host_broker policy) (broker_input input (pti_store_revision input)) a →
  authorise policy input l a = Ok p → tick_authorised (ptp_action p).
Proof.
  intros H1 Hav Hl Ha H.
  assert (∀ l' d, machine_evidence (ptpol_host_broker policy)
    (broker_input input (pti_store_revision input)) l' d → l' = l) as Hsame.
  { intros l' d Hm. pose proof (me_given _ _ _ _ Hm) as Hg. simpl in Hg. congruence. }
  destruct a; simpl in H; try discriminate H.
  - destruct Ha as (l' & Hm & Ha). pose proof (Hsame _ _ Hm) as ->.
    apply bind_Ok in H as (ev & Hev & H). injection H as <-. destruct ev; simpl; try done.
    apply validated_profile_capacity_Fresh in Hev. split; [done|]. exists l. tauto.
  - destruct Ha as (l' & Hm & Hs & Hn & _ & <- & <- & <- & Ht). pose proof (Hsame _ _ Hm) as ->.
    by eapply plan_stop_authorised.
  - destruct Ha as (l' & Hm & Hs & Hn & _ & Ha). pose proof (Hsame _ _ Hm) as ->.
    injection H as <-. simpl. split; [done|]. exists l. unfold no_active_work in Hn. tauto.
  - by injection H as <-.
  - destruct Ha as (l' & d & Hm & Hr & Hs & Hh). pose proof (Hsame _ _ Hm) as ->.
    destruct (_ || _) eqn:E in H; [by injection H as <-|]. bprop.
    apply bind_Ok in H as (ev & Hev & H). injection H as <-. destruct ev; simpl; try done.
    apply validated_capacity_Fresh in Hev. split_and!; [|done|exists l, d; tauto].
    simpl in Hh. destruct (qd_selected queue) as [|? [|]]; simpl in *; congruence.
  - apply bind_Ok in H as (a & Hno & H). injection H as <-. simpl.
    destruct Ha as (l' & d & Hm & Hcase). pose proof (Hsame _ _ Hm) as ->.
    eapply no_op_authorised; eauto. exists l, d. eauto.
Qed.

(** What the gate answers is never an action on the machine or a job. *)
Lemma gate_answers l a : availability_gate input l = Ok (Some a) → tick_authorised a.
Proof.
  unfold availability_gate, pressure_gate. intros H.
  inv_ok H; try (injection H as <-; done); repeat case_match; simplify_eq; done.
Qed.

Lemma plan_bound p :
  PersonalWorkerTickPolicy_plan policy input = Ok p → ∃ a, p = tick_plan input a.
Proof.
  unfold PersonalWorkerTickPolicy_plan, authorise, plan_stop. intros H.
  inv_ok H; injection H as <-; by eexists.
Qed.

Lemma plan_authorised p :
  PersonalWorkerTickPolicy_plan policy input = Ok p → tick_authorised (ptp_action p).
Proof.
  unfold PersonalWorkerTickPolicy_plan. intros H.
  apply bind_Ok in H as (u & _ & H). apply bind_Ok in H as (rev & Hrev & H).
  apply map_err_Ok in Hrev. unfold HostBrokerStateRevision_new in Hrev.
  apply ok_guard in Hrev as [_ Hrev]. injection Hrev as <-.
  apply bind_Ok in H as (host & Hhost & H). apply map_err_Ok in Hhost.
  apply reduce_authorised in Hhost.
  destruct (hbp_action host) eqn:Eh; try (
    destruct (concurrency_exceeded queue) eqn:Ec; [by injection H as <-|];
    apply concurrency_one_job in Ec; apply bind_Ok in H as (l & Hl & H);
    apply ok_or_Ok in Hl; apply bind_Ok in H as ([act|] & Hg & H);
      [injection H as <-; by eapply gate_answers|
       apply gate_available in Hg as [_ Hg]; by eapply authorise_authorised]).
  - apply bind_Ok in H as (u' & _ & H). by injection H as <-.
  - by injection H as <-.
  - by injection H as <-.
Qed.

End tick.

(** (C22) The tick never acts without the evidence its action needs.  Whatever it
    plans is bound to the store revision, queue generation and time it was
    given.  It starts the machine only when it is stopped on the profile the
    queue wants, the host is available and its fresh capacity holds the whole
    profile; it changes the profile or stops the machine only when no job is
    active, and stops it only with a fresh runner of this machine that is
    offline or idle; it reserves only the one selected job, with no job active
    and capacity that holds it, and executes only the one reserved job, on a
    ready runner of a machine on the work profile; and it releases only a
    draining job. *)
Theorem tick_authority queue_age runner_age capacity_age policy input p :
  PersonalWorkerTickPolicy_new queue_age runner_age capacity_age = Ok policy →
  PersonalWorkerTickPolicy_plan policy input = Ok p →
  ptp_store_revision p = pti_store_revision input
  ∧ ptp_queue_generation p = qd_generation (pti_queue input)
  ∧ ptp_decision_at p = pti_decision_at input
  ∧ tick_authorised policy input (ptp_action p).
Proof.
  intros Hnew H. assert (hbpol_max_runner_age_millis (ptpol_host_broker policy)
                         = ptpol_max_runner_age_millis policy) as Hw.
  { unfold PersonalWorkerTickPolicy_new in Hnew. apply bind_Ok in Hnew as (b & Hb & Hnew).
    apply ok_guard in Hnew as [_ Hnew]. injection Hnew as <-. apply map_err_Ok in Hb.
    unfold HostBrokerReducerPolicy_new in Hb. inv_ok Hb. by injection Hb as <-. }
  pose proof (plan_authorised _ _ Hw _ H). by apply plan_bound in H as [a ->].
Qed.

(** ** A tick returns *)

Lemma lima_freshness_no_panic f t n a : lima_validate_freshness f t n a ≠ Panic.
Proof. unfold lima_validate_freshness. no_panic. Qed.

#[export] Hint Resolve lima_freshness_no_panic : no_panic.

Lemma desired_target_no_panic p o t : LimaLifecyclePolicy_desired_target p o t ≠ Panic.
Proof. unfold LimaLifecyclePolicy_desired_target. no_panic. Qed.

Lemma broker_stale_no_panic f t n a : broker_observation_is_stale f t n a ≠ Panic.
Proof. unfold broker_observation_is_stale. no_panic. Qed.

Lemma tick_stale_no_panic t n a k f : tick_observation_is_stale t n a k f ≠ Panic.
Proof. unfold tick_observation_is_stale. no_panic. Qed.

Lemma revision_new_no_panic v : HostBrokerStateRevision_new v ≠ Panic.
Proof. unfold HostBrokerStateRevision_new. no_panic. Qed.

#[export] Hint Resolve desired_target_no_panic broker_stale_no_panic tick_stale_no_panic
  revision_new_no_panic : no_panic.

Lemma validate_revision_no_panic i : validate_revision i ≠ Panic.
Proof. unfold validate_revision, HostBrokerStateRevision_next. no_panic. Qed.

Lemma validate_queue_schema_no_panic q : validate_queue_schema q ≠ Panic.
Proof. unfold validate_queue_schema. no_panic. Qed.

Lemma alignment_no_panic q l : validate_queue_lifecycle_alignment q l ≠ Panic.
Proof. unfold validate_queue_lifecycle_alignment. no_panic. Qed.

Lemma broker_desired_no_panic q t : broker_desired_profile q t ≠ Panic.
Proof. unfold broker_desired_profile. no_panic. Qed.

Lemma profile_change_no_panic q : require_profile_change_permitted q ≠ Panic.
Proof. unfold require_profile_change_permitted. no_panic. Qed.

Lemma validated_runner_no_panic p i l : validated_runner p i l ≠ Panic.
Proof. unfold validated_runner. no_panic. Qed.

Lemma runner_identity_no_panic q s : validate_runner_request_identity q s ≠ Panic.
Proof. unfold validate_runner_request_identity. no_panic. Qed.

#[export] Hint Resolve validate_revision_no_panic validate_queue_schema_no_panic
  alignment_no_panic broker_desired_no_panic profile_change_no_panic validated_runner_no_panic
  runner_identity_no_panic : no_panic.

Lemma choose_runner_no_panic p i l : choose_runner_action p i l ≠ Panic.
Proof. unfold choose_runner_action. no_panic. Qed.

#[export] Hint Resolve choose_runner_no_panic : no_panic.

Lemma choose_action_no_panic p i l d : choose_action p i l d ≠ Panic.
Proof.
  unfold choose_action, choose_stopped_action, choose_wait_action, choose_running_action,
    choose_draining_action, LimaProfileGeneration_new. intros H.
  destruct (llo_state l) eqn:E; [destruct d| |destruct d| | |]; simpl in H; inv_panic H;
    try (eapply choose_runner_no_panic; eassumption);
    try (eapply validated_runner_no_panic; eassumption);
    try (eapply profile_change_no_panic; eassumption); try done.
Qed.

#[export] Hint Resolve choose_action_no_panic : no_panic.

Lemma reduce_no_panic p i : HostBrokerReducerPolicy_reduce p i ≠ Panic.
Proof. unfold HostBrokerReducerPolicy_reduce. no_panic. by eapply desired_target_no_panic. Qed.

Lemma coherence_no_panic q l a : validate_availability_coherence q l a ≠ Panic.
Proof. unfold validate_availability_coherence. no_panic. Qed.

#[export] Hint Resolve reduce_no_panic coherence_no_panic : no_panic.

Lemma cross_source_no_panic i : validate_available_cross_source_evidence i ≠ Panic.
Proof. unfold validate_available_cross_source_evidence. no_panic. Qed.

Lemma availability_gate_no_panic i l : availability_gate i l ≠ Panic.
Proof.
  unfold availability_gate. no_panic.
  destruct (plan_availability_total m (pti_availability_request i)). congruence.
Qed.

Lemma supplied_time_no_panic p i : validate_supplied_time p i ≠ Panic.
Proof. unfold validate_supplied_time. no_panic. Qed.

Lemma validated_capacity_no_panic p i s : validated_capacity p i s ≠ Panic.
Proof. unfold validated_capacity. no_panic. Qed.

Lemma execution_capacity_no_panic p i e : validated_execution_capacity p i e ≠ Panic.
Proof. unfold validated_execution_capacity. no_panic. Qed.

Lemma required_cpu_no_panic profile : required_cpu_millis profile ≠ Panic.
Proof. by destruct profile. Qed.

Lemma runner_for_stop_no_panic p i d g : validated_runner_for_stop p i d g ≠ Panic.
Proof. unfold validated_runner_for_stop. no_panic. Qed.

Lemma single_candidate_no_panic q : single_execution_candidate q ≠ Panic.
Proof. unfold single_execution_candidate. no_panic. Qed.

#[export] Hint Resolve cross_source_no_panic availability_gate_no_panic supplied_time_no_panic
  validated_capacity_no_panic execution_capacity_no_panic required_cpu_no_panic
  runner_for_stop_no_panic single_candidate_no_panic : no_panic.

Lemma profile_capacity_no_panic p i r : validated_profile_capacity p i r ≠ Panic.
Proof. unfold validated_profile_capacity. no_panic. Qed.

Lemma plan_stop_no_panic p i d r g t : plan_stop p i d r g t ≠ Panic.
Proof. unfold plan_stop. no_panic. Qed.

Lemma no_op_no_panic p i l : no_op_action p i l ≠ Panic.
Proof. unfold no_op_action. no_panic. Qed.

#[export] Hint Resolve profile_capacity_no_panic plan_stop_no_panic no_op_no_panic : no_panic.

(** A tick always returns a plan or an error: the [unreachable!] arms and the
    [expect] of the broker and the tick are never reached, and the [u32]
    product that sizes a profile does not overflow. *)
Theorem tick_total policy input : PersonalWorkerTickPolicy_plan policy input ≠ Panic.
Proof. unfold PersonalWorkerTickPolicy_plan, authorise. no_panic. Qed.
