(* ===== verification/TickProgress.v ===== *)
(** * Progress of a tick

    A tick put together with the queue's own decision ([evaluate_one_selected])
    moves a selected job forward whatever state the machine is in
    ([tick_progress]); and what happens when the queue selects two jobs
    ([two_selected_blocked]). *)

From S2P Require Import Prelude Artifact ExecutionAdmission AdmissionLifecycle WorkerQueue QueueSchedule QueueTheorems LimaLifecycle LimaTheorems MacAvailability HostBroker WorkerTick TickTheorems.

Local Open Scope N_scope.

(** ** The queue's side of a tick *)

(** What a decision of the evaluator with one selected job and nothing active
    or pending tells the tick. *)
Record one_selected (d : PersonalWorkerQueueDecision) (sel : PersonalWorkerSelection) : Prop := {
  os_schema : qd_schema_version d = PERSONAL_WORKER_QUEUE_SCHEMA_VERSION;
  os_selected : qd_selected d = [sel];
  os_desired : qd_desired_profile d = ProfileWork;
  os_cancel : qd_cancel_pending_downscale d = false;
  os_permitted : qd_profile_change_permitted d = true;
  os_active : Forall (λ e, is_active_entry e = false) (qd_visibility d);
}.

Lemma queued_visibility_idle now ids held positions desired r :
  is_active_entry (queued_visibility now ids held positions desired r) = false.
Proof.
  unfold queued_visibility, is_active_entry. simpl.
  destruct (is_cancelled _); [done|]. by case_bool_decide.
Qed.

Lemma live_has_work qi r : r ∈ live_requests qi → has_work_of qi = true.
Proof.
  intros Hr. apply list_elem_of_In, List.filter_In in Hr as [Hin Hl].
  unfold has_work_of. apply orb_true_iff. left. apply existsb_exists. by exists r.
Qed.

Lemma evaluate_one_selected qi previous d sel :
  evaluate_personal_worker_queue qi previous = Ok d →
  qi_active qi = [] → qi_pending_profile_change qi = None → qd_selected d = [sel] →
  one_selected d sel.
Proof.
  intros Hd Ha Hp Hs. apply evaluate_Ok in Hd as (Hin & chosen & vis & Hg & _ & Hvis & ->).
  simpl in Hs. apply greedy_submseteq in Hg.
  assert (has_work_of qi = true) as Hw.
  { destruct chosen as [|r chosen]; [done|]. apply (live_has_work _ r).
    eapply elem_of_submseteq; [|done]. left. }
  constructor; try done; simpl.
  - by rewrite Hw.
  - by rewrite Hp, andb_false_r.
  - by rewrite Ha.
  - unfold build_visibility in Hvis. rewrite Ha in Hvis. simpl in Hvis. injection Hvis as <-.
    rewrite app_nil_r. apply Forall_fmap, Forall_forall. intros r _. apply queued_visibility_idle.
Qed.

Lemma one_selected_queue d sel :
  one_selected d sel →
  queue_has_work d = true ∧ queue_has_active_work d = false ∧ concurrency_exceeded d = false
  ∧ existsb (λ e, bool_decide (vis_state e = EntryDraining)) (qd_visibility d) = false.
Proof.
  intros H. pose proof (os_active _ _ H) as Ha. rewrite Forall_forall in Ha.
  unfold queue_has_work, queue_has_active_work, concurrency_exceeded.
  rewrite (os_selected _ _ H). split; [done|]. rewrite !existsb_false. split; [done|].
  split; [|intros e He; apply Ha in He; unfold is_active_entry in He;
           case_bool_decide as Hs; [by rewrite Hs in He|done]].
  simpl. replace (List.filter is_active_entry (qd_visibility d))
    with (@nil PersonalWorkerQueueVisibility); [done|].
  clear H. induction (qd_visibility d) as [|e l IH]; [done|]. simpl.
  rewrite (Ha e) by (left; done). apply IH. intros x Hx. apply Ha. by right.
Qed.

(** ** The other side: evidence that agrees *)

(** Evidence with which nothing stands in the way of the selected job. *)
Record cooperative (policy : PersonalWorkerTickPolicy) (input : PersonalWorkerTickInput)
    (sel : PersonalWorkerSelection) (l : LimaLifecycleObservation)
    (c : HostCapacityObservation) : Prop := {
  co_revision : 1 ≤ pti_store_revision input ≤ MAX_HOST_BROKER_STATE_REVISION;
  co_queue_fresh : fresh (hbpol_max_queue_age_millis (ptpol_host_broker policy))
    (pti_decision_at input) (qd_observed_at (pti_queue input));
  co_machine : pti_lifecycle input = Some l;
  co_machine_fresh : fresh (llp_max_observation_age_millis (pti_lifecycle_policy input))
    (pti_decision_at input) (llo_observed_at l);
  co_machine_valid : lima_shape l;
  co_machine_idle : llo_active_reservation_id l = None;
  co_machine_available : llo_state l ≠ LimaUnavailable;
  co_generation : 1 ≤ llo_profile_generation l < u64_max;
  co_profile : qd_profile_observation (pti_queue input)
    = ProfileObserved (if decide (llo_state l = LimaStopped) then ProfileStopped
                       else map_lima_profile (llo_profile l));
  co_runner : ∃ r, pti_runner input = Some r ∧ hbr_state r = RunnerIdleReady
    ∧ hbr_instance_id r = lima_instance_id (llo_identity l)
    ∧ hbr_profile_generation r = llo_profile_generation l
    ∧ fresh (hbpol_max_runner_age_millis (ptpol_host_broker policy)) (pti_decision_at input)
        (hbr_observed_at r)
    ∧ fresh (ptpol_max_runner_age_millis policy) (pti_decision_at input) (hbr_observed_at r);
  co_capacity : pti_capacity input = Some c;
  co_capacity_fresh : fresh (ptpol_max_capacity_age_millis policy) (pti_decision_at input)
    (hco_observed_at c);
  co_capacity_job : fits_within (sel_reserved_limits sel) (hco_capacity c) = true;
  co_capacity_profile : WORK_VCPUS * 1000 ≤ cpu_millis (hco_capacity c)
    ∧ WORK_MEMORY_BYTES ≤ memory_bytes (hco_capacity c);
  co_request : pti_availability_request input = RequestActive
    ∨ pti_availability_request input = RequestAway;
  co_available : ∃ a, pti_availability input = Some a
    ∧ mao_freshness a = ObservationFresh ∧ mao_operator_hold a = false
    ∧ mao_job_activity a = JobIdle ∧ mao_memory_pressure a = PressureNormal
    ∧ mao_host_power a = HostAc
    ∧ mao_vm_power a = (if decide (llo_state l = LimaStopped) then PowerStopped else PowerRunning)
    ∧ effective_state_is_consistent (mao_effective_mode a) (mao_vm_power a) = true;
}.

(** The step towards running the job from each state of the machine. *)
Definition next_toward_job (sel : PersonalWorkerSelection) (l : LimaLifecycleObservation)
    (c : HostCapacityObservation) : PersonalWorkerTickAction :=
  match llo_state l, llo_profile l with
  | LimaStopped, LimaWork =>
      TickStartVm (llo_identity l) LimaWork (llo_profile_generation l) c
  | LimaStopped, LimaInteractive =>
      TickChangeProfile (llo_identity l) LimaInteractive LimaWork (llo_profile_generation l)
        (llo_profile_generation l + 1)
  | LimaStarting, _ => TickObserve TickRunner
  | LimaRunning, LimaWork | LimaDraining, _ => TickRunJob (JobReserve sel c)
  | LimaRunning, LimaInteractive =>
      TickStopVm (llo_identity l) LimaInteractive (llo_profile_generation l) ProfileWork
  | LimaStopping, _ | LimaUnavailable, _ => TickObserve TickLima
  end.

(** The broker's step. *)
Definition broker_toward_job (sel : PersonalWorkerSelection) (l : LimaLifecycleObservation)
    : HostBrokerAction :=
  match llo_state l, llo_profile l with
  | LimaStopped, LimaWork => BrokerStart (llo_identity l) LimaWork (llo_profile_generation l)
  | LimaStopped, LimaInteractive =>
      BrokerChangeProfile (llo_identity l) LimaInteractive LimaWork (llo_profile_generation l)
        (llo_profile_generation l + 1)
  | LimaStarting, profile =>
      BrokerWaitForRunner (llo_identity l) profile (llo_profile_generation l)
  | LimaRunning, LimaWork | LimaDraining, _ => BrokerReserve sel
  | LimaRunning, LimaInteractive =>
      BrokerStop (llo_identity l) LimaInteractive (llo_profile_generation l) ProfileWork
  | LimaStopping, _ | LimaUnavailable, _ => BrokerNoOp
  end.

Lemma broker_fresh_Ok field t now age :
  fresh age now t → broker_observation_is_stale field t now age = Ok false.
Proof.
  unfold fresh, broker_observation_is_stale, checked_sub. intros [H1 H2].
  rewrite (proj2 (N.leb_le _ _)) by lia. rsimpl. f_equal. apply N.ltb_ge. lia.
Qed.

Lemma tick_fresh_Ok t now age kind field :
  fresh age now t → tick_observation_is_stale t now age kind field = Ok false.
Proof.
  unfold fresh, tick_observation_is_stale, checked_sub. intros [H1 H2].
  rewrite (proj2 (N.leb_le _ _)) by lia. rsimpl. f_equal. apply N.ltb_ge. lia.
Qed.

Lemma desired_target_fresh_Ok policy o t :
  lima_shape o → fresh (llp_max_observation_age_millis policy) t (llo_observed_at o) →
  ∃ target, LimaLifecyclePolicy_desired_target policy o t = Ok target.
Proof.
  intros Hs Hf. unfold LimaLifecyclePolicy_desired_target.
  rewrite (proj2 (lima_freshness_Ok _ _ _ _ ())) by done. rsimpl.
  pose proof (shape_activity _ Hs). unfold fresh in Hf.
  destruct (is_some _); [by eexists|]. unfold checked_sub.
  rewrite (proj2 (N.leb_le _ _)) by lia. rsimpl. repeat case_match; by eexists.
Qed.

Lemma available_plan a request :
  request = RequestActive ∨ request = RequestAway →
  mao_freshness a = ObservationFresh → mao_operator_hold a = false →
  mao_job_activity a = JobIdle → mao_memory_pressure a = PressureNormal →
  mao_host_power a = HostAc →
  effective_state_is_consistent (mao_effective_mode a) (mao_vm_power a) = true →
  ∃ plan, plan_availability_transition a request = Ok plan
    ∧ (map_disposition plan = NoChange ∨ map_disposition plan = DispositionReady).
Proof.
  destruct a as [mode power job fr host mem hold]; simpl. intros Hr -> -> -> -> -> Hc.
  destruct Hr as [->| ->], mode, power; try discriminate Hc; eexists;
    (split; [vm_compute; reflexivity|simpl; auto]).
Qed.

Section progress.
Context (policy : PersonalWorkerTickPolicy) (input : PersonalWorkerTickInput).
Context (sel : PersonalWorkerSelection) (l : LimaLifecycleObservation).
Context (c : HostCapacityObservation).
Context (Hq : one_selected (pti_queue input) sel) (Hco : cooperative policy input sel l c).

Lemma progress_alignment : validate_queue_lifecycle_alignment (pti_queue input) l = Ok ().
Proof.
  destruct (one_selected_queue _ _ Hq) as (_ & Ha & _).
  unfold validate_queue_lifecycle_alignment. rewrite (co_profile _ _ _ _ _ Hco), Ha.
  cbn [observed_profile]. rsimpl. rewrite (co_machine_idle _ _ _ _ _ Hco), bool_decide_false; [done|].
  intros Hne. apply Hne. by destruct (llo_state l).
Qed.

Lemma progress_permitted : require_profile_change_permitted (pti_queue input) = Ok ().
Proof.
  destruct (one_selected_queue _ _ Hq) as (_ & Ha & _).
  unfold require_profile_change_permitted. by rewrite (os_permitted _ _ Hq), Ha.
Qed.

Lemma progress_runner bi :
  bi = broker_input input (pti_store_revision input) →
  ∃ r, validated_runner (ptpol_host_broker policy) bi l = Ok (RunnerFresh r)
       ∧ hbr_state r = RunnerIdleReady.
Proof.
  intros ->. destruct (co_runner _ _ _ _ _ Hco) as (r & Hr & Hs & Hi & Hg & Hf & _).
  exists r. split; [|done]. unfold validated_runner. simpl. rewrite Hr.
  rewrite broker_fresh_Ok by done. rsimpl. by rewrite Hi, Hg, bool_decide_false, N.eqb_refl by auto.
Qed.

Lemma progress_reserve :
  choose_runner_action (ptpol_host_broker policy) (broker_input input (pti_store_revision input)) l
  = Ok (broker_plan (broker_input input (pti_store_revision input)) (BrokerReserve sel)).
Proof.
  destruct (one_selected_queue _ _ Hq) as (_ & _ & _ & Hd).
  destruct (progress_runner _ eq_refl) as (r & Hr & Hs).
  unfold choose_runner_action. rewrite Hr. rsimpl. rewrite Hs. simpl.
  destruct (List.find _ _) as [e|] eqn:Ef.
  { apply List.find_some in Ef as [Hin He]. rewrite existsb_false in Hd.
    rewrite Hd in He; [done|]. by apply list_elem_of_In. }
  by rewrite (os_selected _ _ Hq).
Qed.

Lemma progress_broker :
  HostBrokerReducerPolicy_reduce (ptpol_host_broker policy)
    (broker_input input (pti_store_revision input))
  = Ok (broker_plan (broker_input input (pti_store_revision input)) (broker_toward_job sel l)).
Proof.
  unfold HostBrokerReducerPolicy_reduce. simpl.
  unfold validate_queue_schema. rewrite (os_schema _ _ Hq). simpl.
  rewrite (broker_fresh_Ok _ _ _ _ (co_queue_fresh _ _ _ _ _ Hco)). rsimpl.
  rewrite (os_cancel _ _ Hq), (co_machine _ _ _ _ _ Hco).
  pose proof (co_machine_fresh _ _ _ _ _ Hco) as Hf.
  rewrite (proj2 (N.ltb_ge _ _)) by apply Hf.
  destruct (desired_target_fresh_Ok _ _ _ (co_machine_valid _ _ _ _ _ Hco) Hf) as [t ->].
  rewrite progress_alignment. rsimpl. unfold broker_desired_profile.
  rewrite (proj1 (one_selected_queue _ _ Hq)), (os_desired _ _ Hq). rsimpl.
  pose proof (co_machine_available _ _ _ _ _ Hco) as Hav.
  unfold choose_action, broker_toward_job. rewrite bool_decide_false by done.
  pose proof (co_generation _ _ _ _ _ Hco) as Hg.
  destruct (llo_state l) eqn:Hs; try done.
  - unfold choose_stopped_action; simpl. destruct (llo_profile l); simpl; [|done].
    rewrite progress_permitted. rsimpl. unfold checked_add.
    rewrite (proj2 (N.leb_le _ _)) by lia. rsimpl. unfold LimaProfileGeneration_new.
    by rewrite (proj2 (N.eqb_neq _ _)) by lia.
  - unfold choose_wait_action. by destruct (progress_runner _ eq_refl) as (r & -> & _).
  - unfold choose_running_action; simpl. destruct (llo_profile l) eqn:Hp; simpl.
    + rewrite progress_permitted. rsimpl. unfold stop_plan. by rewrite Hp.
    + apply progress_reserve.
  - unfold choose_draining_action; simpl. destruct (llo_profile l); apply progress_reserve.
Qed.

Lemma progress_gate : availability_gate input l = Ok None.
Proof.
  destruct (one_selected_queue _ _ Hq) as (Hw & Ha & _).
  destruct (co_available _ _ _ _ _ Hco) as (a & Hav & Hf & Hh & Hj & Hm & Hp & Hv & Hc).
  pose proof (co_machine_available _ _ _ _ _ Hco) as Hl.
  pose proof (available_plan a _ (co_request _ _ _ _ _ Hco) Hf Hh Hj Hm Hp Hc) as Hplan.
  unfold availability_gate, validate_availability_coherence, pressure_gate.
  rewrite Hav, Ha, Hw, Hf, Hj, Hm, Hp, Hv.
  rewrite (bool_decide_false (pti_availability_request input = RequestOff))
    by (by destruct (co_request _ _ _ _ _ Hco) as [->| ->]).
  destruct Hplan as (plan & -> & Hd).
  destruct (llo_state l); try done; simpl; case_bool_decide; by destruct Hd as [->| ->].
Qed.

Lemma progress_supplied_time : validate_supplied_time policy input = Ok ().
Proof.
  unfold validate_supplied_time.
  destruct (co_runner _ _ _ _ _ Hco) as (r & Hr & _ & _ & _ & _ & Hf).
  rewrite (co_machine _ _ _ _ _ Hco), Hr, (co_capacity _ _ _ _ _ Hco).
  by rewrite (tick_fresh_Ok _ _ _ _ _ (co_machine_fresh _ _ _ _ _ Hco)),
    (tick_fresh_Ok _ _ _ _ _ Hf), (tick_fresh_Ok _ _ _ _ _ (co_capacity_fresh _ _ _ _ _ Hco)).
Qed.

Lemma progress_store_revision :
  HostBrokerStateRevision_new (pti_store_revision input) = Ok (pti_store_revision input).
Proof.
  unfold HostBrokerStateRevision_new.
  by rewrite (proj2 (in_range_true _ _ _)) by apply (co_revision _ _ _ _ _ Hco).
Qed.

Lemma progress_authorise :
  authorise policy input l (broker_toward_job sel l)
  = Ok (tick_plan input (next_toward_job sel l c)).
Proof.
  destruct (one_selected_queue _ _ Hq) as (_ & Ha & _).
  pose proof (tick_fresh_Ok _ _ _ KindCapacityEvidence "capacity.observed_at"
                (co_capacity_fresh _ _ _ _ _ Hco)) as Hc.
  assert (validated_capacity policy input sel = Ok (CapacityFresh c)) as Hcap.
  { unfold validated_capacity. rewrite (co_capacity _ _ _ _ _ Hco), Hc. rsimpl.
    by rewrite (co_capacity_job _ _ _ _ _ Hco). }
  assert (authorise policy input l (BrokerReserve sel)
          = Ok (tick_plan input (TickRunJob (JobReserve sel c)))) as Hres.
  { unfold authorise. rewrite Ha, (os_selected _ _ Hq), Hcap. done. }
  unfold broker_toward_job, next_toward_job.
  pose proof (co_machine_available _ _ _ _ _ Hco) as Hav.
  destruct (llo_state l) eqn:Hs, (llo_profile l) eqn:Hp; try done; simpl.
  - unfold validated_profile_capacity. rewrite (co_capacity _ _ _ _ _ Hco), Hc. rsimpl.
    destruct (co_capacity_profile _ _ _ _ _ Hco). simpl.
    by rewrite !(proj2 (N.ltb_ge _ _)) by done.
  - unfold plan_stop, validated_runner_for_stop.
    destruct (co_runner _ _ _ _ _ Hco) as (r & -> & Hrs & -> & -> & _ & Hf).
    rewrite (tick_fresh_Ok _ _ _ _ _ Hf). rsimpl.
    rewrite bool_decide_false, N.eqb_refl by auto. simpl. by rewrite Hrs.
  - unfold no_op_action. by rewrite bool_decide_true by done.
  - unfold no_op_action. by rewrite bool_decide_true by done.
Qed.

Lemma progress_plan :
  PersonalWorkerTickPolicy_plan policy input = Ok (tick_plan input (next_toward_job sel l c)).
Proof.
  destruct (one_selected_queue _ _ Hq) as (_ & _ & Hcon & _).
  unfold PersonalWorkerTickPolicy_plan. rewrite progress_supplied_time. rsimpl.
  rewrite progress_store_revision. rsimpl. rewrite progress_broker. rsimpl.
  cbn [hbp_action broker_plan].
  rewrite Hcon, (co_machine _ _ _ _ _ Hco). rsimpl. rewrite progress_gate. rsimpl.
  pose proof progress_authorise as Hau. unfold broker_toward_job in *.
  destruct (llo_state l), (llo_profile l); exact Hau.
Qed.

End progress.


(** ** Two selected jobs *)

(** The actions that touch the machine or run a job. *)
Definition is_consequential (a : PersonalWorkerTickAction) : bool :=
  match a with
  | TickChangeProfile _ _ _ _ _ | TickStartVm _ _ _ _ | TickStopVm _ _ _ _
  | TickRunJob (JobReserve _ _) | TickRunJob (JobExecute _ _) => true
  | _ => false
  end.

(** The evaluator selects two jobs when two light ones fit, but while two are
    selected no tick starts the machine, changes its profile, or reserves or
    executes either of them. *)
Theorem two_selected_blocked policy input p :
  (2 ≤ length (qd_selected (pti_queue input)))%nat →
  PersonalWorkerTickPolicy_plan policy input = Ok p →
  is_consequential (ptp_action p) = false.
Proof.
  intros Hlen H. unfold PersonalWorkerTickPolicy_plan in H.
  assert (concurrency_exceeded (pti_queue input) = true) as Hc.
  { unfold concurrency_exceeded. apply orb_true_iff. left. apply Nat.ltb_lt. lia. }
  rewrite Hc in H. inv_ok H; by injection H as <-.
Qed.

(** ** A tick of a running machine *)

Definition sample_idle_queue (jobs : list PersonalWorkerJobRequest) : PersonalWorkerQueueInput :=
  mkQueueInput 1 1700000 (ProfileObserved ProfileWork) (ActivityObserved 1000000) jobs [] None.

Definition sample_idle_decision (jobs : list PersonalWorkerJobRequest)
    : PersonalWorkerQueueDecision :=
  match evaluate_personal_worker_queue (sample_idle_queue jobs) None with
  | Ok d => d
  | _ => sample_decision
  end.

Definition sample_host_capacity : HostCapacityObservation :=
  mkHostCapacity 1700000 (mkLimits 16000 68719476736 4096).

Definition sample_tick_policy : PersonalWorkerTickPolicy :=
  mkTickPolicy (mkBrokerPolicy 1 60000 60000) 60000 60000.

Definition sample_tick_input (jobs : list PersonalWorkerJobRequest) : PersonalWorkerTickInput :=
  {| pti_store_revision := 5;
     pti_decision_at := 1700001;
     pti_queue := sample_idle_decision jobs;
     pti_lifecycle_policy := sample_lima_policy;
     pti_lifecycle := Some sample_lima_running;
     pti_runner := Some (mkRunnerObservation "glaeda-worker" 7 1700000 RunnerIdleReady);
     pti_capacity := Some sample_host_capacity;
     pti_availability_request := RequestActive;
     pti_availability := Some (mkAvailability ModeActive PowerRunning JobIdle ObservationFresh
                                 HostAc PressureNormal false) |}.

Definition sample_job_selection : PersonalWorkerSelection := selection_of 1700000 job_b.

Lemma sample_cooperative :
  cooperative sample_tick_policy (sample_tick_input [job_b]) sample_job_selection
    sample_lima_running sample_host_capacity.
Proof.
  constructor; try reflexivity; try discriminate.
  - by split; apply N.leb_le.
  - by split; apply N.leb_le.
  - by split; apply N.leb_le.
  - apply lima_valid_shape, sample_lima_valid.
  - split; [by apply N.leb_le|by apply N.ltb_lt].
  - eexists. split; [reflexivity|]. split_and!; try reflexivity; by split; apply N.leb_le.
  - by split; apply N.leb_le.
  - by split; apply N.leb_le.
  - left. reflexivity.
  - eexists. split; [reflexivity|]. by split_and!.
Qed.


(** Two light jobs are both selected on the same machine, and the tick stops. *)
Lemma two_selected_blocked_witness :
  length (qd_selected (sample_idle_decision [job_b; job_c])) = 2%nat
  ∧ is_consequential (TickBlocked ConcurrencyLimit) = false.
Proof.
  split; [vm_compute; reflexivity|].
  apply (two_selected_blocked sample_tick_policy (sample_tick_input [job_b; job_c])
           (tick_plan (sample_tick_input [job_b; job_c]) (TickBlocked ConcurrencyLimit))).
  - apply Nat.leb_le. vm_compute. reflexivity.
  - vm_compute. reflexivity.
Defined.

Lemma tick_authority_witness :
  tick_authorised sample_tick_policy (sample_tick_input [job_b])
    (TickRunJob (JobReserve sample_job_selection sample_host_capacity)).
Proof.
  apply (tick_authority 60000 60000 60000 sample_tick_policy (sample_tick_input [job_b])
           (tick_plan (sample_tick_input [job_b])
              (TickRunJob (JobReserve sample_job_selection sample_host_capacity)))).
  - vm_compute. reflexivity.
  - vm_compute. reflexivity.
Defined.
