(* ===== verification/TemplateGeneration.v ===== *)
(** * The generation of a source template

    [src/src/disposable_template_generation.rs]: the durable record of how the
    one source template of the disposable workers is created, verified, stopped
    or discarded, the decision about its next step from an observation, and the
    codec of the record.  [serde_json] is a parameter ([GenerationSerde]). *)

From S2P Require Import Prelude Artifact ScaleSetProtocol AttemptCatalog AttemptCodec.

Local Open Scope N_scope.

Definition DISPOSABLE_TEMPLATE_GENERATION_SCHEMA_VERSION : N := 1.
Definition MAX_DISPOSABLE_TEMPLATE_GENERATION_BYTES : N := 16384.
Definition MAX_GENERATION_ID_BYTES : N := 64.
Definition MAX_TRANSITIONS : nat := 8.
Definition MAX_INSTANCE_NAME_BYTES : N := 64.

Notation DisposableTemplateGenerationId := string (only parsing).
Notation DisposableTemplateSourceIdentity := string (only parsing).
Notation DisposableTemplateObjectIdentity := string (only parsing).
Notation LimaInstanceName := string (only parsing).

(** ** Errors *)

Inductive DisposableTemplateGenerationErrorKind :=
| TgVersionIncompatible
| TgInvalidDocument
| TgNonCanonical
| TgStaleRevision
| TgInvalidTransition
| TgRevisionExhausted.

#[export] Instance template_error_kind_eq_dec : EqDecision DisposableTemplateGenerationErrorKind.
Proof. solve_decision. Defined.

Record DisposableTemplateGenerationError := mkTemplateError {
  tge_kind : DisposableTemplateGenerationErrorKind;
  tge_code : string;
  tge_message : string;
}.

Definition generation_error (kind : DisposableTemplateGenerationErrorKind) (message : string)
    : DisposableTemplateGenerationError :=
  mkTemplateError kind
    match kind with
    | TgVersionIncompatible => "template_generation_version_incompatible"
    | TgInvalidDocument => "template_generation_invalid"
    | TgNonCanonical => "template_generation_noncanonical"
    | TgStaleRevision => "template_generation_stale_revision"
    | TgInvalidTransition => "template_generation_invalid_transition"
    | TgRevisionExhausted => "template_generation_revision_exhausted"
    end message.

Definition template_invalid_document : DisposableTemplateGenerationError :=
  generation_error TgInvalidDocument "template generation document is invalid".

(** ** Identities *)

(** [value.contains(c c)] for a doubled ASCII byte. *)
Fixpoint contains_doubled (c : ascii) (s : string) : bool :=
  match s with
  | String a ((String b _) as rest) => (Ascii.eqb a c && Ascii.eqb b c) || contains_doubled c rest
  | _ => false
  end.

Definition DisposableTemplateGenerationId_parse (value : string)
    : result DisposableTemplateGenerationError DisposableTemplateGenerationId :=
  if negb (str_is_empty value)
     && (str_len value <=? MAX_GENERATION_ID_BYTES)
     && negb (starts_with "-"%char value)
     && negb (ends_with "-"%char value)
     && negb (contains_doubled "-"%char value)
     && bytes_all (λ byte, is_ascii_lowercase byte || is_ascii_digit byte
                           || Ascii.eqb byte "-"%char) value
  then Ok value
  else Err (generation_error TgInvalidDocument "template generation identifier is invalid").

Definition DisposableTemplateSourceIdentity_parse (value : string)
    : result DisposableTemplateGenerationError DisposableTemplateSourceIdentity :=
  map_err (λ _, generation_error TgInvalidDocument "template source identity is invalid")
    (Sha256Digest_parse value).

Definition DisposableTemplateObjectIdentity_parse (value : string)
    : result DisposableTemplateGenerationError DisposableTemplateObjectIdentity :=
  map_err (λ _, template_invalid_document) (Sha256Digest_parse value).

(** [LimaInstanceName::parse]; its callers map the error away. *)
Definition valid_instance_name (value : string) : bool :=
  match value with
  | EmptyString => false
  | String first _ =>
      (str_len value <=? MAX_INSTANCE_NAME_BYTES)
      && is_ascii_alphanumeric first
      && bytes_all (λ byte, is_ascii_alphanumeric byte || is_identifier_punctuation byte) value
  end.

Definition LimaInstanceName_parse (value : string) : result unit LimaInstanceName :=
  if negb (valid_instance_name value) then Err () else Ok value.

(** ** The record *)

Inductive DisposableTemplateGenerationPhase :=
| TgPending
| TgCreateAuthorized
| TgCreateStarted
| TgVerified
| TgStopAuthorized
| TgStopStarted
| TgDiscardAuthorized
| TgDiscardStarted
| TgReady
| TgDiscarded.

#[export] Instance template_phase_eq_dec : EqDecision DisposableTemplateGenerationPhase.
Proof. solve_decision. Defined.

Inductive DisposableTemplateGenerationAction :=
| AuthorizeCreate
| RecordCreateStarted
| RecordVerified
| AuthorizeStop
| RecordStopStarted
| AuthorizeDiscard
| RecordDiscardStarted
| RecordReady
| RecordDiscarded.

#[export] Instance template_action_eq_dec : EqDecision DisposableTemplateGenerationAction.
Proof. solve_decision. Defined.

Record DisposableTemplateGenerationDocument := mkGeneration {
  tg_generation_id : DisposableTemplateGenerationId;
  tg_revision : N;
  tg_prepared_template_identity : DisposablePreparedTemplateIdentity;
  tg_source_identity : DisposableTemplateSourceIdentity;
  tg_source_instance : LimaInstanceName;
  tg_owned_object_identity : option DisposableTemplateObjectIdentity;
  tg_phase : DisposableTemplateGenerationPhase;
  tg_history : list DisposableTemplateGenerationAction;
}.

#[export] Instance generation_eq_dec : EqDecision DisposableTemplateGenerationDocument.
Proof. solve_decision. Defined.

Definition generation_initial (generation_id : DisposableTemplateGenerationId)
    (prepared_template_identity : DisposablePreparedTemplateIdentity)
    (source_identity : DisposableTemplateSourceIdentity) (source_instance : LimaInstanceName)
    : DisposableTemplateGenerationDocument :=
  mkGeneration generation_id 1 prepared_template_identity source_identity source_instance None
    TgPending [].

Definition next_phase (phase : DisposableTemplateGenerationPhase)
    (action : DisposableTemplateGenerationAction) : option DisposableTemplateGenerationPhase :=
  match phase, action with
  | TgPending, AuthorizeCreate => Some TgCreateAuthorized
  | TgCreateAuthorized, RecordCreateStarted => Some TgCreateStarted
  | TgCreateStarted, RecordVerified => Some TgVerified
  | (TgCreateStarted | TgVerified), AuthorizeDiscard => Some TgDiscardAuthorized
  | TgVerified, AuthorizeStop => Some TgStopAuthorized
  | TgStopAuthorized, RecordStopStarted => Some TgStopStarted
  | (TgVerified | TgStopAuthorized | TgStopStarted), RecordReady => Some TgReady
  | TgDiscardAuthorized, RecordDiscardStarted => Some TgDiscardStarted
  | (TgDiscardAuthorized | TgDiscardStarted), RecordDiscarded => Some TgDiscarded
  | _, _ => None
  end.

(** [matches!(action, RecordVerified | AuthorizeDiscard)]. *)
Definition may_bind_object (action : DisposableTemplateGenerationAction) : bool :=
  match action with
  | RecordVerified | AuthorizeDiscard => true
  | _ => false
  end.

(** The object the successor owns. *)
Definition next_object (owned observed : option DisposableTemplateObjectIdentity)
    (action : DisposableTemplateGenerationAction)
    : result DisposableTemplateGenerationError (option DisposableTemplateObjectIdentity) :=
  match owned, observed with
  | Some expected, Some actual =>
      if bool_decide (expected = actual) then Ok owned else Err template_invalid_document
  | Some _, None => Ok owned
  | None, Some actual =>
      if may_bind_object action then Ok (Some actual) else Err template_invalid_document
  | None, None =>
      if bool_decide (action = AuthorizeDiscard) then Ok None
      else if bool_decide (action ≠ RecordVerified) then Ok None
      else Err template_invalid_document
  end.

Definition generation_transition (self : DisposableTemplateGenerationDocument)
    (expected_revision : N) (action : DisposableTemplateGenerationAction)
    (observed_object_identity : option DisposableTemplateObjectIdentity)
    : result DisposableTemplateGenerationError DisposableTemplateGenerationDocument :=
  if negb (expected_revision =? tg_revision self)
  then Err (generation_error TgStaleRevision "template generation revision is stale")
  else
    phase ← ok_or (next_phase (tg_phase self) action)
      (generation_error TgInvalidTransition "template generation transition is invalid");
    if (MAX_TRANSITIONS <=? length (tg_history self))%nat
    then Err (generation_error TgRevisionExhausted "template generation history is exhausted")
    else
      revision ← ok_or (checked_add u64_max (tg_revision self) 1)
        (generation_error TgRevisionExhausted "template generation revision is exhausted");
      object ← next_object (tg_owned_object_identity self) observed_object_identity action;
      Ok (mkGeneration (tg_generation_id self) revision (tg_prepared_template_identity self)
            (tg_source_identity self) (tg_source_instance self) object phase
            (tg_history self ++ [action])).

Definition object_identity_successor_is_valid (next prior : DisposableTemplateGenerationDocument)
    : bool :=
  match tg_owned_object_identity prior, tg_owned_object_identity next with
  | Some expected, Some actual => bool_decide (expected = actual)
  | Some _, None => false
  | None, Some _ => is_some_and may_bind_object (list.last (tg_history next))
  | None, None => negb (bool_decide (list.last (tg_history next) = Some RecordVerified))
  end.

Definition generation_validate_successor_of (self prior : DisposableTemplateGenerationDocument)
    : result DisposableTemplateGenerationError () :=
  if bool_decide (tg_generation_id self = tg_generation_id prior)
     && bool_decide (tg_prepared_template_identity self = tg_prepared_template_identity prior)
     && bool_decide (tg_source_identity self = tg_source_identity prior)
     && bool_decide (tg_source_instance self = tg_source_instance prior)
     && object_identity_successor_is_valid self prior
     && (tg_revision self =? default 0 (checked_add u64_max (tg_revision prior) 1))
     && (length (tg_history self) =? length (tg_history prior) + 1)%nat
     && bool_decide (tg_history prior `prefix_of` tg_history self)
     && bool_decide ((list.last (tg_history self) ≫= next_phase (tg_phase prior))
                     = Some (tg_phase self))
  then Ok ()
  else Err (generation_error TgInvalidTransition "template generation successor is invalid").

(** ** Deciding the next step *)

Inductive DisposableTemplateObservedState :=
| TemplateUnknown
| TemplateAbsent
| TemplateOwnedIncomplete
| TemplateReadyRunning
| TemplateReadyStopped
| TemplateConflicting.

#[export] Instance template_observed_eq_dec : EqDecision DisposableTemplateObservedState.
Proof. solve_decision. Defined.

Inductive DisposableTemplatePriorOperationState :=
| NoPriorOperation
| OperationInFlight
| OperationQuiescent.

#[export] Instance template_prior_eq_dec : EqDecision DisposableTemplatePriorOperationState.
Proof. solve_decision. Defined.

Record DisposableTemplateObservation := mkTemplateObservation {
  tob_generation_id : DisposableTemplateGenerationId;
  tob_document_revision : N;
  tob_source_identity : DisposableTemplateSourceIdentity;
  tob_object_identity : option DisposableTemplateObjectIdentity;
  tob_prepared_template_identity : option DisposablePreparedTemplateIdentity;
  tob_prior_operation : DisposableTemplatePriorOperationState;
  tob_state : DisposableTemplateObservedState;
}.

Definition runtime_disposable_template_observation (document : DisposableTemplateGenerationDocument)
    (source_identity : DisposableTemplateSourceIdentity)
    (object_identity : option DisposableTemplateObjectIdentity)
    (prepared_template_identity : option DisposablePreparedTemplateIdentity)
    (prior_operation : DisposableTemplatePriorOperationState)
    (state : DisposableTemplateObservedState) : DisposableTemplateObservation :=
  mkTemplateObservation (tg_generation_id document) (tg_revision document) source_identity
    object_identity prepared_template_identity prior_operation state.

Inductive DisposableTemplateGenerationRefusal :=
| TemplateObservationRequired
| TemplateStaleObservation
| ExistingSourceProtected
| SourceIdentityDrift
| ObjectIdentityDrift
| PreparedTemplateDrift
| TemplateRecoveryRequired.

Inductive DisposableTemplateGenerationDisposition :=
| TemplatePersist (action : DisposableTemplateGenerationAction)
| CreateCandidate
| StopCandidate
| DiscardCandidate
| TemplateSatisfied
| RebuildRequired
| TemplateRefuse (reason : DisposableTemplateGenerationRefusal).

Record DisposableTemplateGenerationPlan := mkTemplatePlan {
  tp_generation_id : DisposableTemplateGenerationId;
  tp_expected_revision : N;
  tp_prepared_template_identity : DisposablePreparedTemplateIdentity;
  tp_source_identity : DisposableTemplateSourceIdentity;
  tp_source_instance : LimaInstanceName;
  tp_observed_object_identity : option DisposableTemplateObjectIdentity;
  tp_observed_prepared_template_identity : option DisposablePreparedTemplateIdentity;
  tp_observed_state : DisposableTemplateObservedState;
  tp_prior_operation : DisposableTemplatePriorOperationState;
  tp_disposition : DisposableTemplateGenerationDisposition;
}.

Definition template_plan (document : DisposableTemplateGenerationDocument)
    (observation : DisposableTemplateObservation)
    (disposition : DisposableTemplateGenerationDisposition) : DisposableTemplateGenerationPlan :=
  mkTemplatePlan (tg_generation_id document) (tg_revision document)
    (tg_prepared_template_identity document) (tg_source_identity document)
    (tg_source_instance document) (tob_object_identity observation)
    (tob_prepared_template_identity observation) (tob_state observation)
    (tob_prior_operation observation) disposition.

Definition is_bound_to_document (self : DisposableTemplateGenerationPlan)
    (document : DisposableTemplateGenerationDocument) : bool :=
  bool_decide (tp_generation_id self = tg_generation_id document)
  && (tp_expected_revision self =? tg_revision document)
  && bool_decide (tp_prepared_template_identity self = tg_prepared_template_identity document)
  && bool_decide (tp_source_identity self = tg_source_identity document)
  && bool_decide (tp_source_instance self = tg_source_instance document).

Definition confirmation_matches (self : DisposableTemplateGenerationPlan)
    (document : DisposableTemplateGenerationDocument)
    (confirmation : DisposableTemplateObservation) : bool :=
  is_bound_to_document self document
  && bool_decide (tob_generation_id confirmation = tp_generation_id self)
  && (tob_document_revision confirmation =? tp_expected_revision self)
  && bool_decide (tob_source_identity confirmation = tp_source_identity self)
  && bool_decide (tob_object_identity confirmation = tp_observed_object_identity self)
  && bool_decide (tob_prepared_template_identity confirmation
                  = tp_observed_prepared_template_identity self)
  && bool_decide (tob_state confirmation = tp_observed_state self)
  && bool_decide (tob_prior_operation confirmation = tp_prior_operation self).

Definition confirmed_persist_successor (self : DisposableTemplateGenerationPlan)
    (document : DisposableTemplateGenerationDocument)
    (confirmation : DisposableTemplateObservation)
    : result DisposableTemplateGenerationError DisposableTemplateGenerationDocument :=
  match tp_disposition self with
  | TemplatePersist action =>
      if negb (confirmation_matches self document confirmation)
      then Err (generation_error TgStaleRevision
             "template generation confirmation no longer matches the advisory decision")
      else generation_transition document (tp_expected_revision self) action
             (tob_object_identity confirmation)
  | _ => Err (generation_error TgInvalidTransition
           "template generation candidate requires the runtime execution service")
  end.

(** The checkpoint a command candidate writes before its command runs. *)
Definition started_action (disposition : DisposableTemplateGenerationDisposition)
    : option DisposableTemplateGenerationAction :=
  match disposition with
  | CreateCandidate => Some RecordCreateStarted
  | StopCandidate => Some RecordStopStarted
  | DiscardCandidate => Some RecordDiscardStarted
  | _ => None
  end.

Definition confirmed_runtime_successor (self : DisposableTemplateGenerationPlan)
    (document : DisposableTemplateGenerationDocument)
    (confirmation : DisposableTemplateObservation)
    : result DisposableTemplateGenerationError DisposableTemplateGenerationDocument :=
  match started_action (tp_disposition self) with
  | Some action =>
      if negb (confirmation_matches self document confirmation)
      then Err (generation_error TgStaleRevision
             "template generation confirmation no longer matches the runtime decision")
      else generation_transition document (tp_expected_revision self) action
             (tob_object_identity confirmation)
  | None => Err (generation_error TgInvalidTransition
              "template generation plan is not runtime command authority")
  end.

(** [matches!(state, ReadyRunning | ReadyStopped)]. *)
Definition is_ready_state (state : DisposableTemplateObservedState) : bool :=
  match state with
  | TemplateReadyRunning | TemplateReadyStopped => true
  | _ => false
  end.

(** A source that is ready with another prepared template. *)
Definition drifted_disposition (phase : DisposableTemplateGenerationPhase)
    (prior_operation : DisposableTemplatePriorOperationState)
    : DisposableTemplateGenerationDisposition :=
  match phase, prior_operation with
  | TgCreateStarted, OperationQuiescent => TemplatePersist AuthorizeDiscard
  | TgVerified, _ => TemplatePersist AuthorizeDiscard
  | TgDiscardAuthorized, NoPriorOperation => DiscardCandidate
  | _, _ => TemplateRefuse PreparedTemplateDrift
  end.

(** The table of phases and observed states; a ready source is one for the
    document. *)
Definition phase_disposition (phase : DisposableTemplateGenerationPhase)
    (state : DisposableTemplateObservedState)
    (prior_operation : DisposableTemplatePriorOperationState)
    : DisposableTemplateGenerationDisposition :=
  match phase, state with
  | TgPending, TemplateAbsent => TemplatePersist AuthorizeCreate
  | TgPending, _ => TemplateRefuse ExistingSourceProtected
  | TgCreateAuthorized, TemplateAbsent =>
      if bool_decide (prior_operation = NoPriorOperation) then CreateCandidate
      else TemplateRefuse TemplateRecoveryRequired
  | TgCreateAuthorized, _ => TemplateRefuse TemplateRecoveryRequired
  | TgCreateStarted, (TemplateAbsent | TemplateOwnedIncomplete) =>
      if bool_decide (prior_operation = OperationQuiescent) then TemplatePersist AuthorizeDiscard
      else TemplateRefuse TemplateRecoveryRequired
  | TgCreateStarted, (TemplateReadyRunning | TemplateReadyStopped) =>
      if bool_decide (prior_operation = OperationQuiescent) then TemplatePersist RecordVerified
      else TemplateRefuse TemplateRecoveryRequired
  | TgCreateStarted, _ => TemplateRefuse TemplateRecoveryRequired
  | TgVerified, TemplateReadyRunning => TemplatePersist AuthorizeStop
  | TgVerified, TemplateReadyStopped => TemplatePersist RecordReady
  | TgVerified, TemplateOwnedIncomplete => TemplatePersist AuthorizeDiscard
  | TgVerified, _ => TemplateRefuse TemplateRecoveryRequired
  | TgStopAuthorized, TemplateReadyRunning =>
      if bool_decide (prior_operation = NoPriorOperation) then StopCandidate
      else TemplateRefuse TemplateRecoveryRequired
  | TgStopAuthorized, TemplateReadyStopped => TemplatePersist RecordReady
  | TgStopAuthorized, _ => TemplateRefuse TemplateRecoveryRequired
  | TgStopStarted, TemplateReadyStopped =>
      if bool_decide (prior_operation = OperationQuiescent) then TemplatePersist RecordReady
      else TemplateRefuse TemplateRecoveryRequired
  | TgStopStarted, _ => TemplateRefuse TemplateRecoveryRequired
  | TgDiscardAuthorized, TemplateAbsent => TemplatePersist RecordDiscarded
  | TgDiscardAuthorized, (TemplateOwnedIncomplete | TemplateReadyRunning | TemplateReadyStopped) =>
      if bool_decide (prior_operation = NoPriorOperation) then DiscardCandidate
      else TemplateRefuse TemplateRecoveryRequired
  | TgDiscardAuthorized, _ => TemplateRefuse TemplateRecoveryRequired
  | TgDiscardStarted, TemplateAbsent =>
      if bool_decide (prior_operation = OperationQuiescent) then TemplatePersist RecordDiscarded
      else TemplateRefuse TemplateRecoveryRequired
  | TgDiscardStarted, _ => TemplateRefuse TemplateRecoveryRequired
  | TgReady, TemplateReadyStopped => TemplateSatisfied
  | TgReady, _ => TemplateRefuse TemplateRecoveryRequired
  | TgDiscarded, TemplateAbsent => RebuildRequired
  | TgDiscarded, _ => TemplateRefuse TemplateRecoveryRequired
  end.

Definition template_disposition (document : DisposableTemplateGenerationDocument)
    (observation : DisposableTemplateObservation) : DisposableTemplateGenerationDisposition :=
  if bool_decide (tob_source_identity observation ≠ tg_source_identity document)
  then TemplateRefuse SourceIdentityDrift
  else if bool_decide (tob_generation_id observation ≠ tg_generation_id document)
          || negb (tob_document_revision observation =? tg_revision document)
  then TemplateRefuse TemplateStaleObservation
  else if bool_decide (tob_state observation = TemplateUnknown)
  then TemplateRefuse TemplateObservationRequired
  else if match tg_owned_object_identity document, tob_object_identity observation with
          | Some expected, Some actual => bool_decide (expected ≠ actual)
          | _, _ => false
          end
  then TemplateRefuse ObjectIdentityDrift
  else if is_ready_state (tob_state observation)
          && negb (bool_decide (tob_prepared_template_identity observation
                                = Some (tg_prepared_template_identity document)))
  then drifted_disposition (tg_phase document) (tob_prior_operation observation)
  else phase_disposition (tg_phase document) (tob_state observation)
         (tob_prior_operation observation).

Definition reconcile_disposable_template_generation
    (document : DisposableTemplateGenerationDocument)
    (observation : DisposableTemplateObservation) : DisposableTemplateGenerationPlan :=
  template_plan document observation (template_disposition document observation).

(** ** Codec *)

Record GenerationWire := mkGenerationWire {
  gw_schema_version : N;
  gw_generation_id : string;
  gw_revision : N;
  gw_prepared_template_identity : string;
  gw_source_identity : string;
  gw_source_instance : string;
  gw_owned_object_identity : option string;
  gw_phase : DisposableTemplateGenerationPhase;
  gw_history : list DisposableTemplateGenerationAction;
}.

(** [serde_json] on the wire struct and on its version. *)
Class GenerationSerde := {
  generation_to_vec_pretty : GenerationWire → option bytes;
  generation_from_slice : bytes → option GenerationWire;
  generation_version_from_slice : bytes → option N;
}.

Section codec.
Context `{GSERDE : GenerationSerde}.

Definition generation_wire (document : DisposableTemplateGenerationDocument) : GenerationWire :=
  mkGenerationWire DISPOSABLE_TEMPLATE_GENERATION_SCHEMA_VERSION (tg_generation_id document)
    (tg_revision document) (tg_prepared_template_identity document)
    (tg_source_identity document) (tg_source_instance document)
    (tg_owned_object_identity document) (tg_phase document) (tg_history document).

Definition encode_disposable_template_generation (document : DisposableTemplateGenerationDocument)
    : result DisposableTemplateGenerationError bytes :=
  encoded ← ok_or (generation_to_vec_pretty (generation_wire document)) template_invalid_document;
  Ok (encoded ++ ["010"%char]).

(** One action of the history, replayed with the object the document owns. *)
Definition replay_action (owned : option DisposableTemplateObjectIdentity)
    (document : DisposableTemplateGenerationDocument) (action : DisposableTemplateGenerationAction)
    : result DisposableTemplateGenerationError DisposableTemplateGenerationDocument :=
  let binds_object := negb (is_some (tg_owned_object_identity document))
                      && may_bind_object action in
  map_err (λ _, template_invalid_document)
    (generation_transition document (tg_revision document) action
       (if binds_object then owned else None)).

Definition generation_of_wire (wire : GenerationWire)
    : result DisposableTemplateGenerationError DisposableTemplateGenerationDocument :=
  if (MAX_TRANSITIONS <? length (gw_history wire))%nat || (gw_revision wire =? 0)
  then Err template_invalid_document
  else
    generation_id ← DisposableTemplateGenerationId_parse (gw_generation_id wire);
    prepared_template_identity ← map_err (λ _, template_invalid_document)
      (PreparedTemplateIdentity_parse (gw_prepared_template_identity wire));
    source_identity ← DisposableTemplateSourceIdentity_parse (gw_source_identity wire);
    source_instance ← map_err (λ _, template_invalid_document)
      (LimaInstanceName_parse (gw_source_instance wire));
    owned ← traverse_option DisposableTemplateObjectIdentity_parse (gw_owned_object_identity wire);
    document ← fold_result (replay_action owned)
      (generation_initial generation_id prepared_template_identity source_identity source_instance)
      (gw_history wire);
    if negb (tg_revision document =? gw_revision wire)
       || bool_decide (tg_phase document ≠ gw_phase wire)
       || bool_decide (tg_owned_object_identity document ≠ owned)
    then Err template_invalid_document
    else Ok document.

Definition decode_disposable_template_generation (b : bytes)
    : result DisposableTemplateGenerationError DisposableTemplateGenerationDocument :=
  if MAX_DISPOSABLE_TEMPLATE_GENERATION_BYTES <? len b then Err template_invalid_document
  else
    version ← ok_or (generation_version_from_slice b) template_invalid_document;
    if negb (version =? DISPOSABLE_TEMPLATE_GENERATION_SCHEMA_VERSION)
    then Err (generation_error TgVersionIncompatible
           "template generation schema version is unsupported")
    else
      wire ← ok_or (generation_from_slice b) template_invalid_document;
      document ← generation_of_wire wire;
      encoded ← encode_disposable_template_generation document;
      if bool_decide (encoded ≠ b)
      then Err (generation_error TgNonCanonical
             "template generation document is not canonically encoded")
      else Ok document.
End codec.
