(* ===== verification/TemplateTheorems.v ===== *)
(** * What the record of a source template guarantees

    Chains of transitions of a generation: identities stay, every step is taken
    at most once and at most six are, the owned object is bound once; the
    store's successor test accepts exactly the transitions; a decision that is
    confirmed by the observation it was made from applies; and texts and
    records determine each other. *)

From S2P Require Import Prelude Artifact ScaleSetProtocol AttemptCatalog AttemptCodec CatalogCodec TemplateGeneration.

Local Open Scope N_scope.

(** ** Chains *)

Definition generation_step (d d' : DisposableTemplateGenerationDocument) : Prop :=
  ∃ revision action observed, generation_transition d revision action observed = Ok d'.

(** What one transition does. *)
Record transition_facts (d : DisposableTemplateGenerationDocument)
    (action : DisposableTemplateGenerationAction)
    (d' : DisposableTemplateGenerationDocument) : Prop := {
  tf_id : tg_generation_id d' = tg_generation_id d;
  tf_template : tg_prepared_template_identity d' = tg_prepared_template_identity d;
  tf_source : tg_source_identity d' = tg_source_identity d;
  tf_instance : tg_source_instance d' = tg_source_instance d;
  tf_revision : tg_revision d' = tg_revision d + 1;
  tf_bound : tg_revision d' ≤ u64_max;
  tf_phase : next_phase (tg_phase d) action = Some (tg_phase d');
  tf_history : tg_history d' = tg_history d ++ [action];
  tf_room : (length (tg_history d) < MAX_TRANSITIONS)%nat;
}.

Lemma transition_Ok d revision action observed d' :
  generation_transition d revision action observed = Ok d' ↔
  revision = tg_revision d ∧ transition_facts d action d' ∧
  next_object (tg_owned_object_identity d) observed action = Ok (tg_owned_object_identity d').
Proof.
  unfold generation_transition. split.
  - intros H. inv_ok H. injection H as <-. inv_opts. bprop. apply Nat.leb_gt in Heqb0.
    apply checked_add_Some in Hy0 as [-> ?]. split; [done|]. split; [by split|done].
  - intros (-> & [H1 H2 H3 H4 H5 H6 H7 H8 H9] & Ho). rewrite N.eqb_refl, H7. rsimpl.
    cbn [negb]. rewrite (proj2 (Nat.leb_gt _ _) H9).
    rewrite (proj2 (checked_add_Some u64_max _ _ (tg_revision d'))) by (rewrite H5 in *; done). rsimpl.
    rewrite Ho. rsimpl. destruct d'; simpl in *. by subst.
Qed.

Lemma next_object_Ok owned observed action o :
  next_object owned observed action = Ok o →
  (∀ x, owned = Some x → o = Some x) ∧ (owned = None → o = observed) ∧
  (owned = None → is_Some o → may_bind_object action = true) ∧
  (action = RecordVerified → is_Some o).
Proof.
  unfold next_object. destruct owned as [x|], observed as [y|]; intros H; inv_ok H; simplify_eq; bprop;
    split_and!; naive_solver.
Qed.

(** The phase a history leads to. *)
Definition phase_after (history : list DisposableTemplateGenerationAction)
    : option DisposableTemplateGenerationPhase :=
  foldl (λ phase action, phase ≫= λ p, next_phase p action) (Some TgPending) history.

(** How far a phase is from the start. *)
Definition phase_depth (phase : DisposableTemplateGenerationPhase) : nat :=
  match phase with
  | TgPending => 0
  | TgCreateAuthorized => 1
  | TgCreateStarted => 2
  | TgVerified => 3
  | TgStopAuthorized | TgDiscardAuthorized => 4
  | TgStopStarted | TgDiscardStarted => 5
  | TgReady | TgDiscarded => 6
  end.

(** The depth at which an action is taken. *)
Definition action_depth (action : DisposableTemplateGenerationAction) : nat :=
  match action with
  | AuthorizeCreate => 0
  | RecordCreateStarted => 1
  | RecordVerified => 2
  | AuthorizeStop | AuthorizeDiscard => 3
  | RecordStopStarted | RecordDiscardStarted => 4
  | RecordReady | RecordDiscarded => 5
  end.

Lemma next_phase_depth phase action phase' :
  next_phase phase action = Some phase' →
  (phase_depth phase ≤ action_depth action < phase_depth phase')%nat.
Proof. destruct phase, action; intros [= <-]; simpl; lia. Qed.

(** Phases in which the record has to know the object it owns. *)
Definition owns_object (phase : DisposableTemplateGenerationPhase) : bool :=
  match phase with
  | TgVerified | TgStopAuthorized | TgStopStarted | TgReady => true
  | _ => false
  end.

Lemma next_phase_owns phase action phase' :
  next_phase phase action = Some phase' → owns_object phase' = true →
  owns_object phase = true ∨ action = RecordVerified.
Proof. destruct phase, action; intros [= <-]; naive_solver. Qed.

Lemma next_phase_unbound phase action phase' :
  next_phase phase action = Some phase' → may_bind_object action = true → (2 ≤ phase_depth phase)%nat.
Proof. destruct phase, action; intros [= <-]; simpl; lia. Qed.

(** Phases of a template that is given up. *)
Definition discarding (phase : DisposableTemplateGenerationPhase) : bool :=
  match phase with
  | TgDiscardAuthorized | TgDiscardStarted | TgDiscarded => true
  | _ => false
  end.

Lemma next_phase_discarding phase action phase' :
  next_phase phase action = Some phase' →
  (discarding phase = true → discarding phase' = true ∧ may_bind_object action = false) ∧
  (action = AuthorizeDiscard → discarding phase' = true).
Proof. destruct phase, action; intros [= <-]; naive_solver. Qed.

(** What is true of every generation. *)
Record generation_ok (d : DisposableTemplateGenerationDocument) : Prop := {
  go_phase : phase_after (tg_history d) = Some (tg_phase d);
  go_revision : tg_revision d = 1 + N.of_nat (length (tg_history d));
  go_short : (length (tg_history d) ≤ phase_depth (tg_phase d))%nat;
  go_depths : ∀ action, action ∈ tg_history d → (action_depth action < phase_depth (tg_phase d))%nat;
  go_once : NoDup (action_depth <$> tg_history d);
  go_object : owns_object (tg_phase d) = true → is_Some (tg_owned_object_identity d);
  go_unbound : is_Some (tg_owned_object_identity d) →
    ∃ action, action ∈ tg_history d ∧ may_bind_object action = true;
  go_given_up action : tg_owned_object_identity d = None → action ∈ tg_history d →
    may_bind_object action = true → discarding (tg_phase d) = true;
}.

Lemma initial_ok id template source instance : generation_ok (generation_initial id template source instance).
Proof. split; simpl; try done; [by intros ? ?%elem_of_nil|apply NoDup_nil_2|by intros ? _ ?%elem_of_nil]. Qed.

Lemma step_ok d action observed d' :
  generation_ok d → generation_transition d (tg_revision d) action observed = Ok d' → generation_ok d'.
Proof.
  intros [Hph Hrev Hsh Hdep Hnd Hobj Hun Hgive] (_ & [_ _ _ _ Hr _ Hn Hh _] & Ho)%transition_Ok.
  pose proof (next_phase_depth _ _ _ Hn) as [H1 H2]. apply next_object_Ok in Ho as (Ho1 & Ho2 & Ho3 & Ho4).
  split; rewrite ?Hh, ?length_app, ?fmap_app; simpl.
  - unfold phase_after in *. rewrite foldl_app, Hph. done.
  - lia.
  - lia.
  - intros a [Ha|Ha%list_elem_of_singleton]%elem_of_app; [|by subst]. specialize (Hdep a Ha). lia.
  - apply NoDup_app. split; [done|]. split; [|apply NoDup_singleton].
    intros x (a & -> & Ha)%list_elem_of_fmap Heq%list_elem_of_singleton. specialize (Hdep a Ha). lia.
  - intros Hown. destruct (next_phase_owns _ _ _ Hn Hown) as [Hp| ->]; [|by apply Ho4].
    destruct (Hobj Hp) as [x Hx]. exists x. by apply Ho1.
  - intros Hs. destruct (tg_owned_object_identity d) as [x|] eqn:E.
    + destruct Hun as (a & Ha & Hb); [by exists x|]. exists a. set_solver.
    + exists action. split; [set_solver|]. by apply Ho3.
  - destruct (next_phase_discarding _ _ _ Hn) as [Hd1 Hd2].
    assert (tg_owned_object_identity d' = None → tg_owned_object_identity d = None) as Hback.
    { intros Hnone. destruct (tg_owned_object_identity d) as [x|]; [|done]. specialize (Ho1 x eq_refl). congruence. }
    intros a Hnone [Ha|Ha%list_elem_of_singleton]%elem_of_app Hb; [apply Hd1, (Hgive a); auto|].
    subst a. destruct action; try done; [|by apply Hd2]. specialize (Ho4 eq_refl). rewrite Hnone in Ho4. by destruct Ho4.
Qed.

(** The bytes of a generation are few enough to count its steps. *)
Lemma chain_ok d0 d : generation_ok d0 → rtc generation_step d0 d → generation_ok d.
Proof.
  intros H0 Hr. induction Hr as [|d0 d1 d2 (r & a & o & Ht) _ IH]; [done|]. apply IH.
  pose proof Ht as (-> & _)%transition_Ok. by eapply step_ok.
Qed.

Lemma generation_chain_identities d0 d1 :
  rtc generation_step d0 d1 →
  tg_generation_id d1 = tg_generation_id d0 ∧
  tg_prepared_template_identity d1 = tg_prepared_template_identity d0 ∧
  tg_source_identity d1 = tg_source_identity d0 ∧ tg_source_instance d1 = tg_source_instance d0.
Proof.
  induction 1 as [|d0 d1 d2 (r & a & o & (_ & [H1 H2 H3 H4 _ _ _ H8 _] & Ho)%transition_Ok) _ IH]; [done|].
  destruct IH as (-> & -> & -> & ->). done.
Qed.

Lemma generation_chain_grows d0 d1 :
  rtc generation_step d0 d1 →
  tg_history d0 `prefix_of` tg_history d1 ∧
  (∀ x, tg_owned_object_identity d0 = Some x → tg_owned_object_identity d1 = Some x).
Proof.
  induction 1 as [|d0 d1 d2 (r & a & o & (_ & [_ _ _ _ _ _ _ H8 _] & Ho)%transition_Ok) _ [Hp Hx]]; [done|].
  apply next_object_Ok in Ho as (Ho & _). split; [|by eauto]. rewrite H8 in Hp. etrans; [|exact Hp]. by apply prefix_app_r.
Qed.

Lemma depth_bound p : (phase_depth p ≤ 6)%nat.
Proof. destruct p; simpl; lia. Qed.

(** Along every chain of transitions from its creation a generation keeps its
    name, template and source; its phase is the one its history leads to and
    its revision counts that history; no step is taken twice, so that each of
    the commands that create, stop or discard the template is started at most
    once, and at most six steps are taken; and the object it owns, known at the
    latest when the template is verified, is never another one. *)
Theorem generation_chain_invariant (id template source instance : string)
    (d d' : DisposableTemplateGenerationDocument)
    (Hd : rtc generation_step (generation_initial id template source instance) d)
    (Hd' : rtc generation_step d d') :
  tg_generation_id d' = id ∧ tg_prepared_template_identity d' = template ∧
  tg_source_identity d' = source ∧ tg_source_instance d' = instance ∧
  phase_after (tg_history d') = Some (tg_phase d') ∧
  tg_revision d' = 1 + N.of_nat (length (tg_history d')) ∧
  (length (tg_history d') ≤ 6)%nat ∧ NoDup (tg_history d') ∧ tg_history d `prefix_of` tg_history d' ∧
  (owns_object (tg_phase d') = true → is_Some (tg_owned_object_identity d')) ∧
  (∀ x, tg_owned_object_identity d = Some x → tg_owned_object_identity d' = Some x).
Proof.
  assert (rtc generation_step (generation_initial id template source instance) d') as Hall by by etrans.
  pose proof (chain_ok _ _ (initial_ok id template source instance) Hall) as Hok.
  destruct (generation_chain_identities _ _ Hall) as (-> & -> & -> & ->).
  destruct (generation_chain_grows _ _ Hd') as [Hp Hx].
  pose proof (go_short _ Hok) as Hs. pose proof (depth_bound (tg_phase d')).
  split_and!; [done..|apply Hok|apply Hok|lia| |done|apply Hok|done].
  eapply (NoDup_fmap_1 action_depth), Hok.
Qed.

(** ** The successor test *)

Lemma append_one {A} (l l' : list A) :
  length l' = (length l + 1)%nat → l `prefix_of` l' → ∃ a, l' = l ++ [a].
Proof.
  intros Hlen [k ->]. rewrite length_app in Hlen. destruct k as [|a [|b k]]; simpl in Hlen; [lia|by exists a|lia].
Qed.

Lemma reachable_small d : generation_ok d → (length (tg_history d) ≤ 6)%nat ∧ tg_revision d ≤ 7.
Proof. intros Hok. pose proof (go_short _ Hok). pose proof (go_revision _ Hok). pose proof (depth_bound (tg_phase d)). lia. Qed.

Lemma successor_objects d d' action :
  tg_history d' = tg_history d ++ [action] →
  object_identity_successor_is_valid d' d = true ↔
  ∃ observed, next_object (tg_owned_object_identity d) observed action = Ok (tg_owned_object_identity d').
Proof.
  intros Hh. unfold object_identity_successor_is_valid, next_object. rewrite Hh, last_snoc. simpl.
  destruct (tg_owned_object_identity d) as [x|], (tg_owned_object_identity d') as [y|].
  - rewrite bool_decide_eq_true. split; [intros <-; by exists None|].
    intros ([z|] & H); inv_ok H; naive_solver.
  - split; [done|]. intros ([z|] & H); by inv_ok H.
  - split; [intros Hb; exists (Some y); by rewrite Hb|].
    intros ([z|] & H); inv_ok H; naive_solver.
  - rewrite negb_true_iff, bool_decide_eq_false. split.
    + intros Hne. exists None. destruct (bool_decide (action = AuthorizeDiscard)); [done|].
      rewrite bool_decide_true; [done|]. naive_solver.
    + intros ([z|] & H); inv_ok H; bprop; naive_solver.
Qed.

Lemma generation_successor_iff d d' :
  generation_ok d →
  generation_validate_successor_of d' d = Ok () ↔
  ∃ action observed, generation_transition d (tg_revision d) action observed = Ok d'.
Proof.
  intros Hok. destruct (reachable_small d Hok) as [Hlen Hrev].
  assert (checked_add u64_max (tg_revision d) 1 = Some (tg_revision d + 1)) as Hadd.
  { apply checked_add_Some. split; [done|]. unfold u64_max. lia. }
  unfold generation_validate_successor_of. rewrite Hadd. cbn [default]. split.
  - intros H. case_match eqn:E; [|done]. clear H.
    rewrite !andb_true_iff, !bool_decide_eq_true, N.eqb_eq, Nat.eqb_eq in E.
    destruct E as ((((((((E1 & E2) & E3) & E4) & E5) & E6) & E7) & E8) & E9). simpl in E6.
    destruct (append_one _ _ E7 E8) as [action Hh]. rewrite Hh, last_snoc in E9. simpl in E9.
    apply (successor_objects _ _ _ Hh) in E5 as [observed Ho].
    exists action, observed. apply transition_Ok. split; [done|]. split; [|done].
    split; try done; unfold u64_max, MAX_TRANSITIONS; lia.
  - intros (action & observed & (_ & [H1 H2 H3 H4 H5 _ H7 H8 _] & Ho)%transition_Ok).
    rewrite !bool_decide_true; [|by rewrite H8, last_snoc|rewrite H8; by apply prefix_app_r|done..].
    rewrite (proj2 (successor_objects _ _ _ H8)) by eauto. rewrite H5, N.eqb_refl, H8, length_app. simpl.
    by rewrite Nat.eqb_refl.
Qed.

(** ** Decisions *)

(** What an observer reports: an object is named exactly when one is there. *)
Definition coherent (o : DisposableTemplateObservation) : Prop :=
  match tob_state o with
  | TemplateAbsent => tob_object_identity o = None
  | TemplateOwnedIncomplete | TemplateReadyRunning | TemplateReadyStopped => is_Some (tob_object_identity o)
  | _ => True
  end.

(** What a decision that is not a refusal was made from. *)
Record decided (d : DisposableTemplateGenerationDocument) (o : DisposableTemplateObservation)
    (disposition : DisposableTemplateGenerationDisposition) : Prop := {
  de_source : tob_source_identity o = tg_source_identity d;
  de_id : tob_generation_id o = tg_generation_id d;
  de_revision : tob_document_revision o = tg_revision d;
  de_object x y : tg_owned_object_identity d = Some x → tob_object_identity o = Some y → x = y;
  de_table : disposition = phase_disposition (tg_phase d) (tob_state o) (tob_prior_operation o) ∨
    is_ready_state (tob_state o) = true ∧
    disposition = drifted_disposition (tg_phase d) (tob_prior_operation o);
}.

Lemma disposition_decided d o :
  (∃ reason, template_disposition d o = TemplateRefuse reason) ∨ decided d o (template_disposition d o).
Proof.
  unfold template_disposition. case_bool_decide as H1; [by eauto|].
  destruct (bool_decide (_ ≠ _) || _) eqn:H2; [by eauto|]. bprop.
  case_bool_decide; [by eauto|].
  match goal with |- context [if ?b then TemplateRefuse ObjectIdentityDrift else _] => destruct b eqn:H4 end;
    [by eauto|]. right.
  assert (∀ x y, tg_owned_object_identity d = Some x → tob_object_identity o = Some y → x = y) as Ho.
  { intros x y Hx Hy. rewrite Hx, Hy in H4. by bprop. }
  destruct (is_ready_state _ && _) eqn:H5; split; auto. bprop. auto.
Qed.

(** The object an observation offers to a transition. *)
Lemma offered_object d o disposition action :
  decided d o disposition → coherent o → generation_ok d →
  (tg_owned_object_identity d = None → is_Some (tob_object_identity o) → may_bind_object action = true) →
  (action = RecordVerified → is_Some (tob_object_identity o)) →
  ∃ object, next_object (tg_owned_object_identity d) (tob_object_identity o) action = Ok object.
Proof.
  intros [_ _ _ Hobj _] Hco Hok Hbind Hver. unfold next_object.
  destruct (tg_owned_object_identity d) as [x|], (tob_object_identity o) as [y|].
  - rewrite bool_decide_true by auto. eauto.
  - eauto.
  - rewrite Hbind by eauto. eauto.
  - case_bool_decide; [eauto|]. case_bool_decide as Hn; [eauto|]. by destruct (Hver Hn).
Qed.

Lemma decision_matches d o :
  decided d o (template_disposition d o) →
  confirmation_matches (reconcile_disposable_template_generation d o) d o = true.
Proof.
  intros [H1 H2 H3 _ _]. unfold confirmation_matches, is_bound_to_document. simpl.
  rewrite H1, H2, H3, !N.eqb_refl, !bool_decide_true by done. done.
Qed.

Lemma decision_step d o action phase :
  decided d o (template_disposition d o) → coherent o → generation_ok d →
  next_phase (tg_phase d) action = Some phase →
  (tg_owned_object_identity d = None → is_Some (tob_object_identity o) → may_bind_object action = true) →
  (action = RecordVerified → is_Some (tob_object_identity o)) →
  ∃ d', generation_transition d (tg_revision d) action (tob_object_identity o) = Ok d' ∧
    generation_validate_successor_of d' d = Ok ().
Proof.
  intros Hde Hco Hok Hn Hb Hv. destruct (offered_object d o _ action Hde Hco Hok Hb Hv) as [object Ho].
  destruct (reachable_small d Hok) as [Hlen Hrev].
  set (d' := mkGeneration (tg_generation_id d) (tg_revision d + 1) (tg_prepared_template_identity d)
    (tg_source_identity d) (tg_source_instance d) object phase (tg_history d ++ [action])).
  assert (generation_transition d (tg_revision d) action (tob_object_identity o) = Ok d') as Ht.
  { apply transition_Ok. split; [done|]. split; [|done]. split; try done; simpl; unfold u64_max, MAX_TRANSITIONS; lia. }
  exists d'. split; [done|]. apply generation_successor_iff; eauto.
Qed.

(** What the tables ask for: the action of every step they name exists, and an
    object is offered only where it may be bound or is known. *)
Definition sound_action (phase : DisposableTemplateGenerationPhase) (state : DisposableTemplateObservedState)
    (action : DisposableTemplateGenerationAction) : Prop :=
  is_Some (next_phase phase action) ∧
  (owns_object phase = true ∨ state = TemplateAbsent ∨ may_bind_object action = true) ∧
  (action = RecordVerified → is_ready_state state = true).

Definition sound_disposition (phase : DisposableTemplateGenerationPhase) (state : DisposableTemplateObservedState)
    (disposition : DisposableTemplateGenerationDisposition) : Prop :=
  match disposition with
  | TemplatePersist action => sound_action phase state action
  | CreateCandidate => sound_action phase state RecordCreateStarted ∧ state = TemplateAbsent
  | StopCandidate => sound_action phase state RecordStopStarted ∧ state = TemplateReadyRunning
  | DiscardCandidate => phase = TgDiscardAuthorized ∧
      (state = TemplateOwnedIncomplete ∨ is_ready_state state = true)
  | _ => True
  end.

Lemma table_sound phase state prior : sound_disposition phase state (phase_disposition phase state prior).
Proof. destruct phase, state; simpl; repeat case_bool_decide; unfold sound_disposition, sound_action; naive_solver. Qed.

Lemma drifted_sound phase state prior :
  is_ready_state state = true → sound_disposition phase state (drifted_disposition phase prior).
Proof. destruct phase, prior; unfold sound_disposition, sound_action; simpl; naive_solver. Qed.

Lemma decided_sound d o disposition : decided d o disposition → sound_disposition (tg_phase d) (tob_state o) disposition.
Proof. intros [_ _ _ _ [->|[Hr ->]]]; [apply table_sound|by apply drifted_sound]. Qed.

Lemma sound_step d o action :
  decided d o (template_disposition d o) → coherent o → generation_ok d →
  sound_action (tg_phase d) (tob_state o) action →
  ∃ d', generation_transition d (tg_revision d) action (tob_object_identity o) = Ok d' ∧
    generation_validate_successor_of d' d = Ok ().
Proof.
  intros Hde Hco Hok ([phase Hn] & Hobj & Hver). eapply decision_step; [done..| |].
  - intros Hnone [x Hx]. destruct Hobj as [Hown|[Habs|Hb]]; [|unfold coherent in Hco; rewrite Habs in Hco; congruence|done].
    apply (go_object _ Hok) in Hown. rewrite Hnone in Hown. by destruct Hown.
  - intros Ha. specialize (Hver Ha). unfold coherent in Hco. by destruct (tob_state o).
Qed.

(** The answer of a decision: what it persists, or checkpoints before its
    command, is accepted as the next record; a template is created only where
    none is there, and discarded only if the object that is there is the one
    the record owns.  A discard decided for an object the record does not own
    is refused. *)
Definition decision_outcome (d : DisposableTemplateGenerationDocument) (o : DisposableTemplateObservation) : Prop :=
  let plan := reconcile_disposable_template_generation d o in
  match tp_disposition plan with
  | TemplatePersist _ =>
      ∃ d', confirmed_persist_successor plan d o = Ok d' ∧ generation_validate_successor_of d' d = Ok ()
  | CreateCandidate => tob_state o = TemplateAbsent ∧ RecordCreateStarted ∉ tg_history d ∧
      ∃ d', confirmed_runtime_successor plan d o = Ok d' ∧ generation_validate_successor_of d' d = Ok ()
  | StopCandidate => tob_state o = TemplateReadyRunning ∧ RecordStopStarted ∉ tg_history d ∧
      ∃ d', confirmed_runtime_successor plan d o = Ok d' ∧ generation_validate_successor_of d' d = Ok ()
  | DiscardCandidate => RecordDiscardStarted ∉ tg_history d ∧
      match tg_owned_object_identity d with
      | Some x => tob_object_identity o = Some x ∧
          ∃ d', confirmed_runtime_successor plan d o = Ok d' ∧ generation_validate_successor_of d' d = Ok ()
      | None => confirmed_runtime_successor plan d o = Err template_invalid_document
      end
  | TemplateSatisfied => tg_phase d = TgReady ∧ tob_state o = TemplateReadyStopped ∧
      tob_prepared_template_identity o = Some (tg_prepared_template_identity d)
  | RebuildRequired => tg_phase d = TgDiscarded ∧ tob_state o = TemplateAbsent
  | TemplateRefuse _ => ∀ action, confirmed_persist_successor plan d o ≠ Ok action ∧
      confirmed_runtime_successor plan d o ≠ Ok action
  end.

Lemma not_yet d action phase : generation_ok d → next_phase (tg_phase d) action = Some phase → action ∉ tg_history d.
Proof. intros Hok [Hn _]%next_phase_depth Ha%(go_depths _ Hok). lia. Qed.

Lemma satisfied_facts d o :
  template_disposition d o = TemplateSatisfied →
  tg_phase d = TgReady ∧ tob_state o = TemplateReadyStopped ∧
  tob_prepared_template_identity o = Some (tg_prepared_template_identity d).
Proof.
  unfold template_disposition. do 4 (match goal with |- (if ?b then _ else _) = _ → _ => destruct b; [done|] end).
  destruct (is_ready_state _ && _) eqn:E; intros Hp.
  - destruct (tg_phase d), (tob_prior_operation o); discriminate Hp.
  - destruct (tg_phase d), (tob_state o) eqn:Es; simpl in Hp; repeat case_bool_decide; try discriminate Hp; by simpl in E.
Qed.

Lemma decision_correct d o : generation_ok d → coherent o → decision_outcome d o.
Proof.
  intros Hok Hco. unfold decision_outcome. cbv zeta.
  destruct (disposition_decided d o) as [[reason Hr]|Hde].
  { simpl. rewrite Hr. unfold confirmed_persist_successor, confirmed_runtime_successor. simpl. by rewrite Hr. }
  pose proof (decided_sound _ _ _ Hde) as Hs. pose proof (decision_matches d o Hde) as Hm.
  unfold confirmed_persist_successor, confirmed_runtime_successor. rewrite Hm. simpl.
  destruct (template_disposition d o) as [action| | | | | |reason] eqn:Hd; simpl in *.
  - eapply sound_step; rewrite ?Hd; eauto.
  - destruct Hs as [Hs Habs]. split; [done|]. split; [destruct Hs as ([p Hn] & _); by eapply not_yet|].
    eapply sound_step; rewrite ?Hd; eauto.
  - destruct Hs as [Hs Habs]. split; [done|]. split; [destruct Hs as ([p Hn] & _); by eapply not_yet|].
    eapply sound_step; rewrite ?Hd; eauto.
  - destruct Hs as [Hp Hst]. split; [by apply (not_yet d _ TgDiscardStarted Hok); rewrite Hp|].
    assert (is_Some (tob_object_identity o)) as [y Hy].
    { unfold coherent in Hco. by destruct (tob_state o), Hst. }
    destruct (tg_owned_object_identity d) as [x|] eqn:Ho.
    + pose proof (de_object _ _ _ Hde x y Ho Hy) as ->. split; [done|].
      eapply (decision_step d o RecordDiscardStarted TgDiscardStarted); rewrite ?Hd, ?Hp; try done. by rewrite Ho.
    + unfold generation_transition. rewrite N.eqb_refl, Hp. rsimpl. cbn [negb next_phase ok_or]. rsimpl.
      destruct (reachable_small d Hok) as [Hlen Hrev]. rewrite (proj2 (Nat.leb_gt _ _)) by (unfold MAX_TRANSITIONS; lia).
      rewrite (proj2 (checked_add_Some u64_max _ _ (tg_revision d + 1))) by (unfold u64_max; lia). rsimpl.
      by rewrite Ho, Hy.
  - by apply satisfied_facts.
  - destruct Hde as [_ _ _ _ [Ht|[Hr Ht]]].
    + destruct (tg_phase d), (tob_state o); simpl in Ht; repeat case_bool_decide; done.
    + by destruct (tg_phase d), (tob_prior_operation o).
  - done.
Qed.

(** (C26) A decision about a source template, made from an observation and confirmed
    by the same observation, can be carried out, whatever is observed of a
    generation the program made: a step to persist is accepted by the record and
    by the store's successor test; a create, a stop or a discard is proposed
    only if its start was never recorded, a create only of an absent template, a
    stop only of a ready running one, a discard only of the object the record
    owns, and the checkpoint before the command is accepted (a discard of an
    object the record never owned is refused at its checkpoint); a satisfied
    template is ready, stopped and of the right contents; and a refusal
    authorises nothing. *)
Theorem template_decision_applies (id template source instance : string)
    (d : DisposableTemplateGenerationDocument) (o : DisposableTemplateObservation)
    (Hd : rtc generation_step (generation_initial id template source instance) d) (Ho : coherent o) :
  decision_outcome d o.
Proof. apply decision_correct; [|done]. eapply chain_ok; [apply initial_ok|done]. Qed.

(** The store's test accepts exactly the transitions of the record. *)
Theorem generation_successor_exact (id template source instance : string)
    (d d' : DisposableTemplateGenerationDocument)
    (Hd : rtc generation_step (generation_initial id template source instance) d) :
  generation_validate_successor_of d' d = Ok () ↔ generation_step d d'.
Proof.
  rewrite generation_successor_iff by (eapply chain_ok; [apply initial_ok|done]). split; [intros (a & o & H); by eexists _, a, o|].
  intros (r & a & o & H). exists a, o. by pose proof H as (-> & _)%transition_Ok.
Qed.

(** ** Texts *)

(** What the round trip relies on of [serde_json]: a pretty text with a newline
    after it reads as the value it is the text of, version included. *)
Class GenerationSerdeLaws `{GSERDE : GenerationSerde} : Prop := {
  generation_reads wire b : generation_to_vec_pretty wire = Some b →
    generation_from_slice (b ++ ["010"%char]) = Some wire ∧
    generation_version_from_slice (b ++ ["010"%char]) = Some (gw_schema_version wire);
}.

(** The identities of a generation are values of their types. *)
Record generation_typed (d : DisposableTemplateGenerationDocument) : Prop := {
  gt_id : accepted DisposableTemplateGenerationId_parse (tg_generation_id d);
  gt_template : accepted PreparedTemplateIdentity_parse (tg_prepared_template_identity d);
  gt_source : accepted DisposableTemplateSourceIdentity_parse (tg_source_identity d);
  gt_instance : accepted LimaInstanceName_parse (tg_source_instance d);
  gt_object x : tg_owned_object_identity d = Some x → accepted DisposableTemplateObjectIdentity_parse x;
}.

Lemma fold_result_app {E A S} (f : S → A → result E S) s l1 l2 :
  fold_result f s (l1 ++ l2) = (fold_result f s l1 ≫= λ s', fold_result f s' l2).
Proof. revert s. induction l1 as [|a l1 IH]; intros s; simpl; [done|]. destruct (f s a); rsimpl; auto. Qed.

(** Replaying its history makes the record again. *)
Lemma replay_history id template source instance d :
  rtc generation_step (generation_initial id template source instance) d →
  ∀ owned, (∀ x, tg_owned_object_identity d = Some x → owned = Some x) →
  (discarding (tg_phase d) = true → tg_owned_object_identity d = owned) →
  fold_result (replay_action owned) (generation_initial id template source instance) (tg_history d) = Ok d.
Proof.
  intros Hd. pattern d. eapply rtc_ind_r; [| |exact Hd]; clear d Hd; [done|].
  intros d d' Hd (r & action & observed & Ht) IH owned Hx Hdis. pose proof Ht as (-> & [H1 H2 H3 H4 H5 H6 H7 H8 H9] & Ho)%transition_Ok.
  pose proof (chain_ok _ _ (initial_ok id template source instance) Hd) as Hok.
  destruct (next_phase_discarding _ _ _ H7) as [Hd1 Hd2]. destruct (next_object_Ok _ _ _ _ Ho) as (O1 & O2 & O3 & O4).
  assert (tg_owned_object_identity d = None → discarding (tg_phase d) = true → tg_owned_object_identity d' = None) as Hstay.
  { intros Hn Hg. specialize (O3 Hn). destruct (tg_owned_object_identity d'); [|done].
    destruct (Hd1 Hg) as [_ Hb]. rewrite Hb in O3. discriminate O3. by eexists. }
  assert (next_object (tg_owned_object_identity d)
    (if negb (is_some (tg_owned_object_identity d)) && may_bind_object action then owned else None) action
    = Ok (tg_owned_object_identity d')) as Hreplay.
  { destruct (tg_owned_object_identity d) as [x|] eqn:Eo; cbn [is_some negb andb].
    - rewrite (O1 x eq_refl). done.
    - specialize (O2 eq_refl). destruct (may_bind_object action) eqn:Eb.
      + destruct (tg_owned_object_identity d') as [y|] eqn:Eo'.
        * rewrite (Hx y eq_refl). unfold next_object. by rewrite Eb.
        * assert (discarding (tg_phase d') = true) as Hg'.
          { destruct action; try done; [destruct (O4 eq_refl); congruence|by apply Hd2]. }
          rewrite <-(Hdis Hg'). by rewrite O2 in *.
      + destruct (tg_owned_object_identity d') as [y|] eqn:Eo'; [|destruct action; try discriminate Eb; reflexivity].
        exfalso. discriminate (O3 eq_refl (mk_is_Some _ _ eq_refl)). }
  rewrite H8, fold_result_app, IH.
  - rsimpl. simpl. unfold replay_action.
    rewrite (proj2 (transition_Ok d (tg_revision d) action _ d')); [done|]. split; [done|]. split; [by split|done].
  - intros x Hox. by apply Hx, O1.
  - intros Hg. destruct (tg_owned_object_identity d) as [x|] eqn:Eo; [symmetry; by apply Hx, O1|].
    rewrite <-(Hdis (proj1 (Hd1 Hg))). symmetry. by apply Hstay.
Qed.

Lemma replay_chain owned id template source instance history d0 d :
  rtc generation_step (generation_initial id template source instance) d0 →
  fold_result (replay_action owned) d0 history = Ok d →
  rtc generation_step (generation_initial id template source instance) d ∧ tg_history d = tg_history d0 ++ history.
Proof.
  revert d0. induction history as [|action history IH]; intros d0 H0 H; simpl in H.
  { injection H as <-. by rewrite app_nil_r. }
  inv_ok H. unfold replay_action in Hy. apply map_err_Ok in Hy.
  pose proof Hy as (_ & [_ _ _ _ _ _ _ H8 _] & _)%transition_Ok. destruct (IH y) as [Hr Hh]; [|done|].
  - eapply rtc_r; [done|]. by eexists _, action, _.
  - split; [done|]. by rewrite Hh, H8, <-app_assoc.
Qed.

#[export] Instance generation_id_keeps : KeepsRaw DisposableTemplateGenerationId_parse.
Proof. intros s t H. unfold DisposableTemplateGenerationId_parse in H. inv_ok H. congruence. Qed.
#[export] Instance source_identity_keeps : KeepsRaw DisposableTemplateSourceIdentity_parse.
Proof. intros s t H%map_err_Ok. by apply Sha256Digest_parse_keeps in H. Qed.
#[export] Instance object_identity_keeps : KeepsRaw DisposableTemplateObjectIdentity_parse.
Proof. intros s t H%map_err_Ok. by apply Sha256Digest_parse_keeps in H. Qed.
#[export] Instance instance_name_keeps : KeepsRaw LimaInstanceName_parse.
Proof. intros s t H. unfold LimaInstanceName_parse in H. inv_ok H. congruence. Qed.

Section round_trip.
Context `{LAWS : GenerationSerdeLaws}.

Lemma wire_of_generation id template source instance d :
  rtc generation_step (generation_initial id template source instance) d → generation_typed d →
  generation_of_wire (generation_wire d) = Ok d.
Proof.
  intros Hd [T1 T2 T3 T4 T5]. pose proof (chain_ok _ _ (initial_ok id template source instance) Hd) as Hok.
  destruct (reachable_small d Hok) as [Hlen _]. pose proof (go_revision _ Hok) as Hrev.
  destruct (generation_chain_identities _ _ Hd) as (E1 & E2 & E3 & E4). simpl in E1, E2, E3, E4.
  unfold generation_of_wire. cbn [gw_history gw_revision gw_generation_id gw_prepared_template_identity
    gw_source_identity gw_source_instance gw_owned_object_identity gw_phase generation_wire].
  rewrite (proj2 (Nat.ltb_ge _ _)) by (unfold MAX_TRANSITIONS; lia). rewrite (proj2 (N.eqb_neq _ _)) by lia.
  cbn [orb]. unfold accepted in *. rewrite T1, T2, T3, T4. rsimpl.
  assert (traverse_option DisposableTemplateObjectIdentity_parse (tg_owned_object_identity d)
    = Ok (tg_owned_object_identity d)) as ->.
  { destruct (tg_owned_object_identity d) as [x|]; [|done]. simpl. by rewrite (T5 x). }
  rsimpl. rewrite E1, E2, E3, E4, (replay_history id template source instance d Hd) by auto. rsimpl.
  by rewrite N.eqb_refl, !bool_decide_false by tauto.
Qed.

Lemma generation_of_wire_Ok wire d :
  generation_of_wire wire = Ok d →
  generation_typed d ∧ rtc generation_step (generation_initial (tg_generation_id d)
    (tg_prepared_template_identity d) (tg_source_identity d) (tg_source_instance d)) d.
Proof.
  unfold generation_of_wire. intros H. inv_ok H. injection H as <-. inv_opts. bprop.
  apply (keeps_raw_iff DisposableTemplateGenerationId_parse) in Hy as [A1 ->].
  apply (keeps_raw_iff PreparedTemplateIdentity_parse) in Hy0 as [A2 ->].
  apply (keeps_raw_iff DisposableTemplateSourceIdentity_parse) in Hy1 as [A3 ->].
  apply (keeps_raw_iff LimaInstanceName_parse) in Hy2 as [A4 ->].
  destruct (replay_chain _ _ _ _ _ _ _ _ (rtc_refl _ _) Hy4) as [Hr _].
  destruct (generation_chain_identities _ _ Hr) as (E1 & E2 & E3 & E4). simpl in E1, E2, E3, E4.
  split; [split|]; rewrite ?E1, ?E2, ?E3, ?E4; try done.
  intros x Hx. assert (y3 = Some x) as -> by congruence. destruct (gw_owned_object_identity wire) as [raw|]; [|done].
  simpl in Hy3. apply bind_Ok in Hy3 as (z & Hz & [= ->]).
  by apply (keeps_raw_iff DisposableTemplateObjectIdentity_parse) in Hz as [? _].
Qed.

(** The text of a generation and the generation determine each other: the text
    of a typed generation the program made reads back as it, if it is within
    the byte bound of the reader; and what is read was made by transitions from
    its creation, and the text is its only text. *)
Theorem generation_round_trip (b : bytes) (d : DisposableTemplateGenerationDocument)
    (Hsize : len b ≤ MAX_DISPOSABLE_TEMPLATE_GENERATION_BYTES) :
  decode_disposable_template_generation b = Ok d ↔
  encode_disposable_template_generation d = Ok b ∧ generation_typed d ∧
  rtc generation_step (generation_initial (tg_generation_id d) (tg_prepared_template_identity d)
    (tg_source_identity d) (tg_source_instance d)) d.
Proof.
  unfold decode_disposable_template_generation. rewrite (proj2 (N.ltb_ge _ _) Hsize). split.
  - intros H. inv_ok H. injection H as <-. inv_opts. bprop.
    destruct (generation_of_wire_Ok _ _ Hy1) as [Ht Hr]. split; [congruence|done].
  - intros (He & Ht & Hr). pose proof He as He'. unfold encode_disposable_template_generation in He'. inv_ok He'.
    inv_opts. injection He' as <-. destruct (generation_reads _ _ Hy) as [-> ->]. rsimpl.
    cbn [gw_schema_version generation_wire]. rewrite N.eqb_refl. cbn [negb].
    rewrite (wire_of_generation _ _ _ _ d Hr Ht). rsimpl. rewrite He. rsimpl. by rewrite bool_decide_false by tauto.
Qed.
End round_trip.

(** ** A template that is created, verified and stopped *)

Definition template_digest : string :=
  "sha256:aaaaaaaaaaaaaaaaaaaaaaaaaaaaaaaaaaaaaaaaaaaaaaaaaaaaaaaaaaaaaaaa".

Definition sample_generation : DisposableTemplateGenerationDocument :=
  generation_initial "generation-1" template_digest template_digest "template".

Definition sample_template_actions : list (DisposableTemplateGenerationAction * option string) :=
  [(AuthorizeCreate, None); (RecordCreateStarted, None); (RecordVerified, Some template_digest);
   (AuthorizeStop, Some template_digest); (RecordStopStarted, Some template_digest)].

Definition sample_stopping : DisposableTemplateGenerationDocument :=
  default sample_generation (ok (fold_result (λ d '(action, o), generation_transition d (tg_revision d) action o)
    sample_generation sample_template_actions)).

Lemma fold_generation d l d' :
  fold_result (λ d '(action, o), generation_transition d (tg_revision d) action o) d l = Ok d' →
  rtc generation_step d d'.
Proof.
  revert d. induction l as [|[a o] l IH]; intros d H; simpl in H; [by injection H as ->|].
  inv_ok H. eapply rtc_l; [by eexists _, a, o|]. by apply IH.
Qed.

Lemma sample_stops : rtc generation_step sample_generation sample_stopping.
Proof. apply (fold_generation _ sample_template_actions). vm_compute. reflexivity. Qed.

Definition sample_template_observation : DisposableTemplateObservation :=
  runtime_disposable_template_observation sample_stopping template_digest (Some template_digest) (Some template_digest)
    OperationQuiescent TemplateReadyStopped.

Lemma generation_chain_invariant_witness :
  (length (tg_history sample_stopping) ≤ 6)%nat ∧ NoDup (tg_history sample_stopping).
Proof.
  by destruct (generation_chain_invariant "generation-1" template_digest template_digest "template" sample_generation
    sample_stopping (rtc_refl _ _) sample_stops) as (_ & _ & _ & _ & _ & _ & H1 & H2 & _).
Defined.

Lemma template_decision_applies_witness :
  tp_disposition (reconcile_disposable_template_generation sample_stopping sample_template_observation)
    = TemplatePersist RecordReady ∧
  decision_outcome sample_stopping sample_template_observation.
Proof.
  split; [vm_compute; reflexivity|].
  apply (template_decision_applies "generation-1" template_digest template_digest "template"); [exact sample_stops|].
  by eexists.
Defined.

Lemma generation_successor_exact_witness :
  generation_validate_successor_of sample_stopping sample_stopping = Ok () ↔
  generation_step sample_stopping sample_stopping.
Proof. exact (generation_successor_exact "generation-1" template_digest template_digest "template" _ _ sample_stops). Defined.

(** A [serde_json] that knows this record. *)
#[export] Instance generation_wire_eq_dec : EqDecision GenerationWire.
Proof. solve_decision. Defined.

Definition sample_generation_serde : GenerationSerde := {|
  generation_to_vec_pretty w :=
    if bool_decide (w = generation_wire sample_stopping) then Some ["A"%char] else None;
  generation_from_slice b :=
    if bool_decide (b = ["A"%char; "010"%char]) then Some (generation_wire sample_stopping) else None;
  generation_version_from_slice b :=
    if bool_decide (b = ["A"%char; "010"%char]) then Some 1 else None;
|}.

Lemma sample_generation_laws : @GenerationSerdeLaws sample_generation_serde.
Proof. split. intros w b. simpl. case_bool_decide; [|done]. by intros [= <-]; subst. Qed.

Lemma generation_round_trip_witness :
  @decode_disposable_template_generation sample_generation_serde ["A"%char; "010"%char] = Ok sample_stopping.
Proof.
  apply (@generation_round_trip sample_generation_serde sample_generation_laws);
    [apply N.leb_le; vm_compute; reflexivity|].
  split; [vm_compute; reflexivity|]. split; [|exact sample_stops].
  split; try (vm_compute; reflexivity). vm_compute. by intros ? [= <-].
Defined.
