(* ===== verification/WorkerCommands.v ===== *)
(** * Commands of the disposable workers

    The command values of [src/src/process.rs] and the fixed adapter of
    [src/src/disposable_lima_worker.rs] that plans the [limactl] commands which
    clone and delete a worker.  A path is the text of its UTF-8 bytes.  The
    checked-in template manifest is a parameter with the values the adapter
    reads of it; so are [serde_json] and SHA-256 of the identities. *)

From stdpp Require Import pretty.
From S2P Require Import Prelude Artifact ExecutionAdmission ScaleSetProtocol AttemptState WorkerReconciler AttemptCatalog.
From S2P Require Import DeliveryConsumer TemplateGeneration.

Local Open Scope N_scope.

(** ** Commands *)

Definition REDACTED : string := "[REDACTED]".

Inductive CommandValue :=
| Plain (value : string)
| Secret (value : string).

#[export] Instance command_value_eq_dec : EqDecision CommandValue.
Proof. solve_decision. Defined.

Definition displayed (self : CommandValue) : string :=
  match self with
  | Plain value => value
  | Secret _ => REDACTED
  end.

(** The environment is a [BTreeMap]: an association list in the order of its
    keys. *)
Record CommandSpec := mkCommand {
  cs_program : string;
  cs_arguments : list CommandValue;
  cs_environment : list (string * CommandValue);
  cs_secret_stdin : option string;
}.

#[export] Instance command_spec_eq_dec : EqDecision CommandSpec.
Proof. solve_decision. Defined.

Record ExecutionRecord := mkExecution {
  er_argv : list string;
  er_environment_keys : list string;
  er_status : option Z;
  er_success : bool;
  er_stdout : string;
  er_stderr : string;
}.

Fixpoint btree_insert {A} (key : string) (value : A) (entries : list (string * A)) : list (string * A) :=
  match entries with
  | [] => [(key, value)]
  | (key', value') :: rest =>
      match String.compare key key' with
      | Lt => (key, value) :: entries
      | Eq => (key, value) :: rest
      | Gt => (key', value') :: btree_insert key value rest
      end
  end.

Definition CommandSpec_new (program : string) : CommandSpec := mkCommand program [] [] None.

Definition argument (value : string) (self : CommandSpec) : CommandSpec :=
  mkCommand (cs_program self) (cs_arguments self ++ [Plain value]) (cs_environment self) (cs_secret_stdin self).

Definition environment (key value : string) (self : CommandSpec) : CommandSpec :=
  mkCommand (cs_program self) (cs_arguments self) (btree_insert key (Plain value) (cs_environment self))
    (cs_secret_stdin self).

Definition secret_environment (key value : string) (self : CommandSpec) : CommandSpec :=
  mkCommand (cs_program self) (cs_arguments self) (btree_insert key (Secret value) (cs_environment self))
    (cs_secret_stdin self).

Definition zeroizing_secret_stdin_line (value : string) (self : CommandSpec) : CommandSpec :=
  mkCommand (cs_program self) (cs_arguments self) (cs_environment self) (Some value).

Definition displayed_argv (self : CommandSpec) : list string :=
  cs_program self :: (displayed <$> cs_arguments self).

(** [record.environment_keys != command.environment.keys()..]. *)
Definition environment_keys (self : CommandSpec) : list string := (cs_environment self).*1.

(** The method chain [command.argument(..).argument(..)]. *)
Definition with_arguments (values : list string) (self : CommandSpec) : CommandSpec :=
  foldl (λ command value, argument value command) self values.

(** ** Paths *)

Definition is_ascii_control (c : ascii) : bool := byte_in 0 31 c || byte_in 127 127 c.

Definition bytes_any (p : ascii → bool) (s : string) : bool := negb (bytes_all (λ c, negb (p c)) s).

(** [text.split('/').any(|component| matches!(component, "." | ".."))]. *)
Definition has_dot_component (path : string) : bool :=
  existsb (λ component, String.eqb component "." || String.eqb component "..") (str_split "/"%char path).

Definition MAX_PRIVATE_PATH_BYTES : N := 1024.
Definition MAX_PATH_BYTES : N := 1024.

(** [lima_observation.rs]: [valid_absolute_path].  That every component is the
    root or a name follows on Unix from the tests before. *)
Definition valid_absolute_path (value : string) (allow_root : bool) : bool :=
  negb (negb (starts_with "/"%char value)
        || (MAX_PATH_BYTES <? str_len value)
        || bytes_any is_ascii_control value
        || (ends_with "/"%char value && negb (String.eqb value "/"))
        || match value with
           | EmptyString => false
           | String _ rest => contains_doubled "/"%char rest
           end
        || has_dot_component value
        || (negb allow_root && String.eqb value "/")).

(** ** Observation requests *)

Definition LIMACTL_SAFE_HOME : string := "/var/empty".
Definition LIMACTL_SAFE_PATH : string := "/usr/bin:/bin:/usr/sbin:/sbin".

Definition LIMA_OBSERVATION_REQUEST_IDENTITY_DOCUMENT_TYPE : string :=
  "smolrunner-lima-observation-request-identity".
Definition LIMA_OBSERVATION_SCHEMA_VERSION : N := 1.

Inductive LimaVmType := LimaVz | LimaQemu.
Inductive LimaArchitecture := LimaAarch64 | LimaX86_64.

(** The document whose digest identifies a request. *)
Record LimaObservationRequestIdentityDocument := mkRequestIdentity {
  lri_document_type : string;
  lri_schema_version : N;
  lri_instance : string;
  lri_lima_home : string;
  lri_expected_vm_type : LimaVmType;
  lri_expected_architecture : LimaArchitecture;
  lri_guest_cache_path : string;
  lri_max_age_seconds : N;
}.

Record LimaObservationRequest := mkObservationRequest {
  lor_instance : LimaInstanceName;
  lor_lima_home : string;
  lor_expected_instance_directory : string;
  lor_expected_vm_type : LimaVmType;
  lor_expected_architecture : LimaArchitecture;
  lor_guest_cache_path : string;
  lor_max_age_seconds : N;
  lor_request_identity : string;
}.

(** The document whose digest identifies a command. *)
Record CommandIdentityDocument := mkCommandIdentity {
  cid_schema_version : N;
  cid_argv : list string;
  cid_home : string;
  cid_lima_home : string;
  cid_lang : string;
  cid_lc_all : string;
  cid_path : string;
  cid_timeout_seconds : N;
  cid_prepared_template_identity : string;
}.

(** [serde_json] on the two identity documents. *)
Class IdentitySerde := {
  request_identity_to_vec : LimaObservationRequestIdentityDocument → option bytes;
  command_identity_to_vec : CommandIdentityDocument → option bytes;
}.

(** ** The adapter *)

Definition DISPOSABLE_LIMA_WORKER_SCHEMA_VERSION : N := 4.
Definition GIB : N := 1073741824.
Definition LIMA_UNIX_PATH_MAX : N := 104.
Definition LIMA_SSH_SOCKET_SUFFIX : string := "/ssh.sock.1234567890123456".
Definition CLONE_TIMEOUT : N := 10 * 60.
Definition DESTROY_TIMEOUT : N := 5 * 60.
Definition OBSERVATION_MAX_AGE_SECONDS : N := 30.
Definition GUEST_CACHE_PATH : string := "/opt/smolrunner/actions-runner/_work".

Inductive DisposableLimaWorkerCommandKind :=
| CommandClone
| CommandDiscardIncomplete
| CommandDestroy.

#[export] Instance command_kind_eq_dec : EqDecision DisposableLimaWorkerCommandKind.
Proof. solve_decision. Defined.

Inductive DisposableLimaWorkerErrorKind :=
| LwInvalidConfiguration
| LwInvalidAction
| LwUnsupportedResources.

Record DisposableLimaWorkerError := mkLimaWorkerError {
  lwe_kind : DisposableLimaWorkerErrorKind;
  lwe_code : string;
  lwe_message : string;
}.

Definition lima_worker_invalid_configuration : DisposableLimaWorkerError :=
  mkLimaWorkerError LwInvalidConfiguration "invalid_private_path"
    "reviewed Lima paths must be bounded canonical absolute paths".

(** What is read of a prepared template: its identity, if it has one, and the
    size and version of its source. *)
Record DisposablePreparedTemplateManifest := mkManifest {
  pm_identity : option DisposablePreparedTemplateIdentity;
  pm_source_cpu_count : N;
  pm_source_memory_bytes : N;
  pm_source_disk_bytes : N;
  pm_lima_version : string;
}.

Record DisposableLimaWorkerAdapter := mkAdapter {
  lwa_limactl_program : string;
  lwa_lima_home : string;
  lwa_source_template : LimaInstanceName;
  lwa_prepared_template_identity : DisposablePreparedTemplateIdentity;
  lwa_source_cpu_count : N;
  lwa_source_memory_bytes : N;
  lwa_source_disk_bytes : N;
  lwa_lima_version : string;
}.

Record DisposableLimaWorkerCommandPlan := mkCommandPlan {
  lwp_schema_version : N;
  lwp_kind : DisposableLimaWorkerCommandKind;
  lwp_attempt_id : string;
  lwp_attempt_revision : N;
  lwp_vm_id : string;
  lwp_prepared_template_identity : DisposablePreparedTemplateIdentity;
  lwp_command_identity : string;
  lwp_timeout_seconds : N;
  lwp_observation_required : bool;
  lwp_command : CommandSpec;
  lwp_timeout : N;
}.

(** [validate_private_path] of the adapter. *)
Definition lima_worker_validate_private_path (text : string) : result DisposableLimaWorkerError string :=
  if negb (starts_with "/"%char text)
     || String.eqb text "/"
     || (MAX_PRIVATE_PATH_BYTES <? str_len text)
     || bytes_any is_ascii_control text
     || contains_doubled "/"%char text
     || ends_with "/"%char text
     || has_dot_component text
  then Err lima_worker_invalid_configuration
  else Ok text.

Definition DisposableLimaWorkerAdapter_new (limactl_program lima_home : string)
    (source_template : LimaInstanceName) (prepared_template : DisposablePreparedTemplateManifest)
    : result DisposableLimaWorkerError DisposableLimaWorkerAdapter :=
  limactl_program ← lima_worker_validate_private_path limactl_program;
  lima_home ← lima_worker_validate_private_path lima_home;
  prepared_template_identity ← ok_or (pm_identity prepared_template) lima_worker_invalid_configuration;
  Ok (mkAdapter limactl_program lima_home source_template prepared_template_identity
        (pm_source_cpu_count prepared_template) (pm_source_memory_bytes prepared_template)
        (pm_source_disk_bytes prepared_template) (pm_lima_version prepared_template)).

Record LimaResources := mkLimaResources {
  lr_cpus : string;
  lr_memory_gib : string;
  lr_disk_gib : string;
}.

(** [u32::saturating_mul]. *)
Definition saturating_mul (max a b : N) : N := N.min (a * b) max.

Definition lima_resources (resources : DisposableWorkerResources)
    (source_cpu_count source_memory_bytes source_disk_bytes : N)
    : result DisposableLimaWorkerError LimaResources :=
  if negb (wr_cpu_millis resources mod 1000 =? 0)
     || negb (wr_memory_bytes resources mod GIB =? 0)
     || negb (wr_disk_bytes resources mod GIB =? 0)
  then Err (mkLimaWorkerError LwUnsupportedResources "unsupported_resource_granularity"
         "Lima worker resources must use whole CPUs and whole GiB values")
  else if (wr_cpu_millis resources <? saturating_mul u32_max source_cpu_count 1000)
          || (wr_memory_bytes resources <? source_memory_bytes)
          || (wr_disk_bytes resources <? source_disk_bytes)
  then Err (mkLimaWorkerError LwUnsupportedResources "resources_below_prepared_template"
         "Lima clone resources cannot be lower than the prepared source template")
  else Ok (mkLimaResources (pretty (wr_cpu_millis resources / 1000))
             (pretty (wr_memory_bytes resources / GIB)) (pretty (wr_disk_bytes resources / GIB))).

Definition validate_disposable_lima_resources (resources : DisposableWorkerResources)
    (prepared_template : DisposablePreparedTemplateManifest) : result DisposableLimaWorkerError () :=
  _ ← lima_resources resources (pm_source_cpu_count prepared_template)
        (pm_source_memory_bytes prepared_template) (pm_source_disk_bytes prepared_template);
  Ok ().

(** The sums are of lengths far below the end of [usize]. *)
Definition validate_disposable_lima_home_path_budget (lima_home : string)
    : result DisposableLimaWorkerError () :=
  let generated_instance_bytes := 2 + N.of_nat DISPOSABLE_LIMA_VM_ID_HEX_CHARS in
  if str_len lima_home + 1 + generated_instance_bytes + str_len LIMA_SSH_SOCKET_SUFFIX
       <? LIMA_UNIX_PATH_MAX
  then Ok ()
  else Err (mkLimaWorkerError LwInvalidConfiguration "lima_home_socket_path_too_long"
         "the Lima home cannot fit a generated worker within the pinned Unix-socket budget").

Section adapter.
Context `{ISERDE : IdentitySerde, HASHER : Sha256Hasher}.

Definition sha256_identity (b : bytes) : option string :=
  ok (Sha256Digest_parse ("sha256:" +:+ sha256_digest_hex b)).

Definition digest_observation_request (document : LimaObservationRequestIdentityDocument) : option string :=
  b ← request_identity_to_vec document; sha256_identity b.

(** [LimaObservationRequest::new]; its callers map the error away. *)
Definition LimaObservationRequest_new (instance : LimaInstanceName) (lima_home : string)
    (expected_vm_type : LimaVmType) (expected_architecture : LimaArchitecture)
    (guest_cache_path : string) (max_age_seconds : N) : option LimaObservationRequest :=
  if negb (valid_absolute_path lima_home false) then None
  else if negb (valid_absolute_path guest_cache_path false) then None
  else if max_age_seconds =? 0 then None
  else
    request_identity ← digest_observation_request
      (mkRequestIdentity LIMA_OBSERVATION_REQUEST_IDENTITY_DOCUMENT_TYPE LIMA_OBSERVATION_SCHEMA_VERSION
         instance lima_home expected_vm_type expected_architecture guest_cache_path max_age_seconds);
    Some (mkObservationRequest instance lima_home (lima_home +:+ "/" +:+ instance) expected_vm_type
            expected_architecture guest_cache_path max_age_seconds request_identity).

Definition command_identity (command : CommandSpec) (timeout_seconds : N) (lima_home : string)
    (prepared_template_identity : DisposablePreparedTemplateIdentity)
    : result DisposableLimaWorkerError string :=
  let document :=
    mkCommandIdentity DISPOSABLE_LIMA_WORKER_SCHEMA_VERSION (displayed_argv command) LIMACTL_SAFE_HOME
      lima_home "C" "C" LIMACTL_SAFE_PATH timeout_seconds prepared_template_identity in
  b ← ok_or (command_identity_to_vec document) lima_worker_invalid_configuration;
  ok_or (sha256_identity b) lima_worker_invalid_configuration.

Context (self : DisposableLimaWorkerAdapter).

Definition base_command : CommandSpec :=
  environment "PATH" LIMACTL_SAFE_PATH (environment "LC_ALL" "C" (environment "LANG" "C"
    (secret_environment "LIMA_HOME" (lwa_lima_home self) (environment "HOME" LIMACTL_SAFE_HOME
      (argument "--tty=false" (CommandSpec_new (lwa_limactl_program self))))))).

Definition version_command : CommandSpec * string :=
  (argument "--version" base_command, "limactl version " +:+ lwa_lima_version self +:+ String "010" EmptyString).

Definition target_observation_request (reservation : DisposableAttemptReservation)
    : result DisposableLimaWorkerError LimaObservationRequest :=
  instance ← map_err (λ _, mkLimaWorkerError LwInvalidAction "invalid_vm_identity"
      "the durable VM identity is not a supported Lima instance name")
    (LimaInstanceName_parse (at_vm_id (dr_attempt reservation)));
  ok_or (LimaObservationRequest_new instance (lwa_lima_home self) LimaVz LimaAarch64 GUEST_CACHE_PATH
           OBSERVATION_MAX_AGE_SECONDS) lima_worker_invalid_configuration.

Definition clone_command (instance : LimaInstanceName) (resources : LimaResources) : CommandSpec :=
  with_arguments ["clone"; lwa_source_template self; instance; "--cpus"; lr_cpus resources; "--memory";
    lr_memory_gib resources; "--disk"; lr_disk_gib resources; "--mount-none"; "--start"] base_command.

Definition delete_command (instance : LimaInstanceName) : CommandSpec :=
  with_arguments ["delete"; "--force"; instance] base_command.

(** Kind, command and timeout of an action in the phase of the attempt. *)
Definition planned_command (reservation : DisposableAttemptReservation)
    (action : DisposableWorkerAction) (instance : LimaInstanceName)
    : result DisposableLimaWorkerError (DisposableLimaWorkerCommandKind * CommandSpec * N) :=
  let invalid_phase := mkLimaWorkerError LwInvalidAction "invalid_durable_phase"
    "the durable attempt phase does not authorize the requested Lima command" in
  match action with
  | CheckpointAndCloneVm =>
      match at_phase (dr_attempt reservation) with
      | PhaseCloneAuthorized =>
          resources ← lima_resources (dr_resources reservation) (lwa_source_cpu_count self)
            (lwa_source_memory_bytes self) (lwa_source_disk_bytes self);
          Ok (CommandClone, clone_command instance resources, CLONE_TIMEOUT)
      | _ => Err invalid_phase
      end
  | DiscardIncompleteVm =>
      match at_phase (dr_attempt reservation) with
      | PhaseCloneStarted => Ok (CommandDiscardIncomplete, delete_command instance, DESTROY_TIMEOUT)
      | _ => Err invalid_phase
      end
  | DestroyVm =>
      match at_phase (dr_attempt reservation) with
      | PhaseDestroying | PhaseDeregistering | PhaseReleasing =>
          Ok (CommandDestroy, delete_command instance, DESTROY_TIMEOUT)
      | _ => Err invalid_phase
      end
  | _ => Err (mkLimaWorkerError LwInvalidAction "unsupported_action"
           "the reconciler action is not a disposable Lima lifecycle command")
  end.

(** [matches!(action, CheckpointAndCloneVm)]. *)
Definition is_clone_action (action : DisposableWorkerAction) : bool :=
  match action with
  | CheckpointAndCloneVm => true
  | _ => false
  end.

Definition worker_plan (now : EpochMillis) (reservation : DisposableAttemptReservation)
    (action : DisposableWorkerAction) : result DisposableLimaWorkerError DisposableLimaWorkerCommandPlan :=
  let attempt := dr_attempt reservation in
  if is_clone_action action
     && bool_decide (dr_prepared_template_identity reservation ≠ lwa_prepared_template_identity self)
  then Err (mkLimaWorkerError LwInvalidAction "prepared_template_identity_drift"
         "the durable prepared-template identity differs from the configured Lima source")
  else
    instance ← map_err (λ _, mkLimaWorkerError LwInvalidAction "invalid_vm_identity"
        "the durable VM identity is not a supported Lima instance name")
      (LimaInstanceName_parse (at_vm_id attempt));
    if bool_decide (instance = lwa_source_template self)
    then Err (mkLimaWorkerError LwInvalidAction "source_template_conflict"
           "the disposable VM identity conflicts with the prepared source template")
    else if is_clone_action action && (at_not_after attempt <? now)
    then Err (mkLimaWorkerError LwInvalidAction "attempt_expired"
           "the disposable attempt expired before the Lima provisioning command")
    else
      planned ← planned_command reservation action instance;
      let '(kind, command, timeout) := planned in
      identity ← command_identity command timeout (lwa_lima_home self)
        (dr_prepared_template_identity reservation);
      Ok (mkCommandPlan DISPOSABLE_LIMA_WORKER_SCHEMA_VERSION kind (at_attempt_id attempt)
            (at_revision attempt) (at_vm_id attempt) (dr_prepared_template_identity reservation)
            identity timeout true command timeout).
End adapter.
