(* ===== verification/WorkerRuntime.v ===== *)
(** * The runtime of a disposable worker

    [src/src/disposable_clone_runtime.rs] and
    [src/src/disposable_runner_runtime.rs]: what has to be seen of the host
    before a clone is authorised, started, registered, given a runner or
    destroyed, and the commands that do it.  The host is a state [H] behind the
    classes below, one per trait of the source; any call may fail, and the
    process may stop in it.  The views of Lima and of the host's files
    ([lima_observation.rs], [lima_host_identity.rs],
    [disposable_template_runtime.rs]) are calls of the host. *)

From S2P Require Import Prelude Artifact ExecutionAdmission ScaleSetProtocol AttemptState WorkerReconciler AttemptCatalog.
From S2P Require Import FileSystem DeliveryConsumer TemplateGeneration WorkerCommands.

Local Open Scope N_scope.

Definition DISPOSABLE_CLONE_RUNTIME_SCHEMA_VERSION : N := 1.
Definition OBSERVATION_TIMEOUT : N := 30.
Definition CLONE_ADMISSION_MAX_MILLIS : N := 30000.

(** ** Errors *)

Inductive DisposableCloneRuntimeErrorKind :=
| CrInvalidConfiguration
| CrDurableState
| CrObservation
| CrCommand
| CrRecoveryRequired.

Record DisposableCloneRuntimeError := mkCloneError {
  cre_kind : DisposableCloneRuntimeErrorKind;
  cre_code : string;
  cre_message : string;
}.

Definition clone_durable (code : string) : DisposableCloneRuntimeError :=
  mkCloneError CrDurableState code "durable disposable-clone state is unavailable or inconsistent".
Definition clone_recovery (code : string) : DisposableCloneRuntimeError :=
  mkCloneError CrRecoveryRequired code "the disposable clone requires recovery before it can advance".
Definition clone_invalid_configuration (code : string) : DisposableCloneRuntimeError :=
  mkCloneError CrInvalidConfiguration code "the fixed disposable-clone runtime configuration is invalid".
Definition clone_observation (code : string) : DisposableCloneRuntimeError :=
  mkCloneError CrObservation code "the disposable-clone host evidence is unavailable or changed".
Definition clone_command_error (code : string) : DisposableCloneRuntimeError :=
  mkCloneError CrCommand code
    "the fixed disposable-clone command failed or returned inconsistent evidence".

Inductive DisposableRunnerRuntimeErrorKind :=
| RrConfiguration
| RrState
| RrJitConfiguration
| RrDurableState
| RrObservation
| RrBridge
| RrCommand
| RrRecoveryRequired.

Record DisposableRunnerRuntimeError := mkRunnerError {
  rre_kind : DisposableRunnerRuntimeErrorKind;
  rre_code : string;
}.

Definition runner_durable := mkRunnerError RrDurableState.
Definition runner_observation := mkRunnerError RrObservation.
Definition runner_command_error := mkRunnerError RrCommand.
Definition runner_recovery := mkRunnerError RrRecoveryRequired.

#[export] Instance observation_target_eq_dec : EqDecision DisposableWorkerObservationTarget.
Proof. solve_decision. Defined.
#[export] Instance catalog_action_eq_dec : EqDecision DisposableAttemptCatalogAction.
Proof. solve_decision. Defined.
#[export] Instance worker_action_eq_dec : EqDecision DisposableWorkerAction.
Proof. solve_decision. Defined.

(** ** The host *)

Inductive LimaObservationRefusalCode :=
| LimaInvalidInput
| LimaClockFailure
| LimaStaleObservation
| LimaCommandFailed
| LimaCommandIdentityMismatch
| LimaUnboundedOutput
| LimaMissingInstanceEvidence
| LimaDuplicateInstanceEvidence
| LimaMalformedInstanceEvidence
| LimaAliasedEvidence
| LimaInstanceMismatch
| LimaInstanceDirectoryMismatch
| LimaInstanceDrift
| LimaVmTypeMismatch
| LimaArchitectureMismatch
| LimaMissingGuestEvidence
| LimaMalformedGuestEvidence
| LimaGuestArchitectureMismatch
| LimaGuestCpuMismatch
| LimaGuestMemoryMismatch.

#[export] Instance refusal_code_eq_dec : EqDecision LimaObservationRefusalCode.
Proof. solve_decision. Defined.

Inductive LimaHostIdentityErrorKind :=
| HostUnsupportedBackend
| HostMissingEvidence
| HostUnsafeFilesystem
| HostMalformedIdentifier
| HostMalformedDisk
| HostIdentityDrift
| HostUnavailable.

#[export] Instance host_error_kind_eq_dec : EqDecision LimaHostIdentityErrorKind.
Proof. solve_decision. Defined.

(** What is read of the identity of an instance on the host. *)
Record LimaHostInstanceIdentity := mkHostIdentity {
  hi_ownership_digest : string;
  hi_legacy_digest : option string;
}.

(** An observation keeps open descriptors, which the number stands for. *)
Record LimaHostIdentityObservation := mkHostObservation {
  ho_identity : LimaHostInstanceIdentity;
  ho_root_disk_bytes : N;
  ho_descriptors : N;
}.

Record ConfirmedDisposableCloneSource := mkConfirmedSource { cds_descriptors : N }.

(** The trait [TimedCommandExecutor]; the timeout is in milliseconds. *)
Class TimedCommandExecutor (H : Type) :=
  execute_with_timeout : CommandSpec → N → prog H () ExecutionRecord.

(** The trait [CloneRuntimeClock]. *)
Class CloneRuntimeClock (H : Type) := epoch_millis : prog H () EpochMillis.

(** The views of the machine: what Lima lists ([LimaObservationAdapter]), what
    is in the host's files ([LimaHostIdentityAdapter]), and the template
    ([DisposableTemplateRuntime]). *)
Class WorkerViews (H : Type) := {
  lima_observe : string → LimaObservationRequest → prog H LimaObservationRefusalCode ();
  host_observe : LimaObservationRequest → prog H LimaHostIdentityErrorKind LimaHostIdentityObservation;
  host_observe_cleanup : LimaObservationRequest → prog H LimaHostIdentityErrorKind LimaHostIdentityObservation;
  host_confirm : LimaHostIdentityObservation → LimaObservationRequest → prog H () ();
  confirm_stopped_clone_source : DisposableTemplateGenerationDocument →
    prog H () ConfirmedDisposableCloneSource;
  source_confirm_current : ConfirmedDisposableCloneSource → prog H () ();
  confirm_running_clone_target : LimaObservationRequest → DisposableWorkerResources →
    prog H () LimaHostIdentityObservation;
}.

(** [current_disposable_prepared_template]: the manifest of the build. *)
Class PreparedTemplate := current_disposable_prepared_template : option DisposablePreparedTemplateManifest.

(** [DisposableVmIdentity::from_host_identity] and [matches_host_identity]. *)
Definition from_host_identity (identity : LimaHostInstanceIdentity) : DisposableVmIdentity :=
  hi_ownership_digest identity.

Definition matches_host_identity (self : DisposableVmIdentity) (identity : LimaHostInstanceIdentity) : bool :=
  bool_decide (self = hi_ownership_digest identity)
  || is_some_and (λ digest, bool_decide (self = digest)) (hi_legacy_digest identity).

(** ** Admission *)

Record DisposableCloneAdmissionObservation := mkAdmissionObservation {
  cao_catalog_revision : DisposableAttemptCatalogRevision;
  cao_attempt_id : DisposableAttemptId;
  cao_attempt_revision : DisposableAttemptRevision;
  cao_capacity_claim_id : CapacityClaimId;
  cao_vm_id : DisposableVmId;
  cao_resources : DisposableWorkerResources;
  cao_prepared_template_identity : DisposablePreparedTemplateIdentity;
  cao_observed_at : EpochMillis;
  cao_expires_at : EpochMillis;
  cao_capacity_reserved : bool;
  cao_cancellation_requested : bool;
}.

Definition CloneAdmissionObservation_new (catalog : DisposableAttemptCatalogDocument)
    (reservation : DisposableAttemptReservation) (observed_at expires_at : EpochMillis)
    (capacity_reserved cancellation_requested : bool) : DisposableCloneAdmissionObservation :=
  mkAdmissionObservation (cd_revision catalog) (at_attempt_id (dr_attempt reservation))
    (at_revision (dr_attempt reservation)) (at_capacity_claim_id (dr_attempt reservation))
    (at_vm_id (dr_attempt reservation)) (dr_resources reservation)
    (dr_prepared_template_identity reservation) observed_at expires_at capacity_reserved
    cancellation_requested.

Definition validate_identity_and_freshness_for (self : DisposableCloneAdmissionObservation)
    (catalog : DisposableAttemptCatalogDocument) (reservation : DisposableAttemptReservation)
    (now : EpochMillis) : result DisposableCloneRuntimeError () :=
  if negb (cao_catalog_revision self =? cd_revision catalog)
     || bool_decide (cao_attempt_id self ≠ at_attempt_id (dr_attempt reservation))
     || negb (cao_attempt_revision self =? at_revision (dr_attempt reservation))
     || bool_decide (cao_capacity_claim_id self ≠ at_capacity_claim_id (dr_attempt reservation))
     || bool_decide (cao_vm_id self ≠ at_vm_id (dr_attempt reservation))
     || bool_decide (cao_resources self ≠ dr_resources reservation)
     || bool_decide (cao_prepared_template_identity self ≠ dr_prepared_template_identity reservation)
  then Err (clone_recovery "clone_admission_identity_drift")
  else if (now <? cao_observed_at self) || (cao_expires_at self <? now)
          || is_none_or (λ window, CLONE_ADMISSION_MAX_MILLIS <? window)
               (checked_sub (cao_expires_at self) (cao_observed_at self))
  then Err (clone_observation "clone_admission_stale")
  else Ok ().

Definition admission_validate_for (self : DisposableCloneAdmissionObservation)
    (catalog : DisposableAttemptCatalogDocument) (reservation : DisposableAttemptReservation)
    (now : EpochMillis) : result DisposableCloneRuntimeError () :=
  _ ← validate_identity_and_freshness_for self catalog reservation now;
  if negb (cao_capacity_reserved self) then Err (clone_recovery "clone_capacity_lost")
  else if cao_cancellation_requested self then Err (clone_recovery "clone_cancelled")
  else Ok ().

(** The trait [DisposableCloneAdmissionSource]. *)
Class DisposableCloneAdmissionSource (H : Type) :=
  admission_observe : DisposableAttemptCatalogDocument → DisposableAttemptReservation →
    prog H DisposableCloneRuntimeError DisposableCloneAdmissionObservation.

(** ** Outcomes *)

Record DisposableCloneRuntimeReceipt := mkCloneReceipt {
  crr_schema_version : N;
  crr_attempt_id : string;
  crr_catalog_revision : N;
  crr_attempt_revision : N;
  crr_command_identity : string;
}.

Inductive DisposableCloneTransactionOutcome :=
| PrecloneCheckpointed (attempt_id : string) (phase : DisposableAttemptPhase)
| RegistrationCheckpointed (attempt_id : string) (phase : DisposableAttemptPhase)
| CloneTransactionCompleted (receipt : DisposableCloneRuntimeReceipt).

Inductive DisposableCleanupTransactionOutcome :=
| CleanupCheckpointed (attempt_id : string) (phase : DisposableAttemptPhase)
| VmDestroyed (attempt_id : string)
| RunnerDeleted (attempt_id : string)
| CapacityReleased (attempt_id : string)
| AttemptRetired (attempt_id : string).

Inductive ScaleSetRunnerLookup :=
| LookupAbsent
| LookupPresent (runner : ScaleSetRunnerReference).

(** The trait [DisposableCleanupRunnerSource]. *)
Class DisposableCleanupRunnerSource (H : Type) := {
  cleanup_observe_runner : ScaleSetRunnerName → prog H DisposableCloneRuntimeError ScaleSetRunnerLookup;
  cleanup_remove_runner : ScaleSetRunnerReference → prog H DisposableCloneRuntimeError ();
}.

(** A generated configuration: the runner it registers, and its secret bytes. *)
Record ScaleSetJitReceipt := mkJitReceipt {
  jr_runner : ScaleSetRunnerReference;
  jr_config : bytes;
}.

(** The trait [DisposableRunnerRegistrationSource]. *)
Class DisposableRunnerRegistrationSource (H : Type) := {
  registration_observe_runner : ScaleSetRunnerName →
    prog H DisposableRunnerRuntimeError ScaleSetRunnerLookup;
  generate_jit : ScaleSetRunnerName → prog H DisposableRunnerRuntimeError ScaleSetJitReceipt;
}.

(** ** The clone runtime *)

(** [template_runtime] is the part of the host that [WorkerViews] has. *)
Record DisposableCloneRuntime := mkCloneRuntime {
  ccr_limactl_program : string;
  ccr_worker : DisposableLimaWorkerAdapter;
}.

Record PreparedClone := mkPreparedClone {
  pc_plan : DisposableLimaWorkerCommandPlan;
  pc_target_request : LimaObservationRequest;
  pc_source : ConfirmedDisposableCloneSource;
  pc_generation : DisposableTemplateGenerationDocument;
}.

Record CheckpointReadyClone := mkReadyClone {
  crc_prepared : PreparedClone;
  crc_expected_disk_bytes : N;
}.

(** [ConfirmedDisposableWorker] and [ConfirmedDisposableCleanupVm]. *)
Record ConfirmedMachine := mkConfirmed {
  cm_host : LimaHostIdentityObservation;
  cm_request : LimaObservationRequest;
}.

Inductive DisposableCleanupVmObservation :=
| CleanupVmAbsent
| CleanupVmPresent (confirmed : ConfirmedMachine).

(** [validate_record]. *)
Definition validate_record (command : CommandSpec) (record : ExecutionRecord)
    : result DisposableCloneRuntimeError () :=
  if bool_decide (er_argv record ≠ displayed_argv command)
     || bool_decide (er_environment_keys record ≠ environment_keys command)
     || bool_decide (er_status record ≠ Some 0%Z)
     || negb (er_success record)
  then Err (clone_command_error "clone_command_record_mismatch")
  else Ok ().

Section runtime.
Context `{ISERDE : IdentitySerde, HASHER : Sha256Hasher, TEMPLATE : PreparedTemplate} {H : Type}
  `{EXEC : TimedCommandExecutor H, CLOCK : CloneRuntimeClock H, VIEWS : WorkerViews H}.

Abbreviation hio := (prog H DisposableCloneRuntimeError).

(** [call.map_err(|_| error)]. *)
Definition or_fail {E E' A} (error : E') (call : prog H E A) : prog H E' A := failing (λ _, error) call.

Definition clone_clock : hio EpochMillis := or_fail (clone_observation "clone_clock_unavailable") epoch_millis.

(** [catalog.find_active(..).ok_or_else(|| durable("clone_attempt_missing"))]. *)
Definition clone_attempt (catalog : DisposableAttemptCatalogDocument) (attempt_id : DisposableAttemptId)
    : result DisposableCloneRuntimeError DisposableAttemptReservation :=
  ok_or (find_active catalog attempt_id) (clone_durable "clone_attempt_missing").

(** The identity of the template of this build. *)
Definition current_template_identity
    : result DisposableCloneRuntimeError DisposablePreparedTemplateIdentity :=
  ok_or (current_disposable_prepared_template ≫= pm_identity)
    (clone_invalid_configuration "clone_prepared_template_invalid").

Context (self : DisposableCloneRuntime).

Definition verify_limactl : hio () :=
  let '(command, expected) := version_command (ccr_worker self) in
  record ← or_fail (clone_observation "clone_lima_version_unavailable")
    (execute_with_timeout command (1000 * OBSERVATION_TIMEOUT));
  if bool_decide (er_argv record ≠ displayed_argv command)
     || bool_decide (er_environment_keys record ≠ environment_keys command)
     || bool_decide (er_status record ≠ Some 0%Z)
     || negb (er_success record)
     || negb (String.eqb (er_stdout record) expected)
     || negb (str_is_empty (er_stderr record))
  then lift (Err (clone_observation "clone_lima_version_mismatch"))
  else mret ().

Definition confirm_target_absent (request : LimaObservationRequest) : hio () :=
  if negb (valid_absolute_path (ccr_limactl_program self) false)
  then lift (Err (clone_invalid_configuration "clone_observer_invalid"))
  else
    catch (lima_observe (ccr_limactl_program self) request) (λ observed,
      match observed with
      | Err LimaMissingInstanceEvidence => mret ()
      | Ok _ => lift (Err (clone_recovery "clone_target_no_longer_absent"))
      | Err _ => lift (Err (clone_observation "clone_target_absence_unavailable"))
      | Panic => lift Panic
      end).

Definition target_request (code : string) (reservation : DisposableAttemptReservation)
    : result DisposableCloneRuntimeError LimaObservationRequest :=
  map_err (λ _, clone_invalid_configuration code)
    (target_observation_request (ccr_worker self) reservation).

Definition authorize_locked (catalog : DisposableAttemptCatalogDocument) (attempt_id : DisposableAttemptId)
    : hio DisposableAttemptCatalogAction :=
  reservation ← lift (clone_attempt catalog attempt_id);
  if bool_decide (at_phase (dr_attempt reservation) ≠ PhaseReserved)
  then lift (Err (clone_recovery "clone_authorization_phase_mismatch"))
  else
    prepared_template_identity ← lift current_template_identity;
    if bool_decide (dr_prepared_template_identity reservation ≠ prepared_template_identity)
    then lift (Err (clone_recovery "clone_prepared_template_drift"))
    else
      request ← lift (target_request "clone_target_request_invalid" reservation);
      _ ← verify_limactl;
      _ ← confirm_target_absent request;
      _ ← verify_limactl;
      checkpoint_at ← clone_clock;
      mret (if at_not_after (dr_attempt reservation) <? checkpoint_at
            then BeginUnprovisionedRelease else AuthorizeClone).

Definition authorize_clone_execution_locked (catalog : DisposableAttemptCatalogDocument)
    (attempt_id : DisposableAttemptId) : hio (option DisposableAttemptCatalogAction) :=
  reservation ← lift (clone_attempt catalog attempt_id);
  if bool_decide (at_phase (dr_attempt reservation) ≠ PhaseCloneAuthorized)
  then lift (Err (clone_recovery "clone_execution_phase_mismatch"))
  else
    checkpoint_at ← clone_clock;
    mret (if at_not_after (dr_attempt reservation) <? checkpoint_at
          then Some BeginUnprovisionedRelease else None).

Definition prepare_locked (catalog : DisposableAttemptCatalogDocument)
    (generation : DisposableTemplateGenerationDocument) (attempt_id : DisposableAttemptId)
    : hio PreparedClone :=
  reservation ← lift (clone_attempt catalog attempt_id);
  if bool_decide (at_phase (dr_attempt reservation) ≠ PhaseCloneAuthorized)
  then lift (Err (clone_recovery "clone_execution_phase_mismatch"))
  else
    source ← or_fail (clone_observation "clone_source_not_ready") (confirm_stopped_clone_source generation);
    request ← lift (target_request "clone_target_request_invalid" reservation);
    _ ← verify_limactl;
    _ ← confirm_target_absent request;
    _ ← or_fail (clone_observation "clone_source_drift") (source_confirm_current source);
    now ← clone_clock;
    if at_not_after (dr_attempt reservation) <? now
    then lift (Err (clone_recovery "clone_expired_before_command"))
    else
      plan ← lift (map_err (λ _, clone_recovery "clone_plan_refused")
                (worker_plan (ccr_worker self) now reservation CheckpointAndCloneVm));
      if bool_decide (lwp_kind plan ≠ CommandClone)
      then lift (Err (clone_recovery "clone_plan_kind_mismatch"))
      else mret (mkPreparedClone plan request source generation).

Definition preflight_checkpointed_clone_locked `{DisposableCloneAdmissionSource H}
    (started : DisposableAttemptCatalogDocument) (attempt_id : DisposableAttemptId)
    (prepared : PreparedClone) : hio CheckpointReadyClone :=
  reservation ← lift (clone_attempt started attempt_id);
  let attempt := dr_attempt reservation in
  let plan := pc_plan prepared in
  if bool_decide (at_phase attempt ≠ PhaseCloneStarted)
     || negb (at_revision attempt =? lwp_attempt_revision plan + 1)
     || bool_decide (at_attempt_id attempt ≠ lwp_attempt_id plan)
     || bool_decide (at_vm_id attempt ≠ lwp_vm_id plan)
     || bool_decide (dr_prepared_template_identity reservation ≠ lwp_prepared_template_identity plan)
     || is_some (at_vm_identity attempt)
  then lift (Err (clone_recovery "clone_started_checkpoint_mismatch"))
  else
    now ← clone_clock;
    if at_not_after attempt <? now then lift (Err (clone_recovery "clone_expired_before_command"))
    else
      _ ← or_fail (clone_observation "clone_source_drift") (source_confirm_current (pc_source prepared));
      fresh_source ← or_fail (clone_observation "clone_source_drift")
        (confirm_stopped_clone_source (pc_generation prepared));
      _ ← confirm_target_absent (pc_target_request prepared);
      _ ← or_fail (clone_observation "clone_source_drift") (source_confirm_current fresh_source);
      _ ← verify_limactl;
      final ← admission_observe started reservation;
      command_now ← clone_clock;
      if at_not_after attempt <? command_now
      then lift (Err (clone_recovery "clone_expired_before_command"))
      else
        _ ← lift (admission_validate_for final started reservation command_now);
        mret (mkReadyClone prepared (wr_disk_bytes (dr_resources reservation))).

Definition execute_checkpointed_clone_locked (checkpoint_ready : CheckpointReadyClone)
    : hio (DisposableVmIdentity * DisposableLimaWorkerCommandPlan) :=
  let prepared := crc_prepared checkpoint_ready in
  let plan := pc_plan prepared in
  let request := pc_target_request prepared in
  record ← or_fail (clone_command_error "clone_command_failed")
    (execute_with_timeout (lwp_command plan) (1000 * lwp_timeout plan));
  _ ← lift (validate_record (lwp_command plan) record);
  host ← or_fail (clone_observation "clone_host_identity_unavailable") (host_observe request);
  if negb (ho_root_disk_bytes host =? crc_expected_disk_bytes checkpoint_ready)
  then lift (Err (clone_observation "clone_host_disk_mismatch"))
  else
    _ ← or_fail (clone_observation "clone_host_identity_drift") (host_confirm host request);
    _ ← or_fail (clone_observation "clone_source_drift")
          (confirm_stopped_clone_source (pc_generation prepared));
    _ ← or_fail (clone_observation "clone_host_identity_drift") (host_confirm host request);
    mret (from_host_identity (ho_identity host), plan).

Definition clone_receipt (bound : DisposableAttemptCatalogDocument) (attempt_id : DisposableAttemptId)
    (plan : DisposableLimaWorkerCommandPlan) : result DisposableCloneRuntimeError DisposableCloneRuntimeReceipt :=
  reservation ← clone_attempt bound attempt_id;
  let attempt := dr_attempt reservation in
  if bool_decide (at_phase attempt ≠ PhaseCloneStarted) || negb (is_some (at_vm_identity attempt))
  then Err (clone_recovery "clone_identity_not_bound")
  else Ok (mkCloneReceipt DISPOSABLE_CLONE_RUNTIME_SCHEMA_VERSION attempt_id (cd_revision bound)
             (at_revision attempt) (lwp_command_identity plan)).

(** *** Registration *)

Definition confirm_current (code : string) (confirmed : ConfirmedMachine) : hio () :=
  or_fail (clone_observation code) (host_confirm (cm_host confirmed) (cm_request confirmed)).

Definition confirm_ready_worker_bound (reservation : DisposableAttemptReservation) : hio ConfirmedMachine :=
  expected_identity ← lift (ok_or (at_vm_identity (dr_attempt reservation))
                              (clone_recovery "clone_worker_identity_missing"));
  prepared_template_identity ← lift current_template_identity;
  if bool_decide (dr_prepared_template_identity reservation ≠ prepared_template_identity)
  then lift (Err (clone_recovery "clone_prepared_template_drift"))
  else
    request ← lift (target_request "clone_target_request_invalid" reservation);
    host ← or_fail (clone_observation "clone_worker_not_ready")
      (confirm_running_clone_target request (dr_resources reservation));
    if bool_decide (from_host_identity (ho_identity host) ≠ expected_identity)
    then lift (Err (clone_recovery "clone_worker_identity_drift"))
    else
      _ ← or_fail (clone_observation "clone_worker_identity_drift") (host_confirm host request);
      mret (mkConfirmed host request).

Definition confirm_ready_worker (reservation : DisposableAttemptReservation) : hio ConfirmedMachine :=
  match at_phase (dr_attempt reservation) with
  | PhaseRegistering | PhaseAssigned => confirm_ready_worker_bound reservation
  | _ => lift (Err (clone_recovery "clone_worker_phase_mismatch"))
  end.

(** The checkpoint of a worker that is given up before it is registered: the
    reconciler has to ask for it. *)
Definition cleanup_checkpoint (now : EpochMillis) (reservation : DisposableAttemptReservation)
    (capacity_reserved cancellation_requested : bool)
    : result DisposableCloneRuntimeError DisposableAttemptCatalogAction :=
  action ← map_err (λ _, clone_recovery "clone_reconcile_failed")
    (reconcile_attempt (mkReconcileInput now (dr_attempt reservation) VmUnknown None RunnerUnknown None
       capacity_reserved cancellation_requested));
  if bool_decide (action = Persist BeginCleanup) then Ok BeginCleanup
  else Err (clone_recovery "clone_cleanup_checkpoint_refused").

Definition authorize_registration_locked `{DisposableCloneAdmissionSource H}
    (catalog : DisposableAttemptCatalogDocument) (attempt_id : DisposableAttemptId)
    : hio DisposableAttemptCatalogAction :=
  reservation ← lift (clone_attempt catalog attempt_id);
  let attempt := dr_attempt reservation in
  if bool_decide (at_phase attempt ≠ PhaseCloneStarted) || negb (is_some (at_vm_identity attempt))
  then lift (Err (clone_recovery "clone_registration_phase_mismatch"))
  else
    preflight_at ← clone_clock;
    if at_not_after attempt <? preflight_at
    then lift (cleanup_checkpoint preflight_at reservation true false)
    else
      ready ← confirm_ready_worker_bound reservation;
      _ ← confirm_current "clone_worker_identity_drift" ready;
      admission ← admission_observe catalog reservation;
      observed_at ← clone_clock;
      _ ← lift (validate_identity_and_freshness_for admission catalog reservation observed_at);
      _ ← confirm_current "clone_worker_identity_drift" ready;
      if negb (cao_capacity_reserved admission) || cao_cancellation_requested admission
         || (at_not_after attempt <? observed_at)
      then lift (cleanup_checkpoint observed_at reservation (cao_capacity_reserved admission)
                   (cao_cancellation_requested admission))
      else
        checkpoint_at ← clone_clock;
        _ ← lift (validate_identity_and_freshness_for admission catalog reservation checkpoint_at);
        let transition :=
          if at_not_after attempt <? checkpoint_at then BeginCleanup else BeginRegistration in
        action ← lift (map_err (λ _, clone_recovery "clone_reconcile_failed")
          (reconcile_attempt (mkReconcileInput checkpoint_at attempt VmReady (at_vm_identity attempt)
             RunnerUnknown None (cao_capacity_reserved admission)
             (cao_cancellation_requested admission))));
        if bool_decide (action ≠ Persist transition)
        then lift (Err (clone_recovery "clone_registration_refused"))
        else
          _ ← (if bool_decide (transition = BeginRegistration)
               then confirm_current "clone_worker_identity_drift" ready else mret ());
          mret transition.

(** *** Cleanup *)

(** [matches!(phase, Destroying | Deregistering | Releasing)]. *)
Definition is_cleanup_phase (phase : DisposableAttemptPhase) : bool :=
  match phase with
  | PhaseDestroying | PhaseDeregistering | PhaseReleasing => true
  | _ => false
  end.

Definition observe_cleanup_worker (reservation : DisposableAttemptReservation)
    : hio DisposableCleanupVmObservation :=
  if negb (is_cleanup_phase (at_phase (dr_attempt reservation)))
  then lift (Err (clone_recovery "cleanup_vm_phase_mismatch"))
  else
    expected_identity ← lift (ok_or (at_vm_identity (dr_attempt reservation))
                                (clone_recovery "cleanup_vm_identity_missing"));
    request ← lift (target_request "cleanup_target_request_invalid" reservation);
    _ ← verify_limactl;
    if negb (valid_absolute_path (ccr_limactl_program self) false)
    then lift (Err (clone_invalid_configuration "cleanup_observer_invalid"))
    else
      catch (lima_observe (ccr_limactl_program self) request) (λ lima,
      catch (host_observe_cleanup request) (λ host,
        match lima, host with
        | Err LimaMissingInstanceEvidence, Err HostMissingEvidence => mret CleanupVmAbsent
        | Ok _, Ok host =>
            if negb (ho_root_disk_bytes host =? wr_disk_bytes (dr_resources reservation))
               || negb (matches_host_identity expected_identity (ho_identity host))
            then lift (Err (clone_recovery "cleanup_vm_identity_drift"))
            else
              _ ← or_fail (clone_observation "cleanup_vm_identity_drift") (host_confirm host request);
              mret (CleanupVmPresent (mkConfirmed host request))
        | Panic, _ | _, Panic => lift Panic
        | Err code, _ =>
            if bool_decide (code ≠ LimaMissingInstanceEvidence)
            then lift (Err (clone_observation "cleanup_vm_observation_unavailable"))
            else lift (Err (clone_recovery "cleanup_vm_control_host_conflict"))
        | _, _ => lift (Err (clone_recovery "cleanup_vm_control_host_conflict"))
        end)).

Definition destroy_cleanup_worker (reservation : DisposableAttemptReservation) (confirmed : ConfirmedMachine)
    : hio () :=
  _ ← confirm_current "cleanup_vm_identity_drift" confirmed;
  _ ← verify_limactl;
  _ ← confirm_current "cleanup_vm_identity_drift" confirmed;
  now ← or_fail (clone_observation "cleanup_clock_unavailable") epoch_millis;
  plan ← lift (map_err (λ _, clone_recovery "cleanup_destroy_plan_refused")
            (worker_plan (ccr_worker self) now reservation DestroyVm));
  if bool_decide (lwp_kind plan ≠ CommandDestroy)
  then lift (Err (clone_recovery "cleanup_destroy_plan_mismatch"))
  else
    _ ← confirm_current "cleanup_vm_identity_drift" confirmed;
    record ← or_fail (clone_command_error "cleanup_destroy_command_failed")
      (execute_with_timeout (lwp_command plan) (1000 * lwp_timeout plan));
    _ ← lift (map_err (λ _, clone_command_error "cleanup_destroy_record_mismatch")
                (validate_record (lwp_command plan) record));
    observed ← observe_cleanup_worker reservation;
    match observed with
    | CleanupVmAbsent => mret ()
    | CleanupVmPresent _ => lift (Err (clone_recovery "cleanup_destroy_not_observed"))
    end.
End runtime.
