(* ===== verification/RunnerRuntime.v ===== *)
(** * Starting the runner of a disposable worker

    [src/src/disposable_runner_runtime.rs]: the one command that carries a
    generated configuration into the machine, bound to the attempt it was
    planned for.  The command of the second backend, a Linux host that is owned
    outright ([owned_linux_jit_runtime.rs]), is a parameter. *)

From S2P Require Import Prelude Artifact ExecutionAdmission ScaleSetProtocol AttemptState WorkerReconciler AttemptCatalog.
From S2P Require Import FileSystem DeliveryConsumer RecoveryCodec TemplateGeneration WorkerCommands WorkerRuntime.

Local Open Scope N_scope.

Definition RUNNER_WORK_DIRECTORY : string := "/opt/smolrunner/actions-runner".
Definition JIT_LAUNCHER : string := "/opt/smolrunner/bin/smolrunner-jit-launcher".
Definition SUDO : string := "/usr/bin/sudo".
Definition ENV : string := "/usr/bin/env".
Definition RUNNER_USER : string := "smolrunner-runner".
Definition RUNNER_HOME : string := "/var/lib/smolrunner-runner".

(** [EncodedJitConfig::into_zeroizing_string]. *)
Definition into_zeroizing_string (config : bytes) : option string :=
  String_from_utf8 config.

Definition runner_invalid_configuration : DisposableRunnerRuntimeError :=
  mkRunnerError RrConfiguration "runner_runtime_configuration_invalid".

(** [validate_private_path]; that every component is the root or a name follows
    on Unix from the tests before. *)
Definition runner_validate_private_path (raw : string) : result DisposableRunnerRuntimeError string :=
  if negb (starts_with "/"%char raw)
     || String.eqb raw "/"
     || (MAX_PRIVATE_PATH_BYTES <? str_len raw)
     || bytes_any is_ascii_control raw
     || contains_doubled "/"%char raw
     || ends_with "/"%char raw
     || has_dot_component raw
  then Err runner_invalid_configuration
  else Ok raw.

Definition is_jit_byte (byte : ascii) : bool :=
  is_ascii_alphanumeric byte || Ascii.eqb byte "+"%char || Ascii.eqb byte "/"%char
  || Ascii.eqb byte "="%char || Ascii.eqb byte "_"%char || Ascii.eqb byte "-"%char.

Definition validate_jit (value : string) : result DisposableRunnerRuntimeError () :=
  if str_is_empty value || negb (bytes_all is_jit_byte value)
  then Err (mkRunnerError RrJitConfiguration "runner_jit_value_invalid")
  else Ok ().

(** The command of an owned Linux host. *)
Class OwnedLinux := {
  OwnedLinuxJitRuntime : Type;
  owned_runner_command : OwnedLinuxJitRuntime → DisposableAttemptReservation → EpochMillis → string →
    result DisposableRunnerRuntimeError CommandSpec;
}.

Inductive DisposableRunnerBackend `{OwnedLinux} :=
| BackendLima (limactl_program lima_home : string)
| BackendOwnedLinux (runtime : OwnedLinuxJitRuntime).

(** The trait [DisposableRunnerTargetRuntime]. *)
Class DisposableRunnerTargetRuntime (H T : Type) := {
  Confirmation : Type;
  confirm_runner_target : T → DisposableAttemptReservation → prog H DisposableRunnerRuntimeError Confirmation;
  reconfirm_runner_target : T → Confirmation → DisposableAttemptReservation →
    prog H DisposableRunnerRuntimeError ();
}.

#[export] Instance clone_target_runtime
    `{IdentitySerde, Sha256Hasher, PreparedTemplate} {H}
    `{TimedCommandExecutor H, CloneRuntimeClock H, WorkerViews H}
    : DisposableRunnerTargetRuntime H DisposableCloneRuntime := {|
  Confirmation := ConfirmedMachine;
  confirm_runner_target self reservation :=
    or_fail (runner_observation "runner_target_not_ready") (confirm_ready_worker self reservation);
  reconfirm_runner_target _ confirmation _ :=
    or_fail (runner_observation "runner_target_identity_drift")
      (confirm_current "clone_worker_identity_drift" confirmation);
|}.

Record DisposableRunnerLaunchPlan := mkLaunchPlan {
  lp_attempt_id : DisposableAttemptId;
  lp_attempt_revision : DisposableAttemptRevision;
  lp_vm_identity : DisposableVmIdentity;
  lp_runner : ScaleSetRunnerReference;
  lp_not_after : EpochMillis;
  lp_command : CommandSpec;
}.

Record DisposableRunnerCommandReceipt := mkRunnerReceipt {
  rcr_attempt_id : DisposableAttemptId;
  rcr_attempt_revision : DisposableAttemptRevision;
  rcr_runner : ScaleSetRunnerReference;
}.

(** [matches!(phase, Registering | Assigned)]. *)
Definition is_handoff_phase (phase : DisposableAttemptPhase) : bool :=
  match phase with
  | PhaseRegistering | PhaseAssigned => true
  | _ => false
  end.

Section runner.
Context `{OWNED : OwnedLinux}.

Definition DisposableRunnerRuntime_new (limactl_program lima_home : string)
    : result DisposableRunnerRuntimeError DisposableRunnerBackend :=
  limactl_program ← runner_validate_private_path limactl_program;
  lima_home ← runner_validate_private_path lima_home;
  Ok (BackendLima limactl_program lima_home).

(** [base_command] of the Lima backend. *)
Definition runner_base_command (limactl_program lima_home : string) : CommandSpec :=
  environment "PATH" LIMACTL_SAFE_PATH (environment "LC_ALL" "C" (environment "LANG" "C"
    (secret_environment "LIMA_HOME" lima_home (environment "HOME" LIMACTL_SAFE_HOME
      (argument "--tty=false" (CommandSpec_new limactl_program)))))).

Definition lima_launch_command (limactl_program lima_home : string) (vm_id : DisposableVmId)
    (encoded : string) : CommandSpec :=
  zeroizing_secret_stdin_line encoded
    (with_arguments ["shell"; "--workdir"; RUNNER_WORK_DIRECTORY; vm_id; SUDO; "--non-interactive";
       "--set-home"; "--user"; RUNNER_USER; ENV; "-i"; "HOME=" +:+ RUNNER_HOME; "PATH=/usr/bin:/bin";
       JIT_LAUNCHER] (runner_base_command limactl_program lima_home)).

Definition validate_pre_jit_candidate (reservation : DisposableAttemptReservation) (now : EpochMillis)
    : result DisposableRunnerRuntimeError () :=
  let attempt := dr_attempt reservation in
  if negb (is_handoff_phase (at_phase attempt))
     || negb (is_some (at_vm_identity attempt))
     || is_some (at_runner_id attempt)
     || at_jit_generation_started attempt
     || at_runner_start_started attempt
     || (at_not_after attempt <? now)
  then Err (runner_recovery "runner_pre_jit_state_invalid")
  else Ok ().

Definition plan_launch (self : DisposableRunnerBackend) (reservation : DisposableAttemptReservation)
    (now : EpochMillis) (jit : ScaleSetJitReceipt)
    : result DisposableRunnerRuntimeError DisposableRunnerLaunchPlan :=
  let attempt := dr_attempt reservation in
  if negb (is_handoff_phase (at_phase attempt))
     || negb (is_some (at_vm_identity attempt))
     || is_some (at_runner_id attempt)
     || negb (at_jit_generation_started attempt)
     || at_runner_start_started attempt
     || (at_not_after attempt <? now)
  then Err (mkRunnerError RrState "runner_launch_state_invalid")
  else if bool_decide (rr_name (jr_runner jit) ≠ at_runner_name attempt)
  then Err (mkRunnerError RrState "runner_launch_name_mismatch")
  else
    encoded ← ok_or (into_zeroizing_string (jr_config jit))
      (mkRunnerError RrJitConfiguration "runner_jit_encoding_invalid");
    _ ← validate_jit encoded;
    command ←
      match self with
      | BackendLima limactl_program lima_home =>
          Ok (lima_launch_command limactl_program lima_home (at_vm_id attempt) encoded)
      | BackendOwnedLinux runtime => owned_runner_command runtime reservation now encoded
      end;
    vm_identity ← expect (at_vm_identity attempt);
    Ok (mkLaunchPlan (at_attempt_id attempt) (at_revision attempt) vm_identity (jr_runner jit)
          (at_not_after attempt) command).

(** The attempt is the one the plan was made for, [steps] revisions later. *)
Definition plan_matches (self : DisposableRunnerLaunchPlan) (attempt : DisposableAttemptState) (steps : N)
    (now : EpochMillis) : bool :=
  bool_decide (at_attempt_id attempt = lp_attempt_id self)
  && (at_revision attempt =? lp_attempt_revision self + steps)
  && bool_decide (at_vm_identity attempt = Some (lp_vm_identity self))
  && bool_decide (at_runner_id attempt = Some (rr_id (lp_runner self)))
  && bool_decide (at_runner_name attempt = rr_name (lp_runner self))
  && at_jit_generation_started attempt
  && (at_not_after attempt =? lp_not_after self)
  && (now <=? lp_not_after self).

Definition validate_registered (self : DisposableRunnerLaunchPlan)
    (reservation : DisposableAttemptReservation) (now : EpochMillis)
    : result DisposableRunnerRuntimeError () :=
  if negb (plan_matches self (dr_attempt reservation) 1 now)
     || at_runner_start_started (dr_attempt reservation)
  then Err (runner_recovery "runner_registration_checkpoint_mismatch")
  else Ok ().

Definition execute_started {H} `{TimedCommandExecutor H} (self : DisposableRunnerLaunchPlan)
    (reservation : DisposableAttemptReservation) (now : EpochMillis)
    : prog H DisposableRunnerRuntimeError DisposableRunnerCommandReceipt :=
  let attempt := dr_attempt reservation in
  if negb (plan_matches self attempt 2 now) || negb (at_runner_start_started attempt)
  then lift (Err (runner_recovery "runner_start_checkpoint_mismatch"))
  else
    remaining_millis ← lift (ok_or
      (remaining ← checked_sub (lp_not_after self) now; if 0 <? remaining then Some remaining else None)
      (runner_recovery "runner_attempt_expired"));
    record ← or_fail (runner_command_error "runner_command_failed")
      (execute_with_timeout (lp_command self) remaining_millis);
    if bool_decide (er_argv record ≠ displayed_argv (lp_command self))
       || bool_decide (er_environment_keys record ≠ environment_keys (lp_command self))
       || bool_decide (er_status record ≠ Some 0%Z)
       || negb (er_success record)
       || negb (str_is_empty (er_stdout record))
       || negb (str_is_empty (er_stderr record))
    then lift (Err (runner_command_error "runner_command_record_mismatch"))
    else mret (mkRunnerReceipt (lp_attempt_id self) (at_revision attempt) (lp_runner self)).
End runner.
