(* ===== verification/WorkerTransactions.v ===== *)
(** * Transactions of a disposable worker

    [src/src/unix_personal_worker_store/disposable_clone_transaction.rs],
    [disposable_runner_transaction.rs] and [disposable_cleanup_transaction.rs]
    beside it: each holds the lock of the store while it reads the catalog,
    looks at the host, publishes its checkpoints and runs its one command.  The
    state is the directory beside the host. *)

From S2P Require Import Prelude Artifact WorkerQueue StoreWire WorkerStore StoreCodec FileSystem UnixStore.
From S2P Require Import ExecutionAdmission ScaleSetProtocol AttemptState WorkerReconciler AttemptCatalog AttemptCodec.
From S2P Require Import DeliveryConsumer CatalogDisk DeliveryDisk TemplateGeneration WorkerCommands WorkerRuntime RunnerRuntime.

Local Open Scope N_scope.

Definition GENERATION_DOCUMENT : string := "disposable-template-generation.json".

(** [map_generation_error]. *)
Definition map_generation_error (error : DisposableTemplateGenerationError) : PersonalWorkerStoreError :=
  store_error
    match tge_kind error with
    | TgVersionIncompatible => VersionIncompatible
    | TgStaleRevision | TgInvalidTransition | TgRevisionExhausted => RevisionConflict
    | TgInvalidDocument | TgNonCanonical => CorruptState
    end "disposable-template generation state is invalid".

Definition load_template_generation_named `{GenerationSerde} (self : UnixPersonalWorkerStore) (name : string)
    : io PersonalWorkerStoreError (option DisposableTemplateGenerationDocument) :=
  found ← read_named_bytes_bounded self name TemplateGeneration.MAX_DISPOSABLE_TEMPLATE_GENERATION_BYTES;
  lift (traverse_option (λ b, map_err map_generation_error (decode_disposable_template_generation b)) found).

Inductive DisposableRunnerTransactionOutcome :=
| RegistrationRecovered (attempt_id : string)
| CommandCompleted (receipt : DisposableRunnerCommandReceipt).

Section transactions.
Context `{SER : !StoreSerde, DS : !DocumentSerde, LIMA : !LimaAuthorityReader, SERDE : CatalogSerde,
  GSERDE : GenerationSerde, ISERDE : IdentitySerde, HASHER : Sha256Hasher, TEMPLATE : PreparedTemplate,
  OWNED : OwnedLinux} {H : Type}
  `{EXEC : TimedCommandExecutor H, CLOCK : CloneRuntimeClock H, VIEWS : WorkerViews H}
  (self : UnixPersonalWorkerStore).

Abbreviation wio := (prog (World * H)).

(** A call of the host. *)
Definition host {E A} (call : prog H E A) : wio E A := λ '(w, h),
  let '(h', out) := call h in ((w, h'), out).

(** [call.map_err(|_| error)] on a call of the store. *)
Definition store_call {E E' A} (error : E') (call : io E A) : wio E' A := failing (λ _, error) (disk call).

(** A block that holds the writer lock. *)
Definition holding_lock {E A} (error : E) (body : wio E A) : wio E A :=
  _ ← store_call error (acquire_mutation_lock self);
  catch body (λ r, catch (disk funlock) (λ _, lift r)).

(** A step of the catalog that is accepted as its successor. *)
Definition successor {E} (refused invalid : E) (current : DisposableAttemptCatalogDocument)
    (next : result DisposableAttemptCatalogError DisposableAttemptCatalogDocument)
    : result E DisposableAttemptCatalogDocument :=
  next ← map_err (λ _, refused) next;
  _ ← map_err (λ _, invalid) (catalog_validate_successor_of next current);
  Ok next.

(** [stage_catalog] and [publish_named_staged]. *)
Definition publish_catalog {E} (stage_error publish_error : E) (document : DisposableAttemptCatalogDocument)
    : wio E () :=
  staged ← store_call stage_error (stage_catalog self document);
  store_call publish_error (always_drop (publish_named_staged staged CATALOG_DOCUMENT false)).

(** ** Clone *)

(** [prepare_clone_transaction], under the lock. *)
Definition prepare_clone_transaction : wio DisposableCloneRuntimeError () :=
  _ ← store_call (clone_durable "clone_store_sync_failed") synchronize_directory;
  _ ← store_call (clone_recovery "clone_template_recovery_required")
        (disposable_template_generation_refuse_unsettled self);
  _ ← store_call (clone_recovery "clone_lima_recovery_required") (refuse_unsettled_lima_authority self);
  _ ← store_call (clone_recovery "clone_delivery_recovery_required")
        (scale_set_delivery_recovery_refuse_unsettled self);
  _ ← store_call (clone_recovery "clone_worker_recovery_required")
        (refuse_unsettled_personal_worker_state self);
  store_call (clone_recovery "clone_catalog_recovery_failed") (recover_catalog_locked self).

Definition load_clone_catalog : wio DisposableCloneRuntimeError DisposableAttemptCatalogDocument :=
  found ← store_call (clone_durable "clone_catalog_unavailable") (load_catalog_named self CATALOG_DOCUMENT);
  lift (ok_or found (clone_durable "clone_catalog_missing")).

Definition publish_clone_catalog (document : DisposableAttemptCatalogDocument)
    (stage_code publish_code : string) : wio DisposableCloneRuntimeError () :=
  publish_catalog (clone_durable stage_code) (clone_recovery publish_code) document.

(** The phase of the attempt in a catalog. *)
Definition clone_phase (catalog : DisposableAttemptCatalogDocument) (attempt_id : DisposableAttemptId)
    : result DisposableCloneRuntimeError DisposableAttemptPhase :=
  reservation ← clone_attempt catalog attempt_id;
  Ok (at_phase (dr_attempt reservation)).

Definition authorize_disposable_clone_transaction (runtime : DisposableCloneRuntime)
    (attempt_id : DisposableAttemptId) : wio DisposableCloneRuntimeError DisposableCloneTransactionOutcome :=
  holding_lock (clone_durable "clone_store_lock_unavailable") (
    _ ← prepare_clone_transaction;
    current ← load_clone_catalog;
    transition ← host (authorize_locked runtime current attempt_id);
    reservation ← lift (clone_attempt current attempt_id);
    next ← lift (successor (clone_recovery "clone_authorization_refused")
                   (clone_recovery "clone_authorization_invalid") current
                   (replace_attempt current attempt_id (at_revision (dr_attempt reservation)) transition));
    _ ← publish_clone_catalog next "clone_authorization_stage_failed" "clone_authorization_publish_ambiguous";
    phase ← lift (clone_phase next attempt_id);
    mret (PrecloneCheckpointed attempt_id phase)).

(** The clone of an attempt that has expired is given up. *)
Definition checkpoint_precommand_cleanup (current : DisposableAttemptCatalogDocument)
    (attempt_id : DisposableAttemptId) (transition : DisposableAttemptCatalogAction)
    : wio DisposableCloneRuntimeError DisposableCloneTransactionOutcome :=
  reservation ← lift (clone_attempt current attempt_id);
  next ← lift (successor (clone_recovery "clone_precommand_cleanup_refused")
                 (clone_recovery "clone_precommand_cleanup_invalid") current
                 (replace_attempt current attempt_id (at_revision (dr_attempt reservation)) transition));
  phase ← lift (clone_phase next attempt_id);
  _ ← publish_clone_catalog next "clone_precommand_cleanup_stage_failed"
        "clone_precommand_cleanup_publish_ambiguous";
  mret (PrecloneCheckpointed attempt_id phase).

(** The machine that was cloned is bound to its attempt. *)
Definition bind_cloned_machine (runtime : DisposableCloneRuntime)
    (started : DisposableAttemptCatalogDocument) (attempt_id : DisposableAttemptId)
    (identity : DisposableVmIdentity) (plan : DisposableLimaWorkerCommandPlan)
    : wio DisposableCloneRuntimeError DisposableCloneTransactionOutcome :=
  started_reservation ← lift (clone_attempt started attempt_id);
  bound ← lift (map_err (λ _, clone_recovery "clone_identity_bind_refused")
             (catalog_bind_vm_identity started attempt_id (at_revision (dr_attempt started_reservation))
                identity));
  _ ← lift (map_err (λ _, clone_recovery "clone_identity_bind_invalid")
              (validate_recovery_successor_of bound started));
  _ ← publish_clone_catalog bound "clone_identity_stage_failed" "clone_identity_publish_ambiguous";
  receipt ← lift (clone_receipt bound attempt_id plan);
  mret (CloneTransactionCompleted receipt).

(** The clone itself: prepared, checkpointed, then run. *)
Definition run_clone `{DisposableCloneAdmissionSource H} (runtime : DisposableCloneRuntime)
    (current : DisposableAttemptCatalogDocument) (attempt_id : DisposableAttemptId)
    : wio DisposableCloneRuntimeError DisposableCloneTransactionOutcome :=
  found ← store_call (clone_durable "clone_generation_unavailable")
    (load_template_generation_named self GENERATION_DOCUMENT);
  generation ← lift (ok_or found (clone_durable "clone_generation_missing"));
  prepared ← host (prepare_locked runtime current generation attempt_id);
  reservation ← lift (clone_attempt current attempt_id);
  started ← lift (successor (clone_recovery "clone_checkpoint_refused")
                    (clone_recovery "clone_checkpoint_invalid") current
                    (checkpoint_clone_started current attempt_id (at_revision (dr_attempt reservation))));
  ready ← host (preflight_checkpointed_clone_locked runtime started attempt_id prepared);
  _ ← publish_clone_catalog started "clone_checkpoint_stage_failed" "clone_checkpoint_publish_ambiguous";
  '(identity, plan) ← host (execute_checkpointed_clone_locked ready);
  bind_cloned_machine runtime started attempt_id identity plan.

Definition execute_disposable_clone_transaction `{DisposableCloneAdmissionSource H}
    (runtime : DisposableCloneRuntime) (attempt_id : DisposableAttemptId)
    : wio DisposableCloneRuntimeError DisposableCloneTransactionOutcome :=
  holding_lock (clone_durable "clone_store_lock_unavailable") (
    _ ← prepare_clone_transaction;
    current ← load_clone_catalog;
    authorization ← host (authorize_clone_execution_locked current attempt_id);
    match authorization with
    | Some transition => checkpoint_precommand_cleanup current attempt_id transition
    | None => run_clone runtime current attempt_id
    end).

Definition checkpoint_disposable_registration_transaction `{DisposableCloneAdmissionSource H}
    (runtime : DisposableCloneRuntime) (attempt_id : DisposableAttemptId)
    : wio DisposableCloneRuntimeError DisposableCloneTransactionOutcome :=
  holding_lock (clone_durable "clone_store_lock_unavailable") (
    _ ← prepare_clone_transaction;
    current ← load_clone_catalog;
    transition ← host (authorize_registration_locked runtime current attempt_id);
    reservation ← lift (clone_attempt current attempt_id);
    next ← lift (successor (clone_recovery "clone_registration_checkpoint_refused")
                   (clone_recovery "clone_registration_checkpoint_invalid") current
                   (replace_attempt current attempt_id (at_revision (dr_attempt reservation)) transition));
    phase ← lift (clone_phase next attempt_id);
    _ ← publish_clone_catalog next "clone_registration_checkpoint_stage_failed"
          "clone_registration_checkpoint_publish_ambiguous";
    mret (RegistrationCheckpointed attempt_id phase)).

(** ** Cleanup *)

Definition cleanup_attempt (catalog : DisposableAttemptCatalogDocument) (attempt_id : DisposableAttemptId)
    : result DisposableCloneRuntimeError DisposableAttemptReservation :=
  ok_or (find_active catalog attempt_id) (clone_durable "cleanup_attempt_missing").

Definition publish_cleanup_action (current : DisposableAttemptCatalogDocument)
    (attempt_id : DisposableAttemptId) (action : DisposableAttemptCatalogAction)
    : wio DisposableCloneRuntimeError DisposableCleanupTransactionOutcome :=
  reservation ← lift (cleanup_attempt current attempt_id);
  next ← lift (successor (clone_recovery "cleanup_checkpoint_refused")
                 (clone_recovery "cleanup_checkpoint_invalid") current
                 (replace_attempt current attempt_id (at_revision (dr_attempt reservation)) action));
  next_reservation ← lift (cleanup_attempt next attempt_id);
  let next_phase := at_phase (dr_attempt next_reservation) in
  _ ← publish_catalog (clone_durable "cleanup_checkpoint_stage_failed")
        (clone_recovery "cleanup_checkpoint_publish_ambiguous") next;
  mret (if bool_decide (next_phase = PhaseComplete) then CapacityReleased attempt_id
        else CleanupCheckpointed attempt_id next_phase).

Definition retire_attempt (current : DisposableAttemptCatalogDocument)
    (attempt_id : DisposableAttemptId) (reservation : DisposableAttemptReservation)
    : wio DisposableCloneRuntimeError DisposableCleanupTransactionOutcome :=
  retired ← lift (successor (clone_recovery "cleanup_retirement_refused")
                    (clone_recovery "cleanup_retirement_invalid") current
                    (catalog_retire_complete current attempt_id (at_revision (dr_attempt reservation))));
  _ ← publish_catalog (clone_durable "cleanup_retirement_stage_failed")
        (clone_recovery "cleanup_retirement_publish_ambiguous") retired;
  mret (AttemptRetired attempt_id).

(** What the reconciler makes of a machine and a runner. *)
Definition reconcile_cleanup (now : EpochMillis) (attempt : DisposableAttemptState)
    (vm : DisposableVmObservation) (vm_identity : option DisposableVmIdentity)
    (runner : ScaleSetRunnerObservation) : result DisposableCloneRuntimeError DisposableWorkerAction :=
  map_err (λ _, clone_recovery "cleanup_reconcile_failed")
    (reconcile_attempt (mkReconcileInput now attempt vm vm_identity runner None true false)).

(** The machine is there: it is destroyed. *)
Definition destroy_present (runtime : DisposableCloneRuntime) (attempt_id : DisposableAttemptId)
    (reservation : DisposableAttemptReservation) (now : EpochMillis) (confirmed : ConfirmedMachine)
    : wio DisposableCloneRuntimeError DisposableCleanupTransactionOutcome :=
  action ← lift (reconcile_cleanup now (dr_attempt reservation) VmStopped
              (at_vm_identity (dr_attempt reservation)) RunnerUnknown);
  if bool_decide (action ≠ DestroyVm) then lift (Err (clone_recovery "cleanup_destroy_not_authorized"))
  else
    _ ← host (destroy_cleanup_worker runtime reservation confirmed);
    mret (VmDestroyed attempt_id).

(** The machine is gone: its registration and its capacity are given up. *)
Definition finish_absent `{DisposableCleanupRunnerSource H} (current : DisposableAttemptCatalogDocument)
    (attempt_id : DisposableAttemptId) (reservation : DisposableAttemptReservation) (now : EpochMillis)
    : wio DisposableCloneRuntimeError DisposableCleanupTransactionOutcome :=
  let attempt := dr_attempt reservation in
  runner ←
    (if bool_decide (at_phase attempt = PhaseDestroying) then mret RunnerUnknown
     else
       lookup ← host (cleanup_observe_runner (at_runner_name attempt));
       mret match lookup with
            | LookupAbsent => RunnerAbsent
            | LookupPresent runner => RunnerRegistrationOnly runner
            end);
  action ← lift (reconcile_cleanup now attempt VmAbsent None runner);
  match action with
  | Persist transition => publish_cleanup_action current attempt_id transition
  | DeleteRunner runner =>
      _ ← host (cleanup_remove_runner runner);
      lookup ← host (cleanup_observe_runner (at_runner_name attempt));
      match lookup with
      | LookupAbsent => mret (RunnerDeleted attempt_id)
      | LookupPresent _ => lift (Err (clone_recovery "cleanup_runner_delete_not_observed"))
      end
  | ReleaseCapacity => publish_cleanup_action current attempt_id (AdvanceCleanup PhaseComplete)
  | _ => lift (Err (clone_recovery "cleanup_action_not_executable"))
  end.

(** The guards of the cleanup, under the lock. *)
Definition prepare_cleanup_transaction : wio DisposableCloneRuntimeError () :=
  _ ← store_call (clone_durable "cleanup_store_sync_failed") synchronize_directory;
  _ ← store_call (clone_recovery "cleanup_template_recovery_required")
        (disposable_template_generation_refuse_unsettled self);
  _ ← store_call (clone_recovery "cleanup_delivery_recovery_required")
        (scale_set_delivery_recovery_refuse_unsettled self);
  _ ← store_call (clone_recovery "cleanup_lima_recovery_required") (refuse_unsettled_lima_authority self);
  _ ← store_call (clone_recovery "cleanup_worker_recovery_required")
        (refuse_unsettled_personal_worker_state self);
  store_call (clone_recovery "cleanup_catalog_recovery_failed") (recover_catalog_locked self).

Definition execute_disposable_cleanup_transaction `{DisposableCleanupRunnerSource H}
    (runtime : DisposableCloneRuntime) (attempt_id : DisposableAttemptId)
    : wio DisposableCloneRuntimeError DisposableCleanupTransactionOutcome :=
  holding_lock (clone_durable "cleanup_store_lock_unavailable") (
    _ ← prepare_cleanup_transaction;
    found ← store_call (clone_durable "cleanup_catalog_unavailable")
      (load_catalog_named self CATALOG_DOCUMENT);
    current ← lift (ok_or found (clone_durable "cleanup_catalog_missing"));
    reservation ← lift (cleanup_attempt current attempt_id);
    let attempt := dr_attempt reservation in
    let phase := at_phase attempt in
    if bool_decide (phase = PhaseUnprovisionedReleasing)
    then publish_cleanup_action current attempt_id CompleteUnprovisioned
    else if bool_decide (phase = PhaseComplete)
    then retire_attempt current attempt_id reservation
    else if bool_decide (phase = PhaseTerminal)
    then publish_cleanup_action current attempt_id BeginCleanup
    else if is_handoff_phase phase && is_some (at_runner_id attempt)
            && negb (at_runner_start_started attempt)
    then publish_cleanup_action current attempt_id BeginCleanup
    else if negb (is_cleanup_phase phase)
    then lift (Err (clone_recovery "cleanup_phase_mismatch"))
    else
      now ← host (or_fail (clone_observation "cleanup_clock_unavailable") epoch_millis);
      vm ← host (observe_cleanup_worker runtime reservation);
      match vm with
      | CleanupVmPresent confirmed => destroy_present runtime attempt_id reservation now confirmed
      | CleanupVmAbsent => finish_absent current attempt_id reservation now
      end).

(** ** Runner *)

(** The guards of the runner transaction, under the lock. *)
Definition prepare_runner_transaction : wio DisposableRunnerRuntimeError () :=
  _ ← store_call (runner_durable "runner_store_sync_failed") synchronize_directory;
  _ ← store_call (runner_recovery "runner_template_recovery_required")
        (disposable_template_generation_refuse_unsettled self);
  _ ← store_call (runner_recovery "runner_delivery_recovery_required")
        (scale_set_delivery_recovery_refuse_unsettled self);
  _ ← store_call (runner_recovery "runner_lima_recovery_required") (refuse_unsettled_lima_authority self);
  _ ← store_call (runner_recovery "runner_worker_recovery_required")
        (refuse_unsettled_personal_worker_state self);
  store_call (runner_recovery "runner_catalog_recovery_failed") (recover_catalog_locked self).

Definition publish_runner_catalog (document : DisposableAttemptCatalogDocument)
    (stage_code publish_code : string) : wio DisposableRunnerRuntimeError () :=
  publish_catalog (runner_durable stage_code) (runner_recovery publish_code) document.

Definition runner_attempt (catalog : DisposableAttemptCatalogDocument) (attempt_id : DisposableAttemptId)
    : result DisposableRunnerRuntimeError DisposableAttemptReservation :=
  ok_or (find_active catalog attempt_id) (runner_durable "runner_attempt_missing").

Definition runner_clock : wio DisposableRunnerRuntimeError EpochMillis :=
  host (or_fail (runner_observation "runner_clock_unavailable") epoch_millis).

(** The configuration may have been generated before: a registration that is
    found is recorded, and nothing is generated again. *)
Definition recover_registration `{DisposableRunnerRegistrationSource H}
    (current : DisposableAttemptCatalogDocument) (attempt_id : DisposableAttemptId)
    (attempt : DisposableAttemptState) : wio DisposableRunnerRuntimeError DisposableRunnerTransactionOutcome :=
  lookup ← host (registration_observe_runner (at_runner_name attempt));
  match lookup with
  | LookupPresent runner =>
      recovered ← lift (successor (runner_recovery "runner_registration_recovery_refused")
                          (runner_recovery "runner_registration_recovery_invalid") current
                          (replace_attempt current attempt_id (at_revision attempt)
                             (RecordRegistration runner)));
      _ ← publish_runner_catalog recovered "runner_registration_recovery_stage_failed"
            "runner_registration_recovery_publish_ambiguous";
      mret (RegistrationRecovered attempt_id)
  | LookupAbsent => lift (Err (runner_recovery "runner_jit_outcome_unknown"))
  end.

Section handoff.
Context `{REG : DisposableRunnerRegistrationSource H} {T : Type} `{TARGET : DisposableRunnerTargetRuntime H T}
  (runtime : DisposableRunnerBackend) (target_runtime : T) (attempt_id : DisposableAttemptId).

Definition confirm_target (reservation : DisposableAttemptReservation)
    : wio DisposableRunnerRuntimeError Confirmation := host (confirm_runner_target target_runtime reservation).

Definition reconfirm_target (confirmation : Confirmation) (reservation : DisposableAttemptReservation)
    : wio DisposableRunnerRuntimeError () :=
  host (reconfirm_runner_target target_runtime confirmation reservation).

(** From the durable registration to the command. *)
Definition start_runner (registered : DisposableAttemptCatalogDocument) (plan : DisposableRunnerLaunchPlan)
    (ready_after_lookup : Confirmation)
    : wio DisposableRunnerRuntimeError DisposableRunnerTransactionOutcome :=
  registered_reservation ← lift (runner_attempt registered attempt_id);
  ready_after_jit ← confirm_target registered_reservation;
  _ ← reconfirm_target ready_after_lookup registered_reservation;
  _ ← reconfirm_target ready_after_jit registered_reservation;
  before_checkpoint ← runner_clock;
  _ ← lift (validate_registered plan registered_reservation before_checkpoint);
  started ← lift (successor (runner_recovery "runner_start_checkpoint_refused")
                    (runner_recovery "runner_start_checkpoint_invalid") registered
                    (replace_attempt registered attempt_id
                       (at_revision (dr_attempt registered_reservation)) RecordRunnerStartStarted));
  _ ← publish_runner_catalog started "runner_start_stage_failed" "runner_start_publish_ambiguous";
  started_reservation ← lift (runner_attempt started attempt_id);
  _ ← reconfirm_target ready_after_jit started_reservation;
  ready_after_checkpoint ← confirm_target started_reservation;
  _ ← reconfirm_target ready_after_checkpoint started_reservation;
  command_started_at ← runner_clock;
  _ ← reconfirm_target ready_after_checkpoint started_reservation;
  receipt ← host (execute_started plan started_reservation command_started_at);
  _ ← failing (λ _, runner_recovery "runner_target_post_command_drift")
        (reconfirm_target ready_after_checkpoint started_reservation);
  mret (CommandCompleted receipt).

(** From the durable checkpoint to the durable registration. *)
Definition register_runner (jit_started : DisposableAttemptCatalogDocument)
    (ready_after_lookup : Confirmation)
    : wio DisposableRunnerRuntimeError DisposableRunnerTransactionOutcome :=
  jit_started_reservation ← lift (runner_attempt jit_started attempt_id);
  ready_after_jit_checkpoint ← confirm_target jit_started_reservation;
  _ ← reconfirm_target ready_after_lookup jit_started_reservation;
  _ ← reconfirm_target ready_after_jit_checkpoint jit_started_reservation;
  before_generate ← runner_clock;
  if at_not_after (dr_attempt jit_started_reservation) <? before_generate
  then lift (Err (runner_recovery "runner_attempt_expired_before_jit"))
  else
    _ ← reconfirm_target ready_after_jit_checkpoint jit_started_reservation;
    jit ← host (generate_jit (at_runner_name (dr_attempt jit_started_reservation)));
    plan ← lift (plan_launch runtime jit_started_reservation before_generate jit);
    registered ← lift (successor (runner_recovery "runner_registration_checkpoint_refused")
                         (runner_recovery "runner_registration_checkpoint_invalid") jit_started
                         (replace_attempt jit_started attempt_id
                            (at_revision (dr_attempt jit_started_reservation))
                            (RecordRegistration (lp_runner plan))));
    _ ← publish_runner_catalog registered "runner_registration_stage_failed"
          "runner_registration_publish_ambiguous";
    start_runner registered plan ready_after_lookup.

Definition handoff_runner (current : DisposableAttemptCatalogDocument)
    (reservation : DisposableAttemptReservation)
    : wio DisposableRunnerRuntimeError DisposableRunnerTransactionOutcome :=
  now ← runner_clock;
  _ ← lift (validate_pre_jit_candidate reservation now);
  ready ← confirm_target reservation;
  _ ← reconfirm_target ready reservation;
  lookup ← host (registration_observe_runner (at_runner_name (dr_attempt reservation)));
  match lookup with
  | LookupPresent _ => lift (Err (runner_recovery "runner_pre_jit_name_conflict"))
  | LookupAbsent =>
      ready_after_lookup ← confirm_target reservation;
      _ ← reconfirm_target ready reservation;
      _ ← reconfirm_target ready_after_lookup reservation;
      before_jit ← runner_clock;
      _ ← lift (validate_pre_jit_candidate reservation before_jit);
      jit_started ← lift (successor (runner_recovery "runner_jit_checkpoint_refused")
                            (runner_recovery "runner_jit_checkpoint_invalid") current
                            (replace_attempt current attempt_id (at_revision (dr_attempt reservation))
                               RecordJitGenerationStarted));
      _ ← publish_runner_catalog jit_started "runner_jit_stage_failed" "runner_jit_publish_ambiguous";
      register_runner jit_started ready_after_lookup
  end.

Definition execute_disposable_runner_transaction
    : wio DisposableRunnerRuntimeError DisposableRunnerTransactionOutcome :=
  holding_lock (runner_durable "runner_store_lock_unavailable") (
    _ ← prepare_runner_transaction;
    found ← store_call (runner_durable "runner_catalog_unavailable")
      (load_catalog_named self CATALOG_DOCUMENT);
    current ← lift (ok_or found (runner_durable "runner_catalog_missing"));
    reservation ← lift (runner_attempt current attempt_id);
    let attempt := dr_attempt reservation in
    if at_runner_start_started attempt || is_some (at_runner_id attempt)
    then lift (Err (runner_recovery "runner_handoff_already_checkpointed"))
    else if at_jit_generation_started attempt
    then recover_registration current attempt_id attempt
    else handoff_runner current reservation).
End handoff.
End transactions.
