(* ===== verification/WorkerSteps.v ===== *)
(** * What a disposable worker's transactions may do once

    A host that keeps what was done on it, the effects a machine or a runner
    may meet once only, and when the catalog still allows them. *)

From S2P Require Import Prelude Artifact ExecutionAdmission ScaleSetProtocol AttemptState AttemptLifecycle WorkerReconciler.
From S2P Require Import AttemptCatalog CatalogDocument CatalogSteps CatalogTheorems CatalogStore FileSystem DeliveryConsumer TemplateGeneration.
From S2P Require Import WorkerCommands WorkerRuntime RunnerRuntime WorkerTransactions.

Local Open Scope N_scope.

(** ** A host that keeps what was done *)

Inductive worker_effect :=
| EfRun (command : CommandSpec)
| EfGenerate (runner_name : ScaleSetRunnerName)
| EfConfirmed (observation : LimaHostIdentityObservation) (request : LimaObservationRequest).

Abbreviation effects := (list worker_effect).

Definition recording {H E A} (effect : outcome E A → effects) (call : prog H E A) : prog (H * effects) E A :=
  λ '(h, log), let '(h', out) := call h in ((h', log ++ effect out), out).

Definition unrecorded {H E A} (call : prog H E A) : prog (H * effects) E A := recording (λ _, []) call.

(** A confirmation counts once it has returned. *)
Definition confirmed_as {E A} (effect : worker_effect) (out : outcome E A) : effects :=
  match out with
  | Done (Ok _) => [effect]
  | _ => []
  end.

#[export] Instance kept_executor {H} `{TimedCommandExecutor H} : TimedCommandExecutor (H * effects) :=
  λ command timeout, recording (λ _, [EfRun command]) (execute_with_timeout command timeout).

#[export] Instance kept_clock {H} `{CloneRuntimeClock H} : CloneRuntimeClock (H * effects) :=
  unrecorded epoch_millis.

#[export] Instance kept_views {H} `{WorkerViews H} : WorkerViews (H * effects) := {|
  lima_observe program request := unrecorded (lima_observe program request);
  host_observe request := unrecorded (host_observe request);
  host_observe_cleanup request := unrecorded (host_observe_cleanup request);
  host_confirm observation request :=
    recording (confirmed_as (EfConfirmed observation request)) (host_confirm observation request);
  confirm_stopped_clone_source generation := unrecorded (confirm_stopped_clone_source generation);
  source_confirm_current source := unrecorded (source_confirm_current source);
  confirm_running_clone_target request resources :=
    unrecorded (confirm_running_clone_target request resources);
|}.

#[export] Instance kept_admission {H} `{DisposableCloneAdmissionSource H}
    : DisposableCloneAdmissionSource (H * effects) :=
  λ catalog reservation, unrecorded (admission_observe catalog reservation).

#[export] Instance kept_cleanup {H} `{DisposableCleanupRunnerSource H}
    : DisposableCleanupRunnerSource (H * effects) := {|
  cleanup_observe_runner name := unrecorded (cleanup_observe_runner name);
  cleanup_remove_runner runner := unrecorded (cleanup_remove_runner runner);
|}.

#[export] Instance kept_registration {H} `{DisposableRunnerRegistrationSource H}
    : DisposableRunnerRegistrationSource (H * effects) := {|
  registration_observe_runner name := unrecorded (registration_observe_runner name);
  generate_jit name := recording (λ _, [EfGenerate name]) (generate_jit name);
|}.

(** ** Effects that may happen once *)

(** The verb of a [limactl] command, after [--tty=false]. *)
Definition command_verb (command : CommandSpec) : option CommandValue := cs_arguments command !! 1%nat.

(** [limactl clone source vm ..]. *)
Definition clones (vm : DisposableVmId) (command : CommandSpec) : Prop :=
  command_verb command = Some (Plain "clone") ∧ cs_arguments command !! 3%nat = Some (Plain vm).

(** [limactl shell --workdir directory vm ..]. *)
Definition launches (vm : DisposableVmId) (command : CommandSpec) : Prop :=
  command_verb command = Some (Plain "shell") ∧ cs_arguments command !! 4%nat = Some (Plain vm).

(** [limactl delete --force vm]. *)
Definition destroys (vm : DisposableVmId) (command : CommandSpec) : Prop :=
  command_verb command = Some (Plain "delete") ∧ cs_arguments command !! 3%nat = Some (Plain vm).

Inductive once_only :=
| OnceClone (vm : DisposableVmId)
| OnceGenerate (runner_name : ScaleSetRunnerName)
| OnceLaunch (vm : DisposableVmId).

Definition performs (k : once_only) (effect : worker_effect) : Prop :=
  match k, effect with
  | OnceClone vm, EfRun command => clones vm command
  | OnceLaunch vm, EfRun command => launches vm command
  | OnceGenerate name, EfGenerate name' => name' = name
  | _, _ => False
  end.

#[export] Instance performs_dec k effect : Decision (performs k effect).
Proof. destruct k, effect; simpl; unfold clones, launches; apply _. Defined.

Definition performed (k : once_only) (log : effects) : nat := length (filter (performs k) log).

(** The attempt an effect is for. *)
Definition concerns (k : once_only) (attempt : DisposableAttemptState) : Prop :=
  match k with
  | OnceClone vm | OnceLaunch vm => at_vm_id attempt = vm
  | OnceGenerate name => at_runner_name attempt = name
  end.

(** The checkpoint that comes before the effect is taken. *)
Definition passed (k : once_only) (attempt : DisposableAttemptState) : bool :=
  match k with
  | OnceClone _ => 1 <? phase_rank (at_phase attempt)
  | OnceGenerate _ => at_jit_generation_started attempt
  | OnceLaunch _ => at_runner_start_started attempt
  end.

(** The catalog has an attempt for which the effect is still to come. *)
Definition pending (k : once_only) (c : DisposableAttemptCatalogDocument) : Prop :=
  ∃ r, r ∈ cd_active c ∧ concerns k (dr_attempt r) ∧ passed k (dr_attempt r) = false.

(** ** Pending effects along the steps of the catalog *)

Lemma passed_step k a a' : step_facts a a' → passed k a = true → passed k a' = true.
Proof.
  intros Hf. destruct k; simpl; [|apply Hf..]. rewrite !N.ltb_lt. pose proof (sf_phase _ _ Hf). lia.
Qed.

Lemma concerns_step k a a' : step_facts a a' → concerns k a' ↔ concerns k a.
Proof.
  intros Hf. pose proof (sf_key _ _ Hf) as Hkey. injection Hkey as ? ? ? Hvm Hname ? ?.
  destruct k; simpl; by rewrite ?Hvm, ?Hname.
Qed.

(** No step but a reservation makes an effect pending. *)
Lemma pending_written k c i cur s :
  cd_active c !! i = Some cur → step_facts (dr_attempt cur) s →
  pending k (written c i cur s) → pending k c.
Proof.
  intros Hi Hf (r & Hr & Hk & Hp). unfold written in Hr. simpl in Hr.
  apply list_elem_of_lookup in Hr as [j Hj]. apply list_lookup_insert_Some in Hj as [(_ & <- & _)|[_ Hj]].
  - simpl in *. exists cur. split; [by eapply list_elem_of_lookup_2|]. rewrite concerns_step in Hk by done.
    split; [done|]. destruct (passed k (dr_attempt cur)) eqn:Hpc; [|done].
    by rewrite (passed_step k _ _ Hf Hpc) in Hp.
  - exists r. split; [by eapply list_elem_of_lookup_2|done].
Qed.

(** A step of the catalog that leaves nothing new to come. *)
Record worker_advance (c c' : DisposableAttemptCatalogDocument) : Prop := {
  ad_step : catalog_step c c';
  ad_pending k : pending k c' → pending k c;
}.

(** A transition of the attempt [id]. *)
Lemma replace_advance c id rev action r c' :
  catalog_wf c → find_active c id = Some r → replace_attempt c id rev action = Ok c' →
  worker_advance c c' ∧ ∃ s, transition (dr_attempt r) action = Ok s ∧ step_facts (dr_attempt r) s ∧
    find_active c' id = Some (set_attempt r s).
Proof.
  intros Hwf Hr Hc'. assert (catalog_step c c') as Hstep by by eapply step_transition.
  destruct (step_effect _ _ Hwf Hstep) as [Hwf' _].
  rewrite replace_attempt_eq in Hc' by done. unfold on_active in Hc'. rewrite Hr in Hc'.
  apply ok_guard in Hc' as [_ Hc']. destruct (find_active_Some _ _ _ Hr) as (i & Hi & Hid & _).
  destruct (transition (dr_attempt r) action) as [s|e|] eqn:Ht; [|done..].
  assert (step_facts (dr_attempt r) s) as Hf.
  { apply (attempt_step_facts _ _ (active_valid _ _ _ Hwf Hi)). by eapply attempt_acts. }
  case_bool_decide as Hs.
  - injection Hc' as <-. subst s. split; [by split|]. exists (dr_attempt r). split_and!; [done..|].
    by destruct r.
  - apply (record_successor_Ok c i) in Hc' as (-> & _ & _); [|done..].
    split; [split; [done|intros k; by apply pending_written]|]. exists s. split_and!; [done..|].
    pose proof (sf_key _ _ Hf) as Hkey. injection Hkey as _ Hid' _ _ _ _ _.
    rewrite <-Hid, <-Hid'. apply (find_active_unique (written c i r s) i (set_attempt r s)); [done|].
    simpl. apply list_lookup_insert_eq. by eapply lookup_lt_Some.
Qed.

Lemma bind_advance c id rev identity r c' :
  catalog_wf c → find_active c id = Some r → catalog_bind_vm_identity c id rev identity = Ok c' → worker_advance c c'.
Proof.
  intros Hwf Hr Hc'. split; [by eapply step_bind|]. intros k.
  apply bind_result in Hc' as (i & cur & s & Hi & Hb & Hc'); [|done].
  apply (record_successor_Ok c i) in Hc' as (-> & _ & _); [|done..].
  apply pending_written; [done|]. apply (attempt_step_facts _ _ (active_valid _ _ _ Hwf Hi)). by eapply attempt_binds.
Qed.

Lemma retire_advance c id rev c' :
  catalog_wf c → catalog_retire_complete c id rev = Ok c' → worker_advance c c'.
Proof.
  intros Hwf Hc'. split; [by eapply step_retire|]. intros k (r & Hr & Hk & Hp).
  apply retire_result in Hc' as (i & cur & Hi & _ & _ & ->); [|done]. exists r. split; [|done].
  simpl in Hr. eapply elem_of_submseteq; [exact Hr|]. apply sublist_submseteq, sublist_delete.
Qed.

(** The identities of attempts differ. *)
Lemma concerned_once k c r r' :
  catalog_wf c → r ∈ cd_active c → r' ∈ cd_active c → concerns k (dr_attempt r) → concerns k (dr_attempt r') →
  r' = r.
Proof.
  intros Hwf Hr Hr' Hk Hk'. pose proof (co_distinct _ (wf_ok _ Hwf)) as Hd.
  apply distinct_nothing in Hd as (_ & _ & Hvm & Hname & _).
  assert (∀ f : DisposableAttemptState → string, NoDup (f <$> catalog_attempts c) →
    f (dr_attempt r) = f (dr_attempt r') → r' = r) as Hone.
  { intros f Hnd Hf. unfold catalog_attempts in Hnd. rewrite fmap_app in Hnd. apply NoDup_app in Hnd as [Hnd _].
    rewrite <-list_fmap_compose in Hnd. apply list_elem_of_lookup in Hr as [i Hi], Hr' as [j Hj].
    assert (i = j) as ->; [|congruence].
    eapply NoDup_lookup; [exact Hnd|rewrite list_lookup_fmap, Hi; done|rewrite list_lookup_fmap, Hj; simpl; by f_equal]. }
  destruct k; simpl in *; [apply (Hone at_vm_id)|apply (Hone at_runner_name)|apply (Hone at_vm_id)]; congruence.
Qed.

Lemma found_active c id r : find_active c id = Some r → r ∈ cd_active c.
Proof. intros (i & Hi & _)%find_active_Some. by eapply list_elem_of_lookup_2. Qed.

Lemma passed_not_pending k c id r :
  catalog_wf c → find_active c id = Some r → concerns k (dr_attempt r) → passed k (dr_attempt r) = true →
  ¬ pending k c.
Proof.
  intros Hwf Hr%found_active Hk Hp (r' & Hr' & Hk' & Hp').
  rewrite (concerned_once k c r r' Hwf Hr Hr' Hk Hk') in Hp'. congruence.
Qed.

(** ** What the log may hold *)

(** A destroyed machine was confirmed, at that very point, to be the machine
    that a durable attempt in cleanup is bound to. *)
Definition destroyed_bound (c0 : DisposableAttemptCatalogDocument) (log : effects) : Prop :=
  ∀ before command after vm, log = before ++ EfRun command :: after → destroys vm command →
  ∃ before' observation request c r identity,
    before = before' ++ [EfConfirmed observation request] ∧ lor_instance request = vm ∧
    rtc catalog_step c0 c ∧ r ∈ cd_active c ∧ at_vm_id (dr_attempt r) = vm ∧
    is_cleanup_phase (at_phase (dr_attempt r)) = true ∧
    at_vm_identity (dr_attempt r) = Some identity ∧
    matches_host_identity identity (ho_identity observation) = true.

(** Each effect happened once at most, and is not pending once it has. *)
Definition once_each (log : effects) : Prop := ∀ k, (performed k log ≤ 1)%nat.

Definition pending_undone (log : effects) (c : DisposableAttemptCatalogDocument) : Prop :=
  ∀ k, pending k c → performed k log = 0%nat.

(** Effects that neither happen once nor destroy. *)
Definition harmless (effect : worker_effect) : Prop :=
  (∀ k, ¬ performs k effect) ∧ match effect with EfRun command => ∀ vm, ¬ destroys vm command | _ => True end.

Lemma performed_app k log log' : performed k (log ++ log') = (performed k log + performed k log')%nat.
Proof. unfold performed. by rewrite filter_app, length_app. Qed.

Lemma performed_none k log : Forall (λ e, ¬ performs k e) log → performed k log = 0%nat.
Proof.
  unfold performed. induction 1 as [|e log He _ IH]; [done|]. by rewrite filter_cons_False.
Qed.

Lemma performed_harmless k log : Forall harmless log → performed k log = 0%nat.
Proof. intros H. apply performed_none. eapply Forall_impl; [exact H|]. intros e [He _]. apply He. Qed.

Lemma destroyed_app c0 log log' :
  destroyed_bound c0 log →
  Forall (λ e, match e with EfRun command => ∀ vm, ¬ destroys vm command | _ => True end) log' →
  destroyed_bound c0 (log ++ log').
Proof.
  intros Hlog Hnew before command after vm Heq Hd.
  destruct (app_eq_inv _ _ _ _ Heq) as [(l & -> & Hl)|(l & -> & Hl)].
  - destruct l as [|e l]; simpl in Hl.
    + rewrite <-Hl in Hnew. apply Forall_cons in Hnew as [Hn _]. by destruct (Hn vm).
    + injection Hl as <- ->. destruct (Hlog _ _ _ _ eq_refl Hd) as (b & H). by exists b.
  - rewrite Hl in Hnew. apply Forall_app in Hnew as [_ Hnew]. apply Forall_cons in Hnew as [Hn _]. by destruct (Hn vm).
Qed.

(** ** Programs of the host that only do harmless things *)

Section gentle.
Context {H : Type}.

Definition grows (log : effects) (s : H * effects) : Prop := ∃ l, Forall harmless l ∧ s.2 = log ++ l.

Lemma grows_refl s : grows s.2 s.
Proof. exists []. by rewrite app_nil_r. Qed.

Lemma grows_trans log s s' : grows log s → grows s.2 s' → grows log s'.
Proof.
  intros (l & Hl & Hs) (l' & Hl' & Hs'). exists (l ++ l'). rewrite Hs', Hs, app_assoc. by split; [apply Forall_app|].
Qed.

Class Gentle {E A} (m : prog (H * effects) E A) : Prop :=
  gentle : ∀ s, grows s.2 (m s).1.

Lemma gentle_recording {E A} (effect : outcome E A → effects) (call : prog H E A) :
  (∀ out, Forall harmless (effect out)) → Gentle (recording effect call).
Proof. intros He [h log]. unfold recording. simpl. destruct (call h) as [h' out]. by exists (effect out). Qed.

#[export] Instance gentle_unrecorded {E A} (call : prog H E A) : Gentle (unrecorded call).
Proof. by apply gentle_recording. Qed.

#[export] Instance gentle_lift {E A} (r : result E A) : Gentle (lift r).
Proof. intros s. apply grows_refl. Qed.

#[export] Instance gentle_mret {E A} (a : A) : Gentle (E := E) (mret a).
Proof. intros s. apply grows_refl. Qed.

Lemma gentle_catch {E A E' B} (m : prog (H * effects) E A) (k : result E A → prog (H * effects) E' B) :
  Gentle m → (∀ r, Gentle (k r)) → Gentle (catch m k).
Proof.
  intros Hm Hk s. unfold catch. specialize (Hm s). destruct (m s) as [s' [r|]]; [|done].
  eapply grows_trans; [exact Hm|apply Hk].
Qed.

Lemma gentle_bind {E A B} (m : prog (H * effects) E A) (f : A → prog (H * effects) E B) :
  Gentle m → (∀ a, Gentle (f a)) → Gentle (m ≫= f).
Proof. intros Hm Hf. apply gentle_catch; [done|]. intros []; auto using gentle_lift. Qed.

Lemma gentle_or_fail {E E' A} (e : E') (m : prog (H * effects) E A) : Gentle m → Gentle (or_fail e m).
Proof. intros Hm. apply gentle_catch; auto using gentle_lift. Qed.
End gentle.

Ltac solve_gentle :=
  repeat first
    [ progress intros
    | solve [typeclasses eauto]
    | apply gentle_lift | apply gentle_mret | apply gentle_unrecorded
    | apply gentle_bind | apply gentle_or_fail | apply gentle_catch
    | progress case_match ].

(** What the results of a program satisfy. *)
Definition yields {S E A} (m : prog S E A) (P : A → Prop) : Prop :=
  ∀ s s' a, m s = (s', Done (Ok a)) → P a.

Section yields.
Context {S E : Type}.

Lemma yields_lift {A} (r : result E A) (P : A → Prop) : (∀ a, r = Ok a → P a) → yields (S := S) (lift r) P.
Proof. intros HP s s' a. unfold lift. intros [= _ Hr]. by apply HP. Qed.

Lemma yields_catch {A B E'} (m : prog S E A) (k : result E A → prog S E' B) P :
  (∀ r, yields (k r) P) → yields (catch m k) P.
Proof. intros Hk s s' b. unfold catch. destruct (m s) as [s1 [r|]]; [apply Hk|done]. Qed.

Lemma yields_bind {A B} (m : prog S E A) (f : A → prog S E B) P : (∀ a, yields (f a) P) → yields (m ≫= f) P.
Proof. intros Hf. apply yields_catch. intros [a|e|]; [apply Hf|by apply yields_lift..]. Qed.

Lemma yields_bind_lift {A B} (r : result E A) (f : A → prog S E B) P :
  (∀ a, r = Ok a → yields (f a) P) → yields (lift r ≫= f) P.
Proof. intros Hf. destruct r as [a|e|]; [by apply Hf|by apply yields_lift..]. Qed.

Lemma yields_guard {A} (b : bool) (e : E) (m : prog S E A) P :
  (b = false → yields m P) → yields (if b then lift (Err e) else m) P.
Proof. intros Hm. destruct b; [by apply yields_lift|by apply Hm]. Qed.
End yields.

(** ** The commands *)

Section commands.
Context `{ISERDE : IdentitySerde, HASHER : Sha256Hasher, TEMPLATE : PreparedTemplate}.

Lemma version_harmless adapter : harmless (EfRun (version_command adapter).1).
Proof.
  split; [|by intros vm [Hv _]]. intros [vm|name|vm]; simpl; [by intros [Hv _]|by intros []|by intros [Hv _]].
Qed.

Lemma instance_name_parsed raw instance : LimaInstanceName_parse raw = Ok instance → instance = raw.
Proof. unfold LimaInstanceName_parse. case_match; [done|by intros [= <-]]. Qed.

(** A plan holds the one command of its kind, for the machine of the attempt. *)
Lemma plan_command adapter now r action plan :
  worker_plan adapter now r action = Ok plan →
  match lwp_kind plan with
  | CommandClone => ∃ resources, lwp_command plan = clone_command adapter (at_vm_id (dr_attempt r)) resources
  | _ => lwp_command plan = delete_command adapter (at_vm_id (dr_attempt r))
  end.
Proof.
  unfold worker_plan. intros Hp. apply ok_guard in Hp as [_ Hp].
  apply bind_Ok in Hp as (instance & ->%map_err_Ok%instance_name_parsed & Hp).
  do 2 apply ok_guard in Hp as [_ Hp]. apply bind_Ok in Hp as ([[kind command] timeout] & Hc & Hp).
  apply bind_Ok in Hp as (identity & _ & [= <-]). simpl. unfold planned_command in Hc.
  destruct action; try done; destruct (at_phase (dr_attempt r)); try done;
    first [injection Hc as <- <- <-; done|apply bind_Ok in Hc as (resources & _ & [= <- <- <-]); by exists resources].
Qed.

Lemma clone_performs adapter vm resources k :
  performs k (EfRun (clone_command adapter vm resources)) → k = OnceClone vm.
Proof. destruct k; simpl; unfold clones, launches; simpl; [|done|]; intros [? [=]]; by subst. Qed.

Lemma clone_destroys adapter vm resources vm' : ¬ destroys vm' (clone_command adapter vm resources).
Proof. by intros [Hv _]. Qed.

Lemma delete_performs adapter vm k : ¬ performs k (EfRun (delete_command adapter vm)).
Proof. destruct k; simpl; [by intros [Hv _]|by intros []|by intros [Hv _]]. Qed.

Lemma delete_destroys adapter vm vm' : destroys vm' (delete_command adapter vm) → vm' = vm.
Proof. intros [_ Hv]. simpl in Hv. by injection Hv. Qed.

Lemma launch_performs program home vm encoded k :
  performs k (EfRun (lima_launch_command program home vm encoded)) → k = OnceLaunch vm.
Proof. destruct k; simpl; unfold clones, launches; simpl; [|done|]; intros [? [=]]; by subst. Qed.

Lemma launch_destroys program home vm encoded vm' : ¬ destroys vm' (lima_launch_command program home vm encoded).
Proof. by intros [Hv _]. Qed.
End commands.
