(* ===== verification/WorkerOnce.v ===== *)
(** * A machine is cloned once, and only its own machine is destroyed

    Runs of the transactions of [WorkerTransactions] against any host, each
    stopped anywhere and followed by restarts: no machine is cloned twice, no
    configuration of a runner is generated twice and no runner is launched
    twice, each of these happens only after its checkpoint is durable, and what
    is destroyed is the machine the attempt is bound to. *)

From S2P Require Import Prelude Artifact WorkerQueue StoreWire WorkerStore StoreCodec FileSystem UnixStore UnixSteps UnixTheorems.
From S2P Require Import DiskLogic ExecutionAdmission ScaleSetProtocol AttemptState AttemptLifecycle WorkerReconciler AttemptCatalog CatalogSteps.
From S2P Require Import CatalogTheorems CatalogStore AttemptCodec CatalogCodec ScaleSetDelivery DeliveryConsumer DeliveryRecovery.
From S2P Require Import RecoveryCodec CatalogDisk DeliveryDisk DeliveryPair PairSteps PairRecovery TemplateGeneration WorkerCommands.
From S2P Require Import WorkerRuntime RunnerRuntime WorkerTransactions WorkerSteps.

Local Open Scope N_scope.

(** ** The programs of the runtime that only look *)

Section looking.
Context `{ISERDE : IdentitySerde, HASHER : Sha256Hasher, TEMPLATE : PreparedTemplate} {H : Type}
  `{EXEC : TimedCommandExecutor H, CLOCK : CloneRuntimeClock H, VIEWS : WorkerViews H}
  `{ADM : DisposableCloneAdmissionSource H, CLEAN : DisposableCleanupRunnerSource H,
    REG : DisposableRunnerRegistrationSource H}.

#[export] Instance gentle_clock : Gentle (H := H) epoch_millis.
Proof. apply gentle_unrecorded. Qed.
#[export] Instance gentle_admission c r : Gentle (H := H) (admission_observe c r).
Proof. apply gentle_unrecorded. Qed.
#[export] Instance gentle_lima program request : Gentle (H := H) (lima_observe program request).
Proof. apply gentle_unrecorded. Qed.
#[export] Instance gentle_observe request : Gentle (H := H) (host_observe request).
Proof. apply gentle_unrecorded. Qed.
#[export] Instance gentle_observe_cleanup request : Gentle (H := H) (host_observe_cleanup request).
Proof. apply gentle_unrecorded. Qed.
#[export] Instance gentle_source generation : Gentle (H := H) (confirm_stopped_clone_source generation).
Proof. apply gentle_unrecorded. Qed.
#[export] Instance gentle_source_current source : Gentle (H := H) (source_confirm_current source).
Proof. apply gentle_unrecorded. Qed.
#[export] Instance gentle_running request resources :
  Gentle (H := H) (confirm_running_clone_target request resources).
Proof. apply gentle_unrecorded. Qed.
#[export] Instance gentle_cleanup_runner name : Gentle (H := H) (cleanup_observe_runner name).
Proof. apply gentle_unrecorded. Qed.
#[export] Instance gentle_remove_runner runner : Gentle (H := H) (cleanup_remove_runner runner).
Proof. apply gentle_unrecorded. Qed.
#[export] Instance gentle_registration name : Gentle (H := H) (registration_observe_runner name).
Proof. apply gentle_unrecorded. Qed.

Lemma confirmed_harmless observation request {E A} (out : outcome E A) :
  Forall harmless (confirmed_as (EfConfirmed observation request) out).
Proof. destruct out as [[]|]; repeat constructor. intros []; by intros []. Qed.

#[export] Instance gentle_confirm observation request : Gentle (H := H) (host_confirm observation request).
Proof. apply gentle_recording. intros out. apply confirmed_harmless. Qed.

Lemma gentle_run command timeout :
  harmless (EfRun command) → Gentle (H := H) (execute_with_timeout command timeout).
Proof. intros Hc. apply gentle_recording. by constructor. Qed.

Context (self : DisposableCloneRuntime).

#[export] Instance gentle_verify : Gentle (H := H) (verify_limactl self).
Proof.
  unfold verify_limactl. simpl. apply gentle_bind; [|solve_gentle].
  apply gentle_or_fail, gentle_run, (version_harmless (ccr_worker self)).
Qed.
#[export] Instance gentle_absent request : Gentle (H := H) (confirm_target_absent self request).
Proof. unfold confirm_target_absent. solve_gentle. Qed.
#[export] Instance gentle_authorize c id : Gentle (H := H) (authorize_locked self c id).
Proof. unfold authorize_locked, clone_clock. solve_gentle. Qed.
#[export] Instance gentle_authorize_execution c id : Gentle (H := H) (authorize_clone_execution_locked c id).
Proof. unfold authorize_clone_execution_locked, clone_clock. solve_gentle. Qed.
#[export] Instance gentle_prepare c generation id : Gentle (H := H) (prepare_locked self c generation id).
Proof. unfold prepare_locked, clone_clock. solve_gentle. Qed.
#[export] Instance gentle_preflight c id prepared :
  Gentle (H := H) (preflight_checkpointed_clone_locked self c id prepared).
Proof. unfold preflight_checkpointed_clone_locked, clone_clock. solve_gentle. Qed.
#[export] Instance gentle_confirm_current code confirmed : Gentle (H := H) (confirm_current code confirmed).
Proof. unfold confirm_current. solve_gentle. Qed.
#[export] Instance gentle_ready r : Gentle (H := H) (confirm_ready_worker_bound self r).
Proof. unfold confirm_ready_worker_bound. solve_gentle. Qed.
#[export] Instance gentle_ready_worker r : Gentle (H := H) (confirm_ready_worker self r).
Proof. unfold confirm_ready_worker. solve_gentle. Qed.
#[export] Instance gentle_authorize_registration c id : Gentle (H := H) (authorize_registration_locked self c id).
Proof. unfold authorize_registration_locked, clone_clock. solve_gentle. Qed.
#[export] Instance gentle_observe_worker r : Gentle (H := H) (observe_cleanup_worker self r).
Proof. unfold observe_cleanup_worker. solve_gentle. Qed.
#[export] Instance gentle_confirm_target r : Gentle (H := H) (confirm_runner_target self r).
Proof. simpl. solve_gentle. Qed.
#[export] Instance gentle_reconfirm_target confirmation r :
  Gentle (H := H) (reconfirm_runner_target self confirmation r).
Proof. simpl. solve_gentle. Qed.

(** What a prepared clone and an observed machine are for. *)
Lemma prepared_clone c generation id r :
  find_active c id = Some r →
  yields (S := H * effects) (prepare_locked self c generation id) (λ prepared, ∃ resources,
    lwp_command (pc_plan prepared) = clone_command (ccr_worker self) (at_vm_id (dr_attempt r)) resources).
Proof.
  intros Hr. unfold prepare_locked, clone_attempt. rewrite Hr. apply yields_bind_lift. intros ? [= <-].
  apply yields_guard. intros _. do 6 (apply yields_bind; intros ?). apply yields_guard. intros _.
  apply yields_bind_lift. intros plan Hp%map_err_Ok%plan_command. apply yields_guard. intros Hk. bprop.
  apply yields_lift. intros ? [= <-]. simpl. by destruct (lwp_kind plan).
Qed.

Lemma preflight_ready c id prepared :
  yields (S := H * effects) (preflight_checkpointed_clone_locked self c id prepared)
    (λ ready, crc_prepared ready = prepared).
Proof.
  unfold preflight_checkpointed_clone_locked. apply yields_bind. intros r. apply yields_guard. intros _.
  apply yields_bind. intros now. apply yields_guard. intros _. do 7 (apply yields_bind; intros ?).
  apply yields_guard. intros _. apply yields_bind. intros ?. apply yields_lift. by intros ? [= <-].
Qed.

Lemma observed_machine r :
  yields (S := H * effects) (observe_cleanup_worker self r) (λ vm,
    match vm with
    | CleanupVmPresent confirmed =>
        is_cleanup_phase (at_phase (dr_attempt r)) = true ∧
        lor_instance (cm_request confirmed) = at_vm_id (dr_attempt r) ∧
        ∃ identity, at_vm_identity (dr_attempt r) = Some identity ∧
          matches_host_identity identity (ho_identity (cm_host confirmed)) = true
    | CleanupVmAbsent => True
    end).
Proof.
  unfold observe_cleanup_worker. apply yields_guard. intros Hphase. bprop.
  apply yields_bind_lift. intros identity Hid%ok_or_Ok. apply yields_bind_lift. intros request Hreq%map_err_Ok.
  assert (lor_instance request = at_vm_id (dr_attempt r)) as Hvm.
  { unfold target_observation_request in Hreq.
    apply bind_Ok in Hreq as (instance & ->%map_err_Ok%instance_name_parsed & Hreq%ok_or_Ok).
    unfold LimaObservationRequest_new in Hreq. repeat case_match; try done.
    by apply bind_Some in Hreq as (? & _ & [= <-]). }
  apply yields_bind. intros _. apply yields_guard. intros _. apply yields_catch. intros lima.
  apply yields_catch. intros host.
  destruct lima as [[]|code|]; destruct host as [observed|error|]; try (by apply yields_lift).
  - apply yields_guard. intros Hm. bprop. apply yields_bind. intros _. apply yields_lift. intros ? [= <-].
    split_and!; [done..|]. by exists identity.
  - destruct code; by apply yields_lift.
  - destruct code; try (by apply yields_lift). destruct error; apply yields_lift; by intros ? [= <-].
  - destruct code; by apply yields_lift.
Qed.
End looking.

(** ** What is true at every point *)

Section runs.
Context `{SER : !StoreSerde, DS : !DocumentSerde, LIMA : !LimaAuthorityReader, LAWS : CatalogSerdeLaws}
  {CUT : CatalogSerdeCut} `{DLAWS : DeliverySerdeLaws} {HASHER : Sha256Hasher} `{RLAWS : RecoverySerdeLaws}
  `{GSERDE : GenerationSerde, ISERDE : IdentitySerde, TEMPLATE : PreparedTemplate, OWNED : OwnedLinux} {H : Type}
  `{EXEC : TimedCommandExecutor H, CLOCK : CloneRuntimeClock H, VIEWS : WorkerViews H}
  `{ADM : DisposableCloneAdmissionSource H, CLEAN : DisposableCleanupRunnerSource H,
    REG : DisposableRunnerRegistrationSource H}
  (c0 : catalog_doc) (Hc0 : rtc catalog_step empty_catalog c0).

Abbreviation st := (World * (H * effects))%type.
Abbreviation wio := (prog st).

(** A catalog that comes from [c0] and whose pending effects have not happened. *)
Definition allows (log : effects) (c : catalog_doc) : Prop := rtc catalog_step c0 c ∧ pending_undone log c.

Record faithful (log : effects) : Prop := {
  fa_once : once_each log;
  fa_destroyed : destroyed_bound c0 log;
}.

(** The catalog is one of two, the second perhaps staged. *)
Record worker_inv (s : st) : Prop := {
  wi_catalogs : ∃ c c', images (tx_img (TxCatalog (Some c) c')) s.1 ∧ allows s.2.2 c ∧ allows s.2.2 c';
  wi_log : faithful s.2.2;
}.

(** The same, durably: after the directory was synchronised. *)
Record worker_synced (s : st) : Prop := {
  ws_catalogs : ∃ now c c', synced now s.1 ∧ tx_img (TxCatalog (Some c) c') now ∧
    allows s.2.2 c ∧ allows s.2.2 c';
  ws_log : faithful s.2.2;
}.

(** The catalog is [c], durably, and nothing is staged. *)
Record at_catalog (c : catalog_doc) (s : st) : Prop := {
  ac_rest : at_rest (Some c) None s.1;
  ac_allows : allows s.2.2 c;
  ac_log : faithful s.2.2;
}.

(** ... and the effect [k] has not happened, but may now. *)
Record primed (k : once_only) (c : catalog_doc) (s : st) : Prop := {
  pr_at : at_catalog c s;
  pr_none : performed k s.2.2 = 0%nat;
  pr_passed : ¬ pending k c;
}.

Abbreviation safe m s := (wp m (ensures worker_inv (λ _, worker_inv)) s).

Lemma allows_wf log c : allows log c → catalog_wf c.
Proof. intros [Hc _]. apply (chain_wf empty_catalog); [apply empty_catalog_wf|]. by etrans. Qed.

Lemma idle_in_tx c c' img : tx_img (TxIdle (Some c) None) img → tx_img (TxCatalog (Some c) c') img.
Proof. intros []. left. split; [done| |done..]. by apply absent_torn. Qed.

Lemma synced_inv s : worker_synced s → worker_inv s.
Proof.
  intros [(now & c & c' & Hs & Htx & Hc & Hc') Hlog]. split; [|done]. exists c, c'. split; [|done].
  by eapply stay.
Qed.

Lemma at_catalog_inv c s : at_catalog c s → worker_inv s.
Proof.
  intros [Hr Hc Hlog]. split; [|done]. exists c, c. split; [|done].
  eapply images_mono; [by apply rest_idle|]. apply idle_in_tx.
Qed.

(** *** Harmless effects change nothing *)

Lemma allows_grows log l c : Forall harmless l → allows log c → allows (log ++ l) c.
Proof.
  intros Hl [Hc Hn]. split; [done|]. intros k Hk. by rewrite performed_app, (performed_harmless k l), (Hn k Hk).
Qed.

Lemma faithful_grows log l : Forall harmless l → faithful log → faithful (log ++ l).
Proof.
  intros Hl [Ho Hd]. split.
  - intros k. rewrite performed_app, (performed_harmless k l) by done. specialize (Ho k). lia.
  - apply destroyed_app; [done|]. eapply Forall_impl; [exact Hl|]. by intros e [_ He].
Qed.

(** What survives harmless effects, and is safe. *)
Record lasting (R : st → Prop) : Prop := {
  la_grows s s' : s'.1 = s.1 → grows s.2.2 s'.2 → R s → R s';
  la_inv s : R s → worker_inv s;
}.

Lemma at_catalog_lasting c : lasting (at_catalog c).
Proof.
  split; [|apply at_catalog_inv]. intros s s' Hw (l & Hl & Hlog) [Hr Hc Hf].
  split; rewrite ?Hw, ?Hlog; [done|by apply allows_grows|by apply faithful_grows].
Qed.

Lemma primed_lasting k c : lasting (primed k c).
Proof.
  split; [|intros s []; by eapply at_catalog_inv]. intros s s' Hw Hg [Hat Hn Hp].
  split; [by eapply (la_grows _ (at_catalog_lasting c))| |done]. destruct Hg as (l & Hl & ->).
  by rewrite performed_app, (performed_harmless k l), Hn.
Qed.

(** *** Rules *)

Lemma wp_host_any {E A} (m : prog (H * effects) E A) Φ (s : st) :
  wp m (λ out h, Φ out (s.1, h)) s.2 → wp (host m) Φ s.
Proof. destruct s as [w h]. unfold wp, host. simpl. by destruct (m h). Qed.

Lemma wp_host_yields {E A} (m : prog (H * effects) E A) `{!Gentle m} R (P : A → Prop) (s : st) :
  lasting R → yields m P → R s → wp (host m) (ensures worker_inv (λ a s', P a ∧ R s')) s.
Proof.
  intros HR HP Hs. apply wp_host_any. unfold wp. pose proof (gentle s.2) as Hg. specialize (HP s.2).
  destruct (m s.2) as [h out]. assert (R (s.1, h)) as Hs' by by apply (la_grows _ HR s).
  destruct out as [[a|e|]|]; simpl; [|by apply (la_inv _ HR)..]. split; [|done]. by eapply HP.
Qed.

Lemma wp_host_gentle {E A} (m : prog (H * effects) E A) `{!Gentle m} R (s : st) :
  lasting R → R s → wp (host m) (ensures worker_inv (λ _, R)) s.
Proof.
  intros HR Hs. eapply wp_ensures; [by apply (wp_host_yields m R (λ _, True))|done|by intros ? ? []].
Qed.

Lemma wp_store {E E' A} (e : E') (m : io E A) Φ (s : st) :
  wp m Φ s.1 →
  wp (store_call (H := H * effects) e m) (λ out s', ∃ out', Φ out' s'.1 ∧ s'.2 = s.2 ∧
    out = match out' with Done r => Done (map_err (λ _, e) r) | Stopped => Stopped end) s.
Proof.
  destruct s as [w h]. unfold wp, store_call, failing, catch, disk. simpl. destruct (m w) as [w' [r|]] eqn:Hm.
  - intros HΦ. by exists (Done r).
  - intros HΦ. by exists Stopped.
Qed.

(** A call of the store between directories that are allowed. *)
Lemma wp_store_in {E E' A} (e : E') (m : io E A) c c' Q (s : st) :
  allows s.2.2 c → allows s.2.2 c' → faithful s.2.2 →
  wp m (ensures (images (tx_img (TxCatalog (Some c) c'))) Q) s.1 →
  wp (store_call (H := H * effects) e m) (ensures worker_inv (λ a s', Q a s'.1 ∧ s'.2 = s.2)) s.
Proof.
  intros Hc Hc' Hlog Hm. eapply wp_mono; [by apply wp_store|]. intros out s' (out' & Hout & Heq & ->).
  assert (images (tx_img (TxCatalog (Some c) c')) s'.1 → worker_inv s') as Hinv.
  { intros Himg. split; rewrite ?Heq; [by exists c, c'|done]. }
  destruct out' as [[a|x|]|]; simpl in *; auto.
Qed.

(** Calls that only look. *)
Lemma wp_quiet_synced {E E' A} (e : E') (m : io E A) `{!Quiet m} s :
  worker_synced s → wp (store_call (H := H * effects) e m) (ensures worker_inv (λ _, worker_synced)) s.
Proof.
  intros [(now & c & c' & Hs & Htx & Hc & Hc') Hlog].
  eapply wp_ensures; [eapply (wp_store_in e m c c'); [done..|by apply wp_quiet_rest]|done|].
  intros a s' [Hs' Heq]. split; rewrite ?Heq; [|done]. by exists now, c, c'.
Qed.

Lemma wp_quiet_at {E E' A} (e : E') (m : io E A) `{!Quiet m} c s :
  at_catalog c s → wp (store_call (H := H * effects) e m) (ensures worker_inv (λ _, at_catalog c)) s.
Proof.
  intros [(now & Hs & Hsh) Hc Hlog].
  eapply wp_ensures; [eapply (wp_store_in e m c c); [done..|by apply (wp_quiet_rest _ m now); [apply idle_in_tx|]]|done|].
  intros a s' [Hs' Heq]. split; rewrite ?Heq; [|done..]. by exists now.
Qed.

(** Reading the catalog at rest. *)
Lemma wp_load_at {E'} (e : E') (self : UnixPersonalWorkerStore) c s :
  at_catalog c s →
  wp (store_call (H := H * effects) e (load_catalog_named self CATALOG_DOCUMENT))
    (ensures worker_inv (λ found s', found = Some c ∧ at_catalog c s')) s.
Proof.
  intros [(now & Hs & Hsh) Hc Hlog].
  eapply wp_ensures; [eapply (wp_store_in _ _ c c);
    [done..|by apply (wp_load_catalog_rest self _ _ now); [apply idle_in_tx|]]|done|].
  intros found s' [[Hs' Hread] Heq]. split; [|split; rewrite ?Heq; [by exists now|done..]].
  by apply (read_whole _ _ _ _ (sh_cc _ _ _ _ _ Hsh)).
Qed.

(** Publishing the next catalog. *)
Lemma wp_publish_worker {E} (stage_error publish_error : E) (self : UnixPersonalWorkerStore) c c' s :
  at_catalog c s → worker_advance c c' →
  wp (publish_catalog (H := H * effects) self stage_error publish_error c')
    (ensures worker_inv (λ _ s', at_catalog c' s' ∧ s'.2 = s.2)) s.
Proof.
  intros [(now & Hs & Hsh) Hc Hlog] [Hstep Hpend].
  assert (allows s.2.2 c') as Hc'.
  { split; [eapply rtc_r; [apply Hc|done]|]. intros k Hk. by apply Hc, Hpend. }
  set (ψ := tx_img (TxCatalog (Some c) c')).
  assert (ψ now) as Hnow by by apply idle_in_tx.
  eapply wp_bind.
  { eapply (wp_store_in _ _ c c'); [done..|].
    eapply (wp_stage_catalog self ψ (λ _, False)); [done|exact Hnow|intros img Hi; by left|exact Hsh|exact Hs]. }
  intros sg s1 [(-> & now1 & Hst1 & Hsh1 & Hnow1) Heq1].
  eapply wp_ensures.
  { eapply (wp_store_in _ _ c c'); [by rewrite Heq1..|].
    eapply (wp_publish_catalog ψ ψ); [done|done| |intros img Hi; by right|exact Hnow1|exact Hsh1|exact Hst1].
    intros _ img [Hi|Hi]; [left|right]; destruct Hi; split; rewrite ?slot_delete by names; try done.
    - by apply absent_torn, slot_deleted.
    - by apply slot_deleted. }
  { done. }
  intros [] s2 [(now2 & Hs2 & Hsh2) Heq2]. rewrite Heq1 in Heq2. split; [|done].
  split; rewrite ?Heq2; [by exists now2|done..].
Qed.

(** The lock is taken and given back. *)
Lemma inv_keeps s s' : worker_inv s → UnixSteps.keeps s.1 s'.1 → s'.2 = s.2 → worker_inv s'.
Proof.
  intros [(c & c' & Himg & Hc & Hc') Hlog] Hk Heq. split; rewrite ?Heq; [|done]. exists c, c'.
  split; [by eapply keeps_images|done].
Qed.

Lemma wp_holding_lock {E A} (e : E) (self : UnixPersonalWorkerStore) (body : wio E A) s :
  worker_inv s → (∀ s1, worker_inv s1 → safe body s1) → safe (holding_lock self e body) s.
Proof.
  intros Hs Hbody. eapply wp_bind with (R := λ _, worker_inv).
  { eapply wp_mono; [apply wp_store, (quiet (Quiet := _))|]. intros out s' (out' & Hk & Heq & ->).
    pose proof (inv_keeps _ _ Hs Hk Heq). by destruct out' as [[]|]. }
  intros [] s1 Hs1. apply wp_catch. eapply wp_mono; [by apply Hbody|]. intros [r|] s2 Hs2; [|done].
  assert (worker_inv s2) as Hinv2 by by destruct r.
  apply wp_catch. destruct s2 as [w2 h2]. unfold wp, disk. pose proof (quiet_funlock w2) as Hq. unfold wp in Hq.
  destruct (funlock w2) as [w3 out]. pose proof (inv_keeps (w2, h2) (w3, h2) Hinv2 Hq eq_refl).
  destruct out; [|done]. apply wp_lift. by destruct r.
Qed.

(** Looking at the directory once it is durable. *)
Lemma wp_sync_inv {E'} (e : E') s :
  worker_inv s → wp (store_call (H := H * effects) e synchronize_directory) (ensures worker_inv (λ _, worker_synced)) s.
Proof.
  intros [(c & c' & Himg & Hc & Hc') Hlog].
  eapply wp_ensures; [eapply (wp_store_in _ _ c c'); [done..|]|done|].
  - apply (wp_sync_in _ _ (λ _ Hi, Hi)); [apply Himg|by apply images_St].
  - intros [] s' [Hs' Heq]. split; rewrite ?Heq; [|done]. exists (w_now s.1), c, c'. split_and!; try done. apply Himg.
Qed.

Lemma wp_recover_synced {E'} (e : E') (self : UnixPersonalWorkerStore) s :
  worker_synced s →
  wp (store_call (H := H * effects) e (recover_catalog_locked self)) (ensures worker_inv (λ _ s', ∃ c, at_catalog c s')) s.
Proof.
  intros [(now & c & c' & Hs & Htx & Hc & Hc') Hlog]. destruct Htx as [Hsh|Hsh].
  - eapply wp_ensures; [eapply (wp_store_in _ _ c c'); [done..|]|done|].
    + eapply (wp_recover_catalog self _ (Whole c) c'); [intros img Hi; by left|intros img Hi; by right|exact Hsh|exact Hs].
    + intros [] s' [(now' & Hs' & [Hsh'|Hsh']) Heq]; [exists c|exists c']; split; rewrite ?Heq; try done; by exists now'.
  - eapply wp_ensures; [eapply (wp_store_in _ _ c' c'); [done..|]|done|].
    + eapply (wp_recover_catalog self _ (Whole c') c'); [intros img Hi; by left|intros img Hi; by right| |exact Hs].
      destruct Hsh. split; [done| |done..]. by apply absent_torn.
    + intros [] s' [(now' & Hs' & Hsh') Heq]. exists c'. split; rewrite ?Heq; try done. exists now'. by destruct Hsh'.
Qed.

(** *** Effects *)

Lemma faithful_perform log k effect :
  faithful log → performed k log = 0%nat → (∀ k', performs k' effect → k' = k) →
  match effect with EfRun command => ∀ vm, ¬ destroys vm command | _ => True end → faithful (log ++ [effect]).
Proof.
  intros [Ho Hd] Hn Hk Heff. split; [|apply destroyed_app; [done|by constructor]].
  intros k'. rewrite performed_app. destruct (decide (performs k' effect)) as [Hp|Hp].
  - rewrite (Hk k' Hp), Hn. apply (length_filter (performs k) [effect]).
  - rewrite (performed_none k' [effect]) by by constructor. specialize (Ho k'). lia.
Qed.

Lemma allows_perform log k effect c :
  allows log c → ¬ pending k c → (∀ k', performs k' effect → k' = k) → allows (log ++ [effect]) c.
Proof.
  intros [Hc Hn] Hp Hk. split; [done|]. intros k' Hk'. rewrite performed_app, (Hn k' Hk').
  rewrite (performed_none k' [effect]); [done|]. constructor; [|done]. intros Hperf. by rewrite (Hk k' Hperf) in Hk'.
Qed.

(** An effect that was primed happens, however the call ends. *)
Lemma wp_perform {E A} (call : prog H E A) effect k c (s : st) :
  primed k c s → (∀ k', performs k' effect → k' = k) →
  match effect with EfRun command => ∀ vm, ¬ destroys vm command | _ => True end →
  wp (recording (λ _, [effect]) call) (λ _ h, at_catalog c (s.1, h)) s.2.
Proof.
  destruct s as [w [h log]]. intros [[Hr Hc Hlog] Hn Hp] Hk Heff. unfold wp, recording. simpl in *.
  destruct (call h) as [h' out]. split; simpl; [done|by eapply allows_perform|by eapply faithful_perform].
Qed.

(** Programs of the host that keep what lasts. *)
Definition keeping {E A} (R : st → Prop) (w : World) (m : prog (H * effects) E A) (h : H * effects) : Prop :=
  wp m (λ _ h', R (w, h')) h.

Lemma keeping_bind {E A B} R w (m : prog (H * effects) E A) (f : A → prog (H * effects) E B) h :
  keeping R w m h → (∀ a h', R (w, h') → keeping R w (f a) h') → keeping R w (m ≫= f) h.
Proof.
  intros Hm Hf. apply wp_catch. eapply wp_mono; [exact Hm|]. intros [[a|e|]|] h' Hh; [by apply Hf|done..].
Qed.

Lemma keeping_ok {E A B} R w (a : A) (f : A → prog (H * effects) E B) h :
  keeping R w (f a) h → keeping R w (lift (Ok a) ≫= f) h.
Proof. done. Qed.

Lemma keeping_failing {E E' A} R w (e : E') (m : prog (H * effects) E A) h :
  keeping R w m h → keeping R w (or_fail e m) h.
Proof. intros Hm. apply wp_catch. eapply wp_mono; [exact Hm|]. by intros [[]|]. Qed.

Lemma keeping_gentle {E A} R w (m : prog (H * effects) E A) `{!Gentle m} h :
  lasting R → R (w, h) → keeping R w m h.
Proof.
  intros HR Hh. unfold keeping, wp. pose proof (gentle h) as Hg. destruct (m h) as [h' out].
  by apply (la_grows _ HR (w, h)).
Qed.

Lemma wp_keeping {E A} R (m : prog (H * effects) E A) (s : st) :
  lasting R → keeping R s.1 m s.2 → wp (host m) (ensures worker_inv (λ _, R)) s.
Proof.
  intros HR Hm. apply wp_host_any. eapply wp_mono; [exact Hm|].
  intros [[a|e|]|] h Hh; simpl; [done|by apply (la_inv _ HR)..].
Qed.

(** The clone, and the look at what it made. *)
Lemma wp_execute_clone adapter vm resources ready c s :
  lwp_command (pc_plan (crc_prepared ready)) = clone_command adapter vm resources →
  primed (OnceClone vm) c s →
  wp (host (execute_checkpointed_clone_locked ready)) (ensures worker_inv (λ _, at_catalog c)) s.
Proof.
  intros Hcmd Hp. pose proof (at_catalog_lasting c) as HR. apply wp_keeping; [done|].
  unfold execute_checkpointed_clone_locked. apply keeping_bind.
  - apply keeping_failing, (wp_perform _ _ (OnceClone vm)); [done|..]; rewrite Hcmd.
    + intros k. apply clone_performs.
    + intros vm'. apply clone_destroys.
  - intros record h Hh. apply keeping_gentle; [solve_gentle|done..].
Qed.

(** A configuration is generated. *)
Lemma wp_generate name c s :
  primed (OnceGenerate name) c s → wp (host (generate_jit name)) (ensures worker_inv (λ _, at_catalog c)) s.
Proof.
  intros Hp. apply wp_keeping; [apply at_catalog_lasting|].
  apply (wp_perform _ _ (OnceGenerate name)); [done| |done]. by intros [] ?; simpl in *; subst.
Qed.

(** The runner is launched. *)
Lemma wp_execute_started program home vm encoded plan r now c s :
  lp_command plan = lima_launch_command program home vm encoded → primed (OnceLaunch vm) c s →
  wp (host (execute_started plan r now)) (ensures worker_inv (λ _, at_catalog c)) s.
Proof.
  intros Hcmd Hp. pose proof (at_catalog_lasting c) as HR. apply wp_keeping; [done|].
  unfold execute_started. destruct (negb _ || _); [by destruct s; apply Hp|].
  destruct (ok_or _ _) as [remaining|e|]; [|by destruct s; apply Hp..].
  apply keeping_ok, keeping_bind.
  - apply keeping_failing, (wp_perform _ _ (OnceLaunch vm)); [done|..]; rewrite Hcmd.
    + intros k. apply launch_performs.
    + intros vm'. apply launch_destroys.
  - intros record h Hh. apply keeping_gentle; [solve_gentle|done..].
Qed.

(** *** Destroying a machine *)

(** [confirmed] is the machine the attempt of [r] is bound to. *)
Definition is_bound (c : catalog_doc) (r : DisposableAttemptReservation) (confirmed : ConfirmedMachine) : Prop :=
  r ∈ cd_active c ∧ is_cleanup_phase (at_phase (dr_attempt r)) = true ∧
  lor_instance (cm_request confirmed) = at_vm_id (dr_attempt r) ∧
  ∃ identity, at_vm_identity (dr_attempt r) = Some identity ∧
    matches_host_identity identity (ho_identity (cm_host confirmed)) = true.

Lemma destroyed_snoc log adapter c r confirmed :
  rtc catalog_step c0 c → is_bound c r confirmed →
  destroyed_bound c0 (log ++ [EfConfirmed (cm_host confirmed) (cm_request confirmed)]) →
  destroyed_bound c0 ((log ++ [EfConfirmed (cm_host confirmed) (cm_request confirmed)]) ++
    [EfRun (delete_command adapter (at_vm_id (dr_attempt r)))]).
Proof.
  intros Hc (Hr & Hphase & Hreq & identity & Hid & Hm) Hlog before command after vm Heq Hd.
  destruct after as [|e after _] using rev_ind.
  - apply app_inj_tail in Heq as [<- [= <-]]. apply delete_destroys in Hd as ->.
    do 6 eexists. by split_and!.
  - rewrite app_comm_cons, app_assoc in Heq. apply app_inj_tail in Heq as [Heq _]. by eapply Hlog.
Qed.

(** A confirmation that returns is the last thing that happened. *)
Lemma wp_confirm_last code confirmed c w h :
  at_catalog c (w, h) →
  wp (confirm_current (H := H * effects) code confirmed) (λ out h', at_catalog c (w, h') ∧
    ∀ u, out = Done (Ok u) → ∃ log, h'.2 = log ++ [EfConfirmed (cm_host confirmed) (cm_request confirmed)]) h.
Proof.
  intros Hat. apply wp_catch. unfold wp, host_confirm, kept_views, recording. destruct h as [h log].
  destruct (host_confirm (cm_host confirmed) (cm_request confirmed) h) as [h' out].
  assert (at_catalog c (w, (h', log ++ confirmed_as (EfConfirmed (cm_host confirmed) (cm_request confirmed)) out))) as Hat'.
  { apply (la_grows _ (at_catalog_lasting c) (w, (h, log))); [done| |done]. eexists. split; [|done].
    apply confirmed_harmless. }
  destruct out as [[u|e|]|]; simpl; (split; [done|]); [|done..]. intros. by exists log.
Qed.

Lemma wp_run_delete adapter timeout c r confirmed w h log :
  is_bound c r confirmed → at_catalog c (w, h) →
  h.2 = log ++ [EfConfirmed (cm_host confirmed) (cm_request confirmed)] →
  keeping (at_catalog c) w
    (execute_with_timeout (delete_command adapter (at_vm_id (dr_attempt r))) timeout) h.
Proof.
  destruct h as [h l]. intros Hb [Hr Hc [Ho Hd]] Hl. simpl in *. subst l.
  unfold keeping, wp, execute_with_timeout at 1, kept_executor, recording.
  destruct (execute_with_timeout (delete_command adapter (at_vm_id (dr_attempt r))) timeout h) as [h' out].
  assert (∀ k, Forall (λ e, ¬ performs k e) [EfRun (delete_command adapter (at_vm_id (dr_attempt r)))]) as Hnone.
  { intros k. constructor; [apply delete_performs|done]. }
  split; [done|..]; cbn [snd].
  - split; [apply Hc|]. intros k Hk. rewrite performed_app, (performed_none _ _ (Hnone k)).
    by rewrite (proj2 Hc k Hk).
  - split; [|by eapply destroyed_snoc; [apply Hc|..]]. intros k.
    rewrite performed_app, (performed_none _ _ (Hnone k)). specialize (Ho k). lia.
Qed.

Lemma wp_destroy_worker runtime c r confirmed s :
  is_bound c r confirmed → at_catalog c s →
  wp (host (destroy_cleanup_worker runtime r confirmed)) (ensures worker_inv (λ _, at_catalog c)) s.
Proof.
  intros Hb Hat. pose proof (at_catalog_lasting c) as HR. apply wp_keeping; [done|]. destruct s as [w h].
  unfold destroy_cleanup_worker. simpl.
  do 4 (apply keeping_bind; [apply keeping_gentle; [solve_gentle|done..]|]; clear h Hat; intros ? h Hat).
  destruct (worker_plan (ccr_worker runtime) a2 r DestroyVm) as [plan|e|] eqn:Hp; [|done..].
  apply keeping_ok. case_bool_decide as Hk; [done|].
  apply plan_command in Hp. rewrite Hk in Hp. apply wp_catch.
  eapply wp_mono; [by apply wp_confirm_last|]. intros [[u|e|]|] h1 [Hat1 Hlast]; [|done..].
  destruct (Hlast u eq_refl) as [log Hlog]. rewrite Hp.
  apply (keeping_bind (at_catalog c)); [by apply keeping_failing; eapply wp_run_delete|].
  intros record h2 Hat2. apply keeping_gentle; [solve_gentle|done..].
Qed.

(** ** The transactions *)

Section transactions.
Context (self : UnixPersonalWorkerStore).

Abbreviation prepares m := (∀ s, worker_inv s → wp m (ensures worker_inv (λ _ s', ∃ c, at_catalog c s')) s).

Ltac guarded := eapply wp_bind; [apply wp_quiet_synced; [solve_quiet|eassumption]|]; intros ? ? ?.

Lemma prepare_clone_safe : prepares (prepare_clone_transaction (H := H * effects) self).
Proof.
  intros s Hs. eapply wp_bind; [by apply wp_sync_inv|]. intros ? s1 Hs1. simpl in Hs1.
  do 4 guarded. by apply wp_recover_synced.
Qed.

Lemma prepare_cleanup_safe : prepares (prepare_cleanup_transaction (H := H * effects) self).
Proof.
  intros s Hs. eapply wp_bind; [by apply wp_sync_inv|]. intros ? s1 Hs1. simpl in Hs1.
  do 4 guarded. by apply wp_recover_synced.
Qed.

Lemma prepare_runner_safe : prepares (prepare_runner_transaction (H := H * effects) self).
Proof.
  intros s Hs. eapply wp_bind; [by apply wp_sync_inv|]. intros ? s1 Hs1. simpl in Hs1.
  do 4 guarded. by apply wp_recover_synced.
Qed.

Lemma successor_Ok {E} (refused invalid : E) c next c' :
  successor refused invalid c next = Ok c' → next = Ok c'.
Proof.
  unfold successor. intros (x & Hx%map_err_Ok & Hr)%bind_Ok. by apply bind_Ok in Hr as (? & _ & [= <-]).
Qed.

(** The block under the lock: the catalog that is loaded is the one that is there. *)
Lemma wp_clone_block {A} (body : catalog_doc → wio DisposableCloneRuntimeError A) s :
  worker_inv s → (∀ c s', at_catalog c s' → safe (body c) s') →
  safe (holding_lock self (clone_durable "clone_store_lock_unavailable")
    (_ ← prepare_clone_transaction self; current ← load_clone_catalog self; body current)) s.
Proof.
  intros Hs Hbody. apply wp_holding_lock; [done|]. intros s1 Hs1.
  eapply wp_bind; [by apply prepare_clone_safe|]. intros ? s2 [c Hc]. eapply wp_bind.
  { eapply wp_bind; [by apply wp_load_at|]. intros found s3 [-> Hc3].
    apply (wp_lift_ensures _ _ (λ current s', current = c ∧ at_catalog c s')); [by intros ? [= <-]|].
    by eapply at_catalog_inv. }
  intros ? s3 [-> Hc3]. by apply Hbody.
Qed.

(** A transition is published, and nothing else follows. *)
Lemma wp_publish_last {E A} (e1 e2 : E) c c' (k : unit → wio E A) s :
  at_catalog c s → worker_advance c c' → (∀ s', at_catalog c' s' → safe (k ()) s') →
  safe (publish_catalog self e1 e2 c' ≫= k) s.
Proof.
  intros Hc Had Hk. eapply wp_bind; [by apply (wp_publish_worker _ _ self c)|]. intros [] s' [Hc' _]. by apply Hk.
Qed.

Lemma safe_lift {E A} (r : result E A) c s : at_catalog c s → safe (lift r) s.
Proof. intros Hc. apply wp_lift_ensures; [intros ? _|]; by eapply at_catalog_inv. Qed.

(** A value that is computed from the catalog. *)
Lemma safe_pure {E A B} (r : result E A) (k : A → wio E B) c s :
  at_catalog c s → (∀ a, r = Ok a → safe (k a) s) → safe (lift r ≫= k) s.
Proof. intros Hc Hk. apply wp_bind_lift; [by eapply at_catalog_inv|done]. Qed.

Lemma found_advance {E} (refused invalid : E) c id rev action r c' s :
  at_catalog c s → find_active c id = Some r →
  successor refused invalid c (replace_attempt c id rev action) = Ok c' → worker_advance c c'.
Proof.
  intros Hc Hr Hc'%successor_Ok. by apply (replace_advance _ _ _ _ _ _ (allows_wf _ _ (ac_allows _ _ Hc)) Hr Hc').
Qed.

Lemma authorize_safe runtime id s :
  worker_inv s → safe (authorize_disposable_clone_transaction self runtime id) s.
Proof.
  intros Hs. apply wp_clone_block; [done|]. clear s Hs. intros c s Hc.
  eapply wp_bind; [by apply wp_host_gentle; [solve_gentle|apply at_catalog_lasting|]|]. intros action s1 Hc1. simpl in Hc1.
  eapply safe_pure; [done|]. intros r Hr%ok_or_Ok. eapply safe_pure; [done|]. intros c' Hc'.
  eapply wp_publish_last; [done|by eapply found_advance|]. intros s2 Hc2.
  eapply safe_pure; [done|]. intros phase _. by eapply safe_lift.
Qed.

Lemma registration_safe runtime id s :
  worker_inv s → safe (checkpoint_disposable_registration_transaction self runtime id) s.
Proof.
  intros Hs. apply wp_clone_block; [done|]. clear s Hs. intros c s Hc.
  eapply wp_bind; [by apply wp_host_gentle; [solve_gentle|apply at_catalog_lasting|]|]. intros action s1 Hc1. simpl in Hc1.
  eapply safe_pure; [done|]. intros r Hr%ok_or_Ok. eapply safe_pure; [done|]. intros c' Hc'.
  eapply safe_pure; [done|]. intros phase _.
  eapply wp_publish_last; [done|by eapply found_advance|]. intros s2 Hc2. by eapply safe_lift.
Qed.

(** The checkpoint of an effect is published: the effect may happen. *)
Lemma wp_checkpoint {E} (e1 e2 refused invalid : E) k c id r rev action c' s :
  at_catalog c s → find_active c id = Some r →
  successor refused invalid c (replace_attempt c id rev action) = Ok c' →
  concerns k (dr_attempt r) → passed k (dr_attempt r) = false →
  (∀ a, transition (dr_attempt r) action = Ok a → passed k a = true) →
  wp (publish_catalog self e1 e2 c')
    (ensures worker_inv (λ _ s', primed k c' s' ∧ ∃ r', find_active c' id = Some r' ∧
       step_facts (dr_attempt r) (dr_attempt r'))) s.
Proof.
  intros Hc Hr Hc' Hk Hp Hnext. pose proof (allows_wf _ _ (ac_allows _ _ Hc)) as Hwf.
  destruct (replace_advance _ _ _ _ _ _ Hwf Hr (successor_Ok _ _ _ _ _ Hc')) as (Had & a & Ha & Hf & Hr').
  eapply wp_ensures; [by apply (wp_publish_worker _ _ self c)|done|]. intros [] s' [Hat Heq].
  split; [|by exists (set_attempt r a)]. split; [done|..].
  - rewrite Heq. apply (proj2 (ac_allows _ _ Hc)). exists r. split_and!; [|done..]. by eapply found_active.
  - apply (passed_not_pending k c' id (set_attempt r a)); [by eapply allows_wf, ac_allows|done| |by apply Hnext].
    by apply (concerns_step k _ _ Hf).
Qed.

Lemma clone_started_phase a a' :
  transition a RecordCloneStarted = Ok a' → at_phase a = PhaseCloneAuthorized ∧ at_phase a' = PhaseCloneStarted.
Proof.
  simpl. unfold record_clone_started, advance_phase. intros Ha. apply ok_guard in Ha as [Hp Ha]. bprop.
  apply bind_Ok in Ha as (? & _ & Ha). by apply bind_Ok in Ha as (? & _ & [= <-]).
Qed.

Lemma bind_machine_safe runtime c id identity plan s :
  at_catalog c s → safe (bind_cloned_machine self runtime c id identity plan) s.
Proof.
  intros Hc. unfold bind_cloned_machine. eapply safe_pure; [done|]. intros r Hr%ok_or_Ok.
  eapply safe_pure; [done|]. intros bound Hb%map_err_Ok. eapply safe_pure; [done|]. intros _ _.
  eapply wp_publish_last; [done|by eapply bind_advance; [eapply allows_wf, ac_allows|..]|]. intros s1 Hc1.
  eapply safe_pure; [done|]. intros receipt _. by eapply safe_lift.
Qed.

Lemma run_clone_safe runtime c id s : at_catalog c s → safe (run_clone self runtime c id) s.
Proof.
  intros Hc. unfold run_clone.
  eapply wp_bind; [by apply wp_quiet_at; [unfold load_template_generation_named; solve_quiet|]|].
  intros found s1 Hc1. simpl in Hc1. eapply safe_pure; [done|]. intros generation _.
  destruct (find_active c id) as [r|] eqn:Hr.
  2: { assert (clone_attempt c id = Err (clone_durable "clone_attempt_missing")) as He
         by (unfold clone_attempt; by rewrite Hr).
       eapply wp_bind; [by apply wp_host_gentle; [solve_gentle|apply at_catalog_lasting|]|].
       intros prepared s2 Hc2. rewrite He. eapply safe_pure; [exact Hc2|by intros ?]. }
  eapply wp_bind.
  { apply (wp_host_yields _ (at_catalog c) _ _ (at_catalog_lasting c) (prepared_clone runtime c generation id r Hr) Hc1). }
  intros prepared s2 [(resources & Hcmd) Hc2]. eapply safe_pure; [done|]. intros ? Hr'%ok_or_Ok.
  rewrite Hr in Hr'. injection Hr' as <-. eapply safe_pure; [done|]. intros started Hst.
  eapply wp_bind.
  { apply (wp_host_yields _ (at_catalog c) _ _ (at_catalog_lasting c) (preflight_ready runtime started id prepared) Hc2). }
  intros ready s3 [<- Hc3].
  destruct (replace_advance _ _ _ _ _ _ (allows_wf _ _ (ac_allows _ _ Hc3)) Hr (successor_Ok _ _ _ _ _ Hst))
    as (_ & a & [Hph _]%clone_started_phase & _).
  eapply wp_bind.
  { eapply (wp_checkpoint _ _ _ _ (OnceClone (at_vm_id (dr_attempt r)))); [done|done|exact Hst|done|simpl; by rewrite Hph|].
    intros a' [_ Hph']%clone_started_phase. simpl. by rewrite Hph'. }
  intros [] s4 [Hp4 _]. eapply wp_bind; [by eapply wp_execute_clone|].
  intros [identity plan] s5 Hc5. by apply bind_machine_safe.
Qed.

Lemma clone_safe runtime id s :
  worker_inv s → safe (execute_disposable_clone_transaction self runtime id) s.
Proof.
  intros Hs. apply wp_clone_block; [done|]. clear s Hs. intros c s Hc.
  eapply wp_bind; [by apply wp_host_gentle; [solve_gentle|apply at_catalog_lasting|]|]. intros [action|] s1 Hc1; simpl in Hc1.
  - unfold checkpoint_precommand_cleanup. eapply safe_pure; [done|]. intros r Hr%ok_or_Ok.
    eapply safe_pure; [done|]. intros c' Hc'. eapply safe_pure; [done|]. intros phase _.
    eapply wp_publish_last; [done|by eapply found_advance|]. intros s2 Hc2. by eapply safe_lift.
  - by apply run_clone_safe.
Qed.

(** *** Cleanup *)

Lemma cleanup_action_safe c id action s : at_catalog c s → safe (publish_cleanup_action self c id action) s.
Proof.
  intros Hc. unfold publish_cleanup_action. eapply safe_pure; [done|]. intros r Hr%ok_or_Ok.
  eapply safe_pure; [done|]. intros c' Hc'. eapply safe_pure; [done|]. intros r' _.
  eapply wp_publish_last; [done|by eapply found_advance|]. intros s2 Hc2. by eapply safe_lift.
Qed.

Lemma retire_safe c id r s : at_catalog c s → safe (retire_attempt self c id r) s.
Proof.
  intros Hc. unfold retire_attempt. eapply safe_pure; [done|]. intros c' Hc'%successor_Ok.
  eapply wp_publish_last; [done|by eapply retire_advance; [eapply allows_wf, ac_allows|]|].
  intros s2 Hc2. by eapply safe_lift.
Qed.

Lemma destroy_present_safe runtime c id r now confirmed s :
  at_catalog c s → is_bound c r confirmed → safe (destroy_present runtime id r now confirmed) s.
Proof.
  intros Hc Hb. unfold destroy_present. eapply safe_pure; [done|]. intros action _.
  case_bool_decide; [by eapply safe_lift|].
  eapply wp_bind; [by apply wp_destroy_worker|]. intros ? s1 Hc1. simpl in Hc1. by eapply safe_lift.
Qed.

Lemma finish_absent_safe c id r now s : at_catalog c s → safe (finish_absent self c id r now) s.
Proof.
  intros Hc. unfold finish_absent. eapply wp_bind with (R := λ _, at_catalog c).
  { case_bool_decide; [done|].
    eapply wp_bind; [by apply wp_host_gentle; [apply _|apply at_catalog_lasting|]|]. by intros. }
  intros runner s1 Hc1. simpl in Hc1. eapply safe_pure; [done|]. intros action _.
  destruct action; try (by eapply safe_lift); try by apply cleanup_action_safe.
  eapply wp_bind; [by apply wp_host_gentle; [apply _|apply at_catalog_lasting|]|]. intros [] s2 Hc2. simpl in Hc2.
  eapply wp_bind; [by apply wp_host_gentle; [apply _|apply at_catalog_lasting|]|]. intros lookup s3 Hc3. simpl in Hc3.
  destruct lookup; by eapply safe_lift.
Qed.

Lemma cleanup_safe runtime id s :
  worker_inv s → safe (execute_disposable_cleanup_transaction self runtime id) s.
Proof.
  intros Hs. apply wp_holding_lock; [done|]. clear s Hs. intros s Hs.
  eapply wp_bind; [by apply prepare_cleanup_safe|]. intros ? s1 [c Hc1].
  eapply wp_bind; [by apply wp_load_at|]. intros found s2 [-> Hc2]. apply wp_bind_ok.
  eapply safe_pure; [done|]. intros r Hr%ok_or_Ok%found_active. simpl.
  case_bool_decide; [by apply cleanup_action_safe|]. case_bool_decide; [by apply retire_safe|].
  case_bool_decide; [by apply cleanup_action_safe|].
  destruct (is_handoff_phase _ && _ && _); [by apply cleanup_action_safe|].
  destruct (is_cleanup_phase _); simpl; [|by eapply safe_lift].
  eapply wp_bind; [by apply wp_host_gentle; [solve_gentle|apply at_catalog_lasting|]|]. intros now s3 Hc3. simpl in Hc3.
  eapply wp_bind; [apply (wp_host_yields _ (at_catalog c) _ _ (at_catalog_lasting c) (observed_machine runtime r) Hc3)|].
  intros [|confirmed] s4 [Hvm Hc4].
  - by apply finish_absent_safe.
  - apply (destroy_present_safe _ c); [done|]. by split.
Qed.

(** *** Runner *)

Lemma recover_registration_safe c id r s :
  at_catalog c s → find_active c id = Some r →
  safe (recover_registration self c id (dr_attempt r)) s.
Proof.
  intros Hc Hr. unfold recover_registration.
  eapply wp_bind; [by apply wp_host_gentle; [apply _|apply at_catalog_lasting|]|]. intros lookup s1 Hc1. simpl in Hc1.
  destruct lookup as [|runner]; [by eapply safe_lift|]. eapply safe_pure; [done|]. intros c' Hc'.
  eapply wp_publish_last; [done|by eapply found_advance|]. intros s2 Hc2. by eapply safe_lift.
Qed.

Section handoff.
Context (program home : string) (target : DisposableCloneRuntime) (id : DisposableAttemptId).

Abbreviation backend := (BackendLima program home).

(** A call that only looks at the host, in a state that lasts. *)
Ltac look :=
  eapply wp_bind;
    [first [apply wp_host_gentle; [solve_gentle|apply primed_lasting|eassumption]
           |apply wp_host_gentle; [solve_gentle|apply at_catalog_lasting|eassumption]]|];
  let Hx := fresh "Hx" in intros ? ? Hx; simpl in Hx.

Lemma safe_primed {E A B} (r : result E A) (k : A → wio E B) key c s :
  primed key c s → (∀ a, r = Ok a → safe (k a) s) → safe (lift r ≫= k) s.
Proof. intros [Hc _ _]. by eapply safe_pure. Qed.

Lemma start_recorded a a' : transition a RecordRunnerStartStarted = Ok a' → at_runner_start_started a' = true.
Proof.
  simpl. unfold record_runner_start_started. intros Ha. apply ok_guard in Ha as [_ Ha].
  destruct (at_runner_start_started a) eqn:Hs; [by injection Ha as <-|].
  apply bind_Ok in Ha as (? & _ & Ha). by apply bind_Ok in Ha as (? & _ & [= <-]).
Qed.

Lemma jit_recorded a a' : transition a RecordJitGenerationStarted = Ok a' → at_jit_generation_started a' = true.
Proof.
  simpl. unfold record_jit_generation_started. intros Ha. apply ok_guard in Ha as [_ Ha].
  destruct (at_jit_generation_started a) eqn:Hs; [by injection Ha as <-|].
  apply bind_Ok in Ha as (? & _ & Ha). by apply bind_Ok in Ha as (? & _ & [= <-]).
Qed.

Lemma planned_launch r now jit plan :
  plan_launch backend r now jit = Ok plan →
  ∃ encoded, lp_command plan = lima_launch_command program home (at_vm_id (dr_attempt r)) encoded.
Proof.
  unfold plan_launch. intros Hp. do 2 apply ok_guard in Hp as [_ Hp].
  apply bind_Ok in Hp as (encoded & _ & Hp). apply bind_Ok in Hp as (? & _ & Hp).
  apply bind_Ok in Hp as (? & [= <-] & Hp). apply bind_Ok in Hp as (? & _ & [= <-]). by exists encoded.
Qed.

Lemma start_runner_safe plan encoded vm c r confirmation s :
  lp_command plan = lima_launch_command program home vm encoded →
  at_catalog c s → find_active c id = Some r → at_vm_id (dr_attempt r) = vm →
  safe (start_runner self target id c plan confirmation) s.
Proof.
  intros Hcmd Hc Hr Hvm. unfold start_runner, confirm_target, reconfirm_target, runner_clock, runner_attempt.
  rewrite Hr. apply wp_bind_ok. do 4 look. eapply safe_pure; [done|]. intros [] Hv.
  unfold validate_registered in Hv. apply ok_guard in Hv as [Hv _]. bprop.
  eapply safe_pure; [done|]. intros started Hst. eapply wp_bind.
  { eapply (wp_checkpoint _ _ _ _ (OnceLaunch vm)); [done|done|exact Hst|done|done|]. intros ?. apply start_recorded. }
  intros [] s1 (Hp1 & r1 & Hr1 & _). rewrite Hr1. apply wp_bind_ok. do 5 look.
  eapply wp_bind; [by eapply wp_execute_started|]. intros receipt s2 Hc2. simpl in Hc2.
  eapply wp_bind; [apply wp_failing, wp_host_gentle; [solve_gentle|apply (at_catalog_lasting started)|done]|].
  intros [] s3 Hc3. simpl in Hc3. by eapply safe_lift.
Qed.

Lemma register_runner_safe c r confirmation s :
  find_active c id = Some r → primed (OnceGenerate (at_runner_name (dr_attempt r))) c s →
  safe (register_runner self backend target id c confirmation) s.
Proof.
  intros Hr Hp. unfold register_runner, confirm_target, reconfirm_target, runner_clock, runner_attempt at 1.
  rewrite Hr. apply wp_bind_ok. do 4 look.
  match goal with |- context [if ?b then _ else _] => destruct b end; [by eapply safe_lift, pr_at|]. look.
  eapply wp_bind; [by apply wp_generate|]. intros jit s1 Hc1. simpl in Hc1.
  eapply safe_pure; [done|]. intros plan [encoded Hcmd]%planned_launch.
  eapply safe_pure; [done|]. intros registered Hreg.
  destruct (replace_advance _ _ _ _ _ _ (allows_wf _ _ (ac_allows _ _ Hc1)) Hr (successor_Ok _ _ _ _ _ Hreg))
    as (Had & ? & _ & Hf & Hr').
  eapply wp_publish_last; [done..|]. intros s2 Hc2. eapply start_runner_safe; [done..|].
  pose proof (sf_key _ _ Hf) as Hkey. by injection Hkey.
Qed.

Lemma handoff_safe c r s :
  at_catalog c s → find_active c id = Some r → at_jit_generation_started (dr_attempt r) = false →
  safe (handoff_runner self backend target id c r) s.
Proof.
  intros Hc Hr Hjit. unfold handoff_runner, confirm_target, reconfirm_target, runner_clock. look.
  eapply safe_pure; [done|]. intros [] _. do 3 look.
  match goal with |- context [match ?l with LookupAbsent => _ | LookupPresent _ => _ end] => destruct l end;
    [|by eapply safe_lift].
  do 4 look. eapply safe_pure; [done|]. intros [] _. eapply safe_pure; [done|]. intros started Hst.
  eapply wp_bind.
  { eapply (wp_checkpoint _ _ _ _ (OnceGenerate (at_runner_name (dr_attempt r)))); [done|done|exact Hst|done|done|].
    intros ?. apply jit_recorded. }
  intros [] s1 (Hp1 & r1 & Hr1 & Hf). pose proof (sf_key _ _ Hf) as Hkey. injection Hkey as _ _ _ _ Hname _ _.
  rewrite <-Hname in Hp1. by apply (register_runner_safe started r1).
Qed.

Lemma runner_safe s :
  worker_inv s → safe (execute_disposable_runner_transaction self backend target id) s.
Proof.
  intros Hs. apply wp_holding_lock; [done|]. clear s Hs. intros s Hs.
  eapply wp_bind; [by apply prepare_runner_safe|]. intros ? s1 [c Hc1].
  eapply wp_bind; [by apply wp_load_at|]. intros found s2 [-> Hc2]. apply wp_bind_ok.
  eapply safe_pure; [done|]. intros r Hr%ok_or_Ok. simpl.
  destruct (_ || _); [by eapply safe_lift|].
  destruct (at_jit_generation_started (dr_attempt r)) eqn:Hjit; [by apply recover_registration_safe|by apply handoff_safe].
Qed.
End handoff.
End transactions.

(** ** Runs *)

Inductive worker_transaction :=
| RunAuthorization (runtime : DisposableCloneRuntime) (attempt_id : DisposableAttemptId)
| RunClone (runtime : DisposableCloneRuntime) (attempt_id : DisposableAttemptId)
| RunRegistration (runtime : DisposableCloneRuntime) (attempt_id : DisposableAttemptId)
| RunRunner (limactl_program lima_home : string) (target : DisposableCloneRuntime)
    (attempt_id : DisposableAttemptId)
| RunCleanup (runtime : DisposableCloneRuntime) (attempt_id : DisposableAttemptId).

(** Where a transaction of the store [self] leads, returned or stopped. *)
Definition run_transaction (self : UnixPersonalWorkerStore) (t : worker_transaction) (s : st) : st :=
  match t with
  | RunAuthorization runtime id => (authorize_disposable_clone_transaction self runtime id s).1
  | RunClone runtime id => (execute_disposable_clone_transaction self runtime id s).1
  | RunRegistration runtime id => (checkpoint_disposable_registration_transaction self runtime id s).1
  | RunRunner program home target id =>
      (execute_disposable_runner_transaction self (BackendLima program home) target id s).1
  | RunCleanup runtime id => (execute_disposable_cleanup_transaction self runtime id s).1
  end.

(** Transactions, each of which may stop anywhere, and restarts to another
    state of the host, in any number and order.  What was done is kept. *)
Inductive worker_runs (s0 : st) : st → Prop :=
| worker_idle : worker_runs s0 s0
| worker_restart w w' h h' log :
    worker_runs s0 (w, (h, log)) → restarts w w' → worker_runs s0 (w', (h', log))
| worker_next self t s : worker_runs s0 s → worker_runs s0 (run_transaction self t s).

Lemma safe_run {E A} (m : wio E A) s : safe m s → worker_inv (m s).1.
Proof. unfold wp. by destruct (m s) as [s' [[]|]]. Qed.

Lemma worker_runs_inv s0 s : worker_inv s0 → worker_runs s0 s → worker_inv s.
Proof.
  intros H0 Hruns. induction Hruns as [|w w' h h' log _ IH Hre|self t s _ IH].
  - done.
  - destruct IH as [(c & c' & Himg & Hc & Hc') Hlog]. split; [|done]. exists c, c'. split; [|done].
    eapply restarts_images; [|exact Himg|exact Hre]. intros. by apply tx_survives.
  - destruct t; apply safe_run; by eauto using authorize_safe, clone_safe, registration_safe, runner_safe, cleanup_safe.
Qed.

(** The catalog that a directory holds is one of the two. *)
Lemma held_catalog c c' x img :
  tx_img (TxCatalog (Some c) c') img → read_as CATALOG_DOCUMENT (Some x) img → x = c ∨ x = c'.
Proof.
  intros [Hsh|Hsh] Hread; pose proof (read_whole _ _ _ _ (sh_cc _ _ _ _ _ Hsh) Hread) as [= ->]; auto.
Qed.
End runs.

Section once.
Context `{SER : !StoreSerde, DS : !DocumentSerde, LIMA : !LimaAuthorityReader, LAWS : CatalogSerdeLaws}
  {CUT : CatalogSerdeCut} `{DLAWS : DeliverySerdeLaws} {HASHER : Sha256Hasher} `{RLAWS : RecoverySerdeLaws}
  `{GSERDE : GenerationSerde, ISERDE : IdentitySerde, TEMPLATE : PreparedTemplate, OWNED : OwnedLinux} {H : Type}
  `{EXEC : TimedCommandExecutor H, CLOCK : CloneRuntimeClock H, VIEWS : WorkerViews H}
  `{ADM : DisposableCloneAdmissionSource H, CLEAN : DisposableCleanupRunnerSource H,
    REG : DisposableRunnerRegistrationSource H}.

Lemma initial_inv (c : catalog_doc) (w : World) (h : H) : idle (Some c) None w → worker_inv c (w, (h, [])).
Proof.
  intros Hidle. split.
  - exists c, c. split; [eapply images_mono; [exact Hidle|apply idle_in_tx]|by split; split].
  - split; [intros k; apply Nat.le_0_l|]. intros before command after vm Heq. by destruct before.
Qed.

(** (C5) A machine is cloned at most once, the configuration of a runner is
    generated at most once, and a runner is launched at most once.  Start where
    the catalog is settled on disk, and run the transactions of its attempts
    against any host, in any number and order, each stopped anywhere and
    followed by restarts to any other state of the host.  Then no such effect
    happened twice; and once one has happened, every catalog that may be found
    in the directory has its attempt past the checkpoint of that effect. *)
Theorem worker_effects_once (c : catalog_doc) (w w' : World) (h h' : H) (log : effects)
    (Hc : rtc catalog_step empty_catalog c) (Hidle : idle (Some c) None w)
    (Hruns : worker_runs (w, (h, [])) (w', (h', log))) :
  (∀ k, (performed k log ≤ 1)%nat) ∧
  images (λ img, ∀ c' r k, read_as CATALOG_DOCUMENT (Some c') img → r ∈ cd_active c' →
    concerns k (dr_attempt r) → performed k log ≠ 0%nat → passed k (dr_attempt r) = true) w'.
Proof.
  destruct (worker_runs_inv c Hc _ _ (initial_inv c w h Hidle) Hruns)
    as [(c1 & c2 & Himg & [_ H1] & [_ H2]) [Honce _]]. split; [done|].
  eapply images_mono; [exact Himg|]. intros img Hi x r k Hx Hr Hk Hperf.
  destruct (passed k (dr_attempt r)) eqn:Hp; [done|]. destruct Hperf.
  destruct (held_catalog _ _ _ _ Hi Hx) as [->| ->]; [apply H1|apply H2]; by exists r.
Qed.

(** (C6) Only a machine of its own is destroyed.  Over the same runs, whenever a
    machine is deleted, the last thing seen of the host before is that the
    instance of that name is still the one observed, and its identity is the
    one an attempt in cleanup, in a catalog the runs went through, was durably
    bound to. *)
Theorem destroys_only_bound (c : catalog_doc) (w w' : World) (h h' : H) (log : effects)
    (Hc : rtc catalog_step empty_catalog c) (Hidle : idle (Some c) None w)
    (Hruns : worker_runs (w, (h, [])) (w', (h', log)))
    (before after : effects) (command : CommandSpec) (vm : DisposableVmId)
    (Hlog : log = before ++ EfRun command :: after) (Hdestroys : destroys vm command) :
  ∃ before' observation request c' r identity,
    before = before' ++ [EfConfirmed observation request] ∧ lor_instance request = vm ∧
    rtc catalog_step c c' ∧ r ∈ cd_active c' ∧ at_vm_id (dr_attempt r) = vm ∧
    is_cleanup_phase (at_phase (dr_attempt r)) = true ∧
    at_vm_identity (dr_attempt r) = Some identity ∧
    matches_host_identity identity (ho_identity observation) = true.
Proof.
  destruct (worker_runs_inv c Hc _ _ (initial_inv c w h Hidle) Hruns) as [_ [_ Hd]]. by eapply Hd.
Qed.
End once.
