(* ===== verification/WorkerSamples.v ===== *)
(** * Sample runs of a disposable worker

    A host with one machine that stops the process where it is told to, the
    catalogs a run goes through, and the theorems of [WorkerOnce] at two runs:
    one that is stopped while the runner is launched, one that is stopped while
    its configuration is generated and then cleaned up. *)

From S2P Require Import Prelude Artifact WorkerQueue StoreWire WorkerStore StoreCodec FileSystem UnixStore UnixSteps UnixTheorems.
From S2P Require Import DiskLogic ExecutionAdmission ScaleSetProtocol AttemptState AttemptLifecycle WorkerReconciler AttemptCatalog CatalogSteps.
From S2P Require Import CatalogTheorems CatalogStore AttemptCodec CatalogCodec ScaleSetDelivery DeliveryConsumer DeliveryTheorems.
From S2P Require Import DeliveryRecovery RecoveryCodec CatalogDisk DeliveryDisk DeliveryPair PairSteps PairRecovery PairSamples.
From S2P Require Import TemplateGeneration TemplateTheorems WorkerCommands WorkerRuntime RunnerRuntime WorkerTransactions WorkerSteps WorkerOnce.

Local Open Scope N_scope.

(** ** The catalogs *)

Definition run_id : string := "attempt-00112233445566778899aabbccddeeff".
Definition run_vm : string := "w-00112233445566778899aabb".
Definition run_runner : ScaleSetRunnerReference := mkRunner 42 "smolrunner-00112233445566778899aabbccddeeff".
Definition run_resources : DisposableWorkerResources := mkWorkerResources 2000 (4 * GIB) (8 * GIB).

Definition run_catalog : catalog_doc :=
  mkCatalog 7 2
    [mkAttemptReservation (delivered_attempt 1 PhaseReserved) run_resources AttemptLifecycle.sample_identity] [].

(** One step of the attempt. *)
Definition act_step (action : DisposableAttemptCatalogAction) (c : catalog_doc) : catalog_doc :=
  default c (r ← find_active c run_id; ok (replace_attempt c run_id (at_revision (dr_attempt r)) action)).

Definition bind_step (c : catalog_doc) : catalog_doc :=
  default c (r ← find_active c run_id;
    ok (catalog_bind_vm_identity c run_id (at_revision (dr_attempt r)) AttemptLifecycle.sample_identity)).

Definition run_steps : list (catalog_doc → catalog_doc) :=
  [act_step AuthorizeClone; act_step RecordCloneStarted; bind_step; act_step BeginRegistration; act_step RecordJitGenerationStarted;
   act_step (RecordRegistration run_runner)].

(** Every catalog on the way to the launch, or to the cleanup. *)
Definition run_catalogs : list catalog_doc :=
  let path := foldl (λ l step, l ++ [step (default empty_catalog (last l))]) [run_catalog] run_steps in
  let registered := default empty_catalog (last path) in
  path ++ [act_step RecordRunnerStartStarted registered; act_step BeginCleanup registered].

Definition run_attempt_table : list OwnedAttemptWire :=
  attempt_wire <$> (run_catalogs ≫= λ c, dr_attempt <$> cd_active c).

Definition run_catalog_table : list (CatalogWire OwnedAttemptWire) :=
  (λ c, mkCatalogWire (cd_schema_version c) (cd_revision c) (reservation_wire <$> cd_active c)
          (attempt_wire <$> cd_tombstones c)) <$> run_catalogs.

#[local] Instance run_serde : CatalogSerde := {|
  Value := OwnedAttemptWire;
  attempt_to_vec := table_text run_attempt_table;
  attempt_from_slice := table_read run_attempt_table;
  attempt_version_from_slice b := aw_schema_version <$> table_read run_attempt_table b;
  value_to_vec := table_text run_attempt_table;
  value_from_slice := table_read run_attempt_table;
  catalog_to_vec := table_text run_catalog_table;
  catalog_from_slice := table_read run_catalog_table;
  catalog_version_from_slice b := cw_schema_version <$> table_read run_catalog_table b;
|}.

#[local] Instance run_serde_laws : CatalogSerdeLaws.
Proof.
  split; simpl.
  - intros w b H%table_reads. by rewrite H.
  - intros w b H. exists w, b. pose proof (table_reads _ _ _ H) as Hr. by rewrite Hr.
  - intros w b H%table_reads. by rewrite H.
Qed.

#[local] Instance run_serde_cut : CatalogSerdeCut.
Proof. intros w b b'. apply table_cut. Qed.

(** ** The host *)

Record sample_host := mkSampleHost {
  sh_present : bool;
  sh_registered : bool;
  sh_stops : option string;
}.

(** A command that did what it was asked, or stopped the process in it. *)
#[local] Instance sample_executor : TimedCommandExecutor sample_host := λ command timeout h,
  let verb := match command_verb command with Some (Plain verb) => verb | _ => EmptyString end in
  let present := if String.eqb verb "clone" then true
                 else if String.eqb verb "delete" then false else sh_present h in
  let stdout := if String.eqb verb "--version"
                then "limactl version 2.0.0" +:+ String "010" EmptyString else EmptyString in
  (mkSampleHost present (sh_registered h) (sh_stops h),
   if bool_decide (sh_stops h = Some verb) then Stopped
   else Done (Ok (mkExecution (displayed_argv command) (environment_keys command) (Some 0%Z) true stdout
                    EmptyString))).

#[local] Instance sample_worker_clock : CloneRuntimeClock sample_host := lift (Ok 1000).

Definition sample_machine : LimaHostIdentityObservation :=
  mkHostObservation (mkHostIdentity AttemptLifecycle.sample_identity None) (8 * GIB) 1.

#[local] Instance sample_views : WorkerViews sample_host := {|
  lima_observe _ _ := λ h, (h, Done (if sh_present h then Ok () else Err LimaMissingInstanceEvidence));
  host_observe _ := lift (Ok sample_machine);
  host_observe_cleanup _ := λ h,
    (h, Done (if sh_present h then Ok sample_machine else Err HostMissingEvidence));
  host_confirm _ _ := lift (Ok ());
  confirm_stopped_clone_source _ := lift (Ok (mkConfirmedSource 1));
  source_confirm_current _ := lift (Ok ());
  confirm_running_clone_target _ _ := lift (Ok sample_machine);
|}.

#[local] Instance sample_admission : DisposableCloneAdmissionSource sample_host := λ c r,
  lift (Ok (CloneAdmissionObservation_new c r 1000 2000 true false)).

#[local] Instance sample_cleanup_source : DisposableCleanupRunnerSource sample_host := {|
  cleanup_observe_runner _ := lift (Ok (LookupPresent run_runner));
  cleanup_remove_runner _ := lift (Ok ());
|}.

#[local] Instance sample_registration : DisposableRunnerRegistrationSource sample_host := {|
  registration_observe_runner _ := λ h,
    (h, Done (Ok (if sh_registered h then LookupPresent run_runner else LookupAbsent)));
  generate_jit _ := λ h,
    (mkSampleHost (sh_present h) true (sh_stops h),
     if bool_decide (sh_stops h = Some "generate") then Stopped
     else Done (Ok (mkJitReceipt run_runner ["j"%char; "i"%char; "t"%char])));
|}.

#[local] Existing Instance sample_generation_serde.

#[local] Instance sample_identity_serde : IdentitySerde := {|
  request_identity_to_vec _ := Some ["r"%char];
  command_identity_to_vec _ := Some ["c"%char];
|}.

#[local] Instance sample_template : PreparedTemplate :=
  Some (mkManifest (Some AttemptLifecycle.sample_identity) 2 (4 * GIB) (8 * GIB) "2.0.0").

#[local] Instance no_owned_linux : OwnedLinux := {|
  OwnedLinuxJitRuntime := unit;
  owned_runner_command _ _ _ _ := Err (runner_recovery "unsupported");
|}.

Definition sample_runtime : DisposableCloneRuntime :=
  mkCloneRuntime "/opt/lima/bin/limactl"
    (mkAdapter "/opt/lima/bin/limactl" "/var/lima" "template" AttemptLifecycle.sample_identity 2 (4 * GIB) (8 * GIB)
       "2.0.0").

(** ** The runs *)

Definition run_entries : entries :=
  <[CATALOG_DOCUMENT := document_file (dtext run_catalog)]>
    (<[GENERATION_DOCUMENT := sample_file ["A"%char; "010"%char]]> {[ STORE_LOCK_FILE := sample_file [] ]}).

Definition run_world : World := with_files run_entries [] (sample_world "1" []).

Definition run_all (ts : list worker_transaction) (s : World * (sample_host * effects)) :=
  foldl (λ s t, run_transaction sample_unix t s) s ts.

Definition to_runner : list worker_transaction :=
  [RunAuthorization sample_runtime run_id; RunClone sample_runtime run_id; RunRegistration sample_runtime run_id;
   RunRunner "/opt/lima/bin/limactl" "/var/lima" sample_runtime run_id].

(** The machine stops, and comes back with another host state. *)
Definition after_crash (stops : option string) (s : World * (sample_host * effects)) :=
  (crashed s.1, (mkSampleHost (sh_present s.2.1) (sh_registered s.2.1) stops, s.2.2)).

Definition start_state (stops : string) : World * (sample_host * effects) :=
  (run_world, (mkSampleHost false false (Some stops), [])).

Definition launched : World * (sample_host * effects) :=
  run_all to_runner (after_crash None (run_all to_runner (run_world, (mkSampleHost false false (Some "shell"), [])))).

Example launched_once :
  (λ k, performed k launched.2.2) <$> [OnceClone run_vm; OnceGenerate (rr_name run_runner); OnceLaunch run_vm]
  = [1%nat; 1%nat; 1%nat].
Proof. vm_compute. reflexivity. Qed.

(** Stopped while the configuration is generated, then recovered and cleaned up. *)
Definition cleaned_up : World * (sample_host * effects) :=
  run_all [RunRunner "/opt/lima/bin/limactl" "/var/lima" sample_runtime run_id; RunCleanup sample_runtime run_id;
           RunCleanup sample_runtime run_id]
    (after_crash None (run_all to_runner (start_state "generate"))).

Example cleaned_up_once :
  sh_present cleaned_up.2.1 = false ∧ performed (OnceGenerate (rr_name run_runner)) cleaned_up.2.2 = 1%nat ∧
  performed (OnceLaunch run_vm) cleaned_up.2.2 = 0%nat.
Proof. vm_compute. done. Qed.

Lemma run_world_idle : idle (Some run_catalog) None run_world.
Proof.
  split; [|constructor].
  assert (dtext run_catalog = Some ["@"%char]) as Htext by (vm_compute; reflexivity).
  unfold run_world, run_entries. rewrite Htext. cbn [w_now with_files tx_img whole_or_absent].
  split; first [apply (slot_sample _ _ _ _ Htext)|cbn [slot_at]].
  all: repeat first [rewrite lookup_insert_eq; done|rewrite lookup_insert_ne by names].
  all: by rewrite lookup_singleton_ne by names.
Qed.

Lemma run_catalog_reachable : rtc catalog_step empty_catalog run_catalog.
Proof.
  apply rtc_once.
  eapply (step_reserve _ _ _ _ _ _ 7 21601000 2000 (4 * GIB) (8 * GIB) run_resources AttemptLifecycle.sample_identity);
    [vm_compute; reflexivity|reflexivity|vm_compute; reflexivity].
Qed.

Lemma all_run ts s0 s : worker_runs s0 s → worker_runs s0 (run_all ts s).
Proof. revert s. induction ts as [|t ts IH]; intros s Hs; [done|]. by apply IH, worker_next. Qed.

Lemma crash_runs stops s0 s : worker_runs s0 s → worker_runs s0 (after_crash stops s).
Proof. destruct s as [w [h log]]. intros Hs. eapply worker_restart; [exact Hs|apply crashed_restarts]. Qed.

Lemma worker_effects_once_witness :
  (∀ k, (performed k launched.2.2 ≤ 1)%nat) ∧
  images (λ img, ∀ c' r k, read_as CATALOG_DOCUMENT (Some c') img → r ∈ cd_active c' →
    concerns k (dr_attempt r) → performed k launched.2.2 ≠ 0%nat → passed k (dr_attempt r) = true) launched.1.
Proof.
  apply (worker_effects_once run_catalog run_world launched.1 (start_state "shell").2.1 launched.2.1 launched.2.2
    run_catalog_reachable run_world_idle).
  replace (launched.1, (launched.2.1, launched.2.2)) with launched by (by destruct launched as [? []]).
  apply all_run, crash_runs, all_run, worker_idle.
Defined.


Lemma destroys_only_bound_witness :
  ∃ before' observation request c' r identity,
    take 27 cleaned_up.2.2 = before' ++ [EfConfirmed observation request] ∧ lor_instance request = run_vm ∧
    rtc catalog_step run_catalog c' ∧ r ∈ cd_active c' ∧ at_vm_id (dr_attempt r) = run_vm ∧
    is_cleanup_phase (at_phase (dr_attempt r)) = true ∧
    at_vm_identity (dr_attempt r) = Some identity ∧
    matches_host_identity identity (ho_identity observation) = true.
Proof.
  apply (destroys_only_bound run_catalog run_world cleaned_up.1 (start_state "generate").2.1 cleaned_up.2.1
    cleaned_up.2.2 run_catalog_reachable run_world_idle) with
    (after := drop 28 cleaned_up.2.2) (command := delete_command (ccr_worker sample_runtime) run_vm).
  - replace (cleaned_up.1, (cleaned_up.2.1, cleaned_up.2.2)) with cleaned_up by (by destruct cleaned_up as [? []]).
    apply all_run, crash_runs, all_run, worker_idle.
  - vm_compute. reflexivity.
  - vm_compute. done.
Defined.
