(* ===== verification/LaneJournal.v ===== *)
(** * The journal of a plan

    [src/src/journal.rs] and [src/src/durable_journal.rs]: a plan of mutations is
    executed in order, completed mutations are rolled back when a later one
    fails, and the durable variant persists a snapshot of the journal before and
    after every call.  The executor and the place where snapshots go are traits
    of the source: a state [H] behind the classes below, whose calls may fail or
    be the last of the process.  A list of problems keeps its entries as values;
    their wording is not kept. *)

From S2P Require Import Prelude Artifact FileSystem.

Local Open Scope N_scope.

Definition JOURNAL_SCHEMA_VERSION : N := 1.

(** ** Plans *)

Inductive ExecutionLane := LaneOperator | LaneRoot | LaneRunnerUser | LaneGithub.
Inductive RollbackClass := Reversible | Compensating | Irreversible.

#[export] Instance lane_eq_dec : EqDecision ExecutionLane.
Proof. solve_decision. Defined.
#[export] Instance rollback_class_eq_dec : EqDecision RollbackClass.
Proof. solve_decision. Defined.

Record PlannedMutation := mkMutation {
  pm_id : string;
  pm_lane : ExecutionLane;
  pm_summary : string;
  pm_rollback : RollbackClass;
  pm_evidence : list string;
}.

#[export] Instance mutation_eq_dec : EqDecision PlannedMutation.
Proof. solve_decision. Defined.

(** [ActionReceipt]: its public summary. *)
Abbreviation ActionReceipt := string.

Record ActionFailure := mkActionFailure {
  af_code : string;
  af_message : string;
}.

(** [format!("{}: {}", failure.code(), failure.message())]. *)
Definition failure_text (failure : ActionFailure) : string :=
  (af_code failure +:+ ": " +:+ af_message failure)%string.

(** The trait [MutationExecutor]. *)
Class MutationExecutor (H : Type) := {
  execute : PlannedMutation → prog H ActionFailure ActionReceipt;
  rollback : PlannedMutation → ActionReceipt → prog H ActionFailure ActionReceipt;
}.

Inductive ActionOutcome :=
| ActPending
| ActExecuting
| ActCompleted
| ActFailed
| ActSkipped
| ActRollbackInProgress
| ActRolledBack
| ActCompensated
| ActRollbackFailed.

#[export] Instance action_outcome_eq_dec : EqDecision ActionOutcome.
Proof. solve_decision. Defined.

Record JournalRecord := mkJournalRecord {
  jr_action : PlannedMutation;
  jr_outcome : ActionOutcome;
  jr_message : option string;
}.

#[export] Instance journal_record_eq_dec : EqDecision JournalRecord.
Proof. solve_decision. Defined.

Record ExecutionJournal := mkJournal {
  ej_schema_version : N;
  ej_records : list JournalRecord;
  ej_stopped_after : option string;
}.

#[export] Instance journal_eq_dec : EqDecision ExecutionJournal.
Proof. solve_decision. Defined.

(** [ExecutionJournal::completed]. *)
Definition journal_completed (self : ExecutionJournal) : bool :=
  forallb (λ record, bool_decide (jr_outcome record = ActCompleted)) (ej_records self).

Inductive PlanProblem :=
| EmptyActionId
| DuplicateActionId (id : string)
| MissingSummary (id : string)
| MissingEvidence (id : string).

#[export] Instance plan_problem_eq_dec : EqDecision PlanProblem.
Proof. solve_decision. Defined.

(** One round of [validate_plan]: the ids seen and the problems found so far. *)
Definition validate_plan_round (state : gset string * list PlanProblem) (action : PlannedMutation)
    : gset string * list PlanProblem :=
  let '(ids, problems) := state in
  let '(ids, problems) :=
    if str_is_empty (pm_id action) then (ids, problems ++ [EmptyActionId])
    else if bool_decide (pm_id action ∈ ids) then (ids, problems ++ [DuplicateActionId (pm_id action)])
    else ({[ pm_id action ]} ∪ ids, problems) in
  let problems :=
    if str_is_empty (pm_summary action) then problems ++ [MissingSummary (pm_id action)] else problems in
  let problems :=
    if bool_decide (pm_evidence action = []) then problems ++ [MissingEvidence (pm_id action)] else problems in
  (ids, problems).

Definition plan_problems (actions : list PlannedMutation) : list PlanProblem :=
  (foldl validate_plan_round (∅, []) actions).2.

Definition validate_plan (actions : list PlannedMutation) : result (list PlanProblem) () :=
  let problems := plan_problems actions in
  if bool_decide (problems = []) then Ok () else Err problems.

Lemma str_is_empty_false s : str_is_empty s = false ↔ s ≠ EmptyString.
Proof. by destruct s. Qed.

(** ** Records of a journal *)

Definition pending_journal (actions : list PlannedMutation) : ExecutionJournal :=
  mkJournal JOURNAL_SCHEMA_VERSION ((λ action, mkJournalRecord action ActPending None) <$> actions) None.

(** [journal.records[index]]. *)
Definition record_at {E} (journal : ExecutionJournal) (index : nat) : result E JournalRecord :=
  expect (ej_records journal !! index).

(** [journal.records[index].outcome = outcome; journal.records[index].message = message]. *)
Definition set_record (index : nat) (outcome : ActionOutcome) (message : option string)
    (journal : ExecutionJournal) : ExecutionJournal :=
  mkJournal (ej_schema_version journal)
    (alter (λ record, mkJournalRecord (jr_action record) outcome message) index (ej_records journal))
    (ej_stopped_after journal).

(** [journal.stopped_after = Some(id)]. *)
Definition set_stopped (id : string) (journal : ExecutionJournal) : ExecutionJournal :=
  mkJournal (ej_schema_version journal) (ej_records journal) (Some id).

Definition first_unconfirmed_irreversible (journal : ExecutionJournal) (allow_irreversible : bool)
    : option nat :=
  if allow_irreversible then None
  else position (λ record, bool_decide (pm_rollback (jr_action record) = Irreversible)) (ej_records journal).

Definition unconfirmed_message : string := "irreversible action requires explicit confirmation".

(** What both variants make of the record of an action that needs confirmation. *)
Definition skip_unconfirmed (index : nat) (id : string) (journal : ExecutionJournal) : ExecutionJournal :=
  set_stopped id (set_record index ActSkipped (Some unconfirmed_message) journal).

(** The outcome of a rollback that succeeded; the last branch is
    [unreachable!()]. *)
Definition rolled_back_outcome {E} (class : RollbackClass) : result E ActionOutcome :=
  match class with
  | Reversible => Ok ActRolledBack
  | Compensating => Ok ActCompensated
  | Irreversible => Panic
  end.

(** ** Execution in memory *)

Section plain.
Context {H : Type} `{!MutationExecutor H}.

Fixpoint rollback_completed (journal : ExecutionJournal) (completed : list (nat * ActionReceipt))
    : prog H (list PlanProblem) ExecutionJournal :=
  match completed with
  | [] => mret journal
  | (index, receipt) :: completed =>
      record ← lift (record_at journal index);
      match pm_rollback (jr_action record) with
      | Irreversible => rollback_completed journal completed
      | Reversible | Compensating =>
          catch (rollback (jr_action record) receipt) (λ r,
            match r with
            | Ok rollback_receipt =>
                outcome ← lift (rolled_back_outcome (pm_rollback (jr_action record)));
                rollback_completed (set_record index outcome (Some rollback_receipt) journal) completed
            | Err failure =>
                rollback_completed
                  (set_record index ActRollbackFailed (Some (failure_text failure)) journal) completed
            | Panic => lift Panic
            end)
      end
  end.

(** The loop over the indices that are left; [completed] is kept newest first,
    the order in which it is rolled back. *)
Fixpoint execute_records (indices : list nat) (journal : ExecutionJournal)
    (completed : list (nat * ActionReceipt)) : prog H (list PlanProblem) ExecutionJournal :=
  match indices with
  | [] => mret journal
  | index :: indices =>
      record ← lift (record_at journal index);
      catch (execute (jr_action record)) (λ r,
        match r with
        | Ok receipt =>
            execute_records indices (set_record index ActCompleted (Some receipt) journal)
              ((index, receipt) :: completed)
        | Err failure =>
            rollback_completed
              (set_stopped (pm_id (jr_action record))
                (set_record index ActFailed (Some (failure_text failure)) journal))
              completed
        | Panic => lift Panic
        end)
  end.

Definition execute_plan (actions : list PlannedMutation) (allow_irreversible : bool)
    : prog H (list PlanProblem) ExecutionJournal :=
  _ ← lift (validate_plan actions);
  let journal := pending_journal actions in
  match first_unconfirmed_irreversible journal allow_irreversible with
  | Some index =>
      record ← lift (record_at journal index);
      mret (skip_unconfirmed index (pm_id (jr_action record)) journal)
  | None => execute_records (seq 0 (length (ej_records journal))) journal []
  end.
End plain.

(** ** Execution with snapshots *)

Inductive JournalCheckpointPhase :=
| PhaseInitial
| PhaseBeforeExecute
| PhaseAfterExecute
| PhaseBeforeRollback
| PhaseAfterRollback.

(** [JournalCheckpointFailure] has a message that is only printed; its type is
    left to the implementation. *)
Class JournalCheckpoint (H : Type) (Failure : Type) :=
  checkpoint : ExecutionJournal → prog H Failure ().

Record DurableCheckpointError (Failure : Type) := mkCheckpointError {
  dce_phase : JournalCheckpointPhase;
  dce_action_id : option string;
  dce_last_durable : option ExecutionJournal;
  dce_attempted : ExecutionJournal;
  dce_failure : Failure;
}.
Arguments mkCheckpointError {Failure}.
Arguments dce_phase {Failure}.
Arguments dce_action_id {Failure}.
Arguments dce_last_durable {Failure}.
Arguments dce_attempted {Failure}.
Arguments dce_failure {Failure}.

Inductive DurableExecutionError (Failure : Type) :=
| PlanError (problems : list PlanProblem)
| CheckpointError (error : DurableCheckpointError Failure).
Arguments PlanError {Failure}.
Arguments CheckpointError {Failure}.

Section durable.
Context {H Failure : Type} `{!MutationExecutor H} `{!JournalCheckpoint H Failure}.

(** Returns the new value of [last_durable]. *)
Definition persist_checkpoint (journal : ExecutionJournal) (last_durable : option ExecutionJournal)
    (phase : JournalCheckpointPhase) (action_index : option nat)
    : prog H (DurableExecutionError Failure) (option ExecutionJournal) :=
  catch (checkpoint journal) (λ r,
    match r with
    | Ok _ => mret (Some journal)
    | Err failure =>
        action_id ← lift (traverse_option
          (λ index, record ← record_at journal index; Ok (pm_id (jr_action record))) action_index);
        lift (Err (CheckpointError (mkCheckpointError phase action_id last_durable journal failure)))
    | Panic => lift Panic
    end).

(** The record after the call that rolls it back. *)
Definition rolled_back_record (index : nat) (record : JournalRecord)
    (r : result ActionFailure ActionReceipt) (journal : ExecutionJournal)
    : result (DurableExecutionError Failure) ExecutionJournal :=
  match r with
  | Ok rollback_receipt =>
      outcome ← rolled_back_outcome (pm_rollback (jr_action record));
      Ok (set_record index outcome (Some rollback_receipt) journal)
  | Err failure => Ok (set_record index ActRollbackFailed (Some (failure_text failure)) journal)
  | Panic => Panic
  end.

Fixpoint rollback_completed_durably (journal : ExecutionJournal) (last_durable : option ExecutionJournal)
    (completed : list (nat * ActionReceipt)) : prog H (DurableExecutionError Failure) ExecutionJournal :=
  match completed with
  | [] => mret journal
  | (index, receipt) :: completed =>
      record ← lift (record_at journal index);
      if bool_decide (pm_rollback (jr_action record) = Irreversible)
      then rollback_completed_durably journal last_durable completed
      else
        let journal := set_record index ActRollbackInProgress (jr_message record) journal in
        last_durable ← persist_checkpoint journal last_durable PhaseBeforeRollback (Some index);
        catch (rollback (jr_action record) receipt) (λ r,
          journal ← lift (rolled_back_record index record r journal);
          last_durable ← persist_checkpoint journal last_durable PhaseAfterRollback (Some index);
          rollback_completed_durably journal last_durable completed)
  end.

Fixpoint execute_records_durably (indices : list nat) (journal : ExecutionJournal)
    (last_durable : option ExecutionJournal) (completed : list (nat * ActionReceipt))
    : prog H (DurableExecutionError Failure) ExecutionJournal :=
  match indices with
  | [] => mret journal
  | index :: indices =>
      record ← lift (record_at journal index);
      let journal := set_record index ActExecuting None journal in
      last_durable ← persist_checkpoint journal last_durable PhaseBeforeExecute (Some index);
      catch (execute (jr_action record)) (λ r,
        match r with
        | Ok receipt =>
            let journal := set_record index ActCompleted (Some receipt) journal in
            last_durable ← persist_checkpoint journal last_durable PhaseAfterExecute (Some index);
            execute_records_durably indices journal last_durable ((index, receipt) :: completed)
        | Err failure =>
            let journal := set_stopped (pm_id (jr_action record))
                             (set_record index ActFailed (Some (failure_text failure)) journal) in
            last_durable ← persist_checkpoint journal last_durable PhaseAfterExecute (Some index);
            rollback_completed_durably journal last_durable completed
        | Panic => lift Panic
        end)
  end.

Definition execute_plan_durably (actions : list PlannedMutation) (allow_irreversible : bool)
    : prog H (DurableExecutionError Failure) ExecutionJournal :=
  _ ← lift (map_err PlanError (validate_plan actions));
  let journal := pending_journal actions in
  match first_unconfirmed_irreversible journal allow_irreversible with
  | Some index =>
      record ← lift (record_at journal index);
      let journal := skip_unconfirmed index (pm_id (jr_action record)) journal in
      _ ← persist_checkpoint journal None PhaseInitial (Some index);
      mret journal
  | None =>
      last_durable ← persist_checkpoint journal None PhaseInitial None;
      execute_records_durably (seq 0 (length (ej_records journal))) journal last_durable []
  end.
End durable.
