(* ===== verification/JournalTheorems.v ===== *)
(** * What a durable journal accounts for

    A host that keeps the calls made on it, and the runs of a plan on it: every
    call comes directly after a snapshot that announces it, calls follow the
    order of the plan, rollbacks its reverse, and the journal that is durable
    when the process stops accounts for every call.  With snapshots that
    succeed the durable execution does what the execution in memory does. *)

From S2P Require Import Prelude SortBy Artifact FileSystem LaneJournal.

(** ** A host that keeps its calls *)

(** [EvTried] is a snapshot that was not confirmed: it may or may not be on
    disk. *)
Inductive journal_event :=
| EvExecute (action : PlannedMutation)
| EvRollback (action : PlannedMutation)
| EvSaved (journal : ExecutionJournal)
| EvTried (journal : ExecutionJournal).

(** The newest event first. *)
Abbreviation trace := (list journal_event).

Definition traced {H E A} (event : outcome E A → journal_event) (call : prog H E A) : prog (H * trace) E A :=
  λ '(h, t), let '(h', out) := call h in ((h', event out :: t), out).

Definition snapshot_event {E A} (journal : ExecutionJournal) (out : outcome E A) : journal_event :=
  match out with
  | Done (Ok _) => EvSaved journal
  | _ => EvTried journal
  end.

#[export] Instance traced_executor {H} `{MutationExecutor H} : MutationExecutor (H * trace) := {|
  execute action := traced (λ _, EvExecute action) (execute action);
  rollback action receipt := traced (λ _, EvRollback action) (rollback action receipt);
|}.

#[export] Instance traced_checkpoint {H F} `{JournalCheckpoint H F} : JournalCheckpoint (H * trace) F :=
  λ journal, traced (snapshot_event journal) (checkpoint journal).

(** The calls of a trace, oldest first. *)
Fixpoint executions (t : trace) : list PlannedMutation :=
  match t with
  | [] => []
  | EvExecute action :: t => executions t ++ [action]
  | _ :: t => executions t
  end.

Fixpoint rollbacks (t : trace) : list PlannedMutation :=
  match t with
  | [] => []
  | EvRollback action :: t => rollbacks t ++ [action]
  | _ :: t => rollbacks t
  end.

(** The journals that may be durable at the end of a trace. *)
Fixpoint durable_at (t : trace) : list ExecutionJournal :=
  match t with
  | [] => []
  | EvSaved journal :: _ => [journal]
  | EvTried journal :: t => journal :: durable_at t
  | _ :: t => durable_at t
  end.

(** The journal records the action with this outcome. *)
Definition announces (journal : ExecutionJournal) (action : PlannedMutation) (out : ActionOutcome) : Prop :=
  ∃ record, record ∈ ej_records journal ∧ jr_action record = action ∧ jr_outcome record = out.

Fixpoint written_ahead (t : trace) : Prop :=
  match t with
  | [] => True
  | EvExecute action :: t =>
      written_ahead t ∧
      match t with EvSaved journal :: _ => announces journal action ActExecuting | _ => False end
  | EvRollback action :: t =>
      written_ahead t ∧
      match t with EvSaved journal :: _ => announces journal action ActRollbackInProgress | _ => False end
  | _ :: t => written_ahead t
  end.

(** What an outcome says about the calls: the call may have been made, or it
    has been made. *)
Definition may_have_run (out : ActionOutcome) : bool :=
  match out with
  | ActPending | ActSkipped => false
  | _ => true
  end.

Definition has_run (out : ActionOutcome) : bool :=
  match out with
  | ActPending | ActSkipped | ActExecuting => false
  | _ => true
  end.

Definition may_be_undone (out : ActionOutcome) : bool :=
  match out with
  | ActRollbackInProgress | ActRolledBack | ActCompensated | ActRollbackFailed => true
  | _ => false
  end.

Definition has_been_undone (out : ActionOutcome) : bool :=
  match out with
  | ActRolledBack | ActCompensated | ActRollbackFailed => true
  | _ => false
  end.

Definition accounts_for (may has : ActionOutcome → bool) (calls : list PlannedMutation)
    (records : list JournalRecord) : Prop :=
  Forall (λ record,
    (jr_action record ∈ calls → may (jr_outcome record) = true) ∧
    (has (jr_outcome record) = true → jr_action record ∈ calls)) records.

Record accounts (actions : list PlannedMutation) (t : trace) (journal : ExecutionJournal) : Prop := {
  accounts_actions : jr_action <$> ej_records journal = actions;
  accounts_executions : accounts_for may_have_run has_run (executions t) (ej_records journal);
  accounts_rollbacks : accounts_for may_be_undone has_been_undone (rollbacks t) (ej_records journal);
}.

(** What is rolled back, latest first. *)
Definition undo_order (actions : list PlannedMutation) : list PlannedMutation :=
  reverse (filter (λ action, pm_rollback action ≠ Irreversible) actions).

Record accountable (actions : list PlannedMutation) (t : trace) : Prop := {
  in_plan_order : executions t `prefix_of` actions;
  in_undo_order : rollbacks t `prefix_of` undo_order (removelast (executions t));
  is_written_ahead : written_ahead t;
  is_accounted : ∀ journal, journal ∈ durable_at t → accounts actions t journal;
}.

(** ** Validated plans *)

Lemma plan_round_problems ids problems action :
  ∃ found, (validate_plan_round (ids, problems) action).2 = problems ++ found.
Proof.
  unfold validate_plan_round. repeat case_match; simplify_eq; simpl;
    rewrite <-?app_assoc; eauto; exists []; by rewrite app_nil_r.
Qed.

Lemma plan_rounds_problems actions ids problems :
  ∃ found, (foldl validate_plan_round (ids, problems) actions).2 = problems ++ found.
Proof.
  revert ids problems. induction actions as [|action actions IH]; intros ids problems; cbn [foldl].
  { exists []. by rewrite app_nil_r. }
  destruct (plan_round_problems ids problems action) as [found Hf].
  destruct (validate_plan_round (ids, problems) action) as [ids' problems']. simpl in Hf. subst.
  destruct (IH ids' (problems ++ found)) as [more ->]. exists (found ++ more). by rewrite app_assoc.
Qed.

(** What one action has to have. *)
Definition action_ok (action : PlannedMutation) : Prop :=
  pm_id action ≠ EmptyString ∧ pm_summary action ≠ EmptyString ∧ pm_evidence action ≠ [].

Lemma plan_round_clean ids action ids' :
  validate_plan_round (ids, []) action = (ids', []) ↔
  action_ok action ∧ pm_id action ∉ ids ∧ ids' = {[ pm_id action ]} ∪ ids.
Proof.
  unfold validate_plan_round, action_ok. rewrite <-!str_is_empty_false.
  repeat case_match; simplify_eq; bprop; naive_solver.
Qed.

Lemma plan_rounds_clean ids actions :
  (foldl validate_plan_round (ids, []) actions).2 = [] ↔
  Forall action_ok actions ∧ NoDup (pm_id <$> actions) ∧ ∀ action, action ∈ actions → pm_id action ∉ ids.
Proof.
  revert ids. induction actions as [|action actions IH]; intros ids; cbn [foldl fmap list_fmap].
  { split; [|done]. intros _. split_and!; [done|constructor|]. by intros ? ?%elem_of_nil. }
  destruct (validate_plan_round (ids, []) action) as [ids' problems] eqn:Hr.
  split.
  - intros Hf. destruct (plan_rounds_problems actions ids' problems) as [found Hp].
    rewrite Hf in Hp. symmetry in Hp. apply app_eq_nil in Hp as [-> _].
    apply plan_round_clean in Hr as (Hok & Hnew & ->). apply IH in Hf as (Hall & Hnd & Hids).
    split_and!; [by constructor| |set_solver].
    constructor; [|done]. rewrite list_elem_of_fmap. intros (other & Heq & Hin%Hids). set_solver.
  - intros (Hall & Hnd & Hids). inversion Hall as [|? ? Hok Hall']; subst.
    inversion Hnd as [|? ? Hnew Hnd']; subst.
    assert (validate_plan_round (ids, []) action = ({[ pm_id action ]} ∪ ids, [])) as Hc.
    { apply plan_round_clean. split_and!; [done| |done]. apply Hids. left. }
    rewrite Hr in Hc. simplify_eq. apply IH. split_and!; [done..|].
    intros other Hin Hx. apply elem_of_union in Hx as [Hx%elem_of_singleton|Hx].
    + apply Hnew. rewrite list_elem_of_fmap. eauto.
    + eapply Hids; [by right|done].
Qed.

(** [validate_plan] accepts the plans whose actions are complete and whose ids
    are distinct. *)
Lemma validate_plan_Ok actions :
  validate_plan actions = Ok () ↔ Forall action_ok actions ∧ NoDup (pm_id <$> actions).
Proof.
  unfold validate_plan, plan_problems. case_bool_decide as Hp.
  - split; [intros _|done]. apply plan_rounds_clean in Hp. naive_solver.
  - split; [done|]. intros [Hall Hnd]. destruct Hp. apply plan_rounds_clean. set_solver.
Qed.

Lemma validate_plan_no_panic actions : validate_plan actions ≠ Panic.
Proof. unfold validate_plan. by case_bool_decide. Qed.

Lemma plan_NoDup actions : validate_plan actions = Ok () → NoDup actions.
Proof. intros [_ H]%validate_plan_Ok. by apply (NoDup_fmap_1 pm_id). Qed.

(** ** The journals of a run *)

Abbreviation receipts := (list (PlannedMutation * ActionReceipt)).

Definition done_records (dones : receipts) : list JournalRecord :=
  (λ '(action, receipt), mkJournalRecord action ActCompleted (Some receipt)) <$> dones.

Definition pending_records (actions : list PlannedMutation) : list JournalRecord :=
  (λ action, mkJournalRecord action ActPending None) <$> actions.

(** The completed actions with their positions, latest first. *)
Definition completed_list (dones : receipts) : list (nat * ActionReceipt) :=
  reverse (imap (λ i done, (i, done.2)) dones).

Definition running (dones : receipts) (current : list JournalRecord) (rest : list PlannedMutation)
    : ExecutionJournal :=
  mkJournal JOURNAL_SCHEMA_VERSION (done_records dones ++ current ++ pending_records rest) None.

Definition undoing (dones : receipts) (current tail : list JournalRecord) (stop : string) : ExecutionJournal :=
  mkJournal JOURNAL_SCHEMA_VERSION (done_records dones ++ current ++ tail) (Some stop).

Lemma completed_list_snoc dones action receipt :
  completed_list (dones ++ [(action, receipt)]) = (length dones, receipt) :: completed_list dones.
Proof. unfold completed_list. rewrite imap_app, reverse_app. simpl. by rewrite Nat.add_0_r. Qed.

Lemma done_records_app l k : done_records (l ++ k) = done_records l ++ done_records k.
Proof. apply fmap_app. Qed.

Lemma done_records_length dones : length (done_records dones) = length dones.
Proof. apply length_fmap. Qed.

Lemma done_records_actions dones : jr_action <$> done_records dones = dones.*1.
Proof.
  unfold done_records. rewrite <-list_fmap_compose. apply list_fmap_ext. by intros ? [].
Qed.

Lemma pending_records_actions actions : jr_action <$> pending_records actions = actions.
Proof.
  unfold pending_records. rewrite <-list_fmap_compose.
  rewrite <-(list_fmap_id actions) at 2. by apply list_fmap_ext.
Qed.

Lemma alter_middle {A} (f : A → A) (l k : list A) x n :
  n = length l → alter f n (l ++ x :: k) = l ++ f x :: k.
Proof.
  intros ->. induction l as [|y l IH]; [done|].
  change (y :: alter f (length l) (l ++ x :: k) = y :: (l ++ f x :: k)). by rewrite IH.
Qed.

(** Reading and writing the record after the completed ones. *)
Lemma record_at_middle {E} s dones record tail stop :
  record_at (E := E) (mkJournal s (done_records dones ++ record :: tail) stop) (length dones) = Ok record.
Proof. unfold record_at. simpl. rewrite list_lookup_middle; [done|by rewrite done_records_length]. Qed.

Lemma set_record_middle s dones record tail stop o m :
  set_record (length dones) o m (mkJournal s (done_records dones ++ record :: tail) stop) =
  mkJournal s (done_records dones ++ mkJournalRecord (jr_action record) o m :: tail) stop.
Proof. unfold set_record. simpl. rewrite alter_middle; [done|by rewrite done_records_length]. Qed.

(** ** What the shapes account for *)

Lemma accounts_for_app may has calls l k :
  accounts_for may has calls (l ++ k) ↔ accounts_for may has calls l ∧ accounts_for may has calls k.
Proof. apply Forall_app. Qed.

Lemma accounts_for_cons may has calls r k :
  accounts_for may has calls (r :: k) ↔
  ((jr_action r ∈ calls → may (jr_outcome r) = true) ∧ (has (jr_outcome r) = true → jr_action r ∈ calls)) ∧
  accounts_for may has calls k.
Proof. unfold accounts_for. by rewrite Forall_cons. Qed.

Lemma accounts_for_nil may has calls : accounts_for may has calls [] ↔ True.
Proof. split; [done|]. intros _. constructor. Qed.

Lemma done_run calls dones :
  (∀ d, d ∈ dones → d.1 ∈ calls) → accounts_for may_have_run has_run calls (done_records dones).
Proof.
  intros H. apply Forall_fmap, Forall_forall. intros [a r] Hin. simpl. split; [done|]. by intros _; apply (H (a, r)).
Qed.

Lemma done_not_undone calls dones :
  (∀ d, d ∈ dones → d.1 ∉ calls) →
  accounts_for may_be_undone has_been_undone calls (done_records dones).
Proof.
  intros H. apply Forall_fmap, Forall_forall. intros [a r] Hin. simpl. split; [|done].
  intros Hc. by destruct (H (a, r) Hin).
Qed.

Lemma pending_idle may has calls rest :
  has ActPending = false → (∀ a, a ∈ rest → a ∉ calls) → accounts_for may has calls (pending_records rest).
Proof.
  intros Hh H. apply Forall_fmap, Forall_forall. intros a Hin. simpl. split; [|by rewrite Hh].
  intros Hc. by destruct (H a Hin).
Qed.

Lemma accounts_for_none has records may :
  Forall (λ r, has (jr_outcome r) = false) records → accounts_for may has [] records.
Proof.
  intros H. eapply Forall_impl; [exact H|]. intros r Hr. cbn beta in *. rewrite Hr.
  split; [by intros ?%elem_of_nil|done].
Qed.

(** The journal of a shape accounts for the calls when its tail does, all
    completed actions were called and none of them was rolled back. *)
Lemma shape_accounts actions dones tail stop t :
  dones.*1 ++ (jr_action <$> tail) = actions →
  (∀ a, a ∈ dones.*1 → a ∈ executions t) →
  (∀ a, a ∈ dones.*1 → a ∉ rollbacks t) →
  accounts_for may_have_run has_run (executions t) tail →
  accounts_for may_be_undone has_been_undone (rollbacks t) tail →
  accounts actions t (mkJournal JOURNAL_SCHEMA_VERSION (done_records dones ++ tail) stop).
Proof.
  intros <- Hex Hro Hrun Hun. split; cbn [ej_records].
  - by rewrite fmap_app, done_records_actions.
  - apply accounts_for_app. split; [|done]. apply done_run. intros d Hd. apply Hex. by apply list_elem_of_fmap_2.
  - apply accounts_for_app. split; [|done]. apply done_not_undone. intros d Hd. apply Hro. by apply list_elem_of_fmap_2.
Qed.

(** A snapshot that accounts for the calls keeps the trace accountable. *)
Lemma accountable_snapshot actions t journal :
  accountable actions t → accounts actions t journal →
  accountable actions (EvTried journal :: t) ∧ accountable actions (EvSaved journal :: t).
Proof.
  intros [Hp Hu Hw Ha] Hj. split; (split; [exact Hp|exact Hu|exact Hw|]).
  - intros k [->|Hk]%elem_of_cons; [destruct Hj|destruct (Ha k Hk)]; by split.
  - intros k ->%list_elem_of_singleton. destruct Hj. by split.
Qed.

(** ** Ends of a run

    [ends P m Q t]: started with the trace [t], the program ends with a trace in
    [P], or returns and ends with a trace in [Q]. *)

Section ends.
Context {H F : Type} `{!MutationExecutor H} `{!JournalCheckpoint H F}.

Definition ends {E A} (P : trace → Prop) (m : prog (H * trace) E A) (Q : A → trace → Prop) (t : trace) : Prop :=
  ∀ h, match m (h, t) with
       | (_, t', Done (Ok a)) => Q a t'
       | (_, t', _) => P t'
       end.

Lemma ends_lift {E A} P (r : result E A) (Q : A → trace → Prop) t :
  match r with Ok a => Q a t | _ => P t end → ends P (lift r) Q t.
Proof. intros Hr h. unfold lift. by destruct r. Qed.

Lemma ends_ret {E A} P (a : A) (Q : A → trace → Prop) t :
  Q a t → ends P (mret (M := prog (H * trace) E) a) Q t.
Proof. intros Ha. by apply ends_lift. Qed.

Lemma ends_bind {E A B} P (m : prog (H * trace) E A) (f : A → prog (H * trace) E B) Q R t :
  ends P m R t → (∀ a t', R a t' → ends P (f a) Q t') → ends P (m ≫= f) Q t.
Proof.
  intros Hm Hf h. unfold mbind, io_bind, catch, lift. specialize (Hm h).
  destruct (m (h, t)) as [[h' t'] [[a|e|]|]]; try done. exact (Hf a t' Hm h').
Qed.

Lemma ends_mono {E A} (P P' : trace → Prop) (m : prog (H * trace) E A) t :
  (∀ t, P t → P' t) → ends P m (λ _, P) t → ends P' m (λ _, P') t.
Proof.
  intros Hp Hm h. specialize (Hm h). destruct (m (h, t)) as [[h' t'] [[a|e|]|]]; auto.
Qed.

(** A call of the executor. *)
Lemma ends_call {E E' A B} P (event : journal_event) (call : prog H E A)
    (k : result E A → prog (H * trace) E' B) Q t :
  P (event :: t) → (∀ r, ends P (k r) Q (event :: t)) →
  ends P (catch (traced (λ _, event) call) k) Q t.
Proof.
  intros Hp Hk h. unfold catch, traced. destruct (call h) as [h' [r|]]; [|done]. exact (Hk r h').
Qed.

Lemma ends_persist P journal last phase index (Q : option ExecutionJournal → trace → Prop) t :
  P (EvTried journal :: t) → Q (Some journal) (EvSaved journal :: t) →
  ends P (persist_checkpoint (H := H * trace) (Failure := F) journal last phase index) Q t.
Proof.
  intros Hp Hq h. unfold persist_checkpoint, checkpoint, traced_checkpoint, catch, traced.
  destruct (checkpoint (H := H) journal h) as [h' [[[]|f|]|]]; [exact Hq| |exact Hp..].
  unfold mbind, io_bind, catch, lift. by destruct (traverse_option _ index).
Qed.

(** A snapshot that accounts for what was done. *)
Lemma ends_snapshot actions journal last phase index t :
  accountable actions t → accounts actions t journal →
  ends (accountable actions) (persist_checkpoint (H := H * trace) (Failure := F) journal last phase index)
    (λ _ t', t' = EvSaved journal :: t ∧ accountable actions t') t.
Proof. intros Ht Hj. destruct (accountable_snapshot actions t journal Ht Hj). by apply ends_persist. Qed.
End ends.

(** ** Rolling back *)

Lemma undo_order_app l k : undo_order (l ++ k) = undo_order k ++ undo_order l.
Proof. unfold undo_order. by rewrite filter_app, reverse_app. Qed.

Lemma undo_order_keep a : pm_rollback a ≠ Irreversible → undo_order [a] = [a].
Proof. intros Ha. unfold undo_order. by rewrite filter_cons_True. Qed.

Lemma undo_order_drop a : pm_rollback a = Irreversible → undo_order [a] = [].
Proof. intros Ha. unfold undo_order. rewrite filter_cons_False; [done|]. by intros []. Qed.

Lemma undo_order_elem a l : a ∈ undo_order l → a ∈ l.
Proof. unfold undo_order. rewrite elem_of_reverse, list_elem_of_filter. naive_solver. Qed.

(** One more call, of an action that the records do not name. *)
Lemma accounts_for_snoc may has calls a tail :
  accounts_for may has calls tail → a ∉ jr_action <$> tail → accounts_for may has (calls ++ [a]) tail.
Proof.
  intros Ht Ha. apply Forall_forall. intros r Hr. pose proof (proj1 (Forall_forall _ _) Ht r Hr) as [Hm Hh].
  split; [|set_solver]. intros [Hc|Hc%list_elem_of_singleton]%elem_of_app; [auto|].
  destruct Ha. rewrite <-Hc. by apply list_elem_of_fmap_2.
Qed.

Lemma announces_middle s l r k stop : announces (mkJournal s (l ++ r :: k) stop) (jr_action r) (jr_outcome r).
Proof. exists r. simpl. split_and!; [|done..]. apply elem_of_app. right. left. Qed.

Lemma prefix_NoDup {A} (l k : list A) : l `prefix_of` k → NoDup k → NoDup l.
Proof. intros [m ->] (? & _ & _)%NoDup_app. done. Qed.

(** The state of the rollback: [dones] are still to be visited, [backs] were. *)
Record undo_state (actions : list PlannedMutation) (dones : receipts) (backs : list PlannedMutation)
    (tail : list JournalRecord) (t : trace) : Prop := {
  us_nodup : NoDup actions;
  us_actions : dones.*1 ++ (jr_action <$> tail) = actions;
  us_executions : ∃ failed, executions t = dones.*1 ++ backs ++ [failed];
  us_rollbacks : rollbacks t = undo_order backs;
  us_run : accounts_for may_have_run has_run (executions t) tail;
  us_undone : accounts_for may_be_undone has_been_undone (rollbacks t) tail;
  us_accountable : accountable actions t;
}.

Section undo.
Context (actions : list PlannedMutation) (dones : receipts) (a : PlannedMutation) (r : ActionReceipt)
  (backs : list PlannedMutation) (tail : list JournalRecord).

Lemma undo_fresh t :
  undo_state actions (dones ++ [(a, r)]) backs tail t →
  a ∈ executions t ∧ a ∉ backs ∧ a ∉ jr_action <$> tail ∧ ∀ b, b ∈ dones.*1 → b ∉ backs ∧ b ≠ a ∧ b ∈ executions t.
Proof.
  intros [Hnd Hact [failed Hex] _ _ _ [Hp _ _ _]]. pose proof (prefix_NoDup _ _ Hp Hnd) as Hne.
  rewrite Hex in Hne |- *. rewrite <-Hact in Hnd. rewrite fmap_app in *. simpl in *.
  rewrite <-!app_assoc in *. simpl in *.
  apply NoDup_app in Hne as (_ & Hd & Hne). apply NoDup_cons in Hne as [Ha _].
  apply NoDup_app in Hnd as (_ & _ & Hnd). apply NoDup_cons in Hnd as [Ha' _].
  set_solver.
Qed.

(** The snapshot before the call. *)
Definition undo_journal (out : ActionOutcome) (message : option string) (stop : option string) : ExecutionJournal :=
  mkJournal JOURNAL_SCHEMA_VERSION (done_records dones ++ mkJournalRecord a out message :: tail) stop.

Lemma undo_state_actions t :
  undo_state actions (dones ++ [(a, r)]) backs tail t → dones.*1 ++ (a :: (jr_action <$> tail)) = actions.
Proof. intros [_ Hact _ _ _ _ _]. rewrite <-Hact, fmap_app, <-app_assoc. done. Qed.

Lemma undo_announced t message stop :
  undo_state actions (dones ++ [(a, r)]) backs tail t →
  accounts actions t (undo_journal ActRollbackInProgress message stop).
Proof.
  intros Hs. destruct (undo_fresh t Hs) as (Ha & Hb & Htl & Hd). pose proof (undo_state_actions t Hs) as Hact.
  destruct Hs as [_ _ _ Hro Hrun Hun _]. apply shape_accounts; [done|by intros b (?&?&?)%Hd| | |].
  - intros b Hin Hc. rewrite Hro in Hc. apply undo_order_elem in Hc. by apply Hd in Hin as [? _].
  - apply accounts_for_cons. split; [|done]. by split.
  - apply accounts_for_cons. split; [|done]. by split.
Qed.

(** After the call, whatever came of it. *)
Lemma undo_called t message stop :
  undo_state actions (dones ++ [(a, r)]) backs tail t → pm_rollback a ≠ Irreversible →
  let t' := EvRollback a :: EvSaved (undo_journal ActRollbackInProgress message stop) :: t in
  accountable actions t' ∧
  ∀ out message', may_be_undone out = true →
    accounts actions t' (undo_journal out message' stop) ∧
    ∀ journal, accountable actions (EvSaved journal :: t') →
      undo_state actions dones (a :: backs) (mkJournalRecord a out message' :: tail) (EvSaved journal :: t').
Proof.
  intros Hs Hrev t'. destruct (undo_fresh t Hs) as (Ha & Hb & Htl & Hd).
  pose proof (undo_state_actions t Hs) as Hact. pose proof (undo_announced t message stop Hs) as Hann.
  destruct Hs as [Hnd _ [failed Hex] Hro Hrun Hun [Hp Hu Hw Hacc]].
  assert (rollbacks t' = undo_order (a :: backs)) as Hro'.
  { simpl. rewrite Hro. change (a :: backs) with ([a] ++ backs). by rewrite undo_order_app, undo_order_keep. }
  assert (∀ out message', may_be_undone out = true →
    accounts actions t' (undo_journal out message' stop)) as Hj.
  { intros out message' Hout. apply shape_accounts; [done|by intros b (?&?&?)%Hd| | |].
    - intros b Hin. rewrite Hro'. intros Hc%undo_order_elem. apply Hd in Hin. set_solver.
    - apply accounts_for_cons. split; [|done]. by destruct out.
    - apply accounts_for_cons. split; [split; [done|]; intros _; apply elem_of_app; right; by left|].
      apply accounts_for_snoc; [done|]. exact Htl. }
  split.
  - split; [exact Hp| |split; [exact Hw|apply (announces_middle _ (done_records dones) (mkJournalRecord a ActRollbackInProgress message))]|].
    + rewrite Hro'. change (executions t') with (executions t). rewrite Hex, app_assoc, removelast_last.
      rewrite fmap_app, <-app_assoc, undo_order_app. simpl. by apply prefix_app_r.
    + intros j ->%list_elem_of_singleton. by apply Hj.
  - intros out message' Hout. split; [by apply Hj|]. intros journal Hsav. destruct (Hj out message' Hout) as [Hj1 Hj2 Hj3].
    cbn [undo_journal ej_records] in *. rewrite accounts_for_app in Hj2, Hj3.
    split; [done|done| |exact Hro'|apply Hj2|apply Hj3|done].
    exists failed. change (executions t = dones.*1 ++ a :: backs ++ [failed]).
    by rewrite Hex, fmap_app, <-app_assoc.
Qed.

(** An irreversible action is passed over. *)
Lemma undo_passed t :
  undo_state actions (dones ++ [(a, r)]) backs tail t → pm_rollback a = Irreversible →
  undo_state actions dones (a :: backs) (mkJournalRecord a ActCompleted (Some r) :: tail) t.
Proof.
  intros Hs Hirr. destruct (undo_fresh t Hs) as (Ha & Hb & Htl & Hd). pose proof (undo_state_actions t Hs) as Hact.
  destruct Hs as [Hnd _ [failed Hex] Hro Hrun Hun Hacc]. split; [done..| | | | |done].
  - exists failed. by rewrite Hex, fmap_app, <-app_assoc.
  - change (a :: backs) with ([a] ++ backs). by rewrite undo_order_app, undo_order_drop, app_nil_r.
  - apply accounts_for_cons. by split.
  - apply accounts_for_cons. split; [|done]. split; [|done]. rewrite Hro. by intros Hc%undo_order_elem.
Qed.
End undo.

Lemma rolled_back_shape {F} dones a tail o m stop c r res :
  let got := rolled_back_record (Failure := F) (length dones) (mkJournalRecord a c r) res
               (undo_journal dones a tail o m stop) in
  got = Panic ∨ ∃ out m', may_be_undone out = true ∧ got = Ok (undo_journal dones a tail out m' stop).
Proof.
  unfold rolled_back_record, undo_journal.
  destruct res as [receipt|failure|]; rewrite ?set_record_middle; cbn [jr_action];
    [|right; eexists _, _; by split; [|reflexivity]|by left].
  destruct (pm_rollback a); cbn [rolled_back_outcome]; rsimpl; rewrite ?set_record_middle;
    [right; eexists _, _; by split; [|reflexivity]..|by left].
Qed.

Section runs.
Context {H F : Type} `{!MutationExecutor H} `{!JournalCheckpoint H F}.

Lemma rollback_ends actions dones backs tail stop last t :
  undo_state actions dones backs tail t →
  ends (accountable actions)
    (rollback_completed_durably (H := H * trace) (Failure := F)
      (mkJournal JOURNAL_SCHEMA_VERSION (done_records dones ++ tail) stop) last (completed_list dones))
    (λ _, accountable actions) t.
Proof.
  revert backs tail last t. induction dones as [|[a r] dones IH] using rev_ind; intros backs tail last t Hs.
  { by apply ends_ret, (us_accountable _ _ _ _ _ Hs). }
  rewrite completed_list_snoc, done_records_app, <-app_assoc.
  change (done_records [(a, r)] ++ tail) with (mkJournalRecord a ActCompleted (Some r) :: tail).
  cbn [rollback_completed_durably].
  eapply (ends_bind _ _ _ _ (λ record t', record = mkJournalRecord a ActCompleted (Some r) ∧ t' = t)).
  { apply ends_lift. by rewrite record_at_middle. }
  intros ? ? [-> ->]. cbn [jr_action jr_message]. rewrite set_record_middle. cbn [jr_action].
  change (mkJournal JOURNAL_SCHEMA_VERSION (done_records dones ++ mkJournalRecord a ActRollbackInProgress (Some r) :: tail) stop)
    with (undo_journal dones a tail ActRollbackInProgress (Some r) stop).
  case_bool_decide as Hirr.
  { by apply (IH (a :: backs)), undo_passed. }
  eapply ends_bind.
  { apply (ends_snapshot actions); [apply Hs|]. by eapply undo_announced. }
  intros last' t' [-> _]. destruct (undo_called _ _ _ _ _ _ _ (Some r) stop Hs Hirr) as [Hcall Hafter].
  apply ends_call; [exact Hcall|]. intros res.
  eapply (ends_bind _ _ _ _ (λ journal t', t' = EvRollback a :: _ ∧ ∃ out m, may_be_undone out = true ∧
    journal = undo_journal dones a tail out m stop)).
  { apply ends_lift.
    destruct (rolled_back_shape (F := F) dones a tail ActRollbackInProgress (Some r) stop
      ActCompleted (Some r) res) as [->|(out & m & Hout & ->)]; [exact Hcall|by eauto]. }
  intros ? ? (-> & out & m & Hout & ->). destruct (Hafter out m Hout) as [Hj Hnext].
  eapply ends_bind; [by apply (ends_snapshot actions)|]. intros last'' t'' [-> Hacc].
  exact (IH _ _ _ _ (Hnext _ Hacc)).
Qed.

(** ** The loop *)

(** The state at the head of the loop. *)
Record run_state (actions : list PlannedMutation) (dones : receipts) (rest : list PlannedMutation) (t : trace)
    : Prop := {
  rs_nodup : NoDup actions;
  rs_actions : dones.*1 ++ rest = actions;
  rs_executions : executions t = dones.*1;
  rs_rollbacks : rollbacks t = [];
  rs_accountable : accountable actions t;
}.

Lemma run_accounts actions dones tail t out message :
  NoDup actions → dones.*1 ++ (jr_action out :: tail) = actions → rollbacks t = [] →
  (executions t = dones.*1 ∧ has_run (jr_outcome out) = false ∨
   executions t = dones.*1 ++ [jr_action out] ∧ may_have_run (jr_outcome out) = true) →
  has_been_undone (jr_outcome out) = false →
  accounts actions t
    (mkJournal JOURNAL_SCHEMA_VERSION (done_records dones ++ out :: pending_records tail) message).
Proof.
  intros Hnd Hact Hro Hex Hun. rewrite <-Hact in Hnd.
  apply NoDup_app in Hnd as (_ & Hd & Hnd). apply NoDup_cons in Hnd as [Ho _].
  apply shape_accounts.
  - by rewrite fmap_cons, pending_records_actions.
  - destruct Hex as [[-> _]|[-> _]]; set_solver.
  - intros b _. rewrite Hro. by intros ?%elem_of_nil.
  - apply accounts_for_cons. split.
    + destruct Hex as [[-> Hr]|[-> Hr]]; rewrite ?Hr; set_solver.
    + apply pending_idle; [done|]. destruct Hex as [[-> _]|[-> _]]; set_solver.
  - rewrite Hro. apply accounts_for_none, Forall_cons. split; [done|].
    apply Forall_fmap, Forall_forall. done.
Qed.

Lemma execute_ends actions dones rest last t :
  run_state actions dones rest t →
  ends (accountable actions)
    (execute_records_durably (H := H * trace) (Failure := F) (seq (length dones) (length rest))
      (mkJournal JOURNAL_SCHEMA_VERSION (done_records dones ++ pending_records rest) None) last
      (completed_list dones))
    (λ _, accountable actions) t.
Proof.
  revert dones last t. induction rest as [|a rest IH]; intros dones last t Hs.
  { by apply ends_ret, (rs_accountable _ _ _ _ Hs). }
  change (pending_records (a :: rest)) with (mkJournalRecord a ActPending None :: pending_records rest).
  cbn [length seq execute_records_durably].
  eapply (ends_bind _ _ _ _ (λ record t', record = mkJournalRecord a ActPending None ∧ t' = t)).
  { apply ends_lift. by rewrite record_at_middle. }
  intros ? ? [-> ->]. cbn [jr_action]. rewrite set_record_middle. cbn [jr_action].
  destruct Hs as [Hnd Hact Hex Hro Hacc].
  eapply ends_bind.
  { apply (ends_snapshot actions); [done|]. apply run_accounts; [done..| |done]. by left. }
  intros last' t' [-> Hsav]. set (journal := mkJournal _ _ _) in *.
  set (t' := EvExecute a :: EvSaved journal :: t).
  assert (executions t' = dones.*1 ++ [a]) as Hex' by (simpl; by rewrite Hex).
  assert (∀ out message stop, may_have_run out = true → has_been_undone out = false →
    accounts actions t' (mkJournal JOURNAL_SCHEMA_VERSION
      (done_records dones ++ mkJournalRecord a out message :: pending_records rest) stop)) as Hj.
  { intros out message stop Hm Hh. apply run_accounts; [done..| |done]. by right. }
  assert (accountable actions t') as Hcall.
  { destruct Hacc as [_ _ Hw _]. split.
    - rewrite Hex', <-Hact. exists rest. by rewrite <-app_assoc.
    - change (rollbacks t `prefix_of` undo_order (removelast (executions t'))). rewrite Hro. apply prefix_nil.
    - split; [exact Hw|]. apply (announces_middle _ (done_records dones) (mkJournalRecord a ActExecuting None)).
    - intros j ->%list_elem_of_singleton. by apply Hj. }
  apply ends_call; [exact Hcall|]. intros [receipt|failure|].
  - subst journal. rewrite set_record_middle. cbn [jr_action].
    eapply ends_bind; [by apply (ends_snapshot actions), Hj|]. intros last'' t'' [-> Hsav'].
    specialize (IH (dones ++ [(a, receipt)]) last'' (EvSaved (mkJournal JOURNAL_SCHEMA_VERSION
      (done_records dones ++ mkJournalRecord a ActCompleted (Some receipt) :: pending_records rest) None) :: t')).
    rewrite completed_list_snoc, done_records_app, length_app, <-app_assoc, Nat.add_1_r in IH. apply IH.
    split; [done| | |done|done].
    + by rewrite fmap_app, <-app_assoc.
    + rewrite fmap_app. exact Hex'.
  - subst journal. rewrite set_record_middle. cbn [jr_action].
    eapply ends_bind; [by apply (ends_snapshot actions), Hj|]. intros last'' t'' [-> Hsav'].
    apply (rollback_ends _ _ []). destruct (Hj ActFailed (Some (failure_text failure)) (Some (pm_id a))) as [_ Hr Hu]; [done..|].
    cbn [ej_records] in *. rewrite accounts_for_app in Hr, Hu.
    split; [done| |by exists a|exact Hro|apply Hr|apply Hu|done].
    by rewrite fmap_cons, pending_records_actions.
  - apply ends_lift. exact Hcall.
Qed.

(** ** Whole runs *)

Lemma accountable_nil actions : accountable actions [].
Proof. split; [apply prefix_nil|apply prefix_nil|done|]. by intros j ?%elem_of_nil. Qed.

Lemma idle_accounts actions t journal :
  executions t = [] → rollbacks t = [] → jr_action <$> ej_records journal = actions →
  Forall (λ r, has_run (jr_outcome r) = false) (ej_records journal) → accounts actions t journal.
Proof.
  intros Hex Hro Hact Hall. split; [done|rewrite Hex|rewrite Hro]; apply accounts_for_none; [done|].
  eapply Forall_impl; [exact Hall|]. intros r Hr. cbn beta in *. by destruct (jr_outcome r).
Qed.

Lemma alter_actions o m (index : nat) (records : list JournalRecord) :
  jr_action <$> alter (λ record, mkJournalRecord (jr_action record) o m) index records = jr_action <$> records.
Proof.
  revert index. induction records as [|r records IH]; intros [|index]; [done..|].
  change (jr_action r :: (jr_action <$> alter (λ record, mkJournalRecord (jr_action record) o m) index records) =
          jr_action r :: (jr_action <$> records)). by rewrite IH.
Qed.

Lemma Forall_alter_const {A} (P : A → Prop) f (index : nat) (l : list A) :
  Forall P l → (∀ x, P (f x)) → Forall P (alter f index l).
Proof. intros Hl Hf. apply Forall_alter; auto. Qed.

Lemma pending_not_run actions : Forall (λ r, has_run (jr_outcome r) = false) (pending_records actions).
Proof. apply Forall_fmap, Forall_forall. by intros. Qed.

Lemma skip_accounts actions index id t :
  executions t = [] → rollbacks t = [] → accounts actions t (skip_unconfirmed index id (pending_journal actions)).
Proof.
  intros Hex Hro. apply idle_accounts; [done..| |].
  - cbn [ej_records skip_unconfirmed set_stopped set_record pending_journal].
    rewrite alter_actions. apply pending_records_actions.
  - apply Forall_alter_const; [|done]. apply pending_not_run.
Qed.

(** An irreversible action that was not confirmed keeps every action from being
    executed. *)
Definition unconfirmed (actions : list PlannedMutation) (allow_irreversible : bool) : Prop :=
  allow_irreversible = false ∧ ∃ action, action ∈ actions ∧ pm_rollback action = Irreversible.

Lemma unconfirmed_None actions allow :
  first_unconfirmed_irreversible (pending_journal actions) allow = None → ¬ unconfirmed actions allow.
Proof.
  unfold first_unconfirmed_irreversible. intros Hf [-> (a & Ha & Hr)].
  apply position_None in Hf. pose proof (proj1 (Forall_forall _ _) Hf (mkJournalRecord a ActPending None)) as Hp.
  simpl in Hp. rewrite Hr in Hp. discriminate Hp. by apply (list_elem_of_fmap_2 (λ action, mkJournalRecord action ActPending None)).
Qed.

Definition plan_end (actions : list PlannedMutation) (allow : bool) (t : trace) : Prop :=
  accountable actions t ∧ (unconfirmed actions allow → executions t = []).

Lemma plan_ends actions allow :
  ends (H := H) (plan_end actions allow) (execute_plan_durably (Failure := F) actions allow)
    (λ _, plan_end actions allow) [].
Proof.
  unfold execute_plan_durably. pose proof (accountable_nil actions) as Hnil.
  eapply (ends_bind _ _ _ _ (λ _ t', t' = [] ∧ validate_plan actions = Ok ())).
  { apply ends_lift. by destruct (validate_plan actions) as [[]| |]. }
  intros [] ? [-> Hok].
  destruct (first_unconfirmed_irreversible _ allow) as [index|] eqn:Hun.
  - eapply (ends_bind _ _ _ _ (λ _ t', t' = [])).
    { apply ends_lift. by destruct (record_at _ index). }
    intros record ? ->. set (id := pm_id _).
    destruct (accountable_snapshot actions [] _ Hnil (skip_accounts actions index id [] eq_refl eq_refl)).
    apply (ends_bind _ _ _ _ (λ _, plan_end actions allow)); [by apply ends_persist|].
    intros _ ? Hend. by apply ends_ret.
  - apply (ends_mono (accountable actions)).
    { intros t Ht. split; [done|]. by intros []%unconfirmed_None. }
    eapply ends_bind.
    { apply (ends_snapshot actions); [done|]. apply idle_accounts; [done..| |].
      - apply pending_records_actions.
      - apply pending_not_run. }
    intros last ? [-> Hacc].
    assert (length (ej_records (pending_journal actions)) = length actions) as -> by apply length_fmap.
    apply (execute_ends actions [] actions). split; [by apply plan_NoDup|done..].
Qed.

Lemma plan_accountable actions allow h :
  plan_end actions allow (execute_plan_durably (H := H * trace) (Failure := F) actions allow (h, [])).1.2.
Proof.
  pose proof (plan_ends actions allow h) as He.
  by destruct (execute_plan_durably actions allow (h, [])) as [[h' t'] [[| |]|]].
Qed.

(** (C10) Whatever the executor and the snapshots do, wherever the process stops: the
    actions executed are a prefix of the plan, what is rolled back is rolled back
    latest first, each call comes directly after a confirmed snapshot that
    announces it, and every journal that may be durable at the end names the
    plan's actions and accounts for the calls, an action under way apart.  While
    an irreversible action of the plan is not confirmed, nothing is executed. *)
Theorem journal_accounts_for_calls actions allow h :
  let t := (execute_plan_durably (H := H * trace) (Failure := F) actions allow (h, [])).1.2 in
  accountable actions t ∧ (unconfirmed actions allow → executions t = []).
Proof. exact (plan_accountable actions allow h). Qed.
End runs.

(** ** Snapshots change nothing

    An executor over [X] beside snapshots that always succeed; [save] is what a
    snapshot leaves in [C]. *)

Section beside.
Context {X C F : Type} `{!MutationExecutor X} (save : ExecutionJournal → C → C).

Definition beside {E A} (call : prog X E A) : prog (X * C) E A :=
  λ '(x, c), let '(x', out) := call x in ((x', c), out).

#[local] Instance beside_executor : MutationExecutor (X * C) := {|
  execute action := beside (execute action);
  rollback action receipt := beside (rollback action receipt);
|}.

#[local] Instance saving_checkpoint : JournalCheckpoint (X * C) F :=
  λ journal '(x, c), ((x, save journal c), Done (Ok ())).

Definition outcome_as {A} (out : outcome (list PlanProblem) A) : outcome (DurableExecutionError F) A :=
  match out with
  | Done r => Done (map_err PlanError r)
  | Stopped => Stopped
  end.

(** The durable program does on [X] what the other one does. *)
Definition agrees {A} (durable : prog (X * C) (DurableExecutionError F) A)
    (plain : prog X (list PlanProblem) A) : Prop :=
  ∀ x c, ∃ c', durable (x, c) = (((plain x).1, c'), outcome_as (plain x).2).

Lemma agrees_lift {A} (r : result (DurableExecutionError F) A) (r' : result (list PlanProblem) A) :
  r = map_err PlanError r' → agrees (lift r) (lift r').
Proof. intros -> x c. by exists c. Qed.

Lemma agrees_bind {A B} (r : result (DurableExecutionError F) A) (r' : result (list PlanProblem) A)
    (k : A → prog (X * C) (DurableExecutionError F) B) (k' : A → prog X (list PlanProblem) B) :
  r = map_err PlanError r' → (∀ a, r' = Ok a → agrees (k a) (k' a)) → agrees (lift r ≫= k) (lift r' ≫= k').
Proof.
  intros -> Hk x c. destruct r' as [a|e|]; [|by exists c..]. exact (Hk a eq_refl x c).
Qed.

Lemma agrees_ok {A B} (a : A) (k : A → prog (X * C) (DurableExecutionError F) B) k' :
  agrees (k a) k' → agrees (lift (Ok a) ≫= k) k'.
Proof. intros Hk. exact Hk. Qed.

Lemma agrees_persist {B} journal last phase index
    (k : option ExecutionJournal → prog (X * C) (DurableExecutionError F) B) k' :
  (∀ last', agrees (k last') k') → agrees (persist_checkpoint journal last phase index ≫= k) k'.
Proof. intros Hk x c. exact (Hk (Some journal) x (save journal c)). Qed.

Lemma agrees_call {E A B} (call : prog X E A) (k : result E A → prog (X * C) (DurableExecutionError F) B) k' :
  (∀ r, agrees (k r) (k' r)) → agrees (catch (beside call) k) (catch call k').
Proof.
  intros Hk x c. unfold catch, beside. destruct (call x) as [x' [r|]]; [exact (Hk r x' c)|by exists c].
Qed.

Lemma set_record_twice i o m o' m' journal :
  set_record i o m (set_record i o' m' journal) = set_record i o m journal.
Proof.
  unfold set_record. simpl. f_equal. generalize (ej_records journal). intros records.
  revert i. induction records as [|r records IH]; intros [|i]; [done..|].
  unfold alter, list_alter in *. simpl. by rewrite IH.
Qed.

Lemma set_record_stopped i o m id journal :
  set_record i o m (set_stopped id journal) = set_stopped id (set_record i o m journal).
Proof. done. Qed.

Lemma rollback_agrees completed journal last :
  agrees (rollback_completed_durably journal last completed) (rollback_completed journal completed).
Proof.
  revert journal last. induction completed as [|[i receipt] completed IH]; intros journal last.
  { by apply agrees_lift. }
  simpl. apply agrees_bind; [by unfold record_at; destruct (_ !! _)|]. intros record _.
  destruct (pm_rollback (jr_action record)) eqn:Hclass; [..|by rewrite bool_decide_true].
  all: rewrite bool_decide_false by done; apply agrees_persist; intros last'; apply agrees_call.
  all: intros [r|failure|]; [|apply agrees_ok; rewrite set_record_twice; by apply agrees_persist|by apply agrees_lift].
  all: unfold rolled_back_record; rewrite Hclass; cbn [rolled_back_outcome]; rsimpl; apply agrees_ok.
  all: rewrite set_record_twice; by apply agrees_persist.
Qed.

Lemma execute_agrees indices journal last completed :
  agrees (execute_records_durably indices journal last completed) (execute_records indices journal completed).
Proof.
  revert journal last completed. induction indices as [|i indices IH]; intros journal last completed.
  { by apply agrees_lift. }
  simpl. apply agrees_bind; [by unfold record_at; destruct (_ !! _)|]. intros record _.
  apply agrees_persist. intros last'. apply agrees_call. intros [receipt|failure|].
  - rewrite set_record_twice. by apply agrees_persist.
  - rewrite set_record_twice. apply agrees_persist. intros. apply rollback_agrees.
  - by apply agrees_lift.
Qed.

(** (C30) With snapshots that succeed, the durable execution makes the same calls as
    the execution in memory, and returns the same journal. *)
Theorem durable_execution_agrees actions allow x c :
  ∃ c', execute_plan_durably actions allow (x, c) =
    (((execute_plan actions allow x).1, c'), outcome_as (execute_plan actions allow x).2).
Proof.
  revert x c. change (agrees (execute_plan_durably actions allow) (execute_plan actions allow)).
  unfold execute_plan_durably, execute_plan. apply agrees_bind; [done|]. intros [] _.
  destruct (first_unconfirmed_irreversible _ allow) as [index|].
  - apply agrees_bind; [by unfold record_at; destruct (_ !! _)|]. intros record _.
    apply agrees_persist. intros _. by apply agrees_lift.
  - apply agrees_persist. intros last. apply execute_agrees.
Qed.
End beside.
