(* ===== verification/JournalDocument.v ===== *)
(** * The journal in the state directory

    [src/src/state.rs] (identifiers and paths), [src/src/journal_document.rs]
    (validation, text and decoding of a journal), [src/src/state_store.rs] (the
    record that is written) and the adapter of [src/src/durable_journal.rs] that
    makes a snapshot of it.  The fields of the wire structs of a journal are
    those of the journal, so they are one type here.  [serde_json] is the
    parameter [JournalSerde]; the store is a state behind the trait
    [StateStore]. *)

From S2P Require Import Prelude Artifact FileSystem LaneJournal.

Local Open Scope N_scope.

(** ** Identifiers and paths *)

Definition MAX_COMPONENT_LEN : N := 128.
Definition MAX_RECORD_ID_LEN : N := 100.

Record StatePathError := mkStatePathError { spe_field : string }.

Definition component_start (value : string) : bool :=
  match value with
  | EmptyString => false
  | String byte _ => is_ascii_lowercase byte || is_ascii_digit byte
  end.

Definition component_rest (value : string) : bool :=
  match value with
  | EmptyString => true
  | String _ rest =>
      bytes_all (λ byte, is_ascii_lowercase byte || is_ascii_digit byte || is_identifier_punctuation byte) rest
  end.

Definition validate_component (field value : string) (max_len : N) : result StatePathError () :=
  if bool_decide (value = ".") || bool_decide (value = "..") || (max_len <? str_len value)
     || negb (component_start value) || negb (component_rest value)
  then Err (mkStatePathError field)
  else Ok ().

Definition StateComponent_parse (field value : string) : result StatePathError string :=
  _ ← validate_component field value MAX_COMPONENT_LEN; Ok value.

Definition InstallationId_parse (value : string) : result StatePathError string :=
  if negb (in_range 16 80 (str_len value))
     || negb (bytes_all (λ byte, is_ascii_lowercase byte || is_ascii_digit byte || Ascii.eqb byte "-"%char) value)
  then Err (mkStatePathError "installation ID")
  else Ok value.

Definition ResourceRecordId_parse (value : string) : result StatePathError string :=
  _ ← validate_component "resource record ID" value MAX_RECORD_ID_LEN; Ok value.

Definition JournalId_parse (value : string) : result StatePathError string :=
  _ ← validate_component "journal ID" value MAX_RECORD_ID_LEN; Ok value.

(** [StatePath]: its components. *)
Abbreviation StatePath := (list string).

Definition json_file (record_id : string) : string := (record_id +:+ ".json")%string.

Definition layout_installation (installation_id : string) : StatePath := ["installations"%string; installation_id].
Definition layout_project (installation_id : string) : StatePath :=
  layout_installation installation_id ++ ["project.json"%string].
Definition layout_resource (installation_id resource_id : string) : StatePath :=
  layout_installation installation_id ++ ["resources"%string; json_file resource_id].
Definition layout_journal (installation_id journal_id : string) : StatePath :=
  layout_installation installation_id ++ ["journals"%string; json_file journal_id].
Definition layout_receipt (installation_id execution_id : string) : StatePath :=
  layout_installation installation_id ++ ["receipts"%string; json_file execution_id].

(** ** Validation of a journal *)

Definition JOURNAL_DOCUMENT_SCHEMA_VERSION : N := 1.
Definition MAX_JOURNAL_RECORDS : nat := 10000.
Definition MAX_EVIDENCE_ITEMS : nat := 256.
Definition MAX_PUBLIC_TEXT_LEN : N := 4096.

Inductive JournalField :=
| FieldActionId (index : nat)
| FieldSummary (index : nat)
| FieldEvidence (index evidence : nat)
| FieldMessage (index : nat)
| FieldStoppedAfter.

Inductive TextProblem := TextEmpty | TextTooLong | TextControl.

Inductive JournalProblem :=
| JpJson
| JpDocumentSchema (version : N)
| JpIdentity (error : StatePathError)
| JpSchema (version : N)
| JpTooManyRecords
| JpPlan (problem : PlanProblem)
| JpText (field : JournalField) (problem : TextProblem)
| JpTooMuchEvidence (index : nat)
| JpMessageWhilePending (index : nat)
| JpMessageWhileExecuting (index : nat)
| JpMessageMissing (index : nat) (out : ActionOutcome)
| JpRolledBackClass (index : nat)
| JpCompensatedClass (index : nat)
| JpIrreversibleRollback (index : nat)
| JpTwoStops
| JpStopRequired
| JpStopUnknown (id : string)
| JpStopOutcome
| JpPendingBeforeStop
| JpChangedAfterStop
| JpChangedBesideSkip
| JpTwoInProgress
| JpExecutingStopped
| JpBeforeExecuting
| JpAfterExecuting
| JpRollbackWithoutStop.

(** [value.chars().any(char::is_control)] on UTF-8: U+0000 to U+001F, U+007F,
    and U+0080 to U+009F, which are written with the lead byte 194. *)
Fixpoint has_control (value : string) : bool :=
  match value with
  | EmptyString => false
  | String byte rest =>
      let n := N_of_ascii byte in
      (n <? 32) || (n =? 127)
      || ((n =? 194) && match rest with
                        | String second _ => in_range 128 159 (N_of_ascii second)
                        | EmptyString => false
                        end)
      || has_control rest
  end.

Definition validate_public_text (field : JournalField) (value : string) : list JournalProblem :=
  if str_is_empty value then [JpText field TextEmpty]
  else if MAX_PUBLIC_TEXT_LEN <? str_len value then [JpText field TextTooLong]
  else if has_control value then [JpText field TextControl]
  else [].

Definition message_problems (index : nat) (record : JournalRecord) : list JournalProblem :=
  match jr_outcome record with
  | ActPending => if is_some (jr_message record) then [JpMessageWhilePending index] else []
  | ActExecuting => if is_some (jr_message record) then [JpMessageWhileExecuting index] else []
  | _ =>
      match jr_message record with
      | Some message => validate_public_text (FieldMessage index) message
      | None => [JpMessageMissing index (jr_outcome record)]
      end
  end.

Definition rollback_problems (index : nat) (record : JournalRecord) : list JournalProblem :=
  match jr_outcome record with
  | ActRolledBack =>
      if bool_decide (pm_rollback (jr_action record) ≠ Reversible) then [JpRolledBackClass index] else []
  | ActCompensated =>
      if bool_decide (pm_rollback (jr_action record) ≠ Compensating) then [JpCompensatedClass index] else []
  | ActRollbackInProgress | ActRollbackFailed =>
      if bool_decide (pm_rollback (jr_action record) = Irreversible) then [JpIrreversibleRollback index] else []
  | _ => []
  end.

Definition validate_journal_record (index : nat) (record : JournalRecord) : list JournalProblem :=
  validate_public_text (FieldActionId index) (pm_id (jr_action record))
  ++ validate_public_text (FieldSummary index) (pm_summary (jr_action record))
  ++ (if bool_decide (MAX_EVIDENCE_ITEMS < length (pm_evidence (jr_action record)))%nat
      then [JpTooMuchEvidence index] else [])
  ++ concat (imap (λ evidence_index evidence, validate_public_text (FieldEvidence index evidence_index) evidence)
               (pm_evidence (jr_action record)))
  ++ message_problems index record
  ++ rollback_problems index record.

Definition is_stop (out : ActionOutcome) : bool :=
  match out with
  | ActFailed | ActSkipped => true
  | _ => false
  end.

Definition is_in_progress (out : ActionOutcome) : bool :=
  match out with
  | ActExecuting | ActRollbackInProgress => true
  | _ => false
  end.

(** [iter().enumerate().filter(p)]. *)
Definition enumerate_filter (p : ActionOutcome → bool) (records : list JournalRecord) : list (nat * JournalRecord) :=
  filter (λ entry, p (jr_outcome entry.2) = true) (imap pair records).

Definition outcome_is (out : ActionOutcome) (record : JournalRecord) : bool :=
  bool_decide (jr_outcome record = out).

Definition validate_stop_position (journal : ExecutionJournal) : list JournalProblem :=
  let records := ej_records journal in
  let stopping_records := enumerate_filter is_stop records in
  (if bool_decide (1 < length stopping_records)%nat then [JpTwoStops] else [])
  ++ match ej_stopped_after journal with
     | None => if bool_decide (stopping_records = []) then [] else [JpStopRequired]
     | Some stopped_after =>
         validate_public_text FieldStoppedAfter stopped_after
         ++ match position (λ record, bool_decide (pm_id (jr_action record) = stopped_after)) records with
            | None => [JpStopUnknown stopped_after]
            | Some stop_index =>
                match jr_outcome <$> records !! stop_index with
                | Some ActFailed =>
                    (if existsb (outcome_is ActPending) (take stop_index records)
                     then [JpPendingBeforeStop] else [])
                    ++ (if existsb (λ record, negb (outcome_is ActPending record)) (drop (S stop_index) records)
                        then [JpChangedAfterStop] else [])
                | Some ActSkipped =>
                    if existsb (λ entry, negb (bool_decide (entry.1 = stop_index))
                                         && negb (outcome_is ActPending entry.2)) (imap pair records)
                    then [JpChangedBesideSkip] else []
                | _ => [JpStopOutcome]
                end
            end
     end.

Definition validate_recovery_position (journal : ExecutionJournal) : list JournalProblem :=
  let records := ej_records journal in
  match enumerate_filter is_in_progress records with
  | [] => []
  | [(active_index, active_record)] =>
      match jr_outcome active_record with
      | ActExecuting =>
          (if is_some (ej_stopped_after journal) then [JpExecutingStopped] else [])
          ++ (if existsb (λ record, negb (outcome_is ActCompleted record)) (take active_index records)
              then [JpBeforeExecuting] else [])
          ++ (if existsb (λ record, negb (outcome_is ActPending record)) (drop (S active_index) records)
              then [JpAfterExecuting] else [])
      | _ => if is_some (ej_stopped_after journal) then [] else [JpRollbackWithoutStop]
      end
  | _ => [JpTwoInProgress]
  end.

Definition journal_problems (journal : ExecutionJournal) : list JournalProblem :=
  (if ej_schema_version journal =? JOURNAL_SCHEMA_VERSION then [] else [JpSchema (ej_schema_version journal)])
  ++ (if bool_decide (MAX_JOURNAL_RECORDS < length (ej_records journal))%nat then [JpTooManyRecords] else [])
  ++ match validate_plan (jr_action <$> ej_records journal) with
     | Err found => JpPlan <$> found
     | _ => []
     end
  ++ concat (imap validate_journal_record (ej_records journal))
  ++ validate_stop_position journal
  ++ validate_recovery_position journal.

Definition validate_execution_journal (journal : ExecutionJournal) : result (list JournalProblem) () :=
  let problems := journal_problems journal in
  match problems with
  | [] => Ok ()
  | _ => Err problems
  end.

(** ** The document *)

Record JournalStateDocument := mkJournalDocument {
  jd_schema_version : N;
  jd_installation_id : string;
  jd_journal_id : string;
  jd_journal : ExecutionJournal;
}.

Definition JournalStateDocument_new (installation_id journal_id : string) (journal : ExecutionJournal)
    : result (list JournalProblem) JournalStateDocument :=
  _ ← validate_execution_journal journal;
  Ok (mkJournalDocument JOURNAL_DOCUMENT_SCHEMA_VERSION installation_id journal_id journal).

(** [serde_json] on the document: [to_string_pretty] and [from_str]. *)
Class JournalSerde := {
  journal_to_string : JournalStateDocument → option string;
  journal_from_str : string → option JournalStateDocument;
}.

Section codec.
Context `{JSERDE : JournalSerde}.

Definition newline_string : string := String "010"%char EmptyString.

Definition encode_journal_document (document : JournalStateDocument) : result (list JournalProblem) string :=
  encoded ← ok_or (journal_to_string document) [JpJson];
  Ok (encoded +:+ newline_string)%string.

(** [TryFrom<WireJournalStateDocument>]. *)
Definition document_of_wire (wire : JournalStateDocument) : result (list JournalProblem) JournalStateDocument :=
  if negb (jd_schema_version wire =? JOURNAL_DOCUMENT_SCHEMA_VERSION)
  then Err [JpDocumentSchema (jd_schema_version wire)]
  else
    installation_id ← map_err (λ error, [JpIdentity error]) (InstallationId_parse (jd_installation_id wire));
    journal_id ← map_err (λ error, [JpIdentity error]) (JournalId_parse (jd_journal_id wire));
    JournalStateDocument_new installation_id journal_id (jd_journal wire).

Definition decode_journal_document (input : string) : result (list JournalProblem) JournalStateDocument :=
  wire ← ok_or (journal_from_str input) [JpJson];
  document_of_wire wire.

(** ** The record that is written *)

Definition MAX_STATE_DOCUMENT_BYTES : N := 1048576.

Inductive StateRecordKind := KindProject | KindResource | KindJournal | KindExecutionReceipt.

Record StateRecord := mkStateRecord {
  sr_kind : StateRecordKind;
  sr_path : StatePath;
  sr_bytes : string;
}.

Inductive StateRecordError :=
| RecordTooLarge
| RecordJournal (problems : list JournalProblem).

Definition record_finish (kind : StateRecordKind) (path : StatePath) (encoded : string)
    : result StateRecordError StateRecord :=
  if MAX_STATE_DOCUMENT_BYTES <? str_len encoded then Err RecordTooLarge
  else Ok (mkStateRecord kind path encoded).

Definition StateRecord_journal (document : JournalStateDocument) : result StateRecordError StateRecord :=
  let path := layout_journal (jd_installation_id document) (jd_journal_id document) in
  encoded ← map_err RecordJournal (encode_journal_document document);
  record_finish KindJournal path encoded.
End codec.

Inductive StateStoreErrorKind := StoreBusy | StoreConflict | StoreIo | StoreUnsafe | StoreCorrupt.

Record StateStoreError := mkStateStoreError {
  sse_kind : StateStoreErrorKind;
  sse_message : string;
}.

(** The trait [StateStore]; the receipts of its writes are not read here. *)
Class StateStore (H : Type) := {
  store_read : StatePath → prog H StateStoreError (option string);
  create_atomic : StateRecord → prog H StateStoreError ();
  write_atomic : StateRecord → prog H StateStoreError ();
}.

(** ** A snapshot in the store *)

Inductive CheckpointFailure :=
| SnapshotInvalid (problems : list JournalProblem)
| SnapshotUnbound (error : StateRecordError)
| SnapshotNotPersisted (message : string).

(** [StateStoreJournalCheckpoint]: the store, beside whether the journal has
    been created. *)
Definition store_checkpoint `{JournalSerde} {H} `{StateStore H} (installation_id journal_id : string)
    : JournalCheckpoint (H * bool) CheckpointFailure := λ journal '(store, initialized),
  match
    (document ← map_err SnapshotInvalid (JournalStateDocument_new installation_id journal_id journal);
     map_err SnapshotUnbound (StateRecord_journal document))
  with
  | Ok record =>
      let '(store, out) := (if initialized then write_atomic record else create_atomic record) store in
      match out with
      | Done (Ok _) => ((store, true), Done (Ok ()))
      | Done (Err error) => ((store, initialized), Done (Err (SnapshotNotPersisted (sse_message error))))
      | Done Panic => ((store, initialized), Done Panic)
      | Stopped => ((store, initialized), Stopped)
      end
  | Err failure => ((store, initialized), Done (Err failure))
  | Panic => ((store, initialized), Done Panic)
  end.
