(* ===== verification/JournalSnapshots.v ===== *)
(** * Every snapshot of a run is a valid document

    The journals that [LaneJournal] hands to a snapshot, against the validation
    of [JournalDocument]: for a plan that fits the document's bounds and an
    executor whose texts are public, each of them is accepted, so no snapshot is
    refused by the validation after a call was made. *)

From S2P Require Import Prelude Artifact FileSystem LaneJournal JournalTheorems JournalDocument.

(** ** Texts and records *)

Definition public_text (value : string) : Prop :=
  value ≠ EmptyString ∧ (str_len value ≤ MAX_PUBLIC_TEXT_LEN)%N ∧ has_control value = false.

Lemma validate_public_text_nil field value : validate_public_text field value = [] ↔ public_text value.
Proof.
  unfold validate_public_text, public_text. rewrite <-str_is_empty_false.
  repeat case_match; bprop; naive_solver lia.
Qed.

(** What the document bounds of an action. *)
Record action_public (action : PlannedMutation) : Prop := {
  ap_id : public_text (pm_id action);
  ap_summary : public_text (pm_summary action);
  ap_evidence_count : length (pm_evidence action) ≤ MAX_EVIDENCE_ITEMS;
  ap_evidence : Forall public_text (pm_evidence action);
}.

(** A plan that a document can hold. *)
Record plan_fits (actions : list PlannedMutation) : Prop := {
  pf_valid : validate_plan actions = Ok ();
  pf_count : length actions ≤ MAX_JOURNAL_RECORDS;
  pf_public : Forall action_public actions;
}.

Lemma concat_imap_nil {A B} (f : nat → A → list B) l :
  (∀ i x, x ∈ l → f i x = []) → concat (imap f l) = [].
Proof.
  revert f. induction l as [|x l IH]; intros f Hf; [done|]. simpl. rewrite (Hf 0 x) by left.
  simpl. apply IH. intros i y Hy. apply Hf. by right.
Qed.

Definition record_ok (record : JournalRecord) : Prop :=
  ∀ index, message_problems index record = [] ∧ rollback_problems index record = [].

Lemma validate_record_nil index record :
  action_public (jr_action record) → record_ok record → validate_journal_record index record = [].
Proof.
  intros [Hid Hsum Hcount Hev] Hok. destruct (Hok index) as [Hm Hr]. unfold validate_journal_record.
  rewrite (proj2 (validate_public_text_nil _ _) Hid), (proj2 (validate_public_text_nil _ _) Hsum), Hm, Hr.
  rewrite bool_decide_false by lia. rewrite concat_imap_nil; [done|].
  intros i x Hx. apply validate_public_text_nil. by eapply Forall_forall in Hev.
Qed.

Lemma done_record_ok action receipt :
  public_text receipt → record_ok (mkJournalRecord action ActCompleted (Some receipt)).
Proof. intros Hp index. split; [|done]. by apply validate_public_text_nil. Qed.

Lemma done_records_ok (dones : receipts) :
  Forall (λ d, public_text d.2) dones → Forall record_ok (done_records dones).
Proof.
  intros Hd. apply Forall_fmap. eapply Forall_impl; [exact Hd|]. intros [a r] Hp. by apply done_record_ok.
Qed.

Lemma pending_records_ok rest : Forall record_ok (pending_records rest).
Proof. apply Forall_fmap, Forall_forall. by intros a _ index. Qed.

(** ** Positions *)

Lemma filter_imap_nil p (f : nat → JournalRecord → nat * JournalRecord) records :
  (∀ i r, (f i r).2 = r) → Forall (λ r, p (jr_outcome r) = false) records →
  filter (λ entry, p (jr_outcome entry.2) = true) (imap f records) = [].
Proof.
  intros Hf Hp. apply elem_of_nil_inv. intros entry. rewrite list_elem_of_filter.
  intros [Ht (i & r & -> & Hr)%elem_of_lookup_imap]. rewrite Hf in Ht.
  apply list_elem_of_lookup_2 in Hr. eapply Forall_forall in Hp; [|exact Hr]. simpl in Hp. congruence.
Qed.

Lemma enumerate_filter_nil p records :
  Forall (λ r, p (jr_outcome r) = false) records → enumerate_filter p records = [].
Proof. by apply filter_imap_nil. Qed.

Lemma enumerate_filter_one p pre record post :
  Forall (λ r, p (jr_outcome r) = false) pre → p (jr_outcome record) = true →
  Forall (λ r, p (jr_outcome r) = false) post →
  enumerate_filter p (pre ++ record :: post) = [(length pre, record)].
Proof.
  intros Hpre Hr Hpost. unfold enumerate_filter. rewrite imap_app, filter_app. simpl.
  rewrite filter_cons_True by done. rewrite Nat.add_0_r, (filter_imap_nil p pair) by done.
  rewrite filter_imap_nil; done.
Qed.

Lemma position_middle {A} (p : A → bool) pre x post :
  Forall (λ y, p y = false) pre → p x = true → position p (pre ++ x :: post) = Some (length pre).
Proof.
  intros Hpre Hx. induction Hpre as [|y pre Hy _ IH]; simpl; [by rewrite Hx|]. by rewrite Hy, IH.
Qed.

Lemma existsb_all {A} (p : A → bool) l : Forall (λ x, p x = false) l → existsb p l = false.
Proof. induction 1 as [|x l Hx _ IH]; [done|]. simpl. by rewrite Hx. Qed.

Lemma drop_past {A} (l k : list A) x : drop (S (length l)) (l ++ x :: k) = k.
Proof. by induction l. Qed.

(** ** Valid journals *)

Definition journal_valid (journal : ExecutionJournal) : Prop := validate_execution_journal journal = Ok ().

(** The checks that do not look at positions. *)
Lemma journal_valid_intro actions records stop :
  plan_fits actions → jr_action <$> records = actions → Forall record_ok records →
  validate_stop_position (mkJournal JOURNAL_SCHEMA_VERSION records stop) = [] →
  validate_recovery_position (mkJournal JOURNAL_SCHEMA_VERSION records stop) = [] →
  journal_valid (mkJournal JOURNAL_SCHEMA_VERSION records stop).
Proof.
  intros [Hv Hc Hp] Hact Hok Hs Hr. unfold journal_valid, validate_execution_journal, journal_problems.
  rewrite Hs, Hr. cbn [ej_schema_version ej_records]. rewrite Hact, Hv.
  rewrite bool_decide_false by (rewrite <-Hact, length_fmap in Hc; lia).
  rewrite concat_imap_nil; [done|]. intros i r Hin. apply validate_record_nil.
  - eapply Forall_forall; [exact Hp|]. rewrite <-Hact. by apply list_elem_of_fmap_2.
  - by eapply Forall_forall in Hok.
Qed.

Lemma done_outcomes (dones : receipts) : Forall (λ r, jr_outcome r = ActCompleted) (done_records dones).
Proof. induction dones as [|[a r] dones IH]; constructor; [done|exact IH]. Qed.

Lemma pending_outcomes rest : Forall (λ r, jr_outcome r = ActPending) (pending_records rest).
Proof. induction rest; by constructor. Qed.

(** A test of the outcome that every record of the list passes. *)
Ltac by_outcome H :=
  eapply Forall_impl; [exact H|]; intros ? Hr; cbn beta in *; unfold outcome_is; rewrite ?Hr; naive_solver.

(** No action has failed: completed ones, the one under way, pending ones. *)
Lemma running_valid actions (dones : receipts) current rest :
  plan_fits actions → dones.*1 ++ (jr_action <$> current) ++ rest = actions →
  Forall (λ d, public_text d.2) dones →
  (current = [] ∨ ∃ a, current = [mkJournalRecord a ActExecuting None]) →
  journal_valid (running dones current rest).
Proof.
  intros Hfit Hact Hpub Hcur. pose proof (done_outcomes dones) as Hd. pose proof (pending_outcomes rest) as Hp.
  apply (journal_valid_intro actions); [done| | | |].
  - by rewrite !fmap_app, done_records_actions, pending_records_actions.
  - rewrite !Forall_app. split_and!; [by apply done_records_ok| |apply pending_records_ok].
    destruct Hcur as [->|[a ->]]; repeat constructor.
  - unfold validate_stop_position. cbn [ej_records ej_stopped_after]. rewrite enumerate_filter_nil; [done|].
    rewrite !Forall_app. split_and!; [by_outcome Hd| |by_outcome Hp].
    destruct Hcur as [->|[a ->]]; by repeat constructor.
  - unfold validate_recovery_position. cbn [ej_records ej_stopped_after].
    destruct Hcur as [->|[a ->]]; cbn [app].
    + rewrite enumerate_filter_nil; [done|]. rewrite Forall_app. split; [by_outcome Hd|by_outcome Hp].
    + rewrite enumerate_filter_one; [|by_outcome Hd|done|by_outcome Hp]. cbn [jr_outcome is_some app].
      rewrite take_app_length, existsb_all by by_outcome Hd.
      rewrite drop_past, existsb_all; [done|by_outcome Hp].
Qed.

(** Records of actions before one that failed, outside a rollback. *)
Definition at_rest (out : ActionOutcome) : bool :=
  match out with
  | ActCompleted | ActRolledBack | ActCompensated | ActRollbackFailed => true
  | _ => false
  end.

Lemma ids_before actions pre (failed : JournalRecord) rest :
  NoDup (pm_id <$> actions) → (jr_action <$> pre) ++ jr_action failed :: rest = actions →
  Forall (λ r, bool_decide (pm_id (jr_action r) = pm_id (jr_action failed)) = false) pre.
Proof.
  intros Hnd <-. rewrite fmap_app, fmap_cons in Hnd. apply NoDup_app in Hnd as (_ & Hd & _).
  apply Forall_forall. intros r Hr. apply bool_decide_eq_false. intros Heq.
  eapply (Hd (pm_id (jr_action r))); [by apply list_elem_of_fmap_2, list_elem_of_fmap_2|]. rewrite Heq. left.
Qed.

(** An action has failed: those before it are at rest, but for the one that is
    being rolled back; those after it are pending. *)
Lemma stopped_valid actions pre current backs failed rest :
  plan_fits actions →
  (jr_action <$> pre ++ current ++ backs) ++ jr_action failed :: rest = actions →
  Forall record_ok (pre ++ current ++ backs) → Forall (λ r, at_rest (jr_outcome r) = true) (pre ++ backs) →
  (current = [] ∨ ∃ r, current = [r] ∧ jr_outcome r = ActRollbackInProgress) →
  jr_outcome failed = ActFailed → record_ok failed →
  journal_valid (mkJournal JOURNAL_SCHEMA_VERSION
    (pre ++ current ++ backs ++ failed :: pending_records rest) (Some (pm_id (jr_action failed)))).
Proof.
  intros Hfit Hact Hok Hrest Hcur Hf Hfok. pose proof (pending_outcomes rest) as Hp.
  pose proof Hfit as [Hv Hcount Hpub]. pose proof (proj1 (validate_plan_Ok _) Hv) as [_ Hids].
  apply Forall_app in Hrest as [Hpre Hbacks].
  assert (Forall (λ r, at_rest (jr_outcome r) = true ∨ jr_outcome r = ActRollbackInProgress)
    (pre ++ current ++ backs)) as Hall.
  { rewrite !Forall_app. split_and!; [by_outcome Hpre| |by_outcome Hbacks].
    destruct Hcur as [->|(r & -> & Hr)]; [constructor|apply Forall_singleton; by right]. }
  assert (pre ++ current ++ backs ++ failed :: pending_records rest =
    (pre ++ current ++ backs) ++ failed :: pending_records rest) as Heq by by rewrite <-!app_assoc.
  apply (journal_valid_intro actions); [done| | | |].
  - rewrite Heq, fmap_app, fmap_cons, pending_records_actions. done.
  - rewrite Heq, Forall_app, Forall_cons. split_and!; [done..|apply pending_records_ok].
  - unfold validate_stop_position. cbn [ej_records ej_stopped_after]. rewrite Heq.
    rewrite enumerate_filter_one; [| |by rewrite Hf|by_outcome Hp].
    2: { eapply Forall_impl; [exact Hall|]. intros r Hr. simpl in Hr. by destruct (jr_outcome r), Hr. }
    rewrite bool_decide_false by (simpl; lia). rewrite (proj2 (validate_public_text_nil _ _)).
    2: { apply (proj1 (Forall_forall _ _) Hpub). rewrite <-Hact. apply elem_of_app. right. left. }
    rewrite position_middle; [|by eapply ids_before|by apply bool_decide_eq_true].
    rewrite list_lookup_middle by done. cbn [fmap option_fmap option_map app]. rewrite Hf.
    rewrite take_app_length, existsb_all.
    2: { eapply Forall_impl; [exact Hall|]. intros r Hr. simpl in Hr. unfold outcome_is.
         by destruct (jr_outcome r), Hr. }
    rewrite drop_past, existsb_all; [done|by_outcome Hp].
  - unfold validate_recovery_position. cbn [ej_records ej_stopped_after].
    assert (∀ l, Forall (λ r, at_rest (jr_outcome r) = true) l →
      Forall (λ r, is_in_progress (jr_outcome r) = false) l) as Hw.
    { intros l Hl. eapply Forall_impl; [exact Hl|]. intros r Hr. simpl in Hr. by destruct (jr_outcome r). }
    assert (Forall (λ r, is_in_progress (jr_outcome r) = false) (backs ++ failed :: pending_records rest)) as Hpost.
    { rewrite Forall_app, Forall_cons, Hf. split_and!; [by apply Hw|done|by_outcome Hp]. }
    destruct Hcur as [->|(r & -> & Hr)]; cbn [app].
    + rewrite enumerate_filter_nil; [done|]. apply Forall_app. split; [by apply Hw|done].
    + rewrite enumerate_filter_one; [|by apply Hw|by rewrite Hr|done]. by rewrite Hr.
Qed.

Lemma unconfirmed_message_public : public_text unconfirmed_message.
Proof. split_and!; [done|by apply N.leb_le|done]. Qed.

(** The plan is refused for want of a confirmation. *)
Lemma skip_valid actions index record :
  plan_fits actions → record_at (E := list PlanProblem) (pending_journal actions) index = Ok record →
  journal_valid (skip_unconfirmed index (pm_id (jr_action record)) (pending_journal actions)).
Proof.
  intros Hfit Hrec. unfold record_at in Hrec. apply expect_Ok in Hrec. cbn [pending_journal ej_records] in Hrec.
  rewrite list_lookup_fmap in Hrec. apply fmap_Some in Hrec as (a & Ha & ->). cbn [jr_action].
  apply list_elem_of_split_length in Ha as (l & k & Hact & ->).
  pose proof Hfit as [Hv _ Hpub]. pose proof (proj1 (validate_plan_Ok _) Hv) as [_ Hids].
  pose proof (pending_outcomes l) as Hl. pose proof (pending_outcomes k) as Hk.
  assert (length l = length (pending_records l)) as Hlen by (symmetry; apply length_fmap).
  set (skipped := mkJournalRecord a ActSkipped (Some unconfirmed_message)).
  assert (skip_unconfirmed (length l) (pm_id a) (pending_journal actions) =
    mkJournal JOURNAL_SCHEMA_VERSION (pending_records l ++ skipped :: pending_records k) (Some (pm_id a))) as ->.
  { unfold skip_unconfirmed, set_stopped, set_record. cbn [pending_journal ej_records ej_schema_version].
    rewrite Hact, fmap_app, fmap_cons, alter_middle by done. done. }
  apply (journal_valid_intro actions); [done| | | |].
  - by rewrite fmap_app, fmap_cons, !pending_records_actions.
  - rewrite Forall_app, Forall_cons. split_and!; [apply pending_records_ok| |apply pending_records_ok].
    intros i. split; [|done]. apply validate_public_text_nil, unconfirmed_message_public.
  - unfold validate_stop_position. cbn [ej_records ej_stopped_after].
    rewrite enumerate_filter_one; [|by_outcome Hl|done|by_outcome Hk].
    rewrite bool_decide_false by (simpl; lia). rewrite (proj2 (validate_public_text_nil _ _)).
    2: { apply (proj1 (Forall_forall _ _) Hpub). rewrite Hact. apply elem_of_app. right. left. }
    rewrite position_middle; [| |by apply bool_decide_eq_true].
    2: { apply (ids_before actions _ skipped k); [done|]. by rewrite pending_records_actions. }
    rewrite list_lookup_middle by done. cbn [fmap option_fmap option_map app jr_outcome skipped].
    rewrite existsb_all; [done|]. rewrite imap_app. cbn [imap]. rewrite Forall_app, Forall_cons. split_and!.
    + apply Forall_lookup. intros i e. rewrite list_lookup_imap. intros (r & Hr & ->)%fmap_Some. simpl.
      apply list_elem_of_lookup_2 in Hr. unfold outcome_is.
      rewrite (proj1 (Forall_forall _ _) Hl r Hr). apply andb_false_r.
    + simpl. by rewrite Nat.add_0_r, bool_decide_true.
    + apply Forall_lookup. intros i e. rewrite list_lookup_imap. intros (r & Hr & ->)%fmap_Some. simpl.
      apply list_elem_of_lookup_2 in Hr. unfold outcome_is.
      rewrite (proj1 (Forall_forall _ _) Hk r Hr). apply andb_false_r.
  - unfold validate_recovery_position. cbn [ej_records]. rewrite enumerate_filter_nil; [done|].
    rewrite Forall_app, Forall_cons. split_and!; [by_outcome Hl|done|by_outcome Hk].
Qed.

(** ** Runs *)

Definition snapshots_valid (t : trace) : Prop :=
  Forall (λ event, match event with
                   | EvSaved journal | EvTried journal => journal_valid journal
                   | _ => True
                   end) t.

(** An executor that returns public texts only. *)
Record public_executor (H : Type) `{MutationExecutor H} : Prop := {
  execute_receipt action h h' receipt : execute action h = (h', Done (Ok receipt)) → public_text receipt;
  execute_failure action h h' failure :
    execute action h = (h', Done (Err failure)) → public_text (failure_text failure);
  rollback_receipt action receipt h h' receipt' :
    rollback action receipt h = (h', Done (Ok receipt')) → public_text receipt';
  rollback_failure action receipt h h' failure :
    rollback action receipt h = (h', Done (Err failure)) → public_text (failure_text failure);
}.

Section runs.
Context {H F : Type} `{!MutationExecutor H} `{!JournalCheckpoint H F} (HP : public_executor H).
Context (actions : list PlannedMutation) (Hfit : plan_fits actions).

Lemma ends_known {E E' A B} P (event : journal_event) (call : prog H E A)
    (k : result E A → prog (H * trace) E' B) Q t :
  P (event :: t) → (∀ h h' r, call h = (h', Done r) → ends P (k r) Q (event :: t)) →
  ends P (catch (traced (λ _, event) call) k) Q t.
Proof.
  intros Hp Hk h. unfold catch, traced. destruct (call h) as [h' [r|]] eqn:Hc; [|done].
  exact (Hk h h' r Hc h').
Qed.

Lemma valid_snapshot journal last phase index t :
  journal_valid journal → snapshots_valid t →
  ends snapshots_valid (persist_checkpoint (H := H * trace) (Failure := F) journal last phase index)
    (λ _, snapshots_valid) t.
Proof. intros Hj Ht. apply ends_persist; by constructor. Qed.

Lemma undo_record_ok action out message :
  public_text message →
  match out with
  | ActRollbackInProgress | ActRollbackFailed => pm_rollback action ≠ Irreversible
  | ActRolledBack => pm_rollback action = Reversible
  | ActCompensated => pm_rollback action = Compensating
  | ActCompleted | ActFailed => True
  | _ => False
  end → record_ok (mkJournalRecord action out (Some message)).
Proof.
  intros Hp Hout index.
  split; [by destruct out; try apply validate_public_text_nil|].
  unfold rollback_problems. cbn [jr_outcome jr_action]. destruct out; try done; case_bool_decide; naive_solver.
Qed.

Lemma done_at_rest (dones : receipts) : Forall (λ r, at_rest (jr_outcome r) = true) (done_records dones).
Proof. pose proof (done_outcomes dones) as Hd. by_outcome Hd. Qed.

(** The journals of a rollback: [a] is being rolled back, or was. *)
Definition undo_snapshot (dones : receipts) a out m backs failed rest : ExecutionJournal :=
  mkJournal JOURNAL_SCHEMA_VERSION
    (done_records dones ++ mkJournalRecord a out (Some m) :: backs ++ failed :: pending_records rest)
    (Some (pm_id (jr_action failed))).

Lemma set_record_undo dones a out m backs failed rest out' m' :
  set_record (length dones) out' (Some m') (undo_snapshot dones a out m backs failed rest) =
  undo_snapshot dones a out' m' backs failed rest.
Proof. apply set_record_middle. Qed.

(** What is known of the records around it. *)
Record undo_parts (dones : receipts) (backs : list JournalRecord) (failed : JournalRecord) : Prop := {
  up_dones : Forall (λ d, public_text d.2) dones;
  up_backs : Forall record_ok backs;
  up_rest : Forall (λ r, at_rest (jr_outcome r) = true) backs;
  up_failed : jr_outcome failed = ActFailed;
  up_failed_ok : record_ok failed;
}.

Lemma undo_snapshot_valid dones a out m backs failed rest :
  undo_parts dones backs failed → dones.*1 ++ a :: (jr_action <$> backs) ++ jr_action failed :: rest = actions →
  record_ok (mkJournalRecord a out (Some m)) → at_rest out = true ∨ out = ActRollbackInProgress →
  journal_valid (undo_snapshot dones a out m backs failed rest).
Proof.
  intros [Hpub Hok Hrest Hf Hfok] Hact Hro Hout. pose proof (done_at_rest dones) as Hd.
  assert (Forall record_ok (done_records dones ++ mkJournalRecord a out (Some m) :: backs)) as Hall.
  { rewrite Forall_app, Forall_cons. split_and!; [by apply done_records_ok|done..]. }
  destruct Hout as [Hout| ->].
  - apply (stopped_valid actions (done_records dones) [] (mkJournalRecord a out (Some m) :: backs));
      [done| |done| |by left|done..].
    + rewrite fmap_app, done_records_actions, <-app_assoc. done.
    + rewrite Forall_app, Forall_cons. done.
  - apply (stopped_valid actions (done_records dones) [mkJournalRecord a ActRollbackInProgress (Some m)] backs);
      [done| |done| |by right; eexists|done..].
    + rewrite fmap_app, done_records_actions, <-app_assoc. done.
    + rewrite Forall_app. done.
Qed.

(** The record after the call. *)
Lemma rolled_back_snapshot dones a m backs failed rest c r receipt res h h' :
  rollback a receipt h = (h', Done res) →
  let got := rolled_back_record (Failure := F) (length dones) (mkJournalRecord a c r) res
               (undo_snapshot dones a ActRollbackInProgress m backs failed rest) in
  pm_rollback a ≠ Irreversible →
  got = Panic ∨ ∃ out m', at_rest out = true ∧ record_ok (mkJournalRecord a out (Some m')) ∧
    got = Ok (undo_snapshot dones a out m' backs failed rest).
Proof.
  intros Hres got Hirr. subst got. unfold rolled_back_record. cbn [jr_action].
  destruct res as [receipt'|failure|]; [| |by left]; right.
  - pose proof (rollback_receipt _ HP _ _ _ _ _ Hres) as Hpr.
    destruct (pm_rollback a) eqn:Hc; [..|done]; cbn [rolled_back_outcome]; rsimpl; rewrite set_record_undo;
      eexists _, _; (split_and!; [| |reflexivity]; [done|]); by apply undo_record_ok.
  - pose proof (rollback_failure _ HP _ _ _ _ _ Hres) as Hpr. rewrite set_record_undo.
    eexists _, _. split_and!; [| |reflexivity]; [done|]. by apply undo_record_ok.
Qed.

Lemma rollback_valid (dones : receipts) backs failed rest last t :
  undo_parts dones backs failed → dones.*1 ++ (jr_action <$> backs) ++ jr_action failed :: rest = actions →
  snapshots_valid t →
  ends snapshots_valid
    (rollback_completed_durably (H := H * trace) (Failure := F)
      (mkJournal JOURNAL_SCHEMA_VERSION (done_records dones ++ backs ++ failed :: pending_records rest)
        (Some (pm_id (jr_action failed)))) last (completed_list dones))
    (λ _, snapshots_valid) t.
Proof.
  revert backs last t. induction dones as [|[a r] dones IH] using rev_ind; intros backs last t Hparts Hact Ht.
  { by apply ends_ret. }
  destruct Hparts as [Hpub Hok Hrest Hf Hfok]. apply Forall_app in Hpub as [Hpub Hr].
  apply Forall_cons in Hr as [Hr _]. simpl in Hr. rewrite fmap_app, <-app_assoc in Hact. simpl in Hact.
  assert (undo_parts dones backs failed) as Hparts by done.
  rewrite completed_list_snoc, done_records_app, <-app_assoc.
  change (mkJournal JOURNAL_SCHEMA_VERSION _ _) with (undo_snapshot dones a ActCompleted r backs failed rest).
  cbn [rollback_completed_durably].
  eapply (ends_bind _ _ _ _ (λ record t', record = mkJournalRecord a ActCompleted (Some r) ∧ t' = t)).
  { apply ends_lift. unfold undo_snapshot. by rewrite record_at_middle. }
  intros ? ? [-> ->]. cbn [jr_action jr_message]. rewrite set_record_undo.
  case_bool_decide as Hirr.
  { apply (IH (mkJournalRecord a ActCompleted (Some r) :: backs)); [|done..].
    split; [done|by constructor; [apply done_record_ok|]|by constructor|done..]. }
  eapply ends_bind.
  { apply valid_snapshot; [|done]. apply undo_snapshot_valid; [done..|by apply undo_record_ok|by right]. }
  intros last' t' Ht'. apply ends_known; [by constructor|]. intros h h' res Hres.
  eapply (ends_bind _ _ _ _ (λ journal t'', snapshots_valid t'' ∧ ∃ out m, at_rest out = true ∧
    record_ok (mkJournalRecord a out (Some m)) ∧ journal = undo_snapshot dones a out m backs failed rest)).
  { apply ends_lift.
    destruct (rolled_back_snapshot dones a r backs failed rest ActCompleted (Some r) _ _ _ _ Hres Hirr)
      as [->|(out & m & Hout & Hro & ->)]; [by constructor|]. split; [by constructor|by eauto]. }
  intros ? t'' (Ht'' & out & m & Hout & Hro & ->). eapply ends_bind.
  { apply valid_snapshot; [|done]. apply undo_snapshot_valid; [done..|by left]. }
  intros last'' t3 Ht3. apply (IH (mkJournalRecord a out (Some m) :: backs)); [|done..].
  split; [done|by constructor..|done|done].
Qed.

Lemma execute_valid (dones : receipts) rest last t :
  dones.*1 ++ rest = actions → Forall (λ d, public_text d.2) dones → snapshots_valid t →
  ends snapshots_valid
    (execute_records_durably (H := H * trace) (Failure := F) (seq (length dones) (length rest))
      (mkJournal JOURNAL_SCHEMA_VERSION (done_records dones ++ pending_records rest) None) last
      (completed_list dones))
    (λ _, snapshots_valid) t.
Proof.
  revert dones last t. induction rest as [|a rest IH]; intros dones last t Hact Hpub Ht.
  { by apply ends_ret. }
  change (pending_records (a :: rest)) with (mkJournalRecord a ActPending None :: pending_records rest).
  cbn [length seq execute_records_durably].
  eapply (ends_bind _ _ _ _ (λ record t', record = mkJournalRecord a ActPending None ∧ t' = t)).
  { apply ends_lift. by rewrite record_at_middle. }
  intros ? ? [-> ->]. cbn [jr_action]. rewrite set_record_middle. cbn [jr_action].
  eapply ends_bind.
  { apply valid_snapshot; [|done]. apply (running_valid actions dones [mkJournalRecord a ActExecuting None] rest); eauto. }
  intros last' t' Ht'. apply ends_known; [by constructor|]. intros h h' [receipt|failure|] Hres.
  - pose proof (execute_receipt _ HP _ _ _ _ Hres) as Hr. rewrite set_record_middle. cbn [jr_action].
    specialize (IH (dones ++ [(a, receipt)])). rewrite length_app, Nat.add_1_r, completed_list_snoc in IH.
    rewrite fmap_app, done_records_app, <-!app_assoc in IH.
    assert (Forall (λ d, public_text d.2) (dones ++ [(a, receipt)])) as Hpub' by (apply Forall_app; auto).
    eapply ends_bind; [apply valid_snapshot; [|by constructor]|by intros; apply IH].
    pose proof (running_valid actions (dones ++ [(a, receipt)]) [] rest) as Hv.
    unfold running in Hv. rewrite done_records_app, fmap_app, <-!app_assoc in Hv. apply Hv; auto.
  - pose proof (execute_failure _ HP _ _ _ _ Hres) as Hr. rewrite set_record_middle. cbn [jr_action].
    set (failed := mkJournalRecord a ActFailed (Some (failure_text failure))).
    assert (record_ok failed) as Hfok by by apply undo_record_ok.
    eapply ends_bind; [apply valid_snapshot; [|by constructor]|].
    + apply (stopped_valid actions (done_records dones) [] []); [done| | | |by left|done..].
      * by rewrite !app_nil_r, done_records_actions.
      * rewrite !app_nil_r. by apply done_records_ok.
      * rewrite app_nil_r. apply done_at_rest.
    + intros last'' t'' Ht''. by apply (rollback_valid dones [] failed rest).
  - apply ends_lift. by constructor.
Qed.

Lemma plan_snapshots_valid allow :
  ends (H := H) snapshots_valid (execute_plan_durably (Failure := F) actions allow) (λ _, snapshots_valid) [].
Proof.
  unfold execute_plan_durably. eapply (ends_bind _ _ _ _ (λ _ t', t' = [])).
  { apply ends_lift. destruct (validate_plan actions); [done|constructor..]. }
  intros _ ? ->. destruct (first_unconfirmed_irreversible _ allow) as [index|].
  - eapply (ends_bind _ _ _ _ (λ record t', t' = [] ∧
      record_at (E := list PlanProblem) (pending_journal actions) index = Ok record)).
    { apply ends_lift. unfold record_at. destruct (_ !! _); [done|constructor]. }
    intros record ? [-> Hrec]. eapply ends_bind; [apply valid_snapshot; [by apply skip_valid|constructor]|].
    intros ? t Ht. by apply ends_ret.
  - eapply ends_bind.
    { apply valid_snapshot; [|constructor]. by apply (running_valid actions [] [] actions); auto. }
    intros last t Ht.
    assert (length (ej_records (pending_journal actions)) = length actions) as -> by apply length_fmap.
    by apply (execute_valid [] actions).
Qed.

(** (C28) A plan that a document can hold, executed by an executor whose texts are
    public: whatever else happens, every journal that is handed to a snapshot
    passes the validation of the document. *)
Theorem snapshots_are_valid allow h journal :
  let t := (execute_plan_durably (H := H * trace) (Failure := F) actions allow (h, [])).1.2 in
  EvSaved journal ∈ t ∨ EvTried journal ∈ t → validate_execution_journal journal = Ok ().
Proof.
  pose proof (plan_snapshots_valid allow h) as He. cbv zeta.
  assert (snapshots_valid (execute_plan_durably (H := H * trace) (Failure := F) actions allow (h, [])).1.2) as Hv.
  { by destruct (execute_plan_durably actions allow (h, [])) as [[h' t'] [[| |]|]]. }
  intros [Hin|Hin]; exact (proj1 (Forall_forall _ _) Hv _ Hin).
Qed.
End runs.
