(* ===== verification/LaneCommands.v ===== *)
(** * Commands of the lanes

    [src/src/lane_command.rs] (the commands that may be built),
    [src/src/lane_executor.rs] (what is checked again before one runs) and
    [src/src/lane_executable.rs] (what is checked of an executable).  A path is
    the text of its UTF-8 bytes; paths are compared as [Path] compares them, by
    their components. *)

From stdpp Require Import pretty.
From S2P Require Import Prelude Artifact ExecutionAdmission ScaleSetProtocol FileSystem WorkerCommands LaneJournal JournalDocument.

Local Open Scope N_scope.

(** ** Paths *)

Inductive Component :=
| RootDir
| CurDir
| ParentDir
| Normal (name : string).

#[export] Instance component_eq_dec : EqDecision Component.
Proof. solve_decision. Defined.

(** [Path::components] on Unix: doubled separators and [.] are dropped, except
    for a [.] that begins a relative path. *)
Definition name_component (name : string) : list Component :=
  if str_is_empty name || String.eqb name "." then []
  else if String.eqb name ".." then [ParentDir]
  else [Normal name].

Definition path_components (value : string) : list Component :=
  let names := str_split "/"%char value in
  (if starts_with "/"%char value then [RootDir]
   else match names with
        | name :: _ => if String.eqb name "." then [CurDir] else []
        | [] => []
        end)
  ++ concat (name_component <$> names).

Definition path_eq (a b : string) : bool := bool_decide (path_components a = path_components b).

Definition is_root_or_normal (component : Component) : bool :=
  match component with
  | RootDir | Normal _ => true
  | _ => false
  end.

(** [canonical_absolute_path] of [lane_executor.rs]. *)
Definition canonical_absolute_path (value : string) : bool :=
  negb (str_is_empty value) && (str_len value <=? 4096) && negb (ends_with "/"%char value)
  && negb (has_control value) && starts_with "/"%char value
  && forallb is_root_or_normal (path_components value).

(** ** Names *)

Definition APT_GET : string := "/usr/bin/apt-get".
Definition GROUPADD : string := "/usr/sbin/groupadd".
Definition USERADD : string := "/usr/sbin/useradd".
Definition USERMOD : string := "/usr/sbin/usermod".
Definition INSTALL : string := "/usr/bin/install".
Definition LOGINCTL : string := "/usr/bin/loginctl".
Definition RUNUSER : string := "/usr/sbin/runuser".
Definition PODMAN : string := "/usr/bin/podman".
Definition GIT : string := "/usr/bin/git".
Definition NOLOGIN : string := "/usr/sbin/nologin".
Definition MIN_SUBORDINATE_ID_COUNT : N := 65536.

Inductive LaneCommandError :=
| LcPackageName
| LcAccountName
| LcZeroIdentity
| LcPathNotCanonical
| LcPathAlias
| LcLane (id : string) (assigned expected : ExecutionLane)
| LcNoPackage
| LcRangeStart
| LcRangeEnd
| LcNoEnvironmentProgram.

Definition PackageName_parse (value : string) : result LaneCommandError string :=
  if str_is_empty value || (100 <? str_len value) || starts_with "-"%char value
     || negb (bytes_all (λ byte, is_ascii_lowercase byte || is_ascii_digit byte
          || Ascii.eqb byte "+"%char || Ascii.eqb byte "."%char || Ascii.eqb byte "-"%char) value)
  then Err LcPackageName else Ok value.

Definition LinuxAccountName_parse (value : string) : result LaneCommandError string :=
  let first_valid :=
    match value with
    | EmptyString => false
    | String byte _ => is_ascii_lowercase byte || Ascii.eqb byte "_"%char
    end in
  let rest_valid :=
    match value with
    | EmptyString => true
    | String _ rest =>
        bytes_all (λ byte, is_ascii_lowercase byte || is_ascii_digit byte
          || Ascii.eqb byte "_"%char || Ascii.eqb byte "-"%char) rest
    end in
  if negb first_valid || (32 <? str_len value) || negb rest_valid then Err LcAccountName else Ok value.

(** [canonical_absolute_path] of [lane_command.rs]; its errors differ, its tests
    are those of the executor. *)
Definition command_path (value : string) : result LaneCommandError string :=
  if str_is_empty value || (4096 <? str_len value) || ends_with "/"%char value || has_control value
  then Err LcPathNotCanonical
  else if negb (starts_with "/"%char value)
          || existsb (λ component, negb (is_root_or_normal component)) (path_components value)
  then Err LcPathAlias
  else Ok value.

Record RunnerUserContext := mkRunnerContext {
  rc_username : string;
  rc_uid : N;
  rc_primary_gid : N;
  rc_home : string;
  rc_runtime_directory : string;
}.

Definition runtime_directory_of (uid : N) : string := ("/run/user/" +:+ pretty uid)%string.

Definition RunnerUserContext_new (username : string) (uid primary_gid : N) (home : string)
    : result LaneCommandError RunnerUserContext :=
  if (uid =? 0) || (primary_gid =? 0) then Err LcZeroIdentity
  else
    home ← command_path home;
    Ok (mkRunnerContext username uid primary_gid home (runtime_directory_of uid)).

(** ** Commands *)

Inductive LaneCommandKind :=
| AptInstall
| EnsureSystemGroup
| EnsureSystemUser
| EnsureHomeDirectory
| EnsureSubordinateUids
| EnsureSubordinateGids
| EnableLinger
| RunnerPodmanInfo
| RunnerPodmanMigrate
| RunnerGitVersion.

Record LaneCommand := mkLaneCommand {
  lc_action_id : string;
  lc_lane : ExecutionLane;
  lc_kind : LaneCommandKind;
  lc_spec : CommandSpec;
}.

Definition LaneCommand_new (action : PlannedMutation) (kind : LaneCommandKind) (spec : CommandSpec) : LaneCommand :=
  mkLaneCommand (pm_id action) (pm_lane action) kind spec.

Definition require_action_lane (action : PlannedMutation) (expected : ExecutionLane)
    : result LaneCommandError () :=
  if bool_decide (pm_lane action = expected) then Ok ()
  else Err (LcLane (pm_id action) (pm_lane action) expected).

Definition apt_install (action : PlannedMutation) (packages : list string) : result LaneCommandError LaneCommand :=
  _ ← require_action_lane action LaneRoot;
  if bool_decide (packages = []) then Err LcNoPackage
  else Ok (LaneCommand_new action AptInstall
         (with_arguments packages
           (with_arguments ["install"; "--yes"; "--no-install-recommends"]%string (CommandSpec_new APT_GET)))).

Definition ensure_system_group (action : PlannedMutation) (group : string) : result LaneCommandError LaneCommand :=
  _ ← require_action_lane action LaneRoot;
  Ok (LaneCommand_new action EnsureSystemGroup
       (with_arguments ["--system"%string; group] (CommandSpec_new GROUPADD))).

Definition ensure_system_user (action : PlannedMutation) (user primary_group home : string)
    : result LaneCommandError LaneCommand :=
  _ ← require_action_lane action LaneRoot;
  home ← command_path home;
  Ok (LaneCommand_new action EnsureSystemUser
       (with_arguments ["--system"%string; "--gid"%string; primary_group; "--home-dir"%string; home;
                        "--shell"%string; NOLOGIN; "--no-create-home"%string; user] (CommandSpec_new USERADD))).

Definition ensure_home_directory (action : PlannedMutation) (user primary_group home : string)
    : result LaneCommandError LaneCommand :=
  _ ← require_action_lane action LaneRoot;
  home ← command_path home;
  Ok (LaneCommand_new action EnsureHomeDirectory
       (with_arguments ["--directory"%string; "--mode"%string; "0750"%string; "--owner"%string; user;
                        "--group"%string; primary_group; "--"%string; home] (CommandSpec_new INSTALL))).

(** [start] and [count] are [u32]. *)
Definition subordinate_range_argument (start count : N) : result LaneCommandError string :=
  if (start =? 0) || (count <? MIN_SUBORDINATE_ID_COUNT) then Err LcRangeStart
  else
    end_ ← ok_or (try_from_int u32_max (start + count - 1)) LcRangeEnd;
    Ok (pretty start +:+ "-" +:+ pretty end_)%string.

Definition ensure_subordinate_uids (action : PlannedMutation) (user : string) (start count : N)
    : result LaneCommandError LaneCommand :=
  _ ← require_action_lane action LaneRoot;
  range ← subordinate_range_argument start count;
  Ok (LaneCommand_new action EnsureSubordinateUids
       (with_arguments ["--add-subuids"%string; range; "--"%string; user] (CommandSpec_new USERMOD))).

Definition ensure_subordinate_gids (action : PlannedMutation) (user : string) (start count : N)
    : result LaneCommandError LaneCommand :=
  _ ← require_action_lane action LaneRoot;
  range ← subordinate_range_argument start count;
  Ok (LaneCommand_new action EnsureSubordinateGids
       (with_arguments ["--add-subgids"%string; range; "--"%string; user] (CommandSpec_new USERMOD))).

Definition enable_linger (action : PlannedMutation) (user : string) : result LaneCommandError LaneCommand :=
  _ ← require_action_lane action LaneRoot;
  Ok (LaneCommand_new action EnableLinger
       (with_arguments ["enable-linger"%string; user] (CommandSpec_new LOGINCTL))).

(** ** Executables *)

Definition CLASSIC_ENV_PATH : string := "/usr/bin/env".
Definition UBUNTU_RUST_COREUTILS_ENV_PATH : string := "/usr/lib/cargo/bin/coreutils/env".

Definition is_supported_environment_executable_path (path : string) : bool :=
  path_eq path CLASSIC_ENV_PATH || path_eq path UBUNTU_RUST_COREUTILS_ENV_PATH.

Inductive ExecutableVerificationErrorKind :=
| ExMissing
| ExSymlink
| ExNonRegularFile
| ExWrongOwner
| ExWritableByNonOwner
| ExNotExecutable
| ExMetadata.

Record ExecutableVerificationError := mkExecutableError {
  xe_kind : ExecutableVerificationErrorKind;
  xe_message : string;
}.

Record VerifiedExecutable := mkVerifiedExecutable {
  ve_path : string;
  ve_mode : N;
}.

Inductive ObservedObjectKind := ObservedRegularFile | ObservedSymlink | ObservedOther.

Definition verify_observation (path : string) (object_kind : ObservedObjectKind) (owner_uid mode : N)
    : result ExecutableVerificationError VerifiedExecutable :=
  match object_kind with
  | ObservedSymlink =>
      Err (mkExecutableError ExSymlink ("reviewed executable is a symlink: " +:+ path)%string)
  | ObservedOther =>
      Err (mkExecutableError ExNonRegularFile ("reviewed executable is not a regular file: " +:+ path)%string)
  | ObservedRegularFile =>
      if negb (owner_uid =? 0)
      then Err (mkExecutableError ExWrongOwner ("reviewed executable is not owned by root: " +:+ path)%string)
      else if negb (N.land mode 18 =? 0)
      then Err (mkExecutableError ExWritableByNonOwner
             ("reviewed executable is writable by group or others: " +:+ path)%string)
      else if N.land mode 73 =? 0
      then Err (mkExecutableError ExNotExecutable ("reviewed executable lacks execute bits: " +:+ path)%string)
      else Ok (mkVerifiedExecutable path mode)
  end.

(** The kind, owner and mode that [fs::symlink_metadata] reports, or why not. *)
Inductive SymlinkMetadata :=
| MetadataFound (object_kind : ObservedObjectKind) (owner_uid mode : N)
| MetadataNotFound
| MetadataFailed.

(** What is made of the answer for an absolute path. *)
Definition verify_metadata (path : string) (metadata : SymlinkMetadata)
    : result ExecutableVerificationError VerifiedExecutable :=
  match metadata with
  | MetadataNotFound =>
      Err (mkExecutableError ExMissing ("reviewed executable does not exist: " +:+ path)%string)
  | MetadataFailed =>
      Err (mkExecutableError ExMetadata ("could not inspect reviewed executable: " +:+ path)%string)
  | MetadataFound object_kind owner_uid mode =>
      verify_observation path object_kind owner_uid (N.land mode 4095)
  end.

(** The host of the lanes: [fs::symlink_metadata], and the traits
    [CommandExecutor] and [PrivilegeProbe]. *)
Class LaneHost (H : Type) := {
  symlink_metadata : string → prog H () SymlinkMetadata;
  run_process : CommandSpec → prog H () ExecutionRecord;
  effective_uid : prog H () N;
}.

Definition verify_executable {H} `{!LaneHost H} (path : string)
    : prog H ExecutableVerificationError VerifiedExecutable :=
  if negb (starts_with "/"%char path)
  then lift (Err (mkExecutableError ExMetadata "reviewed executable path is not absolute"))
  else
    metadata ← failing (λ _, mkExecutableError ExMetadata ("could not inspect reviewed executable: " +:+ path)%string)
      (symlink_metadata path);
    lift (verify_metadata path metadata).

Definition resolve_reviewed_environment_executable {H} `{!LaneHost H} : prog H LaneCommandError string :=
  catch (verify_executable CLASSIC_ENV_PATH) (λ r,
    match r with
    | Ok executable => mret (ve_path executable)
    | Err error =>
        match xe_kind error with
        | ExMissing | ExSymlink =>
            executable ← failing (λ _, LcNoEnvironmentProgram) (verify_executable UBUNTU_RUST_COREUTILS_ENV_PATH);
            mret (ve_path executable)
        | _ => lift (Err LcNoEnvironmentProgram)
        end
    | Panic => lift Panic
    end).

(** ** Commands of the runner user *)

(** What follows [runuser] in the commands of the runner user. *)
Definition runner_boundary (username environment_program home runtime_directory inner_program : string)
    : list string :=
  ["--user"%string; username; "--"%string; environment_program; "--ignore-environment"%string;
   ("HOME=" +:+ home)%string; ("USER=" +:+ username)%string; ("LOGNAME=" +:+ username)%string;
   ("XDG_RUNTIME_DIR=" +:+ runtime_directory)%string; inner_program].

Definition runner_user_spec (runner : RunnerUserContext) (environment_program inner_program : string)
    (arguments : list string) : CommandSpec :=
  with_arguments arguments
    (with_arguments
      (runner_boundary (rc_username runner) environment_program (rc_home runner)
        (rc_runtime_directory runner) inner_program)
      (CommandSpec_new RUNUSER)).

Definition runner_command (kind : LaneCommandKind) (program : string) (arguments : list string)
    {H} `{!LaneHost H} (action : PlannedMutation) (runner : RunnerUserContext)
    : prog H LaneCommandError LaneCommand :=
  _ ← lift (require_action_lane action LaneRunnerUser);
  environment_program ← resolve_reviewed_environment_executable;
  mret (LaneCommand_new action kind (runner_user_spec runner environment_program program arguments)).

Definition PODMAN_INFO : list string := ["info"; "--format"; "json"]%string.
Definition PODMAN_MIGRATE : list string := ["system"; "migrate"]%string.
Definition GIT_VERSION : list string := ["--version"%string].

Definition runner_podman_info {H} `{!LaneHost H} := runner_command RunnerPodmanInfo PODMAN PODMAN_INFO (H := H).
Definition runner_podman_migrate {H} `{!LaneHost H} :=
  runner_command RunnerPodmanMigrate PODMAN PODMAN_MIGRATE (H := H).
Definition runner_git_version {H} `{!LaneHost H} := runner_command RunnerGitVersion GIT GIT_VERSION (H := H).

Definition runner_environment_program (self : LaneCommand) : option string :=
  match cs_arguments (lc_spec self) !! 3%nat with
  | Some (Plain path) => if is_supported_environment_executable_path path then Some path else None
  | _ => None
  end.

(** The programs a command needs; the [expect] of the source is the panic. *)
Definition required_programs (self : LaneCommand) : result () (list string) :=
  let outer := cs_program (lc_spec self) in
  match lc_kind self with
  | RunnerPodmanInfo | RunnerPodmanMigrate =>
      environment_program ← expect (runner_environment_program self);
      Ok [outer; environment_program; PODMAN]
  | RunnerGitVersion =>
      environment_program ← expect (runner_environment_program self);
      Ok [outer; environment_program; GIT]
  | EnsureSystemUser => Ok [outer; NOLOGIN]
  | _ => Ok [outer]
  end.

(** ** Numbers in arguments *)

Fixpoint digits_value (acc : N) (s : string) : option N :=
  match s with
  | EmptyString => Some acc
  | String byte s =>
      if is_ascii_digit byte then digits_value (acc * 10 + (N_of_ascii byte - 48)) s else None
  end.

(** [value.parse::<u32>().ok()]: digits after at most one plus sign. *)
Definition parse_u32 (value : string) : option N :=
  let digits :=
    match value with
    | String byte rest => if Ascii.eqb byte "+"%char then rest else value
    | EmptyString => value
    end in
  if str_is_empty digits then None
  else parsed ← digits_value 0 digits; try_from_int u32_max parsed.

Definition canonical_u32 (value : string) : option N :=
  parsed ← parse_u32 value;
  if String.eqb (pretty parsed) value then Some parsed else None.

(** [value.split_once(c)]. *)
Fixpoint split_once (c : ascii) (s : string) : option (string * string) :=
  match s with
  | EmptyString => None
  | String a rest =>
      if Ascii.eqb a c then Some (EmptyString, rest)
      else '(l, r) ← split_once c rest; Some (String a l, r)
  end.

Definition valid_subordinate_range (value : string) : bool :=
  match split_once "-"%char value with
  | None => false
  | Some (start, end_) =>
      match canonical_u32 start, canonical_u32 end_ with
      | Some start, Some end_ =>
          (0 <? start) && (start <=? end_) && (MIN_SUBORDINATE_ID_COUNT <=? end_ - start + 1)
      | _, _ => false
      end
  end.

(** ** What the executor checks *)

Inductive LaneExecutionErrorKind :=
| LeLaneMismatch
| LeInvalidCommand
| LeInvalidRunnerEvidence
| LeUnsupportedPrivilege
| LeExecutableVerification
| LeProcess.

Record LaneExecutionError := mkLaneError {
  le_kind : LaneExecutionErrorKind;
  le_message : string;
}.

Definition invalid_command := mkLaneError LeInvalidCommand.

Definition plain_arguments (spec : CommandSpec) : result LaneExecutionError (list string) :=
  traverse (λ value,
    match value with
    | Plain value => Ok value
    | Secret _ => Err (invalid_command "lane commands cannot contain secret or opaque argv values")
    end) (cs_arguments spec).

Definition parses {E} (parse : string → result E string) (value : string) : bool := is_ok (parse value).

(** The argument at a position passes a test; comparisons of the source come
    after the test of the length. *)
Definition argument_is (arguments : list string) (index : nat) (test : string → bool) : bool :=
  is_some_and test (arguments !! index).

Definition reviewed (valid : bool) (message : string) : result LaneExecutionError () :=
  if valid then Ok () else Err (invalid_command message).

Definition validate_apt (spec : CommandSpec) (arguments : list string) : result LaneExecutionError () :=
  reviewed
    (path_eq (cs_program spec) APT_GET && bool_decide (4 ≤ length arguments)%nat
     && bool_decide (take 3 arguments = ["install"; "--yes"; "--no-install-recommends"]%string)
     && forallb (parses PackageName_parse) (drop 3 arguments))
    "apt command shape is not reviewed".

Definition validate_groupadd (spec : CommandSpec) (arguments : list string) : result LaneExecutionError () :=
  reviewed
    (path_eq (cs_program spec) GROUPADD && bool_decide (length arguments = 2%nat)
     && argument_is arguments 0 (String.eqb "--system")
     && argument_is arguments 1 (parses LinuxAccountName_parse))
    "group creation command shape is not reviewed".

Definition validate_useradd (spec : CommandSpec) (arguments : list string) : result LaneExecutionError () :=
  reviewed
    (path_eq (cs_program spec) USERADD && bool_decide (length arguments = 9%nat)
     && argument_is arguments 0 (String.eqb "--system")
     && argument_is arguments 1 (String.eqb "--gid")
     && argument_is arguments 2 (parses LinuxAccountName_parse)
     && argument_is arguments 3 (String.eqb "--home-dir")
     && argument_is arguments 4 canonical_absolute_path
     && argument_is arguments 5 (String.eqb "--shell")
     && argument_is arguments 6 (String.eqb NOLOGIN)
     && argument_is arguments 7 (String.eqb "--no-create-home")
     && argument_is arguments 8 (parses LinuxAccountName_parse))
    "user creation command shape is not reviewed".

Definition validate_install (spec : CommandSpec) (arguments : list string) : result LaneExecutionError () :=
  reviewed
    (path_eq (cs_program spec) INSTALL && bool_decide (length arguments = 9%nat)
     && argument_is arguments 0 (String.eqb "--directory")
     && argument_is arguments 1 (String.eqb "--mode")
     && argument_is arguments 2 (String.eqb "0750")
     && argument_is arguments 3 (String.eqb "--owner")
     && argument_is arguments 4 (parses LinuxAccountName_parse)
     && argument_is arguments 5 (String.eqb "--group")
     && argument_is arguments 6 (parses LinuxAccountName_parse)
     && argument_is arguments 7 (String.eqb "--")
     && argument_is arguments 8 canonical_absolute_path)
    "runner home-directory command shape is not reviewed".

Definition validate_usermod (spec : CommandSpec) (arguments : list string) (expected_option : string)
    : result LaneExecutionError () :=
  reviewed
    (path_eq (cs_program spec) USERMOD && bool_decide (length arguments = 4%nat)
     && argument_is arguments 0 (String.eqb expected_option)
     && argument_is arguments 1 valid_subordinate_range
     && argument_is arguments 2 (String.eqb "--")
     && argument_is arguments 3 (parses LinuxAccountName_parse))
    "subordinate-ID command shape is not reviewed".

Definition validate_loginctl (spec : CommandSpec) (arguments : list string) : result LaneExecutionError () :=
  reviewed
    (path_eq (cs_program spec) LOGINCTL && bool_decide (length arguments = 2%nat)
     && argument_is arguments 0 (String.eqb "enable-linger")
     && argument_is arguments 1 (parses LinuxAccountName_parse))
    "linger command shape is not reviewed".

Definition validate_root_command (command : LaneCommand) : result LaneExecutionError () :=
  let spec := lc_spec command in
  if negb (bool_decide (cs_environment spec = []))
  then Err (invalid_command "root-lane commands must have an empty child environment")
  else
    arguments ← plain_arguments spec;
    match lc_kind command with
    | AptInstall => validate_apt spec arguments
    | EnsureSystemGroup => validate_groupadd spec arguments
    | EnsureSystemUser => validate_useradd spec arguments
    | EnsureHomeDirectory => validate_install spec arguments
    | EnsureSubordinateUids => validate_usermod spec arguments "--add-subuids"
    | EnsureSubordinateGids => validate_usermod spec arguments "--add-subgids"
    | EnableLinger => validate_loginctl spec arguments
    | _ => Err (invalid_command "runner-user command kind cannot execute in the root lane")
    end.

(** [VerifiedRunnerUser], the one [RunnerEvidence]. *)
Record VerifiedRunnerUser := mkVerifiedRunner {
  vr_username : string;
  vr_uid : N;
  vr_primary_gid : N;
  vr_home : string;
  vr_runtime_directory : string;
  vr_subordinate_uid_count : N;
  vr_subordinate_gid_count : N;
}.

Definition validate_runner_evidence (runner : VerifiedRunnerUser) : result LaneExecutionError () :=
  if (vr_uid runner =? 0) || (vr_primary_gid runner =? 0)
     || (vr_subordinate_uid_count runner <? MIN_SUBORDINATE_ID_COUNT)
     || (vr_subordinate_gid_count runner <? MIN_SUBORDINATE_ID_COUNT)
     || negb (canonical_absolute_path (vr_home runner))
     || negb (path_eq (vr_runtime_directory runner) (runtime_directory_of (vr_uid runner)))
  then Err (mkLaneError LeInvalidRunnerEvidence "runner-user evidence is incomplete or unsafe")
  else Ok ().

Definition inner_command (kind : LaneCommandKind) : option (string * list string) :=
  match kind with
  | RunnerPodmanInfo => Some (PODMAN, PODMAN_INFO)
  | RunnerPodmanMigrate => Some (PODMAN, PODMAN_MIGRATE)
  | RunnerGitVersion => Some (GIT, GIT_VERSION)
  | _ => None
  end.

Definition validate_runner_command (command : LaneCommand) (runner : VerifiedRunnerUser)
    : result LaneExecutionError () :=
  let spec := lc_spec command in
  if negb (bool_decide (cs_environment spec = [])) || negb (path_eq (cs_program spec) RUNUSER)
  then Err (invalid_command "runner-user command outer boundary is not reviewed")
  else
    '(inner_program, inner_arguments) ← ok_or (inner_command (lc_kind command))
      (invalid_command "root command kind cannot execute in the runner-user lane");
    environment_program ← ok_or (runner_environment_program command)
      (invalid_command "runner-user command lacks a reviewed environment program");
    let expected :=
      runner_boundary (vr_username runner) environment_program (vr_home runner)
        (vr_runtime_directory runner) inner_program ++ inner_arguments in
    arguments ← plain_arguments spec;
    if bool_decide (arguments = expected) then Ok ()
    else Err (invalid_command
           "runner-user command argv or environment boundary differs from verified evidence").

(** ** Execution *)

Record LaneExecutionRecord := mkLaneRecord {
  lr_action_id : string;
  lr_lane : ExecutionLane;
  lr_kind : LaneCommandKind;
  lr_process : ExecutionRecord;
}.

Section execution.
Context {H : Type} `{!LaneHost H}.

(** The message of the source also names the action and the lanes. *)
Definition require_lane (command : LaneCommand) (expected : ExecutionLane) : result LaneExecutionError () :=
  if bool_decide (lc_lane command = expected) then Ok ()
  else Err (mkLaneError LeLaneMismatch "action is assigned to a lane this executor does not accept").

Definition require_effective_root : prog H LaneExecutionError () :=
  uid ← failing (λ _, mkLaneError LeUnsupportedPrivilege
    "could not verify effective Linux privilege; no mutation was attempted") effective_uid;
  if uid =? 0 then mret ()
  else lift (Err (mkLaneError LeUnsupportedPrivilege
    "mutating lane execution requires effective UID 0; rerun through explicit elevation such as sudo smolrunner apply")).

(** [verify_lane_command]: every program of the command, in turn. *)
Fixpoint verify_programs (programs : list string) : prog H ExecutableVerificationError () :=
  match programs with
  | [] => mret ()
  | path :: programs => _ ← verify_executable path; verify_programs programs
  end.

Definition verify_lane_command (command : LaneCommand) : prog H LaneExecutionError () :=
  programs ← lift (expect (ok (required_programs command)));
  failing (λ error, mkLaneError LeExecutableVerification (xe_message error)) (verify_programs programs).

Definition execute_bounded (command : LaneCommand) : prog H LaneExecutionError LaneExecutionRecord :=
  record ← failing (λ _, mkLaneError LeProcess
    "reviewed lane process did not produce a complete bounded record; host state may have changed and must be re-observed before retry")
    (run_process (lc_spec command));
  mret (mkLaneRecord (lc_action_id command) (lc_lane command) (lc_kind command) record).

Definition execute_root_lane (command : LaneCommand) : prog H LaneExecutionError LaneExecutionRecord :=
  _ ← lift (require_lane command LaneRoot);
  _ ← lift (validate_root_command command);
  _ ← require_effective_root;
  _ ← verify_lane_command command;
  execute_bounded command.

Definition execute_runner_user_lane (command : LaneCommand) (runner : VerifiedRunnerUser)
    : prog H LaneExecutionError LaneExecutionRecord :=
  _ ← lift (require_lane command LaneRunnerUser);
  _ ← lift (validate_runner_evidence runner);
  _ ← lift (validate_runner_command command runner);
  _ ← require_effective_root;
  _ ← verify_lane_command command;
  execute_bounded command.
End execution.
