(* ===== verification/LaneTheorems.v ===== *)
(** * Every command that can be built is one that will be executed

    The constructors of [lane_command.rs] against the checks that
    [lane_executor.rs] makes again before a command runs: what is built passes,
    and a runner's command passes against the evidence it was built from. *)

From stdpp Require Import pretty.
From S2P Require Import Prelude Artifact ExecutionAdmission ScaleSetProtocol FileSystem WorkerCommands LaneJournal JournalDocument LaneCommands.

Local Open Scope N_scope.

(** ** Decimal texts *)

Lemma pretty_digit x : x < 10 →
  is_ascii_digit (pretty_N_char x) = true ∧ N_of_ascii (pretty_N_char x) - 48 = x.
Proof.
  intros Hx. assert (x = 0 ∨ x = 1 ∨ x = 2 ∨ x = 3 ∨ x = 4 ∨ x = 5 ∨ x = 6 ∨ x = 7 ∨ x = 8 ∨ x = 9) by lia.
  naive_solver.
Qed.

Lemma digits_pretty_go x s : digits_value 0 (pretty_N_go x s) = digits_value x s.
Proof.
  revert s. induction (N.lt_wf_0 x) as [x _ IH]; intros s.
  assert (x = 0 ∨ 0 < x) as [->|Hx] by lia; [by rewrite pretty_N_go_0|].
  rewrite pretty_N_go_step by done. rewrite IH by (by apply N.div_lt). simpl.
  destruct (pretty_digit (x `mod` 10)) as [Hd Hv]; [by apply N.mod_lt|]. rewrite Hd, Hv. f_equal.
  pose proof (N.div_mod x 10). lia.
Qed.

Lemma all_digits_go x s : bytes_all is_ascii_digit s = true → bytes_all is_ascii_digit (pretty_N_go x s) = true.
Proof.
  revert s. induction (N.lt_wf_0 x) as [x _ IH]; intros s Hs.
  assert (x = 0 ∨ 0 < x) as [->|Hx] by lia; [by rewrite pretty_N_go_0|].
  rewrite pretty_N_go_step by done. apply IH; [by apply N.div_lt|]. simpl.
  by rewrite (proj1 (pretty_digit (x `mod` 10) (N.mod_lt x 10 ltac:(done)))), Hs.
Qed.

Lemma pretty_digits (x : N) : bytes_all is_ascii_digit (pretty x) = true.
Proof. unfold pretty, pretty_N. case_decide; [done|]. by apply all_digits_go. Qed.

Lemma pretty_not_empty (x : N) : pretty x ≠ EmptyString.
Proof.
  intros Hx. unfold pretty, pretty_N in Hx. case_decide as H0; [done|].
  pose proof (digits_pretty_go x EmptyString) as Hd. rewrite Hx in Hd. simpl in Hd. congruence.
Qed.

Lemma digits_pretty (x : N) : digits_value 0 (pretty x) = Some x.
Proof. unfold pretty, pretty_N. case_decide; [by subst|]. by rewrite digits_pretty_go. Qed.

(** A number that fits is its text's canonical value. *)
Lemma canonical_pretty (x : N) : x ≤ u32_max → canonical_u32 (pretty x) = Some x.
Proof.
  intros Hx. unfold canonical_u32, parse_u32. pose proof (digits_pretty x) as Hv.
  pose proof (pretty_digits x) as Hd. pose proof (pretty_not_empty x) as Hne.
  assert (match pretty x with
          | EmptyString => pretty x
          | String byte rest => if Ascii.eqb byte "+" then rest else pretty x
          end = pretty x) as ->.
  { destruct (pretty x) as [|byte rest]; [done|]. simpl in Hd. apply andb_true_iff in Hd as [Hd _].
    destruct (Ascii.eqb_spec byte "+"%char) as [->|]; done. }
  rewrite (proj2 (str_is_empty_false _) Hne), Hv. simpl. unfold try_from_int.
  rewrite (proj2 (N.leb_le _ _) Hx). simpl. by rewrite String.eqb_refl.
Qed.

Lemma split_once_digits c s t :
  bytes_all is_ascii_digit s = true → is_ascii_digit c = false →
  split_once c (s +:+ String c t) = Some (s, t).
Proof.
  intros Hs Hc. induction s as [|a s IH]; simpl in *; [by rewrite Ascii.eqb_refl|].
  apply andb_true_iff in Hs as [Ha Hs]. destruct (Ascii.eqb_spec a c) as [->|]; [congruence|].
  by rewrite IH.
Qed.

(** The range that a command carries is one that the executor accepts. *)
Lemma range_argument_valid start count range :
  subordinate_range_argument start count = Ok range → valid_subordinate_range range = true.
Proof.
  unfold subordinate_range_argument. intros Hr. inv_ok Hr. inv_opts. bprop. simplify_eq.
  unfold try_from_int in *. case_match; bprop; simplify_eq.
  unfold valid_subordinate_range. set (last := start + count - 1) in *.
  change ("-" +:+ pretty last)%string with (String "-"%char (pretty last)).
  rewrite split_once_digits by (try apply pretty_digits; done). subst last.
  rewrite !canonical_pretty by (unfold MIN_SUBORDINATE_ID_COUNT in *; lia).
  unfold MIN_SUBORDINATE_ID_COUNT in *. rewrite !andb_true_iff, N.ltb_lt, !N.leb_le. lia.
Qed.

Lemma range_argument_exact start count :
  start ≤ u32_max → count ≤ u32_max →
  is_ok (subordinate_range_argument start count) = true ↔
  0 < start ∧ MIN_SUBORDINATE_ID_COUNT ≤ count ∧ start + count ≤ u32_max + 1.
Proof.
  intros Hs Hc. unfold subordinate_range_argument, try_from_int, MIN_SUBORDINATE_ID_COUNT.
  repeat case_match; rsimpl; bprop; simpl in *; simplify_eq; rsimpl; try (split; [done|]); try lia;
    (split; [intros _|done]); lia.
Qed.

(** ** Parts of a command *)

#[local] Arguments with_arguments : simpl never.
#[local] Arguments foldl : simpl never.

Lemma with_arguments_spec values spec :
  with_arguments values spec =
  mkCommand (cs_program spec) (cs_arguments spec ++ (Plain <$> values)) (cs_environment spec) (cs_secret_stdin spec).
Proof.
  revert spec. induction values as [|value values IH]; intros [p a e s].
  { by rewrite app_nil_r. }
  change (with_arguments values (argument value (mkCommand p a e s)) = mkCommand p (a ++ (Plain <$> value :: values)) e s).
  rewrite IH. unfold argument. simpl. by rewrite <-app_assoc.
Qed.

Lemma with_arguments_app values values' spec :
  with_arguments values' (with_arguments values spec) = with_arguments (values ++ values') spec.
Proof. rewrite !with_arguments_spec, fmap_app. simpl. by rewrite app_assoc. Qed.

Lemma plain_arguments_plain program values env secret :
  plain_arguments (mkCommand program (Plain <$> values) env secret) = Ok values.
Proof.
  unfold plain_arguments. cbn [cs_arguments]. apply traverse_Ok.
  induction values as [|v values IH]; constructor; [done|exact IH].
Qed.

Lemma command_path_Ok value path :
  command_path value = Ok path → path = value ∧ canonical_absolute_path value = true.
Proof.
  unfold command_path, canonical_absolute_path. intros Hp. inv_ok Hp. bprop. simplify_eq. split; [done|].
  rewrite !andb_true_iff, !negb_true_iff, N.leb_le. split_and!; try done.
  apply forallb_forall. intros c Hc%list_elem_of_In.
  match goal with H : existsb _ _ = false |- _ => pose proof (proj1 (existsb_false _ _) H c Hc) as Hx end.
  by apply negb_false_iff in Hx.
Qed.

Lemma accepted_parses {E} (parse : string → result E string) value :
  accepted parse value → parses parse value = true.
Proof. unfold accepted, parses. by intros ->. Qed.

Lemma path_eq_refl p : path_eq p p = true.
Proof. by apply bool_decide_eq_true. Qed.

Create HintDb lanes discriminated.
#[export] Hint Resolve accepted_parses path_eq_refl range_argument_valid : lanes.

(** The commands of the root lane that the constructors build, from names that
    their parsers accepted. *)
Inductive built_for_root : LaneCommand → Prop :=
| built_apt action packages command :
    Forall (accepted PackageName_parse) packages →
    apt_install action packages = Ok command → built_for_root command
| built_group action group command :
    accepted LinuxAccountName_parse group →
    ensure_system_group action group = Ok command → built_for_root command
| built_user action user group home command :
    accepted LinuxAccountName_parse user → accepted LinuxAccountName_parse group →
    ensure_system_user action user group home = Ok command → built_for_root command
| built_home action user group home command :
    accepted LinuxAccountName_parse user → accepted LinuxAccountName_parse group →
    ensure_home_directory action user group home = Ok command → built_for_root command
| built_subuids action user start count command :
    accepted LinuxAccountName_parse user →
    ensure_subordinate_uids action user start count = Ok command → built_for_root command
| built_subgids action user start count command :
    accepted LinuxAccountName_parse user →
    ensure_subordinate_gids action user start count = Ok command → built_for_root command
| built_linger action user command :
    accepted LinuxAccountName_parse user →
    enable_linger action user = Ok command → built_for_root command.

Lemma require_action_lane_Ok action lane u : require_action_lane action lane = Ok u → pm_lane action = lane.
Proof. unfold require_action_lane. by case_bool_decide. Qed.

(** What the checks of a command come to. *)
Lemma root_command_checks action kind program values :
  validate_root_command (LaneCommand_new action kind (with_arguments values (CommandSpec_new program))) =
  match kind with
  | AptInstall => validate_apt (mkCommand program (Plain <$> values) [] None) values
  | EnsureSystemGroup => validate_groupadd (mkCommand program (Plain <$> values) [] None) values
  | EnsureSystemUser => validate_useradd (mkCommand program (Plain <$> values) [] None) values
  | EnsureHomeDirectory => validate_install (mkCommand program (Plain <$> values) [] None) values
  | EnsureSubordinateUids => validate_usermod (mkCommand program (Plain <$> values) [] None) values "--add-subuids"
  | EnsureSubordinateGids => validate_usermod (mkCommand program (Plain <$> values) [] None) values "--add-subgids"
  | EnableLinger => validate_loginctl (mkCommand program (Plain <$> values) [] None) values
  | _ => Err (invalid_command "runner-user command kind cannot execute in the root lane")
  end.
Proof.
  unfold validate_root_command, LaneCommand_new. cbn [lc_spec lc_kind]. rewrite with_arguments_spec.
  cbn [cs_program cs_arguments cs_environment cs_secret_stdin CommandSpec_new app].
  rewrite bool_decide_true by done. cbn [negb]. by rewrite plain_arguments_plain.
Qed.

(** The tests of a command, one after the other. *)
Ltac run_checks :=
  unfold reviewed; cbn [cs_program];
  rewrite ?path_eq_refl; cbn [andb argument_is is_some_and lookup list_lookup];
  repeat match goal with
  | H : parses ?p ?v = true |- context [parses ?p ?v] => rewrite H
  | H : canonical_absolute_path ?v = true |- context [canonical_absolute_path ?v] => rewrite H
  | H : valid_subordinate_range ?v = true |- context [valid_subordinate_range ?v] => rewrite H
  end;
  done.

Lemma built_passes command : built_for_root command → validate_root_command command = Ok ().
Proof.
  destruct 1 as [action packages command Hp Hb|action group command Hg Hb|action user group home command Hu Hg Hb
    |action user group home command Hu Hg Hb|action user start count command Hu Hb
    |action user start count command Hu Hb|action user command Hu Hb];
    repeat match goal with H : accepted LinuxAccountName_parse _ |- _ => apply accepted_parses in H end;
    (unfold apt_install, ensure_system_group, ensure_system_user, ensure_home_directory, ensure_subordinate_uids,
       ensure_subordinate_gids, enable_linger in Hb; inv_ok Hb; injection Hb as <-);
    repeat match goal with
    | H : command_path _ = Ok _ |- _ => apply command_path_Ok in H as [-> H]
    | H : subordinate_range_argument _ _ = Ok _ |- _ => apply range_argument_valid in H
    end.
  - rewrite with_arguments_app, root_command_checks. unfold validate_apt, reviewed. cbn [cs_program]. rewrite path_eq_refl.
    bprop. destruct packages as [|package packages]; [done|]. cbn [length app take drop andb].
    rewrite bool_decide_true by lia. rewrite bool_decide_true by done. cbn [andb].
    assert (forallb (parses PackageName_parse) (package :: packages) = true) as ->; [|done].
    apply forallb_forall. intros p Hin%list_elem_of_In. apply accepted_parses.
    exact (proj1 (Forall_forall _ _) Hp p Hin).
  - rewrite root_command_checks. unfold validate_groupadd. run_checks.
  - rewrite root_command_checks. unfold validate_useradd. run_checks.
  - rewrite root_command_checks. unfold validate_install. run_checks.
  - rewrite root_command_checks. unfold validate_usermod. run_checks.
  - rewrite root_command_checks. unfold validate_usermod. run_checks.
  - rewrite root_command_checks. unfold validate_loginctl. run_checks.
Qed.

Lemma built_lane command : built_for_root command →
  lc_lane command = LaneRoot ∧ is_ok (required_programs command) = true.
Proof.
  destruct 1 as [? ? ? _ Hb|? ? ? _ Hb|? ? ? ? ? _ _ Hb|? ? ? ? ? _ _ Hb|? ? ? ? ? _ Hb|? ? ? ? ? _ Hb|? ? ? _ Hb];
    (unfold apt_install, ensure_system_group, ensure_system_user, ensure_home_directory, ensure_subordinate_uids,
       ensure_subordinate_gids, enable_linger in Hb; inv_ok Hb; injection Hb as <-);
    (split; [by eapply require_action_lane_Ok|done]).
Qed.

(** ** Commands of the runner user *)

Section runner.
Context {H : Type} `{!LaneHost H}.

(** A command built for this runner, whatever the host answered. *)
Definition built_for_runner (runner : RunnerUserContext) (command : LaneCommand) : Prop :=
  ∃ action (h h' : H),
    runner_podman_info action runner h = (h', Done (Ok command)) ∨
    runner_podman_migrate action runner h = (h', Done (Ok command)) ∨
    runner_git_version action runner h = (h', Done (Ok command)).

(** The evidence is about the account the command was built for. *)
Definition evidence_of (runner : RunnerUserContext) (evidence : VerifiedRunnerUser) : Prop :=
  vr_username evidence = rc_username runner ∧ vr_uid evidence = rc_uid runner ∧
  vr_primary_gid evidence = rc_primary_gid runner ∧ vr_home evidence = rc_home runner ∧
  vr_runtime_directory evidence = rc_runtime_directory runner.

Lemma prog_bind_Ok {E A B} (m : prog H E A) (f : A → prog H E B) h h' b :
  (m ≫= f) h = (h', Done (Ok b)) → ∃ a h1, m h = (h1, Done (Ok a)) ∧ f a h1 = (h', Done (Ok b)).
Proof. unfold mbind, io_bind, catch, lift. destruct (m h) as [h1 [[a|e|]|]]; naive_solver. Qed.

Lemma failing_Ok {E E' A} (f : E → E') (m : prog H E A) h h' a :
  failing f m h = (h', Done (Ok a)) → m h = (h', Done (Ok a)).
Proof. unfold failing, catch, lift. destruct (m h) as [h1 [[x|e|]|]]; naive_solver. Qed.

Lemma verified_path path h h' executable :
  verify_executable path h = (h', Done (Ok executable)) → ve_path executable = path.
Proof.
  unfold verify_executable. case_match; [done|].
  intros (metadata & h1 & _ & Hv)%prog_bind_Ok. unfold lift in Hv. injection Hv as <- Hv.
  unfold verify_metadata, verify_observation in Hv. repeat case_match; by simplify_eq/=.
Qed.

(** The environment program is one of the two reviewed ones. *)
Lemma resolved_path h h' path :
  resolve_reviewed_environment_executable h = (h', Done (Ok path)) →
  path = CLASSIC_ENV_PATH ∨ path = UBUNTU_RUST_COREUTILS_ENV_PATH.
Proof.
  unfold resolve_reviewed_environment_executable, catch.
  destruct (verify_executable CLASSIC_ENV_PATH h) as [h1 [[executable|error|]|]] eqn:Hv; [| |done..].
  - unfold mret, io_ret, lift. intros [= <- <-]. left. by eapply verified_path.
  - intros Hr. right.
    assert ((executable ← failing (λ _, LcNoEnvironmentProgram) (verify_executable UBUNTU_RUST_COREUTILS_ENV_PATH);
      mret (ve_path executable)) h1 = (h', Done (Ok path))) as Hr' by (by destruct (xe_kind error)).
    apply prog_bind_Ok in Hr' as (executable & h2 & Hx%failing_Ok & Hm). unfold mret, io_ret, lift in Hm.
    simplify_eq. by eapply verified_path.
Qed.

Lemma runner_command_built kind program arguments action runner (h h' : H) command :
  runner_command kind program arguments action runner h = (h', Done (Ok command)) →
  pm_lane action = LaneRunnerUser ∧ ∃ environment_program,
    is_supported_environment_executable_path environment_program = true ∧
    command = LaneCommand_new action kind (with_arguments
      (runner_boundary (rc_username runner) environment_program (rc_home runner) (rc_runtime_directory runner)
        program ++ arguments) (CommandSpec_new RUNUSER)).
Proof.
  unfold runner_command. intros Hb. apply prog_bind_Ok in Hb as (u & h1 & Hl & Hb).
  unfold lift in Hl. injection Hl as <- Hl. apply require_action_lane_Ok in Hl. split; [done|].
  apply prog_bind_Ok in Hb as (environment_program & h2 & Hr%resolved_path & Hm).
  unfold mret, io_ret, lift in Hm. injection Hm as <- <-. exists environment_program.
  split; [by destruct Hr as [-> | ->]|]. unfold runner_user_spec. by rewrite with_arguments_app.
Qed.

Lemma runner_passes kind program arguments action runner evidence environment_program :
  inner_command kind = Some (program, arguments) → evidence_of runner evidence →
  is_supported_environment_executable_path environment_program = true →
  let command := LaneCommand_new action kind (with_arguments
    (runner_boundary (rc_username runner) environment_program (rc_home runner) (rc_runtime_directory runner)
      program ++ arguments) (CommandSpec_new RUNUSER)) in
  runner_environment_program command = Some environment_program ∧ validate_runner_command command evidence = Ok ().
Proof.
  intros Hk (E1 & E2 & E3 & E4 & E5) Henv command.
  assert (runner_environment_program command = Some environment_program) as Hp.
  { unfold runner_environment_program, command, LaneCommand_new. cbn [lc_spec].
    rewrite with_arguments_spec. cbn. by rewrite Henv. }
  split; [done|]. unfold validate_runner_command. rewrite Hp. subst command. unfold LaneCommand_new.
  cbn [lc_spec lc_kind]. rewrite with_arguments_spec.
  cbn [cs_program cs_arguments cs_environment cs_secret_stdin CommandSpec_new app].
  rewrite bool_decide_true, path_eq_refl, Hk by done. cbn [negb orb]. rsimpl.
  rewrite plain_arguments_plain. rsimpl. rewrite E1, E4, E5, bool_decide_true by done. done.
Qed.

Lemma runner_built_passes kind program arguments action runner evidence (h h' : H) command :
  inner_command kind = Some (program, arguments) → evidence_of runner evidence →
  runner_command kind program arguments action runner h = (h', Done (Ok command)) →
  lc_lane command = LaneRunnerUser ∧ is_ok (required_programs command) = true ∧
  validate_runner_command command evidence = Ok ().
Proof.
  intros Hk Hev (Hl & environment_program & Henv & ->)%runner_command_built.
  destruct (runner_passes _ _ _ action runner evidence environment_program Hk Hev Henv) as [Hp Hv].
  split_and!; [done| |exact Hv]. unfold required_programs. rewrite Hp. by destruct kind.
Qed.

Lemma built_runner_passes runner evidence command :
  built_for_runner runner command → evidence_of runner evidence →
  lc_lane command = LaneRunnerUser ∧ is_ok (required_programs command) = true ∧
  validate_runner_command command evidence = Ok ().
Proof.
  intros (action & h & h' & [Hb|[Hb|Hb]]) Hev; by eapply runner_built_passes in Hb.
Qed.

(** (C29) What the constructors build from accepted names the executor accepts: it is
    for the lane it was built for, the checks of its shape pass, against the
    evidence for a runner's command, and its programs can be listed. *)
Theorem built_commands_are_reviewed :
  (∀ command, built_for_root command →
     lc_lane command = LaneRoot ∧ is_ok (required_programs command) = true ∧
     validate_root_command command = Ok ()) ∧
  (∀ runner evidence command, built_for_runner runner command → evidence_of runner evidence →
     lc_lane command = LaneRunnerUser ∧ is_ok (required_programs command) = true ∧
     validate_runner_command command evidence = Ok ()).
Proof.
  split.
  - intros command Hb. destruct (built_lane command Hb). auto using built_passes.
  - apply built_runner_passes.
Qed.
End runner.

(** A path with a doubled separator or a [.] in it is canonical for the checks. *)
Lemma canonical_path_accepts_aliases :
  canonical_absolute_path "/srv//runner/./work" = true ∧
  command_path "/srv//runner/./work" = Ok "/srv//runner/./work"%string.
Proof. done. Qed.
