(* ===== verification/LaneExecution.v ===== *)
(** * Plans of lane commands

    [src/src/durable_lane_execution.rs]: a plan whose actions are bound one to
    one to reviewed commands, executed through the durable journal; and what
    that means for the commands that run. *)

From S2P Require Import Prelude Artifact FileSystem WorkerCommands LaneJournal JournalTheorems JournalDocument JournalSnapshots.
From S2P Require Import LaneCommands LaneTheorems.

(** ** The plan *)

Inductive LanePlanProblem :=
| LpPlan (problem : PlanProblem)
| LpNotIrreversible (id : string)
| LpDuplicateCommand (id : string)
| LpNoCommand (id : string)
| LpLane (id : string) (action command : ExecutionLane)
| LpNoAction (id : string).

(** The [BTreeMap] of commands, in the order of its keys. *)
Fixpoint btree_get {A} (key : string) (entries : list (string * A)) : option A :=
  match entries with
  | [] => None
  | (key', value) :: entries => if String.eqb key key' then Some value else btree_get key entries
  end.

Record DurableLanePlan := mkLanePlan {
  lp_actions : list PlannedMutation;
  lp_commands : list (string * LaneCommand);
}.

(** One round of the loop that collects the commands. *)
Definition collect_command (state : list (string * LaneCommand) * list LanePlanProblem) (command : LaneCommand)
    : list (string * LaneCommand) * list LanePlanProblem :=
  let '(by_id, problems) := state in
  let id := lc_action_id command in
  (btree_insert id command by_id,
   if is_some (btree_get id by_id) then problems ++ [LpDuplicateCommand id] else problems).

Definition irreversible_problem (action : PlannedMutation) : list LanePlanProblem :=
  if bool_decide (pm_rollback action ≠ Irreversible) then [LpNotIrreversible (pm_id action)] else [].

Definition binding_problem (by_id : list (string * LaneCommand)) (action : PlannedMutation) : list LanePlanProblem :=
  match btree_get (pm_id action) by_id with
  | None => [LpNoCommand (pm_id action)]
  | Some command =>
      if bool_decide (lc_lane command ≠ pm_lane action)
      then [LpLane (pm_id action) (pm_lane action) (lc_lane command)] else []
  end.

Definition DurableLanePlan_new (actions : list PlannedMutation) (commands : list LaneCommand)
    : result (list LanePlanProblem) DurableLanePlan :=
  let problems := match validate_plan actions with Err found => LpPlan <$> found | _ => [] end in
  let problems := problems ++ concat (irreversible_problem <$> actions) in
  let '(by_id, problems) := foldl collect_command ([], problems) commands in
  let problems := problems ++ concat (binding_problem by_id <$> actions) in
  let problems := problems ++ concat ((λ entry : string * LaneCommand,
    if existsb (λ action, String.eqb (pm_id action) entry.1) actions then [] else [LpNoAction entry.1]) <$> by_id) in
  match problems with
  | [] => Ok (mkLanePlan actions by_id)
  | _ => Err problems
  end.

(** ** Execution *)

(** The trait [LaneCommandRunner]. *)
Class LaneCommandRunner (R : Type) := lane_run : LaneCommand → prog R ActionFailure ActionReceipt.

Definition binding_failure : ActionFailure :=
  mkActionFailure "lane_binding_mismatch"
    "durable lane action no longer matches its reviewed command; no command was executed".

(** [BoundLaneMutationExecutor]. *)
Definition bound_executor {R} `{!LaneCommandRunner R} (commands : list (string * LaneCommand))
    : MutationExecutor R := {|
  execute action :=
    match btree_get (pm_id action) commands with
    | None => lift (Err binding_failure)
    | Some command =>
        if negb (String.eqb (lc_action_id command) (pm_id action))
           || negb (bool_decide (lc_lane command = pm_lane action))
        then lift (Err binding_failure)
        else lane_run command
    end;
  rollback _ _ := lift (Err (mkActionFailure "automatic_rollback_unavailable"
    "automatic host rollback is unavailable; re-observe exact host state before planning recovery"));
|}.

Definition execute_lane_plan_durably {R F} `{!LaneCommandRunner R} `{!JournalCheckpoint R F}
    (plan : DurableLanePlan) (allow_irreversible : bool) : prog R (DurableExecutionError F) ExecutionJournal :=
  execute_plan_durably (MutationExecutor0 := bound_executor (lp_commands plan)) (lp_actions plan) allow_irreversible.

(** ** The system's runner *)

Definition lane_error_code (kind : LaneExecutionErrorKind) : string :=
  match kind with
  | LeLaneMismatch => "lane_mismatch"
  | LeInvalidCommand => "invalid_lane_command"
  | LeInvalidRunnerEvidence => "invalid_runner_evidence"
  | LeUnsupportedPrivilege => "unsupported_privilege"
  | LeExecutableVerification => "untrusted_executable"
  | LeProcess => "lane_process_unknown"
  end.

Definition command_kind_name (kind : LaneCommandKind) : string :=
  match kind with
  | AptInstall => "package installation"
  | EnsureSystemGroup => "system group"
  | EnsureSystemUser => "system user"
  | EnsureHomeDirectory => "home directory"
  | EnsureSubordinateUids => "subordinate UID"
  | EnsureSubordinateGids => "subordinate GID"
  | EnableLinger => "linger"
  | RunnerPodmanInfo => "runner Podman information"
  | RunnerPodmanMigrate => "runner Podman migration"
  | RunnerGitVersion => "runner Git version"
  end.

Definition map_lane_execution (r : result LaneExecutionError LaneExecutionRecord)
    : result ActionFailure ActionReceipt :=
  match r with
  | Ok record =>
      if er_success (lr_process record)
      then Ok ("reviewed " +:+ command_kind_name (lr_kind record) +:+ " command completed")%string
      else Err (mkActionFailure "lane_process_failed"
             "reviewed lane command exited unsuccessfully; host state must be re-observed before retry")
  | Err error => Err (mkActionFailure (lane_error_code (le_kind error)) (le_message error))
  | Panic => Panic
  end.

(** [SystemLaneCommandRunner]. *)
Definition system_runner {H} `{!LaneHost H} (runner_user : option VerifiedRunnerUser) : LaneCommandRunner H :=
  λ command,
    match lc_lane command with
    | LaneRoot => catch (execute_root_lane command) (λ r, lift (map_lane_execution r))
    | LaneRunnerUser =>
        match runner_user with
        | None => lift (Err (mkActionFailure "runner_evidence_unavailable"
            "runner-user lane execution requires exact verified account, runtime-directory, and subordinate-ID evidence; re-observe before retry"))
        | Some runner_user =>
            catch (execute_runner_user_lane command runner_user) (λ r, lift (map_lane_execution r))
        end
    | _ => lift (Err (mkActionFailure "unsupported_lane"
        "durable host mutation accepts only reviewed root or runner-user lane commands"))
    end.

(** ** Runs keep what every call keeps *)

Definition keeps {S E A} (I : S → Prop) (m : prog S E A) : Prop := ∀ s, I s → I (m s).1.

Section keeps.
Context {S F : Type} `{!MutationExecutor S} `{!JournalCheckpoint S F} (I : S → Prop).
Context (Hexec : ∀ action, keeps I (execute action)).
Context (Hroll : ∀ action receipt, keeps I (rollback action receipt)).
Context (Hsave : ∀ journal, keeps I (checkpoint (H := S) (Failure := F) journal)).

Lemma keeps_lift {E A} (r : result E A) : keeps I (lift r).
Proof. by intros s Hs. Qed.

Lemma keeps_catch {E A E' B} (m : prog S E A) (k : result E A → prog S E' B) :
  keeps I m → (∀ r, keeps I (k r)) → keeps I (catch m k).
Proof.
  intros Hm Hk s Hs. unfold catch. specialize (Hm s Hs). destruct (m s) as [s' [r|]]; [by apply Hk|done].
Qed.

Lemma keeps_bind {E A B} (m : prog S E A) (f : A → prog S E B) :
  keeps I m → (∀ a, keeps I (f a)) → keeps I (m ≫= f).
Proof. intros Hm Hf. apply keeps_catch; [done|]. intros [| |]; [apply Hf|apply keeps_lift..]. Qed.

Lemma keeps_persist journal last phase index :
  keeps I (persist_checkpoint (H := S) (Failure := F) journal last phase index).
Proof.
  apply keeps_catch; [done|]. intros [| |]; [apply keeps_lift| |apply keeps_lift].
  apply keeps_bind; [apply keeps_lift|]. intros. apply keeps_lift.
Qed.

Lemma keeps_rollback journal last completed :
  keeps I (rollback_completed_durably (H := S) (Failure := F) journal last completed).
Proof.
  revert journal last. induction completed as [|[i r] completed IH]; intros journal last; [apply keeps_lift|].
  simpl. apply keeps_bind; [apply keeps_lift|]. intros record. case_match; [apply IH|].
  apply keeps_bind; [apply keeps_persist|]. intros. apply keeps_catch; [apply Hroll|]. intros.
  apply keeps_bind; [apply keeps_lift|]. intros. apply keeps_bind; [apply keeps_persist|]. intros. apply IH.
Qed.

Lemma keeps_execute indices journal last completed :
  keeps I (execute_records_durably (H := S) (Failure := F) indices journal last completed).
Proof.
  revert journal last completed. induction indices as [|i indices IH]; intros journal last completed; [apply keeps_lift|].
  simpl. apply keeps_bind; [apply keeps_lift|]. intros record.
  apply keeps_bind; [apply keeps_persist|]. intros. apply keeps_catch; [apply Hexec|].
  intros [receipt|failure|]; [| |apply keeps_lift]; (apply keeps_bind; [apply keeps_persist|]); intros;
    [apply IH|apply keeps_rollback].
Qed.

Lemma keeps_plan actions allow : keeps I (execute_plan_durably (H := S) (Failure := F) actions allow).
Proof.
  unfold execute_plan_durably. apply keeps_bind; [apply keeps_lift|]. intros _. case_match.
  - apply keeps_bind; [apply keeps_lift|]. intros. apply keeps_bind; [apply keeps_persist|]. intros. apply keeps_lift.
  - apply keeps_bind; [apply keeps_persist|]. intros. apply keeps_execute.
Qed.
End keeps.

(** ** Keeping a trace changes nothing *)

Section erases.
Context {H F : Type} `{!MutationExecutor H} `{!JournalCheckpoint H F}.

Definition erases {E A} (m : prog (H * trace) E A) (m' : prog H E A) : Prop :=
  ∀ h t, ((m (h, t)).1.1, (m (h, t)).2) = m' h.

Lemma erases_lift {E A} (r : result E A) : erases (lift r) (lift r).
Proof. done. Qed.

Lemma erases_traced {E A} (event : outcome E A → journal_event) (call : prog H E A) :
  erases (traced event call) call.
Proof. intros h t. unfold traced. by destruct (call h). Qed.

Lemma erases_catch {E A E' B} (m : prog (H * trace) E A) m' (k : result E A → prog (H * trace) E' B) k' :
  erases m m' → (∀ r, erases (k r) (k' r)) → erases (catch m k) (catch m' k').
Proof.
  intros Hm Hk h t. unfold catch. specialize (Hm h t). destruct (m (h, t)) as [[h1 t1] [r|]];
    simpl in Hm; rewrite <-Hm; [apply Hk|done].
Qed.

Lemma erases_bind {E A B} (m : prog (H * trace) E A) m' (f : A → prog (H * trace) E B) f' :
  erases m m' → (∀ a, erases (f a) (f' a)) → erases (m ≫= f) (m' ≫= f').
Proof. intros Hm Hf. apply erases_catch; [done|]. intros [| |]; [apply Hf|apply erases_lift..]. Qed.

Lemma erases_persist journal last phase index :
  erases (persist_checkpoint (Failure := F) journal last phase index)
    (persist_checkpoint journal last phase index).
Proof.
  apply erases_catch; [apply erases_traced|]. intros [| |]; [apply erases_lift| |apply erases_lift].
  apply erases_bind; [apply erases_lift|]. intros. apply erases_lift.
Qed.

Lemma erases_rollback journal last completed :
  erases (rollback_completed_durably (Failure := F) journal last completed)
    (rollback_completed_durably journal last completed).
Proof.
  revert journal last. induction completed as [|[i r] completed IH]; intros journal last; [apply erases_lift|].
  simpl. apply erases_bind; [apply erases_lift|]. intros record. case_match; [apply IH|].
  apply erases_bind; [apply erases_persist|]. intros. apply erases_catch; [apply erases_traced|]. intros.
  apply erases_bind; [apply erases_lift|]. intros. apply erases_bind; [apply erases_persist|]. intros. apply IH.
Qed.

Lemma erases_execute indices journal last completed :
  erases (execute_records_durably (Failure := F) indices journal last completed)
    (execute_records_durably indices journal last completed).
Proof.
  revert journal last completed. induction indices as [|i indices IH]; intros journal last completed;
    [apply erases_lift|].
  simpl. apply erases_bind; [apply erases_lift|]. intros record.
  apply erases_bind; [apply erases_persist|]. intros. apply erases_catch; [apply erases_traced|].
  intros [receipt|failure|]; [| |apply erases_lift]; (apply erases_bind; [apply erases_persist|]); intros;
    [apply IH|apply erases_rollback].
Qed.

Lemma erases_plan actions allow :
  erases (execute_plan_durably (Failure := F) actions allow) (execute_plan_durably actions allow).
Proof.
  unfold execute_plan_durably. apply erases_bind; [apply erases_lift|]. intros _. case_match.
  - apply erases_bind; [apply erases_lift|]. intros. apply erases_bind; [apply erases_persist|].
    intros. apply erases_lift.
  - apply erases_bind; [apply erases_persist|]. intros. apply erases_execute.
Qed.
End erases.

(** ** The commands that run *)

(** A runner that keeps the commands it was given. *)
#[export] Instance logged_runner {R} `{!LaneCommandRunner R} : LaneCommandRunner (R * list LaneCommand) :=
  λ command '(r, log), let '(r', out) := lane_run command r in ((r', log ++ [command]), out).

#[export] Instance logged_checkpoint {R F} `{!JournalCheckpoint R F} : JournalCheckpoint (R * list LaneCommand) F :=
  λ journal '(r, log), let '(r', out) := checkpoint journal r in ((r', log), out).

(** The command that an action is bound to. *)
Definition bound_command (commands : list (string * LaneCommand)) (action : PlannedMutation) : option LaneCommand :=
  command ← btree_get (pm_id action) commands;
  if negb (String.eqb (lc_action_id command) (pm_id action)) || negb (bool_decide (lc_lane command = pm_lane action))
  then None else Some command.

Section lanes.
Context {R F : Type} `{!LaneCommandRunner R} `{!JournalCheckpoint R F}.

(** The commands run are those of the actions executed. *)
Definition log_follows (commands : list (string * LaneCommand)) (s : R * list LaneCommand * trace) : Prop :=
  s.1.2 = omap (bound_command commands) (executions s.2).

Lemma lane_log commands actions allow r :
  let s := (execute_plan_durably (Failure := F)
    (MutationExecutor0 := traced_executor (H0 := bound_executor commands)) actions allow (((r, []), []))).1 in
  log_follows commands s.
Proof.
  apply (keeps_plan (log_follows commands)); [| | |done].
  - intros action [[r' log] t] Hs. unfold log_follows in *. simpl in Hs. subst log.
    cbn [execute traced_executor bound_executor]. unfold traced.
    assert (omap (bound_command commands) (executions (EvExecute action :: t)) =
      omap (bound_command commands) (executions t) ++ option_list (bound_command commands action)) as Hsnoc.
    { simpl. rewrite omap_app. simpl. by destruct (bound_command commands action). }
    unfold bound_command at 3 in Hsnoc.
    destruct (btree_get (pm_id action) commands) as [command|]; simpl in *; [|by rewrite Hsnoc, app_nil_r].
    case_match; simpl in *; [by rewrite Hsnoc, app_nil_r|].
    unfold lane_run, logged_runner. destruct (lane_run command r'). exact (eq_sym Hsnoc).
  - intros action receipt [[r' log] t] Hs. exact Hs.
  - intros journal [[r' log] t] Hs. unfold checkpoint, traced_checkpoint, traced.
    unfold checkpoint, logged_checkpoint. destruct (checkpoint journal r') as [r'' [[| |]|]]; exact Hs.
Qed.

(** ** Accepted plans *)

Lemma btree_get_insert {A} key (value : A) entries key' :
  btree_get key' (btree_insert key value entries) =
  if String.eqb key' key then Some value else btree_get key' entries.
Proof.
  induction entries as [|[k v] entries IH]; simpl; [by destruct (String.eqb_spec key' key)|].
  destruct (String.compare key k) eqn:Hc; simpl.
  - apply String.compare_eq_iff in Hc as ->. by destruct (String.eqb_spec key' k).
  - by destruct (String.eqb_spec key' key).
  - rewrite IH. destruct (String.eqb_spec key' k) as [->|]; [|done].
    destruct (String.eqb_spec k key) as [->|]; [|done].
    pose proof (String.compare_antisym key key) as Ha. by rewrite Hc in Ha.
Qed.

(** What was collected comes from the commands, each under its own id. *)
Lemma collected commands by_id problems :
  (∀ key command, btree_get key by_id = Some command → lc_action_id command = key) →
  ∀ key command, btree_get key (foldl collect_command (by_id, problems) commands).1 = Some command →
    lc_action_id command = key ∧ (btree_get key by_id = Some command ∨ command ∈ commands).
Proof.
  revert by_id problems. induction commands as [|c commands IH]; intros by_id problems Hids key command; cbn [foldl].
  { intros Hg. split; [by apply Hids|by left]. }
  intros Hg. apply IH in Hg as [Hid Hg].
  - split; [done|]. rewrite btree_get_insert in Hg.
    destruct Hg as [Hg|Hg]; [|right; by right]. case_match; [|by left]. simplify_eq. right. left.
  - intros key' command'. rewrite btree_get_insert. case_match eqn:He; [|apply Hids].
    intros [= <-]. by apply String.eqb_eq in He.
Qed.

Lemma collect_problems commands state : state.2 ≠ [] → (foldl collect_command state commands).2 ≠ [].
Proof.
  revert state. induction commands as [|c commands IH]; intros [by_id problems] Hp; [done|].
  apply IH. simpl in *. case_match; [|done]. by destruct problems.
Qed.

Lemma concat_nil_all {A B} (f : A → list B) l : concat (f <$> l) = [] → ∀ x, x ∈ l → f x = [].
Proof.
  induction l as [|y l IH]; intros Hc x Hx; [by apply elem_of_nil in Hx|].
  simpl in Hc. apply app_eq_nil in Hc as [Hy Hl]. apply elem_of_cons in Hx as [->|Hx]; auto.
Qed.

(** The command that a plan runs for an action. *)
Definition bound_to (commands : list LaneCommand) (action : PlannedMutation) (command : LaneCommand) : Prop :=
  command ∈ commands ∧ lc_action_id command = pm_id action ∧ lc_lane command = pm_lane action.

Lemma lane_plan_parts actions commands plan :
  DurableLanePlan_new actions commands = Ok plan →
  lp_actions plan = actions ∧ validate_plan actions = Ok () ∧
  (∀ action, action ∈ actions → pm_rollback action = Irreversible) ∧
  ∀ action, action ∈ actions → ∃ command,
    bound_command (lp_commands plan) action = Some command ∧ bound_to commands action command.
Proof.
  unfold DurableLanePlan_new.
  set (first := match validate_plan actions with Err found => LpPlan <$> found | _ => [] end).
  destruct (foldl collect_command _ commands) as [by_id problems] eqn:Hfold.
  destruct ((problems ++ _) ++ _) as [|] eqn:Hall; [|done].
  intros [= <-]. cbn [lp_actions lp_commands].
  apply app_eq_nil in Hall as [Hall _]. apply app_eq_nil in Hall as [-> Hbind].
  assert (first ++ concat (irreversible_problem <$> actions) = []) as Hfirst.
  { destruct (first ++ _) as [|x l] eqn:Hf; [done|]. exfalso.
    apply (collect_problems commands ([], x :: l)); [done|]. by rewrite Hfold. }
  apply app_eq_nil in Hfirst as [Hfirst Hirr]. split; [done|]. split_and!.
  - subst first. destruct (validate_plan actions) as [[]|found|] eqn:Hv; [done| |by apply validate_plan_no_panic in Hv].
    apply fmap_nil_inv in Hfirst as ->. unfold validate_plan in Hv. case_bool_decide; congruence.
  - intros action Hin. pose proof (concat_nil_all _ _ Hirr action Hin) as Hp.
    unfold irreversible_problem in Hp. by case_bool_decide.
  - intros action Hin. pose proof (concat_nil_all _ _ Hbind action Hin) as Hp. unfold binding_problem in Hp.
    destruct (btree_get (pm_id action) by_id) as [command|] eqn:Hg; [|done].
    case_bool_decide as Hl; [done|]. exists command.
    destruct (collected commands [] (first ++ concat (irreversible_problem <$> actions)) ltac:(done)
      (pm_id action) command) as [Hid Hcom]; [by rewrite Hfold|].
    split; [|destruct Hcom; [done|]; done].
    unfold bound_command. rewrite Hg. simpl. rewrite Hid, String.eqb_refl, bool_decide_true by done. done.
Qed.

Lemma omap_bound commands plan_commands actions :
  (∀ action, action ∈ actions → ∃ command,
    bound_command plan_commands action = Some command ∧ bound_to commands action command) →
  Forall2 (bound_to commands) actions (omap (bound_command plan_commands) actions).
Proof.
  induction actions as [|a actions IH]; intros Hb; [constructor|].
  destruct (Hb a) as (command & Hc & Hto); [by left|]. simpl. rewrite Hc.
  constructor; [done|]. apply IH. intros b Hin. apply Hb. by right.
Qed.

(** (C11) An accepted plan, whatever the runner and the snapshots do and wherever the
    process stops: the commands that run are, in the order of the plan, those
    bound to its first actions, each once and in the lane of its action.  Without
    the confirmation that its actions are irreversible, none runs. *)
Theorem lane_commands_run_in_order actions commands plan allow r :
  DurableLanePlan_new actions commands = Ok plan →
  let log := (execute_lane_plan_durably (R := R * list LaneCommand) (F := F) plan allow (r, [])).1.2 in
  (∃ n, Forall2 (bound_to commands) (take n actions) log) ∧
  (allow = false → actions ≠ [] → log = []).
Proof.
  intros Hplan. apply lane_plan_parts in Hplan as (Hact & Hv & Hirr & Hbound). cbv zeta.
  unfold execute_lane_plan_durably. rewrite Hact.
  pose proof (lane_log (lp_commands plan) actions allow r) as Hlog.
  pose proof (plan_accountable (H := R * list LaneCommand) (F := F)
    (MutationExecutor0 := bound_executor (lp_commands plan)) actions allow (r, [])) as [[[k Hk] _ _ _] Hun].
  pose proof (erases_plan (H := R * list LaneCommand) (F := F)
    (MutationExecutor0 := bound_executor (lp_commands plan)) actions allow (r, []) []) as He.
  unfold log_follows in Hlog. cbv zeta in Hlog. rewrite <-He. cbn [fst]. rewrite Hlog.
  set (t := (execute_plan_durably actions allow (r, [], [])).1.2) in *.
  split.
  - exists (length (executions t)). rewrite Hk, take_app_length. apply omap_bound.
    intros action Hin. apply Hbound. rewrite Hk. apply elem_of_app. by left.
  - intros -> Hne. rewrite Hun; [done|]. split; [done|].
    destruct actions as [|a actions']; [done|]. exists a. split; [left|]. apply Hirr. left.
Qed.
End lanes.

(** ** Samples

    A plan of three actions of which the last one fails, on a host that keeps
    nothing but counts its calls, and a plan of two commands of the root lane
    that is stopped in the second; the theorems of the lanes at these runs. *)

Local Open Scope N_scope.

(** *** A plan that is rolled back *)

Definition sample_action (id : string) (rollback : RollbackClass) : PlannedMutation :=
  mkMutation id LaneRoot "sample step" rollback ["host inspected"%string].

Definition sample_actions : list PlannedMutation :=
  [sample_action "one" Reversible; sample_action "two" Compensating; sample_action "three" Reversible].

(** The third call of the executor fails. *)
#[local] Instance counting_executor : MutationExecutor nat := {|
  execute _ := λ n, (S n, Done (if bool_decide (n = 2%nat)
    then Err (mkActionFailure "process" "exit status 1") else Ok "done"%string));
  rollback _ _ := λ n, (S n, Done (Ok "undone"%string));
|}.

#[local] Instance silent_checkpoint : JournalCheckpoint nat () := λ _ n, (n, Done (Ok ())).

Definition sample_trace : trace :=
  (execute_plan_durably (H := nat * trace) (Failure := ()) sample_actions true (0%nat, [])).1.2.

Lemma journal_accounts_for_calls_witness :
  accountable sample_actions sample_trace ∧ executions sample_trace = sample_actions ∧
  rollbacks sample_trace = [sample_action "two" Compensating; sample_action "one" Reversible].
Proof.
  split; [exact (proj1 (journal_accounts_for_calls (F := ()) sample_actions true 0%nat))|].
  split; vm_compute; reflexivity.
Defined.

Lemma sample_text_public (value : string) :
  negb (str_is_empty value) && (str_len value <=? MAX_PUBLIC_TEXT_LEN)%N && negb (has_control value) = true →
  public_text value.
Proof.
  intros Hv. apply andb_true_iff in Hv as [Hv Hc]. apply andb_true_iff in Hv as [He Hl].
  split_and!; [by intros ->|by apply N.leb_le|by apply negb_true_iff].
Qed.

Lemma counting_public : public_executor nat.
Proof.
  split.
  - intros action h h' receipt Hx. simpl in Hx. case_bool_decide; simplify_eq. by apply sample_text_public.
  - intros action h h' failure Hx. simpl in Hx. case_bool_decide; simplify_eq. by apply sample_text_public.
  - intros action receipt h h' receipt' [= <- <-]. by apply sample_text_public.
  - by intros action receipt h h' failure [= ].
Qed.

Lemma sample_action_public id rollback : public_text id → action_public (sample_action id rollback).
Proof.
  intros Hid. split; [done|by apply sample_text_public|apply Nat.leb_le; vm_compute; reflexivity|].
  apply Forall_singleton. by apply sample_text_public.
Qed.

Lemma sample_fits : plan_fits sample_actions.
Proof.
  split; [vm_compute; reflexivity|apply Nat.leb_le; vm_compute; reflexivity|].
  do 3 (apply Forall_cons; split; [apply sample_action_public; by apply sample_text_public|]). constructor.
Qed.

(** The last journal of the run. *)
Definition sample_last : ExecutionJournal :=
  match sample_trace with EvSaved journal :: _ => journal | _ => pending_journal [] end.

Lemma snapshots_are_valid_witness :
  validate_execution_journal sample_last = Ok () ∧
  jr_outcome <$> ej_records sample_last = [ActRolledBack; ActCompensated; ActFailed].
Proof.
  split; [|vm_compute; reflexivity].
  apply (snapshots_are_valid (F := ()) counting_public sample_actions sample_fits true 0%nat).
  left. vm_compute. left.
Defined.

(** *** A plan of lane commands *)

Definition root_action (id : string) : PlannedMutation :=
  mkMutation id LaneRoot "prepare the host" Irreversible ["host inspected"%string].

Definition root_actions : list PlannedMutation := [root_action "group"; root_action "linger"].

Definition root_commands : list LaneCommand :=
  [LaneCommand_new (root_action "linger") EnableLinger
     (with_arguments ["enable-linger"%string; "runner"%string] (CommandSpec_new LOGINCTL));
   LaneCommand_new (root_action "group") EnsureSystemGroup
     (with_arguments ["--system"%string; "runner"%string] (CommandSpec_new GROUPADD))].

Definition root_plan : DurableLanePlan :=
  match DurableLanePlan_new root_actions root_commands with Ok plan => plan | _ => mkLanePlan [] [] end.

(** A runner that stops in its second call. *)
#[local] Instance stopping_runner : LaneCommandRunner nat := λ _ n,
  (S n, if bool_decide (n = 1%nat) then Stopped else Done (Ok "done"%string)).

Lemma lane_commands_run_in_order_witness :
  (∃ n, Forall2 (bound_to root_commands) (take n root_actions) (reverse root_commands)) ∧
  (execute_lane_plan_durably (R := nat * list LaneCommand) (F := ()) root_plan true (0%nat, [])).2 = Stopped.
Proof.
  split; [|vm_compute; reflexivity].
  destruct (lane_commands_run_in_order (R := nat) (F := ()) root_actions root_commands root_plan true 0%nat)
    as [Hlog _]; [vm_compute; reflexivity|].
  vm_compute in Hlog |- *. exact Hlog.
Defined.

Lemma group_command_built : built_for_root (LaneCommand_new (root_action "group") EnsureSystemGroup
  (with_arguments ["--system"%string; "runner"%string] (CommandSpec_new GROUPADD))).
Proof. by apply (built_group (root_action "group") "runner"). Qed.

Lemma built_commands_are_reviewed_witness :
  validate_root_command (LaneCommand_new (root_action "group") EnsureSystemGroup
    (with_arguments ["--system"%string; "runner"%string] (CommandSpec_new GROUPADD))) = Ok ().
Proof.
  exact (proj2 (proj2 (proj1 (built_commands_are_reviewed
    (H := unit) (LaneHost0 := {| symlink_metadata _ := λ h, (h, Done (Ok MetadataNotFound));
                                 run_process _ := λ h, (h, Done (Err ()));
                                 effective_uid := λ h, (h, Done (Ok 0)) |})) _ group_command_built))).
Defined.
