(* ===== verification/Leases.v ===== *)
(** * Leases

    [src/src/lease.rs] (records and their transitions), [src/src/lease_catalog.rs]
    (the catalog over a store, and the store in memory) and
    [src/src/lease_document.rs] (the text of a record).  A store is a state
    behind the class [LeaseStore], the trait of the source; [serde_json] is the
    parameter [LeaseSerde].  Errors keep their kind; their wording is not kept. *)

From S2P Require Import Prelude Artifact LaneJournal JournalDocument.

Local Open Scope N_scope.

Definition LEASE_SCHEMA_VERSION : N := 1.
Definition MAX_LEASE_ID_LEN : N := 100.

Definition LeaseId_parse (value : string) : result () string :=
  if (MAX_LEASE_ID_LEN <? str_len value) || negb (component_start value) || negb (component_rest value)
  then Err () else Ok value.

(** ** Records *)

Inductive LeaseKind := LeaseRun | LeaseWorkspace | LeasePreview.

Definition supports_sleep (self : LeaseKind) : bool :=
  match self with
  | LeaseWorkspace | LeasePreview => true
  | LeaseRun => false
  end.

Inductive LeaseState :=
| LeasePending
| LeaseActive
| LeaseSleeping
| LeaseReleasing
| LeaseReleased
| LeaseExpired
| LeaseFailed.

Definition lease_is_terminal (self : LeaseState) : bool :=
  match self with
  | LeaseReleased | LeaseExpired | LeaseFailed => true
  | _ => false
  end.

Inductive LeaseAction := Activate | Renew | Sleep | Wake | BeginRelease | FinishRelease | Expire | Fail_.

Record LeaseIdentity := mkLeaseIdentity {
  li_lease_id : string;
  li_installation_id : string;
  li_kind : LeaseKind;
}.

Record LeaseRecord := mkLease {
  ls_schema_version : N;
  ls_identity : LeaseIdentity;
  ls_state : LeaseState;
  ls_revision : N;
}.

#[export] Instance lease_kind_eq_dec : EqDecision LeaseKind.
Proof. solve_decision. Defined.
#[export] Instance lease_state_eq_dec : EqDecision LeaseState.
Proof. solve_decision. Defined.
#[export] Instance lease_identity_eq_dec : EqDecision LeaseIdentity.
Proof. solve_decision. Defined.
#[export] Instance lease_record_eq_dec : EqDecision LeaseRecord.
Proof. solve_decision. Defined.

(** [LeaseRecord::pending]. *)
Definition lease_pending (identity : LeaseIdentity) : LeaseRecord :=
  mkLease LEASE_SCHEMA_VERSION identity LeasePending 0.

Inductive LeaseTransitionProblem :=
| LtTerminal
| LtRunCannotSleep
| LtInvalidAction
| LtRevisionExhausted.

Definition next_state (kind : LeaseKind) (state : LeaseState) (action : LeaseAction)
    : result LeaseTransitionProblem LeaseState :=
  if lease_is_terminal state then Err LtTerminal
  else
    match state, action with
    | LeasePending, Activate => Ok LeaseActive
    | (LeasePending | LeaseActive | LeaseSleeping), Renew => Ok state
    | LeaseActive, Sleep => if supports_sleep kind then Ok LeaseSleeping else Err LtRunCannotSleep
    | LeaseSleeping, Wake => Ok LeaseActive
    | (LeasePending | LeaseActive | LeaseSleeping), BeginRelease => Ok LeaseReleasing
    | LeaseReleasing, FinishRelease => Ok LeaseReleased
    | (LeasePending | LeaseActive | LeaseSleeping | LeaseReleasing), Expire => Ok LeaseExpired
    | (LeasePending | LeaseActive | LeaseSleeping | LeaseReleasing), Fail_ => Ok LeaseFailed
    | _, _ => Err LtInvalidAction
    end.

Record LeaseTransition := mkLeaseTransition {
  lt_identity : LeaseIdentity;
  lt_from : LeaseState;
  lt_action : LeaseAction;
  lt_to : LeaseState;
  lt_previous_revision : N;
  lt_next_revision : N;
}.

Definition plan_lease_transition (self : LeaseRecord) (action : LeaseAction)
    : result LeaseTransitionProblem LeaseTransition :=
  to ← next_state (li_kind (ls_identity self)) (ls_state self) action;
  next_revision ← ok_or (checked_add u64_max (ls_revision self) 1) LtRevisionExhausted;
  Ok (mkLeaseTransition (ls_identity self) (ls_state self) action to (ls_revision self) next_revision).

Definition resulting_record (self : LeaseTransition) : LeaseRecord :=
  mkLease LEASE_SCHEMA_VERSION (lt_identity self) (lt_to self) (lt_next_revision self).

(** ** The catalog *)

(** [LeaseSelector]: the installation and the lease. *)
Abbreviation LeaseSelector := (string * string)%type.

Definition from_identity (identity : LeaseIdentity) : LeaseSelector :=
  (li_installation_id identity, li_lease_id identity).

Inductive LeaseStoreError :=
| LseAlreadyExists
| LseMissing
| LseStaleRevision (expected actual : N)
| LseRevisionExhausted
| LseRevisionSkips
| LseStageCollision
| LseBusy
| LseInvalidTransition (problem : LeaseTransitionProblem)
| LseCorruptState
| LseUnsafeFilesystem
| LseIo.

Inductive LeaseWriteDisposition := LeaseCreated | LeaseReplaced.

Record LeaseWriteReceipt := mkLeaseReceipt {
  lw_disposition : LeaseWriteDisposition;
  lw_revision : N;
}.

(** The trait [LeaseStore]. *)
Class LeaseStore (S : Type) := {
  lease_load : LeaseSelector → stM S LeaseStoreError (option LeaseRecord);
  lease_create : LeaseRecord → stM S LeaseStoreError LeaseWriteReceipt;
  lease_replace_if_revision : N → LeaseRecord → stM S LeaseStoreError LeaseWriteReceipt;
}.

(** What [LeaseCatalog::transition] makes of what it loaded: the record it asks
    the store to publish. *)
Definition catalog_plan (selector : LeaseSelector) (expected_revision : N) (action : LeaseAction)
    (loaded : option LeaseRecord) : result LeaseStoreError LeaseRecord :=
  current ← ok_or loaded LseMissing;
  if negb (bool_decide (from_identity (ls_identity current) = selector)) then Err LseCorruptState
  else if negb (ls_revision current =? expected_revision)
  then Err (LseStaleRevision expected_revision (ls_revision current))
  else
    transition ← map_err LseInvalidTransition (plan_lease_transition current action);
    Ok (resulting_record transition).

Section catalog.
Context {S : Type} `{!LeaseStore S}.

Definition catalog_create (identity : LeaseIdentity) : stM S LeaseStoreError (LeaseRecord * LeaseWriteReceipt) :=
  let record := lease_pending identity in
  receipt ← lease_create record;
  mret (record, receipt).

Definition catalog_transition (selector : LeaseSelector) (expected_revision : N) (action : LeaseAction)
    : stM S LeaseStoreError (LeaseRecord * LeaseWriteReceipt) :=
  loaded ← lease_load selector;
  next ← pureM (catalog_plan selector expected_revision action loaded);
  receipt ← lease_replace_if_revision expected_revision next;
  mret (next, receipt).
End catalog.

(** ** The store in memory *)

Definition MemoryLeaseStore : Type := gmap LeaseSelector LeaseRecord.

Definition memory_lease_create (record : LeaseRecord) : stM MemoryLeaseStore LeaseStoreError LeaseWriteReceipt := λ records,
  let selector := from_identity (ls_identity record) in
  if is_some (records !! selector) then (records, Err LseAlreadyExists)
  else (<[selector := record]> records, Ok (mkLeaseReceipt LeaseCreated (ls_revision record))).

Definition memory_lease_replace (expected_revision : N) (record : LeaseRecord)
    : stM MemoryLeaseStore LeaseStoreError LeaseWriteReceipt := λ records,
  let selector := from_identity (ls_identity record) in
  match records !! selector with
  | None => (records, Err LseMissing)
  | Some current =>
      if negb (bool_decide (ls_identity current = ls_identity record)) then (records, Err LseCorruptState)
      else if negb (ls_revision current =? expected_revision)
      then (records, Err (LseStaleRevision expected_revision (ls_revision current)))
      else
        match checked_add u64_max expected_revision 1 with
        | None => (records, Err LseRevisionExhausted)
        | Some next_revision =>
            if negb (ls_revision record =? next_revision) then (records, Err LseRevisionSkips)
            else (<[selector := record]> records, Ok (mkLeaseReceipt LeaseReplaced (ls_revision record)))
        end
  end.

#[export] Instance memory_lease_store : LeaseStore MemoryLeaseStore := {|
  lease_load selector records := (records, Ok (records !! selector));
  lease_create := memory_lease_create;
  lease_replace_if_revision := memory_lease_replace;
|}.

(** ** The document *)

Definition MAX_LEASE_DOCUMENT_BYTES : N := 65536.

Inductive LeaseDocumentError :=
| LdTooLarge
| LdJson
| LdSchema (version : N)
| LdLeaseId
| LdInstallationId
| LdKind (value : string)
| LdState (value : string)
| LdRunSleeps
| LdRevision (minimum : N).

Definition minimum_revision (state : LeaseState) : N :=
  match state with
  | LeasePending => 0
  | LeaseActive | LeaseReleasing | LeaseExpired | LeaseFailed => 1
  | LeaseSleeping | LeaseReleased => 2
  end.

Definition validate_lease (record : LeaseRecord) : result LeaseDocumentError () :=
  if negb (ls_schema_version record =? LEASE_SCHEMA_VERSION) then Err (LdSchema (ls_schema_version record))
  else if bool_decide (li_kind (ls_identity record) = LeaseRun) && bool_decide (ls_state record = LeaseSleeping)
  then Err LdRunSleeps
  else if ls_revision record <? minimum_revision (ls_state record)
  then Err (LdRevision (minimum_revision (ls_state record)))
  else Ok ().

Definition lease_kind_text (self : LeaseKind) : string :=
  match self with
  | LeaseRun => "run"
  | LeaseWorkspace => "workspace"
  | LeasePreview => "preview"
  end.

Definition lease_state_text (self : LeaseState) : string :=
  match self with
  | LeasePending => "pending"
  | LeaseActive => "active"
  | LeaseSleeping => "sleeping"
  | LeaseReleasing => "releasing"
  | LeaseReleased => "released"
  | LeaseExpired => "expired"
  | LeaseFailed => "failed"
  end.

Definition parse_kind (value : string) : result LeaseDocumentError LeaseKind :=
  if String.eqb value "run" then Ok LeaseRun
  else if String.eqb value "workspace" then Ok LeaseWorkspace
  else if String.eqb value "preview" then Ok LeasePreview
  else Err (LdKind value).

Definition parse_state (value : string) : result LeaseDocumentError LeaseState :=
  if String.eqb value "pending" then Ok LeasePending
  else if String.eqb value "active" then Ok LeaseActive
  else if String.eqb value "sleeping" then Ok LeaseSleeping
  else if String.eqb value "releasing" then Ok LeaseReleasing
  else if String.eqb value "released" then Ok LeaseReleased
  else if String.eqb value "expired" then Ok LeaseExpired
  else if String.eqb value "failed" then Ok LeaseFailed
  else Err (LdState value).

(** [LeaseRecordWire] with its identity. *)
Record LeaseRecordWire := mkLeaseWire {
  wl_schema_version : N;
  wl_lease_id : string;
  wl_installation_id : string;
  wl_kind : string;
  wl_state : string;
  wl_revision : N;
}.

(** What [Serialize] writes of a record. *)
Definition lease_wire (record : LeaseRecord) : LeaseRecordWire :=
  mkLeaseWire (ls_schema_version record) (li_lease_id (ls_identity record))
    (li_installation_id (ls_identity record)) (lease_kind_text (li_kind (ls_identity record)))
    (lease_state_text (ls_state record)) (ls_revision record).

Class LeaseSerde := {
  lease_to_string : LeaseRecordWire → option string;
  lease_from_slice : string → option LeaseRecordWire;
}.

Section codec.
Context `{LSERDE : LeaseSerde}.

Definition encode_lease_document (record : LeaseRecord) : result LeaseDocumentError string :=
  _ ← validate_lease record;
  encoded ← ok_or (lease_to_string (lease_wire record)) LdJson;
  let encoded := (encoded +:+ newline_string)%string in
  if MAX_LEASE_DOCUMENT_BYTES <? str_len encoded then Err LdTooLarge else Ok encoded.

Definition lease_of_wire (wire : LeaseRecordWire) : result LeaseDocumentError LeaseRecord :=
  if negb (wl_schema_version wire =? LEASE_SCHEMA_VERSION) then Err (LdSchema (wl_schema_version wire))
  else
    lease_id ← map_err (λ _, LdLeaseId) (LeaseId_parse (wl_lease_id wire));
    installation_id ← map_err (λ _, LdInstallationId) (InstallationId_parse (wl_installation_id wire));
    kind ← parse_kind (wl_kind wire);
    state ← parse_state (wl_state wire);
    let record := mkLease LEASE_SCHEMA_VERSION (mkLeaseIdentity lease_id installation_id kind) state
                    (wl_revision wire) in
    _ ← validate_lease record;
    Ok record.

Definition decode_lease_document (bytes : string) : result LeaseDocumentError LeaseRecord :=
  if MAX_LEASE_DOCUMENT_BYTES <? str_len bytes then Err LdTooLarge
  else
    wire ← ok_or (lease_from_slice bytes) LdJson;
    lease_of_wire wire.
End codec.
