(* ===== verification/LeaseTheorems.v ===== *)
(** * What leases guarantee

    A record is a valid document exactly when transitions lead to it; a catalog
    over any store that keeps the contract of the trait gives each lease one
    history, in which every revision has one writer; decoding inverts
    encoding. *)

From S2P Require Import Prelude Artifact LaneJournal JournalDocument Leases.

Local Open Scope N_scope.

(** ** Transitions *)

Definition lease_advances (r r' : LeaseRecord) : Prop :=
  ∃ action transition, plan_lease_transition r action = Ok transition ∧ r' = resulting_record transition.

Lemma lease_step_iff r r' :
  lease_advances r r' ↔
  ls_schema_version r' = LEASE_SCHEMA_VERSION ∧ ls_identity r' = ls_identity r ∧
  ls_revision r' = ls_revision r + 1 ∧ ls_revision r + 1 ≤ u64_max ∧
  ∃ action, next_state (li_kind (ls_identity r)) (ls_state r) action = Ok (ls_state r').
Proof.
  unfold lease_advances, plan_lease_transition. split.
  - intros (action & transition & Ht & ->). inv_ok Ht. inv_opts. injection Ht as <-.
    rewrite checked_add_Some in *. simpl. naive_solver.
  - intros (Hs & Hi & Hr & Hb & action & Ha).
    exists action, (mkLeaseTransition (ls_identity r) (ls_state r) action (ls_state r') (ls_revision r) (ls_revision r + 1)).
    rewrite Ha. rsimpl. rewrite (proj2 (checked_add_Some _ _ _ (ls_revision r + 1))) by done. rsimpl.
    split; [done|]. destruct r'. unfold resulting_record. simpl in *. congruence.
Qed.

Lemma lease_terminal_stays r r' : lease_is_terminal (ls_state r) = true → ¬ lease_advances r r'.
Proof. intros Ht (_ & _ & _ & _ & action & Ha)%lease_step_iff. unfold next_state in Ha. by rewrite Ht in Ha. Qed.

(** What transitions keep. *)
Record lease_ok (identity : LeaseIdentity) (r : LeaseRecord) : Prop := {
  lo_identity : ls_identity r = identity;
  lo_valid : validate_lease r = Ok ();
  lo_revision : ls_revision r ≤ u64_max;
}.

Lemma validate_lease_Ok r :
  validate_lease r = Ok () ↔
  ls_schema_version r = LEASE_SCHEMA_VERSION ∧
  ¬ (li_kind (ls_identity r) = LeaseRun ∧ ls_state r = LeaseSleeping) ∧
  minimum_revision (ls_state r) ≤ ls_revision r.
Proof.
  unfold validate_lease. repeat case_match; bprop; try (split; [done|]); try naive_solver lia.
  destruct (bool_decide_reflect (li_kind (ls_identity r) = LeaseRun)),
    (bool_decide_reflect (ls_state r = LeaseSleeping)); naive_solver.
Qed.

Lemma lease_step_ok identity r r' : lease_ok identity r → lease_advances r r' → lease_ok identity r'.
Proof.
  intros [Hid Hv Hrev] (Hs & Hi & Hr & Hb & action & Ha)%lease_step_iff.
  apply validate_lease_Ok in Hv as (Hsch & Hsleep & Hmin). split; [congruence| |lia].
  apply validate_lease_Ok. split; [done|]. rewrite Hr. destruct r as [v [lid iid kind] state rev], r' as [v' id' state' rev'].
  simpl in *. subst id'. simpl. unfold next_state in Ha.
  destruct state, action; simpl in *; simplify_eq; try (split; [naive_solver|lia]);
    destruct kind; simplify_eq/=; (split; [naive_solver|lia]).
Qed.

Lemma lease_chain_ok identity r : rtc lease_advances (lease_pending identity) r → lease_ok identity r.
Proof.
  intros Hr. assert (lease_ok identity (lease_pending identity)) as Hp.
  { split; [done| |by apply N.leb_le]. apply validate_lease_Ok. split; [done|]. split; [by intros []|done]. }
  induction Hr; eauto using lease_step_ok.
Qed.

(** ** Every valid record can be reached *)

(** One step, from what it needs. *)
Lemma lease_take identity state state' revision :
  (∃ action, next_state (li_kind identity) state action = Ok state') → revision + 1 ≤ u64_max →
  lease_advances (mkLease LEASE_SCHEMA_VERSION identity state revision)
    (mkLease LEASE_SCHEMA_VERSION identity state' (revision + 1)).
Proof. intros Ha Hr. by apply lease_step_iff. Qed.

Definition renewable (state : LeaseState) : bool :=
  match state with
  | LeasePending | LeaseActive | LeaseSleeping => true
  | _ => false
  end.

Lemma lease_renewals identity state revision count :
  renewable state = true → revision + count ≤ u64_max →
  rtc lease_advances (mkLease LEASE_SCHEMA_VERSION identity state revision)
    (mkLease LEASE_SCHEMA_VERSION identity state (revision + count)).
Proof.
  intros Hs. induction count as [|count IH] using N.peano_ind; intros Hb; [by rewrite N.add_0_r|].
  eapply rtc_r; [apply IH; lia|]. rewrite N.add_succ_r, <-N.add_1_r. apply lease_take; [|lia].
  exists Renew. by destruct state.
Qed.

(** From pending to a state in one step, after renewals. *)
Lemma lease_reach_one identity state revision :
  (∃ action, next_state (li_kind identity) LeasePending action = Ok state) → 1 ≤ revision → revision ≤ u64_max →
  rtc lease_advances (lease_pending identity) (mkLease LEASE_SCHEMA_VERSION identity state revision).
Proof.
  intros Ha H1 Hb. replace revision with ((0 + (revision - 1)) + 1) by lia.
  eapply rtc_r; [apply (lease_renewals identity LeasePending 0 (revision - 1)); [done|lia]|].
  apply lease_take; [done|lia].
Qed.

Lemma lease_reach_two identity middle state revision :
  (∃ action, next_state (li_kind identity) LeasePending action = Ok middle) →
  (∃ action, next_state (li_kind identity) middle action = Ok state) → 2 ≤ revision → revision ≤ u64_max →
  rtc lease_advances (lease_pending identity) (mkLease LEASE_SCHEMA_VERSION identity state revision).
Proof.
  intros Ha Hb H2 Hmax. replace revision with ((revision - 1) + 1) by lia.
  eapply rtc_r; [apply (lease_reach_one identity middle (revision - 1)); [done|lia..]|].
  apply lease_take; [done|lia].
Qed.

Lemma lease_ok_reached identity r : lease_ok identity r → rtc lease_advances (lease_pending identity) r.
Proof.
  destruct r as [schema id state revision]. intros [Hid (Hs & Hk & Hm)%validate_lease_Ok Hr]. simpl in *. subst.
  destruct state; simpl in Hm.
  - replace revision with (0 + revision) by lia. by apply lease_renewals.
  - apply lease_reach_one; [by exists Activate|lia|done].
  - apply (lease_reach_two _ LeaseActive); [by exists Activate| |lia|done].
    exists Sleep. simpl. destruct (li_kind identity); naive_solver.
  - apply lease_reach_one; [by exists BeginRelease|lia|done].
  - apply (lease_reach_two _ LeaseReleasing); [by exists BeginRelease|by exists FinishRelease|lia|done].
  - apply lease_reach_one; [by exists Expire|lia|done].
  - apply lease_reach_one; [by exists Fail_|lia|done].
Qed.

(** (C32) The document accepts exactly the records that transitions lead to. *)
Theorem lease_document_exact r :
  ls_revision r ≤ u64_max →
  validate_lease r = Ok () ↔ rtc lease_advances (lease_pending (ls_identity r)) r.
Proof.
  intros Hr. split; [intros Hv; by apply lease_ok_reached|]. intros Hc. apply (lease_chain_ok _ _ Hc).
Qed.

(** ** The contract of a store

    [lease_contents] is what a store holds, and [lease_found] says what may be
    found in its place after the machine stops.  A call that fails has changed
    nothing, or has made its change and could not confirm it; a call that
    returns a receipt leaves nothing but its outcome to be found.
    [lease_reopens] is another process taking over, [lease_reboots] a restart of
    the machine; [lease_sound] is what the store itself keeps. *)

Definition lease_identity_ok (identity : LeaseIdentity) : Prop :=
  accepted LeaseId_parse (li_lease_id identity) ∧ accepted InstallationId_parse (li_installation_id identity).

Abbreviation leases := (gmap LeaseSelector LeaseRecord).

Definition lease_created (r : LeaseRecord) (m m' : leases) : Prop :=
  m !! from_identity (ls_identity r) = None ∧ m' = <[from_identity (ls_identity r) := r]> m.

Definition lease_replaced (expected : N) (r : LeaseRecord) (m m' : leases) : Prop :=
  ∃ current, m !! from_identity (ls_identity r) = Some current ∧ ls_identity current = ls_identity r ∧
    ls_revision current = expected ∧ ls_revision r = expected + 1 ∧
    m' = <[from_identity (ls_identity r) := r]> m.

(** How a store is looked at. *)
Record LeaseView (S : Type) := mkLeaseView {
  lease_contents : S → leases;
  lease_found : S → leases → Prop;
  lease_sound : S → Prop;
  lease_reopens : S → S → Prop;
  lease_reboots : S → S → Prop;
}.
Arguments lease_contents {S} _ _.
Arguments lease_found {S} _ _ _.
Arguments lease_sound {S} _ _.
Arguments lease_reopens {S} _ _ _.
Arguments lease_reboots {S} _ _ _.

Section views.
Context {S : Type} (view : LeaseView S).

Definition lease_kept (s s' : S) : Prop :=
  lease_sound view s' ∧ lease_contents view s' = lease_contents view s ∧
  ∀ m, lease_found view s' m → lease_found view s m.

Definition lease_written (confirmed : bool) (change : leases → leases → Prop) (s s' : S) : Prop :=
  lease_sound view s' ∧ change (lease_contents view s) (lease_contents view s') ∧
  ∀ m, lease_found view s' m → m = lease_contents view s' ∨ confirmed = false ∧ lease_found view s m.

Class LeaseStoreLaws `{LeaseStore S} : Prop := {
  lease_found_now s : lease_sound view s → lease_found view s (lease_contents view s);
  lease_load_effect selector s s' res :
    lease_sound view s → lease_load selector s = (s', res) →
    lease_kept s s' ∧ ∀ o, res = Ok o → o = lease_contents view s !! selector;
  lease_create_effect r s s' res :
    lease_sound view s → lease_identity_ok (ls_identity r) → lease_create r s = (s', res) →
    is_ok res = false ∧ lease_kept s s' ∨ lease_written (is_ok res) (lease_created r) s s';
  lease_replace_effect expected r s s' res :
    lease_sound view s → lease_identity_ok (ls_identity r) → lease_replace_if_revision expected r s = (s', res) →
    is_ok res = false ∧ lease_kept s s' ∨ lease_written (is_ok res) (lease_replaced expected r) s s';
  lease_reopen_effect s s' : lease_sound view s → lease_reopens view s s' → lease_kept s s';
  lease_reboot_effect s s' : lease_sound view s → lease_reboots view s s' →
    lease_sound view s' ∧ ∀ m, lease_found view s' m → lease_found view s m;
}.
End views.

(** Memory is not there any more after the process: it does not come back. *)
Definition memory_view : LeaseView MemoryLeaseStore :=
  mkLeaseView _ (λ records, records) (λ records m, m = records) (λ _, True) (λ _ _, False) (λ _ _, False).

#[export] Instance memory_store_laws : LeaseStoreLaws memory_view.
Proof.
  split; [done|..]; cbn.
  - intros selector s s' res _ [= <- <-]. split; [done|]. by intros o [= <-].
  - intros r s s' res _ _. unfold memory_lease_create. destruct (s !! _) eqn:Hs; intros [= <- <-]; [by left|].
    right. split_and!; [done|done|by left].
  - intros expected r s s' res _ _. unfold memory_lease_replace.
    destruct (s !! _) as [current|] eqn:Hs; [|intros [= <- <-]; by left].
    repeat case_match; intros [= <- <-]; try by left. bprop. right. split_and!; [done| |by left].
    exists current. rewrite checked_add_Some in *. naive_solver.
  - done.
  - done.
Qed.

(** ** Traces

    Any number of processes use the store.  [seen] are the records that loads
    returned and that a process may still plan from; [published] are the
    revisions whose publication was confirmed. *)

Section traces.
Context {S : Type} {view : LeaseView S} `{LAWS : !LeaseStoreLaws view (H := STORE)}.

Definition confirmed (res : result LeaseStoreError LeaseWriteReceipt) (r : LeaseRecord) : list (LeaseSelector * N) :=
  if is_ok res then [(from_identity (ls_identity r), ls_revision r)] else [].

Definition observed (res : result LeaseStoreError (option LeaseRecord)) : list LeaseRecord :=
  match res with
  | Ok (Some r) => [r]
  | _ => []
  end.

Inductive lease_trace (s0 : S) : list LeaseRecord → list (LeaseSelector * N) → S → Prop :=
| trace_start : lease_trace s0 [] [] s0
| trace_create seen published s identity s' res :
    lease_trace s0 seen published s → lease_identity_ok identity → lease_create (lease_pending identity) s = (s', res) →
    lease_trace s0 seen (confirmed res (lease_pending identity) ++ published) s'
| trace_load seen published s selector s' res :
    lease_trace s0 seen published s → lease_load selector s = (s', res) →
    lease_trace s0 (observed res ++ seen) published s'
| trace_replace seen published s selector expected action current next s' res :
    lease_trace s0 seen published s → current ∈ seen →
    catalog_plan selector expected action (Some current) = Ok next →
    lease_replace_if_revision expected next s = (s', res) →
    lease_trace s0 seen (confirmed res next ++ published) s'
| trace_reopen seen published s s' :
    lease_trace s0 seen published s → lease_reopens view s s' → lease_trace s0 seen published s'
| trace_reboot seen published s s' :
    lease_trace s0 seen published s → lease_reboots view s s' → lease_trace s0 [] published s'.

(** Everything a store holds can be reached, and is where its identity says. *)
Definition leases_reached (m : leases) : Prop :=
  ∀ selector r, m !! selector = Some r →
    from_identity (ls_identity r) = selector ∧ lease_identity_ok (ls_identity r) ∧
    rtc lease_advances (lease_pending (ls_identity r)) r.

(** One call publishes a record: the first of a lease, or the next one. *)
Definition lease_published (r : LeaseRecord) (m m' : leases) : Prop :=
  m' = <[from_identity (ls_identity r) := r]> m ∧
  match m !! from_identity (ls_identity r) with
  | None => r = lease_pending (ls_identity r)
  | Some current => lease_advances current r
  end.

(** A lease is at a published revision or beyond it. *)
Definition covers (m : leases) (entry : LeaseSelector * N) : Prop :=
  ∃ r, m !! entry.1 = Some r ∧ entry.2 ≤ ls_revision r.

(** A record that was loaded is still the current one, or it is stale. *)
Definition seen_in (m : leases) (r : LeaseRecord) : Prop :=
  lease_identity_ok (ls_identity r) ∧
  ∃ current, m !! from_identity (ls_identity r) = Some current ∧
    (current = r ∨ ls_revision r < ls_revision current).

Record lease_inv (seen : list LeaseRecord) (published : list (LeaseSelector * N)) (s : S) : Prop := {
  inv_sound : lease_sound view s;
  inv_found m : lease_found view s m → leases_reached m ∧ Forall (covers m) published;
  inv_once : NoDup published;
  inv_seen : Forall (seen_in (lease_contents view s)) seen;
}.

Lemma published_reached r m m' :
  leases_reached m → lease_identity_ok (ls_identity r) → lease_published r m m' → leases_reached m'.
Proof.
  intros Hm Hok [-> Hr] selector r'. destruct (decide (selector = from_identity (ls_identity r))) as [->|Hne].
  - rewrite lookup_insert_eq. intros [= <-]. split_and!; [done..|].
    destruct (m !! _) as [current|] eqn:Hc; [|by rewrite <-Hr].
    destruct (Hm _ _ Hc) as (_ & _ & Hch). pose proof (proj1 (lease_step_iff _ _) Hr) as (_ & -> & _). by eapply rtc_r.
  - rewrite lookup_insert_ne by done. apply Hm.
Qed.

(** Publishing only moves leases forward. *)
Lemma published_forward r m m' selector current :
  lease_published r m m' → m !! selector = Some current →
  ∃ current', m' !! selector = Some current' ∧ (current' = current ∨ ls_revision current < ls_revision current').
Proof.
  intros [-> Hr] Hc. destruct (decide (selector = from_identity (ls_identity r))) as [->|Hne].
  - rewrite Hc in Hr. apply lease_step_iff in Hr as (_ & _ & Hrev & _). exists r.
    rewrite lookup_insert_eq. split; [done|]. right. lia.
  - exists current. rewrite lookup_insert_ne by done. auto.
Qed.

Lemma covers_forward r m m' entry : lease_published r m m' → covers m entry → covers m' entry.
Proof.
  intros Hp (current & Hc & Hn). destruct (published_forward _ _ _ _ _ Hp Hc) as (c' & Hc' & Hf).
  exists c'. split; [done|]. destruct Hf as [->|]; [done|lia].
Qed.

Lemma seen_forward r m m' old : lease_published r m m' → seen_in m old → seen_in m' old.
Proof.
  intros Hp (Hok & current & Hc & Hn). destruct (published_forward _ _ _ _ _ Hp Hc) as (c' & Hc' & Hf).
  split; [done|]. exists c'. split; [done|]. destruct Hf as [->|], Hn as [->|]; auto; right; lia.
Qed.

(** A revision that is published was not covered before, and is afterwards. *)
Lemma published_new r m m' :
  lease_published r m m' →
  ¬ covers m (from_identity (ls_identity r), ls_revision r) ∧ covers m' (from_identity (ls_identity r), ls_revision r).
Proof.
  intros [-> Hr]. split.
  - intros (current & Hc & Hn). simpl in *. rewrite Hc in Hr. apply lease_step_iff in Hr as (_ & _ & Hrev & _). lia.
  - exists r. simpl. by rewrite lookup_insert_eq.
Qed.

Lemma inv_kept seen published s s' : lease_inv seen published s → lease_kept view s s' → lease_inv seen published s'.
Proof. intros [Hs Hf Ho He] (Hs' & Hc & Hf'). split; [done|auto|done|by rewrite Hc]. Qed.

Lemma inv_written seen published s s' r ok change :
  lease_inv seen published s → lease_identity_ok (ls_identity r) →
  (∀ m m', change m m' → m = lease_contents view s → lease_published r m m') →
  lease_written view ok change s s' →
  lease_inv seen ((if ok then [(from_identity (ls_identity r), ls_revision r)] else []) ++ published) s'.
Proof.
  intros [Hs Hf Ho He] Hok Hch (Hs' & Hc & Hf'). apply Hch in Hc as Hp; [|done].
  destruct (Hf _ (lease_found_now _ _ Hs)) as [Hre Hcov]. destruct (published_new _ _ _ Hp) as [Hfresh Hnow].
  pose proof (published_reached _ _ _ Hre Hok Hp) as Hre'.
  assert (Forall (covers (lease_contents view s')) published) as Hcov'
    by (eapply Forall_impl; [exact Hcov|intros; by eapply covers_forward]).
  split; [done| | |].
  - intros m [->|[-> Hm]]%Hf'; [split; [done|]|by apply Hf]. destruct ok; [by constructor|done].
  - destruct ok; [|done]. constructor; [|done]. intros Hin. by apply Hfresh, (proj1 (Forall_forall _ _) Hcov).
  - eapply Forall_impl; [exact He|]. intros. by eapply seen_forward.
Qed.

Lemma catalog_plan_Ok selector expected action current next :
  catalog_plan selector expected action (Some current) = Ok next →
  lease_advances current next ∧ ls_revision current = expected ∧ from_identity (ls_identity current) = selector.
Proof.
  unfold catalog_plan. cbn. case_match; [done|]. case_match; [done|]. bprop.
  destruct (plan_lease_transition current action) as [t| |] eqn:Ht; [|done..]. intros [= <-].
  split_and!; [by exists action, t|done..].
Qed.

(** A plan made from a record that was loaded publishes the next one, if the
    record is still current. *)
Lemma planned_publishes m expected current next m' :
  seen_in m current → lease_advances current next → ls_revision current = expected →
  lease_replaced expected next m m' → lease_published next m m'.
Proof.
  intros (_ & c & Hc & Hn) Hstep Hexp (c' & Hc' & _ & Hrev & _ & ->). split; [done|].
  pose proof (proj1 (lease_step_iff _ _) Hstep) as (_ & Hi & _). rewrite Hc'.
  rewrite Hi, Hc in Hc'. injection Hc' as <-. destruct Hn as [->|]; [done|lia].
Qed.

Lemma trace_inv s0 seen published s :
  lease_sound view s0 → (∀ m, lease_found view s0 m → m = ∅) →
  lease_trace s0 seen published s → lease_inv seen published s.
Proof.
  intros Hs0 Hf0. induction 1 as [|seen pub s identity s' res _ IH Hok Hc|seen pub s selector s' res _ IH Hl
    |seen pub s selector expected action current next s' res _ IH Hin Hplan Hr|seen pub s s' _ IH Hr|seen pub s s' _ IH Hr].
  - split; [done| |constructor|constructor]. intros m ->%Hf0. split; [|constructor].
    by intros ? ? ?%lookup_empty_Some.
  - destruct (lease_create_effect _ (lease_pending identity) _ _ _ (inv_sound _ _ _ IH) Hok Hc) as [[Hb Hk]|Hw].
    + unfold confirmed. rewrite Hb. by eapply inv_kept.
    + eapply inv_written; [done|done| |exact Hw]. intros m m' [Hn ->] _. split; [done|]. by rewrite Hn.
  - destruct (lease_load_effect _ _ _ _ _ (inv_sound _ _ _ IH) Hl) as [Hk Ho].
    pose proof (inv_kept _ _ _ _ IH Hk) as IH'. destruct res as [[r|]| |]; [|done..]. simpl.
    destruct IH' as [Hs' Hf' Hn' He']. split; [done..|]. constructor; [|done].
    destruct Hk as (_ & -> & _). pose proof (Ho _ eq_refl) as Hc. symmetry in Hc.
    destruct (inv_found _ _ _ IH _ (lease_found_now _ _ (inv_sound _ _ _ IH))) as [Hre _].
    destruct (Hre _ _ Hc) as (Hsel & ? & _). split; [done|]. exists r. rewrite Hsel. auto.
  - pose proof (proj1 (Forall_forall _ _) (inv_seen _ _ _ IH) _ Hin) as Hseen.
    apply catalog_plan_Ok in Hplan as (Hstep & Hexp & _).
    pose proof (proj1 (lease_step_iff _ _) Hstep) as (_ & Hi & _).
    assert (lease_identity_ok (ls_identity next)) as Hok by (rewrite Hi; apply Hseen).
    destruct (lease_replace_effect _ _ _ _ _ _ (inv_sound _ _ _ IH) Hok Hr) as [[Hb Hk]|Hw].
    + unfold confirmed. rewrite Hb. by eapply inv_kept.
    + eapply inv_written; [done|done| |exact Hw]. intros m m' Hrep ->. by eapply planned_publishes.
  - eapply inv_kept; [done|]. by apply (lease_reopen_effect _ _ _ (inv_sound _ _ _ IH)).
  - destruct (lease_reboot_effect _ _ _ (inv_sound _ _ _ IH) Hr) as [Hs' Hf'].
    destruct IH as [_ Hf Ho _]. split; [done|auto|done|constructor].
Qed.

(** (C31) Any number of processes load, create and transition leases in any order on
    any store that keeps the contract, plan from what they loaded before others
    published, fail, stop and restart: whatever is found holds leases that
    transitions lead to, each at the selector of its identity; no two
    publications of the same revision of a lease were confirmed; and no
    confirmed revision is ever lost. *)
Theorem lease_revisions_have_one_writer s0 seen published s :
  lease_sound view s0 → (∀ m, lease_found view s0 m → m = ∅) → lease_trace s0 seen published s →
  NoDup published ∧ ∀ m, lease_found view s m → leases_reached m ∧ Forall (covers m) published.
Proof. intros Hs Hf Ht. by destruct (trace_inv _ _ _ _ Hs Hf Ht). Qed.

(** A transition of the catalog is a load and a replacement. *)
Lemma catalog_transition_traced s0 seen published s selector expected action s' res :
  lease_trace s0 seen published s → catalog_transition selector expected action s = (s', res) →
  ∃ seen' published', lease_trace s0 seen' published' s' ∧
    ∀ r receipt, res = Ok (r, receipt) → (from_identity (ls_identity r), ls_revision r) ∈ published'.
Proof.
  intros Ht. unfold catalog_transition, pureM, mbind, stM_bind, mret, stM_ret.
  destruct (lease_load selector s) as [s1 loaded] eqn:Hl. pose proof (trace_load _ _ _ _ _ _ _ Ht Hl) as Ht1.
  assert (∀ s2 seen2 published2 (e : result LeaseStoreError (LeaseRecord * LeaseWriteReceipt)),
    is_ok e = false → lease_trace s0 seen2 published2 s2 → (s2, e) = (s', res) →
    ∃ seen' published', lease_trace s0 seen' published' s' ∧
      ∀ r receipt, res = Ok (r, receipt) → (from_identity (ls_identity r), ls_revision r) ∈ published') as Hbad.
  { intros s2 seen2 published2 e He Ht2 [= <- <-]. exists seen2, published2. split; [done|]. by intros r receipt ->. }
  destruct loaded as [[current|]| |]; [|by eapply Hbad..].
  destruct (catalog_plan _ _ _ _) as [next| |] eqn:Hplan; [|by eapply Hbad..].
  destruct (lease_replace_if_revision _ _ _) as [s2 replaced] eqn:Hr.
  pose proof (trace_replace _ _ _ _ _ _ _ current _ _ _ Ht1 ltac:(by left) Hplan Hr) as Ht2.
  destruct replaced as [receipt| |]; [|by eapply Hbad..].
  intros [= <- <-]. eexists _, _. split; [exact Ht2|]. intros r receipt' [= <- _]. by left.
Qed.
End traces.

(** ** Text *)

(** A pretty text with a newline after it reads as the record it is the text of. *)
Class LeaseSerdeLaws `{LSERDE : LeaseSerde} : Prop :=
  lease_reads wire text : lease_to_string wire = Some text →
    lease_from_slice (text +:+ newline_string)%string = Some wire.

Lemma lease_round_trip `{LAWS : LeaseSerdeLaws} r text :
  accepted LeaseId_parse (li_lease_id (ls_identity r)) →
  accepted InstallationId_parse (li_installation_id (ls_identity r)) →
  encode_lease_document r = Ok text → decode_lease_document text = Ok r.
Proof.
  intros Hid Hinst Henc. unfold encode_lease_document in Henc. inv_ok Henc. inv_opts. injection Henc as <-.
  unfold decode_lease_document.
  match goal with H : (_ <? str_len _) = false |- _ => rewrite H end.
  rewrite (lease_reads (lease_wire r)) by done. rsimpl. unfold lease_of_wire, lease_wire.
  cbn [wl_schema_version wl_lease_id wl_installation_id wl_kind wl_state wl_revision].
  match goal with H : validate_lease r = Ok _ |- _ => rename H into Hv end.
  pose proof (proj1 (validate_lease_Ok r) ltac:(by destruct y)) as (Hs & _ & _). rewrite Hs. cbn [negb N.eqb LEASE_SCHEMA_VERSION Pos.eqb].
  unfold accepted in *. rewrite Hid, Hinst. rsimpl.
  destruct r as [v [lid iid kind] state rev]. simpl in *. subst v.
  assert (parse_kind (lease_kind_text kind) = Ok kind) as -> by by destruct kind.
  assert (parse_state (lease_state_text state) = Ok state) as -> by by destruct state.
  rsimpl. by rewrite Hv.
Qed.

(** ** Samples *)

Definition sample_lease : LeaseIdentity := mkLeaseIdentity "lease-1" "installation-0001" LeaseWorkspace.

Definition sample_lease_selector : LeaseSelector := ("installation-0001", "lease-1")%string.

Lemma sample_lease_ok : lease_identity_ok sample_lease.
Proof. by split; vm_compute. Qed.

(** The records of the lease as it is activated and put to sleep. *)
Definition sample_lease_record (state : LeaseState) (revision : N) : LeaseRecord :=
  mkLease LEASE_SCHEMA_VERSION sample_lease state revision.

Definition sample_leases (r : LeaseRecord) : MemoryLeaseStore := {[sample_lease_selector := r]}.

Lemma sample_lease_created : lease_create (lease_pending sample_lease) (∅ : MemoryLeaseStore) =
  (sample_leases (sample_lease_record LeasePending 0), Ok (mkLeaseReceipt LeaseCreated 0)).
Proof. cbn [lease_create memory_lease_store]. reflexivity. Qed.

Lemma sample_lease_loaded r : lease_load sample_lease_selector (sample_leases r) = (sample_leases r, Ok (Some r)).
Proof. cbn [lease_load memory_lease_store]. unfold sample_leases, MemoryLeaseStore. by rewrite lookup_singleton_eq. Qed.

Lemma sample_lease_activated :
  lease_replace_if_revision 0 (sample_lease_record LeaseActive 1) (sample_leases (sample_lease_record LeasePending 0)) =
  (sample_leases (sample_lease_record LeaseActive 1), Ok (mkLeaseReceipt LeaseReplaced 1)).
Proof.
  cbn [lease_replace_if_revision memory_lease_store]. unfold memory_lease_replace, sample_leases, MemoryLeaseStore.
  change (from_identity _) with sample_lease_selector. rewrite lookup_singleton_eq, insert_singleton_eq. reflexivity.
Qed.

Lemma sample_lease_expiry_refused :
  lease_replace_if_revision 0 (sample_lease_record LeaseExpired 1) (sample_leases (sample_lease_record LeaseActive 1)) =
  (sample_leases (sample_lease_record LeaseActive 1), Err (LseStaleRevision 0 1)).
Proof.
  cbn [lease_replace_if_revision memory_lease_store]. unfold memory_lease_replace, sample_leases, MemoryLeaseStore.
  change (from_identity _) with sample_lease_selector. by rewrite lookup_singleton_eq.
Qed.

(** Two processes load a pending lease; one of them activates it, the other
    then fails to expire it. *)
Lemma sample_lease_trace :
  lease_trace (view := memory_view) (STORE := memory_lease_store) ∅
    [sample_lease_record LeasePending 0; sample_lease_record LeasePending 0]
    [(sample_lease_selector, 1); (sample_lease_selector, 0)]
    (sample_leases (sample_lease_record LeaseActive 1)).
Proof.
  pose proof (trace_create (view := memory_view) ∅ [] [] ∅ sample_lease _ _ (trace_start _) sample_lease_ok sample_lease_created) as T1.
  pose proof (trace_load _ _ _ _ _ _ _ T1 (sample_lease_loaded _)) as T2.
  pose proof (trace_load _ _ _ _ _ _ _ T2 (sample_lease_loaded _)) as T3.
  pose proof (trace_replace _ _ _ _ sample_lease_selector 0 Activate (sample_lease_record LeasePending 0) _ _ _ T3
    ltac:(by left) eq_refl sample_lease_activated) as T4.
  exact (trace_replace _ _ _ _ sample_lease_selector 0 Expire (sample_lease_record LeasePending 0) _ _ _ T4
    ltac:(by left) eq_refl sample_lease_expiry_refused).
Qed.

Lemma lease_revisions_have_one_writer_witness :
  NoDup [(sample_lease_selector, 1); (sample_lease_selector, 0)] ∧
  leases_reached (sample_leases (sample_lease_record LeaseActive 1)).
Proof.
  pose proof (lease_revisions_have_one_writer (LAWS := memory_store_laws) ∅ _ _ _ I (λ _ H, H) sample_lease_trace) as [Hn Hf].
  split; [exact Hn|]. apply (Hf _ eq_refl).
Defined.

Lemma lease_document_exact_witness :
  rtc lease_advances (lease_pending sample_lease) (sample_lease_record LeaseSleeping 7).
Proof.
  apply (lease_document_exact (sample_lease_record LeaseSleeping 7)); [by apply N.leb_le|].
  vm_compute. reflexivity.
Defined.
