(* ===== verification/LeaseDisk.v ===== *)
(** * Leases on disk

    [src/src/linux_lease_store.rs]: one document per lease below the directory
    [leases] of an installation, replaced by staging its successor under a name
    of its own, synchronizing it, renaming it into place and synchronizing the
    directory, under the lock [leases.lock] of the installation.

    Each of the two directories is a [World] of [FileSystem]: the installation
    holds the lock and the entry of the other one, and its descriptor is
    [w_dir].  A program over both calls the operating system in one of them at a
    time.  The guard of a stage is that of [UnixStore], whose source it shares
    word for word. *)

From stdpp Require Import pretty.
From S2P Require Import Prelude Artifact Leases FileSystem UnixStore.

Local Open Scope N_scope.

Definition LEASE_DIRECTORY_MODE : N := 488. (* 0o750 *)
Definition LEASE_FILE_MODE : N := 384. (* 0o600 *)
Definition LEASES_DIRECTORY : string := "leases".
Definition LEASES_LOCK_FILE : string := "leases.lock".
Definition LEASE_FILE_SUFFIX : string := ".json".

(** ** The two directories *)

Record LeaseDisk := mkLeaseDisk {
  ld_installation : World;
  ld_leases : World;
  ld_process : N;
  ld_sequence : N; (* NEXT_TEMP_FILE *)
}.

Definition in_installation {E A} (m : io E A) : prog LeaseDisk E A := λ d,
  let '(w, out) := m (ld_installation d) in
  (mkLeaseDisk w (ld_leases d) (ld_process d) (ld_sequence d), out).

Definition in_leases {E A} (m : io E A) : prog LeaseDisk E A := λ d,
  let '(w, out) := m (ld_leases d) in
  (mkLeaseDisk (ld_installation d) w (ld_process d) (ld_sequence d), out).

(** [openat] with [O_DIRECTORY | O_NOFOLLOW]. *)
Definition open_directory (name : string) : io Errno string :=
  atomic (λ w,
    match w_now w !! name with
    | None => (w, Err NOENT)
    | Some f =>
        match f_type f with
        | DirectoryFile => (w, Ok name)
        | SymlinkFile => (w, Err LOOP)
        | _ => (w, Err NOTDIR)
        end
    end).

Definition mkdirat (name : string) (mode : N) : io Errno unit :=
  atomic (λ w,
    match w_now w !! name with
    | Some _ => (w, Err EXIST)
    | None =>
        (change_entries (<[name := mkFile DirectoryFile 2 (N.ldiff mode (w_umask w)) (w_creator w) [] true]>
                           (w_now w)) w, Ok ())
    end).

(** ** Errors *)

Definition map_installation_open_error (error : Errno) : LeaseStoreError :=
  match error with
  | LOOP | NOTDIR => LseUnsafeFilesystem
  | NOENT => LseMissing
  | _ => LseIo
  end.

Definition map_leases_open_error (error : Errno) : LeaseStoreError :=
  match error with
  | LOOP | NOTDIR => LseUnsafeFilesystem
  | _ => LseIo
  end.

Definition map_lease_lock_open_error (error : Errno) : LeaseStoreError :=
  match error with
  | LOOP | NOTDIR | ISDIR => LseUnsafeFilesystem
  | _ => LseIo
  end.

Definition map_lease_open_error (error : Errno) : LeaseStoreError :=
  match error with
  | LOOP | NOTDIR | ISDIR => LseUnsafeFilesystem
  | _ => LseIo
  end.

Definition map_temp_create_error (error : Errno) : LeaseStoreError :=
  match error with
  | EXIST => LseStageCollision
  | LOOP | NOTDIR | ISDIR => LseUnsafeFilesystem
  | _ => LseIo
  end.

Definition lease_io {E} (_ : E) : LeaseStoreError := LseIo.

(** ** Inspection *)

(** [fstat] of the directory is an argument: of the installation by its
    descriptor, of [leases] by its entry. *)
Definition lease_inspect_directory (fstat : io Errno Stat) (expected_owner : option (N * N))
    : io LeaseStoreError Stat :=
  stat ← failing lease_io fstat;
  if negb (bool_decide (st_type stat = DirectoryFile)) then lift (Err LseUnsafeFilesystem)
  else if negb (N.land (st_mode stat) 4095 =? LEASE_DIRECTORY_MODE) then lift (Err LseUnsafeFilesystem)
  else if match expected_owner with
          | Some owner => bool_decide (owner ≠ st_owner stat)
          | None => false
          end
  then lift (Err LseUnsafeFilesystem)
  else mret stat.

Definition lease_inspect_private_file (file : string) (owner : N * N) (expected_size : option N)
    : io LeaseStoreError unit :=
  stat ← failing lease_io (fstat file);
  if negb (bool_decide (st_type stat = RegularFile)) then lift (Err LseUnsafeFilesystem)
  else if negb (st_nlink stat =? 1) then lift (Err LseUnsafeFilesystem)
  else if negb (N.land (st_mode stat) 4095 =? LEASE_FILE_MODE) then lift (Err LseUnsafeFilesystem)
  else if bool_decide (owner ≠ st_owner stat) then lift (Err LseUnsafeFilesystem)
  else if match expected_size with
          | Some expected => negb (st_size stat =? expected)
          | None => false
          end
  then lift (Err LseCorruptState)
  else mret ().

Definition lease_synchronize_directory : io LeaseStoreError unit := failing lease_io fsync_dir.

(** ** Opening *)

Record LinuxLeaseStore := mkLinuxLeaseStore {
  ll_installation_id : string;
  ll_owner : N * N;
}.

Definition prepare_leases_directory (owner : N * N) (created : bool) : io LeaseStoreError unit :=
  directory ← failing map_leases_open_error (open_directory LEASES_DIRECTORY);
  _ ← (if created then failing lease_io (fchmod directory LEASE_DIRECTORY_MODE) else mret ());
  _ ← lease_inspect_directory (fstat directory) (Some owner);
  if created then lease_synchronize_directory else mret ().

Definition ensure_leases_directory (owner : N * N) : io LeaseStoreError unit :=
  catch (open_directory LEASES_DIRECTORY) (λ opened,
    match opened with
    | Ok directory =>
        _ ← lease_inspect_directory (fstat directory) (Some owner);
        mret ()
    | Err NOENT =>
        created ← catch (mkdirat LEASES_DIRECTORY LEASE_DIRECTORY_MODE) (λ made,
          match made with
          | Ok _ => mret true
          | Err EXIST => mret false
          | Err _ => lift (Err LseIo)
          | Panic => lift Panic
          end);
        prepare_leases_directory owner created
    | Err error => lift (Err (map_leases_open_error error))
    | Panic => lift Panic
    end).

(** The guard [CreatedLeaseLock]: unless the block succeeds, the lock goes. *)
Definition unless_created {A} (body : io LeaseStoreError A) : io LeaseStoreError A :=
  catch body (λ r, match r with
                   | Ok a => lift (Ok a)
                   | _ => _ ← ignoring (unlinkat LEASES_LOCK_FILE); lift r
                   end).

Definition ensure_lock_file (owner : N * N) : io LeaseStoreError unit :=
  catch (openat (OpenNew LEASE_FILE_MODE) LEASES_LOCK_FILE) (λ opened,
    match opened with
    | Ok lock =>
        unless_created (
          _ ← failing lease_io (fchmod lock LEASE_FILE_MODE);
          _ ← lease_inspect_private_file lock owner (Some 0);
          _ ← failing lease_io (sync_all lock);
          lease_synchronize_directory)
    | Err EXIST =>
        lock ← failing map_lease_lock_open_error (openat OpenReadWrite LEASES_LOCK_FILE);
        lease_inspect_private_file lock owner (Some 0)
    | Err error => lift (Err (map_lease_lock_open_error error))
    | Panic => lift Panic
    end).

Definition open_or_create (installation_id : string) : prog LeaseDisk LeaseStoreError LinuxLeaseStore :=
  in_installation (
    _ ← failing map_installation_open_error (open_dir w_dir);
    installation_stat ← lease_inspect_directory (fstat_dir w_dir) None;
    let owner := st_owner installation_stat in
    _ ← ensure_leases_directory owner;
    _ ← ensure_lock_file owner;
    mret (mkLinuxLeaseStore installation_id owner)).

(** ** Names *)

Definition lease_file_name (selector : LeaseSelector) : string := (selector.2 +:+ LEASE_FILE_SUFFIX)%string.

Definition temporary_file_name {E} (selector : LeaseSelector) : prog LeaseDisk E string := λ d,
  (mkLeaseDisk (ld_installation d) (ld_leases d) (ld_process d) ((ld_sequence d + 1) mod (u64_max + 1)),
   Done (Ok ("." +:+ selector.2 +:+ "-" +:+ pretty (ld_process d) +:+ "-" +:+ pretty (ld_sequence d) +:+ ".tmp")%string)).

(** ** The store *)

Section store.
Context `{LSERDE : LeaseSerde} (self : LinuxLeaseStore).

Definition validate_selector (selector : LeaseSelector) : result LeaseStoreError () :=
  if negb (String.eqb selector.1 (ll_installation_id self)) then Err LseCorruptState else Ok ().

Definition validate_lease_record (record : LeaseRecord) : result LeaseStoreError LeaseSelector :=
  if negb (ls_schema_version record =? LEASE_SCHEMA_VERSION) then Err LseCorruptState
  else
    let selector := from_identity (ls_identity record) in
    _ ← validate_selector selector;
    Ok selector.

Definition acquire_lease_lock : io LeaseStoreError unit :=
  lock ← failing map_lease_lock_open_error (openat OpenReadWrite LEASES_LOCK_FILE);
  _ ← lease_inspect_private_file lock (ll_owner self) (Some 0);
  failing (λ error, match error with AGAIN => LseBusy | _ => LseIo end) flock_exclusive.

(** A block that holds the guard [LeaseMutationLock]. *)
Definition lease_locked {A} (body : prog LeaseDisk LeaseStoreError A) : prog LeaseDisk LeaseStoreError A :=
  _ ← in_installation acquire_lease_lock;
  catch body (λ r, catch (in_installation funlock) (λ _, lift r)).

Definition read_lease (selector : LeaseSelector) : io LeaseStoreError (option LeaseRecord) :=
  catch (openat OpenReadOnly (lease_file_name selector)) (λ opened,
    match opened with
    | Err NOENT => mret None
    | Err error => lift (Err (map_lease_open_error error))
    | Panic => lift Panic
    | Ok file =>
        _ ← lease_inspect_private_file file (ll_owner self) None;
        bytes ← failing lease_io (read_to_end file (MAX_LEASE_DOCUMENT_BYTES + 1));
        if MAX_LEASE_DOCUMENT_BYTES <? N.of_nat (length bytes) then lift (Err LseCorruptState)
        else
          record ← lift (map_err (λ _, LseCorruptState)
                     (decode_lease_document (String.string_of_list_ascii bytes)));
          if negb (bool_decide (from_identity (ls_identity record) = selector)) then lift (Err LseCorruptState)
          else mret (Some record)
    end).

Definition lease_load_locked (selector : LeaseSelector) : prog LeaseDisk LeaseStoreError (option LeaseRecord) :=
  _ ← lift (validate_selector selector);
  in_leases (read_lease selector).

Definition stage_lease (name : string) (encoded : bytes) : io LeaseStoreError StagedDocument :=
  file ← failing map_temp_create_error (openat (OpenNew LEASE_FILE_MODE) name);
  let staged := mkStaged name (Some file) true in
  unless_ok staged (
    opened ← lift (expect (sg_file staged));
    _ ← failing lease_io (fchmod opened LEASE_FILE_MODE);
    _ ← lease_inspect_private_file opened (ll_owner self) (Some 0);
    file ← lift (expect (sg_file staged));
    _ ← failing lease_io (write_all file encoded);
    _ ← failing lease_io (sync_all file);
    _ ← lease_inspect_private_file file (ll_owner self) (Some (N.of_nat (length encoded)));
    mret (mkStaged name (Some file) true)).

Definition stage_lease_document (selector : LeaseSelector) (encoded : bytes)
    : prog LeaseDisk LeaseStoreError StagedDocument :=
  name ← temporary_file_name selector;
  in_leases (stage_lease name encoded).

(** Renaming a stage into place, and the directory to disk; the stage comes back
    with the result, since its caller drops it. *)
Definition publish_lease (staged : StagedDocument) (final_name : string) (no_replace : bool)
    (rename_error : Errno → LeaseStoreError)
    : io LeaseStoreError (StagedDocument * result LeaseStoreError unit) :=
  catch (failing rename_error (renameat (sg_name staged) final_name no_replace)) (λ renamed,
    match renamed with
    | Ok _ =>
        let staged := disarm staged in
        catch lease_synchronize_directory (λ r, mret (staged, r))
    | r => mret (staged, r)
    end).

Definition linux_lease_create (record : LeaseRecord) : prog LeaseDisk LeaseStoreError LeaseWriteReceipt :=
  selector ← lift (validate_lease_record record);
  encoded ← lift (map_err (λ _, LseCorruptState) (encode_lease_document record));
  lease_locked (
    loaded ← lease_load_locked selector;
    if is_some loaded then lift (Err LseAlreadyExists)
    else
      staged ← stage_lease_document selector (String.list_ascii_of_string encoded);
      _ ← in_leases (always_drop (publish_lease staged (lease_file_name selector) true
        (λ error, match error with EXIST => LseAlreadyExists | _ => LseIo end)));
      mret (mkLeaseReceipt LeaseCreated (ls_revision record))).

Definition linux_lease_replace (expected_revision : N) (record : LeaseRecord)
    : prog LeaseDisk LeaseStoreError LeaseWriteReceipt :=
  selector ← lift (validate_lease_record record);
  next_revision ← lift (ok_or (checked_add u64_max expected_revision 1) LseRevisionExhausted);
  if negb (ls_revision record =? next_revision) then lift (Err LseRevisionSkips)
  else
    encoded ← lift (map_err (λ _, LseCorruptState) (encode_lease_document record));
    lease_locked (
      loaded ← lease_load_locked selector;
      current ← lift (ok_or loaded LseMissing);
      if negb (bool_decide (ls_identity current = ls_identity record)) then lift (Err LseCorruptState)
      else if negb (ls_revision current =? expected_revision)
      then lift (Err (LseStaleRevision expected_revision (ls_revision current)))
      else
        staged ← stage_lease_document selector (String.list_ascii_of_string encoded);
        _ ← in_leases (always_drop (publish_lease staged (lease_file_name selector) false lease_io));
        mret (mkLeaseReceipt LeaseReplaced (ls_revision record))).
End store.
