(* ===== verification/LeaseDiskTheorems.v ===== *)
(** * What the store of leases guarantees

    The leases a directory holds are read off its entries.  Whatever fails and
    wherever a process stops, a call of the store keeps the contract of
    [LeaseTheorems]: it publishes one record or none, and what it confirmed is
    what every restart of the machine finds. *)

From S2P Require Import Prelude Artifact JournalDocument Leases LeaseTheorems FileSystem UnixStore UnixSteps.
From S2P Require Import UnixTheorems DiskLogic LeaseDisk.

Local Open Scope N_scope.

(** ** Names *)

Lemma string_app_bytes a b :
  String.list_ascii_of_string (a +:+ b)%string = String.list_ascii_of_string a ++ String.list_ascii_of_string b.
Proof. induction a as [|c a IH]; [done|]. simpl. by rewrite IH. Qed.

Lemma string_bytes_inj a b : String.list_ascii_of_string a = String.list_ascii_of_string b → a = b.
Proof.
  intros H. rewrite <-(String.string_of_list_ascii_of_string a), H.
  apply String.string_of_list_ascii_of_string.
Qed.

Lemma lease_name_inj selector selector' :
  lease_file_name selector = lease_file_name selector' → selector.2 = selector'.2.
Proof.
  unfold lease_file_name. intros H%(f_equal String.list_ascii_of_string). rewrite !string_app_bytes in H.
  by apply app_inv_tail, string_bytes_inj in H.
Qed.

(** A stage is not where any lease is. *)
Definition off_leases (name : string) : Prop := ∀ selector, lease_file_name selector ≠ name.

Lemma temporary_off_leases {E} selector d :
  ∃ name d', temporary_file_name (E := E) selector d = (d', Done (Ok name)) ∧ off_leases name ∧
    ld_leases d' = ld_leases d ∧ ld_installation d' = ld_installation d.
Proof.
  unfold temporary_file_name. eexists _, _. split_and!; [done| |done..].
  intros selector' H%(f_equal (λ s, last (String.list_ascii_of_string s))).
  unfold lease_file_name, LEASE_FILE_SUFFIX in H. rewrite !string_app_bytes, !last_app in H. done.
Qed.

(** ** What a directory holds *)

Section view.
Context `{LSERDE : LeaseSerde}.

Definition lease_in (f : File) : option LeaseRecord :=
  match decode_lease_document (String.string_of_list_ascii (f_bytes f)) with
  | Ok r => Some r
  | _ => None
  end.

Definition lease_entry (entry : string * File) : option (LeaseSelector * LeaseRecord) :=
  r ← lease_in entry.2;
  if String.eqb (lease_file_name (from_identity (ls_identity r))) entry.1
  then Some (from_identity (ls_identity r), r) else None.

Definition leases_in (img : entries) : leases := list_to_map (omap lease_entry (map_to_list img)).

(** A lease is where its document says. *)
Definition lease_at (img : entries) (selector : LeaseSelector) (r : LeaseRecord) : Prop :=
  ∃ f, img !! lease_file_name selector = Some f ∧ lease_in f = Some r ∧ from_identity (ls_identity r) = selector.

Lemma lease_entry_Some name f selector r :
  lease_entry (name, f) = Some (selector, r) ↔
  lease_in f = Some r ∧ from_identity (ls_identity r) = selector ∧ lease_file_name selector = name.
Proof.
  unfold lease_entry. simpl. destruct (lease_in f) as [r'|]; simpl; [|naive_solver].
  destruct (String.eqb_spec (lease_file_name (from_identity (ls_identity r'))) name); naive_solver.
Qed.

Lemma lookup_leases_in img selector r : leases_in img !! selector = Some r ↔ lease_at img selector r.
Proof.
  assert (∀ r', (selector, r') ∈ omap lease_entry (map_to_list img) ↔ lease_at img selector r') as Hin.
  { intros r'. rewrite list_elem_of_omap. split.
    - intros ([name f] & Hf%elem_of_map_to_list & (? & ? & <-)%lease_entry_Some). by exists f.
    - intros (f & Hf & Hr & Hs). exists (lease_file_name selector, f). split; [by apply elem_of_map_to_list|].
      by apply lease_entry_Some. }
  split.
  - intros H%elem_of_list_to_map_2. by apply Hin.
  - intros H. apply elem_of_list_to_map_1'; [|by apply Hin]. intros r' H'%Hin.
    destruct H as (f & Hf & Hr & _), H' as (f' & Hf' & Hr' & _). congruence.
Qed.

Lemma leases_in_eq img img' :
  (∀ selector, img' !! lease_file_name selector = img !! lease_file_name selector) → leases_in img' = leases_in img.
Proof.
  intros H. apply map_eq. intros selector. apply option_eq. intros r. rewrite !lookup_leases_in.
  unfold lease_at. by rewrite H.
Qed.

(** Entries that are not leases do not matter. *)
Lemma leases_in_stage name f img : off_leases name → leases_in (<[name := f]> img) = leases_in img.
Proof. intros Hoff. apply leases_in_eq. intros selector. by rewrite lookup_insert_ne by (intros ?; by eapply Hoff). Qed.

Lemma leases_in_unstage name img : off_leases name → leases_in (delete name img) = leases_in img.
Proof. intros Hoff. apply leases_in_eq. intros selector. by rewrite lookup_delete_ne by (intros ?; by eapply Hoff). Qed.

(** A document of the lease, where at most the lease was. *)
Lemma leases_in_insert selector f r img :
  lease_in f = Some r → from_identity (ls_identity r) = selector →
  (∀ f', img !! lease_file_name selector = Some f' → is_Some (leases_in img !! selector)) →
  leases_in (<[lease_file_name selector := f]> img) = <[selector := r]> (leases_in img).
Proof.
  intros Hf Hs Hold. apply map_eq. intros selector'. apply option_eq. intros r'.
  rewrite lookup_leases_in. destruct (decide (selector' = selector)) as [->|Hne].
  - rewrite lookup_insert_eq. unfold lease_at. rewrite lookup_insert_eq. naive_solver.
  - rewrite lookup_insert_ne by done. rewrite lookup_leases_in. unfold lease_at.
    destruct (decide (lease_file_name selector = lease_file_name selector')) as [Heq|Hn];
      [|by rewrite lookup_insert_ne by done].
    rewrite Heq in *. rewrite lookup_insert_eq. split.
    + intros (f' & [= <-] & Hr' & Hs'). congruence.
    + intros (f' & Hf' & Hr' & Hs'). destruct (Hold f' Hf') as [r0 (g & Hg & Hr0 & Hs0)%lookup_leases_in]. congruence.
Qed.
End view.

(** ** Programs over the two directories *)

(** Every directory that may be found as the installation has its leases. *)
Definition installed (img : entries) : Prop := is_Some (img !! LEASES_DIRECTORY).

(** [I] of the directory of the leases, whose entry in the installation is durable. *)
Definition on_leases (I : World → Prop) (d : LeaseDisk) : Prop :=
  images installed (ld_installation d) ∧ I (ld_leases d).

Lemma on_leases_mono (I J : World → Prop) d : on_leases I d → (∀ w, I w → J w) → on_leases J d.
Proof. intros [? ?] ?. split; auto. Qed.

Lemma wp_in_leases {E A} (m : io E A) I Q d :
  images installed (ld_installation d) → wp m (ensures I Q) (ld_leases d) →
  wp (in_leases m) (ensures (on_leases I) (λ a, on_leases (Q a))) d.
Proof. unfold wp, in_leases. intros Hi. destruct (m (ld_leases d)) as [w [[]|]]; by split. Qed.

(** What is quiet in the installation leaves the leases alone. *)
Lemma wp_in_installation {E A} (m : io E A) `{QUIET : !Quiet m} I d :
  on_leases I d → wp (in_installation m) (λ _, on_leases I) d.
Proof.
  intros [Hi HI]. pose proof (quiet (ld_installation d)) as Hq. unfold wp, in_installation in *.
  destruct (m (ld_installation d)) as [w out]. split; [|done]. by eapply keeps_images.
Qed.

#[export] Instance quiet_lease_inspect_private_file file owner size :
  Quiet (lease_inspect_private_file file owner size).
Proof. unfold lease_inspect_private_file. solve_quiet. Qed.
#[export] Instance quiet_lease_inspect_directory m owner : Quiet m → Quiet (lease_inspect_directory m owner).
Proof. intros. unfold lease_inspect_directory. solve_quiet. Qed.
#[export] Instance quiet_lease_synchronize_directory : Quiet lease_synchronize_directory.
Proof. unfold lease_synchronize_directory. solve_quiet. Qed.
#[export] Instance quiet_failing_call {E E' A} (f : E → E') (m : io E A) : Quiet m → Quiet (failing f m).
Proof. apply quiet_failing. Qed.

Section store.
Context `{LAWS : LeaseSerdeLaws} (self : LinuxLeaseStore).

#[export] Instance quiet_acquire_lease_lock : Quiet (acquire_lease_lock self).
Proof. unfold acquire_lease_lock. solve_quiet. Qed.

(** A block under the lock of the installation. *)
Lemma wp_lease_locked {A} (body : prog LeaseDisk LeaseStoreError A) (J I : World → Prop) Q d :
  on_leases J d → (∀ w, J w → I w) → (∀ a w, Q a w → I w) →
  (∀ d', on_leases J d' → wp body (ensures (on_leases I) (λ a, on_leases (Q a))) d') →
  wp (lease_locked self body) (ensures (on_leases I) (λ a, on_leases (Q a))) d.
Proof.
  intros HJ HJI HQI Hbody. apply wp_catch. eapply wp_mono; [by apply wp_in_installation; [solve_quiet|]|].
  intros [[u|e|]|] d1 H1; [|by eapply on_leases_mono..].
  apply wp_catch. eapply wp_mono; [by apply Hbody|]. intros [r|] d2 H2; [|done]. apply wp_catch.
  assert (on_leases (λ w, ensures I Q (Done r) w) d2) as H2' by by destruct r.
  eapply wp_mono; [by apply wp_in_installation; [solve_quiet|]|]. intros [_|] d3 H3; [by destruct r|].
  eapply on_leases_mono; [done|]. intros w Hw. destruct r as [a|e|]; [by eapply HQI|done..].
Qed.

(** Reading finds what the directory holds. *)
Lemma wp_read_lease selector now φ w :
  St now φ w →
  wp (read_lease self selector) (ensures (St now φ) (λ o w', St now φ w' ∧
    match o with
    | None => now !! lease_file_name selector = None
    | Some r => lease_at now selector r
    end)) w.
Proof.
  intros Hst. apply wp_catch. eapply wp_mono; [by apply wp_openat_read|].
  intros [[fd|e|]|] w2 [Hst2 Hr]; [|by destruct e|done..]. subst fd.
  eapply wp_bind_quiet; [solve_quiet|done..|]. intros _ w3 Hst3.
  eapply wp_bind; [by apply wp_failing, wp_read_to_end|].
  intros b w4 (Hst4 & f & Hf & ->). case_match; [done|].
  eapply wp_bind_lift; [done|]. intros r Hr'. case_match; [done|]. apply wp_lift. split; [done|].
  bprop. exists f. split_and!; [done| |done]. unfold lease_in.
  rewrite take_upto_all in Hr' by done. by destruct (decode_lease_document _) as [r'| |]; simplify_eq/=.
Qed.

(** ** Writing *)

(** The documents of leases are durable. *)
Definition settled_img (img : entries) : Prop :=
  ∀ selector f, img !! lease_file_name selector = Some f → f_stable f = true.

Lemma settled_stage name f img : off_leases name → settled_img img → settled_img (<[name := f]> img).
Proof. intros Hoff Hs selector g. rewrite lookup_insert_ne by (intros ?; by eapply Hoff). apply Hs. Qed.

Lemma settled_unstage name img : off_leases name → settled_img img → settled_img (delete name img).
Proof. intros Hoff Hs selector g. rewrite lookup_delete_ne by (intros ?; by eapply Hoff). apply Hs. Qed.

(** A directory that holds [m]. *)
Definition holding_leases (m : leases) (img : entries) : Prop := settled_img img ∧ leases_in img = m.

(** A directory that may be found, in terms of the leases it holds. *)
Definition among (F : leases → Prop) (img : entries) : Prop := settled_img img ∧ F (leases_in img).

Lemma holding_stage m name f img : off_leases name → holding_leases m img → holding_leases m (<[name := f]> img).
Proof. intros Hoff [? ?]. split; [by apply settled_stage|]. by rewrite leases_in_stage. Qed.

Lemma holding_unstage m name img : off_leases name → holding_leases m img → holding_leases m (delete name img).
Proof. intros Hoff [? ?]. split; [by apply settled_unstage|]. by rewrite leases_in_unstage. Qed.

Lemma holding_among (F : leases → Prop) m img : F m → holding_leases m img → among F img.
Proof. intros HF [? ?]. split; [done|]. by subst. Qed.

(** What a call leaves: the leases as they were, or with one published. *)
Definition now_holds (F : leases → Prop) (m : leases) : World → Prop := leaves (holding_leases m) (among F).

Section writing.
Context (F : leases → Prop) (m : leases) (HF : F m) (selector : LeaseSelector) (r : LeaseRecord)
  (Hsel : from_identity (ls_identity r) = selector) (enc : bytes)
  (Henc : ∀ f, f_bytes f = enc → lease_in f = Some r).

Definition writing_left (w : World) : Prop := now_holds F m w ∨ now_holds F (<[selector := r]> m) w.

Lemma St_writing base w : holding_leases m base → St base (among F) w → now_holds F m w.
Proof. intros Hb Hst. by eapply St_leaves. Qed.

Lemma wp_stage_lease name base w :
  off_leases name → holding_leases m base → St base (among F) w →
  wp (stage_lease self name enc) (ensures (now_holds F m) (λ sg w', sg = mkStaged name (Some name) true ∧
    ∃ f, settled_as enc f ∧ St (<[name := f]> base) (among F) w')) w.
Proof.
  intros Hoff Hb Hst. assert (∀ img, staging_now name enc base img → holding_leases m img) as Hnow.
  { intros img [->|(f & _ & ->)]; [done|]. by apply holding_stage. }
  eapply wp_ensures;
    [by apply (wp_stage_file _ _ _ _ _ (λ fd size, lease_inspect_private_file fd (ll_owner self) size))|..].
  - intros w' Hw'. eapply leaves_mono; [exact Hw'|done|]. intros img [?|?%Hnow]; [done|]. by eapply holding_among.
  - intros sg w' (-> & _ & f & Hf & Hst'). split; [done|]. exists f. split; [done|].
    eapply St_mono; [done|]. intros img [?| ->]; [done|]. by eapply holding_among.
Qed.

(** The lease goes where at most the lease was. *)
Definition vacant (base : entries) : Prop :=
  ∀ f, base !! lease_file_name selector = Some f → is_Some (leases_in base !! selector).

Lemma published_holds name base f :
  off_leases name → holding_leases m base → vacant base → settled_as enc f →
  holding_leases (<[selector := r]> m) (published_at (lease_file_name selector) name (<[name := f]> base) f).
Proof.
  intros Hoff Hb Hv [Hf Hs]. unfold published_at.
  pose proof (holding_unstage m name _ Hoff (holding_stage m name f _ Hoff Hb)) as [Hset Hl].
  assert (lease_file_name selector ≠ name) as Hne by apply Hoff. split.
  - intros sel g. destruct (decide (lease_file_name selector = lease_file_name sel)) as [Heq|Hn].
    + rewrite <-Heq, lookup_insert_eq. by intros [= <-].
    + rewrite lookup_insert_ne by done. apply Hset.
  - rewrite (leases_in_insert selector f r); [by rewrite Hl|by apply Henc|done|].
    intros g. rewrite lookup_delete_ne, lookup_insert_ne by done. intros Hg. rewrite Hl.
    destruct Hb as [_ <-]. by eapply Hv.
Qed.

Lemma wp_publish_lease name base f no_replace rename_error w :
  off_leases name → holding_leases m base → vacant base → settled_as enc f →
  St (<[name := f]> base) (among F) w →
  wp (always_drop (publish_lease (mkStaged name (Some name) true) (lease_file_name selector) no_replace rename_error))
    (ensures writing_left (λ _, leaves (holding_leases (<[selector := r]> m)) (λ _, False))) w.
Proof.
  intros Hoff Hb Hv Hf Hst. pose proof (published_holds _ _ _ Hoff Hb Hv Hf) as Hpub.
  pose proof (holding_stage m name f _ Hoff Hb) as Hstage.
  assert (∀ now' m' w', holding_leases m' now' → St now' (λ img, among F img ∨ img = <[name := f]> base) w' →
    now_holds F m' w') as Hafter.
  { intros now' m' w' Hm' Hw'. eapply St_leaves; [done..|]. intros img [?| ->]; [done|]. by eapply holding_among. }
  eapply wp_ensures; [apply (wp_publishes_dropped rename_error lease_io (among F));
    [by rewrite lookup_insert_eq|done]|..].
  - intros w' [Hu|[Hr|[_ Hd]]]; [left|right|left].
    + by eapply St_writing.
    + by eapply Hafter.
    + eapply Hafter; [|done]. by apply holding_unstage.
  - intros u w' Hs. eapply St_leaves; [exact Hs|exact Hpub|done].
Qed.

(** Staging and publishing under the lock. *)
Lemma wp_write_lease {A} (a : A) base no_replace rename_error d :
  holding_leases m base → vacant base → on_leases (St base (among F)) d →
  wp (staged ← stage_lease_document self selector enc;
      _ ← in_leases (always_drop (publish_lease staged (lease_file_name selector) no_replace rename_error));
      mret a)
    (ensures (on_leases writing_left) (λ a', on_leases (λ w, a' = a ∧
      leaves (holding_leases (<[selector := r]> m)) (λ _, False) w))) d.
Proof.
  intros Hb Hv [Hi Hst].
  destruct (temporary_off_leases (E := LeaseStoreError) selector d) as (name & d1 & Hrun & Hoff & Hl1 & Hi1).
  eapply wp_bind with (R := λ sg, on_leases (λ w, sg = mkStaged name (Some name) true ∧
    ∃ f, settled_as enc f ∧ St (<[name := f]> base) (among F) w)).
  { unfold stage_lease_document, mbind, io_bind, catch, wp. rewrite Hrun.
    eapply (wp_ensures (in_leases _)); [apply wp_in_leases; [by rewrite Hi1|rewrite Hl1; by eapply wp_stage_lease]| |done].
    intros d2 Hd2. eapply on_leases_mono; [done|]. by left. }
  intros sg d2 (Hi2 & -> & f & Hf & Hst2). eapply wp_bind; [apply wp_in_leases; [done|by eapply wp_publish_lease]|].
  intros u d3 H3. apply wp_lift. simpl. eapply on_leases_mono; [exact H3|]. auto.
Qed.
End writing.

(** ** The calls *)

Lemma encoded_reads r text :
  lease_identity_ok (ls_identity r) → encode_lease_document r = Ok text →
  ∀ f, f_bytes f = String.list_ascii_of_string text → lease_in f = Some r.
Proof.
  intros [Hid Hinst] Henc f Hf. unfold lease_in. rewrite Hf, String.string_of_list_ascii_of_string.
  by rewrite (lease_round_trip r).
Qed.

(** What a call that fails or stops leaves, and one that returns. *)
Definition call_left (F change : leases → Prop) (m m' : leases) (w : World) : Prop :=
  now_holds F m w ∨ change m' ∧ now_holds F m' w.

Definition call_done (change : leases → Prop) (m' : leases) (w : World) : Prop :=
  change m' ∧ leaves (holding_leases m') (λ _, False) w.

Lemma call_done_left (F change : leases → Prop) m m' w : call_done change m' w → call_left F change m m' w.
Proof. intros [Hc Hl]. right. split; [done|]. by eapply leaves_mono. Qed.

Section calls.
Context (F : leases → Prop) (m : leases) (HF : F m) (r : LeaseRecord) (Hok : lease_identity_ok (ls_identity r)).

Let m' : leases := <[from_identity (ls_identity r) := r]> m.

Lemma wp_load_locked base φ selector d :
  on_leases (St base φ) d →
  wp (lease_load_locked self selector) (ensures (on_leases (St base φ)) (λ o, on_leases (λ w, St base φ w ∧
    match o with
    | None => base !! lease_file_name selector = None
    | Some r => lease_at base selector r
    end))) d.
Proof.
  intros [Hi Hst]. eapply wp_bind_lift; [done|]. intros _ _. apply wp_in_leases; [done|]. by apply wp_read_lease.
Qed.

(** A call that loads the lease under the lock, and refuses or writes [r]. *)
Lemma wp_lease_call {A : Type} (change : leases → Prop) (a : A) base no_replace rename_error text d
    (k : option LeaseRecord → prog LeaseDisk LeaseStoreError A) :
  encode_lease_document r = Ok text → holding_leases m base → on_leases (St base (among F)) d →
  (∀ o, o = m !! from_identity (ls_identity r) →
    (∃ e, k o = lift (Err e)) ∨
    change m' ∧ k o =
      (staged ← stage_lease_document self (from_identity (ls_identity r)) (String.list_ascii_of_string text);
       _ ← in_leases (always_drop (publish_lease staged (lease_file_name (from_identity (ls_identity r)))
                                     no_replace rename_error));
       mret a)) →
  wp (lease_locked self (loaded ← lease_load_locked self (from_identity (ls_identity r)); k loaded))
    (ensures (on_leases (call_left F change m m')) (λ a', on_leases (λ w, a' = a ∧ call_done change m' w))) d.
Proof.
  intros Henc Hb Hd Hk. assert (∀ w, St base (among F) w → call_left F change m m' w) as Hsame.
  { intros w Hw. left. by eapply St_writing. }
  eapply (wp_lease_locked _ _ _ (λ a' w, a' = a ∧ call_done change m' w));
    [done|done|by intros a' w [_ ?]; apply call_done_left|]. intros d1 H1.
  eapply wp_bind; [eapply wp_ensures; [by apply wp_load_locked|by intros ? ?; eapply on_leases_mono|by intros ? ? H; exact H]|].
  intros o d2 (Hi2 & Hst2 & Ho). simpl in Ho.
  assert (o = m !! from_identity (ls_identity r) ∧ vacant (from_identity (ls_identity r)) base) as [Hom Hv].
  { destruct Hb as [_ <-]. destruct o as [r0|].
    - apply lookup_leases_in in Ho. split; [done|]. intros f _. rewrite Ho. by eexists.
    - split; [|intros f Hf; congruence]. symmetry. apply eq_None_not_Some. intros [r0 (f & Hf & _)%lookup_leases_in]. congruence. }
  destruct (Hk o Hom) as [[e ->]|[Hch ->]]; [by apply wp_lift; split; [|apply Hsame]|].
  eapply wp_ensures; [eapply (wp_write_lease F m HF _ r eq_refl _ (encoded_reads _ _ Hok Henc) a base); [done..|by split]|..].
  - intros d3 H3. eapply on_leases_mono; [done|]. intros w [?|?]; [by left|by right].
  - simpl. intros a' d3 H3. eapply on_leases_mono; [exact H3|]. by intros w [? ?].
Qed.

Lemma validated_selector selector :
  validate_lease_record self r = Ok selector → selector = from_identity (ls_identity r).
Proof. unfold validate_lease_record, validate_selector. intros H. repeat case_match; by simplify_eq/=. Qed.

Lemma wp_linux_create base d :
  holding_leases m base → on_leases (St base (among F)) d →
  wp (linux_lease_create self r) (ensures (on_leases (call_left F (lease_created r m) m m'))
    (λ receipt, on_leases (λ w, receipt = mkLeaseReceipt LeaseCreated (ls_revision r) ∧ call_done (lease_created r m) m' w))) d.
Proof.
  intros Hb Hd. assert (on_leases (call_left F (lease_created r m) m m') d) as Hsame.
  { eapply on_leases_mono; [done|]. intros w Hw. left. by eapply St_writing. }
  eapply wp_bind_lift; [done|]. intros selector ->%validated_selector.
  eapply wp_bind_lift; [done|]. intros text Htext.
  destruct (encode_lease_document r) as [text'|e|] eqn:Henc; [|done..]. injection Htext as ->.
  eapply wp_lease_call; [done..|]. intros [r0|] Ho; [left; by eexists|]. right. by split.
Qed.

Lemma wp_linux_replace expected base d :
  holding_leases m base → on_leases (St base (among F)) d →
  wp (linux_lease_replace self expected r) (ensures (on_leases (call_left F (lease_replaced expected r m) m m'))
    (λ receipt, on_leases (λ w, receipt = mkLeaseReceipt LeaseReplaced (ls_revision r) ∧
       call_done (lease_replaced expected r m) m' w))) d.
Proof.
  intros Hb Hd. assert (on_leases (call_left F (lease_replaced expected r m) m m') d) as Hsame.
  { eapply on_leases_mono; [done|]. intros w Hw. left. by eapply St_writing. }
  eapply wp_bind_lift; [done|]. intros selector ->%validated_selector.
  eapply wp_bind_lift; [done|]. intros next Hnext.
  destruct (checked_add u64_max expected 1) as [next'|] eqn:Hadd; [|done]. injection Hnext as ->.
  apply checked_add_Some in Hadd as [-> _]. case_match eqn:Hrev; [done|]. bprop.
  eapply wp_bind_lift; [done|]. intros text Htext.
  destruct (encode_lease_document r) as [text'|e|] eqn:Henc; [|done..]. injection Htext as ->.
  eapply wp_lease_call; [done..|]. intros [current|] Ho; [|left; exists LseMissing; reflexivity].
  cbv beta iota delta [mbind io_bind catch lift ok_or].
  destruct (bool_decide_reflect (ls_identity current = ls_identity r)) as [Hid|];
    [|left; exists LseCorruptState; reflexivity].
  destruct (N.eqb_spec (ls_revision current) expected) as [Hexp|];
    [|left; exists (LseStaleRevision expected (ls_revision current)); reflexivity].
  right. split; [|reflexivity]. by exists current.
Qed.
End calls.

(** ** The store as a [LeaseStore] *)

#[local] Instance linux_store : LeaseStore LeaseDisk := {|
  lease_load selector d := returned (lease_load_locked self selector d);
  lease_create r d := returned (linux_lease_create self r d);
  lease_replace_if_revision expected r d := returned (linux_lease_replace self expected r d);
|}.

Definition found_leases (w : World) (m : leases) : Prop := ∃ img, img ∈ w_now w :: w_past w ∧ leases_in img = m.

(** Another process takes over: the lock is free. *)
Definition disk_reopens (d d' : LeaseDisk) : Prop :=
  (∃ script, ld_installation d' = with_locked false (with_script script (ld_installation d))) ∧
  (∃ script, ld_leases d' = with_locked false (with_script script (ld_leases d))).

(** The machine restarts; if the entry of the leases is gone, so are they. *)
Definition disk_reboots (d d' : LeaseDisk) : Prop :=
  restarts (ld_installation d) (ld_installation d') ∧
  (installed (w_now (ld_installation d')) ∧ restarts (ld_leases d) (ld_leases d') ∨
   ¬ installed (w_now (ld_installation d')) ∧ w_now (ld_leases d') = ∅ ∧ w_past (ld_leases d') = []).

Definition disk_view : LeaseView LeaseDisk :=
  mkLeaseView _ (λ d, leases_in (w_now (ld_leases d))) (λ d, found_leases (ld_leases d))
    (on_leases (images settled_img)) disk_reopens disk_reboots.

Lemma sound_St d :
  on_leases (images settled_img) d →
  holding_leases (lease_contents disk_view d) (w_now (ld_leases d)) ∧
  lease_found disk_view d (lease_contents disk_view d) ∧
  on_leases (St (w_now (ld_leases d)) (among (lease_found disk_view d))) d.
Proof.
  intros [Hi [Hn Hp]]. split_and!; [done|exists (w_now (ld_leases d)); split; [by left|done]|].
  split; [done|]. split; [done|]. rewrite Forall_forall in *. intros img Himg. split; [by apply Hp|].
  exists img. split; [by right|done].
Qed.

(** What a call left, in the terms of the contract. *)
Lemma now_holds_found d m d' :
  on_leases (now_holds (lease_found disk_view d) m) d' →
  lease_sound disk_view d' ∧ lease_contents disk_view d' = m ∧
  ∀ m', lease_found disk_view d' m' → m' = m ∨ lease_found disk_view d m'.
Proof.
  intros [Hi [[Hs Hm] Hp]]. split_and!; [|done|].
  - split; [done|]. split; [done|]. eapply Forall_impl; [done|]. by intros img [? _].
  - intros m' (img & [->|Hin]%elem_of_cons & <-); [by left|]. right. rewrite Forall_forall in Hp. by apply Hp.
Qed.

Lemma now_holds_kept d d' :
  lease_found disk_view d (lease_contents disk_view d) →
  on_leases (now_holds (lease_found disk_view d) (lease_contents disk_view d)) d' → lease_kept disk_view d d'.
Proof. intros Hf (Hs & Hm & Ha)%now_holds_found. split_and!; [done..|]. by intros m [->|]%Ha. Qed.

(** A call that keeps [call_left] and [call_done] keeps the contract. *)
Lemma call_effect {A} (m : prog LeaseDisk LeaseStoreError A) (change : leases → leases → Prop) m' (Q : A → Prop) d d' res :
  lease_found disk_view d (lease_contents disk_view d) →
  wp m (ensures
    (on_leases (call_left (lease_found disk_view d) (change (lease_contents disk_view d)) (lease_contents disk_view d) m'))
    (λ a, on_leases (λ w, Q a ∧ call_done (change (lease_contents disk_view d)) m' w))) d →
  returned (m d) = (d', res) →
  is_ok res = false ∧ lease_kept disk_view d d' ∨ lease_written disk_view (is_ok res) change d d'.
Proof.
  intros Hf Hwp Hrun. pose proof (returned_wp _ _ _ _ _ _ Hwp Hrun) as Hr.
  assert (∀ ok, on_leases (call_left (lease_found disk_view d) (change (lease_contents disk_view d)) (lease_contents disk_view d) m') d' →
    ok = false → ok = false ∧ lease_kept disk_view d d' ∨ lease_written disk_view ok change d d') as Hleft.
  { intros ok [Hi [Hk|[Hc Hw]]] ->; [left; split; [done|]; by apply now_holds_kept|right].
    destruct (now_holds_found _ _ _ (conj Hi Hw)) as (Hs & Hm & Ha). split_and!; [done|by rewrite Hm|].
    rewrite Hm. intros m0 [->|]%Ha; auto. }
  destruct res as [a|e|]; [|by apply Hleft..]. right. destruct Hr as (Hi & _ & Hc & [Hs Hm] & Hp). simpl.
  assert (w_past (ld_leases d') = []) as Hpast by by destruct (w_past (ld_leases d')); [|inversion Hp].
  split_and!; [split; [done|]; split; [done|by rewrite Hpast]|by simpl; rewrite Hm|].
  intros m0 (img & Hin & <-). rewrite Hpast in Hin. apply list_elem_of_singleton in Hin as ->. by left.
Qed.

Lemma leases_in_survivors kept img : settled_img img → leases_in (survivors kept img) = leases_in img ∧ settled_img (survivors kept img).
Proof.
  intros Hs. assert (∀ sel, survivors kept img !! lease_file_name sel = img !! lease_file_name sel) as Heq.
  { intros sel. rewrite lookup_survivors. destruct (img !! _) as [f|] eqn:Hf; [|done]. simpl. f_equal.
    unfold survives. by rewrite (Hs _ _ Hf). }
  split; [by apply leases_in_eq|]. intros sel f. rewrite Heq. apply Hs.
Qed.

Lemma restarted_leases w w' :
  images settled_img w → restarts w w' → images settled_img w' ∧ ∀ m, found_leases w' m → found_leases w m.
Proof.
  intros Himg Hr. split; [by eapply restarts_images; [|done..]; intros kept img Hs; apply leases_in_survivors|].
  destruct Hr as [script|files kept script Hin]; [done|]. intros m (img & Himg' & <-).
  apply list_elem_of_singleton in Himg' as ->. exists files. split; [done|].
  symmetry. apply leases_in_survivors. destruct Himg as [Hn Hp]. rewrite Forall_forall in Hp.
  apply elem_of_cons in Hin as [->|Hin]; auto.
Qed.

Theorem linux_lease_store_contract : LeaseStoreLaws disk_view.
Proof.
  split.
  - intros d Hs. apply (sound_St d Hs).
  - intros selector d d' res Hs Hrun. destruct (sound_St d Hs) as (Hh & Hf & Hd).
    pose proof (returned_wp _ _ _ _ _ _ (wp_load_locked _ _ selector d Hd) Hrun) as Hr.
    assert (on_leases (St (w_now (ld_leases d)) (among (lease_found disk_view d))) d') as Hd'.
    { destruct res as [o|e|]; [|done..]. eapply on_leases_mono; [exact Hr|]. by intros w [? _]. }
    split; [apply now_holds_kept; [done|]; eapply on_leases_mono; [done|]; intros w Hw; by eapply St_writing|].
    intros o ->. destruct Hr as (_ & _ & Ho). simpl. destruct o as [r|].
    + symmetry. by apply lookup_leases_in.
    + symmetry. apply eq_None_not_Some. intros [r (f & Hfile & _)%lookup_leases_in]. congruence.
  - intros r d d' res Hs Hok Hrun. destruct (sound_St d Hs) as (Hh & Hf & Hd).
    by eapply call_effect; [|apply (wp_linux_create _ _ Hf r Hok _ d Hh Hd)|].
  - intros expected r d d' res Hs Hok Hrun. destruct (sound_St d Hs) as (Hh & Hf & Hd).
    by eapply call_effect; [|apply (wp_linux_replace _ _ Hf r Hok expected _ d Hh Hd)|].
  - intros [wi wl p q] [wi' wl' p' q'] [Hi Hl] [[script1 H1] [script2 H2]]. simpl in *. subst. by split_and!.
  - intros d d' [Hi Hl] [Hri Hrl]. destruct Hrl as [[Hin Hrl]|[Hnot _]].
    + destruct (restarted_leases _ _ Hl Hrl) as [Hl' Hf']. split; [|done]. split; [|done].
      eapply restarts_images; [|exact Hi|done]. intros kept img [f Hf]. exists (survives (kept LEASES_DIRECTORY) f).
      by rewrite lookup_survivors, Hf.
    + exfalso. apply Hnot. eapply (restarts_images installed); [|exact Hi|done].
      intros kept img [f Hf]. exists (survives (kept LEASES_DIRECTORY) f). by rewrite lookup_survivors, Hf.
Qed.
End store.


(** ** Opening *)

(** The lock is not there yet, or the entry of the leases is durable. *)
Definition openable (w : World) : Prop := w_now w !! LEASES_LOCK_FILE = None ∨ images installed w.

Definition opening (w : World) : Prop := openable w ∧ installed (w_now w).

Lemma openable_keeps w w' : openable w → keeps w w' → openable w'.
Proof. intros [Hn|Hi] Hk; [left; by rewrite (proj1 Hk)|right; by eapply keeps_images]. Qed.

Lemma opening_keeps w w' : opening w → keeps w w' → opening w'.
Proof. intros [Ho Hi] Hk. split; [by eapply openable_keeps|]. by rewrite (proj1 Hk). Qed.

Lemma wp_quiet_keeping {E A} (m : io E A) `{QUIET : !Quiet m} (I : World → Prop) w :
  (∀ w1 w2, I w1 → keeps w1 w2 → I w2) → I w → wp m (ensures (λ _, True) (λ _, I)) w.
Proof. intros HI Hw. eapply wp_mono; [apply QUIET|]. intros [[]|] w' Hk; [by eapply HI|done..]. Qed.

Lemma wp_open_leases_directory w :
  openable w → wp (open_directory LEASES_DIRECTORY) (λ out w',
    match out with
    | Done (Ok name) => name = LEASES_DIRECTORY ∧ opening w'
    | Stopped => True
    | _ => openable w'
    end) w.
Proof.
  intros Ho. apply wp_atomic; intros script; [|done..]. simpl.
  destruct (w_now w !! LEASES_DIRECTORY) as [f|] eqn:Hf; [|done]. destruct (f_type f); try done.
  split; [done|]. split; [done|]. by exists f.
Qed.

(** A file of the installation that is changed is still there. *)
Lemma installed_insert name f img : installed img → installed (<[name := f]> img).
Proof.
  intros [g Hg]. unfold installed. destruct (decide (name = LEASES_DIRECTORY)) as [->|Hne];
    [rewrite lookup_insert_eq|rewrite lookup_insert_ne by done]; eauto.
Qed.

Lemma opening_change_file f w : opening w → opening (change_file LEASES_DIRECTORY f w).
Proof.
  intros [Ho Hi]. split; [|by apply installed_insert]. destruct Ho as [Hn|[Hn Hp]].
  - left. simpl. by rewrite lookup_insert_ne.
  - right. split; [by apply installed_insert|done].
Qed.

Lemma wp_prepare_leases_directory owner created w :
  openable w → wp (prepare_leases_directory owner created) (ensures (λ _, True) (λ _, opening)) w.
Proof.
  intros Ho. eapply wp_bind with (R := λ name w', name = LEASES_DIRECTORY ∧ opening w').
  { apply wp_failing. eapply wp_mono; [by apply wp_open_leases_directory|]. by intros [[]|] w' H. }
  intros name w1 [-> H1]. eapply wp_bind with (R := λ _, opening).
  { destruct created; [|by apply wp_lift]. apply wp_failing, wp_atomic; intros script; [|done..].
    unfold on_file. simpl. destruct (w_now w1 !! _) as [f|]; [|done]. by apply (opening_change_file _ (with_script script w1)). }
  intros ? w2 H2. eapply wp_bind; [apply (wp_quiet_keeping _ opening); [apply opening_keeps|done]|].
  intros ? w3 H3. destruct created; [|by apply wp_lift].
  apply (wp_quiet_keeping lease_synchronize_directory opening); [apply opening_keeps|done].
Qed.

Lemma wp_ensure_leases_directory owner w :
  openable w → wp (ensure_leases_directory owner) (ensures (λ _, True) (λ _, opening)) w.
Proof.
  intros Ho. apply wp_catch. eapply wp_mono; [by apply wp_open_leases_directory|].
  intros [[name|e|]|] w1 H1; [|destruct e|..]; try done.
  - destruct H1 as [-> H1]. eapply wp_bind; [apply (wp_quiet_keeping _ opening); [apply opening_keeps|done]|].
    intros ? w2 H2. by apply wp_lift.
  - eapply wp_bind with (R := λ _, openable); [|intros created w2 H2; by apply wp_prepare_leases_directory].
    apply wp_catch, wp_atomic; intros script; [|intros []; by apply wp_lift|done]. simpl.
    destruct (w_now w1 !! LEASES_DIRECTORY) as [f|] eqn:Hf; [done|]. apply wp_lift. simpl.
    destruct H1 as [Hn|[[g Hg] _]]; [|congruence]. left. simpl. by rewrite lookup_insert_ne.
Qed.

Lemma wp_ensure_lock_file owner w :
  opening w → wp (ensure_lock_file owner) (ensures (λ _, True) (λ _, images installed)) w.
Proof.
  intros [Ho Hi]. apply wp_catch, wp_atomic; intros script; [|intros []; by apply wp_lift|done]. simpl.
  destruct (w_now w !! LEASES_LOCK_FILE) as [f|] eqn:Hf; simpl.
  - destruct Ho as [|Hinst]; [congruence|].
    assert (∀ w1 w2, images installed w1 → keeps w1 w2 → images installed w2) as Hkeep by (intros; by eapply keeps_images).
    eapply wp_bind; [by apply (wp_quiet_keeping _ (images installed))|]. intros lock w1 H1.
    by apply (wp_quiet_keeping _ (images installed)).
  - pose (I := λ w', installed (w_now w')).
    assert (∀ w1 w2, I w1 → keeps w1 w2 → I w2) as Hkeep by (intros w1 w2 H1 [Hn _]; unfold I; by rewrite Hn).
    apply wp_catch. eapply wp_mono with (Φ := ensures (λ _, True) (λ _, images installed)).
    2: { intros [[u|e|]|] w' H; [done|..|done]; apply wp_catch;
           (eapply wp_mono with (Φ := λ _ _, True); [unfold wp; by destruct (ignoring _ _)|by intros [[]|]]). }
    eapply wp_bind with (R := λ _, I).
    { apply wp_failing, wp_atomic; intros; [|done..]. unfold on_file. simpl. rewrite lookup_insert_eq. simpl.
      by do 2 apply installed_insert. }
    intros ? w2 H2. eapply wp_bind; [by apply (wp_quiet_keeping _ I)|]. intros ? w3 H3.
    eapply wp_bind with (R := λ _, I).
    { apply wp_failing, wp_atomic; intros; [|done..]. unfold on_file. simpl. destruct (w_now w3 !! _); [|done].
      simpl. by apply installed_insert. }
    intros ? w4 H4. apply wp_failing, wp_atomic; intros; [|done..]. by split.
Qed.

(** Opening a store whose lock it makes, or whose entry was durable, leaves the
    entry of the leases durable and the leases alone. *)
Theorem opening_is_durable installation_id d d' store :
  openable (ld_installation d) → open_or_create installation_id d = (d', Done (Ok store)) →
  images installed (ld_installation d') ∧ ld_leases d' = ld_leases d ∧ ll_installation_id store = installation_id.
Proof.
  intros Ho. unfold open_or_create.
  set (opens := (_ ← failing map_installation_open_error (open_dir w_dir); _) : io LeaseStoreError LinuxLeaseStore).
  assert (wp opens
    (ensures (λ _, True) (λ store w, images installed w ∧ ll_installation_id store = installation_id)) (ld_installation d)) as Hwp.
  { eapply wp_bind; [apply (wp_quiet_keeping _ openable); [apply openable_keeps|done]|]. intros ? w1 H1.
    eapply wp_bind; [apply (wp_quiet_keeping _ openable); [apply openable_keeps|done]|]. intros stat w2 H2.
    eapply wp_bind; [by apply wp_ensure_leases_directory|]. intros ? w3 H3.
    eapply wp_bind; [by apply wp_ensure_lock_file|]. intros ? w4 H4. by apply wp_lift. }
  unfold wp, in_installation in *. destruct (opens (ld_installation d)) as [w out]. intros [= <- ->]. by destruct Hwp.
Qed.

(** ** Samples *)

(** A serializer of the pending and of the active sample. *)
Definition sample_lease_wire (n : N) : LeaseRecordWire :=
  lease_wire (sample_lease_record (if n =? 0 then LeasePending else LeaseActive) n).

#[export] Instance lease_wire_eq_dec : EqDecision LeaseRecordWire.
Proof. solve_decision. Defined.

Definition sample_lease_serde : LeaseSerde := {|
  lease_to_string wire :=
    if bool_decide (wire = sample_lease_wire 0) then Some "0"
    else if bool_decide (wire = sample_lease_wire 1) then Some "1" else None;
  lease_from_slice text :=
    if String.eqb text ("0" +:+ newline_string)%string then Some (sample_lease_wire 0)
    else if String.eqb text ("1" +:+ newline_string)%string then Some (sample_lease_wire 1) else None;
|}.

Lemma sample_lease_serde_laws : LeaseSerdeLaws (LSERDE := sample_lease_serde).
Proof.
  intros wire text. cbn [lease_to_string sample_lease_serde].
  destruct (bool_decide_reflect (wire = sample_lease_wire 0)) as [->|_]; [by intros [= <-]|].
  destruct (bool_decide_reflect (wire = sample_lease_wire 1)) as [->|_]; [by intros [= <-]|done].
Qed.

Definition sample_owner : N * N := (501, 20).

Definition sample_lease_store : LinuxLeaseStore := mkLinuxLeaseStore "installation-0001" sample_owner.

Definition sample_lease_world (now : entries) (script : list Event) : World :=
  mkWorld now [] (Some (mkStat DirectoryFile 2 LEASE_DIRECTORY_MODE sample_owner 0)) None sample_owner 18 false script.

(** An installation with its lock and its directory of leases, or with nothing. *)
Definition sample_installation : entries :=
  <[LEASES_DIRECTORY := mkFile DirectoryFile 2 LEASE_DIRECTORY_MODE sample_owner [] true]>
  {[LEASES_LOCK_FILE := mkFile RegularFile 1 LEASE_FILE_MODE sample_owner [] true]}.

Definition sample_lease_disk (installation : entries) (script : list Event) : LeaseDisk :=
  mkLeaseDisk (sample_lease_world installation script) (sample_lease_world ∅ []) 7 1.

Section samples.
#[local] Existing Instance sample_lease_serde.

(** A lease is created; the machine restarts. *)
Definition sample_disk_created : LeaseDisk * result LeaseStoreError LeaseWriteReceipt :=
  returned (linux_lease_create sample_lease_store (lease_pending sample_lease) (sample_lease_disk sample_installation [])).

Definition rebooted (d : LeaseDisk) (installation files : entries) : LeaseDisk :=
  let restarted now w := mkWorld now [] (w_dir w) (w_root w) (w_creator w) (w_umask w) false [] in
  mkLeaseDisk (restarted installation (ld_installation d)) (restarted files (ld_leases d)) 8 1.

Definition sample_rebooted : LeaseDisk :=
  rebooted sample_disk_created.1 (survivors (λ _, 0%nat) (w_now (ld_installation sample_disk_created.1)))
    (survivors (λ _, 0%nat) (w_now (ld_leases sample_disk_created.1))).

Lemma sample_disk_trace :
  lease_trace (view := disk_view) (STORE := linux_store sample_lease_store) (sample_lease_disk sample_installation [])
    [] (confirmed sample_disk_created.2 (lease_pending sample_lease) ++ []) sample_rebooted.
Proof.
  eapply trace_reboot; [eapply trace_create; [constructor|apply sample_lease_ok|apply surjective_pairing]|].
  split; [apply (machine_restarts _ _ (λ _, 0%nat)); by left|]. left. split.
  - vm_compute. by eexists.
  - apply (machine_restarts _ _ (λ _, 0%nat)). by left.
Qed.


(** ** Two interrupted openings

    One process stops after it made the directory of the leases, the next after
    it made the lock.  The third opens the store without synchronizing the
    installation, and creates a lease; the call is confirmed, and a restart of
    the machine finds an installation without leases. *)
Definition stopped_opening (calls : nat) (d : LeaseDisk) : LeaseDisk :=
  (open_or_create "installation-0001" (mkLeaseDisk (with_script (replicate calls EvServe ++ [EvStop 0]) (ld_installation d))
     (ld_leases d) (ld_process d) (ld_sequence d))).1.

Definition sample_opened : LeaseDisk * outcome LeaseStoreError LinuxLeaseStore :=
  open_or_create "installation-0001" (stopped_opening 5 (stopped_opening 4 (sample_lease_disk ∅ []))).

Definition sample_doomed : LeaseDisk * result LeaseStoreError LeaseWriteReceipt :=
  returned (linux_lease_create sample_lease_store (lease_pending sample_lease) sample_opened.1).

Definition sample_lost : LeaseDisk := rebooted sample_doomed.1 (survivors (λ _, 0%nat) ∅) ∅.

Lemma interrupted_openings_lose_leases :
  sample_opened.2 = Done (Ok sample_lease_store) ∧ sample_doomed.2 = Ok (mkLeaseReceipt LeaseCreated 0) ∧
  disk_reboots sample_doomed.1 sample_lost ∧ lease_contents disk_view sample_lost = ∅.
Proof.
  split_and!; [vm_compute; reflexivity..| |reflexivity]. split.
  - assert (∅ ∈ w_past (ld_installation sample_doomed.1)) as Hin by (vm_compute; by right; left).
    apply (machine_restarts (ld_installation sample_doomed.1) ∅ (λ _, 0%nat) []). by right.
  - right. split_and!; [|done..]. intros [f Hf]. cbn in Hf. by rewrite lookup_survivors, lookup_empty in Hf.
Qed.
End samples.
